(* ===== verification/_CoqProject ===== *)
-Q . S2P
Prelude.v
Util.v
SpoeSlot.v
SpoeQueue.v
SpoeAssembler.v
SpoeConnection.v
ProcessDataRing.v
ProcessBits.v
BusLocks.v
Capture.v
Procedures.v
Refresher.v
Sii.v
Driver.v
PdoMapping.v
PdoSlave.v
ProcessImage.v
BusStates.v
DeviceParameter.v
Floats.v
Json.v
ParameterCache.v
EsiTypes.v
EsiEntries.v
EsiCache.v
IntegroVariant.v
FirmwarePackage.v
Router.v
UserCache.v
IcHausRegisters.v
IcMu.v
IcMuMotion.v
Monitoring.v
ConfigFile.v
DeviceStore.v
CycleDrain.v
RtCycle.v
Cia402.v
OsCommand.v
SomanetFiles.v
OdValues.v
Cia402Drive.v
Cia402Objects.v
Script.v
IcMuBridge.v
IcMuProcedures.v
DeviceInit.v
DeviceValues.v
Diagnostics.v
ProcedureReports.v
FirmwareInstall.v
SpoeDriver.v
SpoeTransfers.v
SpoeDictionary.v
SpoeExchange.v
