(* ===== verification/Prelude.v ===== *)
(** * Motion Master: a verification development

    Motion Master is a fieldbus master for EtherCAT drives. A real-time thread exchanges the process
    image with the bus once per cycle; a control plane (HTTP workers, procedures, background
    polling) scans the bus, changes states, reads and writes object dictionaries and files. The two
    meet in lock-free structures. This library models the program's own logic, in
    [src/libs/{core,comm,node,capture}], as executable definitions and proves what makes it correct.

    ** Parts and files

    - Shared: [Prelude] (errors, fixed-width integers, bytes, slices, invariants and schedules of
      transition systems, tactics and hints), [Util] ([core/util.h], MAC addresses of [comm/base.cc]).
    - Buffers between the real-time thread and the rest: [ProcessDataRing] (the flight recorder,
      [node/process_data_ring]), [SpoeSlot], [SpoeQueue], [SpoeAssembler]
      ([comm/spoe_process_data]). Sequential operations, and the threads interleaved at every
      atomic access and every copied byte.
    - The wire: [SpoeConnection] ([comm/spoe_frame], [comm/spoe_connection]), [Sii] ([comm/sii]),
      [Capture] ([capture/*]), [Driver] (the interface [comm/fieldbus_driver.h] and the error monad
      of its clients), [BusLocks] ([comm/control_plane_locks]).
    - Process data: [ProcessBits] and [ProcessImage] ([node/process_image]), [PdoMapping] and
      [PdoSlave] (reading and writing a mapping, [node/device.cc], against a conforming slave).
    - Devices: [DeviceParameter] ([node/device_parameter], [comm/object_data_types.h]),
      [DeviceStore] (the parameter store of [node/device.cc]), [ConfigFile] ([node/config_file]).
    - The device manager, [node/device_manager.cc]: [CycleDrain] (the handshake that lets the control
      plane replace what the cycle reads), [RtCycle] (what one cycle computes), [BusStates] (state
      changes, re-maps around them, restarts).
    - Clients: [Procedures] ([node/procedure_manager]), [Refresher] ([node/parameter_refresher]),
      [Monitoring] ([node/monitoring_manager]).
    - Drives: [Cia402] ([node/cia402.h]), [Cia402Drive] and [Cia402Objects] ([node/cia402_drive.cc]),
      [OsCommand], [SomanetFiles] and [OdValues] ([node/somanet_drive]).
    - The SPoE driver ([comm/spoe_fieldbus_driver]): [SpoeDriver] (its control plane and the locks it
      takes), [SpoeTransfers] (files), [SpoeDictionary] (the object dictionary), [SpoeExchange] (the
      layout, the exchange thread and the cycle, over the buffers above).
    - Procedures of a SOMANET drive ([node/somanet_procedures.cc]): [Script] (a procedure as a script
      of calls with arbitrary answers, weakest preconditions and monitors over its runs),
      [Diagnostics] (the restorer, the diagnostics-mode procedures and the OS-command procedures),
      [ProcedureReports] (their declared steps and reports), [FirmwareInstall] (the firmware
      installation).
    - Definitions and documents of a device: [ParameterCache] ([node/parameter_cache],
      [node/firmware_version]), [EsiTypes] ([etg/esi_data_type], [etg/esi_unit]), [EsiEntries]
      ([etg/esi_entry.cc] over the records of [etg/esi.h]), [EsiCache] ([node/esi_cache]);
      [DeviceInit] and [DeviceValues] compose them into [Device::initializeParameters]. [Json] holds
      what they use of the JSON library, [Floats] the conversions between float widths.
    - Packages and variants: [IntegroVariant] ([node/integro_variant]) and [FirmwarePackage]
      ([node/hardware_description], [node/firmware_package]).
    - The HTTP side: [Router] ([api/router] and the shutdown of [apps/motion_master/http_server.cc])
      and [UserCache] ([core/user_cache]).
    - iC-MU encoders: [IcHausRegisters] ([node/ic_haus_registers]), [IcMu] ([node/ic_mu_encoder],
      [node/ic_mu_eeprom] and the register codecs of [node/ic_mu_calibration]), [IcMuMotion] (the
      motion plan of a calibration, in doubles), [IcMuBridge] ([node/ic_mu_bridge] and the chip
      behind it), [IcMuProcedures] (configuration, status, EEPROM and restore-file procedures).

    Each file holds one [Module] of the same subject. Names are the source's where Rocq allows it.
    State is a [Record] with the source's members, an operation is a function on it, and code that
    threads share is a step function or step relation whose labels are the threads' choices.

    ** What the theorems show

    - Concurrency: a record, frame or queue element read across threads is whole and the right one
      ([ring_no_torn_read], [slot_read_newest_whole], [queue_concurrent_fifo]); the cycle never
      touches freed memory ([cycle_memory_safe]); locks exclude and make progress
      ([locks_exclude], [locks_progress]); one procedure a device ([procedures_exclusive]); one
      polling worker a drive, for half of its time ([drive_load_bounded]); streams lose and repeat
      nothing ([monitoring_lossless]).
    - Data: encodings are inverse to each other ([sdo_roundtrip], [recording_reassembled],
      [writeValue_readValue]), parsers accept exactly what they should ([validateSiiImage_iff],
      [od_values_exact]), objects of an image do not disturb each other
      ([image_objects_independent]), a store refines a map and keeps its cells
      ([publishParameters_spec], [store_stable]).
    - Control: walks through the CiA402 and EtherCAT state machines arrive, stay on permitted
      edges and end ([transitionToState_succeeds], [transition_guarded], [restart_reaches],
      [drive_loops_terminate]); an OS command gets its own verdict and restores the channel
      ([command_own_verdict], [mode_restored], [command_returns]).
    - The SPoE driver: locks are taken in one order and cover every request ([spoe_locks]), files and
      the dictionary arrive whole ([file_roundtrip], [dictionary_complete]), windows do not overlap and
      frames are delivered in order or counted as dropped ([layout_exchanged], [frames_conserved]).
    - Procedures: what is measured, written and restored is in the order that is safe whatever the
      device answers ([diagnostics_ordered], [diagnostics_restored], [install_ordered]), a success
      means the work was done ([install_complete]), waits end ([install_returns]), and the reports
      are those declared ([procedure_reports]).
    - Initialisation: what a device publishes comes from its own answers ([init_publishes],
      [init_values_complete]); the caches serve only the identity asked for and change nothing
      ([cache_serves_own], [cache_roundtrip], [warm_start], [esi_cache_transparent]); an ESI's table
      has one row per address, the one its policy selects, with the values the file means
      ([esi_table], [esi_bounds]).
    - Packages and routes: a package gives exactly what was asked for and is accepted only for the
      hardware it is built for ([package_exact], [compatible_exact]); responses reach their own
      client once ([router_safe], [router_answers]); no path a client names leaves the cache
      ([user_cache_confined]).
    - Encoders: a configuration or an erase that succeeds leaves registers, EEPROM and files as it
      promises ([encoder_configured], [eeprom_erased], [eeprom_exported]); the status bits are on
      again on every way out of a run ([status_bits_back]); register values round trip
      ([decode_exact], [restore_file_roundtrip], [nonius_roundtrip]) and a checksum finds every
      changed byte ([crc_finds_byte]).
    - Limits: what the code does not guarantee, as concrete schedules evaluated to the bad state
      ([handshake_limits], [procedure_limits], [monitoring_limits], [config_limits],
      [restore_limits], [install_limits], [mapping_read_ends], [router_limits], [start_outside],
      [bits_can_stay_off], [out_msb_overflows]).

    ** Conventions and bounds

    - A [w]-bit integer is a [Z] with its wrap-around written out; sizes and offsets of containers
      are [nat]; a byte string is a [list Z], a [std::string] a [text] of character codes.
    - An error message is a constructor that carries the formatted values.
    - Floats are IEEE bit patterns, computed with the Standard Library's [spec_float]; a NaN made by
      a conversion is the canonical one.
    - Atomics are sequentially consistent; a [memcpy] is a byte at a time; a block under a mutex is
      one step; what the operating system, the clock, the bus or another thread answers is free.
    - Loops that are not structural take fuel, and a theorem proves the fuel enough: the poll loop of
      an OS command needs one poll per millisecond of its two timeouts, a polling pass one read per
      tracked object, a wait for a restart of the firmware one round per 100 ms of its window and two
      more, a walk through the state machine the lengths stated at [drive_loops_terminate], the value
      pass one turn per entry, a parameterised type name one level of nesting ([resolve_fuel]), the
      wait for an iC-MU command 251 turns (20 ms each against a deadline of 5 s).
    - The chip of [IcMuBridge] does what its data sheet says: one command at a time, EPR_ERR after a
      failed transfer, page writes that wrap inside a page whose size is a multiple of 8 bytes.
    - Counters that would take centuries to wrap (recorder sequence numbers below [2^58] in
      [Monitoring], [2^64] registrations) are bounded in the step that increments them.
    - An external party (a slave, a drive's firmware, a socket, a file transfer, the JSON library) is
      a type class, with a concrete instance on which the witnesses run; the XML parser is a
      parameter. A file system is a map whose operations may each fail or stop part way.

    ** Not modelled

    The SOEM driver (calls into a C library), the handlers
    of the HTTP and WebSocket servers and the applications, the reading of XML trees in [etg/esi.cc] and the ENI
    documents of [libs/etg], JSON views, operating-system services of [libs/core], and the recording, tuning and
    calibration procedures of [node/somanet_procedures.cc] with what they call
    (floating-point signal processing and a binary library). *)

From Stdlib Require Export ZArith Lia Bool.
From stdpp Require Export base tactics option list list_numbers numbers strings gmap relations.

#[export] Set Default Proof Using "Type".
Global Open Scope Z_scope.

(** ** Error values

    [std::expected<A, E>]: a value, or the error that explains why there is none. An error
    message built with [std::format] is represented by a constructor that carries the formatted
    values. *)
Inductive expected (E A : Type) : Type :=
  | Value (a : A)
  | Unexpected (e : E).
Arguments Value {E A} a.
Arguments Unexpected {E A} e.

#[export] Instance expected_eq_dec {E A} `{EqDecision E, EqDecision A} :
  EqDecision (expected E A).
Proof. solve_decision. Defined.

Definition expected_bind {E A B} (m : expected E A) (k : A -> expected E B) : expected E B :=
  match m with
  | Value a => k a
  | Unexpected e => Unexpected e
  end.

Declare Scope mm_scope.
Delimit Scope mm_scope with mm.
Notation "'try' x := m 'in' k" := (expected_bind m (fun x => k))
  (at level 10, x name, m at level 100, k at level 200) : mm_scope.
Open Scope mm_scope.

Definition has_value {E A} (m : expected E A) : bool :=
  match m with Value _ => true | Unexpected _ => false end.

(** ** Fixed-width integers

    A [w]-bit unsigned integer is a [Z] in [0, 2^w); arithmetic that can leave the range is
    wrapped explicitly with [uwrap] or, for a signed type, [swrap] (two's complement). *)
Definition in_u (w x : Z) : Prop := 0 <= x < 2 ^ w.
Definition in_s (w x : Z) : Prop := - 2 ^ (w - 1) <= x < 2 ^ (w - 1).

#[export] Instance in_u_dec w x : Decision (in_u w x).
Proof. unfold in_u; apply _. Defined.
#[export] Instance in_s_dec w x : Decision (in_s w x).
Proof. unfold in_s; apply _. Defined.

Definition uwrap (w x : Z) : Z := x mod 2 ^ w.
Definition swrap (w x : Z) : Z :=
  let r := uwrap w x in if r <? 2 ^ (w - 1) then r else r - 2 ^ w.

Definition u8 (x : Z) : Z := uwrap 8 x.
Definition u16 (x : Z) : Z := uwrap 16 x.
Definition u32 (x : Z) : Z := uwrap 32 x.
Definition u64 (x : Z) : Z := uwrap 64 x.

Lemma uwrap_range w x : 0 <= w -> in_u w (uwrap w x).
Proof. intros. apply Z.mod_pos_bound. by apply Z.pow_pos_nonneg. Qed.

Lemma uwrap_id w x : in_u w x -> uwrap w x = x.
Proof. apply Z.mod_small. Qed.

Lemma swrap_range w x : 0 < w -> in_s w (swrap w x).
Proof.
  intros Hw. pose proof (uwrap_range w x ltac:(lia)) as [H1 H2].
  unfold swrap, in_s. replace (2 ^ w) with (2 * 2 ^ (w - 1)) in *
    by (rewrite <- Z.pow_succ_r by lia; f_equal; lia).
  destruct (Z.ltb_spec (uwrap w x) (2 ^ (w - 1))); lia.
Qed.

Lemma swrap_uwrap w x : 0 < w -> in_s w x -> swrap w (uwrap w x) = x.
Proof.
  intros Hw [H1 H2]. unfold swrap, uwrap. rewrite Z.mod_mod by (apply Z.pow_nonzero; lia).
  assert (E : 2 ^ w = 2 * 2 ^ (w - 1))
    by (rewrite <- Z.pow_succ_r by lia; f_equal; lia).
  destruct (decide (0 <= x)).
  - rewrite Z.mod_small by lia. destruct (Z.ltb_spec x (2 ^ (w - 1))); lia.
  - replace (x mod 2 ^ w) with (x + 2 ^ w).
    + destruct (Z.ltb_spec (x + 2 ^ w) (2 ^ (w - 1))); lia.
    + rewrite <- (Z.mod_small (x + 2 ^ w) (2 ^ w)) by lia.
      replace (x + 2 ^ w) with (x + 1 * 2 ^ w) by lia. apply Z_mod_plus_full.
Qed.

Lemma uwrap_swrap w x : 0 < w -> in_u w x -> uwrap w (swrap w x) = x.
Proof.
  intros Hw Hx. unfold swrap. rewrite (uwrap_id _ _ Hx).
  case_match.
  - by apply uwrap_id.
  - unfold uwrap. replace (x - 2 ^ w) with (x + (-1) * 2 ^ w) by lia.
    rewrite Z_mod_plus_full. by apply Z.mod_small.
Qed.

(** ** Byte strings

    A byte is a [Z]; [bytes_ok] says every element is in range. Reads that the code performs
    without a check of their own go through [!!], whose [None] stands for an out-of-bounds access
    (undefined behaviour in C++); reads behind a bounds check use the total [!!!]. *)
Abbreviation bytes := (list Z).

Definition bytes_ok (l : bytes) : Prop := Forall (in_u 8) l.

#[export] Instance bytes_ok_dec l : Decision (bytes_ok l).
Proof. unfold bytes_ok; apply _. Defined.

(** The byte at [i], 0 past the end. *)
Definition byte_at (l : bytes) (i : nat) : Z := default 0 (l !! i).

(** The [n] low bytes of [x], least significant first: what [memcpy] of an [n]-byte integer
    stores on a little-endian machine. *)
Fixpoint le_bytes (n : nat) (x : Z) : bytes :=
  match n with
  | O => []
  | S n' => x mod 256 :: le_bytes n' (x / 256)
  end.

Fixpoint le_value (l : bytes) : Z :=
  match l with
  | [] => 0
  | b :: l' => b + 256 * le_value l'
  end.

Lemma length_le_bytes n x : length (le_bytes n x) = n.
Proof. revert x; induction n; intros; simpl; auto. Qed.

Lemma le_bytes_ok n x : bytes_ok (le_bytes n x).
Proof.
  revert x; induction n as [|n IH]; intros x; constructor.
  - change (in_u 8 (uwrap 8 x)). by apply uwrap_range.
  - apply IH.
Qed.

Lemma pow256_S (n : nat) : 2 ^ (8 * Z.of_nat (S n)) = 256 * 2 ^ (8 * Z.of_nat n).
Proof.
  replace (8 * Z.of_nat (S n)) with (8 + 8 * Z.of_nat n) by lia.
  rewrite Z.pow_add_r by lia. reflexivity.
Qed.

Lemma le_value_bytes n x : le_value (le_bytes n x) = uwrap (8 * Z.of_nat n) x.
Proof.
  revert x; induction n as [|n IH]; intros x; cbn [le_bytes le_value].
  - unfold uwrap. simpl. by rewrite Z.mod_1_r.
  - rewrite IH. unfold uwrap. rewrite pow256_S.
    rewrite (Z.rem_mul_r x 256) by lia. lia.
Qed.

Lemma le_value_range l : bytes_ok l -> in_u (8 * Z.of_nat (length l)) (le_value l).
Proof.
  induction 1 as [|b l Hb Hl IH]; [by unfold in_u|].
  unfold in_u in *. cbn [le_value length]. rewrite pow256_S. lia.
Qed.

Lemma le_bytes_value l : bytes_ok l -> le_bytes (length l) (le_value l) = l.
Proof.
  induction 1 as [|b l [Hb1 Hb2] Hl IH]; [done|]. cbn [length le_bytes le_value].
  change (2 ^ 8) with 256 in Hb2. f_equal.
  - rewrite (Z.mul_comm 256), Z_mod_plus_full. by apply Z.mod_small.
  - rewrite (Z.mul_comm 256), Z.div_add by lia. by rewrite Z.div_small, Z.add_0_l.
Qed.

Lemma le_value_app l k :
  le_value (l ++ k) = le_value l + 2 ^ (8 * Z.of_nat (length l)) * le_value k.
Proof.
  induction l as [|b l IH]; [cbn [app le_value length]; lia|].
  cbn [app le_value length]. rewrite IH, pow256_S. lia.
Qed.

Lemma le_bytes_uwrap n x : le_bytes n (uwrap (8 * Z.of_nat n) x) = le_bytes n x.
Proof.
  rewrite <- le_value_bytes. rewrite <- (length_le_bytes n x) at 1.
  apply le_bytes_value, le_bytes_ok.
Qed.

(** The shape in which the code spells little-endian reads: [lo | (hi << k)]. *)
Lemma testbit_above k a i : 0 <= k -> in_u k a -> k <= i -> Z.testbit a i = false.
Proof.
  intros Hk Ha Hi. rewrite <- (uwrap_id k a Ha). by apply Z.mod_pow2_bits_high.
Qed.

Lemma lor_shiftl_add a b k :
  0 <= k -> in_u k a -> Z.lor a (Z.shiftl b k) = a + 2 ^ k * b.
Proof.
  intros Hk Ha. rewrite (Z.mul_comm _ b), <- Z.shiftl_mul_pow2 by done.
  symmetry. apply Z.add_nocarry_lor, Z.bits_inj'. intros i Hi.
  rewrite Z.land_spec, Z.bits_0. destruct (decide (i < k)).
  - rewrite Z.shiftl_spec_low by done. apply andb_false_r.
  - rewrite (testbit_above k) by (done || lia). done.
Qed.

Lemma lor_ok w a b : 0 <= w -> in_u w a -> in_u w b -> in_u w (Z.lor a b).
Proof.
  intros Hw Ha Hb. assert (E : Z.lor a b = uwrap w (Z.lor a b)).
  { unfold uwrap. rewrite <- Z.land_ones, Z.land_lor_distr_l, !Z.land_ones by done.
    by rewrite !Z.mod_small. }
  rewrite E. by apply uwrap_range.
Qed.

Lemma lxor_ok w a b : 0 <= w -> in_u w a -> in_u w b -> in_u w (Z.lxor a b).
Proof.
  intros Hw Ha Hb. assert (E : Z.lxor a b = uwrap w (Z.lxor a b)).
  { apply Z.bits_inj'. intros i Hi. unfold uwrap. destruct (decide (i < w)).
    - by rewrite Z.mod_pow2_bits_low.
    - rewrite Z.mod_pow2_bits_high, Z.lxor_spec by lia.
      by rewrite (testbit_above w a), (testbit_above w b) by (done || lia). }
  rewrite E. by apply uwrap_range.
Qed.

Lemma lxor_inj_r a b b' : Z.lxor a b = Z.lxor a b' -> b = b'.
Proof.
  intros E. apply (f_equal (Z.lxor a)) in E.
  by rewrite <- !Z.lxor_assoc, Z.lxor_nilpotent, !Z.lxor_0_l in E.
Qed.

(** ** Lists

    [list_inserts i k l] is [std::copy_n]/[memcpy] of [k] into [l] at [i]; [slice i n l] is
    [span.subspan(i, n)]. *)
Definition slice {A} (i n : nat) (l : list A) : list A := take n (drop i l).

Lemma length_slice {A} i n (l : list A) :
  (i + n <= length l)%nat -> length (slice i n l) = n.
Proof. intros. unfold slice. rewrite length_take, length_drop. lia. Qed.

Lemma lookup_slice {A} i n (l : list A) j :
  (j < n)%nat -> slice i n l !! j = l !! (i + j)%nat.
Proof. intros. unfold slice. by rewrite lookup_take_lt, lookup_drop. Qed.

Lemma slice_inserts_same {A} i (k l : list A) :
  (i + length k <= length l)%nat -> slice i (length k) (list_inserts i k l) = k.
Proof.
  intros H. apply list_eq. intros j. destruct (decide (j < length k)%nat).
  - rewrite lookup_slice by done.
    rewrite list_lookup_inserts by lia. f_equal. lia.
  - rewrite !lookup_ge_None_2; rewrite ?length_slice, ?length_inserts by (rewrite ?length_inserts; lia); lia || done.
Qed.

Lemma slice_inserts_disjoint {A} i n j (k l : list A) :
  (i + n <= j \/ j + length k <= i)%nat ->
  slice i n (list_inserts j k l) = slice i n l.
Proof.
  intros H. apply list_eq. intros m. destruct (decide (m < n)%nat).
  - rewrite !lookup_slice by done. destruct H.
    + by rewrite list_lookup_inserts_lt by lia.
    + by rewrite list_lookup_inserts_ge by lia.
  - rewrite !lookup_ge_None_2; unfold slice; rewrite ?length_take; lia || done.
Qed.

Lemma take_S_insert {A} i (l k : list A) b :
  k !! i = Some b -> (i < length l)%nat -> take i l = take i k ->
  take (S i) (<[i := b]> l) = take (S i) k.
Proof.
  intros Hk Hi Ht. rewrite (take_S_r k i b), (take_S_r _ i b) by
    (done || by apply list_lookup_insert_eq).
  by rewrite take_insert_ge by lia; rewrite Ht.
Qed.

Lemma slice_insert_disjoint {A} i n j (b : A) (l : list A) :
  (j < i \/ i + n <= j)%nat -> slice i n (<[j := b]> l) = slice i n l.
Proof. intros H. apply (slice_inserts_disjoint i n j [b] l). simpl. lia. Qed.

Lemma slice_insert_same {A} i n j (b : A) (l : list A) :
  (j < n)%nat -> slice i n (<[(i + j)%nat := b]> l) = <[j := b]> (slice i n l).
Proof.
  intros Hj. unfold slice. rewrite <- take_insert_lt by done. f_equal.
  rewrite drop_insert_ge by lia. f_equal. lia.
Qed.

Lemma slice_app_r {A} i n (l k : list A) :
  length l = i -> slice i n (l ++ k) = take n k.
Proof. intros <-. unfold slice. by rewrite drop_app_length. Qed.

Lemma slice_app_l {A} i n (l k : list A) :
  (i + n <= length l)%nat -> slice i n (l ++ k) = slice i n l.
Proof.
  intros H. unfold slice. rewrite drop_app_le by lia.
  rewrite take_app_le; [done|]. rewrite length_drop. lia.
Qed.

Lemma foldl_invariant {A X} (P : A -> Prop) (f : A -> X -> A) l a :
  P a -> (forall a x, P a -> P (f a x)) -> P (foldl f a l).
Proof. intros Ha Hf. revert a Ha. induction l as [|x l IH]; intros a Ha; cbn [foldl]; auto. Qed.

(** Positions less than a ring's capacity apart fall into different slots. *)
Lemma mod_distinct c i j : 0 < c -> i < j < i + c -> i mod c <> j mod c.
Proof.
  intros Hc Hij E. pose proof (Z.div_mod i c ltac:(lia)). pose proof (Z.div_mod j c ltac:(lia)).
  assert (D : j - i = c * (j / c - i / c)) by lia.
  destruct (decide (j / c - i / c <= 0)); nia.
Qed.

Lemma bytes_ok_lookup_total l i : bytes_ok l -> in_u 8 (l !!! i).
Proof.
  intros H. rewrite list_lookup_total_alt. destruct (l !! i) eqn:E; simpl.
  - by eapply Forall_lookup_1.
  - unfold in_u. simpl. lia.
Qed.

Lemma byte_at_Some l i b : l !! i = Some b -> byte_at l i = b.
Proof. unfold byte_at. by intros ->. Qed.

Lemma byte_at_ge l i : (length l <= i)%nat -> byte_at l i = 0.
Proof. intros H. unfold byte_at. by rewrite lookup_ge_None_2. Qed.

Lemma byte_at_insert l i j b : (i < length l)%nat ->
  byte_at (<[i := b]> l) j = if decide (i = j) then b else byte_at l j.
Proof.
  intros H. unfold byte_at. case_decide as E; [subst; by rewrite list_lookup_insert_eq|].
  by rewrite list_lookup_insert_ne.
Qed.

Lemma byte_at_ok l i : bytes_ok l -> in_u 8 (byte_at l i).
Proof.
  intros H. unfold byte_at. destruct (l !! i) eqn:E; simpl; [by eapply Forall_lookup_1|].
  unfold in_u. lia.
Qed.

Lemma bytes_ok_app l k : bytes_ok l -> bytes_ok k -> bytes_ok (l ++ k).
Proof. apply Forall_app_2. Qed.

Lemma bytes_ok_slice i n l : bytes_ok l -> bytes_ok (slice i n l).
Proof. intros. by apply Forall_take, Forall_drop. Qed.

(** ** Transition systems

    Components that run concurrently are step relations; an invariant that every step preserves
    holds in every reachable state. *)
Lemma rtc_invariant {S} (step : relation S) (I : S -> Prop) s s' :
  (forall a b, I a -> step a b -> I b) -> rtc step s s' -> I s -> I s'.
Proof. intros Hstep. induction 1; eauto. Qed.

(** A schedule is a list of labels of an executable step function. *)
Fixpoint run_labels {L C} (f : L -> C -> option C) (ls : list L) (c : C) : option C :=
  match ls with
  | [] => Some c
  | l :: ls' => match f l c with Some c' => run_labels f ls' c' | None => None end
  end.

Lemma run_labels_rtc {L C} (f : L -> C -> option C) ls c c' :
  run_labels f ls c = Some c' -> rtc (fun a b => exists l, f l a = Some b) c c'.
Proof.
  revert c. induction ls as [|l ls IH]; intros c; cbn [run_labels]; [by intros [= ->]|].
  destruct (f l c) as [c1|] eqn:E; [|done]. intros Hr. eapply rtc_l; [by exists l|by apply IH].
Qed.

(** ** Automation *)
Create HintDb mm.
Create Rewrite HintDb mm_len.
#[export] Hint Resolve le_bytes_ok bytes_ok_app bytes_ok_slice bytes_ok_lookup_total byte_at_ok : mm.
#[export] Hint Extern 4 (in_u _ _) => (unfold in_u; lia) : mm.
#[export] Hint Rewrite @length_le_bytes @length_app @length_take @length_drop @length_inserts
  @length_replicate @length_insert @length_fmap : mm_len.

(** Splits every boolean comparison in sight into the proposition it decides. *)
Ltac bool_split :=
  repeat match goal with
  | H : context [Z.ltb ?a ?b] |- _ => destruct (Z.ltb_spec a b)
  | H : context [Z.leb ?a ?b] |- _ => destruct (Z.leb_spec a b)
  | H : context [Z.eqb ?a ?b] |- _ => destruct (Z.eqb_spec a b)
  | H : context [Nat.ltb ?a ?b] |- _ => destruct (Nat.ltb_spec a b)
  | H : context [Nat.leb ?a ?b] |- _ => destruct (Nat.leb_spec a b)
  | H : context [Nat.eqb ?a ?b] |- _ => destruct (Nat.eqb_spec a b)
  | |- context [Z.ltb ?a ?b] => destruct (Z.ltb_spec a b)
  | |- context [Z.leb ?a ?b] => destruct (Z.leb_spec a b)
  | |- context [Z.eqb ?a ?b] => destruct (Z.eqb_spec a b)
  | |- context [Nat.ltb ?a ?b] => destruct (Nat.ltb_spec a b)
  | |- context [Nat.leb ?a ?b] => destruct (Nat.leb_spec a b)
  | |- context [Nat.eqb ?a ?b] => destruct (Nat.eqb_spec a b)
  end.

(** Length arithmetic over the list operations of this development. *)
Ltac len := autorewrite with mm_len in *; lia.
