(* ===== verification/Util.v ===== *)
(** * Shared helpers ([libs/core/util.h]) and MAC addresses ([libs/comm/base.cc])

    Integers to and from bytes in either order, hexadecimal text, the [0x]/[#x] number parser, the
    identifier check, and the MAC address routines built on them. A [std::string] is a [text]: the
    list of its characters' codes. *)

From Stdlib Require Import Ascii String.
From S2P Require Import Prelude.

Abbreviation text := (list Z).

(** The codes of a string literal. *)
Fixpoint codes (s : string) : text :=
  match s with
  | EmptyString => []
  | String c s' => Z.of_nat (nat_of_ascii c) :: codes s'
  end.

Module Util.

(** ** Integers and bytes *)

(** [toBytes<T>] with [n = sizeof(T)]; [big] is [order == std::endian::big]. *)
Definition toBytes (n : nat) (big : bool) (value : Z) : bytes :=
  let u := uwrap (8 * Z.of_nat n) value in
  foldl (fun out i =>
      <[ (if big then n - 1 - i else i)%nat := u8 (Z.land (Z.shiftr u (8 * Z.of_nat i)) 255) ]> out)
    (replicate n 0) (seq 0 n).

(** [fromBytes<T>] with [n = sizeof(T)]. *)
Definition fromBytes (n : nat) (signed big : bool) (l : bytes) : Z :=
  let m := Nat.min n (length l) in
  let v := foldl (fun v i =>
      let shift := 8 * Z.of_nat (if big then m - 1 - i else i)%nat in
      Z.lor v (uwrap (8 * Z.of_nat n) (Z.shiftl (byte_at l i) shift))) 0 (seq 0 m) in
  if signed then swrap (8 * Z.of_nat n) v else v.

(** ** Text *)

Definition isUrlSafeId (s : text) : bool :=
  if (length s =? 0)%nat || (64 <? length s)%nat then false
  else forallb (fun c => ((65 <=? c) && (c <=? 90)) || ((97 <=? c) && (c <=? 122)) ||
    ((48 <=? c) && (c <=? 57)) || (c =? 46) || (c =? 95) || (c =? 45)) s.

(** One hexadecimal digit, as the lambda [digit] of [fromHex]; [-1] for anything else. *)
Definition digit (c : Z) : Z :=
  if (48 <=? c) && (c <=? 57) then c - 48
  else if (97 <=? c) && (c <=? 102) then c - 97 + 10
  else if (65 <=? c) && (c <=? 70) then c - 65 + 10
  else -1.

(** [std::from_chars] for an unsigned type of [w] bits: the longest run of digits of [base], its
    value and the rest; [None] when there is no digit or the value does not fit. *)
Fixpoint digits_prefix (base acc : Z) (l : text) : Z * text :=
  match l with
  | [] => (acc, [])
  | c :: l' => if (0 <=? digit c) && (digit c <? base) then digits_prefix base (acc * base + digit c) l'
               else (acc, l)
  end.

Definition from_chars (w base : Z) (l : text) : option (Z * text) :=
  match l with
  | [] => None
  | c :: _ =>
      if (0 <=? digit c) && (digit c <? base) then
        let '(v, rest) := digits_prefix base 0 l in
        if v <? 2 ^ w then Some (v, rest) else None
      else None
  end.

(** [parseHexOrDec<T>] for a [w]-bit unsigned [T]. *)
Definition parseHexOrDec (w : Z) (s : text) : option Z :=
  let r := match s with
    | a :: b :: rest =>
        if ((a =? 48) || (a =? 35)) && ((b =? 120) || (b =? 88)) then from_chars w 16 rest
        else from_chars w 10 s
    | _ => from_chars w 10 s
    end in
  match r with Some (v, []) => Some v | _ => None end.

(** [std::format("{:02X}", b)] for a byte. *)
Definition hex_char (d : Z) : Z := if d <? 10 then 48 + d else 55 + d.
Definition hex_byte (b : Z) : text := [hex_char (b / 16); hex_char (b mod 16)].

Fixpoint toHex_loop (sep : text) (first : bool) (l : bytes) : text :=
  match l with
  | [] => []
  | b :: l' => (if first then [] else sep) ++ hex_byte b ++ toHex_loop sep false l'
  end.

Definition toHex (l : bytes) (sep : text) : text := toHex_loop sep true l.

Fixpoint fromHex_loop (hex : text) : option bytes :=
  match hex with
  | c1 :: c2 :: rest =>
      let hi := digit c1 in
      let lo := digit c2 in
      if (hi <? 0) || (lo <? 0) then None
      else match fromHex_loop rest with
           | Some out => Some (u8 (Z.lor (Z.shiftl hi 4) lo) :: out)
           | None => None
           end
  | _ => Some []
  end.

Definition fromHex (hex : text) : option bytes :=
  if negb (Nat.even (length hex)) then None else fromHex_loop hex.

(** ** MAC addresses *)

(** [std::toupper] in the "C" locale. *)
Definition toupper (c : Z) : Z := if (97 <=? c) && (c <=? 122) then c - 32 else c.

Definition is_hex (c : Z) : bool :=
  ((48 <=? c) && (c <=? 57)) || ((65 <=? c) && (c <=? 70)) || ((97 <=? c) && (c <=? 102)).

(** The regular expression of [isMacAddress]: six octets, the separator of the first repeated. *)
Definition isMacAddress (s : text) : bool :=
  match s with
  | [a0; a1; s1; b0; b1; s2; c0; c1; s3; d0; d1; s4; e0; e1; s5; f0; f1] =>
      forallb is_hex [a0; a1; b0; b1; c0; c1; d0; d1; e0; e1; f0; f1] &&
      ((s1 =? 58) || (s1 =? 45)) && (s2 =? s1) && (s3 =? s1) && (s4 =? s1) && (s5 =? s1)
  | _ => false
  end.

Definition normalizeMac (raw : text) (sep : Z) : text :=
  flat_map (fun i => (if (i =? 0)%nat then [] else [sep]) ++
    [toupper (byte_at raw (i * 3)); toupper (byte_at raw (i * 3 + 1))]) (seq 0 6).

Fixpoint parse_octets (s : text) (idx : list nat) : option bytes :=
  match idx with
  | [] => Some []
  | i :: idx' =>
      match parseHexOrDec 8 (codes "0x" ++ slice (i * 3) 2 s) with
      | None => None
      | Some octet => match parse_octets s idx' with Some l => Some (octet :: l) | None => None end
      end
  end.

Definition parseMac (s : text) : option bytes :=
  if negb (isMacAddress s) then None else parse_octets s (seq 0 6).

Record NetworkAdapter := mk_adapter {
  macLinux : text;
  macWindows : text;
  name : text;
  description : text;
}.

Inductive AdapterError := NoAdapterWithMac (mac : text) | AdapterNotFound (input : text).

(** [resolveNetworkAdapter]; the adapters the operating system reports are an argument. *)
Definition resolveNetworkAdapter (adapters : list NetworkAdapter) (input : text)
    : expected AdapterError NetworkAdapter :=
  if isMacAddress input then
    let mac := normalizeMac input 58 in
    match List.find (fun a => bool_decide (macLinux a = mac)) adapters with
    | None => Unexpected (NoAdapterWithMac mac)
    | Some a => Value a
    end
  else
    match List.find (fun a => bool_decide (name a = input)) adapters with
    | None => Unexpected (AdapterNotFound input)
    | Some a => Value a
    end.

(** An adapter entry as [enumerateNetworkAdapters] builds it from a hardware address. *)
Definition adapter_of (hw : bytes) (nm : text) : NetworkAdapter :=
  let mac := toHex hw [58] in mk_adapter mac (normalizeMac mac 45) nm [].

(** ** Lemmas *)

Lemma le_bytes_as_map n x :
  le_bytes n x = (fun i => Z.land (Z.shiftr x (8 * Z.of_nat i)) 255) <$> seq 0 n.
Proof.
  revert x. induction n as [|n IH]; intros x; [done|].
  cbn [le_bytes seq fmap list_fmap]. f_equal.
  - rewrite Z.shiftr_0_r. change 255 with (Z.ones 8). by rewrite Z.land_ones by lia.
  - rewrite IH, <- fmap_S_seq, <- list_fmap_compose. apply list_fmap_ext. intros _ i _.
    unfold compose. f_equal. change 256 with (2 ^ 8). rewrite <- (Z.shiftr_div_pow2 x 8) by lia. rewrite Z.shiftr_shiftr by lia.
    f_equal. lia.
Qed.

Lemma u8_land_255 x : u8 (Z.land x 255) = Z.land x 255.
Proof.
  change 255 with (Z.ones 8). rewrite Z.land_ones by lia.
  by apply uwrap_id, (uwrap_range 8 x).
Qed.

Lemma fill_forward (g : nat -> Z) pre k :
  foldl (fun out i => <[i := g i]> out) (pre ++ replicate k 0) (seq (length pre) k) =
  pre ++ (g <$> seq (length pre) k).
Proof.
  revert pre. induction k as [|k IH]; intros pre; [done|]. cbn [replicate seq foldl].
  rewrite insert_app_r_alt, Nat.sub_diag by lia. cbn [insert list_insert fmap list_fmap].
  specialize (IH (pre ++ [g (length pre)])). rewrite length_app in IH. cbn [length] in IH.
  rewrite Nat.add_1_r, <- !app_assoc in IH. exact IH.
Qed.

Lemma fill_backward (g : nat -> Z) n k post :
  (k + length post = n)%nat ->
  foldl (fun out i => <[(n - 1 - i)%nat := g i]> out) (replicate k 0 ++ post) (seq (length post) k) =
  reverse (g <$> seq (length post) k) ++ post.
Proof.
  revert post. induction k as [|k IH]; intros post Hn; [done|]. cbn [seq foldl fmap list_fmap].
  replace (n - 1 - length post)%nat with (length (replicate k 0%Z) + 0)%nat
    by (rewrite length_replicate; lia).
  replace (replicate (S k) 0 ++ post) with (replicate k 0 ++ 0 :: post)
    by (rewrite replicate_S_end, <- app_assoc; done).
  rewrite insert_app_r. cbn [insert list_insert].
  specialize (IH (g (length post) :: post)). cbn [length] in IH. rewrite IH by lia.
  rewrite reverse_cons, <- app_assoc. done.
Qed.

Lemma toBytes_little n v : toBytes n false v = le_bytes n v.
Proof.
  unfold toBytes. set (g (i : nat) := u8 (Z.land (Z.shiftr (uwrap (8 * Z.of_nat n) v) (8 * Z.of_nat i)) 255)). pose proof (fill_forward g [] n) as H.
  cbn [app length] in H. etrans; [exact H|]. subst g.
  rewrite <- le_bytes_uwrap, le_bytes_as_map. apply list_fmap_ext.
  intros i x _. apply u8_land_255.
Qed.

Lemma toBytes_big n v : toBytes n true v = reverse (le_bytes n v).
Proof.
  unfold toBytes. set (g (i : nat) := u8 (Z.land (Z.shiftr (uwrap (8 * Z.of_nat n) v) (8 * Z.of_nat i)) 255)). pose proof (fill_backward g n n []) as H.
  rewrite !app_nil_r in H. cbn [length] in H. etrans; [apply H; lia|]. subst g. f_equal.
  rewrite <- le_bytes_uwrap, le_bytes_as_map. apply list_fmap_ext.
  intros i x _. apply u8_land_255.
Qed.

Lemma le_value_take_S l m b : l !! m = Some b ->
  le_value (take (S m) l) = le_value (take m l) + 2 ^ (8 * Z.of_nat m) * b.
Proof.
  intros H. rewrite (take_S_r _ _ _ H), le_value_app, length_take.
  pose proof (lookup_lt_Some _ _ _ H). rewrite Nat.min_l by lia. cbn [le_value]. lia.
Qed.

Lemma pow_8_split (a b : nat) : 2 ^ (8 * Z.of_nat (a + b)) = 2 ^ (8 * Z.of_nat a) * 2 ^ (8 * Z.of_nat b).
Proof. rewrite <- Z.pow_add_r by lia. f_equal. lia. Qed.

(** A byte moved to byte [k] of an [n]-byte integer stays inside it. *)
Lemma shifted_byte_fits (n k : nat) b : (k < n)%nat -> in_u 8 b ->
  in_u (8 * Z.of_nat n) (Z.shiftl b (8 * Z.of_nat k)).
Proof.
  intros Hk [H1 H2]. rewrite Z.shiftl_mul_pow2 by lia.
  replace n with (n - S k + (1 + k))%nat by lia. unfold in_u. rewrite !pow_8_split.
  assert (0 < 2 ^ (8 * Z.of_nat (n - S k))) by (apply Z.pow_pos_nonneg; lia).
  assert (0 < 2 ^ (8 * Z.of_nat k)) by (apply Z.pow_pos_nonneg; lia).
  change (2 ^ (8 * Z.of_nat 1)) with 256. change (2 ^ 8) with 256 in H2. nia.
Qed.

(** Little-endian [fromBytes] is the zero-extended value of at most [n] bytes. *)
Lemma fromBytes_little n l : bytes_ok l -> fromBytes n false false l = le_value (take n l).
Proof.
  intros Hl. unfold fromBytes. set (m := Nat.min n (length l)).
  assert (E : take n l = take m l).
  { subst m. destruct (decide (n <= length l)%nat); [by rewrite Nat.min_l|].
    rewrite Nat.min_r by lia. by rewrite !take_ge by lia. }
  rewrite E. assert (Hm : (m <= n /\ m <= length l)%nat) by lia. clearbody m. clear E.
  induction m as [|m IH]; [done|]. rewrite seq_S, foldl_snoc, IH by lia. cbn [Nat.add].
  destruct (lookup_lt_is_Some_2 l m) as [b Hb]; [lia|].
  assert (Hb8 : in_u 8 b) by (by eapply (Forall_lookup_1 _ l)).
  rewrite (byte_at_Some _ _ _ Hb), (le_value_take_S _ _ _ Hb).
  rewrite uwrap_id by (apply shifted_byte_fits; [lia|done]).
  apply lor_shiftl_add; [lia|].
  replace m with (length (take m l)) at 1 by (rewrite length_take; lia).
  apply le_value_range. by apply Forall_take.
Qed.

Lemma fromBytes_big n l : bytes_ok l -> fromBytes n false true l = le_value (reverse (take n l)).
Proof.
  intros Hl. unfold fromBytes. set (m := Nat.min n (length l)).
  assert (E : take n l = take m l).
  { subst m. destruct (decide (n <= length l)%nat); [by rewrite Nat.min_l|].
    rewrite Nat.min_r by lia. by rewrite !take_ge by lia. }
  rewrite E. assert (Hm : (m <= n /\ m <= length l)%nat) by lia. clearbody m. clear E.
  cut (forall j, (j <= m)%nat -> foldl (fun v i => Z.lor v (uwrap (8 * Z.of_nat n)
      (Z.shiftl (byte_at l i) (8 * Z.of_nat (m - 1 - i)%nat)))) 0 (seq 0 j) =
      2 ^ (8 * Z.of_nat (m - j)) * le_value (reverse (take j l))).
  { intros H. rewrite (H m ltac:(lia)), Nat.sub_diag. lia. }
  induction j as [|j IH]; intros Hj; [by rewrite Z.mul_0_r|].
  rewrite seq_S, foldl_snoc, IH by lia. cbn [Nat.add].
  destruct (lookup_lt_is_Some_2 l j) as [b Hb]; [lia|].
  assert (Hb8 : in_u 8 b) by (by eapply (Forall_lookup_1 _ l)).
  rewrite (byte_at_Some _ _ _ Hb), (take_S_r _ _ _ Hb), reverse_snoc. cbn [le_value].
  rewrite uwrap_id by (apply shifted_byte_fits; [lia|done]).
  replace (m - S j)%nat with (m - 1 - j)%nat by lia.
  rewrite Z.lor_comm, (Z.mul_comm (2 ^ _) (le_value _)), <- Z.shiftl_mul_pow2 by lia.
  rewrite lor_shiftl_add; [|lia|apply shifted_byte_fits; [lia|done]].
  rewrite Z.shiftl_mul_pow2 by lia.
  replace (m - j)%nat with (1 + (m - 1 - j))%nat by lia. rewrite pow_8_split.
  change (2 ^ (8 * Z.of_nat 1)) with 256. lia.
Qed.

Definition in_type (signed : bool) (n : nat) (v : Z) : Prop :=
  if signed then in_s (8 * Z.of_nat n) v else in_u (8 * Z.of_nat n) v.

(** [fromBytes] undoes [toBytes] for every integral type, signed or not, in either order. *)
Theorem fromBytes_toBytes n signed big v :
  (0 < n)%nat -> in_type signed n v -> fromBytes n signed big (toBytes n big v) = v.
Proof.
  intros Hn Hv.
  assert (E : fromBytes n false big (toBytes n big v) = uwrap (8 * Z.of_nat n) v).
  { destruct big.
    - rewrite toBytes_big, fromBytes_big by apply Forall_reverse, le_bytes_ok.
      rewrite take_ge by (rewrite length_reverse, length_le_bytes; lia).
      by rewrite reverse_involutive, le_value_bytes.
    - rewrite toBytes_little, fromBytes_little by apply le_bytes_ok.
      by rewrite take_ge, le_value_bytes by (rewrite length_le_bytes; lia). }
  destruct signed; cbn [in_type] in Hv.
  - change (swrap (8 * Z.of_nat n) (fromBytes n false big (toBytes n big v)) = v).
    rewrite E. apply swrap_uwrap; [lia|done].
  - rewrite E. by apply uwrap_id.
Qed.

Lemma fromBytes_toBytes_witness :
  fromBytes 2 true true (toBytes 2 true (-2)) = -2 /\ toBytes 2 true (-2) = [255; 254].
Proof.
  split; [|vm_compute; reflexivity].
  apply (fromBytes_toBytes 2 true true (-2)); [lia|]. cbn [in_type]. unfold in_s. simpl. lia.
Defined.

(** *** Hexadecimal *)

Lemma digit_hex_char d : 0 <= d < 16 -> digit (hex_char d) = d.
Proof. intros H. unfold hex_char. destruct (Z.ltb_spec d 10); unfold digit; bool_split; simpl; lia. Qed.

Ltac hex_cases c :=
  destruct (Z.leb_spec 48 c), (Z.leb_spec c 57), (Z.leb_spec 65 c), (Z.leb_spec c 70),
    (Z.leb_spec 97 c), (Z.leb_spec c 102), (Z.leb_spec c 122); cbn [andb orb].

Lemma is_hex_digit c : is_hex c = (0 <=? digit c).
Proof. unfold is_hex, digit. hex_cases c; bool_split; done || lia. Qed.

Lemma digit_range c : 0 <= digit c -> digit c < 16.
Proof. unfold digit. hex_cases c; lia. Qed.

Lemma hex_char_digit c : 0 <= digit c -> hex_char (digit c) = toupper c.
Proof. unfold digit, hex_char, toupper. hex_cases c; intros; bool_split; lia. Qed.

Lemma hi_lo_byte hi lo : 0 <= hi < 16 -> 0 <= lo < 16 ->
  u8 (Z.lor (Z.shiftl hi 4) lo) = hi * 16 + lo.
Proof.
  intros Hh Hl. rewrite Z.lor_comm, lor_shiftl_add by (unfold in_u; lia).
  unfold u8. rewrite uwrap_id by (unfold in_u; lia). lia.
Qed.

Lemma fromHex_loop_hex_byte b rest : in_u 8 b ->
  fromHex_loop (hex_byte b ++ rest) =
    match fromHex_loop rest with Some out => Some (b :: out) | None => None end.
Proof.
  intros [H1 H2]. cbn [hex_byte app fromHex_loop].
  assert (0 <= b / 16 < 16) by (split; [apply Z.div_pos|apply Z.div_lt_upper_bound]; lia).
  pose proof (Z.mod_pos_bound b 16 ltac:(lia)).
  rewrite !digit_hex_char by lia. rewrite hi_lo_byte by lia.
  replace (b / 16 * 16 + b mod 16) with b by (pose proof (Z.div_mod b 16 ltac:(lia)); lia).
  bool_split; try lia; done.
Qed.

Lemma toHex_loop_plain first l : toHex_loop [] first l = flat_map hex_byte l.
Proof.
  revert first. induction l as [|b l IH]; intros first; [done|]. cbn [toHex_loop flat_map].
  rewrite IH. by destruct first.
Qed.

Lemma length_flat_hex l : length (flat_map hex_byte l) = (2 * length l)%nat.
Proof. induction l as [|b l IH]; [done|]. cbn [flat_map]. rewrite length_app, IH. simpl. lia. Qed.

(** Induction over a text two characters at a time. *)
Lemma pair_ind (P : text -> Prop) :
  P [] -> (forall c, P [c]) -> (forall a b l, P l -> P (a :: b :: l)) -> forall l, P l.
Proof.
  intros H0 H1 H2. refine (fix go l := match l with [] => H0 | [c] => H1 c | a :: b :: l' => _ end).
  apply H2, go.
Qed.

Lemma fromHex_loop_Some s l : Nat.even (length s) = true -> fromHex_loop s = Some l ->
  bytes_ok l /\ flat_map hex_byte l = toupper <$> s.
Proof.
  revert l. induction s as [|c|a b s IH] using pair_ind; intros l He H.
  - injection H as <-. split; [constructor|done].
  - done.
  - cbn [fromHex_loop] in H. destruct (Z.ltb_spec (digit a) 0), (Z.ltb_spec (digit b) 0); try done.
    cbn [orb] in H. destruct (fromHex_loop s) as [out|] eqn:E; [|done]. injection H as <-.
    destruct (IH out He eq_refl) as [Hok Hf].
    pose proof (digit_range a ltac:(lia)). pose proof (digit_range b ltac:(lia)).
    rewrite hi_lo_byte by lia. split; [constructor; [unfold in_u; lia|done]|].
    cbn [flat_map]. rewrite Hf. unfold hex_byte.
    rewrite Z.div_add_l, Z.div_small, Z.add_0_r by lia.
    rewrite (Z.add_comm _ (digit b)), Z_mod_plus_full, Z.mod_small by lia.
    rewrite !hex_char_digit by lia. done.
Qed.

(** [toHex] and [fromHex] are inverse: every byte string survives the round trip, and whatever
    [fromHex] accepts prints back as the same digits in upper case. *)
Theorem hex_roundtrip l s l' :
  (bytes_ok l -> fromHex (toHex l []) = Some l) /\
  (fromHex s = Some l' -> bytes_ok l' /\ toHex l' [] = toupper <$> s).
Proof.
  unfold toHex. rewrite !toHex_loop_plain. split.
  - intros Hl. unfold fromHex. rewrite length_flat_hex, Nat.even_mul. cbn [Nat.even orb negb].
    induction Hl as [|b l Hb Hl IH]; [done|]. cbn [flat_map].
    by rewrite fromHex_loop_hex_byte, IH by done.
  - unfold fromHex. destruct (Nat.even (length s)) eqn:E; [|done]. by apply fromHex_loop_Some.
Qed.

Lemma hex_roundtrip_witness :
  fromHex (toHex [10; 255] []) = Some [10; 255] /\ toHex [10; 255] [] = toupper <$> codes "0aFf".
Proof.
  destruct (hex_roundtrip [10; 255] (codes "0aFf") [10; 255]) as [H1 H2].
  split; [apply H1; repeat constructor; done|]. apply H2. vm_compute. reflexivity.
Defined.

(** *** MAC addresses *)

Lemma parse_octet c1 c2 : 0 <= digit c1 -> 0 <= digit c2 ->
  parseHexOrDec 8 (codes "0x" ++ [c1; c2]) = Some (digit c1 * 16 + digit c2).
Proof.
  intros H1 H2. pose proof (digit_range c1 H1). pose proof (digit_range c2 H2).
  change (parseHexOrDec 8 (codes "0x" ++ [c1; c2])) with
    (match from_chars 8 16 [c1; c2] with Some (v, []) => Some v | _ => None end).
  unfold from_chars, digits_prefix.
  assert (E : forall c, 0 <= digit c < 16 -> (0 <=? digit c) && (digit c <? 16) = true)
    by (intros; apply andb_true_intro; split; [apply Z.leb_le|apply Z.ltb_lt]; lia).
  rewrite !E by lia. rewrite Z.mul_0_l, Z.add_0_l.
  destruct (Z.ltb_spec (digit c1 * 16 + digit c2) (2 ^ 8)); [done|lia].
Qed.

Definition octets (s : text) : bytes :=
  (fun i => digit (byte_at s (i * 3)) * 16 + digit (byte_at s (i * 3 + 1))) <$> seq 0 6.

(** What [isMacAddress] guarantees of the positions the code reads. *)
Lemma isMacAddress_shape s : isMacAddress s = true ->
  length s = 17%nat /\ forall i, (i < 6)%nat ->
    0 <= digit (byte_at s (i * 3)) /\ 0 <= digit (byte_at s (i * 3 + 1)) /\
    slice (i * 3) 2 s = [byte_at s (i * 3); byte_at s (i * 3 + 1)].
Proof.
  intros H. do 17 (destruct s as [|? s]; [done|]). destruct s; [|done].
  cbn [isMacAddress forallb] in H. rewrite !is_hex_digit in H.
  repeat (apply andb_prop in H as [H ?]). 
  repeat match goal with E : _ && _ = true |- _ => apply andb_prop in E as [? E] end.
  rewrite ?Z.leb_le in *. split; [done|].
  intros i Hi. do 6 (destruct i as [|i]; [by split_and!|]). lia.
Qed.

Lemma parseMac_octets s : isMacAddress s = true ->
  parseMac s = Some (octets s) /\ forall sep, normalizeMac s sep = toHex (octets s) [sep].
Proof.
  intros H. destruct (isMacAddress_shape s H) as [_ Hd]. split.
  - unfold parseMac. rewrite H. cbn [negb]. unfold octets.
    assert (Hl : Forall (fun i => i < 6)%nat (seq 0 6)) by (repeat constructor).
    induction Hl as [|i l Hi Hl IH]; [done|]. cbn [parse_octets fmap list_fmap].
    destruct (Hd i Hi) as (H1 & H2 & ->). by rewrite parse_octet, IH by done.
  - intros sep. unfold normalizeMac, octets. cbn [seq flat_map fmap list_fmap toHex toHex_loop].
    assert (E : forall i, (i < 6)%nat ->
      hex_byte (digit (byte_at s (i * 3)) * 16 + digit (byte_at s (i * 3 + 1))) =
      [toupper (byte_at s (i * 3)); toupper (byte_at s (i * 3 + 1))]).
    { intros i Hi. destruct (Hd i Hi) as (H1 & H2 & _). unfold hex_byte.
      pose proof (digit_range _ H1). pose proof (digit_range _ H2).
      rewrite Z.div_add_l, Z.div_small, Z.add_0_r by lia.
      rewrite (Z.add_comm _ (digit _)), Z_mod_plus_full, Z.mod_small by lia.
      by rewrite !hex_char_digit. }
    rewrite !E by lia. done.
Qed.

Lemma hex_byte_digits b : in_u 8 b ->
  (digit (hex_char (b / 16)) = b / 16 /\ digit (hex_char (b mod 16)) = b mod 16) /\
  ((0 <=? b / 16) = true /\ (0 <=? b mod 16) = true) /\ b / 16 * 16 + b mod 16 = b.
Proof.
  intros [H1 H2].
  assert (0 <= b / 16 < 16) by (split; [apply Z.div_pos|apply Z.div_lt_upper_bound]; lia).
  pose proof (Z.mod_pos_bound b 16 ltac:(lia)). pose proof (Z.div_mod b 16 ltac:(lia)).
  rewrite !digit_hex_char, !Z.leb_le by lia. lia.
Qed.

(** The text of a hardware address is a MAC address that parses back to it. *)
Lemma parseMac_toHex hw sep : length hw = 6%nat -> bytes_ok hw -> sep = 58 \/ sep = 45 ->
  parseMac (toHex hw [sep]) = Some hw.
Proof.
  intros Hl Hok Hsep. destruct hw as [|a [|b [|c [|d [|e [|f [|]]]]]]]; try done. clear Hl.
  unfold bytes_ok in Hok. rewrite !Forall_cons in Hok. destruct Hok as (Ha & Hb & Hc & Hd & He & Hf & _).
  apply hex_byte_digits in Ha as ([Ea Ea'] & [La La'] & Ra), Hb as ([Eb Eb'] & [Lb Lb'] & Rb),
    Hc as ([Ec Ec'] & [Lc Lc'] & Rc), Hd as ([Ed Ed'] & [Ld Ld'] & Rd),
    He as ([Ee Ee'] & [Le Le'] & Re), Hf as ([Ef Ef'] & [Lf Lf'] & Rf).
  assert (Hm : isMacAddress (toHex [a; b; c; d; e; f] [sep]) = true).
  { cbn [toHex toHex_loop hex_byte app isMacAddress forallb]. rewrite !is_hex_digit.
    rewrite Ea, Ea', Eb, Eb', Ec, Ec', Ed, Ed', Ee, Ee', Ef, Ef'.
    rewrite La, La', Lb, Lb', Lc, Lc', Ld, Ld', Le, Le', Lf, Lf', !Z.eqb_refl.
    by destruct Hsep as [-> | ->]. }
  destruct (parseMac_octets _ Hm) as [-> _]. f_equal. unfold octets.
  change (([digit (hex_char (a / 16)) * 16 + digit (hex_char (a mod 16));
    digit (hex_char (b / 16)) * 16 + digit (hex_char (b mod 16));
    digit (hex_char (c / 16)) * 16 + digit (hex_char (c mod 16));
    digit (hex_char (d / 16)) * 16 + digit (hex_char (d mod 16));
    digit (hex_char (e / 16)) * 16 + digit (hex_char (e mod 16));
    digit (hex_char (f / 16)) * 16 + digit (hex_char (f mod 16))] : bytes) = [a; b; c; d; e; f]).
  rewrite Ea, Ea', Eb, Eb', Ec, Ec', Ed, Ed', Ee, Ee', Ef, Ef'. by rewrite Ra, Rb, Rc, Rd, Re, Rf.
Qed.

(** A MAC address in any accepted notation (upper or lower case, colons or dashes) resolves to
    the first adapter with that hardware address, and to an error naming it in the canonical form
    when there is none. *)
Theorem resolve_by_mac (os : list (bytes * text)) s hw :
  Forall (fun p => length p.1 = 6%nat /\ bytes_ok p.1) os -> parseMac s = Some hw ->
  resolveNetworkAdapter ((fun p => adapter_of p.1 p.2) <$> os) s =
    match List.find (fun p => bool_decide (p.1 = hw)) os with
    | Some p => Value (adapter_of p.1 p.2)
    | None => Unexpected (NoAdapterWithMac (toHex hw [58]))
    end.
Proof.
  intros Hos Hp. unfold parseMac in Hp. destruct (isMacAddress s) eqn:Hm; [|done].
  destruct (parseMac_octets s Hm) as [Ho Hn]. unfold parseMac in Ho. rewrite Hm in Ho.
  cbn [negb] in Hp, Ho. rewrite Ho in Hp. injection Hp as <-.
  unfold resolveNetworkAdapter. rewrite Hm, Hn.
  induction Hos as [|[b nm] os [Hl Hb] Hos IH]; [done|]. cbn [fmap list_fmap List.find fst snd] in *.
  assert (E : bool_decide (macLinux (adapter_of b nm) = toHex (octets s) [58]) =
    bool_decide (b = octets s)).
  { apply bool_decide_ext. cbn [macLinux adapter_of]. split; [|by intros ->]. intros E.
    apply (f_equal parseMac) in E. rewrite parseMac_toHex in E by auto.
    destruct (decide (bytes_ok (octets s))) as [Hok|Hno].
    - rewrite parseMac_toHex in E by auto. congruence.
    - exfalso. apply Hno. destruct (isMacAddress_shape s Hm) as [_ Hd]. unfold octets.
      apply Forall_fmap, Forall_seq. intros i Hi. destruct (Hd i ltac:(lia)) as (H1 & H2 & _).
      pose proof (digit_range _ H1). pose proof (digit_range _ H2). unfold in_u, compose. lia. }
  rewrite E. destruct (bool_decide (b = octets s)); [done|exact IH].
Qed.

Lemma resolve_by_mac_witness :
  resolveNetworkAdapter ((fun p => adapter_of p.1 p.2) <$>
    [([2; 0; 0; 0; 0; 1], codes "lo"); ([0; 26; 43; 60; 77; 94], codes "eth0")])
    (codes "00-1a-2B-3c-4d-5E") = Value (adapter_of [0; 26; 43; 60; 77; 94] (codes "eth0")).
Proof.
  apply (resolve_by_mac [([2; 0; 0; 0; 0; 1], codes "lo"); ([0; 26; 43; 60; 77; 94], codes "eth0")]
    (codes "00-1a-2B-3c-4d-5E") [0; 26; 43; 60; 77; 94]).
  - repeat constructor; done.
  - vm_compute. reflexivity.
Defined.

(** *** Decimal numbers, as [std::format] writes an unsigned one *)
Fixpoint dec_loop (fuel : nat) (n : Z) (acc : text) : text :=
  match fuel with
  | O => acc
  | S fuel => if n <? 10 then (48 + n) :: acc else dec_loop fuel (n / 10) ((48 + n mod 10) :: acc)
  end.
Definition decimal (n : Z) : text := dec_loop 20 n [].

Definition is_digit (c : Z) : Prop := 48 <= c <= 57.

Lemma digit_of c : is_digit c -> digit c = c - 48.
Proof. unfold digit, is_digit. intros. by rewrite (proj2 (andb_true_iff _ _)) by lia. Qed.

Lemma digits_prefix_app acc ds rest : Forall is_digit ds ->
  digits_prefix 10 acc (ds ++ rest) = digits_prefix 10 (foldl (fun a c => a * 10 + (c - 48)) acc ds) rest.
Proof.
  intros Hd. revert acc. induction Hd as [|c ds Hc _ IH]; intros acc; [done|]. cbn [app digits_prefix foldl].
  rewrite (digit_of c Hc), (proj2 (andb_true_iff _ _)) by (unfold is_digit in Hc; lia). apply IH.
Qed.

Lemma dec_loop_spec fuel : forall n acc, 0 <= n < 10 ^ Z.of_nat fuel -> (0 < fuel)%nat ->
  exists ds, dec_loop fuel n acc = ds ++ acc /\ Forall is_digit ds /\ ds <> [] /\ foldl (fun a c => a * 10 + (c - 48)) 0 ds = n.
Proof.
  induction fuel as [|fuel IH]; intros n acc Hn Hf; [lia|]. cbn [dec_loop]. destruct (Z.ltb_spec n 10) as [Hl|Hl].
  - exists [48 + n]. split_and!; [done|repeat constructor; lia|done|cbn; lia].
  - rewrite Nat2Z.inj_succ, Z.pow_succ_r in Hn by lia. destruct fuel as [|fuel]; [cbn in Hn; lia|].
    destruct (IH (n / 10) ((48 + n mod 10) :: acc)) as (ds & E & Hd & Hne & Hv); [|lia|].
    { split; [apply Z.div_pos; lia|apply Z.div_lt_upper_bound; lia]. }
    exists (ds ++ [48 + n mod 10]). rewrite E, <- app_assoc. split_and!; [done| |by destruct ds|].
    + apply Forall_app. split; [done|]. pose proof (Z.mod_pos_bound n 10). repeat constructor; lia.
    + rewrite foldl_app, Hv. cbn. pose proof (Z.div_mod n 10). lia.
Qed.

Lemma decimal_spec n : in_u 64 n ->
  exists ds, decimal n = ds /\ Forall is_digit ds /\ ds <> [] /\ foldl (fun a c => a * 10 + (c - 48)) 0 ds = n.
Proof.
  intros Hn. destruct (dec_loop_spec 20 n []) as (ds & E & Hd & Hne & Hv); [unfold in_u in Hn; lia|lia|].
  exists ds. rewrite app_nil_r in E. by split_and!.
Qed.

Lemma from_chars_decimal w n : 0 <= w <= 64 -> in_u w n -> from_chars w 10 (decimal n) = Some (n, []).
Proof.
  intros Hw Hn. destruct (decimal_spec n) as (ds & -> & Hd & Hne & Hv).
  { unfold in_u in *. pose proof (Z.pow_le_mono_r 2 w 64). lia. }
  unfold from_chars. destruct ds as [|c ds]; [done|]. rewrite <- (app_nil_r (c :: ds)), (digits_prefix_app 0), Hv by done.
  apply Forall_cons in Hd as [Hc _]. rewrite (digit_of c Hc), (proj2 (andb_true_iff _ _)) by (unfold is_digit in Hc; lia).
  cbn [digits_prefix]. by rewrite (proj2 (Z.ltb_lt _ _)) by apply Hn.
Qed.

End Util.
