(* ===== verification/SpoeSlot.v ===== *)
(** * SpoeOutputSlot ([libs/comm/spoe_process_data.{h,cc}])

    The latest-wins triple buffer that hands output frames from the RT thread to the exchange
    thread of one SPoE drive. Beside the sequential [reset], [write] and [read] there is a step
    relation in which the two threads interleave at every atomic access and at every byte of a
    copy; atomics are modelled as sequentially consistent. *)

From S2P Require Import Prelude.

(** ** SpoeOutputSlot: a triple buffer with latest-wins semantics *)
Module Slot.

Definition kFresh : Z := 4.
Definition kIndexMask : Z := 3.

Record slot := mk_slot {
  buffers : list bytes;
  writeIndex : Z;
  readIndex : Z;
  middle : Z;
}.

(** The fields as constructed: three empty vectors. *)
Definition initial : slot :=
  {| buffers := [[]; []; []]; writeIndex := 0; readIndex := 1; middle := 2 |}.

Definition reset (frameBytes : nat) (s : slot) : slot :=
  {| buffers := (fun _ => replicate frameBytes 0) <$> buffers s;
     writeIndex := 0; readIndex := 1; middle := 2 |}.

Definition buffer_at (s : slot) (i : Z) : bytes := buffers s !!! Z.to_nat i.

Definition set_buffer (s : slot) (i : Z) (b : bytes) : slot :=
  {| buffers := <[Z.to_nat i := b]> (buffers s);
     writeIndex := writeIndex s; readIndex := readIndex s; middle := middle s |}.

(** [std::copy_n(frame.begin(), min(frame.size(), target.size()), target.begin())]. *)
Definition copy_into (frame target : bytes) : bytes :=
  list_inserts 0 (take (Nat.min (length frame) (length target)) frame) target.

(** [middle_.exchange(writeIndex_ | kFresh)], and the index taken back. *)
Definition publish (s : slot) : slot :=
  let previous := middle s in
  {| buffers := buffers s;
     writeIndex := Z.land previous kIndexMask;
     readIndex := readIndex s;
     middle := Z.lor (writeIndex s) kFresh |}.

Definition write (s : slot) (frame : bytes) : slot :=
  publish (set_buffer s (writeIndex s) (copy_into frame (buffer_at s (writeIndex s)))).

Definition is_fresh (s : slot) : bool := negb (Z.land (middle s) kFresh =? 0).

(** [middle_.exchange(readIndex_)], and the index taken. *)
Definition take_middle (s : slot) : slot :=
  let previous := middle s in
  {| buffers := buffers s;
     writeIndex := writeIndex s;
     readIndex := Z.land previous kIndexMask;
     middle := readIndex s |}.

Definition read (s : slot) : slot * bytes :=
  let s' := if is_fresh s then take_middle s else s in
  (s', buffer_at s' (readIndex s')).

(** *** The two threads, interleaved *)

(** The writer copies one byte at a time and then publishes; the reader tests [middle_] and, when
    it is fresh, exchanges. [latest] is the frame of the last completed [write], a ghost. *)
Inductive writer_pc := WIdle | WCopy (frame : bytes) (i : nat).
Inductive reader_pc := RIdle | RExchange.

Record config := mk_config {
  mem : slot;
  wpc : writer_pc;
  rpc : reader_pc;
  latest : bytes;
}.

Definition start (frameBytes : nat) : config :=
  {| mem := reset frameBytes initial; wpc := WIdle; rpc := RIdle;
     latest := replicate frameBytes 0 |}.

Definition store_byte (s : slot) (i : Z) (j : nat) (b : Z) : slot :=
  set_buffer s i (<[j := b]> (buffer_at s i)).

Inductive wstep (frameBytes : nat) : config -> config -> Prop :=
  | w_begin c frame :
      wpc c = WIdle -> length frame = frameBytes ->
      wstep frameBytes c (mk_config (mem c) (WCopy frame 0) (rpc c) (latest c))
  | w_byte c frame i b :
      wpc c = WCopy frame i ->
      (i < Nat.min (length frame) (length (buffer_at (mem c) (writeIndex (mem c)))))%nat ->
      frame !! i = Some b ->
      wstep frameBytes c
        (mk_config (store_byte (mem c) (writeIndex (mem c)) i b) (WCopy frame (S i)) (rpc c) (latest c))
  | w_publish c frame :
      wpc c = WCopy frame
        (Nat.min (length frame) (length (buffer_at (mem c) (writeIndex (mem c))))) ->
      wstep frameBytes c (mk_config (publish (mem c)) WIdle (rpc c) frame).

(** A reader step; the label is the frame a completed [read] returns. *)
Inductive rstep : config -> option bytes -> config -> Prop :=
  | r_same c :
      rpc c = RIdle -> is_fresh (mem c) = false ->
      rstep c (Some (buffer_at (mem c) (readIndex (mem c)))) c
  | r_saw_fresh c :
      rpc c = RIdle -> is_fresh (mem c) = true ->
      rstep c None (mk_config (mem c) (wpc c) RExchange (latest c))
  | r_exchange c :
      rpc c = RExchange ->
      rstep c (Some (buffer_at (take_middle (mem c)) (readIndex (take_middle (mem c)))))
        (mk_config (take_middle (mem c)) (wpc c) RIdle (latest c)).

Definition step (frameBytes : nat) (c c' : config) : Prop :=
  wstep frameBytes c c' \/ exists r, rstep c r c'.

Definition reachable (frameBytes : nat) (c : config) : Prop :=
  rtc (step frameBytes) (start frameBytes) c.

(** *** Invariant *)

Definition mid_index (s : slot) : Z := Z.land (middle s) kIndexMask.

Definition permuted (s : slot) : Prop :=
  (writeIndex s, readIndex s, mid_index s) ∈
    [(0, 1, 2); (0, 2, 1); (1, 0, 2); (1, 2, 0); (2, 0, 1); (2, 1, 0)] /\
  (middle s = mid_index s \/ middle s = Z.lor (mid_index s) kFresh).

Definition sized (frameBytes : nat) (s : slot) : Prop :=
  length (buffers s) = 3%nat /\ Forall (fun b => length b = frameBytes) (buffers s).

Record inv (frameBytes : nat) (c : config) : Prop := mk_inv {
  inv_perm : permuted (mem c);
  inv_sized : sized frameBytes (mem c);
  inv_fresh : is_fresh (mem c) = true -> buffer_at (mem c) (mid_index (mem c)) = latest c;
  inv_stale : is_fresh (mem c) = false -> buffer_at (mem c) (readIndex (mem c)) = latest c;
  inv_reader : rpc c = RExchange -> is_fresh (mem c) = true;
  inv_writer : forall frame i, wpc c = WCopy frame i ->
    length frame = frameBytes /\ (i <= frameBytes)%nat /\
    take i (buffer_at (mem c) (writeIndex (mem c))) = take i frame;
}.

(** Case analysis on the permutation: every index becomes a literal. *)
Lemma permuted_cases s :
  permuted s -> exists w r m f,
    s = mk_slot (buffers s) w r (if f : bool then Z.lor m kFresh else m) /\
    (w, r, m) ∈ [(0, 1, 2); (0, 2, 1); (1, 0, 2); (1, 2, 0); (2, 0, 1); (2, 1, 0)].
Proof.
  intros [Hp [Hm|Hm]]; exists (writeIndex s), (readIndex s), (mid_index s).
  - exists false. split; [|done]. by rewrite <- Hm; destruct s.
  - exists true. split; [|done]. by rewrite <- Hm; destruct s.
Qed.

Lemma sized_three n s : sized n s ->
  exists b0 b1 b2, buffers s = [b0; b1; b2] /\ length b0 = n /\ length b1 = n /\ length b2 = n.
Proof.
  intros [Hl Hf]. destruct (buffers s) as [|b0 [|b1 [|b2 [|]]]]; try done.
  exists b0, b1, b2. by rewrite !Forall_cons in Hf; naive_solver.
Qed.

(** Turns an invariant configuration into one with three named buffers and literal indices. *)
Ltac concrete_slot :=
  match goal with
  | Hp : permuted ?s, Hs : sized ?n ?s |- _ =>
      destruct (permuted_cases s Hp) as (?w & ?r & ?m & ?f & ?Es & ?Hin);
      destruct (sized_three n s Hs) as (?b0 & ?b1 & ?b2 & ?Eb & ?H0 & ?H1 & ?H2);
      rewrite Eb in Es; clear Eb Hp Hs; subst s;
      rewrite !elem_of_cons, elem_of_nil in Hin; destruct_or! Hin; try done;
      injection Hin as -> -> ->; destruct f
  end.

(** The shape of an invariant for three named buffers and literal indices. *)
Lemma inv_intro n b0 b1 b2 w r m wp rp lat :
  let s := mk_slot [b0; b1; b2] w r m in
  permuted s -> length b0 = n -> length b1 = n -> length b2 = n ->
  (is_fresh s = true -> buffer_at s (mid_index s) = lat) ->
  (is_fresh s = false -> buffer_at s (readIndex s) = lat) ->
  (rp = RExchange -> is_fresh s = true) ->
  (forall frame i, wp = WCopy frame i -> length frame = n /\ (i <= n)%nat /\
     take i (buffer_at s (writeIndex s)) = take i frame) ->
  inv n (mk_config s wp rp lat).
Proof.
  intros s ? ? ? ? ? ? ? ?. split; try done. split; [done|]. by subst s; repeat constructor.
Qed.

Lemma slot_inv_wstep n c c' : inv n c -> wstep n c c' -> inv n c'.
Proof.
  intros [Hp Hs Hf Hst Hr Hw] Hstep.
  destruct c as [s wp rp lat]; simpl in *.
  inversion Hstep as [? fr Hi Hl|? fr i b Hi Hlt Hb|? fr Hi]; subst; simpl in *.
  - constructor; simpl; try done. intros ? ? [= <- <-]. split_and!; [done|lia|done].
  - destruct (Hw _ _ Hi) as (Hl & Hle & Ht). clear Hw Hstep.
    concrete_slot; unfold buffer_at in *; simpl in *; apply inv_intro; try done;
      rewrite ?length_insert; try done; try (split; [set_solver|by vm_compute; auto]);
      intros ? ? [= <- <-]; unfold buffer_at; simpl; (split_and!; [done|lia|]);
      apply take_S_insert; (done || lia).
  - destruct (Hw _ _ Hi) as (Hl & Hle & Ht). clear Hw Hstep Hi.
    concrete_slot; unfold buffer_at in *; simpl in *;
      rewrite take_ge in Ht by lia; rewrite take_ge in Ht by lia;
      apply inv_intro; try done; (split; [set_solver|by vm_compute; auto]).
Qed.

Lemma slot_inv_rstep n c r c' : inv n c -> rstep c r c' -> inv n c'.
Proof.
  intros [Hp Hs Hf Hst Hr Hw] Hstep.
  destruct c as [s wp rp lat]; simpl in *.
  inversion Hstep; subst; simpl in *; try (by constructor).
  specialize (Hr ltac:(done)). clear Hstep Hst.
  concrete_slot; unfold buffer_at in *; simpl in *; try done; apply inv_intro; try done;
    try (split; [set_solver|by vm_compute; auto]); intros _; by apply Hf.
Qed.

Lemma inv_start n : inv n (start n).
Proof.
  split; simpl; try done.
  - split; [set_solver|by left].
  - split; [done|]. by repeat constructor; rewrite ?length_replicate.
Qed.

Lemma slot_inv_reachable n c : reachable n c -> inv n c.
Proof.
  intros H. eapply rtc_invariant; [|exact H|apply inv_start].
  intros a b Ha [Hw|[r Hr]]; eauto using slot_inv_wstep, slot_inv_rstep.
Qed.

(** An uninterrupted writer executes exactly [write]. *)
Lemma set_buffer_twice s i b b' : set_buffer (set_buffer s i b) i b' = set_buffer s i b'.
Proof. unfold set_buffer; simpl. by rewrite list_insert_insert_eq. Qed.

Lemma buffer_at_set s i b :
  (Z.to_nat i < length (buffers s))%nat -> buffer_at (set_buffer s i b) i = b.
Proof. intros. unfold buffer_at, set_buffer; simpl. by apply list_lookup_total_insert_eq. Qed.

Lemma set_buffer_id s i :
  (Z.to_nat i < length (buffers s))%nat -> set_buffer s i (buffer_at s i) = s.
Proof.
  intros H. unfold set_buffer, buffer_at. rewrite list_insert_id; [by destruct s|].
  by apply list_lookup_lookup_total_lt.
Qed.

Lemma insert_take_drop_step {A} i (l k : list A) b :
  k !! i = Some b -> length l = length k ->
  <[i := b]> (take i k ++ drop i l) = take (S i) k ++ drop (S i) l.
Proof.
  intros Hk Hl. pose proof (lookup_lt_Some _ _ _ Hk).
  rewrite (take_S_r k i b) by done. rewrite <- app_assoc. simpl.
  rewrite insert_app_r_alt by len. rewrite length_take_le by lia.
  rewrite Nat.sub_diag. f_equal.
  destruct (lookup_lt_is_Some_2 l i) as [x Hx]; [lia|].
  by rewrite (drop_S l x i).
Qed.

Lemma wstep_copy n s frame rp lat i :
  let w := writeIndex s in
  length frame = n -> length (buffer_at s w) = n -> (Z.to_nat w < length (buffers s))%nat ->
  (i <= n)%nat ->
  rtc (wstep n) (mk_config s (WCopy frame 0) rp lat)
    (mk_config (set_buffer s w (take i frame ++ drop i (buffer_at s w))) (WCopy frame i) rp lat).
Proof.
  intros w Hl Hb Hw. induction i as [|i IH]; intros Hi.
  - rewrite take_0, drop_0. simpl. unfold w. by rewrite set_buffer_id.
  - eapply rtc_r; [apply IH; lia|].
    destruct (lookup_lt_is_Some_2 frame i) as [b Hb']; [lia|].
    replace (set_buffer s w (take (S i) frame ++ drop (S i) (buffer_at s w))) with
      (store_byte (set_buffer s w (take i frame ++ drop i (buffer_at s w))) w i b).
    + set (c1 := mk_config (set_buffer s w (take i frame ++ drop i (buffer_at s w)))
                   (WCopy frame i) rp lat).
      refine (w_byte n c1 frame i b _ _ _); simpl; try done.
      fold w. rewrite buffer_at_set by done. len.
    + unfold store_byte. rewrite buffer_at_set by done. rewrite set_buffer_twice. f_equal.
      apply insert_take_drop_step; [done|lia].
Qed.

Lemma copy_into_full frame target : length frame = length target -> copy_into frame target = frame.
Proof.
  intros H. unfold copy_into. rewrite H, Nat.min_id. rewrite take_ge by lia.
  rewrite <- (app_nil_r frame) at 1. by apply list_inserts_0_l.
Qed.

Lemma sized_index n s i : permuted s -> sized n s -> i ∈ [writeIndex s; readIndex s; mid_index s] ->
  (Z.to_nat i < length (buffers s))%nat /\ length (buffer_at s i) = n.
Proof.
  intros Hp Hs Hi. concrete_slot; unfold buffer_at; simpl in *;
    rewrite !elem_of_cons, elem_of_nil in Hi; destruct_or! Hi; try done; cbv in Hi; subst i;
      (split; [simpl; lia|done]).
Qed.

Lemma slot_write_is_steps n s frame rp lat :
  permuted s -> sized n s -> length frame = n ->
  rtc (wstep n) (mk_config s WIdle rp lat) (mk_config (write s frame) WIdle rp frame).
Proof.
  intros Hp Hs Hl. destruct (sized_index n s (writeIndex s) Hp Hs) as [Hw Hb]; [set_solver|].
  eapply rtc_l; [by apply (w_begin n (mk_config s WIdle rp lat) frame)|]; simpl.
  eapply rtc_r; [apply (wstep_copy n s frame rp lat n); (done || lia)|].
  rewrite take_ge, drop_ge, app_nil_r by lia. unfold write.
  rewrite copy_into_full by lia.
  set (c1 := mk_config (set_buffer s (writeIndex s) frame) (WCopy frame n) rp lat).
  refine (w_publish n c1 frame _); simpl.
  rewrite buffer_at_set by done. by rewrite Hl, Nat.min_id.
Qed.

(** The frame [read] returns is the one the last completed [write] stored. *)
Lemma read_latest n c fr c' : inv n c -> rstep c (Some fr) c' -> fr = latest c.
Proof.
  intros [Hp Hs Hf Hst Hr Hw] Hstep. inversion Hstep; subst; simpl in *.
  - by apply Hst.
  - apply Hf, Hr. done.
Qed.

(** No step of the writer touches the buffer the reader holds. *)
Lemma wstep_view n c c' : inv n c -> wstep n c c' ->
  readIndex (mem c') = readIndex (mem c) /\
  buffer_at (mem c') (readIndex (mem c')) = buffer_at (mem c) (readIndex (mem c)).
Proof.
  intros [Hp Hs Hf Hst Hr Hw] Hstep. destruct c as [s wp rp lat]; simpl in *.
  inversion Hstep as [|? fr i b Hi Hlt Hb|]; subst; simpl in *; try done.
  split; [done|]. unfold store_byte, set_buffer, buffer_at; simpl.
  apply list_lookup_total_insert_ne. clear -Hp Hs. concrete_slot; simpl; lia.
Qed.

(** C2: whatever the interleaving of the writer's byte copies and exchange with the reader's test
    and exchange, a completed [read] returns the whole frame of the last completed [write] (the
    newest frame, never a half-written one), and no later step of the writer changes the span the
    reader was given. *)
Theorem slot_read_newest_whole n c :
  reachable n c ->
  (forall fr c', rstep c (Some fr) c' -> fr = latest c /\ length fr = n) /\
  (forall c', wstep n c c' ->
     buffer_at (mem c') (readIndex (mem c')) = buffer_at (mem c) (readIndex (mem c))).
Proof.
  intros Hc%slot_inv_reachable. split.
  - intros fr c' Hr. rewrite (read_latest n c fr c') by done. split; [done|].
    destruct Hc as [Hp Hs Hf Hst _ _]. destruct (is_fresh (mem c)) eqn:E.
    + rewrite <- Hf by done. eapply (sized_index n); try done. set_solver.
    + rewrite <- Hst by done. eapply (sized_index n); try done. set_solver.
  - intros c' Hw. by apply (wstep_view n).
Qed.

(** A write of [[7]] that the reader then takes. *)
Definition witness_config : config :=
  mk_config (write (reset 1 initial) [7]) WIdle RExchange [7].

Lemma slot_read_newest_whole_witness :
  reachable 1 witness_config /\
  (forall fr c', rstep witness_config (Some fr) c' -> fr = [7] /\ length fr = 1%nat) /\
  rstep witness_config (Some [7]) (mk_config (take_middle (mem witness_config)) WIdle RIdle [7]).
Proof.
  assert (R : reachable 1 witness_config).
  { eapply rtc_r.
    - eapply rtc_subrel; [|apply (slot_write_is_steps 1 (reset 1 initial) [7] RIdle [0])].
      + intros a b Hab. by left.
      + split; [rewrite elem_of_cons; by left|by left].
      + split; [done|by repeat constructor].
      + done.
    - right. exists None. by apply (r_saw_fresh (mk_config (write (reset 1 initial) [7]) WIdle RIdle [7])). }
  split; [exact R|]. split.
  - intros fr c'. apply (slot_read_newest_whole 1 witness_config R).
  - by apply (r_exchange witness_config).
Defined.

End Slot.
