(* ===== verification/SpoeQueue.v ===== *)
(** * SpoeInputQueue ([libs/comm/spoe_process_data.{h,cc}])

    The single-producer, single-consumer queue of input frames between the exchange thread and
    the RT thread of one SPoE drive: the sequential operations and their refinement to a bounded
    FIFO, then the interleaved execution of a producer and a consumer at byte granularity (atomics
    sequentially consistent). *)

From S2P Require Import Prelude.

(** ** SpoeInputQueue: a single-producer, single-consumer queue of frames *)
Module Queue.

(** [head] and [tail] are [std::size_t] counters that wrap at 2^64. *)
Record queue := mk_queue {
  storage : bytes;
  frameBytes : nat;
  capacity : nat;
  head : Z;
  tail : Z;
}.

Definition reset (fb cap : nat) (q : queue) : queue :=
  {| storage := replicate (fb * cap) 0; frameBytes := fb; capacity := cap; head := 0; tail := 0 |}.

(** [(i % capacity_) * frameBytes_]. *)
Definition slot_offset (q : queue) (i : Z) : nat :=
  (Z.to_nat (i mod Z.of_nat (capacity q)) * frameBytes q)%nat.

Definition with_storage (q : queue) (s : bytes) : queue :=
  mk_queue s (frameBytes q) (capacity q) (head q) (tail q).
Definition with_head (q : queue) (h : Z) : queue :=
  mk_queue (storage q) (frameBytes q) (capacity q) h (tail q).
Definition with_tail (q : queue) (t : Z) : queue :=
  mk_queue (storage q) (frameBytes q) (capacity q) (head q) t.

(** [capacity_ == 0 || head - tail >= capacity_], with the tail the producer loaded. *)
Definition is_full (q : queue) (loadedTail : Z) : bool :=
  (capacity q =? 0)%nat || (Z.of_nat (capacity q) <=? u64 (head q - loadedTail)).

Definition push (q : queue) (frame : bytes) : queue * bool :=
  if is_full q (tail q) then (q, false)
  else
    let n := Nat.min (length frame) (frameBytes q) in
    let q1 := with_storage q (list_inserts (slot_offset q (head q)) (take n frame) (storage q)) in
    (with_head q1 (u64 (head q + 1)), true).

Definition pop (q : queue) (frame : bytes) : queue * bytes * bool :=
  if tail q =? head q then (q, frame, false)
  else
    let n := Nat.min (length frame) (frameBytes q) in
    let copied := slice (slot_offset q (tail q)) n (storage q) in
    (with_tail q (u64 (tail q + 1)), list_inserts 0 copied frame, true).

Definition dropOldest (q : queue) (keep : Z) : queue * Z :=
  let queued := u64 (head q - tail q) in
  if queued <=? keep then (q, 0)
  else
    let dropped := u64 (queued - keep) in
    (with_tail q (u64 (tail q + dropped)), dropped).

Definition size (q : queue) : Z := u64 (head q - tail q).

(** *** Specification: a bounded FIFO of frames *)
Definition frame_at (q : queue) (i : Z) : bytes := slice (slot_offset q i) (frameBytes q) (storage q).

Definition contents (q : queue) : list bytes := frame_at q <$> seqZ (tail q) (head q - tail q).

Record wf (q : queue) : Prop := mk_wf {
  wf_order : 0 <= tail q <= head q;
  wf_room : head q - tail q <= Z.of_nat (capacity q);
  wf_width : head q < 2 ^ 64;
  wf_storage : length (storage q) = (frameBytes q * capacity q)%nat;
}.

Lemma u64_diff q : wf q -> u64 (head q - tail q) = head q - tail q.
Proof. intros [? ? ? ?]. apply uwrap_id. unfold in_u. lia. Qed.

Lemma slot_offset_bound q i :
  (0 < capacity q)%nat -> (slot_offset q i + frameBytes q <= frameBytes q * capacity q)%nat.
Proof.
  intros Hc. unfold slot_offset.
  assert ((Z.to_nat (i mod Z.of_nat (capacity q)) < capacity q)%nat).
  { pose proof (Z.mod_pos_bound i (Z.of_nat (capacity q)) ltac:(lia)). lia. }
  nia.
Qed.

Lemma slot_disjoint q i j :
  (0 < capacity q)%nat -> i < j < i + Z.of_nat (capacity q) ->
  (slot_offset q i + frameBytes q <= slot_offset q j \/
   slot_offset q j + frameBytes q <= slot_offset q i)%nat.
Proof.
  intros Hc Hij. pose proof (mod_distinct (Z.of_nat (capacity q)) i j ltac:(lia) Hij) as Hne.
  unfold slot_offset.
  pose proof (Z.mod_pos_bound i (Z.of_nat (capacity q)) ltac:(lia)).
  pose proof (Z.mod_pos_bound j (Z.of_nat (capacity q)) ltac:(lia)).
  destruct (decide (i mod Z.of_nat (capacity q) < j mod Z.of_nat (capacity q))); [left|right]; nia.
Qed.

Lemma seqZ_snoc m n : 0 <= n -> seqZ m (n + 1) = seqZ m n ++ [m + n].
Proof. intros. rewrite seqZ_app by lia. by rewrite (seqZ_cons (m + n)). Qed.

Lemma length_contents q : wf q -> Z.of_nat (length (contents q)) = size q.
Proof.
  intros H. unfold contents, size. rewrite u64_diff by done. rewrite length_fmap, length_seqZ.
  destruct H. lia.
Qed.

Lemma frame_at_write q k j i :
  frame_at (with_storage q (list_inserts (slot_offset q j) k (storage q))) i =
  slice (slot_offset q i) (frameBytes q) (list_inserts (slot_offset q j) k (storage q)).
Proof. done. Qed.

(** Writing the slot of [head] leaves every queued frame alone. *)
Lemma frame_at_other q k i :
  (0 < capacity q)%nat -> (length k <= frameBytes q)%nat ->
  tail q <= i < head q -> head q - tail q < Z.of_nat (capacity q) ->
  frame_at (with_storage q (list_inserts (slot_offset q (head q)) k (storage q))) i = frame_at q i.
Proof.
  intros Hc Hk Hi Hr. rewrite frame_at_write. unfold frame_at.
  apply slice_inserts_disjoint.
  destruct (slot_disjoint q i (head q) Hc ltac:(lia)); lia.
Qed.

Lemma push_refines q frame :
  wf q -> length frame = frameBytes q -> head q + 1 < 2 ^ 64 ->
  let (q', ok) := push q frame in
  wf q' /\ ok = (size q <? Z.of_nat (capacity q)) /\
  contents q' = contents q ++ (if ok then [frame] else []).
Proof.
  intros Hwf Hl Hh. unfold push, is_full, size. rewrite (u64_diff q Hwf).
  destruct Hwf as [Ho Hr Hw Hs].
  destruct (Nat.eqb_spec (capacity q) 0) as [E|E]; simpl.
  { split; [by constructor|]. rewrite app_nil_r. split; [|done]. bool_split; lia. }
  destruct (Z.leb_spec (Z.of_nat (capacity q)) (head q - tail q)).
  { split; [by constructor|]. rewrite app_nil_r. split; [|done]. bool_split; lia. }
  rewrite Hl, Nat.min_id, take_ge by lia. unfold u64. rewrite uwrap_id by (unfold in_u; lia).
  split_and!.
  - constructor; simpl; rewrite ?length_inserts; (lia || done).
  - bool_split; lia.
  - unfold contents; simpl. replace (head q + 1 - tail q) with (head q - tail q + 1) by lia.
    rewrite seqZ_snoc, fmap_app by lia. f_equal.
    + apply list_fmap_ext. intros ? i Hi%list_elem_of_lookup_2%elem_of_seqZ.
      apply (frame_at_other q frame i); lia.
    + simpl. f_equal. replace (tail q + (head q - tail q)) with (head q) by lia.
      unfold frame_at; simpl. unfold slot_offset; simpl. rewrite <- Hl.
      apply slice_inserts_same. rewrite Hs, Hl. apply (slot_offset_bound q). lia.
Qed.

Lemma contents_cons q :
  tail q < head q -> contents q = frame_at q (tail q) :: contents (with_tail q (tail q + 1)).
Proof.
  intros H. unfold contents. rewrite seqZ_cons by lia. simpl. f_equal.
  by replace (Z.pred (head q - tail q)) with (head q - (tail q + 1)) by lia.
Qed.

Lemma pop_refines q out :
  wf q -> length out = frameBytes q ->
  let '(q', got, ok) := pop q out in
  wf q' /\ ok = negb (size q =? 0) /\
  contents q = (if ok then [got] else []) ++ contents q' /\ (ok = false -> got = out).
Proof.
  intros Hwf Hl. unfold pop, size. rewrite (u64_diff q Hwf).
  pose proof Hwf as [Ho Hr Hw Hs].
  destruct (Z.eqb_spec (tail q) (head q)); simpl.
  { split_and!; try done. bool_split; (done || lia). }
  unfold u64. rewrite uwrap_id by (unfold in_u; lia). split_and!.
  - constructor; simpl; (lia || done).
  - bool_split; (done || lia).
  - rewrite contents_cons by lia. simpl. f_equal. rewrite Hl, Nat.min_id.
    symmetry. unfold frame_at. rewrite <- (app_nil_r (slice _ _ _)) at 1.
    apply list_inserts_0_l. rewrite length_slice; [done|].
    rewrite Hs. apply slot_offset_bound. lia.
  - done.
Qed.

Lemma contents_drop q k :
  0 <= k <= head q - tail q ->
  contents (with_tail q (tail q + k)) = drop (Z.to_nat k) (contents q).
Proof.
  intros Hk. unfold contents. simpl.
  replace (head q - tail q) with (k + (head q - (tail q + k))) by lia.
  rewrite seqZ_app, fmap_app by lia.
  rewrite drop_app_length' by (rewrite length_fmap, length_seqZ; lia). done.
Qed.

Lemma dropOldest_refines q keep :
  wf q -> in_u 64 keep ->
  let (q', dropped) := dropOldest q keep in
  wf q' /\ dropped = Z.max 0 (size q - keep) /\ size q' = Z.min (size q) keep /\
  contents q' = drop (Z.to_nat dropped) (contents q).
Proof.
  intros Hwf [Hk1 Hk2]. pose proof Hwf as [Ho Hr Hw Hs].
  unfold dropOldest, size. rewrite (u64_diff q Hwf).
  destruct (Z.leb_spec (head q - tail q) keep).
  { rewrite (u64_diff q Hwf). split_and!; (done || lia). }
  unfold u64. rewrite (uwrap_id 64 (_ - keep)) by (unfold in_u; lia).
  rewrite (uwrap_id 64 (tail q + _)) by (unfold in_u; lia). simpl.
  rewrite (uwrap_id 64 (head q - _)) by (unfold in_u; lia). split_and!; try lia.
  - constructor; simpl; (lia || done).
  - apply contents_drop. lia.
Qed.

(** One operation of either side, as the specification sees it. *)
Inductive op := Push (frame : bytes) | Pop (out : bytes) | Drop (keep : Z).

Definition run_op (q : queue) (o : op) : queue :=
  match o with
  | Push f => (push q f).1
  | Pop out => (pop q out).1.1
  | Drop keep => (dropOldest q keep).1
  end.

Definition spec_op (cap : nat) (l : list bytes) (o : op) : list bytes :=
  match o with
  | Push f => if (length l <? cap)%nat then l ++ [f] else l
  | Pop _ => drop 1 l
  | Drop keep => drop (length l - Z.to_nat keep) l
  end.

Definition op_ok (fb : nat) (o : op) : Prop :=
  match o with
  | Push f => length f = fb
  | Pop out => length out = fb
  | Drop keep => in_u 64 keep
  end.

Lemma run_op_refines q o :
  wf q -> op_ok (frameBytes q) o -> head q + 1 < 2 ^ 64 ->
  wf (run_op q o) /\ contents (run_op q o) = spec_op (capacity q) (contents q) o /\
  frameBytes (run_op q o) = frameBytes q /\ capacity (run_op q o) = capacity q /\
  head (run_op q o) <= head q + 1.
Proof.
  intros Hwf Hok Hh. pose proof (length_contents q Hwf) as Hlen. pose proof Hwf as [Ho Hr Hw Hs].
  destruct o as [f|out|keep]; cbn [run_op spec_op op_ok] in *.
  - pose proof (push_refines q f Hwf Hok Hh) as H. unfold push in *.
    destruct (is_full q (tail q)); simpl in *; destruct H as (H1 & H2 & H3).
    + split_and!; try (done || lia).
      destruct (Nat.ltb_spec (length (contents q)) (capacity q)); [|done].
      symmetry in H2. apply Z.ltb_ge in H2. lia.
    + split_and!; try done.
      * rewrite H3. destruct (Nat.ltb_spec (length (contents q)) (capacity q)); [done|].
        symmetry in H2. apply Z.ltb_lt in H2. lia.
      * unfold u64. rewrite uwrap_id by (unfold in_u; lia). lia.
  - pose proof (pop_refines q out Hwf Hok) as H. unfold pop in *.
    destruct (tail q =? head q); simpl in *; destruct H as (H1 & H2 & H3 & _).
    + split_and!; try (done || lia). symmetry in H2. apply negb_false_iff, Z.eqb_eq in H2.
      assert (E : length (contents q) = 0%nat) by lia. by apply nil_length_inv in E as ->.
    + split_and!; try (done || lia). by rewrite H3.
  - pose proof (dropOldest_refines q keep Hwf Hok) as H. unfold dropOldest in *.
    destruct (_ <=? keep); cbn [fst snd] in *; destruct H as (H1 & H2 & H3 & H4);
      (split_and!; try (done || simpl; lia)); (etrans; [exact H4|]);
      f_equal; unfold in_u in Hok; lia.
Qed.

(** Over any sequence of pushes of whole frames, pops and drops (fewer than 2^64 pushes), the
    circular byte storage behaves as a FIFO list of at most [capacity] frames: a push appends or is
    refused exactly when the list is full, a pop removes the oldest, a drop keeps the newest. *)
Theorem queue_refines_fifo fb cap ops :
  Forall (op_ok fb) ops -> Z.of_nat (length ops) < 2 ^ 64 - 1 ->
  let q0 := reset fb cap (mk_queue [] 0 0 0 0) in
  contents (foldl run_op q0 ops) = foldl (spec_op cap) [] ops /\
  size (foldl run_op q0 ops) = Z.of_nat (length (foldl (spec_op cap) [] ops)).
Proof.
  intros Hops Hlen q0.
  cut (forall q, wf q -> frameBytes q = fb -> capacity q = cap ->
    head q + Z.of_nat (length ops) < 2 ^ 64 ->
    contents (foldl run_op q ops) = foldl (spec_op cap) (contents q) ops /\
    wf (foldl run_op q ops)).
  { intros H. destruct (H q0) as [Hc Hwf]; try done; [|simpl; lia|].
    - constructor; simpl; rewrite ?length_replicate; lia.
    - rewrite Hc. split; [done|]. rewrite <- length_contents by done. by rewrite Hc. }
  clear Hlen q0. induction Hops as [|o ops Ho _ IH]; intros q Hwf Hf Hc Hh; [done|].
  simpl in Hh. destruct (run_op_refines q o Hwf) as (H1 & H2 & H3 & H4 & H5); subst; try done; [lia|].
  simpl. rewrite <- H2. apply IH; (congruence || lia || done).
Qed.

Lemma queue_refines_fifo_witness :
  let q0 := reset 2 2 (mk_queue [] 0 0 0 0) in
  let ops := [Push [1; 2]; Push [3; 4]; Push [5; 6]; Pop [0; 0]; Push [7; 8]; Drop 1] in
  contents (foldl run_op q0 ops) = [[7; 8]].
Proof.
  intros q0 ops. destruct (queue_refines_fifo 2 2 ops) as [H _].
  - repeat constructor; done.
  - done.
  - exact H.
Defined.

(** *** Producer and consumer, interleaved

    Each side loads the other's counter, copies a byte at a time, then stores its own counter.
    [history] is the list of every frame pushed, a ghost. *)
Inductive producer_pc := PIdle | PLoaded (frame : bytes) (t : Z) | PCopy (frame : bytes) (i : nat).
Inductive consumer_pc := CIdle | CLoaded (h : Z) | CCopy (got : bytes) | CDrop (keep h : Z).

Record config := mk_config {
  qmem : queue;
  ppc : producer_pc;
  cpc : consumer_pc;
  history : list bytes;
}.

Inductive pstep : config -> config -> Prop :=
  | p_load q c hist frame :
      length frame = frameBytes q ->
      pstep (mk_config q PIdle c hist) (mk_config q (PLoaded frame (tail q)) c hist)
  | p_full q c hist frame t :
      is_full q t = true ->
      pstep (mk_config q (PLoaded frame t) c hist) (mk_config q PIdle c hist)
  | p_room q c hist frame t :
      is_full q t = false ->
      pstep (mk_config q (PLoaded frame t) c hist) (mk_config q (PCopy frame 0) c hist)
  | p_byte q c hist frame i b :
      frame !! i = Some b ->
      pstep (mk_config q (PCopy frame i) c hist)
        (mk_config (with_storage q (<[(slot_offset q (head q) + i)%nat := b]> (storage q)))
           (PCopy frame (S i)) c hist)
  | p_store q c hist frame :
      head q + 1 < 2 ^ 64 ->
      pstep (mk_config q (PCopy frame (length frame)) c hist)
        (mk_config (with_head q (u64 (head q + 1))) PIdle c (hist ++ [frame])).

(** A consumer step; the label is the frame of a completed [pop]. *)
Inductive cstep : config -> option bytes -> config -> Prop :=
  | c_load q p hist :
      cstep (mk_config q p CIdle hist) None (mk_config q p (CLoaded (head q)) hist)
  | c_empty q p hist h :
      tail q = h -> cstep (mk_config q p (CLoaded h) hist) None (mk_config q p CIdle hist)
  | c_some q p hist h :
      tail q <> h -> cstep (mk_config q p (CLoaded h) hist) None (mk_config q p (CCopy []) hist)
  | c_byte q p hist got b :
      (length got < frameBytes q)%nat ->
      storage q !! (slot_offset q (tail q) + length got)%nat = Some b ->
      cstep (mk_config q p (CCopy got) hist) None (mk_config q p (CCopy (got ++ [b])) hist)
  | c_store q p hist got :
      length got = frameBytes q ->
      cstep (mk_config q p (CCopy got) hist) (Some got)
        (mk_config (with_tail q (u64 (tail q + 1))) p CIdle hist)
  | c_drop_load q p hist keep :
      in_u 64 keep ->
      cstep (mk_config q p CIdle hist) None (mk_config q p (CDrop keep (head q)) hist)
  | c_drop q p hist keep h :
      cstep (mk_config q p (CDrop keep h) hist) None
        (mk_config (with_tail q (tail (dropOldest (with_head q h) keep).1)) p CIdle hist).

Definition reachable (fb cap : nat) : config -> Prop :=
  rtc (fun c c' => pstep c c' \/ exists r, cstep c r c')
    (mk_config (reset fb cap (mk_queue [] 0 0 0 0)) PIdle CIdle []).

Record inv (c : config) : Prop := mk_qinv {
  inv_wf : wf (qmem c);
  inv_hist : Z.of_nat (length (history c)) = head (qmem c);
  inv_data : forall i, tail (qmem c) <= i < head (qmem c) ->
    history c !! Z.to_nat i = Some (frame_at (qmem c) i);
  inv_prod : match ppc c with
    | PIdle => True
    | PLoaded frame t => length frame = frameBytes (qmem c) /\ 0 <= t <= tail (qmem c)
    | PCopy frame i =>
        length frame = frameBytes (qmem c) /\
        head (qmem c) - tail (qmem c) < Z.of_nat (capacity (qmem c)) /\
        take i (frame_at (qmem c) (head (qmem c))) = take i frame
    end;
  inv_cons : match cpc c with
    | CIdle => True
    | CLoaded h => tail (qmem c) <= h <= head (qmem c)
    | CCopy got => tail (qmem c) < head (qmem c) /\
        got = take (length got) (frame_at (qmem c) (tail (qmem c)))
    | CDrop keep h => tail (qmem c) <= h <= head (qmem c) /\ in_u 64 keep
    end;
}.


(** Storing one byte of the frame being pushed leaves the queued frames alone. *)
Lemma frame_at_insert_other q j b i :
  tail q <= i < head q -> head q - tail q < Z.of_nat (capacity q) -> (j < frameBytes q)%nat ->
  frame_at (with_storage q (<[(slot_offset q (head q) + j)%nat := b]> (storage q))) i = frame_at q i.
Proof.
  intros Hi Hr Hj. unfold frame_at; simpl. apply (slice_insert_disjoint (slot_offset q i)).
  destruct (slot_disjoint q i (head q) ltac:(lia) ltac:(lia)); lia.
Qed.

Lemma length_frame_at q i : wf q -> (0 < capacity q)%nat -> length (frame_at q i) = frameBytes q.
Proof.
  intros Hwf Hc. apply length_slice. rewrite (wf_storage q Hwf). by apply slot_offset_bound.
Qed.

Lemma inv_pstep c c' : inv c -> pstep c c' -> inv c'.
Proof.
  intros [Hwf Hh Hd Hp Hc] Hstep. pose proof Hwf as [Ho Hr Hw Hs].
  inversion Hstep as [q cc hist fr Hl|q cc hist fr t Hfull|q cc hist fr t Hfull
    |q cc hist fr i b Hb|q cc hist fr Hlt]; subst; simpl in *.
  - constructor; simpl; try done. split; [done|lia].
  - by constructor.
  - destruct Hp as [Hl Ht]. constructor; simpl; try done. split_and!; try done.
    unfold is_full in Hfull. apply orb_false_iff in Hfull as [E1 E2].
    apply Z.leb_gt in E2. unfold u64 in E2. rewrite uwrap_id in E2 by (unfold in_u; lia). lia.
  - destruct Hp as (Hl & Hroom & Ht). pose proof (lookup_lt_Some _ _ _ Hb).
    assert (Hsame : forall k, tail q <= k < head q -> frame_at (with_storage q
      (<[(slot_offset q (head q) + i)%nat := b]> (storage q))) k = frame_at q k)
      by (intros; apply frame_at_insert_other; (done || lia)).
    constructor; simpl; try done.
    + constructor; simpl; rewrite ?length_insert; done.
    + intros k Hk. rewrite Hsame by done. by apply Hd.
    + split_and!; try done. unfold frame_at; simpl.
      change (slot_offset (with_storage q _) (head q)) with (slot_offset q (head q)).
      rewrite slice_insert_same by lia.
      apply take_S_insert; try done. fold (frame_at q (head q)). rewrite length_frame_at by (done || lia). lia.
    + destruct cc; simpl in *; try done. destruct Hc as [Hc1 Hc2]. split; [done|].
      rewrite Hsame by lia. done.
  - destruct Hp as (Hl & Hroom & Ht). unfold u64. rewrite uwrap_id by (unfold in_u; lia).
    rewrite (take_ge fr) in Ht by lia. rewrite take_ge in Ht by (rewrite length_frame_at; (done || lia)).
    constructor; simpl; try done.
    + constructor; simpl; (done || lia).
    + rewrite length_app. simpl. lia.
    + intros k Hk. destruct (decide (k = head q)) as [->|].
      * rewrite lookup_app_r by lia. replace (Z.to_nat (head q) - length hist)%nat with 0%nat by lia.
        simpl. f_equal. by rewrite <- Ht.
      * rewrite lookup_app_l by lia. by apply Hd; lia.
    + destruct cc; simpl in *; try done; try lia; destruct Hc as [Hc1 Hc2]; (split; [lia|done]).
Qed.

Lemma inv_cstep c r c' : inv c -> cstep c r c' -> inv c'.
Proof.
  intros [Hwf Hh Hd Hp Hc] Hstep. pose proof Hwf as [Ho Hr Hw Hs].
  inversion Hstep as [q p hist|q p hist h He|q p hist h He|q p hist got b Hg Hb|q p hist got Hg
    |q p hist keep Hk|q p hist keep h]; subst; simpl in *.
  - constructor; simpl; (done || lia).
  - by constructor.
  - constructor; simpl; try done. split; [lia|done].
  - constructor; simpl; try done. destruct Hc as [Hc1 Hc2]. split; [done|].
    rewrite length_app. simpl. rewrite Nat.add_1_r, (take_S_r _ _ b); [by rewrite <- Hc2|].
    unfold frame_at. by rewrite lookup_slice.
  - destruct Hc as [Hc1 Hc2]. unfold u64. rewrite uwrap_id by (unfold in_u; lia).
    constructor; simpl; try done.
    + constructor; simpl; (done || lia).
    + intros k Hk. by apply Hd; lia.
    + destruct p; simpl in *; try done; naive_solver lia.
  - constructor; simpl; try done. split; [lia|done].
  - destruct Hc as [Hc1 Hc2].
    pose proof (dropOldest_refines (with_head q h) keep) as Hdrop.
    assert (Hwf' : wf (with_head q h)) by (constructor; simpl; (done || lia)).
    specialize (Hdrop Hwf' Hc2).
    assert (Ht : tail q <= tail (dropOldest (with_head q h) keep).1 <= h).
    { unfold dropOldest in *. destruct (_ <=? keep); simpl in *; [lia|].
      destruct Hdrop as ([? ? ? ?] & H2 & _). simpl in *. unfold size in H2.
      rewrite (u64_diff _ Hwf') in *. simpl in *. unfold u64 in *.
      rewrite H2 in *. unfold in_u in Hc2.
      rewrite uwrap_id in * by (unfold in_u; lia). lia. }
    set (t := tail _) in *. clearbody t.
    constructor; simpl; try done.
    + constructor; simpl; (done || lia).
    + intros k Hk. by apply Hd; lia.
    + destruct p; simpl in *; try done; naive_solver lia.
Qed.

Lemma queue_inv_reachable fb cap c : reachable fb cap c -> inv c.
Proof.
  intros H. eapply rtc_invariant; [|exact H|].
  - intros a b Ha [Hp|[r Hr]]; eauto using inv_pstep, inv_cstep.
  - constructor; simpl; try done; [|lia].
    constructor; simpl; rewrite ?length_replicate; lia.
Qed.

(** C3: in every interleaving of the producer's and the consumer's byte copies and counter stores,
    a completed [pop] yields exactly the frame of the oldest push that was neither popped nor
    dropped: frames come out whole, in order and never twice, since [tail] only grows. *)
Theorem queue_concurrent_fifo fb cap c got c' :
  reachable fb cap c -> cstep c (Some got) c' ->
  history c !! Z.to_nat (tail (qmem c)) = Some got /\ tail (qmem c') = tail (qmem c) + 1 /\
  tail (qmem c') <= Z.of_nat (length (history c)).
Proof.
  intros Hc%queue_inv_reachable Hstep. destruct Hc as [Hwf Hh Hd Hp Hc].
  inversion Hstep as [| | | |q p hist g Hg| |]; subst; simpl in *.
  destruct Hc as [Hc1 Hc2]. destruct Hwf as [Ho Hr Hw Hs].
  unfold u64. rewrite uwrap_id by (unfold in_u; lia). split_and!; try lia.
  rewrite Hd by lia. f_equal. rewrite Hc2, Hg. symmetry. apply take_ge.
  rewrite length_frame_at; [lia|by constructor|lia].
Qed.

Definition witness_config : config :=
  mk_config (mk_queue [7; 0] 1 2 1 0) PIdle (CCopy [7]) [[7]].

Lemma queue_concurrent_fifo_witness :
  reachable 1 2 witness_config /\ history witness_config !! 0%nat = Some [7] /\
  cstep witness_config (Some [7]) (mk_config (mk_queue [7; 0] 1 2 1 1) PIdle CIdle [[7]]).
Proof.
  assert (R : reachable 1 2 witness_config).
  { set (q0 := reset 1 2 (mk_queue [] 0 0 0 0)). set (q1 := mk_queue [7; 0] 1 2 0 0).
    set (q2 := mk_queue [7; 0] 1 2 1 0). unfold reachable.
    eapply rtc_l; [left; by apply (p_load q0 CIdle [] [7])|].
    eapply rtc_l; [left; by apply p_room|].
    eapply rtc_l; [left; by apply (p_byte q0 CIdle [] [7] 0 7)|].
    eapply rtc_l; [left; by apply (p_store q1 CIdle [] [7])|].
    eapply rtc_l; [right; exists None; by apply (c_load q2 PIdle [[7]])|].
    eapply rtc_l; [right; exists None; by apply (c_some q2 PIdle [[7]] 1)|].
    eapply rtc_once. right; exists None. by apply (c_byte q2 PIdle [[7]] [] 7); [simpl; lia|]. }
  assert (S : cstep witness_config (Some [7]) (mk_config (mk_queue [7; 0] 1 2 1 1) PIdle CIdle [[7]]))
    by (by apply (c_store (mk_queue [7; 0] 1 2 1 0) PIdle [[7]] [7])).
  split; [exact R|]. split; [|exact S].
  apply (queue_concurrent_fifo 1 2 witness_config [7] _ R S).
Defined.

End Queue.
