(* ===== verification/SpoeAssembler.v ===== *)
(** * SpoeFrameAssembler ([libs/comm/spoe_process_data.{h,cc}])

    Cuts the input bytes of successive replies of an SPoE drive into whole frames, and restores
    the framing after the drive discarded part of a frame. *)

From S2P Require Import Prelude.

(** ** SpoeFrameAssembler: cutting replies into whole frames *)
Module Assembler.

Definition kInputPopLimit : nat := 500.

Record assembler := mk_assembler {
  frameBytes : nat;
  partial : bytes;
  framingLosses : Z;
}.

Definition reset (n : nat) (a : assembler) : assembler :=
  {| frameBytes := n; partial := []; framingLosses := 0 |}.

(** The part of [add] that drops stale bytes after a reply that emptied the drive's buffer. *)
Definition resync (reply : bytes) (a : assembler) : assembler :=
  if (length reply <? kInputPopLimit)%nat then
    let stale := (length (partial a) mod frameBytes a)%nat in
    if negb (stale =? 0)%nat then
      {| frameBytes := frameBytes a;
         partial := drop stale (partial a);
         framingLosses := u64 (framingLosses a + 1) |}
    else a
  else a.

Definition add (a : assembler) (reply : bytes) : assembler * bytes :=
  if (frameBytes a =? 0)%nat then (a, [])
  else
    let joined := {| frameBytes := frameBytes a; partial := partial a ++ reply;
                     framingLosses := framingLosses a |} in
    let a1 := resync reply joined in
    let whole := (length (partial a1) - length (partial a1) mod frameBytes a1)%nat in
    ({| frameBytes := frameBytes a1; partial := drop whole (partial a1);
        framingLosses := framingLosses a1 |},
     take whole (partial a1)).

(** Successive replies: the final state and the bytes of every frame produced, in order. *)
Fixpoint add_all (a : assembler) (replies : list bytes) : assembler * bytes :=
  match replies with
  | [] => (a, [])
  | r :: rs =>
      let (a1, out) := add a r in
      let (a2, outs) := add_all a1 rs in
      (a2, out ++ outs)
  end.

(** *** Lemmas *)

Lemma mod_part (x n : nat) : n <> 0%nat ->
  ((x - x mod n) mod n = 0)%nat /\ (x mod n <= x)%nat.
Proof.
  intros Hn. pose proof (Nat.Div0.mod_le x n). split; [|done].
  rewrite (Nat.div_mod_eq x n) at 1.
  replace (n * (x / n) + x mod n - x mod n)%nat with (x / n * n)%nat by lia.
  apply Nat.Div0.mod_mul.
Qed.

Lemma add_sync a reply :
  frameBytes a <> 0%nat ->
  frameBytes (fst (add a reply)) = frameBytes a /\
  (length (partial (fst (add a reply))) < frameBytes a)%nat /\
  (length (snd (add a reply)) mod frameBytes a = 0)%nat.
Proof.
  intros Hn. unfold add. apply Nat.eqb_neq in Hn as E. rewrite E. cbn [fst snd frameBytes partial].
  assert (Hf : frameBytes (resync reply (mk_assembler (frameBytes a) (partial a ++ reply)
    (framingLosses a))) = frameBytes a) by (unfold resync; simpl; repeat case_match; done).
  rewrite Hf. set (p := partial (resync _ _)).
  destruct (mod_part (length p) (frameBytes a) Hn) as [Hm Hle].
  pose proof (Nat.mod_upper_bound (length p) (frameBytes a) Hn).
  split_and!; [done| |].
  - rewrite length_drop. lia.
  - rewrite length_take, Nat.min_l by lia. done.
Qed.

(** A reply shorter than the limit always leaves the assembler on a frame boundary. *)
Lemma resync_short reply a :
  frameBytes a <> 0%nat -> (length reply < kInputPopLimit)%nat ->
  (length (partial (resync reply a)) mod frameBytes a = 0)%nat.
Proof.
  intros Hn Hl. unfold resync. apply Nat.ltb_lt in Hl as ->.
  destruct (length (partial a) mod frameBytes a =? 0)%nat eqn:E; simpl.
  - by apply Nat.eqb_eq.
  - rewrite length_drop. by apply mod_part.
Qed.

Lemma resync_frameBytes reply a : frameBytes (resync reply a) = frameBytes a.
Proof. unfold resync. by repeat case_match. Qed.

Lemma add_short_boundary a reply :
  frameBytes a <> 0%nat -> (length reply < kInputPopLimit)%nat ->
  partial (fst (add a reply)) = [] /\
  exists k, snd (add a reply) = drop k (partial a ++ reply) /\
    k = ((length (partial a) + length reply) mod frameBytes a)%nat.
Proof.
  intros Hn Hl. unfold add. apply Nat.eqb_neq in Hn as E. rewrite E. cbn [fst snd frameBytes partial].
  pose proof (resync_short reply (mk_assembler (frameBytes a) (partial a ++ reply)
    (framingLosses a)) Hn Hl) as Hm. simpl in Hm.
  rewrite resync_frameBytes. cbn [frameBytes]. rewrite Hm, Nat.sub_0_r, drop_all, take_ge by lia.
  split; [done|]. exists ((length (partial a) + length reply) mod frameBytes a)%nat.
  split; [|done]. unfold resync. cbn [frameBytes partial].
  apply Nat.ltb_lt in Hl as ->. rewrite length_app.
  destruct ((length (partial a) + length reply) mod frameBytes a =? 0)%nat eqn:E'; [|done].
  cbn [negb partial]. apply Nat.eqb_eq in E' as ->. by rewrite drop_0.
Qed.

(** Without stale bytes nothing is lost: what [add] returns followed by what it keeps is what it
    held followed by the reply. *)
Lemma add_lossless a reply :
  frameBytes a <> 0%nat ->
  ((kInputPopLimit <= length reply)%nat \/
   ((length (partial a) + length reply) mod frameBytes a = 0)%nat) ->
  snd (add a reply) ++ partial (fst (add a reply)) = partial a ++ reply /\
  framingLosses (fst (add a reply)) = framingLosses a.
Proof.
  intros Hn Hc. unfold add. apply Nat.eqb_neq in Hn as E. rewrite E. cbn [fst snd partial framingLosses].
  rewrite take_drop. unfold resync. cbn [frameBytes partial framingLosses]. rewrite length_app.
  destruct Hc as [Hc|Hc].
  - apply Nat.ltb_ge in Hc as ->. done.
  - rewrite Hc. by destruct (length reply <? kInputPopLimit)%nat.
Qed.

(** The replies of a drive that never discards: every short reply ends on a frame boundary of the
    bytes sent so far. *)
Fixpoint well_cut (n sent : nat) (replies : list bytes) : Prop :=
  match replies with
  | [] => True
  | r :: rs =>
      ((kInputPopLimit <= length r)%nat \/ ((sent + length r) mod n = 0)%nat) /\
      well_cut n (sent + length r) rs
  end.

Fixpoint well_cutb (n sent : nat) (replies : list bytes) : bool :=
  match replies with
  | [] => true
  | r :: rs =>
      ((kInputPopLimit <=? length r)%nat || ((sent + length r) mod n =? 0)%nat) &&
      well_cutb n (sent + length r) rs
  end.

Lemma well_cutb_spec n sent replies : well_cutb n sent replies = true -> well_cut n sent replies.
Proof.
  revert sent. induction replies as [|r rs IH]; intros sent; cbn [well_cutb well_cut]; [done|].
  rewrite andb_true_iff, orb_true_iff, Nat.leb_le, Nat.eqb_eq. naive_solver.
Qed.

Lemma mod_add_cong n x y z : (x mod n = y mod n)%nat -> ((x + z) mod n = (y + z) mod n)%nat.
Proof. intros H. rewrite Nat.Div0.add_mod, H. by rewrite <- Nat.Div0.add_mod. Qed.

Lemma add_all_lossless a sent replies :
  frameBytes a <> 0%nat -> (length (partial a) mod frameBytes a = sent mod frameBytes a)%nat ->
  well_cut (frameBytes a) sent replies ->
  snd (add_all a replies) ++ partial (fst (add_all a replies)) = partial a ++ concat replies /\
  framingLosses (fst (add_all a replies)) = framingLosses a.
Proof.
  revert a sent. induction replies as [|r rs IH]; intros a sent Hn Hs Hw; simpl.
  - by rewrite app_nil_r.
  - destruct Hw as [Hc Hw].
    assert (Hc' : (kInputPopLimit <= length r)%nat \/
      ((length (partial a) + length r) mod frameBytes a = 0)%nat).
    { destruct Hc as [|Hc]; [by left|right]. rewrite <- Hc. by apply mod_add_cong. }
    destruct (add_lossless a r Hn Hc') as [Hb Hf].
    destruct (add_sync a r Hn) as (Hfb & Hlt & Hm).
    destruct (add a r) as [a1 out]; cbn [fst snd] in *.
    destruct (IH a1 (sent + length r)%nat) as [IH1 IH2]; rewrite ?Hfb; try done.
    { rewrite <- (mod_add_cong _ _ _ (length r) Hs).
      apply (f_equal length) in Hb. rewrite !length_app in Hb. rewrite <- Hb.
      rewrite (Nat.Div0.add_mod (length out)), Hm, Nat.add_0_l. by rewrite Nat.Div0.mod_mod. }
    destruct (add_all a1 rs) as [a2 outs]; cbn [fst snd] in *.
    split; [|by rewrite IH2]. by rewrite <- app_assoc, IH1, !app_assoc, Hb.
Qed.

(** The assembler neither loses nor invents a byte for a drive that does not discard: over
    replies whose short ones end on a frame boundary, the frames it returned followed by what it
    keeps are the bytes received, no framing loss is counted, and it never keeps a whole frame. *)
Theorem assembler_lossless n replies :
  n <> 0%nat -> well_cut n 0 replies ->
  let a := reset n (mk_assembler 0 [] 0) in
  snd (add_all a replies) ++ partial (fst (add_all a replies)) = concat replies /\
  framingLosses (fst (add_all a replies)) = 0.
Proof. intros Hn Hw a. by apply (add_all_lossless a 0). Qed.

Lemma assembler_lossless_witness :
  let replies := [replicate 500 1; replicate 500 2; replicate 200 3] in
  snd (add_all (reset 24 (mk_assembler 0 [] 0)) replies) = concat replies.
Proof.
  pose proof (assembler_lossless 24 [replicate 500 1; replicate 500 2; replicate 200 3]
    ltac:(lia) ltac:(by apply well_cutb_spec; vm_compute)) as [H _].
  set (a := add_all _ _) in *. assert (E : partial a.1 = []) by (by vm_compute).
  rewrite E, app_nil_r in H. exact H.
Defined.

(** After any history, one reply shorter than the pop limit puts the framing right: nothing is
    kept, and what is returned is the tail of the joined bytes that ends with the reply and holds
    a whole number of frames. *)
Theorem assembler_recovers a reply :
  frameBytes a <> 0%nat -> (length reply < kInputPopLimit)%nat ->
  let (a', out) := add a reply in
  partial a' = [] /\ (length out mod frameBytes a = 0)%nat /\
  exists stale, stale ++ out = partial a ++ reply /\ (length stale < frameBytes a)%nat.
Proof.
  intros Hn Hl. destruct (add_short_boundary a reply Hn Hl) as (Hp & k & Ho & Hk).
  destruct (add_sync a reply Hn) as (_ & _ & Hm).
  destruct (add a reply) as [a' out]; cbn [fst snd] in *. split_and!; try done.
  exists (take k (partial a ++ reply)). rewrite Ho, take_drop. split; [done|].
  rewrite length_take, Hk. pose proof (Nat.mod_upper_bound
    (length (partial a) + length reply) (frameBytes a) Hn). lia.
Qed.

Lemma assembler_recovers_witness :
  let a := mk_assembler 4 [9; 9] 0 in
  snd (add a [1; 2; 3; 4]) = [1; 2; 3; 4] /\ partial (fst (add a [1; 2; 3; 4])) = [] /\
  framingLosses (fst (add a [1; 2; 3; 4])) = 1.
Proof.
  pose proof (assembler_recovers (mk_assembler 4 [9; 9] 0) [1; 2; 3; 4]
    ltac:(simpl; lia) ltac:(unfold kInputPopLimit; simpl; lia)) as H.
  vm_compute in H. destruct H as (Hp & _ & _). split_and!; by vm_compute.
Defined.

End Assembler.
