(* ===== verification/SpoeConnection.v ===== *)
(** * SPoE frames and the request/reply exchange ([libs/comm/spoe_frame.{h,cc}],
      [libs/comm/spoe_connection.{h,cc}])

    The wire format of one SPoE message, and a connection that sends one request at a time and
    waits for the reply with its sequence id and type, discarding late answers to earlier requests.
    The TCP socket is an interface: a write that completes, expires or fails, and a read that
    delivers some bytes, expires or fails. *)

From S2P Require Import Prelude.

Module Spoe.

(** ** The wire format *)
Definition kHeaderSize : nat := 7.
Definition kMaxDataSize : nat := 512.

Record FrameHeader := mk_header { h_type : Z; h_sequenceId : Z; h_status : Z; dataLength : Z }.
Record Frame := mk_frame { f_type : Z; sequenceId : Z; status : Z; data : bytes }.

Inductive FrameError := DataTooLarge (size : nat).

Definition encodeFrame (frame : Frame) : expected FrameError bytes :=
  if (kMaxDataSize <? length (data frame))%nat then Unexpected (DataTooLarge (length (data frame)))
  else
    let length_ := u16 (Z.of_nat (length (data frame))) in
    Value ([f_type frame; u8 (sequenceId frame); u8 (Z.shiftr (sequenceId frame) 8); u8 (status frame);
            u8 (Z.shiftr (status frame) 8); u8 length_; u8 (Z.shiftr length_ 8)] ++ data frame).

(** [bytes] is at least [offset + 2] long at every call. *)
Definition readU16 (l : bytes) (offset : nat) : Z :=
  u16 (Z.lor (byte_at l offset) (Z.shiftl (byte_at l (offset + 1)) 8)).

Definition decodeHeader (l : bytes) : option FrameHeader :=
  if (length l <? kHeaderSize)%nat then None
  else Some (mk_header (byte_at l 0) (readU16 l 1) (readU16 l 3) (readU16 l 5)).

(** ** The connection *)

(** What one asynchronous operation ended with: its result, the deadline, or an error. *)
Inductive io_error := EndOfFile | ConnectionReset | OtherError (code : Z).
Inductive io (A : Type) := Done (a : A) | Deadline | Failed (error : io_error).
Arguments Done {A} a.
Arguments Deadline {A}.
Arguments Failed {A} error.

Class Socket (N : Type) := {
  async_write : bytes -> N -> N * io unit;
  async_read_some : nat -> N -> N * io bytes;
}.

Inductive ConnectionError :=
  | ETimeout (type : Z)
  | EClosed (reason : closed_reason)
  | EInvalidRequest (e : FrameError)
with closed_reason :=
  | NotConnected | NotSentInTime | ReplyTooLong (claimed : Z) | ClosedByDrive | Transport (error : io_error).

Record connection := mk_connection {
  open : bool;
  discarded : Z;
  nextSequenceId : Z;
  received : bytes;
}.

Definition closeLocked (c : connection) : connection := mk_connection false (discarded c) (nextSequenceId c) [].

Definition set_received (c : connection) (l : bytes) : connection :=
  mk_connection (open c) (discarded c) (nextSequenceId c) l.

(** [takeFrame]: the first whole frame of the buffer, if there is one. *)
Definition takeFrame (c : connection) : connection * expected closed_reason (option Frame) :=
  match decodeHeader (received c) with
  | None => (c, Value None)
  | Some header =>
      if Z.of_nat kMaxDataSize <? dataLength header then (c, Unexpected (ReplyTooLong (dataLength header)))
      else
        let size := (kHeaderSize + Z.to_nat (dataLength header))%nat in
        if (length (received c) <? size)%nat then (c, Value None)
        else
          (set_received c (drop size (received c)),
           Value (Some (mk_frame (h_type header) (h_sequenceId header) (h_status header)
                          (slice kHeaderSize (size - kHeaderSize) (received c)))))
  end.

Definition discard (c : connection) : connection :=
  mk_connection (open c) (u64 (discarded c + 1)) (nextSequenceId c) (received c).

Definition read_failure (e : io_error) : closed_reason :=
  match e with EndOfFile | ConnectionReset => ClosedByDrive | e => Transport e end.

Section Requests.
Context {N : Type} `{Socket N}.

Definition kChunk : nat := 1024.

(** The loop of [request]: it takes frames off the buffer and reads more until a reply matches.
    Each turn takes a frame or makes a read, so [fuel] bounds the two together; running out of it
    stands for a wait that the deadline has not yet ended. *)
Fixpoint await (fuel : nat) (type id : Z) (w : N * connection) : N * connection * option (expected ConnectionError Frame) :=
  match fuel with
  | O => (w, None)
  | S fuel =>
      let '(n, c) := w in
      match takeFrame c with
      | (c1, Unexpected reason) => ((n, closeLocked c1), Some (Unexpected (EClosed reason)))
      | (c1, Value (Some reply)) =>
          if (sequenceId reply =? id) && (f_type reply =? type) then ((n, c1), Some (Value reply))
          else await fuel type id (n, discard c1)
      | (c1, Value None) =>
          match async_read_some kChunk n with
          | (n1, Deadline) => ((n1, c1), Some (Unexpected (ETimeout type)))
          | (n1, Failed e) => ((n1, closeLocked c1), Some (Unexpected (EClosed (read_failure e))))
          | (n1, Done chunk) => await fuel type id (n1, set_received c1 (received c1 ++ chunk))
          end
      end
  end.

Definition request (fuel : nat) (type st : Z) (payload : bytes) (w : N * connection)
    : N * connection * option (expected ConnectionError Frame) :=
  let '(n, c) := w in
  if negb (open c) then (w, Some (Unexpected (EClosed NotConnected)))
  else
    let id := nextSequenceId c in
    let c1 := mk_connection (open c) (discarded c) (u16 (nextSequenceId c + 1)) (received c) in
    match encodeFrame (mk_frame type id st payload) with
    | Unexpected e => ((n, c1), Some (Unexpected (EInvalidRequest e)))
    | Value l =>
        match async_write l n with
        | (n1, Deadline) => ((n1, closeLocked c1), Some (Unexpected (EClosed NotSentInTime)))
        | (n1, Failed e) => ((n1, closeLocked c1), Some (Unexpected (EClosed (Transport e))))
        | (n1, Done _) => await fuel type id (n1, c1)
        end
    end.
End Requests.

(** ** The format round-trips *)
Definition frame_ok (f : Frame) : Prop :=
  in_u 8 (f_type f) /\ in_u 16 (sequenceId f) /\ in_u 16 (status f) /\ (length (data f) <= kMaxDataSize)%nat.

Lemma readU16_bytes x l off : in_u 16 x -> byte_at l off = u8 x -> byte_at l (off + 1) = u8 (Z.shiftr x 8) ->
  readU16 l off = x.
Proof.
  intros Hx H0 H1. unfold readU16. rewrite H0, H1. unfold in_u in Hx. change (2 ^ 16) with 65536 in Hx.
  unfold u8, u16, uwrap. rewrite Z.shiftr_div_pow2 by lia. change (2 ^ 8) with 256. change (2 ^ 16) with 65536.
  pose proof (Z.div_mod x 256 ltac:(lia)). pose proof (Z.mod_pos_bound x 256 ltac:(lia)).
  rewrite (Z.mod_small (x / 256)) by lia. rewrite lor_shiftl_add by (unfold in_u; lia).
  change (2 ^ 8) with 256. rewrite Z.mod_small; lia.
Qed.

Lemma encode_shape f : frame_ok f -> exists h, encodeFrame f = Value (h ++ data f) /\ length h = kHeaderSize /\
  forall rest, decodeHeader (h ++ rest) =
    Some (mk_header (f_type f) (sequenceId f) (status f) (Z.of_nat (length (data f)))).
Proof.
  intros (Ht & Hs & Hst & Hl). unfold encodeFrame. rewrite (proj2 (Nat.ltb_ge _ _)) by done.
  eexists. split; [reflexivity|]. split; [done|]. intros rest. unfold kMaxDataSize in Hl.
  assert (Hlen : in_u 16 (Z.of_nat (length (data f)))) by (unfold in_u; change (2 ^ 16) with 65536; lia).
  unfold decodeHeader. cbn [app length Nat.ltb Nat.leb kHeaderSize].
  assert (Hu : u16 (Z.of_nat (length (data f))) = Z.of_nat (length (data f))) by (by apply uwrap_id). rewrite !Hu.
  rewrite (readU16_bytes (sequenceId f)), (readU16_bytes (status f)), (readU16_bytes (Z.of_nat (length (data f)))); done.
Qed.

(** The bytes of a frame that encodes, and of a run of them. *)
Definition wire (f : Frame) : bytes := match encodeFrame f with Value l => l | Unexpected _ => [] end.

Lemma takeFrame_whole c f rest : frame_ok f -> received c = wire f ++ rest ->
  takeFrame c = (set_received c rest, Value (Some f)).
Proof.
  intros Hf Hr. destruct (encode_shape f Hf) as (h & He & Hh & Hd). unfold wire in Hr. rewrite He in Hr.
  rewrite <- app_assoc in Hr. unfold takeFrame. rewrite Hr, Hd. cbn [dataLength h_type h_sequenceId h_status].
  destruct Hf as (_ & _ & _ & Hl). rewrite (proj2 (Z.ltb_ge _ _)) by lia. rewrite Nat2Z.id.
  rewrite !length_app, Hh, (proj2 (Nat.ltb_ge _ _)) by lia. f_equal.
  - f_equal. rewrite drop_app_ge, Hh by lia. by rewrite Nat.add_comm, Nat.add_sub, drop_app_length.
  - do 2 f_equal. destruct f as [t s st d]. cbn [data f_type sequenceId status]. f_equal. unfold slice.
    rewrite Nat.add_comm, Nat.add_sub. rewrite <- Hh, drop_app_length. by rewrite take_app_length.
Qed.

(** A proper prefix of a frame is not taken. *)
Lemma takeFrame_partial c f k : frame_ok f -> (k < length (wire f))%nat -> received c = take k (wire f) ->
  takeFrame c = (c, Value None).
Proof.
  intros Hf Hk Hr. destruct (encode_shape f Hf) as (h & He & Hh & Hd). unfold wire in *. rewrite He in *.
  unfold takeFrame. rewrite Hr. destruct (Nat.lt_ge_cases k kHeaderSize) as [Hlt|Hge].
  - unfold decodeHeader. rewrite length_take, (proj2 (Nat.ltb_lt _ _)); [done|lia].
  - rewrite take_app_ge by lia. rewrite Hd. cbn [dataLength]. rewrite length_app in Hk.
    destruct Hf as (_ & _ & _ & Hl). rewrite (proj2 (Z.ltb_ge _ _)) by lia. rewrite Nat2Z.id.
    rewrite length_app, length_take, Hh, (proj2 (Nat.ltb_lt _ _)); [done|lia].
Qed.

(** ** Waiting for a reply *)
Definition matches (type id : Z) (f : Frame) : bool := (sequenceId f =? id) && (f_type f =? type).

Section Awaiting.
Context {N : Type} `{Socket N} (type id : Z).

(** Successive reads deliver the chunks [cs]. *)
Fixpoint reads_to (n : N) (cs : list bytes) (n' : N) : Prop :=
  match cs with
  | [] => n' = n
  | chunk :: cs => exists n1, async_read_some kChunk n = (n1, Done chunk) /\ reads_to n1 cs n'
  end.

(** The first frame of the stream is either whole in the buffer or cut by its end. *)
Lemma first_frame l more f rest : l ++ more = wire f ++ rest ->
  (exists r, l = wire f ++ r /\ r ++ more = rest) \/
  ((length l < length (wire f))%nat /\ l = take (length l) (wire f) /\ more <> []).
Proof using.
  intros Heq. destruct (Nat.le_gt_cases (length (wire f)) (length l)) as [Hle|Hlt].
  - left. exists (drop (length (wire f)) l).
    assert (Hl : take (length (wire f)) l = wire f).
    { rewrite <- (take_app_le l more), Heq, take_app_length by done. done. }
    split; [by rewrite <- Hl at 1; rewrite take_drop|].
    rewrite <- drop_app_le, Heq, drop_app_length by done. done.
  - right. split; [done|]. split; [|by intros ->; rewrite app_nil_r in Heq; subst l; rewrite length_app in Hlt; lia].
    rewrite <- (take_app_le (wire f) rest), <- Heq, take_app_length by lia. done.
Qed.

Lemma await_step_frame fuel (n : N) c f r : frame_ok f -> received c = wire f ++ r ->
  await (S fuel) type id (n, c) =
    if matches type id f then ((n, set_received c r), Some (Value f))
    else await fuel type id (n, discard (set_received c r)).
Proof using. intros Hf Hr. cbn [await]. by rewrite (takeFrame_whole c f r Hf Hr). Qed.

Lemma await_step_read fuel (n n1 : N) c f chunk : frame_ok f -> (length (received c) < length (wire f))%nat ->
  received c = take (length (received c)) (wire f) -> async_read_some kChunk n = (n1, Done chunk) ->
  await (S fuel) type id (n, c) = await fuel type id (n1, set_received c (received c ++ chunk)).
Proof using.
  intros Hf Hlt Hr Hread. cbn [await]. rewrite (takeFrame_partial c f _ Hf Hlt Hr). by rewrite Hread.
Qed.

Lemma u64_plus x k : u64 (u64 (x + 1) + k) = u64 (x + (k + 1)).
Proof using. unfold u64, uwrap. rewrite Zplus_mod_idemp_l. f_equal. lia. Qed.

Lemma await_finds m (n n' : N) c cs stale reply rest :
  (length cs + length stale <= m)%nat -> Forall frame_ok (stale ++ [reply]) -> Forall (fun f => matches type id f = false) stale ->
  matches type id reply = true -> in_u 64 (discarded c) -> reads_to n cs n' ->
  received c ++ concat cs = concat (wire <$> stale) ++ wire reply ++ rest ->
  forall fuel, (m < fuel)%nat ->
  exists used left n1 c1, cs = used ++ left /\ reads_to n used n1 /\
    await fuel type id (n, c) = ((n1, c1), Some (Value reply)) /\ received c1 ++ concat left = rest /\
    discarded c1 = u64 (discarded c + Z.of_nat (length stale)) /\ open c1 = open c /\ nextSequenceId c1 = nextSequenceId c.
Proof using.
  revert n c cs stale. induction m as [m IH] using lt_wf_ind. intros n c cs stale Hm Hok Hst Hrep Hd Hrd Hs fuel Hfuel.
  destruct fuel as [|fuel]; [lia|].
  set (f := match stale with [] => reply | s :: _ => s end).
  assert (Hf : frame_ok f) by (unfold f; destruct stale; apply Forall_cons in Hok as [? _]; done).
  assert (Hs' : exists tail, received c ++ concat cs = wire f ++ tail /\
    tail = match stale with [] => rest | _ :: st => concat (wire <$> st) ++ wire reply ++ rest end).
  { destruct stale as [|s st]; [by exists rest|]. eexists. split; [|reflexivity]. rewrite Hs. cbn. by rewrite <- app_assoc. }
  destruct Hs' as (tail & Htail & Etail).
  destruct (first_frame (received c) (concat cs) f tail Htail) as [(r & Hr & Hrest)|(Hlt & Htake & Hmore)].
  - rewrite (await_step_frame fuel n c f r Hf Hr). destruct stale as [|s st].
    + subst f. rewrite Hrep. exists [], cs, n, (set_received c r). cbn. rewrite Hrest, Etail.
      split_and!; try done. unfold u64. by rewrite Z.add_0_r, uwrap_id.
    + apply Forall_cons in Hst as [Hno Hst]. subst f. rewrite Hno. cbn [app] in Hok. apply Forall_cons in Hok as [_ Hok].
      destruct (IH (length cs + length st)%nat) with (n := n) (c := discard (set_received c r)) (cs := cs) (stale := st) (fuel := fuel)
        as (used & lft & n1 & c1 & H1 & H2 & H3 & H4 & H5 & H6 & H7); try done; try (cbn in Hm; lia).
      * cbn. apply uwrap_range. lia.
      * cbn. by rewrite Hrest, Etail.
      * exists used, lft, n1, c1. split_and!; try done. rewrite H5. cbn [discard set_received discarded length].
        rewrite u64_plus. f_equal. lia.
  - destruct cs as [|chunk cs]; [done|]. destruct Hrd as (n1 & Hread & Hrd).
    rewrite (await_step_read fuel n n1 c f chunk Hf Hlt Htake Hread).
    destruct (IH (length cs + length stale)%nat) with (n := n1) (c := set_received c (received c ++ chunk)) (cs := cs) (stale := stale)
      (fuel := fuel) as (used & lft & n2 & c1 & H1 & H2 & H3 & H4 & H5 & H6 & H7); try done; try (cbn in Hm; lia).
    + cbn [set_received received]. rewrite <- Hs. cbn. by rewrite <- app_assoc.
    + exists (chunk :: used), lft, n2, c1. split_and!; try done; [by rewrite H1|]. exists n1. done.
Qed.
End Awaiting.

(** However the drive's bytes are cut into reads, and whatever late answers to earlier requests
    come first, a request returns the reply that carries its sequence id and type: the earlier
    answers are discarded and counted, and the bytes that follow stay framed for the next request. *)
Theorem request_gets_reply {N} `{Socket N} type st payload (n n1 n2 : N) c cs stale reply rest fuel :
  open c = true -> in_u 16 (nextSequenceId c) -> in_u 64 (discarded c) ->
  async_write (wire (mk_frame type (nextSequenceId c) st payload)) n = (n1, Done tt) ->
  (length payload <= kMaxDataSize)%nat -> reads_to n1 cs n2 ->
  Forall frame_ok (stale ++ [reply]) -> Forall (fun f => matches type (nextSequenceId c) f = false) stale ->
  matches type (nextSequenceId c) reply = true ->
  received c ++ concat cs = concat (wire <$> stale) ++ wire reply ++ rest ->
  (length cs + length stale < fuel)%nat ->
  exists left n3 c', request fuel type st payload (n, c) = ((n3, c'), Some (Value reply)) /\
    received c' ++ concat left = rest /\ reads_to n3 left n2 /\
    open c' = true /\ nextSequenceId c' = u16 (nextSequenceId c + 1) /\
    discarded c' = u64 (discarded c + Z.of_nat (length stale)).
Proof.
  intros Hopen Hid Hd Hw Hp Hrd Hok Hst Hrep Hs Hfuel. unfold request. rewrite Hopen. cbn [negb].
  set (c1 := mk_connection true (discarded c) (u16 (nextSequenceId c + 1)) (received c)).
  unfold wire at 1 in Hw. unfold encodeFrame in Hw |- *. cbn [data] in Hw |- *.
  rewrite (proj2 (Nat.ltb_ge _ _)) in Hw |- * by done. rewrite Hw.
  destruct (await_finds type (nextSequenceId c) _ n1 n2 c1 cs stale reply rest ltac:(reflexivity) Hok Hst Hrep Hd Hrd Hs fuel Hfuel)
    as (used & lft & n3 & c' & H1 & H2 & H3 & H4 & H5 & H6 & H7).
  exists lft, n3, c'. split_and!; try done. clear -H1 H2 Hrd. subst cs. revert n1 H2 Hrd.
  induction used as [|u used IH]; intros n1 H2 Hrd; cbn in *; [by subst n3|].
  destruct H2 as (a & Ha & H2), Hrd as (b & Hb & Hrd). rewrite Ha in Hb. injection Hb as ->. by apply (IH b).
Qed.

(** ** Any socket, any drive *)
Section Outcome.
Context {N : Type} `{Socket N}.

Lemma takeFrame_shape c c1 r : takeFrame c = (c1, r) ->
  c1 = set_received c (received c1) /\
  (length (received c1) + match r with Value (Some _) => kHeaderSize | _ => 0 end <= length (received c))%nat.
Proof using.
  unfold takeFrame, decodeHeader. destruct (Nat.ltb_spec (length (received c)) kHeaderSize).
  { intros [= <- <-]. split; [by destruct c|lia]. }
  destruct (_ <? _); [intros [= <- <-]; split; [by destruct c|lia]|].
  match goal with |- context [(length (received c) <? ?k)%nat] => destruct (Nat.ltb_spec (length (received c)) k) end; intros [= <- <-].
  - split; [by destruct c|lia].
  - split; [done|]. unfold kHeaderSize in *. cbn [set_received received dataLength] in *. rewrite length_drop. lia.
Qed.

Definition outcome_ok (type id : Z) (c c' : connection) (r : option (expected ConnectionError Frame)) : Prop :=
  match r with
  | Some (Value f) => sequenceId f = id /\ f_type f = type /\ open c' = open c
  | Some (Unexpected (EClosed _)) => open c' = false /\ received c' = []
  | Some (Unexpected _) => open c' = open c
  | None => True
  end /\ nextSequenceId c' = nextSequenceId c.

Lemma await_outcome fuel type id (n n' : N) c c' r : await fuel type id (n, c) = ((n', c'), r) -> outcome_ok type id c c' r.
Proof using.
  revert n c. induction fuel as [|fuel IH]; intros n c; cbn [await]; [intros [= <- <- <-]; done|].
  destruct (takeFrame c) as [c1 [[reply|]|e]] eqn:Et; apply takeFrame_shape in Et as [-> _].
  - destruct ((_ =? _) && _) eqn:Em.
    + intros [= <- <- <-]. apply andb_true_iff in Em as [Em1%Z.eqb_eq Em2%Z.eqb_eq]. done.
    + intros Ha%IH. exact Ha.
  - destruct (async_read_some kChunk n) as [n1 [chunk| |e]].
    + intros Ha%IH. exact Ha.
    + intros [= <- <- <-]. done.
    + intros [= <- <- <-]. destruct e; done.
  - intros [= <- <- <-]. done.
Qed.

Lemma await_terminates fuel type id (n n' : N) c cs : reads_to n cs n' ->
  (forall chunk n'', async_read_some kChunk n' <> (n'', Done chunk)) ->
  (length cs + length (received c) + length (concat cs) < fuel)%nat ->
  is_Some (snd (await fuel type id (n, c))).
Proof using.
  revert n c cs. induction fuel as [|fuel IH]; intros n c cs Hrd Hend Hfuel; [lia|]. cbn [await].
  destruct (takeFrame c) as [c1 [[reply|]|e]] eqn:Et; apply takeFrame_shape in Et as [Ec Hlen]; [|..|done].
  - destruct (_ && _); [done|]. apply (IH n (discard c1) cs); try done. unfold kHeaderSize in Hlen. cbn [discard received]. lia.
  - destruct cs as [|chunk cs].
    + cbn in Hrd. subst n'. destruct (async_read_some kChunk n) as [n1 [chunk| |e]] eqn:Er; [|done..].
      by destruct (Hend chunk n1).
    + destruct Hrd as (n1 & Hread & Hrd). rewrite Hread. apply (IH n1 _ cs); try done.
      cbn [set_received received]. cbn [length concat] in Hfuel. rewrite length_app in Hfuel |- *. lia.
Qed.
End Outcome.

(** On any socket and with any drive, a reply is returned only for the request it answers: it
    carries the sequence id this request consumed and its type. A timeout and a request too large to
    send leave the connection open; every other failure closes it and empties its buffer, so no
    later request reads from the middle of a frame. With a socket that stops delivering, the wait
    ends. *)
Theorem request_outcome {N} `{Socket N} fuel type st payload (n n' : N) c c' r :
  request fuel type st payload (n, c) = ((n', c'), r) -> open c = true ->
  outcome_ok type (nextSequenceId c)
    (mk_connection true (discarded c) (u16 (nextSequenceId c + 1)) (received c)) c' r /\
  (forall n1 cs n2, async_write (wire (mk_frame type (nextSequenceId c) st payload)) n = (n1, Done tt) ->
     reads_to n1 cs n2 -> (forall chunk n3, async_read_some kChunk n2 <> (n3, Done chunk)) ->
     (length cs + length (received c) + length (concat cs) < fuel)%nat -> is_Some r).
Proof.
  unfold request. intros Hreq Hopen. rewrite Hopen in Hreq. cbn [negb] in Hreq.
  set (c1 := mk_connection true (discarded c) (u16 (nextSequenceId c + 1)) (received c)) in *.
  unfold wire. destruct (encodeFrame _) as [l|e]; [|injection Hreq as <- <- <-; done].
  destruct (async_write l n) as [n1 [[]| |e]] eqn:Ew; [|injection Hreq as <- <- <-; done..].
  split; [by eapply await_outcome|]. intros n1' cs n2 [= <-] Hrd Hend Hfuel.
  pose proof (await_terminates fuel type (nextSequenceId c) n1 n2 c1 cs Hrd Hend Hfuel) as Hs. by rewrite Hreq in Hs.
Qed.

(** ** A scripted socket *)
#[export] Instance script : Socket (list (io bytes)) := {|
  async_write _ n := (n, Done tt);
  async_read_some _ n := match n with e :: n' => (n', e) | [] => ([], Deadline) end;
|}.

Definition fresh : connection := mk_connection true 0 1 [].
Definition late : Frame := mk_frame 1 1 0 [0xaa].
Definition answer : Frame := mk_frame 1 2 0 [0xbb; 0xcc].

(** The first request times out with its reply half received; the rest arrives with the second
    reply, cut in the middle of its header. *)
Definition events : list (io bytes) :=
  [Done (take 4 (wire late)); Deadline; Done (drop 4 (wire late) ++ take 5 (wire answer)); Done (drop 5 (wire answer))].

Definition timed_out : connection := mk_connection true 0 2 (take 4 (wire late)).

Lemma request_outcome_witness :
  request 5 1 0 [] (events, fresh) = ((drop 2 events, timed_out), Some (Unexpected (ETimeout 1))) /\
  outcome_ok 1 1 (mk_connection true 0 2 []) timed_out (Some (Unexpected (ETimeout 1))).
Proof.
  split; [vm_compute; reflexivity|].
  apply (request_outcome 5 1 0 [] events (drop 2 events) fresh timed_out); [vm_compute; reflexivity|reflexivity].
Defined.

Lemma request_gets_reply_witness : exists n3 c',
  request 9 1 0 [] (drop 2 events, timed_out) = ((n3, c'), Some (Value answer)) /\ discarded c' = 1.
Proof.
  destruct (request_gets_reply 1 0 [] (drop 2 events) (drop 2 events) [] timed_out
    [drop 4 (wire late) ++ take 5 (wire answer); drop 5 (wire answer)] [late] answer [] 9) as (lft & n3 & c' & H1 & _ & _ & _ & _ & H6);
    try done; try (cbn; lia).
  - by eexists; split; [reflexivity|]; eexists; split; [reflexivity|].
  - repeat constructor; cbn; lia.
  - repeat constructor.
  - exists n3, c'. split; [exact H1|]. rewrite H6. vm_compute. reflexivity.
Defined.

End Spoe.
