(* ===== verification/ProcessDataRing.v ===== *)
(** * ProcessDataRing ([libs/node/process_data_ring.{h,cc}])

    The lock-free flight recorder of the raw process image: one writer (the RT loop) that never
    waits, and readers that detect a record overwritten under them by re-checking the slot's
    sequence word. The sequential operations come first; then the writer and a reader interleave
    at every atomic access and at every byte of a [memcpy], with atomics modelled as sequentially
    consistent. Readers write nothing, so one reader is enough. [allocate] and [clear] run with
    every reader excluded (the class warning), so they are sequential only. *)

From S2P Require Import Prelude.

Module Ring.

(** [kInvalidSeq]: an empty slot, or one being written. *)
Definition kInvalidSeq : Z := 2 ^ 64 - 1.
Definition kHeaderBytes : nat := 20.

Record Record_ := mk_record {
  seq : Z;
  timestampNs : Z;
  wkc : Z;
  inputs : bytes;
  outputs : bytes;
}.

Record ring := mk_ring {
  buffer : bytes;
  seqWords : list Z;
  stride : nat;
  capacity : nat;
  inputCap : nat;
  outputCap : nat;
  head : Z;
  locked : bool;
}.

Definition empty_ring : ring := mk_ring [] [] 0 0 0 0 0 false.

(** [clear]: the storage is released; [munlock] has no effect on the object's state. *)
Definition clear (r : ring) : ring := empty_ring.

(** [allocate]; [mlocked] is whether both [mlock] calls succeeded. *)
Definition allocate (mlocked : bool) (inCap outCap cap : nat) (r : ring) : ring :=
  if (cap =? 0)%nat then clear r
  else
    let st := (kHeaderBytes + inCap + outCap)%nat in
    {| buffer := replicate (cap * st) 0;
       seqWords := replicate cap kInvalidSeq;
       stride := st; capacity := cap; inputCap := inCap; outputCap := outCap;
       head := 0; locked := mlocked |}.

Definition allocated (r : ring) : bool := negb (capacity r =? 0)%nat.

Definition slot_of (r : ring) (s : Z) : nat := Z.to_nat (s mod Z.of_nat (capacity r)).
Definition base_of (r : ring) (s : Z) : nat := (slot_of r s * stride r)%nat.

Definition set_word (r : ring) (i : nat) (v : Z) : ring :=
  mk_ring (buffer r) (<[i := v]> (seqWords r)) (stride r) (capacity r) (inputCap r) (outputCap r)
    (head r) (locked r).
Definition set_byte (r : ring) (a : nat) (b : Z) : ring :=
  mk_ring (<[a := b]> (buffer r)) (seqWords r) (stride r) (capacity r) (inputCap r) (outputCap r)
    (head r) (locked r).
Definition set_head (r : ring) (h : Z) : ring :=
  mk_ring (buffer r) (seqWords r) (stride r) (capacity r) (inputCap r) (outputCap r) h (locked r).

(** One cycle as the RT loop passes it to [write]. *)
Record cycle := mk_cycle { c_ts : Z; c_wkc : Z; c_in : bytes; c_out : bytes }.

(** The argument types: [uint64_t] and [int]. *)
Definition cycle_ok (c : cycle) : Prop := in_u 64 (c_ts c) /\ in_s 32 (c_wkc c).

(** [std::min<uint32_t>(static_cast<uint32_t>(size), cap)]. *)
Definition clamp32 (size cap : nat) : nat := Z.to_nat (Z.min (u32 (Z.of_nat size)) (Z.of_nat cap)).

Definition in_len (r : ring) (c : cycle) : nat := clamp32 (length (c_in c)) (inputCap r).
Definition out_len (r : ring) (c : cycle) : nat := clamp32 (length (c_out c)) (outputCap r).

(** The 20-byte header: timestamp, working counter, the two lengths. *)
Definition header (r : ring) (c : cycle) : bytes :=
  le_bytes 8 (c_ts c) ++ le_bytes 4 (c_wkc c) ++
  le_bytes 4 (Z.of_nat (in_len r c)) ++ le_bytes 4 (Z.of_nat (out_len r c)).

(** The byte stores of the six [memcpy] calls, in order, as (offset in the record, byte). *)
Definition stores (r : ring) (c : cycle) : list (nat * Z) :=
  imap (fun i b => (i, b)) (header r c) ++
  imap (fun i b => ((kHeaderBytes + i)%nat, b)) (take (in_len r c) (c_in c)) ++
  imap (fun i b => ((kHeaderBytes + inputCap r + i)%nat, b)) (take (out_len r c) (c_out c)).

Definition apply_store (base : nat) (r : ring) (s : nat * Z) : ring :=
  set_byte r (base + s.1)%nat s.2.

Definition write (r : ring) (c : cycle) : ring :=
  if (capacity r =? 0)%nat then r
  else
    let s := head r in
    let r1 := set_word r (slot_of r s) kInvalidSeq in
    let r2 := foldl (apply_store (base_of r s)) r1 (stores r c) in
    set_head (set_word r2 (slot_of r s) s) (u64 (s + 1)).

Definition oldestValidSeq (r : ring) : Z :=
  if Z.of_nat (capacity r) <? head r then head r - Z.of_nat (capacity r) else 0.

(** The two lengths as [readRecord] takes them from the header, clamped. *)
Definition hdr_in (r : ring) (hdr : bytes) : nat :=
  Z.to_nat (Z.min (le_value (slice 12 4 hdr)) (Z.of_nat (inputCap r))).
Definition hdr_out (r : ring) (hdr : bytes) : nat :=
  Z.to_nat (Z.min (le_value (slice 16 4 hdr)) (Z.of_nat (outputCap r))).

(** The record a reader assembles from the bytes it copied: header, inputs, outputs. *)
Definition assemble (r : ring) (s : Z) (got : bytes) : Record_ :=
  {| seq := s;
     timestampNs := le_value (slice 0 8 got);
     wkc := swrap 32 (le_value (slice 8 4 got));
     inputs := slice kHeaderBytes (hdr_in r got) got;
     outputs := slice (kHeaderBytes + hdr_in r got) (hdr_out r got) got |}.

(** The bytes [readRecord] copies out of a slot. *)
Definition copied (r : ring) (s : Z) : bytes :=
  let rec := base_of r s in
  let hdr := slice rec kHeaderBytes (buffer r) in
  hdr ++ slice (rec + kHeaderBytes) (hdr_in r hdr) (buffer r) ++
  slice (rec + kHeaderBytes + inputCap r) (hdr_out r hdr) (buffer r).

(** [readRecord]: [out] keeps its value on the early returns. *)
Definition readRecord (r : ring) (s : Z) (out : Record_) : Record_ * bool :=
  if (capacity r =? 0)%nat then (out, false)
  else if negb (seqWords r !!! slot_of r s =? s) then (out, false)
  else (assemble r s (copied r s), seqWords r !!! slot_of r s =? s).

(** ** The writer and a reader, interleaved *)
Inductive writer_pc := WIdle | WCopy (c : cycle) (i : nat) | WPublished.
Inductive reader_pc := RIdle | RCopy (s : Z) (got : bytes).

(** [history] is every cycle published so far, a ghost. *)
Record config := mk_config { mem : ring; wpc : writer_pc; rpc : reader_pc; history : list cycle }.

(** The offset, in the record, of the next byte the reader copies after [got]. *)
Definition next_offset (r : ring) (got : bytes) : nat :=
  let n := length got in
  if (n <? kHeaderBytes + hdr_in r got)%nat then n
  else (inputCap r + (n - hdr_in r got))%nat.

Definition copy_done (r : ring) (got : bytes) : bool :=
  (kHeaderBytes <=? length got)%nat &&
  (length got =? kHeaderBytes + hdr_in r got + hdr_out r got)%nat.

Inductive wstep : config -> config -> Prop :=
  | w_begin r rp h c :
      (0 < capacity r)%nat -> cycle_ok c ->
      wstep (mk_config r WIdle rp h)
        (mk_config (set_word r (slot_of r (head r)) kInvalidSeq) (WCopy c 0) rp h)
  | w_byte r rp h c i s :
      stores r c !! i = Some s ->
      wstep (mk_config r (WCopy c i) rp h)
        (mk_config (apply_store (base_of r (head r)) r s) (WCopy c (S i)) rp h)
  | w_publish r rp h c :
      head r + 1 < kInvalidSeq ->
      wstep (mk_config r (WCopy c (length (stores r c))) rp h)
        (mk_config (set_word r (slot_of r (head r)) (head r)) WPublished rp (h ++ [c]))
  | w_head r rp h :
      wstep (mk_config r WPublished rp h)
        (mk_config (set_head r (u64 (head r + 1))) WIdle rp h).

(** A reader step; the label is what a completed [readRecord] returned. *)
Inductive rstep : config -> option (Record_ * bool) -> config -> Prop :=
  | r_miss r wp h s out :
      capacity r = 0%nat \/ seqWords r !!! slot_of r s <> s ->
      rstep (mk_config r wp RIdle h) (Some (out, false)) (mk_config r wp RIdle h)
  | r_hit r wp h s :
      (0 < capacity r)%nat -> in_u 64 s -> s <> kInvalidSeq ->
      seqWords r !!! slot_of r s = s ->
      rstep (mk_config r wp RIdle h) None (mk_config r wp (RCopy s []) h)
  | r_byte r wp h s got b :
      copy_done r got = false ->
      buffer r !! (base_of r s + next_offset r got)%nat = Some b ->
      rstep (mk_config r wp (RCopy s got) h) None (mk_config r wp (RCopy s (got ++ [b])) h)
  | r_finish r wp h s got :
      copy_done r got = true ->
      rstep (mk_config r wp (RCopy s got) h)
        (Some (assemble r s got, seqWords r !!! slot_of r s =? s)) (mk_config r wp RIdle h).

Definition reachable (mlocked : bool) (inCap outCap cap : nat) : config -> Prop :=
  rtc (fun c c' => wstep c c' \/ exists l, rstep c l c')
    (mk_config (allocate mlocked inCap outCap cap empty_ring) WIdle RIdle []).

(** ** What a slot holds *)

Record shape (r : ring) : Prop := mk_shape {
  sh_words : length (seqWords r) = capacity r;
  sh_buffer : length (buffer r) = (capacity r * stride r)%nat;
  sh_stride : stride r = (kHeaderBytes + inputCap r + outputCap r)%nat;
}.

Definition encodes (r : ring) (s : Z) (c : cycle) : Prop :=
  forall o b, (o, b) ∈ stores r c -> buffer r !! (base_of r s + o)%nat = Some b.

(** The record a reader gets for cycle [c], as published under [s]. *)
Definition recorded (r : ring) (s : Z) (c : cycle) : Record_ :=
  mk_record s (c_ts c) (c_wkc c) (take (in_len r c) (c_in c)) (take (out_len r c) (c_out c)).

Lemma clamp32_le size cap : (clamp32 size cap <= size)%nat /\ (clamp32 size cap <= cap)%nat /\
  Z.of_nat (clamp32 size cap) < 2 ^ 32.
Proof.
  unfold clamp32, u32. pose proof (uwrap_range 32 (Z.of_nat size) ltac:(lia)) as [H1 H2].
  assert (uwrap 32 (Z.of_nat size) <= Z.of_nat size) by (apply Z.mod_le; lia). lia.
Qed.

Lemma length_header r c : length (header r c) = kHeaderBytes.
Proof. unfold header. autorewrite with mm_len. done. Qed.

Lemma stores_offsets r c :
  (stores r c).*1 = List.seq 0 kHeaderBytes ++ List.seq kHeaderBytes (in_len r c) ++
    List.seq (kHeaderBytes + inputCap r) (out_len r c).
Proof.
  pose proof (clamp32_le (length (c_in c)) (inputCap r)).
  pose proof (clamp32_le (length (c_out c)) (outputCap r)).
  unfold stores. rewrite !fmap_app, !fmap_imap.
  rewrite (imap_ext _ (fun i _ => id (0 + i)%nat) (header r c)) by done.
  rewrite (imap_ext _ (fun i _ => id (kHeaderBytes + i)%nat) (take (in_len r c) _)) by done.
  rewrite (imap_ext _ (fun i _ => id (kHeaderBytes + inputCap r + i)%nat)
    (take (out_len r c) _)) by done.
  rewrite !imap_seq, !list_fmap_id, length_header, !length_take.
  unfold in_len, out_len. by rewrite !Nat.min_l by lia.
Qed.

Lemma stores_offset_bound r c o b :
  stride r = (kHeaderBytes + inputCap r + outputCap r)%nat ->
  (o, b) ∈ stores r c -> (o < stride r)%nat.
Proof.
  intros Hs Ho'. assert (Ho : o ∈ (stores r c).*1) by (apply list_elem_of_fmap; by exists (o, b)).
  rewrite stores_offsets in Ho.
  pose proof (clamp32_le (length (c_in c)) (inputCap r)).
  pose proof (clamp32_le (length (c_out c)) (outputCap r)).
  rewrite !elem_of_app, !elem_of_seq in Ho. unfold in_len, out_len in *. lia.
Qed.

Lemma stores_offsets_distinct r c i j o b b' :
  stores r c !! i = Some (o, b) -> stores r c !! j = Some (o, b') -> i = j.
Proof.
  intros Hi Hj. apply (NoDup_lookup (stores r c).*1 i j o); rewrite ?list_lookup_fmap, ?Hi, ?Hj; try done.
  rewrite stores_offsets. pose proof (clamp32_le (length (c_in c)) (inputCap r)).
  apply NoDup_app. split; [apply NoDup_seq|]. split.
  - intros x. rewrite elem_of_app, !elem_of_seq. lia.
  - apply NoDup_app. split; [apply NoDup_seq|]. split; [|apply NoDup_seq].
    intros x. rewrite !elem_of_seq. unfold in_len. lia.
Qed.

(** Different slots do not overlap. *)
Lemma base_disjoint r s t o o' :
  slot_of r s <> slot_of r t -> (o < stride r)%nat -> (o' < stride r)%nat ->
  (base_of r s + o)%nat <> (base_of r t + o')%nat.
Proof. unfold base_of. nia. Qed.

(** A region of the record that the stores cover is read back as stored. *)
Lemma encodes_slice r s c off (l : bytes) :
  encodes r s c -> (forall i b, l !! i = Some b -> ((off + i)%nat, b) ∈ stores r c) ->
  slice (base_of r s + off) (length l) (buffer r) = l.
Proof.
  intros He Hl. apply list_eq. intros i. destruct (l !! i) eqn:E.
  - pose proof (lookup_lt_Some _ _ _ E). rewrite lookup_slice by done.
    rewrite <- Nat.add_assoc. apply He, Hl, E.
  - apply lookup_ge_None in E. apply lookup_ge_None. unfold slice. rewrite length_take. lia.
Qed.

Lemma header_fields r c rest :
  slice 0 8 (header r c ++ rest) = le_bytes 8 (c_ts c) /\
  slice 8 4 (header r c ++ rest) = le_bytes 4 (c_wkc c) /\
  slice 12 4 (header r c ++ rest) = le_bytes 4 (Z.of_nat (in_len r c)) /\
  slice 16 4 (header r c ++ rest) = le_bytes 4 (Z.of_nat (out_len r c)).
Proof. unfold header. split_and!; reflexivity. Qed.

Lemma hdr_len_roundtrip size cap :
  Z.to_nat (Z.min (le_value (le_bytes 4 (Z.of_nat (clamp32 size cap)))) (Z.of_nat cap)) =
  clamp32 size cap.
Proof.
  pose proof (clamp32_le size cap). rewrite le_value_bytes.
  rewrite uwrap_id by (unfold in_u; simpl; lia). lia.
Qed.

Lemma hdr_lens r c rest :
  hdr_in r (header r c ++ rest) = in_len r c /\ hdr_out r (header r c ++ rest) = out_len r c.
Proof.
  destruct (header_fields r c rest) as (_ & _ & Hi & Ho). unfold hdr_in, hdr_out.
  rewrite Hi, Ho. split; apply hdr_len_roundtrip.
Qed.

(** The bytes a reader copies out of a slot that holds [c]. *)
Lemma copied_encodes r s c :
  encodes r s c ->
  copied r s = header r c ++ take (in_len r c) (c_in c) ++ take (out_len r c) (c_out c).
Proof.
  intros He. pose proof (clamp32_le (length (c_in c)) (inputCap r)).
  pose proof (clamp32_le (length (c_out c)) (outputCap r)).
  assert (Hh : slice (base_of r s) kHeaderBytes (buffer r) = header r c).
  { rewrite <- (length_header r c), <- (Nat.add_0_r (base_of r s)).
    apply (encodes_slice r s c); [done|]. intros i b Hb. unfold stores.
    apply elem_of_app; left. apply elem_of_lookup_imap. by exists i, b. }
  unfold copied. rewrite Hh. destruct (hdr_lens r c []) as [E1 E2]. rewrite app_nil_r in E1, E2.
  rewrite E1, E2. f_equal. f_equal.
  - assert (L : length (take (in_len r c) (c_in c)) = in_len r c)
      by (rewrite length_take; unfold in_len; lia).
    rewrite <- L at 1. apply (encodes_slice r s c); [done|]. intros i b Hb. unfold stores.
    rewrite !elem_of_app. right; left. apply elem_of_lookup_imap. by exists i, b.
  - assert (L : length (take (out_len r c) (c_out c)) = out_len r c)
      by (rewrite length_take; unfold out_len; lia).
    rewrite <- L at 1. rewrite <- Nat.add_assoc. apply (encodes_slice r s c); [done|].
    intros i b Hb. unfold stores. rewrite !elem_of_app. right; right.
    apply elem_of_lookup_imap. by exists i, b.
Qed.

Lemma assemble_encodes r s c :
  cycle_ok c -> encodes r s c -> assemble r s (copied r s) = recorded r s c.
Proof.
  intros [Ht Hw] He. rewrite (copied_encodes r s c He).
  pose proof (clamp32_le (length (c_in c)) (inputCap r)).
  pose proof (clamp32_le (length (c_out c)) (outputCap r)).
  set (rest := take (in_len r c) (c_in c) ++ take (out_len r c) (c_out c)).
  destruct (header_fields r c rest) as (H1 & H2 & _ & _).
  destruct (hdr_lens r c rest) as [E1 E2]. unfold assemble, recorded.
  rewrite H1, H2, E1, E2, !le_value_bytes. f_equal.
  - by apply uwrap_id.
  - by apply swrap_uwrap.
  - rewrite slice_app_r by apply length_header. subst rest.
    rewrite take_app_le by (rewrite length_take; unfold in_len; lia).
    by rewrite take_take, Nat.min_id.
  - subst rest. rewrite app_assoc. rewrite slice_app_r.
    + by rewrite take_take, Nat.min_id.
    + rewrite length_app, length_header, length_take. unfold in_len. lia.
Qed.

(** ** The invariant of the interleaved execution *)

(** The bytes the reader has copied agree with what the slot holds now. *)
Definition reads_from (r : ring) (s : Z) (got : bytes) : Prop :=
  forall k b, got !! k = Some b ->
    (next_offset r (take k got) < stride r)%nat /\
    buffer r !! (base_of r s + next_offset r (take k got))%nat = Some b.

(** The reader never copies more than the header it has read announces. *)
Definition within (r : ring) (got : bytes) : Prop :=
  (kHeaderBytes <= length got)%nat ->
  (length got <= kHeaderBytes + hdr_in r got + hdr_out r got)%nat.

Record inv (c : config) : Prop := mk_inv {
  inv_shape : shape (mem c);
  inv_head : 0 <= head (mem c) /\ head (mem c) < kInvalidSeq /\
    Z.of_nat (length (history c)) =
      match wpc c with WPublished => head (mem c) + 1 | _ => head (mem c) end;
  inv_ok : Forall cycle_ok (history c);
  inv_words : forall i w, seqWords (mem c) !! i = Some w -> w <> kInvalidSeq ->
    0 <= w < Z.of_nat (length (history c)) /\ slot_of (mem c) w = i /\
    exists cy, history c !! Z.to_nat w = Some cy /\ encodes (mem c) w cy;
  inv_writer : match wpc c with
    | WCopy cy i =>
        cycle_ok cy /\ (0 < capacity (mem c))%nat /\
        seqWords (mem c) !! slot_of (mem c) (head (mem c)) = Some kInvalidSeq /\
        (forall k o b, (k < i)%nat -> stores (mem c) cy !! k = Some (o, b) ->
           buffer (mem c) !! (base_of (mem c) (head (mem c)) + o)%nat = Some b)
    | WPublished => head (mem c) + 1 < kInvalidSeq /\ (0 < capacity (mem c))%nat
    | WIdle => True
    end;
  inv_reader : match rpc c with
    | RCopy s got =>
        (0 < capacity (mem c))%nat /\ 0 <= s < Z.of_nat (length (history c)) /\
        within (mem c) got /\
        (seqWords (mem c) !!! slot_of (mem c) s = s -> reads_from (mem c) s got)
    | RIdle => True
    end;
}.

Lemma slot_lt r s : (0 < capacity r)%nat -> (slot_of r s < capacity r)%nat.
Proof.
  intros. unfold slot_of. pose proof (Z.mod_pos_bound s (Z.of_nat (capacity r)) ltac:(lia)). lia.
Qed.

Lemma address_lt r s o :
  shape r -> (0 < capacity r)%nat -> (o < stride r)%nat -> (base_of r s + o < length (buffer r))%nat.
Proof.
  intros [_ Hb _] Hc Ho. rewrite Hb. pose proof (slot_lt r s Hc). unfold base_of. nia.
Qed.

Lemma hdr_in_le r hdr : (hdr_in r hdr <= inputCap r)%nat.
Proof. unfold hdr_in. lia. Qed.
Lemma hdr_out_le r hdr : (hdr_out r hdr <= outputCap r)%nat.
Proof. unfold hdr_out. lia. Qed.

Lemma next_offset_bound r got :
  shape r -> within r got -> copy_done r got = false -> (next_offset r got < stride r)%nat.
Proof.
  intros [_ _ Hs] Hw Hd. unfold next_offset, copy_done, within in *.
  pose proof (hdr_in_le r got). pose proof (hdr_out_le r got). rewrite Hs.
  destruct (Nat.ltb_spec (length got) (kHeaderBytes + hdr_in r got)); [lia|].
  destruct (Nat.leb_spec kHeaderBytes (length got)); cbn [andb] in Hd; [|lia].
  apply Nat.eqb_neq in Hd. specialize (Hw ltac:(done)). lia.
Qed.

(** Once the header is complete, further bytes do not change the lengths it announces. *)
Lemma hdr_app r got more :
  (kHeaderBytes <= length got)%nat ->
  hdr_in r (got ++ more) = hdr_in r got /\ hdr_out r (got ++ more) = hdr_out r got.
Proof.
  intros H. unfold hdr_in, hdr_out. unfold kHeaderBytes in H.
  by rewrite !slice_app_l by lia.
Qed.

Lemma within_step r got b : within r got -> copy_done r got = false -> within r (got ++ [b]).
Proof.
  intros Hw Hd H. rewrite length_app in *. cbn [length] in *.
  destruct (decide (kHeaderBytes <= length got)%nat) as [Hk|Hk]; [|lia].
  destruct (hdr_app r got [b] Hk) as [-> ->]. specialize (Hw Hk).
  unfold copy_done in Hd. apply Nat.leb_le in Hk. rewrite Hk in Hd. cbn [andb] in Hd.
  apply Nat.eqb_neq in Hd. lia.
Qed.

(** A byte stored in the slot being written is not seen through a slot whose word is valid. *)
Lemma other_slot_kept r s o o' (b : Z) :
  slot_of r s <> slot_of r (head r) -> (o < stride r)%nat -> (o' < stride r)%nat ->
  <[(base_of r (head r) + o')%nat := b]> (buffer r) !! (base_of r s + o)%nat =
  buffer r !! (base_of r s + o)%nat.
Proof. intros. apply list_lookup_insert_ne. by apply not_eq_sym, base_disjoint. Qed.

Lemma word_lookup r i : shape r -> (i < capacity r)%nat ->
  seqWords r !! i = Some (seqWords r !!! i).
Proof. intros [Hw _ _] Hi. apply list_lookup_lookup_total_lt. lia. Qed.

(** ** Preservation *)

Lemma inv_w_begin r rp h c :
  (0 < capacity r)%nat -> cycle_ok c -> inv (mk_config r WIdle rp h) ->
  inv (mk_config (set_word r (slot_of r (head r)) kInvalidSeq) (WCopy c 0) rp h).
Proof.
  intros Hc Hok [Hs (Hh1 & Hh2 & Hh3) Ho Hw _ Hr]; simpl in *.
  pose proof (slot_lt r (head r) Hc). pose proof Hs as [Hs1 Hs2 Hs3].
  constructor; simpl; try done.
  - constructor; simpl; rewrite ?length_insert; done.
  - intros i w Hi Hne. destruct (decide (i = slot_of r (head r))) as [->|].
    + rewrite list_lookup_insert_eq in Hi by lia. congruence.
    + rewrite list_lookup_insert_ne in Hi by done. by apply Hw.
  - split_and!; try done; [|intros; lia]. apply list_lookup_insert_eq. lia.
  - destruct rp as [|s got]; [done|]. destruct Hr as (? & ? & ? & Hr).
    refine (conj _ (conj _ (conj _ _))); [done..|].
    intros Hword. apply Hr. change (slot_of (set_word r _ _) s) with (slot_of r s) in Hword.
    destruct (decide (slot_of r s = slot_of r (head r))) as [E|E].
    + rewrite E, list_lookup_total_insert_eq in Hword by lia. lia.
    + by rewrite list_lookup_total_insert_ne in Hword by done.
Qed.

Lemma inv_w_byte r rp h c i st :
  stores r c !! i = Some st -> inv (mk_config r (WCopy c i) rp h) ->
  inv (mk_config (apply_store (base_of r (head r)) r st) (WCopy c (S i)) rp h).
Proof.
  intros Hst [Hs (Hh1 & Hh2 & Hh3) Ho Hw (Hok & Hc & Hinv & Hdone) Hr]; simpl in *.
  destruct st as [o b]. pose proof Hs as [Hs1 Hs2 Hs3].
  assert (Hob : (o < stride r)%nat)
    by (apply (stores_offset_bound r c o b); [done|by eapply list_elem_of_lookup_2]).
  unfold apply_store; simpl.
  constructor; simpl; try done.
  - constructor; simpl; rewrite ?length_insert; done.
  - intros j w Hj Hne. destruct (Hw j w Hj Hne) as (Hb & Hsl & cy & Hcy & He).
    split; [done|]. split; [done|]. exists cy. split; [done|]. intros o' b' Ho'. simpl.
    change (base_of (set_byte r _ _) w) with (base_of r w).
    rewrite other_slot_kept; [by apply He| |by eapply stores_offset_bound|done].
    intros E. rewrite E in Hsl. subst j. congruence.
  - split_and!; try done. intros k o' b' Hk Ho'.
    change (base_of (set_byte r _ _) (head r)) with (base_of r (head r)).
    change (stores (set_byte r _ _) c) with (stores r c) in Ho'.
    destruct (decide (k = i)) as [->|Hki].
    + rewrite Hst in Ho'. injection Ho' as <- <-.
      apply list_lookup_insert_eq. by apply address_lt.
    + rewrite list_lookup_insert_ne; [apply (Hdone k o' b'); [lia|done]|].
      intros E. assert (o = o') by lia. subst o'. apply Hki.
      by eapply stores_offsets_distinct.
  - destruct rp as [|s got]; [done|]. destruct Hr as (? & ? & ? & Hr).
    refine (conj _ (conj _ (conj _ _))); [done..|].
    intros Hword. specialize (Hr Hword). intros k b' Hk. destruct (Hr k b' Hk) as [Hlt Hb'].
    split; [done|]. simpl.
    change (base_of (set_byte r _ _) s) with (base_of r s).
    change (next_offset (set_byte r _ _) (take k got)) with (next_offset r (take k got)).
    rewrite other_slot_kept; try done. intros E. rewrite <- E in Hinv.
    apply list_lookup_total_correct in Hinv.
    change (slot_of (set_byte r _ _) s) with (slot_of r s) in Hword. lia.
Qed.

Lemma inv_w_publish r rp h c :
  head r + 1 < kInvalidSeq -> inv (mk_config r (WCopy c (length (stores r c))) rp h) ->
  inv (mk_config (set_word r (slot_of r (head r)) (head r)) WPublished rp (h ++ [c])).
Proof.
  intros Hlt [Hs (Hh1 & Hh2 & Hh3) Ho Hw (Hok & Hc & Hinv & Hdone) Hr];
  cbn [mem wpc rpc history] in *.
  pose proof Hs as [Hs1 Hs2 Hs3]. pose proof (slot_lt r (head r) Hc).
  constructor; simpl; try done.
  - constructor; simpl; rewrite ?length_insert; done.
  - rewrite length_app. simpl. lia.
  - apply Forall_app_2; [done|]. by constructor.
  - intros i w Hi Hne. rewrite length_app. simpl.
    destruct (decide (i = slot_of r (head r))) as [->|].
    + rewrite list_lookup_insert_eq in Hi by lia. injection Hi as <-.
      split; [lia|]. split; [done|]. exists c. split.
      * rewrite lookup_app_r by lia. by replace (Z.to_nat (head r) - length h)%nat with 0%nat by lia.
      * intros o b Hob. apply list_elem_of_lookup in Hob as [k Hk].
        apply (Hdone k o b); [by eapply lookup_lt_Some|done].
    + rewrite list_lookup_insert_ne in Hi by done.
      destruct (Hw i w Hi Hne) as (Hb & Hsl & cy & Hcy & He). split; [lia|]. split; [done|].
      exists cy. split; [|done]. rewrite lookup_app_l by lia. done.
  - destruct rp as [|s got]; [done|]. destruct Hr as (? & ? & ? & Hr).
    refine (conj _ (conj _ (conj _ _))); [done|rewrite length_app; simpl; lia|done|].
    intros Hword. apply Hr. change (slot_of (set_word r _ _) s) with (slot_of r s) in Hword.
    destruct (decide (slot_of r s = slot_of r (head r))) as [E|E].
    + rewrite E, list_lookup_total_insert_eq in Hword by lia. lia.
    + by rewrite list_lookup_total_insert_ne in Hword by done.
Qed.

Lemma inv_w_head r rp h :
  inv (mk_config r WPublished rp h) -> inv (mk_config (set_head r (u64 (head r + 1))) WIdle rp h).
Proof.
  intros [Hs (Hh1 & Hh2 & Hh3) Ho Hw [Hlt Hc] Hr]; simpl in *.
  assert (E : u64 (head r + 1) = head r + 1)
    by (apply uwrap_id; unfold in_u, kInvalidSeq in *; lia).
  constructor; simpl; rewrite ?E; try done; [|lia].
  destruct Hs as [? ? ?]. by constructor.
Qed.

Lemma ring_inv_wstep c c' : inv c -> wstep c c' -> inv c'.
Proof.
  intros Hi Hstep.
  inversion Hstep; subst; eauto using inv_w_begin, inv_w_byte, inv_w_publish, inv_w_head.
Qed.

Lemma ring_inv_rstep c l c' : inv c -> rstep c l c' -> inv c'.
Proof.
  intros [Hs Hh Ho Hw Hwr Hr] Hstep.
  inversion Hstep as [|r wp h s Hc Hu Hne Hword|r wp h s got b Hd Hb|]; subst; simpl in *;
    try (by constructor).
  - constructor; simpl; try done. refine (conj _ (conj _ (conj _ _))); try done.
    + destruct (Hw (slot_of r s) s) as [? _]; try done.
      rewrite word_lookup by (done || by apply slot_lt). by rewrite Hword.
    + intros Hk. exfalso. unfold kHeaderBytes in Hk. simpl in Hk. lia.
  - constructor; simpl; try done. destruct Hr as (Hc & Hsb & Hwi & Hr).
    refine (conj _ (conj _ (conj _ _))); try done; [by apply within_step|].
    intros Hword k b' Hk. specialize (Hr Hword).
    destruct (decide (k = length got)) as [->|].
    + rewrite lookup_app_r, Nat.sub_diag in Hk by lia. injection Hk as <-.
      rewrite take_app_length. split; [by apply next_offset_bound|done].
    + pose proof (lookup_lt_Some _ _ _ Hk) as Hlt. rewrite length_app in Hlt. simpl in Hlt.
      rewrite lookup_app_l in Hk by lia. rewrite take_app_le by lia. by apply Hr.
Qed.

Lemma shape_allocate ml ic oc cap r : (0 < cap)%nat -> shape (allocate ml ic oc cap r).
Proof.
  intros Hc. unfold allocate. destruct (Nat.eqb_spec cap 0) as [->|]; [lia|].
  constructor; cbn [seqWords buffer stride capacity inputCap outputCap];
    rewrite ?length_replicate; done.
Qed.

Lemma ring_inv_reachable ml ic oc cap c : (0 < cap)%nat -> reachable ml ic oc cap c -> inv c.
Proof.
  intros Hc H. eapply rtc_invariant; [|exact H|].
  - intros a b Ha [Hw|[l Hl]]; eauto using ring_inv_wstep, ring_inv_rstep.
  - pose proof (shape_allocate ml ic oc cap empty_ring Hc) as Hs. constructor; try done;
      unfold allocate; destruct (Nat.eqb_spec cap 0) as [->|]; try lia; try done.
    intros i w Hi. by apply lookup_replicate in Hi as [-> _].
Qed.

(** A reader that finishes on a slot whose word still matches copied exactly that slot. *)
Lemma reads_from_copied r s got :
  shape r -> (0 < capacity r)%nat -> within r got -> copy_done r got = true ->
  reads_from r s got -> got = copied r s.
Proof.
  intros Hs Hc Hwi Hd Hr. unfold copy_done in Hd.
  apply andb_true_iff in Hd as [Hd1%Nat.leb_le Hd2%Nat.eqb_eq].
  assert (Hhdr : slice (base_of r s) kHeaderBytes (buffer r) = take kHeaderBytes got).
  { apply list_eq. intros k. destruct (decide (k < kHeaderBytes)%nat) as [Hk|Hk].
    - rewrite lookup_slice, lookup_take_lt by done.
      destruct (lookup_lt_is_Some_2 got k) as [b Hb]; [lia|]. rewrite Hb.
      destruct (Hr k b Hb) as [_ Hbuf]. rewrite <- Hbuf. f_equal. f_equal. unfold next_offset.
      rewrite length_take_le by lia.
      destruct (Nat.ltb_spec k (kHeaderBytes + hdr_in r (take k got))); lia.
    - rewrite !lookup_ge_None_2; rewrite ?length_take; try done; [lia|].
      unfold slice. rewrite length_take. lia. }
  assert (Hlens : forall k, (kHeaderBytes <= k)%nat ->
    hdr_in r (take k got) = hdr_in r got /\ hdr_out r (take k got) = hdr_out r got).
  { intros k Hk. rewrite <- (take_drop k got) at 2 4.
    destruct (hdr_app r (take k got) (drop k got)) as [-> ->]; [|done].
    rewrite length_take. lia. }
  unfold copied. rewrite Hhdr. destruct (Hlens kHeaderBytes ltac:(lia)) as [-> ->].
  rewrite <- (take_drop kHeaderBytes got) at 1. f_equal.
  rewrite <- (take_drop (hdr_in r got) (drop kHeaderBytes got)). f_equal.
  - apply list_eq. intros k. destruct (decide (k < hdr_in r got)%nat) as [Hk|Hk].
    + rewrite lookup_slice, lookup_take_lt, lookup_drop by done.
      destruct (lookup_lt_is_Some_2 got (kHeaderBytes + k)) as [b Hb]; [lia|]. rewrite Hb.
      destruct (Hr _ b Hb) as [_ Hbuf]. rewrite <- Hbuf. f_equal.
      unfold next_offset. rewrite length_take_le by lia.
      destruct (Hlens (kHeaderBytes + k)%nat ltac:(lia)) as [-> _].
      destruct (Nat.ltb_spec (kHeaderBytes + k) (kHeaderBytes + hdr_in r got)); lia.
    + rewrite !lookup_ge_None_2; try done; unfold slice; rewrite length_take; lia.
  - rewrite drop_drop. apply list_eq. intros k.
    destruct (decide (k < hdr_out r got)%nat) as [Hk|Hk].
    + rewrite lookup_slice, lookup_drop by done.
      destruct (lookup_lt_is_Some_2 got (kHeaderBytes + hdr_in r got + k)) as [b Hb]; [lia|].
      rewrite Hb. destruct (Hr _ b Hb) as [_ Hbuf]. rewrite <- Hbuf. f_equal.
      unfold next_offset. rewrite length_take_le by lia.
      destruct (Hlens (kHeaderBytes + hdr_in r got + k)%nat ltac:(lia)) as [-> _].
      destruct (Nat.ltb_spec (kHeaderBytes + hdr_in r got + k) (kHeaderBytes + hdr_in r got)); lia.
    + rewrite !lookup_ge_None_2; try done; [unfold slice; rewrite length_take; lia|].
      rewrite length_drop. lia.
Qed.

(** ** Theorems *)


(** The copies stay inside the buffer at every point of every interleaving, also for a reader
    whose header bytes are a mixture of two cycles (the clamp in [readRecord]). *)
Theorem ring_accesses_in_bounds ml ic oc cap c :
  (0 < cap)%nat -> reachable ml ic oc cap c ->
  (forall s got, rpc c = RCopy s got -> copy_done (mem c) got = false ->
     (base_of (mem c) s + next_offset (mem c) got < length (buffer (mem c)))%nat) /\
  (forall cy i st, wpc c = WCopy cy i -> stores (mem c) cy !! i = Some st ->
     (base_of (mem c) (head (mem c)) + st.1 < length (buffer (mem c)))%nat).
Proof.
  intros Hcap Hc%ring_inv_reachable; [|done]. destruct Hc as [Hs Hh Ho Hw Hwr Hr]. split.
  - intros s got E Hd. rewrite E in Hr. destruct Hr as (Hc & _ & Hwi & _).
    apply address_lt; try done. by apply next_offset_bound.
  - intros cy i [o b] E Hst. rewrite E in Hwr. destruct Hwr as (_ & Hc & _).
    apply address_lt; try done. eapply stores_offset_bound; [apply Hs|].
    by eapply list_elem_of_lookup_2.
Qed.

(** *** The sequential contract *)

Lemma copy_is_steps r rp h c l i :
  drop i (stores r c) = l -> (i <= length (stores r c))%nat ->
  rtc wstep (mk_config r (WCopy c i) rp h)
    (mk_config (foldl (apply_store (base_of r (head r))) r l) (WCopy c (length (stores r c))) rp h).
Proof.
  revert r i. induction l as [|st l IH]; intros r i Hl Hi.
  - assert (i = length (stores r c)) as ->; [|done].
    apply (f_equal length) in Hl. rewrite length_drop in Hl. cbn [length] in Hl. lia.
  - assert (Hst : stores r c !! i = Some st).
    { replace i with (i + 0)%nat by lia. rewrite <- lookup_drop, Hl. done. }
    eapply rtc_l; [by apply (w_byte r rp h c i st)|].
    apply (IH (apply_store (base_of r (head r)) r st) (S i)).
    + change (stores (apply_store _ r st) c) with (stores r c).
      rewrite <- Nat.add_1_r, <- drop_drop, Hl. done.
    + change (stores (apply_store _ r st) c) with (stores r c).
      pose proof (lookup_lt_Some _ _ _ Hst). lia.
Qed.

Lemma foldl_stores_frame base l r :
  let r' := foldl (apply_store base) r l in
  seqWords r' = seqWords r /\ head r' = head r /\ capacity r' = capacity r /\
  inputCap r' = inputCap r /\ outputCap r' = outputCap r /\ stride r' = stride r.
Proof. revert r. induction l as [|st l IH]; intros r; simpl; [done|]. apply (IH (apply_store base r st)). Qed.

Lemma ring_write_is_steps r rp h c :
  (0 < capacity r)%nat -> cycle_ok c -> head r + 1 < kInvalidSeq ->
  rtc wstep (mk_config r WIdle rp h) (mk_config (write r c) WIdle rp (h ++ [c])).
Proof.
  intros Hc Hok Hlt. eapply rtc_l; [by apply (w_begin r rp h c)|].
  set (r1 := set_word r (slot_of r (head r)) kInvalidSeq).
  etrans; [apply (copy_is_steps r1 rp h c (stores r c) 0); [done|lia]|].
  set (r2 := foldl _ r1 (stores r c)).
  destruct (foldl_stores_frame (base_of r1 (head r1)) (stores r c) r1) as (E1 & E2 & E3 & E4 & E5 & E6).
  fold r2 in E1, E2, E3, E4, E5, E6.
  assert (Est : stores r1 c = stores r2 c).
  { unfold stores, header, in_len, out_len. by rewrite E4, E5. }
  assert (Esl : slot_of r (head r) = slot_of r2 (head r2)).
  { unfold slot_of. by rewrite E2, E3. }
  rewrite Est. eapply rtc_l; [apply w_publish; rewrite E2; done|].
  eapply rtc_l; [apply w_head|]. unfold write.
  assert (E0 : (capacity r =? 0)%nat = false) by (apply Nat.eqb_neq; lia). rewrite E0. fold r1.
  change (base_of r (head r)) with (base_of r1 (head r1)). fold r2. simpl.
  rewrite <- Esl, E2. done.
Qed.

(** Every cycle still in the ring has its word published. *)
Definition words_complete (r : ring) : Prop :=
  forall s, oldestValidSeq r <= s < head r -> seqWords r !! slot_of r s = Some s.

Lemma write_fields r c :
  (0 < capacity r)%nat ->
  seqWords (write r c) = <[slot_of r (head r) := head r]> (seqWords r) /\
  head (write r c) = u64 (head r + 1) /\ capacity (write r c) = capacity r /\
  inputCap (write r c) = inputCap r /\ outputCap (write r c) = outputCap r.
Proof.
  intros Hc. unfold write. assert (E0 : (capacity r =? 0)%nat = false) by (apply Nat.eqb_neq; lia).
  rewrite E0. set (r1 := set_word r (slot_of r (head r)) kInvalidSeq).
  destruct (foldl_stores_frame (base_of r (head r)) (stores r c) r1) as (E1 & E2 & E3 & E4 & E5 & _).
  unfold set_head, set_word in *. cbn [seqWords head capacity inputCap outputCap] in *.
  rewrite E1, E3, E4, E5. subst r1. cbn [seqWords capacity]. by rewrite list_insert_insert_eq.
Qed.

Lemma words_complete_write r c :
  shape r -> (0 < capacity r)%nat -> 0 <= head r -> head r + 1 < kInvalidSeq ->
  words_complete r -> words_complete (write r c).
Proof.
  intros [Hw _ _] Hc Hh Hlt Hwc s. destruct (write_fields r c Hc) as (E1 & E2 & E3 & _).
  unfold oldestValidSeq, slot_of. rewrite E1, E2, E3. unfold u64.
  rewrite uwrap_id by (unfold in_u, kInvalidSeq in *; lia). fold (slot_of r s). intros Hs.
  destruct (decide (s = head r)) as [->|Hne].
  - apply list_lookup_insert_eq. rewrite Hw. by apply slot_lt.
  - assert (Hin : oldestValidSeq r <= s < head r).
    { unfold oldestValidSeq. bool_split; lia. }
    rewrite list_lookup_insert_ne; [by apply Hwc|].
    unfold slot_of. assert (s mod Z.of_nat (capacity r) <> head r mod Z.of_nat (capacity r)).
    { apply mod_distinct; [lia|]. bool_split; lia. }
    pose proof (Z.mod_pos_bound s (Z.of_nat (capacity r)) ltac:(lia)).
    pose proof (Z.mod_pos_bound (head r) (Z.of_nat (capacity r)) ltac:(lia)). lia.
Qed.

Lemma inv_rtc_wstep c c' : inv c -> rtc wstep c c' -> inv c'.
Proof. intros Hi H. eapply rtc_invariant; [exact ring_inv_wstep|exact H|done]. Qed.

(** The state after the cycles [cs] were written to a fresh ring. *)
Lemma written_state ml ic oc cap cs :
  (0 < cap)%nat -> Forall cycle_ok cs -> Z.of_nat (length cs) < kInvalidSeq ->
  let r := foldl write (allocate ml ic oc cap empty_ring) cs in
  inv (mk_config r WIdle RIdle cs) /\ words_complete r /\ capacity r = cap /\
  inputCap r = ic /\ outputCap r = oc.
Proof.
  intros Hcap Hok Hlen. induction cs as [|c cs IH] using rev_ind.
  - split; [by eapply ring_inv_reachable; [exact Hcap|apply rtc_refl]|]. cbn [foldl].
    unfold allocate. destruct (Nat.eqb_spec cap 0) as [->|]; [lia|].
    split; [|done]. intros s. unfold oldestValidSeq. cbn [head capacity].
    destruct (Z.ltb_spec (Z.of_nat cap) 0); lia.
  - apply Forall_app in Hok as [Hok Hc]. apply Forall_cons in Hc as [Hc _]. rewrite length_app in Hlen.
    cbn [length] in Hlen. destruct (IH Hok ltac:(lia)) as (Hi & Hwc & Ec & Ei & Eo).
    rewrite foldl_app. cbn [foldl]. set (r := foldl write _ cs) in *.
    assert (Hh : head r = Z.of_nat (length cs)) by (destruct Hi as [_ (_ & _ & H) _ _ _ _]; done).
    assert (Hc0 : (0 < capacity r)%nat) by lia.
    destruct (write_fields r c Hc0) as (_ & _ & E3 & E4 & E5). rewrite E3, E4, E5.
    split; [|split; [|done]].
    + eapply inv_rtc_wstep; [exact Hi|]. apply (ring_write_is_steps r RIdle cs c Hc0 Hc); lia.
    + apply words_complete_write; try done; [apply Hi|lia..].
Qed.

Lemma holds_last_capacity ml ic oc cap cs s out :
  (0 < cap)%nat -> Forall cycle_ok cs -> Z.of_nat (length cs) < kInvalidSeq ->
  in_u 64 s -> s <> kInvalidSeq ->
  let r := foldl write (allocate ml ic oc cap empty_ring) cs in
  head r = Z.of_nat (length cs) /\
  oldestValidSeq r = Z.max 0 (Z.of_nat (length cs) - Z.of_nat cap) /\
  readRecord r s out =
    match (if oldestValidSeq r <=? s then cs !! Z.to_nat s else None) with
    | Some c =>
        (mk_record s (c_ts c) (c_wkc c) (take (clamp32 (length (c_in c)) ic) (c_in c))
           (take (clamp32 (length (c_out c)) oc) (c_out c)), true)
    | None => (out, false)
    end.
Proof.
  intros Hcap Hok Hlen [Hs0 Hs1] Hsi r.
  destruct (written_state ml ic oc cap cs Hcap Hok Hlen) as (Hi & Hwc & Ec & Ei & Eo).
  fold r in Hi, Hwc, Ec, Ei, Eo. destruct Hi as [Hsh (Hh0 & _ & Hh) _ Hw _ _].
  cbn [mem wpc history] in *. split; [done|]. split.
  { unfold oldestValidSeq. bool_split; lia. }
  unfold readRecord. assert (E0 : (capacity r =? 0)%nat = false) by (apply Nat.eqb_neq; lia).
  rewrite E0. destruct (Z.leb_spec (oldestValidSeq r) s) as [Hold|Hold];
    [destruct (cs !! Z.to_nat s) as [c|] eqn:Ecs|].
  - pose proof (lookup_lt_Some _ _ _ Ecs). pose proof (Hwc s ltac:(lia)) as Hword.
    rewrite (list_lookup_total_correct _ _ _ Hword), Z.eqb_refl. cbn [negb].
    destruct (Hw _ _ Hword Hsi) as (_ & _ & cy & Hcy & He). rewrite Ecs in Hcy. injection Hcy as <-.
    rewrite (assemble_encodes r s c); [|by eapply Forall_lookup_1|done].
    unfold recorded, in_len, out_len. by rewrite Ei, Eo.
  - apply lookup_ge_None in Ecs. destruct (Z.eqb_spec (seqWords r !!! slot_of r s) s) as [E|E]; [|done].
    assert (Hsl : (slot_of r s < capacity r)%nat) by (apply slot_lt; lia).
    destruct (Hw (slot_of r s) s) as [? _]; [by rewrite word_lookup, E|done|lia].
  - destruct (Z.eqb_spec (seqWords r !!! slot_of r s) s) as [E|E]; [|done]. exfalso.
    assert (Hov : oldestValidSeq r = head r - Z.of_nat cap)
      by (unfold oldestValidSeq in *; bool_split; lia).
    (* the newer cycle in the same slot has the word *)
    assert (Hex : exists q, 0 < q /\ head r - Z.of_nat cap <= s + q * Z.of_nat cap < head r).
    { exists ((head r - 1 - s) / Z.of_nat cap).
      pose proof (Z.div_mod (head r - 1 - s) (Z.of_nat cap) ltac:(lia)).
      pose proof (Z.mod_pos_bound (head r - 1 - s) (Z.of_nat cap) ltac:(lia)).
      split; [apply Z.div_str_pos|]; nia. }
    destruct Hex as (q & Hq & Hb). pose proof (Hwc (s + q * Z.of_nat cap) ltac:(lia)) as Hword.
    unfold slot_of in E, Hword. rewrite Ec in E, Hword. rewrite Z.mod_add in Hword by lia.
    apply list_lookup_total_correct in Hword. nia.
Qed.

(** Sequentially, the ring is the last [capacity] cycles: after any list of cycles, the head is
    their number, every sequence number from [oldestValidSeq] up to the head reads back as the cycle
    written under it (its bytes cut to the slot's capacities), and every other one misses. *)
Theorem ring_holds_last_capacity ml ic oc cap cs s out :
  (0 < cap)%nat -> Forall cycle_ok cs -> Z.of_nat (length cs) < kInvalidSeq ->
  in_u 64 s -> s <> kInvalidSeq ->
  let r := foldl write (allocate ml ic oc cap empty_ring) cs in
  head r = Z.of_nat (length cs) /\
  oldestValidSeq r = Z.max 0 (Z.of_nat (length cs) - Z.of_nat cap) /\
  readRecord r s out =
    match (if oldestValidSeq r <=? s then cs !! Z.to_nat s else None) with
    | Some c =>
        (mk_record s (c_ts c) (c_wkc c) (take (clamp32 (length (c_in c)) ic) (c_in c))
           (take (clamp32 (length (c_out c)) oc) (c_out c)), true)
    | None => (out, false)
    end.
Proof. apply holds_last_capacity. Qed.

(** *** Witnesses *)

Definition cyc (t : Z) : cycle := mk_cycle t 3 [t; t] [t].


(** A reader that finds the slot untouched can finish its copy. *)
Lemma read_is_steps r wp h s got :
  shape r -> (0 < capacity r)%nat ->
  (forall i, (i < length got)%nat ->
     copy_done r (take i got) = false /\
     buffer r !! (base_of r s + next_offset r (take i got))%nat = got !! i) ->
  rtc (fun c c' => wstep c c' \/ exists l, rstep c l c')
    (mk_config r wp (RCopy s []) h) (mk_config r wp (RCopy s got) h).
Proof.
  intros Hs Hc Hg. cut (forall n, (n <= length got)%nat ->
    rtc (fun c c' => wstep c c' \/ exists l, rstep c l c')
      (mk_config r wp (RCopy s []) h) (mk_config r wp (RCopy s (take n got)) h)).
  { intros H. specialize (H (length got) ltac:(lia)). by rewrite firstn_all in H. }
  induction n as [|n IH]; intros Hn; [apply rtc_refl|].
  eapply rtc_r; [apply IH; lia|]. right. exists None.
  destruct (Hg n ltac:(lia)) as [Hd Hb].
  destruct (lookup_lt_is_Some_2 got n ltac:(lia)) as [b Hgb]. rewrite (take_S_r _ _ _ Hgb).
  apply r_byte; [done|]. by rewrite Hb.
Qed.

Lemma reachable_after ml ic oc cap c c' :
  rtc wstep (mk_config (allocate ml ic oc cap empty_ring) WIdle RIdle []) c ->
  rtc (fun a b => wstep a b \/ exists l, rstep a l b) c c' -> reachable ml ic oc cap c'.
Proof.
  intros H H'. unfold reachable. etrans; [|exact H']. eapply rtc_subrel; [|exact H]. by left.
Qed.

Definition w_ring : ring := write (allocate true 2 1 1 empty_ring) (cyc 7).

Lemma w_reachable n : (n <= 23)%nat ->
  reachable true 2 1 1 (mk_config w_ring WIdle (RCopy 0 (take n (copied w_ring 0))) [cyc 7]).
Proof.
  intros Hn. eapply reachable_after.
  - apply (ring_write_is_steps _ RIdle [] (cyc 7)); [vm_compute; lia|by repeat split|done].
  - eapply rtc_l; [right; exists None; apply (r_hit w_ring WIdle [cyc 7] 0);
      [vm_compute; lia|by split|done|done]|].
    apply read_is_steps; [by constructor|vm_compute; lia|].
    intros i Hi. assert (length (copied w_ring 0) = 23%nat) by done.
    rewrite length_take in Hi. rewrite take_take, Nat.min_l by lia. rewrite lookup_take_lt by lia.
    do 23 (destruct i as [|i]; [done|]). lia.
Qed.


Lemma ring_accesses_in_bounds_witness :
  (base_of w_ring 0 + next_offset w_ring (take 21 (copied w_ring 0)) < length (buffer w_ring))%nat.
Proof.
  apply (proj1 (ring_accesses_in_bounds true 2 1 1 _ ltac:(lia) (w_reachable 21 ltac:(lia))) 0
    (take 21 (copied w_ring 0)) eq_refl). vm_compute. reflexivity.
Defined.

Lemma ring_holds_last_capacity_witness :
  let r := foldl write (allocate true 2 1 2 empty_ring) [cyc 7; cyc 8; cyc 9] in
  readRecord r 1 (mk_record 0 0 0 [] []) = (mk_record 1 8 3 [8; 8] [8], true) /\
  readRecord r 0 (mk_record 0 0 0 [] []) = (mk_record 0 0 0 [] [], false).
Proof.
  assert (Hok : Forall cycle_ok [cyc 7; cyc 8; cyc 9]) by (repeat constructor; done).
  split.
  - destruct (ring_holds_last_capacity true 2 1 2 [cyc 7; cyc 8; cyc 9] 1 (mk_record 0 0 0 [] [])
      ltac:(lia) Hok) as (_ & _ & E); [done..|]. exact E.
  - destruct (ring_holds_last_capacity true 2 1 2 [cyc 7; cyc 8; cyc 9] 0 (mk_record 0 0 0 [] [])
      ltac:(lia) Hok) as (_ & _ & E); [done..|]. exact E.
Defined.

End Ring.
