(* ===== verification/ProcessBits.v ===== *)
(** * Bit fields of the process image ([libs/node/process_image.cc]: [extractBits], [insertBits])

    Both routines have a byte-aligned fast path and a bit-by-bit path. They are translated as the
    loops the source has, with the [uint32_t] arithmetic on bit positions wrapped, and proved equal
    to one bit-level specification each. [bit] is that specification's view of a buffer. *)

From S2P Require Import Prelude.

Module Bits.

(** Bit [k] of a buffer, least significant bit of the first byte first; 0 past the end. *)
Definition bit (l : bytes) (k : Z) : bool := Z.testbit (byte_at l (Z.to_nat (k / 8))) (k mod 8).

(** ** The code *)

(** The loop of [extractBits]'s aligned path: [n] iterations left, at [i]. *)
Fixpoint extract_bytes_loop (src : bytes) (byteOffset : nat) (n i : nat) (out : bytes) : bytes :=
  match n with
  | O => out
  | S n' =>
      if (byteOffset + i <? length src)%nat
      then extract_bytes_loop src byteOffset n' (S i) (<[i := byte_at src (byteOffset + i)]> out)
      else out
  end.

(** The bit-by-bit loop of [extractBits]. *)
Fixpoint extract_bits_loop (src : bytes) (bitOffset : Z) (valueBytes n : nat) (i : Z)
    (out : bytes) : bytes :=
  match n with
  | O => out
  | S n' =>
      let srcBit := u32 (bitOffset + i) in
      let srcByte := srcBit / 8 in
      if (Z.of_nat (length src) <=? srcByte) || (Z.of_nat valueBytes <=? i / 8) then out
      else
        let b := Z.land (Z.shiftr (byte_at src (Z.to_nat srcByte)) (srcBit mod 8)) 1 in
        let o := Z.to_nat (i / 8) in
        extract_bits_loop src bitOffset valueBytes n' (i + 1)
          (<[o := Z.lor (byte_at out o) (u8 (Z.shiftl b (i mod 8)))]> out)
  end.

(** [extractBits] into the caller's buffer. *)
Definition extractBits_into (src : bytes) (bitOffset bitLength : Z) (out : bytes) : bytes :=
  let out := replicate (length out) 0 in
  let valueBytes := Nat.min (length out) (Z.to_nat ((bitLength + 7) / 8)) in
  if (bitOffset mod 8 =? 0) && (bitLength mod 8 =? 0)
  then extract_bytes_loop src (Z.to_nat (bitOffset / 8)) valueBytes 0 out
  else extract_bits_loop src bitOffset valueBytes (Z.to_nat bitLength) 0 out.

(** The allocating overload. *)
Definition extractBits (src : bytes) (bitOffset bitLength : Z) : bytes :=
  extractBits_into src bitOffset bitLength (replicate (Z.to_nat ((bitLength + 7) / 8)) 0).

Fixpoint insert_bytes_loop (value : bytes) (byteOffset : nat) (n i : nat) (dst : bytes) : bytes :=
  match n with
  | O => dst
  | S n' =>
      if (byteOffset + i <? length dst)%nat
      then insert_bytes_loop value byteOffset n' (S i)
        (<[(byteOffset + i)%nat := (if (i <? length value)%nat then byte_at value i else 0)]> dst)
      else dst
  end.

Fixpoint insert_bits_loop (value : bytes) (bitOffset : Z) (n : nat) (i : Z) (dst : bytes) : bytes :=
  match n with
  | O => dst
  | S n' =>
      let dstBit := u32 (bitOffset + i) in
      let dstByte := dstBit / 8 in
      if Z.of_nat (length dst) <=? dstByte then dst
      else
        let b := if i / 8 <? Z.of_nat (length value)
                 then u8 (Z.land (Z.shiftr (byte_at value (Z.to_nat (i / 8))) (i mod 8)) 1) else 0 in
        let mask := u8 (Z.shiftl 1 (dstBit mod 8)) in
        let d := Z.to_nat dstByte in
        insert_bits_loop value bitOffset n' (i + 1)
          (<[d := u8 (Z.lor (Z.land (byte_at dst d) (Z.lnot mask)) (if b =? 0 then 0 else mask))]> dst)
  end.

Definition insertBits (dst : bytes) (bitOffset bitLength : Z) (value : bytes) : bytes :=
  if (bitOffset mod 8 =? 0) && (bitLength mod 8 =? 0)
  then insert_bytes_loop value (Z.to_nat (bitOffset / 8)) (Z.to_nat (bitLength / 8)) 0 dst
  else insert_bits_loop value bitOffset (Z.to_nat bitLength) 0 dst.

(** ** Facts about [bit] *)

Lemma bit_past_end l k : 8 * Z.of_nat (length l) <= k -> bit l k = false.
Proof.
  intros H. unfold bit. rewrite byte_at_ge; [apply Z.bits_0|].
  assert (Z.of_nat (length l) <= k / 8) by (apply Z.div_le_lower_bound; lia). lia.
Qed.

Lemma bit_insert l a b k : (a < length l)%nat -> 0 <= k ->
  bit (<[a := b]> l) k = if k / 8 =? Z.of_nat a then Z.testbit b (k mod 8) else bit l k.
Proof.
  intros Ha Hk. unfold bit. pose proof (Z.div_pos k 8 Hk ltac:(lia)).
  destruct (Z.eqb_spec (k / 8) (Z.of_nat a)) as [E|E].
  - rewrite E, Nat2Z.id, byte_at_insert by done. by case_decide.
  - rewrite byte_at_insert by done. case_decide; [lia|done].
Qed.

Lemma bit_replicate_0 n k : bit (replicate n 0) k = false.
Proof.
  unfold bit, byte_at. destruct (replicate n 0 !! Z.to_nat (k / 8)) eqn:E; [|apply Z.bits_0].
  apply lookup_replicate in E as [-> _]. apply Z.bits_0.
Qed.

(** A buffer is determined by its length and its bits. *)
Lemma bits_ext l l' : bytes_ok l -> bytes_ok l' -> length l = length l' ->
  (forall k, 0 <= k -> bit l k = bit l' k) -> l = l'.
Proof.
  intros Hl Hl' Hlen Hb. apply list_eq_same_length with (length l); [done..|].
  intros i x y Hi Hx Hy.
  assert (Hx8 : in_u 8 x) by (by eapply (Forall_lookup_1 _ l)).
  assert (Hy8 : in_u 8 y) by (by eapply (Forall_lookup_1 _ l')).
  apply Z.bits_inj'. intros n Hn. destruct (decide (n < 8)) as [Hn8|Hn8].
  - specialize (Hb (8 * Z.of_nat i + n) ltac:(lia)). unfold bit in Hb.
    rewrite (Z.mul_comm 8), Z.div_add_l, Z.div_small, Z.add_0_r, Nat2Z.id in Hb by lia.
    rewrite (Z.add_comm _ n), Z_mod_plus_full, Z.mod_small in Hb by lia.
    by rewrite (byte_at_Some _ _ _ Hx), (byte_at_Some _ _ _ Hy) in Hb.
  - rewrite (testbit_above 8 x), (testbit_above 8 y) by (done || lia). done.
Qed.

(** Bit [k] of a buffer is bit [k] of the little-endian integer it holds. *)
Lemma testbit_le_value l k : bytes_ok l -> 0 <= k -> Z.testbit (le_value l) k = bit l k.
Proof.
  intros Hl Hk. revert k Hk. induction Hl as [|b l Hb Hl IH]; intros k Hk.
  - cbn [le_value]. rewrite Z.bits_0, bit_past_end; simpl; [done|lia].
  - cbn [le_value]. change 256 with (2 ^ 8). rewrite <- (lor_shiftl_add b _ 8) by (lia || done).
    rewrite Z.lor_spec. destruct (decide (k < 8)).
    + rewrite (Z.shiftl_spec_low _ 8 k) by done. rewrite orb_false_r.
      unfold bit. rewrite Z.div_small, Z.mod_small by lia. done.
    + rewrite (testbit_above 8 b) by (done || lia). rewrite Z.shiftl_spec by lia.
      cbn [orb]. rewrite IH by lia. unfold bit.
      replace k with (k - 8 + 1 * 8) at 3 4 by lia.
      rewrite Z.div_add, Z_mod_plus_full by lia.
      rewrite Z2Nat.inj_add by (try apply Z.div_pos; lia).
      change (Z.to_nat 1) with 1%nat. rewrite Nat.add_comm. done.
Qed.

(** ** The loops *)

Lemma land_1_testbit x n : 0 <= n -> Z.land (Z.shiftr x n) 1 = Z.b2z (Z.testbit x n).
Proof.
  intros Hn. change 1 with (Z.ones 1) at 1. rewrite Z.land_ones by lia.
  rewrite Z.testbit_spec' by done. rewrite Z.shiftr_div_pow2 by done. done.
Qed.

Lemma testbit_b2z_shiftl b n k : 0 <= n < 8 -> 0 <= k ->
  Z.testbit (u8 (Z.shiftl (Z.b2z b) n)) k = (k =? n) && b.
Proof.
  intros Hn Hk. unfold u8. rewrite uwrap_id.
  - rewrite Z.shiftl_spec by done. destruct b; cbn [Z.b2z]; [|by rewrite Z.bits_0, andb_false_r].
    rewrite andb_true_r. destruct (Z.eqb_spec k n) as [->|]; [by rewrite Z.sub_diag|].
    destruct (decide (k < n)); [by rewrite Z.testbit_neg_r by lia|].
    apply (testbit_above 1); [lia|done|lia].
  - rewrite Z.shiftl_mul_pow2 by lia. split; [destruct b; simpl; lia|].
    assert (2 ^ n < 2 ^ 8) by (apply Z.pow_lt_mono_r; lia). destruct b; simpl in *; lia.
Qed.

Lemma mod8_bound k : 0 <= k mod 8 < 8.
Proof. apply Z.mod_pos_bound. lia. Qed.

(** Positions with the same byte and the same bit are equal. *)
Lemma div_mod_8 k i : (k / 8 =? i / 8) && (k mod 8 =? i mod 8) = (k =? i).
Proof.
  pose proof (Z.div_mod k 8 ltac:(lia)). pose proof (Z.div_mod i 8 ltac:(lia)).
  destruct (Z.eqb_spec (k / 8) (i / 8)), (Z.eqb_spec (k mod 8) (i mod 8)), (Z.eqb_spec k i);
    simpl; try done; subst; lia.
Qed.

Lemma extract_bits_step out i b k :
  0 <= i < 8 * Z.of_nat (length out) -> 0 <= k ->
  bit (<[Z.to_nat (i / 8) := Z.lor (byte_at out (Z.to_nat (i / 8))) (u8 (Z.shiftl (Z.b2z b) (i mod 8)))]> out) k
  = bit out k || ((k =? i) && b).
Proof.
  intros Hi Hk. pose proof (Z.div_pos i 8 ltac:(lia) ltac:(lia)).
  assert (i / 8 < Z.of_nat (length out)) by (apply Z.div_lt_upper_bound; lia).
  pose proof (mod8_bound i). pose proof (mod8_bound k).
  rewrite bit_insert by lia. rewrite Z2Nat.id by done. rewrite <- (div_mod_8 k i).
  destruct (Z.eqb_spec (k / 8) (i / 8)) as [E|E]; cbn [andb].
  - rewrite Z.lor_spec, testbit_b2z_shiftl by lia. unfold bit. by rewrite E.
  - by rewrite orb_false_r.
Qed.

Lemma extract_bits_loop_spec src off vb n i out :
  Z.of_nat (length src) < 2 ^ 29 -> 0 <= off -> off + i < 2 ^ 32 -> 0 <= i ->
  (vb <= length out)%nat ->
  length (extract_bits_loop src off vb n i out) = length out /\
  forall k, 0 <= k -> bit (extract_bits_loop src off vb n i out) k =
    bit out k || ((i <=? k) && (k <? Z.min (i + Z.of_nat n) (8 * Z.of_nat vb)) && bit src (off + k)).
Proof.
  intros Hsrc Hoff. revert i out. induction n as [|n IH]; intros i out Hi2 Hi Hvb.
  { split; [done|]. intros k Hk. cbn [extract_bits_loop]. bool_split; try lia;
      simpl; by rewrite orb_false_r. }
  cbn [extract_bits_loop]. unfold u32. rewrite uwrap_id by (unfold in_u; lia).
  destruct (Z.leb_spec (Z.of_nat (length src)) ((off + i) / 8)) as [Hs|Hs]; cbn [orb].
  { split; [done|]. intros k Hk. destruct (Z.leb_spec i k); cbn [andb]; [|by rewrite orb_false_r].
    assert (8 * Z.of_nat (length src) <= off + i)
      by (pose proof (Z.mul_div_le (off + i) 8 ltac:(lia)); lia).
    rewrite (bit_past_end src) by lia. by rewrite andb_false_r, orb_false_r. }
  destruct (Z.leb_spec (Z.of_nat vb) (i / 8)) as [Hv|Hv].
  { split; [done|]. intros k Hk. pose proof (Z.mul_div_le i 8 ltac:(lia)).
    destruct (Z.leb_spec i k); cbn [andb]; [|by rewrite orb_false_r].
    destruct (Z.ltb_spec k (Z.min (i + Z.of_nat (S n)) (8 * Z.of_nat vb))); [lia|].
    by rewrite orb_false_r. }
  assert (off + i < 8 * Z.of_nat (length src)).
  { pose proof (Z.div_mod (off + i) 8 ltac:(lia)). pose proof (mod8_bound (off + i)). lia. }
  assert (Hi8 : i < 8 * Z.of_nat vb).
  { pose proof (Z.div_mod i 8 ltac:(lia)). pose proof (mod8_bound i). lia. }
  rewrite land_1_testbit by apply mod8_bound. fold (bit src (off + i)).
  edestruct (IH (i + 1)) as [IHl IHb]; [lia|lia|rewrite length_insert; exact Hvb|].
  split; [by rewrite IHl, length_insert|]. intros k Hk.
  rewrite IHb by done. rewrite extract_bits_step by lia. rewrite <- orb_assoc. f_equal.
  destruct (Z.eqb_spec k i) as [->|].
  - bool_split; try lia; cbn [andb orb]. by rewrite orb_false_r.
  - cbn [andb orb]. bool_split; try lia; done.
Qed.

Lemma bit_byte l a k : 0 <= k -> k / 8 = Z.of_nat a -> bit l k = Z.testbit (byte_at l a) (k mod 8).
Proof. intros Hk E. unfold bit. by rewrite E, Nat2Z.id. Qed.

Lemma shifted_byte k (off i : nat) : k / 8 = Z.of_nat i ->
  (8 * Z.of_nat off + k) / 8 = Z.of_nat (off + i) /\ (8 * Z.of_nat off + k) mod 8 = k mod 8.
Proof.
  intros E. rewrite (Z.mul_comm 8), Z.div_add_l by lia. split; [lia|].
  by rewrite (Z.add_comm _ k), Z_mod_plus_full.
Qed.

Lemma extract_bytes_loop_spec src off n i out :
  (i + n <= length out)%nat ->
  length (extract_bytes_loop src off n i out) = length out /\
  ((forall k, 8 * Z.of_nat i <= k -> bit out k = false) ->
   forall k, 0 <= k -> bit (extract_bytes_loop src off n i out) k =
    bit out k || ((8 * Z.of_nat i <=? k) && (k <? 8 * Z.of_nat (i + n)) &&
      bit src (8 * Z.of_nat off + k))).
Proof.
  revert i out. induction n as [|n IH]; intros i out Hlen.
  { split; [done|]. intros _ k Hk. cbn [extract_bytes_loop]. bool_split; try lia;
      simpl; by rewrite orb_false_r. }
  cbn [extract_bytes_loop]. destruct (Nat.ltb_spec (off + i) (length src)) as [Hs|Hs].
  2: { split; [done|]. intros _ k Hk. destruct (Z.leb_spec (8 * Z.of_nat i) k); cbn [andb];
       [|by rewrite orb_false_r].
       rewrite (bit_past_end src) by lia. by rewrite andb_false_r, orb_false_r. }
  destruct (IH (S i) (<[i := byte_at src (off + i)]> out)) as [IHl IHb]; [rewrite length_insert; lia|].
  split; [by rewrite IHl, length_insert|]. intros Hz k Hk.
  assert (Hnew : forall k, 0 <= k -> bit (<[i := byte_at src (off + i)]> out) k =
    if k / 8 =? Z.of_nat i then bit src (8 * Z.of_nat off + k) else bit out k).
  { intros k' Hk'. rewrite bit_insert by lia.
    destruct (Z.eqb_spec (k' / 8) (Z.of_nat i)) as [E|E]; [|done].
    destruct (shifted_byte k' off i E) as [E1 E2]. unfold bit. by rewrite E1, E2, Nat2Z.id. }
  rewrite IHb; [|intros k' Hk'|done].
  - rewrite Hnew by done. pose proof (Z.div_mod k 8 ltac:(lia)). pose proof (mod8_bound k).
    destruct (Z.eqb_spec (k / 8) (Z.of_nat i)) as [E|E].
    + rewrite (Hz k) by lia. bool_split; try lia; cbn [andb orb]; by rewrite orb_false_r.
    + f_equal. bool_split; try lia; done.
  - rewrite Hnew by lia. pose proof (Z.div_mod k' 8 ltac:(lia)). pose proof (mod8_bound k').
    destruct (Z.eqb_spec (k' / 8) (Z.of_nat i)); [lia|]. apply Hz. lia.
Qed.

Lemma testbit_set_bit x n b k : in_u 8 x -> 0 <= n < 8 -> 0 <= k < 8 ->
  let mask := u8 (Z.shiftl 1 n) in
  Z.testbit (u8 (Z.lor (Z.land x (Z.lnot mask)) (if Z.b2z b =? 0 then 0 else mask))) k =
  if k =? n then b else Z.testbit x k.
Proof.
  intros Hx Hn Hk mask.
  assert (Hm : forall j, 0 <= j -> Z.testbit mask j = (j =? n)).
  { intros j Hj. subst mask. rewrite <- (andb_true_r (j =? n)).
    apply (testbit_b2z_shiftl true n j); lia. }
  unfold u8 at 1, uwrap. rewrite Z.mod_pow2_bits_low by lia.
  rewrite Z.lor_spec, Z.land_spec, Z.lnot_spec, Hm by lia.
  destruct b; cbn [Z.b2z Z.eqb]; rewrite ?Hm, ?Z.bits_0 by lia;
    destruct (k =? n); cbn [negb]; by rewrite ?andb_false_r, ?andb_true_r, ?orb_false_r, ?orb_true_r.
Qed.

Lemma u8_ok x : in_u 8 (u8 x).
Proof. by apply uwrap_range. Qed.

(** The bit the insert loop takes from the value. *)
Lemma value_bit value i : 0 <= i ->
  (if i / 8 <? Z.of_nat (length value)
   then u8 (Z.land (Z.shiftr (byte_at value (Z.to_nat (i / 8))) (i mod 8)) 1) else 0) =
  Z.b2z (bit value i).
Proof.
  intros Hi. pose proof (mod8_bound i).
  destruct (Z.ltb_spec (i / 8) (Z.of_nat (length value))).
  - rewrite land_1_testbit by lia. unfold bit. by destruct (Z.testbit _ _).
  - pose proof (Z.mul_div_le i 8 ltac:(lia)). by rewrite bit_past_end by lia.
Qed.

Lemma insert_bits_loop_spec v off n i dst :
  0 <= off -> off + i < 2 ^ 32 -> 0 <= i -> Z.of_nat (length dst) < 2 ^ 29 -> bytes_ok dst ->
  length (insert_bits_loop v off n i dst) = length dst /\
  bytes_ok (insert_bits_loop v off n i dst) /\
  forall k, 0 <= k -> bit (insert_bits_loop v off n i dst) k =
    if (off + i <=? k) && (k <? off + i + Z.of_nat n) && (k <? 8 * Z.of_nat (length dst))
    then bit v (k - off) else bit dst k.
Proof.
  intros Hoff. revert i dst. induction n as [|n IH]; intros i dst Hi2 Hi Hdst Hok.
  { split; [done|]. split; [done|]. intros k Hk. cbn [insert_bits_loop]. bool_split; try lia; done. }
  cbn [insert_bits_loop]. unfold u32. rewrite uwrap_id by (unfold in_u; lia).
  pose proof (Z.div_mod (off + i) 8 ltac:(lia)). pose proof (mod8_bound (off + i)).
  destruct (Z.leb_spec (Z.of_nat (length dst)) ((off + i) / 8)) as [Hd|Hd].
  { split; [done|]. split; [done|]. intros k Hk. bool_split; try lia; done. }
  rewrite value_bit by done. set (d := Z.to_nat ((off + i) / 8)).
  assert (Hdl : (d < length dst)%nat) by lia.
  set (x := u8 (Z.lor _ _)).
  assert (Hok' : bytes_ok (<[d := x]> dst)) by (apply Forall_insert; [done|apply u8_ok]).
  destruct (IH (i + 1) (<[d := x]> dst)) as (IHl & IHo & IHb); rewrite ?length_insert; try done; [lia..|].
  rewrite length_insert in IHl. rewrite length_insert in IHb. split; [done|]. split; [done|].
  intros k Hk. rewrite IHb by done. rewrite bit_insert by done.
  pose proof (Z.div_mod k 8 ltac:(lia)). pose proof (mod8_bound k).
  unfold x at 1. rewrite testbit_set_bit by (lia || by apply byte_at_ok).
  replace (Z.of_nat d) with ((off + i) / 8) by lia.
  destruct (Z.eqb_spec (k / 8) ((off + i) / 8)) as [E|E];
    [|bool_split; try lia; cbn [andb]; done].
  destruct (Z.eqb_spec (k mod 8) ((off + i) mod 8)) as [E'|E'].
  - assert (k = off + i) as -> by lia. bool_split; try lia; cbn [andb]. f_equal. lia.
  - assert (k <> off + i) by congruence.
    rewrite <- (bit_byte dst d k) by lia. bool_split; try lia; done.
Qed.

Lemma insert_bytes_loop_spec v off n i dst :
  bytes_ok dst -> bytes_ok v ->
  length (insert_bytes_loop v off n i dst) = length dst /\
  bytes_ok (insert_bytes_loop v off n i dst) /\
  forall k, 0 <= k -> bit (insert_bytes_loop v off n i dst) k =
    if (8 * Z.of_nat (off + i) <=? k) && (k <? 8 * Z.of_nat (off + i + n)) &&
       (k <? 8 * Z.of_nat (length dst))
    then bit v (k - 8 * Z.of_nat off) else bit dst k.
Proof.
  revert i dst. induction n as [|n IH]; intros i dst Hok Hv.
  { split; [done|]. split; [done|]. intros k Hk. cbn [insert_bytes_loop]. bool_split; try lia; done. }
  cbn [insert_bytes_loop]. destruct (Nat.ltb_spec (off + i) (length dst)) as [Hd|Hd].
  2: { split; [done|]. split; [done|]. intros k Hk. bool_split; try lia; done. }
  set (x := if (i <? length v)%nat then _ else _).
  assert (Hx : x = byte_at v i).
  { subst x. destruct (Nat.ltb_spec i (length v)); [done|]. by rewrite byte_at_ge. }
  rewrite Hx. clear x Hx.
  assert (Hok' : bytes_ok (<[(off + i)%nat := byte_at v i]> dst))
    by (apply Forall_insert; [done|by apply byte_at_ok]).
  destruct (IH (S i) _ Hok' Hv) as (IHl & IHo & IHb). rewrite length_insert in IHl.
  rewrite length_insert in IHb. split; [done|]. split; [done|]. intros k Hk. rewrite IHb by done.
  rewrite bit_insert by done. pose proof (Z.div_mod k 8 ltac:(lia)). pose proof (mod8_bound k).
  destruct (Z.eqb_spec (k / 8) (Z.of_nat (off + i))) as [E|E];
    [|bool_split; try lia; cbn [andb]; done].
  assert (E1 : (k - 8 * Z.of_nat off) / 8 = Z.of_nat i).
  { replace (k - 8 * Z.of_nat off) with (k + (- Z.of_nat off) * 8) by lia.
    rewrite Z.div_add by lia. lia. }
  assert (E2 : k mod 8 = (k - 8 * Z.of_nat off) mod 8).
  { replace (k - 8 * Z.of_nat off) with (k + (- Z.of_nat off) * 8) by lia.
    by rewrite Z_mod_plus_full. }
  rewrite E2, <- (bit_byte v i) by lia. bool_split; try lia; done.
Qed.

Lemma extract_bits_loop_ok src off vb n i out :
  bytes_ok out -> bytes_ok (extract_bits_loop src off vb n i out).
Proof.
  revert i out. induction n as [|n IH]; intros i out Hok; cbn [extract_bits_loop]; [done|].
  case_match; [done|]. apply IH, Forall_insert; [done|].
  apply lor_ok; [lia|by apply byte_at_ok|apply u8_ok].
Qed.

Lemma extract_bytes_loop_ok src off n i out :
  bytes_ok src -> bytes_ok out -> bytes_ok (extract_bytes_loop src off n i out).
Proof.
  intros Hs. revert i out. induction n as [|n IH]; intros i out Hok; cbn [extract_bytes_loop]; [done|].
  case_match; [|done]. apply IH, Forall_insert; [done|]. by apply byte_at_ok.
Qed.

Lemma extract_bytes_loop_slice src o n i out :
  length out = (i + n)%nat -> (o + i + n <= length src)%nat ->
  extract_bytes_loop src o n i out = take i out ++ slice (o + i) n src.
Proof.
  revert i out. induction n as [|n IH]; intros i out Hlen Hsrc; cbn [extract_bytes_loop].
  { unfold slice. rewrite take_0, app_nil_r, take_ge by lia. done. }
  rewrite (proj2 (Nat.ltb_lt _ _)) by lia. rewrite IH by (rewrite ?length_insert; lia).
  destruct (lookup_lt_is_Some_2 src (o + i) ltac:(lia)) as [b Eb]. rewrite (byte_at_Some _ _ _ Eb).
  assert (Es : slice (o + i) (S n) src = b :: slice (o + S i) n src).
  { unfold slice. rewrite (drop_S src b (o + i) Eb). by replace (o + S i)%nat with (S (o + i)) by lia. }
  rewrite Es, (take_S_r _ i b) by (apply list_lookup_insert_eq; lia).
  rewrite take_insert_ge by lia. by rewrite <- app_assoc.
Qed.

(** On whole bytes, extraction is a slice. *)
Lemma extractBits_aligned src o n : (o + n <= length src)%nat ->
  extractBits src (8 * Z.of_nat o) (8 * Z.of_nat n) = slice o n src.
Proof.
  intros Hsrc. unfold extractBits, extractBits_into. rewrite !length_replicate.
  replace (Z.to_nat ((8 * Z.of_nat n + 7) / 8)) with n
    by (rewrite Z.add_comm, Z.mul_comm, Z.div_add by lia; change (7 / 8) with 0; lia).
  rewrite !(Z.mul_comm 8), !Z_mod_mult, Z.div_mul, Nat2Z.id, Nat.min_id by lia. cbn [andb Z.eqb].
  rewrite extract_bytes_loop_slice by (rewrite ?length_replicate; lia). by rewrite Nat.add_0_r.
Qed.

Lemma aligned_8 x : x mod 8 = 0 -> 8 * (x / 8) = x.
Proof. intros H. pose proof (Z.div_mod x 8 ltac:(lia)). lia. Qed.

Lemma ceil_8 x : 0 <= x -> x <= 8 * ((x + 7) / 8) < x + 8.
Proof.
  intros H. pose proof (Z.div_mod (x + 7) 8 ltac:(lia)). pose proof (mod8_bound (x + 7)). lia.
Qed.

Lemma zeros_ok n : bytes_ok (replicate n 0).
Proof. apply Forall_replicate. unfold in_u. lia. Qed.

Section Fields.
(** A position and a width as the code passes them, in a buffer short enough (512 MiB) that no
    bit position of it overflows [uint32_t]. *)
Context (off len : Z) (Hoff : in_u 32 off) (Hlen : in_u 16 len).

Lemma extract_into_bits src out :
  bytes_ok src -> Z.of_nat (length src) < 2 ^ 29 ->
  length (extractBits_into src off len out) = length out /\
  bytes_ok (extractBits_into src off len out) /\
  forall k, 0 <= k -> bit (extractBits_into src off len out) k =
    (k <? Z.min len (8 * Z.of_nat (length out))) && bit src (off + k).
Proof using Hoff Hlen.
  intros Hok Hsrc. unfold extractBits_into. rewrite length_replicate.
  set (vb := Nat.min (length out) (Z.to_nat ((len + 7) / 8))).
  unfold in_u in Hoff, Hlen. pose proof (ceil_8 len ltac:(lia)) as Hc.
  assert (Hvb : forall k, k < len -> (k < 8 * Z.of_nat vb <-> k < 8 * Z.of_nat (length out))) by lia.
  destruct (Z.eqb_spec (off mod 8) 0) as [Eo|Eo];
    [destruct (Z.eqb_spec (len mod 8) 0) as [El|El]|]; cbn [andb].
  - destruct (extract_bytes_loop_spec src (Z.to_nat (off / 8)) vb 0 (replicate (length out) 0))
      as [Hl Hb]; [rewrite length_replicate; lia|]. rewrite length_replicate in Hl.
    split; [done|]. split; [apply extract_bytes_loop_ok; auto using zeros_ok|].
    intros k Hk. rewrite Hb; [|intros; apply bit_replicate_0|done].
    pose proof (aligned_8 _ Eo). pose proof (aligned_8 _ El).
    pose proof (Z.div_pos off 8 ltac:(lia) ltac:(lia)).
    rewrite bit_replicate_0. cbn [orb]. replace (8 * Z.of_nat (Z.to_nat (off / 8))) with off by lia.
    bool_split; try lia; done.
  - edestruct (extract_bits_loop_spec src off vb (Z.to_nat len) 0 (replicate (length out) 0))
      as [Hl Hb]; try lia; [rewrite length_replicate; lia|]. rewrite length_replicate in Hl.
    split; [done|]. split; [apply extract_bits_loop_ok, zeros_ok|].
    intros k Hk. rewrite Hb, bit_replicate_0 by done. cbn [orb]. bool_split; try lia; done.
  - edestruct (extract_bits_loop_spec src off vb (Z.to_nat len) 0 (replicate (length out) 0))
      as [Hl Hb]; try lia; [rewrite length_replicate; lia|]. rewrite length_replicate in Hl.
    split; [done|]. split; [apply extract_bits_loop_ok, zeros_ok|].
    intros k Hk. rewrite Hb, bit_replicate_0 by done. cbn [orb]. bool_split; try lia; done.
Qed.

Lemma extract_bits src :
  bytes_ok src -> Z.of_nat (length src) < 2 ^ 29 ->
  length (extractBits src off len) = Z.to_nat ((len + 7) / 8) /\
  bytes_ok (extractBits src off len) /\
  forall k, 0 <= k -> bit (extractBits src off len) k = (k <? len) && bit src (off + k).
Proof using Hoff Hlen.
  intros Hok Hsrc. unfold extractBits.
  destruct (extract_into_bits src (replicate (Z.to_nat ((len + 7) / 8)) 0) Hok Hsrc) as (Hl & Ho & Hb).
  rewrite length_replicate in Hl. rewrite length_replicate in Hb. split; [done|]. split; [done|].
  intros k Hk. rewrite Hb by done. unfold in_u in Hlen. pose proof (ceil_8 len ltac:(lia)).
  bool_split; try lia; done.
Qed.

Lemma insert_bits dst v :
  bytes_ok dst -> bytes_ok v -> Z.of_nat (length dst) < 2 ^ 29 ->
  length (insertBits dst off len v) = length dst /\ bytes_ok (insertBits dst off len v) /\
  forall k, 0 <= k -> bit (insertBits dst off len v) k =
    if (off <=? k) && (k <? off + len) && (k <? 8 * Z.of_nat (length dst))
    then bit v (k - off) else bit dst k.
Proof using Hoff Hlen.
  intros Hd Hv Hdst. unfold insertBits, in_u in *.
  destruct (Z.eqb_spec (off mod 8) 0) as [Eo|Eo];
    [destruct (Z.eqb_spec (len mod 8) 0) as [El|El]|]; cbn [andb].
  - destruct (insert_bytes_loop_spec v (Z.to_nat (off / 8)) (Z.to_nat (len / 8)) 0 dst Hd Hv)
      as (Hl & Ho & Hb). split; [done|]. split; [done|]. intros k Hk. rewrite Hb by done.
    pose proof (aligned_8 _ Eo). pose proof (aligned_8 _ El).
    pose proof (Z.div_pos off 8 ltac:(lia) ltac:(lia)).
    pose proof (Z.div_pos len 8 ltac:(lia) ltac:(lia)).
    replace (8 * Z.of_nat (Z.to_nat (off / 8))) with off by lia.
    bool_split; try lia; done.
  - destruct (insert_bits_loop_spec v off (Z.to_nat len) 0 dst) as (Hl & Ho & Hb); try lia; try done.
    split; [done|]. split; [done|]. intros k Hk. rewrite Hb by done. bool_split; try lia; done.
  - destruct (insert_bits_loop_spec v off (Z.to_nat len) 0 dst) as (Hl & Ho & Hb); try lia; try done.
    split; [done|]. split; [done|]. intros k Hk. rewrite Hb by done. bool_split; try lia; done.
Qed.
End Fields.

(** Writing and reading fields, shared with the process image. *)
Lemma insert_extract_lemma dst off len v off' len' :
  in_u 32 off -> in_u 16 len -> in_u 32 off' -> in_u 16 len' -> bytes_ok dst -> bytes_ok v ->
  Z.of_nat (length dst) < 2 ^ 29 -> off + len <= 8 * Z.of_nat (length dst) ->
  extractBits (insertBits dst off len v) off len =
    le_bytes (Z.to_nat ((len + 7) / 8)) (uwrap len (le_value v)) /\
  (off + len <= off' \/ off' + len' <= off ->
   extractBits (insertBits dst off len v) off' len' = extractBits dst off' len').
Proof.
  intros Ho Hl Ho' Hl' Hd Hv Hs Hfit.
  destruct (insert_bits off len Ho Hl dst v Hd Hv Hs) as (Il & Io & Ib).
  rewrite <- Il in Hs.
  split.
  - destruct (extract_bits off len Ho Hl _ Io Hs) as (El & Eo & Eb). unfold in_u in *.
    apply bits_ext; [done|apply le_bytes_ok|by rewrite length_le_bytes|].
    intros k Hk. rewrite Eb by done. rewrite <- (testbit_le_value (le_bytes _ _)) by auto with mm.
    rewrite le_value_bytes. pose proof (ceil_8 len ltac:(lia)) as Hc.
    unfold uwrap. destruct (Z.ltb_spec k len); cbn [andb].
    + rewrite Ib by lia. rewrite !Z.mod_pow2_bits_low by lia.
      rewrite testbit_le_value by done. bool_split; try lia. cbn [andb]. f_equal. lia.
    + destruct (decide (k < 8 * Z.of_nat (Z.to_nat ((len + 7) / 8)))).
      * rewrite Z.mod_pow2_bits_low by lia. by rewrite Z.mod_pow2_bits_high by lia.
      * by rewrite Z.mod_pow2_bits_high by lia.
  - intros Hdis. destruct (extract_bits off' len' Ho' Hl' _ Io Hs) as (El & Eo & Eb).
    rewrite Il in Hs. destruct (extract_bits off' len' Ho' Hl' dst Hd Hs) as (Fl & Fo & Fb).
    apply bits_ext; [done..|congruence|]. intros k Hk. unfold in_u in *.
    rewrite Eb, Fb, Ib by lia. bool_split; try lia; done.
Qed.

(** ** Theorems *)

(** [extractBits] (either path, any caller buffer) puts exactly the field's bits, zero-extended,
    into the buffer: bit [k] of the result is bit [bitOffset + k] of the source below the field's
    width and the buffer's end, and 0 elsewhere; bits past the source's end read as 0. *)
Theorem extractBits_spec src off len out k :
  in_u 32 off -> in_u 16 len -> bytes_ok src -> Z.of_nat (length src) < 2 ^ 29 -> 0 <= k ->
  length (extractBits_into src off len out) = length out /\
  bytes_ok (extractBits_into src off len out) /\
  bit (extractBits_into src off len out) k =
    (k <? Z.min len (8 * Z.of_nat (length out))) && bit src (off + k).
Proof.
  intros Ho Hl Hok Hs Hk. destruct (extract_into_bits off len Ho Hl src out Hok Hs) as (? & ? & Hb).
  auto.
Qed.

Lemma extractBits_spec_witness :
  bit (extractBits_into [171; 205] 3 6 [9; 9]) 4 = bit [171; 205] 7 /\
  bit (extractBits_into [171; 205] 8 8 [9; 9]) 15 = false.
Proof.
  assert (Hok : bytes_ok [171; 205]) by (repeat constructor; done).
  split.
  - etrans; [apply (extractBits_spec [171; 205] 3 6 [9; 9] 4); try done|vm_compute; reflexivity].
  - etrans; [apply (extractBits_spec [171; 205] 8 8 [9; 9] 15); try done|vm_compute; reflexivity].
Defined.

(** [insertBits] changes exactly the field's bits that lie inside the buffer, to the value's
    bits (0 where the value is too short), and no other bit; the buffer keeps its size. *)
Theorem insertBits_spec dst off len v k :
  in_u 32 off -> in_u 16 len -> bytes_ok dst -> bytes_ok v -> Z.of_nat (length dst) < 2 ^ 29 ->
  0 <= k ->
  length (insertBits dst off len v) = length dst /\ bytes_ok (insertBits dst off len v) /\
  bit (insertBits dst off len v) k =
    if (off <=? k) && (k <? off + len) && (k <? 8 * Z.of_nat (length dst))
    then bit v (k - off) else bit dst k.
Proof.
  intros Ho Hl Hd Hv Hs Hk. destruct (insert_bits off len Ho Hl dst v Hd Hv Hs) as (? & ? & Hb).
  auto.
Qed.

Lemma insertBits_spec_witness :
  bit (insertBits [255; 0; 255] 6 5 [10]) 9 = true /\ bit (insertBits [255; 0; 255] 6 5 [10]) 5 = true.
Proof.
  assert (Hd : bytes_ok [255; 0; 255]) by (repeat constructor; done).
  assert (Hv : bytes_ok [10]) by (repeat constructor; done).
  split.
  - etrans; [apply (insertBits_spec [255; 0; 255] 6 5 [10] 9); try done|vm_compute; reflexivity].
  - etrans; [apply (insertBits_spec [255; 0; 255] 6 5 [10] 5); try done|vm_compute; reflexivity].
Defined.

(** A field written with [insertBits] reads back with [extractBits] as the value's low
    [bitLength] bits, and every field that does not overlap it reads back as before. *)
Theorem insert_extract dst off len v off' len' :
  in_u 32 off -> in_u 16 len -> in_u 32 off' -> in_u 16 len' -> bytes_ok dst -> bytes_ok v ->
  Z.of_nat (length dst) < 2 ^ 29 -> off + len <= 8 * Z.of_nat (length dst) ->
  extractBits (insertBits dst off len v) off len =
    le_bytes (Z.to_nat ((len + 7) / 8)) (uwrap len (le_value v)) /\
  (off + len <= off' \/ off' + len' <= off ->
   extractBits (insertBits dst off len v) off' len' = extractBits dst off' len').
Proof. apply insert_extract_lemma. Qed.

Lemma insert_extract_witness :
  extractBits (insertBits [255; 0; 255] 6 5 [42]) 6 5 = [10] /\
  extractBits (insertBits [255; 0; 255] 6 5 [42]) 11 13 = [224; 31].
Proof.
  assert (Hd : bytes_ok [255; 0; 255]) by (repeat constructor; done).
  assert (Hv : bytes_ok [42]) by (repeat constructor; done).
  split.
  - etrans; [apply (insert_extract [255; 0; 255] 6 5 [42] 11 13); try done|vm_compute; reflexivity].
  - etrans; [apply (insert_extract [255; 0; 255] 6 5 [42] 11 13); try done; left; done|].
    vm_compute; reflexivity.
Defined.

End Bits.
