(* ===== verification/BusLocks.v ===== *)
(** * The control-plane locks ([libs/comm/control_plane_locks.{h,cc}])

    [BusLock] (a reader/writer lock in which a waiting writer stops new readers), the drive mutexes
    and the frame slots, and the four ways [ControlPlaneLocks] combines them, as a transition system
    of any number of threads. A block under [mutex_] is one step; a wait on a condition variable
    puts the thread to sleep, and only a notification, which is a step of its own after the block,
    or a spurious wake-up makes it look again. *)

From S2P Require Import Prelude.

Module Locks.

Definition kFrameSlots : Z := 8.

(** What a thread asks for: the bus shared, with a frame slot, or with a drive and a frame slot. *)
Inductive share := SShared | SIo | SDrive (p : nat).

Inductive pc :=
  | Idle
  | WAwake | WAsleep                             (* lock(): waiting, counted in writersWaiting_ *)
  | WHeld
  | WNotifyWriter | WNotifyReaders               (* unlock(): writer_ cleared, notifications to come *)
  | RAwake (k : share) | RAsleep (k : share)     (* lock_shared(): waiting *)
  | RBus (d : option nat)                        (* the bus is held shared, the drive or slot is not *)
  | RDrive (p : nat)                             (* the bus and the drive are held, the slot is not *)
  | RHeld (k : share)                            (* all that was asked for *)
  | ROutDrive (p : nat)                          (* the slot is back, the drive is held *)
  | ROutBus                                      (* only the bus is held *)
  | RNotifyWriter.                               (* unlock_shared() by the last reader *)

#[export] Instance share_eq_dec : EqDecision share.
Proof. solve_decision. Defined.
#[export] Instance pc_eq_dec : EqDecision pc.
Proof. solve_decision. Defined.

Record state := mk_state {
  readers : Z;
  writersWaiting : Z;
  writer : bool;
  drives : gmap nat bool;                        (* locked drive mutexes *)
  slots : Z;                                     (* the semaphore's count *)
  threads : list pc;
}.

Definition initial (n : nat) : state := mk_state 0 0 false ∅ kFrameSlots (replicate n Idle).

Definition set_pc (s : state) (i : nat) (p : pc) : state :=
  mk_state (readers s) (writersWaiting s) (writer s) (drives s) (slots s) (<[i := p]> (threads s)).

Definition locked (s : state) (p : nat) : bool := default false (drives s !! p).

(** The predicates of the two waits. *)
Definition writer_may_enter (s : state) : bool := negb (writer s) && (readers s =? 0).
Definition reader_may_enter (s : state) : bool := negb (writer s) && (writersWaiting s =? 0).

(** [BusLock::lock] from the increment on, and each look of its wait. *)
Definition lock_begin (s : state) : state :=
  mk_state (readers s) (writersWaiting s + 1) (writer s) (drives s) (slots s) (threads s).
Definition lock_look (s : state) (i : nat) : state :=
  if writer_may_enter s
  then set_pc (mk_state (readers s) (writersWaiting s - 1) true (drives s) (slots s) (threads s)) i WHeld
  else set_pc s i WAsleep.
Definition lock_shared_look (s : state) (i : nat) (k : share) : state :=
  if reader_may_enter s
  then set_pc (mk_state (readers s + 1) (writersWaiting s) (writer s) (drives s) (slots s) (threads s)) i
         (match k with SShared => RHeld SShared | SIo => RBus None | SDrive p => RBus (Some p) end)
  else set_pc s i (RAsleep k).
Definition unlock (s : state) (i : nat) : state :=
  set_pc (mk_state (readers s) (writersWaiting s) false (drives s) (slots s) (threads s)) i WNotifyWriter.
Definition unlock_shared (s : state) (i : nat) : state :=
  let s1 := mk_state (readers s - 1) (writersWaiting s) (writer s) (drives s) (slots s) (threads s) in
  set_pc s1 i (if readers s1 =? 0 then RNotifyWriter else Idle).

(** [notify_one] wakes the sleeping writer [j], if [j] is one; when none sleeps it does nothing. *)
Definition is_wasleep (p : pc) : bool := match p with WAsleep => true | _ => false end.
Definition notify_writer (s : state) (j : nat) : option state :=
  match threads s !! j with
  | Some WAsleep => Some (set_pc s j WAwake)
  | _ => if existsb is_wasleep (threads s) then None else Some s
  end.
Definition wake_reader (p : pc) : pc := match p with RAsleep k => RAwake k | p => p end.
Definition notify_readers (s : state) : state :=
  mk_state (readers s) (writersWaiting s) (writer s) (drives s) (slots s) (wake_reader <$> threads s).

Definition take_slot (s : state) : state :=
  mk_state (readers s) (writersWaiting s) (writer s) (drives s) (slots s - 1) (threads s).
Definition give_slot (s : state) : state :=
  mk_state (readers s) (writersWaiting s) (writer s) (drives s) (slots s + 1) (threads s).
Definition set_drive (s : state) (p : nat) (b : bool) : state :=
  mk_state (readers s) (writersWaiting s) (writer s) (<[p := b]> (drives s)) (slots s) (threads s).

(** What an idle thread starts, and which writer a notification wakes. *)
Inductive choice := CLockBus | CShare (k : share) | CWake (j : nat).

(** A step of thread [i]; none when it is blocked. *)
Definition step_of (i : nat) (c : choice) (s : state) : option state :=
  match threads s !! i with
  | None => None
  | Some Idle =>
      match c with
      | CLockBus => Some (lock_look (lock_begin s) i)
      | CShare k => Some (lock_shared_look s i k)
      | CWake _ => None
      end
  | Some WAwake => Some (lock_look s i)
  | Some WAsleep | Some (RAsleep _) => None
  | Some WHeld => Some (unlock s i)
  | Some WNotifyWriter =>
      match c with CWake j => s1 ← notify_writer s j; Some (set_pc s1 i WNotifyReaders) | _ => None end
  | Some WNotifyReaders => Some (set_pc (notify_readers s) i Idle)
  | Some (RAwake k) => Some (lock_shared_look s i k)
  | Some (RBus (Some p)) => if locked s p then None else Some (set_pc (set_drive s p true) i (RDrive p))
  | Some (RBus None) => if 0 <? slots s then Some (set_pc (take_slot s) i (RHeld SIo)) else None
  | Some (RDrive p) => if 0 <? slots s then Some (set_pc (take_slot s) i (RHeld (SDrive p))) else None
  | Some (RHeld SShared) => Some (unlock_shared s i)
  | Some (RHeld SIo) => Some (set_pc (give_slot s) i ROutBus)
  | Some (RHeld (SDrive p)) => Some (set_pc (give_slot s) i (ROutDrive p))
  | Some (ROutDrive p) => Some (set_pc (set_drive s p false) i ROutBus)
  | Some ROutBus => Some (unlock_shared s i)
  | Some RNotifyWriter =>
      match c with CWake j => s1 ← notify_writer s j; Some (set_pc s1 i Idle) | _ => None end
  end.

(** A condition variable may also wake a waiter for no reason. *)
Definition spurious (i : nat) (s : state) : option state :=
  match threads s !! i with
  | Some WAsleep => Some (set_pc s i WAwake)
  | Some (RAsleep k) => Some (set_pc s i (RAwake k))
  | _ => None
  end.

Definition step (s s' : state) : Prop := exists i, (exists c, step_of i c s = Some s') \/ spurious i s = Some s'.

(** ** The invariant *)

Definition shares_bus (p : pc) : bool :=
  match p with RBus _ | RDrive _ | RHeld _ | ROutDrive _ | ROutBus => true | _ => false end.
Definition waits_write (p : pc) : bool := match p with WAwake | WAsleep => true | _ => false end.
Definition writes (p : pc) : bool := match p with WHeld => true | _ => false end.
Definition owns_drive (d : nat) (p : pc) : bool :=
  match p with RDrive p | RHeld (SDrive p) | ROutDrive p => (p =? d)%nat | _ => false end.
Definition owns_slot (p : pc) : bool := match p with RHeld SIo | RHeld (SDrive _) => true | _ => false end.

Definition count (f : pc -> bool) (ts : list pc) : Z := foldr (fun p n => Z.b2z (f p) + n) 0 ts.

Lemma count_cons f t ts : count f (t :: ts) = Z.b2z (f t) + count f ts.
Proof. done. Qed.
#[local] Opaque count.

Lemma count_insert f ts i p q : ts !! i = Some p ->
  count f (<[i := q]> ts) = count f ts - Z.b2z (f p) + Z.b2z (f q).
Proof.
  revert i. induction ts as [|t ts IH]; intros i Hi; [done|]. destruct i as [|i].
  - injection Hi as ->. change (<[0%nat := q]> (p :: ts)) with (q :: ts). rewrite !count_cons. ring.
  - change (<[S i := q]> (t :: ts)) with (t :: <[i := q]> ts). rewrite !count_cons, (IH i Hi). ring.
Qed.

Lemma count_nonneg f ts : 0 <= count f ts.
Proof. induction ts as [|t ts IH]; [done|]. rewrite count_cons. destruct (f t); cbn [Z.b2z]; lia. Qed.

Lemma count_lookup f ts i p : ts !! i = Some p -> f p = true -> 1 <= count f ts.
Proof.
  intros Hi Hf. revert i Hi. induction ts as [|t ts IH]; intros i Hi; [done|]. rewrite count_cons. destruct i as [|i].
  - injection Hi as ->. rewrite Hf. pose proof (count_nonneg f ts). cbn [Z.b2z]. lia.
  - specialize (IH i Hi). destruct (f t); cbn [Z.b2z]; lia.
Qed.

Lemma count_two f ts i j p q : ts !! i = Some p -> ts !! j = Some q -> i <> j -> f p = true -> f q = true -> 2 <= count f ts.
Proof.
  intros Hi Hj Hij Hp Hq. revert i j Hi Hj Hij. induction ts as [|t ts IH]; intros i j Hi Hj Hij; [done|].
  rewrite count_cons. destruct i as [|i], j as [|j]; cbn in Hi, Hj; simplify_eq.
  - rewrite Hp. pose proof (count_lookup f ts j q Hj Hq). cbn [Z.b2z]. lia.
  - rewrite Hq. pose proof (count_lookup f ts i p Hi Hp). cbn [Z.b2z]. lia.
  - specialize (IH i j Hi Hj ltac:(lia)). destruct (f t); cbn [Z.b2z]; lia.
Qed.

Lemma count_pos f ts : 0 < count f ts -> exists i p, ts !! i = Some p /\ f p = true.
Proof.
  induction ts as [|t ts IH]; [done|]. rewrite count_cons. destruct (f t) eqn:Ef; cbn [Z.b2z]; intros Hc.
  - by exists 0%nat, t.
  - destruct (IH ltac:(lia)) as (i & p & Hi & Hp). by exists (S i), p.
Qed.

Lemma count_map f g ts : (forall p, f (g p) = f p) -> count f (g <$> ts) = count f ts.
Proof. intros H. induction ts as [|t ts IH]; [done|]. rewrite fmap_cons, !count_cons, H. by rewrite IH. Qed.

Definition awake_w (p : pc) : bool := match p with WAwake => true | _ => false end.
Definition is_rasleep (p : pc) : bool := match p with RAsleep _ => true | _ => false end.
Definition notifies_w (p : pc) : bool := match p with WNotifyWriter | RNotifyWriter => true | _ => false end.
Definition notifies_r (p : pc) : bool := match p with WNotifyWriter | WNotifyReaders => true | _ => false end.

Record Inv (s : state) : Prop := {
  inv_readers : readers s = count shares_bus (threads s);
  inv_waiting : writersWaiting s = count waits_write (threads s);
  inv_writer : Z.b2z (writer s) = count writes (threads s);
  inv_excl : writer s = true -> readers s = 0;
  inv_drives : forall d, Z.b2z (locked s d) = count (owns_drive d) (threads s);
  inv_slots : slots s + count owns_slot (threads s) = kFrameSlots /\ 0 <= slots s;
  (* no notification is lost *)
  inv_wsleep : 0 < count is_wasleep (threads s) ->
    writer s = true \/ 0 < readers s \/ 0 < count awake_w (threads s) \/ 0 < count notifies_w (threads s);
  inv_rsleep : 0 < count is_rasleep (threads s) ->
    writer s = true \/ 0 < writersWaiting s \/ 0 < count notifies_r (threads s);
}.

Lemma count_replicate f n : f Idle = false -> count f (replicate n Idle) = 0.
Proof. intros Hf. induction n as [|n IH]; cbn [replicate]; [done|]. by rewrite count_cons, Hf, IH. Qed.

Lemma Inv_initial n : Inv (initial n).
Proof.
  split; cbn; rewrite ?count_replicate by done; try done; try lia; intros d. by rewrite count_replicate.
Qed.

Lemma Inv_set_pc s s' i p q : Inv s -> threads s !! i = Some p -> threads s' = <[i := q]> (threads s) ->
  readers s' = readers s - Z.b2z (shares_bus p) + Z.b2z (shares_bus q) ->
  writersWaiting s' = writersWaiting s - Z.b2z (waits_write p) + Z.b2z (waits_write q) ->
  Z.b2z (writer s') = Z.b2z (writer s) - Z.b2z (writes p) + Z.b2z (writes q) ->
  slots s' = slots s + Z.b2z (owns_slot p) - Z.b2z (owns_slot q) -> 0 <= slots s' ->
  (forall d, Z.b2z (locked s' d) = Z.b2z (locked s d) - Z.b2z (owns_drive d p) + Z.b2z (owns_drive d q)) ->
  (writer s' = true -> readers s' = 0) ->
  (0 < count is_wasleep (threads s') -> 
     writer s' = true \/ 0 < readers s' \/ 0 < count awake_w (threads s') \/ 0 < count notifies_w (threads s')) ->
  (0 < count is_rasleep (threads s') ->
     writer s' = true \/ 0 < writersWaiting s' \/ 0 < count notifies_r (threads s')) -> Inv s'.
Proof.
  intros [H1 H2 H3 H4 H5 [H6 H6'] H7 H8] Hi Ht E1 E2 E3 E4 E4' E5 E6 E7 E8.
  pose proof (fun f => count_insert f (threads s) i p q Hi) as Hc. rewrite <- Ht in Hc.
  split; try done; try (rewrite Hc; lia). intros d. rewrite Hc, E5, H5. done.
Qed.
Lemma locked_set s p b d : locked (set_drive s p b) d = if (p =? d)%nat then b else locked s d.
Proof.
  unfold locked, set_drive. cbn. destruct (Nat.eqb_spec p d) as [->|Hne]; [by rewrite lookup_insert_eq|].
  by rewrite lookup_insert_ne.
Qed.

Lemma Inv_lock_look s s0 i p : Inv s -> threads s !! i = Some p ->
  (p = WAwake /\ s0 = s) \/ (p = Idle /\ s0 = lock_begin s) -> Inv (lock_look s0 i).
Proof.
  intros HI Hi Hp. pose proof HI as [H1 H2 H3 H4 H5 [H6 H6'] H7 H8].
  assert (E : readers s0 = readers s /\ writer s0 = writer s /\ drives s0 = drives s /\ slots s0 = slots s /\
    threads s0 = threads s /\ writersWaiting s0 = writersWaiting s - Z.b2z (waits_write p) + 1).
  { destruct Hp as [[-> ->]|[-> ->]]; cbn; split_and!; try done; lia. }
  destruct E as (E1 & E2 & E3 & E4 & E5 & E6). unfold lock_look, writer_may_enter. rewrite E1, E2.
  assert (Hpp : shares_bus p = false /\ writes p = false /\ owns_slot p = false /\ (forall d, owns_drive d p = false))
    by (destruct Hp as [[-> _]|[-> _]]; done). destruct Hpp as (P1 & P2 & P3 & P4).
  destruct (writer s) eqn:Ew; cbn [negb andb].
  - apply (Inv_set_pc s _ i p WAsleep); rewrite ?P1, ?P2, ?P3; cbn; rewrite ?E1, ?E2, ?E4, ?E5, ?E6, ?Ew; try done; try lia; auto.
    intros d. unfold locked. cbn. rewrite E3, P4. cbn [Z.b2z]. lia.
  - destruct (Z.eqb_spec (readers s) 0) as [Er|Er].
    + apply (Inv_set_pc s _ i p WHeld); rewrite ?P1, ?P2, ?P3; cbn; rewrite ?E1, ?E2, ?E4, ?E5, ?E6, ?Ew; try done; try lia; auto.
      intros d. unfold locked. cbn. rewrite E3, P4. cbn [Z.b2z]. lia.
    + pose proof (count_nonneg shares_bus (threads s)).
      apply (Inv_set_pc s _ i p WAsleep); rewrite ?P1, ?P2, ?P3; cbn; rewrite ?E1, ?E2, ?E4, ?E5, ?E6, ?Ew; try done; try lia; auto.
      * intros d. unfold locked. cbn. rewrite E3, P4. cbn [Z.b2z]. lia.
      * intros _. right. left. pose proof (count_nonneg waits_write (threads s)).
        assert (Z.b2z (waits_write p) <= writersWaiting s); [|lia]. rewrite H2.
        destruct (waits_write p) eqn:Ewp; cbn; [|lia]. by apply (count_lookup _ _ i p).
Qed.
Lemma Inv_lock_shared_look s i p k : Inv s -> threads s !! i = Some p -> p = RAwake k \/ p = Idle ->
  Inv (lock_shared_look s i k).
Proof.
  intros HI Hi Hp. pose proof HI as [H1 H2 H3 H4 H5 [H6 H6'] H7 H8].
  assert (Hpp : shares_bus p = false /\ writes p = false /\ owns_slot p = false /\ waits_write p = false /\
    is_wasleep p = false /\ is_rasleep p = false /\ awake_w p = false /\ notifies_w p = false /\ notifies_r p = false /\
    (forall d, owns_drive d p = false)) by (destruct Hp as [-> | ->]; done).
  destruct Hpp as (P1 & P2 & P3 & P4 & P5 & P6 & P7 & P8 & P9 & P10).
  unfold lock_shared_look, reader_may_enter.
  destruct (writer s) eqn:Ew; cbn [negb andb].
  - apply (Inv_set_pc s _ i p (RAsleep k)); rewrite ?P1, ?P2, ?P3, ?P4; cbn; rewrite ?Ew; try done; try lia; auto.
    intros d. unfold locked. cbn. rewrite P10. cbn [Z.b2z]. lia.
  - destruct (Z.eqb_spec (writersWaiting s) 0) as [Er|Er].
    + set (q := match k with SShared => RHeld SShared | SIo => RBus None | SDrive p => RBus (Some p) end).
      assert (Hqq : shares_bus q = true /\ writes q = false /\ owns_slot q = false /\ waits_write q = false /\
        is_wasleep q = false /\ is_rasleep q = false /\ awake_w q = false /\ notifies_w q = false /\ notifies_r q = false /\
        (forall d, owns_drive d q = false)) by (unfold q; by destruct k).
      destruct Hqq as (Q1 & Q2 & Q3 & Q4 & Q5 & Q6 & Q7 & Q8 & Q9 & Q10).
      pose proof (count_nonneg shares_bus (threads s)).
      apply (Inv_set_pc s _ i p q); rewrite ?P1, ?P2, ?P3, ?P4, ?Q1, ?Q2, ?Q3, ?Q4; cbn; rewrite ?Ew; try done; try lia; auto.
      * intros d. unfold locked. cbn. rewrite P10, Q10. cbn [Z.b2z]. lia.
      * rewrite !(fun f => count_insert f _ _ _ q Hi), P6, Q6, P9, Q9. cbn [Z.b2z]. intros Hs.
        destruct (H8 ltac:(lia)) as [?|[?|?]]; [done|lia|]. right. right. lia.
    + pose proof (count_nonneg waits_write (threads s)).
      apply (Inv_set_pc s _ i p (RAsleep k)); rewrite ?P1, ?P2, ?P3, ?P4; cbn; rewrite ?Ew; try done; try lia; auto.
      * intros d. unfold locked. cbn. rewrite P10. cbn [Z.b2z]. lia.
      * rewrite !(fun f => count_insert f _ _ _ (RAsleep k) Hi), P5, P7, P8. cbn [is_wasleep awake_w notifies_w Z.b2z]. intros Hs.
        destruct (H7 ltac:(lia)) as [?|[?|[?|?]]]; [done|auto|..]; right; right; [left|right]; lia.
Qed.

(** A move that touches neither the writer's side nor the sleepers. *)
Definition neutral (p : pc) : Prop :=
  writes p = false /\ waits_write p = false /\ is_wasleep p = false /\ is_rasleep p = false /\ awake_w p = false /\
  notifies_w p = false /\ notifies_r p = false.

Lemma Inv_neutral s s' i p q : Inv s -> threads s !! i = Some p -> neutral p -> neutral q ->
  shares_bus q = shares_bus p ->
  threads s' = <[i := q]> (threads s) -> readers s' = readers s -> writersWaiting s' = writersWaiting s -> writer s' = writer s ->
  slots s' = slots s + Z.b2z (owns_slot p) - Z.b2z (owns_slot q) -> 0 <= slots s' ->
  (forall d, Z.b2z (locked s' d) = Z.b2z (locked s d) - Z.b2z (owns_drive d p) + Z.b2z (owns_drive d q)) -> Inv s'.
Proof.
  intros HI Hi (P1 & P2 & P3 & P4 & P5 & P6 & P7) (Q1 & Q2 & Q3 & Q4 & Q5 & Q6 & Q7) Hsh Ht E1 E2 E3 E4 E5 E6.
  pose proof HI as [H1 H2 H3 H4 H5 [H6 H6'] H7 H8].
  pose proof (fun f => count_insert f (threads s) i p q Hi) as Hc. rewrite <- Ht in Hc.
  apply (Inv_set_pc s s' i p q); try done; rewrite ?P1, ?P2, ?Q1, ?Q2, ?Hsh, ?E1, ?E2, ?E3; try lia; auto;
    rewrite !Hc, ?P3, ?P4, ?P5, ?P6, ?P7, ?Q3, ?Q4, ?Q5, ?Q6, ?Q7; cbn [Z.b2z]; rewrite !Z.sub_0_r, !Z.add_0_r; done.
Qed.
Lemma Inv_unlock s i : Inv s -> threads s !! i = Some WHeld -> Inv (unlock s i).
Proof.
  intros HI Hi. pose proof HI as [H1 H2 H3 H4 H5 [H6 H6'] H7 H8].
  pose proof (count_lookup writes _ _ _ Hi eq_refl) as Hw.
  assert (Ew : writer s = true) by (destruct (writer s); [done|]; cbn in H3; lia).
  pose proof (count_nonneg notifies_w (threads s)). pose proof (count_nonneg notifies_r (threads s)).
  apply (Inv_set_pc s _ i WHeld WNotifyWriter); cbn; rewrite ?Ew; try done; try lia; auto.
  - intros d. unfold locked. cbn. lia.
  - intros _. right. right. right. rewrite (count_insert _ _ _ _ _ Hi). cbn. lia.
  - intros _. right. right. rewrite (count_insert _ _ _ _ _ Hi). cbn. lia.
Qed.

Lemma Inv_unlock_shared s i p : Inv s -> threads s !! i = Some p -> p = RHeld SShared \/ p = ROutBus -> Inv (unlock_shared s i).
Proof.
  intros HI Hi Hp. pose proof HI as [H1 H2 H3 H4 H5 [H6 H6'] H7 H8].
  assert (Hpp : shares_bus p = true /\ neutral p /\ owns_slot p = false /\ (forall d, owns_drive d p = false))
    by (destruct Hp as [-> | ->]; done). destruct Hpp as (P0 & (P1 & P2 & P3 & P4 & P5 & P6 & P7) & P8 & P9).
  pose proof (count_lookup shares_bus _ _ _ Hi P0) as Hr.
  assert (Ew : writer s = false) by (destruct (writer s); [|done]; specialize (H4 eq_refl); lia).
  pose proof (count_nonneg notifies_w (threads s)) as Hnw. unfold unlock_shared. cbn [readers].
  set (q := if readers s - 1 =? 0 then RNotifyWriter else Idle).
  assert (Hqq : shares_bus q = false /\ writes q = false /\ waits_write q = false /\ owns_slot q = false /\ is_wasleep q = false /\
    is_rasleep q = false /\ awake_w q = false /\ notifies_r q = false /\ (forall d, owns_drive d q = false))
    by (unfold q; destruct (_ =? 0); done). destruct Hqq as (Q0 & Q1 & Q2 & Q3 & Q4 & Q5 & Q6 & Q7 & Q8).
  apply (Inv_set_pc s _ i p q); rewrite ?P0, ?P1, ?P2, ?P8, ?Q0, ?Q1, ?Q2, ?Q3; cbn; rewrite ?Ew; try done; try lia.
  - intros d. unfold locked. cbn. rewrite P9, Q8. cbn [Z.b2z]. lia.
  - intros _. destruct (Z.eqb_spec (readers s - 1) 0) as [E|E]; [|right; left; lia]. right. right. right.
    rewrite (count_insert _ _ _ _ _ Hi), P6. unfold q. cbn. lia.
  - rewrite !(fun f => count_insert f _ _ _ q Hi), P4, P7, Q5, Q7. cbn [Z.b2z]. rewrite !Z.sub_0_r, !Z.add_0_r.
    intros Hs. destruct (H8 Hs) as [?|?]; [congruence|auto].
Qed.

Lemma existsb_count ts : existsb is_wasleep ts = false -> count is_wasleep ts = 0.
Proof.
  induction ts as [|t ts IH]; [done|]. cbn [existsb]. intros [Ht Hts]%orb_false_iff. rewrite count_cons, Ht, IH by done. done.
Qed.

Lemma Inv_wake s j : Inv s -> threads s !! j = Some WAsleep -> Inv (set_pc s j WAwake).
Proof.
  intros HI Hj. pose proof HI as [H1 H2 H3 H4 H5 [H6 H6'] H7 H8].
  pose proof (count_nonneg awake_w (threads s)).
  apply (Inv_set_pc s _ j WAsleep WAwake); cbn; try done; try lia.
  - intros d. unfold locked. cbn. lia.
  - intros _. right. right. left. rewrite (count_insert _ _ _ _ _ Hj). cbn. lia.
  - rewrite !(fun f => count_insert f _ _ _ WAwake Hj). cbn [is_rasleep notifies_r Z.b2z]. by rewrite !Z.sub_0_r, !Z.add_0_r.
Qed.

Lemma Inv_wake_reader s j k : Inv s -> threads s !! j = Some (RAsleep k) -> Inv (set_pc s j (RAwake k)).
Proof.
  intros HI Hj. pose proof HI as [H1 H2 H3 H4 H5 [H6 H6'] H7 H8].
  apply (Inv_set_pc s _ j (RAsleep k) (RAwake k)); cbn; try done; try lia.
  - intros d. unfold locked. cbn. lia.
  - rewrite !(fun f => count_insert f _ _ _ (RAwake k) Hj). cbn [is_wasleep awake_w notifies_w Z.b2z].
    by rewrite !Z.sub_0_r, !Z.add_0_r.
  - rewrite !(fun f => count_insert f _ _ _ (RAwake k) Hj). cbn [is_rasleep notifies_r Z.b2z]. rewrite !Z.sub_0_r, !Z.add_0_r.
    intros Hs. apply H8. lia.
Qed.

(** After a notification either a writer is awake or none sleeps. *)
Lemma notify_writer_spec s j s1 : Inv s -> notify_writer s j = Some s1 ->
  Inv s1 /\ (0 < count awake_w (threads s1) \/ count is_wasleep (threads s1) = 0) /\
  forall i p, threads s !! i = Some p -> p <> WAsleep -> threads s1 !! i = Some p.
Proof.
  intros HI. unfold notify_writer. destruct (threads s !! j) as [pj|] eqn:Ej; [destruct pj|].
  3: { intros [= <-]. split; [by apply Inv_wake|]. split.
       - left. cbn. rewrite (count_insert _ _ _ _ _ Ej). pose proof (count_nonneg awake_w (threads s)). cbn. lia.
       - intros i p Hi Hp. cbn. rewrite list_lookup_insert_ne; [done|]. intros ->. congruence. }
  all: destruct (existsb is_wasleep (threads s)) eqn:Ee; [done|]; intros [= <-]; split; [done|]; split; [|done];
    right; by apply existsb_count.
Qed.
(** The notifier's own move, once it has notified. *)
Lemma Inv_notified s i p q : Inv s -> threads s !! i = Some p ->
  (p = WNotifyWriter /\ q = WNotifyReaders) \/ (p = RNotifyWriter /\ q = Idle) ->
  0 < count awake_w (threads s) \/ count is_wasleep (threads s) = 0 -> Inv (set_pc s i q).
Proof.
  intros HI Hi Hpq Hw. pose proof HI as [H1 H2 H3 H4 H5 [H6 H6'] H7 H8].
  assert (Hf : (forall f, f p = f q -> count f (<[i := q]> (threads s)) = count f (threads s))).
  { intros f Hf. rewrite (count_insert _ _ _ _ _ Hi), Hf. ring. }
  apply (Inv_set_pc s _ i p q); destruct Hpq as [[-> ->]|[-> ->]]; cbn; try done; try lia;
    try (intros d; unfold locked; cbn; lia).
  all: rewrite !Hf by done; try done.
  all: intros Hs; right; right; left; lia.
Qed.

Lemma Inv_notify_readers s i : Inv s -> threads s !! i = Some WNotifyReaders -> Inv (set_pc (notify_readers s) i Idle).
Proof.
  intros [H1 H2 H3 H4 H5 [H6 H6'] H7 H8] Hi.
  assert (Hi' : (wake_reader <$> threads s) !! i = Some WNotifyReaders) by (rewrite list_lookup_fmap, Hi; done).
  assert (Hsame : forall f, (forall k, f (RAwake k) = f (RAsleep k)) -> f WNotifyReaders = f Idle ->
    count f (<[i := Idle]> (wake_reader <$> threads s)) = count f (threads s)).
  { intros f Hk Hf. rewrite (count_insert _ _ _ _ _ Hi'), Hf, count_map by (intros []; done || apply Hk). ring. }
  split; cbn; rewrite ?Hsame by done; try done.
  - intros d. rewrite Hsame by done. apply H5.
  - rewrite (count_insert is_rasleep _ _ _ _ Hi'). cbn [is_rasleep Z.b2z]. rewrite Z.sub_0_r, Z.add_0_r. intros Hs. exfalso.
    destruct (count_pos is_rasleep _ Hs) as (j & p & Hj & Hp).
    rewrite list_lookup_fmap in Hj. destruct (threads s !! j) as [pj|]; [|done]. cbn in Hj. injection Hj as <-. by destruct pj.
Qed.

Lemma Inv_step s s' : Inv s -> step s s' -> Inv s'.
Proof.
  intros HI [i [[c Hs]|Hs]].
  2: { unfold spurious in Hs. destruct (threads s !! i) as [[]|] eqn:Ei; try done; injection Hs as <-;
       [by apply Inv_wake|by eapply Inv_wake_reader]. }
  unfold step_of in Hs. destruct (threads s !! i) as [p|] eqn:Ei; [|done].
  pose proof (inv_slots _ HI) as [_ Hsl].
  destruct p as [| | | | | |k|k|k|p|k|p| |].
  - destruct c; [injection Hs as <-..|done]; [eapply Inv_lock_look; eauto|eapply Inv_lock_shared_look; eauto].
  - injection Hs as <-. eapply Inv_lock_look; eauto.
  - done.
  - injection Hs as <-. by apply Inv_unlock.
  - destruct c as [| |j]; try done. destruct (notify_writer s j) as [s1|] eqn:En; [|done]. injection Hs as <-.
    destruct (notify_writer_spec s j s1 HI En) as (HI1 & Hw & Hk). eapply Inv_notified; eauto.
  - injection Hs as <-. by apply Inv_notify_readers.
  - injection Hs as <-. eapply Inv_lock_shared_look; eauto.
  - done.
  - destruct k as [p|].
    + destruct (locked s p) eqn:El; [done|]. injection Hs as <-.
      apply (Inv_neutral s _ i (RBus (Some p)) (RDrive p)); try done; cbn; try lia.
      intros d. change (locked (set_pc ?x i _) d) with (locked x d). rewrite locked_set.
      destruct (Nat.eqb_spec p d) as [->|]; cbn; [rewrite El; done|lia].
    + destruct (Z.ltb_spec 0 (slots s)); [|done]. injection Hs as <-.
      apply (Inv_neutral s _ i (RBus None) (RHeld SIo)); try done; cbn; try lia; intros d; unfold locked; cbn; lia.
  - destruct (Z.ltb_spec 0 (slots s)); [|done]. injection Hs as <-.
    apply (Inv_neutral s _ i (RDrive p) (RHeld (SDrive p))); try done; cbn; try lia; intros d; unfold locked; cbn; lia.
  - destruct k as [| |p]; injection Hs as <-.
    + eapply Inv_unlock_shared; eauto.
    + apply (Inv_neutral s _ i (RHeld SIo) ROutBus); try done; cbn; try lia; intros d; unfold locked; cbn; lia.
    + apply (Inv_neutral s _ i (RHeld (SDrive p)) (ROutDrive p)); try done; cbn; try lia; intros d; unfold locked; cbn; lia.
  - injection Hs as <-. apply (Inv_neutral s _ i (ROutDrive p) ROutBus); try done; cbn; try lia.
    intros d. change (locked (set_pc ?x i _) d) with (locked x d). rewrite locked_set.
    pose proof (inv_drives _ HI d) as Hd. destruct (Nat.eqb_spec p d) as [->|]; cbn; [|lia].
    pose proof (count_lookup (owns_drive d) _ _ _ Ei ltac:(cbn; apply Nat.eqb_refl)). destruct (locked s d); cbn in *; lia.
  - injection Hs as <-. eapply Inv_unlock_shared; eauto.
  - destruct c as [| |j]; try done. destruct (notify_writer s j) as [s1|] eqn:En; [|done]. injection Hs as <-.
    destruct (notify_writer_spec s j s1 HI En) as (HI1 & Hw & Hk). eapply Inv_notified; eauto.
Qed.
Lemma Inv_reachable n s : rtc step (initial n) s -> Inv s.
Proof. intros Hs. eapply rtc_invariant; [exact Inv_step|exact Hs|apply Inv_initial]. Qed.

(** ** What the locks promise *)

Lemma b2z_le_1 b : Z.b2z b <= 1.
Proof. by destruct b. Qed.

(** A step of one thread leaves every other where it is, or wakes it. *)
Lemma other_thread i j c s s' p p' : step_of j c s = Some s' -> i <> j -> threads s !! i = Some p ->
  threads s' !! i = Some p' -> shares_bus p' = shares_bus p.
Proof.
  intros Hs Hij Hi Hi'.
  assert (Hset : forall x q, threads (set_pc x j q) !! i = threads x !! i) by (intros; cbn; by rewrite list_lookup_insert_ne).
  assert (Hnot : forall k s1, notify_writer s k = Some s1 -> forall q, threads (set_pc s1 j q) !! i = Some p' ->
    shares_bus p' = shares_bus p).
  { intros k s1 Hn q. rewrite Hset. unfold notify_writer in Hn. destruct (threads s !! k) as [pk|] eqn:Ek; [destruct pk|].
    3: { injection Hn as <-. cbn. destruct (decide (k = i)) as [->|Hne].
         - rewrite list_lookup_insert_eq by (by eapply lookup_lt_Some). intros [= <-]. rewrite Hi in Ek. by injection Ek as ->.
         - rewrite list_lookup_insert_ne by done. congruence. }
    all: destruct (existsb _ _); [done|]; injection Hn as <-; congruence. }
  unfold step_of in Hs. destruct (threads s !! j) as [pj|] eqn:Ej; [|done].
  destruct pj as [| | | | | |k|k|[q|]|q|[| |q]|q| |], c; try done;
    unfold lock_look, lock_shared_look, unlock, unlock_shared in Hs; repeat case_match; simplify_eq;
    try (destruct (notify_writer s _) eqn:En; [|done]; cbn in Hs; injection Hs as <-; by eapply Hnot);
    try (rewrite Hset in Hi'; cbn in Hi'; congruence).
  all: rewrite Hset in Hi'; cbn in Hi'; rewrite list_lookup_fmap, Hi in Hi'; cbn in Hi'; injection Hi' as <-; by destruct p.
Qed.

(** A thread that comes to share the bus has just passed the wait of [lock_shared]. *)
Lemma step_newcomer s s' i p p' : step s s' -> threads s !! i = Some p -> threads s' !! i = Some p' ->
  shares_bus p = false -> shares_bus p' = true -> reader_may_enter s = true.
Proof.
  intros [j [[c Hs]|Hs]] Hi Hi' Hp Hp'.
  - destruct (decide (i = j)) as [<-|Hne]; [|by rewrite (other_thread i j c s s' p p') in Hp' by done; congruence].
    unfold step_of in Hs. rewrite Hi in Hs. pose proof (lookup_lt_Some _ _ _ Hi) as Hlt.
    destruct p as [| | | | | |k|k|[q|]|q|[| |q]|q| |], c; try done;
      unfold lock_look, lock_shared_look, unlock, unlock_shared in Hs; destruct (reader_may_enter s); try done;
      repeat case_match; simplify_eq; cbn in Hi'; rewrite ?list_lookup_insert_eq in Hi' by (rewrite ?length_fmap; done);
      simplify_eq; try done.
    all: destruct (notify_writer s j) as [s1|] eqn:En; [|done]; cbn in Hs; injection Hs as <-; cbn in Hi';
      apply list_lookup_insert_Some in Hi'; destruct Hi' as [(_ & <- & _)|(? & _)]; done.
  - unfold spurious in Hs. destruct (threads s !! j) as [pj|] eqn:Ej; [|done].
    destruct pj; try done; injection Hs as <-; cbn in Hi'; apply list_lookup_insert_Some in Hi';
      destruct Hi' as [(-> & <- & _)|(_ & Hi')]; try done; congruence.
Qed.

(** C14: whatever the interleaving of any number of threads, a thread that holds the bus exclusively
    is alone: no other holds it in any way; two threads never hold the same drive; at most eight
    frames are on the wire; and while a writer waits no further thread gets the bus shared. *)
Theorem locks_exclude n s : rtc step (initial n) s ->
  (forall i j p, threads s !! i = Some WHeld -> threads s !! j = Some p -> i <> j -> shares_bus p = false /\ writes p = false) /\
  (forall d i j p q, threads s !! i = Some p -> threads s !! j = Some q -> i <> j ->
     owns_drive d p = true -> owns_drive d q = false) /\
  count owns_slot (threads s) <= kFrameSlots /\
  (forall s' i p p', step s s' -> 0 < count waits_write (threads s) -> threads s !! i = Some p -> threads s' !! i = Some p' ->
     shares_bus p = false -> shares_bus p' = false).
Proof.
  intros Hr. apply Inv_reachable in Hr as HI. pose proof HI as [H1 H2 H3 H4 H5 [H6 H6'] _ _]. split_and!.
  - intros i j p Hi Hj Hij. pose proof (count_lookup writes _ _ _ Hi eq_refl) as Hw.
    assert (Ew : writer s = true) by (destruct (writer s); [done|]; cbn in H3; lia). specialize (H4 Ew). split.
    + destruct (shares_bus p) eqn:Ep; [|done]. pose proof (count_lookup shares_bus _ _ _ Hj Ep). lia.
    + destruct (writes p) eqn:Ep; [|done]. pose proof (count_two writes _ _ _ _ _ Hi Hj Hij eq_refl Ep).
      pose proof (b2z_le_1 (writer s)). lia.
  - intros d i j p q Hi Hj Hij Hp. destruct (owns_drive d q) eqn:Eq; [|done].
    pose proof (count_two (owns_drive d) _ _ _ _ _ Hi Hj Hij Hp Eq). pose proof (b2z_le_1 (locked s d)).
    rewrite <- H5 in *. lia.
  - lia.
  - intros s' i p p' Hstep Hwait Hi Hi' Hp. destruct (shares_bus p') eqn:Ep'; [|done]. exfalso.
    assert (Hno : reader_may_enter s = false)
      by (unfold reader_may_enter; rewrite (proj2 (Z.eqb_neq _ _)), andb_false_r by lia; done).
    rewrite (step_newcomer s s' i p p' Hstep Hi Hi' Hp Ep') in Hno. done.
Qed.
(** *** No deadlock, no lost notification *)
Definition can_move (s : state) : Prop :=
  exists i p c s', threads s !! i = Some p /\ p <> Idle /\ step_of i c s = Some s'.

Definition free_running (p : pc) : bool :=
  match p with WAwake | WHeld | WNotifyReaders | RAwake _ | RHeld _ | ROutDrive _ | ROutBus => true | _ => false end.

Lemma free_running_moves s i p : threads s !! i = Some p -> free_running p = true -> can_move s.
Proof.
  intros Hi Hp. exists i, p, CLockBus. unfold step_of. rewrite Hi. destruct p as [| | | | | |k|k|k|q|[]|q| |]; try done; eauto.
Qed.

Lemma notifier_moves s i p : threads s !! i = Some p -> notifies_w p = true -> can_move s.
Proof.
  intros Hi Hp. assert (Hn : exists j s1, notify_writer s j = Some s1).
  { destruct (existsb is_wasleep (threads s)) eqn:Ee.
    - apply existsb_exists in Ee as (q & Hq & Hw). apply list_elem_of_In, list_elem_of_lookup_1 in Hq as [j Hj].
      exists j. unfold notify_writer. rewrite Hj. destruct q; try done. eauto.
    - exists i. unfold notify_writer. rewrite Hi, Ee. destruct p; eauto. }
  destruct Hn as (j & s1 & Hn). exists i, p, (CWake j). unfold step_of. rewrite Hi. destruct p; try done; rewrite Hn; cbn; eauto.
Qed.

Lemma slot_waiter_moves s i p : Inv s -> threads s !! i = Some p -> p = RBus None \/ (exists q, p = RDrive q) -> can_move s.
Proof.
  intros HI Hi Hp. destruct (Z.ltb_spec 0 (slots s)) as [Hs|Hs].
  - exists i, p, CLockBus. unfold step_of. rewrite Hi. destruct Hp as [-> |[q ->]]; rewrite (proj2 (Z.ltb_lt _ _) Hs); eauto.
  - destruct (inv_slots _ HI) as [H6 _]. unfold kFrameSlots in H6.
    destruct (count_pos owns_slot (threads s) ltac:(lia)) as (j & q & Hj & Hq).
    eapply (free_running_moves s j q); [done|]. by destruct q as [| | | | | | | | | |[]| | |].
Qed.

(** Whoever has the bus shared can move, or waits for someone who can. *)
Lemma sharer_moves s i p : Inv s -> threads s !! i = Some p -> shares_bus p = true -> can_move s.
Proof.
  intros HI Hi Hp. destruct p as [| | | | | |k|k|[d|]|d|k|d| |]; try done.
  - destruct (locked s d) eqn:El.
    + pose proof (inv_drives _ HI d) as Hd. rewrite El in Hd. cbn in Hd.
      destruct (count_pos (owns_drive d) (threads s) ltac:(lia)) as (j & q & Hj & Hq).
      destruct q as [| | | | | | | | |e|[]|e| |]; try done; [eapply slot_waiter_moves; eauto|..]; by eapply free_running_moves.
    + exists i, (RBus (Some d)), CLockBus. unfold step_of. rewrite Hi, El. eauto.
  - eapply slot_waiter_moves; eauto.
  - eapply slot_waiter_moves; eauto.
  - by eapply free_running_moves.
  - by eapply free_running_moves.
  - by eapply free_running_moves.
Qed.

Lemma writer_moves s : Inv s -> writer s = true -> can_move s.
Proof.
  intros HI Hw. pose proof (inv_writer _ HI) as H3. rewrite Hw in H3. cbn in H3.
  destruct (count_pos writes (threads s) ltac:(lia)) as (j & q & Hj & Hq). eapply (free_running_moves s j q); [done|].
  by destruct q.
Qed.

Lemma sleeping_writer_moves s i : Inv s -> threads s !! i = Some WAsleep -> can_move s.
Proof.
  intros HI Hi. pose proof (count_lookup is_wasleep _ _ _ Hi eq_refl) as Hc.
  destruct (inv_wsleep _ HI ltac:(lia)) as [Hw|[Hr|[Ha|Hn]]].
  - by apply writer_moves.
  - rewrite (inv_readers _ HI) in Hr. apply count_pos in Hr as (j & q & Hj & Hq). by eapply sharer_moves.
  - apply count_pos in Ha as (j & q & Hj & Hq). eapply (free_running_moves s j q); [done|]. by destruct q.
  - apply count_pos in Hn as (j & q & Hj & Hq). by eapply notifier_moves.
Qed.

(** C15: the locks never deadlock and lose no notification: as long as some thread is inside one of
    the operations, some thread inside can move, where holding a lock counts as being able to
    release it and a spurious wake-up does not count. *)
Theorem locks_progress n s i p : rtc step (initial n) s -> threads s !! i = Some p -> p <> Idle -> can_move s.
Proof.
  intros Hr%Inv_reachable Hi Hp. destruct p as [| | | | | |k|k|d|d|k|d| |]; try done;
    try (by eapply free_running_moves); try (by eapply sharer_moves); try (by eapply notifier_moves).
  - by eapply sleeping_writer_moves.
  - pose proof (count_lookup is_rasleep _ _ _ Hi eq_refl) as Hc.
    destruct (inv_rsleep _ Hr ltac:(lia)) as [Hw|[Hw|Hn]].
    + by apply writer_moves.
    + rewrite (inv_waiting _ Hr) in Hw. apply count_pos in Hw as (j & q & Hj & Hq). destruct q; try done.
      * by eapply free_running_moves.
      * by eapply sleeping_writer_moves.
    + apply count_pos in Hn as (j & q & Hj & Hq). destruct q; try done; [by eapply notifier_moves|by eapply free_running_moves].
Qed.

(** *** A writer waits behind a reader, and a second reader behind the writer *)
Definition moves : list (nat * choice) := [(0%nat, CShare (SDrive 4)); (0%nat, CLockBus); (1%nat, CLockBus); (2%nat, CShare SIo)].
Definition run (ms : list (nat * choice)) (s : state) : option state :=
  foldl (fun o m => s ← o; step_of m.1 m.2 s) (Some s) ms.
Definition w_state : state := default (initial 3) (run moves (initial 3)).

Lemma locks_run_rtc ms s s' : run ms s = Some s' -> rtc step s s'.
Proof.
  unfold run. revert s. induction ms as [|m ms IH]; intros s; cbn; [intros [= ->]; apply rtc_refl|].
  destruct (step_of m.1 m.2 s) as [s1|] eqn:Es.
  - intros Hr. eapply rtc_l; [|by apply IH]. exists m.1. left. by exists m.2.
  - clear. induction ms; done.
Qed.

Lemma w_state_reachable : rtc step (initial 3) w_state.
Proof. apply (locks_run_rtc moves). vm_compute. reflexivity. Qed.

Lemma locks_exclude_witness : threads w_state = [RDrive 4; WAsleep; RAsleep SIo] /\ count owns_slot (threads w_state) <= kFrameSlots.
Proof. split; [vm_compute; reflexivity|]. apply (locks_exclude 3 w_state w_state_reachable). Defined.

Lemma locks_progress_witness : can_move w_state.
Proof. apply (locks_progress 3 w_state 1 WAsleep w_state_reachable); [vm_compute; reflexivity|discriminate]. Defined.
End Locks.
