(* ===== verification/Capture.v ===== *)
(** * Captures of the bus ([libs/capture])

    The pcap file format (written and parsed), the EtherCAT frame parser, and the summary that
    matches returns to sends. Reading and writing the file itself is left to [fwrite], a parameter. *)

From S2P Require Import Prelude.

Module Capture.

(** ** pcap ([pcap.{h,cc}]) *)
Definition kMagicMicroseconds : Z := 0xA1B2C3D4.
Definition kMagicNanoseconds : Z := 0xA1B23C4D.
Definition kLinkTypeEthernet : Z := 1.
Definition kSnapLength : Z := 65535.
Definition kFileHeaderBytes : nat := 24.
Definition kRecordHeaderBytes : nat := 16.

Definition putU32 (v : Z) : bytes :=
  [u8 v; u8 (Z.shiftr v 8); u8 (Z.shiftr v 16); u8 (Z.shiftr v 24)].
Definition putU16 (v : Z) : bytes := [u8 v; u8 (Z.shiftr v 8)].

Definition getU32 (l : bytes) (at_ : nat) (swap : bool) : Z :=
  let v := Z.lor (Z.lor (Z.lor (byte_at l at_) (Z.shiftl (byte_at l (at_ + 1)) 8)) (Z.shiftl (byte_at l (at_ + 2)) 16))
                 (Z.shiftl (byte_at l (at_ + 3)) 24) in
  if negb swap then v
  else Z.lor (Z.lor (Z.lor (u32 (Z.shiftl (Z.land v 0x000000FF) 24)) (u32 (Z.shiftl (Z.land v 0x0000FF00) 8)))
               (Z.shiftr (Z.land v 0x00FF0000) 8)) (Z.shiftr (Z.land v 0xFF000000) 24).

Record Record_ := mk_record { timestampNs : Z; r_bytes : bytes }.

Definition file_header : bytes :=
  putU32 kMagicNanoseconds ++ putU16 2 ++ putU16 4 ++ putU32 0 ++ putU32 0 ++ putU32 kSnapLength ++ putU32 kLinkTypeEthernet.

Definition record_header (ts : Z) (size : nat) : bytes :=
  putU32 (u32 (Z.quot ts 1000000000)) ++ putU32 (u32 (Z.rem ts 1000000000)) ++
  putU32 (u32 (Z.of_nat size)) ++ putU32 (u32 (Z.of_nat size)).

Inductive PcapError := CannotCreate | CannotWriteHeader | NotOpen | CannotWrite | ShortHeader | NotPcap | NotEthernet.

Section Writer.
(** The contents of a file after an [fwrite] of the bytes, and how many were written. *)
Context (fwrite : bytes -> bytes -> bytes * nat).

(** An open [PcapWriter] is the contents of its file. *)
Definition open (created : bool) : option bytes * expected PcapError unit :=
  if negb created then (None, Unexpected CannotCreate)
  else let '(file, n) := fwrite [] file_header in
       if negb (n =? length file_header)%nat then (None, Unexpected CannotWriteHeader) else (Some file, Value tt).

Definition write (w : option bytes) (ts : Z) (l : bytes) : option bytes * expected PcapError unit :=
  match w with
  | None => (None, Unexpected NotOpen)
  | Some file =>
      let '(file1, n1) := fwrite file (record_header ts (length l)) in
      if negb (n1 =? kRecordHeaderBytes)%nat then (Some file1, Unexpected CannotWrite)
      else let '(file2, n2) := fwrite file1 l in
           if negb (n2 =? length l)%nat then (Some file2, Unexpected CannotWrite) else (Some file2, Value tt)
  end.
End Writer.

(** The record loop; [fuel] is the number of bytes, and each turn consumes at least sixteen. *)
Fixpoint parse_records (fuel : nat) (l : bytes) (swap nanoseconds : bool) (at_ : nat) : list Record_ :=
  match fuel with
  | O => []
  | S fuel =>
      if (at_ + kRecordHeaderBytes <=? length l)%nat then
        let seconds := getU32 l at_ swap in
        let fraction := getU32 l (at_ + 4) swap in
        let captured := Z.to_nat (getU32 l (at_ + 8) swap) in
        let at1 := (at_ + kRecordHeaderBytes)%nat in
        if (length l <? at1 + captured)%nat then []
        else mk_record (seconds * 1000000000 + (if nanoseconds then fraction else fraction * 1000)) (slice at1 captured l)
             :: parse_records fuel l swap nanoseconds (at1 + captured)
      else []
  end.

Definition parsePcap (l : bytes) : expected PcapError (list Record_) :=
  if (length l <? kFileHeaderBytes)%nat then Unexpected ShortHeader
  else
    let magicAsIs := getU32 l 0 false in
    let magicSwapped := getU32 l 0 true in
    let known m := (m =? kMagicMicroseconds) || (m =? kMagicNanoseconds) in
    if negb (known magicAsIs) && negb (known magicSwapped) then Unexpected NotPcap
    else
      let swap := negb (known magicAsIs) in
      let nanoseconds := if known magicAsIs then magicAsIs =? kMagicNanoseconds else magicSwapped =? kMagicNanoseconds in
      if negb (getU32 l 20 swap =? kLinkTypeEthernet) then Unexpected NotEthernet
      else Value (parse_records (length l) l swap nanoseconds kFileHeaderBytes).

(** ** EtherCAT frames ([ethercat_frame.{h,cc}]) *)
Definition kEtherCatEtherType : Z := 0x88A4.
Definition kEthernetHeaderBytes : nat := 14.
Definition kEtherCatHeaderBytes : nat := 2.
Definition kDatagramHeaderBytes : nat := 10.
Definition kWorkingCounterBytes : nat := 2.
Definition kSourceMacLocalBit : Z := 2.

Definition readU16 (l : bytes) (at_ : nat) : Z := u16 (Z.lor (byte_at l at_) (Z.shiftl (byte_at l (at_ + 1)) 8)).

Definition isLogicalCommand (command : Z) : bool := (10 <=? command) && (command <=? 12).

Definition isPositionCountedUp (command : Z) : bool :=
  existsb (Z.eqb command) [1; 2; 3; 7; 8; 9; 13].

Record Datagram := mk_datagram {
  command : Z; index : Z; adp : Z; ado : Z; d_length : Z; more : bool; wkc : Z }.

Record EtherCatFrame := mk_ecat { fromMaster : bool; datagrams : list Datagram }.

Definition read_datagram (l : bytes) (at_ : nat) : Datagram :=
  let lengthField := readU16 l (at_ + 6) in
  let n := Z.land lengthField 0x07FF in
  mk_datagram (byte_at l at_) (byte_at l (at_ + 1)) (readU16 l (at_ + 2)) (readU16 l (at_ + 4)) n
    (negb (Z.land lengthField 0x8000 =? 0)) (readU16 l (at_ + kDatagramHeaderBytes + Z.to_nat n)).

(** The datagram loop; each turn consumes at least twelve bytes. *)
Fixpoint parse_datagrams (fuel : nat) (l : bytes) (at_ end_ : nat) : option (list Datagram) :=
  match fuel with
  | O => None
  | S fuel =>
      if (end_ <? at_ + kDatagramHeaderBytes)%nat then None
      else
        let d := read_datagram l at_ in
        let at1 := (at_ + kDatagramHeaderBytes + Z.to_nat (d_length d))%nat in
        if (end_ <? at1 + kWorkingCounterBytes)%nat then None
        else if more d then ds ← parse_datagrams fuel l (at1 + kWorkingCounterBytes) end_; Some (d :: ds)
             else Some [d]
  end.

Definition parseEtherCatFrame (l : bytes) : option EtherCatFrame :=
  if (length l <? kEthernetHeaderBytes + kEtherCatHeaderBytes)%nat then None
  else
    let etherType := u16 (Z.lor (Z.shiftl (byte_at l 12) 8) (byte_at l 13)) in
    if negb (etherType =? kEtherCatEtherType) then None
    else
      let header := readU16 l kEthernetHeaderBytes in
      let length_ := Z.to_nat (Z.land header 0x07FF) in
      let type := Z.shiftr header 12 in
      if negb (type =? 1) then None
      else
        let at_ := (kEthernetHeaderBytes + kEtherCatHeaderBytes)%nat in
        let end_ := (at_ + length_)%nat in
        if (length l <? end_)%nat then None
        else ds ← parse_datagrams (S (length l)) l at_ end_;
             Some (mk_ecat (Z.land (byte_at l 6) kSourceMacLocalBit =? 0) ds).

(** ** The summary ([summary.{h,cc}]) *)
Record KindSummary := mk_kind {
  sent : Z; resent : Z; returned : Z; lost : Z; over2Ms : Z; over20Ms : Z; over100Ms : Z; latestUs : Z }.

Record Summary := mk_summary {
  frames : Z; notEtherCat : Z; unmatchedReturns : Z; firstNs : Z; lastNs : Z; control : KindSummary; cyclic : KindSummary }.

Definition MatchKey : Type := Z * Z * Z * Z * Z.
Definition key_command (k : MatchKey) : Z := let '(_, c, _, _, _) := k in c.

Definition keyOf (d : Datagram) : MatchKey :=
  (index d, command d, if isPositionCountedUp (command d) then 0 else adp d, ado d, d_length d).

Definition kResendWindowNs : Z := 500000000.

Definition record (k : KindSummary) (lateNs : Z) : KindSummary :=
  let lateUs := Z.quot lateNs 1000 in
  mk_kind (sent k) (resent k) (u32 (returned k + 1)) (lost k)
    (if 2000 <? lateUs then u32 (over2Ms k + 1) else over2Ms k)
    (if 20000 <? lateUs then u32 (over20Ms k + 1) else over20Ms k)
    (if 100000 <? lateUs then u32 (over100Ms k + 1) else over100Ms k)
    (if latestUs k <? lateUs then lateUs else latestUs k).

Definition add_sent (k : KindSummary) : KindSummary :=
  mk_kind (u32 (sent k + 1)) (resent k) (returned k) (lost k) (over2Ms k) (over20Ms k) (over100Ms k) (latestUs k).
Definition add_resent (k : KindSummary) : KindSummary :=
  mk_kind (sent k) (u32 (resent k + 1)) (returned k) (lost k) (over2Ms k) (over20Ms k) (over100Ms k) (latestUs k).
Definition add_lost (k : KindSummary) (n : nat) : KindSummary :=
  mk_kind (sent k) (resent k) (returned k) (u32 (lost k + u32 (Z.of_nat n))) (over2Ms k) (over20Ms k) (over100Ms k) (latestUs k).

(** [kind] is a reference to one of the two. *)
Definition with_kind (s : Summary) (logical : bool) (f : KindSummary -> KindSummary) : Summary :=
  mk_summary (frames s) (notEtherCat s) (unmatchedReturns s) (firstNs s) (lastNs s)
    (if logical then control s else f (control s)) (if logical then f (cyclic s) else cyclic s).

Definition count_frame (s : Summary) (ts : Z) : Summary :=
  let n := u64 (frames s + 1) in
  mk_summary n (notEtherCat s) (unmatchedReturns s) (if n =? 1 then ts else firstNs s) ts (control s) (cyclic s).

Abbreviation Pending := (gmap MatchKey (list Z)).

Definition summarise_one (w : Summary * Pending) (r : Record_) : Summary * Pending :=
  let '(s0, pending) := w in
  let s := count_frame s0 (timestampNs r) in
  match parseEtherCatFrame (r_bytes r) with
  | None | Some (mk_ecat _ []) =>
      (mk_summary (frames s) (u64 (notEtherCat s + 1)) (unmatchedReturns s) (firstNs s) (lastNs s) (control s) (cyclic s), pending)
  | Some (mk_ecat master (first :: _)) =>
      let logical := isLogicalCommand (command first) in
      let key := keyOf first in
      let sends := default [] (pending !! key) in
      if master then
        match last sends with
        | Some back =>
            if timestampNs r - back <? kResendWindowNs then (with_kind s logical add_resent, <[key := sends]> pending)
            else (with_kind s logical add_sent, <[key := sends ++ [timestampNs r]]> pending)
        | None => (with_kind s logical add_sent, <[key := sends ++ [timestampNs r]]> pending)
        end
      else
        match sends with
        | [] =>
            (mk_summary (frames s) (notEtherCat s) (u64 (unmatchedReturns s + 1)) (firstNs s) (lastNs s) (control s) (cyclic s),
             <[key := sends]> pending)
        | front :: rest =>
            (with_kind s logical (fun k => record k (timestampNs r - front)), <[key := rest]> pending)
        end
  end.

Definition no_kind : KindSummary := mk_kind 0 0 0 0 0 0 0 0.
Definition no_summary : Summary := mk_summary 0 0 0 0 0 no_kind no_kind.

Definition count_lost (pending : Pending) (s : Summary) : Summary :=
  map_fold (fun key sends s => with_kind s (isLogicalCommand (key_command key)) (fun k => add_lost k (length sends))) s pending.

Definition summarise (records : list Record_) : Summary :=
  let '(s, pending) := foldl summarise_one (no_summary, ∅) records in count_lost pending s.
(** ** Words *)
Lemma u8_id b : in_u 8 b -> u8 b = b.
Proof. apply uwrap_id. Qed.

Lemma putU32_le v : putU32 v = le_bytes 4 v.
Proof.
  unfold putU32. cbn [le_bytes]. rewrite <- !(Z.shiftr_div_pow2 _ 8) by lia. rewrite !Z.shiftr_shiftr by lia. done.
Qed.

Lemma getU32_sum l at_ b0 b1 b2 b3 : byte_at l at_ = b0 -> byte_at l (at_ + 1) = b1 -> byte_at l (at_ + 2) = b2 ->
  byte_at l (at_ + 3) = b3 -> in_u 8 b0 -> in_u 8 b1 -> in_u 8 b2 -> in_u 8 b3 ->
  getU32 l at_ false = le_value [b0; b1; b2; b3].
Proof.
  intros E0 E1 E2 E3 H0 H1 H2 H3. unfold getU32, in_u in *. rewrite E0, E1, E2, E3. cbn [negb le_value].
  rewrite (lor_shiftl_add b0 b1 8), (lor_shiftl_add _ b2 16), (lor_shiftl_add _ b3 24); unfold in_u; lia.
Qed.

(** A mask over bits [n] and up, seen at bit 0. *)
Lemma land_shiftl_mask v m n : 0 <= n -> Z.land v (Z.shiftl m n) = Z.shiftl (Z.land (Z.shiftr v n) m) n.
Proof.
  intros Hn. apply Z.bits_inj'. intros k Hk. rewrite Z.land_spec, !Z.shiftl_spec by done.
  destruct (Z.lt_ge_cases k n).
  - rewrite !(Z.testbit_neg_r _ (k - n)) by lia. apply andb_false_r.
  - rewrite Z.land_spec, Z.shiftr_spec by lia. do 2 f_equal. lia.
Qed.

Lemma land_byte v n : 0 <= n -> Z.land v (Z.shiftl 0xFF n) = Z.shiftl ((v / 2 ^ n) mod 256) n.
Proof.
  intros Hn. rewrite land_shiftl_mask by done. change 0xFF with (Z.ones 8). rewrite Z.land_ones, Z.shiftr_div_pow2 by lia. done.
Qed.

Lemma getU32_swap l at_ b0 b1 b2 b3 : byte_at l at_ = b0 -> byte_at l (at_ + 1) = b1 -> byte_at l (at_ + 2) = b2 ->
  byte_at l (at_ + 3) = b3 -> in_u 8 b0 -> in_u 8 b1 -> in_u 8 b2 -> in_u 8 b3 ->
  getU32 l at_ true = le_value [b3; b2; b1; b0].
Proof.
  intros E0 E1 E2 E3 H0 H1 H2 H3. pose proof (getU32_sum l at_ b0 b1 b2 b3 E0 E1 E2 E3 H0 H1 H2 H3) as Hv.
  unfold getU32 in *. cbn [negb] in *. rewrite Hv. clear Hv E0 E1 E2 E3. unfold in_u in *. change (2 ^ 8) with 256 in *.
  set (v := le_value [b0; b1; b2; b3]). assert (Ev : v = b0 + 256 * (b1 + 256 * (b2 + 256 * b3))) by (unfold v; cbn [le_value]; lia).
  change 0x000000FF with (Z.shiftl 0xFF 0). change 0x0000FF00 with (Z.shiftl 0xFF 8). change 0x00FF0000 with (Z.shiftl 0xFF 16).
  change 0xFF000000 with (Z.shiftl 0xFF 24). rewrite !land_byte by lia.
  assert (D0 : (v / 2 ^ 0) mod 256 = b0) by (change (2 ^ 0) with 1; rewrite Z.div_1_r; symmetry; apply (Z.mod_unique v 256 (b1 + 256 * (b2 + 256 * b3))); lia).
  assert (Q1 : v / 2 ^ 8 = b1 + 256 * (b2 + 256 * b3)) by (symmetry; apply (Z.div_unique v 256 _ b0); lia).
  assert (Q2 : v / 2 ^ 16 = b2 + 256 * b3) by (symmetry; apply (Z.div_unique v (2 ^ 16) _ (b0 + 256 * b1)); change (2 ^ 16) with 65536; lia).
  assert (Q3 : v / 2 ^ 24 = b3) by (symmetry; apply (Z.div_unique v (2 ^ 24) _ (b0 + 256 * b1 + 65536 * b2)); change (2 ^ 24) with 16777216; lia).
  rewrite D0, Q1, Q2, Q3.
  assert (D1 : (b1 + 256 * (b2 + 256 * b3)) mod 256 = b1) by (symmetry; apply (Z.mod_unique _ 256 (b2 + 256 * b3)); lia).
  assert (D2 : (b2 + 256 * b3) mod 256 = b2) by (symmetry; apply (Z.mod_unique _ 256 b3); lia).
  rewrite D1, D2, (Z.mod_small b3) by lia. clear D0 D1 D2 Q1 Q2 Q3 Ev. clearbody v.
  rewrite !Z.shiftl_mul_pow2, !Z.shiftr_div_pow2 by lia.
  replace (b2 * 2 ^ 16 / 2 ^ 8) with (b2 * 2 ^ 8) by (change (2 ^ 16) with (2 ^ 8 * 2 ^ 8); rewrite Z.mul_assoc, Z.div_mul; done).
  replace (b3 * 2 ^ 24 / 2 ^ 24) with b3 by (by rewrite Z.div_mul).
  replace (b0 * 2 ^ 0 * 2 ^ 24) with (b0 * 2 ^ 24) by lia. replace (b1 * 2 ^ 8 * 2 ^ 8) with (b1 * 2 ^ 16) by lia.
  unfold u32. rewrite !uwrap_id by (unfold in_u; lia). rewrite <- !Z.shiftl_mul_pow2 by lia.
  replace (Z.lor (Z.lor (Z.lor (Z.shiftl b0 24) (Z.shiftl b1 16)) (Z.shiftl b2 8)) b3)
    with (Z.lor (Z.lor (Z.lor b3 (Z.shiftl b2 8)) (Z.shiftl b1 16)) (Z.shiftl b0 24)).
  2: { apply Z.bits_inj'. intros k _. rewrite !Z.lor_spec.
       repeat match goal with |- context [Z.testbit ?x ?i] => generalize (Z.testbit x i) end. by intros [] [] [] []. }
  rewrite (lor_shiftl_add b3 b2 8), (lor_shiftl_add _ b1 16), (lor_shiftl_add _ b0 24); unfold in_u; cbn [le_value]; lia.
Qed.

(** ** pcap: what a writer of either byte order and resolution puts in a file *)
Definition put (swap : bool) (v : Z) : bytes := if swap then rev (putU32 v) else putU32 v.

Lemma get_put l at_ swap v pre post : in_u 32 v -> l = pre ++ put swap v ++ post -> length pre = at_ -> getU32 l at_ swap = v.
Proof.
  intros Hv -> <-. rewrite <- (uwrap_id 32 v Hv) at 2. change 32 with (8 * Z.of_nat 4). rewrite <- le_value_bytes, <- putU32_le.
  assert (Hb : forall k, (k < 4)%nat -> byte_at (pre ++ put swap v ++ post) (length pre + k) = byte_at (put swap v) k).
  { intros k Hk. unfold byte_at. rewrite lookup_app_r, Nat.add_comm, Nat.add_sub by lia. rewrite lookup_app_l; [done|].
    unfold put. destruct swap; cbn; lia. }
  pose proof (Hb 0%nat ltac:(lia)) as E0. rewrite Nat.add_0_r in E0.
  destruct swap; unfold putU32; [eapply getU32_swap|eapply getU32_sum]; try (rewrite ?Hb, ?E0 by lia; reflexivity);
    apply uwrap_range; lia.
Qed.

Definition fraction (ns : bool) (r : Record_) : Z :=
  if ns then timestampNs r mod 1000000000 else timestampNs r mod 1000000000 / 1000.

Definition encode_fields (swap ns : bool) (r : Record_) : bytes :=
  put swap (timestampNs r / 1000000000) ++ put swap (fraction ns r) ++
  put swap (Z.of_nat (length (r_bytes r))) ++ put swap (Z.of_nat (length (r_bytes r))).

Definition encode_record (swap ns : bool) (r : Record_) : bytes := encode_fields swap ns r ++ r_bytes r.

Definition encode_header (swap ns : bool) (rest : bytes) : bytes :=
  put swap (if ns then kMagicNanoseconds else kMagicMicroseconds) ++ rest ++ put swap kLinkTypeEthernet.

(** A record whose time the format can hold; microseconds have no room for the rest. *)
Definition record_ok (ns : bool) (r : Record_) : Prop :=
  0 <= timestampNs r < 2 ^ 32 * 1000000000 /\ Z.of_nat (length (r_bytes r)) < 2 ^ 32 /\
  (ns = false -> timestampNs r mod 1000 = 0).

(** The records that lie whole in the first [k] bytes. *)
Fixpoint whole (swap ns : bool) (k : nat) (rs : list Record_) : list Record_ :=
  match rs with
  | [] => []
  | r :: rs =>
      let n := length (encode_record swap ns r) in
      if (n <=? k)%nat then r :: whole swap ns (k - n) rs else []
  end.

Lemma length_put swap v : length (put swap v) = 4%nat.
Proof. by destruct swap. Qed.

Lemma length_encode_record swap ns r : length (encode_record swap ns r) = (16 + length (r_bytes r))%nat.
Proof. unfold encode_record, encode_fields. rewrite !length_app, !length_put. lia. Qed.

Lemma record_time ns r : record_ok ns r ->
  timestampNs r / 1000000000 * 1000000000 + (if ns then fraction ns r else fraction ns r * 1000) = timestampNs r.
Proof.
  unfold fraction. intros (Ht & _ & Hus). pose proof (Z.div_mod (timestampNs r) 1000000000 ltac:(lia)) as Hd. destruct ns; [lia|].
  specialize (Hus eq_refl). set (x := timestampNs r) in *.
  assert (Hx : x mod 1000000000 mod 1000 = 0).
  { rewrite Z.mod_divide in Hus |- * by lia. destruct Hus as [q Hq]. exists (q - x / 1000000000 * 1000000). lia. }
  pose proof (Z.div_mod (x mod 1000000000) 1000 ltac:(lia)). lia.
Qed.
Lemma read_fields swap ns r l pre post : record_ok ns r -> l = pre ++ encode_fields swap ns r ++ post ->
  getU32 l (length pre) swap = timestampNs r / 1000000000 /\ getU32 l (length pre + 4) swap = fraction ns r /\
  getU32 l (length pre + 8) swap = Z.of_nat (length (r_bytes r)).
Proof.
  intros (Ht & Hl & _) ->. change (2 ^ 32) with 4294967296 in *. unfold encode_fields, fraction.
  pose proof (Z.mod_pos_bound (timestampNs r) 1000000000 ltac:(lia)).
  pose proof (Z.div_pos (timestampNs r) 1000000000 ltac:(lia) ltac:(lia)).
  pose proof (Z.div_lt_upper_bound (timestampNs r) 1000000000 4294967296 ltac:(lia) ltac:(lia)).
  pose proof (Z.div_le_upper_bound (timestampNs r mod 1000000000) 1000 1000000000 ltac:(lia) ltac:(lia)).
  pose proof (Z.div_pos (timestampNs r mod 1000000000) 1000 ltac:(lia) ltac:(lia)).
  split_and!.
  - eapply get_put with (pre := pre); [unfold in_u; lia|by rewrite <- !app_assoc|done].
  - eapply get_put with (pre := pre ++ put swap _); [destruct ns; unfold in_u; lia|by rewrite <- !app_assoc|].
    by rewrite length_app, length_put.
  - eapply get_put with (pre := pre ++ put swap _ ++ put swap _); [unfold in_u; lia|by rewrite <- !app_assoc|].
    rewrite !length_app, !length_put. lia.
Qed.

Lemma length_encode_fields swap ns r : length (encode_fields swap ns r) = 16%nat.
Proof. unfold encode_fields. by rewrite !length_app, !length_put. Qed.

Lemma parse_record_whole swap ns r fuel pre tl : record_ok ns r ->
  parse_records (S fuel) (pre ++ encode_record swap ns r ++ tl) swap ns (length pre) =
  r :: parse_records fuel (pre ++ encode_record swap ns r ++ tl) swap ns (length (pre ++ encode_record swap ns r)).
Proof.
  intros Hr. cbn [parse_records]. unfold kRecordHeaderBytes.
  destruct (read_fields swap ns r (pre ++ encode_record swap ns r ++ tl) pre (r_bytes r ++ tl) Hr) as (-> & -> & ->).
  { unfold encode_record. by rewrite <- !app_assoc. }
  rewrite Nat2Z.id, !length_app, length_encode_record.
  rewrite (proj2 (Nat.leb_le _ _)), (proj2 (Nat.ltb_ge _ _)) by lia. f_equal; [|f_equal; lia].
  rewrite record_time by done. destruct r as [ts bs]. cbn [timestampNs r_bytes] in *. f_equal. unfold slice, encode_record.
  rewrite drop_app_ge by lia. replace (length pre + 16 - length pre)%nat with 16%nat by lia. cbn [r_bytes].
  rewrite <- (length_encode_fields swap ns (mk_record ts bs)), <- app_assoc, drop_app_length, take_app_length. done.
Qed.

Lemma parse_record_cut swap ns r fuel pre k : record_ok ns r -> (k < length (encode_record swap ns r))%nat ->
  parse_records fuel (pre ++ take k (encode_record swap ns r)) swap ns (length pre) = [].
Proof.
  rewrite length_encode_record. intros Hr Hk. destruct fuel as [|fuel]; [done|]. cbn [parse_records]. unfold kRecordHeaderBytes.
  rewrite length_app, length_take, length_encode_record.
  destruct (Nat.leb_spec (length pre + 16) (length pre + k `min` (16 + length (r_bytes r)))) as [Hle|]; [|done].
  destruct (read_fields swap ns r (pre ++ take k (encode_record swap ns r)) pre (take (k - 16) (r_bytes r)) Hr) as (_ & _ & ->).
  { unfold encode_record. by rewrite take_app_ge, length_encode_fields by (rewrite length_encode_fields; lia). }
  rewrite Nat2Z.id. by rewrite (proj2 (Nat.ltb_lt _ _)) by lia.
Qed.

Lemma parse_records_whole swap ns rs : Forall (record_ok ns) rs -> forall k pre fuel,
  (length (take k (concat (encode_record swap ns <$> rs))) < fuel)%nat ->
  parse_records fuel (pre ++ take k (concat (encode_record swap ns <$> rs))) swap ns (length pre) = whole swap ns k rs.
Proof.
  induction 1 as [|r rs Hr Hrs IH]; intros k pre fuel Hfuel; (destruct fuel as [|fuel]; [lia|]).
  { cbn [parse_records]. cbn. rewrite take_nil, app_nil_r. rewrite (proj2 (Nat.leb_gt _ _)) by (unfold kRecordHeaderBytes; lia). done. }
  rewrite fmap_cons, concat_cons in *. pose proof (length_encode_record swap ns r). cbn [whole].
  destruct (Nat.leb_spec (length (encode_record swap ns r)) k) as [Hk|Hk].
  - rewrite take_app_ge in Hfuel |- * by done. rewrite length_app in Hfuel.
    rewrite parse_record_whole by done. f_equal. rewrite app_assoc. apply IH. lia.
  - rewrite take_app_le by lia. by apply parse_record_cut.
Qed.

(** ** What the parser gives back of a file cut anywhere *)
Definition encode_file (swap ns : bool) (middle : bytes) (rs : list Record_) : bytes :=
  encode_header swap ns middle ++ concat (encode_record swap ns <$> rs).

Lemma read_magic swap ns middle tl : length middle = 16%nat ->
  let l := encode_header swap ns middle ++ tl in
  getU32 l 0 swap = (if ns then kMagicNanoseconds else kMagicMicroseconds) /\
  getU32 l 20 swap = kLinkTypeEthernet /\
  getU32 l 0 (negb swap) = (if ns then 0x4D3CB2A1 else 0xD4C3B2A1).
Proof.
  intros Hm l. unfold l, encode_header. split_and!.
  - eapply get_put with (pre := []); [destruct ns; done|by rewrite <- !app_assoc|done].
  - eapply get_put with (pre := put swap _ ++ middle); [done|by rewrite <- !app_assoc|by rewrite length_app, length_put, Hm].
  - eapply get_put with (pre := []); [destruct ns; done| |done]. cbn [app]. rewrite <- !app_assoc. f_equal.
    by destruct swap, ns.
Qed.

Lemma length_encode_header swap ns middle : length middle = 16%nat -> length (encode_header swap ns middle) = 24%nat.
Proof. intros Hm. unfold encode_header. by rewrite !length_app, !length_put, Hm. Qed.

Lemma parse_prefix swap ns middle rs k : length middle = 16%nat -> Forall (record_ok ns) rs ->
  parsePcap (encode_header swap ns middle ++ take k (concat (encode_record swap ns <$> rs))) = Value (whole swap ns k rs).
Proof.
  intros Hm Hrs. pose proof (length_encode_header swap ns middle Hm) as Hh. unfold parsePcap.
  destruct (read_magic swap ns middle (take k (concat (encode_record swap ns <$> rs))) Hm) as (Hmagic & Hlink & Hother).
  set (l := encode_header swap ns middle ++ _) in *.
  rewrite (proj2 (Nat.ltb_ge _ _)) by (unfold l; rewrite length_app, Hh; unfold kFileHeaderBytes; lia).
  assert (Hp : parse_records (length l) l swap ns kFileHeaderBytes = whole swap ns k rs).
  { unfold l. replace kFileHeaderBytes with (length (encode_header swap ns middle)).
    apply parse_records_whole; [done|]. rewrite length_app, Hh. lia. }
  clearbody l. destruct swap; cbn [negb] in Hother; rewrite Hmagic, Hother; destruct ns; cbn -[getU32 parse_records]; rewrite Hlink; cbn -[parse_records]; by rewrite Hp.
Qed.

Definition writer_middle : bytes := putU16 2 ++ putU16 4 ++ putU32 0 ++ putU32 0 ++ putU32 kSnapLength.

Lemma header_encoded : file_header = encode_header false true writer_middle.
Proof. done. Qed.

Lemma record_header_encoded r : record_ok true r ->
  record_header (timestampNs r) (length (r_bytes r)) = encode_fields false true r.
Proof.
  intros (Ht & Hl & _). change (2 ^ 32) with 4294967296 in *. unfold record_header, encode_fields, put, fraction, u32.
  pose proof (Z.mod_pos_bound (timestampNs r) 1000000000 ltac:(lia)).
  pose proof (Z.div_pos (timestampNs r) 1000000000 ltac:(lia) ltac:(lia)).
  pose proof (Z.div_lt_upper_bound (timestampNs r) 1000000000 4294967296 ltac:(lia) ltac:(lia)).
  rewrite Z.quot_div_nonneg, Z.rem_mod_nonneg by lia. by rewrite !uwrap_id by (unfold in_u; lia).
Qed.

Lemma whole_all swap ns rs k : (length (concat (encode_record swap ns <$> rs)) <= k)%nat -> whole swap ns k rs = rs.
Proof.
  revert k. induction rs as [|r rs IH]; intros k Hk; [done|]. rewrite fmap_cons, concat_cons, length_app in Hk. cbn [whole].
  rewrite (proj2 (Nat.leb_le _ _)) by lia. f_equal. apply IH. lia.
Qed.

Section WriterFacts.
Context (fwrite : bytes -> bytes -> bytes * nat).

(** A capture: the file is created, then every record is written; the first failure ends it. *)
Fixpoint write_all (w : option bytes) (rs : list Record_) : option bytes * expected PcapError unit :=
  match rs with
  | [] => (w, Value tt)
  | r :: rs =>
      match write fwrite w (timestampNs r) (r_bytes r) with
      | (w, Unexpected e) => (w, Unexpected e)
      | (w, Value _) => write_all w rs
      end
  end.

Definition capture (rs : list Record_) : option bytes * expected PcapError unit :=
  match open fwrite true with
  | (w, Unexpected e) => (w, Unexpected e)
  | (w, Value _) => write_all w rs
  end.

(** The disk has room: an [fwrite] appends all it is given. *)
Definition appends : Prop := forall file l, fwrite file l = (file ++ l, length l).

Lemma write_all_encoded rs : appends -> Forall (record_ok true) rs -> forall file,
  write_all (Some file) rs = (Some (file ++ concat (encode_record false true <$> rs)), Value tt).
Proof.
  intros Hw. induction 1 as [|r rs Hr _ IH]; intros file; [cbn; by rewrite app_nil_r|]. cbn [write_all]. unfold write.
  rewrite record_header_encoded, !Hw, length_encode_fields by done. cbn [negb Nat.eqb kRecordHeaderBytes]. rewrite Nat.eqb_refl.
  cbn [negb]. rewrite IH, fmap_cons, concat_cons. unfold encode_record at 2. by rewrite !app_assoc.
Qed.

Lemma capture_encoded rs : appends -> Forall (record_ok true) rs ->
  capture rs = (Some (encode_file false true writer_middle rs), Value tt).
Proof.
  intros Hw Hrs. unfold capture, open. cbn [negb]. rewrite Hw. cbn [app]. rewrite Nat.eqb_refl. cbn [negb].
  rewrite write_all_encoded by done. by rewrite header_encoded.
Qed.

(** What [PcapWriter] writes, [parsePcap] reads back; and the file of any program in either byte order and either
    resolution, cut after any byte of its records (a capture that was interrupted), is read as the records that lie
    whole before the cut, each with its bytes and its time. *)
Theorem pcap_roundtrip rs : appends -> Forall (record_ok true) rs ->
  (exists file, capture rs = (Some file, Value tt) /\ parsePcap file = Value rs) /\
  forall swap ns middle rs' k, length middle = 16%nat -> Forall (record_ok ns) rs' ->
    parsePcap (take (24 + k) (encode_file swap ns middle rs')) = Value (whole swap ns k rs').
Proof.
  intros Hw Hrs. split.
  - exists (encode_file false true writer_middle rs). split; [by apply capture_encoded|]. unfold encode_file.
    rewrite <- (take_ge (concat _) (length (concat (encode_record false true <$> rs)))) by done.
    rewrite parse_prefix by done. by rewrite whole_all.
  - intros swap ns middle rs' k Hm Hrs'. unfold encode_file.
    rewrite take_app_ge, (length_encode_header _ _ _ Hm) by (rewrite length_encode_header by done; lia).
    replace (24 + k - 24)%nat with k by lia. by apply parse_prefix.
Qed.
End WriterFacts.

Definition two_records : list Record_ := [mk_record 1700000000123456789 [1; 2; 3]; mk_record 1700000001000000000 []].

Lemma pcap_roundtrip_witness :
  (exists file, capture (fun f l => (f ++ l, length l)) two_records = (Some file, Value tt) /\ parsePcap file = Value two_records) /\
  parsePcap (take (24 + 20) (encode_file true true writer_middle two_records)) = Value (take 1 two_records).
Proof.
  assert (Hok : Forall (record_ok true) two_records) by (repeat constructor; discriminate).
  destruct (pcap_roundtrip (fun f l => (f ++ l, length l)) two_records (fun _ _ => eq_refl) Hok) as [H1 H2].
  split; [exact H1|]. exact (H2 true true writer_middle two_records 20%nat eq_refl Hok).
Defined.

(** ** EtherCAT frames on the wire

    A datagram as it lies in a frame: [w_field] is the word of the length, the reserved bits, the circulating bit and the
    "more" bit, [w_irq] the interrupt word nobody reads. *)
Record Wire := mk_wire {
  w_command : Z; w_index : Z; w_adp : Z; w_ado : Z; w_field : Z; w_irq : Z; w_data : bytes; w_wkc : Z }.

Definition encode_datagram (w : Wire) : bytes :=
  [w_command w; w_index w] ++ putU16 (w_adp w) ++ putU16 (w_ado w) ++ putU16 (w_field w) ++ putU16 (w_irq w) ++
  w_data w ++ putU16 (w_wkc w).

Definition w_more (w : Wire) : bool := negb (Z.land (w_field w) 0x8000 =? 0).

Definition decoded (w : Wire) : Datagram :=
  mk_datagram (w_command w) (w_index w) (w_adp w) (w_ado w) (Z.of_nat (length (w_data w))) (w_more w) (w_wkc w).

Definition wire_ok (w : Wire) : Prop :=
  in_u 16 (w_adp w) /\ in_u 16 (w_ado w) /\ in_u 16 (w_field w) /\ in_u 16 (w_wkc w) /\
  Z.land (w_field w) 0x07FF = Z.of_nat (length (w_data w)).

(** All datagrams but the last say that more follow. *)
Fixpoint chained (ws : list Wire) : Prop :=
  match ws with
  | [] => False
  | [w] => wire_ok w /\ w_more w = false
  | w :: ws => wire_ok w /\ w_more w = true /\ chained ws
  end.

Lemma byte_at_app_here pre l i : byte_at (pre ++ l) (length pre + i) = byte_at l i.
Proof. unfold byte_at. rewrite lookup_app_r by lia. by replace (length pre + i - length pre)%nat with i by lia. Qed.

Lemma readU16_put v pre post : in_u 16 v -> readU16 (pre ++ putU16 v ++ post) (length pre) = v.
Proof.
  intros Hv. unfold readU16, putU16. rewrite byte_at_app_here.
  replace (byte_at _ (length pre)) with (u8 v) by (rewrite <- (Nat.add_0_r (length pre)); by rewrite byte_at_app_here). cbn -[u8 uwrap Z.shiftl Z.shiftr Z.lor].
  pose proof (uwrap_range 8 v ltac:(lia)). pose proof (uwrap_range 8 (Z.shiftr v 8) ltac:(lia)). unfold in_u in *.
  change (byte_at _ 1) with (u8 (Z.shiftr v 8)).
  unfold u8. rewrite (lor_shiftl_add _ _ 8) by (unfold in_u; lia).
  unfold uwrap, u16. rewrite Z.shiftr_div_pow2 by lia. change (2 ^ 8) with 256 in *. change (2 ^ 16) with 65536 in *.
  rewrite (Z.mod_small (v / 256)).
  - pose proof (Z.div_mod v 256 ltac:(lia)). replace (v mod 256 + 256 * (v / 256)) with v by lia. apply uwrap_id. unfold in_u. lia.
  - split; [apply Z.div_pos; lia|apply Z.div_lt_upper_bound; lia].
Qed.

Lemma readU16_at v pre post l at_ : in_u 16 v -> l = pre ++ putU16 v ++ post -> length pre = at_ -> readU16 l at_ = v.
Proof. intros Hv -> <-. by apply readU16_put. Qed.

Lemma length_encode_datagram w : length (encode_datagram w) = (12 + length (w_data w))%nat.
Proof. unfold encode_datagram. rewrite !length_app. cbn. lia. Qed.

Lemma read_datagram_wire w pre post : wire_ok w ->
  read_datagram (pre ++ encode_datagram w ++ post) (length pre) = decoded w.
Proof.
  intros (Hadp & Hado & Hf & Hw & Hn). unfold read_datagram.
  assert (Ef : readU16 (pre ++ encode_datagram w ++ post) (length pre + 6) = w_field w).
  { eapply (readU16_at _ (pre ++ [w_command w; w_index w] ++ putU16 (w_adp w) ++ putU16 (w_ado w))); [done| |by rewrite length_app].
    unfold encode_datagram. by rewrite <- !app_assoc. }
  rewrite Ef, Hn, Nat2Z.id. unfold decoded. f_equal.
  - rewrite <- (Nat.add_0_r (length pre)). apply byte_at_app_here.
  - apply byte_at_app_here.
  - eapply (readU16_at _ (pre ++ [w_command w; w_index w])); [done| |by rewrite length_app].
    unfold encode_datagram. by rewrite <- !app_assoc.
  - eapply (readU16_at _ (pre ++ [w_command w; w_index w] ++ putU16 (w_adp w))); [done| |by rewrite length_app].
    unfold encode_datagram. by rewrite <- !app_assoc.
  - eapply (readU16_at _ (pre ++ [w_command w; w_index w] ++ putU16 (w_adp w) ++ putU16 (w_ado w) ++ putU16 (w_field w) ++
      putU16 (w_irq w) ++ w_data w)); [done| |].
    + unfold encode_datagram. by rewrite <- !app_assoc.
    + rewrite !length_app. unfold kDatagramHeaderBytes. cbn. lia.
Qed.

Lemma parse_datagrams_chained ws : chained ws -> forall fuel pre post,
  (length ws <= fuel)%nat -> parse_datagrams fuel (pre ++ concat (encode_datagram <$> ws) ++ post) (length pre)
    (length pre + length (concat (encode_datagram <$> ws))) = Some (decoded <$> ws).
Proof.
  induction ws as [|w ws IH]; intros Hc fuel pre post Hfuel; [done|]. destruct fuel as [|fuel]; [cbn in Hfuel; lia|].
  assert (Hw : wire_ok w /\ w_more w = bool_decide (ws <> []) /\ (ws <> [] -> chained ws)).
  { destruct ws; cbn [chained] in Hc; destruct Hc as (? & Hc); [by split_and!|]. destruct Hc. by split_and!. }
  destruct Hw as (Hw & Hmore & Hws). rewrite !fmap_cons, concat_cons, <- app_assoc. cbn [parse_datagrams].
  pose proof (length_encode_datagram w) as Hlen. rewrite length_app, read_datagram_wire by done.
  unfold kDatagramHeaderBytes, kWorkingCounterBytes.
  change (Z.to_nat (d_length (decoded w))) with (Z.to_nat (Z.of_nat (length (w_data w)))). rewrite Nat2Z.id. change (more (decoded w)) with (w_more w).
  rewrite !(proj2 (Nat.ltb_ge _ _)) by lia. rewrite Hmore. destruct ws as [|w' ws'] eqn:E; [done|]. rewrite <- E in *.
  rewrite bool_decide_true by (by rewrite E). rewrite (app_assoc pre).
  replace (length pre + 10 + length (w_data w) + 2)%nat with (length (pre ++ encode_datagram w)) by (rewrite length_app; lia).
  replace (length pre + (length (encode_datagram w) + length (concat (encode_datagram <$> ws))))%nat
    with (length (pre ++ encode_datagram w) + length (concat (encode_datagram <$> ws)))%nat by (rewrite length_app; lia).
  rewrite IH; [done| |cbn in Hfuel; lia]. apply Hws. by rewrite E.
Qed.

(** A frame: destination and source MAC, the EtherType, the EtherCAT header word, the datagrams, and the padding that
    fills a short Ethernet frame. *)
Definition lead (dst src : bytes) (header : Z) : bytes := dst ++ src ++ [0x88; 0xA4] ++ putU16 header.
Definition encode_frame (dst src : bytes) (header : Z) (ws : list Wire) (padding : bytes) : bytes :=
  lead dst src header ++ concat (encode_datagram <$> ws) ++ padding.

Definition header_ok (header : Z) (ws : list Wire) : Prop :=
  in_u 16 header /\ Z.land header 0x07FF = Z.of_nat (length (concat (encode_datagram <$> ws))) /\ Z.shiftr header 12 = 1.

Lemma length_concat_wire ws : (length ws <= length (concat (encode_datagram <$> ws)))%nat.
Proof.
  induction ws as [|w ws IH]; [done|]. rewrite fmap_cons, concat_cons, length_app, length_encode_datagram. cbn [length]. lia.
Qed.

Lemma length_lead dst src header : length dst = 6%nat -> length src = 6%nat -> length (lead dst src header) = 16%nat.
Proof. intros Hd Hs. unfold lead. by rewrite !length_app, Hd, Hs. Qed.

Lemma lead_fields dst src header tl : length dst = 6%nat -> length src = 6%nat -> in_u 16 header ->
  u16 (Z.lor (Z.shiftl (byte_at (lead dst src header ++ tl) 12) 8) (byte_at (lead dst src header ++ tl) 13)) = kEtherCatEtherType /\
  readU16 (lead dst src header ++ tl) kEthernetHeaderBytes = header /\
  byte_at (lead dst src header ++ tl) 6 = byte_at src 0.
Proof.
  intros Hd Hs Hh. split_and!.
  - unfold lead. destruct dst as [|d0 [|d1 [|d2 [|d3 [|d4 [|d5 [|]]]]]]]; try done.
    destruct src as [|s0 [|s1 [|s2 [|s3 [|s4 [|s5 [|]]]]]]]; done.
  - eapply (readU16_at _ (dst ++ src ++ [0x88; 0xA4])); [done|unfold lead; by rewrite <- !app_assoc|].
    by rewrite !length_app, Hd, Hs.
  - unfold lead. destruct dst as [|d0 [|d1 [|d2 [|d3 [|d4 [|d5 [|]]]]]]]; try done.
    destruct src as [|s0 [|s1 [|s2 [|s3 [|s4 [|s5 [|]]]]]]]; done.
Qed.

(** A frame of any number of chained datagrams, of any sizes, with any padding behind it, is parsed to exactly its
    datagrams and its direction; the same frame cut anywhere before the end of its datagrams is refused. *)
Theorem parseEtherCatFrame_exact dst src header ws padding k :
  length dst = 6%nat -> length src = 6%nat -> header_ok header ws -> chained ws ->
  parseEtherCatFrame (encode_frame dst src header ws padding) =
    Some (mk_ecat (Z.land (byte_at src 0) kSourceMacLocalBit =? 0) (decoded <$> ws)) /\
  ((k < 16 + length (concat (encode_datagram <$> ws)))%nat ->
   parseEtherCatFrame (take k (encode_frame dst src header ws padding)) = None).
Proof.
  intros Hd Hs (Hh & Hlen & Htype) Hc. pose proof (length_lead dst src header Hd Hs) as Hpre.
  assert (Hl : length (encode_frame dst src header ws padding) = (16 + length (concat (encode_datagram <$> ws)) + length padding)%nat).
  { unfold encode_frame. rewrite !length_app, Hpre. lia. }
  split.
  - unfold parseEtherCatFrame. rewrite Hl. rewrite (proj2 (Nat.ltb_ge _ _)) by (unfold kEthernetHeaderBytes, kEtherCatHeaderBytes; lia).
    unfold encode_frame. destruct (lead_fields dst src header (concat (encode_datagram <$> ws) ++ padding) Hd Hs Hh) as (-> & -> & ->).
    rewrite Hlen, Htype, Nat2Z.id. cbn [Z.eqb Pos.eqb negb kEtherCatEtherType].
    rewrite (proj2 (Nat.ltb_ge _ _)) by (unfold kEthernetHeaderBytes, kEtherCatHeaderBytes; lia).
    change (kEthernetHeaderBytes + kEtherCatHeaderBytes)%nat with 16%nat. rewrite <- Hpre at 2 3.
    rewrite (parse_datagrams_chained ws Hc); [done|]. pose proof (length_concat_wire ws). lia.
  - intros Hk. unfold parseEtherCatFrame. rewrite length_take, Hl. unfold encode_frame.
    destruct (Nat.ltb_spec (k `min` (16 + length (concat (encode_datagram <$> ws)) + length padding))
      (kEthernetHeaderBytes + kEtherCatHeaderBytes)) as [|Hge]; [done|]. unfold kEthernetHeaderBytes, kEtherCatHeaderBytes in *.
    rewrite take_app_ge by lia.
    destruct (lead_fields dst src header (take (k - length (lead dst src header)) (concat (encode_datagram <$> ws) ++ padding)) Hd Hs Hh)
      as (-> & E & _). unfold kEthernetHeaderBytes in E. rewrite E.
    rewrite Hlen, Htype, Nat2Z.id. cbn [Z.eqb Pos.eqb negb kEtherCatEtherType]. by rewrite (proj2 (Nat.ltb_lt _ _)) by lia.
Qed.

Lemma parseEtherCatFrame_exact_witness :
  let read := mk_wire 1 7 0xFFFF 0x0130 (0x8000 + 2) 0 [8; 0] 1 in
  let write_ := mk_wire 2 8 0xFFFE 0x0120 1 0 [4] 0 in
  let frame := encode_frame (replicate 6 255) [2; 0; 0; 0; 0; 1] (0x1000 + 27) [read; write_] [0; 0] in
  parseEtherCatFrame frame = Some (mk_ecat false [mk_datagram 1 7 0xFFFF 0x0130 2 true 1; mk_datagram 2 8 0xFFFE 0x0120 1 false 0]) /\
  parseEtherCatFrame (take 42 frame) = None.
Proof.
  intros r w frame.
  assert (Hc : chained [r; w]) by (cbn [chained]; unfold wire_ok, in_u; split_and!; done).
  destruct (parseEtherCatFrame_exact (replicate 6 255) [2; 0; 0; 0; 0; 1] (0x1000 + 27) [r; w] [0; 0] 42 eq_refl eq_refl) as [E1 E2].
  - split_and!; done.
  - done.
  - split; [exact E1|]. apply E2. cbn. lia.
Defined.

(** ** What the summary counts *)
Definition contribution (logical : bool) (key : MatchKey) (sends : list Z) : Z :=
  if Bool.eqb (isLogicalCommand (key_command key)) logical then Z.of_nat (length sends) else 0.

(** The sends of a kind that still wait for their return. *)
Definition outstanding (logical : bool) (pending : Pending) : Z :=
  map_fold (fun key sends n => contribution logical key sends + n) 0 pending.

Lemma outstanding_insert (logical : bool) (p : Pending) (key : MatchKey) (sends : list Z) :
  outstanding logical (<[key := sends]> p) =
  outstanding logical p - contribution logical key (default [] (p !! key)) + contribution logical key sends.
Proof.
  assert (Hnew : forall (p : Pending) (sends : list Z), p !! key = None ->
    outstanding logical (<[key := sends]> p) = contribution logical key sends + outstanding logical p).
  { intros q l Hq. unfold outstanding. rewrite map_fold_insert_L; [done| |done]. intros. lia. }
  destruct (p !! key) as [old|] eqn:E; cbn [default].
  - pose proof (Hnew (delete key p) old (lookup_delete_eq p key)) as Hold. rewrite insert_delete_id in Hold by done.
    pose proof (Hnew (delete key p) sends (lookup_delete_eq p key)) as Hs. rewrite insert_delete_eq in Hs. cbn. lia.
  - rewrite Hnew by done. unfold contribution at 2. cbn. destruct (Bool.eqb _ _); lia.
Qed.

Definition total (k : KindSummary) : Z := sent k + resent k + returned k.

(** A kind of which [n] sends are outstanding. *)
Record kind_ok (k : KindSummary) (n : Z) : Prop := {
  k_sent : sent k = returned k + n; k_out : 0 <= n; k_resent : 0 <= resent k; k_lost : lost k = 0;
  k_over : 0 <= over100Ms k <= over20Ms k /\ over20Ms k <= over2Ms k <= returned k }.

Definition kind_of (s : Summary) (logical : bool) : KindSummary := if logical then cyclic s else control s.

(** Whether a record is an EtherCAT frame, sent by the master, and logical. *)
Definition class_of (r : Record_) : option (bool * bool) :=
  match parseEtherCatFrame (r_bytes r) with
  | Some (mk_ecat master (d :: _)) => Some (master, isLogicalCommand (command d))
  | _ => None
  end.

Definition count (f : option (bool * bool) -> bool) (rs : list Record_) : Z :=
  Z.of_nat (length (List.filter (fun r => f (class_of r)) rs)).

Definition foreign (c : option (bool * bool)) : bool := match c with None => true | _ => false end.
Definition master_of (logical : bool) (c : option (bool * bool)) : bool :=
  match c with Some (m, l) => m && Bool.eqb l logical | _ => false end.
Definition a_return (c : option (bool * bool)) : bool := match c with Some (m, _) => negb m | _ => false end.

Record Accounts (rs : list Record_) (w : Summary * Pending) : Prop := {
  a_frames : frames w.1 = Z.of_nat (length rs);
  a_sum : frames w.1 = notEtherCat w.1 + unmatchedReturns w.1 + total (control w.1) + total (cyclic w.1);
  a_not : notEtherCat w.1 = count foreign rs;
  a_unmatched : 0 <= unmatchedReturns w.1;
  a_returns : unmatchedReturns w.1 + returned (control w.1) + returned (cyclic w.1) = count a_return rs;
  a_kind : forall logical, kind_ok (kind_of w.1 logical) (outstanding logical w.2);
  a_master : forall logical, sent (kind_of w.1 logical) + resent (kind_of w.1 logical) = count (master_of logical) rs }.

Lemma kind_ok_total k n : kind_ok k n -> 0 <= total k /\ sent k <= total k /\ resent k <= total k /\ returned k <= total k.
Proof. intros [E ? ? ? ?]. unfold total. lia. Qed.

Lemma add_sent_ok k n : kind_ok k n -> total k + 1 < 2 ^ 32 -> kind_ok (add_sent k) (n + 1) /\ total (add_sent k) = total k + 1.
Proof.
  intros Hk Ht. pose proof (kind_ok_total _ _ Hk). destruct Hk. unfold add_sent, u32, total in *.
  rewrite uwrap_id by (unfold in_u; lia). split; [constructor|]; cbn; lia.
Qed.

Lemma add_resent_ok k n : kind_ok k n -> total k + 1 < 2 ^ 32 -> kind_ok (add_resent k) n /\ total (add_resent k) = total k + 1.
Proof.
  intros Hk Ht. pose proof (kind_ok_total _ _ Hk). destruct Hk. unfold add_resent, u32, total in *.
  rewrite uwrap_id by (unfold in_u; lia). split; [constructor|]; cbn; lia.
Qed.

Lemma record_ok_kind k n late : kind_ok k n -> 0 < n -> total k + 1 < 2 ^ 32 ->
  kind_ok (record k late) (n - 1) /\ total (record k late) = total k + 1.
Proof.
  intros Hk Hn Ht. pose proof (kind_ok_total _ _ Hk). destruct Hk. unfold record, u32, total in *.
  rewrite !uwrap_id by (unfold in_u; lia). set (us := Z.quot late 1000).
  split; [constructor|]; cbn -[Z.ltb]; try lia.
  destruct (Z.ltb_spec 2000 us), (Z.ltb_spec 20000 us), (Z.ltb_spec 100000 us); lia.
Qed.

Lemma count_snoc f rs r : count f (rs ++ [r]) = count f rs + if f (class_of r) then 1 else 0.
Proof. unfold count. rewrite List.filter_app, length_app. cbn. destruct (f (class_of r)); cbn; lia. Qed.

Lemma records_nonneg f rs : 0 <= count f rs.
Proof. unfold count. lia. Qed.

Lemma outstanding_nonneg (logical : bool) (p : Pending) : 0 <= outstanding logical p.
Proof.
  unfold outstanding. apply (map_fold_weak_ind (fun n _ => 0 <= n)); [done|]. intros key sends m r _ Hr. unfold contribution.
  destruct (Bool.eqb _ _); lia.
Qed.

(** A step that changes one kind by [f], which counts one frame more in it. *)
Lemma with_kind_accounts (rs : list Record_) (r : Record_) (s : Summary) (p p' : Pending) (logical master : bool)
    (f : KindSummary -> KindSummary) (d : Z) :
  Accounts rs (s, p) -> class_of r = Some (master, logical) -> Z.of_nat (length rs) + 1 < 2 ^ 32 ->
  (forall l, outstanding l p' = outstanding l p + if Bool.eqb l logical then d else 0) ->
  let k := kind_of s logical in
  (total k + 1 < 2 ^ 32 -> kind_ok (f k) (outstanding logical p + d) /\ total (f k) = total k + 1) ->
  (total k + 1 < 2 ^ 32 -> returned (f k) = returned k + if master then 0 else 1) ->
  Accounts (rs ++ [r]) (with_kind (count_frame s (timestampNs r)) logical f, p').
Proof.
  intros [Hf Hs Hn Hu Hret Hk Hm] Hc Hlt Ho k Hkind Hback. cbn [fst snd] in *.
  pose proof (kind_ok_total _ _ (Hk false)). pose proof (kind_ok_total _ _ (Hk true)). pose proof (records_nonneg foreign rs).
  cbn [kind_of] in *. assert (Ht : total k + 1 < 2 ^ 32) by (subst k; destruct logical; cbn [kind_of]; lia).
  destruct (Hkind Ht) as [Hk' Ht']. specialize (Hback Ht).
  assert (Hu64 : u64 (frames s + 1) = frames s + 1) by (apply uwrap_id; unfold in_u; lia).
  constructor; cbn [fst snd with_kind count_frame frames notEtherCat unmatchedReturns control cyclic] in *.
  - rewrite Hu64, length_app. cbn. lia.
  - rewrite Hu64. destruct logical; subst k; cbn [kind_of] in *; lia.
  - rewrite count_snoc, Hc. cbn. lia.
  - done.
  - rewrite count_snoc, Hc. cbn [a_return]. destruct logical, master; subst k; cbn [kind_of negb] in *; lia.
  - intros l. rewrite Ho. specialize (Hk l). destruct l, logical; cbn [kind_of Bool.eqb control cyclic] in *; subst k; rewrite ?Z.add_0_r; done.
  - intros l. specialize (Hm l). rewrite count_snoc, Hc. cbn [master_of]. unfold total in Ht'.
    destruct l, logical, master; subst k; cbn [kind_of Bool.eqb andb control cyclic with_kind count_frame] in *; lia.
Qed.

Lemma foreign_accounts (rs : list Record_) (r : Record_) (s : Summary) (p : Pending) :
  Accounts rs (s, p) -> class_of r = None -> Z.of_nat (length rs) + 1 < 2 ^ 32 ->
  let c := count_frame s (timestampNs r) in
  Accounts (rs ++ [r]) (mk_summary (frames c) (u64 (notEtherCat c + 1)) (unmatchedReturns c) (firstNs c) (lastNs c) (control c) (cyclic c), p).
Proof.
  intros [Hf Hs Hn Hu Hret Hk Hm] Hc Hlt c. cbn [fst snd] in *.
  pose proof (kind_ok_total _ _ (Hk false)). pose proof (kind_ok_total _ _ (Hk true)). pose proof (records_nonneg foreign rs).
  cbn [kind_of] in *. subst c. cbn [count_frame frames notEtherCat unmatchedReturns control cyclic].
  unfold u64. rewrite !uwrap_id by (unfold in_u; lia).
  constructor; cbn [fst snd frames notEtherCat unmatchedReturns control cyclic]; rewrite ?count_snoc, ?Hc, ?length_app; cbn; try lia.
  - intros l. apply (Hk l).
  - intros l. rewrite count_snoc, Hc. cbn. rewrite Z.add_0_r. apply (Hm l).
Qed.

Lemma unmatched_accounts (rs : list Record_) (r : Record_) (s : Summary) (p p' : Pending) (logical : bool) :
  Accounts rs (s, p) -> class_of r = Some (false, logical) -> Z.of_nat (length rs) + 1 < 2 ^ 32 ->
  (forall l, outstanding l p' = outstanding l p) ->
  let c := count_frame s (timestampNs r) in
  Accounts (rs ++ [r]) (mk_summary (frames c) (notEtherCat c) (u64 (unmatchedReturns c + 1)) (firstNs c) (lastNs c) (control c) (cyclic c), p').
Proof.
  intros [Hf Hs Hn Hu Hret Hk Hm] Hc Hlt Ho c. cbn [fst snd] in *.
  pose proof (kind_ok_total _ _ (Hk false)). pose proof (kind_ok_total _ _ (Hk true)). pose proof (records_nonneg foreign rs).
  cbn [kind_of] in *. subst c. cbn [count_frame frames notEtherCat unmatchedReturns control cyclic].
  unfold u64. rewrite !uwrap_id by (unfold in_u; lia).
  constructor; cbn [fst snd frames notEtherCat unmatchedReturns control cyclic]; rewrite ?count_snoc, ?Hc, ?length_app; cbn; try lia.
  - intros l. rewrite Ho. apply (Hk l).
  - intros l. rewrite count_snoc, Hc. cbn. rewrite Z.add_0_r. apply (Hm l).
Qed.

Lemma outstanding_key (l : bool) (p : Pending) (first : Datagram) (sends : list Z) :
  outstanding l (<[keyOf first := sends]> p) = outstanding l p +
    if Bool.eqb l (isLogicalCommand (command first)) then
      Z.of_nat (length sends) - Z.of_nat (length (default [] (p !! keyOf first))) else 0.
Proof.
  rewrite outstanding_insert. unfold contribution. change (key_command (keyOf first)) with (command first).
  destruct (isLogicalCommand _), l; cbn [Bool.eqb]; lia.
Qed.

Lemma summarise_one_accounts rs w r : Accounts rs w -> Z.of_nat (length rs) + 1 < 2 ^ 32 ->
  Accounts (rs ++ [r]) (summarise_one w r).
Proof.
  destruct w as [s p]. intros HA Hlt. unfold summarise_one.
  destruct (parseEtherCatFrame (r_bytes r)) as [[master [|first ds]]|] eqn:E.
  1, 3: by apply foreign_accounts; [done|unfold class_of; rewrite E|].
  assert (Hc : class_of r = Some (master, isLogicalCommand (command first))) by (unfold class_of; by rewrite E).
  pose proof (a_kind _ _ HA (isLogicalCommand (command first))) as Hk. cbn [fst snd] in Hk.
  destruct master.
  - assert (Hsent : Accounts (rs ++ [r]) (with_kind (count_frame s (timestampNs r)) (isLogicalCommand (command first)) add_sent,
                      <[keyOf first := default [] (p !! keyOf first) ++ [timestampNs r]]> p)).
    { eapply with_kind_accounts with (d := 1); [done..| |intros Ht; by apply add_sent_ok|cbn; lia].
      intros l. rewrite outstanding_key, length_app. cbn [length]. destruct (Bool.eqb _ _); lia. }
    destruct (last _) as [back|]; [|done]. destruct (_ <? _); [|done].
    eapply with_kind_accounts with (d := 0); [done..| |rewrite Z.add_0_r; intros Ht; by apply add_resent_ok|cbn; lia].
    intros l. rewrite outstanding_key. destruct (Bool.eqb _ _); lia.
  - destruct (default [] (p !! keyOf first)) as [|front rest] eqn:Es.
    + apply unmatched_accounts with (p := p) (logical := isLogicalCommand (command first)); [done..|].
      intros l. rewrite outstanding_key, Es. destruct (Bool.eqb _ _); cbn; lia.
    + assert (Ho : forall l, outstanding l (<[keyOf first := rest]> p) =
        outstanding l p + if Bool.eqb l (isLogicalCommand (command first)) then -1 else 0).
      { intros l. rewrite outstanding_key, Es. cbn [length]. destruct (Bool.eqb _ _); lia. }
      eapply with_kind_accounts with (d := -1); [done..|exact Ho| |].
      * intros Ht. apply record_ok_kind; [done| |done]. specialize (Ho (isLogicalCommand (command first))).
        rewrite Bool.eqb_reflx in Ho. pose proof (outstanding_nonneg (isLogicalCommand (command first)) (<[keyOf first := rest]> p)). lia.
      * intros Ht. pose proof (kind_ok_total _ _ Hk). cbn. destruct Hk. unfold u32. rewrite uwrap_id; [done|]. unfold in_u. lia.
Qed.

Definition lose (k : KindSummary) (n : Z) : KindSummary :=
  mk_kind (sent k) (resent k) (returned k) n (over2Ms k) (over20Ms k) (over100Ms k) (latestUs k).

Lemma count_lost_outstanding (p : Pending) s : lost (control s) = 0 -> lost (cyclic s) = 0 ->
  count_lost p s = mk_summary (frames s) (notEtherCat s) (unmatchedReturns s) (firstNs s) (lastNs s)
    (lose (control s) (u32 (outstanding false p))) (lose (cyclic s) (u32 (outstanding true p))).
Proof.
  intros H0 H1. unfold count_lost.
  apply (map_fold_weak_ind (fun s' m => s' = mk_summary (frames s) (notEtherCat s) (unmatchedReturns s) (firstNs s) (lastNs s)
    (lose (control s) (u32 (outstanding false m))) (lose (cyclic s) (u32 (outstanding true m))))).
  - destruct s as [? ? ? ? ? [] []]. cbn in *. subst. done.
  - intros key sends m s' Hm ->.
    assert (Ho : forall l, outstanding l (<[key := sends]> m) = outstanding l m + contribution l key sends).
    { intros l. rewrite outstanding_insert, Hm. unfold contribution at 1. cbn. destruct (Bool.eqb _ _); lia. }
    rewrite !Ho. unfold contribution, with_kind, add_lost, lose. cbn. unfold u32.
    destruct (isLogicalCommand _); cbn [Bool.eqb]; rewrite Z.add_0_r; unfold uwrap; rewrite <- Zplus_mod; done.
Qed.

Lemma accounts_start : Accounts [] (no_summary, ∅).
Proof. constructor; cbn; try done; intros []; done || (constructor; cbn; try done; lia). Qed.

Lemma accounts_fold rs : Z.of_nat (length rs) < 2 ^ 32 -> Accounts rs (foldl summarise_one (no_summary, ∅) rs).
Proof.
  induction rs as [|r rs IH] using rev_ind; intros Hlt; [apply accounts_start|].
  rewrite length_app in Hlt. cbn in Hlt. rewrite foldl_app. cbn. apply summarise_one_accounts; [apply IH|]; lia.
Qed.

(** The books balance. For a capture of fewer than 2^32 records, in any order and with any contents: every record is
    counted; the ones that are no EtherCAT frame are told apart; of each kind, the frames the master sent are the first
    sends and the resends, and the first sends are the returned ones and the lost ones; a return is either matched to a
    send or counted as unmatched; and the lateness classes are nested in the returned frames. *)
Theorem summary_accounts rs : Z.of_nat (length rs) < 2 ^ 32 ->
  let s := summarise rs in
  frames s = Z.of_nat (length rs) /\ notEtherCat s = count foreign rs /\
  unmatchedReturns s + returned (control s) + returned (cyclic s) = count a_return rs /\
  forall logical, let k := kind_of s logical in
    sent k + resent k = count (master_of logical) rs /\ sent k = returned k + lost k /\ 0 <= lost k /\
    0 <= over100Ms k <= over20Ms k /\ over20Ms k <= over2Ms k <= returned k.
Proof.
  intros Hlt s. pose proof (accounts_fold rs Hlt) as HA. unfold s, summarise.
  destruct (foldl summarise_one (no_summary, ∅) rs) as [s' p]. destruct HA as [Hf Hs Hn Hu Hret Hk Hm]. cbn [fst snd] in *.
  rewrite count_lost_outstanding by (apply (k_lost _ _ (Hk false)) || apply (k_lost _ _ (Hk true))).
  pose proof (kind_ok_total _ _ (Hk false)) as Hfalse. pose proof (kind_ok_total _ _ (Hk true)) as Htrue. pose proof (records_nonneg foreign rs).
  cbn [kind_of] in Hfalse, Htrue.
  split_and!; cbn [frames notEtherCat unmatchedReturns control cyclic lose returned]; [done..|]. intros l. specialize (Hm l).
  assert (Hu32 : u32 (outstanding l p) = outstanding l p).
  { apply uwrap_id. destruct (Hk l). unfold in_u. destruct l; cbn [kind_of] in *; lia. }
  destruct (Hk l) as [? ? ? ? ?]. destruct l; cbn -[u32 outstanding count] in *; rewrite Hu32; lia.
Qed.

Lemma summary_accounts_witness :
  let f n := encode_frame (replicate 6 255) [2 * n; 0; 0; 0; 0; 1] (0x1000 + 13) [mk_wire 1 7 0 0x0130 1 0 [8] n] [] in
  let rs := [mk_record 100 (f 0); mk_record 3000100 (f 1); mk_record 4000000 [1]; mk_record 5000000 (f 1); mk_record 6000000 (f 0)] in
  let s := summarise rs in
  sent (control s) = 2 /\ returned (control s) = 1 /\ lost (control s) = 1 /\ over2Ms (control s) = 1 /\
  unmatchedReturns s = 1 /\ notEtherCat s = 1 /\ sent (control s) = returned (control s) + lost (control s).
Proof.
  intros f rs s. split_and!; [vm_compute; reflexivity..|].
  destruct (summary_accounts rs) as (_ & _ & _ & H); [done|]. exact (proj1 (proj2 (H false))).
Defined.

End Capture.
