(* ===== verification/Procedures.v ===== *)
(** * Running procedures ([libs/node/procedure_manager.{h,cc}], [procedure.{h,cc}])

    The progress of a run, the thread that executes it, and the clients that start, poll and cancel
    runs, as a transition system. A block under [mutex_] (or under a reporter's or a run's own mutex)
    is one step, and so is every access to an atomic; a poller's reads are steps of their own, since
    the running thread takes no part in [mutex_]. What a procedure does is arbitrary: a body may
    report any steps in any order and return any result. *)

From S2P Require Import Prelude.

Module Procedures.

(** ** Progress ([procedure.{h,cc}]) *)
Inductive ProgressStatus := SIdle | SRunning | SSucceeded | SFailed.
Inductive ProcedureStatus := PIdle | PRunning | PSucceeded | PFailed | PCancelled.

#[export] Instance ProcedureStatus_eq_dec : EqDecision ProcedureStatus.
Proof. solve_decision. Defined.

Section Json.
(** The values a step can carry. *)
Context {J : Type} (null : J).

Record ProgressStep := mk_step { step_id : string; step_status : ProgressStatus; value : J; step_error : option string }.

Definition stepsFrom (ids : list string) : list ProgressStep := (fun i => mk_step i SIdle null None) <$> ids.

(** [findStep], and the change its caller makes to what it found. *)
Fixpoint change_step (steps : list ProgressStep) (i : string) (f : ProgressStep -> ProgressStep) : list ProgressStep :=
  match steps with
  | [] => []
  | s :: steps => if String.eqb (step_id s) i then f s :: steps else s :: change_step steps i f
  end.

(** What a body tells its reporter. *)
Inductive report := Start (i : string) | Succeed (i : string) (v : J) | FailStep (i : string) (e : string).

Definition apply_report (steps : list ProgressStep) (r : report) : list ProgressStep :=
  match r with
  | Start i => change_step steps i (fun s => mk_step (step_id s) SRunning null None)
  | Succeed i v => change_step steps i (fun s => mk_step (step_id s) SSucceeded v None)
  | FailStep i e => change_step steps i (fun s => mk_step (step_id s) SFailed (value s) (Some e))
  end.

Record ProcedureSnapshot := mk_snapshot {
  s_status : ProcedureStatus; s_runCount : Z; s_startedAt : option Z; s_finishedAt : option Z;
  s_steps : list ProgressStep; s_error : option string }.

Definition idleSnapshot (steps : list ProgressStep) : ProcedureSnapshot := mk_snapshot PIdle 0 None None steps None.

(** ** Runs *)
Definition result : Type := expected string unit.

(** Where a run's thread is: in the body, then before each of the stores that follow it, then before
    it gives up its own reference to the run, then gone. *)
Inductive thread_pc :=
  | TWork | TSetError (e : string) | TFinish (r : result) | TStatus (r : result) | TClear | TRelease | TDone.

Definition Key : Type := Z * string.

Record Run := mk_run {
  r_key : Key; r_steps : list ProgressStep; r_runCount : Z; r_startedAt : Z; r_generation : Z;
  r_status : ProcedureStatus; r_finishedAt : Z; r_running : bool; r_error : option string;
  r_stop : bool;                                 (* the jthread's stop source *)
  r_joinable : bool;                             (* the jthread has not been moved out of the run *)
  r_pc : thread_pc }.

(** What the locked half of a start needs: the request, and the generation read before the lock. *)
Inductive ProcedureError := Busy (position : Z) (name : string) | UnknownDevice (position : Z).

(** A client: idle, on its way through [startRun], in the middle of the reads of [snapshot] (which it
    makes holding [mutex_]), or with an answer. *)
Inductive client :=
  | CIdle
  | CFound (key : Key) (steps : list ProgressStep)
  | CReady (key : Key) (steps : list ProgressStep) (generation : Z)
  | CSnap (id : nat)
  | CSnapStatus (id : nat) (st : ProcedureStatus)
  | CSnapFinished (id : nat) (st : ProcedureStatus) (fin : Z)
  | CSnapError (id : nat) (st : ProcedureStatus) (fin : Z) (e : option string)
  | CStarted (r : expected ProcedureError unit)
  | CSnapshot (r : option (nat * ProcedureSnapshot))
  | CCancelled (b : bool).

Record state := mk_state {
  runs : gmap Key nat;                           (* runs_: a shared_ptr is the run's number *)
  heap : list Run;                               (* every run ever made *)
  generation : Z;                                (* DeviceManager::topologyGeneration *)
  devices : gset Z;                              (* the positions of the current device set *)
  clients : list client;
  closing : bool;                                (* ~ProcedureManager has begun *)
  self_joined : bool }.                          (* a thread destroyed the jthread it runs on: std::terminate *)

Definition initial (n : nat) : state := mk_state ∅ [] 0 ∅ (replicate n CIdle) false false.

Definition set_client (s : state) (i : nat) (c : client) : state :=
  mk_state (runs s) (heap s) (generation s) (devices s) (<[i := c]> (clients s)) (closing s) (self_joined s).
Definition set_runs (s : state) (m : gmap Key nat) : state :=
  mk_state m (heap s) (generation s) (devices s) (clients s) (closing s) (self_joined s).
Definition set_heap (s : state) (h : list Run) : state :=
  mk_state (runs s) h (generation s) (devices s) (clients s) (closing s) (self_joined s).

Definition is_running (s : state) (id : nat) : bool := match heap s !! id with Some r => r_running r | None => false end.
Definition generation_of (s : state) (id : nat) : Z := match heap s !! id with Some r => r_generation r | None => 0 end.

(** [discardIfRescanned] *)
Definition kept (s : state) (id : nat) : bool := (generation_of s id =? generation s) || is_running s id.
Definition discardIfRescanned (s : state) : state :=
  set_runs s (filter (fun p => kept s p.2 = true) (runs s)).

(** The first entry of the device that still runs; the order of the map decides which. *)
Definition busy (s : state) (position : Z) : option string :=
  match List.filter (fun p => (p.1.1 =? position) && is_running s p.2) (map_to_list (runs s)) with
  | [] => None
  | p :: _ => Some p.1.2
  end.

Definition stop_run (r : Run) : Run :=
  mk_run (r_key r) (r_steps r) (r_runCount r) (r_startedAt r) (r_generation r) (r_status r) (r_finishedAt r) (r_running r)
    (r_error r) true (r_joinable r) (r_pc r).

(** [startRun] from the lock on. *)
Definition startRun (key : Key) (steps : list ProgressStep) (gen now : Z) (s0 : state) : state * expected ProcedureError unit :=
  let s := discardIfRescanned s0 in
  match busy s key.1 with
  | Some name => (s, Unexpected (Busy key.1 name))
  | None =>
      let previous := match runs s !! key with Some id => match heap s !! id with Some r => r_runCount r | None => 0 end | None => 0 end in
      let run := mk_run key steps (u32 (previous + 1)) now gen PRunning 0 true None false true TWork in
      (set_heap (set_runs s (<[key := length (heap s)]> (runs s))) (heap s ++ [run]), Value tt)
  end.

(** [cancel] *)
Definition cancel (key : Key) (s0 : state) : state * bool :=
  let s := discardIfRescanned s0 in
  match runs s !! key with
  | Some id => if is_running s id then (set_heap s (alter stop_run id (heap s)), true) else (s, false)
  | None => (s, false)
  end.

Definition in_snapshot (c : client) : bool :=
  match c with CSnap _ | CSnapStatus _ _ | CSnapFinished _ _ _ | CSnapError _ _ _ _ => true | _ => false end.

(** Whether [mutex_] is free. *)
Definition lock_free (s : state) : bool := negb (existsb in_snapshot (clients s)).

(** ** Steps *)
Inductive choice :=
  | AStart (key : Key) (steps : list ProgressStep) | ASnapshot (key : Key) | ACancel (key : Key)
  | ANow (t : Z) | AReport (r : report) | AReturn (r : result) | AGo.

Definition client_step (i : nat) (c : choice) (s : state) : option state :=
  match clients s !! i, c with
  | Some CIdle, AStart key steps =>
      if closing s then None
      else if bool_decide (key.1 ∈ devices s) then Some (set_client s i (CFound key steps))
      else Some (set_client s i (CStarted (Unexpected (UnknownDevice key.1))))
  | Some (CFound key steps), AGo => Some (set_client s i (CReady key steps (generation s)))
  | Some (CReady key steps gen), ANow now =>
      if lock_free s && negb (closing s) then
        let '(s', r) := startRun key steps gen now s in Some (set_client s' i (CStarted r))
      else None
  | Some CIdle, ASnapshot key =>
      if lock_free s && negb (closing s) then
        let s' := discardIfRescanned s in
        Some (set_client s' i (match runs s' !! key with None => CSnapshot None | Some id => CSnap id end))
      else None
  | Some (CSnap id), AGo => r ← heap s !! id; Some (set_client s i (CSnapStatus id (r_status r)))
  | Some (CSnapStatus id st), AGo => r ← heap s !! id; Some (set_client s i (CSnapFinished id st (r_finishedAt r)))
  | Some (CSnapFinished id st fin), AGo => r ← heap s !! id; Some (set_client s i (CSnapError id st fin (r_error r)))
  | Some (CSnapError id st fin e), AGo =>
      r ← heap s !! id;
      Some (set_client s i (CSnapshot (Some (id, mk_snapshot st (r_runCount r) (Some (r_startedAt r))
        (if fin =? 0 then None else Some fin) (r_steps r) e))))
  | Some CIdle, ACancel key =>
      if lock_free s && negb (closing s) then let '(s', b) := cancel key s in Some (set_client s' i (CCancelled b)) else None
  | Some (CStarted _), AGo | Some (CSnapshot _), AGo | Some (CCancelled _), AGo => Some (set_client s i CIdle)
  | _, _ => None
  end.

Definition at_pc (r : Run) (p : thread_pc) : Run :=
  mk_run (r_key r) (r_steps r) (r_runCount r) (r_startedAt r) (r_generation r) (r_status r) (r_finishedAt r) (r_running r)
    (r_error r) (r_stop r) (r_joinable r) p.

Definition outcome (r : result) (stop : bool) : ProcedureStatus :=
  match r with Value _ => PSucceeded | Unexpected _ => if stop then PCancelled else PFailed end.

(** One action of a run's thread, on the run. *)
Definition thread_action (r : Run) (c : choice) : option Run :=
  match r_pc r, c with
  | TWork, AReport rep =>
      Some (mk_run (r_key r) (apply_report (r_steps r) rep) (r_runCount r) (r_startedAt r) (r_generation r) (r_status r)
        (r_finishedAt r) (r_running r) (r_error r) (r_stop r) (r_joinable r) TWork)
  | TWork, AReturn (Unexpected e) => Some (at_pc r (TSetError e))
  | TWork, AReturn (Value u) => Some (at_pc r (TFinish (Value u)))
  | TSetError e, AGo =>
      Some (mk_run (r_key r) (r_steps r) (r_runCount r) (r_startedAt r) (r_generation r) (r_status r) (r_finishedAt r)
        (r_running r) (Some e) (r_stop r) (r_joinable r) (TFinish (Unexpected e)))
  | TFinish res, ANow t =>
      if 0 <? t then
        Some (mk_run (r_key r) (r_steps r) (r_runCount r) (r_startedAt r) (r_generation r) (r_status r) t (r_running r)
          (r_error r) (r_stop r) (r_joinable r) (TStatus res))
      else None
  | TStatus res, AGo =>
      Some (mk_run (r_key r) (r_steps r) (r_runCount r) (r_startedAt r) (r_generation r) (outcome res (r_stop r)) (r_finishedAt r)
        (r_running r) (r_error r) (r_stop r) (r_joinable r) TClear)
  | TClear, AGo =>
      Some (mk_run (r_key r) (r_steps r) (r_runCount r) (r_startedAt r) (r_generation r) (r_status r) (r_finishedAt r) false
        (r_error r) (r_stop r) (r_joinable r) TRelease)
  | TRelease, AGo => Some (at_pc r TDone)
  | _, _ => None
  end.

(** The map's reference to a run; the thread's own is the one it gives up in [TRelease]. *)
Definition in_map (s : state) (id : nat) (r : Run) : bool := bool_decide (runs s !! r_key r = Some id).

Definition thread_step (id : nat) (c : choice) (s : state) : option state :=
  r ← heap s !! id;
  r' ← thread_action r c;
  let last := match r_pc r with TRelease => negb (in_map s id r) && r_joinable r | _ => false end in
  Some (mk_state (runs s) (<[id := r']> (heap s)) (generation s) (devices s) (clients s) (closing s) (self_joined s || last)).

(** The device set is rebuilt. *)
Definition rescan (ds : gset Z) (s : state) : state :=
  mk_state (runs s) (heap s) (u64 (generation s + 1)) ds (clients s) (closing s) (self_joined s).

(** [~ProcedureManager]: every joinable thread is asked to stop and moved out of its run. *)
Definition move_out (r : Run) : Run :=
  mk_run (r_key r) (r_steps r) (r_runCount r) (r_startedAt r) (r_generation r) (r_status r) (r_finishedAt r) (r_running r)
    (r_error r) true false (r_pc r).

Definition destroy (s : state) : option state :=
  if lock_free s then
    Some (mk_state (runs s) (imap (fun id r => if in_map s id r then move_out r else r) (heap s)) (generation s) (devices s)
      (clients s) true (self_joined s))
  else None.

Definition step (s s' : state) : Prop :=
  self_joined s = false /\
  ((exists i c, client_step i c s = Some s') \/ (exists id c, thread_step id c s = Some s') \/
   (exists ds, s' = rescan ds s) \/ destroy s = Some s').

(** ** What a step may do to a run

    Its identity never changes; once its status is final, nothing that a poller can see does. *)
Definition visible (r : Run) : ProcedureStatus * Z * option string * list ProgressStep :=
  (r_status r, r_finishedAt r, r_error r, r_steps r).

Record evolves (r r' : Run) : Prop := {
  e_key : r_key r' = r_key r; e_count : r_runCount r' = r_runCount r; e_started : r_startedAt r' = r_startedAt r;
  e_ids : step_id <$> r_steps r' = step_id <$> r_steps r;
  e_final : r_status r <> PRunning -> visible r' = visible r;
  e_running : r_running r = false -> r_running r' = false;
  e_stop : r_stop r = true -> r_stop r' = true }.

Lemma run_evolves_refl r : evolves r r.
Proof. done. Qed.

Lemma run_evolves_trans r1 r2 r3 : evolves r1 r2 -> evolves r2 r3 -> evolves r1 r3.
Proof.
  intros [H1 H2 H3 H4 H5 H6 H7] [G1 G2 G3 G4 G5 G6 G7]. split; try congruence; auto.
  intros Hf. specialize (H5 Hf). rewrite G5; [done|]. assert (r_status r2 = r_status r1) as -> by (by injection H5). done.
Qed.

Definition alive (p : thread_pc) : bool := match p with TRelease | TDone => false | _ => true end.

Definition error_of (r : result) : option string := match r with Value _ => None | Unexpected e => Some e end.

(** What each point of the thread has stored. *)
Definition stored (r : Run) : Prop :=
  match r_pc r with
  | TWork | TSetError _ => r_status r = PRunning /\ r_finishedAt r = 0 /\ r_error r = None
  | TFinish res => r_status r = PRunning /\ r_finishedAt r = 0 /\ r_error r = error_of res
  | TStatus res => r_status r = PRunning /\ 0 < r_finishedAt r /\ r_error r = error_of res
  | TClear | TRelease | TDone =>
      r_status r <> PRunning /\ r_status r <> PIdle /\ 0 < r_finishedAt r /\ (r_status r = PSucceeded <-> r_error r = None)
  end.

Record run_ok (r : Run) : Prop := { o_running : r_running r = alive (r_pc r); o_stored : stored r }.

Lemma change_step_ids steps i f : (forall s, step_id (f s) = step_id s) -> step_id <$> change_step steps i f = step_id <$> steps.
Proof. intros Hf. induction steps as [|s steps IH]; [done|]. cbn. destruct (String.eqb _ _); cbn; [by rewrite Hf|by f_equal]. Qed.

Lemma apply_report_ids steps r : step_id <$> apply_report steps r = step_id <$> steps.
Proof. by destruct r; apply change_step_ids. Qed.

Lemma thread_action_ok r c r' : thread_action r c = Some r' -> run_ok r -> run_ok r' /\ evolves r r'.
Proof.
  unfold thread_action. intros E [Hr Hs]. unfold stored in Hs.
  destruct (r_pc r) as [|e|res|res| | |] eqn:Epc; destruct c as [| | |t|rep|res'|]; try done.
  - injection E as <-. split; [by split|]. split; cbn; try done. apply apply_report_ids. intros []. by destruct Hs.
  - destruct res' as [u|e]; injection E as <-; split; try (by split); split; done || (intros Hf; by destruct Hs).
  - injection E as <-. destruct Hs as (Hs & Hfin & He). split; [by split|]. split; done.
  - destruct (Z.ltb_spec 0 t); [|done]. injection E as <-. destruct Hs as (Hs & Hfin & He). split; [by split|]. by split.
  - injection E as <-. destruct Hs as (Hs & Hfin & He). split; [split; [done|]|by split].
    unfold stored; cbn. rewrite He. destruct res, (r_stop r); cbn; split_and!; try done; lia.
  - injection E as <-. split; [by split|]. split; done.
  - injection E as <-. split; [by split|]. split; done.
Qed.

Lemma stop_run_ok r : run_ok r -> run_ok (stop_run r) /\ evolves r (stop_run r).
Proof. intros [Hr Hs]. by split. Qed.

Lemma move_out_ok r : run_ok r -> run_ok (move_out r) /\ evolves r (move_out r).
Proof. intros [Hr Hs]. by split. Qed.

(** ** The invariant *)

(** A snapshot of run [r], taken in the order the code reads: if its status is final, it is the whole final outcome. *)
Definition snapshot_of (r : Run) (st : ProcedureStatus) (fin : option Z) (e : option (option string)) : Prop :=
  st <> PRunning -> r_status r = st /\ (forall f, fin = Some f -> r_finishedAt r = f) /\ (forall x, e = Some x -> r_error r = x).

Definition final_snapshot (r : Run) : ProcedureSnapshot :=
  mk_snapshot (r_status r) (r_runCount r) (Some (r_startedAt r)) (Some (r_finishedAt r)) (r_steps r) (r_error r).

Definition client_ok (h : list Run) (c : client) : Prop :=
  match c with
  | CSnap id => exists r, h !! id = Some r
  | CSnapStatus id st => exists r, h !! id = Some r /\ snapshot_of r st None None
  | CSnapFinished id st fin => exists r, h !! id = Some r /\ snapshot_of r st (Some fin) None
  | CSnapError id st fin e => exists r, h !! id = Some r /\ snapshot_of r st (Some fin) (Some e)
  | CSnapshot (Some (id, s)) => exists r, h !! id = Some r /\ s_runCount s = r_runCount r /\ s_startedAt s = Some (r_startedAt r) /\
      step_id <$> s_steps s = step_id <$> r_steps r /\ (s_status s <> PRunning -> s = final_snapshot r)
  | _ => True
  end.

Record Inv (s : state) : Prop := {
  inv_map : forall k id, runs s !! k = Some id -> exists r, heap s !! id = Some r /\ r_key r = k;
  inv_running : forall id r, heap s !! id = Some r -> r_running r = true -> runs s !! r_key r = Some id;
  inv_runs : forall id r, heap s !! id = Some r -> run_ok r;
  inv_exclusive : forall i j r r', heap s !! i = Some r -> heap s !! j = Some r' -> r_running r = true -> r_running r' = true ->
    (r_key r).1 = (r_key r').1 -> i = j;
  inv_clients : forall i c, clients s !! i = Some c -> client_ok (heap s) c }.

(** Every run of [h] is still in [h'], further on. *)
Definition grows (h h' : list Run) : Prop := forall id r, h !! id = Some r -> exists r', h' !! id = Some r' /\ evolves r r'.

Lemma grows_refl h : grows h h.
Proof. intros id r H. by exists r. Qed.

Lemma snapshot_of_evolves r r' st fin e : evolves r r' -> snapshot_of r st fin e -> snapshot_of r' st fin e.
Proof.
  intros He Hs Hst. destruct (Hs Hst) as (E1 & E2 & E3).
  pose proof (e_final _ _ He ltac:(by rewrite E1)) as Hv. injection Hv as -> -> -> _. done.
Qed.

Lemma client_ok_grows h h' c : grows h h' -> client_ok h c -> client_ok h' c.
Proof.
  intros Hg. destruct c as [| | |id|id st|id st fin|id st fin e| |[[id s]|]|]; cbn; try done.
  - intros (r & Hr). destruct (Hg _ _ Hr) as (r' & ? & _). eauto.
  - intros (r & Hr & Hs). destruct (Hg _ _ Hr) as (r' & ? & ?). eauto using snapshot_of_evolves.
  - intros (r & Hr & Hs). destruct (Hg _ _ Hr) as (r' & ? & ?). eauto using snapshot_of_evolves.
  - intros (r & Hr & Hs). destruct (Hg _ _ Hr) as (r' & ? & ?). eauto using snapshot_of_evolves.
  - intros (r & Hr & H1 & H2 & H3 & H4). destruct (Hg _ _ Hr) as (r' & Hr' & He). exists r'. pose proof He as [E1 E2 E3 E4 E5 _ _].
    split_and!; [done|congruence..|]. intros Hst. rewrite (H4 Hst) in Hst |- *. cbn in Hst. specialize (E5 Hst).
    unfold final_snapshot. rewrite E2, E3. injection E5 as -> -> -> ->. done.
Qed.

Lemma Inv_client s i c : Inv s -> client_ok (heap s) c -> Inv (set_client s i c).
Proof.
  intros [H1 H2 H3 H4 H5] Hc. split; cbn; try done. intros j c'. rewrite list_lookup_insert_Some.
  intros [(-> & <- & _)|(_ & Hj)]; [done|eauto].
Qed.

(** A step that moves runs on and leaves the map alone. *)
Lemma Inv_heap s s' : Inv s -> runs s' = runs s -> clients s' = clients s -> length (heap s') = length (heap s) ->
  (forall id r r', heap s !! id = Some r -> heap s' !! id = Some r' -> run_ok r' /\ evolves r r') -> Inv s'.
Proof.
  intros [H1 H2 H3 H4 H5] Hruns Hcl Hlen Hev.
  assert (Hback : forall id r', heap s' !! id = Some r' -> exists r, heap s !! id = Some r /\ run_ok r' /\ evolves r r').
  { intros id r' Hr'. destruct (lookup_lt_is_Some_2 (heap s) id) as [r Hr]; [rewrite <- Hlen; by eapply lookup_lt_Some|]. eauto. }
  assert (Hg : grows (heap s) (heap s')).
  { intros id r Hr. destruct (lookup_lt_is_Some_2 (heap s') id) as [r' Hr']; [rewrite Hlen; by eapply lookup_lt_Some|].
    exists r'. split; [done|]. by eapply Hev. }
  assert (Hrun : forall r r', evolves r r' -> r_running r' = true -> r_running r = true).
  { intros r r' He Hr. destruct (r_running r) eqn:E; [done|]. rewrite (e_running _ _ He E) in Hr. done. }
  split.
  - intros k id Hk. rewrite Hruns in Hk. destruct (H1 _ _ Hk) as (r & Hr & <-). destruct (Hg _ _ Hr) as (r' & Hr' & He).
    exists r'. split; [done|apply (e_key _ _ He)].
  - intros id r' Hr' Hrr. destruct (Hback _ _ Hr') as (r & Hr & _ & He). rewrite Hruns, (e_key _ _ He). eauto.
  - intros id r' Hr'. by destruct (Hback _ _ Hr') as (r & _ & Hok & _).
  - intros i j r r' Hi Hj Hri Hrj. destruct (Hback _ _ Hi) as (ri & Hri' & _ & Hei), (Hback _ _ Hj) as (rj & Hrj' & _ & Hej).
    rewrite (e_key _ _ Hei), (e_key _ _ Hej). eauto.
  - intros i c Hc. rewrite Hcl in Hc. eauto using client_ok_grows.
Qed.

Lemma Inv_discard s : Inv s -> Inv (discardIfRescanned s).
Proof.
  intros [H1 H2 H3 H4 H5]. split; cbn; try done.
  - intros k id. rewrite map_lookup_filter_Some. intros [Hk _]. eauto.
  - intros id r Hr Hrr. rewrite map_lookup_filter_Some. split; [eauto|]. cbn. unfold kept, is_running. rewrite Hr, Hrr.
    apply orb_true_r.
Qed.

Lemma busy_None s position : Inv s -> busy s position = None ->
  forall id r, heap s !! id = Some r -> r_running r = true -> (r_key r).1 <> position.
Proof.
  intros HI Hb id r Hr Hrr Hp. unfold busy in Hb. destruct (List.filter _ _) as [|p l] eqn:E; [|done].
  assert (Hin : In (r_key r, id) (List.filter (fun p => (p.1.1 =? position) && is_running s p.2) (map_to_list (runs s))));
    [|by rewrite E in Hin]. apply filter_In. split.
  - apply list_elem_of_In, elem_of_map_to_list. by apply (inv_running _ HI).
  - cbn. unfold is_running. rewrite Hr, Hrr, Hp, Z.eqb_refl. done.
Qed.

Lemma busy_Some s position name : Inv s -> busy s position = Some name ->
  exists id r, heap s !! id = Some r /\ r_running r = true /\ r_key r = (position, name).
Proof.
  intros HI Hb. unfold busy in Hb. destruct (List.filter _ _) as [|p l] eqn:E; [done|]. injection Hb as <-.
  assert (Hin : In p (p :: l)) by (by left). rewrite <- E in Hin. apply filter_In in Hin as [Hin Hp].
  destruct p as [[q nm] id]. apply list_elem_of_In, elem_of_map_to_list in Hin. destruct (inv_map _ HI _ _ Hin) as (r & Hr & Hk).
  cbn in *. apply andb_prop in Hp as [<-%Z.eqb_eq Hrun]. unfold is_running in Hrun. rewrite Hr in Hrun. by exists id, r.
Qed.

Lemma Inv_startRun key steps gen now s s' res : Inv s -> startRun key steps gen now s = (s', res) -> Inv s'.
Proof.
  intros HI%Inv_discard E. unfold startRun in E. set (d := discardIfRescanned s) in *.
  destruct (busy d key.1) as [name|] eqn:Eb; injection E as <- _; [done|].
  pose proof (busy_None _ _ HI Eb) as Hfree. destruct HI as [H1 H2 H3 H4 H5].
  set (run := mk_run _ _ _ _ _ _ _ _ _ _ _ _). split; cbn [set_heap set_runs runs heap clients].
  - intros k id. rewrite lookup_insert_Some. intros [[<- <-]|[Hne Hk]].
    + exists run. by rewrite lookup_app_r, Nat.sub_diag by done.
    + destruct (H1 _ _ Hk) as (r & Hr & ?). exists r. split; [by apply lookup_app_l_Some|done].
  - intros id r [Hr|[Hle Hr]]%lookup_app_Some Hrr.
    + rewrite lookup_insert_ne; [eauto|]. intros ->. by eapply Hfree.
    + apply list_lookup_singleton_Some in Hr as [Hid <-]. cbn. rewrite lookup_insert_eq. f_equal. lia.
  - intros id r [Hr|[_ Hr]]%lookup_app_Some; [eauto|]. apply list_lookup_singleton_Some in Hr as [_ <-]. by split.
  - intros i j r r' [Hi|[Hli Hi]]%lookup_app_Some [Hj|[Hlj Hj]]%lookup_app_Some Hri Hrj Hk; [eauto| | |].
    + apply list_lookup_singleton_Some in Hj as [_ <-]. by destruct (Hfree _ _ Hi Hri).
    + apply list_lookup_singleton_Some in Hi as [_ <-]. by destruct (Hfree _ _ Hj Hrj).
    + apply list_lookup_singleton_Some in Hi as [? _], Hj as [? _]. lia.
  - intros i c Hc. eapply client_ok_grows; [|eauto]. intros id r Hr. exists r. split; [by apply lookup_app_l_Some|done].
Qed.

Lemma Inv_cancel key s s' b : Inv s -> cancel key s = (s', b) -> Inv s'.
Proof.
  intros HI%Inv_discard E. unfold cancel in E. set (d := discardIfRescanned s) in *.
  destruct (runs d !! key) as [id|]; [|by injection E as <- _]. destruct (is_running d id); injection E as <- _; [|done].
  eapply Inv_heap; [exact HI|done..| |]; cbn; [by rewrite length_alter|].
  intros j r r' Hr. pose proof (inv_runs _ HI _ _ Hr). destruct (decide (id = j)) as [->|Hne].
  - rewrite list_lookup_alter_eq. rewrite Hr. intros [= <-]. by apply stop_run_ok.
  - rewrite list_lookup_alter_ne by done. rewrite Hr. by intros [= <-].
Qed.

Lemma Inv_thread id c s s' : Inv s -> thread_step id c s = Some s' -> Inv s'.
Proof.
  intros HI E. unfold thread_step in E. destruct (heap s !! id) as [r|] eqn:Hr; [|done]. cbn in E.
  destruct (thread_action r c) as [r'|] eqn:Ea; [|done]. injection E as <-.
  destruct (thread_action_ok _ _ _ Ea (inv_runs _ HI _ _ Hr)) as [Hok Hev].
  eapply Inv_heap; [exact HI|done..| |]; cbn; [by rewrite length_insert|]. intros j q q' Hq.
  rewrite list_lookup_insert_Some. intros [(-> & <- & _)|[_ Hq']]; simplify_eq; [done|]. split; [by eapply (inv_runs _ HI)|done].
Qed.

Lemma Inv_destroy s s' : Inv s -> destroy s = Some s' -> Inv s'.
Proof.
  intros HI E. unfold destroy in E. destruct (lock_free s); [|done]. injection E as <-.
  eapply Inv_heap; [exact HI|done..| |]; cbn; [by rewrite length_imap|]. intros j q q' Hq.
  rewrite list_lookup_imap, Hq. intros [= <-]. pose proof (inv_runs _ HI _ _ Hq).
  destruct (in_map s j q); [by apply move_out_ok|done].
Qed.

Lemma Inv_step_client i c s s' : Inv s -> client_step i c s = Some s' -> Inv s'.
Proof.
  intros HI E. unfold client_step in E. destruct (clients s !! i) as [cl|] eqn:Hcl; [|done].
  pose proof (inv_clients _ HI _ _ Hcl) as Hok.
  destruct cl as [|key steps|key steps gen|id|id st|id st fin|id st fin e|res|[[id sn]|]|b], c as [key' steps'|key'|key'|now|rep|res'|]; try done.
  - destruct (closing s); [done|]. case_bool_decide; injection E as <-; by apply Inv_client.
  - destruct (_ && _); [|done]. injection E as <-. apply Inv_client; [by apply Inv_discard|].
    change (filter _ (runs s)) with (runs (discardIfRescanned s)).
    destruct (runs (discardIfRescanned s) !! key') as [id|] eqn:Ek; [|done].
    destruct (inv_map _ (Inv_discard _ HI) _ _ Ek) as (r & Hr & _). by exists r.
  - destruct (_ && _); [|done]. destruct (cancel key' s) as [s1 b] eqn:Ec. injection E as <-.
    apply Inv_client; [by eapply Inv_cancel|done].
  - injection E as <-. by apply Inv_client.
  - destruct (_ && _); [|done]. destruct (startRun key steps gen now s) as [s1 res] eqn:Es. injection E as <-.
    apply Inv_client; [by eapply Inv_startRun|done].
  - destruct Hok as (r & Hr). rewrite Hr in E. injection E as <-. apply Inv_client; [done|]. exists r. split; [done|]. by intros Hst.
  - destruct Hok as (r & Hr & Hs). rewrite Hr in E. injection E as <-. apply Inv_client; [done|]. exists r. split; [done|].
    intros Hst. destruct (Hs Hst) as (? & _ & _). split_and!; try done. by intros f [= <-].
  - destruct Hok as (r & Hr & Hs). rewrite Hr in E. injection E as <-. apply Inv_client; [done|]. exists r. split; [done|].
    intros Hst. destruct (Hs Hst) as (? & ? & _). split_and!; try done. by intros f [= <-].
  - destruct Hok as (r & Hr & Hs). rewrite Hr in E. injection E as <-. apply Inv_client; [done|]. exists r. split_and!; try done.
    cbn. intros Hst. destruct (Hs Hst) as (Est & Ef & Ee). pose proof (inv_runs _ HI _ _ Hr) as [_ Hsto]. unfold stored in Hsto.
    rewrite (Ef _ eq_refl), (Ee _ eq_refl) in Hsto.
    assert (0 < fin) as Hpos by (destruct (r_pc r); destruct Hsto as (? & ?); try congruence; lia).
    unfold final_snapshot. rewrite Est, (Ef _ eq_refl), (Ee _ eq_refl). destruct (Z.eqb_spec fin 0); [lia|done].
  - injection E as <-. by apply Inv_client.
  - injection E as <-. by apply Inv_client.
  - injection E as <-. by apply Inv_client.
  - injection E as <-. by apply Inv_client.
Qed.

Lemma runs_inv_initial n : Inv (initial n).
Proof. split; cbn; try done. intros i c [-> _]%lookup_replicate. done. Qed.

Lemma runs_inv_step s s' : Inv s -> step s s' -> Inv s'.
Proof.
  intros HI (_ & [(i & c & E)|[(id & c & E)|[(ds & ->)|E]]]).
  - by eapply Inv_step_client.
  - by eapply Inv_thread.
  - eapply Inv_heap; [exact HI|done..|]. cbn. intros id r r' Hr Hr'. simplify_eq. split; [by eapply (inv_runs _ HI)|done].
  - by eapply Inv_destroy.
Qed.

Lemma runs_inv_reachable n s : rtc step (initial n) s -> Inv s.
Proof. intros Hr. eapply rtc_invariant; [apply runs_inv_step|exact Hr|apply runs_inv_initial]. Qed.

(** ** What holds in every reachable state *)

(** C16: in every reachable state, whatever the bodies do and however clients, threads and rescans interleave: no two threads
    execute a procedure on the same device; a start is refused as busy exactly when one does, naming it; and a start that
    succeeds is at once visible under its key as a running run with the count of the run it replaces plus one. *)
Theorem procedures_exclusive n s : rtc step (initial n) s ->
  (forall i j r r', heap s !! i = Some r -> heap s !! j = Some r' -> alive (r_pc r) = true -> alive (r_pc r') = true ->
     (r_key r).1 = (r_key r').1 -> i = j) /\
  (forall key steps gen now s' res, startRun key steps gen now s = (s', res) ->
     match res with
     | Unexpected e => exists id r name, heap s !! id = Some r /\ alive (r_pc r) = true /\ r_key r = (key.1, name) /\ e = Busy key.1 name
     | Value _ =>
         (forall id r, heap s !! id = Some r -> (r_key r).1 = key.1 -> alive (r_pc r) = false) /\
         exists id r, runs s' !! key = Some id /\ heap s' !! id = Some r /\ r_status r = PRunning /\ r_steps r = steps /\
           forall id0 r0, runs (discardIfRescanned s) !! key = Some id0 -> heap s !! id0 = Some r0 ->
             r_runCount r = u32 (r_runCount r0 + 1)
     end).
Proof.
  intros Hr%runs_inv_reachable. split.
  - intros i j r r' Hi Hj Ha Ha' Hk. eapply (inv_exclusive _ Hr); [exact Hi|exact Hj| | |done].
    + by rewrite (o_running _ (inv_runs _ Hr _ _ Hi)).
    + by rewrite (o_running _ (inv_runs _ Hr _ _ Hj)).
  - intros key steps gen now s' res E. pose proof (Inv_discard _ Hr) as Hd. unfold startRun in E.
    destruct (busy (discardIfRescanned s) key.1) as [name|] eqn:Eb; injection E as <- <-.
    + destruct (busy_Some _ _ _ Hd Eb) as (id & r & Hid & Hrun & Hk). exists id, r, name. split_and!; try done.
      by rewrite <- (o_running _ (inv_runs _ Hd _ _ Hid)).
    + split.
      * intros id r Hid Hk. rewrite <- (o_running _ (inv_runs _ Hr _ _ Hid)). destruct (r_running r) eqn:Er; [|done].
        by destruct (busy_None _ _ Hd Eb _ _ Hid Er).
      * eexists _, _. split_and!; [cbn; apply lookup_insert_eq|cbn; by rewrite lookup_app_r, Nat.sub_diag|done..|].
        intros id0 r0 Hk Hid0. cbn in Hk |- *. by rewrite Hk, Hid0.
Qed.

(** A poller never sees a torn outcome. Whatever the running thread does between its reads, a snapshot whose status is
    final is the complete final outcome of the run (status, times, error, every step), with a finish time and an error exactly
    when the run did not succeed; and every snapshot lists the steps of the run's template in order. *)
Theorem snapshot_not_torn n s i id sn : rtc step (initial n) s -> clients s !! i = Some (CSnapshot (Some (id, sn))) ->
  exists r, heap s !! id = Some r /\ step_id <$> s_steps sn = step_id <$> r_steps r /\ s_runCount sn = r_runCount r /\
    (s_status sn <> PRunning -> sn = final_snapshot r /\ 0 < r_finishedAt r /\ (s_status sn = PSucceeded <-> s_error sn = None)).
Proof.
  intros Hr%runs_inv_reachable Hc. destruct (inv_clients _ Hr _ _ Hc) as (r & Hid & Hcount & _ & Hids & Hfinal). exists r.
  split_and!; try done. intros Hst. rewrite (Hfinal Hst) in Hst |- *. cbn in *.
  destruct (inv_runs _ Hr _ _ Hid) as [_ Hs]. unfold stored in Hs. destruct (r_pc r); try (by destruct Hs); by destruct Hs as (_ & _ & ? & ?).
Qed.

(** ** Cancelling *)
Lemma grows_trans h1 h2 h3 : grows h1 h2 -> grows h2 h3 -> grows h1 h3.
Proof.
  intros H1 H2 id r Hr. destruct (H1 _ _ Hr) as (r2 & Hr2 & He2). destruct (H2 _ _ Hr2) as (r3 & Hr3 & He3).
  exists r3. split; [done|by eapply run_evolves_trans].
Qed.

(** A run that was asked to stop and has no outcome yet will not be reported as failed. *)
Definition not_failing (r : Run) : Prop := r_stop r = true /\ r_status r <> PFailed.

Lemma thread_action_not_failing r c r' : run_ok r -> thread_action r c = Some r' -> not_failing r -> not_failing r'.
Proof.
  intros [_ Hs] E [Hstop Hst]. unfold thread_action in E.
  destruct (r_pc r) as [|e|res|res| | |]; destruct c as [| | |t|rep|res'|]; try done; try (injection E as <-; done).
  - destruct res'; by injection E as <-.
  - destruct (0 <? t); [|done]. by injection E as <-.
  - injection E as <-. split; [done|]. cbn. rewrite Hstop. by destruct res.
Qed.

Lemma startRun_heap key steps gen now s s' res id r : startRun key steps gen now s = (s', res) -> heap s !! id = Some r ->
  heap s' !! id = Some r.
Proof.
  unfold startRun. intros E Hr. destruct (busy _ _); injection E as <- _; [done|]. cbn. by apply lookup_app_l_Some.
Qed.

Lemma cancel_heap key s s' b id r : cancel key s = (s', b) -> heap s !! id = Some r ->
  exists r', heap s' !! id = Some r' /\ (r' = r \/ r' = stop_run r).
Proof.
  unfold cancel. intros E Hr. destruct (runs _ !! key) as [j|]; [|injection E as <- _; eauto].
  destruct (is_running _ _); injection E as <- _; [|eauto]. cbn. destruct (decide (j = id)) as [->|Hne].
  - rewrite list_lookup_alter_eq, Hr. eauto.
  - rewrite list_lookup_alter_ne by done. eauto.
Qed.

Lemma client_step_heap i c s s' id r : client_step i c s = Some s' -> heap s !! id = Some r ->
  exists r', heap s' !! id = Some r' /\ (r' = r \/ r' = stop_run r).
Proof.
  unfold client_step. intros E Hr. destruct (clients s !! i) as [cl|]; [|done].
  destruct cl as [|key steps|key steps gen|j|j st|j st fin|j st fin e|res|sn|b], c as [key' steps'|key'|key'|now|rep|res'|]; try done.
  - destruct (closing s); [done|]. case_bool_decide; injection E as <-; eauto.
  - destruct (_ && _); [|done]. injection E as <-. eauto.
  - destruct (_ && _); [|done]. destruct (cancel key' s) as [s1 b] eqn:Ec. injection E as <-. exact (cancel_heap _ _ _ _ _ _ Ec Hr).
  - injection E as <-. eauto.
  - destruct (_ && _); [|done]. destruct (startRun key steps gen now s) as [s1 res] eqn:Es. injection E as <-.
    exists r. split; [exact (startRun_heap _ _ _ _ _ _ _ _ _ Es Hr)|by left].
  - apply bind_Some in E as (q & _ & [= <-]). eauto.
  - apply bind_Some in E as (q & _ & [= <-]). eauto.
  - apply bind_Some in E as (q & _ & [= <-]). eauto.
  - apply bind_Some in E as (q & _ & [= <-]). eauto.
  - injection E as <-. eauto.
  - injection E as <-. eauto.
  - injection E as <-. eauto.
Qed.

Lemma step_not_failing s s' id r : Inv s -> step s s' -> heap s !! id = Some r -> not_failing r ->
  exists r', heap s' !! id = Some r' /\ not_failing r'.
Proof.
  intros HI (_ & [(i & c & E)|[(j & c & E)|[(ds & ->)|E]]]) Hr Hn; [| |by exists r|].
  - destruct (client_step_heap _ _ _ _ _ _ E Hr) as (r' & Hr' & [->| ->]); (eexists; split; [exact Hr'|]); [done|].
    split; [done|apply Hn].
  - unfold thread_step in E. destruct (heap s !! j) as [q|] eqn:Hq; [|done]. cbn in E.
    destruct (thread_action q c) as [q'|] eqn:Ea; [|done]. injection E as <-. cbn. destruct (decide (id = j)) as [->|Hne].
    + simplify_eq. exists q'. split; [by apply list_lookup_insert_eq; eapply lookup_lt_Some|].
      eapply thread_action_not_failing; [by eapply (inv_runs _ HI)|done..].
    + exists r. by rewrite list_lookup_insert_ne by done.
  - unfold destroy in E. destruct (lock_free s); [|done]. injection E as <-. cbn. rewrite list_lookup_imap, Hr.
    eexists. split; [done|]. destruct (in_map s id r); [|done]. split; [done|apply Hn].
Qed.

Lemma cancelled_stays s s' id r : Inv s -> rtc step s s' -> heap s !! id = Some r -> not_failing r ->
  exists r', heap s' !! id = Some r' /\ not_failing r'.
Proof.
  intros HI Hr. revert r HI. induction Hr as [s|s s1 s' Hs _ IH]; intros r HI Hid Hn; [by exists r|].
  destruct (step_not_failing _ _ _ _ HI Hs Hid Hn) as (r1 & H1 & Hn1). eapply IH; [by eapply runs_inv_step|done..].
Qed.

(** A [cancel] that returns true has asked the run of its key to stop; and unless the run's outcome was already stored by
    then, the run is never reported as failed, whatever its body returns and whatever happens later: it ends as cancelled, or
    as succeeded when the body completed all the same. *)
Theorem cancel_outcome n s key s1 : rtc step (initial n) s -> cancel key s = (s1, true) ->
  exists id r, runs s1 !! key = Some id /\ heap s1 !! id = Some r /\ r_stop r = true /\ r_running r = true /\
    (r_status r = PRunning -> forall s2, rtc step s1 s2 ->
       exists r2, heap s2 !! id = Some r2 /\ r_status r2 <> PFailed /\ (alive (r_pc r2) = false -> r_status r2 = PCancelled \/ r_status r2 = PSucceeded)).
Proof.
  intros HI%runs_inv_reachable E. pose proof (Inv_cancel _ _ _ _ HI E) as HI1. unfold cancel in E.
  destruct (runs (discardIfRescanned s) !! key) as [id|] eqn:Ek; [|done].
  destruct (is_running (discardIfRescanned s) id) eqn:Er; [|done]. injection E as <-. unfold is_running in Er.
  destruct (heap (discardIfRescanned s) !! id) as [r|] eqn:Hr; [|done]. exists id, (stop_run r).
  assert (Hid : heap (set_heap (discardIfRescanned s) (alter stop_run id (heap (discardIfRescanned s)))) !! id = Some (stop_run r)).
  { cbn in Hr |- *. by rewrite list_lookup_alter_eq, Hr. }
  split_and!; try done. intros Hst s2 H2. destruct (cancelled_stays _ _ id _ HI1 H2 Hid) as (r2 & Hr2 & _ & Hnf); [by split; [|rewrite Hst]|].
  exists r2. split_and!; try done. intros Ha. assert (HI2 : Inv s2) by (eapply rtc_invariant; [apply runs_inv_step|exact H2|exact HI1]).
  destruct (inv_runs _ HI2 _ _ Hr2) as [_ Hs]. unfold stored in Hs. destruct (r_pc r2); try done; destruct Hs as (? & ? & _);
    destruct (r_status r2); tauto.
Qed.
End Json.

(** ** Schedules *)
Inductive move := MClient (i : nat) (c : @choice unit) | MThread (id : nat) (c : @choice unit) | MRescan (ds : list Z).

Definition exec (mv : move) (s : @state unit) : option (@state unit) :=
  if self_joined s then None
  else match mv with
       | MClient i c => client_step i c s
       | MThread id c => thread_step tt id c s
       | MRescan ds => Some (rescan (list_to_set ds) s)
       end.

Definition exec_all (ms : list move) (s : @state unit) : option (@state unit) := foldl (fun o mv => o ≫= exec mv) (Some s) ms.

Lemma exec_step mv s s' : exec mv s = Some s' -> step tt s s'.
Proof.
  unfold exec. intros E. destruct (self_joined s) eqn:Ej; [done|]. split; [done|]. destruct mv; [left; eauto|right; left; eauto|].
  injection E as <-. right; right; left. eauto.
Qed.

Lemma exec_all_rtc ms s s' : exec_all ms s = Some s' -> rtc (step tt) s s'.
Proof.
  revert s' s. induction ms as [|mv ms IH] using rev_ind; intros s' s E; [injection E as <-; done|].
  unfold exec_all in E. rewrite foldl_app in E. cbn in E. apply bind_Some in E as (s1 & E1 & E2).
  eapply rtc_r; [by apply IH|by eapply exec_step].
Qed.

Definition spin : Key := (1, "spin").
Definition begin (i : nat) (now : Z) : list move := [MClient i (AStart spin (stepsFrom tt ["turn"])); MClient i AGo; MClient i (ANow now); MClient i AGo].

(** The thread of run 0 up to the store that clears [running]. *)
Definition finish0 : list move := [MThread 0 (AReturn (Value tt)); MThread 0 (ANow 7); MThread 0 AGo; MThread 0 AGo].

(** A second start lands between that store and the release of the thread's own reference. *)
Definition self_join_schedule : list move := [MRescan [1]] ++ begin 0 5 ++ finish0 ++ begin 0 9 ++ [MThread 0 AGo].

(** A poll lands between the store of the finish time and the store of the status. *)
Definition early_poll_schedule : list move :=
  [MRescan [1]] ++ begin 0 5 ++ [MThread 0 (AReturn (Unexpected "stalled")); MThread 0 AGo; MThread 0 (ANow 7)] ++
  [MClient 1 (ASnapshot spin); MClient 1 AGo; MClient 1 AGo; MClient 1 AGo; MClient 1 AGo].

(** Two limits of the run's hand-over, each reached by a schedule. A run counts as finished before its thread gives up its
    own reference to the run, so a start (or a sweep) that drops the map's reference in between makes the finishing thread
    destroy the thread object it runs on. And a snapshot can say that a run is still running and carry its finish time and its
    error, because those are stored before the status. *)
Theorem procedure_limits :
  (exists s, rtc (step tt) (initial 2) s /\ self_joined s = true) /\
  (exists s id sn, rtc (step tt) (initial 2) s /\ clients s !! 1%nat = Some (CSnapshot (Some (id, sn))) /\
     s_status sn = PRunning /\ s_finishedAt sn = Some 7 /\ s_error sn = Some "stalled").
Proof.
  split.
  - assert (Hj : self_joined <$> exec_all self_join_schedule (initial 2) = Some true) by (vm_compute; reflexivity).
    apply fmap_Some in Hj as (s & E & Hj). exists s. split; [exact (exec_all_rtc _ _ _ E)|exact (eq_sym Hj)].
  - assert (Hc : (fun s => clients s !! 1%nat) <$> exec_all early_poll_schedule (initial 2) = Some (Some (CSnapshot (Some (0%nat,
      mk_snapshot PRunning 1 (Some 5) (Some 7) (stepsFrom tt ["turn"]) (Some "stalled")))))) by (vm_compute; reflexivity).
    apply fmap_Some in Hc as (s & E & Hc). eexists s, _, _. split; [exact (exec_all_rtc _ _ _ E)|]. clear E.
    split; [exact (eq_sym Hc)|]. split_and!; reflexivity.
Qed.

Definition state_after (ms : list move) : @state unit := default (initial 2) (exec_all ms (initial 2)).

Lemma state_after_reachable ms : match exec_all ms (initial 2) with Some _ => true | None => false end = true ->
  rtc (step tt) (initial 2) (state_after ms).
Proof. intros H. unfold state_after. destruct (exec_all ms (initial 2)) as [s|] eqn:E; [|done]. by eapply exec_all_rtc. Qed.

Definition running_state : @state unit := state_after ([MRescan [1]] ++ begin 0 5).

Lemma running_reachable : rtc (step tt) (initial 2) running_state.
Proof. apply state_after_reachable. vm_compute. reflexivity. Qed.

Lemma procedures_exclusive_witness :
  (startRun (1, "other") [] 1 6 running_state).2 = Unexpected (Busy 1 "spin") /\
  exists id r name, heap running_state !! id = Some r /\ alive (r_pc r) = true /\ r_key r = (1, name).
Proof.
  split; [vm_compute; reflexivity|].
  destruct (procedures_exclusive tt 2 running_state running_reachable) as [_ H].
  destruct (H (1, "other") [] 1 6 _ _ eq_refl) as (id & r & name & H1 & H2 & H3 & _). by exists id, r, name.
Defined.

Definition polled_state : @state unit := state_after ([MRescan [1]] ++ begin 0 5 ++ finish0 ++
  [MClient 1 (ASnapshot spin); MClient 1 AGo; MClient 1 AGo; MClient 1 AGo; MClient 1 AGo]).

Lemma snapshot_not_torn_witness : exists sn,
  clients polled_state !! 1%nat = Some (CSnapshot (Some (0%nat, sn))) /\ s_status sn = PSucceeded /\ s_error sn = None.
Proof.
  eexists. split; [vm_compute; reflexivity|]. split; [reflexivity|].
  edestruct (snapshot_not_torn tt 2 polled_state 1 0) as (r & _ & _ & _ & H); [|vm_compute; reflexivity|].
  - apply state_after_reachable. vm_compute. reflexivity.
  - apply H; [discriminate|reflexivity].
Defined.

Lemma cancel_outcome_witness : (cancel spin running_state).2 = true /\
  exists id r, runs (cancel spin running_state).1 !! spin = Some id /\ heap (cancel spin running_state).1 !! id = Some r /\ r_stop r = true.
Proof.
  split; [vm_compute; reflexivity|].
  destruct (cancel_outcome tt 2 running_state spin (cancel spin running_state).1 running_reachable) as (id & r & H1 & H2 & H3 & _);
    [vm_compute; reflexivity|]. exists id, r. split; [exact H1|]. split; [exact H2|exact H3].
Defined.

End Procedures.
