(* ===== verification/Refresher.v ===== *)
(** * ParameterRefresher ([libs/node/parameter_refresher.{h,cc}])

    The reference-counted set of objects that background workers keep reading over SDO, and the rule
    that no drive is read by two workers at once nor for more than half of the time. Times are
    milliseconds of the steady clock; every block under the mutex is one step of a transition system in
    which clients, workers and the clock interleave. *)

From stdpp Require Import sorting.
From S2P Require Import Prelude.

Module Refresher.

Definition kMinRefreshPeriod : Z := 10.
Definition kMaxBackoff : Z := 2000.

Definition nextBackoff (current period : Z) : Z := Z.min (if current =? 0 then period else current * 2) kMaxBackoff.

Definition makeKey (devicePosition index subindex : Z) : Z :=
  Z.lor (Z.lor (Z.shiftl devicePosition 24) (Z.shiftl index 8)) subindex.

Record Entry := mk_entry {
  devicePosition : Z; index : Z; subindex : Z; refCount : Z; period : Z; nextDue : Z; backoff : Z }.
Record Drive := mk_drive { busy : bool; openAt : Z }.
Record Job := mk_job { j_key : Z; j_devicePosition : Z; j_index : Z; j_subindex : Z }.

Record state := mk_state { entries : gmap Z Entry; drives : gmap Z Drive }.

(** Default members: the clock's epoch, which is due at once and open. *)
Definition closed_drive : Drive := mk_drive false 0.

Definition acquire (pos idx sub per : Z) (s : state) : state :=
  let per := Z.max per kMinRefreshPeriod in
  let key := makeKey pos idx sub in
  match entries s !! key with
  | None => mk_state (<[key := mk_entry pos idx sub 1 per 0 0]> (entries s)) (drives s)
  | Some e =>
      mk_state (<[key := mk_entry (devicePosition e) (index e) (subindex e) (refCount e + 1) (Z.min (period e) per) (nextDue e) (backoff e)]>
        (entries s)) (drives s)
  end.

Definition release (pos idx sub : Z) (s : state) : state :=
  let key := makeKey pos idx sub in
  match entries s !! key with
  | None => s
  | Some e =>
      if refCount e - 1 <=? 0 then mk_state (delete key (entries s)) (drives s)
      else mk_state (<[key := mk_entry (devicePosition e) (index e) (subindex e) (refCount e - 1) (period e) (nextDue e) (backoff e)]>
             (entries s)) (drives s)
  end.

Definition trackedCount (s : state) : nat := size (entries s).

(** The entries in the order of their keys, as the map is walked. *)
Definition by_key : relation (Z * Entry) := fun a b => a.1 <= b.1.
#[local] Instance by_key_dec a b : Decision (by_key a b).
Proof. unfold by_key; apply _. Defined.
Definition in_order (s : state) : list (Z * Entry) := merge_sort by_key (map_to_list (entries s)).

(** When the entry may be read, [None] while its drive is being read. *)
Definition dueAt (s : state) (e : Entry) : option Z :=
  match drives s !! devicePosition e with
  | None => Some (nextDue e)
  | Some d => if busy d then None else Some (Z.max (nextDue e) (openAt d))
  end.

(** The loop of [takeDue]: the earliest entry so far with its time. *)
Fixpoint scan (s : state) (l : list (Z * Entry)) (best : option (Z * Entry * Z)) : option (Z * Entry * Z) :=
  match l with
  | [] => best
  | (k, e) :: l' =>
      match dueAt s e with
      | None => scan s l' best
      | Some t =>
          match best with
          | Some (_, _, t0) => if t <? t0 then scan s l' (Some (k, e, t)) else scan s l' best
          | None => scan s l' (Some (k, e, t))
          end
      end
  end.

Definition set_busy (pos : Z) (s : state) : state :=
  let d := default closed_drive (drives s !! pos) in mk_state (entries s) (<[pos := mk_drive true (openAt d)]> (drives s)).

(** The job, or the time to wake at ([None]: no deadline). *)
Definition takeDue (now : Z) (s : state) : state * (Job + option Z) :=
  match scan s (in_order s) None with
  | None => (s, inr None)
  | Some (k, e, earliest) =>
      if now <? earliest then (s, inr (Some earliest))
      else (set_busy (devicePosition e) s, inl (mk_job k (devicePosition e) (index e) (subindex e)))
  end.

(** [poll] after its read: the block under the mutex. *)
Definition finish_poll (job : Job) (readStart readEnd : Z) (ok : bool) (s : state) : state :=
  let drives' := <[j_devicePosition job := mk_drive false (readEnd + (readEnd - readStart))]> (drives s) in
  match entries s !! j_key job with
  | None => mk_state (entries s) drives'
  | Some e =>
      let back := if ok then 0 else nextBackoff (backoff e) (period e) in
      let due := if ok then readStart + period e else readStart + back in
      mk_state (<[j_key job := mk_entry (devicePosition e) (index e) (subindex e) (refCount e) (period e) due back]> (entries s)) drives'
  end.

(** [pollDue]; the environment gives each read its start, its end and its outcome. *)
Fixpoint pollDue (fuel : nat) (now : Z) (reads : list (Z * Z * bool)) (s : state) : option state :=
  match fuel with
  | O => None
  | S fuel =>
      match takeDue now s with
      | (s', inr _) => Some s'
      | (s', inl job) =>
          match reads with
          | [] => None
          | (start, stop, ok) :: reads' => pollDue fuel now reads' (finish_poll job start stop ok s')
          end
      end
  end.

(** ** Workers, clients and the clock *)
Inductive worker := WIdle | WTaken (job : Job) | WReading (job : Job) (start : Z).

(** [log] is every finished read, newest first: its drive, start and end. A ghost. *)
Record config := mk_config { st : state; clock : Z; workers : list worker; log : list (Z * Z * Z) }.

Inductive label :=
  | LAcquire (pos idx sub per : Z) | LRelease (pos idx sub : Z) | LTick (dt : Z)
  | LTake (w : nat) | LBegin (w : nat) | LFinish (w : nat) (ok : bool).

Definition cstep (l : label) (c : config) : option config :=
  match l with
  | LAcquire pos idx sub per => Some (mk_config (acquire pos idx sub per (st c)) (clock c) (workers c) (log c))
  | LRelease pos idx sub => Some (mk_config (release pos idx sub (st c)) (clock c) (workers c) (log c))
  | LTick dt => if 0 <=? dt then Some (mk_config (st c) (clock c + dt) (workers c) (log c)) else None
  | LTake w =>
      match workers c !! w with
      | Some WIdle =>
          match takeDue (clock c) (st c) with
          | (s', inl job) => Some (mk_config s' (clock c) (<[w := WTaken job]> (workers c)) (log c))
          | (s', inr _) => Some (mk_config s' (clock c) (workers c) (log c))
          end
      | _ => None
      end
  | LBegin w =>
      match workers c !! w with
      | Some (WTaken job) => Some (mk_config (st c) (clock c) (<[w := WReading job (clock c)]> (workers c)) (log c))
      | _ => None
      end
  | LFinish w ok =>
      match workers c !! w with
      | Some (WReading job start) =>
          Some (mk_config (finish_poll job start (clock c) ok (st c)) (clock c) (<[w := WIdle]> (workers c))
            ((j_devicePosition job, start, clock c) :: log c))
      | _ => None
      end
  end.

Definition step (c c' : config) : Prop := exists l, cstep l c = Some c'.

(** [n] workers over nothing yet; the source starts four. *)
Definition start_config (n : nat) (now : Z) : config := mk_config (mk_state ∅ ∅) now (replicate n WIdle) [].

(** ** What [takeDue] takes *)
Lemma in_order_elem s k e : (k, e) ∈ in_order s <-> entries s !! k = Some e.
Proof. unfold in_order. rewrite merge_sort_Permutation. apply elem_of_map_to_list. Qed.

Lemma scan_spec s l best : match scan s l best with
  | None => best = None /\ forall k e, (k, e) ∈ l -> dueAt s e = None
  | Some (k, e, t) =>
      (best = Some (k, e, t) \/ ((k, e) ∈ l /\ dueAt s e = Some t)) /\
      (forall k' e' t', best = Some (k', e', t') -> t <= t') /\
      (forall k' e' t', (k', e') ∈ l -> dueAt s e' = Some t' -> t <= t')
  end.
Proof.
  revert best. induction l as [|[k e] l IH]; intros best; cbn [scan].
  { destruct best as [[[k e] t]|]; [|split; [done|]; intros; by apply not_elem_of_nil in H].
    split_and!; [by left|intros ??? [= <- <- <-]; lia|]. intros ??? H. by apply not_elem_of_nil in H. }
  destruct (dueAt s e) as [t|] eqn:Ed.
  - assert (Hstep : forall b : option (Z * Entry * Z), (b = Some (k, e, t) \/ (b = best /\ exists k0 e0 t0, best = Some (k0, e0, t0) /\ t0 <= t)) ->
      (forall k' e' t', best = Some (k', e', t') -> exists k0 e0 t0, b = Some (k0, e0, t0) /\ t0 <= t') ->
      (exists k0 e0 t0, b = Some (k0, e0, t0) /\ t0 <= t) ->
      match scan s l b with
      | None => best = None /\ forall k' e', (k', e') ∈ (k, e) :: l -> dueAt s e' = None
      | Some (k1, e1, t1) =>
          (best = Some (k1, e1, t1) \/ ((k1, e1) ∈ (k, e) :: l /\ dueAt s e1 = Some t1)) /\
          (forall k' e' t', best = Some (k', e', t') -> t1 <= t') /\
          (forall k' e' t', (k', e') ∈ (k, e) :: l -> dueAt s e' = Some t' -> t1 <= t')
      end).
    { intros b Hb Hle (k0 & e0 & t0 & Eb & Ht0). specialize (IH b). destruct (scan s l b) as [[[k1 e1] t1]|].
      - destruct IH as (Hor & Hb1 & Hl). split_and!.
        + destruct Hor as [Hor|[Hin Hd]]; [|right; split; [apply elem_of_cons; by right|done]].
          destruct Hb as [Hb|[Hb _]]; [|left; congruence]. right. rewrite Hor in Hb. injection Hb as -> -> ->. split; [apply elem_of_cons; by left|done].
        + intros k' e' t' Eq. destruct (Hle _ _ _ Eq) as (k2 & e2 & t2 & E2 & H2). specialize (Hb1 _ _ _ E2). lia.
        + intros k' e' t' Hin Hd. apply elem_of_cons in Hin as [[= -> ->]|Hin]; [|exact (Hl _ _ _ Hin Hd)].
          specialize (Hb1 _ _ _ Eb). assert (t' = t) by congruence. lia.
      - destruct IH as [-> _]. done. }
    destruct best as [[[k0 e0] t0]|].
    + destruct (Z.ltb_spec t t0); apply Hstep.
      * by left.
      * intros ??? [= <- <- <-]. exists k, e, t. split; [done|lia].
      * exists k, e, t. split; [done|lia].
      * right. split; [done|]. by exists k0, e0, t0.
      * intros ??? [= <- <- <-]. exists k0, e0, t0. split; [done|lia].
      * by exists k0, e0, t0.
    + apply Hstep; [by left|done|]. exists k, e, t. split; [done|lia].
  - specialize (IH best). destruct (scan s l best) as [[[k1 e1] t1]|].
    + destruct IH as (Hor & Hb & Hl). split_and!; [|done|].
      * destruct Hor as [Hor|[Hin Hd]]; [by left|]. right. split; [apply elem_of_cons; by right|done].
      * intros k' e' t' Hin Hd. apply elem_of_cons in Hin as [[= -> ->]|Hin]; [congruence|exact (Hl _ _ _ Hin Hd)].
    + destruct IH as [Hb Hl]. split; [done|]. intros k' e' Hin. apply elem_of_cons in Hin as [[= -> ->]|Hin]; [done|exact (Hl _ _ Hin)].
Qed.

(** The job taken is due, and nothing else was due earlier. *)
Lemma takeDue_job now s s' job : takeDue now s = (s', inl job) ->
  exists e t, entries s !! j_key job = Some e /\ job = mk_job (j_key job) (devicePosition e) (index e) (subindex e) /\
    s' = set_busy (devicePosition e) s /\ dueAt s e = Some t /\ t <= now /\
    (forall k' e' t', entries s !! k' = Some e' -> dueAt s e' = Some t' -> t <= t').
Proof.
  unfold takeDue. pose proof (scan_spec s (in_order s) None) as Hs. destruct (scan s (in_order s) None) as [[[k e] t]|]; [|done].
  destruct Hs as ([?|[Hin Hd]] & _ & Hmin); [done|]. apply in_order_elem in Hin.
  destruct (Z.ltb_spec now t); [done|]. intros [= <- <-]. exists e, t. cbn. split_and!; try done.
  intros k' e' t' Hl. apply in_order_elem in Hl. exact (Hmin _ _ _ Hl).
Qed.

Lemma takeDue_none now s s' w : takeDue now s = (s', inr w) ->
  s' = s /\ forall k e t, entries s !! k = Some e -> dueAt s e = Some t -> now < t /\ exists t0, w = Some t0 /\ t0 <= t.
Proof.
  unfold takeDue. pose proof (scan_spec s (in_order s) None) as Hs. destruct (scan s (in_order s) None) as [[[k e] t]|].
  - destruct Hs as (_ & _ & Hmin). destruct (Z.ltb_spec now t); [|done]. intros [= <- <-]. split; [done|].
    intros k' e' t' Hl Hd. apply in_order_elem in Hl. specialize (Hmin _ _ _ Hl Hd). split; [lia|]. by exists t.
  - destruct Hs as [_ Hn]. intros [= <- <-]. split; [done|]. intros k e t Hl Hd. apply in_order_elem, Hn in Hl. congruence.
Qed.

(** ** One worker a drive, and half of its time *)
Definition job_of (w : worker) : option Job := match w with WIdle => None | WTaken j | WReading j _ => Some j end.
Definition pos_of (w : worker) : option Z := j_devicePosition <$> job_of w.

(** The reads of one drive, newest first. *)
Definition reads_of (p : Z) (l : list (Z * Z * Z)) : list (Z * Z) := omap (fun r => if r.1.1 =? p then Some (r.1.2, r.2) else None) l.

(** Each read starts no earlier than the one before ended plus as long as that one took. *)
Fixpoint spaced (l : list (Z * Z)) : Prop :=
  match l with
  | [] => True
  | (s2, e2) :: l' => s2 <= e2 /\ match l' with [] => True | (s1, e1) :: _ => e1 + (e1 - s1) <= s2 end /\ spaced l'
  end.

Definition spent (l : list (Z * Z)) : Z := foldr (fun r a => r.2 - r.1 + a) 0 l.
(** When the oldest read started. *)
Fixpoint first_start (d : Z) (l : list (Z * Z)) : Z := match l with [] => d | (s, _) :: l' => first_start s l' end.

Lemma spaced_half s e l : spaced ((s, e) :: l) -> 2 * spent l <= s - first_start s l.
Proof.
  revert s e. induction l as [|[s1 e1] l IH]; intros s e; [cbn; lia|].
  intros (_ & Hgap & Hsp). specialize (IH s1 e1 Hsp).
  change (spent ((s1, e1) :: l)) with (e1 - s1 + spent l). cbn [first_start]. lia.
Qed.

Record Inv (c : config) : Prop := {
  inv_clock : 0 <= clock c;
  inv_distinct : forall i j wi wj p, workers c !! i = Some wi -> workers c !! j = Some wj -> pos_of wi = Some p -> pos_of wj = Some p -> i = j;
  inv_busy : forall p, (exists d, drives (st c) !! p = Some d /\ busy d = true) <-> exists i w, workers c !! i = Some w /\ pos_of w = Some p;
  inv_open : forall p s e l, reads_of p (log c) = (s, e) :: l -> exists d, drives (st c) !! p = Some d /\ openAt d = e + (e - s);
  inv_taken : forall i j d, workers c !! i = Some (WTaken j) -> drives (st c) !! j_devicePosition j = Some d -> openAt d <= clock c;
  inv_reading : forall i j t d, workers c !! i = Some (WReading j t) -> drives (st c) !! j_devicePosition j = Some d -> openAt d <= t <= clock c;
  inv_spaced : forall p, spaced (reads_of p (log c)) }.

Lemma acquire_drives pos idx sub per s : drives (acquire pos idx sub per s) = drives s.
Proof. unfold acquire. by destruct (entries s !! _). Qed.
Lemma release_drives pos idx sub s : drives (release pos idx sub s) = drives s.
Proof. unfold release. destruct (entries s !! _); [|done]. by destruct (_ <=? _). Qed.
Lemma finish_drives job t0 t1 ok s :
  drives (finish_poll job t0 t1 ok s) = <[j_devicePosition job := mk_drive false (t1 + (t1 - t0))]> (drives s).
Proof. unfold finish_poll. by destruct (entries s !! _). Qed.

(** Steps that leave the drives, the workers and the log alone keep the invariant. *)
Lemma load_same c s' t : Inv c -> drives s' = drives (st c) -> clock c <= t -> Inv (mk_config s' t (workers c) (log c)).
Proof.
  intros [Hck Hd Hb Ho Ht Hr Hs] E Hc. split; cbn; rewrite ?E; try done; try lia.
  - intros i j d Hi Hj. specialize (Ht _ _ _ Hi Hj). lia.
  - intros i j t0 d Hi Hj. specialize (Hr _ _ _ _ Hi Hj). lia.
Qed.

Lemma lookup_insert_worker (l : list worker) i j x w : <[i := x]> l !! j = Some w ->
  (j = i /\ w = x) \/ (j <> i /\ l !! j = Some w).
Proof.
  destruct (decide (j = i)) as [->|Hn]; [|rewrite list_lookup_insert_ne by done; auto].
  intros E. left. split; [done|]. rewrite list_lookup_insert_Some in E. by destruct E as [(_ & ? & _)|[? _]].
Qed.

Lemma load_start n now : 0 <= now -> Inv (start_config n now).
Proof.
  intros Hnow.
  assert (Hw : forall i w, replicate n WIdle !! i = Some w -> w = WIdle) by (intros i w H; by apply lookup_replicate_1 in H as [-> _]).
  split; cbn; [done| | | | | |].
  - intros i j wi wj p Hi _ Hp. by rewrite (Hw _ _ Hi) in Hp.
  - intros p. split; [intros (d & H & _); by rewrite lookup_empty in H|]. intros (i & w & Hi & Hp). by rewrite (Hw _ _ Hi) in Hp.
  - done.
  - intros i j d Hi. by apply Hw in Hi.
  - intros i j t d Hi. by apply Hw in Hi.
  - done.
Qed.

Lemma load_take c w job s' : Inv c -> workers c !! w = Some WIdle -> takeDue (clock c) (st c) = (s', inl job) ->
  Inv (mk_config s' (clock c) (<[w := WTaken job]> (workers c)) (log c)).
Proof.
  intros [Hck Hd Hb Ho Ht Hr Hs] Hw E. apply takeDue_job in E as (e & t & He & Hj & -> & Hdue & Hle & _).
  set (p0 := devicePosition e) in *. assert (Hjp : j_devicePosition job = p0) by (by rewrite Hj).
  assert (Hfree : forall d, drives (st c) !! p0 = Some d -> busy d = false /\ openAt d <= clock c).
  { intros d Hd0. unfold dueAt in Hdue. fold p0 in Hdue. rewrite Hd0 in Hdue. destruct (busy d); [done|]. injection Hdue as <-. split; [done|lia]. }
  assert (Hnone : forall i x, workers c !! i = Some x -> pos_of x <> Some p0).
  { intros i x Hi Hp. destruct (proj2 (Hb p0)) as (d & Hdd & Hbd); [by exists i, x|]. apply Hfree in Hdd as [? _]. congruence. }
  assert (Hlw : (w < length (workers c))%nat) by (by eapply lookup_lt_Some).
  split; cbn [st clock workers log set_busy drives]; [done| | | | | |].
  - intros i j wi wj p Hi Hj' Hpi Hpj. apply lookup_insert_worker in Hi as [[-> ->]|[Hni Hi]]; apply lookup_insert_worker in Hj' as [[-> ->]|[Hnj Hj']].
    + done.
    + cbn in Hpi. rewrite Hjp in Hpi. injection Hpi as <-. by apply Hnone in Hj'.
    + cbn in Hpj. rewrite Hjp in Hpj. injection Hpj as <-. by apply Hnone in Hi.
    + by eapply Hd.
  - intros p. destruct (decide (p = p0)) as [->|Hp].
    + split; [intros _|intros _; rewrite lookup_insert_eq; by eexists]. exists w, (WTaken job).
      rewrite list_lookup_insert_eq by done. cbn. by rewrite Hjp.
    + rewrite lookup_insert_ne by done. rewrite Hb. split; intros (i & x & Hi & Hpx).
      * assert (i <> w) by (intros ->; rewrite Hw in Hi; injection Hi as <-; done). exists i, x. by rewrite list_lookup_insert_ne.
      * apply lookup_insert_worker in Hi as [[-> ->]|[Hni Hi]]; [cbn in Hpx; congruence|]. by exists i, x.
  - intros p s e0 l Hl. destruct (Ho p s e0 l Hl) as (d & Hdd & Hod). destruct (decide (p = p0)) as [->|Hp].
    + rewrite lookup_insert_eq. eexists. split; [done|]. by rewrite Hdd.
    + rewrite lookup_insert_ne by done. by exists d.
  - intros i j d Hi Hj'. apply lookup_insert_worker in Hi as [[-> [= ->]]|[Hni Hi]].
    + rewrite Hjp, lookup_insert_eq in Hj'. injection Hj' as <-. cbn. destruct (drives (st c) !! p0) as [d|]; [by apply Hfree|done].
    + destruct (decide (j_devicePosition j = p0)) as [Hq|Hq]; [exfalso; apply (Hnone _ _ Hi); cbn; by rewrite Hq|].
      rewrite lookup_insert_ne in Hj' by done. by eapply Ht.
  - intros i j t0 d Hi Hj'. apply lookup_insert_worker in Hi as [[-> [=]]|[Hni Hi]].
    destruct (decide (j_devicePosition j = p0)) as [Hq|Hq]; [exfalso; apply (Hnone _ _ Hi); cbn; by rewrite Hq|].
    rewrite lookup_insert_ne in Hj' by done. by eapply Hr.
  - done.
Qed.

Lemma load_begin c w job : Inv c -> workers c !! w = Some (WTaken job) ->
  Inv (mk_config (st c) (clock c) (<[w := WReading job (clock c)]> (workers c)) (log c)).
Proof.
  intros [Hck Hd Hb Ho Ht Hr Hs] Hw. assert (Hlw : (w < length (workers c))%nat) by (by eapply lookup_lt_Some).
  assert (Hold : forall i x, <[w := WReading job (clock c)]> (workers c) !! i = Some x -> exists y, workers c !! i = Some y /\ pos_of y = pos_of x).
  { intros i x Hi. apply lookup_insert_worker in Hi as [[-> ->]|[_ Hi]]; [by exists (WTaken job)|by exists x]. }
  split; cbn [st clock workers log]; [done| |..].
  - intros i j wi wj p Hi Hj Hpi Hpj. destruct (Hold _ _ Hi) as (yi & Hyi & Ei). destruct (Hold _ _ Hj) as (yj & Hyj & Ej).
    apply (Hd i j yi yj p); congruence.
  - intros p. rewrite Hb. split; intros (i & x & Hi & Hp).
    + destruct (decide (i = w)) as [->|Hn]; [|exists i, x; by rewrite list_lookup_insert_ne].
      exists w, (WReading job (clock c)). rewrite list_lookup_insert_eq by done. split; [done|]. by rewrite Hw in Hi; injection Hi as <-.
    + destruct (Hold _ _ Hi) as (y & Hy & E). exists i, y. by rewrite E.
  - done.
  - intros i j d Hi. apply lookup_insert_worker in Hi as [[-> [=]]|[_ Hi]]. by apply (Ht i).
  - intros i j t d Hi Hj. apply lookup_insert_worker in Hi as [[-> [= -> ->]]|[_ Hi]]; [|by apply (Hr i j)].
    specialize (Ht _ _ _ Hw Hj). lia.
  - done.
Qed.

Lemma reads_of_cons p q s e l : reads_of p ((q, s, e) :: l) = if q =? p then (s, e) :: reads_of p l else reads_of p l.
Proof. unfold reads_of. cbn. by destruct (q =? p). Qed.

Lemma load_finish c w job t ok : Inv c -> workers c !! w = Some (WReading job t) ->
  Inv (mk_config (finish_poll job t (clock c) ok (st c)) (clock c) (<[w := WIdle]> (workers c)) ((j_devicePosition job, t, clock c) :: log c)).
Proof.
  intros [Hck Hd Hb Ho Ht Hr Hs] Hw. assert (Hlw : (w < length (workers c))%nat) by (by eapply lookup_lt_Some).
  set (p0 := j_devicePosition job).
  assert (Hmine : exists d, drives (st c) !! p0 = Some d /\ busy d = true) by (apply Hb; by exists w, (WReading job t)).
  assert (Hnone : forall i x, i <> w -> workers c !! i = Some x -> pos_of x <> Some p0).
  { intros i x Hn Hi Hp. apply Hn. by apply (Hd i w x (WReading job t) p0). }
  split; cbn [st clock workers log]; rewrite ?finish_drives; fold p0; [done| |..].
  - intros i j wi wj p Hi Hj Hpi Hpj. apply lookup_insert_worker in Hi as [[-> ->]|[Hni Hi]]; [done|].
    apply lookup_insert_worker in Hj as [[-> ->]|[Hnj Hj]]; [done|]. by apply (Hd i j wi wj p).
  - intros p. destruct (decide (p = p0)) as [->|Hp].
    + rewrite lookup_insert_eq. split; [intros (d & [= <-] & [=])|]. intros (i & x & Hi & Hpx).
      apply lookup_insert_worker in Hi as [[-> ->]|[Hni Hi]]; [done|]. by apply Hnone in Hi.
    + rewrite lookup_insert_ne by done. rewrite Hb. split; intros (i & x & Hi & Hpx).
      * assert (i <> w) by (intros ->; rewrite Hw in Hi; injection Hi as <-; apply Hp; by injection Hpx).
        exists i, x. by rewrite list_lookup_insert_ne.
      * apply lookup_insert_worker in Hi as [[-> ->]|[Hni Hi]]; [done|]. by exists i, x.
  - intros p s e l Hl. rewrite reads_of_cons in Hl. destruct (Z.eqb_spec p0 p) as [->|Hp].
    + rewrite lookup_insert_eq. injection Hl as <- <- _. by eexists.
    + rewrite lookup_insert_ne by done. by apply (Ho p s e l).
  - intros i j d Hi Hj. apply lookup_insert_worker in Hi as [[-> [=]]|[Hni Hi]].
    rewrite lookup_insert_ne in Hj; [by apply (Ht i j)|]. intros E. apply (Hnone _ _ Hni Hi). cbn. congruence.
  - intros i j t0 d Hi Hj. apply lookup_insert_worker in Hi as [[-> [=]]|[Hni Hi]].
    rewrite lookup_insert_ne in Hj; [by apply (Hr i j)|]. intros E. apply (Hnone _ _ Hni Hi). cbn. congruence.
  - intros p. rewrite reads_of_cons. destruct (Z.eqb_spec p0 p) as [<-|Hp]; [|done].
    destruct Hmine as (d & Hdd & _). pose proof (Hr _ _ _ _ Hw Hdd) as [Ho1 Ho2]. split_and!; [done| |done].
    destruct (reads_of p0 (log c)) as [|[s1 e1] l] eqn:El; [done|]. destruct (Ho _ _ _ _ El) as (d' & Hd' & Ed').
    assert (d' = d) as -> by congruence. lia.
Qed.

Lemma load_step c c' : step c c' -> Inv c -> Inv c'.
Proof.
  intros [l E] HI. destruct l as [pos idx sub per|pos idx sub|dt|w|w|w ok]; cbn in E.
  - injection E as <-. apply load_same; [done|apply acquire_drives|lia].
  - injection E as <-. apply load_same; [done|apply release_drives|lia].
  - destruct (Z.leb_spec 0 dt); [|done]. injection E as <-. apply load_same; [done|done|lia].
  - destruct (workers c !! w) as [[| |]|] eqn:Ew; try done. destruct (takeDue (clock c) (st c)) as [s' [job|x]] eqn:Et.
    + injection E as <-. by apply (load_take c w job).
    + injection E as <-. apply takeDue_none in Et as [-> _]. apply load_same; [done|done|lia].
  - destruct (workers c !! w) as [[| |]|] eqn:Ew; try done. injection E as <-. by apply load_begin.
  - destruct (workers c !! w) as [[| |]|] eqn:Ew; try done. injection E as <-. by apply load_finish.
Qed.

(** Whatever clients acquire and release and however workers and clock interleave, no drive is read by two workers at once, and of
    the time from the start of a drive's first read to the start of any later one, at most half was spent reading it. *)
Theorem drive_load_bounded n now c : 0 <= now -> rtc step (start_config n now) c ->
  (forall i j wi wj p, workers c !! i = Some wi -> workers c !! j = Some wj -> pos_of wi = Some p -> pos_of wj = Some p -> i = j) /\
  (forall p s e l, reads_of p (log c) = (s, e) :: l -> 2 * spent l <= s - first_start s l).
Proof.
  intros Hn Hr. assert (HI : Inv c) by (eapply (rtc_invariant step Inv); [intros a b Ha Hs; exact (load_step a b Hs Ha)|exact Hr|apply load_start, Hn]).
  split; [apply HI|]. intros p s e l El. apply (spaced_half s e). rewrite <- El. apply HI.
Qed.

(** ** A pass ends *)
Definition entries_ok (s : state) : Prop :=
  map_Forall (fun _ e => kMinRefreshPeriod <= period e /\ 0 <= backoff e /\ 1 <= refCount e) (entries s).

Lemma acquire_ok pos idx sub per s : entries_ok s -> entries_ok (acquire pos idx sub per s).
Proof.
  intros Hs. unfold acquire. destruct (entries s !! makeKey pos idx sub) as [e|] eqn:E; apply map_Forall_insert_2; try done; cbn; unfold kMinRefreshPeriod in *; [|lia].
  specialize (Hs _ _ E). unfold kMinRefreshPeriod in Hs. lia.
Qed.

Lemma release_ok pos idx sub s : entries_ok s -> entries_ok (release pos idx sub s).
Proof.
  intros Hs. unfold release. destruct (entries s !! makeKey pos idx sub) as [e|] eqn:E; [|done].
  destruct (Z.leb_spec (refCount e - 1) 0); [by apply map_Forall_delete|]. apply map_Forall_insert_2; [|done].
  specialize (Hs _ _ E) as (? & ? & ?). cbn [period backoff refCount]. split_and!; lia.
Qed.

Lemma nextBackoff_pos b p : 0 <= b -> kMinRefreshPeriod <= p -> 0 < nextBackoff b p.
Proof. unfold nextBackoff, kMinRefreshPeriod, kMaxBackoff. destruct (Z.eqb_spec b 0); lia. Qed.

Lemma finish_ok job t0 t1 ok s : entries_ok s -> entries_ok (finish_poll job t0 t1 ok s).
Proof.
  intros Hs. unfold finish_poll. destruct (entries s !! j_key job) as [e|] eqn:E; [|done]. apply map_Forall_insert_2; [|done].
  specialize (Hs _ _ E) as (Hp & Hb & Hc). cbn [period backoff refCount]. destruct ok; [lia|].
  pose proof (nextBackoff_pos (backoff e) (period e) Hb Hp). lia.
Qed.

Definition due_count (now : Z) (s : state) : nat := size (filter (fun p => nextDue p.2 <= now) (entries s)).

(** A finished read puts its entry behind [now]. *)
Lemma finish_due_count now job t0 t1 ok s e : entries_ok s -> now <= t0 -> entries s !! j_key job = Some e -> nextDue e <= now ->
  S (due_count now (finish_poll job t0 t1 ok s)) = due_count now s.
Proof.
  intros Hs Ht He Hd. specialize (Hs _ _ He) as (Hp & Hb & _). unfold due_count, finish_poll. rewrite He. cbn [entries].
  rewrite map_filter_insert_False, map_filter_delete.
  - rewrite map_size_delete. assert (Hin : filter (fun p => nextDue p.2 <= now) (entries s) !! j_key job = Some e)
      by (by apply map_lookup_filter_Some). rewrite Hin.
    assert (Hne : size (filter (fun p => nextDue p.2 <= now) (entries s)) <> 0%nat); [|lia].
    intros Hz. apply map_size_empty_inv in Hz. rewrite Hz in Hin. by rewrite lookup_empty in Hin.
  - cbn. pose proof (nextBackoff_pos (backoff e) (period e) Hb Hp). unfold kMinRefreshPeriod in *. destruct ok; lia.
Qed.

Lemma dueAt_nextDue s e t : dueAt s e = Some t -> nextDue e <= t.
Proof. unfold dueAt. destruct (drives s !! _) as [d|]; [destruct (busy d); [done|]|]; intros [= <-]; lia. Qed.

Lemma pollDue_count fuel now reads s : entries_ok s -> Forall (fun r => now <= r.1.1) reads ->
  (due_count now s < fuel)%nat -> (due_count now s <= length reads)%nat ->
  exists s', pollDue fuel now reads s = Some s' /\ entries_ok s' /\
    forall k e t, entries s' !! k = Some e -> dueAt s' e = Some t -> now < t.
Proof.
  revert reads s. induction fuel as [|fuel IH]; intros reads s Hs Hr Hf Hl; [lia|]. cbn [pollDue].
  destruct (takeDue now s) as [s' [job|w]] eqn:E.
  - apply takeDue_job in E as (e & t & He & _ & -> & Hdue & Hle & _). pose proof (dueAt_nextDue _ _ _ Hdue) as Hn.
    assert (Hlt : nextDue e <= now) by lia.
    assert (He' : entries (set_busy (devicePosition e) s) !! j_key job = Some e) by done.
    destruct reads as [|[[t0 t1] ok] reads].
    { exfalso. pose proof (finish_due_count now job now now true s e Hs ltac:(lia) He Hlt). cbn in Hl. lia. }
    apply Forall_cons in Hr as [Ht0 Hr]. cbn in Ht0.
    pose proof (finish_due_count now job t0 t1 ok (set_busy (devicePosition e) s) e Hs Ht0 He' Hlt) as Hc.
    change (due_count now (set_busy (devicePosition e) s)) with (due_count now s) in Hc. cbn [length] in Hl.
    apply IH; [by apply finish_ok|done|lia|lia].
  - apply takeDue_none in E as [-> Hn]. exists s. split_and!; [done|done|]. intros k e t He Hd. by destruct (Hn k e t He Hd).
Qed.

(** C0: a polling pass ends, whatever each read returns and however long it takes: it reads every due object at most once (no more
    reads than tracked objects), even when the reads take no time at all, and leaves nothing due at its time. *)
Theorem polling_pass_ends now reads s : entries_ok s -> Forall (fun r => now <= r.1.1) reads -> (trackedCount s <= length reads)%nat ->
  exists s', pollDue (S (trackedCount s)) now reads s = Some s' /\ entries_ok s' /\
    forall k e t, entries s' !! k = Some e -> dueAt s' e = Some t -> now < t.
Proof.
  intros Hs Hr Hl. assert (Hc : (due_count now s <= trackedCount s)%nat) by apply map_size_filter.
  apply pollDue_count; [done|done|lia|lia].
Qed.

(** ** Examples *)
Definition tracked_two : state := acquire 2 8192 1 5 (acquire 1 8192 1 100 (mk_state ∅ ∅)).

Lemma polling_pass_ends_witness : exists s', pollDue 3 50 [(50, 50, true); (50, 750, false)] tracked_two = Some s'.
Proof.
  destruct (polling_pass_ends 50 [(50, 50, true); (50, 750, false)] tracked_two) as (s' & E & _).
  - apply acquire_ok, acquire_ok, map_Forall_empty.
  - repeat constructor; cbn; lia.
  - vm_compute. lia.
  - exists s'. exact E.
Defined.

Definition busy_schedule : list label :=
  [LAcquire 1 8192 1 10; LTake 0; LBegin 0; LTick 5; LFinish 0 true; LTick 5; LTake 1; LBegin 1; LTick 3; LFinish 1 false].
Lemma drive_load_bounded_witness : exists c, run_labels cstep busy_schedule (start_config 4 100) = Some c /\
  forall s e l, reads_of 1 (log c) = (s, e) :: l -> 2 * spent l <= s - first_start s l.
Proof.
  destruct (run_labels cstep busy_schedule (start_config 4 100)) as [c|] eqn:E; [|vm_compute in E; discriminate E].
  exists c. split; [reflexivity|]. apply (drive_load_bounded 4 100 c); [lia|]. exact (run_labels_rtc cstep _ _ _ E).
Defined.
End Refresher.
