(* ===== verification/Sii.v ===== *)
(** * The SII (slave EEPROM) image ([libs/comm/sii.{h,cc}])

    [parseSii] decodes the fixed header and walks the category chain; [validateSiiImage] is the
    guard in front of an EEPROM write. A read the source makes without a check of its own is an
    [option] here, [None] being an access outside the buffer. *)

From S2P Require Import Prelude Util.

Module Sii.

(** ** Field readers: 0 when the field runs past the end *)
Definition rdU8 (b : bytes) (off : nat) : Z := if (off <? length b)%nat then byte_at b off else 0.

Definition rdU16 (b : bytes) (off : nat) : Z :=
  if (length b <? off + 2)%nat then 0
  else u16 (Z.lor (byte_at b off) (Z.shiftl (byte_at b (off + 1)) 8)).

Definition rdI16 (b : bytes) (off : nat) : Z := swrap 16 (rdU16 b off).

Definition rdU32 (b : bytes) (off : nat) : Z :=
  if (length b <? off + 4)%nat then 0
  else Z.lor (Z.lor (Z.lor (byte_at b off) (u32 (Z.shiftl (byte_at b (off + 1)) 8)))
                    (u32 (Z.shiftl (byte_at b (off + 2)) 16)))
             (u32 (Z.shiftl (byte_at b (off + 3)) 24)).

Definition kHeaderBytes : nat := 128.

(** ** The decoded structures *)
Record SiiInfo := mk_info {
  pdiControl : Z;
  pdiConfiguration : Z;
  syncImpulseLen : Z;
  pdiConfiguration2 : Z;
  configuredStationAlias : Z;
  checksum : Z;
  vendorId : Z;
  productCode : Z;
  revisionNumber : Z;
  serialNumber : Z;
  bootstrapReceiveMailboxOffset : Z;
  bootstrapReceiveMailboxSize : Z;
  bootstrapSendMailboxOffset : Z;
  bootstrapSendMailboxSize : Z;
  standardReceiveMailboxOffset : Z;
  standardReceiveMailboxSize : Z;
  standardSendMailboxOffset : Z;
  standardSendMailboxSize : Z;
  mailboxProtocol : Z;
  size : Z;
  version : Z;
}.

Definition parseHeader (b : bytes) : SiiInfo :=
  {| pdiControl := rdU16 b 0;
     pdiConfiguration := rdU16 b 2;
     syncImpulseLen := rdU16 b 4;
     pdiConfiguration2 := rdU16 b 6;
     configuredStationAlias := rdU16 b 8;
     checksum := rdU16 b 14;
     vendorId := rdU32 b 16;
     productCode := rdU32 b 20;
     revisionNumber := rdU32 b 24;
     serialNumber := rdU32 b 28;
     bootstrapReceiveMailboxOffset := rdU16 b 40;
     bootstrapReceiveMailboxSize := rdU16 b 42;
     bootstrapSendMailboxOffset := rdU16 b 44;
     bootstrapSendMailboxSize := rdU16 b 46;
     standardReceiveMailboxOffset := rdU16 b 48;
     standardReceiveMailboxSize := rdU16 b 50;
     standardSendMailboxOffset := rdU16 b 52;
     standardSendMailboxSize := rdU16 b 54;
     mailboxProtocol := rdU16 b 56;
     size := rdU16 b 124;
     version := rdU16 b 126 |}.

Record SiiCategoryGeneral := mk_general {
  groupIdx : Z;
  imgIdx : Z;
  orderIdx : Z;
  g_nameIdx : Z;
  coeDetails : Z;
  foeDetails : Z;
  eoeDetails : Z;
  soeChannels : Z;
  ds402Channels : Z;
  sysmanClass : Z;
  g_flags : Z;
  currentOnEBus : Z;
  physicalPort : Z;
  physicalMemoryAddress : Z;
}.

Record SiiCategorySyncManagerElement := mk_sm {
  physicalStartAddress : Z;
  sm_length : Z;
  controlRegister : Z;
  statusRegister : Z;
  enableSyncManager : Z;
  syncManagerType : Z;
}.

Record SiiCategoryPdoEntryElement := mk_pdo_entry {
  entryIndex : Z;
  subindex : Z;
  entryNameIdx : Z;
  dataType : Z;
  bitLen : Z;
  e_flags : Z;
}.

Record SiiCategoryPdoElement := mk_pdo {
  pdoIndex : Z;
  nEntry : Z;
  syncM : Z;
  synchronization : Z;
  p_nameIdx : Z;
  p_flags : Z;
  entries : list SiiCategoryPdoEntryElement;
}.

Record SiiCategoryDistributedClockElement := mk_dc {
  cycleTime0 : Z;
  shiftTime0 : Z;
  shiftTime1 : Z;
  sync1CycleFactor : Z;
  assignActivate : Z;
  sync0CycleFactor : Z;
  d_nameIdx : Z;
  descIdx : Z;
}.

Record SiiCategorySection := mk_section {
  strings : list text;
  general : SiiCategoryGeneral;
  fmmus : bytes;
  syncManagers : list SiiCategorySyncManagerElement;
  rxPdos : list SiiCategoryPdoElement;
  txPdos : list SiiCategoryPdoElement;
  distributedClocks : list SiiCategoryDistributedClockElement;
}.

Record SlaveInformationInterface := mk_sii { info : SiiInfo; category : SiiCategorySection }.

(** ** Category decoders *)

(** The string loop; [n] strings left, at [cursor]. *)
Fixpoint parse_strings_loop (p : bytes) (n cursor : nat) : option (list text) :=
  match n with
  | O => Some []
  | S n' =>
      if (length p <=? cursor)%nat then Some []
      else
        match p !! cursor with
        | None => None
        | Some len =>
            let tk := Nat.min (Z.to_nat len) (length p - (cursor + 1)) in
            match parse_strings_loop p n' (cursor + 1 + Z.to_nat len) with
            | None => None
            | Some l => Some (slice (cursor + 1) tk p :: l)
            end
        end
  end.

Definition parseStrings (p : bytes) : option (list text) :=
  if (length p =? 0)%nat then Some []
  else match p !! 0%nat with
       | None => None
       | Some count => parse_strings_loop p (Z.to_nat count) 1
       end.

Definition parseGeneral (p : bytes) : SiiCategoryGeneral :=
  {| groupIdx := rdU8 p 0;
     imgIdx := rdU8 p 1;
     orderIdx := rdU8 p 2;
     g_nameIdx := rdU8 p 3;
     coeDetails := rdU8 p 5;
     foeDetails := rdU8 p 6;
     eoeDetails := rdU8 p 7;
     soeChannels := rdU8 p 8;
     ds402Channels := rdU8 p 9;
     sysmanClass := rdU8 p 10;
     g_flags := rdU8 p 11;
     currentOnEBus := rdI16 p 12;
     physicalPort := rdU16 p 16;
     physicalMemoryAddress := rdU16 p 18 |}.

Definition parseFmmu (p : bytes) : bytes := (fun i => rdU8 p i) <$> seq 0 (length p).

Definition parse_sm (p : bytes) (i : nat) : SiiCategorySyncManagerElement :=
  {| physicalStartAddress := rdU16 p i;
     sm_length := rdU16 p (i + 2);
     controlRegister := rdU8 p (i + 4);
     statusRegister := rdU8 p (i + 5);
     enableSyncManager := rdU8 p (i + 6);
     syncManagerType := rdU8 p (i + 7) |}.

(** [for (i = 0; i + k <= p.size(); i += k)], the elements at those offsets. *)
Fixpoint records_loop {A} (f : bytes -> nat -> A) (k : nat) (p : bytes) (fuel i : nat) : list A :=
  match fuel with
  | O => []
  | S fuel' => if (i + k <=? length p)%nat then f p i :: records_loop f k p fuel' (i + k) else []
  end.

Definition parseSyncManagers (p : bytes) : list SiiCategorySyncManagerElement :=
  records_loop parse_sm 8 p (S (length p)) 0.

Definition parse_pdo_entry (p : bytes) (offset : nat) : SiiCategoryPdoEntryElement :=
  {| entryIndex := rdU16 p offset;
     subindex := rdU8 p (offset + 2);
     entryNameIdx := rdU8 p (offset + 3);
     dataType := rdU8 p (offset + 4);
     bitLen := rdU8 p (offset + 5);
     e_flags := rdU16 p (offset + 6) |}.

(** The inner loop of [parsePdo]: the entries, and the offset after them. *)
Fixpoint parse_entries (p : bytes) (n offset : nat) : list SiiCategoryPdoEntryElement * nat :=
  match n with
  | O => ([], offset)
  | S n' =>
      if (length p <? offset + 8)%nat then ([], offset)
      else let '(l, o) := parse_entries p n' (offset + 8) in (parse_pdo_entry p offset :: l, o)
  end.

Fixpoint parse_pdo_loop (p : bytes) (fuel offset : nat) : list SiiCategoryPdoElement :=
  match fuel with
  | O => []
  | S fuel' =>
      if (offset + 8 <=? length p)%nat then
        let n := rdU8 p (offset + 2) in
        let '(es, next) := parse_entries p (Z.to_nat n) (offset + 8) in
        {| pdoIndex := rdU16 p offset;
           nEntry := n;
           syncM := rdU8 p (offset + 3);
           synchronization := rdU8 p (offset + 4);
           p_nameIdx := rdU8 p (offset + 5);
           p_flags := rdU16 p (offset + 6);
           entries := es |} :: parse_pdo_loop p fuel' next
      else []
  end.

Definition parsePdo (p : bytes) : list SiiCategoryPdoElement := parse_pdo_loop p (S (length p)) 0.

Definition parse_dc (p : bytes) (i : nat) : SiiCategoryDistributedClockElement :=
  {| cycleTime0 := rdU32 p i;
     shiftTime0 := rdU32 p (i + 4);
     shiftTime1 := rdU32 p (i + 8);
     sync1CycleFactor := rdI16 p (i + 12);
     assignActivate := rdU16 p (i + 14);
     sync0CycleFactor := rdI16 p (i + 16);
     d_nameIdx := rdU8 p (i + 18);
     descIdx := rdU8 p (i + 19) |}.

Definition parseDc (p : bytes) : list SiiCategoryDistributedClockElement :=
  records_loop parse_dc 24 p (S (length p)) 0.

(** ** Category types *)
Inductive SiiCategoryType :=
  | Nop | DeviceSpecific | Strings | DataTypes | General | Fmmu | SyncM | FmmuX | SyncUnit
  | TxPdo | RxPdo | Dc | Timeouts | Dictionary | Hardware | VendorInformation | Images
  | VendorSpecific | ApplicationSpecific | End_.

#[export] Instance SiiCategoryType_eq_dec : EqDecision SiiCategoryType.
Proof. solve_decision. Defined.

Definition resolveSiiCategoryType (value : Z) : option SiiCategoryType :=
  if (1 <=? value) && (value <=? 9) then Some DeviceSpecific
  else if (2048 <=? value) && (value <=? 8191) then Some VendorSpecific
  else if (8192 <=? value) && (value <=? 12287) then Some ApplicationSpecific
  else if (12288 <=? value) && (value <=? 65534) then Some VendorSpecific
  else if value =? 0 then Some Nop
  else if value =? 10 then Some Strings
  else if value =? 20 then Some DataTypes
  else if value =? 30 then Some General
  else if value =? 40 then Some Fmmu
  else if value =? 41 then Some SyncM
  else if value =? 42 then Some FmmuX
  else if value =? 43 then Some SyncUnit
  else if value =? 50 then Some TxPdo
  else if value =? 51 then Some RxPdo
  else if value =? 60 then Some Dc
  else if value =? 70 then Some Timeouts
  else if value =? 80 then Some Dictionary
  else if value =? 90 then Some Hardware
  else if value =? 100 then Some VendorInformation
  else if value =? 110 then Some Images
  else if value =? 65535 then Some End_
  else None.

(** ** [parseSii] *)

Definition empty_section : SiiCategorySection :=
  mk_section [] (mk_general 0 0 0 0 0 0 0 0 0 0 0 0 0 0) [] [] [] [] [].

(** The [if]/[else if] chain of the walk: one category's payload merged into the section. *)
Definition dispatch (c : SiiCategorySection) (type : option SiiCategoryType) (payload : bytes)
    : option SiiCategorySection :=
  match type with
  | Some Strings =>
      match parseStrings payload with
      | None => None
      | Some s => Some (mk_section s (general c) (fmmus c) (syncManagers c) (rxPdos c) (txPdos c)
                          (distributedClocks c))
      end
  | Some General => Some (mk_section (strings c) (parseGeneral payload) (fmmus c) (syncManagers c)
                            (rxPdos c) (txPdos c) (distributedClocks c))
  | Some Fmmu => Some (mk_section (strings c) (general c) (parseFmmu payload) (syncManagers c)
                         (rxPdos c) (txPdos c) (distributedClocks c))
  | Some SyncM => Some (mk_section (strings c) (general c) (fmmus c) (parseSyncManagers payload)
                          (rxPdos c) (txPdos c) (distributedClocks c))
  | Some RxPdo => Some (mk_section (strings c) (general c) (fmmus c) (syncManagers c)
                          (rxPdos c ++ parsePdo payload) (txPdos c) (distributedClocks c))
  | Some TxPdo => Some (mk_section (strings c) (general c) (fmmus c) (syncManagers c)
                          (rxPdos c) (txPdos c ++ parsePdo payload) (distributedClocks c))
  | Some Dc => Some (mk_section (strings c) (general c) (fmmus c) (syncManagers c)
                       (rxPdos c) (txPdos c) (parseDc payload))
  | _ => Some c
  end.

Fixpoint category_walk (cats : bytes) (fuel offset : nat) (c : SiiCategorySection)
    : option SiiCategorySection :=
  match fuel with
  | O => None
  | S fuel' =>
      if (offset + 4 <=? length cats)%nat then
        let typeValue := rdU16 cats offset in
        if typeValue =? 65535 then Some c
        else
          let wordSize := rdU16 cats (offset + 2) in
          let type := resolveSiiCategoryType typeValue in
          let payloadStart := (offset + 4)%nat in
          let declared := (Z.to_nat wordSize * 2)%nat in
          let available := (length cats - payloadStart)%nat in
          let payload := slice payloadStart (Nat.min declared available) cats in
          match dispatch c type payload with
          | None => None
          | Some c' =>
              if bool_decide (type = Some Nop \/ type = Some End_) then Some c'
              else category_walk cats fuel' (payloadStart + declared) c'
          end
      else Some c
  end.

Inductive SiiError :=
  | SiiTooSmall (size : nat)
  | SiiOddLength (size : nat)
  | SiiTooFewWords (words : nat)
  | SiiChecksumMismatch (stored computed : Z)
  | SiiNoEndMarker
  | SiiNoSizeWord (word : nat)
  | SiiCategoryPastEnd (word : nat) (size : Z) (words : nat).

(** [parseSii]; the outer [option] is [None] for an out-of-bounds read. *)
Definition parseSii (buffer : bytes) : option (expected SiiError SlaveInformationInterface) :=
  if (length buffer <? kHeaderBytes)%nat then Some (Unexpected (SiiTooSmall (length buffer)))
  else
    let categories := drop kHeaderBytes buffer in
    match category_walk categories (S (length categories)) 0 empty_section with
    | None => None
    | Some c => Some (Value (mk_sii (parseHeader buffer) c))
    end.

(** ** [validateSiiImage] *)
Definition kChecksumOffset : nat := 14.
Definition kCategoryStartWord : nat := 64.
Definition kMinWords : nat := kCategoryStartWord + 1.
Definition kEndMarker : Z := 65535.

(** One shift of the CRC register. *)
Definition crc_shift (crc : Z) : Z :=
  u8 (if negb (Z.land crc 128 =? 0) then Z.lxor (Z.shiftl crc 1) 7 else Z.shiftl crc 1).

Definition crc_byte (crc b : Z) : Z := Nat.iter 8 crc_shift (Z.lxor crc b).

Definition crc8 (l : bytes) : Z := foldl crc_byte 255 l.

(** The word at word address [word], both bytes read unchecked. *)
Definition word_at (buffer : bytes) (word : nat) : option Z :=
  match buffer !! (word * 2)%nat, buffer !! (word * 2 + 1)%nat with
  | Some lo, Some hi => Some (u16 (Z.lor lo (Z.shiftl hi 8)))
  | _, _ => None
  end.

Fixpoint chain_walk (buffer : bytes) (words fuel word : nat) : option (expected SiiError unit) :=
  match fuel with
  | O => None
  | S fuel' =>
      if (words <=? word)%nat then Some (Unexpected SiiNoEndMarker)
      else
        match word_at buffer word with
        | None => None
        | Some type =>
            if type =? kEndMarker then Some (Value tt)
            else if (words <=? word + 1)%nat then Some (Unexpected (SiiNoSizeWord word))
            else
              match word_at buffer (word + 1) with
              | None => None
              | Some sz =>
                  let next := (word + 2 + Z.to_nat sz)%nat in
                  if (next <=? word)%nat || (words <? next)%nat
                  then Some (Unexpected (SiiCategoryPastEnd word sz words))
                  else chain_walk buffer words fuel' next
              end
        end
  end.

(** The first 14 bytes, read one by one. *)
Definition read_prefix (buffer : bytes) (n : nat) : option bytes :=
  mapM (fun i => buffer !! i) (seq 0 n).

Definition validateSiiImage (buffer : bytes) : option (expected SiiError unit) :=
  if negb (Nat.even (length buffer)) then Some (Unexpected (SiiOddLength (length buffer)))
  else
    let words := (length buffer / 2)%nat in
    if (words <? kMinWords)%nat then Some (Unexpected (SiiTooFewWords words))
    else
      match read_prefix buffer kChecksumOffset, buffer !! kChecksumOffset with
      | Some p, Some stored =>
          if negb (crc8 p =? stored) then Some (Unexpected (SiiChecksumMismatch stored (crc8 p)))
          else chain_walk buffer words (S words) kCategoryStartWord
      | _, _ => None
      end.

(** ** Reads at a position of the buffer *)

Lemma byte_at_drop b off k : byte_at b (off + k) = byte_at (drop off b) k.
Proof. unfold byte_at. by rewrite lookup_drop. Qed.

Lemma rdU8_drop b off k : rdU8 b (off + k) = rdU8 (drop off b) k.
Proof.
  unfold rdU8. rewrite length_drop, byte_at_drop.
  destruct (Nat.ltb_spec (off + k) (length b)), (Nat.ltb_spec k (length b - off)); lia || done.
Qed.

Lemma rdU16_drop b off k : rdU16 b (off + k) = rdU16 (drop off b) k.
Proof.
  unfold rdU16. rewrite length_drop, <- !Nat.add_assoc, !byte_at_drop.
  destruct (Nat.ltb_spec (length b) (off + (k + 2))), (Nat.ltb_spec (length b - off) (k + 2)); lia || done.
Qed.

Lemma le_bytes_2 x : le_bytes 2 x = [x mod 256; x / 256 mod 256].
Proof. done. Qed.

Lemma u16_of_bytes x : in_u 16 x -> u16 (Z.lor (x mod 256) (Z.shiftl (x / 256 mod 256) 8)) = x.
Proof.
  intros Hx. pose proof (Z.mod_pos_bound x 256 ltac:(lia)).
  rewrite lor_shiftl_add by (unfold in_u; lia).
  pose proof (le_value_bytes 2 x) as E. cbn [le_bytes le_value] in E. rewrite Z.add_0_r, Z.mul_0_r, Z.add_0_r in E || idtac.
  change (2 ^ 8) with 256. replace (x mod 256 + 256 * (x / 256 mod 256)) with (uwrap 16 x).
  - unfold u16. rewrite (uwrap_id 16 x Hx). by apply uwrap_id.
  - change (8 * Z.of_nat 2) with 16 in E. lia.
Qed.

Lemma rdU16_le x rest : in_u 16 x -> rdU16 (le_bytes 2 x ++ rest) 0 = x.
Proof.
  intros Hx. unfold rdU16. rewrite length_app, length_le_bytes.
  destruct (Nat.ltb_spec (2 + length rest) (0 + 2)); [lia|].
  rewrite le_bytes_2. by apply u16_of_bytes.
Qed.

(** ** PDO categories *)

(** How the EEPROM stores a default PDO (ETG.2010 Table 14). *)
Definition enc_entry (e : SiiCategoryPdoEntryElement) : bytes :=
  le_bytes 2 (entryIndex e) ++ [subindex e; entryNameIdx e; dataType e; bitLen e] ++
  le_bytes 2 (e_flags e).
Definition enc_pdo (p : SiiCategoryPdoElement) : bytes :=
  le_bytes 2 (pdoIndex p) ++ [nEntry p; syncM p; synchronization p; p_nameIdx p] ++
  le_bytes 2 (p_flags p) ++ flat_map enc_entry (entries p).

Record entry_ok (e : SiiCategoryPdoEntryElement) : Prop := mk_entry_ok {
  eo_index : in_u 16 (entryIndex e);
  eo_flags : in_u 16 (e_flags e);
}.
Record pdo_ok (p : SiiCategoryPdoElement) : Prop := mk_pdo_ok {
  po_index : in_u 16 (pdoIndex p);
  po_flags : in_u 16 (p_flags p);
  po_count : nEntry p = Z.of_nat (length (entries p));
  po_entries : Forall entry_ok (entries p);
}.

Lemma length_enc_entry e : length (enc_entry e) = 8%nat.
Proof. unfold enc_entry. by autorewrite with mm_len. Qed.

Lemma length_enc_entries es : length (flat_map enc_entry es) = (8 * length es)%nat.
Proof.
  induction es as [|e es IH]; [done|]. cbn [flat_map length].
  rewrite length_app, length_enc_entry, IH. lia.
Qed.

Lemma parse_pdo_entry_enc e rest : entry_ok e -> parse_pdo_entry (enc_entry e ++ rest) 0 = e.
Proof.
  intros [Hi Hf]. unfold parse_pdo_entry, enc_entry. rewrite <- app_assoc, rdU16_le by done.
  rewrite (rdU16_drop _ 6 0 : rdU16 _ (0 + 6) = _). cbn [le_bytes app drop].
  change (rdU16 (_ :: _ :: rest) 0) with (rdU16 (le_bytes 2 (e_flags e) ++ rest) 0).
  rewrite rdU16_le by done. by destruct e.
Qed.

Lemma parse_pdo_entry_drop p off : parse_pdo_entry p off = parse_pdo_entry (drop off p) 0.
Proof.
  unfold parse_pdo_entry. rewrite <- (Nat.add_0_r off) at 1. rewrite !rdU8_drop, !rdU16_drop. done.
Qed.

Lemma parse_entries_enc p es off post :
  Forall entry_ok es -> (off <= length p)%nat -> drop off p = flat_map enc_entry es ++ post ->
  parse_entries p (length es) off = (es, (off + 8 * length es)%nat).
Proof.
  intros He. revert off. induction He as [|e es He Hes IH]; intros off Hoff Hd.
  - cbn [length parse_entries]. f_equal. lia.
  - cbn [length parse_entries]. cbn [flat_map] in Hd. rewrite <- app_assoc in Hd.
    assert (Hlen : (length p - off = 8 + length (flat_map enc_entry es ++ post))%nat).
    { rewrite <- length_drop, Hd, length_app, length_enc_entry. done. }
    destruct (Nat.ltb_spec (length p) (off + 8)); [lia|].
    assert (Hd8 : drop (off + 8) p = flat_map enc_entry es ++ post).
    { rewrite <- drop_drop, Hd. by rewrite drop_app_length' by (by rewrite length_enc_entry). }
    rewrite (IH (off + 8)%nat ltac:(lia) Hd8).
    rewrite parse_pdo_entry_drop, Hd, parse_pdo_entry_enc by done. f_equal. lia.
Qed.

Lemma parse_pdo_loop_enc p fuel off pdos :
  Forall pdo_ok pdos -> (off <= length p)%nat -> drop off p = flat_map enc_pdo pdos ->
  (length p - off < fuel)%nat -> parse_pdo_loop p fuel off = pdos.
Proof.
  intros Hp. revert fuel off. induction Hp as [|d pdos [Hi Hf Hc He] Hps IH]; intros fuel off Hoff Hd Hfuel;
    (destruct fuel as [|fuel]; [lia|]); cbn [parse_pdo_loop flat_map] in *.
  - apply (f_equal length) in Hd. rewrite length_drop in Hd. cbn [length] in Hd.
    destruct (Nat.leb_spec (off + 8) (length p)); [lia|done].
  - unfold enc_pdo in Hd at 1. rewrite <- !app_assoc in Hd.
    set (tl := flat_map enc_entry (entries d) ++ flat_map enc_pdo pdos) in *.
    assert (Hlen : (length p - off = 8 + length tl)%nat).
    { rewrite <- length_drop, Hd. autorewrite with mm_len. cbn [length]. lia. }
    destruct (Nat.leb_spec (off + 8) (length p)); [|lia].
    assert (Ec : rdU8 p (off + 2) = nEntry d) by (rewrite rdU8_drop, Hd; done).
    rewrite Ec. rewrite Hc, Nat2Z.id.
    assert (Hd8 : drop (off + 8) p = tl) by (rewrite <- drop_drop, Hd; done).
    rewrite (parse_entries_enc p (entries d) (off + 8) (flat_map enc_pdo pdos)) by (done || lia).
    assert (Hlt : length tl = (8 * length (entries d) + length (flat_map enc_pdo pdos))%nat)
      by (subst tl; rewrite length_app, length_enc_entries; done).
    rewrite IH; [| lia | | lia].
    + rewrite <- (Nat.add_0_r off) at 1. rewrite !rdU8_drop, !rdU16_drop, Hd.
      rewrite rdU16_le by done.
      change (rdU16 (le_bytes 2 (pdoIndex d) ++ _) 6) with (rdU16 (le_bytes 2 (p_flags d) ++ tl) 0).
      rewrite rdU16_le by done. destruct d; cbn in *. by subst.
    + rewrite <- drop_drop, Hd8. subst tl. by rewrite drop_app_length' by (by rewrite length_enc_entries).
Qed.

(** Every list of default PDOs the EEPROM layout can hold, several per category and with up to
    255 entries each, is decoded by [parsePdo] exactly as stored. *)
Theorem parsePdo_roundtrip pdos :
  Forall pdo_ok pdos -> parsePdo (flat_map enc_pdo pdos) = pdos.
Proof.
  intros Hp. apply parse_pdo_loop_enc; [done|lia|done|lia].
Qed.

Lemma parsePdo_roundtrip_witness :
  let p := mk_pdo 5632 2 2 0 7 0 [mk_pdo_entry 24640 0 8 6 16 0; mk_pdo_entry 24698 0 9 4 32 0] in
  parsePdo (flat_map enc_pdo [p; p]) = [p; p].
Proof.
  apply parsePdo_roundtrip. repeat constructor; done.
Defined.

(** ** The category chain *)

(** A category of the EEPROM: type word, size in words, payload. *)
Definition enc_category (c : Z * bytes) : bytes :=
  le_bytes 2 c.1 ++ le_bytes 2 (Z.of_nat (length c.2 / 2)) ++ c.2.

Record category_ok (c : Z * bytes) : Prop := mk_category_ok {
  co_type : in_u 16 c.1;
  co_not_end : c.1 <> kEndMarker;
  co_even : Nat.even (length c.2) = true;
  co_size : Z.of_nat (length c.2) < 2 ^ 17;
}.

Lemma even_half n : Nat.even n = true -> (2 * (n / 2))%nat = n.
Proof.
  intros H. apply Nat.even_spec in H as [k ->]. rewrite (Nat.mul_comm 2 k), Nat.div_mul by lia. lia.
Qed.

Lemma category_size_ok c : category_ok c -> in_u 16 (Z.of_nat (length c.2 / 2)).
Proof. intros [_ _ He Hs]. pose proof (even_half _ He). unfold in_u. lia. Qed.

Lemma length_enc_category c : length (enc_category c) = (4 + length c.2)%nat.
Proof. unfold enc_category. autorewrite with mm_len. lia. Qed.

Lemma le_bytes_2_inj x y : in_u 16 x -> in_u 16 y -> le_bytes 2 x = le_bytes 2 y -> x = y.
Proof.
  intros Hx Hy E. apply (f_equal le_value) in E. rewrite !le_value_bytes in E.
  by rewrite !(uwrap_id (8 * Z.of_nat 2)) in E.
Qed.

Lemma word_at_spec buffer word : bytes_ok buffer -> (2 * word + 2 <= length buffer)%nat ->
  exists t, word_at buffer word = Some t /\ in_u 16 t /\
    drop (2 * word) buffer = le_bytes 2 t ++ drop (2 * (word + 1)) buffer.
Proof.
  intros Hok Hlen. unfold word_at.
  destruct (lookup_lt_is_Some_2 buffer (word * 2)) as [lo Hlo]; [lia|].
  destruct (lookup_lt_is_Some_2 buffer (word * 2 + 1)) as [hi Hhi]; [lia|]. rewrite Hlo, Hhi.
  assert (Hl8 : in_u 8 lo) by (by eapply (Forall_lookup_1 _ buffer)).
  assert (Hh8 : in_u 8 hi) by (by eapply (Forall_lookup_1 _ buffer)).
  assert (E : u16 (Z.lor lo (Z.shiftl hi 8)) = lo + 256 * hi).
  { rewrite lor_shiftl_add by (lia || done). unfold in_u in *. apply uwrap_id. unfold in_u.
    change (2 ^ 8) with 256 in *. lia. }
  eexists. split; [done|]. rewrite E. unfold in_u in *. split; [lia|].
  replace (2 * word)%nat with (word * 2)%nat by lia.
  rewrite (drop_S _ _ _ Hlo). replace (S (word * 2)) with (word * 2 + 1)%nat by lia.
  rewrite (drop_S _ _ _ Hhi). replace (2 * (word + 1))%nat with (S (word * 2 + 1)) by lia.
  rewrite le_bytes_2, (Z.mul_comm 256), Z_mod_plus_full, Z.div_add by lia.
  rewrite (Z.mod_small lo), (Z.div_small lo), Z.add_0_l, (Z.mod_small hi) by lia. done.
Qed.

Section Chain.
Context (buffer : bytes) (words : nat) (Hok : bytes_ok buffer)
  (Hwords : length buffer = (2 * words)%nat).

(** From any word on, the walk ends with a verdict and reads nothing outside the image. *)
Lemma chain_walk_total fuel word :
  (words - word < fuel)%nat -> exists r, chain_walk buffer words fuel word = Some r.
Proof using Hok Hwords.
  revert word. induction fuel as [|fuel IH]; intros word Hf; [lia|]. cbn [chain_walk].
  destruct (Nat.leb_spec words word); [eauto|].
  destruct (word_at_spec buffer word Hok ltac:(lia)) as (t & -> & _).
  destruct (t =? kEndMarker); [eauto|]. destruct (Nat.leb_spec words (word + 1)); [eauto|].
  destruct (word_at_spec buffer (word + 1) Hok ltac:(lia)) as (sz & -> & _).
  destruct ((_ <=? word)%nat || (words <? _)%nat) eqn:E; [eauto|].
  apply orb_false_iff in E as [E1%Nat.leb_gt E2%Nat.ltb_ge].
  apply IH; lia.
Qed.

Lemma chain_walk_sound fuel word :
  chain_walk buffer words fuel word = Some (Value tt) ->
  exists cats rest, drop (2 * word) buffer = flat_map enc_category cats ++ [255; 255] ++ rest /\
    Forall category_ok cats.
Proof using Hok Hwords.
  revert word. induction fuel as [|fuel IH]; intros word H; [done|]. cbn [chain_walk] in H.
  destruct (Nat.leb_spec words word); [done|].
  destruct (word_at_spec buffer word Hok ltac:(lia)) as (t & E & Ht & Hd). rewrite E in H.
  destruct (Z.eqb_spec t kEndMarker) as [Et|Hne].
  { rewrite Et in Hd. exists [], (drop (2 * (word + 1)) buffer). split; [exact Hd|constructor]. }
  destruct (Nat.leb_spec words (word + 1)); [done|].
  destruct (word_at_spec buffer (word + 1) Hok ltac:(lia)) as (sz & E' & Hsz & Hd').
  rewrite E' in H. destruct ((_ <=? word)%nat || (words <? _)%nat) eqn:Eb; [done|].
  apply orb_false_iff in Eb as [_ Eb%Nat.ltb_ge].
  destruct (IH _ H) as (cats & rest & Hc & Hcs). unfold in_u in Hsz.
  set (payload := slice (2 * (word + 2)) (2 * Z.to_nat sz) buffer).
  assert (Hpl : length payload = (2 * Z.to_nat sz)%nat) by (apply length_slice; lia).
  exists ((t, payload) :: cats), rest. split.
  - cbn [flat_map]. rewrite <- app_assoc, <- Hc. unfold enc_category. cbn [fst snd].
    rewrite Hpl, (Nat.mul_comm 2 (Z.to_nat sz)), Nat.div_mul, Z2Nat.id by lia.
    rewrite Hd, Hd', <- !app_assoc. f_equal. f_equal. subst payload. unfold slice.
    rewrite <- (take_drop (2 * Z.to_nat sz) (drop (2 * (word + 1 + 1)) buffer)), drop_drop.
    f_equal; f_equal; [f_equal|]; lia.
  - constructor; [|done]. constructor; cbn [fst snd]; rewrite ?Hpl; try done;
      [by rewrite Nat.even_mul|lia].
Qed.

Lemma chain_walk_complete fuel word cats rest :
  (words - word < fuel)%nat -> (word <= words)%nat -> Forall category_ok cats ->
  drop (2 * word) buffer = flat_map enc_category cats ++ [255; 255] ++ rest ->
  chain_walk buffer words fuel word = Some (Value tt).
Proof using Hok Hwords.
  intros Hf Hle Hcs. revert fuel word Hf Hle. induction Hcs as [|c cats Hc Hcs IH];
    intros fuel word Hf Hle Hd; (destruct fuel as [|fuel]; [lia|]); cbn [chain_walk flat_map] in *;
    pose proof (f_equal length Hd) as Hl; rewrite length_drop, Hwords, !length_app in Hl;
    cbn [length] in Hl; (destruct (Nat.leb_spec words word); [lia|]);
    destruct (word_at_spec buffer word Hok ltac:(lia)) as (t & -> & Ht & Hdt); rewrite Hdt in Hd.
  - change (le_bytes 2 t ++ drop (2 * (word + 1)) buffer = le_bytes 2 kEndMarker ++ rest) in Hd.
    apply app_inj_1 in Hd as [Et _]; [|done].
    apply le_bytes_2_inj in Et as ->; [|done|done]. done.
  - rewrite length_enc_category in Hl. unfold enc_category in Hd. rewrite <- !app_assoc in Hd.
    apply app_inj_1 in Hd as [Et Hd]; [|done]. pose proof (category_size_ok c Hc) as Hsz.
    destruct Hc as [Hct Hcn Hce Hcs']. apply le_bytes_2_inj in Et as ->; [|done|done].
    destruct (Z.eqb_spec c.1 kEndMarker); [done|]. destruct (Nat.leb_spec words (word + 1)); [lia|].
    destruct (word_at_spec buffer (word + 1) Hok ltac:(lia)) as (sz & -> & Hszu & Hdt').
    rewrite Hdt' in Hd. apply app_inj_1 in Hd as [Es Hd]; [|done].
    apply le_bytes_2_inj in Es as ->; [|done|done]. rewrite Nat2Z.id.
    pose proof (even_half _ Hce) as Heven.
    destruct (Nat.leb_spec (word + 2 + length c.2 / 2) word); [lia|].
    destruct (Nat.ltb_spec words (word + 2 + length c.2 / 2)); [lia|]. cbn [orb].
    apply IH; [lia|lia|]. replace (2 * (word + 2 + length c.2 / 2))%nat
      with (2 * (word + 1 + 1) + length c.2)%nat by lia.
    by rewrite <- drop_drop, Hd, drop_app_length.
Qed.
End Chain.

Lemma read_prefix_take buffer n : (n <= length buffer)%nat -> read_prefix buffer n = Some (take n buffer).
Proof.
  intros Hn. unfold read_prefix. apply mapM_Some. apply Forall2_same_length_lookup. split.
  - by rewrite length_seq, length_take, Nat.min_l.
  - intros i x y Hx Hy. apply lookup_seq in Hx as [-> Hi]. by rewrite lookup_take_lt in Hy by done.
Qed.

Lemma validateSiiImage_total buffer : bytes_ok buffer -> exists r, validateSiiImage buffer = Some r.
Proof.
  intros Hok. unfold validateSiiImage. destruct (Nat.even (length buffer)) eqn:He; cbn [negb]; [|eauto].
  pose proof (even_half _ He) as Hw. set (words := (length buffer / 2)%nat) in *.
  destruct (Nat.ltb_spec words kMinWords) as [Hm|Hm]; [eauto|]. unfold kMinWords, kCategoryStartWord in Hm.
  rewrite read_prefix_take by (unfold kChecksumOffset; lia).
  destruct (lookup_lt_is_Some_2 buffer kChecksumOffset) as [stored Hst]; [unfold kChecksumOffset; lia|]. rewrite Hst.
  destruct (negb _); [eauto|]. apply chain_walk_total; [done|lia|lia].
Qed.

(** C4: [validateSiiImage] always returns a verdict without reading outside the image, and accepts
    exactly the images made of a 128-byte header whose checksum byte is the CRC-8 of the 14 bytes
    before it, whole categories, and the end marker. *)
Theorem validateSiiImage_iff buffer :
  bytes_ok buffer ->
  (exists r, validateSiiImage buffer = Some r) /\
  (validateSiiImage buffer = Some (Value tt) <->
   exists hdr cats rest, buffer = hdr ++ flat_map enc_category cats ++ [255; 255] ++ rest /\
     length hdr = kHeaderBytes /\ Forall category_ok cats /\ Nat.even (length buffer) = true /\
     hdr !! kChecksumOffset = Some (crc8 (take kChecksumOffset hdr))).
Proof.
  intros Hok. split; [by apply validateSiiImage_total|]. unfold validateSiiImage.
  destruct (Nat.even (length buffer)) eqn:He; cbn [negb].
  2: { split; [done|]. intros (? & ? & ? & ? & ? & ? & ? & ?). done. }
  pose proof (even_half _ He) as Hw. set (words := (length buffer / 2)%nat) in *.
  destruct (Nat.ltb_spec words kMinWords) as [Hm|Hm]; unfold kMinWords in Hm.
  { split; [done|]. intros (hdr & cats & rest & E & Hl & _). exfalso.
    apply (f_equal length) in E. rewrite !length_app, Hl in E. unfold kHeaderBytes in E.
    cbn [length] in E. unfold kCategoryStartWord in Hm. lia. }
  unfold kCategoryStartWord in Hm.
  rewrite read_prefix_take by (unfold kChecksumOffset; lia).
  destruct (lookup_lt_is_Some_2 buffer kChecksumOffset) as [stored Hst];
    [unfold kChecksumOffset; lia|]. rewrite Hst.
  assert (Hhdr : forall hdr tl, buffer = hdr ++ tl -> length hdr = kHeaderBytes ->
    take kChecksumOffset hdr = take kChecksumOffset buffer /\
    hdr !! kChecksumOffset = Some stored /\ drop (2 * kCategoryStartWord) buffer = tl).
  { intros hdr tl -> Hl. unfold kHeaderBytes in Hl. split; [|split].
    - by rewrite take_app_le by (rewrite Hl; unfold kChecksumOffset; lia).
    - rewrite <- Hst. symmetry. apply lookup_app_l. rewrite Hl. unfold kChecksumOffset. lia.
    - by rewrite drop_app_length' by (by rewrite Hl). }
  destruct (Z.eqb_spec (crc8 (take kChecksumOffset buffer)) stored) as [Ec|Ec]; cbn [negb].
  - split.
    + intros H. destruct (chain_walk_sound buffer words Hok (eq_sym Hw) _ _ H) as (cats & rest & Hd & Hcs).
      exists (take kHeaderBytes buffer), cats, rest.
      assert (Hb : buffer = take kHeaderBytes buffer ++ flat_map enc_category cats ++ [255; 255] ++ rest)
        by (rewrite <- Hd; symmetry; apply take_drop).
      assert (Hl : length (take kHeaderBytes buffer) = kHeaderBytes)
        by (rewrite length_take; unfold kHeaderBytes; lia).
      destruct (Hhdr _ _ Hb Hl) as (-> & -> & _). rewrite Ec. done.
    + intros (hdr & cats & rest & E & Hl & Hcs & _ & _). destruct (Hhdr _ _ E Hl) as (_ & _ & Hd).
      apply (chain_walk_complete buffer words Hok (eq_sym Hw) _ _ cats rest); try done;
        unfold kCategoryStartWord; lia.
  - split; [done|]. intros (hdr & cats & rest & E & Hl & _ & _ & Hc). exfalso.
    destruct (Hhdr _ _ E Hl) as (E1 & E2 & _). rewrite E1, E2 in Hc. congruence.
Qed.

(** A minimal image: header, one FMMU category, end marker. *)
Definition w_image : bytes :=
  replicate 14 0 ++ [crc8 (replicate 14 0)] ++ replicate 113 0 ++
  flat_map enc_category [(40, [1; 2])] ++ [255; 255].

Lemma w_image_ok : bytes_ok w_image.
Proof. apply (bool_decide_eq_true (bytes_ok w_image)). vm_compute. reflexivity. Qed.

Lemma validateSiiImage_iff_witness : validateSiiImage w_image = Some (Value tt).
Proof.
  apply (validateSiiImage_iff w_image w_image_ok).
  exists (take 128 w_image), [(40, [1; 2])], []. split; [vm_compute; reflexivity|].
  split; [done|]. split; [|split; vm_compute; reflexivity].
  constructor; [|constructor]. constructor; done.
Defined.

(** ** The checksum *)

Definition crc_unshift (c : Z) : Z :=
  if Z.testbit c 0 then Z.lor (Z.shiftr (Z.lxor c 7) 1) 128 else Z.shiftr c 1.

Lemma crc_unshift_shift x : in_u 8 x -> crc_unshift (crc_shift x) = x.
Proof.
  intros Hx. apply Z.eqb_eq.
  assert (H : forallb (fun x => crc_unshift (crc_shift x) =? x) (seqZ 0 256) = true)
    by (vm_compute; reflexivity).
  rewrite forallb_forall in H. apply H. apply list_elem_of_In, elem_of_seqZ. unfold in_u in Hx. lia.
Qed.

Lemma crc_iter_inj n x y : in_u 8 x -> in_u 8 y ->
  Nat.iter n crc_shift x = Nat.iter n crc_shift y -> x = y.
Proof.
  revert x y. induction n as [|n IH]; intros x y Hx Hy E; [done|].
  rewrite !Nat.iter_succ_r in E. apply IH in E; [|by apply uwrap_range..].
  rewrite <- (crc_unshift_shift x Hx), <- (crc_unshift_shift y Hy). by rewrite E.
Qed.

Lemma crc_byte_iter c b : crc_byte c b = Nat.iter 8 crc_shift (Z.lxor c b).
Proof. unfold crc_byte. reflexivity. Qed.

#[local] Opaque crc_byte.

Lemma crc_byte_ok c b : in_u 8 (crc_byte c b).
Proof. rewrite crc_byte_iter, Nat.iter_succ. by apply uwrap_range. Qed.

Lemma crc_byte_inj c c' b b' : in_u 8 c -> in_u 8 c' -> in_u 8 b -> in_u 8 b' ->
  crc_byte c b = crc_byte c' b' -> Z.lxor c b = Z.lxor c' b'.
Proof.
  intros Hc Hc' Hb Hb' E. rewrite !crc_byte_iter in E.
  exact (crc_iter_inj 8 _ _ (lxor_ok 8 c b ltac:(lia) Hc Hb) (lxor_ok 8 c' b' ltac:(lia) Hc' Hb') E).
Qed.

(** Different registers stay different over the same bytes. *)
Lemma crc_foldl_inj l c c' : bytes_ok l -> in_u 8 c -> in_u 8 c' ->
  foldl crc_byte c l = foldl crc_byte c' l -> c = c'.
Proof.
  intros Hl. revert c c'. induction Hl as [|b l Hb Hl IH]; intros c c' Hc Hc' E; [done|].
  cbn [foldl] in E. apply IH in E; [|apply crc_byte_ok..]. apply crc_byte_inj in E; try done.
  rewrite (Z.lxor_comm c), (Z.lxor_comm c') in E. by apply lxor_inj_r in E.
Qed.

Lemma crc8_detects l i b : bytes_ok l -> in_u 8 b -> (i < length l)%nat -> l !! i <> Some b ->
  crc8 (<[i := b]> l) <> crc8 l.
Proof.
  intros Hl Hb Hi Hne E. destruct (lookup_lt_is_Some_2 l i Hi) as [x Hx].
  assert (Hx8 : in_u 8 x) by (by eapply (Forall_lookup_1 _ l)).
  unfold crc8 in E. rewrite <- (take_drop_middle l i x Hx) in E.
  rewrite insert_app_r_alt in E by (rewrite length_take; lia).
  rewrite length_take, Nat.min_l, Nat.sub_diag, !foldl_app in E by lia.
  cbn [foldl insert list_insert] in E.
  assert (Hreg : in_u 8 (foldl crc_byte 255 (take i l))).
  { destruct (take i l) as [|y k] using rev_ind; [by unfold in_u|]. rewrite foldl_snoc. apply crc_byte_ok. }
  apply crc_foldl_inj in E; [|by apply Forall_drop|apply crc_byte_ok..].
  apply crc_byte_inj in E; try done. apply lxor_inj_r in E. congruence.
Qed.

(** An accepted image with one of the 14 checksummed bytes changed, in whatever way, is rejected
    with a checksum mismatch. *)
Theorem validateSiiImage_detects buffer i b :
  bytes_ok buffer -> in_u 8 b -> (i < kChecksumOffset)%nat -> buffer !! i <> Some b ->
  validateSiiImage buffer = Some (Value tt) ->
  exists stored computed,
    validateSiiImage (<[i := b]> buffer) = Some (Unexpected (SiiChecksumMismatch stored computed)).
Proof.
  intros Hok Hb Hi Hne. unfold validateSiiImage. rewrite length_insert.
  destruct (negb (Nat.even (length buffer))); [done|].
  destruct (Nat.ltb_spec (length buffer / 2) kMinWords) as [Hm|Hm]; [done|].
  assert (kChecksumOffset < length buffer)%nat.
  { unfold kMinWords, kCategoryStartWord, kChecksumOffset in *.
    pose proof (Nat.Div0.mul_div_le (length buffer) 2). lia. }
  rewrite !read_prefix_take by (rewrite ?length_insert; lia).
  rewrite list_lookup_insert_ne by lia.
  destruct (buffer !! kChecksumOffset) as [stored|]; [|done].
  destruct (Z.eqb_spec (crc8 (take kChecksumOffset buffer)) stored) as [E|E]; [|done]. intros _.
  rewrite take_insert_lt by done.
  destruct (Z.eqb_spec (crc8 (<[i := b]> (take kChecksumOffset buffer))) stored) as [E'|E'];
    [|cbn [negb]; eauto].
  exfalso. apply (crc8_detects (take kChecksumOffset buffer) i b); [by apply Forall_take|done| | |congruence].
  - rewrite length_take. lia.
  - by rewrite lookup_take_lt by done.
Qed.

Lemma validateSiiImage_detects_witness :
  exists stored computed,
    validateSiiImage (<[3%nat := 16]> w_image) = Some (Unexpected (SiiChecksumMismatch stored computed)).
Proof.
  apply (validateSiiImage_detects w_image 3 16 w_image_ok); [done|unfold kChecksumOffset; lia|done|].
  vm_compute. reflexivity.
Defined.

(** ** [parseSii] *)

Lemma parse_strings_total p n cursor : exists l, parse_strings_loop p n cursor = Some l.
Proof.
  revert cursor. induction n as [|n IH]; intros cursor; cbn [parse_strings_loop]; [eauto|].
  destruct (Nat.leb_spec (length p) cursor); [eauto|].
  destruct (lookup_lt_is_Some_2 p cursor) as [len ->]; [lia|].
  destruct (IH (cursor + 1 + Z.to_nat len)%nat) as [l ->]. eauto.
Qed.

Lemma parseStrings_total p : exists l, parseStrings p = Some l.
Proof.
  unfold parseStrings. destruct (Nat.eqb_spec (length p) 0); [eauto|].
  destruct (lookup_lt_is_Some_2 p 0) as [count ->]; [lia|]. apply parse_strings_total.
Qed.

Lemma dispatch_total c type payload : exists c', dispatch c type payload = Some c'.
Proof.
  destruct type as [[]|]; cbn [dispatch]; eauto.
  destruct (parseStrings_total payload) as [l ->]. eauto.
Qed.

Lemma category_walk_total cats fuel offset c :
  (length cats - offset < fuel)%nat -> exists c', category_walk cats fuel offset c = Some c'.
Proof.
  revert offset c. induction fuel as [|fuel IH]; intros offset c Hf; [lia|]. cbn [category_walk].
  destruct (Nat.leb_spec (offset + 4) (length cats)); [|eauto].
  destruct (_ =? 65535); [eauto|]. destruct (dispatch_total c
    (resolveSiiCategoryType (rdU16 cats offset)) (slice (offset + 4)
      (Nat.min (Z.to_nat (rdU16 cats (offset + 2)) * 2) (length cats - (offset + 4))) cats)) as [c' ->].
  case_bool_decide; [eauto|]. apply IH. lia.
Qed.

(** The reference: every category of the chain merged in order. *)
Definition merge_categories (c : SiiCategorySection) (cats : list (Z * bytes)) : option SiiCategorySection :=
  foldl (fun oc cat => match oc with
    | Some c => dispatch c (resolveSiiCategoryType cat.1) cat.2
    | None => None
    end) (Some c) cats.

Lemma resolve_continues v : v <> 0 -> v <> kEndMarker ->
  ~ (resolveSiiCategoryType v = Some Nop \/ resolveSiiCategoryType v = Some End_).
Proof.
  intros H0 He. unfold kEndMarker in He. unfold resolveSiiCategoryType.
  assert (E0 : (v =? 0) = false) by (by apply Z.eqb_neq).
  assert (E1 : (v =? 65535) = false) by (by apply Z.eqb_neq). rewrite E0, E1.
  repeat match goal with
  | |- context [if ?b then _ else _] => destruct b; [by intros [?|?]|]
  end.
  by intros [?|?].
Qed.

Lemma category_walk_chain cats fuel offset c chain rest :
  (length cats - offset < fuel)%nat -> (offset <= length cats)%nat ->
  Forall category_ok chain -> Forall (fun cat => cat.1 <> 0) chain ->
  drop offset cats = flat_map enc_category chain ++ [255; 255] ++ rest ->
  category_walk cats fuel offset c = merge_categories c chain.
Proof.
  intros Hf Hle Hok. revert fuel offset c Hf Hle.
  induction Hok as [|cat chain Hcat Hok IH]; intros fuel offset c Hf Hle Hnz Hd;
    (destruct fuel as [|fuel]; [lia|]); cbn [category_walk flat_map] in *;
    pose proof (f_equal length Hd) as Hl; rewrite length_drop, !length_app in Hl; cbn [length] in Hl.
  - destruct (Nat.leb_spec (offset + 4) (length cats)); [|done].
    rewrite <- (Nat.add_0_r offset) at 1. rewrite rdU16_drop, Hd.
    change (rdU16 ([] ++ [255; 255] ++ rest) 0) with (rdU16 (le_bytes 2 65535 ++ rest) 0).
    by rewrite rdU16_le.
  - rewrite length_enc_category in Hl. pose proof (category_size_ok cat Hcat) as Hsz.
    destruct Hcat as [Ht Hne Hev Hs17]. apply Forall_cons in Hnz as [Hn0 Hnz].
    destruct (Nat.leb_spec (offset + 4) (length cats)); [|lia].
    assert (Hd2 : rdU16 cats (offset + 2) = Z.of_nat (length cat.2 / 2)).
    { rewrite <- (Nat.add_0_r (offset + 2)), rdU16_drop, <- drop_drop, Hd. unfold enc_category.
      rewrite <- !app_assoc. change (drop 2 (le_bytes 2 cat.1 ++ ?x)) with x. by apply rdU16_le. }
    assert (Hd0 : rdU16 cats offset = cat.1).
    { rewrite <- (Nat.add_0_r offset), rdU16_drop, Hd. unfold enc_category.
      rewrite <- !app_assoc. by apply rdU16_le. }
    pose proof (even_half _ Hev) as Heven.
    assert (Hp : slice (offset + 4) (Nat.min (Z.to_nat (Z.of_nat (length cat.2 / 2)) * 2)
      (length cats - (offset + 4))) cats = cat.2).
    { rewrite Nat2Z.id, Nat.min_l by lia. replace (length cat.2 / 2 * 2)%nat with (length cat.2) by lia.
      unfold slice. rewrite <- drop_drop, Hd. unfold enc_category. rewrite <- !app_assoc.
      change (drop 4 (le_bytes 2 cat.1 ++ le_bytes 2 ?x ++ ?y)) with y. by rewrite take_app_length. }
    rewrite Hd0, Hd2, Hp. unfold kEndMarker in Hne. destruct (Z.eqb_spec cat.1 65535); [done|].
    unfold merge_categories. cbn [foldl].
    destruct (dispatch_total c (resolveSiiCategoryType cat.1) cat.2) as [c' ->].
    rewrite bool_decide_eq_false_2 by (by apply resolve_continues).
    apply IH; try done; rewrite ?Nat2Z.id; try lia.
    replace (offset + 4 + length cat.2 / 2 * 2)%nat with (offset + (4 + length cat.2))%nat by lia.
    rewrite <- drop_drop, Hd. by rewrite <- app_assoc, drop_app_length' by (by rewrite length_enc_category).
Qed.

(** [parseSii] never reads outside the image and always ends; on a header followed by whole
    categories and the end marker it decodes every category, in order, from its full payload. *)
Theorem parseSii_walks buffer hdr chain rest :
  (exists r, parseSii buffer = Some r) /\
  (buffer = hdr ++ flat_map enc_category chain ++ [255; 255] ++ rest -> length hdr = kHeaderBytes ->
   Forall category_ok chain -> Forall (fun cat => cat.1 <> 0) chain ->
   exists c, merge_categories empty_section chain = Some c /\
     parseSii buffer = Some (Value (mk_sii (parseHeader buffer) c))).
Proof.
  unfold parseSii. set (cats := drop kHeaderBytes buffer).
  destruct (category_walk_total cats (S (length cats)) 0 empty_section ltac:(lia)) as [c Hc].
  rewrite Hc. split; [destruct (length buffer <? kHeaderBytes)%nat; eauto|].
  intros Hb Hl Hok Hnz. exists c. destruct (Nat.ltb_spec (length buffer) kHeaderBytes) as [Hlt|_].
  { rewrite Hb, length_app in Hlt. lia. }
  split; [|done]. rewrite <- Hc. symmetry.
  apply (category_walk_chain _ _ _ _ _ rest); try done; try lia.
  subst cats. by rewrite drop_0, Hb, drop_app_length' by done.
Qed.

Lemma parseSii_walks_witness :
  exists c, merge_categories empty_section [(40, [1; 2])] = Some c /\
    parseSii w_image = Some (Value (mk_sii (parseHeader w_image) c)).
Proof.
  apply (parseSii_walks w_image (take 128 w_image) [(40, [1; 2])] []).
  - vm_compute. reflexivity.
  - done.
  - constructor; [|constructor]. constructor; done.
  - constructor; [done|constructor].
Defined.

End Sii.
