(* ===== verification/Driver.v ===== *)
(** * The fieldbus driver interface ([libs/comm/fieldbus_driver.h]) and the monad of its clients

    [FieldbusDriver] is the abstract class the node layer talks to; its implementations drive
    hardware, so the state of the bus is a type the clients are generic in. An operation of the node
    layer is a function on its state that may fail: [M S E A]. *)

From S2P Require Import Prelude Util.

(** ** State and errors *)
Definition M (S E A : Type) : Type := S -> S * expected E A.

Definition ret {S E A} (a : A) : M S E A := fun s => (s, Value a).
Definition fail {S E A} (e : E) : M S E A := fun s => (s, Unexpected e).
Definition bind {S E A B} (m : M S E A) (k : A -> M S E B) : M S E B :=
  fun s => let '(s', r) := m s in
  match r with Value a => k a s' | Unexpected e => (s', Unexpected e) end.
(** [r.error()] wrapped into the caller's message. *)
Definition map_error {S E F A} (f : E -> F) (m : M S E A) : M S F A :=
  fun s => let '(s', r) := m s in
  (s', match r with Value a => Value a | Unexpected e => Unexpected (f e) end).
(** The result as a value, for code that inspects it. *)
Definition attempt {S E F A} (m : M S E A) : M S F (expected E A) :=
  fun s => let '(s', r) := m s in (s', Value r).

Notation "'let!' x := m 'in' k" := (bind m (fun x => k))
  (at level 10, x pattern, m at level 100, k at level 200) : mm_scope.
Notation "m ;;! k" := (bind m (fun _ => k)) (at level 100, right associativity) : mm_scope.

Lemma bind_Value {S E A B} (m : M S E A) (k : A -> M S E B) s s' b :
  bind m k s = (s', Value b) -> exists s1 a, m s = (s1, Value a) /\ k a s1 = (s', Value b).
Proof. unfold bind. destruct (m s) as [s1 [a|e]]; [eauto|done]. Qed.

Lemma bind_run {S E A B} (m : M S E A) (k : A -> M S E B) s s1 a :
  m s = (s1, Value a) -> bind m k s = k a s1.
Proof. unfold bind. by intros ->. Qed.

Lemma map_error_Value {S E F A} (f : E -> F) (m : M S E A) s s' a :
  map_error f m s = (s', Value a) -> m s = (s', Value a).
Proof. unfold map_error. destruct (m s) as [s1 [x|e]]; congruence. Qed.

Lemma map_error_run {S E F A} (f : E -> F) (m : M S E A) s s' a :
  m s = (s', Value a) -> map_error f m s = (s', Value a).
Proof. unfold map_error. by intros ->. Qed.

(** ** EtherCAT states *)

(** [EtherCatState], its underlying values. *)
Definition kInit : Z := 1.
Definition kPreOp : Z := 2.
Definition kBoot : Z := 3.
Definition kSafeOp : Z := 4.
Definition kOp : Z := 8.

Definition alState (alStatus : Z) : Z := Z.land alStatus 15.
Definition alHasError (alStatus : Z) : bool := negb (Z.land alStatus 16 =? 0).

Definition exchangesProcessData (alStatus : Z) : bool :=
  negb (alHasError alStatus) && ((alState alStatus =? kSafeOp) || (alState alStatus =? kOp)).

Definition kMaxProcessImageBytes : Z := 32768.
Definition kProtocolCoe : Z := 4.

(** ** The driver *)
Class FieldbusDriver (B : Type) := {
  drv_readSdo : Z -> Z -> Z -> B -> B * expected text bytes;
  drv_writeSdo : Z -> Z -> Z -> bytes -> B -> B * expected text unit;
  drv_readSii : Z -> B -> B * expected text bytes;
  drv_slaveState : Z -> B -> Z;
}.

(** One slave's windows, and the layout of the whole image. *)
Record SlaveIo := mk_slave_io {
  io_slavePosition : Z;
  outputOffset : Z;
  io_outputBytes : Z;
  inputOffset : Z;
  io_inputBytes : Z;
}.

Record PdoLayout := mk_layout {
  l_outputBytes : Z;
  l_inputBytes : Z;
  slaves : list SlaveIo;
  l_expectedWkc : Z;
}.

(** ** Vendors ([libs/comm/vendor_ids.h]) *)
Definition kSynapticonVendorId : Z := 8914.
Definition kSensodriveVendorId : Z := 1594.
Definition isSomanetDevice (vendorId : Z) : bool :=
  (vendorId =? kSynapticonVendorId) || (vendorId =? kSensodriveVendorId).
