(* ===== verification/PdoMapping.v ===== *)
(** * The PDO mapping of a device ([libs/node/pdo_mapping.h], [libs/node/device.cc])

    Reading a mapping over CoE or from the SII image, writing one, and the read-back that confirms
    it. The slave is reached only through [FieldbusDriver]. *)

From S2P Require Import Prelude Util Sii Driver.

Module Pdo.

(** ** Data *)
Record PdoMappingEntry := mk_entry {
  index : Z;
  subindex : Z;
  bitLength : Z;
  bitOffset : Z;
}.

#[export] Instance PdoMappingEntry_eq_dec : EqDecision PdoMappingEntry.
Proof. solve_decision. Defined.

Definition packMappingEntry (e : PdoMappingEntry) : Z :=
  Z.lor (Z.lor (u32 (Z.shiftl (index e) 16)) (u32 (Z.shiftl (subindex e) 8))) (bitLength e).

Definition unpackMappingEntry (packed : Z) : PdoMappingEntry :=
  {| index := u16 (Z.shiftr packed 16);
     subindex := u8 (Z.land (Z.shiftr packed 8) 255);
     bitLength := u8 (Z.land packed 255);
     bitOffset := 0 |}.

Record FlatPdoMapping := mk_flat {
  outputs : list PdoMappingEntry;
  inputs : list PdoMappingEntry;
  outputBits : Z;
  inputBits : Z;
}.

Record PdoMappingObject := mk_object { pdoIndex : Z; entries : list PdoMappingEntry }.

Record PdoMapping := mk_mapping {
  m_outputs : list PdoMappingObject;
  m_inputs : list PdoMappingObject;
}.

(** The members of [Device] that the mapping uses. *)
Record device := mk_device {
  slavePosition : Z;
  vendorId : Z;
  mailboxProtocols : Z;
  flatPdoMapping : FlatPdoMapping;
}.

Definition supportsCoe (d : device) : bool := negb (Z.land (mailboxProtocols d) kProtocolCoe =? 0).

Definition set_flat (d : device) (f : FlatPdoMapping) : device :=
  mk_device (slavePosition d) (vendorId d) (mailboxProtocols d) f.

Inductive direction := Output | Input.

Inductive PdoError :=
  | AssignmentReadFailed (assignmentIndex i : Z) (error : text)
  | MappingReadFailed (mappingIndex : Z) (error : text)
  | MappingEntryReadFailed (mappingIndex e : Z) (error : text)
  | SiiReadFailed (error : text)
  | SiiParseFailed (error : Sii.SiiError)
  | SiiOutOfBounds
  | FewerEntries (dir : direction) (reported written : nat)
  | EntryMismatch (dir : direction) (r : nat) (want got : PdoMappingEntry)
  | MoreEntries (dir : direction) (reported written : nat)
  | AssignmentClearFailed (assignmentIndex : Z) (error : text)
  | MappingClearFailed (pdoIndex : Z) (error : text)
  | MappingEntryWriteFailed (pdoIndex : Z) (e : nat) (error : text)
  | MappingCountFailed (pdoIndex : Z) (error : text)
  | AssignmentWriteFailed (assignmentIndex : Z) (i : nat) (error : text)
  | AssignmentCountFailed (assignmentIndex : Z) (error : text)
  | NotPreOp (slavePosition state : Z)
  | TooManyObjects (dir : direction) (n : nat)
  | TooManyEntries (pdoIndex : Z) (n : nat)
  | ReadBackFailed (error : PdoError)
  | FailedAfterAttempts (slavePosition : Z) (attempts : nat) (error : PdoError).

(** [error.find(...) != npos]. *)
Fixpoint is_prefix (pat s : text) : bool :=
  match pat, s with
  | [], _ => true
  | p :: pat', c :: s' => (p =? c) && is_prefix pat' s'
  | _ :: _, [] => false
  end.
Fixpoint contains (pat s : text) : bool :=
  is_prefix pat s || match s with [] => false | _ :: s' => contains pat s' end.

Definition isObjectDoesNotExistAbort (error : text) : bool := contains (codes "0x06020000") error.

Section Device.
Context {B : Type} `{FieldbusDriver B}.

Abbreviation D := (M (B * device)).

Definition readSdo (idx sub : Z) : D text bytes :=
  fun '(b, d) => let '(b', r) := drv_readSdo (slavePosition d) idx sub b in ((b', d), r).
Definition writeSdo (idx sub : Z) (data : bytes) : D text unit :=
  fun '(b, d) => let '(b', r) := drv_writeSdo (slavePosition d) idx sub data b in ((b', d), r).
Definition readSii : D text bytes :=
  fun '(b, d) => let '(b', r) := drv_readSii (slavePosition d) b in ((b', d), r).
Definition get_device {E} : D E device := fun '(b, d) => ((b, d), Value d).
Definition put_flat {E} (f : FlatPdoMapping) : D E unit := fun '(b, d) => ((b, set_flat d f), Value tt).

(** *** Reading *)

(** [for (e = 1; e <= entryCount; ++e)]: [n] entries left, at [e]. *)
Fixpoint read_entries (mappingIndex : Z) (n : nat) (e totalBits : Z)
    : D PdoError (list PdoMappingEntry * Z) :=
  match n with
  | O => ret ([], totalBits)
  | S n' =>
      let! w := map_error (MappingEntryReadFailed mappingIndex e) (readSdo mappingIndex (u8 e)) in
      let u := unpackMappingEntry (Util.fromBytes 4 false false w) in
      let entry := mk_entry (index u) (subindex u) (bitLength u) totalBits in
      let! (es, total) := read_entries mappingIndex n' (e + 1) (u32 (totalBits + bitLength entry)) in
      ret (entry :: es, total)
  end.

Fixpoint read_assigned (assignmentIndex : Z) (n : nat) (i totalBits : Z)
    : D PdoError (list PdoMappingObject) :=
  match n with
  | O => ret []
  | S n' =>
      let! w := map_error (AssignmentReadFailed assignmentIndex i) (readSdo assignmentIndex (u8 i)) in
      let mappingIndex := Util.fromBytes 2 false false w in
      if mappingIndex =? 0 then read_assigned assignmentIndex n' (i + 1) totalBits
      else
        let! r := attempt (readSdo mappingIndex 0) in
        match r with
        | Unexpected error =>
            if isObjectDoesNotExistAbort error
            then read_assigned assignmentIndex n' (i + 1) totalBits
            else fail (MappingReadFailed mappingIndex error)
        | Value count =>
            let! (es, total) :=
              read_entries mappingIndex (Z.to_nat (Util.fromBytes 1 false false count)) 1 totalBits in
            let! objs := read_assigned assignmentIndex n' (i + 1) total in
            ret (mk_object mappingIndex es :: objs)
        end
  end.

Definition readPdoAssignment (assignmentIndex : Z) : D PdoError (list PdoMappingObject) :=
  let! r := attempt (readSdo assignmentIndex 0) in
  match r with
  | Unexpected _ => ret []
  | Value count =>
      read_assigned assignmentIndex (Z.to_nat (Util.fromBytes 1 false false count)) 1 0
  end.

Definition readPdoMapping : D PdoError PdoMapping :=
  let! outs := readPdoAssignment 7186 in
  let! ins := readPdoAssignment 7187 in
  ret (mk_mapping outs ins).

(** The lambda [flatten] of [readSiiPdoMapping]: entries appended, running offset advanced. *)
Fixpoint flatten_entries (es : list Sii.SiiCategoryPdoEntryElement) (totalBits : Z)
    : list PdoMappingEntry * Z :=
  match es with
  | [] => ([], totalBits)
  | e :: es' =>
      let '(l, t) := flatten_entries es' (u32 (totalBits + Sii.bitLen e)) in
      (mk_entry (Sii.entryIndex e) (Sii.subindex e) (Sii.bitLen e) totalBits :: l, t)
  end.
Fixpoint flatten_pdos (pdos : list Sii.SiiCategoryPdoElement) (totalBits : Z)
    : list PdoMappingEntry * Z :=
  match pdos with
  | [] => ([], totalBits)
  | p :: pdos' =>
      if Sii.pdoIndex p =? 0 then flatten_pdos pdos' totalBits
      else
        let '(l, t) := flatten_entries (Sii.entries p) totalBits in
        let '(l', t') := flatten_pdos pdos' t in
        (l ++ l', t')
  end.

Definition readSiiPdoMapping : D PdoError FlatPdoMapping :=
  let! raw := map_error SiiReadFailed readSii in
  match Sii.parseSii raw with
  | None => fail SiiOutOfBounds
  | Some (Unexpected e) => fail (SiiParseFailed e)
  | Some (Value sii) =>
      let '(outs, ob) := flatten_pdos (Sii.rxPdos (Sii.category sii)) 0 in
      let '(ins, ib) := flatten_pdos (Sii.txPdos (Sii.category sii)) 0 in
      ret (mk_flat outs ins ob ib)
  end.

(** The grouped mapping with object boundaries dropped; the total summed in [uint32_t]. *)
Definition flat_entries (objs : list PdoMappingObject) : list PdoMappingEntry := flat_map entries objs.
Definition flat_bits (es : list PdoMappingEntry) : Z :=
  foldl (fun t e => u32 (t + bitLength e)) 0 es.

Definition readFlatPdoMapping : D PdoError unit :=
  let! d := get_device in
  if negb (supportsCoe d) then
    let! siiFlat := readSiiPdoMapping in
    put_flat siiFlat
  else
    let! grouped := readPdoMapping in
    let outs := flat_entries (m_outputs grouped) in
    let ins := flat_entries (m_inputs grouped) in
    put_flat (mk_flat outs ins (flat_bits outs) (flat_bits ins)).

(** *** Writing *)

Definition same_entry (got want : PdoMappingEntry) : bool :=
  (index got =? index want) && (subindex got =? subindex want) && (bitLength got =? bitLength want).

(** The two nested loops of [matchesRequest], over the requested entries in order. *)
Fixpoint match_entries (dir : direction) (readBack : list PdoMappingEntry) (r : nat)
    (wants : list PdoMappingEntry) : expected PdoError nat :=
  match wants with
  | [] => Value r
  | want :: wants' =>
      match readBack !! r with
      | None => Unexpected (FewerEntries dir (length readBack) (r + 1))
      | Some got =>
          if negb (same_entry got want) then Unexpected (EntryMismatch dir r want got)
          else match_entries dir readBack (r + 1) wants'
      end
  end.

Definition matchesRequest (readBack : list PdoMappingEntry) (requested : list PdoMappingObject)
    (dir : direction) : expected PdoError unit :=
  match match_entries dir readBack 0 (flat_map entries requested) with
  | Unexpected e => Unexpected e
  | Value r => if negb (r =? length readBack)%nat then Unexpected (MoreEntries dir (length readBack) r)
               else Value tt
  end.

Fixpoint write_entries (pdo : Z) (e : nat) (es : list PdoMappingEntry) : D PdoError unit :=
  match es with
  | [] => ret tt
  | entry :: es' =>
      map_error (MappingEntryWriteFailed pdo (e + 1))
        (writeSdo pdo (u8 (Z.of_nat (e + 1))) (Util.toBytes 4 false (packMappingEntry entry))) ;;!
      write_entries pdo (e + 1) es'
  end.

Definition write_object (obj : PdoMappingObject) : D PdoError unit :=
  map_error (MappingClearFailed (pdoIndex obj))
    (writeSdo (pdoIndex obj) 0 (Util.toBytes 1 false 0)) ;;!
  write_entries (pdoIndex obj) 0 (entries obj) ;;!
  map_error (MappingCountFailed (pdoIndex obj))
    (writeSdo (pdoIndex obj) 0 (Util.toBytes 1 false (u8 (Z.of_nat (length (entries obj)))))).

Fixpoint write_objects (objs : list PdoMappingObject) : D PdoError unit :=
  match objs with
  | [] => ret tt
  | obj :: objs' => write_object obj ;;! write_objects objs'
  end.

Fixpoint assign_objects (assignmentIndex : Z) (i : nat) (objs : list PdoMappingObject)
    : D PdoError unit :=
  match objs with
  | [] => ret tt
  | obj :: objs' =>
      map_error (AssignmentWriteFailed assignmentIndex (i + 1))
        (writeSdo assignmentIndex (u8 (Z.of_nat (i + 1))) (Util.toBytes 2 false (pdoIndex obj))) ;;!
      assign_objects assignmentIndex (i + 1) objs'
  end.

Definition writePdoDirection (assignmentIndex : Z) (objs : list PdoMappingObject) : D PdoError unit :=
  map_error (AssignmentClearFailed assignmentIndex)
    (writeSdo assignmentIndex 0 (Util.toBytes 1 false 0)) ;;!
  write_objects objs ;;!
  assign_objects assignmentIndex 0 objs ;;!
  map_error (AssignmentCountFailed assignmentIndex)
    (writeSdo assignmentIndex 0 (Util.toBytes 1 false (u8 (Z.of_nat (length objs))))).

(** The lambda [validate]. *)
Definition validate (objs : list PdoMappingObject) (dir : direction) : expected PdoError unit :=
  if (255 <? length objs)%nat then Unexpected (TooManyObjects dir (length objs))
  else match List.find (fun o => (255 <? length (entries o))%nat) objs with
       | Some o => Unexpected (TooManyEntries (pdoIndex o) (length (entries o)))
       | None => Value tt
       end.

Definition lift {E A} (r : expected E A) : D E A := fun s => (s, r).

(** The lambda [applied]: one attempt. *)
Definition apply_mapping (mapping : PdoMapping) : D PdoError unit :=
  writePdoDirection 7186 (m_outputs mapping) ;;!
  writePdoDirection 7187 (m_inputs mapping) ;;!
  map_error ReadBackFailed readFlatPdoMapping ;;!
  let! d := get_device in
  lift (matchesRequest (outputs (flatPdoMapping d)) (m_outputs mapping) Output) ;;!
  lift (matchesRequest (inputs (flatPdoMapping d)) (m_inputs mapping) Input).

Definition kMaxAttempts : nat := 3.

Fixpoint attempts (mapping : PdoMapping) (n : nat) (lastError : option PdoError) : D PdoError unit :=
  match n with
  | O =>
      let! d := get_device in
      match lastError with
      | Some e => fail (FailedAfterAttempts (slavePosition d) kMaxAttempts e)
      | None => ret tt
      end
  | S n' =>
      let! r := attempt (apply_mapping mapping) in
      match r with
      | Value _ => ret tt
      | Unexpected e => attempts mapping n' (Some e)
      end
  end.

Definition writePdoMapping (mapping : PdoMapping) : D PdoError unit :=
  fun '(b, d) =>
    let state := alState (drv_slaveState (slavePosition d) b) in
    if negb (state =? kPreOp) then ((b, d), Unexpected (NotPreOp (slavePosition d) state))
    else
      (lift (validate (m_outputs mapping) Output) ;;!
       lift (validate (m_inputs mapping) Input) ;;!
       attempts mapping kMaxAttempts None) (b, d).
End Device.

(** ** The mapping word *)

Record entry_ok (e : PdoMappingEntry) : Prop := mk_entry_ok {
  eo_index : in_u 16 (index e);
  eo_sub : in_u 8 (subindex e);
  eo_bits : in_u 8 (bitLength e);
}.

#[export] Instance entry_ok_dec e : Decision (entry_ok e).
Proof.
  refine (cast_if (decide (in_u 16 (index e) /\ in_u 8 (subindex e) /\ in_u 8 (bitLength e))));
    [constructor; tauto|intros [? ? ?]; tauto].
Defined.

Lemma pack_arith e : entry_ok e ->
  packMappingEntry e = bitLength e + 256 * subindex e + 65536 * index e.
Proof.
  intros [Hi Hs Hb]. unfold packMappingEntry, in_u in *. unfold u32.
  rewrite !uwrap_id by (unfold in_u; rewrite Z.shiftl_mul_pow2 by lia; lia).
  rewrite Z.lor_comm, (Z.lor_comm (Z.shiftl (index e) 16)), Z.lor_assoc.
  rewrite (lor_shiftl_add (bitLength e)) by (unfold in_u; lia). change (2 ^ 8) with 256 in *.
  rewrite lor_shiftl_add by (unfold in_u; lia). change (2 ^ 16) with 65536. lia.
Qed.

Lemma unpack_arith w : in_u 32 w ->
  unpackMappingEntry w = mk_entry (w / 65536) (w / 256 mod 256) (w mod 256) 0 /\
  entry_ok (unpackMappingEntry w).
Proof.
  intros Hw. unfold in_u in Hw.
  assert (E : unpackMappingEntry w = mk_entry (w / 65536) (w / 256 mod 256) (w mod 256) 0).
  { unfold unpackMappingEntry. rewrite !Z.shiftr_div_pow2 by lia. change 255 with (Z.ones 8).
    rewrite !Z.land_ones by lia. unfold u16, u8. f_equal.
    - apply uwrap_id. split; [apply Z.div_pos|apply Z.div_lt_upper_bound]; lia.
    - apply uwrap_id, (uwrap_range 8). lia.
    - apply uwrap_id, (uwrap_range 8). lia. }
  rewrite E. split; [done|]. constructor; cbn [index subindex bitLength].
  - split; [apply Z.div_pos|apply Z.div_lt_upper_bound]; lia.
  - apply (uwrap_range 8). lia.
  - apply (uwrap_range 8). lia.
Qed.

Lemma pack_range e : entry_ok e -> in_u 32 (packMappingEntry e).
Proof. intros He. rewrite pack_arith by done. destruct He as [? ? ?]. unfold in_u in *. lia. Qed.

Lemma unpack_pack e : entry_ok e ->
  unpackMappingEntry (packMappingEntry e) = mk_entry (index e) (subindex e) (bitLength e) 0.
Proof.
  intros He. rewrite (proj1 (unpack_arith _ (pack_range e He))), pack_arith by done.
  destruct He as [Hi Hs Hb]. unfold in_u in *.
  replace (bitLength e + 256 * subindex e + 65536 * index e)
    with (bitLength e + (subindex e + 256 * index e) * 256) by lia.
  rewrite Z_mod_plus_full, Z.div_add, (Z.mod_small (bitLength e)), (Z.div_small (bitLength e)) by lia.
  rewrite Z.add_0_l. f_equal.
  - replace (bitLength e + (subindex e + 256 * index e) * 256)
      with (bitLength e + 256 * subindex e + index e * 65536) by lia.
    rewrite Z.div_add by lia. rewrite Z.div_small by lia. lia.
  - rewrite (Z.mul_comm 256), Z_mod_plus_full. apply Z.mod_small. lia.
Qed.

(** The mapping word loses nothing: packing and unpacking are inverse on every entry and on every
    32-bit word. *)
Theorem mapping_word_roundtrip e w :
  entry_ok e -> in_u 32 w ->
  unpackMappingEntry (packMappingEntry e) = mk_entry (index e) (subindex e) (bitLength e) 0 /\
  packMappingEntry (unpackMappingEntry w) = w.
Proof.
  intros He Hw. split; [by apply unpack_pack|].
  destruct (unpack_arith w Hw) as [E Hok]. rewrite pack_arith by done. rewrite E.
  cbn [index subindex bitLength].
  pose proof (Z.div_mod w 256 ltac:(lia)). pose proof (Z.div_mod (w / 256) 256 ltac:(lia)).
  rewrite Z.div_div in * by lia. change (256 * 256) with 65536 in *. lia.
Qed.

Lemma mapping_word_roundtrip_witness :
  unpackMappingEntry (packMappingEntry (mk_entry 24640 0 16 5)) = mk_entry 24640 0 16 0 /\
  packMappingEntry (unpackMappingEntry 1614807056) = 1614807056.
Proof.
  apply (mapping_word_roundtrip (mk_entry 24640 0 16 5) 1614807056); [constructor; done|done].
Defined.

(** ** What a read mapping looks like *)

(** Every entry starts where the one before it ends (in [uint32_t]). *)
Fixpoint tiled (t : Z) (es : list PdoMappingEntry) (t' : Z) : Prop :=
  match es with
  | [] => t' = t
  | e :: es' => bitOffset e = t /\ tiled (u32 (t + bitLength e)) es' t'
  end.

Lemma tiled_app t es t1 es' t2 : tiled t es t1 -> tiled t1 es' t2 -> tiled t (es ++ es') t2.
Proof.
  revert t. induction es as [|e es IH]; intros t H1 H2; cbn [tiled app] in *; [by subst|].
  destruct H1. eauto.
Qed.

Lemma tiled_bits t es t' : tiled t es t' -> foldl (fun t e => u32 (t + bitLength e)) t es = t'.
Proof. revert t. induction es as [|e es IH]; intros t; cbn [tiled foldl]; [done|]. intros [_ H]. auto. Qed.

Definition sum_bits (es : list PdoMappingEntry) : Z := foldr (fun e t => bitLength e + t) 0 es.

Lemma sum_bits_app es es' : sum_bits (es ++ es') = sum_bits es + sum_bits es'.
Proof. induction es as [|e es IH]; [done|]. cbn [app sum_bits foldr] in *. unfold sum_bits in *. lia. Qed.

Lemma sum_bits_bound es : Forall (fun e => in_u 8 (bitLength e)) es ->
  0 <= sum_bits es <= 255 * Z.of_nat (length es).
Proof.
  induction 1 as [|e es [H1 H2] Hes IH]; [done|]. cbn [sum_bits foldr length].
  unfold sum_bits in IH. change (2 ^ 8) with 256 in H2. lia.
Qed.

Lemma tiled_sum t es t' : Forall (fun e => in_u 8 (bitLength e)) es ->
  0 <= t -> t + sum_bits es < 2 ^ 32 -> tiled t es t' -> t' = t + sum_bits es.
Proof.
  intros He. revert t. induction He as [|e es Hb He IH]; intros t Ht Hs; cbn [tiled sum_bits foldr] in *;
    [lia|].
  intros [_ H]. pose proof (sum_bits_bound es He). unfold in_u, sum_bits in *.
  unfold u32 in H. rewrite uwrap_id in H by (unfold in_u; lia). rewrite (IH (t + bitLength e) ltac:(lia) ltac:(lia) H). lia.
Qed.

Lemma fromBytes_range n l : in_u (8 * Z.of_nat n) (Util.fromBytes n false false l).
Proof.
  unfold Util.fromBytes. apply (foldl_invariant (in_u (8 * Z.of_nat n))).
  - split; [lia|]. apply Z.pow_pos_nonneg; lia.
  - intros v i Hv. apply lor_ok; [lia|done|]. apply uwrap_range. lia.
Qed.

Section Read.
Context {B : Type} `{FieldbusDriver B}.
Implicit Types s : (B * device).

Lemma readSdo_device i sub s s' r : readSdo i sub s = (s', r) -> s'.2 = s.2.
Proof using.
  destruct s as [b d]. unfold readSdo. destruct (drv_readSdo _ _ _ _). by intros [= <- <-].
Qed.

Lemma read_entries_tiled mi n e t s s' es t' :
  read_entries mi n e t s = (s', Value (es, t')) ->
  tiled t es t' /\ length es = n /\ Forall (fun e => in_u 8 (bitLength e)) es /\ s'.2 = s.2.
Proof using.
  revert e t s es t'. induction n as [|n IH]; intros e t s es t' Hr; cbn [read_entries] in Hr.
  { injection Hr as <- <- <-. done. }
  apply bind_Value in Hr as (s1 & w & Hw%map_error_Value & Hr).
  apply bind_Value in Hr as (s2 & [l tt'] & Hl & Hr). injection Hr as <- <- <-.
  apply readSdo_device in Hw. destruct (IH _ _ _ _ _ Hl) as (Ht & Hlen & Hf & Hd).
  cbn [tiled length bitOffset]. split_and!; [done..|lia| |congruence].
  constructor; [|done]. cbn [bitLength]. apply (unpack_arith _ (fromBytes_range 4 w)).
Qed.

Lemma read_assigned_tiled a n i t s s' objs :
  read_assigned a n i t s = (s', Value objs) ->
  (exists t', tiled t (flat_entries objs) t') /\
  (length (flat_entries objs) <= 255 * n)%nat /\
  Forall (fun e => in_u 8 (bitLength e)) (flat_entries objs) /\ s'.2 = s.2.
Proof using.
  revert i t s objs. induction n as [|n IH]; intros i t s objs Hr; cbn [read_assigned] in Hr.
  { injection Hr as <- <-. split_and!; [by exists t|cbn; lia|constructor|done]. }
  apply bind_Value in Hr as (s1 & w & Hw%map_error_Value & Hr). apply readSdo_device in Hw.
  destruct (_ =? 0).
  { destruct (IH _ _ _ _ Hr) as (? & ? & ? & ?). split_and!; done || lia || congruence. }
  unfold attempt in Hr. unfold bind at 1 in Hr.
  destruct (readSdo _ 0 s1) as [s2 r] eqn:Hc. apply readSdo_device in Hc.
  destruct r as [count|err].
  2: { destruct (isObjectDoesNotExistAbort err); [|done].
       destruct (IH _ _ _ _ Hr) as (? & ? & ? & ?). split_and!; done || lia || congruence. }
  apply bind_Value in Hr as (s3 & [es t1] & He & Hr).
  apply bind_Value in Hr as (s4 & os & Ho & Hr). injection Hr as <- <-.
  destruct (read_entries_tiled _ _ _ _ _ _ _ _ He) as (Ht & Hl & Hf & Hd).
  destruct (IH _ _ _ _ Ho) as ([t2 Ht2] & Hl2 & Hf2 & Hd2).
  pose proof (fromBytes_range 1 count) as [? Hcnt]. change (2 ^ (8 * Z.of_nat 1)) with 256 in Hcnt.
  unfold flat_entries in *. cbn [flat_map entries]. split_and!.
  - exists t2. eauto using tiled_app.
  - rewrite length_app. lia.
  - by apply Forall_app_2.
  - congruence.
Qed.

Lemma readPdoAssignment_tiled a s s' objs :
  readPdoAssignment a s = (s', Value objs) ->
  tiled 0 (flat_entries objs) (flat_bits (flat_entries objs)) /\
  flat_bits (flat_entries objs) = sum_bits (flat_entries objs) /\ s'.2 = s.2.
Proof using.
  unfold readPdoAssignment, attempt. unfold bind.
  destruct (readSdo a 0 s) as [s1 r] eqn:Hc. apply readSdo_device in Hc.
  destruct r as [count|err]; [|by intros [= <- <-]]. intros Hr.
  destruct (read_assigned_tiled _ _ _ _ _ _ _ Hr) as ([t Ht] & Hl & Hf & Hd).
  pose proof (fromBytes_range 1 count) as [? Hcnt]. change (2 ^ (8 * Z.of_nat 1)) with 256 in Hcnt.
  pose proof (sum_bits_bound _ Hf). unfold flat_bits. rewrite (tiled_bits _ _ _ Ht).
  split; [done|]. split; [|congruence]. rewrite (tiled_sum 0 (flat_entries objs) t Hf ltac:(lia) ltac:(lia) Ht). lia.
Qed.

Lemma flatten_entries_tiled es t l t' : flatten_entries es t = (l, t') -> tiled t l t'.
Proof using.
  revert t l. induction es as [|e es IH]; intros t l Hr; cbn [flatten_entries] in Hr;
    [by injection Hr as <- <-|].
  destruct (flatten_entries es _) as [l1 t1] eqn:E. injection Hr as <- <-. cbn [tiled bitOffset bitLength].
  split; [done|]. by apply IH.
Qed.

Lemma flatten_pdos_tiled pdos t l t' : flatten_pdos pdos t = (l, t') -> tiled t l t'.
Proof using.
  revert t l. induction pdos as [|p pdos IH]; intros t l Hr; cbn [flatten_pdos] in Hr;
    [by injection Hr as <- <-|].
  destruct (_ =? 0); [by apply IH|].
  destruct (flatten_entries _ t) as [l1 t1] eqn:E1.
  destruct (flatten_pdos pdos t1) as [l2 t2] eqn:E2. injection Hr as <- <-.
  eauto using tiled_app, flatten_entries_tiled.
Qed.
End Read.

Section Flat.
Context {B : Type} `{FieldbusDriver B}.
Implicit Types s : (B * device).

(** [readFlatPdoMapping] changes nothing of the device but its flat mapping, which it tiles. *)
Lemma readFlat_tiled b d s' :
  readFlatPdoMapping (b, d) = (s', Value tt) ->
  exists f, s'.2 = set_flat d f /\
    tiled 0 (outputs f) (outputBits f) /\ tiled 0 (inputs f) (inputBits f) /\
    (supportsCoe d = true -> outputBits f = sum_bits (outputs f) /\ inputBits f = sum_bits (inputs f)).
Proof using.
  unfold readFlatPdoMapping. unfold bind at 1, get_device. destruct (supportsCoe d); cbn [negb].
  - intros Hr. apply bind_Value in Hr as (s1 & g & Hg & Hp).
    apply bind_Value in Hg as (s2 & outs & Ho & Hg). apply bind_Value in Hg as (s3 & ins & Hi & Hg).
    injection Hg as <- <-. destruct s3 as [b3 d3]. injection Hp as <-.
    destruct (readPdoAssignment_tiled _ _ _ _ Ho) as (T1 & S1 & E1).
    destruct (readPdoAssignment_tiled _ _ _ _ Hi) as (T2 & S2 & E2).
    cbn [snd] in *. rewrite E1 in E2. cbn [snd] in E2. subst d3. eexists. split; [done|]. cbn. done.
  - intros Hr. apply bind_Value in Hr as (s1 & f & Hf & Hp). unfold readSiiPdoMapping in Hf.
    apply bind_Value in Hf as (s2 & raw & Hw%map_error_Value & Hf).
    assert (E : s2.2 = d).
    { unfold readSii in Hw. destruct (drv_readSii _ b). by injection Hw as <- _. }
    destruct (Sii.parseSii raw) as [[sii|]|]; [|done..].
    destruct (flatten_pdos (Sii.rxPdos _) 0) as [outs ob] eqn:E1.
    destruct (flatten_pdos (Sii.txPdos _) 0) as [ins ib] eqn:E2. injection Hf as <- <-.
    destruct s2 as [b2 d2]. injection Hp as <-. cbn [snd] in *. subst d2.
    eexists. split; [done|]. cbn. split; [|split; [|done]]; eauto using flatten_pdos_tiled.
Qed.
End Flat.

(** Whatever the slave answers, a mapping read successfully (over CoE or from the SII) tiles each
    direction: every entry starts where the previous one ends, the total is the sum of the widths
    (never overflowing on the CoE path), and nothing else of the device changes. *)
Theorem readFlatPdoMapping_tiles {B} `{FieldbusDriver B} (b : B) d s' :
  readFlatPdoMapping (b, d) = (s', Value tt) ->
  exists f, s'.2 = set_flat d f /\
    tiled 0 (outputs f) (outputBits f) /\ tiled 0 (inputs f) (inputBits f) /\
    (supportsCoe d = true -> outputBits f = sum_bits (outputs f) /\ inputBits f = sum_bits (inputs f)).
Proof. apply readFlat_tiled. Qed.

(** ** Confirming a written mapping *)

(** What a mapping entry says on the wire: everything but the derived offset. *)
Definition wire (e : PdoMappingEntry) : Z * Z * Z := (index e, subindex e, bitLength e).

Lemma same_entry_wire got want : same_entry got want = true <-> wire got = wire want.
Proof.
  unfold same_entry, wire. rewrite !andb_true_iff, !Z.eqb_eq. split.
  - by intros [[-> ->] ->].
  - intros E. injection E as -> -> ->. done.
Qed.

Lemma match_entries_Value dir rb r wants n :
  match_entries dir rb r wants = Value n ->
  n = (r + length wants)%nat /\ wire <$> slice r (length wants) rb = wire <$> wants.
Proof.
  revert r. induction wants as [|w wants IH]; intros r Hm; cbn [match_entries length] in *.
  - injection Hm as <-. split; [lia|done].
  - destruct (rb !! r) as [got|] eqn:E; [|done]. destruct (same_entry got w) eqn:Es; [|done].
    apply same_entry_wire in Es. destruct (IH _ Hm) as [-> IHw]. split; [lia|].
    unfold slice. rewrite (drop_S _ _ _ E). cbn [take fmap list_fmap].
    rewrite Es. f_equal. unfold slice in IHw. by rewrite Nat.add_1_r in IHw.
Qed.

Lemma match_entries_complete dir rb r wants :
  wire <$> slice r (length wants) rb = wire <$> wants ->
  match_entries dir rb r wants = Value (r + length wants)%nat.
Proof.
  revert r. induction wants as [|w wants IH]; intros r Hm; cbn [match_entries length] in *.
  - f_equal. lia.
  - destruct (rb !! r) as [got|] eqn:E.
    + unfold slice in Hm. rewrite (drop_S _ _ _ E) in Hm. cbn [take fmap list_fmap] in Hm.
      injection Hm as Hi Hs Hb Hm. destruct (same_entry got w) eqn:Es.
      * cbn [negb]. rewrite IH; [f_equal; lia|]. unfold slice. by rewrite Nat.add_1_r.
      * apply not_true_iff_false in Es. exfalso. apply Es, same_entry_wire. unfold wire. congruence.
    + apply lookup_ge_None in E. unfold slice in Hm. rewrite drop_ge in Hm by done. done.
Qed.

Lemma matchesRequest_iff rb req dir :
  matchesRequest rb req dir = Value tt <-> wire <$> rb = wire <$> flat_entries req.
Proof.
  unfold matchesRequest, flat_entries. split.
  - destruct (match_entries _ _ _ _) as [n|] eqn:E; [|done].
    destruct (match_entries_Value _ _ _ _ _ E) as [-> Hw]. cbn [Nat.add].
    destruct (Nat.eqb_spec (length (flat_map entries req)) (length rb)) as [El|]; [|done].
    intros _. rewrite <- Hw, El. unfold slice. by rewrite drop_0, firstn_all.
  - intros E. pose proof (f_equal length E) as El. rewrite !length_fmap in El.
    rewrite match_entries_complete.
    + cbn [Nat.add]. by rewrite <- El, Nat.eqb_refl.
    + rewrite <- El. unfold slice. by rewrite drop_0, firstn_all.
Qed.

Section Write.
Context {B : Type} `{FieldbusDriver B}.

(** The operations that only talk to the slave leave the device record alone. *)
Definition keeps_device {E A} (m : M (B * device) E A) : Prop := forall s s' r, m s = (s', r) -> s'.2 = s.2.

Lemma keeps_bind {E A A'} (m : M (B * device) E A) (k : A -> M (B * device) E A') :
  keeps_device m -> (forall a, keeps_device (k a)) -> keeps_device (bind m k).
Proof using.
  intros Hm Hk s s' r. unfold bind. destruct (m s) as [s1 [a|e]] eqn:E1.
  - intros E2. rewrite (Hk _ _ _ _ E2). eauto.
  - intros [= <- <-]. eauto.
Qed.
Lemma keeps_map_error {E F A} (f : E -> F) (m : M (B * device) E A) :
  keeps_device m -> keeps_device (map_error f m).
Proof using. intros Hm s s' r. unfold map_error. destruct (m s) eqn:E1. intros [= <- <-]. eauto. Qed.
Lemma keeps_ret {E A} (a : A) : keeps_device (ret a : M (B * device) E A).
Proof using. by intros s s' r [= <- <-]. Qed.
Lemma keeps_writeSdo i sub v : keeps_device (writeSdo i sub v).
Proof using.
  intros [b d] s' r. unfold writeSdo. destruct (drv_writeSdo _ _ _ _ _). by intros [= <- <-].
Qed.
Hint Resolve keeps_bind keeps_map_error keeps_ret keeps_writeSdo : mm.

Lemma keeps_writePdoDirection a objs : keeps_device (writePdoDirection a objs).
Proof using.
  assert (He : forall pdo e es, keeps_device (write_entries pdo e es)).
  { intros pdo e es. revert e. induction es; intros; cbn [write_entries]; eauto with mm. }
  assert (Hos : keeps_device (write_objects objs)).
  { induction objs; cbn [write_objects]; [eauto with mm|].
    apply keeps_bind; [|done]. unfold write_object. eauto 20 with mm. }
  assert (Ha : forall i, keeps_device (assign_objects a i objs)).
  { clear Hos. induction objs; intros; cbn [assign_objects]; eauto with mm. }
  unfold writePdoDirection. eauto 20 with mm.
Qed.

Lemma lift_Value {E A} (r : expected E A) s s' a :
  lift (B := B) r s = (s', Value a) -> s' = s /\ r = Value a.
Proof using. unfold lift. by intros [= <- ->]. Qed.

Lemma apply_mapping_Value mapping b d s' :
  apply_mapping mapping (b, d) = (s', Value tt) ->
  exists f, s'.2 = set_flat d f /\
    wire <$> outputs f = wire <$> flat_entries (m_outputs mapping) /\
    wire <$> inputs f = wire <$> flat_entries (m_inputs mapping) /\
    tiled 0 (outputs f) (outputBits f) /\ tiled 0 (inputs f) (inputBits f).
Proof using.
  unfold apply_mapping. intros Hr. apply bind_Value in Hr as ([b1 d1] & ? & H1 & Hr).
  apply bind_Value in Hr as ([b2 d2] & ? & H2 & Hr).
  apply keeps_writePdoDirection in H1, H2. cbn [snd] in H1, H2. subst d1 d2.
  apply bind_Value in Hr as ([b3 d3] & [] & H3%map_error_Value & Hr).
  destruct (readFlat_tiled _ _ _ H3) as (f & Hf & Ho & Hi & _). cbn [snd] in Hf. subst d3.
  unfold bind at 1, get_device in Hr.
  apply bind_Value in Hr as (s4 & [] & [-> H4]%lift_Value & Hr). apply lift_Value in Hr as [-> H5].
  apply matchesRequest_iff in H4, H5. cbn [flatPdoMapping set_flat] in *. eauto 10.
Qed.

(** Only the flat mapping of the device can change, also when an attempt fails. *)
Definition flat_only {E A} (m : M (B * device) E A) : Prop :=
  forall b d s' r, m (b, d) = (s', r) -> exists f, s'.2 = set_flat d f.

Lemma set_flat_self d : d = set_flat d (flatPdoMapping d).
Proof using. by destruct d. Qed.

Lemma flat_only_keeps {E A} (m : M (B * device) E A) : keeps_device m -> flat_only m.
Proof using. intros Hm b d s' r E1. exists (flatPdoMapping d). rewrite <- set_flat_self. by apply Hm in E1. Qed.

Lemma flat_only_bind {E A A'} (m : M (B * device) E A) (k : A -> M (B * device) E A') :
  flat_only m -> (forall a, flat_only (k a)) -> flat_only (bind m k).
Proof using.
  intros Hm Hk b d s' r. unfold bind. destruct (m (b, d)) as [[b1 d1] [a|e]] eqn:E1.
  - intros E2. destruct (Hm _ _ _ _ E1) as [f Hf]. cbn [snd] in Hf. subst d1.
    destruct (Hk _ _ _ _ _ E2) as [f' Hf']. by exists f'.
  - intros [= <- <-]. eauto.
Qed.

Lemma keeps_readSdo i sub : keeps_device (readSdo i sub).
Proof using. intros s s' r. apply readSdo_device. Qed.
Lemma keeps_attempt {E F A} (m : M (B * device) E A) :
  keeps_device m -> keeps_device (attempt (F := F) m).
Proof using. intros Hm s s' r. unfold attempt. destruct (m s) eqn:E1. intros [= <- <-]. eauto. Qed.
Lemma keeps_fail {E A} (e : E) : keeps_device (fail e : M (B * device) E A).
Proof using. by intros s s' r [= <- <-]. Qed.
Hint Resolve keeps_readSdo keeps_attempt keeps_fail : mm.

Lemma keeps_readPdoAssignment a : keeps_device (readPdoAssignment a).
Proof using.
  assert (He : forall mi n e t, keeps_device (read_entries mi n e t)).
  { intros mi n. induction n; intros; cbn [read_entries]; [eauto with mm|].
    apply keeps_bind; [eauto with mm|]. intros w. apply keeps_bind; [done|]. intros [? ?]. eauto with mm. }
  assert (Ha : forall n i t, keeps_device (read_assigned a n i t)).
  { induction n as [|n IH]; intros; cbn [read_assigned]; [eauto with mm|].
    apply keeps_bind; [eauto with mm|]. intros w. case_match; [done|].
    apply keeps_bind; [eauto with mm|]. intros [c|err].
    - apply keeps_bind; [done|]. intros [? ?]. eauto with mm.
    - case_match; eauto with mm. }
  unfold readPdoAssignment. apply keeps_bind; [eauto with mm|]. intros [c|err]; eauto with mm.
Qed.

Lemma flat_only_readFlat : flat_only readFlatPdoMapping.
Proof using.
  assert (Hput : forall f, flat_only (put_flat (E := PdoError) f)).
  { intros f b d s' r [= <- <-]. by exists f. }
  unfold readFlatPdoMapping. apply flat_only_bind.
  { apply flat_only_keeps. intros [b d] s' r. unfold get_device. by intros [= <- <-]. }
  intros d. destruct (negb (supportsCoe d)); apply flat_only_bind; try done; apply flat_only_keeps.
  - unfold readSiiPdoMapping. apply keeps_bind; [apply keeps_map_error|].
    + intros [b1 d1] s' r. unfold readSii. destruct (drv_readSii _ _). by intros [= <- <-].
    + intros raw. destruct (Sii.parseSii raw) as [[sii|]|]; [|eauto with mm..].
      destruct (flatten_pdos _ 0), (flatten_pdos _ 0). eauto with mm.
  - unfold readPdoMapping. pose proof keeps_readPdoAssignment. eauto 20 with mm.
Qed.

Lemma flat_only_map_error {E F A} (g : E -> F) (m : M (B * device) E A) :
  flat_only m -> flat_only (map_error g m).
Proof using.
  intros Hm b d s' r. unfold map_error. destruct (m (b, d)) eqn:E1. intros [= <- <-]. eauto.
Qed.

Lemma keeps_lift {E A} (r : expected E A) : keeps_device (lift (B := B) r).
Proof using. by intros s s' r' [= <- <-]. Qed.

Lemma flat_only_apply mapping : flat_only (apply_mapping mapping).
Proof using.
  unfold apply_mapping.
  apply flat_only_bind; [apply flat_only_keeps, keeps_writePdoDirection|intros _].
  apply flat_only_bind; [apply flat_only_keeps, keeps_writePdoDirection|intros _].
  apply flat_only_bind; [apply flat_only_map_error, flat_only_readFlat|intros _].
  apply flat_only_keeps, keeps_bind.
  - intros [b d] s' r. unfold get_device. by intros [= <- <-].
  - intros d. apply keeps_bind; [apply keeps_lift|]. intros _. apply keeps_lift.
Qed.

Lemma attempts_Value mapping n last b d s' :
  (n = O -> last <> None) -> attempts mapping n last (b, d) = (s', Value tt) ->
  exists f, s'.2 = set_flat d f /\
    wire <$> outputs f = wire <$> flat_entries (m_outputs mapping) /\
    wire <$> inputs f = wire <$> flat_entries (m_inputs mapping) /\
    tiled 0 (outputs f) (outputBits f) /\ tiled 0 (inputs f) (inputBits f).
Proof using.
  revert b d last. induction n as [|n IH]; intros b d last Hlast Hr; cbn [attempts] in Hr.
  - unfold bind, get_device in Hr. destruct last; [done|]. by destruct (Hlast eq_refl).
  - unfold bind, attempt in Hr. destruct (apply_mapping mapping (b, d)) as [[b1 d1] r] eqn:Ha.
    destruct r as [[]|e].
    + injection Hr as <-. by apply apply_mapping_Value in Ha.
    + destruct (flat_only_apply _ _ _ _ _ Ha) as [f Hf]. cbn [snd] in Hf. subst d1.
      destruct (IH b1 (set_flat d f) (Some e)) as (f' & Hf' & Hrest); [done|exact Hr|]. exists f'. split; [|done].
      rewrite Hf'. by destruct d.
Qed.
End Write.

(** C5: whatever the slave does, [writePdoMapping] reports success only in PRE-OP and only after
    reading back, entry by entry and in order, exactly the mapping it was asked for, which the device
    then holds with consecutive offsets. *)
Theorem writePdoMapping_verified {B} `{FieldbusDriver B} (b : B) d mapping s' :
  writePdoMapping mapping (b, d) = (s', Value tt) ->
  alState (drv_slaveState (slavePosition d) b) = kPreOp /\
  exists f, s'.2 = set_flat d f /\
    wire <$> outputs f = wire <$> flat_entries (m_outputs mapping) /\
    wire <$> inputs f = wire <$> flat_entries (m_inputs mapping) /\
    tiled 0 (outputs f) (outputBits f) /\ tiled 0 (inputs f) (inputBits f).
Proof.
  unfold writePdoMapping. destruct (Z.eqb_spec (alState (drv_slaveState (slavePosition d) b)) kPreOp)
    as [E|E]; cbn [negb]; [|done].
  intros Hr. split; [done|].
  apply bind_Value in Hr as (s1 & [] & [-> _]%lift_Value & Hr).
  apply bind_Value in Hr as (s2 & [] & [-> _]%lift_Value & Hr).
  by eapply attempts_Value; [|exact Hr].
Qed.

End Pdo.
