(* ===== verification/PdoSlave.v ===== *)
(** * Writing a PDO mapping to a conforming slave

    [ConformingSlave] states what the CoE object dictionary of a slave in PRE-OP promises
    (ETG.1000.6): an upload returns what was last downloaded; a sync manager's assignment is written
    while its count is zero; a mapping object is written while it is not assigned, its entries while
    its own count is zero. Against that interface [Device::writePdoMapping] succeeds at the first
    attempt. [StrictSlave] is an instance that refuses every other download. *)

From S2P Require Import Prelude Util Sii Driver PdoMapping.
Import Pdo.

Module Slave.

Abbreviation dictionary := (gmap (Z * Z) bytes).

(** The assignment object of a mapping object: 0x1C12 for 0x1600..0x17FF, 0x1C13 for 0x1A00..0x1BFF. *)
Definition assignment_of (p : Z) : option Z :=
  if (5632 <=? p) && (p <=? 6143) then Some 7186
  else if (6656 <=? p) && (p <=? 7167) then Some 7187
  else None.

Definition cleared (o : dictionary) (i : Z) : bool := bool_decide (o !! (i, 0) = Some [0]).

(** The downloads a slave in PRE-OP accepts. *)
Definition accepts (o : dictionary) (i sub : Z) : bool :=
  if (i =? 7186) || (i =? 7187) then (sub =? 0) || cleared o i
  else match assignment_of i with
       | Some a => cleared o a && ((sub =? 0) || cleared o i)
       | None => false
       end.

Class ConformingSlave (B : Type) `{FieldbusDriver B} (pos : Z) := {
  od : B -> dictionary;
  od_read : forall b i sub v, od b !! (i, sub) = Some v ->
    exists b', drv_readSdo pos i sub b = (b', Value v) /\ od b' = od b;
  od_write : forall b i sub v, accepts (od b) i sub = true ->
    exists b', drv_writeSdo pos i sub v b = (b', Value tt) /\ od b' = <[(i, sub) := v]> (od b);
}.

(** A mapping the code can write to one sync manager: known mapping objects, each once. *)
Record request_ok (a : Z) (objs : list PdoMappingObject) : Prop := mk_request_ok {
  rq_count : (length objs <= 255)%nat;
  rq_assign : Forall (fun o => assignment_of (pdoIndex o) = Some a) objs;
  rq_nodup : NoDup (pdoIndex <$> objs);
  rq_entries : Forall (fun o => (length (entries o) <= 255)%nat /\ Forall entry_ok (entries o)) objs;
}.

(** The entries with the offsets the code derives. *)
Fixpoint place (t : Z) (es : list PdoMappingEntry) : list PdoMappingEntry * Z :=
  match es with
  | [] => ([], t)
  | e :: es' => let '(l, t') := place (u32 (t + bitLength e)) es' in
                (mk_entry (index e) (subindex e) (bitLength e) t :: l, t')
  end.

(** What the dictionary holds for one mapping object, and for one assignment. *)
Definition holds_object (o : dictionary) (obj : PdoMappingObject) : Prop :=
  o !! (pdoIndex obj, 0) = Some [Z.of_nat (length (entries obj))] /\
  forall k e, entries obj !! k = Some e ->
    o !! (pdoIndex obj, Z.of_nat (k + 1)) = Some (le_bytes 4 (packMappingEntry e)).

Definition holds_assignment (o : dictionary) (a : Z) (objs : list PdoMappingObject) : Prop :=
  o !! (a, 0) = Some [Z.of_nat (length objs)] /\
  (forall k obj, objs !! k = Some obj -> o !! (a, Z.of_nat (k + 1)) = Some (le_bytes 2 (pdoIndex obj))) /\
  Forall (holds_object o) objs.

(** [o'] differs from [o] at most in the objects of [is]. *)
Definition frame (o o' : dictionary) (is_ : list Z) : Prop :=
  forall i sub, i ∉ is_ -> o' !! (i, sub) = o !! (i, sub).

Lemma frame_refl o is_ : frame o o is_.
Proof. by intros i sub _. Qed.
Lemma frame_trans o1 o2 o3 is_ : frame o1 o2 is_ -> frame o2 o3 is_ -> frame o1 o3 is_.
Proof. intros H1 H2 i sub Hi. by rewrite H2, H1. Qed.
Lemma frame_weaken o o' is_ is' : frame o o' is_ -> is_ ⊆ is' -> frame o o' is'.
Proof. intros H Hs i sub Hi. apply H. set_solver. Qed.
Lemma frame_insert o i sub v is_ : i ∈ is_ -> frame o (<[(i, sub) := v]> o) is_.
Proof. intros Hi j sub' Hj. apply lookup_insert_ne. intros [= -> ->]. done. Qed.

Lemma frame_cleared o o' is_ i : frame o o' is_ -> i ∉ is_ -> cleared o' i = cleared o i.
Proof. intros Hf Hi. unfold cleared. by rewrite Hf. Qed.

Lemma frame_object o o' is_ obj :
  frame o o' is_ -> pdoIndex obj ∉ is_ -> holds_object o obj -> holds_object o' obj.
Proof. intros Hf Hi [H0 Hk]. split; [by rewrite Hf|]. intros k e He. rewrite Hf by done. auto. Qed.

Lemma assignment_of_range p a : assignment_of p = Some a ->
  (5632 <= p <= 6143 /\ a = 7186) \/ (6656 <= p <= 7167 /\ a = 7187).
Proof. unfold assignment_of. bool_split; cbn [andb]; intros [= <-]; lia. Qed.

Lemma accepts_mapping o p a sub : assignment_of p = Some a -> cleared o a = true ->
  (sub = 0 \/ cleared o p = true) -> accepts o p sub = true.
Proof.
  intros Ha Hc Hs. unfold accepts. destruct (assignment_of_range p a Ha) as [[Hr _]|[Hr _]];
    (destruct (Z.eqb_spec p 7186), (Z.eqb_spec p 7187); try lia; cbn [orb]; rewrite Ha, Hc; cbn [andb];
     destruct Hs as [-> | ->]; [done|by rewrite orb_true_r]).
Qed.

Lemma accepts_assignment o a sub : a = 7186 \/ a = 7187 -> (sub = 0 \/ cleared o a = true) ->
  accepts o a sub = true.
Proof.
  intros Ha Hs. unfold accepts. destruct Ha as [-> | ->]; cbn [Z.eqb Pos.eqb orb];
    (destruct Hs as [-> | ->]; [done|by rewrite orb_true_r]).
Qed.

Section Conforming.
Context {B : Type} `{FieldbusDriver B} (d : device) `{!ConformingSlave B (slavePosition d)}.
Implicit Types b : B.

(** A run that succeeds and leaves the dictionary related by [P]. *)
Definition runs {E A : Type} (m : M (B * device) E A) b (a : A) (P : dictionary -> Prop) : Prop :=
  exists b', m (b, d) = ((b', d), Value a) /\ P (od b').

Lemma runs_bind {E A A' : Type} (m : M (B * device) E A) (k : A -> M (B * device) E A') b a a' P Q :
  runs m b a P -> (forall b', P (od b') -> runs (k a) b' a' Q) -> runs (bind m k) b a' Q.
Proof using. intros (b' & Hm & HP) Hk. destruct (Hk b' HP) as (b2 & H2 & HQ). exists b2. by rewrite (bind_run _ _ _ _ _ Hm). Qed.

Lemma runs_ret {E A : Type} (a : A) b (P : dictionary -> Prop) : P (od b) -> runs (E := E) (ret a) b a P.
Proof using. intros HP. by exists b. Qed.

Lemma runs_map_error {E F A : Type} (f : E -> F) (m : M (B * device) E A) b a P :
  runs m b a P -> runs (map_error f m) b a P.
Proof using. intros (b' & Hm & HP). exists b'. by rewrite (map_error_run _ _ _ _ _ Hm). Qed.

Lemma runs_attempt {E F A : Type} (m : M (B * device) E A) b a P :
  runs m b a P -> runs (E := F) (attempt m) b (Value a) P.
Proof using. intros (b' & Hm & HP). exists b'. unfold attempt. by rewrite Hm. Qed.

Lemma runs_read b i sub v :
  od b !! (i, sub) = Some v -> runs (readSdo i sub) b v (fun o => o = od b).
Proof using.
  intros Hv. destruct (od_read b i sub v Hv) as (b' & Hr & Ho). exists b'. unfold readSdo. by rewrite Hr.
Qed.

Lemma runs_write b i sub v :
  accepts (od b) i sub = true -> runs (writeSdo i sub v) b tt (fun o => o = <[(i, sub) := v]> (od b)).
Proof using.
  intros Ha. destruct (od_write b i sub v Ha) as (b' & Hw & Ho). exists b'. unfold writeSdo. by rewrite Hw.
Qed.

Lemma write_entries_runs pdo a e es b :
  assignment_of pdo = Some a -> cleared (od b) a = true -> cleared (od b) pdo = true ->
  (e + length es <= 255)%nat ->
  runs (write_entries pdo e es) b tt (fun o =>
    frame (od b) o [pdo] /\
    (forall sub, sub <= Z.of_nat e -> o !! (pdo, sub) = od b !! (pdo, sub)) /\
    forall k x, es !! k = Some x -> o !! (pdo, Z.of_nat (e + k + 1)) = Some (le_bytes 4 (packMappingEntry x))).
Proof using.
  intros Ha Hca. revert e b Hca. induction es as [|x es IH]; intros e b Hca Hcp Hlen; cbn [write_entries].
  { apply runs_ret. split; [apply frame_refl|done]. }
  cbn [length] in Hlen. unfold u8. rewrite uwrap_id by (unfold in_u; lia).
  rewrite Util.toBytes_little.
  eapply runs_bind; [apply runs_map_error, runs_write, (accepts_mapping _ _ a); auto|].
  intros b' Hb'. cbn beta in Hb'.
  assert (Hf : frame (od b) (od b') [pdo]) by (rewrite Hb'; apply frame_insert; set_solver).
  assert (Hne : a <> pdo) by (destruct (assignment_of_range pdo a Ha) as [[? ->]|[? ->]]; lia).
  assert (Hk : forall sub, sub <> Z.of_nat (e + 1) -> od b' !! (pdo, sub) = od b !! (pdo, sub)).
  { intros sub Hs. rewrite Hb'. apply lookup_insert_ne. intros [= ?]. lia. }
  destruct (IH (e + 1)%nat b') as (b2 & Hrun & Hfr & Hlow & Hes).
  - rewrite (frame_cleared _ _ _ _ Hf) by set_solver. done.
  - unfold cleared in *. rewrite Hk by lia. done.
  - lia.
  - exists b2. split; [done|]. split; [eauto using frame_trans|]. split.
    + intros sub Hs. rewrite Hlow by lia. apply Hk. lia.
    + intros [|k] y Hy.
      * injection Hy as <-. replace (Z.of_nat (e + 0 + 1)) with (Z.of_nat (e + 1)) by lia.
        rewrite Hlow by lia. rewrite Hb'. apply lookup_insert_eq.
      * replace (e + S k + 1)%nat with (e + 1 + k + 1)%nat by lia. by apply Hes.
Qed.

Lemma write_object_runs obj a b :
  assignment_of (pdoIndex obj) = Some a -> cleared (od b) a = true -> (length (entries obj) <= 255)%nat ->
  runs (write_object obj) b tt (fun o => frame (od b) o [pdoIndex obj] /\ holds_object o obj).
Proof using.
  intros Ha Hca Hlen. unfold write_object. set (p := pdoIndex obj) in *.
  assert (Hne : a ∉ [p])
    by (destruct (assignment_of_range p a Ha) as [[? ->]|[? ->]]; rewrite list_elem_of_singleton; lia).
  eapply runs_bind; [apply runs_map_error, runs_write, (accepts_mapping _ _ a); auto|].
  intros b1 Hb1. cbn beta in Hb1. rewrite Util.toBytes_little in Hb1.
  assert (Hf1 : frame (od b) (od b1) [p]) by (rewrite Hb1; apply frame_insert; set_solver).
  assert (Hca1 : cleared (od b1) a = true) by (by rewrite (frame_cleared _ _ _ _ Hf1)).
  assert (Hcp1 : cleared (od b1) p = true)
    by (unfold cleared; rewrite Hb1, lookup_insert_eq; by apply bool_decide_eq_true_2).
  eapply runs_bind; [apply (write_entries_runs p a 0); auto|]. cbn beta.
  intros b2 (Hf2 & Hlow2 & Hes2).
  assert (Hca2 : cleared (od b2) a = true) by (by rewrite (frame_cleared _ _ _ _ Hf2)).
  destruct (runs_write b2 p 0 (Util.toBytes 1 false (u8 (Z.of_nat (length (entries obj)))))) as (b3 & Hw & Ho).
  { apply (accepts_mapping _ _ a); auto. }
  exists b3. split; [by rewrite (map_error_run _ _ _ _ _ Hw)|]. rewrite Ho.
  rewrite Util.toBytes_little. split.
  - eapply frame_trans; [|apply frame_insert; set_solver]. eauto using frame_trans.
  - split.
    + fold p. rewrite lookup_insert_eq. cbn [le_bytes]. unfold u8. rewrite uwrap_id by (unfold in_u; lia).
      rewrite Z.mod_small by lia. done.
    + intros k e He. fold p. rewrite lookup_insert_ne by (intros [= ?]; lia). by apply (Hes2 k e).
Qed.

Lemma write_objects_runs objs a b :
  Forall (fun o => assignment_of (pdoIndex o) = Some a) objs -> NoDup (pdoIndex <$> objs) ->
  Forall (fun o => (length (entries o) <= 255)%nat) objs -> cleared (od b) a = true ->
  runs (write_objects objs) b tt (fun o => frame (od b) o (pdoIndex <$> objs) /\ Forall (holds_object o) objs).
Proof using.
  intros Ha Hnd Hl. revert b. induction objs as [|obj objs IH]; intros b Hca; cbn [write_objects].
  { apply runs_ret. split; [apply frame_refl|constructor]. }
  apply Forall_cons in Ha as [Ha1 Ha], Hl as [Hl1 Hl]. cbn [fmap list_fmap] in *.
  apply NoDup_cons in Hnd as [Hni Hnd].
  eapply runs_bind; [by apply (write_object_runs obj a)|]. cbn beta. intros b1 [Hf1 Ho1].
  destruct (IH Ha Hnd Hl b1) as (b2 & Hr & Hf2 & Ho2).
  { rewrite (frame_cleared _ _ _ _ Hf1); [done|]. rewrite list_elem_of_singleton.
    destruct (assignment_of_range _ _ Ha1) as [[? ->]|[? ->]]; lia. }
  exists b2. split; [done|]. split.
  - eapply frame_trans; eapply frame_weaken; eauto; set_solver.
  - constructor; [|done]. eauto using frame_object.
Qed.

Lemma assign_objects_runs a i objs b :
  a = 7186 \/ a = 7187 -> cleared (od b) a = true -> (i + length objs <= 255)%nat ->
  runs (assign_objects a i objs) b tt (fun o => frame (od b) o [a] /\
    (forall sub, sub <= Z.of_nat i -> o !! (a, sub) = od b !! (a, sub)) /\
    forall k obj, objs !! k = Some obj -> o !! (a, Z.of_nat (i + k + 1)) = Some (le_bytes 2 (pdoIndex obj))).
Proof using.
  intros Ha. revert i b. induction objs as [|obj objs IH]; intros i b Hca Hlen; cbn [assign_objects].
  { apply runs_ret. split; [apply frame_refl|done]. }
  cbn [length] in Hlen. unfold u8. rewrite uwrap_id by (unfold in_u; lia). rewrite Util.toBytes_little.
  eapply runs_bind; [apply runs_map_error, runs_write, accepts_assignment; auto|]. cbn beta. intros b1 Hb1.
  assert (Hk : forall sub, sub <> Z.of_nat (i + 1) -> od b1 !! (a, sub) = od b !! (a, sub)).
  { intros sub Hs. rewrite Hb1. apply lookup_insert_ne. intros [= ?]. lia. }
  destruct (IH (i + 1)%nat b1) as (b2 & Hrun & Hfr & Hlow & Hes).
  - unfold cleared in *. rewrite Hk by lia. done.
  - lia.
  - exists b2. split; [done|]. split; [|split].
    + eapply frame_trans; [|done]. rewrite Hb1. apply frame_insert. set_solver.
    + intros sub Hs. rewrite Hlow by lia. apply Hk. lia.
    + intros [|k] y Hy.
      * injection Hy as <-. replace (Z.of_nat (i + 0 + 1)) with (Z.of_nat (i + 1)) by lia.
        rewrite Hlow by lia. rewrite Hb1. apply lookup_insert_eq.
      * replace (i + S k + 1)%nat with (i + 1 + k + 1)%nat by lia. by apply Hes.
Qed.

Lemma le_bytes_1_small n : 0 <= n < 256 -> le_bytes 1 (u8 n) = [n].
Proof using. intros Hn. cbn [le_bytes]. unfold u8. rewrite uwrap_id by (unfold in_u; lia). by rewrite Z.mod_small. Qed.

Lemma writePdoDirection_runs a objs b :
  a = 7186 \/ a = 7187 -> request_ok a objs ->
  runs (writePdoDirection a objs) b tt (fun o =>
    frame (od b) o (a :: (pdoIndex <$> objs)) /\ holds_assignment o a objs).
Proof using.
  intros Ha [Hc Has Hnd He]. unfold writePdoDirection.
  assert (Hni : a ∉ pdoIndex <$> objs).
  { rewrite list_elem_of_fmap. intros (obj & -> & Ho). rewrite Forall_forall in Has.
    destruct (assignment_of_range _ _ (Has obj Ho)) as [[? ?]|[? ?]]; lia. }
  assert (He' : Forall (fun o => (length (entries o) <= 255)%nat) objs)
    by (eapply Forall_impl; [exact He|]; by intros ? [? _]).
  eapply runs_bind; [apply runs_map_error, runs_write, accepts_assignment; auto|]. cbn beta. intros b1 Hb1.
  rewrite Util.toBytes_little in Hb1.
  assert (Hc1 : cleared (od b1) a = true)
    by (unfold cleared; rewrite Hb1, lookup_insert_eq; by apply bool_decide_eq_true_2).
  eapply runs_bind; [by apply (write_objects_runs objs a)|]. cbn beta. intros b2 [Hf2 Ho2].
  assert (Hc2 : cleared (od b2) a = true) by (by rewrite (frame_cleared _ _ _ _ Hf2)).
  eapply runs_bind; [by apply (assign_objects_runs a 0)|]. cbn beta. intros b3 (Hf3 & Hlow3 & Hk3).
  destruct (runs_write b3 a 0 (Util.toBytes 1 false (u8 (Z.of_nat (length objs))))) as (b4 & Hw & Ho).
  { apply accepts_assignment; auto. }
  exists b4. split; [by rewrite (map_error_run _ _ _ _ _ Hw)|].
  rewrite Util.toBytes_little, le_bytes_1_small in Ho by lia.
  assert (Hf4 : frame (od b2) (od b4) [a]).
  { eapply frame_trans; [exact Hf3|]. rewrite Ho. apply frame_insert. set_solver. }
  split; [|split; [|split]].
  - assert (Hf1 : frame (od b) (od b1) [a]) by (rewrite Hb1; apply frame_insert; set_solver).
    apply (frame_trans _ (od b1)); [eapply frame_weaken; [exact Hf1|set_solver]|].
    apply (frame_trans _ (od b2)); eapply frame_weaken; eauto; set_solver.
  - rewrite Ho. apply lookup_insert_eq.
  - intros k obj Hk. rewrite Ho, lookup_insert_ne by (intros [= ?]; lia). by apply (Hk3 k).
  - rewrite Forall_forall in Ho2 |- *. intros obj Hin. eapply frame_object; [exact Hf4| |by apply Ho2].
    rewrite list_elem_of_singleton. intros E. apply Hni. rewrite <- E. by apply list_elem_of_fmap_2.
Qed.

(** *** Reading it back *)

Lemma fromBytes_le n x : in_u (8 * Z.of_nat n) x -> Util.fromBytes n false false (le_bytes n x) = x.
Proof using.
  intros Hx. rewrite Util.fromBytes_little by apply le_bytes_ok.
  rewrite take_ge by (by rewrite length_le_bytes). rewrite le_value_bytes. by apply uwrap_id.
Qed.

Lemma fromBytes_1 n : 0 <= n < 256 -> Util.fromBytes 1 false false [n] = n.
Proof using.
  intros Hn. rewrite <- (le_bytes_1_small n Hn). unfold u8. rewrite uwrap_id by (unfold in_u; lia).
  apply fromBytes_le. unfold in_u. change (8 * Z.of_nat 1) with 8. lia.
Qed.

Lemma read_entries_runs p (e : nat) t es b :
  Forall entry_ok es -> (e + length es <= 256)%nat ->
  (forall k x, es !! k = Some x ->
     od b !! (p, Z.of_nat (e + k)) = Some (le_bytes 4 (packMappingEntry x))) ->
  runs (read_entries p (length es) (Z.of_nat e) t) b (place t es) (fun o => o = od b).
Proof using.
  intros Hok. revert e t b. induction Hok as [|x es Hx Hok IH]; intros e t b Hlen Hh;
    cbn [length read_entries place] in *; [by apply runs_ret|].
  eapply runs_bind.
  { apply runs_map_error, runs_read. unfold u8. rewrite uwrap_id by (unfold in_u; lia).
    specialize (Hh 0%nat x eq_refl). rewrite Nat.add_0_r in Hh. exact Hh. }
  cbn beta. intros b1 Hb1. rewrite fromBytes_le by (by apply pack_range).
  rewrite unpack_pack by done. cbn [index subindex bitLength].
  replace (Z.of_nat e + 1) with (Z.of_nat (e + 1)) by lia.
  destruct (place (u32 (t + bitLength x)) es) as [l t'] eqn:Ep.
  destruct (IH (e + 1)%nat (u32 (t + bitLength x)) b1 ltac:(lia)) as (b2 & Hr & Ho).
  { intros k y Hy. rewrite Hb1. replace (e + 1 + k)%nat with (e + S k)%nat by lia. by apply Hh. }
  exists b2. rewrite (bind_run _ _ _ _ _ Hr), Ep. split; [done|]. congruence.
Qed.

(** The objects as they are read back, offsets running across them. *)
Fixpoint place_objects (t : Z) (objs : list PdoMappingObject) : list PdoMappingObject :=
  match objs with
  | [] => []
  | obj :: objs' => let '(l, t') := place t (entries obj) in mk_object (pdoIndex obj) l :: place_objects t' objs'
  end.

Lemma read_assigned_runs a (i : nat) t objs b :
  Forall (fun o => assignment_of (pdoIndex o) = Some a) objs ->
  Forall (fun o => (length (entries o) <= 255)%nat /\ Forall entry_ok (entries o)) objs ->
  (i + length objs <= 256)%nat -> Forall (holds_object (od b)) objs ->
  (forall k obj, objs !! k = Some obj -> od b !! (a, Z.of_nat (i + k)) = Some (le_bytes 2 (pdoIndex obj))) ->
  runs (read_assigned a (length objs) (Z.of_nat i) t) b (place_objects t objs) (fun o => o = od b).
Proof using.
  intros Ha He. revert i t b. induction objs as [|obj objs IH]; intros i t b Hlen Ho Hk;
    cbn [length read_assigned place_objects] in *; [by apply runs_ret|].
  apply Forall_cons in Ha as [Ha1 Ha], He as [[Hl1 He1] He], Ho as [[Hc1 Hes1] Ho].
  assert (Hp : in_u 16 (pdoIndex obj) /\ pdoIndex obj <> 0)
    by (destruct (assignment_of_range _ _ Ha1) as [[? _]|[? _]]; unfold in_u; lia).
  destruct Hp as [Hp Hp0].
  eapply runs_bind.
  { apply runs_map_error, runs_read. unfold u8. rewrite uwrap_id by (unfold in_u; lia).
    specialize (Hk 0%nat obj eq_refl). rewrite Nat.add_0_r in Hk. exact Hk. }
  cbn beta. intros b1 Hb1. rewrite fromBytes_le by done. destruct (Z.eqb_spec (pdoIndex obj) 0); [done|].
  eapply runs_bind; [apply runs_attempt, runs_read; rewrite Hb1; exact Hc1|].
  cbn beta iota. intros b2 Hb2. rewrite fromBytes_1, Nat2Z.id by lia.
  assert (E2 : od b2 = od b) by congruence.
  eapply runs_bind; [apply (read_entries_runs _ 1); [done|lia|]|].
  { intros k x Hx. rewrite E2, Nat.add_comm. by apply Hes1. }
  cbn beta. intros b3 Hb3. destruct (place t (entries obj)) as [l t'].
  assert (E3 : od b3 = od b) by congruence.
  replace (Z.of_nat i + 1) with (Z.of_nat (i + 1)) by lia.
  destruct (IH Ha He (i + 1)%nat t' b3 ltac:(lia)) as (b4 & Hr4 & Ho4); rewrite ?E3.
  - done.
  - intros k o Hko. replace (i + 1 + k)%nat with (i + S k)%nat by lia. by apply (Hk (S k)).
  - exists b4. rewrite (bind_run _ _ _ _ _ Hr4). split; [done|congruence].
Qed.

Lemma readPdoAssignment_runs a objs b :
  request_ok a objs -> holds_assignment (od b) a objs ->
  runs (readPdoAssignment a) b (place_objects 0 objs) (fun o => o = od b).
Proof using.
  intros [Hc Has Hnd He] (H0 & Hk & Ho). unfold readPdoAssignment.
  eapply runs_bind; [apply runs_attempt, runs_read; exact H0|]. cbn beta iota. intros b1 Hb1.
  rewrite fromBytes_1, Nat2Z.id by lia.
  destruct (read_assigned_runs a 1 0 objs b1) as (b2 & Hr & Ho2); rewrite ?Hb1; try done; [lia| |].
  - intros k obj Hko. rewrite Nat.add_comm. by apply Hk.
  - exists b2. split; [done|congruence].
Qed.

(** *** The whole write *)

Lemma place_wire t es : wire <$> (place t es).1 = wire <$> es.
Proof using.
  revert t. induction es as [|e es IH]; intros t; [done|]. cbn [place].
  specialize (IH (u32 (t + bitLength e))). destruct (place _ es) as [l t']. cbn [fst fmap list_fmap] in *.
  by rewrite IH.
Qed.

Lemma place_app t es es' :
  (place t (es ++ es')).1 = (place t es).1 ++ (place (place t es).2 es').1.
Proof using.
  revert t. induction es as [|e es IH]; intros t; [done|]. cbn [place app].
  specialize (IH (u32 (t + bitLength e))).
  destruct (place _ (es ++ es')) as [l1 t1]. destruct (place (u32 _) es) as [l2 t2]. cbn [fst snd] in *.
  by rewrite IH.
Qed.

Lemma flat_place_objects t objs : flat_entries (place_objects t objs) = (place t (flat_entries objs)).1.
Proof using.
  revert t. induction objs as [|obj objs IH]; intros t; [done|]. cbn [place_objects].
  unfold flat_entries in *. cbn [flat_map]. rewrite place_app.
  destruct (place t (entries obj)) as [l t']. cbn [flat_map entries fst snd]. by rewrite IH.
Qed.

Definition expected_flat (mapping : PdoMapping) : FlatPdoMapping :=
  let outs := (place 0 (flat_entries (m_outputs mapping))).1 in
  let ins := (place 0 (flat_entries (m_inputs mapping))).1 in
  mk_flat outs ins (flat_bits outs) (flat_bits ins).

Lemma apply_mapping_conforming mapping b :
  supportsCoe d = true -> request_ok 7186 (m_outputs mapping) -> request_ok 7187 (m_inputs mapping) ->
  exists b', apply_mapping mapping (b, d) = ((b', set_flat d (expected_flat mapping)), Value tt) /\
    holds_assignment (od b') 7186 (m_outputs mapping) /\ holds_assignment (od b') 7187 (m_inputs mapping).
Proof using.
  intros Hcoe Hout Hin.
  destruct (writePdoDirection_runs 7186 (m_outputs mapping) b) as (b1 & H1 & _ & Hh1); [by left|done|].
  destruct (writePdoDirection_runs 7187 (m_inputs mapping) b1) as (b2 & H2 & Hf2 & Hh2); [by right|done|].
  assert (Hdis : forall x, x = 7186 \/ x ∈ pdoIndex <$> m_outputs mapping ->
    x ∉ 7187 :: (pdoIndex <$> m_inputs mapping)).
  { intros x Hx Hx'. destruct Hout as [_ Ho _ _], Hin as [_ Hi _ _].
    rewrite Forall_forall in Ho, Hi. rewrite elem_of_cons, list_elem_of_fmap in Hx'.
    rewrite list_elem_of_fmap in Hx.
    assert (x = 7186 \/ 5632 <= x <= 6143) as Hx1.
    { destruct Hx as [?|(o & -> & Hin)]; [by left|]. right.
      destruct (assignment_of_range _ _ (Ho o Hin)) as [[? _]|[_ ?]]; lia. }
    destruct Hx' as [?|(o & -> & Hin)]; [lia|].
    destruct (assignment_of_range _ _ (Hi o Hin)) as [[_ ?]|[? _]]; lia. }
  assert (Hh1' : holds_assignment (od b2) 7186 (m_outputs mapping)).
  { destruct Hh1 as (Ha & Hb & Hc). split; [rewrite Hf2; auto|]. split.
    - intros k obj Hk. rewrite Hf2; auto.
    - rewrite Forall_forall in Hc |- *. intros obj Ho. eapply frame_object; [done| |by apply Hc].
      apply Hdis. right. by apply list_elem_of_fmap_2. }
  destruct (readPdoAssignment_runs 7186 _ b2 Hout Hh1') as (b3 & H3 & E3).
  rewrite <- E3 in Hh2, Hh1'. destruct (readPdoAssignment_runs 7187 _ b3 Hin Hh2) as (b4 & H4 & E4).
  exists b4. rewrite E4. split; [|done]. unfold apply_mapping.
  rewrite (bind_run _ _ _ _ _ H1), (bind_run _ _ _ _ _ H2).
  assert (Hrf : readFlatPdoMapping (b2, d) = ((b4, set_flat d (expected_flat mapping)), Value tt)).
  { unfold readFlatPdoMapping. unfold bind at 1, get_device. rewrite Hcoe. cbn [negb].
    unfold readPdoMapping. unfold bind at 1 2 3. rewrite H3, H4. unfold ret, put_flat.
    cbn [m_outputs m_inputs]. by rewrite !flat_place_objects. }
  rewrite (bind_run _ _ _ _ _ (map_error_run _ _ _ _ _ Hrf)).
  unfold bind at 1, get_device. cbn [flatPdoMapping set_flat expected_flat outputs inputs].
  assert (E5 : forall l dir, matchesRequest (place 0 (flat_entries l)).1 l dir = Value tt)
    by (intros; apply matchesRequest_iff, place_wire).
  unfold bind, lift. by rewrite !E5.
Qed.
End Conforming.

(** ** An instance: a slave that refuses every download the rules do not allow *)
Record StrictSlave := mk_strict { st_al : Z; st_od : dictionary }.

#[export] Instance strict_driver : FieldbusDriver StrictSlave := {|
  drv_readSdo _ i sub b :=
    (b, match st_od b !! (i, sub) with
        | Some v => Value v
        | None => Unexpected (codes "SDO abort 0x06020000")
        end);
  drv_writeSdo _ i sub v b :=
    if accepts (st_od b) i sub
    then (mk_strict (st_al b) (<[(i, sub) := v]> (st_od b)), Value tt)
    else (b, Unexpected (codes "SDO abort 0x08000022"));
  drv_readSii _ b := (b, Unexpected (codes "no SII"));
  drv_slaveState _ b := st_al b;
|}.

#[export] Program Instance strict_conforming pos : ConformingSlave StrictSlave pos := {| od := st_od |}.
Next Obligation. intros pos b i sub v E. exists b. cbn. by rewrite E. Qed.
Next Obligation. intros pos b i sub v E. cbn. rewrite E. eexists. done. Qed.

(** On a conforming slave in PRE-OP, whatever it was configured to before, a well-formed mapping
    is accepted at the first attempt: the order of the downloads satisfies the slave's rules, the
    slave holds the requested mapping and assignment, and the device holds it with its offsets. *)
Theorem writePdoMapping_succeeds {B} `{FieldbusDriver B} (d : device)
    `{!ConformingSlave B (slavePosition d)} (b : B) mapping :
  alState (drv_slaveState (slavePosition d) b) = kPreOp -> supportsCoe d = true ->
  request_ok 7186 (m_outputs mapping) -> request_ok 7187 (m_inputs mapping) ->
  exists b', writePdoMapping mapping (b, d) = ((b', set_flat d (expected_flat mapping)), Value tt) /\
    holds_assignment (od b') 7186 (m_outputs mapping) /\ holds_assignment (od b') 7187 (m_inputs mapping).
Proof.
  intros Hst Hcoe Hout Hin. unfold writePdoMapping. rewrite Hst. cbn [Z.eqb negb Pos.eqb].
  change (negb (kPreOp =? kPreOp)) with false. cbn iota.
  assert (Hv : forall a objs dir, request_ok a objs -> validate objs dir = Value tt).
  { intros a objs dir [Hc _ _ He]. unfold validate.
    destruct (Nat.ltb_spec 255 (length objs)); [lia|].
    destruct (List.find _ objs) as [o|] eqn:Ef; [|done]. apply find_some in Ef as [Hino Hlt].
    rewrite Forall_forall in He. apply list_elem_of_In in Hino. destruct (He o Hino) as [Hle _].
    apply Nat.ltb_lt in Hlt. lia. }
  unfold bind at 1 2, lift. rewrite (Hv 7186), (Hv 7187) by done.
  destruct (apply_mapping_conforming d mapping b Hcoe Hout Hin) as (b' & Ha & Hh).
  exists b'. split; [|done]. unfold kMaxAttempts. cbn [attempts]. unfold bind, attempt. by rewrite Ha.
Qed.

(** A drive with an old mapping assigned: 0x1600 and 0x1A00 in use. *)
Definition w_device : device := mk_device 1 kSynapticonVendorId 12 (mk_flat [] [] 0 0).
Definition w_slave : StrictSlave :=
  mk_strict kPreOp (list_to_map [((7186, 0), [1]); ((7186, 1), [0; 22]); ((5632, 0), [1]);
    ((7187, 0), [1]); ((7187, 1), [0; 26]); ((6656, 0), [0])]).
Definition w_mapping : PdoMapping :=
  mk_mapping [mk_object 5632 [mk_entry 24640 0 16 0; mk_entry 24672 0 8 0]]
    [mk_object 6656 [mk_entry 24641 0 16 0]; mk_object 6657 [mk_entry 24676 0 32 0]].

Lemma writePdoMapping_succeeds_witness :
  exists b', writePdoMapping w_mapping (w_slave, w_device) =
    ((b', set_flat w_device (expected_flat w_mapping)), Value tt).
Proof.
  destruct (writePdoMapping_succeeds w_device w_slave w_mapping) as (b' & Hw & _); [done..| | |eauto].
  - constructor; [cbn; lia|repeat constructor|apply (bool_decide_eq_true (NoDup _)); vm_compute; reflexivity|].
    repeat constructor; cbn; lia || done.
  - constructor; [cbn; lia|repeat constructor|apply (bool_decide_eq_true (NoDup _)); vm_compute; reflexivity|].
    repeat constructor; cbn; lia || done.
Defined.

Lemma result_pair {S E A} (m : M S E A) s a : (m s).2 = Value a -> m s = ((m s).1, Value a).
Proof. destruct (m s). cbn. by intros ->. Qed.

Lemma w_write_ok : (writePdoMapping w_mapping (w_slave, w_device)).2 = Value tt.
Proof. vm_compute. reflexivity. Qed.

Lemma writePdoMapping_verified_witness :
  exists f, wire <$> outputs f = [(24640, 0, 16); (24672, 0, 8)] /\ tiled 0 (outputs f) (outputBits f).
Proof.
  destruct (writePdoMapping_verified w_slave w_device w_mapping _
    (result_pair _ _ _ w_write_ok)) as (_ & f & _ & Ho & _ & Ht & _).
  exists f. split; [exact Ho|exact Ht].
Defined.

Lemma w_read_ok :
  (readFlatPdoMapping ((writePdoMapping w_mapping (w_slave, w_device)).1.1, w_device)).2 = Value tt.
Proof. vm_compute. reflexivity. Qed.

Lemma readFlatPdoMapping_tiles_witness :
  exists f, tiled 0 (outputs f) (outputBits f) /\ outputBits f = sum_bits (outputs f).
Proof.
  destruct (readFlatPdoMapping_tiles _ w_device _ (result_pair _ _ _ w_read_ok)) as (f & _ & Ho & _ & Hs).
  exists f. split; [exact Ho|]. apply Hs. reflexivity.
Defined.

End Slave.
