(* ===== verification/ProcessImage.v ===== *)
(** * The process image ([libs/node/process_image.{h,cc}])

    [buildProcessImage] turns the driver's windows and every device's flat PDO mapping into absolute
    bit fields of the two images; [find] locates an object in it. The theorems connect it with the
    mapping of [PdoMapping] and the bit fields of [ProcessBits]: the fields of a built image lie
    inside it and do not overlap, so objects are read and written independently. *)

From S2P Require Import Prelude Util Sii Driver PdoMapping ProcessBits.

Module Image.

(** [makeParameterKey]. *)
Definition makeParameterKey (index subindex : Z) : Z := Z.lor (u32 (Z.shiftl index 8)) subindex.

Section Build.
(** What [findParameter] returns: a pointer to the parameter's cell. *)
Context {cell : Type}.

Record Device := mk_dev { base : Pdo.device; parameters : gmap Z cell }.

Definition findParameter (d : Device) (index subindex : Z) : option cell :=
  parameters d !! makeParameterKey index subindex.

Record ProcessImageEntry := mk_image_entry {
  e_slavePosition : Z;
  e_index : Z;
  e_subindex : Z;
  e_bitLength : Z;
  e_bitOffset : Z;
  e_parameter : option cell;
}.

Record ProcessImage := mk_image {
  i_outputs : list ProcessImageEntry;
  i_inputs : list ProcessImageEntry;
  i_outputBytes : Z;
  i_inputBytes : Z;
  i_expectedWkc : Z;
}.

Record Location := mk_location {
  loc_bitOffset : Z;
  loc_bitLength : Z;
  isOutput : bool;
  entryIndex : nat;
}.

Inductive ImageError :=
  | MappingOverflow (slavePosition : Z) (dir : Pdo.direction) (mappedBits windowBytes : Z)
  | ImageTooLarge (outputBytes inputBytes combined : Z)
  | NoWindow (slavePosition : Z).

(** 0x2001 and 0x2007. *)
Definition kSomanetPaddingIndices : list Z := [8193; 8199].

Definition isPadding (d : Device) (e : Pdo.PdoMappingEntry) : bool :=
  if Pdo.index e =? 0 then true
  else isSomanetDevice (Pdo.vendorId (base d)) &&
       existsb (fun i => i =? Pdo.index e) kSomanetPaddingIndices.

Definition locate (d : Device) (windowOffsetBits : Z) (e : Pdo.PdoMappingEntry) : ProcessImageEntry :=
  {| e_slavePosition := Pdo.slavePosition (base d);
     e_index := Pdo.index e;
     e_subindex := Pdo.subindex e;
     e_bitLength := Pdo.bitLength e;
     e_bitOffset := u32 (windowOffsetBits + Pdo.bitOffset e);
     e_parameter := findParameter d (Pdo.index e) (Pdo.subindex e) |}.

(** [appendEntries]: the list with the entries appended, and the SOMANET padding count. *)
Definition appendEntries (out : list ProcessImageEntry) (d : Device) (entries : list Pdo.PdoMappingEntry)
    (mappedBits windowOffsetBytes windowBytes : Z) (dir : Pdo.direction)
    : expected ImageError (list ProcessImageEntry * Z) :=
  if u32 (windowBytes * 8) <? mappedBits
  then Unexpected (MappingOverflow (Pdo.slavePosition (base d)) dir mappedBits windowBytes)
  else
    let windowOffsetBits := u32 (windowOffsetBytes * 8) in
    Value (foldl (fun '(out, padding) e =>
      if isPadding d e
      then (out, if negb (Pdo.index e =? 0) then u32 (padding + 1) else padding)
      else (out ++ [locate d windowOffsetBits e], padding)) (out, 0) entries).

(** [windows.emplace]: the first window of a position stays. *)
Definition emplace (w : gmap Z SlaveIo) (s : SlaveIo) : gmap Z SlaveIo :=
  match w !! io_slavePosition s with
  | Some _ => w
  | None => <[io_slavePosition s := s]> w
  end.

Definition windows_of (layout : PdoLayout) : gmap Z SlaveIo := foldl emplace ∅ (slaves layout).

(** One iteration of the device loop. *)
Definition add_device (windows : gmap Z SlaveIo) (image : ProcessImage) (d : Device)
    : expected ImageError ProcessImage :=
  let mappings := Pdo.flatPdoMapping (base d) in
  if (length (Pdo.outputs mappings) =? 0)%nat && (length (Pdo.inputs mappings) =? 0)%nat
  then Value image
  else
    match windows !! Pdo.slavePosition (base d) with
    | None => Unexpected (NoWindow (Pdo.slavePosition (base d)))
    | Some io =>
        try outs := appendEntries (i_outputs image) d (Pdo.outputs mappings) (Pdo.outputBits mappings)
                      (outputOffset io) (io_outputBytes io) Pdo.Output in
        try ins := appendEntries (i_inputs image) d (Pdo.inputs mappings) (Pdo.inputBits mappings)
                     (inputOffset io) (io_inputBytes io) Pdo.Input in
        Value (mk_image outs.1 ins.1 (i_outputBytes image) (i_inputBytes image) (i_expectedWkc image))
    end.

Fixpoint add_devices (windows : gmap Z SlaveIo) (image : ProcessImage) (devices : list Device)
    : expected ImageError ProcessImage :=
  match devices with
  | [] => Value image
  | d :: devices' => try image' := add_device windows image d in add_devices windows image' devices'
  end.

Definition buildProcessImage (layout : PdoLayout) (devices : list Device)
    : expected ImageError ProcessImage :=
  let combined := l_outputBytes layout + l_inputBytes layout in
  if kMaxProcessImageBytes <? combined
  then Unexpected (ImageTooLarge (l_outputBytes layout) (l_inputBytes layout) combined)
  else add_devices (windows_of layout)
         (mk_image [] [] (l_outputBytes layout) (l_inputBytes layout) (l_expectedWkc layout)) devices.

Definition matches (pos idx sub : Z) (e : ProcessImageEntry) : bool :=
  (e_slavePosition e =? pos) && (e_index e =? idx) && (e_subindex e =? sub).

(** [std::ranges::find_if]. *)
Fixpoint find_if (p : ProcessImageEntry -> bool) (l : list ProcessImageEntry) (i : nat)
    : option (nat * ProcessImageEntry) :=
  match l with
  | [] => None
  | e :: l' => if p e then Some (i, e) else find_if p l' (S i)
  end.

Definition find (image : ProcessImage) (pos idx sub : Z) : option Location :=
  match find_if (matches pos idx sub) (i_outputs image) 0 with
  | Some (i, e) => Some (mk_location (e_bitOffset e) (e_bitLength e) true i)
  | None =>
      match find_if (matches pos idx sub) (i_inputs image) 0 with
      | Some (i, e) => Some (mk_location (e_bitOffset e) (e_bitLength e) false i)
      | None => None
      end
  end.
End Build.
Arguments Device : clear implicits.
Arguments ProcessImageEntry : clear implicits.
Arguments ProcessImage : clear implicits.

(** ** The image as a list of located entries *)

Section Layout.
Context {cell : Type}.
Implicit Types d : Device cell.

(** The entries of one direction of a device that bind an object, at their absolute offset. *)
Definition located d (windowBytes : Z) (es : list Pdo.PdoMappingEntry) : list (ProcessImageEntry cell) :=
  locate d (u32 (windowBytes * 8)) <$> filter (fun e => isPadding d e = false) es.

Lemma appendEntries_Value out d es bits off len dir out' n :
  appendEntries out d es bits off len dir = Value (out', n) ->
  bits <= u32 (len * 8) /\ out' = out ++ located d off es.
Proof using.
  unfold appendEntries. destruct (Z.ltb_spec (u32 (len * 8)) bits); [done|]. intros [= E].
  split; [done|]. revert E. unfold located. set (p := 0) at 2. clearbody p. revert out p.
  induction es as [|e es IH]; intros out p E; cbn [foldl] in E.
  - injection E as <- <-. by rewrite app_nil_r.
  - rewrite filter_cons. destruct (isPadding d e) eqn:Ep.
    + rewrite decide_False by done. exact (IH _ _ E).
    + rewrite decide_True by done. rewrite (IH _ _ E), <- app_assoc. done.
Qed.

(** One direction of a device, given its window. *)
Record direction_view := mk_view {
  v_entries : Pdo.FlatPdoMapping -> list Pdo.PdoMappingEntry;
  v_bits : Pdo.FlatPdoMapping -> Z;
  v_offset : SlaveIo -> Z;
  v_bytes : SlaveIo -> Z;
  v_image : ProcessImage cell -> list (ProcessImageEntry cell);
  v_total : PdoLayout -> Z;
}.
Definition output_view := mk_view Pdo.outputs Pdo.outputBits outputOffset io_outputBytes i_outputs l_outputBytes.
Definition input_view := mk_view Pdo.inputs Pdo.inputBits inputOffset io_inputBytes i_inputs l_inputBytes.

Definition device_entries (v : direction_view) (windows : gmap Z SlaveIo) d : list (ProcessImageEntry cell) :=
  match windows !! Pdo.slavePosition (base d) with
  | Some io => located d (v_offset v io) (v_entries v (Pdo.flatPdoMapping (base d)))
  | None => []
  end.

(** The driver reserved enough bits for the mapping. *)
Definition fits (v : direction_view) (windows : gmap Z SlaveIo) d : Prop :=
  v_entries v (Pdo.flatPdoMapping (base d)) = [] \/
  exists io, windows !! Pdo.slavePosition (base d) = Some io /\
    v_bits v (Pdo.flatPdoMapping (base d)) <= u32 (v_bytes v io * 8).

Lemma add_device_Value windows image d image' :
  add_device windows image d = Value image' ->
  forall v, v = output_view \/ v = input_view ->
    v_image v image' = v_image v image ++ device_entries v windows d /\ fits v windows d.
Proof using.
  unfold add_device, device_entries, fits.
  destruct (Nat.eqb_spec (length (Pdo.outputs (Pdo.flatPdoMapping (base d)))) 0) as [E1|E1];
  [destruct (Nat.eqb_spec (length (Pdo.inputs (Pdo.flatPdoMapping (base d)))) 0) as [E2|E2]|]; cbn [andb].
  { intros [= <-] v Hv. apply nil_length_inv in E1, E2.
    assert (Ev : v_entries v (Pdo.flatPdoMapping (base d)) = []) by (by destruct Hv as [-> | ->]).
    rewrite Ev. split; [|by left]. by destruct (windows !! _); rewrite app_nil_r. }
  all: destruct (windows !! Pdo.slavePosition (base d)) as [io|]; [|done].
  all: unfold expected_bind; destruct (appendEntries (i_outputs image) _ _ _ _ _ _) as [[o1 n1]|] eqn:Eo; [|done].
  all: destruct (appendEntries (i_inputs image) _ _ _ _ _ _) as [[o2 n2]|] eqn:Ei; [|done].
  all: apply appendEntries_Value in Eo as [Ho ->], Ei as [Hi ->]; intros [= <-] v [-> | ->];
    (split; [done|right; by exists io]).
Qed.

Lemma add_devices_Value windows image devices image' :
  add_devices windows image devices = Value image' ->
  forall v, v = output_view \/ v = input_view ->
    v_image v image' = v_image v image ++ flat_map (device_entries v windows) devices /\
    Forall (fits v windows) devices.
Proof using.
  intros E v Hv. revert image E. induction devices as [|d devices IH]; intros image E; cbn [add_devices flat_map] in *.
  - injection E as ->. by rewrite app_nil_r.
  - unfold expected_bind in E. destruct (add_device windows image d) as [im|] eqn:Ed; [|done].
    destruct (add_device_Value _ _ _ _ Ed v Hv) as [E1 F1]. destruct (IH _ E) as [E2 F2].
    rewrite E2, E1, <- app_assoc. split; [done|by constructor].
Qed.
End Layout.

(** ** Where the fields lie *)

Section Disjoint.
Context {cell : Type}.
Implicit Types d : Device cell.

Definition disjoint_fields (a b : ProcessImageEntry cell) : Prop :=
  e_bitOffset a + e_bitLength a <= e_bitOffset b \/ e_bitOffset b + e_bitLength b <= e_bitOffset a.

(** The driver's windows lie inside the image and do not overlap. *)
Record layout_ok (v : direction_view) (layout : PdoLayout) : Prop := mk_layout_ok {
  lo_bounds : Forall (fun s => 0 <= v_offset (cell := cell) v s /\ 0 <= v_bytes v s /\
    v_offset v s + v_bytes v s <= v_total v layout) (slaves layout);
  lo_disjoint : forall s s', s ∈ slaves layout -> s' ∈ slaves layout ->
    io_slavePosition s <> io_slavePosition s' ->
    v_offset v s + v_bytes v s <= v_offset v s' \/ v_offset v s' + v_bytes v s' <= v_offset v s;
  lo_positive : 0 <= l_outputBytes layout /\ 0 <= l_inputBytes layout;
}.

(** A mapping as [readFlatPdoMapping] leaves it. *)
Record mapping_ok (v : direction_view) d : Prop := mk_mapping_ok {
  mo_tiled : Pdo.tiled 0 (v_entries (cell := cell) v (Pdo.flatPdoMapping (base d)))
    (v_bits v (Pdo.flatPdoMapping (base d)));
  mo_widths : Forall (fun e => in_u 8 (Pdo.bitLength e)) (v_entries v (Pdo.flatPdoMapping (base d)));
  mo_sum : Pdo.sum_bits (v_entries v (Pdo.flatPdoMapping (base d))) < 2 ^ 32;
}.

Lemma tiled_ordered t es t' :
  Forall (fun e => in_u 8 (Pdo.bitLength e)) es -> 0 <= t -> t + Pdo.sum_bits es < 2 ^ 32 ->
  Pdo.tiled t es t' ->
  Forall (fun e => t <= Pdo.bitOffset e /\ Pdo.bitOffset e + Pdo.bitLength e <= t + Pdo.sum_bits es) es /\
  ForallOrdPairs (fun a b => Pdo.bitOffset a + Pdo.bitLength a <= Pdo.bitOffset b) es.
Proof using.
  intros Hw. revert t. induction Hw as [|e es He Hw IH]; intros t Ht Hs; [by constructor; constructor|].
  cbn [Pdo.tiled Pdo.sum_bits foldr] in *. fold (Pdo.sum_bits es) in *. intros [Eo Hr].
  pose proof (Pdo.sum_bits_bound es Hw). unfold in_u in He.
  unfold u32 in Hr. rewrite uwrap_id in Hr by (unfold in_u; lia).
  destruct (IH (t + Pdo.bitLength e) ltac:(lia) ltac:(lia) Hr) as [Hf Ho]. split.
  - constructor; [lia|]. eapply Forall_impl; [exact Hf|]. intros x. cbn beta. lia.
  - constructor; [|done]. eapply Forall_impl; [exact Hf|]. intros x. cbn beta. lia.
Qed.

Lemma Forall_filter_weak {A} (Q : A -> Prop) (P : A -> Prop) `{forall x, Decision (P x)} l :
  Forall Q l -> Forall Q (filter P l).
Proof using.
  rewrite !Forall_forall. intros HQ x Hx. apply list_elem_of_filter in Hx as [_ Hx]. auto.
Qed.

Lemma FOP_filter {A} (R : A -> A -> Prop) (P : A -> Prop) `{forall x, Decision (P x)} l :
  ForallOrdPairs R l -> ForallOrdPairs R (filter P l).
Proof using.
  induction 1 as [|a l Ha Hl IH]; [constructor|]. rewrite filter_cons. case_decide; [|done].
  constructor; [|done]. by apply Forall_filter_weak.
Qed.

Lemma FOP_fmap {A A'} (R : A' -> A' -> Prop) (Q : A -> A -> Prop) (P : A -> Prop) (f : A -> A') l :
  (forall a b, P a -> P b -> Q a b -> R (f a) (f b)) -> Forall P l ->
  ForallOrdPairs Q l -> ForallOrdPairs R (f <$> l).
Proof using.
  intros Hf HP. induction 1 as [|a l Ha Hl IH]; [constructor|]. apply Forall_cons in HP as [Pa Pl].
  cbn [fmap list_fmap]. constructor; [|auto]. apply Forall_fmap. rewrite Forall_forall in Ha, Pl |- *.
  intros b Hb. unfold compose. auto.
Qed.

Lemma FOP_app {A} (R : A -> A -> Prop) l k :
  ForallOrdPairs R l -> ForallOrdPairs R k -> (forall a b, a ∈ l -> b ∈ k -> R a b) ->
  ForallOrdPairs R (l ++ k).
Proof using.
  induction 1 as [|a l Ha Hl IH]; intros Hk Hx; [done|]. cbn [app]. constructor.
  - apply Forall_app_2; [done|]. apply Forall_forall. intros b Hb. apply Hx; [left|done].
  - apply IH; [done|]. intros x y Hx' Hy. apply Hx; [by right|done].
Qed.

Lemma FOP_lookup {A} (R : A -> A -> Prop) l i j a b :
  ForallOrdPairs R l -> (i < j)%nat -> l !! i = Some a -> l !! j = Some b -> R a b.
Proof using.
  intros H. revert i j. induction H as [|x l Hx Hl IH]; intros i j Hij Hi Hj; [done|].
  destruct i as [|i], j as [|j]; try lia; cbn in *.
  - injection Hi as ->. rewrite Forall_forall in Hx. apply Hx. by eapply list_elem_of_lookup_2.
  - apply (IH i j); [lia|done..].
Qed.

Lemma windows_of_lookup layout p io :
  windows_of layout !! p = Some io -> io ∈ slaves layout /\ io_slavePosition io = p.
Proof using.
  unfold windows_of.
  cut (forall l w, (forall q x, w !! q = Some x -> x ∈ slaves layout /\ io_slavePosition x = q) ->
    l ⊆ slaves layout -> forall q x, foldl emplace w l !! q = Some x ->
    x ∈ slaves layout /\ io_slavePosition x = q).
  { intros Hc. apply Hc; [|set_solver]. intros q x. by rewrite lookup_empty. }
  induction l as [|s l IH]; intros w Hw Hl q x; cbn [foldl]; [by apply Hw|]. apply IH; [|set_solver].
  intros q' x'. unfold emplace. destruct (w !! io_slavePosition s) eqn:E; [by apply Hw|].
  rewrite lookup_insert_Some. intros [[<- <-]|[_ Hx]]; [|by apply Hw]. split; [set_solver|done].
Qed.

(** The entries of one device stay in its window and do not overlap. *)
Lemma device_entries_window v layout d io :
  layout_ok v layout -> v_total v layout <= kMaxProcessImageBytes -> mapping_ok v d ->
  fits v (windows_of layout) d -> windows_of layout !! Pdo.slavePosition (base d) = Some io ->
  Forall (fun e => 8 * v_offset v io <= e_bitOffset e /\ 0 <= e_bitLength e < 256 /\
    e_bitOffset e + e_bitLength e <= 8 * (v_offset v io + v_bytes v io))
    (device_entries v (windows_of layout) d) /\
  ForallOrdPairs disjoint_fields (device_entries v (windows_of layout) d).
Proof using.
  intros [Hb _ _] Ht [Hti Hw Hs] Hfit Hio. unfold device_entries. rewrite Hio.
  set (es := v_entries v (Pdo.flatPdoMapping (base d))) in *.
  destruct (windows_of_lookup _ _ _ Hio) as [Hin _]. rewrite Forall_forall in Hb.
  destruct (Hb io Hin) as (Ho & Hby & Hend). unfold kMaxProcessImageBytes in Ht.
  assert (Hsum : Pdo.sum_bits es <= 8 * v_bytes v io).
  { destruct Hfit as [E|(io' & E & Hle)]; [fold es in E; rewrite E; cbn; lia|].
    rewrite Hio in E. injection E as <-. pose proof (Pdo.sum_bits_bound es Hw).
    rewrite (Pdo.tiled_sum 0 es _ Hw ltac:(lia) ltac:(lia) Hti) in Hle.
    unfold u32 in Hle. rewrite uwrap_id in Hle by (unfold in_u; lia). lia. }
  destruct (tiled_ordered 0 es _ Hw ltac:(lia) ltac:(lia) Hti) as [Hpos Hord].
  assert (Hloc : Forall (fun x => e_bitOffset (locate d (u32 (v_offset v io * 8)) x) =
      8 * v_offset v io + Pdo.bitOffset x /\ 0 <= Pdo.bitOffset x /\
      Pdo.bitOffset x + Pdo.bitLength x <= Pdo.sum_bits es /\ in_u 8 (Pdo.bitLength x)) es).
  { rewrite Forall_forall in Hpos, Hw |- *. intros x Hx. specialize (Hpos x Hx). specialize (Hw x Hx).
    cbn [locate e_bitOffset]. unfold u32. unfold in_u in Hw.
    rewrite (uwrap_id 32 (v_offset v io * 8)) by (unfold in_u; lia).
    rewrite uwrap_id by (unfold in_u; lia). unfold in_u. lia. }
  unfold located. split.
  - apply Forall_fmap, Forall_filter_weak. eapply Forall_impl; [exact Hloc|]. intros x (E & H1 & H2 & H3).
    unfold compose. rewrite E. cbn [locate e_bitLength]. unfold in_u in H3. lia.
  - eapply (FOP_fmap _ (fun a b => Pdo.bitOffset a + Pdo.bitLength a <= Pdo.bitOffset b)
      (fun x => e_bitOffset (locate d (u32 (v_offset v io * 8)) x) = 8 * v_offset v io + Pdo.bitOffset x)).
    + intros a b Ea Eb Hab. unfold disjoint_fields. rewrite Ea, Eb. cbn [locate e_bitLength]. lia.
    + apply Forall_filter_weak. eapply Forall_impl; [exact Hloc|]. by intros x [? _].
    + by apply FOP_filter.
Qed.

Lemma image_fields v layout devices :
  layout_ok v layout -> v_total v layout <= kMaxProcessImageBytes -> Forall (mapping_ok v) devices ->
  NoDup ((fun d => Pdo.slavePosition (base d)) <$> devices) ->
  Forall (fits v (windows_of layout)) devices ->
  Forall (fun e => 0 <= e_bitOffset e /\ 0 <= e_bitLength e < 256 /\
    e_bitOffset e + e_bitLength e <= 8 * v_total v layout)
    (flat_map (device_entries v (windows_of layout)) devices) /\
  ForallOrdPairs disjoint_fields (flat_map (device_entries v (windows_of layout)) devices).
Proof using.
  intros Hl Ht Hm Hnd Hf. induction devices as [|d devices IH]; [by constructor; constructor|].
  apply Forall_cons in Hm as [Hm1 Hm], Hf as [Hf1 Hf]. cbn [fmap list_fmap] in Hnd.
  apply NoDup_cons in Hnd as [Hni Hnd]. destruct (IH Hm Hnd Hf) as [IH1 IH2]. cbn [flat_map].
  destruct (windows_of layout !! Pdo.slavePosition (base d)) as [io|] eqn:Hio.
  2: { unfold device_entries at 1 3. rewrite Hio. done. }
  destruct (device_entries_window v layout d io Hl Ht Hm1 Hf1 Hio) as [Hw Ho].
  destruct (windows_of_lookup _ _ _ Hio) as [Hin Hpos].
  pose proof (lo_bounds _ _ Hl) as Hb. rewrite Forall_forall in Hb. pose proof (Hb io Hin).
  split.
  - apply Forall_app_2; [|done]. eapply Forall_impl; [exact Hw|]. intros e. cbn beta. lia.
  - apply FOP_app; [done..|]. intros a b Ha Hbb. rewrite Forall_forall in Hw. specialize (Hw a Ha).
    apply list_elem_of_In, in_flat_map in Hbb as (d' & Hd' & Hbd). apply list_elem_of_In in Hbd, Hd'.
    destruct (windows_of layout !! Pdo.slavePosition (base d')) as [io'|] eqn:Hio'.
    2: { unfold device_entries in Hbd. rewrite Hio' in Hbd. set_solver. }
    rewrite Forall_forall in Hm, Hf.
    destruct (device_entries_window v layout d' io' Hl Ht (Hm d' Hd') (Hf d' Hd') Hio') as [Hw' _].
    rewrite Forall_forall in Hw'. specialize (Hw' b Hbd).
    destruct (windows_of_lookup _ _ _ Hio') as [Hin' Hpos'].
    destruct (lo_disjoint _ _ Hl io io' Hin Hin') as [H1|H1].
    + rewrite Hpos, Hpos'. intros E. apply Hni. apply list_elem_of_fmap. exists d'. split; [exact E|done].
    + left. lia.
    + right. lia.
Qed.
End Disjoint.

(** What a built image is for the code that reads and writes it: every field lies inside its
    direction's image, and no two overlap. *)
Definition fields_ok {cell} (total : Z) (es : list (ProcessImageEntry cell)) : Prop :=
  total <= kMaxProcessImageBytes /\
  Forall (fun e => 0 <= e_bitOffset e /\ 0 <= e_bitLength e < 256 /\ e_bitOffset e + e_bitLength e <= 8 * total) es /\
  ForallOrdPairs disjoint_fields es.

Lemma built_fields {cell} (layout : PdoLayout) (devices : list (Device cell)) image v :
  buildProcessImage layout devices = Value image -> v = output_view \/ v = input_view ->
  layout_ok v layout -> Forall (mapping_ok v) devices ->
  NoDup ((fun d => Pdo.slavePosition (base d)) <$> devices) ->
  fields_ok (v_total v layout) (v_image v image).
Proof.
  intros Hb Hv Hl Hm Hnd. unfold buildProcessImage in Hb.
  destruct (Z.ltb_spec kMaxProcessImageBytes (l_outputBytes layout + l_inputBytes layout)) as [|Hcap]; [done|].
  destruct (add_devices_Value _ _ _ _ Hb v Hv) as [Eimg Hfits].
  assert (Ht : v_total v layout <= kMaxProcessImageBytes)
    by (destruct (lo_positive _ _ Hl), Hv as [-> | ->]; cbn [v_total output_view input_view]; lia).
  assert (E0 : v_image v image = flat_map (device_entries v (windows_of layout)) devices)
    by (rewrite Eimg; destruct Hv as [-> | ->]; done).
  rewrite E0. split; [done|]. by apply image_fields.
Qed.

Lemma fields_disjoint {cell} total (es : list (ProcessImageEntry cell)) i e j e' :
  fields_ok total es -> es !! i = Some e -> es !! j = Some e' -> i <> j -> disjoint_fields e e'.
Proof.
  intros (_ & _ & Hdis) Hi Hj Hij. destruct (Nat.lt_total i j) as [Hlt|[?|Hlt]]; [|done|].
  - exact (FOP_lookup _ _ _ _ _ _ Hdis Hlt Hi Hj).
  - pose proof (FOP_lookup _ _ _ _ _ _ Hdis Hlt Hj Hi) as [?|?]; [right|left]; done.
Qed.

(** In an image built from non-overlapping driver windows and mappings as [readFlatPdoMapping]
    leaves them, every object's field lies inside its direction's image, reads back what was written
    to it, and keeps its value when any other object is written. *)
Theorem image_objects_independent {cell} (layout : PdoLayout) (devices : list (Device cell)) image v i e j e' buf value :
  buildProcessImage layout devices = Value image -> v = output_view \/ v = input_view ->
  layout_ok v layout -> Forall (mapping_ok v) devices ->
  NoDup ((fun d => Pdo.slavePosition (base d)) <$> devices) ->
  v_image v image !! i = Some e -> v_image v image !! j = Some e' -> i <> j ->
  bytes_ok buf -> Z.of_nat (length buf) = v_total v layout -> bytes_ok value ->
  let written := Bits.insertBits buf (e_bitOffset e) (e_bitLength e) value in
  e_bitOffset e + e_bitLength e <= 8 * v_total v layout /\
  Bits.extractBits written (e_bitOffset e) (e_bitLength e) =
    le_bytes (Z.to_nat ((e_bitLength e + 7) / 8)) (uwrap (e_bitLength e) (le_value value)) /\
  Bits.extractBits written (e_bitOffset e') (e_bitLength e') =
    Bits.extractBits buf (e_bitOffset e') (e_bitLength e').
Proof.
  intros Hb Hv Hl Hm Hnd Hi Hj Hij Hbuf Hlen Hval written.
  pose proof (built_fields layout devices image v Hb Hv Hl Hm Hnd) as Hok.
  pose proof (fields_disjoint _ _ _ _ _ _ Hok Hi Hj Hij) as Hd. destruct Hok as (Ht & Hin & _).
  pose proof (Forall_lookup_1 _ _ _ _ Hin Hi) as He. pose proof (Forall_lookup_1 _ _ _ _ Hin Hj) as He'.
  cbn beta in He, He'. unfold kMaxProcessImageBytes in Ht. split; [lia|].
  destruct (Bits.insert_extract_lemma buf (e_bitOffset e) (e_bitLength e) value
    (e_bitOffset e') (e_bitLength e')) as [H1 H2]; unfold in_u; try done; try lia.
  split; [exact H1|]. by apply H2.
Qed.

(** A drive on a one-slave bus: 24 output bits, of which the middle entry is SOMANET padding. *)
Definition w_flat : Pdo.FlatPdoMapping :=
  Pdo.mk_flat [Pdo.mk_entry 24640 0 12 0; Pdo.mk_entry 8193 0 4 12; Pdo.mk_entry 24672 0 8 16] [] 24 0.
Definition w_dev : Device nat :=
  mk_dev (Pdo.mk_device 1 kSynapticonVendorId 4 w_flat) (list_to_map [(6307840, 0%nat); (6316032, 1%nat)]).
Definition w_layout : PdoLayout := mk_layout 4 0 [mk_slave_io 1 1 3 0 0] 2.

Lemma image_objects_independent_witness :
  exists image e e', buildProcessImage w_layout [w_dev] = Value image /\
    i_outputs image = [e; e'] /\
    Bits.extractBits (Bits.insertBits [1; 2; 3; 4] (e_bitOffset e) (e_bitLength e) [255; 255])
      (e_bitOffset e') (e_bitLength e') = [4].
Proof.
  eexists _, _, _. split; [vm_compute; reflexivity|]. split; [reflexivity|].
  etrans; [apply (image_objects_independent w_layout [w_dev] _ output_view 0 _ 1 _ [1; 2; 3; 4] [255; 255]
    ltac:(vm_compute; reflexivity))|vm_compute; reflexivity].
  - by left.
  - constructor; [| |done].
    + repeat constructor; cbn; lia.
    + intros s s' Hs Hs'. cbn [slaves w_layout] in Hs, Hs'. apply list_elem_of_singleton in Hs as ->, Hs' as ->. done.
  - constructor; [|constructor]. constructor; [by vm_compute|repeat constructor; done|done].
  - repeat constructor. set_solver.
  - reflexivity.
  - reflexivity.
  - done.
  - repeat constructor; done.
  - done.
  - repeat constructor; done.
Defined.

(** ** Locating an object *)

Lemma find_if_spec {cell} (p : ProcessImageEntry cell -> bool) l i0 :
  match find_if p l i0 with
  | Some (i, e) => (i0 <= i)%nat /\ l !! (i - i0)%nat = Some e /\ p e = true /\
      Forall (fun x => p x = false) (take (i - i0) l)
  | None => Forall (fun x => p x = false) l
  end.
Proof.
  revert i0. induction l as [|x l IH]; intros i0; cbn [find_if]; [constructor|].
  destruct (p x) eqn:Ep.
  - rewrite Nat.sub_diag. by repeat split; [| |constructor].
  - specialize (IH (S i0)). destruct (find_if p l (S i0)) as [[i e]|].
    + destruct IH as (Hle & Hl & Hp & Hf). replace (i - i0)%nat with (S (i - S i0)) by lia.
      split; [lia|]. split; [done|]. split; [done|]. cbn [take]. by constructor.
    + by constructor.
Qed.

(** [find] returns the first matching entry, outputs before inputs, with the position and width
    of exactly that entry, and nothing only when no entry of the image matches. *)
Theorem find_spec {cell} (image : ProcessImage cell) pos idx sub :
  match find image pos idx sub with
  | Some loc =>
      exists e, (if isOutput loc then i_outputs image else i_inputs image) !! entryIndex loc = Some e /\
        matches pos idx sub e = true /\
        loc_bitOffset loc = e_bitOffset e /\ loc_bitLength loc = e_bitLength e /\
        Forall (fun x => matches pos idx sub x = false)
          (if isOutput loc then take (entryIndex loc) (i_outputs image)
           else i_outputs image ++ take (entryIndex loc) (i_inputs image))
  | None => Forall (fun x => matches pos idx sub x = false) (i_outputs image ++ i_inputs image)
  end.
Proof.
  unfold find. pose proof (find_if_spec (matches pos idx sub) (i_outputs image) 0) as Ho.
  destruct (find_if _ (i_outputs image) 0) as [[i e]|].
  - rewrite Nat.sub_0_r in Ho. destruct Ho as (_ & Hl & Hm & Hf). by exists e.
  - pose proof (find_if_spec (matches pos idx sub) (i_inputs image) 0) as Hi.
    destruct (find_if _ (i_inputs image) 0) as [[i e]|].
    + rewrite Nat.sub_0_r in Hi. destruct Hi as (_ & Hl & Hm & Hf). exists e.
      refine (conj Hl (conj Hm (conj eq_refl (conj eq_refl _)))). by apply Forall_app_2.
    + by apply Forall_app_2.
Qed.

End Image.
