(* ===== verification/BusStates.v ===== *)
(** * EtherCAT states of the bus ([libs/node/device_manager.cc], [libs/comm/fieldbus_driver.{h,cc}])

    What [DeviceManager] does when devices change state: the validation against the AL state machine,
    the re-map with the devices that stay in OP taken down around it, the working counter expected
    meanwhile, the module reconciliation in PRE-OP, and the restart that walks a set of devices
    through INIT. The driver, the mapper ([remapProcessImage], modelled in [CycleDrain]) and the
    reading of a dictionary ([DeviceStore]) are interfaces here. Every call that reaches the bus is
    logged, so that the theorems can speak of what was asked of it and in what order. *)

From S2P Require Import Prelude Util Driver.

Module States.

(** ** The AL vocabulary ([fieldbus_driver.h]) *)
Inductive Reachability := Answering | AddressLost | NotAnswering.

#[export] Instance Reachability_eq_dec : EqDecision Reachability.
Proof. solve_decision. Defined.

Record SlaveStateRaw := mk_raw { alStatus : Z; alStatusCode : Z; reachability : Reachability }.

Definition workingCounterContribution (status : Z) (hasOutputs hasInputs : bool) : Z :=
  if alHasError status then 0
  else if (alState status =? kSafeOp) || (alState status =? kOp) then
    (if hasOutputs then 2 else 0) + (if hasInputs then 1 else 0)
  else 0.

(** ** Registers of a Sync Manager and of an FMMU ([fieldbus_driver.cc]) *)
Record SyncManagerConfig := mk_sm { sm_index : Z; sm_physicalStart : Z; sm_length : Z; sm_flags : Z; sm_type : Z }.
Record FmmuConfig := mk_fmmu {
  f_index : Z; logicalStart : Z; f_length : Z; logicalStartBit : Z; logicalEndBit : Z; f_physicalStart : Z;
  physicalStartBit : Z; f_type : Z; active : Z }.

Definition encodeSyncManager (c : SyncManagerConfig) : bytes :=
  le_bytes 2 (sm_physicalStart c) ++ le_bytes 2 (sm_length c) ++
  [Z.land (sm_flags c) 0xFF; 0; Z.land (Z.shiftr (sm_flags c) 16) 0xFF; 0].

Definition decodeSyncManager (index : Z) (l : bytes) : option SyncManagerConfig :=
  if (length l <? 8)%nat then None
  else Some (mk_sm index (le_value (slice 0 2 l)) (le_value (slice 2 2 l)) (le_value (slice 4 4 l)) 0).

Definition encodeFmmu (c : FmmuConfig) : bytes :=
  le_bytes 4 (logicalStart c) ++ le_bytes 2 (f_length c) ++ [logicalStartBit c; logicalEndBit c] ++
  le_bytes 2 (f_physicalStart c) ++ [physicalStartBit c; f_type c; active c; 0; 0; 0].

Definition decodeFmmu (index : Z) (l : bytes) : option FmmuConfig :=
  if (length l <? 16)%nat then None
  else Some (mk_fmmu index (le_value (slice 0 4 l)) (le_value (slice 4 2 l)) (byte_at l 6) (byte_at l 7)
               (le_value (slice 8 2 l)) (byte_at l 10) (byte_at l 11) (byte_at l 12)).

Lemma le_value_le_bytes n v : in_u (8 * Z.of_nat n) v -> le_value (le_bytes n v) = v.
Proof. intros Hv. rewrite le_value_bytes. by apply uwrap_id. Qed.

(** An FMMU's register block gives the configuration back; a Sync Manager's gives back everything but its kind, which the
    registers do not hold, and the two bytes of its flags that the master may not set. *)
Theorem register_blocks_roundtrip c s :
  in_u 32 (logicalStart c) -> in_u 16 (f_length c) -> in_u 16 (f_physicalStart c) ->
  in_u 16 (sm_physicalStart s) -> in_u 16 (sm_length s) ->
  decodeFmmu (f_index c) (encodeFmmu c) = Some c /\
  decodeSyncManager (sm_index s) (encodeSyncManager s) =
    Some (mk_sm (sm_index s) (sm_physicalStart s) (sm_length s)
      (Z.land (sm_flags s) 0xFF + 65536 * Z.land (Z.shiftr (sm_flags s) 16) 0xFF) 0).
Proof.
  intros H1 H2 H3 H4 H5. split.
  - unfold decodeFmmu, encodeFmmu. cbn -[Z.mul Z.div le_value]. destruct c; cbn -[Z.mul Z.div le_value] in *.
    do 2 f_equal; [exact (le_value_le_bytes 4 _ H1)|exact (le_value_le_bytes 2 _ H2)|exact (le_value_le_bytes 2 _ H3)].
  - unfold decodeSyncManager, encodeSyncManager. cbn -[Z.mul Z.div le_value Z.land Z.shiftr]. do 2 f_equal;
      [exact (le_value_le_bytes 2 _ H4)|exact (le_value_le_bytes 2 _ H5)|]. cbn [le_value]. lia.
Qed.

(** ** The AL state machine ([device_manager.cc]) *)
Definition kValidStateTransitions : list (Z * list Z) :=
  [(kInit, [kInit; kPreOp; kBoot]);
   (kPreOp, [kPreOp; kInit; kSafeOp]);
   (kSafeOp, [kSafeOp; kPreOp; kInit; kOp]);
   (kOp, [kOp; kSafeOp; kPreOp; kInit]);
   (kBoot, [kBoot; kInit])].

Definition isValidStateTransition (currentState targetState : Z) : bool :=
  match List.find (fun e => e.1 =? currentState) kValidStateTransitions with
  | Some (_, allowed) => existsb (Z.eqb targetState) allowed
  | None => false
  end.

(** ** The interfaces *)
Class StateDriver (B : Type) := {
  sd_driver :: FieldbusDriver B;
  sd_refusal : B -> option text;                                      (* stateChangeRefusal *)
  sd_readStates : list Z -> B -> B * expected text (list SlaveStateRaw);
  sd_transition : list Z -> option Z -> Z -> B -> B;                  (* transitionToState, which returns nothing *)
}.

(** What the manager knows of a device. *)
Record dev := mk_dev { position : Z; outputBits : Z; inputBits : Z; hasParameters : bool; parametersUnavailable : bool }.

(** The operations of the manager this one only calls: whether the RT thread leaves its cycle in time; one attempt to map
    (the driver's map, the read of every mapping, the image built of the two); and a dictionary read. *)
Class Mapper (B : Type) := {
  mp_drained : B -> bool;
  mp_mapOnce : B -> list dev -> B * list dev * expected text unit;
  mp_initializeParameters : Z -> B -> B * bool;
}.

(** What reached the bus, in order. *)
Inductive event :=
  | EvTransition (positions : list Z) (required : option Z) (target : Z)
  | EvRemap | EvStop | EvReconcile (position : Z) | EvDictionary (position : Z).

Section Manager.
Context {B : Type} `{StateDriver B} `{Mapper B}.

Record manager := mk_manager {
  driver : option B; devices : list dev; published : bool; expectedWkc : Z; readOnPreop : bool; log : list event }.

Definition with_bus (m : manager) (b : B) : manager :=
  mk_manager (Some b) (devices m) (published m) (expectedWkc m) (readOnPreop m) (log m).
Definition logged (m : manager) (e : event) : manager :=
  mk_manager (driver m) (devices m) (published m) (expectedWkc m) (readOnPreop m) (log m ++ [e]).
Definition with_wkc (m : manager) (w : Z) : manager :=
  mk_manager (driver m) (devices m) (published m) w (readOnPreop m) (log m).
Definition with_devices (m : manager) (ds : list dev) : manager :=
  mk_manager (driver m) ds (published m) (expectedWkc m) (readOnPreop m) (log m).

Definition find_device (ds : list dev) (pos : Z) : option dev := List.find (fun d => position d =? pos) ds.
Definition contains (ps : list Z) (p : Z) : bool := existsb (Z.eqb p) ps.
Definition exchanges (b : B) (pos : Z) : bool := exchangesProcessData (drv_slaveState pos b).

(** [expectedWkcDuring] *)
Definition contribution (b : B) (transitioning : list Z) (target : option Z) (d : dev) : Z :=
  let o := 0 <? outputBits d in
  let i := 0 <? inputBits d in
  let c := workingCounterContribution (drv_slaveState (position d) b) o i in
  match target with
  | Some t => if contains transitioning (position d) then Z.min c (workingCounterContribution t o i) else c
  | None => c
  end.

Definition expectedWkcDuring (m : manager) (transitioning : list Z) (target : option Z) : Z :=
  match driver m with
  | None => 0
  | Some b => foldl (fun n d => n + contribution b transitioning target d) 0 (devices m)
  end.

Definition updateExpectedWkc (m : manager) : manager := with_wkc m (expectedWkcDuring m [] None).

Definition lowerExpectedWkc (m : manager) (positions : list Z) (target : Z) : manager :=
  let during := expectedWkcDuring m positions (Some target) in
  if during <? expectedWkc m then with_wkc m during else m.

Inductive remap_error := RtStalled | MapFailed (e : text).

(** [resolveTargets] *)
Inductive StateError :=
  | NoDriver | NoDevices | Refused (reason : text) | UnknownPosition (p : Z) | ReadFailed (e : text)
  | IllegalTransition (p current target : Z) | RemapFailed (e : remap_error) | RestartStopped (step : Z) (e : StateError).

Definition resolveTargets (m : manager) (positions : list Z) : expected StateError (list Z) :=
  match positions with
  | [] => Value (position <$> devices m)
  | _ =>
      match List.find (fun p => match find_device (devices m) p with None => true | Some _ => false end) positions with
      | Some p => Unexpected (UnknownPosition p)
      | None => Value positions
      end
  end.

(** The validation loop: the devices that do not answer, or the first illegal transition. *)
Fixpoint validate (targets : list (Z * SlaveStateRaw)) (target : Z) : expected StateError (list Z) :=
  match targets with
  | [] => Value []
  | (p, raw) :: targets =>
      if bool_decide (reachability raw <> Answering) then
        match validate targets target with Value us => Value (p :: us) | Unexpected e => Unexpected e end
      else
        let currentState := alState (alStatus raw) in
        if negb (isValidStateTransition currentState target) then Unexpected (IllegalTransition p currentState target)
        else validate targets target
  end.

(** The driver's transition, logged. *)
Definition transition (m : manager) (b : B) (positions : list Z) (required : option Z) (target : Z) : manager :=
  with_bus (logged m (EvTransition positions required target)) (sd_transition positions required target b).

Definition bus_of (m : manager) (b : B) : B := default b (driver m).

(** [remapProcessImage] *)
Definition kProcessDataMapAttempts : nat := 3.

(** The first attempt and the ones that follow a failure. *)
Fixpoint map_again (attempts : nat) (b : B) (ds : list dev) (r : expected text unit) : B * list dev * expected text unit :=
  match r, attempts with
  | Unexpected _, S attempts => let '(b, ds, r) := mp_mapOnce b ds in map_again attempts b ds r
  | _, _ => (b, ds, r)
  end.

Definition remapProcessImage (m : manager) (b : B) : manager * expected remap_error unit :=
  let m := logged m EvRemap in
  if negb (mp_drained b) then
    (mk_manager (Some b) (devices m) false (expectedWkc m) (readOnPreop m) (log m), Unexpected RtStalled)
  else
    let '(b, ds, r) := mp_mapOnce b (devices m) in
    let '(b, ds, r) := map_again (kProcessDataMapAttempts - 1) b ds r in
    match r with
    | Unexpected e => (mk_manager (Some b) ds false (expectedWkc m) (readOnPreop m) (log m), Unexpected (MapFailed e))
    | Value _ => (updateExpectedWkc (mk_manager (Some b) ds true (expectedWkc m) (readOnPreop m) (log m)), Value tt)
    end.

Definition opStayers (m : manager) (b : B) (targets : list Z) : list Z :=
  position <$> List.filter (fun d => negb (contains targets (position d)) && (alState (drv_slaveState (position d) b) =? kOp)) (devices m).

(** Entering an exchange state: re-map unless the published image already describes every target. *)
Definition enter_exchange (m : manager) (b : B) (targets unreachable : list Z) : manager * expected StateError unit :=
  let anyJoining := existsb (fun p => match find_device (devices m) p with
                                      | Some _ => negb (exchanges b p) && negb (contains unreachable p)
                                      | None => false end) targets in
  if negb (published m) || anyJoining then
    let stayers := opStayers m b targets in
    let m := match stayers with
             | [] => m
             | _ => transition (lowerExpectedWkc m stayers kSafeOp) b stayers None kSafeOp
             end in
    let '(m, r) := remapProcessImage m (bus_of m b) in
    match r with
    | Unexpected e => (m, Unexpected (RemapFailed e))
    | Value _ =>
        match stayers with
        | [] => (m, Value tt)
        | _ => (transition m (bus_of m b) stayers (Some kSafeOp) kOp, Value tt)
        end
    end
  else (m, Value tt).

(** Leaving the exchange states: the image is unpublished only when no device stays in one. *)
Definition leave_exchange (m : manager) (b : B) (targets : list Z) : manager :=
  if published m then
    let anyStays := existsb (fun d => negb (contains targets (position d)) && exchanges b (position d)) (devices m) in
    if anyStays then m
    else mk_manager (driver m) (devices m) false (expectedWkc m) (readOnPreop m) (log m ++ [EvStop])
  else m.

(** ** Modules ([reconcileDetectedModules] in [device.cc]) *)
Definition kDetectedModuleIdentList : Z := 0xF050.
Definition kConfiguredModuleIdentList : Z := 0xF030.

Definition decodeEntryCount (l : bytes) : Z :=
  match l with
  | b0 :: b1 :: _ => u16 (Z.lor b0 (Z.shiftl b1 8))
  | [b0] => b0
  | [] => 0
  end.

(** One slot: whether it was written, and the failure of the write. *)
Definition reconcile_slot (pos sub : Z) (b : B) : B * Z * option text :=
  let '(b, detected) := drv_readSdo pos kDetectedModuleIdentList sub b in
  match detected with
  | Unexpected _ => (b, 0, None)
  | Value d =>
      if negb (length d =? 4)%nat then (b, 0, None)
      else if forallb (Z.eqb 0) d then (b, 0, None)
      else
        let '(b, configured) := drv_readSdo pos kConfiguredModuleIdentList sub b in
        if match configured with Value c => bool_decide (c = d) | Unexpected _ => false end then (b, 0, None)
        else
          let '(b, w) := drv_writeSdo pos kConfiguredModuleIdentList sub d b in
          match w with Unexpected e => (b, 0, Some e) | Value _ => (b, 1, None) end
  end.

Fixpoint reconcile_slots (pos : Z) (subs : list Z) (b : B) : B * Z * list (Z * text) :=
  match subs with
  | [] => (b, 0, [])
  | sub :: subs =>
      let '(b, w, f) := reconcile_slot pos sub b in
      let '(b, ws, fs) := reconcile_slots pos subs b in
      (b, w + ws, match f with Some e => (sub, e) :: fs | None => fs end)
  end.

Definition reconcileDetectedModules (pos : Z) (b : B) : B * expected (list (Z * text)) Z :=
  let '(b, count) := drv_readSdo pos kDetectedModuleIdentList 0 b in
  match count with
  | Unexpected _ => (b, Value 0)
  | Value l =>
      let slotCount := Z.min (decodeEntryCount l) 255 in
      let '(b, written, failures) := reconcile_slots pos (seqZ 1 slotCount) b in
      match failures with [] => (b, Value written) | _ => (b, Unexpected failures) end
  end.

(** ** The transition *)
Record DeviceStateInfo := mk_info {
  slavePosition : Z; i_alStatus : Z; i_alState : Z; error : bool; i_alStatusCode : Z; i_reachability : Reachability }.

Definition decodeState (p : Z) (raw : SlaveStateRaw) : DeviceStateInfo :=
  mk_info p (alStatus raw) (alState (alStatus raw)) (alHasError (alStatus raw)) (alStatusCode raw) (reachability raw).

Definition reconcile_one (m : manager) (b : B) (info : DeviceStateInfo) : manager :=
  if error info || negb (i_alState info =? kPreOp) then m
  else match find_device (devices m) (slavePosition info) with
       | None => m
       | Some _ => with_bus (logged m (EvReconcile (slavePosition info))) (reconcileDetectedModules (slavePosition info) (bus_of m b)).1
       end.

Definition set_device (ds : list dev) (pos : Z) (f : dev -> dev) : list dev :=
  (fun d => if position d =? pos then f d else d) <$> ds.

(** [readMissingObjectDictionaries], one position. *)
Definition read_dictionary (m : manager) (b : B) (pos : Z) : manager :=
  match find_device (devices m) pos with
  | None => m
  | Some d =>
      let state := alState (drv_slaveState pos (bus_of m b)) in
      let mailboxActive := (state =? kPreOp) || (state =? kSafeOp) || (state =? kOp) in
      if negb mailboxActive || hasParameters d then m
      else if parametersUnavailable d then m
      else
        let '(b', ok) := mp_initializeParameters pos (bus_of m b) in
        with_devices (with_bus (logged m (EvDictionary pos)) b')
          (set_device (devices m) pos (fun d => mk_dev (position d) (outputBits d) (inputBits d) ok (negb ok)))
  end.

Definition readMissingObjectDictionaries (m : manager) (b : B) (positions : list Z) : manager :=
  if negb (readOnPreop m) then m else foldl (fun m p => read_dictionary m b p) m positions.

(** From the command on: the expectation lowered, the transition, the read-back. *)
Definition command (m : manager) (b : B) (targets : list Z) (target : Z) : manager * expected StateError (list DeviceStateInfo) :=
  let m := transition (lowerExpectedWkc m targets target) (bus_of m b) targets None target in
  let '(b1, raw) := sd_readStates targets (bus_of m b) in
  let m := with_bus m b1 in
  match raw with
  | Unexpected e => (m, Unexpected (ReadFailed e))
  | Value raws =>
      let result := zip_with decodeState targets raws in
      let m := updateExpectedWkc m in
      let m := if target =? kPreOp then foldl (fun m i => reconcile_one m b1 i) m result else m in
      (readMissingObjectDictionaries m b1 targets, Value result)
  end.

Definition transitionToState (positions : list Z) (target : Z) (m : manager) : manager * expected StateError (list DeviceStateInfo) :=
  match driver m with
  | None => (m, Unexpected NoDriver)
  | Some b =>
      if bool_decide (devices m = []) then (m, Unexpected NoDevices)
      else match sd_refusal b with
      | Some reason => (m, Unexpected (Refused reason))
      | None =>
          match resolveTargets m positions with
          | Unexpected e => (m, Unexpected e)
          | Value targets =>
              let '(b, current) := sd_readStates targets b in
              let m := with_bus m b in
              match current with
              | Unexpected e => (m, Unexpected (ReadFailed e))
              | Value states =>
                  match validate (zip targets states) target with
                  | Unexpected e => (m, Unexpected e)
                  | Value unreachable =>
                      if (target =? kSafeOp) || (target =? kOp) then
                        match enter_exchange m b targets unreachable with
                        | (m, Unexpected e) => (m, Unexpected e)
                        | (m, Value _) => command m b targets target
                        end
                      else command (leave_exchange m b targets) b targets target
                  end
              end
          end
      end
  end.

(** ** The restart *)
Record RestartOutcome := mk_outcome { step : Z; states : list DeviceStateInfo }.

(** The climb stops at the target. *)
Fixpoint climb_to (target : Z) (l : list Z) : list Z :=
  match l with
  | [] => []
  | c :: l => if target <? c then [] else c :: climb_to target l
  end.

Definition restart_steps (target : Z) : list Z :=
  if target =? kBoot then [kInit; kBoot] else kInit :: climb_to target [kPreOp; kSafeOp; kOp].

Definition reached (st : Z) (info : DeviceStateInfo) : bool := negb (error info) && (i_alState info =? st).

Fixpoint restart_loop (steps : list Z) (positions : list Z) (outcome : RestartOutcome) (m : manager)
    : manager * expected StateError RestartOutcome :=
  match steps with
  | [] => (m, Value outcome)
  | st :: steps =>
      match transitionToState positions st m with
      | (m, Unexpected e) => (m, Unexpected (RestartStopped st e))
      | (m, Value infos) =>
          let outcome := mk_outcome st infos in
          if forallb (reached st) infos then restart_loop steps positions outcome m else (m, Value outcome)
      end
  end.

Definition restartToState (positions : list Z) (target : Z) (m : manager) : manager * expected StateError RestartOutcome :=
  restart_loop (restart_steps target) positions (mk_outcome kInit []) m.

(** ** The expected working counter *)
Definition wkc_of (status : Z) (d : dev) : Z := workingCounterContribution status (0 <? outputBits d) (0 <? inputBits d).

(** What the devices answer when each has the AL status [st] gives. *)
Definition answered (st : Z -> Z) (ds : list dev) : Z := foldl (fun n d => n + wkc_of (st (position d)) d) 0 ds.

Lemma foldl_le {A} (f g : A -> Z) l n k : n <= k -> (forall a, a ∈ l -> f a <= g a) ->
  foldl (fun n a => n + f a) n l <= foldl (fun n a => n + g a) k l.
Proof.
  revert n k. induction l as [|a l IH]; intros n k Hn Hl; cbn; [done|]. apply IH.
  - pose proof (Hl a ltac:(left)). lia.
  - intros x Hx. apply Hl. by right.
Qed.

Lemma foldl_same {A} (f g : A -> Z) l n : (forall a, a ∈ l -> f a = g a) ->
  foldl (fun n a => n + f a) n l = foldl (fun n a => n + g a) n l.
Proof.
  revert n. induction l as [|a l IH]; intros n Hl; cbn; [done|]. rewrite (Hl a) by left. apply IH. intros x Hx. apply Hl. by right.
Qed.

(** The expectation stored before a transition is never more than the bus then answers, at any moment of it: each device
    commanded still has its old status or already has the target's, the others keep theirs, and in every such mixture the sum
    of what the devices add is at least the stored value. Storing it never raises the expectation; and the value stored after
    the transition is exactly what the devices then add. *)
Theorem expected_wkc_sound m b ps t st : driver m = Some b ->
  (forall p, st p = drv_slaveState p b \/ (contains ps p = true /\ st p = t)) ->
  expectedWkc (lowerExpectedWkc m ps t) <= answered st (devices m) /\
  expectedWkc (lowerExpectedWkc m ps t) <= expectedWkc m /\
  expectedWkc (updateExpectedWkc m) = answered (fun p => drv_slaveState p b) (devices m).
Proof.
  intros Hb Hst.
  assert (Hd : expectedWkcDuring m ps (Some t) <= answered st (devices m)).
  { unfold expectedWkcDuring, answered. rewrite Hb. apply foldl_le; [done|]. intros d _. unfold contribution, wkc_of.
    destruct (Hst (position d)) as [->|[-> ->]]; [destruct (contains ps (position d)); lia|lia]. }
  split_and!.
  - unfold lowerExpectedWkc. destruct (Z.ltb_spec (expectedWkcDuring m ps (Some t)) (expectedWkc m)); cbn; lia.
  - unfold lowerExpectedWkc. destruct (Z.ltb_spec (expectedWkcDuring m ps (Some t)) (expectedWkc m)); cbn; lia.
  - cbn. unfold expectedWkcDuring, answered. by rewrite Hb.
Qed.

(** ** What a transition asks of the bus *)
Lemma lower_fields m ps t : log (lowerExpectedWkc m ps t) = log m /\ devices (lowerExpectedWkc m ps t) = devices m /\
  driver (lowerExpectedWkc m ps t) = driver m /\ published (lowerExpectedWkc m ps t) = published m /\
  readOnPreop (lowerExpectedWkc m ps t) = readOnPreop m.
Proof. unfold lowerExpectedWkc. by destruct (_ <? _). Qed.

Lemma remap_log m b m' r : remapProcessImage m b = (m', r) -> log m' = log m ++ [EvRemap].
Proof.
  unfold remapProcessImage. destruct (negb (mp_drained b)); [by intros [= <- _]|]. destruct (mp_mapOnce _ _) as [[b1 ds1] r1].
  destruct (map_again _ _ _ _) as [[b2 ds2] [u|e]]; by intros [= <- _].
Qed.

(** The events of entering an exchange state. *)
Lemma enter_exchange_log m b targets un m' r : enter_exchange m b targets un = (m', r) ->
  exists evs, log m' = log m ++ evs /\
    let stayers := opStayers m b targets in
    (evs = [] \/
     (stayers = [] /\ evs = [EvRemap]) \/
     (stayers <> [] /\ exists tail, evs = [EvTransition stayers None kSafeOp; EvRemap] ++ tail /\
        (r = Value tt -> tail = [EvTransition stayers (Some kSafeOp) kOp]) /\ (tail = [] \/ tail = [EvTransition stayers (Some kSafeOp) kOp]))).
Proof.
  unfold enter_exchange. destruct (negb (published m) || _); [|intros [= <- _]; exists []; rewrite app_nil_r; eauto].
  destruct (opStayers m b targets) as [|p ps] eqn:Es.
  - destruct (remapProcessImage m (bus_of m b)) as [m1 [u|e]] eqn:Er; intros [= <- _]; apply remap_log in Er;
      exists [EvRemap]; split; auto.
  - set (st := p :: ps) in *. destruct (remapProcessImage _ _) as [m1 [u|e]] eqn:Er; intros [= <- <-]; apply remap_log in Er; cbn in Er;
      rewrite (proj1 (lower_fields m st kSafeOp)) in Er.
    + exists [EvTransition st None kSafeOp; EvRemap; EvTransition st (Some kSafeOp) kOp]. cbn. rewrite Er, <- !app_assoc.
      split; [done|]. right; right. split; [done|]. eexists. split_and!; [done|done|by right].
    + exists [EvTransition st None kSafeOp; EvRemap]. cbn. rewrite Er, <- !app_assoc. split; [done|]. right; right. split; [done|].
      exists []. split_and!; [done|done|by left].
Qed.

Definition about (targets : list Z) (e : event) : Prop :=
  match e with EvReconcile p | EvDictionary p => p ∈ targets | _ => False end.

(** The steps that follow the read-back add only reconciliations and dictionary reads of targets. *)
Lemma foldl_log {A} (f : manager -> A -> manager) (P : event -> Prop) (l : list A) m :
  (forall m a, a ∈ l -> exists evs, log (f m a) = log m ++ evs /\ Forall P evs) ->
  exists evs, log (foldl f m l) = log m ++ evs /\ Forall P evs.
Proof.
  revert m. induction l as [|a l IH]; intros m Hf; cbn; [exists []; by rewrite app_nil_r|].
  destruct (Hf m a ltac:(left)) as (e1 & E1 & P1). destruct (IH (f m a)) as (e2 & E2 & P2).
  { intros m' x Hx. apply Hf. by right. }
  exists (e1 ++ e2). rewrite E2, E1, app_assoc. split; [done|by apply Forall_app].
Qed.

Lemma command_log m b targets target m' r : command m b targets target = (m', r) ->
  exists evs, log m' = log m ++ EvTransition targets None target :: evs /\ Forall (about targets) evs.
Proof.
  unfold command. destruct (sd_readStates _ _) as [b1 [raws|e]]; intros [= <- _]; cbn [log with_bus transition logged];
    rewrite ?(proj1 (lower_fields m targets target)); [|exists []; done].
  set (m1 := updateExpectedWkc _). assert (E1 : log m1 = log m ++ [EvTransition targets None target]).
  { cbn. by rewrite (proj1 (lower_fields m targets target)). }
  assert (H2 : exists evs, log (if target =? kPreOp then foldl (fun m i => reconcile_one m b1 i) m1 (zip_with decodeState targets raws) else m1)
      = log m1 ++ evs /\ Forall (about targets) evs).
  { destruct (target =? kPreOp); [|exists []; by rewrite app_nil_r]. apply foldl_log. intros m2 i Hi.
    unfold reconcile_one. destruct (error i || _); [exists []; by rewrite app_nil_r|].
    destruct (find_device _ _); [|exists []; by rewrite app_nil_r]. exists [EvReconcile (slavePosition i)]. cbn. split; [done|].
    repeat constructor. cbn. apply elem_of_lookup_zip_with in Hi as (k & p & raw & -> & Hp & _). cbn. by eapply list_elem_of_lookup_2. }
  destruct H2 as (e2 & E2 & P2). set (m2 := if target =? kPreOp then _ else m1) in *.
  assert (H3 : exists evs, log (readMissingObjectDictionaries m2 b1 targets) = log m2 ++ evs /\ Forall (about targets) evs).
  { unfold readMissingObjectDictionaries. destruct (negb _); [exists []; by rewrite app_nil_r|]. apply foldl_log. intros m3 p Hp.
    unfold read_dictionary. destruct (find_device _ _); [|exists []; by rewrite app_nil_r].
    destruct (_ || _); [exists []; by rewrite app_nil_r|]. destruct (parametersUnavailable _); [exists []; by rewrite app_nil_r|].
    destruct (mp_initializeParameters _ _) as [b3 ok]. exists [EvDictionary p]. cbn. split; [done|]. by repeat constructor. }
  destruct H3 as (e3 & E3 & P3). exists (e2 ++ e3). rewrite E3, E2, E1, <- !app_assoc. split; [done|]. by apply Forall_app.
Qed.

Lemma find_device_Some ds p d : find_device ds p = Some d -> d ∈ ds /\ position d = p.
Proof. intros Hf. apply find_some in Hf as [Hin Hp]. split; [by apply list_elem_of_In|by apply Z.eqb_eq in Hp]. Qed.

Lemma resolve_known m positions targets : resolveTargets m positions = Value targets ->
  forall p, p ∈ targets -> p ∈ position <$> devices m.
Proof.
  unfold resolveTargets. destruct positions as [|q qs]; [by intros [= <-]|].
  destruct (List.find _ (q :: qs)) as [x|] eqn:E; [done|]. intros [= <-] p Hp.
  pose proof (find_none _ _ E p ltac:(by apply list_elem_of_In)) as Hn. cbn in Hn.
  destruct (find_device (devices m) p) as [d|] eqn:Ed; [|done]. apply find_device_Some in Ed as [Hd <-]. by apply list_elem_of_fmap_2.
Qed.

Lemma validate_legal l target us : validate l target = Value us ->
  forall p raw, (p, raw) ∈ l -> reachability raw = Answering -> isValidStateTransition (alState (alStatus raw)) target = true.
Proof.
  revert us. induction l as [|[q rw] l IH]; intros us E p raw Hin Ha; [by apply not_elem_of_nil in Hin|]. cbn in E.
  apply elem_of_cons in Hin. case_bool_decide as Hr.
  - destruct (validate l target) as [us'|] eqn:Ev; [|done]. destruct Hin as [[= -> ->]|Hin]; [done|eauto].
  - destruct (isValidStateTransition (alState (alStatus rw)) target) eqn:Ei; [|done]. cbn in E.
    destruct Hin as [[= -> ->]|Hin]; [done|eauto].
Qed.

Lemma valid_into_exchange c t : isValidStateTransition c t = true -> t = kSafeOp \/ t = kOp -> c = kPreOp \/ c = kSafeOp \/ c = kOp.
Proof.
  unfold isValidStateTransition, kValidStateTransitions. cbn [List.find fst]. intros Hv Ht.
  destruct (Z.eqb_spec kInit c) as [<-|_]; [by destruct Ht as [-> | ->]|]. destruct (Z.eqb_spec kPreOp c) as [<-|_]; [by left|].
  destruct (Z.eqb_spec kSafeOp c) as [<-|_]; [by right; left|]. destruct (Z.eqb_spec kOp c) as [<-|_]; [by right; right|].
  destruct (Z.eqb_spec kBoot c) as [<-|_]; [by destruct Ht as [-> | ->]|done].
Qed.

Lemma stayers_known m b targets p : p ∈ opStayers m b targets -> p ∈ position <$> devices m /\ alState (drv_slaveState p b) = kOp.
Proof.
  unfold opStayers. intros (d & -> & Hd)%list_elem_of_fmap. apply list_elem_of_In, filter_In in Hd as [Hd Hp].
  apply andb_prop in Hp as [_ Hp%Z.eqb_eq]. split; [|done]. apply list_elem_of_fmap_2. by apply list_elem_of_In.
Qed.

(** What [transitionToState] may have asked of the bus, given what it read of its targets. *)
Record asked (m : manager) (b1 : B) (targets : list Z) (states : list SlaveStateRaw) (target : Z) (evs : list event) : Prop := {
  as_legal : forall p raw, (p, raw) ∈ zip targets states -> reachability raw = Answering ->
    isValidStateTransition (alState (alStatus raw)) target = true;
  as_mailbox : EvRemap ∈ evs -> forall p raw, (p, raw) ∈ zip targets states -> reachability raw = Answering ->
    alState (alStatus raw) = kPreOp \/ alState (alStatus raw) = kSafeOp \/ alState (alStatus raw) = kOp;
  as_known : forall ps req t p, EvTransition ps req t ∈ evs -> p ∈ ps -> p ∈ position <$> devices m;
  as_stayers : EvRemap ∈ evs -> let stayers := opStayers m b1 targets in
    stayers = [] \/ exists tail, evs = EvTransition stayers None kSafeOp :: EvRemap :: tail /\
                      (tail = [] \/ exists rest, tail = EvTransition stayers (Some kSafeOp) kOp :: rest) }.

Lemma about_not_transition targets evs ps req t : Forall (about targets) evs -> ~ EvTransition ps req t ∈ evs.
Proof. intros Hf Hin. by eapply Forall_forall in Hf; [|exact Hin]. Qed.

Lemma about_not_remap targets evs : Forall (about targets) evs -> ~ EvRemap ∈ evs.
Proof. intros Hf Hin. by eapply Forall_forall in Hf; [|exact Hin]. Qed.

Lemma command_asked m m0 b b1 targets states target us pre m' r :
  log m0 = log m ++ pre -> pre = [] \/ pre = [EvStop] ->
  validate (zip targets states) target = Value us -> (forall p, p ∈ targets -> p ∈ position <$> devices m) ->
  command m0 b targets target = (m', r) -> exists evs, log m' = log m ++ evs /\ asked m b1 targets states target evs.
Proof.
  intros Hlog Hpre Hv Hknown Hc. apply command_log in Hc as (post & Hl & Hpost).
  exists (pre ++ EvTransition targets None target :: post). rewrite Hl, Hlog, <- app_assoc. split; [done|].
  assert (Hnr : ~ EvRemap ∈ pre ++ EvTransition targets None target :: post).
  { rewrite elem_of_app, elem_of_cons. intros [Hin|[Hin|Hin]]; [|done|by eapply about_not_remap in Hpost].
    destruct Hpre as [-> | ->]; rewrite ?elem_of_cons, elem_of_nil in Hin; by destruct_or?. }
  split; [by eapply validate_legal|done| |done].
  intros ps req t p Hin Hp. rewrite elem_of_app, elem_of_cons in Hin.
  destruct Hin as [Hin|[[= -> -> ->]|Hin]]; [|by apply Hknown|by eapply about_not_transition in Hpost].
  destruct Hpre as [-> | ->]; rewrite ?elem_of_cons, elem_of_nil in Hin; by destruct_or?.
Qed.

Lemma exchange_asked m b1 targets states target us m1 r1 :
  target = kSafeOp \/ target = kOp ->
  validate (zip targets states) target = Value us -> (forall p, p ∈ targets -> p ∈ position <$> devices m) ->
  enter_exchange m b1 targets us = (m1, r1) ->
  exists evs, log m1 = log m ++ evs /\ forall post, Forall (about targets) post ->
    asked m b1 targets states target (if r1 is Value _ then evs ++ EvTransition targets None target :: post else evs).
Proof.
  intros Ht Hv Hknown He. apply enter_exchange_log in He as (evs & Hl & Hshape). exists evs. split; [done|]. intros post Hpost.
  pose proof (validate_legal _ _ _ Hv) as Hlegal. cbn in Hshape. split; [done| | |].
  - intros _ p raw Hin Ha. eapply valid_into_exchange; [by eapply Hlegal|done].
  - intros ps req t p Hin Hp.
    assert (Hin' : EvTransition ps req t ∈ evs \/ EvTransition ps req t = EvTransition targets None target).
    { destruct r1; [|by left]. rewrite elem_of_app, elem_of_cons in Hin. destruct Hin as [?|[?|Hin]]; [by left|by right|].
      by eapply about_not_transition in Hpost. }
    destruct Hin' as [Hin'|[= -> _ _]]; [|by apply Hknown].
    assert (ps = opStayers m b1 targets) as ->; [|by apply (stayers_known m b1 targets)].
    destruct Hshape as [->|[[_ ->]|(_ & tail & -> & _ & [-> | ->])]]; rewrite ?elem_of_app, ?elem_of_cons, ?elem_of_nil in Hin'; by naive_solver.
  - intros Hin. destruct Hshape as [->|[[Es _]|(Hs & tail & -> & Hval & Htail)]]; [|by left|right].
    + exfalso. destruct r1; [|by apply not_elem_of_nil in Hin]. cbn in Hin. apply elem_of_cons in Hin as [?|Hin]; [done|].
      by eapply about_not_remap in Hpost.
    + destruct r1 as [[]|e]; [|exists tail; split; [done|destruct Htail; eauto]]. rewrite (Hval eq_refl).
      eexists. split; [done|]. right. eauto.
Qed.

End Manager.

(** ** A bus that follows the state machine

    Devices that answer, take every legal transition and refuse an illegal one with the error flag, and keep what is written to
    them. A re-map of such a bus works, and so does the reading of a dictionary. *)
Record sim := mk_sim { al : gmap Z Z; od : gmap (Z * Z * Z) bytes }.

Definition status_of (b : sim) (p : Z) : Z := default 0 (al b !! p).

Definition sim_step (required : option Z) (target : Z) (b : sim) (p : Z) : sim :=
  match al b !! p with
  | None => b
  | Some s =>
      if match required with Some r => negb (alState s =? r) | None => false end then b
      else mk_sim (<[p := if isValidStateTransition (alState s) target then target else Z.lor s 16]> (al b)) (od b)
  end.

#[export] Instance sim_fieldbus : FieldbusDriver sim := {
  drv_readSdo p i sub b := (b, match od b !! (p, i, sub) with Some l => Value l | None => Unexpected [] end);
  drv_writeSdo p i sub l b := (mk_sim (al b) (<[(p, i, sub) := l]> (od b)), Value tt);
  drv_readSii _ b := (b, Unexpected []);
  drv_slaveState p b := status_of b p;
}.

#[export] Instance sim_states : StateDriver sim := {
  sd_refusal _ := None;
  sd_readStates ps b := (b, Value ((fun p => mk_raw (status_of b p) 0 (match al b !! p with Some _ => Answering | None => NotAnswering end)) <$> ps));
  sd_transition ps required target b := foldl (sim_step required target) b ps;
}.

#[export] Instance sim_mapper : Mapper sim := {
  mp_drained _ := true;
  mp_mapOnce b ds := (b, ds, Value tt);
  mp_initializeParameters _ b := (b, true);
}.

Definition al_states : list Z := [kInit; kPreOp; kBoot; kSafeOp; kOp].

Lemma valid_self t : t ∈ al_states -> isValidStateTransition t t = true /\ alState t = t /\ alHasError t = false.
Proof. unfold al_states. rewrite !elem_of_cons, elem_of_nil. by intros [->|[->|[->|[->|[->|[]]]]]]. Qed.

(** The effect of a command on the devices it names, and on the others. *)
Lemma sim_transition_targets ps t b : t ∈ al_states ->
  (forall p, p ∈ ps -> is_Some (al b !! p) /\ isValidStateTransition (alState (status_of b p)) t = true) ->
  forall p, p ∈ ps -> al (foldl (sim_step None t) b ps) !! p = Some t.
Proof.
  intros Ht. revert b. induction ps as [|q ps IH]; intros b Hps p Hp; [by apply not_elem_of_nil in Hp|]. cbn.
  assert (Eq : al (sim_step None t b q) = <[q := t]> (al b)).
  { destruct (Hps q ltac:(left)) as [[s Hs] Hv]. unfold sim_step, status_of in *. rewrite Hs in *. cbn in Hv. by rewrite Hv. }
  assert (Hkeep : forall b', al b' !! p = Some t -> al (foldl (sim_step None t) b' ps) !! p = Some t).
  { clear -Ht. induction ps as [|x ps IH]; intros b' Hb'; cbn; [done|]. apply IH. unfold sim_step.
    destruct (al b' !! x) as [s|] eqn:Hx; [|done]. cbn. destruct (decide (x = p)) as [->|Hne]; [|by rewrite lookup_insert_ne].
    rewrite lookup_insert_eq. destruct (valid_self t Ht) as (Hv & Ha & _). simplify_eq. by rewrite Ha, Hv. }
  apply elem_of_cons in Hp as [->|Hp]; [apply Hkeep; by rewrite Eq, lookup_insert_eq|].
  apply IH; [|done]. intros x Hx. unfold status_of. rewrite Eq. destruct (decide (q = x)) as [->|Hne].
  - rewrite lookup_insert_eq. cbn. destruct (valid_self t Ht) as (Hv & Ha & _). rewrite Ha. eauto.
  - rewrite lookup_insert_ne by done. apply Hps. by right.
Qed.

Lemma sim_transition_others ps req t b p : p ∉ ps -> al (foldl (sim_step req t) b ps) !! p = al b !! p.
Proof.
  revert b. induction ps as [|q ps IH]; intros b Hp; [done|]. cbn. apply not_elem_of_cons in Hp as [Hne Hp]. rewrite IH by done.
  unfold sim_step. destruct (al b !! q) as [s|]; [|done]. destruct (match req with Some _ => _ | None => _ end); [done|]. cbn.
  by rewrite lookup_insert_ne.
Qed.

Lemma sim_transition_dom ps req t b p : is_Some (al (foldl (sim_step req t) b ps) !! p) <-> is_Some (al b !! p).
Proof.
  revert b. induction ps as [|q ps IH]; intros b; [done|]. cbn. rewrite IH. unfold sim_step.
  destruct (al b !! q) as [s|] eqn:Hq; [|done]. destruct (match req with Some _ => _ | None => _ end); [done|]. cbn.
  destruct (decide (q = p)) as [->|Hne]; [rewrite lookup_insert_eq, Hq; split; eauto|by rewrite lookup_insert_ne].
Qed.

(** A climb restricted to the devices in SAFE-OP, when all of them are. *)
Lemma sim_climb ps b : (forall p, p ∈ ps -> al b !! p = Some kSafeOp \/ al b !! p = Some kOp) ->
  forall p, p ∈ ps -> al (foldl (sim_step (Some kSafeOp) kOp) b ps) !! p = Some kOp.
Proof.
  revert b. induction ps as [|q ps IH]; intros b Hps p Hp; [by apply not_elem_of_nil in Hp|]. cbn.
  assert (Eq : al (sim_step (Some kSafeOp) kOp b q) = <[q := kOp]> (al b)).
  { unfold sim_step. destruct (Hps q ltac:(left)) as [Eq|Eq]; rewrite Eq; [done|].
    change (negb (alState kOp =? kSafeOp)) with true. cbn [negb]. by rewrite insert_id. }
  destruct (decide (p ∈ ps)) as [Hin|Hn].
  - apply IH; [|done]. intros x Hx. rewrite Eq. destruct (decide (q = x)) as [->|Hne]; [rewrite lookup_insert_eq; auto|].
    rewrite lookup_insert_ne by done. apply Hps. by right.
  - rewrite sim_transition_others by done. apply elem_of_cons in Hp as [->|Hp]; [|done]. by rewrite Eq, lookup_insert_eq.
Qed.

(** ** Modules of such a bus *)
Definition detected (b : sim) (pos sub : Z) (d : bytes) : Prop :=
  od b !! (pos, kDetectedModuleIdentList, sub) = Some d /\ length d = 4%nat /\ forallb (Z.eqb 0) d = false.

Lemma reconcile_slot_spec pos sub b : let '(b', w, f) := reconcile_slot pos sub b in
  f = None /\ (forall k, k <> (pos, kConfiguredModuleIdentList, sub) -> od b' !! k = od b !! k) /\
  (forall d, detected b pos sub d -> od b' !! (pos, kConfiguredModuleIdentList, sub) = Some d) /\
  ((forall d, detected b pos sub d -> od b !! (pos, kConfiguredModuleIdentList, sub) = Some d) -> w = 0).
Proof.
  unfold reconcile_slot, detected. cbn. destruct (od b !! (pos, kDetectedModuleIdentList, sub)) as [d|] eqn:Ed.
  2: { split_and!; try done. by intros d (? & _). }
  destruct (length d =? 4)%nat eqn:El; cbn; [|split_and!; try done; intros d' (E & H4 & _); simplify_eq; by rewrite H4 in El].
  destruct (forallb (Z.eqb 0) d) eqn:Ef; [split_and!; try done; intros d' (E & _ & Hf); simplify_eq; congruence|].
  destruct (od b !! (pos, kConfiguredModuleIdentList, sub)) as [c|] eqn:Ec; cbn; [case_bool_decide as Hc|].
  - subst c. split_and!; try done. intros d' (E & _). by simplify_eq.
  - split_and!; [done|intros k Hk; cbn; by rewrite lookup_insert_ne|intros d' (E & _); simplify_eq; cbn; by rewrite lookup_insert_eq|].
    intros Hd. exfalso. specialize (Hd d ltac:(split_and!; [done|by apply Nat.eqb_eq|done])). congruence.
  - split_and!; [done|intros k Hk; cbn; by rewrite lookup_insert_ne|intros d' (E & _); simplify_eq; cbn; by rewrite lookup_insert_eq|].
    intros Hd. exfalso. by specialize (Hd d ltac:(split_and!; [done|by apply Nat.eqb_eq|done])).
Qed.

Lemma reconcile_slots_spec pos subs : forall b, let '(b', ws, fs) := reconcile_slots pos subs b in
  fs = [] /\ (forall k, (forall sub, sub ∈ subs -> k <> (pos, kConfiguredModuleIdentList, sub)) -> od b' !! k = od b !! k) /\
  (forall sub d, sub ∈ subs -> detected b pos sub d -> od b' !! (pos, kConfiguredModuleIdentList, sub) = Some d) /\
  ((forall sub d, sub ∈ subs -> detected b pos sub d -> od b !! (pos, kConfiguredModuleIdentList, sub) = Some d) -> ws = 0).
Proof.
  induction subs as [|sub subs IH]; intros b; cbn [reconcile_slots].
  { split_and!; try done. intros sub d Hs. by apply not_elem_of_nil in Hs. }
  pose proof (reconcile_slot_spec pos sub b) as Hs. destruct (reconcile_slot pos sub b) as [[b1 w] f]. destruct Hs as (-> & Ho & Hd & Hw).
  specialize (IH b1). destruct (reconcile_slots pos subs b1) as [[b2 ws] fs]. destruct IH as (-> & Ho' & Hd' & Hw').
  assert (Hdet : forall x d, detected b pos x d -> detected b1 pos x d) by (intros x d (E & ?); split; [rewrite Ho; [exact E|by intros [=]]|done]).
  split_and!; [done| | |].
  - intros k Hk. rewrite Ho' by (intros x Hx; apply Hk; by right). apply Ho. apply Hk. left.
  - intros x d Hx Hdx. destruct (decide (x ∈ subs)) as [Hin|Hn]; [by apply Hd', Hdet|].
    apply elem_of_cons in Hx as [->|?]; [|done]. rewrite Ho'; [by apply Hd|]. intros y Hy [= ->]. done.
  - intros Hall. rewrite Hw, Hw'; [done| |intros d; apply Hall; left]. intros x d Hx Hdx.
    assert (Hdb : detected b pos x d) by (destruct Hdx as (E & ?); split; [rewrite <- (Ho (pos, kDetectedModuleIdentList, x)); [exact E|by intros [=]]|done]).
    destruct (decide (x = sub)) as [->|Hne]; [by apply Hd|]. rewrite Ho by (intros [= ?]; done). apply Hall; [by right|done].
Qed.

(** Reconciling makes every detected module the configured one, touches nothing else, and a second time has nothing to write. *)
Theorem reconcile_idempotent pos b l : od b !! (pos, kDetectedModuleIdentList, 0) = Some l ->
  exists b' w, reconcileDetectedModules pos b = (b', Value w) /\
    (forall sub d, 1 <= sub <= Z.min (decodeEntryCount l) 255 -> detected b pos sub d -> od b' !! (pos, kConfiguredModuleIdentList, sub) = Some d) /\
    (forall p i sub, p <> pos \/ i <> kConfiguredModuleIdentList -> od b' !! (p, i, sub) = od b !! (p, i, sub)) /\
    (reconcileDetectedModules pos b').2 = Value 0.
Proof.
  intros Hl. unfold reconcileDetectedModules. cbn [drv_readSdo sd_driver sim_states sim_fieldbus]. rewrite Hl. set (subs := seqZ 1 _).
  pose proof (reconcile_slots_spec pos subs b) as Hs. destruct (reconcile_slots pos subs b) as [[b' w] fs]. destruct Hs as (-> & Ho & Hd & _).
  exists b', w. split; [done|].
  assert (Hsame : forall p i sub, p <> pos \/ i <> kConfiguredModuleIdentList -> od b' !! (p, i, sub) = od b !! (p, i, sub)).
  { intros p i sub Hne. apply Ho. intros x _ [= -> -> _]. by destruct Hne. }
  split_and!; [intros sub d Hsub; apply Hd; unfold subs; apply elem_of_seqZ; lia|done|].
  rewrite Hsame, Hl by (by right). fold subs. pose proof (reconcile_slots_spec pos subs b') as Hs.
  destruct (reconcile_slots pos subs b') as [[b2 w2] fs2]. destruct Hs as (-> & _ & _ & Hw). cbn. rewrite Hw; [done|].
  intros sub d Hsub (E & H4 & Hz). apply Hd; [done|]. split; [|done]. rewrite <- Hsame; [done|by right].
Qed.

(** ** Transitions and restarts of such a bus *)
Abbreviation sim_manager := (@manager sim).

(** The devices of the manager are the devices of the bus, each in some state of the machine. *)
Record on_bus (m : sim_manager) (b : sim) : Prop := {
  ob_driver : driver m = Some b;
  ob_some : devices m <> [];
  ob_states : forall d, d ∈ devices m -> exists s, al b !! position d = Some s /\ alState s ∈ al_states }.

Definition same_state (b b' : sim) (p : Z) : Prop := alState (status_of b' p) = alState (status_of b p).

(** Two managers whose buses hold the same states and whose devices hold the same positions. *)
Definition positions_of (m : sim_manager) : list Z := position <$> devices m.

Lemma on_bus_al m m' b b' : on_bus m b -> driver m' = Some b' -> positions_of m' = positions_of m ->
  (forall p, p ∈ positions_of m -> exists s, al b' !! p = Some s /\ alState s ∈ al_states) -> on_bus m' b'.
Proof.
  intros [H1 H2 H3] Hd Hp Hs. split; [done| |].
  - intros E. unfold positions_of in Hp. rewrite E in Hp. destruct (devices m); [done|discriminate].
  - intros d Hd'. apply Hs. rewrite <- Hp. by apply list_elem_of_fmap_2.
Qed.

(** Entering an exchange state on such a bus changes no state in the end: the devices that stay in OP come back to it. *)
Lemma sim_enter_exchange m b targets un : on_bus m b -> exists m' b',
  enter_exchange m b targets un = (m', Value tt) /\ driver m' = Some b' /\ positions_of m' = positions_of m /\ readOnPreop m' = readOnPreop m /\
  (forall p, contains targets p = true -> al b' !! p = al b !! p) /\
  (forall p, al b' !! p = al b !! p \/ (alState (status_of b p) = kOp /\ al b' !! p = Some kOp)).
Proof.
  intros Hb. unfold enter_exchange. destruct (negb (published m) || _); [|exists m, b; split_and!; try done; [apply Hb|auto]].
  pose proof (lower_fields m (opStayers m b targets) kSafeOp) as (_ & Hd & Hdr & _ & Hro).
  assert (Hst : forall p, p ∈ opStayers m b targets -> alState (status_of b p) = kOp /\ is_Some (al b !! p) /\ contains targets p = false).
  { intros p Hp. destruct (stayers_known m b targets p Hp) as [Hk Hs]. split; [exact Hs|]. split.
    - apply list_elem_of_fmap in Hk as (d & -> & Hdd). destruct (ob_states _ _ Hb d Hdd) as (s & Hs' & _). eauto.
    - unfold opStayers in Hp. apply list_elem_of_fmap in Hp as (d & -> & Hdd). apply list_elem_of_In, filter_In in Hdd as [_ Hx].
      apply andb_prop in Hx as [Hx%negb_true_iff _]. done. }
  destruct (opStayers m b targets) as [|q qs] eqn:Es.
  - unfold bus_of. rewrite (ob_driver _ _ Hb). cbn. eexists _, b. split_and!; [done..|auto].
  - set (st := q :: qs) in *. cbn [bus_of driver transition with_bus default].
    set (b1 := foldl (sim_step None kSafeOp) b st). set (b2 := foldl (sim_step (Some kSafeOp) kOp) b1 st).
    assert (H1 : forall p, p ∈ st -> al b1 !! p = Some kSafeOp).
    { apply sim_transition_targets; [by repeat constructor|]. intros p Hp. destruct (Hst p Hp) as (E & ? & _). by rewrite E. }
    assert (H2 : forall p, p ∈ st -> al b2 !! p = Some kOp) by (apply sim_climb; intros p Hp; left; by apply H1).
    assert (H3 : forall p, p ∉ st -> al b2 !! p = al b !! p).
    { intros p Hp. unfold b2, b1. by rewrite !sim_transition_others by done. }
    eexists _, b2. split_and!; [cbn; reflexivity|done| | | |].
    + unfold positions_of. cbn. by rewrite Hd.
    + cbn. done.
    + intros p Hp. apply H3. intros Hin. destruct (Hst p Hin) as (_ & _ & Hc). congruence.
    + intros p. destruct (decide (p ∈ st)) as [Hin|Hn]; [right|left; by apply H3]. split; [by apply Hst|by apply H2].
Qed.

(** What the steps after the read-back leave alone. *)
Definition holds (m : sim_manager) (A : gmap Z Z) (P : list Z) : Prop :=
  positions_of m = P /\ exists b, driver m = Some b /\ al b = A.

Lemma reconcile_slot_al pos sub (b : sim) : al (reconcile_slot pos sub b).1.1 = al b.
Proof.
  unfold reconcile_slot. cbn. destruct (od b !! _) as [d|]; [|done]. destruct (negb _); [done|]. destruct (forallb _ _); [done|].
  destruct (match _ with Value c => _ | Unexpected _ => _ end); done.
Qed.

Lemma reconcile_slots_al pos subs (b : sim) : al (reconcile_slots pos subs b).1.1 = al b.
Proof.
  revert b. induction subs as [|sub subs IH]; intros b; [done|]. cbn [reconcile_slots]. pose proof (reconcile_slot_al pos sub b) as E.
  destruct (reconcile_slot pos sub b) as [[b1 w] f]. specialize (IH b1). destruct (reconcile_slots pos subs b1) as [[b2 ws] fs].
  cbn in *. congruence.
Qed.

Lemma reconcile_al pos (b : sim) : al (reconcileDetectedModules pos b).1 = al b.
Proof.
  unfold reconcileDetectedModules. cbn. destruct (od b !! _) as [l|]; [|done].
  pose proof (reconcile_slots_al pos (seqZ 1 (Z.min (decodeEntryCount l) 255)) b) as E.
  destruct (reconcile_slots _ _ _) as [[b1 w] [|f fs]]; done.
Qed.

Lemma reconcile_one_holds m b i A P : holds m A P -> holds (reconcile_one m b i) A P.
Proof.
  intros (Hp & b0 & Hd & Ha). unfold reconcile_one. destruct (error i || _); [by split; eauto|].
  destruct (find_device _ _); [|by split; eauto]. split; [done|]. eexists. split; [done|]. unfold bus_of. rewrite Hd. cbn [default].
  by rewrite reconcile_al.
Qed.

Lemma set_device_positions ds pos f : (forall d, position (f d) = position d) -> position <$> set_device ds pos f = position <$> ds.
Proof.
  intros Hf. unfold set_device. rewrite <- list_fmap_compose. apply list_fmap_ext. intros _ d _. cbn.
  destruct (position d =? pos); [apply Hf|done].
Qed.

Lemma read_dictionary_holds m b p A P : holds m A P -> holds (read_dictionary m b p) A P.
Proof.
  intros (Hp & b0 & Hd & Ha). unfold read_dictionary. destruct (find_device _ _) as [d|]; [|by split; eauto].
  destruct (_ || _); [by split; eauto|]. destruct (parametersUnavailable d); [by split; eauto|]. cbn. split.
  - unfold positions_of. cbn. by rewrite set_device_positions.
  - eexists. split; [done|]. unfold bus_of. by rewrite Hd.
Qed.

Lemma sim_command m b targets t : driver m = Some b -> t ∈ al_states ->
  (forall p, p ∈ targets -> is_Some (al b !! p) /\ isValidStateTransition (alState (status_of b p)) t = true) ->
  exists m' infos b', command m b targets t = (m', Value infos) /\ driver m' = Some b' /\ positions_of m' = positions_of m /\
    length infos = length targets /\ Forall (fun i => reached t i = true) infos /\
    (forall p, p ∈ targets -> al b' !! p = Some t) /\ (forall p, p ∉ targets -> al b' !! p = al b !! p).
Proof.
  intros Hd Ht Hv. set (b1 := foldl (sim_step None t) b targets).
  pose proof (sim_transition_targets _ _ _ Ht Hv) as Htg. fold b1 in Htg.
  pose proof (lower_fields m targets t) as (_ & Hds & _).
  unfold command, bus_of, transition. rewrite Hd.
  cbn [from_option driver with_bus sd_transition sim_states sd_readStates]. unfold id. fold b1.
  set (infos := zip_with decodeState targets _). set (m1 := updateExpectedWkc _).
  assert (H1 : holds m1 (al b1) (positions_of m)) by (split; [unfold positions_of; cbn; by rewrite Hds|by exists b1]).
  assert (H2 : holds (if t =? kPreOp then foldl (fun m i => reconcile_one m b1 i) m1 infos else m1) (al b1) (positions_of m)).
  { destruct (t =? kPreOp); [|done]. apply foldl_invariant; [done|]. intros a i. apply reconcile_one_holds. }
  set (m2 := if t =? kPreOp then _ else m1) in *.
  assert (H3 : holds (readMissingObjectDictionaries m2 b1 targets) (al b1) (positions_of m)).
  { unfold readMissingObjectDictionaries. destruct (negb _); [done|]. apply foldl_invariant; [done|]. intros a p. apply read_dictionary_holds. }
  destruct H3 as (Hp & b' & Hd' & Ha). eexists _, infos, b'. split_and!; [done..| | | |].
  - unfold infos. rewrite length_zip_with, length_fmap. lia.
  - unfold infos. apply Forall_forall. intros i (k & p & raw & -> & Hk & Hraw)%elem_of_lookup_zip_with.
    rewrite list_lookup_fmap, Hk in Hraw. injection Hraw as <-.
    assert (Es : status_of b1 p = t) by (unfold status_of; rewrite (Htg p); [done|by eapply list_elem_of_lookup_2]).
    unfold reached. cbn [error i_alState decodeState alStatus]. rewrite Es. destruct (valid_self t Ht) as (_ & -> & ->). cbn.
    apply Z.eqb_refl.
  - intros p Hin. rewrite Ha. by apply Htg.
  - intros p Hn. rewrite Ha. by apply sim_transition_others.
Qed.

Lemma sim_validate (b : sim) ps t :
  (forall p, p ∈ ps -> is_Some (al b !! p) /\ isValidStateTransition (alState (status_of b p)) t = true) ->
  validate (zip ps ((fun p => mk_raw (status_of b p) 0 (match al b !! p with Some _ => Answering | None => NotAnswering end)) <$> ps)) t = Value [].
Proof.
  induction ps as [|p ps IH]; intros Hps; [done|]. cbn. destruct (Hps p ltac:(left)) as [[s Hs] Hv]. rewrite Hs. cbn.
  rewrite Hv. cbn. apply IH. intros q Hq. apply Hps. by right.
Qed.

Lemma contains_spec ps p : contains ps p = true <-> p ∈ ps.
Proof.
  unfold contains. rewrite existsb_exists. split.
  - intros (x & Hx & E%Z.eqb_eq). subst. by apply list_elem_of_In.
  - intros Hp. exists p. split; [by apply list_elem_of_In|apply Z.eqb_refl].
Qed.

(** A legal transition of such a bus brings every target to the target state and leaves the state of the others. *)
Lemma sim_transitionToState m b positions targets t :
  on_bus m b -> t ∈ al_states -> resolveTargets m positions = Value targets ->
  (forall p, p ∈ targets -> isValidStateTransition (alState (status_of b p)) t = true) ->
  exists m' infos b', transitionToState positions t m = (m', Value infos) /\ driver m' = Some b' /\ positions_of m' = positions_of m /\
    length infos = length targets /\ Forall (fun i => reached t i = true) infos /\
    (forall p, p ∈ targets -> al b' !! p = Some t) /\
    (forall p, p ∉ targets -> al b' !! p = al b !! p \/ (alState (status_of b p) = kOp /\ al b' !! p = Some kOp)).
Proof.
  intros Hb Ht Hres Hv. assert (Hv' : forall p, p ∈ targets -> is_Some (al b !! p) /\ isValidStateTransition (alState (status_of b p)) t = true).
  { intros p Hp. split; [|by apply Hv]. apply (resolve_known _ _ _ Hres) in Hp. apply list_elem_of_fmap in Hp as (d & -> & Hd).
    destruct (ob_states _ _ Hb d Hd) as (s & Hs & _). eauto. }
  unfold transitionToState. rewrite (ob_driver _ _ Hb). rewrite bool_decide_false by apply Hb. cbn [sd_refusal sim_states].
  rewrite Hres. cbn [sd_readStates sim_states]. rewrite sim_validate by done.
  assert (Hb' : on_bus (with_bus m b) b) by (destruct Hb; by split).
  destruct ((t =? kSafeOp) || (t =? kOp)).
  - destruct (sim_enter_exchange (with_bus m b) b targets [] Hb') as (m1 & b1 & -> & Hd1 & Hp1 & _ & Htg & Hot).
    assert (Hsame : forall p, p ∈ targets -> al b1 !! p = al b !! p) by (intros p Hp; by apply Htg, contains_spec).
    destruct (sim_command m1 b1 targets t Hd1 Ht) as (m' & infos & b' & Hc & Hd' & Hp' & Hlen & Hr & Ha & Hn).
    { intros p Hp. unfold status_of. rewrite Hsame by done. by apply Hv'. }
    assert (Ec : command m1 b targets t = command m1 b1 targets t) by (unfold command, bus_of; rewrite Hd1; done).
    rewrite Ec, Hc. exists m', infos, b'. split_and!; try done.
    + by rewrite Hp', Hp1.
    + intros p Hp. rewrite Hn by done. apply Hot.
  - destruct (sim_command (leave_exchange (with_bus m b) b targets) b targets t) as (m' & infos & b' & Hc & Hd' & Hp' & Hlen & Hr & Ha & Hn); try done.
    { unfold leave_exchange. destruct (published _); [|done]. by destruct (existsb _ _). }
    exists m', infos, b'. split_and!; try done.
    + rewrite Hp'. unfold leave_exchange. destruct (published _); [|done]. by destruct (existsb _ _).
    + intros p Hp. left. by apply Hn.
Qed.

(** Each step of a walk is legal from the one before. *)
Fixpoint walk (from : Z) (steps : list Z) : Prop :=
  match steps with
  | [] => True
  | s :: steps => s ∈ al_states /\ isValidStateTransition from s = true /\ walk s steps
  end.

Lemma restart_walk t c : t ∈ al_states -> c ∈ al_states -> walk c (restart_steps t) /\ last (restart_steps t) = Some t.
Proof.
  unfold al_states. rewrite !elem_of_cons, !elem_of_nil. intros Ht Hc.
  destruct Ht as [->|[->|[->|[->|[->|[]]]]]]; (split; [|done]); destruct Hc as [->|[->|[->|[->|[->|[]]]]]];
    cbn -[al_states isValidStateTransition]; split_and!; try done; by repeat constructor.
Qed.

Lemma resolve_positions m m' positions targets : positions_of m' = positions_of m -> resolveTargets m positions = Value targets ->
  resolveTargets (B := sim) m' positions = Value targets.
Proof.
  unfold resolveTargets, positions_of. intros Hp. destruct positions as [|q qs]; [by rewrite Hp|].
  assert (Hf : forall p, match find_device (devices m') p with None => true | Some _ => false end =
                    match find_device (devices m) p with None => true | Some _ => false end).
  { intros p. unfold find_device. revert Hp. generalize (devices m) as l, (devices m') as l'.
    intros l l'. revert l. induction l' as [|d' l' IH]; intros [|d l] Hp; try discriminate; [done|]. cbn in Hp.
    injection Hp as Hd Hp. cbn. rewrite Hd. destruct (position d =? p); [done|]. by apply IH. }
  assert (E : List.find (fun p => match find_device (devices m') p with None => true | Some _ => false end) (q :: qs) =
              List.find (fun p => match find_device (devices m) p with None => true | Some _ => false end) (q :: qs)).
  { generalize (q :: qs). intros l. induction l as [|x l IH]; [done|]. cbn. rewrite Hf. by rewrite IH. }
  by rewrite E.
Qed.

Lemma on_bus_after m m' b b' (targets : list Z) t : on_bus m b -> t ∈ al_states -> driver m' = Some b' -> positions_of m' = positions_of m ->
  (forall p, p ∈ targets -> al b' !! p = Some t) ->
  (forall p, p ∉ targets -> al b' !! p = al b !! p \/ (alState (status_of b p) = kOp /\ al b' !! p = Some kOp)) -> on_bus m' b'.
Proof.
  intros Hb Ht Hd Hp Ha Hn. eapply on_bus_al; [exact Hb|done..|]. intros p Hin.
  apply list_elem_of_fmap in Hin as (d & -> & Hin). destruct (ob_states _ _ Hb d Hin) as (s & Hs & Hst).
  destruct (decide (position d ∈ targets)) as [Hx|Hx].
  - exists t. split; [by apply Ha|]. destruct (valid_self t Ht) as (_ & -> & _). done.
  - destruct (Hn _ Hx) as [->|[_ ->]]; [eauto|]. exists kOp. split; [done|]. by repeat constructor.
Qed.

Lemma same_state_after b b' (targets : list Z) :
  (forall p, p ∉ targets -> al b' !! p = al b !! p \/ (alState (status_of b p) = kOp /\ al b' !! p = Some kOp)) ->
  forall p, p ∉ targets -> same_state b b' p.
Proof.
  intros Hn p Hp. unfold same_state, status_of. destruct (Hn p Hp) as [->|[E ->]]; [done|]. unfold status_of in E. by rewrite E.
Qed.

Lemma restart_loop_reaches positions targets steps : forall m b outcome t,
  on_bus m b -> resolveTargets m positions = Value targets -> Forall (fun s => s ∈ al_states) steps ->
  (forall p, p ∈ targets -> walk (alState (status_of b p)) steps) -> last steps = Some t ->
  exists m' b' infos, restart_loop steps positions outcome m = (m', Value (mk_outcome t infos)) /\
    length infos = length targets /\ Forall (fun i => reached t i = true) infos /\ driver m' = Some b' /\
    (forall p, p ∈ targets -> al b' !! p = Some t) /\ (forall p, p ∉ targets -> same_state b b' p).
Proof.
  induction steps as [|s steps IH]; intros m b outcome t Hb Hres Hall Hw Hlast; [done|]. apply Forall_cons in Hall as [Hs Hall].
  destruct (sim_transitionToState m b positions targets s Hb Hs Hres) as (m1 & infos & b1 & E & Hd1 & Hp1 & Hlen & Hr & Ha & Hn).
  { intros p Hp. by destruct (Hw p Hp) as (_ & ? & _). }
  cbn [restart_loop]. rewrite E. replace (forallb (reached s) infos) with true.
  2: { symmetry. apply forallb_forall. intros i Hi. eapply Forall_forall in Hr; [exact Hr|by apply list_elem_of_In]. }
  destruct steps as [|s' steps'] eqn:Esteps.
  - injection Hlast as <-. cbn. exists m1, b1, infos. split_and!; try done. by apply same_state_after.
  - rewrite <- Esteps in *. assert (Hlast' : last steps = Some t) by (rewrite Esteps in Hlast |- *; exact Hlast).
    assert (Hb1 : on_bus m1 b1) by (by eapply on_bus_after).
    destruct (IH m1 b1 (mk_outcome s infos) t Hb1) as (m' & b' & infos' & E' & Hl & Hr' & Hd' & Ha' & Hn'); try done.
    + by eapply resolve_positions.
    + intros p Hp. destruct (Hw p Hp) as (_ & _ & Hw'). unfold status_of. rewrite (Ha p Hp). cbn.
      destruct (valid_self s Hs) as (_ & -> & _). done.
    + exists m', b', infos'. split_and!; try done. intros p Hp. unfold same_state in *. rewrite (Hn' p Hp).
      by apply (same_state_after b b1 targets).
Qed.

(** A restart of any set of devices of a bus that follows the state machine, from any mixture of states (BOOT, errors and
    operation included), brings every one of them to the target with no error, whichever state that is, and leaves every other
    device in the state it was in, although the re-maps on the way take the ones in OP down for a while. *)
Theorem restart_reaches m b positions targets t : on_bus m b -> t ∈ al_states -> resolveTargets m positions = Value targets ->
  exists m' b' infos, restartToState positions t m = (m', Value (mk_outcome t infos)) /\
    length infos = length targets /\ Forall (fun i => reached t i = true) infos /\ driver m' = Some b' /\
    (forall p, p ∈ targets -> al b' !! p = Some t) /\ (forall p, p ∉ targets -> same_state b b' p).
Proof.
  intros Hb Ht Hres. unfold restartToState. eapply restart_loop_reaches; [done..| | |].
  - clear -Ht. unfold al_states in *. rewrite !elem_of_cons, !elem_of_nil in Ht.
    destruct Ht as [->|[->|[->|[->|[->|[]]]]]]; repeat constructor.
  - intros p Hp. apply (resolve_known _ _ _ Hres) in Hp. apply list_elem_of_fmap in Hp as (d & -> & Hd).
    destruct (ob_states _ _ Hb d Hd) as (s & Hs & Hst). unfold status_of. rewrite Hs. by apply restart_walk.
  - by apply (restart_walk t kInit); [|repeat constructor].
Qed.

(** ** Examples *)
Definition three : list dev := [mk_dev 1 8 8 false false; mk_dev 2 8 8 false false; mk_dev 3 0 16 false false].
Definition three_bus : sim := mk_sim (list_to_map [(1, kOp); (2, 0x13); (3, 0x14)]) ∅.
Definition three_manager : sim_manager := mk_manager (Some three_bus) three true 0 false [].

Lemma restart_reaches_witness : exists m' infos,
  restartToState [2; 3] kOp three_manager = (m', Value (mk_outcome kOp infos)) /\ length infos = 2%nat.
Proof.
  destruct (restart_reaches three_manager three_bus [2; 3] [2; 3] kOp) as (m' & b' & infos & E & Hl & _).
  - split; [done..|]. intros d Hd. unfold three_manager, three in Hd. cbn in Hd. rewrite !elem_of_cons, elem_of_nil in Hd.
    destruct Hd as [->|[->|[->|[]]]]; eexists; (split; [reflexivity|]); by repeat constructor.
  - by repeat constructor.
  - reflexivity.
  - exists m', infos. split; [exact E|exact Hl].
Defined.

Lemma expected_wkc_sound_witness : expectedWkc (lowerExpectedWkc (with_wkc three_manager 9) [1] kPreOp) <= answered (fun p => if p =? 1 then kPreOp else status_of three_bus p) three.
Proof.
  apply (expected_wkc_sound (with_wkc three_manager 9) three_bus [1] kPreOp); [reflexivity|]. intros p.
  destruct (Z.eqb_spec p 1) as [->|]; [right; split; reflexivity|by left].
Defined.

End States.
