(* ===== verification/DeviceParameter.v ===== *)
(** * Object dictionary data types and parameter values

    [libs/comm/object_data_types.h] (the data type catalogue) and [libs/node/device_parameter.{h,cc}]
    (a parameter's value as a typed variant, its wire encoding, and the storage it is kept in).
    A [float] or [double] is its IEEE 754 bit pattern; its number is the [spec_float] of the Standard
    Library. C++ leaves the payload of a converted NaN open: it is the canonical quiet NaN here. *)

From Stdlib Require Import String Floats.SpecFloat.
From S2P Require Import Prelude Util.

Module Param.

(** ** [ObjectDataType]: the codes the value code switches on *)
Definition BOOLEAN : Z := 0x0001.
Definition INTEGER8 : Z := 0x0002.
Definition INTEGER16 : Z := 0x0003.
Definition INTEGER32 : Z := 0x0004.
Definition UNSIGNED8 : Z := 0x0005.
Definition UNSIGNED16 : Z := 0x0006.
Definition UNSIGNED32 : Z := 0x0007.
Definition REAL32 : Z := 0x0008.
Definition VISIBLE_STRING : Z := 0x0009.
Definition UNICODE_STRING : Z := 0x000B.
Definition REAL64 : Z := 0x0011.
Definition INTEGER64 : Z := 0x0015.
Definition UNSIGNED64 : Z := 0x001B.
Definition BYTE : Z := 0x001E.
Definition WORD : Z := 0x001F.
Definition DWORD : Z := 0x0020.

(** [kObjectDataTypes]: code, name, bit size. *)
Definition kObjectDataTypes : list (Z * text * Z) := [
  (0x0000, codes "UNSPECIFIED", 0); (0x0001, codes "BOOLEAN", 1); (0x0002, codes "INTEGER8", 8);
  (0x0003, codes "INTEGER16", 16); (0x0004, codes "INTEGER32", 32); (0x0005, codes "UNSIGNED8", 8);
  (0x0006, codes "UNSIGNED16", 16); (0x0007, codes "UNSIGNED32", 32); (0x0008, codes "REAL32", 32);
  (0x0009, codes "VISIBLE_STRING", 0); (0x000A, codes "OCTET_STRING", 0);
  (0x000B, codes "UNICODE_STRING", 0); (0x000C, codes "TIME_OF_DAY", 48);
  (0x000D, codes "TIME_DIFFERENCE", 48); (0x000F, codes "DOMAIN", 0); (0x0010, codes "INTEGER24", 24);
  (0x0011, codes "REAL64", 64); (0x0012, codes "INTEGER40", 40); (0x0013, codes "INTEGER48", 48);
  (0x0014, codes "INTEGER56", 56); (0x0015, codes "INTEGER64", 64); (0x0016, codes "UNSIGNED24", 24);
  (0x0018, codes "UNSIGNED40", 40); (0x0019, codes "UNSIGNED48", 48); (0x001A, codes "UNSIGNED56", 56);
  (0x001B, codes "UNSIGNED64", 64); (0x001D, codes "GUID", 128); (0x001E, codes "BYTE", 8);
  (0x001F, codes "WORD", 16); (0x0020, codes "DWORD", 32); (0x0021, codes "PDO_MAPPING", 0);
  (0x0023, codes "IDENTITY", 0); (0x0025, codes "COMMAND_PAR", 0); (0x0027, codes "PDO_PARAMETER", 0);
  (0x0028, codes "ENUM", 0); (0x0029, codes "SM_SYNCHRONISATION", 0); (0x002A, codes "RECORD", 0);
  (0x002B, codes "BACKUP_PARAMETER", 0); (0x002C, codes "MODULAR_DEVICE_PROFILE", 0);
  (0x002D, codes "BITARR8", 8); (0x002E, codes "BITARR16", 16); (0x002F, codes "BITARR32", 32);
  (0x0030, codes "BIT1", 1); (0x0031, codes "BIT2", 2); (0x0032, codes "BIT3", 3);
  (0x0033, codes "BIT4", 4); (0x0034, codes "BIT5", 5); (0x0035, codes "BIT6", 6);
  (0x0036, codes "BIT7", 7); (0x0037, codes "BIT8", 8); (0x0038, codes "BIT9", 9);
  (0x0039, codes "BIT10", 10); (0x003A, codes "BIT11", 11); (0x003B, codes "BIT12", 12);
  (0x003C, codes "BIT13", 13); (0x003D, codes "BIT14", 14); (0x003E, codes "BIT15", 15);
  (0x003F, codes "BIT16", 16); (0x0260, codes "ARRAY_OF_INT", 0); (0x0261, codes "ARRAY_OF_SINT", 0);
  (0x0262, codes "ARRAY_OF_DINT", 0); (0x0263, codes "ARRAY_OF_UDINT", 0);
  (0x0264, codes "ARRAY_OF_BITARR8", 0); (0x0265, codes "ARRAY_OF_BITARR16", 0);
  (0x0266, codes "ARRAY_OF_BITARR32", 0); (0x0267, codes "ARRAY_OF_USINT", 0);
  (0x0268, codes "WSTRING", 0); (0x0269, codes "ARRAY_OF_REAL", 0); (0x026A, codes "ARRAY_OF_LREAL", 0);
  (0x0281, codes "ERROR_SETTING", 0); (0x0282, codes "DIAGNOSIS_HISTORY", 0);
  (0x0283, codes "EXTERNAL_SYNC_STATUS", 0); (0x0284, codes "EXTERNAL_SYNC_SETTINGS", 0);
  (0x0285, codes "DEFTYPE_FSOEFRAME", 0); (0x0286, codes "DEFTYPE_FSOECOMMPAR", 0)].

Definition objectDataTypeInfo (code : Z) : option (Z * text * Z) :=
  head (filter (fun e => e.1.1 = code) kObjectDataTypes).

Definition objectDataTypeName (code : Z) : text :=
  match objectDataTypeInfo code with Some e => e.1.2 | None => codes "UNKNOWN" end.

Definition objectDataTypeBitSize (code : Z) : Z :=
  match objectDataTypeInfo code with Some e => e.2 | None => 0 end.

(** ** Values *)
Inductive IntType := I8 | I16 | I32 | I64 | U8 | U16 | U32 | U64.

#[export] Instance IntType_eq_dec : EqDecision IntType.
Proof. solve_decision. Defined.

Definition int_bytes (t : IntType) : nat :=
  match t with I8 | U8 => 1 | I16 | U16 => 2 | I32 | U32 => 4 | I64 | U64 => 8 end.
Definition int_signed (t : IntType) : bool :=
  match t with I8 | I16 | I32 | I64 => true | _ => false end.
Definition int_bits (t : IntType) : Z := 8 * Z.of_nat (int_bytes t).
(** [std::numeric_limits<T>::min()], [::max() + 1] and [std::in_range<T>]. *)
Definition int_min (t : IntType) : Z := if int_signed t then - 2 ^ (int_bits t - 1) else 0.
Definition int_past (t : IntType) : Z := if int_signed t then 2 ^ (int_bits t - 1) else 2 ^ int_bits t.
Definition in_range (t : IntType) (v : Z) : bool := (int_min t <=? v) && (v <? int_past t).
(** The integer of a bit pattern of its width. *)
Definition int_of_bits (t : IntType) (b : Z) : Z := if int_signed t then swrap (int_bits t) b else uwrap (int_bits t) b.

Inductive DeviceParameterValue :=
  | VInt (t : IntType) (v : Z)
  | VFloat (bits : Z)
  | VDouble (bits : Z)
  | VString (s : text)
  | VBytes (b : bytes).

#[export] Instance DeviceParameterValue_eq_dec : EqDecision DeviceParameterValue.
Proof. solve_decision. Defined.

(** ** IEEE 754 patterns: [mw] mantissa bits, [ew] exponent bits *)
Definition sf_emax (ew : Z) : Z := 2 ^ (ew - 1).
Definition sf_emin (mw ew : Z) : Z := 3 - sf_emax ew - (mw + 1).

Definition float_of_bits (mw ew bits : Z) : spec_float :=
  let s := Z.testbit bits (mw + ew) in
  let e := Z.land (Z.shiftr bits mw) (2 ^ ew - 1) in
  let f := Z.land bits (2 ^ mw - 1) in
  if e =? 0 then
    match f with Zpos p => S754_finite s p (sf_emin mw ew) | _ => S754_zero s end
  else if e =? 2 ^ ew - 1 then (if f =? 0 then S754_infinity s else S754_nan)
  else match f + 2 ^ mw with Zpos p => S754_finite s p (e + sf_emin mw ew - 1) | _ => S754_nan end.

Definition bits_of_float (mw ew : Z) (x : spec_float) : Z :=
  let sign (s : bool) := if s then Z.shiftl 1 (mw + ew) else 0 in
  let expo (e : Z) := Z.shiftl e mw in
  match x with
  | S754_zero s => sign s
  | S754_infinity s => sign s + expo (2 ^ ew - 1)
  | S754_nan => expo (2 ^ ew - 1) + Z.shiftl 1 (mw - 1)
  | S754_finite s m e =>
      if Zpos m <? 2 ^ mw then sign s + Zpos m
      else sign s + expo (e - sf_emin mw ew + 1) + (Zpos m - 2 ^ mw)
  end.

(** The value rounded to nearest, ties to even, in the format. *)
Definition round_to (mw ew : Z) (x : spec_float) : spec_float :=
  match x with
  | S754_finite s m e => binary_normalize (mw + 1) (sf_emax ew) (cond_Zopp s (Zpos m)) e s
  | _ => x
  end.

Definition float_of_Z (mw ew v : Z) : spec_float := binary_normalize (mw + 1) (sf_emax ew) v 0 false.

Definition f32 (bits : Z) : spec_float := float_of_bits 23 8 bits.
Definition f64 (bits : Z) : spec_float := float_of_bits 52 11 bits.

(** The integer a finite number equals, if it is whole: [isfinite(x) && trunc(x) == x]. *)
Definition whole (x : spec_float) : option Z :=
  match x with
  | S754_zero _ => Some 0
  | S754_finite s m e =>
      if 0 <=? e then Some (cond_Zopp s (Zpos m) * 2 ^ e)
      else if Zpos m mod 2 ^ (- e) =? 0 then Some (cond_Zopp s (Zpos m / 2 ^ (- e)))
      else None
  | _ => None
  end.

(** [isfinite(x) && abs(x) > FLT_MAX]: both sides scaled to integers. *)
Definition above_flt_max (x : spec_float) : bool :=
  match x with
  | S754_finite _ m e => (2 ^ 24 - 1) * 2 ^ (104 + Z.max 0 (- e)) <? Zpos m * 2 ^ (Z.max 0 e)
  | _ => false
  end.

Inductive ParamError :=
  | NeedsBytes (dataType : Z) (needs got : nat)
  | ExpectsScalar (dataType : Z) (width : nat)
  | ExpectsString (dataType : Z)
  | ExpectsRawBytes (dataType : Z)
  | IntOutside (v : Z) (t : IntType)
  | NotWhole (x : spec_float)
  | FloatOutside (x : spec_float) (t : IntType)
  | OutsideReal32 (x : spec_float)
  | ParamIs (index subindex dataType : Z) (reason : ParamError)
  | ParamIsNumeric (index subindex : Z)
  | ParamIsString (index subindex : Z)
  | ParamIsRawBytes (index subindex : Z)
  | DifferentType (index subindex : Z)
  | NotNumeric (index subindex : Z)
  | NoReadableSubindex (index subindex : Z).

Definition is_type (dataType : Z) (l : list Z) : bool := bool_decide (dataType ∈ l).

Definition defaultValueForDataType (dataType : Z) : DeviceParameterValue :=
  if is_type dataType [BOOLEAN; UNSIGNED8; BYTE] then VInt U8 0
  else if is_type dataType [INTEGER8] then VInt I8 0
  else if is_type dataType [INTEGER16] then VInt I16 0
  else if is_type dataType [INTEGER32] then VInt I32 0
  else if is_type dataType [UNSIGNED16; WORD] then VInt U16 0
  else if is_type dataType [UNSIGNED32; DWORD] then VInt U32 0
  else if is_type dataType [REAL32] then VFloat 0
  else if is_type dataType [VISIBLE_STRING; UNICODE_STRING] then VString []
  else if is_type dataType [REAL64] then VDouble 0
  else if is_type dataType [INTEGER64] then VInt I64 0
  else if is_type dataType [UNSIGNED64] then VInt U64 0
  else VBytes [].

Definition isScalarDataType (dataType : Z) : bool :=
  is_type dataType [BOOLEAN; UNSIGNED8; BYTE; INTEGER8; INTEGER16; INTEGER32; UNSIGNED16; WORD;
    UNSIGNED32; DWORD; REAL32; REAL64; INTEGER64; UNSIGNED64].

Definition scalarByteWidth (dataType : Z) : nat :=
  match defaultValueForDataType dataType with
  | VInt t _ => int_bytes t
  | VFloat _ => 4
  | VDouble _ => 8
  | VString _ | VBytes _ => 0
  end.

(** ** Eight bytes as one word *)
Fixpoint pack_loop (l : bytes) (n i : nat) (out : Z) : Z :=
  match n with
  | O => out
  | S n' => pack_loop l n' (S i) (Z.lor out (u64 (Z.shiftl (byte_at l i) (8 * Z.of_nat i))))
  end.
Definition packLeBits (l : bytes) : Z := pack_loop l (Nat.min (length l) 8) 0 0.

Definition unpack_byte (bits : Z) (i : nat) : Z :=
  if (i <? 8)%nat then u8 (Z.shiftr bits (8 * Z.of_nat i)) else 0.
(** [n] is [out.size()]. *)
Definition unpackLeBits (bits : Z) (n : nat) : bytes := (fun i => unpack_byte bits i) <$> seq 0 n.

(** ** SDO bytes *)
Definition decodeInt (t : IntType) (dataType : Z) (l : bytes) : expected ParamError DeviceParameterValue :=
  if (length l <? int_bytes t)%nat then Unexpected (NeedsBytes dataType (int_bytes t) (length l))
  else Value (VInt t (int_of_bits t (le_value (take (int_bytes t) l)))).

Definition decodeReal (n : nat) (mk : Z -> DeviceParameterValue) (dataType : Z) (l : bytes)
    : expected ParamError DeviceParameterValue :=
  if (length l <? n)%nat then Unexpected (NeedsBytes dataType n (length l))
  else Value (mk (le_value (take n l))).

(** [std::ranges::find(bytes, 0)]: the length of the text before the first NUL. *)
Fixpoint find_nul (l : bytes) : nat :=
  match l with [] => 0 | b :: l' => if b =? 0 then 0 else S (find_nul l') end.
Fixpoint strip_spaces (l : bytes) (len : nat) : nat :=
  match len with
  | O => 0
  | S len' => if byte_at l len' =? 32 then strip_spaces l len' else len
  end.

Definition decodeSdoBytes (dataType : Z) (l : bytes) : expected ParamError DeviceParameterValue :=
  if is_type dataType [BOOLEAN; UNSIGNED8; BYTE] then decodeInt U8 dataType l
  else if is_type dataType [INTEGER8] then decodeInt I8 dataType l
  else if is_type dataType [INTEGER16] then decodeInt I16 dataType l
  else if is_type dataType [INTEGER32] then decodeInt I32 dataType l
  else if is_type dataType [UNSIGNED16; WORD] then decodeInt U16 dataType l
  else if is_type dataType [UNSIGNED32; DWORD] then decodeInt U32 dataType l
  else if is_type dataType [REAL32] then decodeReal 4 VFloat dataType l
  else if is_type dataType [REAL64] then decodeReal 8 VDouble dataType l
  else if is_type dataType [INTEGER64] then decodeInt I64 dataType l
  else if is_type dataType [UNSIGNED64] then decodeInt U64 dataType l
  else if is_type dataType [VISIBLE_STRING] then Value (VString (take (strip_spaces l (find_nul l)) l))
  else if is_type dataType [UNICODE_STRING] then Value (VString l)
  else Value (VBytes l).

Definition encodeInt (t : IntType) (dataType : Z) (value : DeviceParameterValue) : expected ParamError bytes :=
  match value with
  | VInt t' v => if bool_decide (t' = t) then Value (le_bytes (int_bytes t) v)
                 else Unexpected (ExpectsScalar dataType (int_bytes t))
  | _ => Unexpected (ExpectsScalar dataType (int_bytes t))
  end.

Definition encodeSdoBytes (dataType : Z) (value : DeviceParameterValue) : expected ParamError bytes :=
  if is_type dataType [BOOLEAN; UNSIGNED8; BYTE] then encodeInt U8 dataType value
  else if is_type dataType [INTEGER8] then encodeInt I8 dataType value
  else if is_type dataType [INTEGER16] then encodeInt I16 dataType value
  else if is_type dataType [INTEGER32] then encodeInt I32 dataType value
  else if is_type dataType [UNSIGNED16; WORD] then encodeInt U16 dataType value
  else if is_type dataType [UNSIGNED32; DWORD] then encodeInt U32 dataType value
  else if is_type dataType [REAL32] then
    match value with VFloat b => Value (le_bytes 4 b) | _ => Unexpected (ExpectsScalar dataType 4) end
  else if is_type dataType [REAL64] then
    match value with VDouble b => Value (le_bytes 8 b) | _ => Unexpected (ExpectsScalar dataType 8) end
  else if is_type dataType [INTEGER64] then encodeInt I64 dataType value
  else if is_type dataType [UNSIGNED64] then encodeInt U64 dataType value
  else if is_type dataType [VISIBLE_STRING; UNICODE_STRING] then
    match value with VString s => Value s | _ => Unexpected (ExpectsString dataType) end
  else match value with VBytes b => Value b | _ => Unexpected (ExpectsRawBytes dataType) end.

(** ** Converting between types *)

(** [valueAs<T>] for an integer [T]. *)
Definition valueAs (t : IntType) (value : DeviceParameterValue) : option Z :=
  match value with
  | VInt t' v => if bool_decide (t' = t) then Some v else if in_range t v then Some v else None
  | _ => None
  end.

(** [numericValue]: the number as a [double]. *)
Definition numericValue (value : DeviceParameterValue) : option spec_float :=
  match value with
  | VInt _ v => Some (float_of_Z 52 11 v)
  | VFloat b => Some (round_to 52 11 (f32 b))
  | VDouble b => Some (f64 b)
  | VString _ | VBytes _ => None
  end.

(** [convertExactly<Target>] for an integer target, from an integer and from a floating-point
    number; finite doubles are compared by the whole number they equal. *)
Definition int_exactly (t : IntType) (v : Z) : expected ParamError Z :=
  if in_range t v then Value v else Unexpected (IntOutside v t).

Definition real_exactly (t : IntType) (x : spec_float) : expected ParamError Z :=
  match whole x with
  | None => Unexpected (NotWhole x)
  | Some z => if (z <? int_min t) || (int_past t <=? z) then Unexpected (FloatOutside x t) else Value z
  end.

Definition to_float (x : spec_float) : expected ParamError Z :=
  if above_flt_max x then Unexpected (OutsideReal32 x)
  else Value (bits_of_float 23 8 (round_to 23 8 x)).

Definition convertExactly (target incoming : DeviceParameterValue) : expected ParamError DeviceParameterValue :=
  match target, incoming with
  | VInt t _, VInt _ v => try z := int_exactly t v in Value (VInt t z)
  | VInt t _, VFloat b => try z := real_exactly t (f32 b) in Value (VInt t z)
  | VInt t _, VDouble b => try z := real_exactly t (f64 b) in Value (VInt t z)
  | VFloat _, VInt _ v => try b := to_float (float_of_Z 52 11 v) in Value (VFloat b)
  | VFloat _, VFloat b => try b := to_float (f32 b) in Value (VFloat b)
  | VFloat _, VDouble b => try b := to_float (f64 b) in Value (VFloat b)
  | VDouble _, VInt _ v => Value (VDouble (bits_of_float 52 11 (float_of_Z 52 11 v)))
  | VDouble _, VFloat b => Value (VDouble (bits_of_float 52 11 (round_to 52 11 (f32 b))))
  | VDouble _, VDouble b => Value (VDouble b)
  | _, _ => Value incoming
  end.

Definition is_arithmetic (v : DeviceParameterValue) : bool :=
  match v with VInt _ _ | VFloat _ | VDouble _ => true | VString _ | VBytes _ => false end.

(** ** [DeviceParameter] *)
Inductive SyncState := Unknown | Synced | Pending | Stale.
Inductive ParameterOrigin := ObjectDictionary | FromSii.

#[export] Instance SyncState_eq_dec : EqDecision SyncState.
Proof. solve_decision. Defined.

Definition syncStateName (s : SyncState) : text :=
  match s with
  | Unknown => codes "unknown"
  | Synced => codes "synced"
  | Pending => codes "pending"
  | Stale => codes "stale"
  end.

Definition parameterOriginName (o : ParameterOrigin) : text :=
  match o with ObjectDictionary => codes "objectDictionary" | FromSii => codes "sii" end.

Record DeviceParameter := mk_parameter {
  index : Z;
  subindex : Z;
  name : text;
  objectCode : Z;
  dataType : Z;
  bitLength : Z;
  access : Z;
  origin : ParameterOrigin;
  cell : Z;
  rawValue : bytes;
  syncState : SyncState;
  unit_ : option Z;
  unitSymbol : text;
  defaultValue : option DeviceParameterValue;
  minValue : option DeviceParameterValue;
  maxValue : option DeviceParameterValue;
  description : text;
  options : list (Z * text);
  esiFile : text;
}.

Definition set_storage (p : DeviceParameter) (c : Z) (raw : bytes) : DeviceParameter :=
  mk_parameter (index p) (subindex p) (name p) (objectCode p) (dataType p) (bitLength p) (access p)
    (origin p) c raw (syncState p) (unit_ p) (unitSymbol p) (defaultValue p) (minValue p) (maxValue p)
    (description p) (options p) (esiFile p).

Definition set_sync (p : DeviceParameter) (s : SyncState) : DeviceParameter :=
  mk_parameter (index p) (subindex p) (name p) (objectCode p) (dataType p) (bitLength p) (access p)
    (origin p) (cell p) (rawValue p) s (unit_ p) (unitSymbol p) (defaultValue p) (minValue p)
    (maxValue p) (description p) (options p) (esiFile p).

Definition storeBits (p : DeviceParameter) (v : Z) : DeviceParameter := set_storage p v (rawValue p).

Definition currentValue (p : DeviceParameter) : DeviceParameterValue :=
  match decodeSdoBytes (dataType p)
          (if isScalarDataType (dataType p) then unpackLeBits (cell p) 8 else rawValue p) with
  | Value v => v
  | Unexpected _ => defaultValueForDataType (dataType p)
  end.

(** [scalar<T>] for an integer [T]. *)
Definition scalar (t : IntType) (p : DeviceParameter) : option Z :=
  match defaultValueForDataType (dataType p) with
  | VInt t' _ => if bool_decide (t' = t)
                 then Some (int_of_bits t (le_value (take (int_bytes t) (unpackLeBits (cell p) 8)))) else None
  | _ => None
  end.

Definition rawValueBytes (p : DeviceParameter) : bytes :=
  let width := scalarByteWidth (dataType p) in
  if (width =? 0)%nat then rawValue p else unpackLeBits (cell p) width.

Definition setRawValue (p : DeviceParameter) (l : bytes) : DeviceParameter :=
  if isScalarDataType (dataType p) then storeBits p (packLeBits l) else set_storage p (cell p) l.

Definition markReadFailed (p : DeviceParameter) : DeviceParameter :=
  if bool_decide (syncState p = Synced) then set_sync p Stale else p.

Definition getValue (t : IntType) (p : DeviceParameter) : expected ParamError Z :=
  match valueAs t (currentValue p) with
  | Some v => Value v
  | None => Unexpected (DifferentType (index p) (subindex p))
  end.

Definition numeric (p : DeviceParameter) : expected ParamError spec_float :=
  match numericValue (currentValue p) with
  | Some x => Value x
  | None => Unexpected (NotNumeric (index p) (subindex p))
  end.

Definition encode (p : DeviceParameter) (v : DeviceParameterValue) : expected ParamError bytes :=
  let target := defaultValueForDataType (dataType p) in
  try coerced :=
    match target, v with
    | VString _, VString s => Value v
    | VString _, _ => Unexpected (ParamIsString (index p) (subindex p))
    | VBytes _, VBytes b => Value v
    | VBytes _, _ => Unexpected (ParamIsRawBytes (index p) (subindex p))
    | _, _ =>
        if is_arithmetic v then
          match convertExactly target v with
          | Value c => Value c
          | Unexpected e => Unexpected (ParamIs (index p) (subindex p) (dataType p) e)
          end
        else Unexpected (ParamIsNumeric (index p) (subindex p))
    end in
  encodeSdoBytes (dataType p) coerced.

Definition setValue (p : DeviceParameter) (v : DeviceParameterValue)
    : DeviceParameter * expected ParamError unit :=
  match encode p v with
  | Value l => (setRawValue p l, Value tt)
  | Unexpected e => (p, Unexpected e)
  end.

Definition isReadable (p : DeviceParameter) : bool := negb (Z.land (access p) 7 =? 0).

(** ** The type table is one table *)

Definition known_types : list Z :=
  [BOOLEAN; INTEGER8; INTEGER16; INTEGER32; UNSIGNED8; UNSIGNED16; UNSIGNED32; REAL32; VISIBLE_STRING;
   UNICODE_STRING; REAL64; INTEGER64; UNSIGNED64; BYTE; WORD; DWORD].

Lemma is_type_unknown dt l :
  dt ∉ known_types -> forallb (fun x => bool_decide (x ∈ known_types)) l = true -> is_type dt l = false.
Proof.
  intros Hn Hl. apply bool_decide_eq_false_2. intros H. apply Hn.
  rewrite forallb_forall in Hl. specialize (Hl dt (proj1 (list_elem_of_In _ _) H)).
  by apply bool_decide_eq_true in Hl.
Qed.

(** A case per known data type, and one for every other code. *)
Ltac by_type dt :=
  destruct (decide (dt ∈ known_types)) as [Hk|Hk];
  [unfold known_types in Hk; rewrite !elem_of_cons in Hk;
   repeat (destruct Hk as [-> | Hk]; [try reflexivity|]); try (by apply elem_of_nil in Hk)
  |repeat (rewrite (is_type_unknown dt _ Hk) by reflexivity)].

Lemma decodeSdoBytes_table dt l :
  decodeSdoBytes dt l =
  match defaultValueForDataType dt with
  | VInt t _ => decodeInt t dt l
  | VFloat _ => decodeReal 4 VFloat dt l
  | VDouble _ => decodeReal 8 VDouble dt l
  | VString _ => Value (VString (if is_type dt [VISIBLE_STRING] then take (strip_spaces l (find_nul l)) l else l))
  | VBytes _ => Value (VBytes l)
  end.
Proof. unfold decodeSdoBytes, defaultValueForDataType. by_type dt. reflexivity. Qed.

Lemma encodeSdoBytes_table dt v :
  encodeSdoBytes dt v =
  match defaultValueForDataType dt with
  | VInt t _ => encodeInt t dt v
  | VFloat _ => match v with VFloat b => Value (le_bytes 4 b) | _ => Unexpected (ExpectsScalar dt 4) end
  | VDouble _ => match v with VDouble b => Value (le_bytes 8 b) | _ => Unexpected (ExpectsScalar dt 8) end
  | VString _ => match v with VString s => Value s | _ => Unexpected (ExpectsString dt) end
  | VBytes _ => match v with VBytes b => Value b | _ => Unexpected (ExpectsRawBytes dt) end
  end.
Proof. unfold encodeSdoBytes, defaultValueForDataType. by_type dt. reflexivity. Qed.

Lemma isScalar_table dt : isScalarDataType dt = is_arithmetic (defaultValueForDataType dt).
Proof. unfold isScalarDataType, defaultValueForDataType. by_type dt. reflexivity. Qed.

(** ** Integers *)
Lemma int_bits_pos t : 0 < int_bits t.
Proof. by destruct t. Qed.

Lemma in_range_spec t v : in_range t v = true <-> if int_signed t then in_s (int_bits t) v else in_u (int_bits t) v.
Proof.
  unfold in_range, int_min, int_past, in_s, in_u. rewrite andb_true_iff, Z.leb_le, Z.ltb_lt.
  by destruct (int_signed t).
Qed.

Lemma int_of_bits_uwrap t v : in_range t v = true -> int_of_bits t (uwrap (int_bits t) v) = v.
Proof.
  intros Hr%in_range_spec. pose proof (int_bits_pos t). unfold int_of_bits. destruct (int_signed t).
  - apply swrap_uwrap; [lia|done].
  - rewrite uwrap_id; [by apply uwrap_id|]. apply uwrap_range. lia.
Qed.

Lemma int_of_bits_range t b : in_range t (int_of_bits t b) = true.
Proof.
  pose proof (int_bits_pos t). apply in_range_spec. unfold int_of_bits. destruct (int_signed t).
  - by apply swrap_range.
  - apply uwrap_range. lia.
Qed.

Lemma uwrap_int_of_bits t b : in_u (int_bits t) b -> uwrap (int_bits t) (int_of_bits t b) = b.
Proof.
  intros Hb. pose proof (int_bits_pos t). unfold int_of_bits. destruct (int_signed t).
  - apply uwrap_swrap; [lia|done].
  - by rewrite (uwrap_id _ b Hb), (uwrap_id _ b Hb).
Qed.

Lemma decodeInt_encoded t dt v rest : in_range t v = true ->
  decodeInt t dt (le_bytes (int_bytes t) v ++ rest) = Value (VInt t v).
Proof.
  intros Hr. unfold decodeInt. rewrite length_app, length_le_bytes.
  rewrite (proj2 (Nat.ltb_ge _ _)) by lia.
  rewrite take_app_le, take_ge by (rewrite length_le_bytes; lia).
  rewrite le_value_bytes. fold (int_bits t). by rewrite int_of_bits_uwrap.
Qed.

Lemma decodeReal_encoded n mk dt b : in_u (8 * Z.of_nat n) b ->
  decodeReal n mk dt (le_bytes n b) = Value (mk b).
Proof.
  intros Hb. unfold decodeReal. rewrite length_le_bytes, Nat.ltb_irrefl, take_ge by (by rewrite length_le_bytes).
  by rewrite le_value_bytes, uwrap_id.
Qed.

(** ** The eight-byte cell *)
Lemma pack_loop_spec l n i acc :
  bytes_ok l -> (i + n <= 8)%nat -> (i + n <= length l)%nat -> in_u (8 * Z.of_nat i) acc ->
  pack_loop l n i acc = acc + 2 ^ (8 * Z.of_nat i) * le_value (slice i n l).
Proof.
  intros Hl. revert i acc. induction n as [|n IH]; intros i acc H8 Hlen Ha; cbn [pack_loop].
  { unfold slice. rewrite take_0. cbn. lia. }
  assert (Hb : in_u 8 (byte_at l i)) by by apply byte_at_ok.
  assert (Hsh : Z.lor acc (u64 (Z.shiftl (byte_at l i) (8 * Z.of_nat i))) =
                acc + 2 ^ (8 * Z.of_nat i) * byte_at l i).
  { unfold u64. rewrite uwrap_id; [rewrite lor_shiftl_add by done || lia; lia|].
    unfold in_u in *. rewrite Z.shiftl_mul_pow2 by lia.
    assert (2 ^ (8 * Z.of_nat i) * 2 ^ 8 <= 2 ^ 64) by (rewrite <- Z.pow_add_r by lia; apply Z.pow_le_mono_r; lia).
    assert (0 < 2 ^ (8 * Z.of_nat i)) by (apply Z.pow_pos_nonneg; lia). nia. }
  rewrite IH; [|lia|lia|].
  - destruct (lookup_lt_is_Some_2 l i ltac:(lia)) as [b Eb].
    assert (Es : slice i (S n) l = b :: slice (S i) n l) by (unfold slice; by rewrite (drop_S l b i Eb)).
    rewrite Es, Hsh, (byte_at_Some _ _ _ Eb). cbn [le_value].
    replace (8 * Z.of_nat (S i)) with (8 * Z.of_nat i + 8) by lia. rewrite Z.pow_add_r by lia. change (2 ^ 8) with 256. ring.
  - rewrite Hsh. unfold in_u in *. replace (8 * Z.of_nat (S i)) with (8 * Z.of_nat i + 8) by lia.
    rewrite Z.pow_add_r by lia. change (2 ^ 8) with 256 in *. nia.
Qed.

Lemma packLeBits_spec l : bytes_ok l -> packLeBits l = le_value (take 8 l).
Proof.
  intros Hl. unfold packLeBits. rewrite (pack_loop_spec l _ 0 0); [|done|lia|lia|done].
  unfold slice. rewrite drop_0. replace (take (Nat.min (length l) 8) l) with (take 8 l); [cbn; lia|].
  destruct (decide (length l <= 8)%nat).
  - by rewrite !take_ge by lia.
  - by replace (Nat.min (length l) 8) with 8%nat by lia.
Qed.

Lemma le_bytes_seq n x : le_bytes n x = (fun i => u8 (Z.shiftr x (8 * Z.of_nat i))) <$> seq 0 n.
Proof.
  revert x. induction n as [|n IH]; intros x; [done|]. cbn [seq]. rewrite fmap_cons, <- fmap_S_seq.
  cbn [le_bytes]. f_equal. rewrite IH, <- list_fmap_compose. apply list_fmap_ext.
  intros i k Hk. unfold compose. change (x / 256) with (x / 2 ^ 8).
  rewrite <- Z.shiftr_div_pow2, Z.shiftr_shiftr by lia. do 2 f_equal. lia.
Qed.

Lemma unpackLeBits_spec bits n : (n <= 8)%nat -> unpackLeBits bits n = le_bytes n bits.
Proof.
  intros Hn. rewrite le_bytes_seq. unfold unpackLeBits. apply list_fmap_ext. intros i k Hk.
  apply lookup_seq in Hk as [-> Hk]. unfold unpack_byte. by rewrite (proj2 (Nat.ltb_lt _ _)) by lia.
Qed.

Lemma take_le_bytes n k x : (n <= k)%nat -> take n (le_bytes k x) = le_bytes n x.
Proof.
  intros Hn. rewrite !le_bytes_seq, <- fmap_take, take_seq. do 2 f_equal. lia.
Qed.

(** The first bytes of what the cell gives back are the bytes it was given. *)
Lemma take_repack n l : bytes_ok l -> (n <= 8)%nat -> (n <= length l)%nat ->
  take n (unpackLeBits (packLeBits l) 8) = take n l.
Proof.
  intros Hl H8 Hn. rewrite packLeBits_spec, unpackLeBits_spec, take_le_bytes by (done || lia).
  assert (Hk : length (take 8 l) = Nat.min 8 (length l)) by apply length_take.
  replace (take n l) with (take n (take 8 l)) by (by rewrite take_take, Nat.min_l by lia).
  rewrite <- (le_bytes_value (take 8 l)) at 2 by by apply Forall_take.
  rewrite Hk, take_le_bytes by lia. done.
Qed.

Lemma length_unpackLeBits bits n : length (unpackLeBits bits n) = n.
Proof. unfold unpackLeBits. by rewrite length_fmap, length_seq. Qed.

Lemma setRawValue_dataType p l : dataType (setRawValue p l) = dataType p.
Proof. unfold setRawValue. by destruct (isScalarDataType (dataType p)). Qed.

Lemma scalarByteWidth_le dt : (scalarByteWidth dt <= 8)%nat.
Proof. unfold scalarByteWidth. destruct (defaultValueForDataType dt) as [[]| | | |]; cbn; lia. Qed.

Lemma scalarByteWidth_0 dt : scalarByteWidth dt = 0%nat <-> isScalarDataType dt = false.
Proof.
  rewrite isScalar_table. unfold scalarByteWidth.
  by destruct (defaultValueForDataType dt) as [[]| | | |].
Qed.

(** A scalar is decoded from its leading bytes only. *)
Lemma decode_leading dt l l' :
  isScalarDataType dt = true -> (scalarByteWidth dt <= length l)%nat -> (scalarByteWidth dt <= length l')%nat ->
  take (scalarByteWidth dt) l = take (scalarByteWidth dt) l' -> decodeSdoBytes dt l = decodeSdoBytes dt l'.
Proof.
  rewrite isScalar_table, !decodeSdoBytes_table. unfold scalarByteWidth.
  destruct (defaultValueForDataType dt); intros Hs Hl Hl' Ht; try done;
    unfold decodeInt, decodeReal; rewrite !(proj2 (Nat.ltb_ge _ _)) by done; by rewrite Ht.
Qed.

Definition stored_well (p : DeviceParameter) (l : bytes) : Prop :=
  bytes_ok l /\ (scalarByteWidth (dataType p) <= length l)%nat.

(** Storing wire bytes keeps the value they decode to, wherever the type's home is. *)
Lemma currentValue_setRawValue p l : stored_well p l ->
  currentValue (setRawValue p l) =
  match decodeSdoBytes (dataType p) l with
  | Value v => v
  | Unexpected _ => defaultValueForDataType (dataType p)
  end.
Proof.
  intros [Hl Hw]. unfold currentValue. rewrite setRawValue_dataType. unfold setRawValue.
  destruct (isScalarDataType (dataType p)) eqn:Es; [|done]. cbn [storeBits set_storage cell].
  pose proof (scalarByteWidth_le (dataType p)).
  rewrite (decode_leading _ (unpackLeBits (packLeBits l) 8) l Es); [done| |done|by apply take_repack].
  by rewrite length_unpackLeBits.
Qed.

Lemma rawValueBytes_setRawValue p l : bytes_ok l ->
  (isScalarDataType (dataType p) = true -> length l = scalarByteWidth (dataType p)) ->
  rawValueBytes (setRawValue p l) = l.
Proof.
  intros Hl Hw. unfold rawValueBytes. rewrite setRawValue_dataType. unfold setRawValue.
  pose proof (scalarByteWidth_le (dataType p)).
  destruct (Nat.eqb_spec (scalarByteWidth (dataType p)) 0) as [E|E].
  - by rewrite (proj1 (scalarByteWidth_0 _) E).
  - destruct (isScalarDataType (dataType p)) eqn:Es; [|by apply scalarByteWidth_0 in Es].
    specialize (Hw eq_refl). cbn [storeBits set_storage cell].
    rewrite packLeBits_spec, take_ge, unpackLeBits_spec by (done || lia).
    rewrite <- Hw. by apply le_bytes_value.
Qed.

(** ** Round trip over the wire *)

(** A variant whose alternative can hold what it holds. *)
Definition value_ok (v : DeviceParameterValue) : Prop :=
  match v with
  | VInt t x => in_range t x = true
  | VFloat b => in_u 32 b
  | VDouble b => in_u 64 b
  | VString s | VBytes s => bytes_ok s
  end.

(** Text a VISIBLE_STRING can carry: no NUL, and no space at the end. *)
Definition visible (v : DeviceParameterValue) : Prop :=
  match v with VString s => Forall (fun c => c <> 0) s /\ last s <> Some 32 | _ => True end.

Lemma find_nul_le l : (find_nul l <= length l)%nat.
Proof. induction l as [|b l IH]; cbn [find_nul length]; [lia|]. destruct (b =? 0); lia. Qed.

Lemma find_nul_all l : find_nul l = length l <-> Forall (fun c => c <> 0) l.
Proof.
  induction l as [|b l IH]; cbn [find_nul length]; [done|]. rewrite Forall_cons, <- IH.
  destruct (Z.eqb_spec b 0); split; intros H; [lia|by destruct H|split; [done|lia]|f_equal; tauto].
Qed.

Lemma strip_spaces_le l n : (strip_spaces l n <= n)%nat.
Proof. induction n as [|n IH]; cbn [strip_spaces]; [lia|]. destruct (byte_at l n =? 32); lia. Qed.

Lemma strip_spaces_all l : strip_spaces l (length l) = length l <-> last l <> Some 32.
Proof.
  destruct (length l) as [|n] eqn:E; [by apply length_zero_iff_nil in E; subst|]. cbn [strip_spaces].
  rewrite last_lookup, E. cbn [pred]. destruct (lookup_lt_is_Some_2 l n ltac:(lia)) as [b Eb].
  rewrite Eb, (byte_at_Some _ _ _ Eb). pose proof (strip_spaces_le l n).
  destruct (Z.eqb_spec b 32) as [->|Hn]; split; intros H'; try done; [lia|congruence].
Qed.

Lemma take_text_all l : take (strip_spaces l (find_nul l)) l = l <-> Forall (fun c => c <> 0) l /\ last l <> Some 32.
Proof.
  rewrite <- find_nul_all, <- strip_spaces_all. pose proof (find_nul_le l). pose proof (strip_spaces_le l (find_nul l)).
  split.
  - intros Ht%(f_equal length). rewrite length_take in Ht. assert (E : find_nul l = length l) by lia.
    split; [done|]. rewrite E in *. lia.
  - intros [-> ->]. by apply take_ge.
Qed.

(** C8: what [encodeSdoBytes] writes, [decodeSdoBytes] reads back as the same typed value, for every
    data type; a VISIBLE_STRING comes back unchanged exactly when it holds no NUL and does not end in
    a space. *)
Theorem sdo_roundtrip dt v l :
  encodeSdoBytes dt v = Value l -> value_ok v ->
  decodeSdoBytes dt l = Value v <-> (dt = VISIBLE_STRING -> visible v).
Proof.
  rewrite encodeSdoBytes_table, decodeSdoBytes_table. intros He Hok.
  assert (Hstr : dt = VISIBLE_STRING -> exists s, defaultValueForDataType dt = VString s) by (intros ->; by eexists).
  destruct (defaultValueForDataType dt) as [t d|d|d|d|d] eqn:Ed.
  - unfold encodeInt in He. destruct v as [t' x| | | |]; try done. case_bool_decide as Et; [|done].
    subst t'. assert (l = le_bytes (int_bytes t) x) as -> by congruence. rewrite <- (app_nil_r (le_bytes _ _)), decodeInt_encoded by done.
    split; [|done]. intros _ H. by destruct (Hstr H).
  - destruct v as [|b| | |]; try done. assert (l = le_bytes 4 b) as -> by congruence. by rewrite decodeReal_encoded.
  - destruct v as [| |b| |]; try done. assert (l = le_bytes 8 b) as -> by congruence. by rewrite decodeReal_encoded.
  - destruct v as [| | |s|]; try done. injection He as <-. unfold is_type. case_bool_decide as Ev.
    + apply list_elem_of_singleton in Ev. cbn [visible]. rewrite <- take_text_all.
      split; [by intros [= ->]|]. intros H. by rewrite (H Ev).
    + split; [|done]. intros _ H. exfalso. apply Ev. by apply list_elem_of_singleton.
  - destruct v; try done. injection He as <-. split; [|done]. intros _ H. by destruct (Hstr H).
Qed.

(** ** Setting a value never changes the number *)

#[local] Opaque f32 f64.

(** The finite number [x] is the integer [z]. *)
Definition sf_equals (x : spec_float) (z : Z) : Prop :=
  match x with
  | S754_zero _ => z = 0
  | S754_finite s m e => z * 2 ^ Z.max 0 (- e) = cond_Zopp s (Zpos m) * 2 ^ Z.max 0 e
  | S754_infinity _ | S754_nan => False
  end.

Definition equals (v : DeviceParameterValue) (z : Z) : Prop :=
  match v with
  | VInt _ x => x = z
  | VFloat b => sf_equals (f32 b) z
  | VDouble b => sf_equals (f64 b) z
  | VString _ | VBytes _ => False
  end.

Lemma whole_spec x z : whole x = Some z <-> sf_equals x z.
Proof.
  destruct x as [s|s| |s m e]; cbn [whole sf_equals]; try done; [by split; [intros [= <-]|intros ->]|].
  destruct (Z.leb_spec 0 e) as [He|He].
  - rewrite (Z.max_l 0 (- e)), (Z.max_r 0 e), Z.pow_0_r by lia. split; [intros [= <-]; lia|]. intros H. f_equal. lia.
  - rewrite (Z.max_r 0 (- e)), (Z.max_l 0 e), Z.pow_0_r by lia.
    assert (Hp : 0 < 2 ^ (- e)) by (apply Z.pow_pos_nonneg; lia).
    pose proof (Z.div_mod (Zpos m) (2 ^ (- e)) ltac:(lia)) as Hdm.
    destruct (Z.eqb_spec (Zpos m mod 2 ^ (- e)) 0) as [E|E].
    + rewrite E in Hdm. split; [intros [= <-]|intros H; f_equal]; destruct s; cbn [cond_Zopp] in *; nia.
    + split; [done|]. intros H. exfalso. apply E.
      assert (Zpos m = (if s then - z else z) * 2 ^ (- e)) as -> by (destruct s; cbn [cond_Zopp] in H; lia).
      by rewrite Z.mod_mul by lia.
Qed.

Lemma in_range_bounds t z : (z <? int_min t) || (int_past t <=? z) = negb (in_range t z).
Proof. unfold in_range. rewrite negb_andb, <- Z.ltb_antisym, <- Z.leb_antisym. done. Qed.

Lemma equals_unique v z z' : equals v z -> equals v z' -> z = z'.
Proof.
  destruct v as [t x|b|b|s|s]; cbn [equals]; intros H H'.
  - congruence.
  - apply whole_spec in H, H'. congruence.
  - apply whole_spec in H, H'. congruence.
  - destruct H.
  - destruct H.
Qed.

(** Conversion to an integer type: the equal integer, or none in range. *)
Lemma convertExactly_int t d v : is_arithmetic v = true ->
  (exists z, equals v z /\ in_range t z = true /\ convertExactly (VInt t d) v = Value (VInt t z)) \/
  ((forall z, equals v z -> in_range t z = false) /\ exists e, convertExactly (VInt t d) v = Unexpected e).
Proof.
  assert (Hreal : forall x, (exists z, sf_equals x z /\ in_range t z = true /\ real_exactly t x = Value z) \/
    ((forall z, sf_equals x z -> in_range t z = false) /\ exists e, real_exactly t x = Unexpected e)).
  { intros x. unfold real_exactly. destruct (whole x) as [z|] eqn:E.
    - rewrite in_range_bounds. destruct (in_range t z) eqn:Er; cbn [negb].
      + left. exists z. by rewrite <- whole_spec.
      + right. split; [|by eexists]. intros z' H%whole_spec. congruence.
    - right. split; [|by eexists]. intros z H%whole_spec. congruence. }
  destruct v as [t' x|b|b| |]; try done; intros _; cbn [convertExactly equals].
  - unfold int_exactly. destruct (in_range t x) eqn:Er.
    + left. exists x. done.
    + right. split; [by intros ? <-|]. by eexists.
  - destruct (Hreal (f32 b)) as [(z & Hz & Hr & ->)|(Hn & e & ->)].
    + left. exists z. split; [exact Hz|]. split; [exact Hr|reflexivity].
    + right. split; [exact Hn|]. exists e. reflexivity.
  - destruct (Hreal (f64 b)) as [(z & Hz & Hr & ->)|(Hn & e & ->)].
    + left. exists z. split; [exact Hz|]. split; [exact Hr|reflexivity].
    + right. split; [exact Hn|]. exists e. reflexivity.
Qed.

(** Setting an integer parameter, in both outcomes. *)
Lemma setValue_cases p v t d :
  defaultValueForDataType (dataType p) = VInt t d ->
  (exists z p', equals v z /\ in_range t z = true /\ setValue p v = (p', Value tt) /\
     currentValue p' = VInt t z /\ rawValueBytes p' = le_bytes (int_bytes t) z /\
     syncState p' = syncState p) \/
  ((forall z, equals v z -> in_range t z = false) /\ exists e, setValue p v = (p, Unexpected e)).
Proof.
  intros Ed. unfold setValue, encode. rewrite Ed. cbn [expected_bind].
  destruct (is_arithmetic v) eqn:Ea.
  2: { right. split; [by destruct v|]. by eexists. }
  destruct (convertExactly_int t d v Ea) as [(z & Hz & Hr & ->)|(Hn & e & ->)]; cbn [expected_bind].
  2: { right. split; [done|]. by eexists. }
  left. rewrite encodeSdoBytes_table, Ed. unfold encodeInt. rewrite bool_decide_eq_true_2 by done.
  assert (Hw : scalarByteWidth (dataType p) = int_bytes t) by (unfold scalarByteWidth; by rewrite Ed).
  exists z. eexists. split; [done|]. split; [done|]. split; [reflexivity|]. split; [|split].
  - rewrite currentValue_setRawValue.
    + rewrite decodeSdoBytes_table, Ed, <- (app_nil_r (le_bytes _ _)), decodeInt_encoded by done. done.
    + split; [apply le_bytes_ok|]. rewrite length_le_bytes. lia.
  - apply rawValueBytes_setRawValue; [apply le_bytes_ok|]. by rewrite length_le_bytes.
  - unfold setRawValue. by destruct (isScalarDataType (dataType p)).
Qed.

(** Setting a parameter of an integer type either stores exactly the number it was given, which
    then reads back as that integer in the declared type and is transferred in the declared width, or
    reports an error and stores nothing, and does the first exactly when the value is an integer the
    type can hold. *)
Theorem setValue_exact p v t d :
  defaultValueForDataType (dataType p) = VInt t d ->
  (exists z p', equals v z /\ in_range t z = true /\ setValue p v = (p', Value tt) /\
     currentValue p' = VInt t z /\ rawValueBytes p' = le_bytes (int_bytes t) z /\
     syncState p' = syncState p) \/
  ((forall z, equals v z -> in_range t z = false) /\ exists e, setValue p v = (p, Unexpected e)).
Proof. intros Hd. by apply (setValue_cases p v t d). Qed.

(** A parameter declared UNSIGNED8, never read. *)
Definition w_param (dt : Z) : DeviceParameter :=
  mk_parameter 0x2003 1 (codes "Gain") 7 dt 8 63 ObjectDictionary 0 [] Unknown None [] None None None [] [] [].

Lemma sdo_roundtrip_witness :
  decodeSdoBytes VISIBLE_STRING (codes "SOMANET") = Value (VString (codes "SOMANET")) /\
  decodeSdoBytes VISIBLE_STRING (codes "SOMANET ") <> Value (VString (codes "SOMANET ")).
Proof.
  split.
  - apply (sdo_roundtrip VISIBLE_STRING (VString (codes "SOMANET"))); [done|by apply (bool_decide_unpack _)|].
    intros _. split; [by apply (bool_decide_unpack _)|done].
  - intros H.
    pose proof (proj1 (sdo_roundtrip VISIBLE_STRING (VString (codes "SOMANET ")) (codes "SOMANET ") eq_refl
      ltac:(by apply (bool_decide_unpack _))) H eq_refl) as [_ Hl]. by apply Hl.
Defined.

(** 200.0 as a [double] fits an UNSIGNED8; 200.5 and 256.0 do not. *)
Lemma setValue_exact_witness :
  exists p', setValue (w_param UNSIGNED8) (VDouble 0x4069000000000000) = (p', Value tt) /\
    currentValue p' = VInt U8 200.
Proof.
  destruct (setValue_exact (w_param UNSIGNED8) (VDouble 0x4069000000000000) U8 0) as
    [(z & p' & Hz & _ & Hs & Hc & _)|(Hn & _)]; [reflexivity| |].
  - exists p'. split; [exact Hs|]. rewrite Hc. f_equal.
    apply (equals_unique (VDouble 0x4069000000000000)); [exact Hz|vm_compute; reflexivity].
  - exfalso. specialize (Hn 200 ltac:(vm_compute; reflexivity)). discriminate Hn.
Defined.

End Param.
