(* ===== verification/Floats.v ===== *)
(** * Widening and narrowing a float

    [static_cast<double>(float)] is exact and [static_cast<float>(double)] undoes it, on the bit patterns
    the parameter values hold. *)

From Stdlib Require Import Floats.SpecFloat.
From S2P Require Import Prelude Util DeviceParameter.

Module Floats.
Import Param.

(** A number in the format with [mw] mantissa bits and [ew] exponent bits, in its one representation. *)
Definition canon (mw ew : Z) (m : positive) (e : Z) : Prop :=
  fexp (mw + 1) (sf_emax ew) (Z.pos (digits2_pos m) + e) = e /\ e <= sf_emax ew - (mw + 1).

Lemma digits_bounds m : 2 ^ (Z.pos (digits2_pos m) - 1) <= Z.pos m < 2 ^ Z.pos (digits2_pos m).
Proof.
  induction m as [m IH|m IH|]; cbn [digits2_pos]; [| |done]; rewrite ?Pos2Z.inj_succ, ?Z.sub_1_r, ?Z.pred_succ, Z.pow_succ_r by lia;
    replace (Z.pos (digits2_pos m)) with (Z.succ (Z.pos (digits2_pos m) - 1)) at 1 by lia; rewrite Z.pow_succ_r by lia; lia.
Qed.

Lemma digits_unique m d : 2 ^ (d - 1) <= Z.pos m < 2 ^ d -> Z.pos (digits2_pos m) = d.
Proof.
  intros H. pose proof (digits_bounds m) as B.
  destruct (Z.lt_trichotomy (Z.pos (digits2_pos m)) d) as [L|[E|L]]; [|done|]; exfalso.
  - pose proof (Z.pow_le_mono_r 2 (Z.pos (digits2_pos m)) (d - 1)). lia.
  - destruct (Z.le_gt_cases 0 d); [|rewrite (Z.pow_neg_r 2 d) in H by lia; lia].
    pose proof (Z.pow_le_mono_r 2 d (Z.pos (digits2_pos m) - 1)). lia.
Qed.

Lemma digits_shift m k p : 0 <= k -> Z.pos p = Z.pos m * 2 ^ k -> Z.pos (digits2_pos p) = Z.pos (digits2_pos m) + k.
Proof.
  intros Hk E. apply digits_unique. rewrite E. pose proof (digits_bounds m).
  replace (Z.pos (digits2_pos m) + k - 1) with (Z.pos (digits2_pos m) - 1 + k) by lia. rewrite !Z.pow_add_r by lia.
  pose proof (Z.pow_pos_nonneg 2 k). nia.
Qed.

(** ** Rounding a number that fits *)
Abbreviation exact m := (Build_shr_record (Z.pos m) false false).

Lemma shift_left m k : Z.pos (Pos.iter xO m k) = Z.pos m * 2 ^ Z.pos k.
Proof. change (Pos.iter xO m k) with (shift_pos k m). rewrite shift_pos_correct, Z.pow_pos_fold. lia. Qed.

Lemma shift_right m k : SpecFloat.iter_pos shr_1 k (exact (Pos.iter xO m k)) = exact m.
Proof.
  revert m. induction k as [k IH|k IH|]; intros m; [| |done].
  - change (Pos.iter xO m k~1) with (xO (Pos.iter xO (Pos.iter xO m k) k)). cbn [SpecFloat.iter_pos shr_1 orb]. by rewrite !IH.
  - change (Pos.iter xO m k~0) with (Pos.iter xO (Pos.iter xO m k) k). cbn [SpecFloat.iter_pos]. by rewrite !IH.
Qed.

Lemma shr_exact m p k e : 0 <= k -> Z.pos p = Z.pos m * 2 ^ k -> shr (exact p) e k = (exact m, e + k).
Proof.
  intros Hk E. destruct k as [|k|k]; [|cbn|lia].
  - rewrite Z.mul_1_r in E. injection E as ->. cbn. by rewrite Z.add_0_r.
  - rewrite <- shift_left in E. injection E as ->. by rewrite shift_right.
Qed.

Lemma round_aux_exact mw ew s m e p k : canon mw ew m e -> 0 <= k -> Z.pos p = Z.pos m * 2 ^ k ->
  binary_round_aux (mw + 1) (sf_emax ew) s (Z.pos p) (e - k) loc_Exact = S754_finite s m e.
Proof.
  intros [Hc He] Hk E. unfold binary_round_aux, shr_fexp. cbn [Zdigits2 shr_record_of_loc].
  rewrite (digits_shift m k p Hk E). replace (Z.pos (digits2_pos m) + k + (e - k)) with (Z.pos (digits2_pos m) + e) by lia.
  rewrite Hc. replace (e - (e - k)) with k by lia. rewrite (shr_exact m p k _ Hk E). cbn [shr_m loc_of_shr_record round_nearest_even Zdigits2].
  replace (e - k + k) with e by lia. rewrite Hc, Z.sub_diag. cbn [shr shr_m]. by rewrite (proj2 (Z.leb_le _ _) He).
Qed.

(** A number that has a representation in the format is rounded to it, from a wider and from a shorter mantissa. *)
Lemma round_wider mw ew s m e p k : canon mw ew m e -> 0 <= k -> Z.pos p = Z.pos m * 2 ^ k -> round_to mw ew (S754_finite s p (e - k)) = S754_finite s m e.
Proof.
  intros Hc Hk E. unfold round_to, binary_normalize. assert (R : binary_round (mw + 1) (sf_emax ew) s p (e - k) = S754_finite s m e); [|by destruct s].
  unfold binary_round. rewrite (digits_shift m k p Hk E). replace (Z.pos (digits2_pos m) + k + (e - k)) with (Z.pos (digits2_pos m) + e) by lia.
  rewrite (proj1 Hc). unfold shl_align. replace (e - (e - k)) with k by lia. destruct k; [| |lia]; by apply round_aux_exact.
Qed.

Lemma round_shorter mw ew s m e p k : canon mw ew m e -> 0 <= k -> Z.pos m = Z.pos p * 2 ^ k -> round_to mw ew (S754_finite s p (e + k)) = S754_finite s m e.
Proof.
  intros Hc Hk E. unfold round_to, binary_normalize. assert (R : binary_round (mw + 1) (sf_emax ew) s p (e + k) = S754_finite s m e); [|by destruct s].
  unfold binary_round. pose proof (digits_shift p k m Hk E) as D. replace (Z.pos (digits2_pos p) + (e + k)) with (Z.pos (digits2_pos m) + e) by lia.
  rewrite (proj1 Hc). unfold shl_align. replace (e - (e + k)) with (- k) by lia. pose proof (round_aux_exact mw ew s m e m 0 Hc ltac:(lia) ltac:(lia)) as R. rewrite Z.sub_0_r in R.
  destruct k as [|k|k]; [| |lia].
  - rewrite Z.mul_1_r in E. injection E as <-. rewrite Z.add_0_r. exact R.
  - rewrite <- shift_left in E. injection E as E. subst m. exact R.
Qed.

(** ** Bit patterns *)
Section Format.
Context (mw ew : Z) (Hm : 0 < mw) (He : 2 <= ew).

Definition pattern (s : bool) (e f : Z) : Z := f + e * 2 ^ mw + Z.b2z s * 2 ^ (mw + ew).

Lemma pattern_range s e f : in_u mw f -> in_u ew e -> in_u (mw + ew + 1) (pattern s e f).
Proof using Hm He.
  unfold in_u, pattern. intros Hf Hx. rewrite !Z.pow_add_r by lia. pose proof (Z.pow_pos_nonneg 2 mw). pose proof (Z.pow_pos_nonneg 2 ew).
  destruct s; cbn [Z.b2z]; nia.
Qed.

Lemma pattern_land s e f : in_u mw f -> in_u ew e -> Z.land (pattern s e f) (2 ^ mw - 1) = f.
Proof using Hm He.
  intros Hf Hx. replace (2 ^ mw - 1) with (Z.ones mw) by (rewrite Z.ones_equiv; lia). rewrite Z.land_ones by lia.
  unfold pattern. rewrite Z.pow_add_r by lia.
  replace (f + e * 2 ^ mw + Z.b2z s * (2 ^ mw * 2 ^ ew)) with (f + (e + Z.b2z s * 2 ^ ew) * 2 ^ mw) by ring.
  rewrite Z.mod_add by (apply Z.pow_nonzero; lia). by apply Z.mod_small.
Qed.

Lemma pattern_div s e f : in_u mw f -> pattern s e f / 2 ^ mw = e + Z.b2z s * 2 ^ ew.
Proof using Hm He.
  intros Hf. unfold pattern. rewrite Z.pow_add_r by lia.
  replace (f + e * 2 ^ mw + Z.b2z s * (2 ^ mw * 2 ^ ew)) with (f + (e + Z.b2z s * 2 ^ ew) * 2 ^ mw) by ring.
  rewrite Z.div_add by (apply Z.pow_nonzero; lia). rewrite Z.div_small; [lia|done].
Qed.

Lemma pattern_expo s e f : in_u mw f -> in_u ew e -> Z.land (Z.shiftr (pattern s e f) mw) (2 ^ ew - 1) = e.
Proof using Hm He.
  intros Hf Hx. replace (2 ^ ew - 1) with (Z.ones ew) by (rewrite Z.ones_equiv; lia). rewrite Z.land_ones, Z.shiftr_div_pow2, pattern_div by done || lia.
  rewrite Z.mod_add by (apply Z.pow_nonzero; lia). by apply Z.mod_small.
Qed.

Lemma pattern_sign s e f : in_u mw f -> in_u ew e -> Z.testbit (pattern s e f) (mw + ew) = s.
Proof using Hm He.
  intros Hf Hx. rewrite Z.testbit_eqb, Z.pow_add_r, <- Z.div_div, pattern_div by (done || lia || (apply Z.pow_pos_nonneg; lia) || (apply Z.pow_nonzero; lia)).
  rewrite Z.div_add, Z.div_small by (done || (apply Z.pow_nonzero; lia)). by destruct s.
Qed.

Lemma pattern_of b : in_u (mw + ew + 1) b -> exists s e f, in_u mw f /\ in_u ew e /\ b = pattern s e f.
Proof using Hm He.
  intros [H0 H1]. rewrite !Z.pow_add_r in H1 by lia. pose proof (Z.pow_pos_nonneg 2 mw ltac:(lia) ltac:(lia)). pose proof (Z.pow_pos_nonneg 2 ew ltac:(lia) ltac:(lia)).
  pose proof (Z.div_mod b (2 ^ mw) ltac:(lia)). pose proof (Z.mod_pos_bound b (2 ^ mw) ltac:(lia)).
  pose proof (Z.div_mod (b / 2 ^ mw) (2 ^ ew) ltac:(lia)). pose proof (Z.mod_pos_bound (b / 2 ^ mw) (2 ^ ew) ltac:(lia)).
  assert (0 <= b / 2 ^ mw / 2 ^ ew < 2). { split; [apply Z.div_pos; [apply Z.div_pos|]; lia|]. apply Z.div_lt_upper_bound; [lia|]. apply Z.div_lt_upper_bound; lia. }
  exists (b / 2 ^ mw / 2 ^ ew =? 1), ((b / 2 ^ mw) mod 2 ^ ew), (b mod 2 ^ mw). split_and!; [done|done|].
  unfold pattern. rewrite Z.pow_add_r by lia. destruct (Z.eqb_spec (b / 2 ^ mw / 2 ^ ew) 1) as [E|E]; cbn [Z.b2z]; nia.
Qed.

Definition finite_bits (b : Z) : bool := negb (Z.land (Z.shiftr b mw) (2 ^ ew - 1) =? 2 ^ ew - 1).

(** A pattern of a finite number is zero or a number in its one representation, and says which. *)
Lemma bits_finite b : in_u (mw + ew + 1) b -> finite_bits b = true ->
  bits_of_float mw ew (float_of_bits mw ew b) = b /\
  match float_of_bits mw ew b with S754_zero _ => True | S754_finite _ m e => canon mw ew m e | _ => False end.
Proof using Hm He.
  intros (s & e & f & Hf & Hx & ->)%pattern_of Hfin. unfold finite_bits in Hfin. unfold float_of_bits.
  rewrite pattern_land, pattern_sign, pattern_expo by done. rewrite pattern_expo in Hfin by done.
  destruct (Z.eqb_spec e (2 ^ ew - 1)) as [|Hne]; [done|].
  assert (Hs : forall s : bool, (if s then Z.shiftl 1 (mw + ew) else 0) = Z.b2z s * 2 ^ (mw + ew)).
  { intros []; [rewrite Z.shiftl_mul_pow2 by lia|]; cbn [Z.b2z]; lia. }
  destruct (Z.eqb_spec e 0) as [->|Hnz].
  - unfold in_u in Hf. destruct f as [|m|m]; [| |lia]; cbn [bits_of_float]; rewrite Hs; unfold pattern.
    + split; [lia|done].
    + rewrite (proj2 (Z.ltb_lt _ _)) by lia. split; [lia|]. pose proof (digits_bounds m) as D. unfold canon, fexp, SpecFloat.emin, sf_emin, sf_emax.
      assert (Z.pos (digits2_pos m) - 1 < mw). { apply (Z.pow_lt_mono_r_iff 2); lia. }
      pose proof (Z.pow_le_mono_r 2 1 (ew - 1)). lia.
  - unfold in_u in Hf, Hx. destruct (f + 2 ^ mw) as [|m|m] eqn:E; [lia| |lia]. cbn [bits_of_float]. rewrite Hs, (proj2 (Z.ltb_ge _ _)) by lia.
    rewrite Z.shiftl_mul_pow2 by lia. unfold pattern. split; [replace (e + sf_emin mw ew - 1 - sf_emin mw ew + 1) with e by lia; lia|].
    assert (D : Z.pos (digits2_pos m) = mw + 1). { apply digits_unique. rewrite Z.add_simpl_r, Z.pow_add_r by lia. lia. }
    unfold canon, fexp, SpecFloat.emin, sf_emin, sf_emax in *. rewrite D. replace (2 ^ ew) with (2 * 2 ^ (ew - 1)) in * by (rewrite <- Z.pow_succ_r by lia; f_equal; lia). lia.
Qed.

Lemma float_bits s m e : canon mw ew m e -> float_of_bits mw ew (bits_of_float mw ew (S754_finite s m e)) = S754_finite s m e /\
  finite_bits (bits_of_float mw ew (S754_finite s m e)) = true /\ in_u (mw + ew + 1) (bits_of_float mw ew (S754_finite s m e)).
Proof using Hm He.
  intros [Hc Hb]. pose proof (digits_bounds m) as D. unfold fexp, SpecFloat.emin, sf_emin, sf_emax in *. fold (sf_emax ew) in *.
  assert (Hs : forall s : bool, (if s then Z.shiftl 1 (mw + ew) else 0) = Z.b2z s * 2 ^ (mw + ew)).
  { intros []; [rewrite Z.shiftl_mul_pow2 by lia|]; cbn [Z.b2z]; lia. }
  assert (Hd : Z.pos m < 2 ^ (mw + 1)). { pose proof (Z.pow_le_mono_r 2 (Z.pos (digits2_pos m)) (mw + 1)). lia. }
  assert (P2 : 2 ^ ew = 2 * sf_emax ew) by (unfold sf_emax; rewrite <- Z.pow_succ_r by lia; f_equal; lia).
  assert (2 <= sf_emax ew) by (unfold sf_emax; pose proof (Z.pow_le_mono_r 2 1 (ew - 1)); lia).
  rewrite Z.pow_add_r in Hd by lia.
  cbn [bits_of_float]. rewrite Hs. destruct (Z.ltb_spec (Z.pos m) (2 ^ mw)) as [Hl|Hl].
  - assert (e = sf_emin mw ew) as ->.
    { assert (Z.pos (digits2_pos m) - 1 < mw) by (apply (Z.pow_lt_mono_r_iff 2); lia). unfold sf_emin. lia. }
    replace (Z.b2z s * 2 ^ (mw + ew) + Z.pos m) with (pattern s 0 (Z.pos m)) by (unfold pattern; lia).
    assert (in_u mw (Z.pos m)) by (unfold in_u; lia). assert (in_u ew 0) by (unfold in_u; lia).
    split_and!; [|unfold finite_bits; rewrite pattern_expo by done; rewrite (proj2 (Z.eqb_neq _ _)) by lia; done|by apply pattern_range].
    unfold float_of_bits. by rewrite pattern_land, pattern_sign, pattern_expo by done.
  - assert (Hdm : Z.pos (digits2_pos m) = mw + 1).
    { apply digits_unique. rewrite Z.add_simpl_r, Z.pow_add_r by lia. lia. }
    set (x := e - sf_emin mw ew + 1). rewrite Z.shiftl_mul_pow2 by lia.
    replace (Z.b2z s * 2 ^ (mw + ew) + x * 2 ^ mw + (Z.pos m - 2 ^ mw)) with (pattern s x (Z.pos m - 2 ^ mw)) by (unfold pattern; lia).
    assert (Hx : 0 < x < 2 ^ ew - 1) by (unfold x, sf_emin; lia).
    assert (in_u mw (Z.pos m - 2 ^ mw)) by (unfold in_u; lia). assert (in_u ew x) by (unfold in_u; lia).
    split_and!; [|unfold finite_bits; rewrite pattern_expo by done; rewrite (proj2 (Z.eqb_neq _ _)) by lia; done|by apply pattern_range].
    unfold float_of_bits. rewrite pattern_land, pattern_sign, pattern_expo by done. rewrite !(proj2 (Z.eqb_neq _ _)) by lia.
    replace (Z.pos m - 2 ^ mw + 2 ^ mw) with (Z.pos m) by lia. f_equal. unfold x. lia.
Qed.
End Format.

(** ** [static_cast] between the two formats *)
Definition widen (b : Z) : Z := bits_of_float 52 11 (round_to 52 11 (f32 b)).
Definition narrow (d : Z) : Z := bits_of_float 23 8 (round_to 23 8 (f64 d)).
Definition finite32 (b : Z) : bool := finite_bits 23 8 b.
Definition finite64 (d : Z) : bool := finite_bits 52 11 d.

(** Every [float] is a [double]. *)
Lemma canon_wider m e : canon 23 8 m e -> exists k p, 0 <= k /\ Z.pos p = Z.pos m * 2 ^ k /\ canon 52 11 p (e - k).
Proof.
  intros [Hc He]. set (k := e - fexp 53 (sf_emax 11) (Z.pos (digits2_pos m) + e)). pose proof (digits_bounds m).
  assert (Hk : 0 <= k /\ fexp 53 (sf_emax 11) (Z.pos (digits2_pos m) + e) <= 971).
  { unfold k. unfold fexp, SpecFloat.emin, sf_emax in *. cbn in *. lia. }
  destruct (Z.pos m * 2 ^ k) as [|p|p] eqn:E; [pose proof (Z.pow_pos_nonneg 2 k); lia| |pose proof (Z.pow_pos_nonneg 2 k); lia].
  exists k, p. split_and!; [lia|done|]. unfold canon. change (52 + 1) with 53. rewrite (digits_shift m k p) by lia.
  replace (Z.pos (digits2_pos m) + k + (e - k)) with (Z.pos (digits2_pos m) + e) by lia. split; [unfold k; lia|].
  replace (sf_emax 11 - 53) with 971 by reflexivity. unfold k. lia.
Qed.

(** A finite [float] cast to [double] stays finite and comes back unchanged. *)
Theorem narrow_widen b : in_u 32 b -> finite32 b = true -> narrow (widen b) = b /\ finite64 (widen b) = true /\ in_u 64 (widen b).
Proof.
  intros Hb Hf. destruct (bits_finite 23 8 ltac:(lia) ltac:(lia) b Hb Hf) as [Hr Hc]. unfold narrow, widen, f64. fold (f32 b) in Hr, Hc.
  destruct (f32 b) as [[]| | |s m e] eqn:Ef; try done; [by rewrite <- Hr..|].
  destruct (canon_wider m e Hc) as (k & p & Hk & E & Hp).
  assert (round_to 52 11 (S754_finite s m e) = S754_finite s p (e - k)) as ->.
  { replace (S754_finite s m e) with (S754_finite s m (e - k + k)) by (f_equal; lia). by apply round_shorter. }
  destruct (float_bits 52 11 ltac:(lia) ltac:(lia) s p (e - k) Hp) as (-> & Hf' & Hu). split_and!; [|done|done].
  by rewrite (round_wider 23 8 s m e p k).
Qed.
End Floats.
