(* ===== verification/Json.v ===== *)
(** * JSON documents and the library that reads and writes them

    The JSON library (nlohmann) is a class with the laws the program relies on; a document is its data
    model. A library that keeps the laws is at the end. *)

From S2P Require Import Prelude Util DeviceParameter Floats.

Module Json.
Import Param Floats.

(** ** Documents *)
#[local] Unset Elimination Schemes.
Inductive json :=
  | JNull
  | JBool (b : bool)
  | JInt (v : Z)
  | JFloat (bits : Z)
  | JString (s : text)
  | JArray (l : list json)
  | JObject (o : list (text * json)).
#[local] Set Elimination Schemes.

(** An object is a [std::map]: its keys are kept in order. *)
Fixpoint text_compare (a b : text) : comparison :=
  match a, b with
  | [], [] => Eq
  | [], _ => Lt
  | _, [] => Gt
  | x :: a', y :: b' => match x ?= y with Eq => text_compare a' b' | c => c end
  end.
Fixpoint obj_set (k : text) (v : json) (o : list (text * json)) : list (text * json) :=
  match o with
  | [] => [(k, v)]
  | (k', v') :: o' =>
      match text_compare k k' with
      | Lt => (k, v) :: o
      | Eq => (k, v) :: o'
      | Gt => (k', v') :: obj_set k v o'
      end
  end.
Fixpoint obj_get (k : text) (o : list (text * json)) : option json :=
  match o with [] => None | (k', v) :: o' => if bool_decide (k' = k) then Some v else obj_get k o' end.
Definition obj_of (l : list (text * json)) : list (text * json) := foldl (fun o kv => obj_set kv.1 kv.2 o) [] l.

(** What a file holds of a document: a number that is not finite is written as null. *)
Fixpoint reread (j : json) : json :=
  match j with
  | JFloat b => if finite64 b then j else JNull
  | JArray l => JArray (map reread l)
  | JObject o => JObject (map (fun kv => (kv.1, reread kv.2)) o)
  | _ => j
  end.
Fixpoint strings_ok (ok : text -> bool) (j : json) : bool :=
  match j with
  | JString s => ok s
  | JArray l => forallb (strings_ok ok) l
  | JObject o => forallb (fun kv => ok kv.1 && strings_ok ok kv.2) o
  | _ => true
  end.

(** The library. [None] stands for an exception. *)
Class JsonLib := {
  dump : json -> option bytes;
  parse : bytes -> option json;
  utf8 : text -> bool;
  get_int : IntType -> json -> option Z;
  get_float : json -> option Z;
  get_double : json -> option Z;
  get_string : json -> option text;
  get_bytes : json -> option bytes;
  elements : json -> list json }.

(** What the code relies on: a number reads as the type it was written with, a document is dumped when its
    strings are UTF-8 and read back from its dump, and part of a document does not parse. *)
Class JsonLaws `{JsonLib} := {
  get_int_law t v : in_range t v = true -> get_int t (JInt v) = Some v;
  get_float_law d : get_float (JFloat d) = Some (narrow d);
  get_double_law d : get_double (JFloat d) = Some d;
  get_string_law s : get_string (JString s) = Some s;
  get_bytes_law b : bytes_ok b -> get_bytes (JArray (JInt <$> b)) = Some b;
  elements_law l : elements (JArray l) = l;
  dump_law j : is_Some (dump j) <-> strings_ok utf8 j = true;
  parse_empty_law : parse [] = None;
  parse_law o b : dump (JObject o) = Some b -> parse (b ++ [10]) = Some (reread (JObject o));
  parse_part_law o b n j : dump (JObject o) = Some b -> parse (take n (b ++ [10])) = Some j -> j = reread (JObject o) }.

(** Sets a member that may be absent. *)
Definition set_some {A} (k : text) (f : A -> json) (v : option A) (o : list (text * json)) : list (text * json) :=
  match v with Some x => obj_set k (f x) o | None => o end.

(** [j.at(k)], [j.find(k)] and [doc.value(k, d)]; the outer [None] is an exception. *)
Definition at_key (j : json) (k : text) : option json := match j with JObject o => obj_get k o | _ => None end.
Definition find_key {A} (j : json) (k : text) (f : json -> option A) : option (option A) :=
  match at_key j k with None | Some JNull => Some None | Some x => Some <$> f x end.
Definition value_or {A} (j : json) (k : text) (f : json -> option A) (d : A) : option A :=
  match j with JObject o => match obj_get k o with None => Some d | Some x => f x end | _ => None end.

(** ** Objects *)
Lemma text_compare_eq a b : text_compare a b = Eq <-> a = b.
Proof.
  revert b. induction a as [|x a IH]; intros [|y b]; cbn; [done..|]. destruct (Z.compare_spec x y) as [->|Hl|Hl].
  - rewrite IH. split; [by intros ->|congruence].
  - split; [done|]. intros [= -> _]. lia.
  - split; [done|]. intros [= -> _]. lia.
Qed.

Lemma obj_get_set k k' v o : obj_get k (obj_set k' v o) = if bool_decide (k' = k) then Some v else obj_get k o.
Proof.
  induction o as [|[k2 v2] o IH]; cbn; [done|]. destruct (text_compare k' k2) eqn:E; cbn; [|done|].
  - apply text_compare_eq in E as ->. by case_bool_decide.
  - rewrite IH. do 2 case_bool_decide; subst; try done. by rewrite (proj2 (text_compare_eq k k) eq_refl) in E.
Qed.

Lemma obj_get_some {A} k k' (f : A -> json) v o : obj_get k (set_some k' f v o) =
  if bool_decide (k' = k) then match v with Some x => Some (f x) | None => obj_get k o end else obj_get k o.
Proof. destruct v as [x|]; cbn [set_some]; [apply obj_get_set|by case_bool_decide]. Qed.

Lemma obj_get_of k l : obj_get k (obj_of l) = obj_get k (reverse l).
Proof.
  unfold obj_of. induction l as [|[k' v] l IH] using rev_ind; [done|]. rewrite foldl_snoc, reverse_snoc, obj_get_set. cbn [obj_get fst snd].
  by rewrite IH.
Qed.

Lemma obj_get_reread k o : obj_get k (map (fun kv => (kv.1, reread kv.2)) o) = reread <$> obj_get k o.
Proof. induction o as [|[k' v] o IH]; cbn; [done|]. by case_bool_decide. Qed.

Lemma at_key_reread j k : at_key (reread j) k = match j with JObject o => reread <$> obj_get k o | _ => None end.
Proof. destruct j; try done; cbn; [by destruct (finite64 _)|]. apply obj_get_reread. Qed.

(** ** A library that keeps the laws *)
Section JsonInd.
Context (P : json -> Prop) (Hnull : P JNull) (Hbool : forall b, P (JBool b)) (Hint : forall v, P (JInt v)) (Hfloat : forall b, P (JFloat b)) (Hstring : forall s, P (JString s))
  (Harray : forall l, Forall P l -> P (JArray l)) (Hobject : forall o, Forall (fun kv => P kv.2) o -> P (JObject o)).
Fixpoint json_nested_ind (j : json) : P j :=
  match j with
  | JNull => Hnull
  | JBool b => Hbool b
  | JInt v => Hint v
  | JFloat b => Hfloat b
  | JString s => Hstring s
  | JArray l => Harray l ((fix go l : Forall P l := match l with [] => List.Forall_nil _ | x :: l => @List.Forall_cons _ _ x l (json_nested_ind x) (go l) end) l)
  | JObject o => Hobject o ((fix go o : Forall (fun kv => P kv.2) o := match o with [] => List.Forall_nil _ | kv :: o => @List.Forall_cons _ _ kv o (json_nested_ind kv.2) (go o) end) o)
  end.
End JsonInd.

Fixpoint to_tree (j : json) : gen_tree (Z + text) :=
  match j with
  | JNull => GenNode 0 []
  | JBool b => GenNode 7 [GenLeaf (inl (Z.b2z b))]
  | JInt v => GenNode 1 [GenLeaf (inl v)]
  | JFloat b => GenNode 2 [GenLeaf (inl b)]
  | JString s => GenNode 3 [GenLeaf (inr s)]
  | JArray l => GenNode 4 (map to_tree l)
  | JObject o => GenNode 5 (map (fun kv => GenNode 6 [GenLeaf (inr kv.1); to_tree kv.2]) o)
  end.
Fixpoint of_tree (t : gen_tree (Z + text)) : json :=
  match t with
  | GenNode 1 [GenLeaf (inl v)] => JInt v
  | GenNode 7 [GenLeaf (inl v)] => JBool (v =? 1)
  | GenNode 2 [GenLeaf (inl b)] => JFloat b
  | GenNode 3 [GenLeaf (inr s)] => JString s
  | GenNode 4 l => JArray (map of_tree l)
  | GenNode 5 l => JObject (map (fun t => match t with GenNode 6 [GenLeaf (inr k); t'] => (k, of_tree t') | _ => ([], JNull) end) l)
  | _ => JNull
  end.
Lemma of_to_tree j : of_tree (to_tree j) = j.
Proof.
  induction j as [|x|v|b|s|l Hl|o Ho] using json_nested_ind; try done; [by destruct x|..]; cbn; f_equal; rewrite map_map.
  - induction Hl as [|x l Hx _ IH]; cbn; [done|]. by rewrite Hx, IH.
  - induction Ho as [|[k v] o Hx _ IH]; cbn; [done|]. cbn in Hx. by rewrite Hx, IH.
Qed.

Definition token_json : JsonLib := {|
  dump j := if strings_ok (forallb (fun c => (0 <=? c) && (c <? 128))) j then Some [Z.pos (countable.encode (to_tree (reread j)))] else None;
  parse b := match b with
    | Z.pos t :: rest => if bool_decide (rest = [] \/ rest = [10]) then of_tree <$> countable.decode t else None
    | _ => None
    end;
  utf8 := forallb (fun c => (0 <=? c) && (c <? 128));
  get_int t j := match j with JInt v => if in_range t v then Some v else None | _ => None end;
  get_float j := match j with JFloat d => Some (narrow d) | _ => None end;
  get_double j := match j with JFloat d => Some d | _ => None end;
  get_string j := match j with JString s => Some s | _ => None end;
  get_bytes j := match j with JArray l => mapM (fun x => match x with JInt v => Some v | _ => None end) l | _ => None end;
  elements j := match j with JArray l => l | _ => [] end |}.

Lemma token_json_laws : @JsonLaws token_json.
Proof.
  assert (Hp : forall j rest, rest = [] \/ rest = [10] -> @parse token_json (Z.pos (countable.encode (to_tree (reread j))) :: rest) = Some (reread j)).
  { intros j rest Hr. cbn [parse token_json]. rewrite bool_decide_true by done. rewrite countable.decode_encode. cbn. by rewrite of_to_tree. }
  split; try done.
  - intros t v Hv. cbn. by rewrite Hv.
  - intros b _. cbn [get_bytes token_json]. apply mapM_Some. induction b; constructor; done.
  - intros j. cbn [dump utf8 token_json]. destruct (strings_ok _ j); split; (done || eauto || by intros [? ?]).
  - intros o b. cbn [dump token_json]. destruct (strings_ok _ _); [|done]. intros E. apply Some_inj in E. rewrite <- E. apply Hp. by right.
  - intros o b n j. cbn [dump token_json]. destruct (strings_ok _ _); [|done]. intros E. apply Some_inj in E. rewrite <- E. destruct n as [|[|n]]; [done|..]; cbn [app take].
    + rewrite Hp by (by left). by intros <-%Some_inj.
    + rewrite take_nil, Hp by (by right). by intros <-%Some_inj.
Qed.

End Json.
