(* ===== verification/ParameterCache.v ===== *)
(** * The cache of object dictionaries ([libs/node/parameter_cache.cc], [firmware_version.cc])

    The cache keeps one JSON file per vendor, product and firmware version. The JSON library is a class;
    the directory is a map from file names to bytes, and each step of the file system may fail. *)

From S2P Require Import Prelude Util Driver DeviceParameter Floats Json.

Module Cache.
Import Param Floats Json.

(** ** Firmware versions *)
Definition isPadding (c : Z) : bool := (c =? 32) || (c =? 9) || (c =? 13) || (c =? 10).
Fixpoint trim_front (l : text) : text :=
  match l with c :: l' => if isPadding c then trim_front l' else l | [] => [] end.
Definition trim_back (l : text) : text := reverse (trim_front (reverse l)).
Definition trimFirmwareVersion (l : bytes) : text := trim_back (trim_front (take (find_nul l) l)).

Definition safe_char (c : Z) : bool :=
  ((65 <=? c) && (c <=? 90)) || ((97 <=? c) && (c <=? 122)) || ((48 <=? c) && (c <=? 57)) || (c =? 46) || (c =? 95) || (c =? 45).
Definition sanitizeFirmwareVersion (version : text) : text :=
  (fun c => if safe_char c then c else 95) <$> take 64 version.

(** ** Ids *)

(** [std::format("{:08x}", v)] of a 32-bit value. *)
Definition lower_hex (d : Z) : Z := if d <? 10 then 48 + d else 87 + d.
Definition hex8 (v : Z) : text := (fun i => lower_hex ((v / 16 ^ i) mod 16)) <$> [7; 6; 5; 4; 3; 2; 1; 0].
Definition dash : Z := 45.
Definition makeId (vendorId productCode : Z) (firmwareVersion : text) : text :=
  hex8 vendorId ++ [dash] ++ hex8 productCode ++ [dash] ++ sanitizeFirmwareVersion firmwareVersion.

Record ParsedId := mk_id { id_vendor : Z; id_product : Z; id_version : text }.

(** The text before the first dash, and what follows it. *)
Fixpoint split_dash (l : text) : option (text * text) :=
  match l with
  | [] => None
  | c :: l' => if c =? dash then Some ([], l') else match split_dash l' with Some (t, r) => Some (c :: t, r) | None => None end
  end.
Definition parse_field (id : text) : option (Z * text) :=
  match split_dash id with
  | None => None
  | Some (token, rest) => match Util.from_chars 32 16 token with Some (v, []) => Some (v, rest) | _ => None end
  end.
Definition parseId (id : text) : option ParsedId :=
  match parse_field id with
  | None => None
  | Some (vendor, id) =>
      match parse_field id with
      | None => None
      | Some (product, id) => if Util.isUrlSafeId id then Some (mk_id vendor product id) else None
      end
  end.

(** A file is named by a directory and a name in it. *)
Abbreviation path := (text * text)%type.
Abbreviation files := (gmap path bytes).

(** ** Definitions *)
Section Operations.
Context `{JsonLib}.

Definition valueToJson (v : DeviceParameterValue) : json :=
  match v with
  | VInt _ z => JInt z
  | VFloat b => JFloat (widen b)
  | VDouble b => JFloat b
  | VString s => JString s
  | VBytes b => JArray (JInt <$> b)
  end.
Definition valueFromJson (prototype : DeviceParameterValue) (j : json) : option DeviceParameterValue :=
  match prototype with
  | VInt t _ => VInt t <$> get_int t j
  | VFloat _ => VFloat <$> get_float j
  | VDouble _ => VDouble <$> get_double j
  | VString _ => VString <$> get_string j
  | VBytes _ => VBytes <$> get_bytes j
  end.

Definition definitionToJson (p : DeviceParameter) : json :=
  JObject (set_some (codes "maxValue") valueToJson (maxValue p) (set_some (codes "minValue") valueToJson (minValue p)
    (set_some (codes "defaultValue") valueToJson (defaultValue p) (set_some (codes "unit") JInt (unit_ p)
    (obj_of [(codes "index", JInt (index p)); (codes "subindex", JInt (subindex p)); (codes "name", JString (name p));
       (codes "objectCode", JInt (objectCode p)); (codes "dataType", JInt (dataType p)); (codes "bitLength", JInt (bitLength p));
       (codes "access", JInt (access p))]))))).

Definition definitionFromJson (j : json) : option DeviceParameter :=
  index ← at_key j (codes "index") ≫= get_int U16;
  subindex ← at_key j (codes "subindex") ≫= get_int U8;
  name ← at_key j (codes "name") ≫= get_string;
  objectCode ← at_key j (codes "objectCode") ≫= get_int U16;
  dataType ← at_key j (codes "dataType") ≫= get_int U16;
  bitLength ← at_key j (codes "bitLength") ≫= get_int U16;
  access ← at_key j (codes "access") ≫= get_int U16;
  unit ← find_key j (codes "unit") (get_int U32);
  let prototype := defaultValueForDataType dataType in
  defaultValue ← find_key j (codes "defaultValue") (valueFromJson prototype);
  minValue ← find_key j (codes "minValue") (valueFromJson prototype);
  maxValue ← find_key j (codes "maxValue") (valueFromJson prototype);
  Some (mk_parameter index subindex name objectCode dataType bitLength access ObjectDictionary 0 [] Unknown unit []
    defaultValue minValue maxValue [] [] []).

(** ** The cache *)
Record ParameterCacheConfig := mk_config { cacheAllVendors : bool; directory : text; enabled : bool }.
Definition kFormatVersion : Z := 3.

Section Cache.
Context (userCacheDir : text) (config : ParameterCacheConfig).

Definition enabledForVendor (vendorId : Z) : bool := if enabled config then cacheAllVendors config || isSomanetDevice vendorId else false.

Definition resolveDir : text := match directory config with [] => userCacheDir ++ codes "/parameters" | d => d end.
Definition file_name (id : text) : text := codes "parameters-" ++ id ++ codes ".json".
Definition pathFor (vendorId productCode : Z) (firmwareVersion : text) : path :=
  (resolveDir, file_name (makeId vendorId productCode firmwareVersion)).

Definition document (vendorId productCode : Z) (firmwareVersion : text) (parameters : list DeviceParameter) : list (text * json) :=
  obj_of [(codes "formatVersion", JInt kFormatVersion); (codes "vendorId", JInt vendorId); (codes "productCode", JInt productCode);
    (codes "firmwareVersion", JString firmwareVersion); (codes "parameters", JArray (definitionToJson <$> parameters))].

Definition read_document (vendorId productCode : Z) (firmwareVersion : text) (doc : json) : option (list DeviceParameter) :=
  format ← value_or doc (codes "formatVersion") (get_int I32) (-1);
  if negb (format =? kFormatVersion) then None else
  vendor ← value_or doc (codes "vendorId") (get_int U32) 0;
  if negb (vendor =? vendorId) then None else
  product ← value_or doc (codes "productCode") (get_int U32) 0;
  if negb (product =? productCode) then None else
  version ← value_or doc (codes "firmwareVersion") get_string [];
  if negb (bool_decide (version = firmwareVersion)) then None else
  entries ← at_key doc (codes "parameters");
  mapM definitionFromJson (elements entries).

Definition load (vendorId productCode : Z) (firmwareVersion : text) (fs : files) : option (list DeviceParameter) :=
  if negb (enabledForVendor vendorId) || bool_decide (firmwareVersion = []) then None
  else b ← fs !! pathFor vendorId productCode firmwareVersion; doc ← parse b; read_document vendorId productCode firmwareVersion doc.

(** What the file system does during one [store]: whether the directory exists or can be created, whether
    the temporary file opens, how many bytes reach it, and whether it can be renamed. *)
Record outcome := mk_outcome { created : bool; opened : bool; written : nat; renamed : bool }.

Definition temporary (p : path) : path := (p.1, p.2 ++ codes ".tmp").
Definition rename (from to : path) (fs : files) : files :=
  match fs !! from with None => fs | Some b => <[to := b]> (delete from fs) end.

Definition store (vendorId productCode : Z) (firmwareVersion : text) (parameters : list DeviceParameter) (o : outcome) (fs : files) : files :=
  if negb (enabledForVendor vendorId) || bool_decide (firmwareVersion = []) then fs
  else if negb (created o) then fs
  else
    let p := pathFor vendorId productCode firmwareVersion in
    let fs := if opened o then <[temporary p := []]> fs else fs in
    match dump (JObject (document vendorId productCode firmwareVersion parameters)) with
    | None => fs
    | Some b =>
        let fs := if opened o then <[temporary p := take (written o) (b ++ [10])]> fs else fs in
        if renamed o then rename (temporary p) p fs else fs
    end.

Inductive CacheError := InvalidId (id : text) | NoFile (id : text) | SystemError.

Definition path_of (parts : ParsedId) : path := pathFor (id_vendor parts) (id_product parts) (id_version parts).
Definition readRaw (id : text) (fs : files) : expected CacheError bytes :=
  match parseId id with
  | None => Unexpected (InvalidId id)
  | Some parts => match fs !! path_of parts with None => Unexpected (NoFile id) | Some b => Value b end
  end.
(** [denied]: the system refuses the removal. *)
Definition remove (id : text) (denied : bool) (fs : files) : files * expected CacheError unit :=
  match parseId id with
  | None => (fs, Unexpected (InvalidId id))
  | Some parts =>
      match fs !! path_of parts with
      | None => (fs, Unexpected (NoFile id))
      | Some _ => if denied then (fs, Unexpected SystemError) else (delete (path_of parts) fs, Value tt)
      end
  end.

(** *** [list] *)
Record CacheEntry := mk_entry { ce_id : text; ce_vendorId : Z; ce_productCode : Z; ce_firmwareVersion : text; ce_parameterCount : Z; ce_sizeBytes : nat }.

(** [path.extension() == ".json"]: the name ends so and has something before it. *)
Definition json_name (n : text) : bool := (5 <? length n)%nat && bool_decide (drop (length n - 5) n = codes ".json").

(** [doc.value("parameters", json::array()).size()]. *)
Definition size (j : json) : nat :=
  match j with JNull => 0 | JArray l => length l | JObject o => length o | _ => 1 end.

Definition list_entry (b : bytes) : option CacheEntry :=
  doc ← parse b;
  format ← value_or doc (codes "formatVersion") (get_int I32) (-1);
  if negb (format =? kFormatVersion) then None else
  vendorId ← value_or doc (codes "vendorId") (get_int U32) 0;
  productCode ← value_or doc (codes "productCode") (get_int U32) 0;
  firmwareVersion ← value_or doc (codes "firmwareVersion") get_string [];
  parameters ← value_or doc (codes "parameters") Some (JArray []);
  Some (mk_entry (makeId vendorId productCode firmwareVersion) vendorId productCode firmwareVersion
    (u32 (Z.of_nat (size parameters))) (length b)).

Definition list_ (fs : files) : list CacheEntry :=
  omap (fun '((dir, n), b) => if bool_decide (dir = resolveDir) && json_name n then list_entry b else None) (map_to_list fs).
End Cache.
End Operations.

(** Looks a literal key up. *)
Ltac key_lookup :=
  rewrite ?obj_get_some, ?obj_get_of; repeat (rewrite bool_decide_false by (vm_compute; congruence)); rewrite ?bool_decide_true by reflexivity;
  try reflexivity.

(** ** Round trip *)

(** A bound has the type its parameter declares. *)
Definition bound_ok (dt : Z) (v : DeviceParameterValue) : Prop :=
  match defaultValueForDataType dt, v with
  | VInt t _, VInt t' z => t' = t /\ in_range t z = true
  | VFloat _, VFloat b => in_u 32 b
  | VDouble _, VDouble _ | VString _, VString _ => True
  | VBytes _, VBytes b => bytes_ok b
  | _, _ => False
  end.
Record definition_ok (p : DeviceParameter) : Prop := mk_definition_ok {
  ok_index : in_u 16 (index p); ok_subindex : in_u 8 (subindex p); ok_code : in_u 16 (objectCode p); ok_type : in_u 16 (dataType p);
  ok_bits : in_u 16 (bitLength p); ok_access : in_u 16 (access p); ok_unit : forall u, unit_ p = Some u -> in_u 32 u;
  ok_default : forall v, defaultValue p = Some v -> bound_ok (dataType p) v;
  ok_min : forall v, minValue p = Some v -> bound_ok (dataType p) v;
  ok_max : forall v, maxValue p = Some v -> bound_ok (dataType p) v }.

(** What comes back: the definition, with no value and nothing of the ESI; a bound that is not a finite number is lost. *)
Definition finite_bound (v : DeviceParameterValue) : bool :=
  match v with VFloat b => finite32 b | VDouble b => finite64 b | _ => true end.
Definition kept (v : option DeviceParameterValue) : option DeviceParameterValue :=
  match v with Some x => if finite_bound x then Some x else None | None => None end.
Definition restored (p : DeviceParameter) : DeviceParameter :=
  mk_parameter (index p) (subindex p) (name p) (objectCode p) (dataType p) (bitLength p) (access p) ObjectDictionary 0 [] Unknown (unit_ p) []
    (kept (defaultValue p)) (kept (minValue p)) (kept (maxValue p)) [] [] [].

(** A [float] that is not finite is widened to a [double] that is not. *)
Lemma widen_infinite b : in_u 32 b -> finite32 b = false -> finite64 (widen b) = false.
Proof.
  intros Hb Hf. unfold finite32, finite_bits in Hf. apply negb_false_iff, Z.eqb_eq in Hf. unfold widen, f32, float_of_bits. rewrite Hf.
  cbn [Z.eqb]. change (2 ^ 8 - 1 =? 0) with false. rewrite Z.eqb_refl. cbv beta iota zeta.
  destruct (Z.land b (2 ^ 23 - 1) =? 0); [by destruct (Z.testbit b (23 + 8))|done].
Qed.

Lemma definition_keys p : let j := reread (definitionToJson p) in
  at_key j (codes "index") = Some (JInt (index p)) /\ at_key j (codes "subindex") = Some (JInt (subindex p)) /\
  at_key j (codes "name") = Some (JString (name p)) /\ at_key j (codes "objectCode") = Some (JInt (objectCode p)) /\
  at_key j (codes "dataType") = Some (JInt (dataType p)) /\ at_key j (codes "bitLength") = Some (JInt (bitLength p)) /\
  at_key j (codes "access") = Some (JInt (access p)) /\ at_key j (codes "unit") = JInt <$> unit_ p /\
  at_key j (codes "defaultValue") = (fun v => reread (valueToJson v)) <$> defaultValue p /\
  at_key j (codes "minValue") = (fun v => reread (valueToJson v)) <$> minValue p /\
  at_key j (codes "maxValue") = (fun v => reread (valueToJson v)) <$> maxValue p.
Proof.
  cbv zeta. rewrite !at_key_reread. unfold definitionToJson.
  split_and!; key_lookup; [destruct (unit_ p)|destruct (defaultValue p)|destruct (minValue p)|destruct (maxValue p)]; reflexivity.
Qed.

(** An unsigned number fits its type. *)
Lemma in_u_range t z : int_signed t = false -> in_u (int_bits t) z -> in_range t z = true.
Proof. intros Hs Hz. unfold in_range, int_min, int_past. rewrite Hs. unfold in_u in Hz. apply andb_true_intro. split; [apply Z.leb_le|apply Z.ltb_lt]; lia. Qed.

Section RoundTrip.
Context `{JsonLaws}.

Lemma value_roundtrip dt v : bound_ok dt v ->
  match reread (valueToJson v) with
  | JNull => kept (Some v) = None
  | j => kept (Some v) = Some v /\ valueFromJson (defaultValueForDataType dt) j = Some v
  end.
Proof using Type*.
  unfold bound_ok. destruct (defaultValueForDataType dt) as [t z|b|b|s|l], v as [t' z'|b'|b'|s'|l']; try exact (False_ind _); cbn [valueToJson reread kept finite_bound valueFromJson].
  - intros [-> Hz]. by rewrite get_int_law.
  - intros Hb. destruct (finite32 b') eqn:Hf.
    + destruct (narrow_widen b' Hb Hf) as (E & -> & _). rewrite get_float_law, E. done.
    + by rewrite widen_infinite.
  - intros _. destruct (finite64 b'); [by rewrite get_double_law|done].
  - intros _. by rewrite get_string_law.
  - intros Hb. split; [done|]. assert (map reread (JInt <$> l') = JInt <$> l') as -> by (induction l'; cbn; [|apply Forall_cons in Hb as [? ?]; f_equal]; auto).
    by rewrite get_bytes_law.
Qed.

Lemma find_bound dt j k v : (forall x, v = Some x -> bound_ok dt x) -> at_key j k = (fun x => reread (valueToJson x)) <$> v ->
  find_key j k (valueFromJson (defaultValueForDataType dt)) = Some (kept v).
Proof using Type*.
  intros Hv E. unfold find_key. rewrite E. destruct v as [x|]; [|done]. cbn [fmap option_fmap option_map].
  pose proof (value_roundtrip dt x (Hv x eq_refl)) as R. destruct (reread (valueToJson x)); [by rewrite R|..]; destruct R as [-> ->]; done.
Qed.

Lemma definition_roundtrip p : definition_ok p -> definitionFromJson (reread (definitionToJson p)) = Some (restored p).
Proof using Type*.
  intros []. unfold definitionFromJson. pose proof (definition_keys p) as K. cbv zeta in K. set (j := reread (definitionToJson p)) in *.
  destruct K as (-> & -> & -> & -> & -> & -> & -> & Eu & Ed & Emi & Ema). cbn [mbind option_bind].
  rewrite !get_int_law, get_string_law by (apply in_u_range; done). cbn [mbind option_bind].
  rewrite (find_bound _ _ _ _ ok_default0 Ed), (find_bound _ _ _ _ ok_min0 Emi), (find_bound _ _ _ _ ok_max0 Ema).
  assert (find_key j (codes "unit") (get_int U32) = Some (unit_ p)) as ->; [|done].
  unfold find_key. rewrite Eu. destruct (unit_ p) as [u|]; [|done]. cbn. by rewrite get_int_law by (apply in_u_range; [done|by apply ok_unit0]).
Qed.

(** *** Documents *)
Lemma value_key {A} o k (f : json -> option A) d j : obj_get k o = Some j -> value_or (reread (JObject o)) k f d = f (reread j).
Proof using Type. intros E. cbn [reread value_or]. by rewrite obj_get_reread, E. Qed.

Lemma document_keys v p ver ps : let o := document v p ver ps in
  obj_get (codes "formatVersion") o = Some (JInt kFormatVersion) /\ obj_get (codes "vendorId") o = Some (JInt v) /\
  obj_get (codes "productCode") o = Some (JInt p) /\ obj_get (codes "firmwareVersion") o = Some (JString ver) /\
  obj_get (codes "parameters") o = Some (JArray (definitionToJson <$> ps)).
Proof using Type. cbv zeta. unfold document. split_and!; key_lookup. Qed.

Lemma mapM_restored ps : Forall definition_ok ps -> mapM definitionFromJson (map reread (definitionToJson <$> ps)) = Some (restored <$> ps).
Proof using Type*. intros Hps. apply mapM_Some. induction Hps as [|p ps Hp _ IH]; constructor; [by apply definition_roundtrip|done]. Qed.

(** A document is read for the identity it was written for, and for no other. *)
Lemma read_document_stored v p ver v' p' ver' ps : in_u 32 v' -> in_u 32 p' -> Forall definition_ok ps ->
  read_document v p ver (reread (JObject (document v' p' ver' ps))) = if bool_decide ((v', p', ver') = (v, p, ver)) then Some (restored <$> ps) else None.
Proof using Type*.
  intros Hv Hp Hps. destruct (document_keys v' p' ver' ps) as (K1 & K2 & K3 & K4 & K5). unfold read_document.
  rewrite (value_key _ _ _ _ _ K1), (value_key _ _ _ _ _ K2), (value_key _ _ _ _ _ K3), (value_key _ _ _ _ _ K4). cbn [reread].
  rewrite (get_int_law I32 kFormatVersion), (get_int_law U32 v'), (get_int_law U32 p'), get_string_law by (reflexivity || by apply in_u_range). cbn [mbind option_bind at_key].
  rewrite obj_get_reread, K5. cbn [fmap option_fmap option_map reread mbind option_bind]. rewrite elements_law, mapM_restored by done.
  change (negb (kFormatVersion =? kFormatVersion)) with false. cbv iota.
  destruct (Z.eqb_spec v' v) as [->|]; cbn [negb]; [|rewrite bool_decide_false by congruence; done].
  destruct (Z.eqb_spec p' p) as [->|]; cbn [negb]; [|rewrite bool_decide_false by congruence; done].
  destruct (decide (ver' = ver)) as [->|]; [by rewrite !bool_decide_true by done|by rewrite !bool_decide_false by congruence].
Qed.

(** *** Histories *)

(** What happens to the cache directory, under whatever configuration: a definition is stored, a file is removed. *)
Inductive cache_op :=
  | OpStore (config : ParameterCacheConfig) (v p : Z) (ver : text) (ps : list DeviceParameter) (o : outcome)
  | OpRemove (config : ParameterCacheConfig) (id : text) (denied : bool).
Definition run_op (home : text) (fs : files) (op : cache_op) : files :=
  match op with
  | OpStore config v p ver ps o => store home config v p ver ps o fs
  | OpRemove config id denied => (remove home config id denied fs).1
  end.
Definition op_ok (op : cache_op) : Prop :=
  match op with OpStore _ v p _ ps _ => in_u 32 v /\ in_u 32 p /\ Forall definition_ok ps | OpRemove _ _ _ => True end.

(** A file the program did not write, or an older version of it did. *)
Definition foreign (b : bytes) : Prop := forall doc, parse b = Some doc -> value_or doc (codes "formatVersion") (get_int I32) (-1) <> Some kFormatVersion.
(** A file one of the stores wrote, whole or in part. *)
Definition from_store (ops : list cache_op) (b : bytes) : Prop := exists config v p ver ps o d n,
  OpStore config v p ver ps o ∈ ops /\ dump (JObject (document v p ver ps)) = Some d /\ b = take n (d ++ [10]).
Definition accounted (ops : list cache_op) (b : bytes) : Prop := b = [] \/ foreign b \/ from_store ops b.

Lemma rename_accounted (P : bytes -> Prop) from to fs : map_Forall (fun _ => P) fs -> map_Forall (fun _ => P) (rename from to fs).
Proof using Type.
  intros Hf. unfold rename. destruct (fs !! from) as [b|] eqn:E; [|done]. apply map_Forall_insert_2; [by apply (Hf from)|].
  intros q b' [_ Hq]%lookup_delete_Some. by apply (Hf q).
Qed.

Lemma store_accounted (P : bytes -> Prop) home config v p ver ps o fs : map_Forall (fun _ => P) fs -> P [] ->
  (forall d n, dump (JObject (document v p ver ps)) = Some d -> P (take n (d ++ [10]))) -> map_Forall (fun _ => P) (store home config v p ver ps o fs).
Proof using Type.
  intros Hf Hnil Hd. unfold store. destruct (_ || _); [done|]. destruct (created o); [|done]. cbn [negb]. cbv zeta.
  assert (Hi : forall q b, P b -> map_Forall (fun _ => P) (<[q := b]> fs)) by (intros; by apply map_Forall_insert_2).
  destruct (dump _) as [d|] eqn:E; [|destruct (opened o); auto].
  assert (Hw : map_Forall (fun _ => P) (if opened o then <[temporary (pathFor home config v p ver) := take (written o) (d ++ [10])]>
      (if opened o then <[temporary (pathFor home config v p ver) := []]> fs else fs) else (if opened o then <[temporary (pathFor home config v p ver) := []]> fs else fs))).
  { destruct (opened o); [|done]. apply map_Forall_insert_2; auto. }
  destruct (renamed o); [by apply rename_accounted|done].
Qed.

Lemma history_accounted home fs ops : map_Forall (fun _ => foreign) fs -> map_Forall (fun _ => accounted ops) (foldl (run_op home) fs ops).
Proof using Type*.
  intros Hfs. induction ops as [|op ops IH] using rev_ind; [intros q b Hb; right; left; exact (Hfs q b Hb)|]. rewrite foldl_snoc.
  assert (Hm : map_Forall (fun _ => accounted (ops ++ [op])) (foldl (run_op home) fs ops)).
  { intros q b Hb. destruct (IH q b Hb) as [?|[?|(c & v & p & ver & ps & o & d & n & Hin & Hr)]]; [by left|by right; left|].
    right; right. exists c, v, p, ver, ps, o, d, n. split; [set_solver|done]. }
  destruct op as [config v p ver ps o|config id denied]; cbn [run_op].
  - apply store_accounted; [done|by left|]. intros d n Hd. right; right. exists config, v, p, ver, ps, o, d, n. split; [set_solver|done].
  - unfold remove. destruct (parseId id); [|done]. destruct (_ !! _); [|done]. destruct denied; [done|]. cbn. intros q b [_ Hb]%lookup_delete_Some. by apply (Hm q).
Qed.

(** C31: Whatever was stored and removed before, under whatever configuration, and however the file system
    failed while it was - a directory that could not be made, a temporary file that did not open, a write
    that stopped part way, a rename that was refused, a document that could not be dumped - and whatever
    files of another format were there: definitions the cache serves for a vendor, product and firmware
    version are the definitions of one store for exactly that identity, complete and in order, even when
    two versions share a file name. They carry no value and no state. *)
Theorem cache_serves_own home config fs ops v p ver ds : map_Forall (fun _ => foreign) fs -> Forall op_ok ops ->
  load home config v p ver (foldl (run_op home) fs ops) = Some ds ->
  exists c ps o, OpStore c v p ver ps o ∈ ops /\ ds = restored <$> ps.
Proof using Type*.
  intros Hfs Hok. pose proof parse_empty_law as Hnil. unfold load. destruct (_ || _); [done|]. destruct (_ !! _) as [b|] eqn:E; [|done]. cbn [mbind option_bind].
  destruct (parse b) as [doc|] eqn:Ep; [|done]. cbn [mbind option_bind]. intros Hr.
  destruct (history_accounted home fs ops Hfs _ b E) as [->|[Hfo|(c & v' & p' & ver' & ps & o & d & n & Hin & Hd & ->)]]; [congruence| |].
  - exfalso. apply (Hfo doc Ep). unfold read_document in Hr. destruct (value_or doc (codes "formatVersion") _ _) as [x|]; [|done]. cbn [mbind option_bind] in Hr.
    destruct (Z.eqb_spec x kFormatVersion) as [E3|]; [by rewrite E3|done].
  - rewrite (parse_part_law _ _ _ _ Hd Ep) in Hr. rewrite Forall_forall in Hok. destruct (Hok _ Hin) as (Hv & Hp & Hps).
    rewrite read_document_stored in Hr by done. case_bool_decide as Hid; [|done]. injection Hid as -> -> ->. injection Hr as <-. by exists c, ps, o.
Qed.

(** *** Ids *)
Lemma safe_sanitized v : Forall (fun c => safe_char c = true) (sanitizeFirmwareVersion v).
Proof using Type. unfold sanitizeFirmwareVersion. apply Forall_fmap, Forall_true. intros c. cbn. by destruct (safe_char c) eqn:E. Qed.

Lemma sanitize_idempotent v : sanitizeFirmwareVersion (sanitizeFirmwareVersion v) = sanitizeFirmwareVersion v.
Proof using Type.
  unfold sanitizeFirmwareVersion at 1. rewrite take_ge by (unfold sanitizeFirmwareVersion; rewrite length_fmap, length_take; lia).
  pose proof (safe_sanitized v) as Hs. induction Hs as [|c l Hc _ IH]; [done|]. cbn. by rewrite Hc, IH.
Qed.

Lemma sanitized_url_safe v : v <> [] -> Util.isUrlSafeId (sanitizeFirmwareVersion v) = true.
Proof using Type.
  intros Hv. unfold Util.isUrlSafeId. assert (Hl : (0 < length (sanitizeFirmwareVersion v) <= 64)%nat).
  { unfold sanitizeFirmwareVersion. rewrite length_fmap, length_take. destruct v; [done|]. cbn [length]. lia. }
  rewrite (proj2 (Nat.eqb_neq _ _)), (proj2 (Nat.ltb_ge _ _)) by lia. cbn [orb]. apply forallb_forall. intros c Hc.
  pose proof (safe_sanitized v) as Hs. rewrite Forall_forall in Hs. apply (Hs c). by apply list_elem_of_In.
Qed.

Lemma digit_lower d : 0 <= d < 16 -> Util.digit (lower_hex d) = d /\ lower_hex d <> dash.
Proof using Type. unfold lower_hex, dash. intros Hd. destruct (Z.ltb_spec d 10); (split; [unfold Util.digit; bool_split; simpl; lia|lia]). Qed.

Lemma hex_digits i v : 0 <= (v / 16 ^ i) mod 16 < 16.
Proof using Type. by apply Z.mod_pos_bound. Qed.

Lemma hex8_value v : in_u 32 v -> Util.from_chars 32 16 (hex8 v) = Some (v, []).
Proof using Type.
  intros Hv. unfold hex8. cbn [fmap list_fmap Util.from_chars Util.digits_prefix].
  rewrite !(proj1 (digit_lower _ (hex_digits _ v))). rewrite !(proj2 (andb_true_iff _ _)) by (split; [apply Z.leb_le|apply Z.ltb_lt]; apply hex_digits).
  assert (E : forall x, x = v -> (let '(v0, rest) := (x, @nil Z) in if v0 <? 2 ^ 32 then Some (v0, rest) else None) = Some (v, [])).
  { intros x ->. by rewrite (proj2 (Z.ltb_lt _ _)) by apply Hv. }
  apply E. assert (D : forall i j, 0 <= i -> j = i + 1 -> v / 16 ^ i = 16 * (v / 16 ^ j) + (v / 16 ^ i) mod 16).
  { intros i j Hi ->. rewrite Z.pow_add_r, <- Z.div_div by lia. apply Z.div_mod. lia. }
  assert (E8 : v / 16 ^ 8 = 0) by (apply Z.div_small; exact Hv). assert (E0 : v / 16 ^ 0 = v) by apply Z.div_1_r.
  assert (Hh : forall (q r : Z -> Z), q 8 = 0 -> (forall i j, 0 <= i -> j = i + 1 -> q i = 16 * q j + r i) ->
    (((((((0 * 16 + r 7) * 16 + r 6) * 16 + r 5) * 16 + r 4) * 16 + r 3) * 16 + r 2) * 16 + r 1) * 16 + r 0 = q 0).
  { intros q r Hq Hr. rewrite (Hr 0 1), (Hr 1 2), (Hr 2 3), (Hr 3 4), (Hr 4 5), (Hr 5 6), (Hr 6 7), (Hr 7 8), Hq by lia. ring. }
  transitivity (v / 16 ^ 0); [|done]. exact (Hh (fun i => v / 16 ^ i) (fun i => (v / 16 ^ i) mod 16) E8 D).
Qed.

Lemma split_dash_app t rest : Forall (fun c => c <> dash) t -> split_dash (t ++ [dash] ++ rest) = Some (t, rest).
Proof using Type. induction 1 as [|c t Hc _ IH]; [done|]. cbn. rewrite (proj2 (Z.eqb_neq _ _) Hc). cbn in IH. by rewrite IH. Qed.

Lemma parse_hex8 v rest : in_u 32 v -> parse_field (hex8 v ++ [dash] ++ rest) = Some (v, rest).
Proof using Type.
  intros Hv. unfold parse_field. rewrite split_dash_app; [by rewrite hex8_value|]. unfold hex8. apply Forall_fmap, Forall_true.
  intros i. apply digit_lower, hex_digits.
Qed.

(** An id names the identity it was made from, up to the characters of the version that are not safe. *)
Lemma parseId_makeId v p ver : in_u 32 v -> in_u 32 p -> ver <> [] -> parseId (makeId v p ver) = Some (mk_id v p (sanitizeFirmwareVersion ver)).
Proof using Type. intros Hv Hp Hver. unfold parseId, makeId. by rewrite !parse_hex8, sanitized_url_safe by done. Qed.

Lemma path_of_id home config v p ver : path_of home config (mk_id v p (sanitizeFirmwareVersion ver)) = pathFor home config v p ver.
Proof using Type. unfold path_of, pathFor, makeId. cbn [id_vendor id_product id_version]. by rewrite sanitize_idempotent. Qed.

(** *** A store that succeeds *)
Definition identity_ok (config : ParameterCacheConfig) (v p : Z) (ver : text) : Prop :=
  enabledForVendor config v = true /\ in_u 32 v /\ in_u 32 p /\ ver <> [].
Definition complete_write (v p : Z) (ver : text) (ps : list DeviceParameter) (o : outcome) (d : bytes) : Prop :=
  created o = true /\ opened o = true /\ renamed o = true /\ dump (JObject (document v p ver ps)) = Some d /\ (length d < written o)%nat.

Lemma temporary_other p : temporary p <> p.
Proof using Type. destruct p as [d n]. unfold temporary. cbn. intros [= E]. apply (f_equal length) in E. rewrite length_app in E. cbn in E. lia. Qed.

Lemma store_complete home config v p ver ps o d fs : identity_ok config v p ver -> complete_write v p ver ps o d ->
  store home config v p ver ps o fs = <[pathFor home config v p ver := d ++ [10]]> (delete (temporary (pathFor home config v p ver)) fs).
Proof using Type.
  intros (He & _ & _ & Hv) (Hc & Ho & Hr & Hd & Hw). unfold store. rewrite He, bool_decide_false by done. cbn [negb orb]. rewrite Hc, Ho, Hr, Hd. cbn [negb].
  cbv zeta iota. rewrite take_ge by (rewrite length_app; cbn; lia). unfold rename. rewrite insert_insert_eq, lookup_insert_eq. by rewrite delete_insert_eq.
Qed.

Lemma store_served home config v p ver ps o d fs : identity_ok config v p ver -> Forall definition_ok ps -> complete_write v p ver ps o d ->
  load home config v p ver (store home config v p ver ps o fs) = Some (restored <$> ps).
Proof using Type*.
  intros Hi Hps Hw. rewrite (store_complete home config v p ver ps o d fs Hi Hw). destruct Hi as (He & Hv & Hp & Hver), Hw as (_ & _ & _ & Hd & _).
  unfold load. rewrite lookup_insert_eq, He, bool_decide_false by done. cbn [negb orb mbind option_bind]. rewrite (parse_law _ _ Hd). cbn [mbind option_bind].
  by rewrite read_document_stored, bool_decide_true.
Qed.

(** What a complete store writes, the cache serves: the same definitions in order, whatever was in the
    directory, each with no value, the state Unknown and nothing of an ESI; a bound is kept unless it is a
    floating-point number that is not finite, which JSON cannot hold. The id of the identity lists, reads
    and removes that file, also when the version has characters a file name may not have, and after the
    removal the cache misses. *)
Theorem cache_roundtrip home config v p ver ps o d fs : identity_ok config v p ver -> Forall definition_ok ps -> complete_write v p ver ps o d ->
  let fs' := store home config v p ver ps o fs in
  load home config v p ver fs' = Some (restored <$> ps) /\
  readRaw home config (makeId v p ver) fs' = Value (d ++ [10]) /\
  mk_entry (makeId v p ver) v p ver (u32 (Z.of_nat (length ps))) (S (length d)) ∈ list_ home config fs' /\
  (remove home config (makeId v p ver) false fs').2 = Value tt /\
  load home config v p ver (remove home config (makeId v p ver) false fs').1 = None.
Proof using Type*.
  intros Hi Hps Hw. cbv zeta. split; [by eapply store_served|]. rewrite (store_complete home config v p ver ps o d fs Hi Hw). destruct Hi as (He & Hv & Hp & Hver), Hw as (_ & _ & _ & Hd & _).
  unfold readRaw, remove, load. rewrite (parseId_makeId v p ver Hv Hp Hver), path_of_id, !lookup_insert_eq, He, bool_decide_false by done. cbn [negb orb].
  cbn [mbind option_bind fst snd]. split_and!; [done| |done|by rewrite lookup_delete_eq].
  unfold list_. apply list_elem_of_omap. exists (pathFor home config v p ver, d ++ [10]). split; [apply elem_of_map_to_list, lookup_insert_eq|].
  unfold pathFor. rewrite bool_decide_true by done.
  assert (json_name (file_name (makeId v p ver)) = true) as ->.
  { unfold json_name, file_name. rewrite !length_app. cbn [length codes]. rewrite (proj2 (Nat.ltb_lt _ _)) by lia. cbn [andb]. apply bool_decide_eq_true.
    rewrite !app_assoc. apply drop_app_length'. rewrite !length_app. cbn. lia. }
  cbn [andb]. unfold list_entry. rewrite (parse_law _ _ Hd). cbn [mbind option_bind].
  destruct (document_keys v p ver ps) as (K1 & K2 & K3 & K4 & K5).
  rewrite (value_key _ _ _ _ _ K1), (value_key _ _ _ _ _ K2), (value_key _ _ _ _ _ K3), (value_key _ _ _ _ _ K4), (value_key _ _ _ _ _ K5).
  cbn [reread size]. rewrite (get_int_law I32 kFormatVersion), (get_int_law U32 v), (get_int_law U32 p), get_string_law by (reflexivity || by apply in_u_range).
  cbn [mbind option_bind]. change (negb (kFormatVersion =? kFormatVersion)) with false. cbn [mbind option_bind size]. rewrite length_map, length_fmap, length_app. cbn [length].
  by rewrite Nat.add_1_r.
Qed.
End RoundTrip.

(** ** A drive

    Its dictionary has a type with bounds and a name with a space in its version. *)
#[local] Existing Instance token_json.
#[local] Existing Instance token_json_laws.

Definition w_definitions : list DeviceParameter :=
  [mk_parameter 0x6040 0 (codes "Controlword") 7 UNSIGNED16 16 0x3F ObjectDictionary 5 [] Synced (Some 0xB44700) (codes "rpm")
     (Some (VInt U16 1)) None (Some (VInt U16 65535)) (codes "text") [] (codes "esi");
   mk_parameter 0x2010 1 (codes "Gain") 9 REAL32 32 0x3F ObjectDictionary 0 [] Unknown None []
     (Some (VFloat 0x3FC00000)) (Some (VFloat 0x7F800000)) None [] [] []].
Definition w_config : ParameterCacheConfig := mk_config false [] true.
Definition w_outcome (n : nat) : outcome := mk_outcome true true n true.
Definition w_dump (ver : text) : bytes := [Z.pos (countable.encode (to_tree (reread (JObject (document 0x22D2 0x301 ver w_definitions)))))].

Lemma w_definitions_ok : Forall definition_ok w_definitions.
Proof.
  apply Forall_cons_2; [|apply Forall_cons_2; [|by apply Forall_nil_2]]; (split; [apply (bool_decide_unpack (in_u _ _)); vm_compute; exact I..| | | |]); intros x Hx; try discriminate Hx; apply Some_inj in Hx as <-;
    first [split; reflexivity|apply (bool_decide_unpack (in_u _ _)); vm_compute; exact I].
Qed.

Lemma cache_roundtrip_witness :
  let fs := store (codes "/home") w_config 0x22D2 0x301 (codes "v5.6 rc") w_definitions (w_outcome 9) ∅ in
  load (codes "/home") w_config 0x22D2 0x301 (codes "v5.6 rc") fs = Some (restored <$> w_definitions) /\
  kept (Some (VFloat 0x3FC00000)) = Some (VFloat 0x3FC00000) /\ kept (Some (VFloat 0x7F800000)) = None.
Proof.
  cbv zeta. split; [|split; reflexivity].
  refine (proj1 (cache_roundtrip (codes "/home") w_config 0x22D2 0x301 (codes "v5.6 rc") w_definitions (w_outcome 9) (w_dump (codes "v5.6 rc")) ∅ _ _ _)).
  - split_and!; [reflexivity|unfold in_u; lia|unfold in_u; lia|done].
  - apply w_definitions_ok.
  - split_and!; try reflexivity. cbn. lia.
Defined.

(** Two versions share a name; the second store is cut short. *)
Definition w_history : list cache_op :=
  [OpStore w_config 0x22D2 0x301 (codes "v5.6 rc") w_definitions (w_outcome 9); OpStore w_config 0x22D2 0x301 (codes "v5.6*rc") [] (w_outcome 1)].
Lemma cache_serves_own_witness :
  makeId 0x22D2 0x301 (codes "v5.6 rc") = makeId 0x22D2 0x301 (codes "v5.6*rc") /\
  (exists ds, load (codes "/home") w_config 0x22D2 0x301 (codes "v5.6*rc") (foldl (run_op (codes "/home")) ∅ w_history) = Some ds) /\
  forall ds, load (codes "/home") w_config 0x22D2 0x301 (codes "v5.6*rc") (foldl (run_op (codes "/home")) ∅ w_history) = Some ds ->
    exists c ps o, OpStore c 0x22D2 0x301 (codes "v5.6*rc") ps o ∈ w_history /\ ds = restored <$> ps.
Proof.
  split; [reflexivity|]. split; [exists []; vm_compute; reflexivity|]. intros ds.
  apply (cache_serves_own (codes "/home") w_config ∅ w_history 0x22D2 0x301 (codes "v5.6*rc") ds).
  - apply map_Forall_empty.
  - apply Forall_cons_2; [|apply Forall_cons_2; [|by apply Forall_nil_2]]; (split_and!; [unfold in_u; lia|unfold in_u; lia|]); [apply w_definitions_ok|by apply Forall_nil_2].
Defined.

End Cache.
