(* ===== verification/EsiTypes.v ===== *)
(** * ESI type names and units ([libs/etg/esi_data_type.cc], [libs/etg/esi_unit.cc])

    The names an ESI file gives its types resolve to CoE codes and widths; a packed unit resolves to the
    symbol a client shows. *)

From S2P Require Import Prelude Util.

Module EsiTypes.

(** ** Primitive types *)
Record PrimitiveType := mk_primitive { pt_name : text; pt_code : Z; pt_bitSize : Z; pt_isSigned : bool }.

Definition kPrimitiveTypes : list PrimitiveType :=
  [
   mk_primitive (codes "BOOL") 0x0001 1 false;
   mk_primitive (codes "BOOLEAN") 0x0001 1 false;
   mk_primitive (codes "SINT") 0x0002 8 true;
   mk_primitive (codes "INT") 0x0003 16 true;
   mk_primitive (codes "INT24") 0x0010 24 true;
   mk_primitive (codes "DINT") 0x0004 32 true;
   mk_primitive (codes "INT40") 0x0012 40 true;
   mk_primitive (codes "INT48") 0x0013 48 true;
   mk_primitive (codes "INT56") 0x0014 56 true;
   mk_primitive (codes "LINT") 0x0015 64 true;
   mk_primitive (codes "USINT") 0x0005 8 false;
   mk_primitive (codes "UINT") 0x0006 16 false;
   mk_primitive (codes "UINT24") 0x0016 24 false;
   mk_primitive (codes "UDINT") 0x0007 32 false;
   mk_primitive (codes "UINT40") 0x0018 40 false;
   mk_primitive (codes "UINT48") 0x0019 48 false;
   mk_primitive (codes "UINT56") 0x001A 56 false;
   mk_primitive (codes "ULINT") 0x001B 64 false;
   mk_primitive (codes "REAL") 0x0008 32 false;
   mk_primitive (codes "LREAL") 0x0011 64 false;
   mk_primitive (codes "BYTE") 0x001E 8 false;
   mk_primitive (codes "WORD") 0x001F 16 false;
   mk_primitive (codes "DWORD") 0x0020 32 false;
   mk_primitive (codes "BITARR8") 0x002D 8 false;
   mk_primitive (codes "BITARR16") 0x002E 16 false;
   mk_primitive (codes "BITARR32") 0x002F 32 false;
   mk_primitive (codes "BIT1") 0x0030 1 false;
   mk_primitive (codes "BIT2") 0x0031 2 false;
   mk_primitive (codes "BIT3") 0x0032 3 false;
   mk_primitive (codes "BIT4") 0x0033 4 false;
   mk_primitive (codes "BIT5") 0x0034 5 false;
   mk_primitive (codes "BIT6") 0x0035 6 false;
   mk_primitive (codes "BIT7") 0x0036 7 false;
   mk_primitive (codes "BIT8") 0x0037 8 false;
   mk_primitive (codes "BIT9") 0x0038 9 false;
   mk_primitive (codes "BIT10") 0x0039 10 false;
   mk_primitive (codes "BIT11") 0x003A 11 false;
   mk_primitive (codes "BIT12") 0x003B 12 false;
   mk_primitive (codes "BIT13") 0x003C 13 false;
   mk_primitive (codes "BIT14") 0x003D 14 false;
   mk_primitive (codes "BIT15") 0x003E 15 false;
   mk_primitive (codes "BIT16") 0x003F 16 false;
   mk_primitive (codes "GUID") 0x001D 128 false;
   mk_primitive (codes "TIME_OF_DAY") 0x000C 48 false;
   mk_primitive (codes "TIME_DIFFERENCE") 0x000D 48 false;
   mk_primitive (codes "DOMAIN") 0x000F 0 false;
   mk_primitive (codes "STRING") 0x0009 0 false;
   mk_primitive (codes "OCTET_STRING") 0x000A 0 false;
   mk_primitive (codes "UNICODE_STRING") 0x000B 0 false].

Definition findPrimitive (name : text) : option PrimitiveType := list_find (fun t => pt_name t = name) kPrimitiveTypes ≫= (fun p => Some p.2).

(** [BASE(n)]: the text before the first parenthesis, and the number in it. *)
Fixpoint find_open (l : text) : option (text * text) :=
  match l with
  | [] => None
  | c :: l' => if c =? 40 then Some ([], l') else match find_open l' with Some (a, b) => Some (c :: a, b) | None => None end
  end.
Definition splitParameterised (name : text) : option (text * Z) :=
  match find_open name with
  | None => None
  | Some (base, rest) =>
      match last rest with
      | Some 41 =>
          match Util.from_chars 32 10 (take (length rest - 1) rest) with
          | Some (value, []) => Some (base, value)
          | _ => None
          end
      | _ => None
      end
  end.

Definition starts_with (p l : text) : bool := bool_decide (take (length p) l = p).
(** What follows the last [" OF "]. *)
Fixpoint after_last_of (l : text) : option text :=
  match l with
  | [] => None
  | _ :: l' => match after_last_of l' with
               | Some r => Some r
               | None => if starts_with (codes " OF ") l then Some (drop 4 l) else None
               end
  end.
Definition arrayElementTypeName (esiName : text) : text :=
  if starts_with (codes "ARRAY") esiName then default [] (after_last_of esiName) else [].

Definition isStringTypeName (esiName : text) : bool :=
  match splitParameterised esiName with
  | Some (base, _) => bool_decide (base = codes "STRING") || bool_decide (base = codes "OCTET_STRING") || bool_decide (base = codes "UNICODE_STRING")
  | None => false
  end.

Definition set_width (t : PrimitiveType) (bits : Z) : PrimitiveType :=
  mk_primitive (pt_name t) (pt_code t) (if bits <=? 0xFFFF then bits else 0xFFFF) (pt_isSigned t).

(** The recursion is on the name of an array's element; two levels are enough (see [resolve_fuel]). *)
Fixpoint resolve_name (fuel : nat) (esiName : text) : option PrimitiveType :=
  match esiName with
  | [] => None
  | _ =>
      match findPrimitive esiName with
      | Some exact => Some exact
      | None =>
          match splitParameterised esiName with
          | Some (base, elements) =>
              match findPrimitive base with
              | Some entry => Some (set_width entry (elements * (if bool_decide (base = codes "UNICODE_STRING") then 16 else 8)))
              | None => None
              end
          | None =>
              match arrayElementTypeName esiName, fuel with
              | [], _ | _, O => None
              | element, S fuel' => resolve_name fuel' element
              end
          end
      end
  end.
Definition resolvePrimitiveType (esiName : text) : option PrimitiveType := resolve_name 1 esiName.

(** ** Kinds of values *)
Inductive ValueKind := KBool | KInt8 | KInt16 | KInt32 | KInt64 | KUint8 | KUint16 | KUint32 | KUint64 | KReal32 | KReal64 | KString | KBytes.

#[export] Instance ValueKind_eq_dec : EqDecision ValueKind.
Proof. solve_decision. Defined.

Definition resolveValueKind (dataType bitSize : Z) : ValueKind :=
  let agrees declared := (bitSize =? 0) || (bitSize =? declared) in
  let is_one_of l := bool_decide (dataType ∈ l) in
  if is_one_of [0x0001] then (if (bitSize =? 0) || (bitSize =? 1) || (bitSize =? 8) then KBool else KBytes)
  else if is_one_of [0x0002] then (if agrees 8 then KInt8 else KBytes)
  else if is_one_of [0x0003] then (if agrees 16 then KInt16 else KBytes)
  else if is_one_of [0x0004] then (if agrees 32 then KInt32 else KBytes)
  else if is_one_of [0x0015] then (if agrees 64 then KInt64 else KBytes)
  else if is_one_of [0x0005; 0x001E; 0x002D] then (if agrees 8 then KUint8 else KBytes)
  else if is_one_of [0x0006; 0x001F; 0x002E] then (if agrees 16 then KUint16 else KBytes)
  else if is_one_of [0x0007; 0x0020; 0x002F] then (if agrees 32 then KUint32 else KBytes)
  else if is_one_of [0x001B] then (if agrees 64 then KUint64 else KBytes)
  else if is_one_of [0x0008] then (if agrees 32 then KReal32 else KBytes)
  else if is_one_of [0x0011] then (if agrees 64 then KReal64 else KBytes)
  else if is_one_of [0x0009; 0x000B] then KString
  else if (0x0030 <=? dataType) && (dataType <=? 0x003F) then (if bitSize <=? 8 then KUint8 else KUint16)
  else KBytes.

(** ** Units *)
Definition kPrefixes : list (Z * text) :=
  [
   (0x01, codes "da");
   (0x02, codes "h");
   (0x03, codes "k");
   (0x06, codes "M");
   (0x09, codes "G");
   (0x0C, codes "T");
   (0x0F, codes "P");
   (0x12, codes "E");
   (0xEE, codes "a");
   (0xF1, codes "f");
   (0xF4, codes "p");
   (0xF7, codes "n");
   (0xFA, codes "μ");
   (0xFD, codes "m");
   (0xFE, codes "c");
   (0xFF, codes "d")].

Definition kNotations : list (Z * text) :=
  [
   (0x00, codes "1");
   (0x01, codes "m");
   (0x02, codes "kg");
   (0x03, codes "s");
   (0x04, codes "A");
   (0x05, codes "K");
   (0x06, codes "mol");
   (0x07, codes "cd");
   (0x10, codes "rad");
   (0x11, codes "sr");
   (0x20, codes "Hz");
   (0x21, codes "N");
   (0x22, codes "Pa");
   (0x23, codes "J");
   (0x24, codes "W");
   (0x25, codes "C");
   (0x26, codes "V");
   (0x27, codes "F");
   (0x28, codes "Ω");
   (0x29, codes "S");
   (0x2A, codes "Wb");
   (0x2B, codes "T");
   (0x2C, codes "H");
   (0x2D, codes "°C");
   (0x2E, codes "lm");
   (0x2F, codes "lx");
   (0x30, codes "Bq");
   (0x31, codes "Gy");
   (0x32, codes "Sv");
   (0x33, codes "kat");
   (0x40, codes "g*");
   (0x41, codes "°");
   (0x42, codes "'");
   (0x43, codes "''");
   (0x44, codes "l");
   (0x45, codes "a");
   (0x46, codes "ha");
   (0x47, codes "min");
   (0x48, codes "h");
   (0x49, codes "d");
   (0x4A, codes "a");
   (0x4B, codes "g");
   (0x4C, codes "t");
   (0x4E, codes "bar");
   (0x4F, codes "P");
   (0x50, codes "St");
   (0x51, codes "eV");
   (0x52, codes "u");
   (0x53, codes "AU");
   (0x54, codes "pc");
   (0x55, codes "m/s²");
   (0x56, codes "Nm");
   (0x57, codes "s²");
   (0x58, codes "m²");
   (0x59, codes "m³");
   (0x5A, codes "Pa s");
   (0x5B, codes "J/(kg K)");
   (0x5C, codes "W/(m K)");
   (0x5D, codes "J/(m K)");
   (0x5E, codes "W/(m² sr)");
   (0x5F, codes "kat/m³");
   (0xA0, codes "s³");
   (0xAC, codes "Step");
   (0xB4, codes "Revolution");
   (0xB5, codes "Inc");
   (0xB6, codes "rpm")].

Record UnitType := mk_unit { ut_notationIndex : Z; ut_index : Z; ut_name : text; ut_symbol : text }.

Fixpoint builtinSymbol (table : list (Z * text)) (notationIndex : Z) : text :=
  match table with [] => [] | (i, s) :: table' => if i =? notationIndex then s else builtinSymbol table' notationIndex end.

Fixpoint local_unit (local : list UnitType) (notationIndex : Z) : option UnitType :=
  match local with [] => None | u :: local' => if ut_notationIndex u =? notationIndex then Some u else local_unit local' notationIndex end.
Definition resolve (local : list UnitType) (notationIndex : Z) : text :=
  match local_unit local notationIndex with
  | Some u => match ut_symbol u with [] => builtinSymbol kNotations notationIndex | s => s end
  | None => builtinSymbol kNotations notationIndex
  end.

Record UnitParts := mk_parts { up_prefix : Z; up_numerator : Z; up_denominator : Z; up_reserved : Z }.
Definition esiUnitParts (unit : Z) : UnitParts :=
  mk_parts (u8 (Z.land (Z.shiftr unit 24) 0xFF)) (u8 (Z.land (Z.shiftr unit 16) 0xFF)) (u8 (Z.land (Z.shiftr unit 8) 0xFF)) (u8 (Z.land unit 0xFF)).

Definition dimensioned (local : list UnitType) (notationIndex : Z) : text :=
  let s := resolve local notationIndex in if bool_decide (s = codes "1") then [] else s.

Definition esiUnitSymbol (unit : Z) (local : list UnitType) : text :=
  if unit =? 0 then []
  else
    let parts := esiUnitParts unit in
    let overridden := existsb (fun u => (ut_notationIndex u =? up_numerator parts) || (ut_notationIndex u =? up_denominator parts)) local in
    if negb overridden && (unit =? 0x00B44700) then codes "rpm"
    else
      let numerator := dimensioned local (up_numerator parts) in
      let denominator := dimensioned local (up_denominator parts) in
      match numerator, denominator with
      | [], [] => []
      | _, _ => builtinSymbol kPrefixes (up_prefix parts) ++ numerator ++ match denominator with [] => [] | d => 47 :: d end
      end.

(** ** Depth of array names *)
Lemma after_none_drop l n : after_last_of l = None -> after_last_of (drop n l) = None.
Proof.
  revert n. induction l as [|c l IH]; intros [|n]; try done. cbn [after_last_of drop]. destruct (after_last_of l) eqn:E; [done|]. intros _. by apply IH.
Qed.

(** The name of an array's element is not the name of an array. *)
Lemma element_not_array l r : after_last_of l = Some r -> after_last_of r = None.
Proof.
  induction l as [|c l IH]; [done|]. cbn [after_last_of]. destruct (after_last_of l) as [r'|] eqn:E; [by intros [= ->]; apply IH|].
  destruct (starts_with _ _); [|done]. intros [= <-]. cbn [drop]. by apply after_none_drop.
Qed.

(** One level of recursion resolves every name, however deep the fuel. *)
Theorem resolve_fuel n name : resolve_name (S n) name = resolvePrimitiveType name.
Proof.
  unfold resolvePrimitiveType. destruct name as [|c name]; [done|]. cbn [resolve_name]. destruct (findPrimitive (c :: name)); [done|].
  destruct (splitParameterised (c :: name)) as [[base k]|]; [done|]. destruct (arrayElementTypeName (c :: name)) as [|d e] eqn:E; [done|].
  assert (Hd : forall m, resolve_name m (d :: e) = resolve_name 0 (d :: e)); [|apply Hd].
  assert (arrayElementTypeName (d :: e) = []) as Hn.
  { unfold arrayElementTypeName in *. destruct (starts_with (codes "ARRAY") (c :: name)); [|done].
    destruct (after_last_of (c :: name)) as [r|] eqn:Er; [|done]. cbn in E. subst r. apply element_not_array in Er.
    destruct (starts_with _ _); [|done]. by rewrite Er. }
  intros [|m]; [done|]. cbn [resolve_name]. rewrite Hn. reflexivity.
Qed.

End EsiTypes.
