(* ===== verification/EsiEntries.v ===== *)
(** * The dictionary of a device from its ESI ([libs/etg/esi_entry.cc])

    [buildDeviceEntries] expands the dictionaries of a device and of the modules in its slots into one
    table with one row per address. Warnings are collected in the order they are raised. *)

From Stdlib Require Import Sorted.
From stdpp Require Import sorting.
From S2P Require Import Prelude Util DeviceParameter Floats Json ProcessImage EsiTypes.

Module Esi.
Import Json EsiTypes.

(** ** The parsed file ([libs/etg/esi.h]); the fields the expansion reads *)
Record Text := mk_text { tx_value : text; tx_lcId : Z }.
Record Property := mk_property { pr_name : text; pr_value : text }.
Inductive AccessMode := Ro | Rw | Wo.
Inductive StateRestriction := RNone | RPreOp | RPreOpSafeOp | RPreOpOp | RSafeOp | RSafeOpOp | ROp.
Inductive Category := Mandatory | Optional | Conditional.
Inductive PdoMapping := PmNone | PmTx | PmRx | PmTxRx.
Inductive SafetyMapping := SmNone | SmSafeIn | SmSafeOut | SmSafeInOut | SmSafeParam.
Inductive SdoAccess := SubIndexAccess | CompleteAccess.
Record Access := mk_access { ac_mode : AccessMode; ac_readRestrictions : StateRestriction; ac_writeRestrictions : StateRestriction }.

Record ObjectFlags := mk_object_flags {
  of_access : option Access; of_category : option Category; of_pdoMapping : option PdoMapping; of_safetyMapping : option SafetyMapping;
  of_attribute : option Z; of_sdoAccess : option SdoAccess; of_backup : option Z; of_setting : option Z }.
Record SubFlags := mk_sub_flags {
  sf_access : option Access; sf_category : option Category; sf_pdoMapping : option PdoMapping; sf_safetyMapping : option SafetyMapping;
  sf_attribute : option Z; sf_backup : option Z; sf_setting : option Z }.

(** An [Info] without its sub-items. The expansion reads an object's own and its sub-items', no deeper. *)
Record Info := mk_info {
  in_minData : bytes; in_maxData : bytes; in_defaultData : bytes; in_minValue : option Z; in_maxValue : option Z; in_defaultValue : option Z;
  in_defaultString : option text; in_displayName : option text; in_unit : option Z }.
Record EsiObject := mk_object {
  ob_index : Z; ob_dependOnSlot : bool; ob_overwrittenByModule : bool; ob_names : list Text; ob_type : text; ob_bitSize : Z;
  ob_info : Info; ob_subItems : list (text * Info); ob_flags : option ObjectFlags; ob_properties : list Property }.

Record SubItem := mk_sub_item {
  su_subIdx : option Z; su_name : text; su_type : text; su_bitSize : Z; su_bitOffs : Z; su_defaultData : bytes; su_minValue : option Z;
  su_maxValue : option Z; su_defaultValue : option Z; su_flags : option SubFlags; su_properties : list Property }.
Record EnumInfo := mk_enum_info { en_texts : list Text; en_value : Z }.
Record EsiDataType := mk_data_type {
  dt_name : text; dt_baseType : option text; dt_bitSize : Z; dt_arrayInfo : list Z; dt_subItems : list SubItem; dt_enumInfo : list EnumInfo;
  dt_properties : list Property }.

Record EsiDictionary := mk_dictionary { di_unitTypes : list UnitType; di_dataTypes : list EsiDataType; di_objects : list EsiObject }.
Record EsiSlot := mk_slot { sl_moduleIdents : list Z; sl_slotPdoIncrement : option Z; sl_slotIndexIncrement : option Z }.
Record EsiDevice := mk_device {
  de_type : text; de_productCode : option Z; de_revisionNo : option Z; de_completeAccess : option bool; de_dictionaries : list (option EsiDictionary);
  de_slots : list EsiSlot; de_slotPdoIncrement : Z; de_slotIndexIncrement : Z }.
Record EsiModule := mk_module { mo_moduleIdent : Z; mo_completeAccess : option bool; mo_dictionary : option EsiDictionary }.
Record EsiFile := mk_file { fi_vendorId : Z; fi_devices : list EsiDevice; fi_modules : list EsiModule }.

Fixpoint find_if {A} (p : A -> bool) (l : list A) : option A :=
  match l with [] => None | x :: l' => if p x then Some x else find_if p l' end.

Definition esiText (texts : list Text) (lcId : Z) : text :=
  match texts with
  | [] => []
  | first :: _ =>
      match find_if (fun t => tx_lcId t =? lcId) texts with
      | Some t => tx_value t
      | None => match find_if (fun t => tx_lcId t =? 0) texts with Some t => tx_value t | None => tx_value first end
      end
  end.
Definition findEsiModule (file : EsiFile) (moduleIdent : Z) : option EsiModule := find_if (fun m => mo_moduleIdent m =? moduleIdent) (fi_modules file).

(** The newest description of a product, or the one of a revision. *)
Definition newer (best : option EsiDevice) (device : EsiDevice) : option EsiDevice :=
  match best with
  | None => Some device
  | Some b => if default 0 (de_revisionNo b) <? default 0 (de_revisionNo device) then Some device else best
  end.
Definition findEsiDeviceByProductCode (file : EsiFile) (productCode : Z) (revisionNo : option Z) : option EsiDevice :=
  let matching := filter (fun d => de_productCode d = Some productCode) (fi_devices file) in
  match revisionNo with
  | Some r => find_if (fun d => bool_decide (de_revisionNo d = Some r)) matching
  | None => foldl newer None matching
  end.

(** ** Rows of the table *)
Inductive ObjectCode := Var | Array | Record_.
Definition object_code (c : ObjectCode) : Z := match c with Var => 7 | Array => 8 | Record_ => 9 end.
Inductive Kind := Device | Module.
Record EsiEntrySource := mk_source { so_kind : Kind; so_moduleIdent : Z; so_slot : Z; so_indexOffset : Z }.
Record EsiEntry := mk_entry {
  e_index : Z; e_subindex : Z; e_rawIndex : Z; e_objectName : text; e_entryName : text; e_displayName : text; e_objectCode : ObjectCode;
  e_numberOfEntries : Z; e_dataTypeName : text; e_dataType : Z; e_valueKind : ValueKind; e_isSigned : bool; e_bitSize : Z; e_bitOffset : Z;
  e_defaultData : option bytes; e_minData : option bytes; e_maxData : option bytes; e_unit : option Z; e_unitSymbol : text; e_access : Access;
  e_category : Category; e_pdoMapping : PdoMapping; e_safetyMapping : SafetyMapping; e_sdoAccess : SdoAccess; e_backup : bool; e_setting : bool;
  e_attribute : option Z; e_objAccess : Z; e_properties : list Property; e_description : text; e_options : list (text * Z); e_source : EsiEntrySource }.
Definition key (e : EsiEntry) : Z := Z.lor (u32 (Z.shiftl (e_index e) 8)) (e_subindex e).

Inductive EsiCollisionPolicy := LastWins | FirstWins | CollisionError.
Record EsiEntryOptions := mk_options {
  op_lcId : Z; op_moduleIdents : list Z; op_applySlotOffsets : bool; op_requireDependOnSlot : bool; op_collisionPolicy : EsiCollisionPolicy;
  op_padShortValues : bool; op_sortByAddress : bool; op_maxWarnings : nat }.
Definition kDefaultLcId : Z := 1033.
Definition default_options : EsiEntryOptions := mk_options kDefaultLcId [] true true LastWins true true 1000.

#[export] Instance AccessMode_eq_dec : EqDecision AccessMode. Proof. solve_decision. Defined.
#[export] Instance PdoMapping_eq_dec : EqDecision PdoMapping. Proof. solve_decision. Defined.
#[export] Instance Kind_eq_dec : EqDecision Kind. Proof. solve_decision. Defined.
#[export] Instance EsiCollisionPolicy_eq_dec : EqDecision EsiCollisionPolicy. Proof. solve_decision. Defined.

(** ** Warnings *)
Inductive Warning :=
  | NoModule (slot ident : Z)
  | NoDictionary (slot ident : Z)
  | DuplicateType (label name : text)
  | OffsetOverflow (label : text) (index offset : Z)
  | UndeclaredType (index : Z) (label type : text)
  | InfoCount (index : Z) (label : text) (info type : nat)
  | MatchedByPosition (index : Z) (label name : text)
  | NoTypeSubItem (index : Z) (label : text) (position : nat)
  | NoSubIdx (index : Z) (label name : text) (position : nat)
  | NotPrimitive (index subindex : Z) (label type : text)
  | WidthMismatch (what : text) (index subindex : Z) (label : text) (bytes : nat) (bits : Z) (padded : bool)
  | OptionsNotObject (index subindex : Z) (label : text)
  | Collision (claimants winner : text) (count : nat) (index subindex : Z) (moduleOverride : bool)
  | Suppressed (count : nat).

(** [WarningSink]. *)
Record WarningSink := mk_sink { ws_total : nat; ws_messages : list Warning }.
Definition sink_add (cap : nat) (s : WarningSink) (w : Warning) : WarningSink :=
  mk_sink (S (ws_total s)) (if (length (ws_messages s) <? cap)%nat then ws_messages s ++ [w] else ws_messages s).
Definition sink_take (s : WarningSink) : list Warning :=
  if (length (ws_messages s) <? ws_total s)%nat then ws_messages s ++ [Suppressed (ws_total s - length (ws_messages s))] else ws_messages s.

(** Code that raises warnings. *)
Definition W (A : Type) : Type := A * list Warning.
Definition wret {A} (a : A) : W A := (a, []).
Definition wbind {A B} (m : W A) (f : A -> W B) : W B := let '(a, w) := m in let '(b, w') := f a in (b, w ++ w').
Definition warn (w : Warning) : W unit := (tt, [w]).
Definition warn_if (b : bool) (w : Warning) : W unit := if b then warn w else wret tt.
Fixpoint wmap {A B} (f : A -> W B) (l : list A) : W (list B) :=
  match l with [] => wret [] | x :: l' => wbind (f x) (fun y => wbind (wmap f l') (fun ys => wret (y :: ys))) end.
Notation "'note' x := m 'in' k" := (wbind m (fun x => k)) (at level 10, x name, m at level 100, k at level 200).

(** ** Sources *)
Record Source := mk_src {
  sr_dictionary : EsiDictionary; sr_origin : EsiEntrySource; sr_completeAccessDefault : bool; sr_indexOffset : Z; sr_pdoIndexOffset : Z;
  sr_types : gmap text EsiDataType; sr_label : text }.

Definition isPdoAreaIndex (index : Z) : bool := ((0x1600 <=? index) && (index <=? 0x17FF)) || ((0x1A00 <=? index) && (index <=? 0x1BFF)).

(** [{:08X}] and [{}] of a slot. *)
Definition hex8 (v : Z) : text := (fun i => Util.hex_char ((v / 16 ^ i) mod 16)) <$> [7; 6; 5; 4; 3; 2; 1; 0].
Definition module_label (ident slot : Z) : text := codes "module 0x" ++ hex8 ident ++ codes " slot " ++ Util.decimal slot.
Definition sourceLabel (source : EsiEntrySource) : text :=
  match so_kind source with Device => codes "the device dictionary" | Module => module_label (so_moduleIdent source) (so_slot source) end.

Definition findType (source : Source) (name : text) : option EsiDataType := sr_types source !! name.

Definition isArrayType (type : EsiDataType) : bool :=
  match dt_subItems type with [_; element] => bool_decide (su_type element = dt_name type ++ codes "ARR") | _ => false end.
Definition classify (type : option EsiDataType) : ObjectCode :=
  match type with
  | None => Var
  | Some t => match dt_subItems t with [] => Var | _ => if isArrayType t then Array else Record_ end
  end.

(** The loop over the base types, [hops] steps of it. *)
Definition kMaxHops : nat := 8.
Fixpoint resolve_hops (source : Source) (hops : nat) (current : text) : option PrimitiveType :=
  match hops with
  | O => None
  | S hops' =>
      match resolvePrimitiveType current with
      | Some primitive => Some primitive
      | None =>
          match findType source current with
          | None => None
          | Some type =>
              match dt_baseType type with
              | None => None
              | Some base => if bool_decide (base = current) then None else resolve_hops source hops' base
              end
          end
      end
  end.
Definition resolveType (source : Source) (name : text) : option PrimitiveType := resolve_hops source kMaxHops name.

Definition typeBitSize (source : Source) (name : text) (primitive : option PrimitiveType) : Z :=
  let otherwise := match primitive with Some p => pt_bitSize p | None => 0 end in
  match findType source name with
  | Some type => if 0 <? dt_bitSize type then u16 (dt_bitSize type) else otherwise
  | None => otherwise
  end.

Definition propertyValue (properties : list Property) (name : text) : text :=
  match find_if (fun p => bool_decide (pr_name p = name)) properties with Some p => pr_value p | None => [] end.

(** ** Values *)
Definition byte_width (bitSize : Z) : nat := Z.to_nat ((bitSize + 7) / 8).
Definition encodeScalar (value bitSize : Z) : bytes :=
  take (Nat.min (if 0 <? bitSize then byte_width bitSize else 8) 8) (Util.toBytes 8 false value).

Definition normaliseData (data : bytes) (bitSize : Z) (isSigned pad : bool) (what : text) (index subindex : Z) (label : text) : W (option bytes) :=
  match data with
  | [] => wret None
  | _ =>
      let expected := if 0 <? bitSize then byte_width bitSize else 0%nat in
      if (expected =? 0)%nat || (length data =? expected)%nat then wret (Some data)
      else
        note _ := warn (WidthMismatch what index subindex label (length data) bitSize pad) in
        if negb pad then wret (Some data)
        else if (expected <? length data)%nat then wret (Some (take expected data))
        else
          let negative := isSigned && negb (Z.land (byte_at data (length data - 1)) 0x80 =? 0) in
          wret (Some (data ++ replicate (expected - length data) (if negative then 0xFF else 0)))
  end.

(** ** Flags *)
Definition adoptFlag {A} (objectFlags : option ObjectFlags) (subFlags : option SubFlags) (objMember : ObjectFlags -> option A)
    (subMember : SubFlags -> option A) (specDefault : A) : A :=
  match subFlags with
  | Some sub => default specDefault (subMember sub)
  | None => match objectFlags with Some obj => default specDefault (objMember obj) | None => specDefault end
  end.

Definition stateBits (r : StateRestriction) : Z :=
  match r with RNone => 7 | RPreOp => 1 | RPreOpSafeOp => 3 | RPreOpOp => 5 | RSafeOp => 2 | RSafeOpOp => 6 | ROp => 4 end.
Definition makeObjAccess (access : Access) (pdoMapping : PdoMapping) (backup setting : bool) : Z :=
  let bits := if bool_decide (ac_mode access = Ro) || bool_decide (ac_mode access = Rw) then Z.lor 0 (stateBits (ac_readRestrictions access)) else 0 in
  let bits := if bool_decide (ac_mode access = Wo) || bool_decide (ac_mode access = Rw) then Z.lor bits (u16 (Z.shiftl (stateBits (ac_writeRestrictions access)) 3)) else bits in
  let bits := if bool_decide (pdoMapping = PmRx) || bool_decide (pdoMapping = PmTxRx) then Z.lor bits (Z.shiftl 1 6) else bits in
  let bits := if bool_decide (pdoMapping = PmTx) || bool_decide (pdoMapping = PmTxRx) then Z.lor bits (Z.shiftl 1 7) else bits in
  let bits := if backup then Z.lor bits (Z.shiftl 1 8) else bits in
  if setting then Z.lor bits (Z.shiftl 1 9) else bits.

Definition default_access : Access := mk_access Ro RNone RNone.

(** ** One object *)

(** What one subindex needs. [ei_shared] is [entryProperties == &object.properties], the one value it has besides null. *)
Record EntryInput := mk_input {
  ei_subindex : Z; ei_entryName : text; ei_typeName : text; ei_bitSize : Z; ei_bitOffset : Z; ei_info : option Info; ei_flagSource : option SubItem;
  ei_shared : bool }.

(** [{:03}]. *)
Definition pad3 (n : nat) : text := let d := Util.decimal (Z.of_nat n) in replicate (3 - length d) 48 ++ d.

Definition var_input (object : EsiObject) (objectName : text) : EntryInput :=
  mk_input 0 objectName (ob_type object) (u16 (ob_bitSize object)) 0 (Some (ob_info object)) None true.

(** [static_cast<std::size_t>(elements) + 1]: a 64-bit count. *)
Definition array_count (object : EsiObject) (arrayInfoType : option EsiDataType) : nat :=
  match ob_subItems object with
  | [] => match arrayInfoType with
          | Some t => match dt_arrayInfo t with elements :: _ => Z.to_nat (u64 (u64 elements + 1)) | [] => 0 end
          | None => 0
          end
  | subItems => length subItems
  end.
Definition array_input (object : EsiObject) (countSub elementSub : SubItem) (elementTypeName : text) (elementBits : Z) (i : nat) : EntryInput :=
  let infoSub := ob_subItems object !! i in
  let isCount := (i =? 0)%nat in
  mk_input (u8 (Z.of_nat i))
    (match infoSub with Some s => s.1 | None => if isCount then su_name countSub else codes "SubIndex " ++ pad3 i end)
    (if isCount then codes "USINT" else elementTypeName) (if isCount then 8 else elementBits)
    (if isCount then u16 (su_bitOffs countSub) else u16 (su_bitOffs elementSub + swrap 32 (Z.of_nat i - 1) * elementBits))
    (snd <$> infoSub) (Some (if isCount then countSub else elementSub)) false.
Definition array_inputs (source : Source) (object : EsiObject) (countSub elementSub : SubItem) : list EntryInput :=
  let arrayInfoType := findType source (su_type elementSub) in
  let elementTypeName := default (su_type elementSub) (arrayInfoType ≫= dt_baseType) in
  let elementBits := typeBitSize source elementTypeName (resolveType source elementTypeName) in
  array_input object countSub elementSub elementTypeName elementBits <$> seq 0 (array_count object arrayInfoType).

(** The sub-item of the type for position [i], or none. *)
Definition record_sub (index : Z) (label : text) (objectType : EsiDataType) (infoSub : option (text * Info)) (i : nat) : W (option SubItem) :=
  match infoSub with
  | Some s =>
      match find_if (fun t => bool_decide (su_name t = s.1)) (dt_subItems objectType) with
      | Some t => wret (Some t)
      | None =>
          match dt_subItems objectType !! i with
          | Some t => note _ := warn (MatchedByPosition index label s.1) in wret (Some t)
          | None => wret None
          end
      end
  | None => wret (dt_subItems objectType !! i)
  end.
Definition record_input (index : Z) (label : text) (object : EsiObject) (objectType : EsiDataType) (i : nat) : W (option EntryInput) :=
  let infoSub := ob_subItems object !! i in
  note typeSub := record_sub index label objectType infoSub i in
  match typeSub with
  | None => note _ := warn (NoTypeSubItem index label i) in wret None
  | Some t =>
      note _ := warn_if (match su_subIdx t with None => true | Some _ => false end) (NoSubIdx index label (su_name t) i) in
      wret (Some (mk_input (default (u8 (Z.of_nat i)) (su_subIdx t)) (su_name t) (su_type t) (u16 (su_bitSize t)) (u16 (su_bitOffs t))
        (snd <$> infoSub) (Some t) false))
  end.
Definition record_inputs (index : Z) (label : text) (object : EsiObject) (objectType : EsiDataType) : W (list EntryInput) :=
  let infos := length (ob_subItems object) in
  let types := length (dt_subItems objectType) in
  note _ := warn_if (negb (infos =? 0)%nat && negb (infos =? types)%nat) (InfoCount index label infos types) in
  note inputs := wmap (record_input index label object objectType) (seq 0 (Nat.max infos types)) in
  wret (omap id inputs).

Definition numberOfEntries (object : EsiObject) : Z :=
  match ob_subItems object with
  | [] => 0
  | (_, i) :: _ => u8 (match in_defaultData i with [] => Z.of_nat (length (ob_subItems object)) - 1 | b :: _ => b end)
  end.

(** *** The values and annotations of a row *)
Section Rows.
Context `{JsonLib} (options : EsiEntryOptions).

Definition kDescriptionProperty : text := codes "description".
Definition kOptionsProperty : text := codes "options".

(** [value.is_number_integer()] of each member in key order, with [get<int64_t>()]. *)
Definition add_option (opts : list (text * Z)) (kv : text * json) : list (text * Z) :=
  match kv.2 with
  | JInt v => if existsb (fun o => bool_decide (o.1 = kv.1)) opts then opts else opts ++ [(kv.1, swrap 64 v)]
  | _ => opts
  end.
Definition readOptions (type : option EsiDataType) (properties : list Property) (index subindex : Z) (label : text) : W (list (text * Z)) :=
  let opts := match type with Some t => (fun e => (esiText (en_texts e) (op_lcId options), en_value e)) <$> dt_enumInfo t | None => [] end in
  match propertyValue properties kOptionsProperty with
  | [] => wret opts
  | s =>
      match parse s with
      | Some (JObject o) => wret (foldl add_option opts o)
      | _ => note _ := warn (OptionsNotObject index subindex label) in wret opts
      end
  end.

Definition pick (data : bytes) (scalar : option Z) (bitSize : Z) (isSigned : bool) (what : text) (index subindex : Z) (label : text) : W (option bytes) :=
  match data with
  | _ :: _ => normaliseData data bitSize isSigned (op_padShortValues options) what index subindex label
  | [] => wret ((fun v => encodeScalar v bitSize) <$> scalar)
  end.

(** The default, the bounds, the unit and the display name. *)
Definition row_values (input : EntryInput) (bitSize : Z) (isSigned : bool) (index : Z) (label : text)
    : W (option bytes * option bytes * option bytes * option Z * text) :=
  match ei_info input with
  | Some info =>
      note d := pick (in_defaultData info) (in_defaultValue info) bitSize isSigned (codes "<DefaultData>") index (ei_subindex input) label in
      note mi := pick (in_minData info) (in_minValue info) bitSize isSigned (codes "<MinData>") index (ei_subindex input) label in
      note ma := pick (in_maxData info) (in_maxValue info) bitSize isSigned (codes "<MaxData>") index (ei_subindex input) label in
      let d := match d with Some b => Some b | None => in_defaultString info end in
      wret (d, mi, ma, in_unit info, default (ei_entryName input) (in_displayName info))
  | None =>
      match ei_flagSource input with
      | Some sub =>
          let d := match su_defaultData sub with _ :: _ => Some (su_defaultData sub) | [] => (fun v => encodeScalar v bitSize) <$> su_defaultValue sub end in
          wret (d, (fun v => encodeScalar v bitSize) <$> su_minValue sub, (fun v => encodeScalar v bitSize) <$> su_maxValue sub, None, ei_entryName input)
      | None => wret (None, None, None, None, ei_entryName input)
      end
  end.

(** Takes the first property of a name out. *)
Fixpoint erase_first (name : text) (l : list Property) : list Property :=
  match l with [] => [] | p :: l' => if bool_decide (pr_name p = name) then l' else p :: erase_first name l' end.

(** What an object gives every one of its rows. *)
Record ObjectContext := mk_context {
  oc_source : Source; oc_object : EsiObject; oc_index : Z; oc_appliedOffset : Z; oc_code : ObjectCode; oc_name : text; oc_properties : list Property }.

Definition row_properties (c : ObjectContext) (input : EntryInput) : list Property :=
  (if ei_subindex input =? 0 then oc_properties c else []) ++
  (if ei_shared input then [] else match ei_flagSource input with Some sub => su_properties sub | None => [] end).

Definition build_entry (c : ObjectContext) (input : EntryInput) : W EsiEntry :=
  let source := oc_source c in
  let object := oc_object c in
  let index := u16 (oc_index c) in
  let label := sr_label source in
  let primitive := resolveType source (ei_typeName input) in
  let dataType := match primitive with Some p => pt_code p | None => 0 end in
  let isSigned := match primitive with Some p => pt_isSigned p | None => false end in
  let bitSize := if 0 <? ei_bitSize input then ei_bitSize input else typeBitSize source (ei_typeName input) primitive in
  note _ := warn_if (match primitive with None => true | Some _ => false end) (NotPrimitive index (ei_subindex input) label (ei_typeName input)) in
  note values := row_values input bitSize isSigned index label in
  let '(defaultData, minData, maxData, unit, displayName) := values in
  let unitSymbol := match unit with Some u => esiUnitSymbol u (di_unitTypes (sr_dictionary source)) | None => [] end in
  let subFlags := ei_flagSource input ≫= su_flags in
  let access := adoptFlag (ob_flags object) subFlags of_access sf_access default_access in
  let pdoMapping := adoptFlag (ob_flags object) subFlags of_pdoMapping sf_pdoMapping PmNone in
  let backup := negb (adoptFlag (ob_flags object) subFlags of_backup sf_backup 0 =? 0) in
  let setting := negb (adoptFlag (ob_flags object) subFlags of_setting sf_setting 0 =? 0) in
  let attribute := match subFlags with Some f => sf_attribute f | None => ob_flags object ≫= of_attribute end in
  let sdoAccess := match ob_flags object ≫= of_sdoAccess with
                   | Some a => a
                   | None => if sr_completeAccessDefault source then CompleteAccess else SubIndexAccess
                   end in
  let properties := row_properties c input in
  let description := propertyValue properties kDescriptionProperty in
  let properties := erase_first kDescriptionProperty properties in
  note opts := readOptions (findType source (ei_typeName input)) properties index (ei_subindex input) label in
  wret (mk_entry index (ei_subindex input) (u16 (ob_index object)) (oc_name c) (ei_entryName input) displayName (oc_code c)
    (match oc_code c with Var => 0 | _ => numberOfEntries object end) (ei_typeName input) dataType (resolveValueKind dataType bitSize) isSigned bitSize
    (ei_bitOffset input) defaultData minData maxData unit unitSymbol access
    (adoptFlag (ob_flags object) subFlags of_category sf_category Optional) pdoMapping
    (adoptFlag (ob_flags object) subFlags of_safetyMapping sf_safetyMapping SmNone) sdoAccess backup setting attribute
    (makeObjAccess access pdoMapping backup setting) properties description opts
    (mk_source (so_kind (sr_origin source)) (so_moduleIdent (sr_origin source)) (so_slot (sr_origin source)) (oc_appliedOffset c))).

(** The index of an object in its slot, and the offset that was applied. *)
Definition relocate (source : Source) (object : EsiObject) : W (Z * Z) :=
  let offset := if op_applySlotOffsets options && (negb (op_requireDependOnSlot options) || ob_dependOnSlot object)
                then (if isPdoAreaIndex (ob_index object) then sr_pdoIndexOffset source else sr_indexOffset source) else 0 in
  let effectiveIndex := u32 (ob_index object + offset) in
  if 0xFFFF <? effectiveIndex then note _ := warn (OffsetOverflow (sr_label source) (ob_index object) offset) in wret (ob_index object, 0)
  else wret (effectiveIndex, offset).

Definition expand_object (source : Source) (object : EsiObject) : W (list EsiEntry) :=
  note at_ := relocate source object in
  let '(effectiveIndex, appliedOffset) := at_ in
  let label := sr_label source in
  let objectType := findType source (ob_type object) in
  note _ := warn_if (match objectType with None => true | Some _ => false end) (UndeclaredType effectiveIndex label (ob_type object)) in
  let code := classify objectType in
  let name := esiText (ob_names object) (op_lcId options) in
  let c := mk_context source object effectiveIndex appliedOffset code name
             (match code, objectType with Var, _ | _, None => ob_properties object | _, Some t => dt_properties t end) in
  note inputs :=
    match code, objectType with
    | Array, Some t => match dt_subItems t with countSub :: elementSub :: _ => wret (array_inputs source object countSub elementSub) | _ => wret [] end
    | Record_, Some t => record_inputs effectiveIndex label object t
    | _, _ => wret [var_input object name]
    end in
  wmap (build_entry c) inputs.
End Rows.

(** ** The merge *)
Record Claim := mk_claim { cl_sources : list text; cl_moduleOverride : bool }.
Record Merge := mk_merge { me_entries : list EsiEntry; me_byKey : gmap Z (nat * bool); me_claims : gmap Z Claim; me_collided : bool }.
Definition empty_merge : Merge := mk_merge [] ∅ ∅ false.

(** [moduleOverride] and [replace]. *)
Definition module_override (incumbent entry : EsiEntry) (overwritable : bool) : bool :=
  bool_decide (so_kind (e_source incumbent) = Device) && overwritable && bool_decide (so_kind (e_source entry) = Module).
Definition replaces (policy : EsiCollisionPolicy) (incumbent entry : EsiEntry) (overwritable : bool) : bool :=
  module_override incumbent entry overwritable || bool_decide (policy = LastWins).

Definition merge_entry (policy : EsiCollisionPolicy) (label : text) (overwrittenByModule : bool) (st : Merge) (entry : EsiEntry) : Merge :=
  let k := key entry in
  match me_byKey st !! k with
  | None => mk_merge (me_entries st ++ [entry]) (<[k := (length (me_entries st), overwrittenByModule)]> (me_byKey st)) (me_claims st) (me_collided st)
  | Some (position, overwritable) =>
      match me_entries st !! position with
      | None => st
      | Some incumbent =>
          let claim := default (mk_claim [] false) (me_claims st !! k) in
          let sources := (match cl_sources claim with [] => [sourceLabel (e_source incumbent)] | l => l end) ++ [label] in
          let claims := <[k := mk_claim sources (cl_moduleOverride claim || module_override incumbent entry overwritable)]> (me_claims st) in
          if replaces policy incumbent entry overwritable
          then mk_merge (<[position := entry]> (me_entries st)) (<[k := (position, overwrittenByModule)]> (me_byKey st)) claims true
          else mk_merge (me_entries st) (me_byKey st) claims true
      end
  end.

(** *** The report of the collisions, grouped by claimants and winner *)
Record CollisionGroup := mk_group { gr_count : nat; gr_firstIndex : Z; gr_firstSubindex : Z; gr_moduleOverride : bool }.
Definition join_labels (l : list text) : text := foldl (fun acc s => match acc with [] => s | _ => acc ++ codes ", " ++ s end) [] l.
Definition pair_compare (a b : text * text) : comparison := match text_compare a.1 b.1 with Eq => text_compare a.2 b.2 | c => c end.
Definition add_to_group (g : CollisionGroup) (winner : EsiEntry) (override : bool) : CollisionGroup :=
  let smaller := (gr_count g =? 0)%nat || (key winner <? Z.lor (u32 (Z.shiftl (gr_firstIndex g) 8)) (gr_firstSubindex g)) in
  mk_group (S (gr_count g)) (if smaller then e_index winner else gr_firstIndex g) (if smaller then e_subindex winner else gr_firstSubindex g)
    (gr_moduleOverride g || override).
Fixpoint group_add (who : text * text) (winner : EsiEntry) (override : bool) (l : list ((text * text) * CollisionGroup)) : list ((text * text) * CollisionGroup) :=
  match l with
  | [] => [(who, add_to_group (mk_group 0 0 0 false) winner override)]
  | (who', g) :: l' =>
      match pair_compare who who' with
      | Lt => (who, add_to_group (mk_group 0 0 0 false) winner override) :: l
      | Eq => (who', add_to_group g winner override) :: l'
      | Gt => (who', g) :: group_add who winner override l'
      end
  end.
Definition group_claim (st : Merge) (l : list ((text * text) * CollisionGroup)) (kc : Z * Claim) : list ((text * text) * CollisionGroup) :=
  match me_byKey st !! kc.1 with
  | Some (position, _) =>
      match me_entries st !! position with
      | Some winner => group_add (join_labels (cl_sources kc.2), sourceLabel (e_source winner)) winner (cl_moduleOverride kc.2) l
      | None => l
      end
  | None => l
  end.
Definition collision_warnings (st : Merge) : list Warning :=
  (fun '(who, g) => Collision who.1 who.2 (gr_count g) (gr_firstIndex g) (gr_firstSubindex g) (gr_moduleOverride g)) <$>
    foldl (group_claim st) [] (map_to_list (me_claims st)).

(** ** [buildDeviceEntries] *)
Inductive EsiError := NoObjectDictionary (type : text) | Collisions (type : text).

Section Build.
Context `{JsonLib} (file : EsiFile) (device : EsiDevice) (options : EsiEntryOptions).

Definition device_sources : list Source :=
  omap (fun d => (fun d => mk_src d (mk_source Device 0 (-1) 0) (default false (de_completeAccess device)) 0 0 ∅ (codes "device")) <$> d) (de_dictionaries device).

Definition slot_module (slotIndex : nat) (slot : EsiSlot) (ident : Z) : W (option Source) :=
  if negb (bool_decide (op_moduleIdents options = [])) && negb (bool_decide (ident ∈ op_moduleIdents options)) then wret None
  else
    match findEsiModule file ident with
    | None => note _ := warn (NoModule (Z.of_nat slotIndex) ident) in wret None
    | Some module =>
        match mo_dictionary module with
        | None => note _ := warn (NoDictionary (Z.of_nat slotIndex) ident) in wret None
        | Some dictionary =>
            let indexIncrement := default (de_slotIndexIncrement device) (sl_slotIndexIncrement slot) in
            let pdoIncrement := default (de_slotPdoIncrement device) (sl_slotPdoIncrement slot) in
            let ordinal := u32 (Z.of_nat slotIndex) in
            wret (Some (mk_src dictionary (mk_source Module ident (swrap 32 (Z.of_nat slotIndex)) 0)
              (default (default false (de_completeAccess device)) (mo_completeAccess module))
              (if op_applySlotOffsets options then u32 (ordinal * indexIncrement) else 0)
              (if op_applySlotOffsets options then u32 (ordinal * pdoIncrement) else 0) ∅ (module_label ident (Z.of_nat slotIndex))))
        end
    end.
Definition slot_sources : W (list Source) :=
  note l := wmap (fun '(slotIndex, slot) => wmap (slot_module slotIndex slot) (sl_moduleIdents slot)) (imap pair (de_slots device)) in
  wret (omap id (concat l)).

(** The first type of a name is kept. *)
Definition add_type (label : text) (m : W (gmap text EsiDataType)) (type : EsiDataType) : W (gmap text EsiDataType) :=
  note types := m in
  match types !! dt_name type with
  | Some _ => note _ := warn (DuplicateType label (dt_name type)) in wret types
  | None => wret (<[dt_name type := type]> types)
  end.
Definition with_types (source : Source) : W Source :=
  note types := foldl (add_type (sr_label source)) (wret (sr_types source)) (di_dataTypes (sr_dictionary source)) in
  wret (mk_src (sr_dictionary source) (sr_origin source) (sr_completeAccessDefault source) (sr_indexOffset source) (sr_pdoIndexOffset source) types (sr_label source)).

(** The rows of every object of every source, in order, with the label and the flag the merge reads. *)
Definition object_rows (source : Source) (object : EsiObject) : W (list (text * bool * EsiEntry)) :=
  note entries := expand_object options source object in
  wret ((fun e => (sr_label source, ob_overwrittenByModule object, e)) <$> entries).
Definition source_rows (source : Source) : W (list (text * bool * EsiEntry)) :=
  note rows := wmap (object_rows source) (di_objects (sr_dictionary source)) in wret (concat rows).
Definition all_rows (sources : list Source) : W (list (text * bool * EsiEntry)) := note rows := wmap source_rows sources in wret (concat rows).

Definition merge_rows (rows : list (text * bool * EsiEntry)) : Merge :=
  foldl (fun st '(label, overwritten, e) => merge_entry (op_collisionPolicy options) label overwritten st e) empty_merge rows.

(** The order of the addresses. *)
Definition address_le (a b : EsiEntry) : Prop := e_index a < e_index b \/ (e_index a = e_index b /\ e_subindex a <= e_subindex b).
#[export] Instance address_le_dec a b : Decision (address_le a b).
Proof. unfold address_le. apply _. Defined.

Definition buildDeviceEntries : expected EsiError (list EsiEntry * list Warning) :=
  let '(slots, w1) := slot_sources in
  match device_sources ++ slots with
  | [] => Unexpected (NoObjectDictionary (de_type device))
  | sources =>
      let '(sources, w2) := wmap with_types sources in
      let '(rows, w3) := all_rows sources in
      let st := merge_rows rows in
      let warnings := w1 ++ w2 ++ w3 ++ collision_warnings st in
      if me_collided st && bool_decide (op_collisionPolicy options = CollisionError) then Unexpected (Collisions (de_type device))
      else Value (if op_sortByAddress options then merge_sort address_le (me_entries st) else me_entries st,
                  sink_take (foldl (sink_add (op_maxWarnings options)) (mk_sink 0 []) warnings))
  end.

Definition device_rows : list (text * bool * EsiEntry) := (all_rows (wmap with_types (device_sources ++ slot_sources.1)).1).1.
End Build.

(** ** What the merge decides

    Each address is contended for by the rows that declare it, in order; the merge decides every address
    by itself. *)
Abbreviation row := (text * bool * EsiEntry)%type.
Definition row_key (r : row) : Z := key r.2.

Definition contend (policy : EsiCollisionPolicy) (holder : option (EsiEntry * bool)) (r : row) : option (EsiEntry * bool) :=
  match holder with
  | None => Some (r.2, r.1.2)
  | Some (e, overwritable) => if replaces policy e r.2 overwritable then Some (r.2, r.1.2) else holder
  end.
Definition contenders (k : Z) (rows : list row) : list row := filter (fun r => row_key r = k) rows.
Definition winner (policy : EsiCollisionPolicy) (k : Z) (rows : list row) : option (EsiEntry * bool) := foldl (contend policy) None (contenders k rows).

Lemma contenders_snoc k rows r : contenders k (rows ++ [r]) = contenders k rows ++ (if bool_decide (row_key r = k) then [r] else []).
Proof. unfold contenders. rewrite filter_app. f_equal. cbn. by rewrite decide_bool_decide. Qed.

Lemma winner_snoc policy k rows r : winner policy k (rows ++ [r]) = if bool_decide (row_key r = k) then contend policy (winner policy k rows) r else winner policy k rows.
Proof. unfold winner. rewrite contenders_snoc. case_bool_decide; [by rewrite foldl_snoc|by rewrite app_nil_r]. Qed.

Lemma contend_key policy holder r e o k : contend policy holder r = Some (e, o) -> row_key r = k -> (forall e' o', holder = Some (e', o') -> key e' = k) -> key e = k.
Proof.
  unfold contend. destruct holder as [[e' o']|]; [|by intros [= <- <-]]. destruct (replaces _ _ _ _); [by intros [= <- <-]|].
  intros [= <- <-] _ Hk. by apply (Hk e' o').
Qed.

Lemma winner_key policy k rows e o : winner policy k rows = Some (e, o) -> key e = k.
Proof.
  revert e o. induction rows as [|r rows IH] using rev_ind; intros e o; [done|]. rewrite winner_snoc. case_bool_decide as Hk; [|apply IH].
  intros Hc. exact (contend_key _ _ _ _ _ _ Hc Hk IH).
Qed.

Lemma winner_None policy k rows : winner policy k rows = None <-> k ∉ row_key <$> rows.
Proof.
  induction rows as [|r rows IH] using rev_ind; [split; [by intros _ ?%elem_of_nil|done]|]. rewrite winner_snoc, fmap_app, not_elem_of_app. cbn.
  rewrite list_elem_of_singleton. case_bool_decide as Hk.
  - split; [|intros [_ Hn]; congruence]. unfold contend. destruct (winner policy k rows) as [[e o]|]; [|done]. by destruct (replaces _ _ _ _).
  - rewrite IH. split; [intros ?; split; [done|congruence]|by intros [? _]].
Qed.

Record merge_ok (policy : EsiCollisionPolicy) (rows : list row) (st : Merge) : Prop := {
  ok_held : forall k, match winner policy k rows with
                      | None => me_byKey st !! k = None
                      | Some (e, o) => exists pos, me_byKey st !! k = Some (pos, o) /\ me_entries st !! pos = Some e
                      end;
  ok_placed : forall pos e, me_entries st !! pos = Some e -> exists o, me_byKey st !! key e = Some (pos, o);
  ok_collided : me_collided st = false <-> NoDup (row_key <$> rows) }.

Lemma NoDup_snoc {A} (l : list A) x : NoDup (l ++ [x]) <-> NoDup l /\ x ∉ l.
Proof. rewrite NoDup_app. split; [intros (H1 & H2 & _); split; [done|set_solver]|intros [H1 H2]; split_and!; [done|set_solver|apply NoDup_singleton]]. Qed.

Lemma merge_new policy rows st label o e : merge_ok policy rows st -> winner policy (key e) rows = None ->
  merge_ok policy (rows ++ [(label, o, e)]) (merge_entry policy label o st e).
Proof.
  intros [Hh Hp Hc] Hw. pose proof (Hh (key e)) as Hk. rewrite Hw in Hk. unfold merge_entry. rewrite Hk. split; cbn [me_byKey me_entries me_collided].
  - intros k. rewrite winner_snoc. unfold row_key. cbn [snd fst]. case_bool_decide as Ek.
    + subst k. rewrite Hw. cbn [contend snd fst]. exists (length (me_entries st)). rewrite lookup_insert_eq. split; [done|]. apply list_lookup_middle. done.
    + specialize (Hh k). destruct (winner policy k rows) as [[e' o']|].
      * destruct Hh as (pos & H1 & H2). exists pos. rewrite lookup_insert_ne by done. split; [done|]. by apply lookup_app_l_Some.
      * by rewrite lookup_insert_ne.
  - intros pos e' [H1|[H1 H2]]%lookup_app_Some.
    + destruct (Hp pos e' H1) as (o' & Ho). exists o'. rewrite lookup_insert_ne; [done|]. intros Ek. rewrite <- Ek in Ho. congruence.
    + apply list_lookup_singleton_Some in H2 as [Hz <-]. exists o. rewrite lookup_insert_eq. do 2 f_equal. lia.
  - rewrite fmap_app. cbn. rewrite NoDup_snoc, Hc. split; [|by intros [? _]]. intros H1. split; [done|]. by apply (winner_None policy).
Qed.

Lemma merge_old policy rows st label o e i oi : merge_ok policy rows st -> winner policy (key e) rows = Some (i, oi) ->
  merge_ok policy (rows ++ [(label, o, e)]) (merge_entry policy label o st e).
Proof.
  intros [Hh Hp Hc] Hw. pose proof (Hh (key e)) as Hk. rewrite Hw in Hk. destruct Hk as (pos & H1 & H2). unfold merge_entry. rewrite H1, H2.
  pose proof (winner_key _ _ _ _ _ Hw) as Hi.
  assert (Hd : ~ NoDup (row_key <$> rows ++ [(label, o, e)])).
  { rewrite fmap_app. cbn. rewrite NoDup_snoc. intros [_ Hn]. assert (winner policy (key e) rows = None) by (by apply winner_None). congruence. }
  assert (Hl : (pos < length (me_entries st))%nat) by (by eapply lookup_lt_Some).
  destruct (replaces policy i e oi) eqn:Er; (split; cbn [me_byKey me_entries me_collided]; [| |split; [done|intros; by destruct Hd]]).
  - intros k. rewrite winner_snoc. unfold row_key. cbn [snd fst]. case_bool_decide as Ek.
    + subst k. rewrite Hw. unfold contend. cbn [snd fst]. rewrite Er. exists pos. rewrite lookup_insert_eq. split; [done|]. by apply list_lookup_insert_eq.
    + specialize (Hh k). destruct (winner policy k rows) as [[e' o']|] eqn:Hw'; [|by rewrite lookup_insert_ne].
      destruct Hh as (pos' & H3 & H4). exists pos'. rewrite lookup_insert_ne by done. split; [done|]. rewrite list_lookup_insert_ne; [done|].
      intros ->. rewrite H2 in H4. injection H4 as <-. apply winner_key in Hw'. congruence.
  - intros pos' e' H3. destruct (decide (pos' = pos)) as [->|Hne].
    + rewrite list_lookup_insert_eq in H3 by done. injection H3 as <-. exists o. by rewrite lookup_insert_eq.
    + rewrite list_lookup_insert_ne in H3 by done. destruct (Hp pos' e' H3) as (o' & Ho). exists o'. rewrite lookup_insert_ne; [done|].
      intros Ek. rewrite <- Ek, H1 in Ho. congruence.
  - intros k. rewrite winner_snoc. unfold row_key. cbn [snd fst]. case_bool_decide as Ek; [|apply Hh].
    subst k. rewrite Hw. unfold contend. cbn [snd fst]. rewrite Er. by exists pos.
  - exact Hp.
Qed.

Lemma merge_rows_ok options rows : merge_ok (op_collisionPolicy options) rows (merge_rows options rows).
Proof.
  induction rows as [|[[label o] e] rows IH] using rev_ind.
  - split; [done|done|split; [intros _; constructor|done]].
  - unfold merge_rows in *. rewrite foldl_snoc. destruct (winner (op_collisionPolicy options) (key e) rows) as [[i oi]|] eqn:Hw; [by eapply merge_old|by apply merge_new].
Qed.

(** Who wins under each policy. *)
Lemma winner_last k rows r : winner LastWins k (rows ++ [r]) = if bool_decide (row_key r = k) then Some (r.2, r.1.2) else winner LastWins k rows.
Proof.
  rewrite winner_snoc. case_bool_decide; [|done]. unfold contend. destruct (winner LastWins k rows) as [[e o]|]; [|done]. unfold replaces.
  by rewrite (bool_decide_true (LastWins = LastWins)), orb_true_r.
Qed.
Lemma winner_is_last k rows : winner LastWins k rows = (fun r => (r.2, r.1.2)) <$> last (contenders k rows).
Proof.
  induction rows as [|r rows IH] using rev_ind; [done|]. rewrite winner_last, contenders_snoc. case_bool_decide; [by rewrite last_snoc|by rewrite app_nil_r].
Qed.

(** A row that no module may replace. *)
Definition firm (r : row) : Prop := r.1.2 = false \/ so_kind (e_source r.2) = Module.
Lemma winner_is_first policy k rows : policy <> LastWins -> (forall r, r ∈ contenders k rows -> firm r) ->
  winner policy k rows = (fun r => (r.2, r.1.2)) <$> head (contenders k rows).
Proof.
  intros Hp Hf. unfold winner. destruct (contenders k rows) as [|r l]; [done|]. cbn [foldl contend head fmap option_fmap option_map].
  assert (Hr : firm r) by (apply Hf; left). clear Hf. induction l as [|r' l IH] using rev_ind; [done|]. rewrite foldl_snoc, IH. cbn [contend].
  unfold replaces, module_override. rewrite (bool_decide_false (policy = LastWins)) by done. rewrite orb_false_r.
  destruct Hr as [->|Hm]; [by rewrite andb_false_r|]. rewrite Hm. by rewrite (bool_decide_false (Module = Device)).
Qed.

Lemma address_le_total a b : address_le a b \/ address_le b a.
Proof. unfold address_le. lia. Qed.
#[export] Instance address_le_Total : Total address_le.
Proof. intros a b. apply address_le_total. Qed.
#[export] Instance address_le_Transitive : Transitive address_le.
Proof. intros a b c. unfold address_le. lia. Qed.


(** ** Values keep their meaning *)
Import Param.

(** The signedness the ESI gives a type is the one its CoE code decodes with. *)
Lemma primitive_sign p t : p ∈ kPrimitiveTypes -> defaultValueForDataType (pt_code p) = VInt t 0 -> pt_isSigned p = int_signed t.
Proof.
  intros Hp. assert (Hc : forallb (fun p => match defaultValueForDataType (pt_code p) with VInt t _ => Bool.eqb (pt_isSigned p) (int_signed t) | _ => true end) kPrimitiveTypes = true)
    by (vm_compute; reflexivity).
  rewrite forallb_forall in Hc. specialize (Hc p (proj1 (list_elem_of_In _ _) Hp)). intros E. rewrite E in Hc. by apply eqb_prop.
Qed.

Lemma le_value_zeros k : le_value (replicate k 0) = 0.
Proof. induction k; cbn [replicate le_value]; lia. Qed.
Lemma le_value_ones k : le_value (replicate k 255) = 2 ^ (8 * Z.of_nat k) - 1.
Proof. induction k as [|k IH]; [done|]. cbn [replicate le_value]. rewrite IH, pow256_S. lia. Qed.

(** The top bit of the last byte says whether the value is in the upper half. *)
Lemma top_bit data : data <> [] -> bytes_ok data ->
  (Z.land (byte_at data (length data - 1)) 0x80 =? 0) = (le_value data <? 2 ^ (8 * Z.of_nat (length data) - 1)).
Proof.
  intros Hne Hok. destruct (exists_last Hne) as (l & b & ->). apply Forall_app in Hok as [Hl Hb]. apply Forall_cons in Hb as [Hb _].
  rewrite length_app. cbn [length]. replace (length l + 1 - 1)%nat with (length l) by lia.
  unfold byte_at. rewrite list_lookup_middle by done. change (default 0 (Some b)) with b. rewrite le_value_app. cbn [le_value].
  pose proof (le_value_range l Hl) as [H0 H1]. unfold in_u in Hb.
  replace (8 * Z.of_nat (length l + 1) - 1) with (7 + 8 * Z.of_nat (length l)) by lia. rewrite Z.pow_add_r by lia. change (2 ^ 7) with 128.
  assert (E : Z.land b 128 = if b <? 128 then 0 else 128).
  { assert (C : forallb (fun b => Z.land b 128 =? (if b <? 128 then 0 else 128)) (seqZ 0 256) = true) by (vm_compute; reflexivity).
    rewrite forallb_forall in C. apply Z.eqb_eq, C, list_elem_of_In, elem_of_seqZ. lia. }
  rewrite E. destruct (Z.ltb_spec b 128); [rewrite (proj2 (Z.ltb_lt _ _)) by nia; done|rewrite (proj2 (Z.ltb_ge _ _)) by nia; done].
Qed.

(** The value an ESI declares for a type: a number in its range, or bytes no longer than it. *)
Definition declares (t : IntType) (data : bytes) (scalar : option Z) (v : Z) : Prop :=
  match data with
  | [] => scalar = Some v /\ in_range t v = true
  | _ => bytes_ok data /\ (length data <= int_bytes t)%nat /\
         v = (if int_signed t then swrap (8 * Z.of_nat (length data)) (le_value data) else le_value data)
  end.

Lemma extended_value t data : data <> [] -> bytes_ok data -> (length data <= int_bytes t)%nat ->
  int_of_bits t (le_value (data ++ replicate (int_bytes t - length data)
    (if int_signed t && negb (Z.land (byte_at data (length data - 1)) 0x80 =? 0) then 0xFF else 0))) =
  (if int_signed t then swrap (8 * Z.of_nat (length data)) (le_value data) else le_value data).
Proof.
  intros Hne Hok Hl. rewrite top_bit, le_value_app by done. pose proof (le_value_range data Hok) as Hr.
  set (n := 8 * Z.of_nat (length data)) in *. set (x := le_value data) in *.
  assert (Hn : 0 < n <= int_bits t) by (unfold n, int_bits; destruct data; [done|cbn [length] in *; lia]).
  assert (Hp : 2 ^ n <= 2 ^ int_bits t) by (apply Z.pow_le_mono_r; lia).
  unfold int_of_bits. destruct (int_signed t); cbn [andb].
  - unfold swrap at 2. rewrite (uwrap_id n x Hr). assert (P2 : 2 ^ n = 2 * 2 ^ (n - 1)) by (rewrite <- Z.pow_succ_r by lia; f_equal; lia).
    assert (Pb : 2 ^ int_bits t = 2 * 2 ^ (int_bits t - 1)) by (rewrite <- Z.pow_succ_r by lia; f_equal; lia).
    assert (2 ^ (n - 1) <= 2 ^ (int_bits t - 1)) by (apply Z.pow_le_mono_r; lia). unfold in_u in Hr.
    destruct (Z.ltb_spec x (2 ^ (n - 1))) as [Hx|Hx]; cbn [negb].
    + rewrite le_value_zeros, Z.mul_0_r, Z.add_0_r. unfold swrap. rewrite uwrap_id by (unfold in_u; lia). by rewrite (proj2 (Z.ltb_lt _ _)) by lia.
    + rewrite le_value_ones. assert (E : 2 ^ n * 2 ^ (8 * Z.of_nat (int_bytes t - length data)) = 2 ^ int_bits t).
      { rewrite <- Z.pow_add_r by lia. f_equal. unfold n, int_bits. lia. }
      replace (x + 2 ^ n * (2 ^ (8 * Z.of_nat (int_bytes t - length data)) - 1)) with (x - 2 ^ n + 2 ^ int_bits t) by lia.
      unfold swrap. rewrite (uwrap_id (int_bits t)) by (unfold in_u; lia). rewrite (proj2 (Z.ltb_ge _ _)) by lia. lia.
  - rewrite le_value_zeros, Z.mul_0_r, Z.add_0_r. apply uwrap_id. unfold in_u in *. lia.
Qed.

(** C33: A bound or a default of an integer type keeps its value on the way from the ESI to a parameter:
    whether it is written as a number or as bytes, and also when fewer bytes are written than the type
    has, the bytes of the row decode, with the CoE code of the type, to the number the ESI means; a short
    negative one stays negative. *)
Theorem esi_bounds options p t bitSize data scalar v what idx sub label :
  p ∈ kPrimitiveTypes -> defaultValueForDataType (pt_code p) = VInt t 0 -> 0 < bitSize -> byte_width bitSize = int_bytes t ->
  op_padShortValues options = true -> declares t data scalar v ->
  exists b, (pick options data scalar bitSize (pt_isSigned p) what idx sub label).1 = Some b /\ decodeSdoBytes (pt_code p) b = Value (VInt t v).
Proof.
  intros Hp Ht Hb Hw Hpad Hd. rewrite (primitive_sign p t Hp Ht). unfold pick. destruct data as [|b0 data0].
  - destruct Hd as [-> Hr]. eexists. split; [reflexivity|]. rewrite decodeSdoBytes_table, Ht. unfold encodeScalar.
    rewrite (proj2 (Z.ltb_lt _ _) Hb), Hw, Nat.min_l by (destruct t; cbn; lia). rewrite Util.toBytes_little, take_le_bytes by (destruct t; cbn; lia).
    rewrite <- (app_nil_r (le_bytes _ _)). by apply decodeInt_encoded.
  - set (data := b0 :: data0) in *. destruct Hd as (Hok & Hl & ->). assert (Hne : data <> []) by done. unfold normaliseData. fold data.
    rewrite (proj2 (Z.ltb_lt _ _) Hb), Hw, Hpad. cbn [negb].
    assert (Hi : (int_bytes t =? 0)%nat = false) by (by destruct t). rewrite Hi. cbn [orb].
    pose proof (extended_value t data Hne Hok Hl) as Hx.
    assert (Hdec : decodeSdoBytes (pt_code p) (data ++ replicate (int_bytes t - length data)
        (if int_signed t && negb (Z.land (byte_at data (length data - 1)) 0x80 =? 0) then 0xFF else 0)) =
      Value (VInt t (if int_signed t then swrap (8 * Z.of_nat (length data)) (le_value data) else le_value data))).
    { rewrite decodeSdoBytes_table, Ht. unfold decodeInt. rewrite length_app, length_replicate, (proj2 (Nat.ltb_ge _ _)) by lia.
      rewrite take_ge by (rewrite length_app, length_replicate; lia). by rewrite Hx. }
    unfold data at 1. cbv iota. fold data. destruct (Nat.eqb_spec (length data) (int_bytes t)) as [E|E].
    + exists data. split; [done|]. by rewrite <- E, Nat.sub_diag, app_nil_r in Hdec.
    + rewrite (proj2 (Nat.ltb_ge _ _)) by lia. eexists. split; [reflexivity|]. exact Hdec.
Qed.

Lemma esi_bounds_witness :
  exists b, (pick default_options [0xFE] None 16 true (codes "<MinData>") 0x2000 0 (codes "device")).1 = Some b /\
    decodeSdoBytes INTEGER16 b = Value (VInt I16 (-2)).
Proof.
  apply (esi_bounds default_options (mk_primitive (codes "INT") 3 16 true) I16 16 [0xFE] None (-2) (codes "<MinData>") 0x2000 0 (codes "device"));
    [|reflexivity|lia|reflexivity|reflexivity|].
  - apply list_elem_of_lookup. exists 3%nat. vm_compute. reflexivity.
  - split_and!; [apply (bool_decide_unpack (bytes_ok _)); vm_compute; exact I|cbn; lia|vm_compute; reflexivity].
Defined.

(** ** Access and subindexes *)

(** The bits of [objAccess] say what the flags mean: a state is readable when reading is allowed and not
    restricted away, and so on. *)
Definition allows (r : StateRestriction) (state : Z) : bool :=
  match r with
  | RNone => true
  | RPreOp => state =? 0
  | RPreOpSafeOp => (state =? 0) || (state =? 1)
  | RPreOpOp => (state =? 0) || (state =? 2)
  | RSafeOp => state =? 1
  | RSafeOpOp => (state =? 1) || (state =? 2)
  | ROp => state =? 2
  end.
Definition all_restrictions : list StateRestriction := [RNone; RPreOp; RPreOpSafeOp; RPreOpOp; RSafeOp; RSafeOpOp; ROp].
Theorem objAccess_bits a pm b s state : 0 <= state < 3 ->
  Z.testbit (makeObjAccess a pm b s) state = (match ac_mode a with Wo => false | _ => allows (ac_readRestrictions a) state end) /\
  Z.testbit (makeObjAccess a pm b s) (state + 3) = (match ac_mode a with Ro => false | _ => allows (ac_writeRestrictions a) state end) /\
  Z.testbit (makeObjAccess a pm b s) 6 = (match pm with PmRx | PmTxRx => true | _ => false end) /\
  Z.testbit (makeObjAccess a pm b s) 7 = (match pm with PmTx | PmTxRx => true | _ => false end) /\
  Z.testbit (makeObjAccess a pm b s) 8 = b /\ Z.testbit (makeObjAccess a pm b s) 9 = s.
Proof.
  intros Hs.
  assert (C : forallb (fun m => forallb (fun r => forallb (fun w => forallb (fun pm => forallb (fun b => forallb (fun s => forallb (fun state =>
      let x := makeObjAccess (mk_access m r w) pm b s in
      Bool.eqb (Z.testbit x state) (match m with Wo => false | _ => allows r state end) &&
      Bool.eqb (Z.testbit x (state + 3)) (match m with Ro => false | _ => allows w state end) &&
      Bool.eqb (Z.testbit x 6) (match pm with PmRx | PmTxRx => true | _ => false end) &&
      Bool.eqb (Z.testbit x 7) (match pm with PmTx | PmTxRx => true | _ => false end) && Bool.eqb (Z.testbit x 8) b && Bool.eqb (Z.testbit x 9) s)
    [0; 1; 2]) [false; true]) [false; true]) [PmNone; PmTx; PmRx; PmTxRx]) all_restrictions) all_restrictions) [Ro; Rw; Wo] = true) by (vm_compute; reflexivity).
  destruct a as [m r w]. cbn [ac_mode ac_readRestrictions ac_writeRestrictions].
  assert (Hr : forall r, In r all_restrictions) by (intros []; cbn; tauto).
  rewrite forallb_forall in C. specialize (C m ltac:(destruct m; cbn; tauto)). rewrite forallb_forall in C. specialize (C r (Hr r)).
  rewrite forallb_forall in C. specialize (C w (Hr w)). rewrite forallb_forall in C. specialize (C pm ltac:(destruct pm; cbn; tauto)).
  rewrite forallb_forall in C. specialize (C b ltac:(destruct b; cbn; tauto)). rewrite forallb_forall in C. specialize (C s ltac:(destruct s; cbn; tauto)).
  rewrite forallb_forall in C. specialize (C state ltac:(cbn; lia)). cbv zeta in C.
  apply andb_true_iff in C as [C C6]. apply andb_true_iff in C as [C C5]. apply andb_true_iff in C as [C C4]. apply andb_true_iff in C as [C C3].
  apply andb_true_iff in C as [C1 C2]. apply eqb_prop in C1, C2, C3, C4, C5, C6. done.
Qed.

(** The rows of an array count in eight bits. *)
Lemma array_subindices source object c e :
  ei_subindex <$> array_inputs source object c e = (fun i => Z.of_nat i mod 256) <$> seq 0 (length (array_inputs source object c e)).
Proof. unfold array_inputs. rewrite length_fmap, length_seq, <- list_fmap_compose. reflexivity. Qed.

(** ** A device with a module *)
#[local] Existing Instance token_json.

Definition w_info : Info := mk_info [] [] [] None None None None None None.
Definition w_type (name : text) (bits : Z) : EsiDataType := mk_data_type name None bits [] [] [] [].
Definition w_sub (i : Z) (name type : text) (bits : Z) : SubItem := mk_sub_item (Some i) name type bits 0 [] None None None None [].
Definition w_object (index : Z) (slot overwritten : bool) (name type : text) : EsiObject :=
  mk_object index slot overwritten [mk_text name 0] type 32 w_info [] None [].
Definition w_file : EsiFile :=
  let record := mk_data_type (codes "DT1018") None 40 [] [w_sub 0 (codes "Count") (codes "USINT") 8; w_sub 1 (codes "Vendor") (codes "UDINT") 32] [] [] in
  mk_file 0x22D2
    [mk_device (codes "Drive") (Some 0x301) None (Some true)
       [Some (mk_dictionary [] [w_type (codes "UDINT") 32; record]
          [w_object 0x6000 false true (codes "Input") (codes "UDINT"); w_object 0x1018 false false (codes "Identity") (codes "DT1018")])]
       [mk_slot [] None None; mk_slot [7] None None] 1 0x10]
    [mk_module 7 None (Some (mk_dictionary [] [w_type (codes "UDINT") 32]
       [w_object 0x6000 false false (codes "Module input") (codes "UDINT"); w_object 0x7000 true false (codes "Output") (codes "UDINT")]))].
Definition w_device : EsiDevice := default (mk_device [] None None None [] [] 0 0) (head (fi_devices w_file)).
Definition w_first : EsiEntryOptions := mk_options kDefaultLcId [] true true FirstWins true true 1000.
Definition w_table : list EsiEntry := match buildDeviceEntries w_file w_device w_first with Value (t, _) => t | _ => [] end.

Definition w_warnings : list Warning := match buildDeviceEntries w_file w_device w_first with Value (_, w) => w | _ => [] end.
Lemma w_built : buildDeviceEntries w_file w_device w_first = Value (w_table, w_warnings).
Proof. vm_compute. reflexivity. Qed.
Lemma w_addresses : (fun e => (e_index e, e_subindex e, so_kind (e_source e))) <$> w_table =
  [(0x1018, 0, Device); (0x1018, 1, Device); (0x6000, 0, Module); (0x7010, 0, Module)].
Proof. vm_compute. reflexivity. Qed.


End Esi.
