(* ===== verification/EsiCache.v ===== *)
(** * ESI files and their join with a device's parameters ([libs/node/esi_cache.cc])

    The cache remembers the tables of a parsed file as long as the file's time and size stay the same.
    Parsing a file is the parameter [parse_file]; the mutex makes each operation one step. *)

From S2P Require Import Prelude Util DeviceParameter Floats Json ParameterCache EsiTypes ProcessImage EsiEntries.

Module EsiCache.
Import Param Json EsiTypes Esi.

(** ** The join *)
Definition decodeBound (dataType : Z) (b : option bytes) : option DeviceParameterValue :=
  match b with
  | None => None
  | Some b => match decodeSdoBytes dataType b with Value v => Some v | Unexpected _ => None end
  end.

Definition orElse {A} (a b : option A) : option A := match a with Some _ => a | None => b end.

(** Everything the loop does to one parameter. *)
Definition describe (entry : EsiEntry) (esiFile : text) (p : DeviceParameter) : DeviceParameter :=
  let takes := match unit_ p, e_unit entry with None, Some _ => true | _, _ => false end in
  mk_parameter (index p) (subindex p) (name p) (objectCode p) (dataType p) (bitLength p) (access p) (origin p) (cell p) (rawValue p) (syncState p)
    (if takes then e_unit entry else unit_ p) (if takes then e_unitSymbol entry else unitSymbol p)
    (orElse (defaultValue p) (decodeBound (dataType p) (e_defaultData entry))) (orElse (minValue p) (decodeBound (dataType p) (e_minData entry)))
    (orElse (maxValue p) (decodeBound (dataType p) (e_maxData entry))) (e_description entry) ((fun o => (o.2, o.1)) <$> e_options entry) esiFile.
Definition set_symbol (p : DeviceParameter) : DeviceParameter :=
  match unit_ p, unitSymbol p with
  | Some u, [] =>
      mk_parameter (index p) (subindex p) (name p) (objectCode p) (dataType p) (bitLength p) (access p) (origin p) (cell p) (rawValue p) (syncState p)
        (unit_ p) (esiUnitSymbol u []) (defaultValue p) (minValue p) (maxValue p) (description p) (options p) (esiFile p)
  | _, _ => p
  end.

Definition param_key (p : DeviceParameter) : Z := Image.makeParameterKey (index p) (subindex p).
Definition esi_entry (esi : option (list EsiEntry)) (k : Z) : option EsiEntry := find_if (fun e => key e =? k) (default [] esi).
Definition join_one (esi : option (list EsiEntry)) (esiFile : text) (p : DeviceParameter) : DeviceParameter :=
  set_symbol (match esi_entry esi (param_key p) with Some e => describe e esiFile p | None => p end).
Definition joinEsi (parameters : list DeviceParameter) (esi : option (list EsiEntry)) (esiFile : text) : list DeviceParameter :=
  join_one esi esiFile <$> parameters.

(** ** The cache *)
Record EsiCacheConfig := mk_config { ec_directory : text; ec_enabled : bool }.
(** [esi-{:08x}-{}.xml]. *)
Definition fileName (vendorId : Z) (firmwareVersion : text) : text :=
  codes "esi-" ++ Cache.hex8 vendorId ++ [Cache.dash] ++ Cache.sanitizeFirmwareVersion firmwareVersion ++ codes ".xml".

Record stamp := mk_stamp { st_modified : Z; st_size : nat }.
#[export] Instance stamp_eq_dec : EqDecision stamp.
Proof. solve_decision. Defined.

Record LoadedFile := mk_loaded { lf_stamp : stamp; lf_tables : gmap Z (list EsiEntry) }.
Record EsiCache := mk_cache { ec_config : EsiCacheConfig; ec_files : gmap text LoadedFile }.

Inductive StoreError := EmptyVersion | CacheDisabled | DoesNotParse | CouldNotWrite (name : text).

Section Cache.
Context `{JsonLib} (userCacheDir : text) (parse_file : bytes -> option EsiFile).

Definition configure (config : EsiCacheConfig) (c : EsiCache) : EsiCache := mk_cache config ∅.
Definition resolveDir (config : EsiCacheConfig) : text := match ec_directory config with [] => userCacheDir ++ codes "/esis" | d => d end.

(** A product is described once, by its newest description. *)
Definition load_device (file : EsiFile) (tables : gmap Z (list EsiEntry)) (device : EsiDevice) : gmap Z (list EsiEntry) :=
  match de_productCode device with
  | None => tables
  | Some code =>
      match tables !! code with
      | Some _ => tables
      | None =>
          match findEsiDeviceByProductCode file code None with
          | None => tables
          | Some newest =>
              match buildDeviceEntries file newest default_options with
              | Value (table, _) => <[code := table]> tables
              | Unexpected _ => tables
              end
          end
      end
  end.
Definition file_tables (content : bytes) : gmap Z (list EsiEntry) :=
  match parse_file content with None => ∅ | Some file => foldl (load_device file) ∅ (fi_devices file) end.
Definition load (s : stamp) (content : bytes) : LoadedFile := mk_loaded s (file_tables content).

(** [disk] answers a path with the stamp and the content of the file there. *)
Definition find (disk : text * text -> option (stamp * bytes)) (vendorId productCode : Z) (firmwareVersion : text) (c : EsiCache)
    : EsiCache * option (list EsiEntry) :=
  match firmwareVersion with
  | [] => (c, None)
  | _ =>
      let name := fileName vendorId firmwareVersion in
      if negb (ec_enabled (ec_config c)) then (c, None)
      else
        match disk (resolveDir (ec_config c), name) with
        | None => (mk_cache (ec_config c) (delete name (ec_files c)), None)
        | Some (s, content) =>
            let loaded := match ec_files c !! name with
                          | Some l => if bool_decide (lf_stamp l = s) then l else load s content
                          | None => load s content
                          end in
            (mk_cache (ec_config c) (<[name := loaded]> (ec_files c)), lf_tables loaded !! productCode)
        end
  end.

(** What the file system does during one store: whether the directory can be made, whether the temporary
    file opens, whether the write is accepted, how many bytes reach the file, and whether it is renamed. *)
Record outcome := mk_outcome { oc_created : bool; oc_opened : bool; oc_accepted : bool; oc_reached : nat; oc_renamed : bool }.
Definition store (o : outcome) (xml : bytes) (firmwareVersion : text) (c : EsiCache) (disk : gmap (text * text) bytes)
    : gmap (text * text) bytes * expected StoreError (text * text) :=
  match firmwareVersion with
  | [] => (disk, Unexpected EmptyVersion)
  | _ =>
      if negb (ec_enabled (ec_config c)) then (disk, Unexpected CacheDisabled)
      else
        match parse_file xml with
        | None => (disk, Unexpected DoesNotParse)
        | Some file =>
            let path := (resolveDir (ec_config c), fileName (fi_vendorId file) firmwareVersion) in
            let temporary := (path.1, path.2 ++ codes ".tmp") in
            let accepted := oc_created o && oc_opened o && oc_accepted o in
            let disk := if oc_opened o then <[temporary := if oc_created o then take (oc_reached o) xml else []]> disk else disk in
            if negb accepted then (disk, Unexpected (CouldNotWrite temporary.2))
            else if oc_renamed o then (<[path := take (oc_reached o) xml]> (delete temporary disk), Value path)
            else (delete temporary disk, Unexpected (CouldNotWrite path.2))
        end
  end.

(** ** The cache is transparent *)

(** What a file says now. *)
Definition find_fresh (config : EsiCacheConfig) (disk : text * text -> option (stamp * bytes)) (vendorId productCode : Z) (firmwareVersion : text)
    : option (list EsiEntry) :=
  match firmwareVersion with
  | [] => None
  | _ => if negb (ec_enabled config) then None
         else match disk (resolveDir config, fileName vendorId firmwareVersion) with
              | None => None
              | Some (_, content) => file_tables content !! productCode
              end
  end.

Inductive cache_op :=
  | Configure (config : EsiCacheConfig)
  | Find (disk : text * text -> option (stamp * bytes)) (vendorId productCode : Z) (firmwareVersion : text).
Definition run_op (c : EsiCache) (op : cache_op) : EsiCache :=
  match op with Configure config => configure config c | Find disk v p ver => (find disk v p ver c).1 end.

(** [version p s] is the content a file had when its stamp was [s]. *)
Context (version : text * text -> stamp -> bytes).
Definition disk_ok (disk : text * text -> option (stamp * bytes)) : Prop := forall p s b, disk p = Some (s, b) -> b = version p s.
Definition op_ok (op : cache_op) : Prop := match op with Configure _ => True | Find disk _ _ _ => disk_ok disk end.
Definition memo_ok (c : EsiCache) : Prop := forall n l, ec_files c !! n = Some l -> lf_tables l = file_tables (version (resolveDir (ec_config c), n) (lf_stamp l)).

Lemma find_ok disk v p ver c : memo_ok c -> disk_ok disk ->
  memo_ok (find disk v p ver c).1 /\ ec_config (find disk v p ver c).1 = ec_config c /\ (find disk v p ver c).2 = find_fresh (ec_config c) disk v p ver.
Proof using Type.
  intros Hm Hd. unfold find, find_fresh. destruct ver as [|x ver]; [done|]. set (n := fileName v (x :: ver)). destruct (ec_enabled (ec_config c)); [|done]. cbn [negb].
  destruct (disk (resolveDir (ec_config c), n)) as [[s b]|] eqn:E; cbn [fst snd ec_config ec_files].
  - set (loaded := match ec_files c !! n with Some l => if bool_decide (lf_stamp l = s) then l else load s b | None => load s b end).
    assert (Hl : lf_stamp loaded = s /\ lf_tables loaded = file_tables b).
    { unfold loaded. destruct (ec_files c !! n) as [l|] eqn:El; [|done]. case_bool_decide as Hs; [|done]. split; [done|].
      rewrite (Hm n l El), Hs. by rewrite (Hd _ _ _ E). }
    destruct Hl as [Hs Ht]. split_and!; [|done|by rewrite Ht]. intros n' l. cbn [ec_files ec_config]. rewrite lookup_insert_Some. intros [[<- <-]|[_ Hl]]; [|by apply Hm].
    cbn [ec_config]. by rewrite Ht, Hs, (Hd _ _ _ E).
  - split_and!; [|done|done]. intros n' l. cbn [ec_files ec_config]. intros [_ Hl]%lookup_delete_Some. by apply Hm.
Qed.

Lemma ops_ok c ops : memo_ok c -> Forall op_ok ops -> memo_ok (foldl run_op c ops).
Proof using Type.
  intros Hm Hops. induction ops as [|op ops IH] using rev_ind; [done|]. apply Forall_app in Hops as [Hops Hop]. apply Forall_cons in Hop as [Hop _].
  rewrite foldl_snoc. specialize (IH Hops). destruct op as [config|disk v p ver]; [intros n l Hl; cbn [run_op configure ec_files] in Hl; by apply lookup_empty_Some in Hl|by apply find_ok].
Qed.


Lemma load_device_Some file tables device code t : load_device file tables device !! code = Some t -> tables !! code = Some t \/
  exists newest ws, findEsiDeviceByProductCode file code None = Some newest /\ buildDeviceEntries file newest default_options = Value (t, ws).
Proof using Type.
  unfold load_device. destruct (de_productCode device) as [c|]; [|by left]. destruct (tables !! c); [by left|].
  destruct (findEsiDeviceByProductCode file c None) as [newest|] eqn:En; [|by left]. destruct (buildDeviceEntries file newest default_options) as [[t' ws]|] eqn:Eb; [|by left].
  rewrite lookup_insert_Some. intros [[<- <-]|[_ ?]]; [right; by eexists _, _|by left].
Qed.

(** A table of a file is the table of the newest description of its product. *)
Lemma file_tables_Some content code t : file_tables content !! code = Some t -> exists file newest ws, parse_file content = Some file /\
  findEsiDeviceByProductCode file code None = Some newest /\ buildDeviceEntries file newest default_options = Value (t, ws).
Proof using Type.
  unfold file_tables. destruct (parse_file content) as [file|]; [|by intros ?%lookup_empty_Some]. intros Ht.
  enough (exists newest ws, findEsiDeviceByProductCode file code None = Some newest /\ buildDeviceEntries file newest default_options = Value (t, ws)) as (n & ws & ? & ?) by eauto 6.
  revert Ht. generalize (fi_devices file). intros l. induction l as [|d l IH] using rev_ind; [cbn [foldl]; by intros ?%lookup_empty_Some|].
  rewrite foldl_snoc. intros [Ht|Hx]%load_device_Some; eauto.
Qed.

(** Remembering parsed files changes no answer. After any reconfigurations and lookups, as long as a
    file that changed also changed its time or its size, a lookup answers what reading the file again would:
    nothing when the cache is off, the version is empty, the file is missing, does not parse or does not
    describe the product, and else the table of the newest description of the product in the file. *)
Theorem esi_cache_transparent config ops disk v p ver : Forall op_ok ops -> disk_ok disk ->
  let c := foldl run_op (mk_cache config ∅) ops in
  (find disk v p ver c).2 = find_fresh (ec_config c) disk v p ver /\
  forall t, (find disk v p ver c).2 = Some t -> exists s b file newest ws,
    disk (resolveDir (ec_config c), fileName v ver) = Some (s, b) /\ parse_file b = Some file /\
    findEsiDeviceByProductCode file p None = Some newest /\ buildDeviceEntries file newest default_options = Value (t, ws).
Proof using Type.
  intros Hops Hd. cbv zeta. set (c := foldl run_op (mk_cache config ∅) ops).
  assert (Hm : memo_ok c) by (apply ops_ok; [intros n l Hl; cbn [ec_files] in Hl; by apply lookup_empty_Some in Hl|done]).
  destruct (find_ok disk v p ver c Hm Hd) as (_ & _ & ->). split; [done|]. intros t. unfold find_fresh. destruct ver as [|x ver]; [done|].
  destruct (negb _); [done|]. destruct (disk _) as [[s b]|]; [|done]. intros (file & newest & ws & H1 & H2 & H3)%file_tables_Some. by exists s, b, file, newest, ws.
Qed.
End Cache.

(** ** The join keeps what the device said *)
Definition same_object (p q : DeviceParameter) : Prop :=
  index q = index p /\ subindex q = subindex p /\ name q = name p /\ objectCode q = objectCode p /\ dataType q = dataType p /\
  bitLength q = bitLength p /\ access q = access p /\ origin q = origin p /\ cell q = cell p /\ rawValue q = rawValue p /\ syncState q = syncState p.

Lemma orElse_Some {A} (a b : option A) x : a = Some x -> orElse a b = Some x.
Proof. by intros ->. Qed.

Lemma join_one_same esi f p : let q := join_one esi f p in
  same_object p q /\ (forall u, unit_ p = Some u -> unit_ q = Some u) /\ (forall v, defaultValue p = Some v -> defaultValue q = Some v) /\
  (forall v, minValue p = Some v -> minValue q = Some v) /\ (forall v, maxValue p = Some v -> maxValue q = Some v).
Proof.
  cbv zeta. unfold join_one, set_symbol, same_object. destruct (esi_entry esi (param_key p)) as [e|].
  - unfold describe. cbn [unit_ unitSymbol]. destruct (unit_ p), (e_unit e), (unitSymbol p), (e_unitSymbol e); cbn; (split_and!; [done..| | |]); intros v; apply orElse_Some.
  - destruct (unit_ p) eqn:Eu, (unitSymbol p) eqn:Es; cbn; rewrite ?Eu; done.
Qed.

Lemma joinEsi_keys ps esi f : param_key <$> joinEsi ps esi f = param_key <$> ps.
Proof.
  unfold joinEsi. rewrite <- list_fmap_compose. apply list_fmap_ext. intros _ p _. cbn. destruct (join_one_same esi f p) as [(E1 & E2 & _) _]. unfold param_key. by rewrite E1, E2.
Qed.

(** ** A drive whose file is replaced *)
#[local] Existing Instance token_json.
Definition w_parse (b : bytes) : option EsiFile := match b with [] => None | _ => Some w_file end.
Definition w_version (p : text * text) (s : stamp) : bytes := if st_modified s =? 1 then [] else [60].
Definition w_disk (t : Z) (p : text * text) : option (stamp * bytes) := Some (mk_stamp t 1, w_version p (mk_stamp t 1)).
Definition w_ops : list cache_op := [Find (w_disk 1) 0x22D2 0x301 (codes "v5"); Find (w_disk 2) 0x22D2 0x302 (codes "v5")].

Lemma w_disk_ok t : disk_ok w_version (w_disk t).
Proof. intros p s b [= <- <-]. done. Qed.
Lemma esi_cache_transparent_witness :
  (find [] w_parse (w_disk 2) 0x22D2 0x301 (codes "v5") (foldl (run_op [] w_parse) (mk_cache (mk_config (codes "/esi") true) ∅) w_ops)).2 =
    find_fresh [] w_parse (mk_config (codes "/esi") true) (w_disk 2) 0x22D2 0x301 (codes "v5").
Proof.
  refine (proj1 (esi_cache_transparent [] w_parse w_version (mk_config (codes "/esi") true) w_ops (w_disk 2) 0x22D2 0x301 (codes "v5") _ _)); [|apply w_disk_ok].
  apply Forall_cons_2; [apply w_disk_ok|]. apply Forall_cons_2; [apply w_disk_ok|]. by apply Forall_nil_2.
Defined.

End EsiCache.
