(* ===== verification/IntegroVariant.v ===== *)
(** * Variant files of the Integro ([libs/node/integro_variant])

    The catalogue of options, the binary file that selects some of them, and the fieldbus it selects. *)

From S2P Require Import Prelude Util DeviceParameter.

Module Variant.
Import Util Param.

(** ** The catalogue *)
Record IntegroVariantOption := mk_option {
  o_id : Z; o_category : text; o_meaning : text; o_socVariables : list text; o_incompatibleOptionIds : list Z; o_mpnSegmentCodes : list text }.

Definition kPhaseGainSoc : list text := [codes "adc_phase_current_sensor_gain"].
Definition kCurrentLimitSoc : list text := [codes "drive_max_continuous_current_mA"; codes "drive_max_current_mA"; codes "drive_max_mechanical_power_watts"; codes "protection_hardware_overcurrent_mA"; codes "fet_max_accumulated_heat_cold_amp_squared_second"; codes "fet_max_accumulated_heat_hot_amp_squared_second"; codes "fet_cold_temperature_degree_celsius"; codes "fet_hot_temperature_degree_celsius"; codes "fet_rated_current_cold_i2t_integration_deci_amp"; codes "cool_down_period_fet_overheat_s"; codes "cool_down_period_fet_startup_s"; codes "nominal_drive_temperature_degree_celsius"; codes "DC_current_peak_ripple_32_kHz_threshold_mA"; codes "DC_current_peak_ripple_64_kHz_threshold_mA"; codes "AC_current_threshold_mA"].
Definition kMultiturnSoc : list text := [codes "is_integrated_encoder_mt_used"].
Definition kEncoderResolutionSoc : list text := [codes "integrated_encoder_st_bits_used"; codes "should_integrated_encoder_noise_be_added"].
Definition kCyclicModeSoc : list text := [codes "are_cyclic_opmodes_allowed"].
Definition kInputFrequencySoc : list text := [codes "is_input_frequency_limited"].
Definition kAccelerationsSoc : list text := [codes "are_accelerations_limited"].
Definition kDioBitmapSoc : list text := [codes "dio_allowed_bitmap"].
Definition kDigitalInputSoc : list text := [codes "di_allowed_bitmap"].
Definition kDigitalOutputSoc : list text := [codes "do_allowed_bitmap"].
Definition kEncoderAllowedSoc : list text := [codes "encoder_allowed_bitmap"].
Definition kAnalogAllowedSoc : list text := [codes "analog_inputs_allowed_bitmap"].
Definition kDcClockSoc : list text := [codes "is_dc_clock_disabled"].
Definition kNotEthernetIp : list Z := [1; 2; 3; 39].
Definition kNotEtherCat : list Z := [0; 2; 3; 39].
Definition kNotProfinet : list Z := [0; 1; 3; 39].
Definition kNotCan : list Z := [0; 1; 2; 39].
Definition kNotEthernetIpLxm : list Z := [0; 1; 2; 3].
Definition kNotGain60 : list Z := [5].
Definition kNotGain80 : list Z := [4].
Definition kNotLimit1025 : list Z := [5; 7; 8; 9].
Definition kNotLimit2060 : list Z := [5; 6; 8; 9].
Definition kNotLimit2550 : list Z := [4; 6; 7; 9].
Definition kNotLimit40120 : list Z := [4; 6; 7; 8].
Definition kNotMultiturn : list Z := [11].
Definition kNotSingleturn : list Z := [10].
Definition kNot12Bits : list Z := [13; 14; 15; 20].
Definition kNot14Bits : list Z := [12; 14; 15; 20].
Definition kNot18Bits : list Z := [12; 13; 15; 20].
Definition kNot11Bits : list Z := [12; 13; 14; 15].
Definition kNotCyclicInactive : list Z := [17].
Definition kNotCyclicActive : list Z := [16].
Definition kNotDioNone : list Z := [22; 23; 24].
Definition kNotDio34 : list Z := [21; 23; 24].
Definition kNotDio124 : list Z := [21; 22; 24].
Definition kNotDio123 : list Z := [21; 22; 23].
Definition kMpnEthernetIp : list text := [codes "EI"].
Definition kMpnEtherCat : list text := [codes "EC"].
Definition kMpnProfinet : list text := [codes "EP"].
Definition kMpnCan : list text := [codes "CB"].
Definition kMpnEthernetIpLxm : list text := [codes "EI+CSE"].
Definition kMpnGain60 : list text := [codes "025"; codes "060"].
Definition kMpnGain80 : list text := [codes "050"; codes "120"].
Definition kMpn025 : list text := [codes "025"].
Definition kMpn060 : list text := [codes "060"].
Definition kMpn050 : list text := [codes "050"].
Definition kMpn120 : list text := [codes "120"].
Definition kMpnMultiturn : list text := [codes "ML"; codes "MM"; codes "MH"; codes "MX"].
Definition kMpnSingleturn : list text := [codes "SL"; codes "SM"; codes "SH"; codes "SX"].
Definition kMpn12Bits : list text := [codes "ML"; codes "SL"].
Definition kMpn14Bits : list text := [codes "MM"; codes "SM"].
Definition kMpn18Bits : list text := [codes "MH"; codes "SH"].
Definition kMpnCyclicInactive : list text := [codes "00"].
Definition kMpnCyclicActive : list text := [codes "01"].
Definition kIntegroVariantOptions : list IntegroVariantOption :=
  [mk_option 0 (codes "Fieldbus Protocol") (codes "EtherNet/IP - CiA 402") [] kNotEthernetIp kMpnEthernetIp;
   mk_option 1 (codes "Fieldbus Protocol") (codes "EtherCAT") [] kNotEtherCat kMpnEtherCat;
   mk_option 2 (codes "Fieldbus Protocol") (codes "PROFINET - CiA 402") [] kNotProfinet kMpnProfinet;
   mk_option 3 (codes "Fieldbus Protocol") (codes "CAN") [] kNotCan kMpnCan;
   mk_option 4 (codes "Phase current sensor gain") (codes "gain for size 60") kPhaseGainSoc kNotGain60 kMpnGain60;
   mk_option 5 (codes "Phase current sensor gain") (codes "gain for size 80") kPhaseGainSoc kNotGain80 kMpnGain80;
   mk_option 6 (codes "Current Limits") (codes "10/25") kCurrentLimitSoc kNotLimit1025 kMpn025;
   mk_option 7 (codes "Current Limits") (codes "20/60") kCurrentLimitSoc kNotLimit2060 kMpn060;
   mk_option 8 (codes "Current Limits") (codes "25/50") kCurrentLimitSoc kNotLimit2550 kMpn050;
   mk_option 9 (codes "Current Limits") (codes "40/120") kCurrentLimitSoc kNotLimit40120 kMpn120;
   mk_option 10 (codes "Multiturn ability") (codes "MT") kMultiturnSoc kNotMultiturn kMpnMultiturn;
   mk_option 11 (codes "Multiturn ability") (codes "ST") kMultiturnSoc kNotSingleturn kMpnSingleturn;
   mk_option 12 (codes "Encoder Resolution") (codes "12 bits") kEncoderResolutionSoc kNot12Bits kMpn12Bits;
   mk_option 13 (codes "Encoder Resolution") (codes "14 bits") kEncoderResolutionSoc kNot14Bits kMpn14Bits;
   mk_option 14 (codes "Encoder Resolution") (codes "18 bits") kEncoderResolutionSoc kNot18Bits kMpn18Bits;
   mk_option 16 (codes "Cyclic mode") (codes "inactive") kCyclicModeSoc kNotCyclicInactive kMpnCyclicInactive;
   mk_option 17 (codes "Cyclic mode") (codes "active") kCyclicModeSoc kNotCyclicActive kMpnCyclicActive;
   mk_option 18 (codes "Performance Limitation") (codes "Input frequency is limited to 4Hz to make the drive unable to follow highly dynamic trajectories") kInputFrequencySoc [] [];
   mk_option 19 (codes "Performance Limitation") (codes "Cyclic accelerations are limited to a low value to make the drive unable to react to large travel demands quickly") kAccelerationsSoc [] [];
   mk_option 20 (codes "Encoder Resolution") (codes "11 bits") kEncoderResolutionSoc kNot11Bits [];
   mk_option 21 (codes "Digital IOs allowed") (codes "None (0b0000)") kDioBitmapSoc kNotDioNone [];
   mk_option 22 (codes "Digital IOs allowed") (codes "DIO3, DIO4 (0b1100)") kDioBitmapSoc kNotDio34 [];
   mk_option 23 (codes "Digital IOs allowed") (codes "DIO1, DIO2, DIO4 (0b1011)") kDioBitmapSoc kNotDio124 [];
   mk_option 24 (codes "Digital IOs allowed") (codes "DIO1, DIO2, DIO3 (0b0111)") kDioBitmapSoc kNotDio123 [];
   mk_option 25 (codes "Encoder connectors allowed") (codes "Only integrated (0b01)") kEncoderAllowedSoc [] [];
   mk_option 26 (codes "Analog inputs allowed") (codes "Only motor temperature / internal (0b001)") kAnalogAllowedSoc [] [];
   mk_option 27 (codes "DC clock") (codes "Disable the DC clock synchronization") kDcClockSoc [] [];
   mk_option 28 (codes "Digital IOs allowed") (codes "Disable DI1") kDigitalInputSoc [] [];
   mk_option 29 (codes "Digital IOs allowed") (codes "Disable DO1") kDigitalOutputSoc [] [];
   mk_option 30 (codes "Digital IOs allowed") (codes "Disable DI2") kDigitalInputSoc [] [];
   mk_option 31 (codes "Digital IOs allowed") (codes "Disable DO2") kDigitalOutputSoc [] [];
   mk_option 32 (codes "Digital IOs allowed") (codes "Disable DI3") kDigitalInputSoc [] [];
   mk_option 33 (codes "Digital IOs allowed") (codes "Disable DI4") kDigitalInputSoc [] [];
   mk_option 34 (codes "Encoder connectors allowed") (codes "Disable encoder connector 1 (Integrated encoder)") kEncoderAllowedSoc [] [];
   mk_option 35 (codes "Encoder connectors allowed") (codes "Disable encoder connector 2 (External encoder)") kEncoderAllowedSoc [] [];
   mk_option 36 (codes "Analog inputs allowed") (codes "Disable AI Internal (Motor temperature sensor)") kAnalogAllowedSoc [] [];
   mk_option 37 (codes "Analog inputs allowed") (codes "Disable AI 1") kAnalogAllowedSoc [] [];
   mk_option 38 (codes "Analog inputs allowed") (codes "Disable AI 2") kAnalogAllowedSoc [] [];
   mk_option 39 (codes "Fieldbus Protocol") (codes "EtherNet/IP - LXM") [] kNotEthernetIpLxm kMpnEthernetIpLxm].

Definition kFieldbusCategory : text := codes "Fieldbus Protocol".
Definition kEtherCatOption : Z := 1.

Definition integroVariantOption (id : Z) : option IntegroVariantOption := List.find (fun o => o_id o =? id) kIntegroVariantOptions.

(** ** The file *)
Definition kHeaderSize : nat := 128.
Definition kOptionsOffset : nat := 132.
Definition kSignatureOffset : nat := 4.
Definition kSignatureSize : nat := 64.
Definition kChipIdOffset : nat := 68.
Definition kChipIdSize : nat := 12.
Definition kSerialNumberOffset : nat := 80.
Definition kSerialNumberSize : nat := 24.
Definition kMacAddressOffset : nat := 106.
Definition kCustomerIdOffset : nat := 112.
Definition kOperationModeOffset : nat := 116.
Definition kOptionCountOffset : nat := 130.
Definition kMaxVariantOptions : Z := 32.

Definition readU16 (b : bytes) (offset : nat) : Z := u16 (Z.lor (byte_at b offset) (Z.shiftl (byte_at b (offset + 1)) 8)).
Definition readU32 (b : bytes) (offset : nat) : Z :=
  u32 (Z.lor (Z.lor (Z.lor (byte_at b offset) (Z.shiftl (byte_at b (offset + 1)) 8)) (Z.shiftl (byte_at b (offset + 2)) 16))
             (Z.shiftl (byte_at b (offset + 3)) 24)).

Record IntegroVariant := mk_variant {
  fileVersion : Z; signature : bytes; chipId : bytes; serialNumber : text; macAddress : text; customerId : Z; operationMode : Z; optionIds : list Z }.

Inductive VariantError := TooShort (size : nat) | TooManyOptions (count : Z) | MissingOptions (count : Z) (room : nat).

Definition parseIntegroVariant (content : bytes) : expected VariantError IntegroVariant :=
  if (length content <? kOptionsOffset)%nat then Unexpected (TooShort (length content))
  else
    let optionCount := readU16 content kOptionCountOffset in
    if kMaxVariantOptions <? optionCount then Unexpected (TooManyOptions optionCount)
    else
      let optionBytes := (Z.to_nat optionCount * 2)%nat in
      if (length content <? kOptionsOffset + optionBytes)%nat
      then Unexpected (MissingOptions optionCount ((length content - kOptionsOffset) / 2))
      else
        let serial := slice kSerialNumberOffset kSerialNumberSize content in
        Value (mk_variant (readU32 content 0) (slice kSignatureOffset kSignatureSize content) (slice kChipIdOffset kChipIdSize content)
          (take (find_nul serial) serial) (toHex (slice kMacAddressOffset 6 content) [58])
          (readU32 content kCustomerIdOffset) (readU16 content kOperationModeOffset)
          ((fun i => readU16 content (kOptionsOffset + i * 2)) <$> seq 0 (Z.to_nat optionCount))).

(** EtherCAT when it is selected, else the first fieldbus. *)
Fixpoint fieldbus_from (ids : list Z) (found : option Z) : option Z :=
  match ids with
  | [] => found
  | id :: ids' =>
      match integroVariantOption id with
      | Some o => if bool_decide (o_category o = kFieldbusCategory)
                  then if id =? kEtherCatOption then Some id else fieldbus_from ids' (match found with Some _ => found | None => Some id end)
                  else fieldbus_from ids' found
      | None => fieldbus_from ids' found
      end
  end.
Definition variantFieldbusProtocol (variant : IntegroVariant) : option Z := fieldbus_from (optionIds variant) None.

(** ** The layout of an accepted file *)

Lemma variant_u16 b i : bytes_ok b -> (i + 2 <= length b)%nat -> readU16 b i = le_value (slice i 2 b).
Proof.
  intros Hb Hl. destruct (lookup_lt_is_Some_2 b i) as [x Hx]; [lia|]. destruct (lookup_lt_is_Some_2 b (i + 1)) as [y Hy]; [lia|].
  pose proof (byte_at_ok b i Hb) as H0. pose proof (byte_at_ok b (i + 1) Hb) as H1. unfold readU16. rewrite (byte_at_Some _ _ _ Hx), (byte_at_Some _ _ _ Hy) in *.
  unfold slice. rewrite (drop_S b x i Hx), (drop_S b y (S i)) by (by rewrite <- Nat.add_1_r). cbn [take]. rewrite take_0. cbn [le_value].
  rewrite (lor_shiftl_add x y 8) by (done || lia). unfold in_u in *. change (2 ^ 8) with 256 in *. unfold u16. rewrite uwrap_id by (unfold in_u; change (2 ^ 16) with 65536; lia). lia.
Qed.

Lemma variant_u32 b i : bytes_ok b -> (i + 4 <= length b)%nat -> readU32 b i = le_value (slice i 4 b).
Proof.
  intros Hb Hl. pose proof (fun j => byte_at_ok b j Hb) as Ho. unfold readU32.
  assert (Hs : slice i 4 b = [byte_at b i; byte_at b (i + 1); byte_at b (i + 2); byte_at b (i + 3)]).
  { apply list_eq. intros j. unfold slice. destruct (decide (j < 4)%nat) as [Hj|Hj].
    - rewrite lookup_take_lt, lookup_drop by done. destruct (lookup_lt_is_Some_2 b (i + j)) as [x Hx]; [lia|]. rewrite Hx.
      destruct j as [|[|[|[|j]]]]; [rewrite Nat.add_0_r in Hx|..|lia]; cbn; f_equal; symmetry; by apply byte_at_Some.
    - rewrite lookup_take_ge, lookup_ge_None_2 by (cbn; lia). done. }
  rewrite Hs. cbn [le_value]. pose proof (Ho i). pose proof (Ho (i + 1)%nat). pose proof (Ho (i + 2)%nat). pose proof (Ho (i + 3)%nat). unfold in_u in *.
  change (2 ^ 8) with 256 in *. rewrite (lor_shiftl_add _ _ 8) by (unfold in_u; change (2 ^ 8) with 256; lia). change (2 ^ 8) with 256.
  rewrite (lor_shiftl_add _ _ 16) by (unfold in_u; change (2 ^ 16) with 65536; lia). change (2 ^ 16) with 65536.
  rewrite (lor_shiftl_add _ _ 24) by (unfold in_u; change (2 ^ 24) with 16777216; lia). change (2 ^ 24) with 16777216.
  unfold u32. rewrite uwrap_id by (unfold in_u; change (2 ^ 32) with 4294967296; lia). lia.
Qed.

(** The parts of a file, in order. *)
Definition layout (version : Z) (sig chip serial pad mac : bytes) (customer mode : Z) (reserved : bytes) (options : list Z) (rest : bytes) : list bytes :=
  [le_bytes 4 version; sig; chip; serial; pad; mac; le_bytes 4 customer; le_bytes 2 mode; reserved; le_bytes 2 (Z.of_nat (length options));
   concat (le_bytes 2 <$> options); rest].
Record layout_ok (version : Z) (sig chip serial pad mac : bytes) (customer mode : Z) (reserved : bytes) (options : list Z) (rest : bytes) : Prop := mk_layout_ok {
  lo_version : in_u 32 version; lo_customer : in_u 32 customer; lo_mode : in_u 16 mode;
  lo_sig : length sig = 64%nat; lo_chip : length chip = 12%nat; lo_serial : length serial = 24%nat; lo_pad : length pad = 2%nat;
  lo_mac : length mac = 6%nat; lo_reserved : length reserved = 12%nat; lo_count : (length options <= 32)%nat;
  lo_options : Forall (in_u 16) options; lo_bytes : Forall bytes_ok [sig; chip; serial; pad; mac; reserved; rest] }.
Definition described (version : Z) (sig chip serial mac : bytes) (customer mode : Z) (options : list Z) : IntegroVariant :=
  mk_variant version sig chip (take (find_nul serial) serial) (toHex mac [58]) customer mode options.

Lemma slice_part (parts : list bytes) k p : parts !! k = Some p -> slice (sum_list (length <$> take k parts)) (length p) (concat parts) = p.
Proof.
  revert k. induction parts as [|q parts IH]; intros [|k] Hk; try done.
  - injection Hk as <-. cbn. unfold slice. by rewrite drop_0, take_app_length.
  - cbn [take fmap list_fmap sum_list_with concat id]. unfold id. unfold slice. rewrite drop_app_add. exact (IH k Hk).
Qed.

Lemma concat_options (options : list Z) i v : options !! i = Some v -> slice (i * 2) 2 (concat (le_bytes 2 <$> options)) = le_bytes 2 v.
Proof.
  revert i. induction options as [|w options IH]; intros [|i] Hi; try done.
  - injection Hi as <-. cbn [fmap list_fmap concat]. done.
  - cbn [fmap list_fmap concat]. rewrite <- (IH i Hi). done.
Qed.

Lemma length_options (options : list Z) : length (concat (le_bytes 2 <$> options)) = (length options * 2)%nat.
Proof. induction options as [|w options IH]; [done|]. cbn [fmap list_fmap concat]. rewrite length_app, IH. done. Qed.

Section Layout.
Context (version : Z) (sig chip serial pad mac : bytes) (customer mode : Z) (reserved : bytes) (options : list Z) (rest : bytes).
Context (Hok : layout_ok version sig chip serial pad mac customer mode reserved options rest).
#[local] Definition content : bytes := concat (layout version sig chip serial pad mac customer mode reserved options rest).

Lemma content_ok : bytes_ok content.
Proof using Hok.
  destruct Hok as [_ _ _ _ _ _ _ _ _ _ Ho Hb]. rewrite !Forall_cons in Hb. destruct Hb as (H1 & H2 & H3 & H4 & H5 & H6 & H7 & _).
  assert (Hopt : bytes_ok (concat (le_bytes 2 <$> options))) by (clear; induction options as [|o l IH]; [constructor|]; apply bytes_ok_app; [apply le_bytes_ok|done]).
  unfold content, layout. cbn [concat]. repeat apply bytes_ok_app; try done; try apply le_bytes_ok. constructor.
Qed.

Lemma content_length : length content = (132 + length options * 2 + length rest)%nat.
Proof using Hok.
  destruct Hok. unfold content, layout. cbn [concat]. rewrite !length_app, !length_le_bytes, length_options. cbn [length]. lia.
Qed.

Lemma content_part k p i n : layout version sig chip serial pad mac customer mode reserved options rest !! k = Some p ->
  i = sum_list (length <$> take k (layout version sig chip serial pad mac customer mode reserved options rest)) -> n = length p -> slice i n content = p.
Proof using Type. intros Hk -> ->. by apply slice_part. Qed.

Ltac part k := eapply (content_part k); [reflexivity|cbn [layout take fmap list_fmap sum_list_with id]; unfold id; rewrite ?length_le_bytes; lia|rewrite ?length_le_bytes; lia].

Lemma content_option i v : options !! i = Some v -> readU16 content (kOptionsOffset + i * 2) = v.
Proof using Hok.
  intros Hi. pose proof content_length as Hl. pose proof (lookup_lt_Some _ _ _ Hi) as Hlt. rewrite variant_u16; [|apply content_ok|unfold kOptionsOffset; lia].
  assert (Hs : slice (132 + i * 2) 2 content = slice (i * 2) 2 (slice 132 (length options * 2) content)).
  { unfold slice. replace (length options * 2)%nat with (i * 2 + (length options * 2 - i * 2))%nat by lia.
    rewrite <- take_drop_commute, drop_drop, take_take. f_equal. lia. }
  unfold kOptionsOffset. rewrite Hs. destruct Hok as [? ? ? ? ? ? ? ? ? ? Ho ?].
  replace (slice 132 (length options * 2) content) with (concat (le_bytes 2 <$> options)).
  - rewrite (concat_options options i v Hi), le_value_bytes. apply uwrap_id. by eapply Forall_lookup_1 in Hi.
  - symmetry. eapply (content_part 10); [reflexivity|cbn [layout take fmap list_fmap sum_list_with id]; unfold id; rewrite !length_le_bytes; lia|by rewrite length_options].
Qed.

Lemma parse_layout : parseIntegroVariant content = Value (described version sig chip serial mac customer mode options).
Proof using Hok.
  pose proof content_length as Hl. pose proof content_ok as Hb. pose proof Hok as [Hv Hc Hm Hs1 Hs2 Hs3 Hs4 Hs5 Hs6 Hn Ho Hr].
  assert (Hcount : readU16 content 130 = Z.of_nat (length options)).
  { rewrite variant_u16 by (done || lia). replace (slice 130 2 content) with (le_bytes 2 (Z.of_nat (length options))) by (symmetry; part 9%nat).
    rewrite le_value_bytes. apply uwrap_id. unfold in_u. change (2 ^ (8 * Z.of_nat 2)) with 65536. lia. }
  assert (Hver : readU32 content 0 = version).
  { rewrite variant_u32 by (done || lia). replace (slice 0 4 content) with (le_bytes 4 version) by (symmetry; part 0%nat). by rewrite le_value_bytes, uwrap_id. }
  assert (Hcus : readU32 content 112 = customer).
  { rewrite variant_u32 by (done || lia). replace (slice 112 4 content) with (le_bytes 4 customer) by (symmetry; part 6%nat). by rewrite le_value_bytes, uwrap_id. }
  assert (Hmod : readU16 content 116 = mode).
  { rewrite variant_u16 by (done || lia). replace (slice 116 2 content) with (le_bytes 2 mode) by (symmetry; part 7%nat). by rewrite le_value_bytes, uwrap_id. }
  unfold parseIntegroVariant, kOptionsOffset, kOptionCountOffset, kSignatureOffset, kSignatureSize, kChipIdOffset, kChipIdSize, kSerialNumberOffset, kSerialNumberSize,
    kMacAddressOffset, kCustomerIdOffset, kOperationModeOffset, kMaxVariantOptions. rewrite Hcount, Hver, Hcus, Hmod, Nat2Z.id.
  rewrite (proj2 (Nat.ltb_ge _ _)), (proj2 (Z.ltb_ge _ _)), (proj2 (Nat.ltb_ge _ _)) by lia.
  replace (slice 4 64 content) with sig by (symmetry; part 1%nat). replace (slice 68 12 content) with chip by (symmetry; part 2%nat).
  replace (slice 80 24 content) with serial by (symmetry; part 3%nat). replace (slice 106 6 content) with mac by (symmetry; part 5%nat).
  unfold described. repeat f_equal. apply list_eq. intros i. rewrite list_lookup_fmap. destruct (options !! i) as [v|] eqn:Ei.
  - rewrite lookup_seq_lt by (by eapply lookup_lt_Some). cbn. f_equal. by apply content_option.
  - apply lookup_ge_None in Ei. by rewrite lookup_seq_ge.
Qed.
End Layout.

Lemma slice_next {A} i n (l : list A) : drop i l = slice i n l ++ drop (i + n) l.
Proof. unfold slice. by rewrite <- drop_drop, take_drop. Qed.

Lemma le_slice content i n : bytes_ok content -> (i + n <= length content)%nat -> le_bytes n (le_value (slice i n content)) = slice i n content.
Proof.
  intros Hb Hl. pose proof (le_bytes_value (slice i n content) (bytes_ok_slice i n content Hb)) as H. by rewrite length_slice in H.
Qed.

Lemma options_slice content n : bytes_ok content -> forall off, (off + n * 2 <= length content)%nat ->
  concat (le_bytes 2 <$> ((fun i => readU16 content (off + i * 2)) <$> seq 0 n)) = slice off (n * 2) content.
Proof.
  intros Hb. induction n as [|n IH]; intros off Hl; [done|]. cbn [seq]. rewrite <- fmap_S_seq. cbn [fmap list_fmap concat].
  assert (E : (fun i => readU16 content (off + i * 2)) <$> (S <$> seq 0 n) = (fun i => readU16 content (off + 2 + i * 2)) <$> seq 0 n).
  { rewrite <- list_fmap_compose. apply list_fmap_ext. intros. cbn. f_equal. lia. }
  rewrite E. clear E.
  rewrite (IH (off + 2)%nat) by lia. rewrite Nat.mul_0_l, Nat.add_0_r, variant_u16, le_slice by (done || lia). unfold slice.
  rewrite <- drop_drop. change (S n * 2)%nat with (2 + n * 2)%nat. apply take_take_drop.
Qed.

(** A file is accepted exactly when it has the layout of the format with at most 32 options, whatever
    follows them, and what is read are its parts. *)
Theorem variant_exact content v : bytes_ok content ->
  parseIntegroVariant content = Value v <->
  exists version sig chip serial pad mac customer mode reserved options rest,
    layout_ok version sig chip serial pad mac customer mode reserved options rest /\
    content = concat (layout version sig chip serial pad mac customer mode reserved options rest) /\
    v = described version sig chip serial mac customer mode options.
Proof.
  intros Hb. split.
  - intros Hp. pose proof Hp as Hp'. unfold parseIntegroVariant, kOptionsOffset, kOptionCountOffset, kMaxVariantOptions in Hp'.
    destruct (Nat.ltb_spec (length content) 132) as [|Hl]; [done|]. destruct (Z.ltb_spec 32 (readU16 content 130)) as [|Hn]; [done|].
    assert (Hu : in_u 16 (readU16 content 130)) by (by apply uwrap_range).
    destruct (Nat.ltb_spec (length content) (132 + Z.to_nat (readU16 content 130) * 2)) as [|Hl2]; [done|]. clear Hp'.
    set (n := Z.to_nat (readU16 content 130)) in *. set (options := (fun i => readU16 content (132 + i * 2)) <$> seq 0 n).
    assert (Hno : length options = n) by (unfold options; by rewrite length_fmap, length_seq).
    exists (le_value (slice 0 4 content)), (slice 4 64 content), (slice 68 12 content), (slice 80 24 content), (slice 104 2 content), (slice 106 6 content),
      (le_value (slice 112 4 content)), (le_value (slice 116 2 content)), (slice 118 12 content), options, (drop (132 + n * 2) content).
    assert (Hr : forall i k, (i + k <= length content)%nat -> in_u (8 * Z.of_nat k) (le_value (slice i k content))).
    { intros i k Hik. pose proof (le_value_range (slice i k content) (bytes_ok_slice i k content Hb)) as H. by rewrite length_slice in H. }
    assert (Hlay : layout_ok (le_value (slice 0 4 content)) (slice 4 64 content) (slice 68 12 content) (slice 80 24 content) (slice 104 2 content) (slice 106 6 content)
      (le_value (slice 112 4 content)) (le_value (slice 116 2 content)) (slice 118 12 content) options (drop (132 + n * 2) content)).
    { split; try (rewrite length_slice; lia); try (apply Hr; lia); [lia| |].
      - unfold options. apply Forall_fmap, Forall_forall. intros i _. by apply uwrap_range.
      - repeat constructor; try (by apply bytes_ok_slice). by apply Forall_drop. }
    assert (Heq : content = concat (layout (le_value (slice 0 4 content)) (slice 4 64 content) (slice 68 12 content) (slice 80 24 content) (slice 104 2 content) (slice 106 6 content)
      (le_value (slice 112 4 content)) (le_value (slice 116 2 content)) (slice 118 12 content) options (drop (132 + n * 2) content))).
    { unfold layout. cbn [concat]. rewrite Hno. unfold n at 1. rewrite Z2Nat.id by (unfold in_u in Hu; lia). rewrite variant_u16 by (done || lia).
      rewrite !le_slice by (done || lia). unfold options. rewrite options_slice by (done || lia).
      rewrite app_nil_r, <- (slice_next 132), <- (slice_next 130 2), <- (slice_next 118 12), <- (slice_next 116 2), <- (slice_next 112 4), <- (slice_next 106 6),
        <- (slice_next 104 2), <- (slice_next 80 24), <- (slice_next 68 12), <- (slice_next 4 64), <- (slice_next 0 4). by rewrite drop_0. }
    split; [done|]. split; [done|]. rewrite Heq in Hp at 1. pose proof (parse_layout _ _ _ _ _ _ _ _ _ _ _ Hlay) as Hv. unfold Variant.content in Hv.
    rewrite Hv in Hp. by injection Hp.
  - intros (version & sig & chip & serial & pad & mac & customer & mode & reserved & options & rest & Hok & -> & ->). by apply parse_layout.
Qed.

(** EtherCAT when it is selected, and else the first option that names a fieldbus. *)
Definition is_fieldbus (id : Z) : bool := match integroVariantOption id with Some o => bool_decide (o_category o = kFieldbusCategory) | None => false end.
Lemma fieldbus_spec v : variantFieldbusProtocol v = if bool_decide (1 ∈ optionIds v) then Some 1 else List.find is_fieldbus (optionIds v).
Proof.
  unfold variantFieldbusProtocol. assert (H : forall ids found, fieldbus_from ids found =
    if bool_decide (1 ∈ ids) then Some 1 else match found with Some _ => found | None => List.find is_fieldbus ids end).
  { induction ids as [|id ids IH]; intros found; [by destruct found|]. cbn [fieldbus_from List.find]. unfold is_fieldbus at 1.
    destruct (decide (id = 1)) as [->|Hne].
    { rewrite (bool_decide_true (1 ∈ 1 :: ids)) by (by left). reflexivity. }
    rewrite (bool_decide_ext (1 ∈ id :: ids) (1 ∈ ids)) by set_solver. destruct (integroVariantOption id) as [o|]; [|apply IH].
    destruct (bool_decide (o_category o = kFieldbusCategory)); [|apply IH]. unfold kEtherCatOption. rewrite (proj2 (Z.eqb_neq id 1)) by done. rewrite IH. by destruct found. }
  rewrite H. done.
Qed.

End Variant.
