(* ===== verification/FirmwarePackage.v ===== *)
(** * Firmware packages and the hardware they are for ([libs/node/firmware_package],
    [libs/node/hardware_description])

    The name of a package, its entries and what of them is installed, the description a device stores of
    itself, and the check that a package is for a device. The zip library is a parameter. *)

From S2P Require Import Prelude Util DeviceParameter Floats Json IntegroVariant.

Module Package.
Import Json.

(** ** Text *)
Definition tolower (c : Z) : Z := if (65 <=? c) && (c <=? 90) then c + 32 else c.
Definition isdigit (c : Z) : bool := (48 <=? c) && (c <=? 57).

Definition endsWithIgnoringCase (t suffix : text) : bool :=
  if (length t <? length suffix)%nat then false
  else bool_decide (tolower <$> drop (length t - length suffix) t = tolower <$> suffix).

Definition starts_with (p l : text) : bool := bool_decide (take (length p) l = p).

(** What is before the last [" ("]. *)
Fixpoint before_last_open (l : text) : option text :=
  match l with
  | [] => None
  | c :: l' => match before_last_open l' with
               | Some b => Some (c :: b)
               | None => if starts_with [32; 40] l then Some [] else None
               end
  end.
Definition withoutDuplicateSuffix (stem : text) : text :=
  if negb (bool_decide (last stem = Some 41)) then stem
  else
    match before_last_open stem with
    | None => stem
    | Some b =>
        let digits := slice (length b + 2) (length stem - length b - 3) stem in
        if bool_decide (digits = []) || negb (forallb isdigit digits) then stem else b
    end.

Fixpoint split (separator : Z) (l : text) : list text :=
  match l with
  | [] => [[]]
  | c :: l' => if c =? separator then [] :: split separator l'
               else match split separator l' with [] => [[c]] | x :: xs => (c :: x) :: xs end
  end.
Definition isDigits (t : text) : bool := negb (bool_decide (t = [])) && forallb isdigit t.

(** ** The name of a package *)
Definition kPackageDescription : text := codes "package".
Definition kExtension : text := codes ".zip".

Record FirmwarePackageName := mk_name {
  description : text; hardwareName : text; fullFirmwareDescriptor : text; softwareName : text; softwareVersion : text;
  firmwareId : option text; firmwareVersion : option text; keyId : option text; fieldbusProtocol : option text }.

(** The four fields of a descriptor in the numeric form. *)
Definition decodeFullFirmwareDescriptor (descriptor : text) : option text * option text * option text * option text :=
  let parts := split 45 descriptor in
  match parts with
  | id :: version :: tail =>
      if isDigits id && isDigits version then (Some id, Some version, tail !! 0%nat, tail !! 1%nat) else (None, None, None, None)
  | _ => (None, None, None, None)
  end.

Inductive NameError := NotZip | FieldCount (n : nat) | EmptyField | OtherDescription (field : text) | NoVersion (field : text).

Definition read_fields (fields : list text) : expected NameError FirmwarePackageName :=
  match fields with
  | [f0; f1; f2; f3; f4] =>
      if existsb (fun f => bool_decide (f = [])) fields then Unexpected EmptyField
      else if negb (bool_decide (f0 = kPackageDescription)) then Unexpected (OtherDescription f0)
      else if negb (starts_with [118] f4) then Unexpected (NoVersion f4)
      else let '(id, version, key, fieldbus) := decodeFullFirmwareDescriptor f2 in
           Value (mk_name f0 f1 f2 f3 f4 id version key fieldbus)
  | _ => Unexpected (FieldCount (length fields))
  end.
Definition parseFirmwarePackageName (filename : text) : expected NameError FirmwarePackageName :=
  if negb (endsWithIgnoringCase filename kExtension) then Unexpected NotZip
  else read_fields (split 95 (withoutDuplicateSuffix (take (length filename - length kExtension) filename))).

Definition buildDescriptor (n : FirmwarePackageName) : option text :=
  match firmwareId n, firmwareVersion n with Some id, Some version => Some (id ++ 45 :: version) | _, _ => None end.

(** ** The description of the hardware *)
Record HardwareComponent := mk_component { c_name : text; c_version : text; c_serialNumber : text }.
Record HardwareProduct := mk_product {
  p_name : text; p_imageId : text; p_id : text; p_version : text; p_keyId : text; p_serialNumber : text; p_macAddress : text;
  p_components : list HardwareComponent }.
Record HardwareDescription := mk_description { d_fileVersion : text; d_device : HardwareProduct; d_assembly : option HardwareProduct }.

Definition productDescriptor (p : HardwareProduct) : text := p_id p ++ 45 :: p_version p.

(** [std::to_string] of an [int64_t]. *)
Definition to_string (v : Z) : text := if v <? 0 then 45 :: Util.decimal (- v) else Util.decimal v.
Definition stringField (object : list (text * json)) (key : text) : text :=
  match obj_get key object with
  | Some (JString s) => s
  | Some (JInt v) => to_string (swrap 64 v)
  | _ => []
  end.
Definition component (entry : json) : option HardwareComponent :=
  match entry with
  | JObject o => Some (mk_component (stringField o (codes "name")) (stringField o (codes "version")) (stringField o (codes "serialNumber")))
  | _ => None
  end.
Definition components (object : list (text * json)) : list HardwareComponent :=
  match obj_get (codes "components") object with Some (JArray l) => omap component l | _ => [] end.
Definition product (object : list (text * json)) : HardwareProduct :=
  mk_product (stringField object (codes "name")) (stringField object (codes "imageId")) (stringField object (codes "id")) (stringField object (codes "version"))
    (stringField object (codes "keyId")) (stringField object (codes "serialNumber")) (stringField object (codes "macAddress")) (components object).

Inductive DescriptionError := NotJson | NotAnObject | NoDevice | NoIdentity.

Definition usable (p : HardwareProduct) : bool := negb (bool_decide (p_id p = [])) && negb (bool_decide (p_version p = [])).
Definition parseHardwareDescription `{JsonLib} (content : bytes) : expected DescriptionError HardwareDescription :=
  match parse content with
  | None => Unexpected NotJson
  | Some (JObject root) =>
      match obj_get (codes "device") root with
      | Some (JObject device) =>
          let d := product device in
          if negb (usable d) then Unexpected NoIdentity
          else Value (mk_description (stringField root (codes "fileVersion")) d
                 (match obj_get (codes "assembly") root with
                  | Some (JObject a) => if usable (product a) then Some (product a) else None
                  | _ => None
                  end))
      | _ => Unexpected NoDevice
      end
  | Some _ => Unexpected NotAnObject
  end.

(** ** Compatibility *)
Record FullFirmwareDescriptors := mk_descriptors { f_assembly : option text; f_device : text }.

(** [{:X}] of a 16-bit number. *)
Fixpoint hex_loop (fuel : nat) (n : Z) (acc : text) : text :=
  match fuel with
  | O => acc
  | S fuel => if n <? 16 then Util.hex_char n :: acc else hex_loop fuel (n / 16) (Util.hex_char (n mod 16) :: acc)
  end.
Definition hexadecimal (n : Z) : text := hex_loop 4 n [].

Definition descriptor_tail (d : HardwareDescription) (variant : option Variant.IntegroVariant) : text :=
  (match p_keyId (d_device d) with [] => [] | key => 45 :: key end) ++
  match variant with
  | Some v => match Variant.variantFieldbusProtocol v with Some fieldbus => 45 :: hexadecimal fieldbus | None => [] end
  | None => []
  end.
Definition fullFirmwareDescriptors (d : HardwareDescription) (variant : option Variant.IntegroVariant) : FullFirmwareDescriptors :=
  let tail := descriptor_tail d variant in
  mk_descriptors ((fun a => productDescriptor a ++ tail) <$> d_assembly d) (productDescriptor (d_device d) ++ tail).

Inductive FirmwareMatch := MatchNone | MatchAssembly | MatchDevice.
#[export] Instance FirmwareMatch_eq_dec : EqDecision FirmwareMatch.
Proof. solve_decision. Defined.

(** The sentence shown to the user. *)
Inductive Explanation :=
  | ForAssembly (descriptor : text)
  | ForDevice (descriptor : text)
  | ForDeviceNotAssembly (descriptor assembly : text)
  | OtherThanEither (descriptor device assembly : text)
  | OtherThan (descriptor device : text).

Record FirmwareCompatibility := mk_compatibility {
  match_ : FirmwareMatch; packageName : FirmwarePackageName; deviceDescriptors : FullFirmwareDescriptors; explanation : Explanation }.
Definition compatible (c : FirmwareCompatibility) : bool := negb (bool_decide (match_ c = MatchNone)).

Definition checkCompatibility (d : HardwareDescription) (name : FirmwarePackageName) (variant : option Variant.IntegroVariant) : FirmwareCompatibility :=
  let accepted := fullFirmwareDescriptors d variant in
  let descriptor := fullFirmwareDescriptor name in
  if bool_decide (f_assembly accepted = Some descriptor)
  then mk_compatibility MatchAssembly name accepted (ForAssembly descriptor)
  else if bool_decide (descriptor = f_device accepted)
  then mk_compatibility MatchDevice name accepted
         (match f_assembly accepted with Some a => ForDeviceNotAssembly descriptor a | None => ForDevice descriptor end)
  else mk_compatibility MatchNone name accepted
         (match f_assembly accepted with Some a => OtherThanEither descriptor (f_device accepted) a | None => OtherThan descriptor (f_device accepted) end).

Inductive CheckError := BadName (e : NameError) | BadDescription (e : DescriptionError).
Definition checkFirmwareCompatibility `{JsonLib} (content : bytes) (packageFilename : text) (variant : option Variant.IntegroVariant)
    : expected CheckError FirmwareCompatibility :=
  match parseFirmwarePackageName packageFilename with
  | Unexpected e => Unexpected (BadName e)
  | Value name =>
      match parseHardwareDescription content with
      | Unexpected e => Unexpected (BadDescription e)
      | Value d => Value (checkCompatibility d name variant)
      end
  end.

(** ** The archive *)

(** An entry as the zip library answers for it: its name, which may be null, and its size, or no answer; and,
    when it opens, what a read of that many bytes delivers, or a failure. *)
Record zip_entry := mk_zip { z_stat : option (option text * Z); z_file : option (Z -> option bytes) }.

Inductive FirmwarePackageEntryKind := kAppFirmware | kComFirmware | kSii | kExtraFile.
#[export] Instance FirmwarePackageEntryKind_eq_dec : EqDecision FirmwarePackageEntryKind.
Proof. solve_decision. Defined.
Record FirmwarePackageEntry := mk_entry { e_name : text; e_kind : FirmwarePackageEntryKind; e_size : Z }.
Record FirmwarePackageFile := mk_file { pf_name : text; pf_content : bytes }.
Record FirmwarePackage := mk_package {
  appBinary : option FirmwarePackageFile; comBinary : option FirmwarePackageFile; sii : option FirmwarePackageFile;
  extras : list FirmwarePackageFile; skipped : list text }.

Inductive PackageError :=
  | NotAnArchive (reason : text) | StatFailed (i : nat) | NamedTwice (name : text) | NotHeld (name : text)
  | AlwaysWritten (name : text) (isSii : bool) | NoApplication | NotOpened (name : text) | Truncated (name : text) (read size : Z)
  | InnerUnreadable (e : PackageError) | NoXml.

Definition classify (name : text) : FirmwarePackageEntryKind :=
  if starts_with (codes "app_") name && endsWithIgnoringCase name (codes ".bin") then kAppFirmware
  else if starts_with (codes "com_") name && endsWithIgnoringCase name (codes ".bin") then kComFirmware
  else if endsWithIgnoringCase name (codes ".sii") then kSii
  else kExtraFile.

(** The entries with content, each with its index. *)
Fixpoint list_from (i : nat) (archive : list zip_entry) : expected PackageError (list (FirmwarePackageEntry * nat)) :=
  match archive with
  | [] => Value []
  | z :: archive' =>
      match z_stat z with
      | None => Unexpected (StatFailed i)
      | Some (stat_name, size) =>
          let name := default [] stat_name in
          try entries := list_from (S i) archive' in
          Value (if bool_decide (name = []) || bool_decide (last name = Some 47) then entries
                 else (mk_entry name (classify name) size, i) :: entries)
      end
  end.
Definition listEntries (archive : list zip_entry) : expected PackageError (list (FirmwarePackageEntry * nat)) := list_from 0 archive.

Definition find_entry (entries : list FirmwarePackageEntry) (name : text) : option FirmwarePackageEntry :=
  List.find (fun e => bool_decide (e_name e = name)) entries.
Fixpoint check_from (entries : list FirmwarePackageEntry) (before extraFiles : list text) : expected PackageError unit :=
  match extraFiles with
  | [] => Value tt
  | name :: extraFiles' =>
      if bool_decide (name ∈ before) then Unexpected (NamedTwice name)
      else
        match find_entry entries name with
        | None => Unexpected (NotHeld name)
        | Some e => if bool_decide (e_kind e = kExtraFile) then check_from entries (before ++ [name]) extraFiles'
                    else Unexpected (AlwaysWritten name (bool_decide (e_kind e = kSii)))
        end
  end.
Definition checkExtraFiles (entries : list FirmwarePackageEntry) (extraFiles : list text) : expected PackageError unit := check_from entries [] extraFiles.

(** The decompressed content of one entry. *)
Definition read_entry (z : option zip_entry) (name : text) (size : Z) : expected PackageError bytes :=
  match z ≫= z_file with
  | None => Unexpected (NotOpened name)
  | Some fread =>
      if 0 <? size then
        match fread size with
        | None => Unexpected (Truncated name 0 size)
        | Some b => if Z.of_nat (length b) =? size then Value b else Unexpected (Truncated name (Z.of_nat (length b)) size)
        end
      else Value []
  end.

Definition place (kind : FirmwarePackageEntryKind) (f : FirmwarePackageFile) (p : FirmwarePackage) : FirmwarePackage :=
  match kind with
  | kAppFirmware => mk_package (Some f) (comBinary p) (sii p) (extras p) (skipped p)
  | kComFirmware => mk_package (appBinary p) (Some f) (sii p) (extras p) (skipped p)
  | kSii => mk_package (appBinary p) (comBinary p) (Some f) (extras p) (skipped p)
  | kExtraFile => mk_package (appBinary p) (comBinary p) (sii p) (extras p ++ [f]) (skipped p)
  end.
Definition skip (name : text) (p : FirmwarePackage) : FirmwarePackage :=
  mk_package (appBinary p) (comBinary p) (sii p) (extras p) (skipped p ++ [name]).

Fixpoint extract (archive : list zip_entry) (extraFiles : list text) (indexed : list (FirmwarePackageEntry * nat)) (p : FirmwarePackage)
    : expected PackageError FirmwarePackage :=
  match indexed with
  | [] => Value p
  | (e, i) :: indexed' =>
      if bool_decide (e_kind e = kExtraFile) && negb (bool_decide (e_name e ∈ extraFiles))
      then extract archive extraFiles indexed' (skip (e_name e) p)
      else try content := read_entry (archive !! i) (e_name e) (e_size e) in
           extract archive extraFiles indexed' (place (e_kind e) (mk_file (e_name e) content) p)
  end.

Definition kEsiFileName : text := codes "SOMANET_CiA_402.xml.zip".
Definition kEsiXmlFileName : text := codes "SOMANET_CiA_402.xml".

Section Archive.
Context (openArchive : bytes -> expected text (list zip_entry)).

Definition open_ (zip : bytes) : expected PackageError (list zip_entry) :=
  match openArchive zip with Value a => Value a | Unexpected e => Unexpected (NotAnArchive e) end.

Definition listFirmwarePackageEntries (zip : bytes) : expected PackageError (list FirmwarePackageEntry) :=
  try archive := open_ zip in
  try indexed := listEntries archive in
  Value indexed.*1.

Definition openFirmwarePackage (zip : bytes) (extraFiles : list text) : expected PackageError FirmwarePackage :=
  try archive := open_ zip in
  try indexed := listEntries archive in
  try _ := checkExtraFiles indexed.*1 extraFiles in
  if negb (existsb (fun e => bool_decide (e_kind e = kAppFirmware)) indexed.*1) then Unexpected NoApplication
  else extract archive extraFiles indexed (mk_package None None None [] []).

(** The first entry whose name ends in [suffix]; an entry without an answer is passed over. *)
Fixpoint find_ending (suffix : text) (archive : list zip_entry) : expected PackageError (option bytes) :=
  match archive with
  | [] => Value None
  | z :: archive' =>
      match z_stat z with
      | Some (Some name, size) =>
          if endsWithIgnoringCase name suffix then try content := read_entry (Some z) name size in Value (Some content)
          else find_ending suffix archive'
      | _ => find_ending suffix archive'
      end
  end.
Definition readEntryEndingIn (zip : bytes) (suffix : text) : expected PackageError (option bytes) :=
  try archive := open_ zip in find_ending suffix archive.

Definition readPackageEsi (zip : bytes) : expected PackageError (option bytes) :=
  try inner := readEntryEndingIn zip kEsiFileName in
  match inner with
  | None => readEntryEndingIn zip kEsiXmlFileName
  | Some content =>
      match readEntryEndingIn content (codes ".xml") with
      | Unexpected e => Unexpected (InnerUnreadable e)
      | Value None => Unexpected NoXml
      | Value (Some xml) => Value (Some xml)
      end
  end.
End Archive.

(** ** Fields *)
Fixpoint join (separator : Z) (parts : list text) : text :=
  match parts with
  | [] => []
  | [x] => x
  | x :: parts' => x ++ separator :: join separator parts'
  end.

Lemma split_cons sep l : exists x xs, split sep l = x :: xs.
Proof. induction l as [|c l (x & xs & E)]; cbn; [eauto|]. destruct (c =? sep); [eauto|]. rewrite E. eauto. Qed.

Lemma join_split sep l : join sep (split sep l) = l.
Proof.
  induction l as [|c l IH]; [done|]. cbn [split]. destruct (split_cons sep l) as (x & xs & E). destruct (Z.eqb_spec c sep) as [->|]; rewrite E in *.
  - change (join sep ([] :: x :: xs)) with (sep :: join sep (x :: xs)). by rewrite IH.
  - destruct xs as [|y xs]; cbn [join] in *; rewrite <- IH; done.
Qed.

Lemma split_free sep l : Forall (fun x => sep ∉ x) (split sep l).
Proof.
  induction l as [|c l IH]; cbn [split]; [repeat constructor; by apply not_elem_of_nil|]. destruct (Z.eqb_spec c sep) as [->|].
  - constructor; [apply not_elem_of_nil|done].
  - destruct (split_cons sep l) as (x & xs & E). rewrite E in *. apply Forall_cons in IH as [Hx Hxs]. constructor; [|done]. by rewrite not_elem_of_cons.
Qed.

Lemma split_app sep x l : sep ∉ x -> split sep (x ++ sep :: l) = x :: split sep l.
Proof.
  induction x as [|c x IH]; intros Hx; cbn [app split]; [by rewrite Z.eqb_refl|]. rewrite not_elem_of_cons in Hx. destruct Hx as [Hc Hx].
  rewrite (proj2 (Z.eqb_neq c sep)) by done. by rewrite IH.
Qed.

Lemma split_one sep x : sep ∉ x -> split sep x = [x].
Proof.
  induction x as [|c x IH]; intros Hx; [done|]. rewrite not_elem_of_cons in Hx. destruct Hx as [Hc Hx]. cbn [split].
  rewrite (proj2 (Z.eqb_neq c sep)) by done. by rewrite IH.
Qed.

Lemma split_join sep parts : parts <> [] -> Forall (fun x => sep ∉ x) parts -> split sep (join sep parts) = parts.
Proof.
  intros Hne. induction parts as [|x [|y parts] IH]; [done|..]; intros [Hx Hp]%Forall_cons; [by apply split_one|].
  cbn [join]. rewrite split_app by done. f_equal. by apply IH.
Qed.

Lemma split_iff sep l parts : parts <> [] -> Forall (fun x => sep ∉ x) parts -> split sep l = parts <-> l = join sep parts.
Proof. intros Hne Hp. split; [intros <-; symmetry; apply join_split|intros ->; by apply split_join]. Qed.

(** ** The suffix of a second download *)
Definition duplicate (digits : text) : text := 32 :: 40 :: digits ++ [41].
Definition number (digits : text) : Prop := digits <> [] /\ Forall Util.is_digit digits.

Lemma isdigit_iff l : forallb isdigit l = true <-> Forall Util.is_digit l.
Proof.
  unfold isdigit, Util.is_digit. induction l as [|c l IH]; [done|]. cbn [forallb]. rewrite andb_true_iff, IH, Forall_cons, andb_true_iff. split; intros [H ?]; (split; [lia|done]).
Qed.

Lemma before_last_none l : 32 ∉ l -> before_last_open l = None.
Proof.
  induction l as [|c l IH]; intros Hn; [done|]. rewrite not_elem_of_cons in Hn. destruct Hn as [Hc Hn]. cbn [before_last_open]. rewrite IH by done.
  unfold starts_with. rewrite bool_decide_false; [done|]. destruct l; cbn; congruence.
Qed.

Lemma before_last_Some l b : before_last_open l = Some b -> exists r, l = b ++ 32 :: 40 :: r.
Proof.
  revert b. induction l as [|c l IH]; intros b Hb; [done|]. cbn [before_last_open] in Hb. destruct (before_last_open l) as [b'|].
  - injection Hb as <-. destruct (IH b' eq_refl) as [r ->]. by exists r.
  - unfold starts_with in Hb. case_bool_decide as Hs; [|done]. injection Hb as <-. destruct l as [|d l]; [done|]. cbn in Hs. exists l. by injection Hs as -> ->.
Qed.

Lemma before_last_app s r : 32 ∉ r -> before_last_open (s ++ 32 :: 40 :: r) = Some s.
Proof.
  intros Hr. induction s as [|c s IH]; cbn [app before_last_open].
  - assert (H40 : before_last_open (40 :: r) = None) by (apply before_last_none; rewrite not_elem_of_cons; done). cbn [before_last_open] in H40. by rewrite H40.
  - by rewrite IH.
Qed.

Lemma duplicate_removed s digits : number digits -> withoutDuplicateSuffix (s ++ duplicate digits) = s.
Proof.
  intros [Hne Hd]. unfold withoutDuplicateSuffix, duplicate. rewrite !app_comm_cons, (app_assoc s), last_snoc, <- app_assoc, bool_decide_true by done. cbn [app negb].
  rewrite before_last_app.
  - assert (Hs : slice (length s + 2) (length (s ++ 32 :: 40 :: digits ++ [41]) - length s - 3) (s ++ 32 :: 40 :: digits ++ [41]) = digits).
    { unfold slice. rewrite drop_app_add. cbn [drop]. rewrite length_app. cbn [length]. rewrite length_app. cbn [length].
      replace (length s + S (S (length digits + 1)) - length s - 3)%nat with (length digits) by lia. by rewrite drop_0, take_app_length. }
    cbv zeta. rewrite Hs, (bool_decide_false (digits = [])), (proj2 (isdigit_iff digits)) by done. done.
  - intros [H|H]%elem_of_app; [|by apply list_elem_of_singleton in H]. rewrite Forall_forall in Hd. specialize (Hd _ H). unfold Util.is_digit in Hd. lia.
Qed.

Lemma duplicate_cases t : withoutDuplicateSuffix t = t \/ exists digits, number digits /\ t = withoutDuplicateSuffix t ++ duplicate digits.
Proof.
  unfold withoutDuplicateSuffix. case_bool_decide as El; [|by left]. cbn [negb].
  destruct (before_last_open t) as [b|] eqn:Eb; [|by left]. destruct (before_last_Some t b Eb) as [r Hr]. cbv zeta.
  destruct (bool_decide _ || _) eqn:Ed; [by left|]. right. apply orb_false_iff in Ed as [Ed1 Ed2]. apply bool_decide_eq_false in Ed1. apply negb_false_iff, isdigit_iff in Ed2.
  exists (slice (length b + 2) (length t - length b - 3) t). split; [done|].
  assert (Hlast : exists r', r = r' ++ [41]).
  { rewrite Hr, last_app_cons in El. destruct r as [|x r' _] using rev_ind; [done|]. rewrite !app_comm_cons, last_snoc in El. injection El as ->. eauto. }
  destruct Hlast as [r' ->]. subst t. unfold duplicate. do 3 f_equal. unfold slice. rewrite drop_app_add. cbn [drop]. rewrite length_app. cbn [length].
  rewrite length_app. cbn [length]. replace (length b + S (S (length r' + 1)) - length b - 3)%nat with (length r') by lia. by rewrite drop_0, take_app_length.
Qed.

(** ** Names *)
Lemma ends_with_iff t suffix : endsWithIgnoringCase t suffix = true <->
  exists a ext, t = a ++ ext /\ tolower <$> ext = tolower <$> suffix /\ a = take (length t - length suffix) t.
Proof.
  unfold endsWithIgnoringCase. destruct (Nat.ltb_spec (length t) (length suffix)) as [Hl|Hl].
  - split; [done|]. intros (a & ext & -> & He & _). apply (f_equal length) in He. rewrite !length_fmap in He. rewrite length_app in Hl. lia.
  - rewrite bool_decide_eq_true. split.
    + intros He. exists (take (length t - length suffix) t), (drop (length t - length suffix) t). by rewrite take_drop.
    + intros (a & ext & Ht & He & ->). rewrite Ht at 2. rewrite <- He. f_equal.
      pose proof (f_equal length He) as Hle. rewrite !length_fmap in Hle.
      rewrite drop_app_ge by (rewrite length_take; lia). rewrite length_take. replace (_ - _)%nat with 0%nat by lia. by rewrite drop_0.
Qed.

Definition name_of (hardware descriptor software version : text) : FirmwarePackageName :=
  let '(id, revision, key, fieldbus) := decodeFullFirmwareDescriptor descriptor in
  mk_name kPackageDescription hardware descriptor software (118 :: version) id revision key fieldbus.
Definition name_stem (hardware descriptor software version : text) : text := join 95 [kPackageDescription; hardware; descriptor; software; 118 :: version].
Definition field_ok (f : text) : Prop := f <> [] /\ 95 ∉ f.

Lemma stem_split h d s v : field_ok h -> field_ok d -> field_ok s -> 95 ∉ v ->
  split 95 (name_stem h d s v) = [kPackageDescription; h; d; s; 118 :: v].
Proof.
  intros [_ Hh] [_ Hd] [_ Hs] Hv. apply split_join; [done|]. repeat constructor; try done; [|by rewrite not_elem_of_cons].
  rewrite <- (bool_decide_eq_false (95 ∈ kPackageDescription)). reflexivity.
Qed.

Lemma stem_parsed stem n : read_fields (split 95 stem) = Value n <->
  exists h d s v, stem = name_stem h d s v /\ field_ok h /\ field_ok d /\ field_ok s /\ (95 ∉ v) /\ n = name_of h d s v.
Proof.
  unfold read_fields. split.
  - pose proof (split_free 95 stem) as Hf. pose proof (join_split 95 stem) as Hj. destruct (split 95 stem) as [|f0 [|f1 [|f2 [|f3 [|f4 [|]]]]]]; try done.
    destruct (existsb _ _) eqn:Ee; [done|]. cbn [existsb] in Ee. rewrite !orb_false_iff, !bool_decide_eq_false in Ee. destruct Ee as (E0 & E1 & E2 & E3 & E4 & _).
    case_bool_decide as Ek; [|done]. unfold starts_with. case_bool_decide as E118; [|done]. cbn [negb]. destruct f4 as [|c v]; [done|]. cbn in E118. injection E118 as ->.
    rewrite !Forall_cons, not_elem_of_cons in Hf. destruct Hf as (_ & H1 & H2 & H3 & [_ H4] & _). intros Hn. exists f1, f2, f3, v. subst f0.
    repeat split; try done. unfold name_of. destruct (decodeFullFirmwareDescriptor f2) as [[[? ?] ?] ?]. by injection Hn as <-.
  - intros (h & d & s & v & -> & Hh & Hd & Hs & Hv & ->). rewrite stem_split by done. cbn [existsb].
    rewrite (bool_decide_false (h = [])), (bool_decide_false (d = [])), (bool_decide_false (s = [])) by (by apply Hh || apply Hd || apply Hs).
    unfold starts_with, name_of. cbn [take length]. rewrite take_0. destruct (decodeFullFirmwareDescriptor d) as [[[? ?] ?] ?]. reflexivity.
Qed.

(** The names that are accepted are exactly [package_<hardware>_<descriptor>_<software>_v<version>.zip], the
    extension in any case and with or without the number of a repeated download, and their fields are read. *)
Theorem package_name_exact filename n : parseFirmwarePackageName filename = Value n <->
  exists ext h d s v, tolower <$> ext = kExtension /\
    (filename = name_stem h d s v ++ ext /\ withoutDuplicateSuffix (name_stem h d s v) = name_stem h d s v \/
     exists digits, number digits /\ filename = name_stem h d s v ++ duplicate digits ++ ext) /\
    field_ok h /\ field_ok d /\ field_ok s /\ (95 ∉ v) /\ n = name_of h d s v.
Proof.
  unfold parseFirmwarePackageName. destruct (endsWithIgnoringCase filename kExtension) eqn:Ee; cbn [negb].
  - apply ends_with_iff in Ee as (a & ext & Hf & He & Ha). rewrite <- Ha, stem_parsed. split.
    + intros (h & d & s & v & Hs & Hrest). exists ext, h, d, s, v. split; [exact He|]. split; [|done]. rewrite <- Hs. destruct (duplicate_cases a) as [E|(ds & Hn & E)].
      * left. rewrite !E. done.
      * right. exists ds. split; [done|]. rewrite Hf, app_assoc. by rewrite E at 1.
    + intros (ext' & h & d & s & v & He' & Hcase & Hrest). exists h, d, s, v. split; [|done].
      assert (Hl : length ext = length ext') by (rewrite <- (length_fmap tolower ext), <- (length_fmap tolower ext'), He, He'; done).
      destruct Hcase as [[E Hd]|(ds & Hn & E)].
      * rewrite Hf in E. apply app_inj_2 in E as [-> _]; done.
      * rewrite Hf, app_assoc in E. apply app_inj_2 in E as [-> _]; [|done]. by apply duplicate_removed.
  - split; [done|]. intros (ext & h & d & s & v & He & Hcase & _). exfalso. apply not_true_iff_false in Ee. apply Ee.
    assert (Hx : exists a, filename = a ++ ext) by (destruct Hcase as [[E _]|(ds & _ & E)]; [eauto|rewrite app_assoc in E; eauto]). destruct Hx as [a ->].
    apply ends_with_iff. exists a, ext. split; [done|]. split; [exact He|]. pose proof (f_equal length He) as Hle. rewrite !length_fmap in Hle.
    rewrite length_app, <- Hle. replace (_ - _)%nat with (length a) by lia. by rewrite take_app_length.
Qed.

(** ** Compatibility *)

(** The fields of the descriptor of a product: its own identity, the device's key and its fieldbus. *)
Definition fieldbus_field (variant : option Variant.IntegroVariant) : list text :=
  match variant ≫= Variant.variantFieldbusProtocol with Some f => [hexadecimal f] | None => [] end.
Definition key_field (d : HardwareDescription) : list text := match p_keyId (d_device d) with [] => [] | k => [k] end.
Definition descriptor_fields (d : HardwareDescription) (variant : option Variant.IntegroVariant) (p : HardwareProduct) : list text :=
  [p_id p; p_version p] ++ key_field d ++ fieldbus_field variant.
Definition product_of (d : HardwareDescription) (p : HardwareProduct) : Prop := p = d_device d \/ d_assembly d = Some p.
Definition dashless (d : HardwareDescription) : Prop := (45 ∉ p_keyId (d_device d)) /\ forall p, product_of d p -> (45 ∉ p_id p) /\ 45 ∉ p_version p.

Lemma option_nonneg id o : Variant.integroVariantOption id = Some o -> 0 <= id.
Proof.
  assert (H : forallb (fun o => 0 <=? Variant.o_id o) Variant.kIntegroVariantOptions = true) by (by vm_compute). unfold Variant.integroVariantOption. intros Hf.
  apply find_some in Hf as [Hin He]. rewrite forallb_forall in H. specialize (H _ Hin). lia.
Qed.

Lemma fieldbus_nonneg v f : Variant.variantFieldbusProtocol v = Some f -> 0 <= f.
Proof.
  rewrite Variant.fieldbus_spec. case_bool_decide; [intros [= <-]; lia|]. intros Hf. apply find_some in Hf as [_ Hf]. unfold Variant.is_fieldbus in Hf.
  destruct (Variant.integroVariantOption f) eqn:E; [|done]. by apply option_nonneg in E.
Qed.

Lemma hex_loop_free fuel : forall n acc, 0 <= n -> 45 ∉ acc -> 45 ∉ hex_loop fuel n acc.
Proof.
  assert (Hc : forall x, 0 <= x -> 45 <> Util.hex_char x) by (intros x Hx; unfold Util.hex_char; destruct (x <? 10); lia).
  induction fuel as [|fuel IH]; intros n acc Hn Ha; [done|]. cbn [hex_loop]. destruct (n <? 16).
  - rewrite not_elem_of_cons. split; [by apply Hc|done].
  - apply IH; [by apply Z.div_pos|]. rewrite not_elem_of_cons. split; [|done]. apply Hc. apply Z.mod_pos_bound. lia.
Qed.

Lemma tail_free d variant : dashless d -> Forall (fun x => 45 ∉ x) (key_field d ++ fieldbus_field variant).
Proof.
  intros [Hk _]. apply Forall_app. split.
  - unfold key_field. destruct (p_keyId (d_device d)); by repeat constructor.
  - unfold fieldbus_field. destruct variant as [v|]; [|constructor]. cbn [mbind option_bind]. destruct (Variant.variantFieldbusProtocol v) as [f|] eqn:E; [|constructor].
    constructor; [|constructor]. apply hex_loop_free; [by eapply fieldbus_nonneg|apply not_elem_of_nil].
Qed.

Lemma descriptor_joined d variant p : productDescriptor p ++ descriptor_tail d variant = join 45 (descriptor_fields d variant p).
Proof.
  unfold productDescriptor, descriptor_tail, descriptor_fields, key_field, fieldbus_field. destruct variant as [v|]; cbn [mbind option_bind]; [destruct (Variant.variantFieldbusProtocol v)|];
    destruct (p_keyId (d_device d)); cbn [join app]; rewrite ?app_nil_r, <- ?app_assoc; done.
Qed.

Lemma descriptor_iff d variant p t : dashless d -> product_of d p ->
  t = productDescriptor p ++ descriptor_tail d variant <-> split 45 t = descriptor_fields d variant p.
Proof.
  intros Hd Hp. rewrite descriptor_joined. symmetry. apply split_iff; [done|]. pose proof (proj2 Hd p Hp) as [Hi Hv]. unfold descriptor_fields.
  repeat constructor; try done. by apply tail_free.
Qed.

Lemma decoded_fields h desc s v d variant p : split 45 desc = descriptor_fields d variant p -> isDigits (p_id p) = true -> isDigits (p_version p) = true ->
  let name := name_of h desc s v in
  firmwareId name = Some (p_id p) /\ firmwareVersion name = Some (p_version p) /\ keyId name = (key_field d ++ fieldbus_field variant) !! 0%nat /\
  fieldbusProtocol name = (key_field d ++ fieldbus_field variant) !! 1%nat.
Proof. intros Hs Hi Hv. unfold name_of, decodeFullFirmwareDescriptor. rewrite Hs. cbn [descriptor_fields app]. by rewrite Hi, Hv. Qed.

Lemma compatible_iff d name variant : compatible (checkCompatibility d name variant) = true <->
  exists p, product_of d p /\ fullFirmwareDescriptor name = productDescriptor p ++ descriptor_tail d variant.
Proof.
  unfold compatible. rewrite negb_true_iff, bool_decide_eq_false. unfold checkCompatibility, fullFirmwareDescriptors. cbn [f_assembly f_device].
  case_bool_decide as Ha; [|case_bool_decide as Hd]; cbn [match_].
  - split; [|done]. intros _. apply fmap_Some in Ha as (a & Ea & ->). exists a. split; [by right|done].
  - split; [|done]. intros _. exists (d_device d). split; [by left|done].
  - split; [done|]. intros (p & [->|Hp] & E); [done|]. rewrite Hp in Ha. cbn in Ha. congruence.
Qed.

(** A package is compatible with a device exactly when the fields of its descriptor are those of the device
    or of the assembly it was built into, with the device's key and fieldbus; an assembly's own build wins.
    Of a compatible package with the numeric descriptor the decoded identity is the product's. *)
Theorem compatible_exact `{JsonLib} content filename variant c : checkFirmwareCompatibility content filename variant = Value c ->
  exists name d, parseFirmwarePackageName filename = Value name /\ parseHardwareDescription content = Value d /\ packageName c = name /\
    (dashless d -> compatible c = true <-> exists p, product_of d p /\ split 45 (fullFirmwareDescriptor name) = descriptor_fields d variant p) /\
    (match_ c = MatchDevice -> forall a, d_assembly d = Some a -> fullFirmwareDescriptor name <> productDescriptor a ++ descriptor_tail d variant) /\
    (forall p, product_of d p -> split 45 (fullFirmwareDescriptor name) = descriptor_fields d variant p -> isDigits (p_id p) = true -> isDigits (p_version p) = true ->
       buildDescriptor name = Some (productDescriptor p) /\ (p_keyId (d_device d) <> [] -> keyId name = Some (p_keyId (d_device d)))).
Proof.
  unfold checkFirmwareCompatibility. destruct (parseFirmwarePackageName filename) as [name|] eqn:En; [|done].
  destruct (parseHardwareDescription content) as [d|]; [|done]. intros [= <-]. exists name, d. split; [done|]. split; [done|].
  split; [unfold checkCompatibility; by repeat case_bool_decide|]. split; [|split].
  - intros Hd. rewrite compatible_iff. split; intros (p & Hp & E); exists p; (split; [done|]); by apply descriptor_iff.
  - unfold checkCompatibility, fullFirmwareDescriptors. cbn [f_assembly f_device]. case_bool_decide as Ha; [done|]. intros _ a Hx E. apply Ha. rewrite Hx. cbn. by rewrite E.
  - intros p Hp Hs Hi Hv. apply package_name_exact in En as (ext & h & desc & s & v & _ & _ & _ & _ & _ & _ & ->).
    assert (E : fullFirmwareDescriptor (name_of h desc s v) = desc) by (unfold name_of; by destruct (decodeFullFirmwareDescriptor desc) as [[[? ?] ?] ?]).
    rewrite E in Hs. destruct (decoded_fields h desc s v d variant p Hs Hi Hv) as (H1 & H2 & H3 & _). unfold buildDescriptor. rewrite H1, H2. split; [done|].
    intros Hk. rewrite H3. unfold key_field. by destruct (p_keyId (d_device d)).
Qed.

(** ** What a package gives *)
Definition wanted (extraFiles : list text) (ei : FirmwarePackageEntry * nat) : bool :=
  negb (bool_decide (e_kind ei.1 = kExtraFile)) || bool_decide (e_name ei.1 ∈ extraFiles).
Definition content_of (archive : list zip_entry) (ei : FirmwarePackageEntry * nat) (b : bytes) : Prop :=
  read_entry (archive !! ei.2) (e_name ei.1) (e_size ei.1) = Value b.
Definition installed (ei : FirmwarePackageEntry * nat) (b : bytes) : FirmwarePackageEntryKind * FirmwarePackageFile := (e_kind ei.1, mk_file (e_name ei.1) b).
Definition of_kind (k : FirmwarePackageEntryKind) (files : list (FirmwarePackageEntryKind * FirmwarePackageFile)) : list FirmwarePackageFile :=
  (List.filter (fun f => bool_decide (f.1 = k)) files).*2.
Definition newest (l : list FirmwarePackageFile) (d : option FirmwarePackageFile) : option FirmwarePackageFile := match last l with Some f => Some f | None => d end.

(** Binaries and the SII are the last of their kind, extra files those asked for, in the order of the archive. *)
Definition packed (extraFiles : list text) (indexed : list (FirmwarePackageEntry * nat)) (contents : list bytes) (p : FirmwarePackage) : FirmwarePackage :=
  let files := zip_with installed (List.filter (wanted extraFiles) indexed) contents in
  mk_package (newest (of_kind kAppFirmware files) (appBinary p)) (newest (of_kind kComFirmware files) (comBinary p)) (newest (of_kind kSii files) (sii p))
    (extras p ++ of_kind kExtraFile files) (skipped p ++ ((e_name ∘ fst) <$> List.filter (fun ei => negb (wanted extraFiles ei)) indexed)).

Lemma newest_cons f l d : newest (f :: l) d = newest l (Some f).
Proof. unfold newest. rewrite last_cons. by destruct (last l). Qed.

Lemma of_kind_cons k k' f files : of_kind k ((k', f) :: files) = if decide (k' = k) then f :: of_kind k files else of_kind k files.
Proof. unfold of_kind. cbn [List.filter fst]. case_decide; [by rewrite bool_decide_true|by rewrite bool_decide_false]. Qed.

Lemma packed_cons extraFiles e i indexed b cs p : wanted extraFiles (e, i) = true ->
  packed extraFiles ((e, i) :: indexed) (b :: cs) p = packed extraFiles indexed cs (place (e_kind e) (mk_file (e_name e) b) p).
Proof.
  intros Hw. unfold packed. cbn [List.filter]. rewrite Hw. cbn [zip_with negb]. unfold installed at 1 3 5 7. cbn [fst]. rewrite !of_kind_cons.
  destruct (e_kind e); repeat case_decide; try done; cbn [place appBinary comBinary sii extras skipped]; by rewrite ?newest_cons, <- ?app_assoc.
Qed.

Lemma extract_iff archive extraFiles indexed : forall p0 p, extract archive extraFiles indexed p0 = Value p <->
  exists contents, Forall2 (content_of archive) (List.filter (wanted extraFiles) indexed) contents /\ p = packed extraFiles indexed contents p0.
Proof.
  induction indexed as [|[e i] indexed IH]; intros p0 p.
  - assert (Hp : forall cs, packed extraFiles [] cs p0 = p0) by (intros cs; unfold packed, newest; cbn; rewrite !app_nil_r; by destruct p0).
    setoid_rewrite Hp. split; [intros [= <-]; by exists []|by intros (cs & _ & ->)].
  - cbn [extract]. assert (Hw : bool_decide (e_kind e = kExtraFile) && negb (bool_decide (e_name e ∈ extraFiles)) = negb (wanted extraFiles (e, i))) by (unfold wanted; cbn [fst]; by do 2 case_bool_decide).
    rewrite Hw. cbn [List.filter]. destruct (wanted extraFiles (e, i)) eqn:Ew; cbn [negb].
    + destruct (read_entry (archive !! i) (e_name e) (e_size e)) as [b|err] eqn:Er; cbn [expected_bind].
      * rewrite IH. split.
        -- intros (cs & Hc & ->). exists (b :: cs). rewrite packed_cons by done. split; [by constructor|done].
        -- intros (cs & Hc & ->). inversion Hc as [|? b' ? cs' Hb Hcs E1 E2]; subst. unfold content_of in Hb. cbn [fst snd] in Hb. rewrite Er in Hb. injection Hb as <-.
           exists cs'. by rewrite packed_cons.
      * split; [done|]. intros (cs & Hc & _). inversion Hc as [|? b' ? cs' Hb]; subst. unfold content_of in Hb. cbn [fst snd] in Hb. congruence.
    + rewrite IH. unfold packed, skip. cbn [List.filter appBinary comBinary sii extras skipped]. rewrite Ew. cbn [negb fmap list_fmap compose fst]. by setoid_rewrite <- (app_assoc (skipped p0)).
Qed.

(** The extra files asked for: each once, each an extra file of the package. *)
Definition asked (entries : list FirmwarePackageEntry) (extraFiles : list text) : Prop :=
  NoDup extraFiles /\ Forall (fun n => exists e, find_entry entries n = Some e /\ e_kind e = kExtraFile) extraFiles.

Lemma check_iff entries extraFiles : forall before, check_from entries before extraFiles = Value tt <->
  asked entries extraFiles /\ forall n, n ∈ extraFiles -> n ∉ before.
Proof.
  unfold asked. induction extraFiles as [|n l IH]; intros before; cbn [check_from].
  - split; [|done]. intros _. split; [split; constructor|]. intros n Hn. by apply elem_of_nil in Hn.
  - rewrite NoDup_cons, Forall_cons. case_bool_decide as Hb.
    { split; [done|]. intros [_ H]. exfalso. apply (H n); [by left|done]. }
    destruct (find_entry entries n) as [e|] eqn:E.
    2: { split; [done|]. intros [(_ & (e & He & _) & _) _]. done. }
    case_bool_decide as Hk.
    + rewrite IH. setoid_rewrite elem_of_cons. setoid_rewrite not_elem_of_app. setoid_rewrite list_elem_of_singleton. split.
      * intros [[Hd Hf] Hn]. split; [|intros x [->|Hx]; [done|by apply Hn]]. split; [|split; eauto]. split; [|done]. intros Hin. by destruct (Hn n Hin).
      * intros [[[Hin Hd] [_ Hf]] Hn]. split; [done|]. intros x Hx. split; [by apply Hn; right|]. by intros ->.
    + split; [done|]. intros [(_ & (e' & He & Hk') & _) _]. congruence.
Qed.

Definition empty_package : FirmwarePackage := mk_package None None None [] [].

Lemma open_iff openArchive zip extraFiles p : openFirmwarePackage openArchive zip extraFiles = Value p <->
  exists archive indexed contents, openArchive zip = Value archive /\ listEntries archive = Value indexed /\ asked indexed.*1 extraFiles /\
    (exists e, e ∈ indexed.*1 /\ e_kind e = kAppFirmware) /\
    Forall2 (content_of archive) (List.filter (wanted extraFiles) indexed) contents /\ p = packed extraFiles indexed contents empty_package.
Proof.
  assert (Happ : forall entries, existsb (fun e => bool_decide (e_kind e = kAppFirmware)) entries = true <-> exists e, e ∈ entries /\ e_kind e = kAppFirmware).
  { intros entries. rewrite existsb_exists. setoid_rewrite bool_decide_eq_true. setoid_rewrite list_elem_of_In. done. }
  unfold openFirmwarePackage, open_. split.
  - destruct (openArchive zip) as [archive|]; cbn [expected_bind]; [|done]. destruct (listEntries archive) as [indexed|] eqn:El; cbn [expected_bind]; [|done].
    destruct (checkExtraFiles indexed.*1 extraFiles) as [[]|] eqn:Ec; cbn [expected_bind]; [|done]. destruct (existsb _ _) eqn:Ea; cbn [negb]; [|done].
    intros (cs & Hc & ->)%extract_iff. exists archive, indexed, cs. split; [done|]. split; [done|]. split; [by apply (check_iff _ _ [])|]. split; [by apply Happ|]. done.
  - intros (archive & indexed & cs & -> & El & Hk & Ha & Hc & ->). cbn [expected_bind]. rewrite El. cbn [expected_bind]. unfold checkExtraFiles.
    rewrite (proj2 (check_iff indexed.*1 extraFiles [])) by (split; [done|]; intros n _; apply not_elem_of_nil). cbn [expected_bind]. rewrite (proj2 (Happ _) Ha). cbn [negb].
    apply extract_iff. eauto.
Qed.

Lemma in_of_kind archive extraFiles indexed contents k f : Forall2 (content_of archive) (List.filter (wanted extraFiles) indexed) contents ->
  f ∈ of_kind k (zip_with installed (List.filter (wanted extraFiles) indexed) contents) <->
  exists ei b, ei ∈ indexed /\ wanted extraFiles ei = true /\ e_kind ei.1 = k /\ f = mk_file (e_name ei.1) b /\ (ei, b) ∈ zip (List.filter (wanted extraFiles) indexed) contents.
Proof.
  intros Hc. unfold of_kind. rewrite list_elem_of_fmap. setoid_rewrite list_elem_of_In at 1. setoid_rewrite filter_In. setoid_rewrite <- list_elem_of_In.
  setoid_rewrite bool_decide_eq_true. assert (Hz : zip_with installed (List.filter (wanted extraFiles) indexed) contents =
    (fun x => installed x.1 x.2) <$> zip (List.filter (wanted extraFiles) indexed) contents) by (clear; revert contents; induction (List.filter _ _) as [|x l IH]; intros [|b cs]; cbn; [done..|]; by rewrite IH).
  rewrite Hz. setoid_rewrite list_elem_of_fmap. split.
  - intros ([k' f'] & -> & ((ei & b) & Ex & Hin) & Hk). injection Ex as -> ->. cbn [fst snd] in *. exists ei, b. pose proof (elem_of_zip_l _ _ _ _ Hin) as Hl.
    rewrite list_elem_of_In, filter_In, <- list_elem_of_In in Hl. naive_solver.
  - intros (ei & b & _ & _ & Hk & -> & Hin). exists (installed ei b). split; [done|]. split; [|done]. by exists (ei, b).
Qed.

Lemma wanted_content archive extraFiles indexed contents ei : Forall2 (content_of archive) (List.filter (wanted extraFiles) indexed) contents ->
  ei ∈ indexed -> wanted extraFiles ei = true -> exists b, (ei, b) ∈ zip (List.filter (wanted extraFiles) indexed) contents.
Proof.
  intros Hc Hin Hw. assert (Hf : ei ∈ List.filter (wanted extraFiles) indexed) by (rewrite list_elem_of_In, filter_In, <- list_elem_of_In; done).
  apply list_elem_of_lookup in Hf as [j Hj]. destruct (Forall2_lookup_l _ _ _ _ _ Hc Hj) as (b & Hb & _). exists b. apply list_elem_of_lookup. exists j.
  apply lookup_zip_with_Some. eauto.
Qed.

Lemma last_elem_Some {A} (x : A) l : x ∈ l -> is_Some (last l).
Proof. intros Hx. destruct (last l) eqn:E; [eauto|]. apply last_None in E as ->. by apply elem_of_nil in Hx. Qed.


(** ** Examples *)
Definition w_archive : list zip_entry :=
  [mk_zip (Some (Some (codes "docs/"), 0)) None;
   mk_zip (Some (Some (codes "app_main.BIN"), 3)) (Some (fun n => Some (take (Z.to_nat n) [1; 2; 3])));
   mk_zip (Some (Some (codes "drive.sii"), 2)) (Some (fun n => Some [7; 7]));
   mk_zip (Some (Some (codes "logo.png"), 1)) (Some (fun n => Some [9]));
   mk_zip (Some (Some (codes "notes.txt"), 5)) (Some (fun n => None))].
Definition w_open (zip : bytes) : expected text (list zip_entry) := match zip with [] => Unexpected [] | _ => Value w_archive end.
Definition w_package : FirmwarePackage :=
  mk_package (Some (mk_file (codes "app_main.BIN") [1; 2; 3])) None (Some (mk_file (codes "drive.sii") [7; 7])) [mk_file (codes "logo.png") [9]] [codes "notes.txt"].

#[local] Existing Instance token_json.
Definition w_description : bytes :=
  default [] (dump (JObject (obj_of [(codes "device", JObject (obj_of [(codes "id", JInt 8500); (codes "version", JString (codes "04")); (codes "keyId", JString (codes "2332"))]))]))).
Definition w_filename : text := codes "package_SOMANET-Circulo-7_8500-04-2332_motion-drive_v5.6.10 (2).zip".
Definition w_device : HardwareProduct := mk_product [] [] (codes "8500") (codes "04") (codes "2332") [] [] [].
Lemma compatible_exact_witness : exists c, checkFirmwareCompatibility w_description w_filename None = Value c /\ compatible c = true /\
  buildDescriptor (packageName c) = Some (codes "8500-04") /\ keyId (packageName c) = Some (codes "2332").
Proof.
  destruct (checkFirmwareCompatibility w_description w_filename None) as [c|e] eqn:E; [|vm_compute in E; discriminate E]. exists c. split; [done|].
  destruct (compatible_exact w_description w_filename None c E) as (name & d & Hn & Hd & Hc & Hiff & _ & Hid).
  assert (Ed : d = mk_description [] w_device None) by (vm_compute in Hd; injection Hd as <-; reflexivity). subst d.
  assert (En : fullFirmwareDescriptor name = codes "8500-04-2332") by (vm_compute in Hn; injection Hn as <-; reflexivity). rewrite Hc.
  assert (Hs : split 45 (fullFirmwareDescriptor name) = descriptor_fields (mk_description [] w_device None) None w_device) by (rewrite En; vm_compute; reflexivity).
  split; [|destruct (Hid w_device) as [H1 H2]; [by left|done|reflexivity|reflexivity|split; [exact H1|exact (H2 ltac:(discriminate))]]].
  apply Hiff; [|exists w_device; split; [by left|done]]. split; [|intros p [->|Hp]; [|done]; split];
    match goal with |- ?c ∉ ?l => apply (proj1 (bool_decide_eq_false (c ∈ l))); vm_compute; reflexivity end.
Defined.

End Package.
