(* ===== verification/Router.v ===== *)
(** * The HTTP routes ([libs/api/router]) and the life of the server ([apps/motion_master/http_server.cc])

    Handlers run on workers, responses are written by the event loop. The loop, the workers and the thread
    that stops the server are steps over one state; what would be undefined behaviour is recorded in it. The
    web server's own functions and the JSON library are parameters. *)

From S2P Require Import Prelude Util DeviceParameter Floats Json.

Module Router.
Import Json.

(** ** Requests *)
Record Request := mk_request {
  url : text; parameters : list (text * text); queryString : text; headers : list (text * text); body : text }.

Fixpoint assoc (name : text) (l : list (text * text)) : text :=
  match l with [] => [] | (key, value) :: l' => if bool_decide (key = name) then value else assoc name l' end.
Definition header (r : Request) (name : text) : text := assoc name (headers r).
Definition parameter (r : Request) (name : text) : text := assoc name (parameters r).

Fixpoint contains (needle l : text) : bool :=
  bool_decide (take (length needle) l = needle) || match l with [] => false | _ :: l' => contains needle l' end.
Definition accepts (r : Request) (contentType : text) : bool := contains contentType (header r (codes "accept")).

(** [parseNumber] for an unsigned type of [w] bits. *)
Definition parseNumber (w : Z) (t : text) : option Z :=
  match t with
  | [] => None
  | _ =>
      let hex := (2 <? length t)%nat && (byte_at t 0 =? 48) && ((byte_at t 1 =? 120) || (byte_at t 1 =? 88)) in
      match Util.from_chars w (if hex then 16 else 10) (if hex then drop 2 t else t) with
      | Some (value, []) => Some value
      | _ => None
      end
  end.
Definition parameterAs (w : Z) (r : Request) (name : text) : option Z := parseNumber w (parameter r name).

Section Query.
Context (getDecodedQueryValue : text -> text -> text).
Definition query (r : Request) (key : text) : option text :=
  match getDecodedQueryValue key (63 :: queryString r) with [] => None | v => Some v end.
Definition queryAs (w : Z) (r : Request) (key : text) : option Z := query r key ≫= parseNumber w.
End Query.

(** A percent sign and two hexadecimal digits are one character; anything else stays. *)
Definition is_hex (c : Z) : bool := 0 <=? Util.digit c.
Fixpoint percentDecode (l : text) : text :=
  match l with
  | [] => []
  | c :: l' =>
      match l' with
      | a :: b :: l'' => if (c =? 37) && is_hex a && is_hex b then (16 * Util.digit a + Util.digit b) :: percentDecode l'' else c :: percentDecode l'
      | _ => c :: percentDecode l'
      end
  end.

(** Each name runs from its colon to the next slash. *)
Fixpoint until_slash (l : text) : text := match l with [] => [] | c :: l' => if c =? 47 then [] else c :: until_slash l' end.
Fixpoint parameterNames (pattern : text) : list text :=
  match pattern with [] => [] | c :: l => if c =? 58 then until_slash l :: parameterNames l else parameterNames l end.

(** ** Responses *)
Record Response := mk_response { status : text; contentType : text; r_body : text; r_headers : list (text * text) }.

(** What a handler does: return a response, or throw, with a message when it is a [std::exception]. *)
Inductive outcome := Returned (r : Response) | Threw (what : option text).
Definition Handler := Request -> outcome.

Definition bytes_ (contentType body : text) : Response := mk_response (codes "200 OK") contentType body [].
Definition statusOnly (status : text) : Response := mk_response status (codes "application/json") [] [].
Definition withWireTime (r : Response) (wireUs : Z) : Response :=
  mk_response (status r) (contentType r) (r_body r)
    (r_headers r ++ [(codes "Access-Control-Expose-Headers", codes "X-Wire-Us"); (codes "X-Wire-Us", Util.decimal wireUs)]).

Section Responses.
Context `{JsonLib} (dump_replaced : json -> text).

Definition json_ (body : json) : Response := mk_response (codes "200 OK") (codes "application/json") (dump_replaced body) [].
(** [None] is the exception of a message that is not UTF-8. *)
Definition error (status message : text) : option Response :=
  b ← dump (JObject (obj_of [(codes "error", JString message)]));
  Some (mk_response status (codes "application/json") b []).
Definition badRequest (message : text) : option Response := error (codes "400 Bad Request") message.
Definition notFound (message : text) : option Response := error (codes "404 Not Found") message.

Definition timed (result : expected text json) (wireUs : Z) (errorStatus : text) : option Response :=
  match result with
  | Unexpected e => r ← error errorStatus e; Some (withWireTime r wireUs)
  | Value j => Some (withWireTime (json_ j) wireUs)
  end.

Definition kInternalError : text := codes "500 Internal Server Error".
(** [None] is an exception that leaves [invokeHandler] from its own handler of exceptions. *)
Definition invokeHandler (handler : Handler) (request : Request) : option Response :=
  match handler request with
  | Returned r => Some r
  | Threw (Some what) => error kInternalError (codes "the handler threw: " ++ what)
  | Threw None => error kInternalError (codes "the handler threw")
  end.
End Responses.

(** ** The server *)
Record route := mk_route { pattern : text; hasBody : bool; handler : Handler }.

(** Where a request is: its body is arriving, it waits for a worker, a worker runs it, its worker is done or
    dropped it with an exception, it was purged from the pool, or it was refused. *)
Inductive phase := Receiving | Queued | Running | Finished | Lost | Purged | Refused.
#[export] Instance phase_eq_dec : EqDecision phase.
Proof. solve_decision. Defined.

Record connection := mk_connection {
  k_route : nat; k_request : Request; k_phase : phase; k_aborted : bool; k_sent : list Response }.
Definition set_phase (p : phase) (k : connection) : connection := mk_connection (k_route k) (k_request k) p (k_aborted k) (k_sent k).
Definition set_aborted (k : connection) : connection := mk_connection (k_route k) (k_request k) (k_phase k) true (k_sent k).
Definition add_sent (r : Response) (k : connection) : connection := mk_connection (k_route k) (k_request k) (k_phase k) (k_aborted k) (k_sent k ++ [r]).
Definition add_chunk (chunk : text) (k : connection) : connection :=
  let r := k_request k in
  mk_connection (k_route k) (mk_request (url r) (parameters r) (queryString r) (headers r) (body r ++ chunk)) (k_phase k) (k_aborted k) (k_sent k).

(** What is deferred onto the loop. *)
Inductive callback := SetStopping | Write (id : nat) (r : Response) | CloseApp.
(** What would be undefined behaviour: writing to a destroyed response, deferring onto a loop whose thread
    exited, and fulfilling a promise that is gone. *)
Inductive hazard := WriteDead (id : nat) | DeferDead (id : nat) | PromiseDead.
(** [HttpServer::stop]: not called, waiting for the loop to close dispatch, draining the pool, done. *)
Inductive stop_phase := NotStopping | Acknowledging | Draining | Closing.
#[export] Instance stop_phase_eq_dec : EqDecision stop_phase.
Proof. solve_decision. Defined.

Record server := mk_server {
  s_connections : list connection; s_deferred : list callback; s_stopping : bool; s_stop : stop_phase; s_acknowledged : bool; s_timedOut : bool;
  s_closed : bool; s_loopAlive : bool; s_late : bool; s_hazards : list hazard }.
Definition initial : server := mk_server [] [] false NotStopping false false false true false [].

Definition with_connections (f : list connection -> list connection) (s : server) : server :=
  mk_server (f (s_connections s)) (s_deferred s) (s_stopping s) (s_stop s) (s_acknowledged s) (s_timedOut s) (s_closed s) (s_loopAlive s) (s_late s) (s_hazards s).
Definition defer (c : callback) (s : server) : server :=
  mk_server (s_connections s) (s_deferred s ++ [c]) (s_stopping s) (s_stop s) (s_acknowledged s) (s_timedOut s) (s_closed s) (s_loopAlive s) (s_late s) (s_hazards s).
Definition pop_deferred (l : list callback) (s : server) : server :=
  mk_server (s_connections s) l (s_stopping s) (s_stop s) (s_acknowledged s) (s_timedOut s) (s_closed s) (s_loopAlive s) (s_late s) (s_hazards s).
Definition add_hazard (h : hazard) (s : server) : server :=
  mk_server (s_connections s) (s_deferred s) (s_stopping s) (s_stop s) (s_acknowledged s) (s_timedOut s) (s_closed s) (s_loopAlive s) (s_late s) (s_hazards s ++ [h]).
Definition note_late (s : server) : server :=
  mk_server (s_connections s) (s_deferred s) (s_stopping s) (s_stop s) (s_acknowledged s) (s_timedOut s) (s_closed s) (s_loopAlive s) (s_late s || s_stopping s) (s_hazards s).
Definition set_stop (p : stop_phase) (timedOut : bool) (s : server) : server :=
  mk_server (s_connections s) (s_deferred s) (s_stopping s) p (s_acknowledged s) (s_timedOut s || timedOut) (s_closed s) (s_loopAlive s) (s_late s) (s_hazards s).
Definition acknowledge (s : server) : server :=
  mk_server (s_connections s) (s_deferred s) true (s_stop s) true (s_timedOut s) (s_closed s) (s_loopAlive s) (s_late s) (s_hazards s).
Definition close_app (s : server) : server :=
  mk_server (set_aborted <$> s_connections s) (s_deferred s) (s_stopping s) (s_stop s) (s_acknowledged s) (s_timedOut s) true (s_loopAlive s) (s_late s) (s_hazards s).
Definition exit_loop (s : server) : server :=
  mk_server (s_connections s) (s_deferred s) (s_stopping s) (s_stop s) (s_acknowledged s) (s_timedOut s) (s_closed s) false (s_late s) (s_hazards s).

(** The threads' choices. *)
Inductive label :=
  | Arrive (route : nat) (url : text) (values : list text) (queryString : text) (headers : list (text * text))
  | Data (id : nat) (chunk : text) (last : bool)
  | Abort (id : nat)
  | Start (id : nat)
  | Finish (id : nat)
  | RunDeferred
  | StopCalled
  | StopWaited (timeout : bool)
  | StopDrained
  | LoopExits.

Section Server.
Context `{JsonLib} (routes : list route).

Definition refusal : option Response := error (codes "503 Service Unavailable") (codes "server is shutting down").

(** [onRequest] up to dispatch or to the body. *)
Definition arrive (rt : nat) (r : route) (url : text) (values : list text) (query : text) (headers : list (text * text)) (s : server) : server :=
  let parameters := imap (fun i name => (name, default [] (values !! i))) (parameterNames (pattern r)) in
  let request := mk_request url parameters query headers [] in
  if s_stopping s then with_connections (fun l => l ++ [mk_connection rt request Refused false (option_list refusal)]) s
  else if hasBody r then with_connections (fun l => l ++ [mk_connection rt request Receiving false []]) s
  else note_late (with_connections (fun l => l ++ [mk_connection rt request Queued false []]) s).

(** [onData]. *)
Definition data (id : nat) (k : connection) (chunk : text) (is_last : bool) (s : server) : server :=
  let k := add_chunk chunk k in
  if negb is_last || k_aborted k then with_connections <[id := k]> s
  else note_late (with_connections <[id := set_phase Queued k]> s).

(** A worker ends: [invokeHandler], then [loop->defer]. *)
Definition finish (id : nat) (k : connection) (r : route) (s : server) : server :=
  match invokeHandler (handler r) (k_request k) with
  | None => with_connections <[id := set_phase Lost k]> s
  | Some response =>
      let s := with_connections <[id := set_phase Finished k]> s in
      if s_loopAlive s then defer (Write id response) s else add_hazard (DeferDead id) s
  end.

(** [writeResponse]: the response object lives until the connection ends. *)
Definition writeResponse (id : nat) (k : connection) (r : Response) (s : server) : server :=
  if k_aborted k || s_closed s then add_hazard (WriteDead id) s else with_connections <[id := add_sent r k]> s.

Definition run_callback (c : callback) (s : server) : server :=
  match c with
  | SetStopping => let s := acknowledge s in if s_timedOut s then add_hazard PromiseDead s else s
  | Write id r =>
      match s_connections s !! id with
      | None => s
      | Some k => if k_aborted k then s else writeResponse id k r s
      end
  | CloseApp => close_app s
  end.

(** [pool_.purge()]: what no worker took is dropped. *)
Definition purge (k : connection) : connection := if bool_decide (k_phase k = Queued) then set_phase Purged k else k.
Definition idle (k : connection) : bool := negb (bool_decide (k_phase k = Queued)) && negb (bool_decide (k_phase k = Running)).

Definition step (l : label) (s : server) : option server :=
  match l with
  | Arrive rt url values query headers =>
      r ← routes !! rt;
      if s_loopAlive s && negb (s_closed s) then Some (arrive rt r url values query headers s) else None
  | Data id chunk is_last =>
      k ← s_connections s !! id;
      if s_loopAlive s && negb (k_aborted k) && bool_decide (k_phase k = Receiving) then Some (data id k chunk is_last s) else None
  | Abort id =>
      k ← s_connections s !! id;
      if s_loopAlive s then Some (with_connections <[id := set_aborted k]> s) else None
  | Start id =>
      k ← s_connections s !! id;
      if bool_decide (k_phase k = Queued) then Some (with_connections <[id := set_phase Running k]> s) else None
  | Finish id =>
      k ← s_connections s !! id;
      r ← routes !! k_route k;
      if bool_decide (k_phase k = Running) then Some (finish id k r s) else None
  | RunDeferred =>
      match s_deferred s with
      | c :: l => if s_loopAlive s then Some (run_callback c (pop_deferred l s)) else None
      | [] => None
      end
  | StopCalled => if bool_decide (s_stop s = NotStopping) then Some (set_stop Acknowledging false (defer SetStopping s)) else None
  | StopWaited timeout =>
      if bool_decide (s_stop s = Acknowledging) && (s_acknowledged s || timeout)
      then Some (with_connections (fmap purge) (set_stop Draining (negb (s_acknowledged s)) s)) else None
  | StopDrained =>
      if bool_decide (s_stop s = Draining) && forallb idle (s_connections s) then Some (set_stop Closing false (defer CloseApp s)) else None
  | LoopExits => if s_closed s && s_loopAlive s then Some (exit_loop s) else None
  end.

Definition run (ls : list label) : option server := run_labels step ls initial.
End Server.

(** ** Safety *)
Section Safety.
Context `{JsonLib} (routes : list route).

(** The responses that are for one request, sent or still deferred. *)
Definition pending (id : nat) (l : list callback) : list Response := omap (fun c => match c with Write i r => if bool_decide (i = id) then Some r else None | _ => None end) l.
Definition answer_of (k : connection) (r : Response) : Prop :=
  match k_phase k with
  | Finished => exists rt, routes !! k_route k = Some rt /\ invokeHandler (handler rt) (k_request k) = Some r
  | Refused => refusal = Some r
  | _ => False
  end.
Definition connection_ok (s : server) (id : nat) (k : connection) : Prop :=
  (length (k_sent k ++ pending id (s_deferred s)) <= 1)%nat /\ Forall (answer_of k) (k_sent k ++ pending id (s_deferred s)).
Definition known (s : server) (c : callback) : Prop := match c with Write id _ => (id < length (s_connections s))%nat | _ => True end.
Record server_ok (s : server) : Prop := mk_server_ok {
  so_connections : forall id k, s_connections s !! id = Some k -> connection_ok s id k;
  so_known : Forall (known s) (s_deferred s);
  so_closed : s_closed s = true -> Forall (fun k => k_aborted k = true) (s_connections s);
  so_hazards : forall id, WriteDead id ∉ s_hazards s }.

Lemma pending_app id l l' : pending id (l ++ l') = pending id l ++ pending id l'.
Proof. apply omap_app. Qed.

Lemma pending_unknown s id : Forall (known s) (s_deferred s) -> (length (s_connections s) <= id)%nat -> pending id (s_deferred s) = [].
Proof.
  intros Hk Hl. induction Hk as [|c l Hc _ IH]; [done|]. cbn. destruct c as [|i r|]; [done| |done]. cbn in Hc. rewrite bool_decide_false by lia. done.
Qed.

(** Changing one connection without touching what is deferred. *)
Lemma update_ok s id k k' : server_ok s -> s_connections s !! id = Some k ->
  (connection_ok s id k -> connection_ok s id k') -> (k_aborted k = true -> k_aborted k' = true) -> server_ok (with_connections <[id := k']> s).
Proof.
  intros [Hc Hk Hcl Hh] Hid Hup Hab. pose proof (lookup_lt_Some _ _ _ Hid) as Hlt. split; cbn [with_connections s_connections s_deferred s_closed s_hazards].
  - intros i x Hx. destruct (decide (i = id)) as [->|Hne].
    + rewrite list_lookup_insert_eq in Hx by done. injection Hx as <-. apply Hup, (Hc id k Hid).
    + rewrite list_lookup_insert_ne in Hx by done. apply (Hc i x Hx).
  - eapply Forall_impl; [exact Hk|]. intros [|i r|]; cbn; by rewrite ?length_insert.
  - intros Hx. apply Forall_insert; [by apply Hcl|]. apply Hab. by eapply Forall_lookup_1 in Hid; [|by apply Hcl].
  - done.
Qed.

Lemma append_ok s k : server_ok s -> s_closed s = false -> (length (k_sent k) <= 1)%nat -> Forall (answer_of k) (k_sent k) -> server_ok (with_connections (fun l => l ++ [k]) s).
Proof.
  intros [Hc Hk Hcl Hh] Hclosed Hl Ha. split; cbn [with_connections s_connections s_deferred s_closed s_hazards].
  - intros i x Hx. apply lookup_app_Some in Hx as [Hx|[Hge Hx]]; [by apply Hc|]. apply list_lookup_singleton_Some in Hx as [_ <-].
    unfold connection_ok. cbn [with_connections s_deferred]. by rewrite (pending_unknown s i), app_nil_r.
  - eapply Forall_impl; [exact Hk|]. intros [|i r|]; cbn; [done| |done]. rewrite length_app. cbn. lia.
  - by rewrite Hclosed.
  - done.
Qed.

Lemma same_ok s s' : server_ok s -> s_connections s' = s_connections s -> s_deferred s' = s_deferred s -> s_closed s' = s_closed s ->
  (forall id, WriteDead id ∉ s_hazards s') -> server_ok s'.
Proof.
  intros [Hc Hk Hcl Hh] E1 E2 E3 Hh'. split; [|by rewrite E2; unfold known; rewrite E1|by rewrite E1, E3|done].
  intros i x. unfold connection_ok. rewrite E1, E2. apply Hc.
Qed.

Lemma defer_ok s c : server_ok s -> (forall id r, c <> Write id r) -> server_ok (defer c s).
Proof.
  intros [Hc Hk Hcl Hh] Hn. split; cbn [defer s_connections s_deferred s_closed s_hazards]; [|apply Forall_app; split; [done|repeat constructor; by destruct c as [|i r|]; [|exfalso; eapply Hn|]]|done..].
  intros i x Hx. unfold connection_ok. cbn [defer s_deferred]. rewrite pending_app. destruct c as [|j r|]; cbn; [|exfalso; by eapply Hn|]; rewrite app_nil_r; by apply Hc.
Qed.

Lemma unanswered s id k : connection_ok s id k -> k_phase k <> Finished -> k_phase k <> Refused -> k_sent k ++ pending id (s_deferred s) = [].
Proof.
  intros [_ Ha] H1 H2. destruct (k_sent k ++ _) as [|r l]; [done|]. apply Forall_cons in Ha as [Ha _]. unfold answer_of in Ha. by destruct (k_phase k).
Qed.

Lemma not_sent s id k k' : connection_ok s id k -> k_phase k <> Finished -> k_phase k <> Refused -> k_sent k' = k_sent k -> connection_ok s id k'.
Proof.
  intros Hk H1 H2 E. pose proof (unanswered s id k Hk H1 H2) as Hn. unfold connection_ok. rewrite E, Hn. split; [cbn; lia|constructor].
Qed.

Lemma pop_ok s c l : server_ok s -> s_deferred s = c :: l -> server_ok (pop_deferred l s).
Proof.
  intros [Hc Hk Hcl Hh] E. split; cbn [pop_deferred s_connections s_deferred s_closed s_hazards]; [|by rewrite E in Hk; apply Forall_cons in Hk as [_ Hk]|done..].
  intros i x Hx. destruct (Hc i x Hx) as [Hl Ha]. unfold connection_ok in *. cbn [pop_deferred s_deferred]. rewrite E in Hl, Ha.
  assert (Hs : sublist (pending i l) (pending i (c :: l))).
  { cbn. destruct c as [|j r|]; [done| |done]. case_bool_decide; [by apply sublist_cons|done]. }
  assert (Hs' : sublist (k_sent x ++ pending i l) (k_sent x ++ pending i (c :: l))) by (by apply sublist_app).
  split; [pose proof (sublist_length _ _ Hs'); lia|]. rewrite Forall_forall in *. intros r Hr. apply Ha. by eapply sublist_subseteq.
Qed.

Lemma finished_ok s id k r : server_ok s -> s_connections s !! id = Some k -> routes !! k_route k = Some r -> k_phase k = Running -> server_ok (finish id k r s).
Proof.
  intros Hok Hid Hr Hp. unfold finish. destruct (invokeHandler (handler r) (k_request k)) as [response|] eqn:Ei.
  2: { apply (update_ok s id k); try done. intros Hk. apply (not_sent s id k); by rewrite ?Hp. }
  assert (Hu : server_ok (with_connections <[id:=set_phase Finished k]> s)) by (apply (update_ok s id k); try done; intros Hk; apply (not_sent s id k); by rewrite ?Hp).
  cbn [with_connections s_loopAlive]. destruct (s_loopAlive s).
  - pose proof (unanswered s id k (so_connections s Hok id k Hid) ltac:(by rewrite Hp) ltac:(by rewrite Hp)) as Hn. apply app_eq_nil in Hn as [Hn1 Hn2].
    pose proof (lookup_lt_Some _ _ _ Hid) as Hlt. destruct Hu as [Hc Hk Hcl Hh]. split; cbn [defer s_connections s_deferred s_closed s_hazards].
    + intros i x Hx. specialize (Hc i x Hx). unfold connection_ok in *. cbn [defer with_connections s_deferred] in *. rewrite pending_app. cbn [pending omap list_omap].
      destruct (decide (i = id)) as [->|Hne].
      * cbn [with_connections s_connections] in Hx. rewrite list_lookup_insert_eq in Hx by done. injection Hx as <-. cbn [set_phase k_sent]. rewrite Hn1, Hn2, bool_decide_true by done.
        cbn. split; [lia|]. repeat constructor. unfold answer_of. cbn. eauto.
      * rewrite bool_decide_false by done. by rewrite app_nil_r.
    + apply Forall_app. split; [done|]. repeat constructor. cbn. by rewrite length_insert.
    + done.
    + done.
  - apply (same_ok (with_connections <[id:=set_phase Finished k]> s)); try done. intros i. cbn [add_hazard with_connections s_hazards]. rewrite not_elem_of_app.
    split; [apply (so_hazards s Hok)|]. by rewrite list_elem_of_singleton.
Qed.

Lemma callback_ok s c l : server_ok s -> s_deferred s = c :: l -> server_ok (run_callback c (pop_deferred l s)).
Proof.
  intros Hok E. pose proof (pop_ok s c l Hok E) as Hpop. destruct c as [|id r|]; cbn [run_callback].
  - assert (Ha : server_ok (acknowledge (pop_deferred l s))) by (apply (same_ok (pop_deferred l s)); [done..|apply (so_hazards s Hok)]). cbv zeta. destruct (s_timedOut _); [|done].
    apply (same_ok (acknowledge (pop_deferred l s))); try done. intros i. cbn. rewrite not_elem_of_app. split; [apply (so_hazards s Hok)|]. by rewrite list_elem_of_singleton.
  - cbn [pop_deferred s_connections s_closed]. destruct (s_connections s !! id) as [k|] eqn:Hid; [|done]. destruct (k_aborted k) eqn:Eab; [done|]. unfold writeResponse. rewrite Eab. cbn [orb pop_deferred s_closed].
    destruct (s_closed s) eqn:Ecl.
    { pose proof (so_closed s Hok Ecl) as Hf. eapply Forall_lookup_1 in Hf; [|exact Hid]. congruence. }
    apply (update_ok (pop_deferred l s) id k); [done|done| |done]. intros _. destruct (so_connections s Hok id k Hid) as [Hl Ha]. unfold connection_ok in *.
    cbn [pop_deferred s_deferred add_sent k_sent]. rewrite E in Hl, Ha. cbn [pending omap list_omap] in Hl, Ha. rewrite bool_decide_true in Hl, Ha by done.
    rewrite <- app_assoc. split; [done|]. eapply Forall_impl; [exact Ha|]. done.
  - destruct Hpop as [Hc Hk Hcl Hh]. split; cbn [close_app s_connections s_deferred s_closed s_hazards].
    + intros i x Hx. apply list_lookup_fmap_Some in Hx as (k & -> & Hx). apply (Hc i k Hx).
    + eapply Forall_impl; [exact Hk|]. intros [|i r|]; cbn; by rewrite ?length_fmap.
    + intros _. apply Forall_fmap, Forall_forall. done.
    + done.
Qed.

Lemma purge_ok s : server_ok s -> server_ok (with_connections (fmap purge) s).
Proof.
  intros [Hc Hk Hcl Hh]. split; cbn [with_connections s_connections s_deferred s_closed s_hazards].
  - intros i x Hx. apply list_lookup_fmap_Some in Hx as (k & -> & Hx). specialize (Hc i k Hx). unfold purge. case_bool_decide as Eq; [|done].
    by apply (not_sent _ i k); rewrite ?Eq.
  - eapply Forall_impl; [exact Hk|]. intros [|i r|]; cbn; by rewrite ?length_fmap.
  - intros Hx. apply Forall_fmap. eapply Forall_impl; [by apply Hcl|]. intros k Hab. unfold compose, purge. by case_bool_decide.
  - done.
Qed.

Lemma step_ok l s s' : server_ok s -> step routes l s = Some s' -> server_ok s'.
Proof.
  intros Hok. destruct l as [rt u vs q hs|id chunk last_|id|id|id| | |timeout| |]; cbn [step].
  - destruct (routes !! rt) as [r|]; [|done]. cbn [mbind option_bind]. destruct (s_loopAlive s && negb (s_closed s)) eqn:Eg; [|done]. intros [= <-].
    apply andb_true_iff in Eg as [_ Eg]. apply negb_true_iff in Eg. unfold arrive. destruct (s_stopping s); [|destruct (hasBody r)].
    + apply append_ok; [done..| |]; cbn [k_sent]; destruct refusal eqn:Er; cbn; try lia; repeat constructor. by unfold answer_of.
    + apply append_ok; [done..|cbn; lia|constructor].
    + eapply same_ok; [apply (append_ok s (mk_connection rt (mk_request u (imap (fun i name => (name, default [] (vs !! i))) (parameterNames (pattern r))) q hs []) Queued false []) Hok Eg); [cbn; lia|constructor]|done..|apply (so_hazards s Hok)].
  - destruct (s_connections s !! id) as [k|] eqn:Hid; [|done]. cbn [mbind option_bind]. destruct (_ && _) eqn:Eg; [|done]. intros [= <-].
    rewrite !andb_true_iff, bool_decide_eq_true in Eg. destruct Eg as [_ Ep]. unfold data. cbv zeta. destruct (_ || _).
    + apply (update_ok s id k); try done. intros Hk. apply (not_sent s id k); by rewrite ?Ep.
    + eapply same_ok; [apply (update_ok s id k (set_phase Queued (add_chunk chunk k))); try done; intros Hk; apply (not_sent s id k); by rewrite ?Ep|done..|apply (so_hazards s Hok)].
  - destruct (s_connections s !! id) as [k|] eqn:Hid; [|done]. cbn [mbind option_bind]. destruct (s_loopAlive s); [|done]. intros [= <-]. by apply (update_ok s id k).
  - destruct (s_connections s !! id) as [k|] eqn:Hid; [|done]. cbn [mbind option_bind]. case_bool_decide as Ep; [|done]. intros [= <-]. apply (update_ok s id k); try done.
    intros Hk. apply (not_sent s id k); by rewrite ?Ep.
  - destruct (s_connections s !! id) as [k|] eqn:Hid; [|done]. cbn [mbind option_bind]. destruct (routes !! k_route k) as [r|] eqn:Er; [|done]. cbn [mbind option_bind].
    case_bool_decide as Ep; [|done]. intros [= <-]. by apply finished_ok.
  - destruct (s_deferred s) as [|c l] eqn:Ed; [done|]. destruct (s_loopAlive s); [|done]. intros [= <-]. by apply callback_ok.
  - case_bool_decide; [|done]. intros [= <-]. apply (same_ok (defer SetStopping s)); [by apply defer_ok|done..|apply (so_hazards s Hok)].
  - destruct (_ && _); [|done]. intros [= <-]. apply purge_ok. apply (same_ok s); [done..|apply (so_hazards s Hok)].
  - destruct (_ && _); [|done]. intros [= <-]. apply (same_ok (defer CloseApp s)); [by apply defer_ok|done..|apply (so_hazards s Hok)].
  - destruct (_ && _); [|done]. intros [= <-]. apply (same_ok s); [done..|apply (so_hazards s Hok)].
Qed.

(** While no request enters the pool after dispatch was closed and the loop acknowledges in time: dispatch is
    closed before the pool is drained, the pool is empty before the loop is closed, and then it stays empty. *)
Record shutdown_ok (s : server) : Prop := mk_shutdown_ok {
  sh_ack : s_acknowledged s = true -> s_stopping s = true;
  sh_drain : s_stop s = Draining \/ s_stop s = Closing -> s_stopping s = true;
  sh_idle : s_stop s = Closing -> Forall (fun k => idle k = true) (s_connections s);
  sh_close : CloseApp ∈ s_deferred s \/ s_closed s = true -> s_stop s = Closing;
  sh_loop : s_loopAlive s = false -> s_closed s = true;
  sh_defer : forall id, DeferDead id ∉ s_hazards s;
  sh_promise : PromiseDead ∉ s_hazards s }.
Definition orderly (s : server) : Prop := s_late s = false -> s_timedOut s = false -> shutdown_ok s.

Lemma idle_insert s id k : shutdown_ok s -> (s_stop s = Closing -> idle k = true) -> s_stop s = Closing -> Forall (fun k => idle k = true) (<[id := k]> (s_connections s)).
Proof. intros Hs Hk Hc. apply Forall_insert; [by apply Hs|by apply Hk]. Qed.

Lemma closing_idle s id k : shutdown_ok s -> s_connections s !! id = Some k -> s_stop s = Closing -> idle k = true.
Proof. intros Hs Hid Hc. by eapply (Forall_lookup_1 (fun k => idle k = true)); [by apply Hs|]. Qed.

Lemma idle_phase k : idle k = true <-> k_phase k <> Queued /\ k_phase k <> Running.
Proof. unfold idle. by rewrite andb_true_iff, !negb_true_iff, !bool_decide_eq_false. Qed.

Lemma orderly_callback s c l : shutdown_ok s -> s_timedOut s = false -> s_deferred s = c :: l -> shutdown_ok (run_callback c (pop_deferred l s)).
Proof.
  intros [Ha Hd Hi Hc Hl Hh Hp] Ht E. rewrite E in Hc. assert (Hpop : CloseApp ∈ l \/ s_closed s = true -> s_stop s = Closing) by (intros [?|?]; apply Hc; [left; by right|by right]).
  destruct c as [|id r|]; cbn [run_callback].
  - cbv zeta. cbn [acknowledge pop_deferred s_timedOut]. rewrite Ht. split; cbn; try done.
  - cbn [pop_deferred s_connections s_closed]. destruct (s_connections s !! id) as [k|] eqn:Hid; [|by split]. destruct (k_aborted k) eqn:Eab; [by split|]. unfold writeResponse. rewrite Eab. cbn [orb pop_deferred s_closed]. destruct (s_closed s) eqn:Ecl.
    + split; cbn [add_hazard pop_deferred s_acknowledged s_stopping s_stop s_connections s_deferred s_closed s_loopAlive s_hazards]; try done; try (by rewrite Ecl);
        intros; rewrite not_elem_of_app, list_elem_of_singleton; split; done || apply Hh.
    + split; cbn [with_connections pop_deferred s_acknowledged s_stopping s_stop s_connections s_deferred s_closed s_loopAlive s_hazards]; try done; [|by rewrite Ecl..].
      intros Hs. apply Forall_insert; [by apply Hi|]. pose proof (Forall_lookup_1 _ _ _ _ (Hi Hs) Hid) as Hk. exact Hk.
  - assert (Hcl : s_stop s = Closing) by (apply Hc; left; by left). split; cbn; try done. intros _. apply Forall_fmap. exact (Hi Hcl).
Qed.

Lemma step_orderly l s s' : orderly s -> step routes l s = Some s' -> orderly s'.
Proof.
  intros Hord Hstep Hlate Htime. destruct l as [rt u vs q hs|id chunk last_|id|id|id| | |timeout| |]; cbn [step] in Hstep.
  - destruct (routes !! rt) as [r|]; [|done]. cbn [mbind option_bind] in Hstep. destruct (s_loopAlive s && negb (s_closed s)); [|done]. injection Hstep as <-.
    unfold arrive in *. destruct (s_stopping s) eqn:Es; [|destruct (hasBody r)].
    + destruct (Hord Hlate Htime) as [Ha Hd Hi Hc Hl Hh Hp]. split; cbn; try done; try (by rewrite Es). intros Hx. apply Forall_app. split; [by apply Hi|]. by repeat constructor.
    + destruct (Hord Hlate Htime) as [Ha Hd Hi Hc Hl Hh Hp]. split; cbn; try done; try (by rewrite Es in *). intros Hx. apply Forall_app. split; [by apply Hi|]. by repeat constructor.
    + cbn in Hlate. apply orb_false_iff in Hlate as [Hlate _]. destruct (Hord Hlate Htime) as [Ha Hd Hi Hc Hl Hh Hp]. split; cbn; try done; try (by rewrite Es in *).
      intros Hx. rewrite Es in Hd. by specialize (Hd (or_intror Hx)).
  - destruct (s_connections s !! id) as [k|] eqn:Hid; [|done]. cbn [mbind option_bind] in Hstep. destruct (_ && _) eqn:Eg; [|done]. injection Hstep as <-.
    rewrite !andb_true_iff, bool_decide_eq_true in Eg. destruct Eg as [_ Ep]. unfold data in *. cbv zeta in *. destruct (_ || _).
    + pose proof (Hord Hlate Htime) as Hs. destruct Hs as [Ha Hd Hi Hc Hl Hh Hp] eqn:Es. split; cbn; try done. apply idle_insert; [done|]. intros _. apply idle_phase. cbn. by rewrite Ep.
    + cbn in Hlate. apply orb_false_iff in Hlate as [Hlate Est]. destruct (Hord Hlate Htime) as [Ha Hd Hi Hc Hl Hh Hp]. split; cbn; try done.
      intros Hx. rewrite Est in Hd. by specialize (Hd (or_intror Hx)).
  - destruct (s_connections s !! id) as [k|] eqn:Hid; [|done]. cbn [mbind option_bind] in Hstep. destruct (s_loopAlive s) eqn:El; [|done]. injection Hstep as <-.
    pose proof (Hord Hlate Htime) as Hs. split; cbn; try apply Hs. apply idle_insert; [done|]. intros Hx. exact (closing_idle s id k Hs Hid Hx).
  - destruct (s_connections s !! id) as [k|] eqn:Hid; [|done]. cbn [mbind option_bind] in Hstep. case_bool_decide as Ep; [|done]. injection Hstep as <-.
    pose proof (Hord Hlate Htime) as Hs. split; cbn; try apply Hs. apply idle_insert; [done|]. intros Hx. pose proof (closing_idle s id k Hs Hid Hx) as Hk. apply idle_phase in Hk. naive_solver.
  - destruct (s_connections s !! id) as [k|] eqn:Hid; [|done]. cbn [mbind option_bind] in Hstep. destruct (routes !! k_route k) as [r|] eqn:Er; [|done]. cbn [mbind option_bind] in Hstep.
    case_bool_decide as Ep; [|done]. injection Hstep as <-. unfold finish in *. destruct (invokeHandler _ _) as [response|].
    + cbn [with_connections s_loopAlive] in *. destruct (s_loopAlive s) eqn:El.
      * pose proof (Hord Hlate Htime) as Hs. split; cbn; try apply Hs; [apply idle_insert; [done|by intros _]|]. intros [[Hx|Hx]%elem_of_app|Hx]; [apply Hs; by left|by apply list_elem_of_singleton in Hx|apply Hs; by right].
      * pose proof (Hord Hlate Htime) as Hs. exfalso. pose proof (sh_close s Hs (or_intror (sh_loop s Hs El))) as Hx. pose proof (closing_idle s id k Hs Hid Hx) as Hk. apply idle_phase in Hk. naive_solver.
    + pose proof (Hord Hlate Htime) as Hs. split; cbn; try apply Hs. apply idle_insert; [done|by intros _].
  - destruct (s_deferred s) as [|c l] eqn:Ed; [done|]. destruct (s_loopAlive s); [|done]. injection Hstep as <-.
    assert (Hsame : s_late s = false /\ s_timedOut s = false).
    { destruct c as [|id r|]; cbn [run_callback] in Hlate, Htime; cbn in Hlate, Htime; [|unfold writeResponse in Hlate, Htime; destruct (s_connections s !! id) as [k|]; [destruct (k_aborted k) eqn:Eab; cbn in Hlate, Htime; rewrite ?Eab in Hlate, Htime; cbn in Hlate, Htime; [|destruct (s_closed s)]|]; done|done].
      destruct (s_timedOut s) eqn:Et; cbn in Hlate, Htime; [congruence|done]. }
    destruct Hsame as [H1 H2]. by apply orderly_callback; [apply Hord|..].
  - case_bool_decide as Ex; [|done]. injection Hstep as <-. cbn in Hlate, Htime. apply orb_false_iff in Htime as [Htime _]. destruct (Hord Hlate Htime) as [Ha Hd Hi Hc Hl Hh Hp]. split; cbn; try done.
    + by intros [?|?].
    + intros [[Hx|Hx]%elem_of_app|Hx]; [|by apply list_elem_of_singleton in Hx|]; exfalso; rewrite Hc in Ex; done || (by left) || by right.
  - destruct (_ && _) eqn:Eg; [|done]. injection Hstep as <-. cbn in Hlate, Htime. apply orb_false_iff in Htime as [Htime Hack]. apply negb_false_iff in Hack.
    rewrite andb_true_iff, bool_decide_eq_true in Eg. destruct Eg as [Ex _]. destruct (Hord Hlate Htime) as [Ha Hd Hi Hc Hl Hh Hp]. split; cbn; try done.
    + intros _. by apply Ha.
    + intros Hx. rewrite Hc in Ex; done.
  - destruct (_ && _) eqn:Eg; [|done]. injection Hstep as <-. cbn in Hlate, Htime. apply orb_false_iff in Htime as [Htime _]. rewrite andb_true_iff, bool_decide_eq_true in Eg. destruct Eg as [Ex Ei].
    destruct (Hord Hlate Htime) as [Ha Hd Hi Hc Hl Hh Hp]. split; cbn; try done.
    + intros _. apply Hd. by left.
    + intros _. apply Forall_forall. intros k Hk. rewrite forallb_forall in Ei. apply Ei. by apply list_elem_of_In.
  - destruct (_ && _) eqn:Eg; [|done]. injection Hstep as <-. apply andb_true_iff in Eg as [Eg _]. destruct (Hord Hlate Htime) as [Ha Hd Hi Hc Hl Hh Hp]. by split.
Qed.

Lemma never_late l s s' : Forall (fun r => hasBody r = false) routes -> s_late s = false /\ Forall (fun k => k_phase k <> Receiving) (s_connections s) ->
  step routes l s = Some s' -> s_late s' = false /\ Forall (fun k => k_phase k <> Receiving) (s_connections s').
Proof.
  intros Hr [Hl Hk]. destruct l as [rt u vs q hs|id chunk last_|id|id|id| | |timeout| |]; cbn [step].
  - destruct (routes !! rt) as [r|] eqn:E; [|done]. cbn [mbind option_bind]. destruct (_ && _); [|done]. intros [= <-]. pose proof (Forall_lookup_1 _ _ _ _ Hr E) as Hb. cbv beta in Hb.
    unfold arrive. destruct (s_stopping s) eqn:Es; [|rewrite Hb]; cbn; rewrite ?Hl, ?Es; (split; [done|]); apply Forall_app; (split; [done|]); by repeat constructor.
  - destruct (s_connections s !! id) as [k|] eqn:Hid; [|done]. cbn [mbind option_bind]. destruct (_ && _) eqn:Eg; [|done]. intros _. exfalso.
    rewrite !andb_true_iff, bool_decide_eq_true in Eg. destruct Eg as [_ Ep]. by apply (Forall_lookup_1 _ _ _ _ Hk Hid).
  - destruct (s_connections s !! id) as [k|] eqn:Hid; [|done]. cbn [mbind option_bind]. destruct (s_loopAlive s); [|done]. intros [= <-]. split; [done|].
    apply Forall_insert; [done|]. apply (Forall_lookup_1 _ _ _ _ Hk Hid).
  - destruct (s_connections s !! id) as [k|] eqn:Hid; [|done]. cbn [mbind option_bind]. case_bool_decide; [|done]. intros [= <-]. split; [done|]. by apply Forall_insert.
  - destruct (s_connections s !! id) as [k|] eqn:Hid; [|done]. cbn [mbind option_bind]. destruct (routes !! k_route k) as [r|]; [|done]. cbn [mbind option_bind]. case_bool_decide; [|done]. intros [= <-].
    unfold finish. destruct (invokeHandler _ _); [cbn [with_connections s_loopAlive]; destruct (s_loopAlive s)|]; (split; [done|]); by apply Forall_insert.
  - destruct (s_deferred s) as [|c l]; [done|]. destruct (s_loopAlive s); [|done]. intros [= <-]. destruct c as [|id r|]; cbn [run_callback].
    + cbv zeta. by destruct (s_timedOut _).
    + cbn [pop_deferred s_connections s_closed]. destruct (s_connections s !! id) as [k|] eqn:Hid; [|done]. destruct (k_aborted k) eqn:Eab; [done|]. unfold writeResponse. rewrite Eab. cbn [orb pop_deferred s_closed]. destruct (s_closed s); [done|]. split; [done|].
      apply Forall_insert; [done|]. apply (Forall_lookup_1 _ _ _ _ Hk Hid).
    + split; [done|]. by apply Forall_fmap.
  - case_bool_decide; [|done]. by intros [= <-].
  - destruct (_ && _); [|done]. intros [= <-]. split; [done|]. apply Forall_fmap. eapply Forall_impl; [exact Hk|]. intros k Hp. unfold compose, purge. by case_bool_decide.
  - destruct (_ && _); [|done]. by intros [= <-].
  - destruct (_ && _); [|done]. by intros [= <-].
Qed.

Lemma run_invariant (I : server -> Prop) ls s : I initial -> (forall l a b, I a -> step routes l a = Some b -> I b) -> run routes ls = Some s -> I s.
Proof. intros H0 Hs Hr. apply run_labels_rtc in Hr. eapply rtc_invariant; [|exact Hr|done]. intros a b Ha (l & Hl). by eapply Hs. Qed.

Lemma initial_ok : server_ok initial.
Proof. split; try done. intros id. apply not_elem_of_nil. Qed.
Lemma initial_orderly : orderly initial.
Proof. intros _ _. split; cbn; try done; try (intros; apply not_elem_of_nil); [by intros [|]|by intros [H0%elem_of_nil|]]. Qed.

(** C35: However requests arrive, bodies come in, clients disconnect, handlers run and the server is stopped, a
    response is written at most once, only to a connection that is open, and it is what the request's own
    handler answers to the request with its whole body, or the refusal of a server that is stopping. When
    the loop acknowledges the stop in time and no body completes after that, no worker defers onto a loop
    that is gone and none is left when it is; on a server whose routes take no body this is always so. *)
Theorem router_safe ls s : run routes ls = Some s ->
  (forall id, WriteDead id ∉ s_hazards s) /\
  (forall id k, s_connections s !! id = Some k -> (length (k_sent k) <= 1)%nat /\ Forall (answer_of k) (k_sent k)) /\
  (s_late s = false -> s_timedOut s = false -> s_hazards s = [] /\ (s_loopAlive s = false -> Forall (fun k => idle k = true) (s_connections s))) /\
  (Forall (fun r => hasBody r = false) routes -> s_late s = false).
Proof using Type.
  intros Hr. pose proof (run_invariant server_ok ls s initial_ok step_ok Hr) as Hok. pose proof (run_invariant orderly ls s initial_orderly step_orderly Hr) as Hord.
  split; [apply Hok|]. split; [|split].
  - intros id k Hk. destruct (so_connections s Hok id k Hk) as [Hl Ha]. rewrite length_app in Hl. apply Forall_app in Ha as [Ha _]. split; [lia|done].
  - intros Hl Ht. destruct (Hord Hl Ht) as [_ _ Hi Hc Hloop Hd Hp]. split; [|intros E; apply Hi, Hc; right; by apply Hloop].
    pose proof (so_hazards s Hok) as Hw. destruct (s_hazards s) as [|[id|id|] h]; [done|..]; exfalso; [apply (Hw id)|apply (Hd id)|apply Hp]; by left.
  - intros Hb. apply (run_invariant (fun s => s_late s = false /\ Forall (fun k => k_phase k <> Receiving) (s_connections s)) ls s); [by split; [|constructor]| |done]. intros l a b. by apply never_late.
Qed.

(** ** Progress *)
Definition open_ok (s : server) : Prop := (CloseApp ∈ s_deferred s \/ s_closed s = true -> s_stop s = Closing) /\ (s_loopAlive s = false -> s_closed s = true).

Lemma step_open l s s' : open_ok s -> step routes l s = Some s' -> open_ok s'.
Proof.
  unfold open_ok. intros [Hc Hl] Hstep. destruct l as [rt u vs q hs|id chunk last_|id|id|id| | |timeout| |]; cbn [step] in Hstep.
  - destruct (routes !! rt) as [r|]; [|done]. cbn [mbind option_bind] in Hstep. destruct (_ && _); [|done]. injection Hstep as <-. unfold arrive. destruct (s_stopping s); [|destruct (hasBody r)]; exact (conj Hc Hl).
  - destruct (s_connections s !! id) as [k|]; [|done]. cbn [mbind option_bind] in Hstep. destruct (_ && _); [|done]. injection Hstep as <-. unfold data. cbv zeta. destruct (_ || _); exact (conj Hc Hl).
  - destruct (s_connections s !! id) as [k|]; [|done]. cbn [mbind option_bind] in Hstep. destruct (s_loopAlive s) eqn:El; [|done]. injection Hstep as <-. cbn. by rewrite El.
  - destruct (s_connections s !! id) as [k|]; [|done]. cbn [mbind option_bind] in Hstep. case_bool_decide; [|done]. injection Hstep as <-. exact (conj Hc Hl).
  - destruct (s_connections s !! id) as [k|]; [|done]. cbn [mbind option_bind] in Hstep. destruct (routes !! k_route k) as [r|]; [|done]. cbn [mbind option_bind] in Hstep. case_bool_decide; [|done]. injection Hstep as <-.
    unfold finish. destruct (invokeHandler _ _) as [response|]; [cbn [with_connections s_loopAlive]; destruct (s_loopAlive s) eqn:El|]; cbn; [|by rewrite El|done]. split; [|by rewrite El].
    intros [[Hx|Hx]%elem_of_app|Hx]; [apply Hc; by left|by apply list_elem_of_singleton in Hx|apply Hc; by right].
  - destruct (s_deferred s) as [|c l]; [done|]. destruct (s_loopAlive s) eqn:El; [|done]. injection Hstep as <-.
    assert (Hl' : CloseApp ∈ l \/ s_closed s = true -> s_stop s = Closing) by (intros [?|?]; apply Hc; [left; by right|by right]). destruct c as [|id r|]; cbn [run_callback].
    + cbv zeta. destruct (s_timedOut _); cbn; by rewrite El.
    + cbn [pop_deferred s_connections s_closed]. assert (Hsame : (CloseApp ∈ l \/ s_closed s = true -> s_stop s = Closing) /\ (s_loopAlive s = false -> s_closed s = true)) by (split; [done|by rewrite El]).
      destruct (s_connections s !! id) as [k|]; [destruct (k_aborted k) eqn:Eab; [|unfold writeResponse; rewrite Eab; cbn [orb pop_deferred s_closed]; destruct (s_closed s) eqn:Ecl]|]; cbn; rewrite ?Ecl; exact Hsame.
    + cbn. split; [|by rewrite El]. intros _. apply Hc. left. by left.
  - case_bool_decide as Ex; [|done]. injection Hstep as <-. cbn. split; [|done].
    intros [[Hx|Hx]%elem_of_app|Hx]; [|by apply list_elem_of_singleton in Hx|]; exfalso; rewrite Hc in Ex; done || (by left) || by right.
  - destruct (_ && _) eqn:Eg; [|done]. injection Hstep as <-. rewrite andb_true_iff, bool_decide_eq_true in Eg. destruct Eg as [Ex _]. cbn. split; [|done]. intros Hx. rewrite Hc in Ex; done.
  - destruct (_ && _); [|done]. injection Hstep as <-. cbn. done.
  - destruct (_ && _) eqn:Eg; [|done]. injection Hstep as <-. apply andb_true_iff in Eg as [Eg _]. done.
Qed.

(** The loop runs what is deferred. *)
Lemma drain_deferred l : forall s id k, s_deferred s = l -> CloseApp ∉ l -> s_loopAlive s = true -> s_closed s = false -> s_connections s !! id = Some k -> k_aborted k = false ->
  exists s' k', run_labels (step routes) (replicate (length l) RunDeferred) s = Some s' /\ s_connections s' !! id = Some k' /\ k_sent k' = k_sent k ++ pending id l /\
    k_route k' = k_route k /\ k_request k' = k_request k.
Proof.
  induction l as [|c l IH]; intros s id k Ed Hn Ha Hc Hid Hab; [exists s, k; by rewrite app_nil_r|].
  rewrite not_elem_of_cons in Hn. destruct Hn as [Hcl Hn]. cbn [length replicate run_labels step]. rewrite Ed, Ha.
  assert (Hdone : forall s1 k1, s1 = run_callback c (pop_deferred l s) -> s_deferred s1 = l -> s_loopAlive s1 = true -> s_closed s1 = false -> s_connections s1 !! id = Some k1 ->
    k_aborted k1 = false -> k_sent k1 ++ pending id l = k_sent k ++ pending id (c :: l) -> k_route k1 = k_route k -> k_request k1 = k_request k ->
    exists s' k', run_labels (step routes) (replicate (length l) RunDeferred) (run_callback c (pop_deferred l s)) = Some s' /\ s_connections s' !! id = Some k' /\
      k_sent k' = k_sent k ++ pending id (c :: l) /\ k_route k' = k_route k /\ k_request k' = k_request k).
  { intros s1 k1 <- E1 E2 E3 E4 E5 E6 E7 E8. destruct (IH s1 id k1 E1 Hn E2 E3 E4 E5) as (s' & k' & H1 & H2 & H3 & H4 & H5). exists s', k'. repeat split; congruence. }
  destruct c as [|j r|]; [| |done]; cbn [run_callback] in *.
  - cbv zeta. destruct (s_timedOut _) eqn:Et; eapply (Hdone _ k); cbv zeta; rewrite ?Et; reflexivity || done.
  - cbn [pop_deferred s_connections s_closed] in *. unfold writeResponse in *. cbn [pop_deferred s_closed] in *. rewrite Hc in *. destruct (s_connections s !! j) as [kj|] eqn:Ej.
    2: { eapply (Hdone _ k); try reflexivity || done. cbn. rewrite bool_decide_false; [done|]. intros ->. congruence. }
    destruct (decide (j = id)) as [->|Hne].
    + rewrite Hid in Ej. injection Ej as <-. rewrite Hab in *. eapply (Hdone _ (add_sent r k)); try reflexivity || done.
      * cbn. by rewrite list_lookup_insert_eq by (by eapply lookup_lt_Some).
      * cbn. by rewrite bool_decide_true, <- app_assoc by done.
    + destruct (k_aborted kj) eqn:Eab; cbn [orb] in *.
      * eapply (Hdone _ k); try reflexivity || done. cbn. by rewrite bool_decide_false.
      * eapply (Hdone _ k); try reflexivity || done; cbn; [by rewrite list_lookup_insert_ne|by rewrite bool_decide_false].
Qed.

Lemma started s id k : s_connections s !! id = Some k -> k_phase k = Queued \/ k_phase k = Running ->
  exists ls, run_labels (step routes) ls s = Some (with_connections <[id := set_phase Running k]> s).
Proof.
  intros Hid [Hp|Hp].
  - exists [Start id]. cbn [run_labels step]. rewrite Hid. cbn [mbind option_bind]. by rewrite bool_decide_true.
  - exists []. cbn [run_labels]. f_equal. unfold with_connections. rewrite list_insert_id; [by destruct s|]. rewrite Hid. f_equal. unfold set_phase. rewrite <- Hp. by destruct k.
Qed.

Lemma run_labels_app {L C} (f : L -> C -> option C) l1 l2 c c1 c2 : run_labels f l1 c = Some c1 -> run_labels f l2 c1 = Some c2 -> run_labels f (l1 ++ l2) c = Some c2.
Proof. revert c. induction l1 as [|l l1 IH]; intros c; cbn; [by intros [= ->]|]. destruct (f l c); [|done]. by apply IH. Qed.


End Safety.

(** ** Percent-encoding *)

(** [e] encodes [l]: a character stands for itself, unless it is a percent sign, or is written as two digits. *)
Inductive encodes : text -> text -> Prop :=
  | enc_nil : encodes [] []
  | enc_plain c e l : c <> 37 -> encodes e l -> encodes (c :: e) (c :: l)
  | enc_digits a b e l : is_hex a = true -> is_hex b = true -> encodes e l -> encodes (37 :: a :: b :: e) ((16 * Util.digit a + Util.digit b) :: l).

Lemma percent_roundtrip e l : encodes e l -> percentDecode e = l.
Proof.
  induction 1 as [|c e l Hc He IH|a b e l Ha Hb He IH]; [done|..]; cbn [percentDecode].
  - rewrite (proj2 (Z.eqb_neq c 37)) by done. cbn [andb]. destruct e as [|a [|b e]]; by rewrite IH.
  - rewrite Z.eqb_refl, Ha, Hb. cbn [andb]. by rewrite IH.
Qed.

(** ** Examples *)
#[local] Existing Instance token_json.
Definition w_get : route := mk_route (codes "/api/devices/:position") false (fun r => match parameterAs 16 r (codes "position") with
  | Some n => Returned (statusOnly (codes "200 OK")) | None => Threw (Some (parameter r (codes "position"))) end).
Definition w_post : route := mk_route (codes "/api/devices") true (fun r => Returned (bytes_ (codes "text/plain") (body r))).
Definition w_arrive (rt : nat) (values : list text) : label := Arrive rt [] values [] [].

Lemma router_safe_witness : exists s k, run [w_get] [w_arrive 0 [codes "0x10"]; StopCalled; Start 0; Finish 0; RunDeferred; RunDeferred; StopWaited false; StopDrained; RunDeferred; LoopExits] = Some s /\
  s_connections s !! 0%nat = Some k /\ k_sent k = [statusOnly (codes "200 OK")] /\ s_hazards s = [].
Proof.
  destruct (run [w_get] _) as [s|] eqn:E; [|vm_compute in E; discriminate E]. destruct (router_safe [w_get] _ s E) as (_ & _ & Hs & Hl).
  assert (Hk : exists k, s_connections s !! 0%nat = Some k /\ k_sent k = [statusOnly (codes "200 OK")] /\ s_timedOut s = false) by (vm_compute in E; injection E as <-; eexists; vm_compute; auto).
  destruct Hk as (k & H1 & H2 & Ht). exists s, k. split; [reflexivity|]. split; [exact H1|]. split; [exact H2|]. apply Hs; [apply Hl; repeat constructor|exact Ht].
Defined.


(** What the server does not guarantee, as concrete schedules. A request whose body completes after dispatch
    was closed and the pool was drained is still dispatched, and its worker defers its response onto a loop
    that is gone. When the loop does not acknowledge within the timeout, its callback fulfils a promise
    that is gone. A handler that throws a message that is not UTF-8 leaves its client without an answer. *)
Theorem router_limits :
  (exists s, run [w_post] [w_arrive 0 []; StopCalled; RunDeferred; StopWaited false; StopDrained; Data 0 [104; 105] true; Start 0; RunDeferred; LoopExits; Finish 0] = Some s /\
     s_timedOut s = false /\ s_hazards s = [DeferDead 0]) /\
  (exists s, run [w_get] [StopCalled; StopWaited true; RunDeferred] = Some s /\ s_hazards s = [PromiseDead]) /\
  (exists s k, run [w_get] [w_arrive 0 [[255]]; Start 0; Finish 0] = Some s /\ s_connections s !! 0%nat = Some k /\ k_aborted k = false /\ k_phase k = Lost /\ s_deferred s = []).
Proof. split; [|split]; eexists; [|..|eexists]; vm_compute; repeat split. Qed.

End Router.
