(* ===== verification/UserCache.v ===== *)
(** * The user cache ([libs/core/user_cache.cc])

    Files a client reads, writes and removes by a relative path. A path of the file system is the list of its
    components from the file system's root; every call of the operating system may fail. Symbolic links
    are not modelled: the class resolves names only. *)

From stdpp Require Import sorting.
From S2P Require Import Prelude Util.

Module UserCache.

Abbreviation path := (list text).

(** ** Names *)
Definition kWindowsDeviceNames : list text :=
  [codes "CON"; codes "PRN"; codes "AUX"; codes "NUL"; codes "COM1"; codes "COM2"; codes "COM3"; codes "COM4"; codes "COM5"; codes "COM6"; codes "COM7";
   codes "COM8"; codes "COM9"; codes "LPT1"; codes "LPT2"; codes "LPT3"; codes "LPT4"; codes "LPT5"; codes "LPT6"; codes "LPT7"; codes "LPT8"; codes "LPT9"].
Definition isControlCharacter (c : Z) : bool := (c <? 0x20) || (c =? 0x7F).
Fixpoint until_dot (l : text) : text := match l with [] => [] | c :: l' => if c =? 46 then [] else c :: until_dot l' end.
Definition isWindowsDeviceName (component : text) : bool :=
  existsb (fun device => bool_decide (Util.toupper <$> until_dot component = Util.toupper <$> device)) kWindowsDeviceNames.

Inductive PathError := EmptyPath | EmptyComponent | ControlCharacter | DotComponent | TrailingDotOrSpace | DeviceName | ColonInComponent | Escapes.

Definition separator (c : Z) : bool := (c =? 47) || (c =? 92).
Fixpoint split_any (l : text) : list text :=
  match l with
  | [] => [[]]
  | c :: l' => if separator c then [] :: split_any l' else match split_any l' with [] => [[c]] | x :: xs => (c :: x) :: xs end
  end.
Definition check_component (part : text) : option PathError :=
  if bool_decide (part = []) then Some EmptyComponent
  else if existsb isControlCharacter part then Some ControlCharacter
  else if bool_decide (part = [46]) || bool_decide (part = [46; 46]) then Some DotComponent
  else if bool_decide (last part = Some 46) || bool_decide (last part = Some 32) then Some TrailingDotOrSpace
  else if isWindowsDeviceName part then Some DeviceName
  else if bool_decide (58 ∈ part) then Some ColonInComponent
  else None.
Fixpoint first_error (parts : list text) : option PathError :=
  match parts with [] => None | p :: parts' => match check_component p with Some e => Some e | None => first_error parts' end end.
Definition splitRelative (relPath : text) : expected PathError path :=
  if bool_decide (relPath = []) then Unexpected EmptyPath
  else match first_error (split_any relPath) with Some e => Unexpected e | None => Value (split_any relPath) end.

(** [lexically_normal] of an absolute path. *)
Definition normal_step (acc : path) (c : text) : path :=
  if bool_decide (c = [46]) || bool_decide (c = []) then acc else if bool_decide (c = [46; 46]) then take (length acc - 1) acc else acc ++ [c].
Definition lexically_normal (p : path) : path := foldl normal_step [] p.

Definition resolve (root : path) (relPath : text) : expected PathError path :=
  match splitRelative relPath with
  | Unexpected e => Unexpected e
  | Value parts =>
      let normalized := lexically_normal (root ++ parts) in
      if bool_decide (take (length root) normalized = root) then Value normalized else Unexpected Escapes
  end.

(** ** Files *)
Inductive node := FFile (content : bytes) | FDir.
#[export] Instance node_eq_dec : EqDecision node.
Proof. solve_decision. Defined.
Abbreviation files := (gmap (list (list Z)) node).

Record UserCache := mk_cache { u_root : path; u_retained : list text }.
(** The constructor: the root in one spelling, without the empty component of a trailing separator. *)
Definition make (root : path) : UserCache := mk_cache (lexically_normal root) [].
Definition retain (relPath : text) (u : UserCache) : UserCache := mk_cache (u_root u) (u_retained u ++ [relPath]).
Definition isRetained (u : UserCache) (relPath : text) : bool := bool_decide (relPath ∈ u_retained u).

Definition parent (p : path) : path := take (length p - 1) p.
Definition inside (dir q : path) : bool := bool_decide (take (length dir) q = dir).

(** What the operating system does during one operation. *)
Record outcome := mk_outcome {
  o_mkdir : path -> bool; o_stat : bool; o_open : bool; o_transferred : nat -> nat; o_flushed : bool; o_rename : bool; o_remove : path -> bool }.

Inductive CacheError := BadPath (e : PathError) | NoSuchFile | StatFailed | OpenFailed | ShortRead | MkdirFailed | WriteFailed | ReplaceFailed | InUse | RemoveFailed.

Definition read (u : UserCache) (relPath : text) (o : outcome) (fs : files) : expected CacheError bytes :=
  match resolve (u_root u) relPath with
  | Unexpected e => Unexpected (BadPath e)
  | Value p =>
      match fs !! p with
      | Some (FFile b) =>
          if negb (o_stat o) then Unexpected StatFailed
          else if negb (o_open o) then Unexpected OpenFailed
          else if (0 <? length b)%nat && negb (Nat.min (o_transferred o (length b)) (length b) =? length b)%nat then Unexpected ShortRead
          else Value b
      | _ => Unexpected NoSuchFile
      end
  end.

(** [create_directories], one component after the other. *)
Fixpoint mkdirs (o : outcome) (done todo : path) (fs : files) : files * bool :=
  match todo with
  | [] => (fs, true)
  | c :: todo' =>
      let d := done ++ [c] in
      match fs !! d with
      | Some FDir => mkdirs o d todo' fs
      | Some (FFile _) => (fs, false)
      | None => if o_mkdir o d then mkdirs o d todo' (<[d := FDir]> fs) else (fs, false)
      end
  end.

Definition temporary (p : path) : path := parent p ++ [default [] (last p) ++ codes ".mm-tmp"].
(** [fs::remove] of a file, when it is one. *)
Definition remove_file (o : outcome) (p : path) (fs : files) : files * bool :=
  match fs !! p with
  | Some (FFile _) => if o_remove o p then (delete p fs, true) else (fs, false)
  | _ => (fs, true)
  end.
Definition is_dir (fs : files) (p : path) : bool := match fs !! p with Some FDir => true | _ => false end.

Definition write (u : UserCache) (relPath : text) (data : bytes) (o : outcome) (fs : files) : files * expected CacheError unit :=
  match resolve (u_root u) relPath with
  | Unexpected e => (fs, Unexpected (BadPath e))
  | Value p =>
      let '(fs, made) := mkdirs o [] (parent p) fs in
      if negb made then (fs, Unexpected MkdirFailed)
      else
        let tmp := temporary p in
        if negb (o_open o) || is_dir fs tmp then (fs, Unexpected OpenFailed)
        else
          let n := Nat.min (o_transferred o (length data)) (length data) in
          let fs := <[tmp := FFile (take n data)]> fs in
          if negb (o_flushed o && (n =? length data)%nat) then ((remove_file o tmp fs).1, Unexpected WriteFailed)
          else if negb (o_rename o) || is_dir fs p then ((remove_file o tmp fs).1, Unexpected ReplaceFailed)
          else (<[p := FFile data]> (delete tmp fs), Value tt)
  end.

(** The directories a removal emptied, up to the root. *)
Definition empty_dir (fs : files) (d : path) : bool :=
  is_dir fs d && forallb (fun q => negb (inside d q) || bool_decide (q = d)) (map_to_list fs).*1.
Fixpoint prune (n : nat) (root : path) (o : outcome) (dir : path) (fs : files) : files :=
  match n with
  | O => fs
  | S n' =>
      if bool_decide (dir = root) || bool_decide (dir = []) then fs
      else if empty_dir fs dir && o_remove o dir then prune n' root o (parent dir) (delete dir fs) else fs
  end.

Definition remove (u : UserCache) (relPath : text) (o : outcome) (fs : files) : files * expected CacheError bool :=
  match resolve (u_root u) relPath with
  | Unexpected e => (fs, Unexpected (BadPath e))
  | Value p =>
      if isRetained u relPath then (fs, Unexpected InUse)
      else
        match fs !! p with
        | None => (fs, Value false)
        | Some nd =>
            let targets := match nd with FDir => List.filter (inside p) (map_to_list fs).*1 | FFile _ => [p] end in
            let fs' := foldr (fun q acc => if o_remove o q then delete q acc else acc) fs targets in
            if negb (forallb (o_remove o) targets) then (fs', Unexpected RemoveFailed)
            else (prune (length p) (u_root u) o (parent p) fs', Value true)
        end
  end.

(** A listing: the regular files below the root, by their relative paths, in order. *)
Fixpoint joined (parts : list text) : text := match parts with [] => [] | [x] => x | x :: l => x ++ 47 :: joined l end.
Record UserCacheFile := mk_file { uf_path : text; uf_size : Z; uf_deletable : bool }.
Fixpoint text_leb (a b : text) : bool :=
  match a, b with [], _ => true | _, [] => false | x :: a', y :: b' => if x <? y then true else if x =? y then text_leb a' b' else false end.
Definition file_le (a b : UserCacheFile) : Prop := text_leb (uf_path a) (uf_path b) = true.
#[export] Instance file_le_dec a b : Decision (file_le a b).
Proof. unfold file_le. apply _. Defined.
Definition list_entry (u : UserCache) (o : outcome) (e : path * node) : option UserCacheFile :=
  match e.2 with
  | FFile b => if inside (u_root u) e.1 && negb (bool_decide (e.1 = u_root u))
               then let rel := joined (drop (length (u_root u)) e.1) in
                    Some (mk_file rel (if o_stat o then Z.of_nat (length b) else 0) (negb (isRetained u rel)))
               else None
  | FDir => None
  end.
Definition list_ (u : UserCache) (o : outcome) (fs : files) : list UserCacheFile := merge_sort file_le (omap (list_entry u o) (map_to_list fs)).

(** ** Paths *)
Definition plain (c : text) : Prop := c <> [] /\ c <> [46] /\ c <> [46; 46].

Lemma check_plain c : check_component c = None -> plain c.
Proof.
  unfold check_component. case_bool_decide as H1; [done|]. destruct (existsb _ _); [done|]. destruct (bool_decide (c = [46]) || _) eqn:E; [done|]. intros _.
  apply orb_false_iff in E as [E1%bool_decide_eq_false E2%bool_decide_eq_false]. done.
Qed.

Lemma normal_step_plain acc c : plain c -> normal_step acc c = acc ++ [c].
Proof. intros (H1 & H2 & H3). unfold normal_step. by rewrite !bool_decide_false. Qed.

Lemma normal_app acc parts : Forall plain parts -> foldl normal_step acc parts = acc ++ parts.
Proof.
  intros Hp. revert acc. induction Hp as [|c parts Hc _ IH]; intros acc; cbn [foldl]; [by rewrite app_nil_r|]. rewrite normal_step_plain, IH by done. by rewrite <- app_assoc.
Qed.

Lemma normal_plain p : Forall plain (lexically_normal p).
Proof.
  unfold lexically_normal. apply (foldl_invariant (Forall plain)); [constructor|]. intros acc c Ha. unfold normal_step. repeat case_bool_decide; cbn; try done; [by apply Forall_take|].
  apply Forall_app. split; [done|]. by repeat constructor.
Qed.

Lemma normal_idem p : lexically_normal (lexically_normal p) = lexically_normal p.
Proof. unfold lexically_normal at 1. by rewrite (normal_app [] (lexically_normal p)) by apply normal_plain. Qed.

Lemma first_error_None parts : first_error parts = None <-> Forall (fun c => check_component c = None) parts.
Proof.
  induction parts as [|c parts IH]; cbn [first_error]; [done|]. rewrite Forall_cons. destruct (check_component c) as [e|]; [|by rewrite IH; split; [|intros []]].
  split; [done|by intros []].
Qed.

(** A relative path resolves exactly when it is not empty and all its components are permitted, and then to
    those components below the root; the last check never fails. *)
Theorem resolve_exact root relPath p : lexically_normal root = root ->
  resolve root relPath = Value p <-> relPath <> [] /\ Forall (fun c => check_component c = None) (split_any relPath) /\ p = root ++ split_any relPath.
Proof.
  intros Hroot. unfold resolve, splitRelative. case_bool_decide as He; [split; [done|by intros []]|]. destruct (first_error (split_any relPath)) as [e|] eqn:E.
  - split; [done|]. intros (_ & Hf & _). apply first_error_None in Hf. congruence.
  - apply first_error_None in E. assert (Hn : lexically_normal (root ++ split_any relPath) = root ++ split_any relPath).
    { unfold lexically_normal in *. rewrite foldl_app, Hroot. apply normal_app. eapply Forall_impl; [exact E|]. exact check_plain. }
    cbv zeta. rewrite Hn, take_app_length, bool_decide_true by done. split; [intros [= <-]; done|by intros (_ & _ & ->)].
Qed.

(** ** Containment *)
Definition below (root q : path) : Prop := exists l, l <> [] /\ q = root ++ l.

Lemma inside_iff d q : inside d q = true <-> exists l, q = d ++ l.
Proof.
  unfold inside. rewrite bool_decide_eq_true. split.
  - intros H. exists (drop (length d) q). by rewrite <- H at 1; rewrite take_drop.
  - intros [l ->]. apply take_app_length.
Qed.

Lemma below_inside root p q : below root p -> inside p q = true -> below root q.
Proof. intros (l & Hl & ->) [m ->]%inside_iff. exists (l ++ m). split; [by destruct l|by rewrite app_assoc]. Qed.

Lemma parent_snoc p c : parent (p ++ [c]) = p.
Proof. unfold parent. rewrite length_app. cbn. replace (_ - 1)%nat with (length p) by lia. apply take_app_length. Qed.

Lemma below_snoc root p : below root p -> exists l c, p = root ++ l ++ [c] /\ parent p = root ++ l.
Proof. intros (l & Hl & ->). destruct l as [|c l _] using rev_ind; [done|]. exists l, c. split; [done|]. by rewrite app_assoc, parent_snoc. Qed.

(** [create_directories] only adds missing directories on the way. *)
Lemma mkdirs_spec o todo : forall done fs q, (mkdirs o done todo fs).1 !! q = fs !! q \/
  (fs !! q = None /\ (mkdirs o done todo fs).1 !! q = Some FDir /\ exists a c b, todo = a ++ c :: b /\ q = done ++ a ++ [c]).
Proof.
  induction todo as [|c todo IH]; intros done fs q; cbn [mkdirs]; [by left|].
  assert (Hlift : forall fs1, ((mkdirs o (done ++ [c]) todo fs1).1 !! q = fs1 !! q \/ fs1 !! q = None /\ (mkdirs o (done ++ [c]) todo fs1).1 !! q = Some FDir /\
      exists a d b, todo = a ++ d :: b /\ q = (done ++ [c]) ++ a ++ [d]) ->
    (mkdirs o (done ++ [c]) todo fs1).1 !! q = fs1 !! q \/ fs1 !! q = None /\ (mkdirs o (done ++ [c]) todo fs1).1 !! q = Some FDir /\ exists a d b, c :: todo = a ++ d :: b /\ q = done ++ a ++ [d]).
  { intros fs1 [?|(? & ? & a & d & b & -> & ->)]; [by left|]. right. split; [done|]. split; [done|]. exists (c :: a), d, b. split; [done|]. by rewrite <- app_assoc. }
  destruct (fs !! (done ++ [c])) as [[b|]|] eqn:E; [by left|by apply Hlift, IH|]. destruct (o_mkdir o (done ++ [c])); [|by left].
  destruct (decide (q = done ++ [c])) as [->|Hne].
  - right. split; [done|]. split; [|by exists [], c, todo]. destruct (IH (done ++ [c]) (<[done ++ [c] := FDir]> fs) (done ++ [c])) as [H|(H & _)]; rewrite lookup_insert_eq in H; done.
  - destruct (Hlift _ (IH (done ++ [c]) (<[done ++ [c] := FDir]> fs) q)) as [H|(H1 & H2 & H3)]; rewrite lookup_insert_ne in * by done; [by left|by right].
Qed.

Lemma prefix_cases (root l a b : path) c : root ++ l = a ++ c :: b -> below root (a ++ [c]) \/ inside (a ++ [c]) root = true.
Proof.
  intros E. destruct (decide (length root <= length a)%nat) as [Hl|Hl].
  - left. assert (Ha : a = root ++ drop (length root) a).
    { rewrite <- (take_drop (length root) a) at 1. f_equal. apply (f_equal (take (length root))) in E. rewrite take_app_length, take_app_le in E by lia. done. }
    exists (drop (length root) a ++ [c]). split; [by destruct (drop _ _)|]. rewrite app_assoc, <- Ha. done.
  - right. apply inside_iff. exists (drop (S (length a)) root).
    assert (Hp : take (S (length a)) root = a ++ [c]).
    { apply (f_equal (take (S (length a)))) in E. rewrite take_app_le in E by lia. rewrite E. change (c :: b) with ([c] ++ b). rewrite app_assoc. rewrite take_app_length'; [done|]. rewrite length_app. cbn. lia. }
    rewrite <- Hp. by rewrite take_drop.
Qed.

Lemma split_any_cons l : split_any l <> [].
Proof. destruct l as [|c l]; [done|]. cbn. destruct (separator c); [done|]. by destruct (split_any l). Qed.

Lemma resolve_below root relPath p : lexically_normal root = root -> resolve root relPath = Value p -> below root p.
Proof. intros Hr (_ & _ & ->)%resolve_exact; [|done]. exists (split_any relPath). split; [apply split_any_cons|done]. Qed.

Lemma user_temporary_other p : p <> [] -> temporary p <> p.
Proof.
  intros Hp. destruct p as [|c p _] using rev_ind; [done|]. unfold temporary. rewrite parent_snoc, last_snoc. cbn [default]. intros E. apply app_inj_2 in E as [_ E]; [|done].
  injection E as E. apply (f_equal length) in E. rewrite length_app in E. cbn in E. lia.
Qed.

Lemma remove_file_other o p q fs : q <> p -> (remove_file o p fs).1 !! q = fs !! q.
Proof. intros Hq. unfold remove_file. destruct (fs !! p) as [[b|]|]; [destruct (o_remove o p)|..]; cbn; [by rewrite lookup_delete_ne|done..]. Qed.

(** What a write may change: the file, when it succeeds; its temporary file; missing directories on the way. *)
Lemma write_spec u relPath data o fs p q : resolve (u_root u) relPath = Value p -> p <> [] ->
  let '(fs', r) := write u relPath data o fs in
  fs' !! q = fs !! q \/ q = temporary p \/ (q = p /\ r = Value tt) \/
  (fs !! q = None /\ fs' !! q = Some FDir /\ exists a c b, parent p = a ++ c :: b /\ q = a ++ [c]).
Proof.
  intros Hp Hne. unfold write. rewrite Hp. pose proof (mkdirs_spec o (parent p) [] fs q) as Hm. destruct (mkdirs o [] (parent p) fs) as [fs1 made]. cbn [fst app] in Hm.
  assert (Hkeep : forall (fs' : files) (r : expected CacheError unit), fs' !! q = fs1 !! q -> fs' !! q = fs !! q \/ q = temporary p \/ (q = p /\ r = Value tt) \/
    (fs !! q = None /\ fs' !! q = Some FDir /\ exists a c b, parent p = a ++ c :: b /\ q = a ++ [c])) by (intros fs' r ->; destruct Hm as [?|?]; [by left|by do 3 right]).
  destruct made; cbn [negb]; [|by apply Hkeep]. destruct (negb (o_open o) || _); [by apply Hkeep|]. cbv zeta.
  destruct (decide (q = temporary p)) as [->|Hq]; [destruct (negb _); [|destruct (_ || _)]; by right; left|].
  assert (Ht : forall x, <[temporary p := x]> fs1 !! q = fs1 !! q) by (intros x; by apply lookup_insert_ne).
  destruct (negb (o_flushed o && _)); [apply Hkeep; by rewrite remove_file_other|]. destruct (negb (o_rename o) || _); [apply Hkeep; by rewrite remove_file_other|].
  destruct (decide (q = p)) as [->|Hqp]; [right; right; by left|]. apply Hkeep. by rewrite lookup_insert_ne, lookup_delete_ne, Ht.
Qed.

Lemma write_success u relPath data o fs p : resolve (u_root u) relPath = Value p -> (write u relPath data o fs).2 = Value tt -> (write u relPath data o fs).1 !! p = Some (FFile data).
Proof.
  intros Hp. unfold write. rewrite Hp. destruct (mkdirs _ _ _ _) as [fs1 made]. destruct (negb made); [done|]. destruct (_ || _); [done|]. cbv zeta.
  destruct (negb _); [done|]. destruct (_ || _); [done|]. intros _. apply lookup_insert_eq.
Qed.

Lemma removals_spec (f : path -> bool) (targets : list path) (fs : files) q :
  let fs' := foldr (fun q acc => if f q then delete q acc else acc) fs targets in fs' !! q = fs !! q \/ (q ∈ targets /\ fs' !! q = None).
Proof.
  cbv zeta. induction targets as [|x l IH]; cbn [foldr]; [by left|]. destruct (f x); [|destruct IH as [?|[? ?]]; [by left|right; split; [by right|done]]].
  destruct (decide (q = x)) as [->|Hne]; [right; split; [by left|by apply lookup_delete_eq]|]. rewrite lookup_delete_ne by done. destruct IH as [?|[? ?]]; [by left|right; split; [by right|done]].
Qed.

Lemma prune_spec root o q : forall n dir fs, inside root dir = true -> prune n root o dir fs !! q = fs !! q \/ (below root q /\ prune n root o dir fs !! q = None).
Proof.
  induction n as [|n IH]; intros dir fs Hin; cbn [prune]; [by left|]. destruct (bool_decide (dir = root) || bool_decide (dir = [])) eqn:E; [by left|].
  apply orb_false_iff in E as [E1%bool_decide_eq_false _]. apply inside_iff in Hin as [l ->]. assert (Hb : below root (root ++ l)) by (exists l; split; [intros ->; by rewrite app_nil_r in E1|done]).
  destruct (_ && _); [|by left]. destruct (below_snoc _ _ Hb) as (l' & c & _ & Hpar). rewrite Hpar.
  destruct (IH (root ++ l') (delete (root ++ l) fs)) as [H|[H1 H2]]; [apply inside_iff; by exists l'| |by right].
  rewrite H. destruct (decide (q = root ++ l)) as [->|Hne]; [right; split; [done|by rewrite lookup_delete_eq]|left; by apply lookup_delete_ne].
Qed.

Lemma remove_spec u relPath o fs q : lexically_normal (u_root u) = u_root u -> let fs' := (remove u relPath o fs).1 in
  fs' !! q = fs !! q \/ (below (u_root u) q /\ fs' !! q = None).
Proof.
  intros Hr. cbv zeta. unfold remove. destruct (resolve (u_root u) relPath) as [p|e] eqn:Ep; [|by left]. pose proof (resolve_below _ _ _ Hr Ep) as Hb.
  destruct (isRetained u relPath); [by left|]. destruct (fs !! p) as [nd|]; [|by left]. cbv zeta.
  set (targets := match nd with FDir => List.filter (inside p) (map_to_list fs).*1 | FFile _ => [p] end).
  assert (Ht : forall x, x ∈ targets -> below (u_root u) x).
  { intros x Hx. unfold targets in Hx. destruct nd; [by apply list_elem_of_singleton in Hx as ->|]. rewrite list_elem_of_In, filter_In in Hx. by eapply below_inside; [|apply Hx]. }
  set (fs1 := foldr (fun q acc => if o_remove o q then delete q acc else acc) fs targets). pose proof (removals_spec (o_remove o) targets fs q) as H1. cbv zeta in H1. fold fs1 in H1.
  destruct (negb _); cbn [fst]; [destruct H1 as [?|[? ?]]; [by left|right; auto]|]. destruct (below_snoc _ _ Hb) as (l & c & _ & Hpar). rewrite Hpar.
  destruct (prune_spec (u_root u) o q (length p) (u_root u ++ l) fs1) as [H2|[H2 H3]]; [apply inside_iff; by exists l| |by right].
  rewrite H2. destruct H1 as [?|[? ?]]; [by left|right; auto].
Qed.

Inductive cache_op := OpWrite (relPath : text) (data : bytes) (o : outcome) | OpRemove (relPath : text) (o : outcome).
Definition run_op (u : UserCache) (fs : files) (op : cache_op) : files :=
  match op with OpWrite relPath data o => (write u relPath data o fs).1 | OpRemove relPath o => (remove u relPath o fs).1 end.
Definition served (root : path) (retained : list text) : UserCache := foldl (fun u r => retain r u) (make root) retained.

Definition confined (root : path) (fs fs' : files) : Prop := forall q,
  fs' !! q = fs !! q \/ below root q \/ (fs !! q = None /\ fs' !! q = Some FDir /\ inside q root = true).

Lemma confined_trans root a b c : confined root a b -> confined root b c -> confined root a c.
Proof.
  intros Hab Hbc q. destruct (Hbc q) as [E|[?|(E1 & E2 & E3)]]; [|by right; left|].
  - rewrite E. apply Hab.
  - destruct (Hab q) as [E|[?|(_ & E & _)]]; [rewrite <- E; by do 2 right|by right; left|congruence].
Qed.

Lemma served_root root retained : u_root (served root retained) = lexically_normal root.
Proof. unfold served. apply (foldl_invariant (fun u => u_root u = lexically_normal root)); [done|]. by intros u r Hu. Qed.

Lemma op_confined u op fs : lexically_normal (u_root u) = u_root u -> confined (u_root u) fs (run_op u fs op).
Proof.
  intros Hr q. destruct op as [rel data o|rel o]; cbn [run_op].
  - destruct (resolve (u_root u) rel) as [p|e] eqn:Ep; [|left; unfold write; by rewrite Ep]. pose proof (resolve_below _ _ _ Hr Ep) as Hb.
    destruct (below_snoc _ _ Hb) as (l & c & Hp & Hpar). assert (Hne : p <> []) by (rewrite Hp; by destruct (u_root u), l).
    pose proof (write_spec u rel data o fs p q Ep Hne) as H. destruct (write u rel data o fs) as [fs' r]. cbn [fst].
    destruct H as [?|[->|[[-> _]|(H1 & H2 & a & d & b & E & ->)]]]; [by left|right; left|by right; left|].
    + exists (l ++ [default [] (last p) ++ codes ".mm-tmp"]). split; [by destruct l|]. unfold temporary. by rewrite Hpar, app_assoc.
    + rewrite Hpar in E. destruct (prefix_cases _ _ _ _ _ E); [by right; left|by do 2 right].
  - destruct (remove_spec u rel o fs q Hr) as [?|[? _]]; [by left|by right; left].
Qed.


(** ** Examples *)
Definition w_fine : outcome := mk_outcome (fun _ => true) true true (fun n => n) true true (fun _ => true).
Definition w_log : path := [codes "cache"; codes "logs"; codes "mm.log"].
Definition w_files : files := list_to_map [([codes "cache"], FDir); ([codes "cache"; codes "logs"], FDir); (w_log, FFile [1; 2])].
Definition w_cache : UserCache := served [codes "cache"] [codes "logs/mm.log"].


(** A retained file is refused only under the spelling it was retained with: the other separator or its
    directory removes it, and writing a file takes whatever has its temporary name. *)
Theorem retain_limits :
  (remove w_cache (codes "logs/mm.log") w_fine w_files).2 = Unexpected InUse /\
  (remove w_cache [108; 111; 103; 115; 92; 109; 109; 46; 108; 111; 103] w_fine w_files).1 !! w_log = None /\
  (remove w_cache (codes "logs") w_fine w_files).1 !! w_log = None /\
  let two := <[[codes "cache"; codes "a.mm-tmp"] := FFile [5]]> w_files in
  (write w_cache (codes "a") [7] w_fine two).1 !! [codes "cache"; codes "a.mm-tmp"] = None.
Proof. vm_compute. repeat split. Qed.

End UserCache.
