(* ===== verification/IcHausRegisters.v ===== *)
(** * The registers of the encoder chips ([libs/node/ic_haus_registers.{h,cc}])

    The register maps of the two iC-Haus chips inside an integrated encoder, as the tables list them, and
    how a row prints. The rows of the iC-MU's own two spaces name every address below 0xB0 once. *)

From S2P Require Import Prelude.

Module IcHaus.

Inductive IcHausChip := kIcMu | kIcPvl.
Definition chip_name (chip : IcHausChip) : string := match chip with kIcMu => "iC-MU" | kIcPvl => "iC-PVL" end.

Record IcHausField := mk_field { field_name : string; field_bits : string; field_description : string }.

(** [fields] holds the first [fieldCount] of the array, the ones [namedFields] returns. *)
Record IcHausRegister := mk_register {
  address : Z; lastAddress : Z; reserved : bool; spiOnly : bool; namedFields : list IcHausField }.

Record IcHausRegisterSpace := mk_space {
  space_chip : IcHausChip; space_name : string; addressing : string; registers : list IcHausRegister }.

Definition kMaxFieldsPerRegister : nat := 8.

Definition f (name bits description : string) : IcHausField := mk_field name bits description.
Definition reg (a : Z) (fields : list IcHausField) : IcHausRegister := mk_register a a false false fields.
Definition range (first last : Z) (fields : list IcHausField) : IcHausRegister := mk_register first last false false fields.
Definition reserved_ (first last : Z) : IcHausRegister := mk_register first last true false [].
Definition spiOnly_ (r : IcHausRegister) : IcHausRegister :=
  mk_register (address r) (lastAddress r) (reserved r) true (namedFields r).

Definition kReservedField : string := "Reserved".
Definition kOffAbz : string := "Absolute position offset for the ABZ calculation engine".
Definition kOffPos : string := "Serial address: absolute position offset for the ABZ calculation engine, changed by Nonius/multiturn".
Definition kOffCom : string := "Serial address: absolute position offset for the UVW calculation engine, changed by Nonius".
Definition kOffUvw : string := "Commutation signal start angle".
Definition kPresPos : string := "Preset position for the ABZ section".
Definition kResAbz : string := "Incremental interface resolution for ABZ, STEP/DIR and CW/CCW".
Definition kSpo : string := "Offset of Nonius to master".
Definition kDevId : string := "Device ID".
Definition kMfgId : string := "Manufacturer ID".
Definition kSerial : string := "Serial number".
Definition kProfileId : string := "Profile ID".
Definition kCrc16 : string := "EEPROM configuration data checksum".
Definition kMtPrel : string := "Multiturn counter preload value".
Definition kMtCount : string := "Multiturn counter current count with PCR_OUT = 0; shifted one byte up with PCR_OUT = 1".

Definition kIcMuBank0 : list IcHausRegister := [
  reg 0x00 [(f "GC_M" "1:0" "Master gain range selection"); (f "GF_M" "5:0" "Master gain")];
  reg 0x01 [(f "GX_M" "6:0" "Master cosine signal gain adjustment")];
  reg 0x02 [(f "VOSS_M" "6:0" "Master sine offset adjustment")];
  reg 0x03 [(f "VOSC_M" "6:0" "Master cosine offset adjustment")];
  reg 0x04 [(f "PHR_M" "" "Master phase adjustment range"); (f "PH_M" "6:0" "Master phase adjustment")];
  reg 0x05 [(f "ENAC" "" "Amplitude control unit activation"); (f "CIBM" "3:0" "Bias current settings")];
  reg 0x06 [(f "GC_N" "1:0" "Nonius gain range selection"); (f "GF_N" "5:0" "Nonius gain")];
  reg 0x07 [(f "GX_N" "6:0" "Nonius cosine signal gain adjustment")];
  reg 0x08 [(f "VOSS_N" "6:0" "Nonius sine offset adjustment")];
  reg 0x09 [(f "VOSC_N" "6:0" "Nonius cosine offset adjustment")];
  reg 0x0A [(f "PHR_N" "" "Nonius phase adjustment range"); (f "PH_N" "6:0" "Nonius phase adjustment")];
  reg 0x0B [(f "MODEB" "2:0" "I/O port B configuration"); (f "NTOA" "" "Adaptive timeout"); (f "MODEA" "2:0" "I/O port A configuration")];
  reg 0x0C [(f "CFGEW" "7:0" "Error and warning bit configuration")];
  reg 0x0D [(f "ACC_STAT" "" "Output configuration of the status register"); (f "NCHK_CRC" "" "Cyclic check of CRC16 and CRC8"); (f "NCHK_NON" "" "Cyclic check of the Nonius value (low active)"); (f "ACRM_RES" "" "Automatic reset with master track amplitude errors"); (f "EMTD" "2:0" "Minimum error message duration")];
  reg 0x0E [(f "ESSI_MT" "1:0" "Error bit external multiturn"); (f "ROT_MT" "" "Code direction external multiturn"); (f "LIN" "" "Linear scanning"); (f "FILT" "2:0" "Digital filter settings")];
  reg 0x0F [(f "SPO_MT" "3:0" "Offset external multiturn"); (f "MPC" "3:0" "Master period count")];
  reg 0x10 [(f "GET_MT" "" "Multiturn interface daisy chain"); (f "CHK_MT" "" "Cyclic check of the multiturn value"); (f "SBL_MT" "1:0" "Multiturn synchronization bit length"); (f "MODE_MT" "3:0" "Multiturn mode")];
  reg 0x11 [(f "OUT_ZERO" "2:0" "Output shift register configuration: zeros inserted after the used bits and before an error or warning"); (f "OUT_MSB" "4:0" "Output shift register configuration: MSB used bits")];
  reg 0x12 [(f "GSSI" "" "Gray or binary data format"); (f "RSSI" "" "Ring operation"); (f "MODE_ST" "1:0" "Data output"); (f "OUT_LSB" "3:0" "Output shift register configuration: LSB used bits")];
  reg 0x13 [(f "RESABZ" "7:0" kResAbz)];
  reg 0x14 [(f "RESABZ" "15:8" kResAbz)];
  reg 0x15 [(f "ROT_ALL" "" "Code direction"); (f "SS_AB" "1:0" "System AB step size"); (f "ENIF_AUTO" "" "Incremental interface enable"); (f "FRQAB" "2:0" "AB output frequency")];
  reg 0x16 [(f "LENZ" "1:0" "Index pulse length"); (f "CHYS_AB" "1:0" "Converter hysteresis"); (f "PP60UVW" "" "Commutation signal phase position"); (f "INV_A" "" "A, STEP or CW signal inversion"); (f "INV_B" "" "B, DIR or CCW signal inversion"); (f "INV_Z" "" "Z or NCLR signal inversion")];
  reg 0x17 [(f "RPL" "1:0" "Register access control"); (f "PPUVW" "5:0" "Number of commutation signal pole pairs")];
  reg 0x18 [(f "TEST" "7:0" "Adjustment modes and iC-Haus test modes")];
  reserved_ 0x19 0x1D;
  reg 0x1E [(f "OFF_ABZ" "3:0" kOffAbz); (f "RESERVED" "" kReservedField); (f "ROT_POS" "" "Code direction for the ABZ calculation engine and the serial absolute interface")];
  reg 0x1F [(f "OFF_ABZ" "11:4" kOffAbz)];
  reg 0x20 [(f "OFF_POS" "19:12" kOffPos)];
  reg 0x21 [(f "OFF_POS" "27:20" kOffPos)];
  reg 0x22 [(f "OFF_POS" "35:28" kOffPos)];
  reg 0x23 [(f "OFF_COM" "3:0" kOffCom); (f "RESERVED" "" kReservedField)];
  reg 0x24 [(f "OFF_COM" "11:4" kOffCom)];
  reg 0x25 [(f "PA0_CONF" "7:0" "Configurable commands on pin PA0")];
  reserved_ 0x26 0x2A;
  reg 0x2B [(f "RESERVED" "" kReservedField); (f "ACGAIN_M" "1:0" "Master gain range currently set by the amplitude control unit"); (f "AFGAIN_M" "2:0" "Master gain factor currently set by the amplitude control unit")];
  reserved_ 0x2C 0x2E;
  reg 0x2F [(f "RESERVED" "" kReservedField); (f "ACGAIN_N" "1:0" "Nonius gain range currently set by the amplitude control unit"); (f "AFGAIN_N" "2:0" "Nonius gain factor currently set by the amplitude control unit")];
  reserved_ 0x30 0x3F].

Definition kIcMuStatic : list IcHausRegister := [
  reg 0x40 [(f "BANKSEL" "4:0" "Serial access: bank register")];
  reg 0x41 [(f "EDSBANK" "7:0" "EDS bank")];
  reg 0x42 [(f "PROFILE_ID" "15:8" kProfileId)];
  reg 0x43 [(f "PROFILE_ID" "7:0" kProfileId)];
  reg 0x44 [(f "SERIAL" "31:24" kSerial)];
  reg 0x45 [(f "SERIAL" "23:16" kSerial)];
  reg 0x46 [(f "SERIAL" "15:8" kSerial)];
  reg 0x47 [(f "SERIAL" "7:0" kSerial)];
  reg 0x48 [(f "OFF_ABZ" "19:12" kOffAbz)];
  reg 0x49 [(f "OFF_ABZ" "27:20" kOffAbz)];
  reg 0x4A [(f "OFF_ABZ" "35:28" kOffAbz)];
  reg 0x4B [(f "OFF_UVW" "3:0" kOffUvw); (f "RESERVED" "" kReservedField)];
  reg 0x4C [(f "OFF_UVW" "11:4" kOffUvw)];
  reg 0x4D [(f "PRES_POS" "3:0" kPresPos); (f "RESERVED" "" kReservedField)];
  reg 0x4E [(f "PRES_POS" "11:4" kPresPos)];
  reg 0x4F [(f "PRES_POS" "19:12" kPresPos)];
  reg 0x50 [(f "PRES_POS" "27:20" kPresPos)];
  reg 0x51 [(f "PRES_POS" "35:28" kPresPos)];
  reg 0x52 [(f "SPO_0" "3:0" kSpo); (f "SPO_BASE" "3:0" kSpo)];
  reg 0x53 [(f "SPO_2" "3:0" kSpo); (f "SPO_1" "3:0" kSpo)];
  reg 0x54 [(f "SPO_4" "3:0" kSpo); (f "SPO_3" "3:0" kSpo)];
  reg 0x55 [(f "SPO_6" "3:0" kSpo); (f "SPO_5" "3:0" kSpo)];
  reg 0x56 [(f "SPO_8" "3:0" kSpo); (f "SPO_7" "3:0" kSpo)];
  reg 0x57 [(f "SPO_10" "3:0" kSpo); (f "SPO_9" "3:0" kSpo)];
  reg 0x58 [(f "SPO_12" "3:0" kSpo); (f "SPO_11" "3:0" kSpo)];
  reg 0x59 [(f "SPO_14" "3:0" kSpo); (f "SPO_13" "3:0" kSpo)];
  reg 0x5A [(f "RPL_RESET" "7:0" "Serial access: register that resets the register access restriction")];
  reg 0x5B [(f "I2C_DEV_START" "7:0" "Start address in the I²C device the transfer reads from or writes to")];
  reg 0x5C [(f "I2C_RAM_START" "7:0" "Start address of the exchange data area in internal RAM")];
  reg 0x5D [(f "I2C_RAM_END" "7:0" "End address of the exchange data area in internal RAM")];
  reg 0x5E [(f "I2C_DEVID" "7:0" "I²C device id, including the read/write bit")];
  reg 0x5F [(f "I2C_RETRY" "7:0" "I²C communication retries")];
  range 0x60 0x6F [(f "USER_EXCHANGE_REGISTERS" "" "Data exchanged with the addressed I²C device")];
  reserved_ 0x70 0x72;
  reg 0x73 [(f "EVENT_COUNT" "7:0" "Serial access: event counter")];
  reg 0x74 [(f "HARD_REV" "7:0" "Serial address: chip type and hardware revision code")];
  reg 0x75 [(f "CMD_MU" "7:0" "Serial address: command register")];
  reg 0x76 [(f "STATUS0" "7:0" "Serial address: status register 0")];
  reg 0x77 [(f "STATUS1" "7:0" "Serial address: status register 1")];
  reg 0x78 [(f "DEV_ID" "47:40" kDevId)];
  reg 0x79 [(f "DEV_ID" "39:32" kDevId)];
  reg 0x7A [(f "DEV_ID" "31:24" kDevId)];
  reg 0x7B [(f "DEV_ID" "23:16" kDevId)];
  reg 0x7C [(f "DEV_ID" "15:8" kDevId)];
  reg 0x7D [(f "DEV_ID" "7:0" kDevId)];
  reg 0x7E [(f "MFG_ID" "15:8" kMfgId)];
  reg 0x7F [(f "MFG_ID" "7:0" kMfgId)];
  spiOnly_ (reg 0x80 [(f "CRC16" "7:0" kCrc16)]);
  spiOnly_ (reg 0x81 [(f "CRC16" "15:8" kCrc16)]);
  spiOnly_ (reg 0x82 [(f "CRC8" "7:0" "EEPROM offset and preset data checksum")]);
  spiOnly_ (reserved_ 0x83 0xAF)].

Definition kIcPvlConfig : list IcHausRegister := [
  reg 0x00 [(f "EN_PAR" "" "Parity bit transmission enable"); (f "EN_ERR" "" "Error bit transmission enable"); (f "DIR" "" "Code direction"); (f "ST_GRAY" "" "Singleturn input data format"); (f "MT_GRAY" "" "Multiturn output data format"); (f "INT_MODE" "" "Serial interface operating mode")];
  reg 0x01 [(f "OS" "" "Electrical offset, multiturn to singleturn"); (f "MT_BW" "" "Bit width of the multiturn data and counter")];
  reg 0x02 [(f "PCR" "" "Period count per revolution")];
  reg 0x03 [(f "EN_WRN" "" "Low battery warning enable"); (f "BAT_MON" "" "Battery monitoring enable"); (f "A_MAX" "" "Maximum angle acceleration"); (f "IBIAS" "" "Bias current and oscillator frequency calibration")];
  reg 0x04 [(f "0" "" "Fixed zero"); (f "NOMAG" "" "NoMagnet detection"); (f "ATHR" "" "Field amplitude threshold value"); (f "ONAX" "" "On-axis magnetic scanning"); (f "POLEWID" "" "Pole size of magnetic scale")];
  reg 0x05 [(f "I2C_POS" "" "Enable I²C position readout"); (f "PCR_OUT" "" "PCR output mode"); (f "SYNC_BW" "" "Synchronization bit width"); (f "BAT_THR" "" "Battery monitor thresholds"); (f "HYS" "" "Hysteresis"); (f "ABQUAD" "" "AB quadrature output")];
  reg 0x06 [(f "CRC_CFG" "7:0" "Checksum for the chip configuration, 0x00-0x05")]].

Definition kIcPvlEepromTail : list IcHausRegister := [
  reg 0x07 [(f "MT_PREL" "7:0" kMtPrel)];
  reg 0x08 [(f "MT_PREL" "15:8" kMtPrel)];
  reg 0x09 [(f "MT_PREL" "23:16" kMtPrel)];
  reg 0x0A [(f "MT_PREL" "31:24" kMtPrel)];
  reg 0x0B [(f "MT_PREL" "39:32" kMtPrel)];
  reg 0x0C [(f "CRC_CTR" "7:0" "Checksum for MT_PREL, 0x07-0x0B")]].

Definition kIcPvlI2cFullTail : list IcHausRegister := [
  reg 0x07 [(f "MT_COUNT / Current PCR" "7:0" kMtCount)];
  reg 0x08 [(f "MT_COUNT" "15:8 or 7:0" kMtCount)];
  reg 0x09 [(f "MT_COUNT" "23:16 or 15:8" kMtCount)];
  reg 0x0A [(f "MT_COUNT" "31:24 or 23:16" kMtCount)];
  reg 0x0B [(f "MT_COUNT" "39:32 or 31:24" kMtCount)];
  reg 0x0C [(f "CRC_CTR" "7:0" "Checksum for the multiturn counter")];
  reg 0x0D [(f "SYNC" "2:0" "Synchronization bits, read only")];
  reserved_ 0x0E 0x0E;
  reg 0x0F [(f "CHIP_REL" "7:0" "Chip release, read only")];
  reg 0x10 [(f "PRESET" "" "Pin preset detected, I²C REBOOT detected, or sleep mode activated"); (f "PDR" "" "Power down reset detected"); (f "BAT_WRN" "" "Battery early warning"); (f "BAT_ERR" "" "Battery error"); (f "POS_ERR" "" "Position error"); (f "CTR_ERR" "" "Internal counter error"); (f "CFG_ERR" "" "Internal configuration error"); (f "STUP_ERR" "" "Startup error")];
  reg 0x11 [(f "CMD" "7:0" "Command register, write only")];
  reg 0x12 [(f "SLEEP_ST" "" "In the Sleep working state"); (f "NOMAG_ST" "" "In the NoMagnet working state"); (f "ACTIVE_ST" "" "In the Active working state"); (f "POWON_ST" "" "In the PowerOn working state"); (f "Unused" "" "Unused"); (f "NOMAG_L" "" "NoMagnet working state, latched"); (f "MAG_ERR" "" "Magnet error"); (f "AMPL_ERR" "" "Amplitude error")]].

Definition kIcPvlI2cLimited : list IcHausRegister := [
  reg 0x00 [(f "PRESET" "" "Pin preset detected, I²C REBOOT detected, or sleep mode activated"); (f "PDR" "" "Power down reset detected"); (f "BAT_WRN" "" "Battery early warning"); (f "BAT_ERR" "" "Battery error"); (f "POS_ERR" "" "Position error"); (f "CTR_ERR" "" "Internal counter error"); (f "CFG_ERR" "" "Internal configuration error"); (f "STUP_ERR" "" "Startup error")];
  reg 0x01 [(f "CMD" "7:0" "Command register, write only")];
  reg 0x02 [(f "SLEEP_ST" "" "In the Sleep working state"); (f "NOMAG_ST" "" "In the NoMagnet working state"); (f "ACTIVE_ST" "" "In the Active working state"); (f "POWON_ST" "" "In the PowerOn working state"); (f "Unused" "" "Unused"); (f "NOMAG_L" "" "NoMagnet working state, latched"); (f "MAG_ERR" "" "Magnet error"); (f "AMPL_ERR" "" "Amplitude error")]].

(** The shared block, then a space's own tail. *)
Definition icPvlSpace (tail : list IcHausRegister) : list IcHausRegister := kIcPvlConfig ++ tail.
Definition kIcPvlEeprom : list IcHausRegister := icPvlSpace kIcPvlEepromTail.
Definition kIcPvlI2cFull : list IcHausRegister := icPvlSpace kIcPvlI2cFullTail.

Definition kSpaces : list IcHausRegisterSpace := [
  mk_space kIcMu "CONF, bank 0, addresses 0x00-0x3F"
    "The iC-MU's own register file, read and written directly by OS command 0."
    kIcMuBank0;
  mk_space kIcMu "Static part, addresses 0x40-0xBF"
    "The iC-MU's own register file. Addresses 0x40-0xBF repeat across banks 0-31, selected by BANKSEL (0x40), so an address names a register only together with the bank in force. 0x80 upwards is SPI-only."
    kIcMuStatic;
  mk_space kIcPvl "EEPROM"
    "The iC-PVL's non-volatile configuration, not addressable as a register space over the drive's register communication service."
    kIcPvlEeprom;
  mk_space kIcPvl "I²C slave mode, ID 0b1100001"
    "Reached over I²C through the iC-MU, with device id 0xC2 to write and 0xC3 to read — the ids the firmware calls ICMU_DEVID_WRITE_ICPVL and ICMU_DEVID_READ_ICPVL."
    kIcPvlI2cFull;
  mk_space kIcPvl "I²C slave mode, ID 0b1100000"
    "The same chip through a three-register window: device id 0xC0 to write and 0xC1 to read, the firmware's ICMU_DEVID_WRITE_ICPVL_LIMITED and ICMU_DEVID_READ_ICPVL_LIMITED."
    kIcPvlI2cLimited].
Definition icHausRegisterSpaces : list IcHausRegisterSpace := kSpaces.

(** ** How a row prints *)
Definition layout_field (fld : IcHausField) : string :=
  field_name fld +:+ (if String.eqb (field_bits fld) "" then "" else "(" +:+ field_bits fld +:+ ")").

Definition layout (r : IcHausRegister) : string :=
  if reserved r then "RESERVED"
  else foldl (fun joined fld => (if String.eqb joined "" then joined else joined +:+ " | ") +:+ layout_field fld) "" (namedFields r).

Example layout_gain : layout (reg 0 [f "GC_M" "1:0" "Master gain range selection"; f "GF_M" "5:0" "Master gain"]) = "GC_M(1:0) | GF_M(5:0)".
Proof. reflexivity. Qed.

(** ** The iC-MU's own rows *)
Definition icMuRows : list IcHausRegister := kIcMuBank0 ++ kIcMuStatic.
Definition covers (r : IcHausRegister) (a : Z) : bool := (address r <=? a) && (a <=? lastAddress r).

Lemma rows_once a : 0 <= a < 256 ->
  length (filter (fun r => covers r a = true) icMuRows) = (if a <? 0xB0 then 1%nat else 0%nat).
Proof.
  intros Ha. assert (forallb (fun n => length (filter (fun r => covers r (Z.of_nat n) = true) icMuRows) =? (if (Z.of_nat n <? 0xB0)%Z then 1 else 0))%nat (seq 0 256) = true) as H by (vm_compute; reflexivity).
  rewrite forallb_forall in H. specialize (H (Z.to_nat a) ltac:(apply in_seq; lia)). apply Nat.eqb_eq in H. by rewrite Z2Nat.id in H by lia.
Qed.

(** A row that only SPI reaches is one above 0x7F. *)
Lemma rows_spi r : r ∈ icMuRows -> spiOnly r = (0x80 <=? address r) /\ address r <= lastAddress r /\ (length (namedFields r) <= kMaxFieldsPerRegister)%nat /\
  (reserved r = true <-> namedFields r = []).
Proof.
  intros H. assert (forallb (fun r => bool_decide (spiOnly r = (0x80 <=? address r)) && (address r <=? lastAddress r) && (length (namedFields r) <=? kMaxFieldsPerRegister)%nat
    && Bool.eqb (reserved r) (match namedFields r with [] => true | _ => false end)) icMuRows = true) as Hb by (vm_compute; reflexivity).
  rewrite forallb_forall in Hb. apply list_elem_of_In in H. specialize (Hb r H). rewrite !andb_true_iff in Hb. destruct Hb as [[[?%bool_decide_eq_true ?] ?] E].
  apply Z.leb_le in H1. apply Nat.leb_le in H2. apply eqb_prop in E. split; [done|]. split; [done|]. split; [done|]. rewrite E. by destruct (namedFields r).
Qed.
End IcHaus.
