(* ===== verification/IcMu.v ===== *)
(** * What configuring an integrated encoder writes ([libs/node/ic_mu_encoder.{h,cc}], [ic_mu_eeprom.{h,cc}],
    the register codecs of [ic_mu_calibration.{h,cc}])

    The values that a configuration puts into an iC-MU and the iC-PVL beside it, the splitting of EEPROM
    transfers into bursts, the checksum the iC-PVL keeps, the synchronisation of the two chips, the
    decoding of status words and restore files. *)

From stdpp Require Import pretty.
From S2P Require Import Prelude Util IcHausRegisters.

Module IcMu.
Import IcHaus.

(** ** Encoders as the drive lists them ([somanet_drive.h]) *)
Inductive EncoderOrdinal := kEncoder1 | kEncoder2.
#[export] Instance EncoderOrdinal_eq_dec : EqDecision EncoderOrdinal.
Proof. solve_decision. Defined.
Definition ordinal_value (e : EncoderOrdinal) : Z := match e with kEncoder1 => 1 | kEncoder2 => 2 end.

(** An [EncoderType] is cast from any byte. *)
Definition kBiss : Z := 4.
Definition kInternal : Z := 5.

Record EncoderConfiguration := mk_encoder {
  encoderOrdinal : EncoderOrdinal; sensorPort : Z; type : Z; resolution : Z; inverted : bool;
  multiturnBits : Z; singleturnBits : Z; singleturnBitsFromResolution : bool }.
Record Encoders := mk_encoders {
  encoders : list EncoderConfiguration; position : option EncoderOrdinal;
  velocity : option EncoderOrdinal; commutation : option EncoderOrdinal }.
Record GearRatio := mk_gear { motorRevolutions : Z; shaftRevolutions : Z }.

(** ** Registers and commands *)
Definition kIcMuMpcRegister : Z := 0x0F.
Definition kIcMuOutputRegister : Z := 0x11.
Definition kIcMuUnconfiguredOutput : Z := 0xA5.
Definition kIcMuHardRevRegister : Z := 0x74.
Definition kIcMuCommandRegister : Z := 0x75.
Definition kIcMuExchangeRegister : Z := 0x60.

Inductive IcMuCommand := kWriteAll | kAbsReset | kI2cCom.
Definition command_code (c : IcMuCommand) : Z := match c with kWriteAll => 0x01 | kAbsReset => 0x03 | kI2cCom => 0x0A end.
Inductive IcPvlCommand := kReboot | kSclr.
Definition pvl_code (c : IcPvlCommand) : Z := match c with kReboot => 0x03 | kSclr => 0x05 end.

(** [IcMuRegisterWrite]: an address and a value. *)
Definition IcMuRegisterWrite : Type := Z * Z.
Definition command (c : IcMuCommand) : IcMuRegisterWrite := (kIcMuCommandRegister, command_code c).

Inductive IcMuPath := kSingleturn | kMultiturn.
#[export] Instance IcMuPath_eq_dec : EqDecision IcMuPath.
Proof. solve_decision. Defined.

Definition icMuPath (port mt : Z) : IcMuPath := if (port =? 1) && negb (mt =? 0) then kMultiturn else kSingleturn.
Definition is_multiturn (p : IcMuPath) : bool := match p with kMultiturn => true | kSingleturn => false end.

Definition kIcMuMinSingleturnBits : Z := 18.
Definition kIcMuMaxSingleturnBits : Z := 20.
Definition isIcMuSingleturnBits (st : Z) : bool := (kIcMuMinSingleturnBits <=? st) && (st <=? kIcMuMaxSingleturnBits).
Definition kIcMuMultiturnBits : Z := 18.

(** What is said when something cannot be configured, and what is only warned about. *)
Inductive IcMuError := SingleturnBits (st : Z) | NotIcMuPart (port hardRev : Z).
Inductive IcMuWarning := MultiturnBits (mt : Z) | RingFromResolution (ordinal : EncoderOrdinal) (st resolution : Z).

Definition icMuSingleturnBitsError (st : Z) : option IcMuError := if isIcMuSingleturnBits st then None else Some (SingleturnBits st).
Definition icMuMultiturnBitsWarning (path : IcMuPath) (mt : Z) : option IcMuWarning :=
  if negb (is_multiturn path) || (mt =? kIcMuMultiturnBits) then None else Some (MultiturnBits mt).

Definition icMuMasterPeriodCount (st : Z) : Z := uwrap 8 (st - 14).
Definition icMuMasterPolePairs (st : Z) : Z := uwrap 8 (Z.shiftl 1 (icMuMasterPeriodCount st)).
Definition icMuOutMsb (path : IcMuPath) (st mt : Z) : Z :=
  let outputBits := uwrap 8 (if is_multiturn path then st + mt else st) in uwrap 8 (outputBits - 14).
Definition icPvlPeriodCountRatio (st : Z) : Z := uwrap 8 (icMuMasterPolePairs st - 1).
Definition icMuOutputPorts (safeMotion : bool) : Z := if safeMotion then 0x52 else 0x02.

Inductive EncoderShaft := kMotor | kDriving.

Definition encoderShaft (es : Encoders) (encoder : EncoderOrdinal) (gear : GearRatio) : option EncoderShaft :=
  if bool_decide (commutation es = Some encoder) then Some kMotor
  else if negb (bool_decide (position es = Some encoder)) && negb (bool_decide (velocity es = Some encoder)) then None
  else
    let gearboxPossible := match position es with
      | Some _ => negb (bool_decide (position es = commutation es))
      | None => negb (bool_decide (velocity es = commutation es)) end in
    let reduces := negb (motorRevolutions gear =? 0) && negb (shaftRevolutions gear =? 0) && (shaftRevolutions gear <? motorRevolutions gear) in
    Some (if gearboxPossible && reduces then kDriving else kMotor).

(** ** Battery modes. Accelerations are in tenths of krpm/s, for 32 and for 64 master pole pairs. *)
Record IcPvlBatteryMode := mk_mode { mode_name : string; code : Z; maxCurrentMicroamps : Z; maxAcceleration : Z * Z }.
Definition kBatteryModes : list IcPvlBatteryMode := [
  mk_mode "6-microamperes" 0x60 6 (35, 17);
  mk_mode "10-microamperes" 0x58 10 (140, 70);
  mk_mode "18-microamperes" 0x50 18 (560, 280);
  mk_mode "36-microamperes" 0x48 36 (2260, 1130);
  mk_mode "72-microamperes" 0x40 72 (8950, 4470)].
Definition icPvlBatteryModes : list IcPvlBatteryMode := kBatteryModes.
Definition icPvlMaxAcceleration (mode : IcPvlBatteryMode) (st : Z) : option Z :=
  if st =? 19 then Some (maxAcceleration mode).1 else if st =? 20 then Some (maxAcceleration mode).2 else None.
Definition kMotorShaftBatteryMode : Z := 0x5D.
Definition kDrivingShaftBatteryMode : Z := 0x68.
Definition icPvlDefaultBatteryMode (shaft : EncoderShaft) : Z :=
  match shaft with kDriving => kDrivingShaftBatteryMode | kMotor => kMotorShaftBatteryMode end.

(** ** The checksum of the iC-PVL *)
Definition crc_bit (crc : Z) : Z :=
  uwrap 8 (if negb (Z.land crc 0x80 =? 0) then Z.lxor (Z.shiftl crc 1) 0x2F else Z.shiftl crc 1).
Definition crc_rounds (crc : Z) : Z := Nat.iter 8 crc_bit crc.
Definition crc_byte (crc byte : Z) : Z := crc_rounds (Z.lxor crc byte).
Definition icPvlCrc8 (data : list Z) : Z := Z.lxor (foldl crc_byte 0 data) 0xFF.

(** ** What is written *)
Record IcMuConfiguration := mk_configuration {
  path : IcMuPath; cfg_singleturnBits : Z; cfg_multiturnBits : Z; safeMotion : bool; batteryMode : Z }.

Definition icMuRamWrites (c : IcMuConfiguration) : list IcMuRegisterWrite :=
  let multiturn := is_multiturn (path c) in [
  (0x00, 0x00); (0x05, 0x88); (0x06, 0x00); (0x0B, icMuOutputPorts (safeMotion c)); (0x0C, 0x6C); (0x0D, 0xC0);
  (0x0E, if multiturn then 0x44 else 0x04);
  (kIcMuMpcRegister, icMuMasterPeriodCount (cfg_singleturnBits c));
  (0x10, if multiturn then 0x6F else 0x00);
  (kIcMuOutputRegister, icMuOutMsb (path c) (cfg_singleturnBits c) (cfg_multiturnBits c));
  (0x12, 0x00); (0x13, 0xFF); (0x14, 0x0F); (0x15, 0x13); (0x16, 0x10); (0x17, 0x02); (0x18, 0x00)].

Definition kIcPvlEepromStart : Z := 0x40.
Definition kIcPvlPositionOutputOn : Z := 0xB0.
Definition kIcPvlPositionOutputOff : Z := 0x30.
Definition kIcPvlSyncRegister : Z := 0x0D.
Definition kIcPvlCommandRegister : Z := 0x11.

Definition icPvlEepromBytes (c : IcMuConfiguration) : list Z :=
  let settings := [0x28; 0x09; icPvlPeriodCountRatio (cfg_singleturnBits c); batteryMode c; 0x50; kIcPvlPositionOutputOff] in
  let reserved := [0; 0; 0; 0; 0] in
  settings ++ [icPvlCrc8 settings] ++ reserved ++ [icPvlCrc8 reserved].

(** ** Transfers over the I2C bridge ([ic_mu_eeprom]) *)
Inductive IcMuI2cTarget := kEeprom | kIcPvlChip | kIcPvlStatus.
#[export] Instance IcMuI2cTarget_eq_dec : EqDecision IcMuI2cTarget.
Proof. solve_decision. Defined.
Definition kTargetNames : list (IcMuI2cTarget * string) := [(kEeprom, "eeprom"); (kIcPvlChip, "ic-pvl"); (kIcPvlStatus, "ic-pvl-status")].
Definition target_name (t : IcMuI2cTarget) : string :=
  match List.find (fun p => bool_decide (p.1 = t)) kTargetNames with Some p => p.2 | None => "unknown" end.
Definition parseIcMuI2cTarget (name : string) : option IcMuI2cTarget :=
  match List.find (fun p => String.eqb p.2 name) kTargetNames with Some p => Some p.1 | None => None end.

Definition icMuI2cDeviceId (target : IcMuI2cTarget) (write : bool) : Z :=
  let writeId := match target with kEeprom => 0xA0 | kIcPvlChip => 0xC2 | kIcPvlStatus => 0xC0 end in
  if write then writeId else uwrap 8 (Z.lor writeId 0x01).

Definition kIcMuI2cDeviceStartRegister : Z := 0x5B.
Definition kIcMuI2cRamStartRegister : Z := 0x5C.
Definition kIcMuI2cRamEndRegister : Z := 0x5D.
Definition kIcMuI2cDeviceIdRegister : Z := 0x5E.
Definition kIcMuExchangeBytes : Z := 16.
Definition kIcMuEepromConfigurationEnd : Z := 0x4C.
Definition kIcMuEepromWritePage : Z := 8.

Definition icMuI2cTransferSetup (deviceId deviceStart count : Z) : list IcMuRegisterWrite := [
  (kIcMuI2cDeviceIdRegister, deviceId); (kIcMuI2cRamStartRegister, kIcMuExchangeRegister);
  (kIcMuI2cDeviceStartRegister, deviceStart); (kIcMuI2cRamEndRegister, uwrap 8 (kIcMuExchangeRegister + count - 1))].

Definition icPvlRegisterWrite (r v : Z) : list IcMuRegisterWrite :=
  icMuI2cTransferSetup (icMuI2cDeviceId kIcPvlChip true) r 1 ++ [(kIcMuExchangeRegister, v); command kI2cCom].
Definition icPvlCommand (c : IcPvlCommand) : list IcMuRegisterWrite := icPvlRegisterWrite kIcPvlCommandRegister (pvl_code c).
Definition icPvlRegisterRead (r : Z) : list IcMuRegisterWrite :=
  icMuI2cTransferSetup (icMuI2cDeviceId kIcPvlChip false) r 1 ++ [command kI2cCom].

Definition kSpoBaseRam : Z := 0x52.
Definition kSpoLastRam : Z := 0x59.
Definition kSpoBaseEeprom : Z := 0x19.
Definition kLastConfigurationRam : Z := 0x18.
Definition icMuEepromAddress (ram : Z) : option Z :=
  if ram <=? kLastConfigurationRam then Some ram
  else if (kSpoBaseRam <=? ram) && (ram <=? kSpoLastRam) then Some (uwrap 8 (kSpoBaseEeprom + (ram - kSpoBaseRam)))
  else None.

(** [IcMuI2cChunk]: where a burst starts and how many bytes it moves. The loop of [chunks]; every turn
    moves at least one byte, so [fuel] turns are enough for [fuel] bytes. *)
Definition IcMuI2cChunk : Type := Z * Z.
Fixpoint chunks_from (fuel : nat) (start last size : Z) (aligned : bool) : list IcMuI2cChunk :=
  match fuel with
  | O => []
  | S fuel =>
      if start <=? last then
        let stop := Z.min (if aligned then (start / size + 1) * size - 1 else start + size - 1) last in
        (uwrap 8 start, uwrap 8 (stop - start + 1)) :: chunks_from fuel (stop + 1) last size aligned
      else []
  end.
Definition chunks (first last size : Z) (aligned : bool) : list IcMuI2cChunk := chunks_from (Z.to_nat (last - first + 1)) first last size aligned.
Definition icMuEepromReadChunks (first last : Z) : list IcMuI2cChunk := chunks first last kIcMuExchangeBytes false.
Definition icMuEepromWriteChunks (first last : Z) : list IcMuI2cChunk := chunks first last kIcMuEepromWritePage true.

(** ** Bringing the two chips together *)
Definition icMuSpoMtRegister (rawPosition st icPvlSync : Z) : Z :=
  let singleturnMask := Z.shiftl 1 st - 1 in
  let singleturnPosition := Z.land rawPosition singleturnMask in
  let icMuAngle := Z.shiftr (singleturnPosition * 3600) st in
  let icPvlAngle := Z.land icPvlSync 0x07 * 450 in
  let difference := let d := icMuAngle - icPvlAngle in if d <? 0 then d + 3600 else d in
  let spoMt := difference / 225 + (if 112 <? difference mod 225 then 1 else 0) in
  uwrap 8 (Z.lor (Z.shiftl (Z.land spoMt 0x0F) 4) (icMuMasterPeriodCount st)).

(** ** What the status reports *)
Definition kMaxSensorPort : Z := 5.
Definition isIntegratedSensorPort (port : Z) : bool := (port =? 1) || (port =? 2).
Definition isIcMuEncoder (e : EncoderConfiguration) : bool :=
  (1 <=? sensorPort e) && (sensorPort e <=? kMaxSensorPort) && ((type e =? kBiss) || (type e =? kInternal)) && negb (singleturnBits e =? 0).

Inductive IcMuEncoderState := kNotConfigured | kInvalid | kConfigured.
#[export] Instance IcMuEncoderState_eq_dec : EqDecision IcMuEncoderState.
Proof. solve_decision. Defined.

Definition icMuEncoderState (outputRegister : Z) (expected : option Z) : option IcMuEncoderState :=
  if outputRegister =? kIcMuUnconfiguredOutput then Some kNotConfigured
  else match expected with None => None | Some e => Some (if outputRegister =? e then kConfigured else kInvalid) end.

Definition icMuPartName (hardRev : Z) : option string :=
  if (hardRev =? 0x05) || (hardRev =? 0x06) || (hardRev =? 0x07) then Some "iC-MU"
  else if (hardRev =? 0x09) || (hardRev =? 0x0A) then Some "iC-MU128"
  else if Z.shiftr hardRev 4 =? 1 then Some "iC-MU150"
  else if Z.shiftr hardRev 4 =? 2 then Some "iC-MU200"
  else None.

Definition icMuPartError (port hardRev : Z) : option IcMuError :=
  if isIntegratedSensorPort port || (match icMuPartName hardRev with Some _ => true | None => false end) then None else Some (NotIcMuPart port hardRev).

Record IcMuEncoderStatus := mk_status {
  status_encoder : EncoderOrdinal; status_port : Z; status_singleturn : Z; status_multiturn : Z; masterPolePairs : option Z;
  hardRev : Z; outputRegister : Z; expectedOutputRegister : option Z; state : option IcMuEncoderState; reason : option IcMuError;
  status_path : IcMuPath; batteryModes : list (string * Z * Z); encoderStatus : Z }.

Definition icMuEncoderStatus (e : EncoderConfiguration) (rev output : Z) : IcMuEncoderStatus :=
  let p := icMuPath (sensorPort e) (multiturnBits e) in
  let partError := icMuPartError (sensorPort e) rev in
  let why := match partError with Some er => Some er | None => icMuSingleturnBitsError (singleturnBits e) end in
  let expected := match why with Some _ => None | None => Some (icMuOutMsb p (singleturnBits e) (multiturnBits e)) end in
  let modes := if is_multiturn p then
      omap (fun m => match icPvlMaxAcceleration m (singleturnBits e) with
                     | Some a => Some (mode_name m, maxCurrentMicroamps m, a) | None => None end) icPvlBatteryModes
    else [] in
  mk_status (encoderOrdinal e) (sensorPort e) (singleturnBits e) (multiturnBits e)
    (match why with Some _ => None | None => Some (icMuMasterPolePairs (singleturnBits e)) end)
    rev output expected (match partError with Some _ => None | None => icMuEncoderState output expected end) why p modes 0.

(** ** The status word of the drive *)
Record IcMuStatusBit := mk_bit {
  bit : Z; chip : option IcHausChip; registerName : string; registerBit : Z; bit_name : string; title : string; description : string; remedy : string }.
Definition icMuStatus1Bit (b : Z) (name title description remedy : string) : IcMuStatusBit :=
  mk_bit b (Some kIcMu) "STATUS1" b name title description remedy.
Definition icPvlStatusBit (b : Z) (name title description remedy : string) : IcMuStatusBit :=
  mk_bit (uwrap 8 (8 + b)) (Some kIcPvl) "STATUS" b name title description remedy.
Definition icMuStatus0Bit (b : Z) (name title description remedy : string) : IcMuStatusBit :=
  mk_bit (uwrap 8 (16 + b)) (Some kIcMu) "STATUS0" b name title description remedy.

Definition kMultiturnRemedy : string :=
  "Connect the multiturn battery and check its voltage. Run the iC-MU encoder configuration, then power cycle the drive. If the error stays, contact support.".
Definition kIcPvlChecksumRemedy : string :=
  "Reset the fault of the drive. If the error comes back, run the iC-MU encoder configuration, which writes the iC-PVL configuration and reboots the iC-PVL. If it still comes back, contact support.".
Definition kIcMuStatusBits : list IcMuStatusBit := [
  icMuStatus1Bit 1 "FRQ_CNV" "Excessive signal frequency for the internal 12-bit converter" "The encoder turned faster than its maximum speed." "";
  icMuStatus1Bit 2 "FRQ_ABZ" "Excessive signal frequency for the ABZ converter" "The encoder turned faster than its maximum speed." "";
  icMuStatus1Bit 3 "NON_CTR" "Period counter consistency error: counted period against the calculated nonius position" "The absolute position cannot be computed reliably at the current position. The encoder is not calibrated, its mechanics changed, the ring expanded with heat, or the magnetic ring is damaged." "Run the iC-MU calibration again.";
  icMuStatus1Bit 4 "MT_CTR" "Multiturn data consistency error: counted multiturn against the external multiturn data" "The multiturn counter is not synchronised. The multiturn configuration may not be saved." kMultiturnRemedy;
  icMuStatus1Bit 5 "MT_ERR" "Multiturn communication error" "The multiturn counter is in an error state." kMultiturnRemedy;
  icMuStatus1Bit 6 "EPR_ERR" "I2C communication error: no EEPROM, or an I2C communication error" "The communication with the EEPROM of the encoder failed." "Power cycle the drive. If the error stays, there is a hardware problem: contact support.";
  icPvlStatusBit 0 "STUP_ERR" "Startup error" "The iC-PVL did not start correctly, for example because the I2C line is stuck, the EEPROM read failed, or the checksum in the EEPROM is not valid. The iC-PVL acquires no position, and its interfaces are blocked." kIcPvlChecksumRemedy;
  icPvlStatusBit 1 "CFG_ERR" "Internal configuration error" "The configuration in the RAM of the iC-PVL does not match its checksum. The position is not valid. A write to the RAM configuration over I2C also sets this bit, and an SCLR command clears it." kIcPvlChecksumRemedy;
  icPvlStatusBit 2 "CTR_ERR" "Internal counter error" "The multiturn counter in the iC-PVL does not match its checksum. The position is not valid. A write to MT_COUNT over I2C also sets this bit, and an SCLR command clears it." kIcPvlChecksumRemedy;
  icPvlStatusBit 3 "POS_ERR" "Position error" "The iC-PVL saw an unexpected position jump, for example from too high a speed or acceleration of the ring, from a weak or disturbed magnetic signal, or from a lost magnet. The position is not valid." "Check the position of the magnet, and the speed and acceleration of the axis. Then reset the fault of the drive.";
  icPvlStatusBit 4 "BAT_ERR" "Battery error" "The battery voltage is too low (iC-PVL datasheet, Elec. Char. No. 404). The position is not valid." "Change the battery, then reset the fault of the drive.";
  icPvlStatusBit 5 "BAT_WRN" "Battery early warning" "The battery voltage is low (iC-PVL datasheet, Elec. Char. No. 405)." "Change the battery soon. Switch the system off, change the battery and start again.";
  icPvlStatusBit 6 "PDR" "Power down reset detected" "The iC-PVL was reset, because both the supply and the battery voltage fell far below the battery error threshold. The counter was set to zero." "Reset the fault of the drive.";
  icPvlStatusBit 7 "PRESET" "Pin preset detected" "The iC-PVL came from a power-down, a pin preset, a sleep mode or an I2C REBOOT. Set later during operation, the bit means an unintended loss of power or a fault on the preset line." "Reset the fault of the drive.";
  icMuStatus0Bit 0 "AM_MIN" "Signal error: poor level (master track)" "The magnetic field is too weak for the encoder. The magnetic ring is too far from the encoder chip or is not detected." "Check the position of the magnetic ring and the mechanical assembly.";
  icMuStatus0Bit 2 "AN_MIN" "Signal error: poor level (nonius track)" "The magnetic field is too weak for the encoder. The magnetic ring is too far from the encoder chip or is not detected." "Check the position of the magnetic ring and the mechanical assembly.";
  icMuStatus0Bit 4 "STUP" "Startup iC-MU" "The encoder did not start correctly. The multiturn configuration may not be saved." kMultiturnRemedy].

Definition reservedStatusBit (b : Z) : IcMuStatusBit :=
  if b <? 8 then mk_bit b (Some kIcMu) "STATUS1" b "" "" "" ""
  else if b <? 16 then mk_bit b (Some kIcPvl) "STATUS" (b - 8) "" "" "" ""
  else if b <? 24 then mk_bit b (Some kIcMu) "STATUS0" (b - 16) "" "" "" ""
  else mk_bit b None "" 0 "" "" "" "".
Definition status_bit (b : Z) : IcMuStatusBit :=
  match List.find (fun r => bit r =? b) kIcMuStatusBits with Some named => named | None => reservedStatusBit b end.
Definition decodeIcMuEncoderStatus (word : Z) : list IcMuStatusBit :=
  omap (fun b => if Z.land word (Z.shiftl 1 b) =? 0 then None else Some (status_bit b)) (seqZ 0 32).

Definition parseIcMuEncoderStatus (s : Util.text) : option Z :=
  let '(base, digits) := match s with
    | 48 :: 120 :: rest | 48 :: 88 :: rest => (16, rest)
    | _ => (10, s) end in
  match Util.from_chars 32 base digits with Some (v, []) => Some v | _ => None end.

(** ** The restore file *)
Definition icMuRestoreRegisters : list Z := seqZ 0x00 25 ++ seqZ 0x52 8.
Definition icMuRestoreFileName (port : Z) : string := "circulo_integrated_encoder_" +:+ pretty port +:+ "_config.bin".
Definition icMuRestoreFile (values : list Z) : list Z := flat_map (fun '(r, v) => [r; v]) (zip icMuRestoreRegisters values).

Definition icMuRamRegister (a : Z) : option IcHausRegister :=
  fold_right (fun space found =>
    match space_chip space with
    | kIcMu => match List.find (fun r => covers r a) (registers space) with Some r => Some r | None => found end
    | kIcPvl => found
    end) None icHausRegisterSpaces.

Record IcMuRestoreEntry := mk_entry { entry_address : Z; entry_value : Z; icMuRegister : option IcHausRegister }.
Definition kIcMuRestoreFileMaxBytes : nat := 66.
Inductive RestoreError := OddLength (n : nat) | TooLong (n : nat).
Fixpoint restore_entries (l : list Z) : list IcMuRestoreEntry :=
  match l with a :: v :: l => mk_entry a v (icMuRamRegister a) :: restore_entries l | _ => [] end.
Definition parseIcMuRestoreFile (l : list Z) : expected RestoreError (list IcMuRestoreEntry) :=
  if negb (length l mod 2 =? 0)%nat then Unexpected (OddLength (length l))
  else if (kIcMuRestoreFileMaxBytes <? length l)%nat then Unexpected (TooLong (length l))
  else Value (restore_entries l).

(** ** Firmware *)
Inductive IcMuFirmwareSupport := kSupported | kTooOld | kJasper | kUnreadable.
#[export] Instance IcMuFirmwareSupport_eq_dec : EqDecision IcMuFirmwareSupport.
Proof. solve_decision. Defined.

(** The version library: parsing, the version an object starts with, and its order. *)
Class Semver := {
  version : Type;
  semver_parse : Util.text -> option version;
  initial : version;
  vcompare : version -> version -> comparison }.
Definition vge `{Semver} (a b : version) : bool := match vcompare a b with Lt => false | _ => true end.
Definition vlt `{Semver} (a b : version) : bool := match vcompare a b with Lt => true | _ => false end.

Definition txt (s : string) : Util.text := (fun a => Z.of_nat (Ascii.nat_of_ascii a)) <$> String.list_ascii_of_string s.

Definition icMuFirmwareSupport `{Semver} (s : Util.text) : IcMuFirmwareSupport :=
  let s := match s with 118 :: rest => rest | _ => s end in
  let known v := default initial (semver_parse (txt v)) in
  match semver_parse s with
  | None => kUnreadable
  | Some parsed =>
      if vge parsed (known "10.0.0-0") then kJasper
      else if vge parsed (known "5.0.0-rc.5") || (vge parsed (known "0.4.0") && vlt parsed (known "1.0.0-alpha.0")) then kSupported
      else kTooOld
  end.

(** ** Calibration registers ([ic_mu_calibration]) *)
Record IcMuPhase := mk_phase { phase : Z; phaseRange : Z }.
Definition icMuPhaseRegister (p : IcMuPhase) : Z := uwrap 8 (Z.lor (Z.shiftl (Z.land (phaseRange p) 0x01) 7) (Z.land (phase p) 0x7F)).
Definition icMuPhaseFromRegister (v : Z) : IcMuPhase := mk_phase (Z.land v 0x7F) (Z.land (Z.shiftr v 7) 0x01).

Definition kIcMuNoniusTableRegister : Z := 0x52.
Record IcMuNoniusOffsetTable := mk_table { base : Z; offsets : list Z }.
Definition pack (high low : Z) : Z := uwrap 8 (Z.lor (Z.shiftl (Z.land high 0x0F) 4) (Z.land low 0x0F)).
Definition icMuNoniusTableWrites (t : IcMuNoniusOffsetTable) : list IcMuRegisterWrite :=
  let off i := nth i (offsets t) 0 in
  (kIcMuNoniusTableRegister, pack (off 0%nat) (base t)) ::
  ((fun i => (uwrap 8 (kIcMuNoniusTableRegister + 1 + Z.of_nat i), pack (off (2 * i + 2)%nat) (off (2 * i + 1)%nat))) <$> seq 0 7).
Definition icMuNoniusTableFromRegisters (regs : list Z) : IcMuNoniusOffsetTable :=
  let r i := nth i regs 0 in
  mk_table (Z.land (r 0%nat) 0x0F)
    (Z.land (Z.shiftr (r 0%nat) 4) 0x0F :: flat_map (fun i => [Z.land (r (i + 1)%nat) 0x0F; Z.land (Z.shiftr (r (i + 1)%nat) 4) 0x0F]) (seq 0 7)).

Inductive IcMuTrack := kMaster | kNonius.
Definition icMuAnalogRegisters (t : IcMuTrack) : list Z := match t with kMaster => [0x01; 0x02; 0x03; 0x04] | kNonius => [0x07; 0x08; 0x09; 0x0A] end.
Record IcMuAnalogAdjustments := mk_analog { gain : Z; sineOffset : Z; cosineOffset : Z; analog_phase : IcMuPhase }.
Definition icMuAnalogFromRegisters (v : list Z) : IcMuAnalogAdjustments :=
  mk_analog (nth 0 v 0) (nth 1 v 0) (nth 2 v 0) (icMuPhaseFromRegister (nth 3 v 0)).
Definition icMuAnalogWrites (t : IcMuTrack) (a : IcMuAnalogAdjustments) : list IcMuRegisterWrite :=
  let r i := nth i (icMuAnalogRegisters t) 0 in
  [(r 1%nat, sineOffset a); (r 2%nat, cosineOffset a); (r 0%nat, gain a); (r 3%nat, icMuPhaseRegister (analog_phase a))].

(** ** The checksum finds a changed byte *)
Definition all_bytes : list Z := seqZ 0 256.
Lemma in_bytes x : in_u 8 x <-> In x all_bytes.
Proof. unfold all_bytes, in_u. rewrite <- list_elem_of_In, elem_of_seqZ. lia. Qed.

Lemma lxor_byte a b : in_u 8 a -> in_u 8 b -> in_u 8 (Z.lxor a b).
Proof. intros Ha Hb. by apply (lxor_ok 8). Qed.

Lemma crc_rounds_byte x : in_u 8 x -> in_u 8 (crc_rounds x).
Proof.
  intros Hx%in_bytes. assert (forallb (fun x => (0 <=? crc_rounds x) && (crc_rounds x <? 2 ^ 8)) all_bytes = true) as H by (vm_compute; reflexivity).
  rewrite forallb_forall in H. specialize (H x Hx). unfold in_u. lia.
Qed.

(** The eight shifts can be undone: they permute the bytes. *)
Lemma crc_rounds_inj x y : in_u 8 x -> in_u 8 y -> crc_rounds x = crc_rounds y -> x = y.
Proof.
  intros Hx%in_bytes Hy%in_bytes E.
  assert (forallb (fun x => match List.find (fun y => crc_rounds y =? crc_rounds x) all_bytes with Some y => y =? x | None => false end) all_bytes = true) as H
    by (vm_compute; reflexivity).
  rewrite forallb_forall in H. pose proof (H x Hx) as H1. pose proof (H y Hy) as H2. rewrite E in H1. destruct (List.find _ all_bytes); lia.
Qed.

#[local] Opaque crc_rounds.

Lemma crc_byte_byte c x : in_u 8 c -> in_u 8 x -> in_u 8 (crc_byte c x).
Proof. intros Hc Hx. by apply crc_rounds_byte, lxor_byte. Qed.

Lemma crc_fold_byte l : forall c, in_u 8 c -> Forall (in_u 8) l -> in_u 8 (foldl crc_byte c l).
Proof. induction l as [|x l IH]; intros c Hc Hl; [done|]. inversion_clear Hl. cbn [foldl]. apply IH; [by apply crc_byte_byte|assumption]. Qed.

Lemma lxor_cancel a x y : Z.lxor a x = Z.lxor a y -> x = y.
Proof. intros E. rewrite <- (Z.lxor_0_l x), <- (Z.lxor_0_l y), <- (Z.lxor_nilpotent a), !Z.lxor_assoc. by rewrite E. Qed.

Lemma crc_fold_inj l : forall c d, in_u 8 c -> in_u 8 d -> Forall (in_u 8) l -> foldl crc_byte c l = foldl crc_byte d l -> c = d.
Proof.
  induction l as [|x l IH]; intros c d Hc Hd Hl E; [done|]. inversion_clear Hl. cbn [foldl] in E.
  apply IH in E; [|by apply crc_byte_byte|by apply crc_byte_byte|assumption]. unfold crc_byte in E.
  apply crc_rounds_inj in E; [|by apply lxor_byte..]. rewrite !(Z.lxor_comm _ x) in E. by apply lxor_cancel in E.
Qed.

(** Data that differ in one byte have different checksums. *)
Theorem crc_finds_byte l x y r : Forall (in_u 8) (l ++ x :: r) -> in_u 8 y -> icPvlCrc8 (l ++ x :: r) = icPvlCrc8 (l ++ y :: r) -> x = y.
Proof.
  intros Hl Hy E. unfold icPvlCrc8 in E. rewrite !(Z.lxor_comm _ 0xFF) in E. apply lxor_cancel in E. rewrite !foldl_app in E. cbn [foldl] in E.
  apply Forall_app in Hl as [Hl Hxr]. inversion_clear Hxr as [|? ? Hx Hr].
  assert (in_u 8 (foldl crc_byte 0 l)) by (apply crc_fold_byte; [by unfold in_u|done]).
  apply crc_fold_inj in E; [|by apply crc_byte_byte|by apply crc_byte_byte|assumption].
  apply crc_rounds_inj in E; [|by apply lxor_byte..]. by apply lxor_cancel in E.
Qed.

(** ** Bursts cover a range once, in order *)
Definition burst (c : IcMuI2cChunk) : list Z := seqZ c.1 c.2.

Lemma chunks_from_spec size aligned last : 0 < size -> last < 256 -> size < 256 -> forall fuel start, 0 <= start -> (Z.to_nat (last - start + 1) <= fuel)%nat ->
  concat (burst <$> chunks_from fuel start last size aligned) = seqZ start (last - start + 1) /\
  Forall (fun c => start <= c.1 /\ 1 <= c.2 <= size /\ c.1 + c.2 - 1 <= last /\ (aligned = true -> c.1 / size = (c.1 + c.2 - 1) / size))
    (chunks_from fuel start last size aligned).
Proof.
  intros Hs Hl Hs'. induction fuel as [|fuel IH]; intros start H0 Hf; cbn [chunks_from].
  - assert (last - start + 1 <= 0) by lia. split; [|done]. cbn. by rewrite seqZ_nil by lia.
  - destruct (Z.leb_spec start last) as [L|G]; [|split; [cbn; by rewrite seqZ_nil by lia|done]].
    set (stop := Z.min _ last).
    assert (Hstop : start <= stop <= last /\ stop - start + 1 <= size /\ (aligned = true -> start / size = stop / size)).
    { unfold stop. destruct aligned.
      - pose proof (Z.div_mod start size ltac:(lia)). pose proof (Z.mod_pos_bound start size Hs). split; [nia|]. split; [nia|]. intros _.
        apply (Z.div_unique_pos _ _ _ (Z.min ((start / size + 1) * size - 1) last - size * (start / size))); nia.
      - split; [lia|]. split; [lia|done]. }
    destruct Hstop as (B & S' & A). destruct (IH (stop + 1) ltac:(lia) ltac:(lia)) as [Ec Fc]. rewrite fmap_cons, concat_cons, Ec. unfold burst at 1. cbn [fst snd].
    assert (uwrap 8 start = start) as -> by (apply uwrap_id; unfold in_u; lia). assert (uwrap 8 (stop - start + 1) = stop - start + 1) as -> by (apply uwrap_id; unfold in_u; lia).
    split.
    + replace (last - start + 1) with ((stop - start + 1) + (last - (stop + 1) + 1)) by lia.
      rewrite (seqZ_app start (stop - start + 1)) by lia. by replace (start + (stop - start + 1)) with (stop + 1) by lia.
    + constructor; [cbn [fst snd]; replace (start + (stop - start + 1) - 1) with stop by lia; repeat split; try lia; done|].
      eapply Forall_impl; [exact Fc|]. cbn. intros c (? & ? & ? & ?). repeat split; try lia; done.
Qed.

Lemma chunks_spec first last size aligned : 0 <= first <= last -> last < 256 -> 0 < size < 256 ->
  concat (burst <$> chunks first last size aligned) = seqZ first (last - first + 1) /\
  Forall (fun c => first <= c.1 /\ 1 <= c.2 <= size /\ c.1 + c.2 - 1 <= last /\ (aligned = true -> c.1 / size = (c.1 + c.2 - 1) / size))
    (chunks first last size aligned).
Proof. intros. by apply chunks_from_spec; lia. Qed.

(** ** The synchronisation is right within half a step *)
Lemma icmu_land_low x n : 0 <= n -> Z.land x (Z.shiftl 1 n - 1) = x mod 2 ^ n.
Proof. intros Hn. rewrite Z.shiftl_mul_pow2, Z.mul_1_l by lia. rewrite <- Z.land_ones by lia. by rewrite Z.ones_equiv, Z.sub_1_r. Qed.

(** The angle of the iC-MU within its revolution, in tenths of a degree, less the one the iC-PVL reports. *)
Definition lag (rawPosition st icPvlSync : Z) : Z := (rawPosition mod 2 ^ st * 3600) / 2 ^ st - icPvlSync mod 8 * 450.

Theorem icMuSpoMt_nearest raw st sync : in_u 32 raw -> isIcMuSingleturnBits st = true -> in_u 8 sync ->
  let r := icMuSpoMtRegister raw st sync in
  in_u 8 r /\ r mod 16 = st - 14 /\ exists turns, Z.abs (lag raw st sync - r / 16 * 225 + turns * 3600) <= 112.
Proof.
  intros Hr Hst Hs. unfold icMuSpoMtRegister, lag. unfold isIcMuSingleturnBits, kIcMuMinSingleturnBits, kIcMuMaxSingleturnBits in Hst.
  assert (18 <= st <= 20) as Hb by lia. clear Hst. rewrite icmu_land_low by lia. change (Z.land sync 7) with (Z.land sync (Z.ones 3)). rewrite Z.land_ones by lia.
  change (2 ^ 3) with 8. rewrite Z.shiftr_div_pow2 by lia.
  pose proof (Z.mod_pos_bound raw (2 ^ st) ltac:(apply Z.pow_pos_nonneg; lia)) as Hp. set (a := raw mod 2 ^ st * 3600 / 2 ^ st).
  assert (Ha : 0 <= a < 3600) by (unfold a; split; [apply Z.div_pos; [lia|apply Z.pow_pos_nonneg; lia]|apply Z.div_lt_upper_bound; [apply Z.pow_pos_nonneg; lia|nia]]).
  pose proof (Z.mod_pos_bound sync 8 ltac:(lia)) as Hm. set (b := sync mod 8) in *.
  set (d := if a - b * 450 <? 0 then a - b * 450 + 3600 else a - b * 450).
  assert (Hd : 0 <= d < 3600 /\ exists t, d = a - b * 450 + t * 3600).
  { unfold d. destruct (Z.ltb_spec (a - b * 450) 0); (split; [lia|]); [exists 1|exists 0]; lia. }
  destruct Hd as [Hd [t Et]]. set (q := d / 225 + (if 112 <? d mod 225 then 1 else 0)).
  pose proof (Z.div_mod d 225 ltac:(lia)) as Dm. pose proof (Z.mod_pos_bound d 225 ltac:(lia)) as Rm.
  assert (Hq : 0 <= q <= 16 /\ Z.abs (d - q * 225) <= 112) by (unfold q; destruct (Z.ltb_spec 112 (d mod 225)); lia).
  assert (Hmp : icMuMasterPeriodCount st = st - 14) by (unfold icMuMasterPeriodCount; apply uwrap_id; unfold in_u; lia). rewrite Hmp.
  change 15 with (Z.ones 4). rewrite Z.land_ones by lia. change (2 ^ 4) with 16.
  assert (Hq16 : 0 <= q mod 16 < 16) by (apply Z.mod_pos_bound; lia).
  rewrite Z.lor_comm, (lor_shiftl_add (st - 14) (q mod 16) 4) by (unfold in_u; lia). change (2 ^ 4) with 16. rewrite (Z.mul_comm 16).
  rewrite uwrap_id by (unfold in_u; lia). split; [unfold in_u; lia|]. split; [symmetry; apply (Z.mod_unique_pos _ _ (q mod 16)); lia|].
  assert (((st - 14) + q mod 16 * 16) / 16 = q mod 16) as -> by (symmetry; apply (Z.div_unique_pos _ _ _ (st - 14)); lia).
  pose proof (Z.div_mod q 16 ltac:(lia)). exists (t - q / 16). replace (a - b * 450 - q mod 16 * 225 + (t - q / 16) * 3600) with (d - q * 225) by lia. lia.
Qed.

(** ** The status word *)
Lemma land_bit w b : 0 <= b -> (Z.land w (Z.shiftl 1 b) =? 0) = negb (Z.testbit w b).
Proof.
  intros Hb. rewrite Z.shiftl_mul_pow2, Z.mul_1_l by lia. destruct (Z.testbit w b) eqn:T; cbn [negb].
  - apply Z.eqb_neq. intros E. assert (Z.testbit (Z.land w (2 ^ b)) b = true) as F by (by rewrite Z.land_spec, T, Z.pow2_bits_true by lia). by rewrite E, Z.bits_0 in F.
  - apply Z.eqb_eq, Z.bits_inj'. intros n Hn. rewrite Z.land_spec, Z.bits_0. destruct (decide (n = b)) as [->|Hne]; [by rewrite T|].
    rewrite Z.pow2_bits_false by lia. apply andb_false_r.
Qed.

Lemma status_bit_bit b : bit (status_bit b) = b.
Proof.
  unfold status_bit. destruct (List.find _ _) as [r|] eqn:E.
  - apply List.find_some in E as [_ E]. lia.
  - unfold reservedStatusBit. by repeat case_match.
Qed.

Lemma decode_bits word l : Forall (fun b => 0 <= b) l ->
  bit <$> omap (fun b => if Z.land word (Z.shiftl 1 b) =? 0 then None else Some (status_bit b)) l = filter (fun b => Z.testbit word b = true) l.
Proof.
  induction 1 as [|b l Hb _ IH]; [done|]. cbn [omap list_omap]. rewrite land_bit by done. rewrite filter_cons.
  destruct (Z.testbit word b); cbn [negb]; [rewrite decide_True by done|by rewrite decide_False by done]. rewrite fmap_cons, status_bit_bit. by f_equal.
Qed.

(** One entry for each set bit, lowest first, and the bits make up the word again. *)
Theorem decode_exact word : in_u 32 word ->
  bit <$> decodeIcMuEncoderStatus word = filter (fun b => Z.testbit word b = true) (seqZ 0 32) /\
  foldr (fun r acc => 2 ^ bit r + acc) 0 (decodeIcMuEncoderStatus word) = word.
Proof.
  intros Hw. assert (E : bit <$> decodeIcMuEncoderStatus word = filter (fun b => Z.testbit word b = true) (seqZ 0 32)).
  { apply decode_bits, Forall_forall. intros b Hb%elem_of_seqZ. lia. }
  split; [done|]. assert (F : forall l, foldr (fun r acc => 2 ^ bit r + acc) 0 l = foldr (fun b acc => 2 ^ b + acc) 0 (bit <$> l)) by (induction l as [|r l IH]; [done|cbn; by rewrite IH]).
  rewrite F, E. clear F E. enough (G : forall n, foldr (fun b acc => 2 ^ b + acc) 0 (filter (fun b => Z.testbit word b = true) (seqZ 0 (Z.of_nat n))) = word mod 2 ^ Z.of_nat n).
  { etransitivity; [exact (G 32%nat)|]. apply Z.mod_small, Hw. }
  induction n as [|n IH]; [cbn; by rewrite Z.mod_1_r|]. replace (Z.of_nat (S n)) with (Z.of_nat n + 1) by lia. rewrite seqZ_app by lia. rewrite filter_app, foldr_app.
  assert (A : forall l x, foldr (fun b acc => 2 ^ b + acc) x l = foldr (fun b acc => 2 ^ b + acc) 0 l + x) by (induction l as [|b l IHl]; intros x; [done|cbn; rewrite IHl; lia]).
  rewrite A, IH. rewrite Z.pow_add_r by lia. rewrite Z.rem_mul_r by lia. f_equal. change (2 ^ 1) with 2. rewrite Z.add_0_l. cbn [seqZ]. change (seqZ (Z.of_nat n) 1) with [0 + Z.of_nat n].
  rewrite Z.add_0_l, filter_cons, filter_nil. rewrite <- Z.testbit_spec' by lia. destruct (Z.testbit word (Z.of_nat n)); [rewrite decide_True by done|rewrite decide_False by done]; cbn; lia.
Qed.

(** ** The restore file *)
Lemma restore_entries_zip rs : forall vs, length rs = length vs ->
  (fun e => (entry_address e, entry_value e)) <$> restore_entries (flat_map (fun '(r, v) => [r; v]) (zip rs vs)) = zip rs vs /\
  length (flat_map (fun '(r, v) => [r; v]) (zip rs vs)) = (2 * length rs)%nat.
Proof.
  induction rs as [|r rs IH]; intros [|v vs] E; try done. injection E as E. destruct (IH vs E) as [I1 I2]. cbn [zip zip_with flat_map app restore_entries].
  rewrite fmap_cons, I1. cbn [entry_address entry_value length]. split; [done|]. rewrite I2. lia.
Qed.

(** A file that is written reads back as its registers and their values. *)
Theorem restore_file_roundtrip values : length values = 33%nat -> exists entries,
  parseIcMuRestoreFile (icMuRestoreFile values) = Value entries /\
  (fun e => (entry_address e, entry_value e)) <$> entries = zip icMuRestoreRegisters values.
Proof.
  intros Hl. unfold parseIcMuRestoreFile, icMuRestoreFile. destruct (restore_entries_zip icMuRestoreRegisters values) as [E L]; [by rewrite Hl|].
  rewrite L. eexists. split; [reflexivity|exact E].
Qed.

Lemma find_covers l a r : List.find (fun r => covers r a) l = Some r -> r ∈ l /\ covers r a = true.
Proof. intros [? ?]%List.find_some. by rewrite list_elem_of_In. Qed.

(** The row of an address is the one row of the iC-MU that covers it. *)
Lemma icMuRamRegister_spec a : 0 <= a < 256 ->
  match icMuRamRegister a with
  | Some r => a < 0xB0 /\ filter (fun r => covers r a = true) icMuRows = [r]
  | None => 0xB0 <= a
  end.
Proof.
  intros Ha. pose proof (rows_once a Ha) as Ho. unfold icMuRamRegister, icHausRegisterSpaces, kSpaces. cbn [fold_right space_chip registers].
  assert (Sub : forall r, r ∈ icMuRows -> covers r a = true -> a < 0xB0 /\ filter (fun r => covers r a = true) icMuRows = [r]).
  { intros r Hr Hc. assert (r ∈ filter (fun r => covers r a = true) icMuRows) as Hin by (by apply list_elem_of_filter).
    destruct (filter _ icMuRows) as [|x [|y l]]; [by apply elem_of_nil in Hin| |destruct (a <? 0xB0); cbn in Ho; lia].
    apply list_elem_of_singleton in Hin as ->. destruct (Z.ltb_spec a 0xB0); [done|cbn in Ho; lia]. }
  unfold icMuRows in Sub. setoid_rewrite elem_of_app in Sub.
  destruct (List.find _ kIcMuBank0) eqn:E1; [apply find_covers in E1 as []; eauto|].
  destruct (List.find _ kIcMuStatic) eqn:E2; [apply find_covers in E2 as []; eauto|].
  destruct (Z.ltb_spec a 0xB0); [|done]. exfalso. destruct (filter _ icMuRows) as [|r l] eqn:F; [cbn in Ho; lia|].
  assert (r ∈ filter (fun r => covers r a = true) icMuRows) as [Hc Hr]%list_elem_of_filter by (rewrite F; apply list_elem_of_here).
  apply elem_of_app in Hr as [Hr|Hr]; apply list_elem_of_In in Hr.
  - by rewrite (List.find_none _ _ E1 r Hr) in Hc.
  - by rewrite (List.find_none _ _ E2 r Hr) in Hc.
Qed.

(** ** Calibration registers *)
Definition nibble (x : Z) : Prop := 0 <= x < 16.

Lemma pack_value high low : nibble high -> nibble low -> pack high low = high * 16 + low.
Proof.
  intros Hh Hl. unfold pack, nibble in *. change 15 with (Z.ones 4). rewrite !Z.land_ones by lia. change (2 ^ 4) with 16.
  rewrite !Z.mod_small by lia. rewrite Z.lor_comm, lor_shiftl_add by (unfold in_u; lia). rewrite uwrap_id by (unfold in_u; lia). lia.
Qed.

Lemma pack_unpack high low : nibble high -> nibble low -> Z.land (pack high low) 0x0F = low /\ Z.land (Z.shiftr (pack high low) 4) 0x0F = high.
Proof.
  intros Hh Hl. rewrite pack_value by done. unfold nibble in *. change 15 with (Z.ones 4). rewrite !Z.land_ones, Z.shiftr_div_pow2 by lia. change (2 ^ 4) with 16.
  split; [symmetry; apply (Z.mod_unique_pos _ _ high); lia|]. rewrite <- (Z.div_unique_pos (high * 16 + low) 16 high low) by lia. apply Z.mod_small. lia.
Qed.

(** A table of nonius offsets goes through its eight registers unchanged. *)
Theorem nonius_roundtrip t : nibble (base t) -> length (offsets t) = 15%nat -> Forall nibble (offsets t) ->
  icMuNoniusTableFromRegisters ((icMuNoniusTableWrites t).*2) = t.
Proof.
  destruct t as [b o]. cbn [base offsets]. intros Hb Hl Ho. do 15 (destruct o as [|? o]; [done|]). destruct o; [|done]. clear Hl.
  repeat match goal with H : Forall nibble (_ :: _) |- _ => inversion_clear H end.
  unfold icMuNoniusTableFromRegisters, icMuNoniusTableWrites. cbn -[Z.land Z.shiftr pack uwrap].
  repeat match goal with |- context [pack ?h ?l] => rewrite (proj1 (pack_unpack h l ltac:(done) ltac:(done))), (proj2 (pack_unpack h l ltac:(done) ltac:(done))) end.
  reflexivity.
Qed.

Lemma phase_roundtrip p : 0 <= phase p < 128 -> 0 <= phaseRange p < 2 -> icMuPhaseFromRegister (icMuPhaseRegister p) = p /\ in_u 8 (icMuPhaseRegister p).
Proof.
  destruct p as [p r]. cbn [phase phaseRange]. intros Hp Hr. unfold icMuPhaseFromRegister, icMuPhaseRegister. cbn [phase phaseRange].
  change 127 with (Z.ones 7). change 1 with (Z.ones 1). rewrite !Z.land_ones by lia. change (2 ^ 7) with 128. change (2 ^ 1) with 2. rewrite (Z.mod_small r), (Z.mod_small p) by lia.
  rewrite Z.lor_comm, lor_shiftl_add by (unfold in_u; lia). change (2 ^ 7) with 128. rewrite uwrap_id by (unfold in_u; lia). split; [|unfold in_u; lia]. f_equal.
  - symmetry. apply (Z.mod_unique_pos _ _ r); lia.
  - rewrite Z.shiftr_div_pow2 by lia. change (2 ^ 7) with 128. rewrite <- (Z.div_unique_pos (p + 128 * r) 128 r p) by lia. apply Z.mod_small. lia.
Qed.

Lemma phase_register_roundtrip v : in_u 8 v -> icMuPhaseRegister (icMuPhaseFromRegister v) = v.
Proof.
  intros Hv%in_bytes. assert (forallb (fun v => icMuPhaseRegister (icMuPhaseFromRegister v) =? v) all_bytes = true) as H by (vm_compute; reflexivity).
  rewrite forallb_forall in H. specialize (H v Hv). lia.
Qed.

(** ** What a configuration writes *)
Definition calibration_registers : list Z := icMuAnalogRegisters kMaster ++ icMuAnalogRegisters kNonius.

(** Every configuration register is either written once or belongs to the calibration. *)
Lemma ram_writes_partition c a : 0 <= a <= 0x18 ->
  (count_occ Z.eq_dec ((icMuRamWrites c).*1) a + count_occ Z.eq_dec calibration_registers a = 1)%nat.
Proof.
  intros Ha. assert (forallb (fun a => (count_occ Z.eq_dec ((icMuRamWrites (mk_configuration kSingleturn 18 0 false 0)).*1) a + count_occ Z.eq_dec calibration_registers a =? 1)%nat) (seqZ 0 25) = true) as H
    by (vm_compute; reflexivity).
  rewrite forallb_forall in H. specialize (H a ltac:(apply list_elem_of_In, elem_of_seqZ; lia)). by apply Nat.eqb_eq in H.
Qed.

(** Register 0x11 carries OUT_ZERO in its upper bits: the output word fits the five bits below when it has at most 45 bits. *)
Lemma out_msb_fits path st mt : isIcMuSingleturnBits st = true -> 0 <= mt <= 45 - st -> icMuOutMsb path st mt < 32.
Proof.
  unfold isIcMuSingleturnBits, kIcMuMinSingleturnBits, kIcMuMaxSingleturnBits, icMuOutMsb. intros Hs Hm. cbv zeta.
  destruct (is_multiturn path); rewrite (uwrap_id 8 (_ + _)) || rewrite (uwrap_id 8 st); try (unfold in_u; lia); rewrite uwrap_id by (unfold in_u; lia); lia.
Qed.
Lemma out_msb_overflows : icMuOutMsb kMultiturn 20 26 = 32.
Proof. reflexivity. Qed.
End IcMu.
