(* ===== verification/IcMuMotion.v ===== *)
(** * How an axis moves for a calibration ([libs/node/ic_mu_calibration.{h,cc}])

    Start values, pass tests, the motion of a calibration run and what a recording covers. Doubles are the
    IEEE numbers of the standard library's [SpecFloat], rounded at every operation as the code rounds. *)

From Stdlib Require Import Floats.SpecFloat.
From S2P Require Import Prelude Util IcMu.

Module IcMuMotion.
Import IcMu.

(** ** Doubles *)
Definition double : Type := spec_float.
Definition of_int (z : Z) : double := binary_normalize 53 1024 z 0 false.
Definition add (x y : double) : double := SFadd 53 1024 x y.
Definition sub (x y : double) : double := SFsub 53 1024 x y.
Definition mul (x y : double) : double := SFmul 53 1024 x y.
Definition div (x y : double) : double := SFdiv 53 1024 x y.
Definition sqrt (x : double) : double := SFsqrt 53 1024 x.
Definition lt (x y : double) : bool := SFltb x y.
Definition le (x y : double) : bool := SFleb x y.
(** A literal: the double next to [n / d]. *)
Definition lit (n d : Z) : double := div (of_int n) (of_int d).
(** [std::max(x, y)]. *)
Definition max (x y : double) : double := if lt x y then y else x.

(** [std::abs(std::round(x))] as a whole number; nothing for an infinity or NaN, which no limit admits. *)
Definition roundedAbs (x : double) : option Z :=
  match x with
  | S754_zero _ => Some 0
  | S754_finite _ m e => Some (if 0 <=? e then Z.pos m * 2 ^ e else (Z.pos m + 2 ^ (- e - 1)) / 2 ^ (- e))
  | _ => None
  end.
Definition rounds_within (x : double) (limit : Z) : bool := match roundedAbs x with Some z => z <=? limit | None => false end.

Example rounds : (roundedAbs (lit 14 10), roundedAbs (lit (-16) 10), roundedAbs (lit 5 2), roundedAbs (lit 1 3)) = (Some 1, Some 2, Some 3, Some 0).
Proof. vm_compute. reflexivity. Qed.

(** ** Start values *)
Inductive IcMuRingPosition := kInner | kOuter.
#[export] Instance IcMuRingPosition_eq_dec : EqDecision IcMuRingPosition.
Proof. solve_decision. Defined.
Definition ring_name (p : IcMuRingPosition) : string := match p with kInner => "inner" | kOuter => "outer" end.
Definition parseIcMuRingPosition (token : string) : option IcMuRingPosition := List.find (fun p => String.eqb token (ring_name p)) [kInner; kOuter].
Definition icMuRingPositionOfPort (port : Z) : option IcMuRingPosition := if port =? 1 then Some kInner else if port =? 2 then Some kOuter else None.

Inductive IcMuPartClass := kIcMu128 | kIcMu150Or200.
#[export] Instance IcMuPartClass_eq_dec : EqDecision IcMuPartClass.
Proof. solve_decision. Defined.
Definition icMuPartClass (rev : Z) : option IcMuPartClass :=
  match icMuPartName rev with
  | Some part => if String.eqb part "iC-MU128" then Some kIcMu128
                 else if String.eqb part "iC-MU150" || String.eqb part "iC-MU200" then Some kIcMu150Or200 else None
  | None => None
  end.

Record IcMuStartValues := mk_values {
  masterPhase : Z; noniusPhase : Z; motorShaftRingVelocityRpm : double; motorShaftLowVelocityRpm : double; drivingShaftLowVelocityRpm : double; measured : bool }.
Record StartValueRow := mk_row { row_polePairs : Z; row_position : IcMuRingPosition; row_part : IcMuPartClass; row_values : IcMuStartValues }.
Definition kStartValueRows : list StartValueRow := [
  mk_row 32 kInner kIcMu150Or200 (mk_values 0x00 0x00 (of_int 90) (of_int 70) (lit 11 10) true);
  mk_row 32 kOuter kIcMu150Or200 (mk_values 0x3F 0x3F (of_int 90) (of_int 70) (lit 11 10) true);
  mk_row 64 kInner kIcMu150Or200 (mk_values 0x4D 0x48 (of_int 45) (of_int 50) (lit 11 10) true);
  mk_row 64 kOuter kIcMu150Or200 (mk_values 0x21 0x1A (of_int 45) (of_int 50) (lit 11 10) true);
  mk_row 16 kInner kIcMu150Or200 (mk_values 0x00 0x00 (of_int 90) (of_int 70) (lit 11 10) false);
  mk_row 32 kInner kIcMu128 (mk_values 0x00 0x00 (of_int 90) (of_int 70) (lit 11 10) false)].
Definition icMuStartValues (polePairs : Z) (p : IcMuRingPosition) (c : IcMuPartClass) : option IcMuStartValues :=
  match List.find (fun r => (row_polePairs r =? polePairs) && bool_decide (row_position r = p) && bool_decide (row_part r = c)) kStartValueRows with
  | Some r => Some (row_values r) | None => None end.

Definition kIcMuDrivingShaftRingVelocityRpm : double := of_int 15.
Definition icMuDefaultRingVelocity (v : IcMuStartValues) (shaft : EncoderShaft) : double :=
  match shaft with kDriving => kIcMuDrivingShaftRingVelocityRpm | kMotor => motorShaftRingVelocityRpm v end.

Definition icMuStartWrites (v : IcMuStartValues) : list IcMuRegisterWrite :=
  let master i := nth i (icMuAnalogRegisters kMaster) 0 in
  let nonius i := nth i (icMuAnalogRegisters kNonius) 0 in
  [(master 3%nat, masterPhase v); (nonius 3%nat, noniusPhase v); (master 1%nat, 0x00); (nonius 1%nat, 0x00);
   (master 2%nat, 0x00); (nonius 2%nat, 0x00); (master 0%nat, 0x00); (nonius 0%nat, 0x00)] ++ icMuNoniusTableWrites (mk_table 0 (replicate 15 0)).

(** ** When a run passes *)
Definition icMuTolerance (iteration : Z) : Z := if iteration <=? 5 then 1 else if iteration <=? 9 then 3 else 5.
Record IcMuTrackResidual := mk_residual { res_sine : double; res_cosine : double; res_gain : double; res_phase : double; res_range : Z }.
Definition icMuTrackPasses (t : IcMuTrack) (r : IcMuTrackResidual) (tolerance : Z) : bool :=
  if 1 <? res_range r then false
  else
    let step := match t with kMaster => if res_range r =? 0 then of_int 1 else of_int 2 | kNonius => if res_range r =? 0 then of_int 3 else of_int 5 end in
    rounds_within (res_sine r) tolerance && rounds_within (res_cosine r) tolerance && rounds_within (res_gain r) tolerance &&
    rounds_within (div (res_phase r) step) (Z.max tolerance 1).

Inductive IcMuMarginBand := kRobust | kSmallDisplacements | kAvoidDisplacements | kTooHigh.
Definition icMuMarginBand (margin : double) : IcMuMarginBand :=
  if le (of_int 50) margin then kRobust else if le (of_int 30) margin then kSmallDisplacements
  else if le (of_int 10) margin then kAvoidDisplacements else kTooHigh.

(** ** Motion. Durations are in milliseconds. *)
Definition seconds (ms : Z) : double := div (of_int ms) (of_int 1000).
Definition revolutions (degrees : double) : double := div degrees (of_int 360).
Definition kIcMuStandardRecording : Z := 6000.
Definition kIcMuLongestRecording : Z := 10000.
Definition kIcMuRingOverlapDegrees : double := of_int 5.
Definition kMotorAccelerationRpmPerSecond : double := of_int 1000.
Definition kMaxSpeedShare : double := lit 95 100.
Definition kMinDrivingShaftVelocityRpm : double := of_int 10.
Definition kMinRangeDegrees : double := of_int 20.
Definition kLimitMarginDegrees : double := of_int 3.
Definition kStartToleranceDegrees : double := of_int 1.

Definition icMuMoveRevolutions (velocity acceleration : double) (constant : Z) : double :=
  add (div (mul velocity velocity) (mul (of_int 60) acceleration)) (div (mul velocity (seconds constant)) (of_int 60)).
Definition icMuVelocityForMove (travel acceleration : double) (constant : Z) : double :=
  let at_ := mul acceleration (seconds constant) in
  div (add (SFopp at_) (sqrt (add (mul at_ at_) (mul (mul (of_int 240) acceleration) travel)))) (of_int 2).
Definition icMuRingTurnsPerRevolution (shaft : EncoderShaft) (gear : double) : double := match shaft with kMotor => gear | kDriving => of_int 1 end.

Inductive Warning := MaximumSpeedTooLow | RangeTooNarrow.
Inductive MotionError := DrivingShaftTooSlow (maxVelocity : double) | RingTooSlow (velocity minimum : double) | LimitsTooClose (range : double) | RangeTooShort (missing : double).

Record IcMuMotionInput := mk_input {
  gearRatio : double; maxMotorSpeedRpm : double; shaft : EncoderShaft; ringVelocityRpm : double; lowVelocityRpm : double;
  positionRevolutions : double; limitRevolutions : option (double * double) }.
Record IcMuMotionPlan := mk_plan {
  velocityRpm : double; accelerationRpmPerSecond : double; recording : Z; startRevolutions : option double; limitedRange : bool; warnings : list Warning }.

(** [std::ceil] of the missing degrees is only printed. *)
Fixpoint try_recordings (l : list Z) (travel acceleration turns required low : double) : option IcMuMotionPlan :=
  match l with
  | [] => None
  | r :: l =>
      let velocity := icMuVelocityForMove travel acceleration r in
      if le required (div (mul velocity (seconds r)) (of_int 60))
      then Some (mk_plan velocity acceleration r None true (if lt (mul velocity turns) low then [RangeTooNarrow] else []))
      else try_recordings l travel acceleration turns required low
  end.

Definition planIcMuNarrowRange (travel acceleration turns low : double) : expected MotionError IcMuMotionPlan :=
  let required := div (add (of_int 1) (revolutions kIcMuRingOverlapDegrees)) turns in
  match try_recordings [kIcMuStandardRecording; kIcMuLongestRecording] travel acceleration turns required low with
  | Some plan => Value plan
  | None =>
      let secs := seconds kIcMuLongestRecording in
      let minimumVelocity := div (mul (of_int 60) required) secs in
      let needed := add required (div (mul minimumVelocity minimumVelocity) (mul (of_int 60) acceleration)) in
      Unexpected (RangeTooShort (mul (sub needed travel) (of_int 360)))
  end.

(** The lambda [cap]. *)
Definition cap (maxVelocity : double) (p : IcMuMotionPlan) : IcMuMotionPlan :=
  if lt maxVelocity (velocityRpm p)
  then mk_plan maxVelocity (accelerationRpmPerSecond p) (recording p) (startRevolutions p) (limitedRange p) (warnings p ++ [MaximumSpeedTooLow])
  else p.
Definition with_recording (p : IcMuMotionPlan) (r : Z) : IcMuMotionPlan :=
  mk_plan (velocityRpm p) (accelerationRpmPerSecond p) r (startRevolutions p) (limitedRange p) (warnings p).
Definition with_start (p : IcMuMotionPlan) (s : double) : IcMuMotionPlan :=
  mk_plan (velocityRpm p) (accelerationRpmPerSecond p) (recording p) (Some s) (limitedRange p) (warnings p).
Definition with_warnings (p : IcMuMotionPlan) (w : list Warning) : IcMuMotionPlan :=
  mk_plan (velocityRpm p) (accelerationRpmPerSecond p) (recording p) (startRevolutions p) (limitedRange p) w.

Definition maxVelocity (i : IcMuMotionInput) : double := div (mul kMaxSpeedShare (maxMotorSpeedRpm i)) (max (gearRatio i) (of_int 1)).

(** The recording that turns the ring far enough, or the velocity that would. *)
Definition choose_recording (turns : double) (p : IcMuMotionPlan) : expected MotionError IcMuMotionPlan :=
  let required := add (of_int 1) (revolutions kIcMuRingOverlapDegrees) in
  let ringTurns r := div (mul (mul (velocityRpm p) turns) (seconds r)) (of_int 60) in
  if lt (ringTurns (recording p)) required then
    if lt (ringTurns kIcMuLongestRecording) required
    then Unexpected (RingTooSlow (mul (velocityRpm p) turns) (div (mul (of_int 60) required) (seconds kIcMuLongestRecording)))
    else Value (with_recording p kIcMuLongestRecording)
  else Value p.

(** Where the move starts, between the limits. *)
Definition place_between (i : IcMuMotionInput) (turns travel lower upper : double) (p : IcMuMotionPlan) : expected MotionError IcMuMotionPlan :=
  let margin := revolutions kLimitMarginDegrees in
  let tolerance := revolutions kStartToleranceDegrees in
  if le travel (sub upper lower) then
    let start := sub (sub upper margin) travel in
    Value (if lt (add start tolerance) (positionRevolutions i) then with_start p start else p)
  else
    let start := add lower margin in
    match planIcMuNarrowRange (sub (sub upper margin) start) (mul (accelerationRpmPerSecond p) (of_int 4)) turns (lowVelocityRpm i) with
    | Unexpected e => Unexpected e
    | Value narrow =>
        let plan := with_warnings narrow (warnings p ++ warnings narrow) in
        let plan := if lt tolerance (SFabs (sub (positionRevolutions i) start)) then with_start plan start else plan in
        Value (cap (maxVelocity i) plan)
    end.

Definition planIcMuMotion (i : IcMuMotionInput) : expected MotionError IcMuMotionPlan :=
  let gear := max (gearRatio i) (of_int 1) in
  let turns := icMuRingTurnsPerRevolution (shaft i) gear in
  if match shaft i with kDriving => le (maxVelocity i) kMinDrivingShaftVelocityRpm | kMotor => false end then Unexpected (DrivingShaftTooSlow (maxVelocity i))
  else
    let plan := cap (maxVelocity i) (mk_plan (div (ringVelocityRpm i) turns) (div kMotorAccelerationRpmPerSecond gear) kIcMuStandardRecording None false []) in
    match choose_recording turns plan with
    | Unexpected e => Unexpected e
    | Value plan =>
        let travel := icMuMoveRevolutions (velocityRpm plan) (accelerationRpmPerSecond plan) (recording plan) in
        match limitRevolutions i with
        | None => Value plan
        | Some (lower, upper) =>
            if le (add (positionRevolutions i) travel) upper then Value plan
            else if lt (sub upper lower) (revolutions kMinRangeDegrees) then Unexpected (LimitsTooClose (mul (sub upper lower) (of_int 360)))
            else place_between i turns travel lower upper plan
        end
    end.

(** ** What was recorded *)
Definition kCountsPerPeriod : Z := 2 ^ 14.
(** The way from one count of the master track to the next, the short way round. *)
Definition count_step (previous next : Z) : Z :=
  let step := next - previous in
  if kCountsPerPeriod / 2 <=? step then step - kCountsPerPeriod else if step <? - (kCountsPerPeriod / 2) then step + kCountsPerPeriod else step.
Fixpoint travelled (previous : Z) (l : list Z) : Z := match l with [] => 0 | c :: l => count_step previous c + travelled c l end.
(** The master counts of the samples. *)
Definition icMuRecordedRingRevolutions (samples : list Z) (polePairs : Z) : double :=
  match samples with
  | [] => of_int 0
  | c :: l => if polePairs =? 0 then of_int 0 else div (of_int (Z.abs (travelled c l))) (of_int (kCountsPerPeriod * polePairs))
  end.
Definition icMuCoverageWarning (recorded : double) : option (double * double) :=
  let degrees := mul recorded (of_int 360) in
  if lt (sub (of_int 360) degrees) (of_int 1) then None else Some (degrees, sub (of_int 360) degrees).
Definition icMuCalibrationSamples {A} (samples : list A) (recording : Z) : list A :=
  if (Z.to_nat recording <? length samples)%nat then take (Z.to_nat recording) samples else samples.

Fixpoint until_plus (s : Util.text) : Util.text := match s with [] => [] | c :: s => if c =? 43 then [] else c :: until_plus s end.
Definition icMuRecordingFirmwareError (version : Util.text) : option Util.text :=
  let bare := until_plus (match version with 118 :: rest => rest | _ => version end) in
  if bool_decide (bare = txt "5.4.0-rc.2") || bool_decide (bare = txt "5.4.0-rc.3") then Some version else None.

(** ** Theorems *)
Lemma lt_irrefl x : lt x x = false.
Proof.
  unfold lt, SFltb. destruct x as [[]|[]| |[] m e]; try done; cbn [SFcompare]; rewrite Z.compare_refl; unfold Pcompare in *; rewrite ?Pos.compare_cont_refl; done.
Qed.

Lemma cap_slow v p : lt v (velocityRpm (cap v p)) = false.
Proof. unfold cap. destruct (lt v (velocityRpm p)) eqn:E; [apply lt_irrefl|exact E]. Qed.

Lemma choose_velocity turns p q : choose_recording turns p = Value q -> velocityRpm q = velocityRpm p.
Proof. unfold choose_recording. intros E. by repeat case_match; simplify_eq. Qed.

Lemma place_slow i turns travel lower upper q p : lt (maxVelocity i) (velocityRpm q) = false -> place_between i turns travel lower upper q = Value p ->
  lt (maxVelocity i) (velocityRpm p) = false.
Proof.
  intros Q E. unfold place_between in E. cbv zeta in E. destruct (le travel _).
  - injection E as <-. by destruct (lt _ (positionRevolutions i)).
  - destruct (planIcMuNarrowRange _ _ _ _) as [n|]; [|discriminate]. injection E as <-. apply cap_slow.
Qed.

(** No plan moves the axis faster than the share of the motor's maximum speed. *)
Theorem plan_speed i p : planIcMuMotion i = Value p -> lt (maxVelocity i) (velocityRpm p) = false.
Proof.
  unfold planIcMuMotion. cbv zeta. intros E. destruct (match shaft i with kDriving => _ | kMotor => _ end); [discriminate|].
  destruct (choose_recording _ _) as [q|] eqn:C; [|discriminate]. apply choose_velocity in C.
  assert (Q : lt (maxVelocity i) (velocityRpm q) = false) by (rewrite C; apply cap_slow). clear C.
  destruct (limitRevolutions i) as [[lower upper]|]; [|by injection E as <-]. destruct (le _ upper); [by injection E as <-|].
  destruct (lt _ (revolutions kMinRangeDegrees)); [discriminate|]. by eapply place_slow.
Qed.

(** A move that fits between the limits, but not with the margin, is started outside them: 9.135 revolutions between 0 and 9.14. *)
Theorem start_outside : exists i p start, planIcMuMotion i = Value p /\ limitRevolutions i = Some (of_int 0, lit 914 100) /\
  lt (of_int 0) (positionRevolutions i) = true /\ startRevolutions p = Some start /\ lt start (of_int 0) = true.
Proof.
  exists (mk_input (of_int 1) (of_int 3000) kMotor (of_int 90) (of_int 70) (of_int 5) (Some (of_int 0, lit 914 100))). eexists. eexists.
  split; [vm_compute; reflexivity|]. split; [reflexivity|]. split; [vm_compute; reflexivity|]. split; [reflexivity|]. vm_compute. reflexivity.
Qed.

(** *** Unwrapping the master track *)
Lemma count_step_exact p q : - 8192 <= q - p < 8192 -> count_step (p mod kCountsPerPeriod) (q mod kCountsPerPeriod) = q - p.
Proof.
  intros H. unfold count_step, kCountsPerPeriod. change (2 ^ 14 / 2) with 8192. change (2 ^ 14) with 16384.
  pose proof (Z.div_mod p 16384 ltac:(lia)). pose proof (Z.div_mod q 16384 ltac:(lia)). pose proof (Z.mod_pos_bound p 16384 ltac:(lia)). pose proof (Z.mod_pos_bound q 16384 ltac:(lia)).
  destruct (Z.leb_spec 8192 (q mod 16384 - p mod 16384)); [lia|].
  case_match; lia.
Qed.

(** Samples taken less than half a period apart give the way between the first and the last, whatever happened between. *)
Theorem travelled_exact p l q : (forall i a b, (p :: l) !! i = Some a -> (p :: l) !! S i = Some b -> - 8192 <= b - a < 8192) -> last (p :: l) = Some q ->
  travelled (p mod kCountsPerPeriod) ((fun x => x mod kCountsPerPeriod) <$> l) = q - p.
Proof.
  revert p. induction l as [|x l IH]; intros p Hs Hl; [injection Hl as <-; cbn; lia|]. cbn [fmap list_fmap travelled]. rewrite count_step_exact by (by apply (Hs 0%nat)).
  rewrite (IH x); [lia| |done]. intros i a b Ha Hb. exact (Hs (S i) a b Ha Hb).
Qed.

(** *** Passing *)
Lemma rounds_weaken x a b : a <= b -> rounds_within x a = true -> rounds_within x b = true.
Proof. unfold rounds_within. destruct (roundedAbs x); [|done]. lia. Qed.

(** What passes keeps passing as a run goes on. *)
Theorem passes_later t r i j : i <= j -> icMuTrackPasses t r (icMuTolerance i) = true -> icMuTrackPasses t r (icMuTolerance j) = true.
Proof.
  intros Hij. assert (icMuTolerance i <= icMuTolerance j) as H by (unfold icMuTolerance; repeat case_match; lia).
  unfold icMuTrackPasses. destruct (1 <? res_range r); [done|]. rewrite !andb_true_iff. intros [[[? ?] ?] ?].
  repeat split; (eapply rounds_weaken; [|eassumption]); lia.
Qed.
End IcMuMotion.
