(* ===== verification/Monitoring.v ===== *)
(** * MonitoringManager ([libs/node/monitoring_manager.{h,cc}])

    Client-defined streams of process data: registrations by topic, the flush that turns every recorded
    cycle since the last one into a row, the classification of each object as process data or background
    SDO poll and its renewal after a re-map, and the handling of a flush that runs without the lock.
    What the device manager answers during one flush is a record of answers, free to be anything. *)

From stdpp Require Import sorting.
From S2P Require Import Prelude Util ProcessBits ProcessDataRing Refresher DeviceParameter.

Module Monitoring.
Import Param.

Definition kNotificationTopic : text := codes "notifications".

Record MonitoredParameter := mk_monitored { mp_devicePosition : Z; mp_index : Z; mp_subindex : Z }.
Record Monitoring := mk_monitoring { topic : text; interval : Z; parameters : list MonitoredParameter }.

Record PdoSampleSpec := mk_spec { isOutput : bool; bitOffset : Z; bitLength : Z; sp_dataType : Z }.
Inductive Source := Pdo | Sdo.
Record ParamPlan := mk_plan { devicePosition : Z; index : Z; subindex : Z; source : Source; pdoSpec : option PdoSampleSpec }.

Record Entry := mk_entry {
  config : Monitoring; plans : list ParamPlan; epoch : Z; cursor : Z; cursorPrimed : bool; imageGeneration : Z; nextDue : Z }.
Record FlushState := mk_flush {
  f_topic : text; f_epoch : Z; f_interval : Z; f_plans : list ParamPlan; f_cursor : Z; f_cursorPrimed : bool; f_imageGeneration : Z }.

(** [mutex_] guards the entries and the epoch; the refresher has its own mutex. *)
Record manager := mk_manager { entries : gmap text Entry; nextEpoch : Z; refresher : Refresher.state }.

Definition set_refresher (m : manager) (r : Refresher.state) : manager := mk_manager (entries m) (nextEpoch m) r.

Inductive MonitoringError :=
  | InvalidTopic | ReservedTopic | InvalidInterval | NoParameters | NotSourceable (p : MonitoredParameter) | AlreadyExists.

(** What the device manager answers; every question is asked at most once per object in one flush. *)
Record view := mk_view {
  v_generation : Z;                                         (* processImageGeneration *)
  v_spec : Z -> Z -> Z -> option PdoSampleSpec;             (* pdoSampleSpec *)
  v_value : Z -> Z -> Z -> option DeviceParameterValue;     (* deviceAt and parameterValue *)
  v_exchanging : Z -> bool;                                 (* deviceExchangesProcessData *)
  v_head : Z;                                               (* recorderHead *)
  v_oldest : Z;                                             (* recorderOldestSeq *)
  v_record : Z -> option Ring.Record_ }.                    (* readRecord *)

(** ** Creating and removing *)
Definition validate (c : Monitoring) : option MonitoringError :=
  if negb (Util.isUrlSafeId (topic c)) then Some InvalidTopic
  else if bool_decide (topic c = kNotificationTopic) then Some ReservedTopic
  else if (interval c <? 5) || (2000 <? interval c) then Some InvalidInterval
  else match parameters c with [] => Some NoParameters | _ => None end.

Definition classify (v : view) (p : MonitoredParameter) : option ParamPlan :=
  match v_spec v (mp_devicePosition p) (mp_index p) (mp_subindex p) with
  | Some spec => Some (mk_plan (mp_devicePosition p) (mp_index p) (mp_subindex p) Pdo (Some spec))
  | None =>
      match v_value v (mp_devicePosition p) (mp_index p) (mp_subindex p) with
      | Some _ => Some (mk_plan (mp_devicePosition p) (mp_index p) (mp_subindex p) Sdo None)
      | None => None
      end
  end.

(** The loop over the parameters. [look p] is what is answered for [p]; [retry p] what is answered after the object dictionary
    of its device was read, which is done when the device is there and had no parameters yet. *)
Fixpoint plan_all (look : MonitoredParameter -> view) (retry : MonitoredParameter -> option view) (ps : list MonitoredParameter)
    : expected MonitoringError (list ParamPlan) :=
  match ps with
  | [] => Value []
  | p :: ps' =>
      let plan := match classify (look p) p with
        | Some plan => Some plan
        | None => match retry p with Some v => classify v p | None => None end
        end in
      match plan with
      | None => Unexpected (NotSourceable p)
      | Some plan => match plan_all look retry ps' with Value l => Value (plan :: l) | Unexpected e => Unexpected e end
      end
  end.

Definition acquire_plan (interval : Z) (p : ParamPlan) (r : Refresher.state) : Refresher.state :=
  Refresher.acquire (devicePosition p) (index p) (subindex p) interval r.
Definition release_plan (p : ParamPlan) (r : Refresher.state) : Refresher.state :=
  Refresher.release (devicePosition p) (index p) (subindex p) r.
Definition is_sdo (p : ParamPlan) : bool := match source p with Sdo => true | Pdo => false end.

(** The rest of [create], under the lock; [generation] is what is answered there. *)
Definition register (c : Monitoring) (ps : list ParamPlan) (generation : Z) (m : manager) : manager * expected MonitoringError unit :=
  match entries m !! topic c with
  | Some _ => (m, Unexpected AlreadyExists)
  | None =>
      let r := foldl (fun r p => if is_sdo p then acquire_plan (interval c) p r else r) (refresher m) ps in
      let entry := mk_entry c ps (nextEpoch m) 0 false generation 0 in
      (mk_manager (<[topic c := entry]> (entries m)) (u64 (nextEpoch m + 1)) r, Value tt)
  end.

Definition create (c : Monitoring) (look : MonitoredParameter -> view) (retry : MonitoredParameter -> option view) (generation : Z)
    (m : manager) : manager * expected MonitoringError unit :=
  match validate c with
  | Some e => (m, Unexpected e)
  | None =>
      match plan_all look retry (parameters c) with
      | Unexpected e => (m, Unexpected e)
      | Value ps => register c ps generation m
      end
  end.

Definition remove (t : text) (m : manager) : manager * bool :=
  match entries m !! t with
  | None => (m, false)
  | Some e =>
      let r := foldl (fun r p => if is_sdo p then release_plan p r else r) (refresher m) (plans e) in
      (mk_manager (delete t (entries m)) (nextEpoch m) r, true)
  end.

Definition keepFresh (pos idx sub period : Z) (m : manager) : manager := set_refresher m (Refresher.acquire pos idx sub period (refresher m)).
Definition stopKeepingFresh (pos idx sub : Z) (m : manager) : manager := set_refresher m (Refresher.release pos idx sub (refresher m)).

(** ** One flush *)
(** The order of [std::map<std::string, Entry>]. *)
Fixpoint text_le (a b : text) : bool :=
  match a, b with
  | [], _ => true
  | _ :: _, [] => false
  | x :: a', y :: b' => if x <? y then true else if y <? x then false else text_le a' b'
  end.
Definition by_topic : relation (text * Entry) := fun a b => text_le a.1 b.1 = true.
#[local] Instance by_topic_dec a b : Decision (by_topic a b).
Proof. unfold by_topic; apply _. Defined.

Definition is_due (now : Z) (forceAll : bool) (e : Entry) : bool := forceAll || (nextDue e <=? now).

Definition flush_of (t : text) (e : Entry) : FlushState :=
  mk_flush t (epoch e) (interval (config e)) (plans e) (cursor e) (cursorPrimed e) (imageGeneration e).

Definition reschedule (now : Z) (forceAll : bool) (e : Entry) : Entry :=
  if is_due now forceAll e
  then mk_entry (config e) (plans e) (epoch e) (cursor e) (cursorPrimed e) (imageGeneration e) (now + interval (config e)) else e.

Definition takeDue (now : Z) (forceAll : bool) (m : manager) : manager * list FlushState :=
  (mk_manager (reschedule now forceAll <$> entries m) (nextEpoch m) (refresher m),
   (fun p => flush_of p.1 p.2) <$> List.filter (fun p => is_due now forceAll p.2) (merge_sort by_topic (map_to_list (entries m)))).

(** One plan against the image now published. *)
Definition recapture_plan (v : view) (interval : Z) (p : ParamPlan) (r : Refresher.state) : ParamPlan * Refresher.state :=
  let spec := v_spec v (devicePosition p) (index p) (subindex p) in
  let mk := mk_plan (devicePosition p) (index p) (subindex p) in
  match spec, source p with
  | Some _, Pdo => (mk Pdo spec, r)
  | None, Sdo => (mk Sdo spec, r)
  | None, Pdo => (mk Sdo None, acquire_plan interval p r)
  | Some _, Sdo => (mk Pdo spec, release_plan p r)
  end.

Fixpoint recapture_plans (v : view) (interval : Z) (ps : list ParamPlan) (r : Refresher.state) : list ParamPlan * Refresher.state :=
  match ps with
  | [] => ([], r)
  | p :: ps' =>
      let '(p, r) := recapture_plan v interval p r in
      let '(ps', r) := recapture_plans v interval ps' r in (p :: ps', r)
  end.

Definition recaptureIfRemapped (v : view) (f : FlushState) (r : Refresher.state) : FlushState * Refresher.state :=
  if v_generation v =? f_imageGeneration f then (f, r)
  else let '(ps, r) := recapture_plans v (f_interval f) (f_plans f) r in
       (mk_flush (f_topic f) (f_epoch f) (f_interval f) ps (f_cursor f) (f_cursorPrimed f) (v_generation v), r).

Record Sample := mk_sample { timestampUs : Z; values : list (option DeviceParameterValue) }.

Definition sample_value (v : view) (rec : Ring.Record_) (p : ParamPlan) : option DeviceParameterValue :=
  if v_exchanging v (devicePosition p) then
    match source p with
    | Pdo =>
        match pdoSpec p with
        | None => None
        | Some spec =>
            let region := if isOutput spec then Ring.outputs rec else Ring.inputs rec in
            match decodeSdoBytes (sp_dataType spec) (Bits.extractBits region (bitOffset spec) (bitLength spec)) with
            | Value x => Some x
            | Unexpected _ => None
            end
        end
    | Sdo => v_value v (devicePosition p) (index p) (subindex p)
    end
  else None.

Definition sample_of (v : view) (ps : list ParamPlan) (rec : Ring.Record_) : Sample :=
  mk_sample (Ring.timestampNs rec / 1000) (sample_value v rec <$> ps).

(** The most rows a vector of 32-byte samples can hold; reserving more throws. *)
Definition kMaxRows : Z := 2 ^ 58.

(** The sequence numbers of [for (seq = from; seq != head; ++seq)]. *)
Definition span (from head : Z) : list Z := (fun i => u64 (from + i)) <$> seqZ 0 (u64 (head - from)).

Inductive outcome := Quiet | Thrown | Batch (from : Z) (rows : list Sample).

(** [flushDetached], with the rows it publishes and where they start. *)
Definition flushDetached (v : view) (f : FlushState) (r : Refresher.state) : FlushState * Refresher.state * outcome :=
  let '(f, r) := recaptureIfRemapped v f r in
  let head := v_head v in
  let with_cursor c := mk_flush (f_topic f) (f_epoch f) (f_interval f) (f_plans f) c true (f_imageGeneration f) in
  if negb (f_cursorPrimed f) then (with_cursor head, r, Quiet)
  else if head =? f_cursor f then (f, r, Quiet)
  else
    let from := if (f_cursor f <? v_oldest v) || (head <? f_cursor f) then v_oldest v else f_cursor f in
    if kMaxRows <=? u64 (head - from) then (with_cursor from, r, Thrown)
    else (with_cursor head, r, Batch from (omap (fun s => sample_of v (f_plans f) <$> v_record v s) (span from head))).

Definition commitFlush (f : FlushState) (m : manager) : manager :=
  match entries m !! f_topic f with
  | None => m
  | Some e =>
      if negb (epoch e =? f_epoch f) then m
      else mk_manager (<[f_topic f := mk_entry (config e) (f_plans f) (epoch e) (f_cursor f) (f_cursorPrimed f) (f_imageGeneration f) (nextDue e)]>
             (entries m)) (nextEpoch m) (refresher m)
  end.

(** ** Clients, the recorder and the sampler thread

    [todo] and [done] are the states of the flush under way, which runs without the lock. [log] is a ghost: for each flush that moved
    a cursor, its registration, the oldest record then, and the range examined (empty for the flush that sets the cursor). *)
Record config_ := mk_config { mgr : manager; flushing : bool; todo : list FlushState; done_ : list FlushState;
  ring_head : Z; log : list (Z * (Z * Z * Z)) }.

Inductive label :=
  | LRegister (c : Monitoring) (ps : list ParamPlan) (generation : Z) | LRemove (t : text) | LRecord (n : Z)
  | LTake (now : Z) | LFlush (v : view) | LCommit.

(** What one flush adds to the log. *)
Definition flush_log (v : view) (f : FlushState) (out : outcome) : list (Z * (Z * Z * Z)) :=
  match out with
  | Quiet => if f_cursorPrimed f then [] else [(f_epoch f, (v_oldest v, v_head v, v_head v))]
  | Thrown => []
  | Batch from _ => [(f_epoch f, (v_oldest v, from, v_head v))]
  end.

Definition mstep (l : label) (c : config_) : option config_ :=
  match l with
  | LRegister cfg ps g =>
      if nextEpoch (mgr c) + 1 <? 2 ^ 64
      then Some (mk_config (register cfg ps g (mgr c)).1 (flushing c) (todo c) (done_ c) (ring_head c) (log c)) else None
  | LRemove t => Some (mk_config (remove t (mgr c)).1 (flushing c) (todo c) (done_ c) (ring_head c) (log c))
  | LRecord n =>
      if (0 <=? n) && (ring_head c + n <? kMaxRows)
      then Some (mk_config (mgr c) (flushing c) (todo c) (done_ c) (ring_head c + n) (log c)) else None
  | LTake now =>
      if flushing c then None
      else let '(m, fs) := takeDue now false (mgr c) in Some (mk_config m true fs [] (ring_head c) (log c))
  | LFlush v =>
      match todo c with
      | [] => None
      | f :: fs =>
          if (v_head v =? ring_head c) && (0 <=? v_oldest v) && (v_oldest v <=? v_head v) then
            let '(f', r, out) := flushDetached v f (refresher (mgr c)) in
            Some (mk_config (set_refresher (mgr c) r) true fs (done_ c ++ [f']) (ring_head c) (flush_log v f out ++ log c))
          else None
      end
  | LCommit =>
      match todo c with
      | [] => Some (mk_config (foldl (fun m f => commitFlush f m) (mgr c) (done_ c)) false [] [] (ring_head c) (log c))
      | _ => None
      end
  end.
Definition step (c c' : config_) : Prop := exists l, mstep l c = Some c'.

Definition start_config (r : Refresher.state) (head : Z) : config_ := mk_config (mk_manager ∅ 1 r) false [] [] head [].

(** The ranges a registration examined, newest first. *)
Definition ranges (ep : Z) (l : list (Z * (Z * Z * Z))) : list (Z * Z * Z) := omap (fun x => if x.1 =? ep then Some x.2 else None) l.

(** The first range is the empty one that sets the cursor; each later one starts where the one before ended, or at the oldest
    record when that was already overwritten. *)
Fixpoint chained (l : list (Z * Z * Z)) : Prop :=
  match l with
  | [] => True
  | (oldest, from, to_) :: l' =>
      match l' with
      | [] => from = to_
      | (_, _, before) :: _ => from = Z.max before oldest /\ from <= to_ /\ chained l'
      end
  end.

(** A cursor as the log has it. *)
Definition cursor_ok (l : list (Z * (Z * Z * Z))) (ep : Z) (primed : bool) (cur : Z) : Prop :=
  if primed then exists o f rest, ranges ep l = (o, f, cur) :: rest else ranges ep l = [].

Definition pending (c : config_) : list FlushState := todo c ++ done_ c.

Record Inv (c : config_) : Prop := {
  inv_head : 0 <= ring_head c < kMaxRows;
  inv_idle : flushing c = false -> todo c = [] /\ done_ c = [];
  inv_next : 0 < nextEpoch (mgr c) < 2 ^ 64;
  inv_epoch : forall t e, entries (mgr c) !! t = Some e -> epoch e < nextEpoch (mgr c);
  inv_unique : forall t1 t2 e1 e2, entries (mgr c) !! t1 = Some e1 -> entries (mgr c) !! t2 = Some e2 -> epoch e1 = epoch e2 -> t1 = t2;
  inv_pending : NoDup (f_epoch <$> pending c);
  inv_flush : forall f, f ∈ pending c -> f_epoch f < nextEpoch (mgr c) /\ cursor_ok (log c) (f_epoch f) (f_cursorPrimed f) (f_cursor f);
  inv_same : forall f t e, f ∈ pending c -> entries (mgr c) !! t = Some e -> epoch e = f_epoch f -> t = f_topic f;
  inv_entry : forall t e, entries (mgr c) !! t = Some e -> epoch e ∉ f_epoch <$> pending c ->
    cursor_ok (log c) (epoch e) (cursorPrimed e) (cursor e);
  inv_log : Forall (fun x => x.1 < nextEpoch (mgr c) /\ 0 <= x.2.2 <= ring_head c) (log c);
  inv_chain : forall ep, chained (ranges ep (log c)) }.

Lemma ranges_cons ep x l : ranges ep (x :: l) = if x.1 =? ep then x.2 :: ranges ep l else ranges ep l.
Proof. unfold ranges. cbn. by destruct (x.1 =? ep). Qed.

Lemma ranges_fresh ep (l : list (Z * (Z * Z * Z))) : Forall (fun x => x.1 < ep) l -> ranges ep l = [].
Proof. induction 1 as [|x l Hx _ IH]; [done|]. rewrite ranges_cons, IH. by rewrite (proj2 (Z.eqb_neq _ _)) by lia. Qed.

Lemma cursor_ok_other l x ep primed cur : x.1 <> ep -> cursor_ok l ep primed cur -> cursor_ok (x :: l) ep primed cur.
Proof. intros Hx. unfold cursor_ok. rewrite ranges_cons. by rewrite (proj2 (Z.eqb_neq _ _)). Qed.

Lemma cursor_ok_new l x ep : x.1 = ep -> cursor_ok (x :: l) ep true x.2.2.
Proof. intros <-. unfold cursor_ok. rewrite ranges_cons, Z.eqb_refl. destruct x as [e [[o f] t]]. by eexists _, _, _. Qed.

Lemma ranges_log ep (l : list (Z * (Z * Z * Z))) (P : Z * (Z * Z * Z) -> Prop) r rest : Forall P l -> ranges ep l = r :: rest -> P (ep, r).
Proof.
  intros HP. induction HP as [|x l Hx _ IH]; [done|]. rewrite ranges_cons. destruct (Z.eqb_spec x.1 ep) as [<-|]; [|done].
  intros [= <- _]. by destruct x.
Qed.

(** ** Where a flush leaves the cursor *)
Lemma recapture_fields v f r f' r' : recaptureIfRemapped v f r = (f', r') ->
  f_topic f' = f_topic f /\ f_epoch f' = f_epoch f /\ f_cursor f' = f_cursor f /\ f_cursorPrimed f' = f_cursorPrimed f.
Proof.
  unfold recaptureIfRemapped. destruct (_ =? _); [by intros [= <- <-]|]. destruct (recapture_plans _ _ _ _). by intros [= <- <-].
Qed.

Lemma flush_spec v f r f' r' out : flushDetached v f r = (f', r', out) ->
  0 <= v_oldest v <= v_head v -> v_head v < kMaxRows -> (f_cursorPrimed f = true -> 0 <= f_cursor f <= v_head v) ->
  f_topic f' = f_topic f /\ f_epoch f' = f_epoch f /\ f_cursorPrimed f' = true /\ f_cursor f' = v_head v /\
  match out with
  | Quiet => f_cursorPrimed f = true -> f_cursor f = v_head v
  | Thrown => False
  | Batch from _ => f_cursorPrimed f = true /\ from = Z.max (f_cursor f) (v_oldest v) /\ from <= v_head v
  end.
Proof.
  unfold flushDetached. destruct (recaptureIfRemapped v f r) as [g s] eqn:Eg. apply recapture_fields in Eg as (Ht & He & Hc & Hp).
  rewrite <- Ht, <- He, <- Hc, <- Hp. intros E Ho Hh Hcur. destruct (f_cursorPrimed g) eqn:Epr; cbn [negb] in E.
  - specialize (Hcur eq_refl). destruct (Z.eqb_spec (v_head v) (f_cursor g)) as [Heq|Hne].
    { injection E as <- <- <-. by split_and!. }
    rewrite (proj2 (Z.ltb_ge (v_head v) (f_cursor g))), orb_false_r in E by lia.
    set (from := if f_cursor g <? v_oldest v then v_oldest v else f_cursor g) in E.
    assert (Hf : from = Z.max (f_cursor g) (v_oldest v)) by (unfold from; destruct (Z.ltb_spec (f_cursor g) (v_oldest v)); lia).
    rewrite (proj2 (Z.leb_gt _ _)) in E.
    2:{ unfold u64, kMaxRows in *. rewrite uwrap_id by (unfold in_u; lia). lia. }
    injection E as <- <- <-. cbn. split_and!; try done. lia.
  - injection E as <- <- <-. cbn. by split_and!.
Qed.

Lemma span_seqZ from head : 0 <= from <= head -> head < kMaxRows -> span from head = seqZ from (head - from).
Proof.
  intros Hf Hh. unfold span, u64, kMaxRows in *. rewrite uwrap_id by (unfold in_u; lia).
  apply list_eq. intros i. rewrite list_lookup_fmap. destruct (decide (Z.of_nat i < head - from)) as [Hi|Hi].
  - rewrite !lookup_seqZ_lt by lia. cbn. rewrite uwrap_id by (unfold in_u; lia). done.
  - by rewrite !lookup_seqZ_ge by lia.
Qed.

Lemma stream_start r head : 0 <= head < kMaxRows -> Inv (start_config r head).
Proof.
  intros Hh. split; cbn; try done; try (intros; by rewrite lookup_empty in *); try by constructor.
  intros f Hf. by apply not_elem_of_nil in Hf.
Qed.

Lemma stream_register c cfg ps g : Inv c -> nextEpoch (mgr c) + 1 < 2 ^ 64 ->
  Inv (mk_config (register cfg ps g (mgr c)).1 (flushing c) (todo c) (done_ c) (ring_head c) (log c)).
Proof.
  intros HI Hn. unfold register. destruct (entries (mgr c) !! topic cfg) as [e0|] eqn:Et; [by destruct c|].
  destruct HI as [Hh Hidle Hnx Hep Hu Hp Hf Hs He Hl Hc]. cbn [fst].
  assert (Hnx' : u64 (nextEpoch (mgr c) + 1) = nextEpoch (mgr c) + 1) by (apply uwrap_id; unfold in_u; lia).
  split; cbn [mgr flushing todo done_ ring_head log entries nextEpoch refresher pending] in *; rewrite ?Hnx'; try done; try lia.
  - intros t e. rewrite lookup_insert_Some. intros [[<- <-]|[_ He0]]; [cbn; lia|]. specialize (Hep _ _ He0). lia.
  - intros t1 t2 e1 e2. rewrite !lookup_insert_Some. intros [[<- <-]|[N1 H1]] [[<- <-]|[N2 H2]] E; cbn in E; [done| | |by eapply Hu].
    + specialize (Hep _ _ H2). lia.
    + specialize (Hep _ _ H1). lia.
  - intros f Hin. destruct (Hf f Hin). split; [lia|done].
  - intros f t e Hin. rewrite lookup_insert_Some. intros [[<- <-]|[_ He0]]; [|by apply Hs]. cbn. destruct (Hf f Hin). lia.
  - intros t e. rewrite lookup_insert_Some. intros [[<- <-]|[_ He0]]; [|by apply (He t)]. cbn. intros _.
    apply ranges_fresh. eapply Forall_impl; [exact Hl|]. intros x [? _]. lia.
  - eapply Forall_impl; [exact Hl|]. intros x [? ?]. split; [lia|done].
Qed.

Lemma stream_remove c t : Inv c -> Inv (mk_config (remove t (mgr c)).1 (flushing c) (todo c) (done_ c) (ring_head c) (log c)).
Proof.
  intros HI. unfold remove. destruct (entries (mgr c) !! t) as [e0|] eqn:Et; [|by destruct c].
  destruct HI as [Hh Hidle Hnx Hep Hu Hp Hf Hs He Hl Hc].
  split; cbn [mgr flushing todo done_ ring_head log entries nextEpoch refresher pending fst] in *; try done.
  - intros t' e. rewrite lookup_delete_Some. intros [_ H]. by apply Hep in H.
  - intros t1 t2 e1 e2. rewrite !lookup_delete_Some. intros [_ H1] [_ H2]. by eapply Hu.
  - intros f t' e Hin. rewrite lookup_delete_Some. intros [_ H]. by apply Hs.
  - intros t' e. rewrite lookup_delete_Some. intros [_ H]. by apply (He t').
Qed.

Lemma reschedule_fields now b e : epoch (reschedule now b e) = epoch e /\ cursor (reschedule now b e) = cursor e /\
  cursorPrimed (reschedule now b e) = cursorPrimed e.
Proof. unfold reschedule. by destruct (is_due now b e). Qed.

Lemma takeDue_elem now b m f : f ∈ (takeDue now b m).2 <-> exists t e, entries m !! t = Some e /\ is_due now b e = true /\ f = flush_of t e.
Proof.
  unfold takeDue. cbn. rewrite list_elem_of_fmap. split.
  - intros ([t e] & -> & Hin). apply list_elem_of_In, filter_In in Hin as [Hin Hd]. apply list_elem_of_In in Hin.
    rewrite merge_sort_Permutation, elem_of_map_to_list in Hin. by exists t, e.
  - intros (t & e & He & Hd & ->). exists (t, e). split; [done|]. apply list_elem_of_In, filter_In. split; [|done].
    apply list_elem_of_In. by rewrite merge_sort_Permutation, elem_of_map_to_list.
Qed.

Lemma stream_take c now : Inv c -> flushing c = false ->
  Inv (mk_config (takeDue now false (mgr c)).1 true (takeDue now false (mgr c)).2 [] (ring_head c) (log c)).
Proof.
  intros [Hh Hidle Hnx Hep Hu Hp Hf Hs He Hl Hc] Hfl. destruct (Hidle Hfl) as [Ht Hd]. unfold pending in *. rewrite Ht, Hd in *.
  assert (Hlk : forall t e, entries (takeDue now false (mgr c)).1 !! t = Some e ->
    exists e0, entries (mgr c) !! t = Some e0 /\ epoch e = epoch e0 /\ cursor e = cursor e0 /\ cursorPrimed e = cursorPrimed e0).
  { intros t e H. cbn in H. rewrite lookup_fmap in H. destruct (entries (mgr c) !! t) as [e0|]; [|done]. injection H as <-.
    exists e0. split; [done|]. apply reschedule_fields. }
  assert (Hcur : forall t e, entries (mgr c) !! t = Some e -> cursor_ok (log c) (epoch e) (cursorPrimed e) (cursor e)).
  { intros t e H. apply (He t e H). by apply not_elem_of_nil. }
  split; cbn [mgr flushing todo done_ ring_head log pending]; rewrite ?app_nil_r; try done.
  - intros t e H. destruct (Hlk t e H) as (e0 & H0 & -> & _). by apply (Hep t).
  - intros t1 t2 e1 e2 H1 H2. destruct (Hlk _ _ H1) as (x1 & ? & -> & _). destruct (Hlk _ _ H2) as (x2 & ? & -> & _). by eapply Hu.
  - unfold pending. cbn [todo done_]. rewrite app_nil_r. unfold takeDue. cbn [snd]. rewrite <- list_fmap_compose. apply NoDup_fmap_2_strong.
    + intros [t1 e1] [t2 e2] H1 H2. cbn. intros E. apply list_elem_of_In, filter_In in H1 as [H1 _]. apply list_elem_of_In, filter_In in H2 as [H2 _].
      apply list_elem_of_In in H1, H2. rewrite merge_sort_Permutation, elem_of_map_to_list in H1, H2.
      assert (t1 = t2) as -> by (by eapply Hu). congruence.
    + apply NoDup_ListNoDup, List.NoDup_filter, NoDup_ListNoDup. rewrite merge_sort_Permutation. apply NoDup_map_to_list.
  - intros f Hin. unfold pending in Hin. cbn [todo done_] in Hin. rewrite app_nil_r in Hin. apply takeDue_elem in Hin as (t & e & H0 & _ & ->).
    split; [by apply (Hep t)|by apply (Hcur t)].
  - intros f t e Hin H E. unfold pending in Hin. cbn [todo done_] in Hin. rewrite app_nil_r in Hin.
    apply takeDue_elem in Hin as (t0 & e0 & H0 & _ & ->). destruct (Hlk _ _ H) as (x & Hx & Ex & _). cbn in *.
    apply (Hu t t0 x e0); congruence.
  - intros t e H _. destruct (Hlk _ _ H) as (x & Hx & -> & -> & ->). by apply (Hcur t).
Qed.

Lemma flush_log_ok v f r f' r' out l n : flushDetached v f r = (f', r', out) ->
  0 <= v_oldest v <= v_head v -> v_head v < kMaxRows -> cursor_ok l (f_epoch f) (f_cursorPrimed f) (f_cursor f) ->
  Forall (fun x : Z * (Z * Z * Z) => x.1 < n /\ 0 <= x.2.2 <= v_head v) l -> f_epoch f < n -> (forall ep, chained (ranges ep l)) ->
  f_topic f' = f_topic f /\ f_epoch f' = f_epoch f /\
  cursor_ok (flush_log v f out ++ l) (f_epoch f') (f_cursorPrimed f') (f_cursor f') /\
  (forall ep primed cur, ep <> f_epoch f -> cursor_ok l ep primed cur -> cursor_ok (flush_log v f out ++ l) ep primed cur) /\
  Forall (fun x : Z * (Z * Z * Z) => x.1 < n /\ 0 <= x.2.2 <= v_head v) (flush_log v f out ++ l) /\
  (forall ep, chained (ranges ep (flush_log v f out ++ l))).
Proof.
  intros E Ho Hh Hc Hl Hn Hch.
  assert (Hcur : f_cursorPrimed f = true -> 0 <= f_cursor f <= v_head v).
  { intros Hp. unfold cursor_ok in Hc. rewrite Hp in Hc. destruct Hc as (o & a & rest & Hr). by apply (ranges_log _ _ _ _ _ Hl) in Hr as [_ ?]. }
  destruct (flush_spec _ _ _ _ _ _ E Ho Hh Hcur) as (Ht & He & Hp' & Hc' & Hout). rewrite He, Hp', Hc'.
  split; [done|]. split; [done|]. destruct out as [| |from rows]; cbn [flush_log].
  - destruct (f_cursorPrimed f) eqn:Hp; cbn [app].
    + split_and!; try done. specialize (Hout eq_refl). by rewrite <- Hout.
    + split_and!.
      * apply (cursor_ok_new l (f_epoch f, (v_oldest v, v_head v, v_head v))). done.
      * intros ep primed cur Hne. apply cursor_ok_other. cbn. congruence.
      * constructor; [cbn; lia|done].
      * intros ep. rewrite ranges_cons. cbn [fst snd]. destruct (Z.eqb_spec (f_epoch f) ep) as [<-|]; [|done].
        unfold cursor_ok in Hc. by rewrite Hc.
  - done.
  - destruct Hout as (Hp & Hfrom & Hle). rewrite Hp in Hc. destruct Hc as (o & a & rest & Hr). cbn [app]. split_and!.
    + apply (cursor_ok_new l (f_epoch f, (v_oldest v, from, v_head v))). done.
    + intros ep primed cur Hne. apply cursor_ok_other. cbn. congruence.
    + constructor; [cbn; lia|done].
    + intros ep. rewrite ranges_cons. cbn [fst snd]. destruct (Z.eqb_spec (f_epoch f) ep) as [<-|]; [|done].
      specialize (Hch (f_epoch f)). rewrite Hr in *. by split_and!.
Qed.

Lemma stream_flush c v f fs f' r out : Inv c -> todo c = f :: fs -> v_head v = ring_head c -> 0 <= v_oldest v <= v_head v ->
  flushDetached v f (refresher (mgr c)) = (f', r, out) ->
  Inv (mk_config (set_refresher (mgr c) r) true fs (done_ c ++ [f']) (ring_head c) (flush_log v f out ++ log c)).
Proof.
  intros [Hh Hidle Hnx Hep Hu Hp Hf Hs He Hl Hc] Ht Hv Ho E. unfold pending in *. rewrite Ht in *.
  assert (Hin : f ∈ (f :: fs) ++ done_ c) by (apply elem_of_app; left; apply elem_of_cons; by left).
  destruct (Hf f Hin) as [Hfe Hfc].
  destruct (flush_log_ok v f _ _ _ _ (log c) (nextEpoch (mgr c)) E Ho ltac:(lia) Hfc ltac:(by rewrite Hv) Hfe Hc) as (Hft & Hfe' & Hcur & Hoth & Hlog & Hch).
  assert (Hel : forall g, g ∈ fs ++ done_ c ++ [f'] -> g = f' \/ (g ∈ (f :: fs) ++ done_ c /\ f_epoch g <> f_epoch f)).
  { intros g Hg. rewrite !elem_of_app, list_elem_of_singleton in Hg.
    assert (Hother : g ∈ fs ++ done_ c -> g = f' \/ (g ∈ (f :: fs) ++ done_ c /\ f_epoch g <> f_epoch f)).
    { intros Hg'. right. split; [cbn; apply elem_of_cons; by right|]. intros Eq. cbn in Hp. apply NoDup_cons in Hp as [Hno _]. apply Hno.
      apply list_elem_of_fmap. by exists g. }
    destruct Hg as [Hg|[Hg| ->]]; [| |by left]; apply Hother, elem_of_app; auto. }
  assert (Hperm : f_epoch <$> (fs ++ done_ c ++ [f']) ≡ₚ f_epoch <$> ((f :: fs) ++ done_ c)).
  { rewrite !fmap_app. cbn. rewrite Hfe'. rewrite app_assoc, Permutation_app_comm. done. }
  split; cbn [mgr flushing todo done_ ring_head log set_refresher entries nextEpoch]; unfold pending; cbn [todo done_]; rewrite <- ?Hv; try done.
  - lia.
  - by rewrite Hperm.
  - intros g Hg. destruct (Hel g Hg) as [->|[Hg' Hne]]; [split; [by rewrite Hfe'|done]|]. destruct (Hf g Hg'). split; [done|by apply Hoth].
  - intros g t e Hg Hte Eq. destruct (Hel g Hg) as [->|[Hg' Hne]]; [|by apply (Hs g t e)]. rewrite Hft. apply (Hs f t e Hin Hte). congruence.
  - intros t e Hte Hno. rewrite Hperm in Hno. apply Hoth; [|by apply (He t)]. intros Eq. apply Hno. rewrite Eq. apply list_elem_of_fmap. by exists f.
Qed.

Lemma stream_commit1 m b f fs h l : Inv (mk_config m b [] (f :: fs) h l) -> Inv (mk_config (commitFlush f m) true [] fs h l).
Proof.
  intros [Hh Hidle Hnx Hep Hu Hp Hf Hs He Hl Hc]. unfold pending in *. cbn [mgr flushing todo done_ ring_head log app] in *.
  assert (Hin : f ∈ f :: fs) by (apply elem_of_cons; by left). destruct (Hf f Hin) as [Hfe Hfc].
  assert (Hsub : forall g, g ∈ fs -> g ∈ f :: fs) by (intros g Hg; apply elem_of_cons; by right).
  assert (Hlk : forall t e, entries (commitFlush f m) !! t = Some e -> exists e0, entries m !! t = Some e0 /\ epoch e = epoch e0 /\
    (if bool_decide (epoch e0 = f_epoch f) then cursorPrimed e = f_cursorPrimed f /\ cursor e = f_cursor f
     else cursorPrimed e = cursorPrimed e0 /\ cursor e = cursor e0)).
  { intros t e H. unfold commitFlush in H. destruct (entries m !! f_topic f) as [e1|] eqn:E1.
    - destruct (Z.eqb_spec (epoch e1) (f_epoch f)) as [Eq|Ne]; cbn [negb] in H.
      + cbn in H. rewrite lookup_insert_Some in H. destruct H as [[<- <-]|[Hne H]].
        * exists e1. rewrite bool_decide_true by done. by split_and!.
        * exists e. rewrite bool_decide_false; [by split_and!|]. intros Eq2. apply Hne. symmetry. by apply (Hs f t e).
      + exists e. rewrite bool_decide_false; [by split_and!|]. intros Eq2. pose proof (Hs f t e Hin H Eq2) as ->. congruence.
    - exists e. rewrite bool_decide_false; [by split_and!|]. intros Eq2. pose proof (Hs f t e Hin H Eq2) as ->. congruence. }
  assert (Hn : nextEpoch (commitFlush f m) = nextEpoch m) by (unfold commitFlush; repeat case_match; done).
  split; unfold pending; cbn [mgr flushing todo done_ ring_head log app]; rewrite ?Hn; try done.
  - intros t e H. destruct (Hlk _ _ H) as (e0 & H0 & -> & _). by apply (Hep t).
  - intros t1 t2 e1 e2 H1 H2. destruct (Hlk _ _ H1) as (x1 & ? & -> & _). destruct (Hlk _ _ H2) as (x2 & ? & -> & _). by eapply Hu.
  - cbn in Hp. by apply NoDup_cons in Hp as [_ ?].
  - intros g Hg. by apply Hf, Hsub.
  - intros g t e Hg H Eq. destruct (Hlk _ _ H) as (e0 & H0 & Ee & _). apply (Hs g t e0); [by apply Hsub|done|congruence].
  - intros t e H Hno. destruct (Hlk _ _ H) as (e0 & H0 & Ee & Hcur). rewrite Ee in *. case_bool_decide as Eq.
    + destruct Hcur as [-> ->]. by rewrite Eq.
    + destruct Hcur as [-> ->]. apply (He t e0 H0). cbn. rewrite not_elem_of_cons. done.
Qed.

Lemma stream_commits fs : forall m b h l, Inv (mk_config m b [] fs h l) ->
  Inv (mk_config (foldl (fun m f => commitFlush f m) m fs) false [] [] h l).
Proof.
  induction fs as [|f fs IH]; intros m b h l HI; cbn.
  - destruct HI. by split.
  - eapply IH. by eapply stream_commit1.
Qed.

Lemma stream_step c c' : step c c' -> Inv c -> Inv c'.
Proof.
  intros [l E] HI. destruct l as [cfg ps g|t|n|now|v|]; cbn in E.
  - destruct (Z.ltb_spec (nextEpoch (mgr c) + 1) (2 ^ 64)); [|done]. injection E as <-. by apply stream_register.
  - injection E as <-. by apply stream_remove.
  - destruct (Z.leb_spec 0 n); [|done]. destruct (Z.ltb_spec (ring_head c + n) kMaxRows); [|done]. injection E as <-.
    destruct HI as [Hh Hidle Hnx Hep Hu Hp Hf Hs He Hl Hc]. split; try done; cbn; [lia|]. eapply Forall_impl; [exact Hl|]. intros x [? ?]. lia.
  - destruct (flushing c) eqn:Ef; [done|]. injection E as <-. by apply stream_take.
  - destruct (todo c) as [|f fs] eqn:Et; [done|]. destruct (Z.eqb_spec (v_head v) (ring_head c)); [|done].
    destruct (Z.leb_spec 0 (v_oldest v)); [|done]. destruct (Z.leb_spec (v_oldest v) (v_head v)); [|done]. cbn [andb] in E.
    destruct (flushDetached v f (refresher (mgr c))) as [[f' r] out] eqn:Efl. injection E as <-. by eapply (stream_flush c v f fs f' r out).
  - destruct (todo c) eqn:Et; [|done]. injection E as <-. eapply (stream_commits _ _ (flushing c)). rewrite <- Et. by destruct c.
Qed.


(** The rows of a batch: one for every examined cycle that could still be read, in order. *)
Lemma batch_rows v f r f' r' from rows : flushDetached v f r = (f', r', Batch from rows) ->
  0 <= v_oldest v <= v_head v -> v_head v < kMaxRows -> (f_cursorPrimed f = true -> 0 <= f_cursor f <= v_head v) ->
  rows = omap (fun s => sample_of v (f_plans f') <$> v_record v s) (seqZ from (v_head v - from)).
Proof.
  intros E Ho Hh Hc. pose proof (flush_spec _ _ _ _ _ _ E Ho Hh Hc) as (_ & _ & _ & _ & _ & Hf & Hle). revert E. unfold flushDetached.
  destruct (recaptureIfRemapped v f r) as [g s]. destruct (f_cursorPrimed g); cbn [negb]; [|done]. destruct (_ =? _); [done|].
  destruct (kMaxRows <=? _); [done|]. intros [= <- <- <- <-]. by rewrite span_seqZ by lia.
Qed.

(** ** References to polled objects *)
#[local] Opaque Refresher.makeKey.

Definition plan_key (p : ParamPlan) : Z := Refresher.makeKey (devicePosition p) (index p) (subindex p).
Definition refs (r : Refresher.state) (k : Z) : Z :=
  match Refresher.entries r !! k with Some e => Refresher.refCount e | None => 0 end.
Definition one_if (b : bool) : Z := if b then 1 else 0.
Definition sdo_count (k : Z) (ps : list ParamPlan) : Z := foldr (fun p n => one_if (is_sdo p && (plan_key p =? k)) + n) 0 ps.
Definition count_in (k : Z) (es : gmap text Entry) : Z := map_fold (fun _ e n => sdo_count k (plans e) + n) 0 es.
Definition held (k : Z) (ext : list Z) : Z := foldr (fun x n => one_if (x =? k) + n) 0 ext.

Lemma one_if_pos b : 0 <= one_if b <= 1.
Proof. destruct b; cbn; lia. Qed.
Lemma sdo_count_pos k ps : 0 <= sdo_count k ps.
Proof. induction ps as [|p ps IH]; [done|]. pose proof (one_if_pos (is_sdo p && (plan_key p =? k))). unfold sdo_count in *. cbn [foldr]. lia. Qed.
Lemma sdo_count_cons k p ps : sdo_count k (p :: ps) = one_if (is_sdo p && (plan_key p =? k)) + sdo_count k ps.
Proof. reflexivity. Qed.
Lemma held_pos k ext : 0 <= held k ext.
Proof. induction ext as [|x ext IH]; cbn; [lia|]. pose proof (one_if_pos (x =? k)). unfold held in IH. lia. Qed.

Lemma polled_insert k es t e : es !! t = None -> count_in k (<[t := e]> es) = sdo_count k (plans e) + count_in k es.
Proof. intros H. unfold count_in. by rewrite map_fold_insert_L by (done || (intros; lia)). Qed.
Lemma polled_delete k es t e : es !! t = Some e -> count_in k es = sdo_count k (plans e) + count_in k (delete t es).
Proof. intros H. unfold count_in. by rewrite (map_fold_delete_L _ _ t e) by (done || (intros; lia)). Qed.
Lemma polled_replace k es t e e' : es !! t = Some e -> count_in k (<[t := e']> es) = count_in k es - sdo_count k (plans e) + sdo_count k (plans e').
Proof.
  intros H. rewrite (polled_delete k es t e H). rewrite <- insert_delete_eq, polled_insert by apply lookup_delete_eq. lia.
Qed.
Lemma polled_pos k es : 0 <= count_in k es.
Proof.
  unfold count_in. apply (map_fold_weak_ind (fun n _ => 0 <= n)); [lia|]. intros t e es' n _ H. pose proof (sdo_count_pos k (plans e)). lia.
Qed.
Lemma polled_fmap k (g : Entry -> Entry) es : (forall e, plans (g e) = plans e) -> count_in k (g <$> es) = count_in k es.
Proof.
  intros Hg. induction es as [|t e es He IH] using map_ind; [by rewrite fmap_empty|].
  rewrite fmap_insert, !polled_insert by (rewrite ?lookup_fmap, ?He; done). by rewrite Hg, IH.
Qed.

Lemma refs_acquire pos idx sub per r k :
  refs (Refresher.acquire pos idx sub per r) k = refs r k + one_if (Refresher.makeKey pos idx sub =? k).
Proof.
  unfold refs, Refresher.acquire. destruct (Z.eqb_spec (Refresher.makeKey pos idx sub) k) as [<-|Hne]; cbn [one_if].
  - destruct (Refresher.entries r !! Refresher.makeKey pos idx sub) as [e|] eqn:E; cbn; rewrite lookup_insert_eq; cbn; lia.
  - destruct (Refresher.entries r !! Refresher.makeKey pos idx sub) as [e|] eqn:E; cbn; rewrite lookup_insert_ne by done; lia.
Qed.

Lemma refs_release pos idx sub r k : Refresher.entries_ok r -> 1 <= refs r (Refresher.makeKey pos idx sub) ->
  refs (Refresher.release pos idx sub r) k = refs r k - one_if (Refresher.makeKey pos idx sub =? k).
Proof.
  intros Hok Hp. unfold refs, Refresher.release in *. destruct (Refresher.entries r !! Refresher.makeKey pos idx sub) as [e|] eqn:E; [|lia].
  destruct (Z.leb_spec (Refresher.refCount e - 1) 0); destruct (Z.eqb_spec (Refresher.makeKey pos idx sub) k) as [<-|Hne]; cbn.
  - rewrite lookup_delete_eq, E. lia.
  - rewrite lookup_delete_ne by done. lia.
  - rewrite lookup_insert_eq, E. cbn. lia.
  - rewrite lookup_insert_ne by done. lia.
Qed.

Lemma acquire_all interval ps : forall r, Refresher.entries_ok r ->
  let r' := foldl (fun r p => if is_sdo p then acquire_plan interval p r else r) r ps in
  Refresher.entries_ok r' /\ forall k, refs r' k = refs r k + sdo_count k ps.
Proof.
  induction ps as [|p ps IH]; intros r Hok; cbn [foldl]; [split; [done|]; intros; cbn; lia|].
  assert (H1 : Refresher.entries_ok (if is_sdo p then acquire_plan interval p r else r) /\
    forall k, refs (if is_sdo p then acquire_plan interval p r else r) k = refs r k + one_if (is_sdo p && (plan_key p =? k))).
  { destruct (is_sdo p); cbn [andb one_if]; [|split; [done|]; intros; lia]. split; [exact (Refresher.acquire_ok _ _ _ _ _ Hok)|]. intros k. unfold acquire_plan, plan_key. by rewrite refs_acquire. }
  destruct H1 as [Hok1 Hr1]. destruct (IH _ Hok1) as [Hok2 Hr2]. split; [done|]. intros k. rewrite Hr2, Hr1, sdo_count_cons. lia.
Qed.

Lemma release_all ps : forall r, Refresher.entries_ok r -> (forall k, sdo_count k ps <= refs r k) ->
  let r' := foldl (fun r p => if is_sdo p then release_plan p r else r) r ps in
  Refresher.entries_ok r' /\ forall k, refs r' k = refs r k - sdo_count k ps.
Proof.
  induction ps as [|p ps IH]; intros r Hok Hle; cbn [foldl]; [split; [done|]; intros; cbn; lia|].
  assert (H1 : Refresher.entries_ok (if is_sdo p then release_plan p r else r) /\
    forall k, refs (if is_sdo p then release_plan p r else r) k = refs r k - one_if (is_sdo p && (plan_key p =? k))).
  { destruct (is_sdo p) eqn:Es; cbn [andb one_if]; [|split; [done|]; intros; lia]. split; [exact (Refresher.release_ok _ _ _ _ Hok)|].
    intros k. unfold release_plan. rewrite refs_release; [done|exact Hok|]. specialize (Hle (plan_key p)). rewrite sdo_count_cons, Es, Z.eqb_refl in Hle. cbn [andb one_if] in Hle.
    pose proof (sdo_count_pos (plan_key p) ps). change (Refresher.makeKey (devicePosition p) (index p) (subindex p)) with (plan_key p). lia. }
  destruct H1 as [Hok1 Hr1]. destruct (IH _ Hok1) as [Hok2 Hr2].
  { intros k. rewrite Hr1. specialize (Hle k). rewrite sdo_count_cons in Hle. lia. }
  split; [done|]. intros k. rewrite Hr2, Hr1, sdo_count_cons. lia.
Qed.

Lemma recapture_refs v interval ps : forall r ps' r', Refresher.entries_ok r -> (forall k, sdo_count k ps <= refs r k) ->
  recapture_plans v interval ps r = (ps', r') ->
  Refresher.entries_ok r' /\ forall k, refs r' k = refs r k - sdo_count k ps + sdo_count k ps'.
Proof.
  induction ps as [|p ps IH]; intros r ps' r' Hok Hle E; cbn [recapture_plans] in E; [injection E as <- <-; split; [done|]; intros; cbn; lia|].
  destruct (recapture_plan v interval p r) as [q r1] eqn:Eq. destruct (recapture_plans v interval ps r1) as [qs r2] eqn:Eqs. injection E as <- <-.
  assert (H1 : Refresher.entries_ok r1 /\ forall k, refs r1 k = refs r k - one_if (is_sdo p && (plan_key p =? k)) + one_if (is_sdo q && (plan_key q =? k))).
  { unfold recapture_plan in Eq. destruct (v_spec v (devicePosition p) (index p) (subindex p)) as [sp|], (source p) eqn:Es; injection Eq as <- <-; unfold is_sdo; rewrite Es;
      cbn [source andb one_if]; unfold plan_key; cbn [devicePosition index subindex].
    - split; [done|]. intros; lia.
    - split; [exact (Refresher.release_ok _ _ _ _ Hok)|]. intros k. unfold release_plan. rewrite refs_release; [lia|done|].
      specialize (Hle (plan_key p)). rewrite sdo_count_cons, Z.eqb_refl in Hle. unfold is_sdo at 1 in Hle. rewrite Es in Hle. cbn [andb one_if] in Hle.
      pose proof (sdo_count_pos (plan_key p) ps). change (Refresher.makeKey (devicePosition p) (index p) (subindex p)) with (plan_key p). lia.
    - split; [exact (Refresher.acquire_ok _ _ _ _ _ Hok)|]. intros k. unfold acquire_plan. rewrite refs_acquire. lia.
    - split; [done|]. intros; lia. }
  destruct H1 as [Hok1 Hr1]. destruct (IH r1 qs r2 Hok1) as [Hok2 Hr2]; [|done|].
  { intros k. rewrite Hr1. specialize (Hle k). rewrite sdo_count_cons in Hle. pose proof (one_if_pos (is_sdo q && (plan_key q =? k))). lia. }
  split; [done|]. intros k. rewrite Hr2, Hr1, !sdo_count_cons. lia.
Qed.

Lemma flush_refs v f r f' r' out : flushDetached v f r = (f', r', out) -> Refresher.entries_ok r -> (forall k, sdo_count k (f_plans f) <= refs r k) ->
  Refresher.entries_ok r' /\ (forall k, refs r' k = refs r k - sdo_count k (f_plans f) + sdo_count k (f_plans f')) /\
  f_topic f' = f_topic f /\ f_epoch f' = f_epoch f.
Proof.
  unfold flushDetached. destruct (recaptureIfRemapped v f r) as [g s] eqn:Eg. intros E Hok Hle.
  pose proof (recapture_fields _ _ _ _ _ Eg) as (Ht & He & _).
  assert (Hg : Refresher.entries_ok s /\ forall k, refs s k = refs r k - sdo_count k (f_plans f) + sdo_count k (f_plans g)).
  { unfold recaptureIfRemapped in Eg. destruct (_ =? _); [injection Eg as <- <-; split; [done|]; intros; lia|].
    destruct (recapture_plans v (f_interval f) (f_plans f) r) as [ps s'] eqn:Ep. injection Eg as <- <-. cbn. by eapply recapture_refs. }
  destruct Hg as [Hoks Hrs].
  assert (Hf : f_plans f' = f_plans g /\ r' = s /\ f_topic f' = f_topic g /\ f_epoch f' = f_epoch g).
  { destruct (f_cursorPrimed g); cbn [negb] in E; [|by injection E as <- <- <-]. destruct (_ =? _); [by injection E as <- <- <-|].
    destruct (kMaxRows <=? _); by injection E as <- <- <-. }
  destruct Hf as (-> & -> & -> & ->). by split_and!.
Qed.

(** *** Whole operations, one after the other *)
Fixpoint flush_each (answers : FlushState -> view) (fs : list FlushState) (r : Refresher.state) : list FlushState * Refresher.state :=
  match fs with
  | [] => ([], r)
  | f :: fs' =>
      let '(f', r, _) := flushDetached (answers f) f r in
      let '(fs', r) := flush_each answers fs' r in (f' :: fs', r)
  end.

(** [flushDue] with nobody else between its two critical sections. *)
Definition flushDue (now : Z) (forceAll : bool) (answers : FlushState -> view) (m : manager) : manager :=
  let '(m, fs) := takeDue now forceAll m in
  let '(fs, r) := flush_each answers fs (refresher m) in
  foldl (fun m f => commitFlush f m) (set_refresher m r) fs.

Inductive op :=
  | OpCreate (c : Monitoring) (look : MonitoredParameter -> view) (retry : MonitoredParameter -> option view) (generation : Z)
  | OpRemove (t : text) | OpKeepFresh (pos idx sub period : Z) | OpStopKeepingFresh (pos idx sub : Z)
  | OpFlush (now : Z) (forceAll : bool) (answers : FlushState -> view).

(** The references clients hold by [keepFresh] are kept beside the manager; one is given back only by its holder. *)
Definition run_op (o : op) (x : manager * list Z) : manager * list Z :=
  let '(m, ext) := x in
  match o with
  | OpCreate c look retry g => ((create c look retry g m).1, ext)
  | OpRemove t => ((remove t m).1, ext)
  | OpKeepFresh pos idx sub period => (keepFresh pos idx sub period m, Refresher.makeKey pos idx sub :: ext)
  | OpStopKeepingFresh pos idx sub =>
      match list_find (fun x => x = Refresher.makeKey pos idx sub) ext with
      | Some (i, _) => (stopKeepingFresh pos idx sub m, take i ext ++ drop (S i) ext)
      | None => (m, ext)
      end
  | OpFlush now forceAll answers => (flushDue now forceAll answers m, ext)
  end.

Record balanced (x : manager * list Z) : Prop := {
  bal_ok : Refresher.entries_ok (refresher x.1);
  bal_refs : forall k, refs (refresher x.1) k = count_in k (entries x.1) + held k x.2 }.

Lemma register_balanced c ps g m ext : balanced (m, ext) -> balanced ((register c ps g m).1, ext).
Proof.
  intros [Hok Hr]. unfold register. destruct (entries m !! topic c) eqn:Et; [by split|]. cbn [fst] in *.
  destruct (acquire_all (interval c) ps (refresher m) Hok) as [Hok' Hr']. split; [exact Hok'|]. intros k. cbn [fst snd refresher entries].
  cbn zeta in Hr'. rewrite Hr', Hr, polled_insert by done. cbn [plans fst snd]. lia.
Qed.

Lemma create_balanced c look retry g m ext : balanced (m, ext) -> balanced ((create c look retry g m).1, ext).
Proof.
  intros Hb. unfold create. destruct (validate c); [done|]. destruct (plan_all look retry (parameters c)); [|done]. by apply register_balanced.
Qed.

Lemma remove_balanced t m ext : balanced (m, ext) -> balanced ((remove t m).1, ext).
Proof.
  intros [Hok Hr]. unfold remove. destruct (entries m !! t) as [e|] eqn:Et; [|by split]. cbn [fst snd] in *.
  assert (Hle : forall k, sdo_count k (plans e) <= refs (refresher m) k).
  { intros k. rewrite Hr, (polled_delete k _ t e Et). pose proof (polled_pos k (delete t (entries m))). pose proof (held_pos k ext). lia. }
  destruct (release_all (plans e) (refresher m) Hok Hle) as [Hok' Hr']. split; [exact Hok'|]. intros k. cbn [fst snd refresher entries].
  cbn zeta in Hr'. rewrite Hr', Hr, (polled_delete k _ t e Et). lia.
Qed.

(** Flushing and committing states whose entries are as they were taken. *)
Lemma commits_balanced answers ext : forall fs fs' r r' es n, flush_each answers fs r = (fs', r') -> NoDup (f_topic <$> fs) ->
  Forall (fun f => exists e, es !! f_topic f = Some e /\ epoch e = f_epoch f /\ plans e = f_plans f) fs ->
  balanced (mk_manager es n r, ext) -> balanced (foldl (fun m f => commitFlush f m) (mk_manager es n r') fs', ext).
Proof.
  induction fs as [|f fs IH]; intros fs' r r' es n E Hn Hf Hb; cbn [flush_each] in E; [by injection E as <- <-|].
  destruct (flushDetached (answers f) f r) as [[f' r1] out] eqn:Ef. destruct (flush_each answers fs r1) as [fs1 r2] eqn:Es. injection E as <- <-.
  apply Forall_cons in Hf as [(e & He & Hep & Hpl) Hf]. cbn in Hn. apply NoDup_cons in Hn as [Hnot Hn]. destruct Hb as [Hok Hr]. cbn [fst snd refresher entries] in *.
  assert (Hle : forall k, sdo_count k (f_plans f) <= refs r k).
  { intros k. rewrite Hr, (polled_delete k _ _ e He), Hpl. pose proof (polled_pos k (delete (f_topic f) es)). pose proof (held_pos k ext). lia. }
  destruct (flush_refs _ _ _ _ _ _ Ef Hok Hle) as (Hok1 & Hr1 & Ht & Hee). cbn [foldl].
  unfold commitFlush at 2. cbn [entries nextEpoch refresher]. rewrite Ht, He, Hee, Hep, Z.eqb_refl. cbn [negb].
  eapply (IH fs1 r1 r2); [exact Es|done| |].
  - eapply Forall_impl; [apply Forall_and; split; [exact Hf|apply Forall_forall; intros g Hg; exact Hg]|].
    intros g [(e0 & He0 & ?) Hg]. exists e0. rewrite lookup_insert_ne; [done|]. intros Eq. apply Hnot. rewrite Eq. apply list_elem_of_fmap. by exists g.
  - split; [exact Hok1|]. intros k. cbn [fst snd refresher entries]. rewrite Hr1, Hr, (polled_replace k _ _ e _ He), Hpl. cbn [plans]. lia.
Qed.

Lemma flush_balanced now b answers m ext : balanced (m, ext) -> balanced (flushDue now b answers m, ext).
Proof.
  intros [Hok Hr]. unfold flushDue. pose proof (takeDue_elem now b m) as Hel. unfold takeDue in *. cbn [snd] in Hel.
  set (fs := (fun p => flush_of p.1 p.2) <$> List.filter (fun p => is_due now b p.2) (merge_sort by_topic (map_to_list (entries m)))) in *.
  cbn [refresher]. destruct (flush_each answers fs (refresher m)) as [fs' r'] eqn:E. unfold set_refresher. cbn [entries nextEpoch].
  eapply commits_balanced; [exact E| | |].
  - unfold fs. rewrite <- list_fmap_compose. change (f_topic ∘ (fun p : text * Entry => flush_of p.1 p.2)) with (@fst text Entry).
    apply NoDup_fmap_2_strong.
    + intros [t1 e1] [t2 e2] H1 H2. cbn. intros ->. apply list_elem_of_In, filter_In in H1 as [H1 _]. apply list_elem_of_In, filter_In in H2 as [H2 _].
      apply list_elem_of_In in H1, H2. rewrite merge_sort_Permutation, elem_of_map_to_list in H1, H2. congruence.
    + apply NoDup_ListNoDup, List.NoDup_filter, NoDup_ListNoDup. rewrite merge_sort_Permutation. apply NoDup_map_to_list.
  - apply Forall_forall. intros f Hin. apply Hel in Hin as (t & e & He & _ & ->). exists (reschedule now b e).
    cbn [f_topic flush_of]. rewrite lookup_fmap, He. split; [done|]. unfold reschedule. by destruct (is_due now b e).
  - split; [exact Hok|]. intros k. cbn [fst snd refresher entries] in *. rewrite Hr, polled_fmap; [done|].
    intros e. unfold reschedule. by destruct (is_due now b e).
Qed.

Lemma held_remove k ext i x : ext !! i = Some x -> held k (take i ext ++ drop (S i) ext) = held k ext - one_if (x =? k).
Proof.
  revert i. induction ext as [|y ext IH]; intros i Hi; [done|]. destruct i as [|i]; cbn in Hi.
  - injection Hi as ->. cbn [take drop app]. unfold held. cbn [foldr]. rewrite drop_0. lia.
  - cbn [take drop app]. specialize (IH i Hi). unfold held in *. cbn [foldr]. lia.
Qed.

(** References are balanced. After any sequence of creations, removals, flushes (with re-maps moving objects between process data
    and polling), keep-fresh requests and their ends, each object's reference count in the refresher is the number of plans that poll
    it plus the references clients hold, so an object is polled exactly while somebody needs it. *)
Theorem references_balanced ops : balanced (foldl (fun x o => run_op o x) (mk_manager ∅ 1 (Refresher.mk_state ∅ ∅), []) ops).
Proof.
  apply (foldl_invariant balanced).
  - split; [apply map_Forall_empty|]. intros k. reflexivity.
  - intros [m ext] o Hb. destruct o as [c look retry g|t|pos idx sub period|pos idx sub|now b answers]; cbn [run_op].
    + by apply create_balanced.
    + by apply remove_balanced.
    + destruct Hb as [Hok Hr]. split; [exact (Refresher.acquire_ok _ _ _ _ _ Hok)|]. intros k. cbn [fst snd keepFresh set_refresher refresher entries] in *.
      rewrite refs_acquire, Hr. unfold held. cbn [foldr]. lia.
    + destruct (list_find _ ext) as [[i x]|] eqn:Ef; [|done]. apply list_find_Some in Ef as (Hi & -> & _).
      destruct Hb as [Hok Hr]. split; [exact (Refresher.release_ok _ _ _ _ Hok)|]. intros k. cbn [fst snd stopKeepingFresh set_refresher refresher entries] in *.
      rewrite (held_remove k ext i _ Hi), refs_release; [rewrite Hr; lia|exact Hok|]. rewrite Hr.
      pose proof (held_remove (Refresher.makeKey pos idx sub) ext i _ Hi) as Hh. rewrite Z.eqb_refl in Hh. cbn [one_if] in Hh.
      pose proof (held_pos (Refresher.makeKey pos idx sub) (take i ext ++ drop (S i) ext)). pose proof (polled_pos (Refresher.makeKey pos idx sub) (entries m)). lia.
    + by apply flush_balanced.
Qed.

#[local] Transparent Refresher.makeKey.

(** ** Examples *)
Definition t_a : text := codes "a".
Definition cfg_a : Monitoring := mk_monitoring t_a 100 [mk_monitored 1 0x6064 0].
Definition spec_at (o : Z) : PdoSampleSpec := mk_spec false o 32 INTEGER32.
Definition pdo_plan (o : Z) : ParamPlan := mk_plan 1 0x6064 0 Pdo (Some (spec_at o)).
Definition sdo_plan : ParamPlan := mk_plan 1 0x6064 0 Sdo None.
Definition answers_ (generation : Z) (spec : option PdoSampleSpec) (head oldest : Z) : view :=
  mk_view generation (fun _ _ _ => spec) (fun _ _ _ => Some (VInt I32 7)) (fun _ => true) head oldest
    (fun s => Some (Ring.mk_record s (s * 1000) 3 [1; 0; 0; 0; 2; 0; 0; 0] [])).
Definition fresh_manager : manager := mk_manager ∅ 1 (Refresher.mk_state ∅ ∅).

(** Flush, record, flush, while the topic is removed and created again under the second flush. *)
Definition recreated : list label :=
  [LRegister cfg_a [pdo_plan 0] 1; LTake 0; LFlush (answers_ 1 (Some (spec_at 0)) 10 0); LCommit; LRecord 5; LTake 200;
   LRemove t_a; LRegister cfg_a [pdo_plan 0] 1; LFlush (answers_ 1 (Some (spec_at 0)) 15 0); LCommit; LRecord 5; LTake 400;
   LFlush (answers_ 1 (Some (spec_at 0)) 20 0); LCommit].


(** The references left for the one object of the examples. *)
Definition left_refs (c : option config_) : option (Z * nat) :=
  match c with Some c => Some (refs (refresher (mgr c)) (Refresher.makeKey 1 0x6064 0), size (entries (mgr c))) | None => None end.

(** What a removal or a re-map in the wrong moment does. (1) A monitoring removed while its flush moves an object out of the process
    image leaves a reference nobody gives back: the object is polled for ever. (2) Removed while its flush moves an object into the
    image, it gives its reference back twice, and the second one is another holder's: the object is no longer polled although it was
    asked to be kept fresh. (3) A re-map between the classification and the registration leaves the stream with the old layout under
    the new generation, so no flush ever corrects it. (4) When the recorder laps between the two reads of its bounds, the number of
    rows to reserve wraps around and the flush throws. *)
Theorem monitoring_limits :
  left_refs (run_labels mstep [LRegister cfg_a [pdo_plan 0] 1; LTake 0; LRemove t_a; LFlush (answers_ 2 None 10 0); LCommit]
    (start_config (Refresher.mk_state ∅ ∅) 10)) = Some (1, 0%nat) /\
  left_refs (run_labels mstep [LRegister cfg_a [sdo_plan] 1; LTake 0; LFlush (answers_ 2 (Some (spec_at 0)) 10 0); LRemove t_a; LCommit]
    (start_config (Refresher.acquire 1 0x6064 0 100 (Refresher.mk_state ∅ ∅)) 10)) = Some (0, 0%nat) /\
  (forall now : Z,
    let m := (create cfg_a (fun _ => answers_ 1 (Some (spec_at 0)) 10 0) (fun _ => None) 2 fresh_manager).1 in
    let m' := flushDue now true (fun _ => answers_ 2 (Some (spec_at 32)) 20 0) m in
    plans <$> entries m' !! t_a = Some [pdo_plan 0]) /\
  (flushDetached (answers_ 1 (Some (spec_at 0)) 10 11) (mk_flush t_a 1 100 [pdo_plan 0] 5 true 1) (Refresher.mk_state ∅ ∅)).2 = Thrown.
Proof.
  split; [vm_compute; reflexivity|]. split; [vm_compute; reflexivity|]. split; [|vm_compute; reflexivity].
  intros now. vm_compute. reflexivity.
Qed.
End Monitoring.
