(* ===== verification/ConfigFile.v ===== *)
(** * Configuration files ([libs/node/config_file.{h,cc}])

    The text of a drive's [config.csv]: how it is cut into lines and rows, written back, reduced to some
    of its rows, merged with another, and how the text of a value becomes a typed value. Bytes are kept
    as in the file. The comparisons that call [strtod] are left out. *)

From Stdlib Require Import Floats.SpecFloat.
From S2P Require Import Prelude Util DeviceParameter.

Module ConfigFile.
Import Util Param.

(** ** Text *)
Definition white (c : Z) : bool := (c =? 32) || (c =? 9) || (c =? 11) || (c =? 12).

Fixpoint drop_while (p : Z -> bool) (l : text) : text :=
  match l with [] => [] | c :: l' => if p c then drop_while p l' else l end.
Fixpoint take_until (p : Z -> bool) (l : text) : text :=
  match l with [] => [] | c :: l' => if p c then [] else c :: take_until p l' end.

Definition trimLeft (l : text) : text := drop_while white l.
Definition trim (l : text) : text := reverse (drop_while white (reverse (drop_while white l))).

Fixpoint splitFields (l : text) : list text :=
  match l with
  | [] => [[]]
  | c :: l' => if c =? 44 then [] :: splitFields l'
               else match splitFields l' with [] => [[c]] | x :: xs => (c :: x) :: xs end
  end.

Definition kByteOrderMark : text := [0xEF; 0xBB; 0xBF].
Definition strip_bom (l : text) : text :=
  match l with 0xEF :: 0xBB :: 0xBF :: l' => l' | _ => l end.
Definition strip_eol (l : text) : text := reverse (drop_while (fun c => (c =? 10) || (c =? 13)) (reverse l)).

(** [parseWhole<T>] for an unsigned type of [w] bits. *)
Definition parseUnsigned (w base : Z) (l : text) : option Z :=
  match from_chars w base l with Some (v, []) => Some v | _ => None end.

(** [parseWhole<T>] for a signed type of [w] bits: a minus sign, no plus sign. *)
Definition parseSigned (w : Z) (l : text) : option Z :=
  let range v := if (- 2 ^ (w - 1) <=? v) && (v <? 2 ^ (w - 1)) then Some v else None in
  match l with
  | 45 :: l' => match from_chars 64 10 l' with Some (v, []) => range (- v) | _ => None end
  | _ => match from_chars 64 10 l with Some (v, []) => range v | _ => None end
  end.

Definition parseIndex (l : text) : option Z :=
  let l := trim l in
  let l := match l with 48 :: c :: l' => if (c =? 120) || (c =? 88) then l' else l | _ => l end in
  parseUnsigned 16 16 l.

Definition parseSubindex (l : text) : option Z := parseUnsigned 8 10 (trim l).

(** ** Files *)
Record ConfigFileRow := mk_row { line : nat; index : Z; subindex : Z; value : text }.
Definition trimmedValue (r : ConfigFileRow) : text := trim (value r).
Definition address (r : ConfigFileRow) : Z * Z := (index r, subindex r).

Inductive problem :=
  | MetaAfterRow | UnknownMeta | MetaNoNumber | TooFewFields | ValueWithComma | BadIndex (t : text) | BadSubindex (t : text).

Record ConfigFile := mk_file {
  lines : list text; format : Z; comments : list text; rows : list ConfigFileRow; problems : list (nat * problem) }.

Definition firmwareVersion (f : ConfigFile) : option text :=
  List.find (fun t => match t with c :: d :: _ => (c =? 118) && (48 <=? d) && (d <=? 57) | _ => false end) (trim <$> comments f).

Definition deviceName (f : ConfigFile) : option text :=
  match comments f with
  | [] => None
  | c :: _ => if bool_decide (firmwareVersion f = Some (trim c)) then None else Some (trim c)
  end.

(** The lines of a text, each with its line feed. *)
Fixpoint split_lines (l : text) : list text :=
  match l with
  | [] => []
  | c :: l' => if c =? 10 then [10] :: split_lines l'
               else match split_lines l' with [] => [[c]] | x :: xs => (c :: x) :: xs end
  end.

Inductive line_kind :=
  | Blank | Comment (t : text) | Meta (fields : list text) | Row (idx sub : Z) (v : text) | Bad (p : problem).

(** What a line is; [first] says that it is the first of its file. *)
Definition kind_of (first : bool) (l : text) : line_kind :=
  let l := strip_eol (if first then strip_bom l else l) in
  match trim l with
  | [] => Blank
  | _ =>
      match l with
      | 35 :: 32 :: l' => Comment l'
      | 35 :: l' => Comment l'
      | _ =>
          let fields := splitFields (take_until (Z.eqb 35) l) in
          match fields with
          | a :: rest =>
              if bool_decide (a = codes "META") then Meta fields
              else match rest with
                   | [b; c] =>
                       match parseIndex a with
                       | None => Bad (BadIndex (trim a))
                       | Some idx =>
                           if idx <? 0x1000 then Bad (BadIndex (trim a))
                           else match parseSubindex b with
                                | None => Bad (BadSubindex (trim b))
                                | Some sub => Row idx sub c
                                end
                       end
                   | _ :: _ :: _ => Bad ValueWithComma
                   | _ => Bad TooFewFields
                   end
          | [] => Bad TooFewFields
          end
      end
  end.

(** The loop over the lines: the file so far and whether a row was seen. *)
Definition parse_step (i : nat) (l : text) (st : ConfigFile * bool) : ConfigFile * bool :=
  let '(f, rowsStarted) := st in
  let add_problem p := (mk_file (lines f) (format f) (comments f) (rows f) (problems f ++ [(S i, p)]), rowsStarted) in
  match kind_of (i =? 0)%nat l with
  | Blank => st
  | Comment t => (mk_file (lines f) (format f) (comments f ++ [t]) (rows f) (problems f), rowsStarted)
  | Meta fields =>
      if rowsStarted then add_problem MetaAfterRow
      else match fields with
           | [_; a; b] =>
               if negb (bool_decide (trim a = codes "FORMAT")) then add_problem UnknownMeta
               else match parseSigned 32 (trim b) with
                    | Some n => (mk_file (lines f) n (comments f) (rows f) (problems f), rowsStarted)
                    | None => add_problem MetaNoNumber
                    end
           | _ => add_problem UnknownMeta
           end
  | Bad p => add_problem p
  | Row idx sub v => (mk_file (lines f) (format f) (comments f) (rows f ++ [mk_row (S i) idx sub v]) (problems f), true)
  end.

Fixpoint parse_lines (i : nat) (ls : list text) (st : ConfigFile * bool) : ConfigFile * bool :=
  match ls with [] => st | l :: ls' => parse_lines (S i) ls' (parse_step i l st) end.

Definition parseConfigFile (t : text) : ConfigFile :=
  (parse_lines 0 (split_lines t) (mk_file (split_lines t) 0 [] [] [], false)).1.

Definition writeConfigFile (f : ConfigFile) : text := concat (lines f).

(** ** Rows as the drive writes them *)
Definition hex_lower (d : Z) : Z := if d <? 10 then 48 + d else 87 + d.
Definition hex4 (x : Z) : text := (fun s => hex_lower (Z.land (Z.shiftr x s) 15)) <$> [12; 8; 4; 0].
Definition dec2 (x : Z) : text := if x <? 10 then [32; 48 + x] else decimal x.

Definition formatConfigFileRow (idx sub : Z) (v : text) : text :=
  codes "0x" ++ hex4 idx ++ codes ", " ++ dec2 sub ++ codes ",  " ++ v ++ [10].

Definition selectConfigFileRows (f : ConfigFile) (keep : list (Z * Z)) : ConfigFile :=
  let dropped := foldl (fun d r => <[(line r - 1)%nat := negb (bool_decide (address r ∈ keep))]> d) (replicate (length (lines f)) false) (rows f) in
  parseConfigFile (concat (omap (fun p => if p.2 : bool then None else Some p.1) (zip (lines f) dropped))).

(** The lines of [base] that hold a row at an address. *)
Definition linesAt (base : ConfigFile) (a : Z * Z) : list nat :=
  (fun r => (line r - 1)%nat) <$> List.filter (fun r => bool_decide (address r = a)) (rows base).

Definition merge_row (base : ConfigFile) (st : list text * text) (r : ConfigFileRow) : list text * text :=
  let '(ls, added) := st in
  let formatted := formatConfigFileRow (index r) (subindex r) (trimmedValue r) in
  match linesAt base (address r) with
  | [] => (ls, added ++ formatted)
  | at_ => (foldl (fun ls i => <[i := formatted]> ls) ls at_, added)
  end.

Definition ends_with_feed (l : text) : bool := match last l with Some 10 => true | _ => false end.

Definition mergeConfigFiles (base update : ConfigFile) : ConfigFile :=
  let '(ls, added) := foldl (merge_row base) (lines base, []) (rows update) in
  let t := concat ls in
  let t := match added, t with _ :: _, _ :: _ => if negb (ends_with_feed t) then t ++ [10] else t | _, _ => t end in
  parseConfigFile (t ++ added).

(** ** Values *)
Inductive ConfigRowOutcome := kLoads | kUnknownObject | kNotLoadable.

Definition isWhitelistedCommunicationIndex (i : Z) : bool :=
  ((0x1600 <=? i) && (i <=? 0x1603)) || ((0x1A00 <=? i) && (i <=? 0x1A03)) || ((0x1C10 <=? i) && (i <=? 0x1C13)).

Definition isLoadableDataType (dt : Z) : bool :=
  is_type dt [BOOLEAN; INTEGER8; INTEGER16; INTEGER32; UNSIGNED8; UNSIGNED16; UNSIGNED32; REAL32; VISIBLE_STRING].

Definition configRowOutcome (i : Z) (object : option DeviceParameter) : ConfigRowOutcome :=
  match object with
  | None => kUnknownObject
  | Some p =>
      if (i <? 0x2000) && negb (isWhitelistedCommunicationIndex i) then kNotLoadable
      else if (0x2000 <=? i) && (Z.land (access p) 0x0100 =? 0) then kNotLoadable
      else if negb (isLoadableDataType (dataType p)) then kNotLoadable
      else kLoads
  end.

Inductive ValueError := NotWhole (t : text) | OutOfRange (v : Z) | EmptyValue | BadCharacter (t : text) (c : Z) | NotNumber (t : text)
  | NotBoolean | NotLoaded (dt : Z).

Definition parseInteger (t : IntType) (l : text) : expected ValueError DeviceParameterValue :=
  let l := trim l in
  let l := match l with 43 :: l' => l' | _ => l end in
  match parseSigned 64 l with
  | None => Unexpected (NotWhole l)
  | Some v => if in_range t v then Value (VInt t v) else Unexpected (OutOfRange v)
  end.

Definition kFractionalDigits : nat := 10.

Record real_scan := mk_scan { integerPart : Z; decimalPart : Z; decimalDigits : nat; point : bool; digits : bool }.

(** The loop over the characters: the offending one, or what was read. *)
Fixpoint scan_real (l : text) (s : real_scan) : Z + real_scan :=
  match l with
  | [] => inr s
  | c :: l' =>
      if (c =? 46) && negb (point s) then scan_real l' (mk_scan (integerPart s) (decimalPart s) (decimalDigits s) true (digits s))
      else if (48 <=? c) && (c <=? 57) then
        if negb (point s) then scan_real l' (mk_scan (u64 (integerPart s * 10 + (c - 48))) (decimalPart s) (decimalDigits s) (point s) true)
        else if (decimalDigits s <? kFractionalDigits)%nat then
          scan_real l' (mk_scan (integerPart s) (u64 (decimalPart s * 10 + (c - 48))) (S (decimalDigits s)) (point s) true)
        else scan_real l' (mk_scan (integerPart s) (decimalPart s) (decimalDigits s) (point s) true)
      else inl c
  end.

(** Single and double precision arithmetic, rounded to nearest even. *)
Definition f32_add (x y : spec_float) : spec_float := SFadd 24 128 x y.
Definition f32_div (x y : spec_float) : spec_float := SFdiv 24 128 x y.
Definition f64_mul (x y : spec_float) : spec_float := SFmul 53 1024 x y.
Definition as_float (x : spec_float) : DeviceParameterValue := VFloat (bits_of_float 23 8 x).

Definition parseReal (l : text) : expected ValueError DeviceParameterValue :=
  match trimLeft l with
  | [] => Unexpected EmptyValue
  | c :: l' =>
      let negative := c =? 45 in
      let l := if negative then l' else c :: l' in
      match scan_real l (mk_scan 0 0 0 false false) with
      | inl c => Unexpected (BadCharacter l c)
      | inr s =>
          if negb (digits s) then Unexpected (NotNumber l)
          else
            let result := f32_add (float_of_Z 23 8 (integerPart s))
              (f32_div (float_of_Z 23 8 (decimalPart s)) (float_of_Z 23 8 (10 ^ Z.of_nat (decimalDigits s)))) in
            Value (as_float (if negative then SFopp result else result))
      end
  end.

(** The double nearest to [1e-10]. *)
Definition e_10 : spec_float := f64 0x3DDB7CDFD9D7BDBB.

Definition parseRealFormat0 (l : text) : expected ValueError DeviceParameterValue :=
  let l := trim l in
  let whole := parseSigned 64 (take_until (Z.eqb 46) l) in
  let fraction := match drop_while (fun c => negb (c =? 46)) l with [] => Some 0 | _ :: l' => parseSigned 64 l' end in
  match whole, fraction with
  | Some w, Some fr =>
      let result := f32_add (float_of_Z 23 8 (Z.abs w)) (round_to 23 8 (f64_mul (float_of_Z 52 11 fr) e_10)) in
      Value (as_float (if w <? 0 then SFopp result else result))
  | _, _ => Unexpected (NotNumber l)
  end.

Definition parseConfigFileValue (object : DeviceParameter) (l : text) (fmt : Z) : expected ValueError DeviceParameterValue :=
  let dt := dataType object in
  if is_type dt [BOOLEAN] then
    match parseInteger U8 l with
    | Value (VInt U8 v) => if 1 <? v then Unexpected NotBoolean else Value (VInt U8 v)
    | r => r
    end
  else if is_type dt [INTEGER8] then parseInteger I8 l
  else if is_type dt [INTEGER16] then parseInteger I16 l
  else if is_type dt [INTEGER32] then parseInteger I32 l
  else if is_type dt [UNSIGNED8] then parseInteger U8 l
  else if is_type dt [UNSIGNED16] then parseInteger U16 l
  else if is_type dt [UNSIGNED32] then parseInteger U32 l
  else if is_type dt [REAL32] then (if fmt =? 0 then parseRealFormat0 l else parseReal l)
  else if is_type dt [VISIBLE_STRING] then Value (VString (trimLeft l))
  else Unexpected (NotLoaded dt).

Definition isSafetyConfigIndex (i : Z) : bool := ((0x2600 <=? i) && (i <=? 0x26FF)) || ((0x6600 <=? i) && (i <=? 0x67EF)).

(** ** Lines *)
Definition terminated (l : text) : Prop := exists l', l = l' ++ [10] /\ 10 ∉ l'.

(** Lines as a text is cut into them: only the last may lack its line feed. *)
Fixpoint proper (ls : list text) : Prop :=
  match ls with
  | [] => True
  | l :: ls' => match ls' with [] => terminated l \/ (l <> [] /\ 10 ∉ l) | _ => terminated l end /\ proper ls'
  end.

Lemma concat_split_lines t : concat (split_lines t) = t.
Proof.
  induction t as [|c t IH]; [done|]. cbn [split_lines]. destruct (Z.eqb_spec c 10) as [->|]; [cbn; by rewrite IH|].
  destruct (split_lines t) as [|x xs]; cbn in *; by rewrite <- IH.
Qed.

Lemma split_lines_proper t : proper (split_lines t).
Proof.
  induction t as [|c t IH]; [done|]. cbn [split_lines]. destruct (Z.eqb_spec c 10) as [->|Hc].
  { assert (Ht : terminated [10]) by (exists []; split; [done|apply not_elem_of_nil]). cbn [proper]. destruct (split_lines t); auto. }
  destruct (split_lines t) as [|x xs]; cbn [proper] in *.
  - split; [|done]. right. split; [done|]. rewrite list_elem_of_singleton. congruence.
  - destruct IH as [Hx Hxs]. split; [|done].
    assert (Hter : terminated x -> terminated (c :: x)).
    { intros (l' & -> & Hn). exists (c :: l'). split; [done|]. rewrite not_elem_of_cons. split; [congruence|done]. }
    destruct xs; [|by apply Hter]. destruct Hx as [Hx|[Hx Hn]]; [left; by apply Hter|right]. split; [done|]. rewrite not_elem_of_cons. split; [congruence|done].
Qed.

Lemma split_lines_feed l rest : 10 ∉ l -> split_lines (l ++ 10 :: rest) = (l ++ [10]) :: split_lines rest.
Proof.
  induction l as [|c l IH]; intros Hn; [done|]. rewrite not_elem_of_cons in Hn. destruct Hn as [Hc Hn]. cbn [app split_lines].
  rewrite (proj2 (Z.eqb_neq c 10)) by done. by rewrite IH.
Qed.

Lemma split_lines_last l : l <> [] -> 10 ∉ l -> split_lines l = [l].
Proof.
  induction l as [|c l IH]; intros Hne Hn; [done|]. rewrite not_elem_of_cons in Hn. destruct Hn as [Hc Hn]. cbn [split_lines].
  rewrite (proj2 (Z.eqb_neq c 10)) by done. destruct l; [done|]. by rewrite IH.
Qed.

Lemma split_concat ls : proper ls -> split_lines (concat ls) = ls.
Proof.
  induction ls as [|l ls IH]; [done|]. intros [Hl Hp]. cbn [concat]. specialize (IH Hp).
  destruct ls as [|l2 ls].
  - cbn. rewrite app_nil_r. destruct Hl as [(l' & -> & Hn)|[Hne Hn]]; [|by apply split_lines_last]. by rewrite split_lines_feed.
  - destruct Hl as (l' & -> & Hn). rewrite <- app_assoc. cbn [app]. by rewrite split_lines_feed, IH.
Qed.

Lemma proper_app ls ks : Forall terminated ls -> proper ks -> proper (ls ++ ks).
Proof.
  intros Hl Hk. induction Hl as [|l ls Ht Hl IH]; [done|]. cbn [app proper]. split; [|done]. destruct (ls ++ ks); auto.
Qed.

(** ** Rows of a file *)
Definition row_data (first : bool) (l : text) : option (Z * Z * text) :=
  match kind_of first l with Row idx sub v => Some (idx, sub, v) | _ => None end.

Fixpoint rows_from (i : nat) (ls : list text) : list ConfigFileRow :=
  match ls with
  | [] => []
  | l :: ls' => match row_data (i =? 0)%nat l with Some (idx, sub, v) => [mk_row (S i) idx sub v] | None => [] end ++ rows_from (S i) ls'
  end.

Lemma parse_lines_rows ls : forall i st, rows (parse_lines i ls st).1 = rows st.1 ++ rows_from i ls /\ lines (parse_lines i ls st).1 = lines st.1.
Proof.
  induction ls as [|l ls IH]; intros i [f b]; cbn [parse_lines rows_from]; [by rewrite app_nil_r|].
  destruct (IH (S i) (parse_step i l (f, b))) as [-> ->].
  assert (Hs : rows (parse_step i l (f, b)).1 = rows f ++ match row_data (i =? 0)%nat l with Some (idx, sub, v) => [mk_row (S i) idx sub v] | None => [] end /\
    lines (parse_step i l (f, b)).1 = lines f).
  { unfold parse_step, row_data. destruct (kind_of (i =? 0)%nat l) as [|t|fields|idx sub v|pr]; cbn [fst rows lines]; rewrite ?app_nil_r; try done.
    repeat case_match; done. }
  destruct Hs as [-> ->]. by rewrite app_assoc.
Qed.

Lemma parse_rows t : rows (parseConfigFile t) = rows_from 0 (split_lines t) /\ lines (parseConfigFile t) = split_lines t.
Proof. unfold parseConfigFile. by destruct (parse_lines_rows (split_lines t) 0 (mk_file (split_lines t) 0 [] [] [], false)) as [-> ->]. Qed.

Lemma config_text_preserved t : writeConfigFile (parseConfigFile t) = t.
Proof. unfold writeConfigFile. rewrite (proj2 (parse_rows t)). apply concat_split_lines. Qed.

(** Rows without their line numbers, which only depend on which line is the first. *)
Fixpoint data_from (first : bool) (ls : list text) : list (Z * Z * text) :=
  match ls with [] => [] | l :: ls' => match row_data first l with Some d => [d] | None => [] end ++ data_from false ls' end.
Definition data_of (r : ConfigFileRow) : Z * Z * text := (index r, subindex r, value r).

Lemma rows_data i ls : data_of <$> rows_from i ls = data_from (i =? 0)%nat ls.
Proof.
  revert i. induction ls as [|l ls IH]; intros i; [done|]. cbn [rows_from data_from]. rewrite fmap_app, IH. cbn [Nat.eqb].
  f_equal. by destruct (row_data _ l) as [[[idx sub] v]|].
Qed.

(** ** Selecting rows *)
Definition drop_line (keep : list (Z * Z)) (first : bool) (l : text) : bool :=
  match row_data first l with Some (idx, sub, _) => negb (bool_decide ((idx, sub) ∈ keep)) | None => false end.
Fixpoint drops (keep : list (Z * Z)) (first : bool) (ls : list text) : list bool :=
  match ls with [] => [] | l :: ls' => drop_line keep first l :: drops keep false ls' end.
Fixpoint kept_lines (keep : list (Z * Z)) (first : bool) (ls : list text) : list text :=
  match ls with [] => [] | l :: ls' => if drop_line keep first l then kept_lines keep false ls' else l :: kept_lines keep false ls' end.

Lemma dropped_lines keep ls : forall k pre, length pre = k ->
  foldl (fun d r => <[(line r - 1)%nat := negb (bool_decide (address r ∈ keep))]> d) (pre ++ replicate (length ls) false) (rows_from k ls) =
  pre ++ drops keep (k =? 0)%nat ls.
Proof.
  induction ls as [|l ls IH]; intros k pre Hk; [done|]. cbn [rows_from drops length replicate]. rewrite foldl_app.
  assert (Hone : foldl (fun d r => <[(line r - 1)%nat := negb (bool_decide (address r ∈ keep))]> d) (pre ++ false :: replicate (length ls) false)
      match row_data (k =? 0)%nat l with Some (idx, sub, v) => [mk_row (S k) idx sub v] | None => [] end =
    (pre ++ [drop_line keep (k =? 0)%nat l]) ++ replicate (length ls) false).
  { unfold drop_line. destruct (row_data (k =? 0)%nat l) as [[[idx sub] v]|]; cbn [foldl]; [|by rewrite <- app_assoc].
    cbn [line]. replace (S k - 1)%nat with (length pre + 0)%nat by lia. rewrite insert_app_r. cbn [insert list_insert]. by rewrite <- app_assoc. }
  rewrite Hone, (IH (S k)) by (rewrite length_app; cbn; lia). cbn [Nat.eqb]. by rewrite <- app_assoc.
Qed.

Lemma kept_zip keep ls : forall first, omap (fun p : text * bool => if p.2 then None else Some p.1) (zip ls (drops keep first ls)) = kept_lines keep first ls.
Proof. induction ls as [|l ls IH]; intros first; [done|]. cbn. rewrite IH. by destruct (drop_line keep first l). Qed.

Lemma kept_proper keep ls : forall first, proper ls -> proper (kept_lines keep first ls).
Proof.
  induction ls as [|l ls IH]; intros first Hp; [done|]. destruct Hp as [Hl Hp]. specialize (IH false Hp). cbn [kept_lines].
  destruct (drop_line keep first l); [done|]. cbn [proper]. split; [|done]. destruct ls as [|l2 ls]; [done|]. destruct (kept_lines _ _ _); auto.
Qed.

(** A line without a byte order mark reads the same wherever it stands. *)
Lemma row_data_first l : strip_bom l = l -> row_data true l = row_data false l.
Proof. intros H. unfold row_data, kind_of. by rewrite H. Qed.

Lemma data_first b ls : Forall (fun l => strip_bom l = l) ls -> data_from b ls = data_from false ls.
Proof. intros H. destruct b; [|done]. destruct H as [|l ls Hl _]; [done|]. cbn. by rewrite row_data_first. Qed.

Lemma kept_data keep ls : forall first, Forall (fun l => strip_bom l = l) (tail ls) ->
  data_from first (kept_lines keep first ls) = List.filter (fun d => bool_decide (d.1 ∈ keep)) (data_from first ls).
Proof.
  assert (Hno : forall ls, Forall (fun l => strip_bom l = l) ls -> Forall (fun l => strip_bom l = l) (kept_lines keep false ls)).
  { intros ks. induction 1 as [|k ks Hk _ IHk]; [constructor|]. cbn. destruct (drop_line keep false k); [done|]. by constructor. }
  assert (Htail : forall ls, Forall (fun l => strip_bom l = l) ls ->
    data_from false (kept_lines keep false ls) = List.filter (fun d => bool_decide (d.1 ∈ keep)) (data_from false ls)).
  { intros ks. induction 1 as [|k ks Hk _ IHk]; [done|]. cbn [kept_lines data_from]. rewrite List.filter_app, <- IHk. unfold drop_line.
    destruct (row_data false k) as [[[idx sub] v]|] eqn:E; cbn [List.filter app].
    - cbn [fst]. destruct (bool_decide ((idx, sub) ∈ keep)); cbn [negb app]; [|done]. cbn [data_from]. by rewrite E.
    - cbn [data_from]. by rewrite E. }
  intros first Ht. destruct ls as [|l ls]; [done|]. cbn [tail] in Ht. cbn [kept_lines data_from]. rewrite List.filter_app, <- (Htail ls Ht). unfold drop_line.
  destruct (row_data first l) as [[[idx sub] v]|] eqn:E; cbn [List.filter app].
  - cbn [fst]. destruct (bool_decide ((idx, sub) ∈ keep)); cbn [negb app]; [cbn [data_from]; by rewrite E|]. apply data_first, Hno, Ht.
  - cbn [data_from]. by rewrite E.
Qed.

(** The rows kept are the rows at the kept addresses, with their values and in their order. *)
Lemma select_rows t keep : Forall (fun l => strip_bom l = l) (tail (split_lines t)) ->
  data_of <$> rows (selectConfigFileRows (parseConfigFile t) keep) =
  List.filter (fun d => bool_decide (d.1 ∈ keep)) (data_of <$> rows (parseConfigFile t)).
Proof.
  intros Hb. unfold selectConfigFileRows. destruct (parse_rows t) as [-> ->].
  pose proof (dropped_lines keep (split_lines t) 0 [] eq_refl) as Hd. cbn [app Nat.eqb] in Hd. rewrite Hd, kept_zip.
  destruct (parse_rows (concat (kept_lines keep true (split_lines t)))) as [-> _].
  rewrite split_concat by (apply kept_proper, split_lines_proper). rewrite !rows_data. by apply kept_data.
Qed.

(** ** A formatted row reads back *)
Definition edges_ok (l : text) : Prop :=
  match head l, last l with Some a, Some b => white a = false /\ white b = false | _, _ => False end.

Lemma drop_while_all p ws l : Forall (fun c => p c = true) ws -> drop_while p (ws ++ l) = drop_while p l.
Proof. induction 1 as [|c ws Hc _ IH]; [done|]. cbn. by rewrite Hc. Qed.

Lemma drop_while_head p l : match head l with Some a => p a = false | None => True end -> drop_while p l = l.
Proof. destruct l as [|a l]; [done|]. cbn. by intros ->. Qed.

Lemma head_reverse (l : text) : head (reverse l) = last l.
Proof. destruct l as [|a l] using rev_ind; [done|]. by rewrite reverse_snoc, last_snoc. Qed.

Lemma trim_edges ws l : Forall (fun c => white c = true) ws -> edges_ok l -> trim (ws ++ l) = l.
Proof.
  intros Hw He. unfold trim. rewrite drop_while_all by done. unfold edges_ok in He.
  destruct (head l) as [a|] eqn:Ea; [|done]. destruct (last l) as [b|] eqn:Eb; [|done]. destruct He as [Ha Hb].
  rewrite (drop_while_head white l) by (by rewrite Ea). rewrite drop_while_head, reverse_involutive; [done|]. by rewrite head_reverse, Eb.
Qed.

Lemma trim_white ws : Forall (fun c => white c = true) ws -> trim ws = [].
Proof. intros Hw. unfold trim. pose proof (drop_while_all white ws [] Hw) as E. rewrite app_nil_r in E. by rewrite E. Qed.

Lemma drop_while_spec p l : drop_while p l = [] \/ exists a k, drop_while p l = a :: k /\ p a = false.
Proof. induction l as [|c l IH]; [by left|]. cbn. destruct (p c) eqn:E; [done|]. right. by exists c, l. Qed.

Lemma drop_while_suffix p l : exists k, l = k ++ drop_while p l.
Proof. induction l as [|c l [k IH]]; [by exists []|]. cbn. destruct (p c); [exists (c :: k); cbn; by f_equal|by exists []]. Qed.

Lemma trim_result w : trim w = [] \/ edges_ok (trim w).
Proof.
  unfold trim. destruct (drop_while_spec white w) as [->|(a & k & -> & Ha)]; [by left|].
  destruct (drop_while_spec white (reverse (a :: k))) as [->|(b & m & E & Hb)]; [by left|]. right. rewrite E.
  destruct (drop_while_suffix white (reverse (a :: k))) as [z Ez]. rewrite E in Ez.
  assert (Er : a :: k = reverse (b :: m) ++ reverse z) by (rewrite <- reverse_app, <- Ez; by rewrite reverse_involutive).
  unfold edges_ok. rewrite reverse_cons, last_snoc in *. destruct (reverse m ++ [b]) as [|x y] eqn:Ex; [by destruct (reverse m)|].
  cbn in Er. injection Er as -> _. done.
Qed.

Lemma trim_value w : trim ([32; 32] ++ trim w) = trim w.
Proof.
  destruct (trim_result w) as [E|E]; [rewrite E, app_nil_r; apply trim_white; by repeat constructor|].
  apply trim_edges; [by repeat constructor|done].
Qed.

Lemma take_until_none p l : Forall (fun c => p c = false) l -> take_until p l = l.
Proof. induction 1 as [|c l Hc _ IH]; [done|]. cbn. by rewrite Hc, IH. Qed.

Lemma splitFields_one l : 44 ∉ l -> splitFields l = [l].
Proof.
  induction l as [|c l IH]; intros Hn; [done|]. rewrite not_elem_of_cons in Hn. destruct Hn as [Hc Hn]. cbn [splitFields].
  rewrite (proj2 (Z.eqb_neq c 44)) by done. by rewrite IH.
Qed.

Lemma splitFields_app l k : 44 ∉ l -> splitFields (l ++ 44 :: k) = l :: splitFields k.
Proof.
  induction l as [|c l IH]; intros Hn; [done|]. rewrite not_elem_of_cons in Hn. destruct Hn as [Hc Hn]. cbn [app splitFields].
  rewrite (proj2 (Z.eqb_neq c 44)) by done. by rewrite IH.
Qed.

Lemma strip_eol_feed l : strip_eol (l ++ [10]) = strip_eol l.
Proof. unfold strip_eol. by rewrite reverse_snoc. Qed.

Lemma strip_eol_id l : last l <> Some 10 -> last l <> Some 13 -> strip_eol l = l.
Proof.
  intros H1 H2. unfold strip_eol. rewrite drop_while_head, reverse_involutive; [done|]. rewrite head_reverse.
  destruct (last l) as [c|]; [|done]. apply orb_false_iff. rewrite !Z.eqb_neq. split; congruence.
Qed.

Lemma nibble x s : 0 <= Z.land (Z.shiftr x s) 15 < 16.
Proof. change 15 with (Z.ones 4). rewrite Z.land_ones by lia. apply Z.mod_pos_bound. lia. Qed.

Lemma hex_lower_digit d : 0 <= d < 16 -> digit (hex_lower d) = d /\ 48 <= hex_lower d <= 102.
Proof.
  intros Hd. unfold hex_lower, digit. destruct (Z.ltb_spec d 10).
  - rewrite (proj2 (andb_true_iff _ _)) by lia. lia.
  - rewrite (proj2 (andb_false_iff (48 <=? 87 + d) _)) by lia. rewrite (proj2 (andb_true_iff _ _)) by lia. lia.
Qed.

Lemma hex4_value x : in_u 16 x ->
  ((Z.land (Z.shiftr x 12) 15 * 16 + Z.land (Z.shiftr x 8) 15) * 16 + Z.land (Z.shiftr x 4) 15) * 16 + Z.land (Z.shiftr x 0) 15 = x.
Proof.
  intros Hx. change 15 with (Z.ones 4). rewrite !Z.land_ones, !Z.shiftr_div_pow2 by lia. unfold in_u in Hx.
  change (2 ^ 12) with 4096. change (2 ^ 8) with 256. change (2 ^ 4) with 16. change (2 ^ 0) with 1. Z.div_mod_to_equations. lia.
Qed.

Lemma parse_hex4 x : in_u 16 x -> parseUnsigned 16 16 (hex4 x) = Some x.
Proof.
  intros Hx. pose proof (hex4_value x Hx) as Hv. unfold parseUnsigned, hex4. cbn [fmap list_fmap].
  pose proof (nibble x 12) as H3. pose proof (nibble x 8) as H2. pose proof (nibble x 4) as H1. pose proof (nibble x 0) as H0.
  revert Hv H3 H2 H1 H0. generalize (Z.land (Z.shiftr x 12) 15) (Z.land (Z.shiftr x 8) 15) (Z.land (Z.shiftr x 4) 15) (Z.land (Z.shiftr x 0) 15).
  intros d3 d2 d1 d0 Hv H3 H2 H1 H0. destruct (hex_lower_digit d3 H3) as [E3 _]. destruct (hex_lower_digit d2 H2) as [E2 _].
  destruct (hex_lower_digit d1 H1) as [E1 _]. destruct (hex_lower_digit d0 H0) as [E0 _].
  assert (Hok : forall d, 0 <= d < 16 -> (0 <=? d) && (d <? 16) = true) by (intros; apply andb_true_iff; lia).
  unfold from_chars. cbn [digits_prefix]. rewrite E3, E2, E1, E0, !Hok by done.
  replace (((((0 * 16 + d3) * 16 + d2) * 16 + d1) * 16 + d0)) with x by lia. by rewrite (proj2 (Z.ltb_lt _ _)) by apply Hx.
Qed.

(** A value that fits on a line. *)
Definition clean (v : text) : Prop := (44 ∉ v) /\ (35 ∉ v) /\ (10 ∉ v) /\ last v <> Some 13 /\ (v = [] \/ edges_ok v).

Lemma decimal_small d : 0 <= d < 10 -> decimal d = [48 + d].
Proof. intros Hd. unfold decimal. cbn [dec_loop]. by rewrite (proj2 (Z.ltb_lt d 10)) by lia. Qed.

Lemma dec2_shape d : in_u 8 d -> exists ws, dec2 d = ws ++ decimal d /\ Forall (fun c => c = 32) ws.
Proof.
  intros Hd. unfold dec2. destruct (Z.ltb_spec d 10); [|by exists []]. exists [32]. unfold in_u in Hd. rewrite decimal_small by lia. split; [done|by repeat constructor].
Qed.

Lemma decimal_edges d : in_u 64 d -> edges_ok (decimal d) /\ Forall is_digit (decimal d).
Proof.
  intros Hd. destruct (decimal_spec d Hd) as (ds & -> & Hds & Hne & _). split; [|done].
  assert (Hw : forall c, is_digit c -> white c = false) by (intros c Hc; unfold is_digit, white in *; rewrite !orb_false_iff, !Z.eqb_neq; lia).
  unfold edges_ok. destruct ds as [|a l]; [done|]. cbn [head]. destruct (last (a :: l)) as [b|] eqn:Eb; [|by apply last_None in Eb].
  rewrite Forall_forall in Hds. split; apply Hw, Hds; [apply elem_of_cons; by left|]. apply last_Some in Eb as [k ->]. set_solver.
Qed.

(** The first two fields of a formatted row. *)
Lemma white_visible c : 33 <= c -> white c = false.
Proof. intros ?. unfold white. rewrite !orb_false_iff, !Z.eqb_neq. lia. Qed.

Lemma index_field idx : in_u 16 idx -> parseIndex (codes "0x" ++ hex4 idx) = Some idx /\ Forall (fun c => 48 <= c <= 120) (codes "0x" ++ hex4 idx).
Proof.
  intros Hi.
  assert (Hc : Forall (fun c => 48 <= c <= 102) (hex4 idx)).
  { unfold hex4. cbn [fmap list_fmap]. repeat constructor; apply (hex_lower_digit _ (nibble _ _)). }
  split.
  - unfold parseIndex. assert (Et : trim (codes "0x" ++ hex4 idx) = codes "0x" ++ hex4 idx).
    { apply (trim_edges []); [constructor|]. unfold edges_ok, hex4. cbn [fmap list_fmap app codes head last]. split; [done|].
      apply white_visible. pose proof (hex_lower_digit _ (nibble idx 0)). lia. }
    rewrite Et. change (codes "0x" ++ hex4 idx) with (48 :: 120 :: hex4 idx). cbn [orb Z.eqb Pos.eqb]. by apply parse_hex4.
  - apply Forall_app. split; [by repeat constructor|]. eapply Forall_impl; [exact Hc|]. cbn. lia.
Qed.

Lemma subindex_field sub : in_u 8 sub -> parseSubindex ([32] ++ dec2 sub) = Some sub /\ Forall (fun c => c = 32 \/ 48 <= c <= 57) (dec2 sub).
Proof.
  intros Hs. assert (H64 : in_u 64 sub) by (unfold in_u in *; lia).
  destruct (dec2_shape sub Hs) as (ws & -> & Hws). destruct (decimal_edges sub H64) as [He Hd]. split.
  - unfold parseSubindex. rewrite app_assoc, trim_edges; [|apply Forall_app; split; [by repeat constructor|]; eapply Forall_impl; [exact Hws|]; by intros ? ->|done].
    unfold parseUnsigned. by rewrite from_chars_decimal by (done || lia).
  - apply Forall_app. split; (eapply Forall_impl; [eassumption|]); cbn; [by left|]. unfold is_digit. intros; right; lia.
Qed.

Lemma drop_while_some p l c : c ∈ l -> p c = false -> drop_while p l <> [].
Proof.
  intros Hin Hc. induction l as [|a l IH]; [by apply elem_of_nil in Hin|]. cbn. destruct (p a) eqn:Ea; [|done].
  apply IH. apply elem_of_cons in Hin as [<-|]; [congruence|done].
Qed.

Lemma trim_nonempty c l : white c = false -> trim (c :: l) <> [].
Proof.
  intros Hc E. unfold trim in E. cbn [drop_while] in E. rewrite Hc in E. apply (f_equal reverse) in E. rewrite reverse_involutive in E.
  revert E. apply (drop_while_some _ _ c); [|done]. rewrite elem_of_reverse. by left.
Qed.

(** A row the code formats is read back as that row, whatever line it becomes. *)
Lemma format_row b idx sub v : in_u 16 idx -> 0x1000 <= idx -> in_u 8 sub -> clean v ->
  row_data b (formatConfigFileRow idx sub v) = Some (idx, sub, [32; 32] ++ v) /\ terminated (formatConfigFileRow idx sub v).
Proof.
  intros Hi H1000 Hs (Hcomma & Hhash & Hfeed & Hcr & _).
  destruct (index_field idx Hi) as [Ei Fi]. destruct (subindex_field sub Hs) as [Es Fs].
  set (A := codes "0x" ++ hex4 idx) in *. set (B := [32] ++ dec2 sub) in *. set (C := [32; 32] ++ v).
  assert (Ef : formatConfigFileRow idx sub v = (A ++ 44 :: B ++ 44 :: C) ++ [10]).
  { unfold formatConfigFileRow, A, B, C. rewrite <- !app_assoc. by cbn [codes app]; rewrite <- ?app_assoc. }
  rewrite Forall_forall in Fi, Fs.
  assert (Hin : forall c, c ∈ A ++ 44 :: B ++ 44 :: C -> c = 44 \/ c = 32 \/ 48 <= c <= 120 \/ c ∈ v).
  { intros c H. apply elem_of_app in H as [H|H]; [auto|]. apply elem_of_cons in H as [->|H]; [auto|].
    apply elem_of_app in H as [H|H]; [apply elem_of_cons in H as [->|H]; [auto|]; apply Fs in H; lia|].
    do 3 (apply elem_of_cons in H as [->|H]; [auto|]). auto. }
  assert (H10 : 10 ∉ A ++ 44 :: B ++ 44 :: C) by (intros H; apply Hin in H as [|[|[|]]]; [lia..|done]).
  assert (H35 : Forall (fun c => (35 =? c) = false) (A ++ 44 :: B ++ 44 :: C)).
  { apply Forall_forall. intros c Hc. apply Z.eqb_neq. apply Hin in Hc as [|[|[|]]]; [lia..|]. intros <-. done. }
  rewrite Ef. split; [|by exists (A ++ 44 :: B ++ 44 :: C)].
  assert (Hlast : strip_eol ((A ++ 44 :: B ++ 44 :: C) ++ [10]) = A ++ 44 :: B ++ 44 :: C).
  { rewrite strip_eol_feed. apply strip_eol_id; unfold C; rewrite app_comm_cons, app_assoc, last_app, last_cons, last_app; destruct (last v) eqn:El; try done.
    apply last_Some in El as [k ->]. set_solver. }
  assert (Hb : forall l, (if b then strip_bom (A ++ l) else A ++ l) = A ++ l) by (intros l; by destruct b).
  unfold row_data, kind_of. rewrite <- app_assoc, Hb, app_assoc, Hlast.
  destruct (trim (A ++ 44 :: B ++ 44 :: C)) as [|t ts] eqn:Et; [by apply trim_nonempty in Et|].
  rewrite take_until_none by done.
  assert (HA : 44 ∉ A) by (intros H; apply Fi in H; lia).
  assert (HB : 44 ∉ B) by (intros H; apply elem_of_cons in H as [H|H]; [lia|apply Fs in H; lia]).
  assert (HC : 44 ∉ C) by (intros H; do 2 (apply elem_of_cons in H as [H|H]; [lia|]); done).
  rewrite splitFields_app, splitFields_app, splitFields_one by done.
  rewrite bool_decide_false by done. rewrite Ei, (proj2 (Z.ltb_ge _ _)), Es by done. done.
Qed.

(** ** What a row of a parsed file holds *)
Lemma digits_prefix_nonneg base l : 0 <= base -> forall acc, 0 <= acc -> 0 <= (digits_prefix base acc l).1.
Proof.
  intros Hb. induction l as [|c l IH]; intros acc Ha; [done|]. cbn [digits_prefix].
  destruct ((0 <=? digit c) && (digit c <? base)) eqn:E; [|done]. apply andb_true_iff in E as [E _]. apply IH. nia.
Qed.

Lemma parseUnsigned_range w base l v : 0 <= base -> parseUnsigned w base l = Some v -> in_u w v.
Proof.
  intros Hb. unfold parseUnsigned, from_chars. destruct l as [|c l]; [done|]. destruct (_ && _); [|done].
  pose proof (digits_prefix_nonneg base (c :: l) Hb 0 ltac:(lia)). destruct (digits_prefix _ _ _) as [x rest]. cbn in *.
  destruct (Z.ltb_spec x (2 ^ w)); [|done]. destruct rest; [|done]. intros [= <-]. by split.
Qed.

Lemma drop_while_incl p l c : c ∈ drop_while p l -> c ∈ l.
Proof. destruct (drop_while_suffix p l) as [k E]. intros H. rewrite E. apply elem_of_app. by right. Qed.

Lemma trim_incl l c : c ∈ trim l -> c ∈ l.
Proof. unfold trim. rewrite elem_of_reverse. intros H%drop_while_incl. rewrite elem_of_reverse in H. by apply drop_while_incl in H. Qed.

Lemma take_until_in p l c : c ∈ take_until p l -> c ∈ l /\ p c = false.
Proof.
  induction l as [|a l IH]; cbn; [by intros ?%elem_of_nil|]. destruct (p a) eqn:Ea; [by intros ?%elem_of_nil|].
  rewrite !elem_of_cons. intros [->|[H1 H2]%IH]; auto.
Qed.

Lemma splitFields_in l x : x ∈ splitFields l -> (44 ∉ x) /\ forall c, c ∈ x -> c ∈ l.
Proof.
  revert x. induction l as [|a l IH]; intros x; cbn [splitFields].
  - intros ->%list_elem_of_singleton. split; [apply not_elem_of_nil|done].
  - destruct (Z.eqb_spec a 44) as [->|Ha].
    { rewrite elem_of_cons. intros [->|[H1 H2]%IH]; [split; [apply not_elem_of_nil|by intros ? ?%elem_of_nil]|]. split; [done|]. intros c Hc. right. auto. }
    destruct (splitFields l) as [|y ys].
    { intros ->%list_elem_of_singleton. rewrite list_elem_of_singleton. split; [congruence|]. intros c ->%list_elem_of_singleton. by left. }
    rewrite elem_of_cons. intros [->|Hx].
    + destruct (IH y ltac:(by left)) as [H1 H2]. rewrite not_elem_of_cons. split; [by split|]. intros c. rewrite !elem_of_cons. intros [->|]; auto.
    + destruct (IH x ltac:(by right)) as [H1 H2]. split; [done|]. intros c Hc. right. auto.
Qed.

Lemma drop_while_last p l c : p c = true -> drop_while p (c :: l) = drop_while p l.
Proof. intros H. cbn. by rewrite H. Qed.

Definition valid (d : Z * Z * text) : Prop :=
  in_u 16 d.1.1 /\ 0x1000 <= d.1.1 /\ in_u 8 d.1.2 /\ (44 ∉ d.2) /\ (35 ∉ d.2) /\ (10 ∉ d.2).

Lemma strip_no_feed b l : terminated l \/ (10 ∉ l) -> 10 ∉ strip_eol (if b : bool then strip_bom l else l).
Proof.
  assert (Hs : forall k, 10 ∉ k -> 10 ∉ strip_eol k).
  { intros k Hk H. unfold strip_eol in H. rewrite elem_of_reverse in H. apply drop_while_incl in H. by rewrite elem_of_reverse in H. }
  assert (Hb : forall k, 10 ∉ k -> 10 ∉ strip_bom k) by (intros k Hk; unfold strip_bom; repeat case_match; set_solver).
  intros [(l' & -> & Hn)|Hn]; [|destruct b; auto].
  destruct b; [|rewrite strip_eol_feed; auto].
  assert (E : strip_bom (l' ++ [10]) = strip_bom l' ++ [10]) by (destruct l' as [|? [|? [|]]]; unfold strip_bom; cbn [app]; repeat case_match; simplify_eq/=; done).
  rewrite E, strip_eol_feed. auto.
Qed.

Lemma row_valid b l d : terminated l \/ (10 ∉ l) -> row_data b l = Some d -> valid d.
Proof.
  intros Hl%(strip_no_feed b). unfold row_data, kind_of. set (k := strip_eol _) in *. clearbody k.
  destruct (trim k); [done|].
  set (fields := splitFields (take_until (Z.eqb 35) k)).
  assert (Hf : forall x, x ∈ fields -> (44 ∉ x) /\ (35 ∉ x) /\ (10 ∉ x)).
  { intros x [H1 H2]%splitFields_in. split_and!; [done| |]; intros H%H2%take_until_in; destruct H; done. }
  clearbody fields. intros E.
  assert (E' : match fields with
     | [a; b; c] => match parseIndex a, parseSubindex b with Some i, Some s => 0x1000 <= i /\ d = (i, s, c) | _, _ => False end | _ => False end).
  { repeat (case_match; simplify_eq/=; try done); (split; [by apply Z.ltb_ge|done]). }
  destruct fields as [|a [|s [|c [|]]]]; try done. destruct (parseIndex a) as [i|] eqn:Ei; [|done]. destruct (parseSubindex s) as [j|] eqn:Ej; [|done].
  destruct E' as [H1 ->]. destruct (Hf c ltac:(set_solver)) as (? & ? & ?). unfold valid. cbn.
  apply parseUnsigned_range in Ei, Ej; [|lia..]. done.
Qed.

Lemma proper_lines ls : proper ls -> Forall (fun l => terminated l \/ (10 ∉ l)) ls.
Proof.
  induction ls as [|l ls IH]; [constructor|]. intros [Hl Hp]. constructor; [|auto]. destruct ls; [|by left]. destruct Hl as [|[]]; auto.
Qed.

Lemma data_valid b ls : Forall (fun l => terminated l \/ (10 ∉ l)) ls -> Forall valid (data_from b ls).
Proof.
  intros H. revert b. induction H as [|l ls Hl _ IH]; intros b; cbn [data_from]; [constructor|].
  apply Forall_app. split; [|apply IH]. destruct (row_data b l) as [d|] eqn:E; [|constructor]. constructor; [by apply (row_valid b l)|constructor].
Qed.

Definition data (f : ConfigFile) : list (Z * Z * text) := data_of <$> rows f.

Lemma data_parsed t : data (parseConfigFile t) = data_from true (split_lines t) /\ Forall valid (data (parseConfigFile t)).
Proof.
  unfold data. rewrite (proj1 (parse_rows t)), rows_data. split; [done|]. apply data_valid, proper_lines, split_lines_proper.
Qed.

(** ** Merging *)

(** The value at an address, as the drive reads the rows: the last one, without its spaces. *)
Definition value_at (d : list (Z * Z * text)) (a : Z * Z) : option text :=
  last (omap (fun x => if bool_decide (x.1 = a) then Some (trim x.2) else None) d).

Lemma value_at_snoc d x a : value_at (d ++ [x]) a = if bool_decide (x.1 = a) then Some (trim x.2) else value_at d a.
Proof. unfold value_at. rewrite omap_app, last_app. cbn. by case_bool_decide. Qed.

Lemma value_at_one x a : value_at [x] a = if bool_decide (x.1 = a) then Some (trim x.2) else None.
Proof. exact (value_at_snoc [] x a). Qed.

Lemma value_at_app d e a : value_at (d ++ e) a = match value_at e a with Some v => Some v | None => value_at d a end.
Proof. unfold value_at. by rewrite omap_app, last_app. Qed.

Lemma value_at_none d a : value_at d a = None <-> a ∉ d.*1.
Proof.
  induction d as [|x d IH] using rev_ind; [split; [intros _; apply not_elem_of_nil|done]|].
  rewrite value_at_snoc, fmap_app, not_elem_of_app, <- IH. cbn. rewrite list_elem_of_singleton. case_bool_decide; naive_solver.
Qed.

(** The lines of a file with the rows that [F] names rewritten. *)
Definition new_line (F : Z * Z -> option text) (b : bool) (l : text) : text :=
  match row_data b l with
  | Some (a, _) => match F a with Some v => formatConfigFileRow a.1 a.2 v | None => l end
  | None => l
  end.
Fixpoint rewritten (F : Z * Z -> option text) (b : bool) (ls : list text) : list text :=
  match ls with [] => [] | l :: ls' => new_line F b l :: rewritten F false ls' end.

Definition ok_values (F : Z * Z -> option text) : Prop := forall a v, F a = Some v -> clean v.

Lemma rewritten_insert F a v ls : forall k pre, length pre = k ->
  foldl (fun ls i => <[i := formatConfigFileRow a.1 a.2 v]> ls) (pre ++ rewritten F (k =? 0)%nat ls)
    ((fun r => (line r - 1)%nat) <$> List.filter (fun r => bool_decide (address r = a)) (rows_from k ls)) =
  pre ++ rewritten (fun x => if bool_decide (a = x) then Some v else F x) (k =? 0)%nat ls.
Proof.
  induction ls as [|l ls IH]; intros k pre Hk; [done|]. cbn [rows_from rewritten]. rewrite List.filter_app, fmap_app, foldl_app.
  assert (Hone : foldl (fun ls i => <[i := formatConfigFileRow a.1 a.2 v]> ls) (pre ++ new_line F (k =? 0)%nat l :: rewritten F false ls)
      ((fun r => (line r - 1)%nat) <$> List.filter (fun r => bool_decide (address r = a))
        match row_data (k =? 0)%nat l with Some (idx, sub, v) => [mk_row (S k) idx sub v] | None => [] end) =
    (pre ++ [new_line (fun x => if bool_decide (a = x) then Some v else F x) (k =? 0)%nat l]) ++ rewritten F false ls).
  { unfold new_line. destruct (row_data (k =? 0)%nat l) as [[[idx sub] w]|]; cbn [List.filter]; [|by rewrite <- app_assoc].
    unfold address at 1. cbn [index subindex]. destruct (decide ((idx, sub) = a)) as [<-|Hne].
    - rewrite !bool_decide_true by done. cbn [fmap list_fmap foldl line fst snd]. replace (S k - 1)%nat with (length pre + 0)%nat by lia.
      rewrite insert_app_r. by rewrite <- app_assoc.
    - rewrite bool_decide_false, (bool_decide_false (a = _)) by congruence. by rewrite <- app_assoc. }
  rewrite Hone. pose proof (IH (S k) (pre ++ [new_line (fun x => if bool_decide (a = x) then Some v else F x) (k =? 0)%nat l])) as IH'.
  cbn [Nat.eqb] in IH'. rewrite IH' by (rewrite length_app; cbn; lia). by rewrite <- app_assoc.
Qed.

Lemma rewritten_ext F G b ls : (forall a, F a = G a) -> rewritten F b ls = rewritten G b ls.
Proof.
  intros H. revert b. induction ls as [|l ls IH]; intros b; [done|]. cbn. rewrite IH. f_equal. unfold new_line. destruct (row_data b l) as [[a ?]|]; [|done]. by rewrite H.
Qed.

Definition formatted (d : Z * Z * text) : text := formatConfigFileRow d.1.1 d.1.2 (trim d.2).
Definition fresh (base d : list (Z * Z * text)) : list (Z * Z * text) := List.filter (fun x => negb (bool_decide (x.1 ∈ base.*1))) d.

Lemma fresh_snoc base d x : fresh base (d ++ [x]) = fresh base d ++ if bool_decide (x.1 ∈ base.*1) then [] else [x].
Proof. unfold fresh. rewrite List.filter_app. cbn. by case_bool_decide. Qed.

Lemma linesAt_none f a : linesAt f a = [] <-> a ∉ (data f).*1.
Proof.
  unfold linesAt, data. induction (rows f) as [|r rs IH]; cbn [List.filter fmap list_fmap]; [split; [intros _; apply not_elem_of_nil|done]|].
  change (data_of r).1 with (address r). rewrite not_elem_of_cons. case_bool_decide as E; cbn; naive_solver.
Qed.

Lemma rewritten_none b ls : rewritten (value_at []) b ls = ls.
Proof. revert b. induction ls as [|l ls IH]; intros b; [done|]. cbn. rewrite IH. f_equal. unfold new_line. by destruct (row_data b l) as [[]|]. Qed.

(** The loop over the rows of the update. *)
Lemma merge_fold t us : let base := parseConfigFile t in
  foldl (merge_row base) (lines base, []) us =
  (rewritten (value_at (data_of <$> us)) true (lines base), concat (formatted <$> fresh (data base) (data_of <$> us))).
Proof.
  intros base. unfold base. rewrite (proj2 (parse_rows t)). induction us as [|r us IH] using rev_ind; [cbn; by rewrite rewritten_none|].
  rewrite foldl_app, IH. cbn [foldl]. unfold merge_row at 1. rewrite fmap_app. cbn [fmap list_fmap].
  rewrite fresh_snoc.
  change (data_of r).1 with (address r).
  assert (Hv : forall x, value_at ((data_of <$> us) ++ [data_of r]) x = (if bool_decide (address r = x) then Some (trimmedValue r) else value_at (data_of <$> us) x))
    by (intros x; by rewrite value_at_snoc).
  rewrite (rewritten_ext _ _ _ _ Hv).
  destruct (linesAt (parseConfigFile t) (address r)) as [|i at_] eqn:El.
  - pose proof (proj1 (linesAt_none _ _) El) as Hn. rewrite bool_decide_false by done. rewrite fmap_app, concat_app. cbn [fmap list_fmap concat].
    rewrite app_nil_r. f_equal. symmetry.
    pose proof (rewritten_insert (value_at (data_of <$> us)) (address r) (trimmedValue r) (split_lines t) 0 [] eq_refl) as E.
    unfold linesAt in El. rewrite (proj1 (parse_rows t)) in El. rewrite El in E. by cbn in E.
  - assert (Hin : address r ∈ (data (parseConfigFile t)).*1).
    { destruct (decide (address r ∈ (data (parseConfigFile t)).*1)) as [|Hn]; [done|]. apply linesAt_none in Hn. congruence. }
    rewrite bool_decide_true by done. rewrite app_nil_r. f_equal.
    pose proof (rewritten_insert (value_at (data_of <$> us)) (address r) (trimmedValue r) (split_lines t) 0 [] eq_refl) as E.
    unfold linesAt in El. rewrite (proj1 (parse_rows t)) in El. by rewrite El in E.
Qed.

Lemma new_line_data F c l : ok_values F -> terminated l \/ (10 ∉ l) ->
  row_data c (new_line F c l) = (fun d => (d.1, match F d.1 with Some v => [32; 32] ++ v | None => d.2 end)) <$> row_data c l.
Proof.
  intros HF Hl. unfold new_line. destruct (row_data c l) as [[a w]|] eqn:E; [|by rewrite E].
  pose proof (row_valid _ _ _ Hl E) as (H1 & H2 & H3 & _). cbn [fst snd fmap option_fmap option_map] in *. destruct (F a) as [v|] eqn:Ev; [|by rewrite E].
  destruct (format_row c a.1 a.2 v H1 H2 H3 (HF _ _ Ev)) as [-> _]. by destruct a.
Qed.

Lemma rewritten_data F b ls : ok_values F -> Forall (fun l => terminated l \/ (10 ∉ l)) ls ->
  data_from b (rewritten F b ls) = (fun d => (d.1, match F d.1 with Some v => [32; 32] ++ v | None => d.2 end)) <$> data_from b ls.
Proof.
  intros HF H. revert b. induction H as [|l ls Hl _ IH]; intros b; [done|]. cbn [rewritten data_from]. rewrite fmap_app, <- IH, new_line_data by done.
  by destruct (row_data b l).
Qed.

Lemma new_line_terminated F b l : ok_values F -> terminated l -> terminated (new_line F b l).
Proof.
  intros HF Hl. unfold new_line. destruct (row_data b l) as [[a w]|] eqn:E; [|done]. destruct (F a) as [v|] eqn:Ev; [|done].
  pose proof (row_valid _ _ _ (or_introl Hl) E) as (H1 & H2 & H3 & _). by apply (format_row b a.1 a.2 v H1 H2 H3 (HF _ _ Ev)).
Qed.

Lemma rewritten_proper F b ls : ok_values F -> proper ls -> proper (rewritten F b ls).
Proof.
  intros HF. revert b. induction ls as [|l ls IH]; intros b Hp; [done|]. destruct Hp as [Hl Hp]. cbn [rewritten proper]. split; [|by apply IH].
  destruct ls as [|l2 ls]; cbn [rewritten]; [|by apply new_line_terminated].
  destruct Hl as [Hl|[Hne Hn]]; [left; by apply new_line_terminated|]. unfold new_line.
  destruct (row_data b l) as [[a w]|] eqn:E; [|by right]. destruct (F a) as [v|] eqn:Ev; [left|by right].
  pose proof (row_valid _ _ _ (or_intror Hn) E) as (H1 & H2 & H3 & _). by apply (format_row b a.1 a.2 v H1 H2 H3 (HF _ _ Ev)).
Qed.

Lemma proper_last ls : proper ls -> Forall terminated ls \/ exists ks l, ls = ks ++ [l] /\ Forall terminated ks /\ l <> [] /\ 10 ∉ l.
Proof.
  induction ls as [|l ls IH]; [left; constructor|]. intros [Hl Hp]. destruct (IH Hp) as [Ht|(ks & k & -> & Ht & Hk)].
  - destruct ls as [|l2 ls]; [|left; by constructor]. destruct Hl as [Hl|Hl]; [left; by repeat constructor|]. right. by exists [], l.
  - right. exists (l :: ks), k. split; [done|]. split; [|done]. constructor; [|done]. by destruct ks.
Qed.

Lemma row_data_feed b l : row_data b (l ++ [10]) = row_data b l.
Proof.
  unfold row_data, kind_of.
  assert (E : strip_eol (if b then strip_bom (l ++ [10]) else l ++ [10]) = strip_eol (if b then strip_bom l else l)).
  { destruct b; [|apply strip_eol_feed]. rewrite <- (strip_eol_feed (strip_bom l)). f_equal.
    destruct l as [|? [|? [|]]]; unfold strip_bom; cbn [app]; repeat case_match; simplify_eq/=; done. }
  by rewrite E.
Qed.

Lemma data_from_app b ls l : data_from b (ls ++ [l]) = data_from b ls ++ match row_data (match ls with [] => b | _ => false end) l with Some d => [d] | None => [] end.
Proof.
  revert b. induction ls as [|k ls IH]; intros b; cbn [app data_from]; [by rewrite app_nil_r|]. rewrite IH, <- app_assoc. by destruct ls.
Qed.

Definition closed (t : text) : text := match t with [] => [] | _ => if negb (ends_with_feed t) then t ++ [10] else t end.

(** A text that is closed by a line feed, if it is not empty, has the same rows. *)
Lemma closed_lines ls : proper ls -> exists ks, Forall terminated ks /\ concat ks = closed (concat ls) /\ forall b, data_from b ks = data_from b ls.
Proof.
  intros [Ht|(ks & l & -> & Ht & Hne & Hn)]%proper_last.
  - exists ls. split; [done|]. split; [|done]. unfold closed. destruct ls as [|k ks] using rev_ind; [done|].
    apply Forall_app in Ht as [_ Ht]. apply Forall_cons in Ht as [(k' & -> & _) _]. rewrite concat_app. cbn [concat]. rewrite app_nil_r.
    unfold ends_with_feed. rewrite !last_app. cbn. by destruct (concat ks ++ k' ++ [10]).
  - exists (ks ++ [l ++ [10]]). split; [apply Forall_app; split; [done|]; constructor; [by exists l|constructor]|].
    rewrite !concat_app. cbn [concat]. rewrite !app_nil_r. split; [|intros b; by rewrite !data_from_app, row_data_feed].
    unfold closed, ends_with_feed. rewrite last_app. destruct (last l) as [c|] eqn:El; [|by apply last_None in El].
    assert (c <> 10) by (intros ->; apply last_Some in El as [? ->]; set_solver).
    assert (Ec : negb match c with 10 => true | _ => false end = true) by (repeat case_match; done). rewrite Ec.
    destruct (concat ks ++ l) eqn:E; [by apply app_eq_nil in E as []|]. by rewrite <- E, app_assoc.
Qed.

Lemma fresh_lines b d ls : Forall valid d -> Forall (fun x => clean (trim x.2)) d -> Forall terminated ls ->
  Forall terminated (ls ++ (formatted <$> d)) /\ data_from b (ls ++ (formatted <$> d)) = data_from b ls ++ ((fun x => (x.1, [32; 32] ++ trim x.2)) <$> d).
Proof.
  intros Hv Hc Hl. assert (Hd : forall b, Forall terminated (formatted <$> d) /\ data_from b (formatted <$> d) = (fun x => (x.1, [32; 32] ++ trim x.2)) <$> d).
  { clear -Hv Hc. induction Hv as [|[[i s] v] d (H1 & H2 & H3 & _) Hv IH]; intros b; [by repeat constructor|]. apply Forall_cons in Hc as [Hx Hc].
    destruct (format_row b i s (trim v) H1 H2 H3 Hx) as [E T]. cbn [fmap list_fmap data_from]. destruct (IH Hc false) as [IH1 IH2]. split; [by constructor|].
    rewrite IH2. unfold formatted. cbn [fst snd]. by rewrite E. }
  split; [apply Forall_app; split; [done|]; apply (Hd true)|]. revert b. induction ls as [|l ls IH]; intros b; cbn [app data_from]; [by rewrite (proj2 (Hd b))|].
  apply Forall_cons in Hl as [_ Hl]. by rewrite IH, app_assoc.
Qed.

(** The rows of a merged file: those of the base in their places, and the new ones at the end. *)
Definition merged_data (base update : list (Z * Z * text)) : list (Z * Z * text) :=
  ((fun d => (d.1, match value_at update d.1 with Some v => [32; 32] ++ v | None => d.2 end)) <$> base) ++
  ((fun d => (d.1, [32; 32] ++ trim d.2)) <$> fresh base update).

Definition no_return (d : list (Z * Z * text)) : Prop := Forall (fun x => last (trim x.2) <> Some 13) d.

Lemma value_clean d : Forall valid d -> no_return d -> Forall (fun x => clean (trim x.2)) d.
Proof.
  intros Hv Hr. apply Forall_forall. intros x Hx. rewrite Forall_forall in Hv. pose proof (Hv x Hx) as (_ & _ & _ & H4 & H5 & H6).
  unfold no_return in Hr. rewrite Forall_forall in Hr. unfold clean. split_and!; [intros H%trim_incl; done..|auto|apply trim_result].
Qed.

Lemma value_at_in d a v : value_at d a = Some v -> exists x, x ∈ d /\ x.1 = a /\ v = trim x.2.
Proof.
  unfold value_at. intros H. apply last_Some in H as [k E].
  assert (Hin : v ∈ omap (fun x : Z * Z * text => if bool_decide (x.1 = a) then Some (trim x.2) else None) d) by (rewrite E; set_solver).
  apply list_elem_of_omap in Hin as (x & Hx & Ex). case_bool_decide; [|done]. exists x. by simplify_eq.
Qed.

Lemma merge_data bt ut : no_return (data (parseConfigFile ut)) ->
  data (mergeConfigFiles (parseConfigFile bt) (parseConfigFile ut)) = merged_data (data (parseConfigFile bt)) (data (parseConfigFile ut)).
Proof.
  intros Hr. set (d := data (parseConfigFile ut)) in *. pose proof (proj2 (data_parsed ut)) as Hv. fold d in Hv.
  pose proof (value_clean d Hv Hr) as Hcl.
  assert (HF : ok_values (value_at d)).
  { intros a v (x & Hx & _ & ->)%value_at_in. rewrite Forall_forall in Hcl. by apply Hcl. }
  unfold mergeConfigFiles. rewrite merge_fold. fold (data (parseConfigFile ut)). fold d.
  set (e := fresh (data (parseConfigFile bt)) d).
  assert (He : Forall valid e /\ Forall (fun x => clean (trim x.2)) e).
  { split; (eapply incl_Forall; [|eassumption]); unfold e, fresh; apply List.incl_filter. }
  rewrite (proj2 (parse_rows bt)), (proj1 (data_parsed _)).
  pose proof (rewritten_proper (value_at d) true _ HF (split_lines_proper bt)) as Hp.
  unfold merged_data. fold e. rewrite (proj1 (data_parsed bt)), <- rewritten_data by (done || apply proper_lines, split_lines_proper).
  clearbody e. set (ls := rewritten _ _ _) in *. clearbody ls. destruct e as [|x e'].
  - cbn [fmap list_fmap concat]. rewrite !app_nil_r, split_concat; done.
  - destruct (closed_lines _ Hp) as (ks & Hk & Ek & Edata). destruct He as [He1 He2].
    destruct (fresh_lines true (x :: e') ks He1 He2 Hk) as [Ht Hd].
    assert (Hne : exists c k, concat (formatted <$> x :: e') = c :: k) by (eexists _, _; reflexivity).
    destruct Hne as (c & k & Ec). rewrite Ec.
    match goal with |- data_from true (split_lines (?u ++ _)) = _ => assert (Eu : u = closed (concat ls)) by (by destruct (concat ls)); rewrite Eu end.
    rewrite <- Ec, <- Ek, <- concat_app, split_concat; [by rewrite Hd, Edata|]. rewrite <- (app_nil_r (ks ++ _)). by apply proper_app.
Qed.

Lemma value_at_same d u a v : value_at d a <> None -> value_at u a = Some (trim v) ->
  value_at ((fun x => (x.1, match value_at u x.1 with Some v => [32; 32] ++ v | None => x.2 end)) <$> d) a = Some (trim v).
Proof.
  intros Hne Hu. induction d as [|x d IH] using rev_ind; [done|]. rewrite fmap_app. cbn [fmap list_fmap]. rewrite value_at_snoc in *. cbn [fst snd].
  case_bool_decide as E; [|auto]. by rewrite E, Hu, trim_value.
Qed.

Lemma value_at_other d u a : value_at u a = None ->
  value_at ((fun x => (x.1, match value_at u x.1 with Some v => [32; 32] ++ v | None => x.2 end)) <$> d) a = value_at d a.
Proof.
  intros Hu. induction d as [|x d IH] using rev_ind; [done|]. rewrite fmap_app. cbn [fmap list_fmap]. rewrite !value_at_snoc, IH. cbn [fst snd].
  case_bool_decide as E; [|done]. by rewrite E, Hu.
Qed.

Lemma value_at_fresh base u a : value_at ((fun d => (d.1, [32; 32] ++ trim d.2)) <$> fresh base u) a =
  if bool_decide (a ∈ base.*1) then None else value_at u a.
Proof.
  induction u as [|x u IH] using rev_ind; [cbn; by case_bool_decide|]. rewrite fresh_snoc, fmap_app, value_at_app, IH, value_at_snoc.
  destruct (decide (x.1 = a)) as [<-|Hne].
  - rewrite (bool_decide_true (x.1 = x.1)) by done. case_bool_decide; [done|]. cbn [fmap list_fmap]. rewrite value_at_one. cbn [fst snd].
    rewrite bool_decide_true by done. by rewrite trim_value.
  - rewrite (bool_decide_false (x.1 = a)) by done.
    assert (E : forall b : bool, value_at ((fun d => (d.1, [32; 32] ++ trim d.2)) <$> (if b then [] else [x])) a = None).
    { intros []; [done|]. cbn [fmap list_fmap]. rewrite value_at_one. cbn [fst snd]. by rewrite bool_decide_false. }
    by rewrite E.
Qed.

(** Merging two files that were read from any texts. The merged file has exactly the base's rows in
    their places, each with the update's last value where the update names its address, followed by the
    update's rows at new addresses in their order; so at every address a reader of the merged file finds
    the update's value where there is one and the base's otherwise. The update's values must not end in a
    carriage return, which the end of a line swallows. *)
Theorem config_merge_values bt ut (Hret : no_return (data (parseConfigFile ut))) :
  let base := parseConfigFile bt in let update := parseConfigFile ut in
  data (mergeConfigFiles base update) = merged_data (data base) (data update) /\
  forall a, value_at (data (mergeConfigFiles base update)) a =
    match value_at (data update) a with Some v => Some v | None => value_at (data base) a end.
Proof.
  intros base update. pose proof (merge_data bt ut Hret) as E. fold base update in E. split; [exact E|]. intros a. rewrite E. unfold merged_data.
  rewrite value_at_app, value_at_fresh. destruct (value_at (data update) a) as [v|] eqn:Ev.
  - case_bool_decide as Hin; [|done]. destruct (value_at_in _ _ _ Ev) as (x & _ & _ & ->). apply value_at_same; [|done].
    intros Hn%value_at_none. done.
  - rewrite value_at_other by done. by case_bool_decide.
Qed.

Definition sample_base : text := codes "# drive" ++ [10] ++ codes "0x2001,  1,  7" ++ [10] ++ codes "0x2002, 0,  9 # old".
Definition sample_update : text := codes "0x2002,0,12" ++ [13; 10] ++ codes "0x2003, 4, x" ++ [10].

Lemma config_merge_values_witness :
  writeConfigFile (mergeConfigFiles (parseConfigFile sample_base) (parseConfigFile sample_update)) =
    codes "# drive" ++ [10] ++ codes "0x2001,  1,  7" ++ [10] ++ codes "0x2002,  0,  12" ++ [10] ++ codes "0x2003,  4,  x" ++ [10] /\
  value_at (data (mergeConfigFiles (parseConfigFile sample_base) (parseConfigFile sample_update))) (0x2002, 0) = Some (codes "12").
Proof.
  split; [by vm_compute|].
  refine (eq_trans (proj2 (config_merge_values sample_base sample_update _) (0x2002, 0)) _); [|by vm_compute].
  unfold no_return. assert (E : data (parseConfigFile sample_update) = [(0x2002, 0, codes "12"); (0x2003, 4, codes " x")]) by (by vm_compute).
  rewrite E. repeat constructor; by vm_compute.
Defined.

(** Reading a file and writing it back gives every byte of the text, and reducing a file to some
    addresses keeps exactly the rows at these addresses, in their order and with their values, when no
    line after the first starts with a byte order mark. *)
Theorem config_select t keep (Hbom : Forall (fun l => strip_bom l = l) (tail (split_lines t))) :
  writeConfigFile (parseConfigFile t) = t /\
  data (selectConfigFileRows (parseConfigFile t) keep) = List.filter (fun d => bool_decide (d.1 ∈ keep)) (data (parseConfigFile t)) /\
  forall a, value_at (data (selectConfigFileRows (parseConfigFile t) keep)) a = if bool_decide (a ∈ keep) then value_at (data (parseConfigFile t)) a else None.
Proof.
  split; [apply config_text_preserved|]. pose proof (select_rows t keep Hbom) as E. unfold data. split; [exact E|]. intros a. rewrite E. clear E.
  induction (data_of <$> rows (parseConfigFile t)) as [|x d IH] using rev_ind; [by case_bool_decide|].
  rewrite List.filter_app, value_at_app, IH, value_at_snoc. cbn [List.filter]. destruct (decide (x.1 = a)) as [<-|Hne].
  - rewrite (bool_decide_true (x.1 = x.1)) by done. case_bool_decide; [|done]. rewrite value_at_one. by rewrite bool_decide_true.
  - rewrite (bool_decide_false (x.1 = a)) by done.
    assert (H : forall b : bool, value_at (if b then [x] else []) a = None) by (intros []; [rewrite value_at_one; by rewrite bool_decide_false|done]).
    by rewrite H.
Qed.

Lemma config_select_witness :
  value_at (data (selectConfigFileRows (parseConfigFile sample_base) [(0x2002, 0)])) (0x2002, 0) = Some (codes "9").
Proof.
  refine (eq_trans (proj2 (proj2 (config_select sample_base [(0x2002, 0)] _)) (0x2002, 0)) _); [|by vm_compute].
  assert (E : tail (split_lines sample_base) = [codes "0x2001,  1,  7" ++ [10]; codes "0x2002, 0,  9 # old"]) by (by vm_compute).
  rewrite E. repeat constructor.
Defined.

(** An object of a data type, for examples. *)
Definition object_of (dt : Z) : DeviceParameter :=
  mk_parameter 0x2003 0 [] 7 dt 32 0x3F ObjectDictionary 0 [] Unknown None [] None None None [] [] [].
Definition bits_read (dt : Z) (t : text) (fmt : Z) : option Z :=
  match parseConfigFileValue (object_of dt) t fmt with Value (VFloat b) => Some b | _ => None end.


(** Where a merge or a format 0 value does not keep what was written. A string value loses the
    spaces at its end in a merge although a row keeps them. A merge keeps the base's format, so a
    [REAL32] value of a format 0 update, [0.100000000] for [0.01], means [0.1] in a merged file of
    format 1. A format 0 value [0.10000] is [1e-6], and the sign of [-0.5] is lost. *)
Theorem config_limits :
  let base := parseConfigFile (codes "META,FORMAT,1" ++ [10] ++ codes "0x2003, 0, a" ++ [10]) in
  let spaced := parseConfigFile (codes "0x2003, 0, b  ") in
  let real := parseConfigFile (codes "0x2003, 0, 0.100000000") in
  value <$> rows spaced = [codes " b  "] /\ value <$> rows (mergeConfigFiles base spaced) = [codes "  b"] /\
  format real = 0 /\ format (mergeConfigFiles base real) = 1 /\
  bits_read REAL32 (codes "0.100000000") 0 = Some 0x3C23D70A /\ bits_read REAL32 (codes "0.100000000") 1 = Some 0x3DCCCCCD /\
  bits_read REAL32 (codes "0.10000") 0 = Some 0x358637BD /\
  bits_read REAL32 (codes "-0.5") 0 = bits_read REAL32 (codes "0.5") 0 /\ bits_read REAL32 (codes "-0.5") 1 = Some 0xBF000000.
Proof. by vm_compute. Qed.
End ConfigFile.
