(* ===== verification/DeviceStore.v ===== *)
(** * A device's parameters ([libs/node/device.{h,cc}])

    The object-dictionary store of a [Device]: the arena of parameter cells, the map that addresses
    them, and the operations that read and write them over the live process image, the mailbox, or
    the cache alone. A [DeviceParameter*] is the cell's place in the arena, so the aliasing of cells
    across re-enumerations is explicit.

    A block under [parametersMutex_] is one atomic step. Between two blocks of an operation the bus
    is used with the lock released, and [others] is whatever the other threads did to the store
    meanwhile, re-enumeration included. *)

From stdpp Require Import sorting.
From S2P Require Import Prelude Util Driver ProcessBits PdoMapping ProcessDataRing ProcessImage DeviceParameter.
Import Param.

Module Store.

(** ** The process data ([libs/node/process_data.h], [libs/node/device_manager.cc]) *)
Record process_data := mk_pd {
  image : option (Image.ProcessImage nat);
  pd_ring : Ring.ring;
  lastWkc : Z;
  expectedWkc : Z;
}.

Definition healthy (pd : process_data) : bool :=
  match image pd with Some _ => expectedWkc pd <=? lastWkc pd | None => false end.

Definition no_record : Ring.Record_ := Ring.mk_record 0 0 0 [] [].

Definition readPdo (pd : process_data) (cells : list DeviceParameter) (pos idx sub : Z) : option bytes :=
  match image pd with
  | None => None
  | Some img =>
      match Image.find img pos idx sub with
      | None => None
      | Some loc =>
          if Image.isOutput loc then
            match Image.i_outputs img !! Image.entryIndex loc with
            | Some e => match Image.e_parameter e with
                        | Some c => rawValueBytes <$> cells !! c
                        | None => None
                        end
            | None => None
            end
          else if negb (healthy pd) then None
          else if Ring.head (pd_ring pd) =? 0 then None
          else
            let '(record, ok) := Ring.readRecord (pd_ring pd) (Ring.head (pd_ring pd) - 1) no_record in
            if ok then Some (Bits.extractBits (Ring.inputs record) (Image.loc_bitOffset loc) (Image.loc_bitLength loc))
            else None
      end
  end.

Definition isOutputMapped (pd : process_data) (pos idx sub : Z) : bool :=
  match image pd with
  | None => false
  | Some img => match Image.find img pos idx sub with Some loc => Image.isOutput loc | None => false end
  end.

(** ** The store *)
Inductive CompleteAccessSupport := CaUnknown | CaSupported | CaUnsupported.
Inductive DeclaredSubindexReads := ReadsUnknown | ReadsServed | ReadsRefused.

#[export] Instance CompleteAccessSupport_eq_dec : EqDecision CompleteAccessSupport.
Proof. solve_decision. Defined.
#[export] Instance DeclaredSubindexReads_eq_dec : EqDecision DeclaredSubindexReads.
Proof. solve_decision. Defined.

Record store := mk_store {
  position : Z;
  cells : list DeviceParameter;
  parameters : gmap Z nat;
  retiredMaps : list (gmap Z nat);
  caSupport : CompleteAccessSupport;
  declaredSubindexReads : DeclaredSubindexReads;
  processData : option process_data;
}.

Definition set_cells (s : store) (cs : list DeviceParameter) : store :=
  mk_store (position s) cs (parameters s) (retiredMaps s) (caSupport s) (declaredSubindexReads s) (processData s).
Definition set_ca (s : store) (c : CompleteAccessSupport) : store :=
  mk_store (position s) (cells s) (parameters s) (retiredMaps s) c (declaredSubindexReads s) (processData s).
Definition set_declared (s : store) (c : DeclaredSubindexReads) : store :=
  mk_store (position s) (cells s) (parameters s) (retiredMaps s) (caSupport s) c (processData s).
(** Writing through a [DeviceParameter*]. *)
Definition put (s : store) (c : nat) (p : DeviceParameter) : store := set_cells s (<[c := p]> (cells s)).

Definition key_of (p : DeviceParameter) : Z := Image.makeParameterKey (index p) (subindex p).

(** [findParameter]: the pointer and what it points at. *)
Definition find (s : store) (idx sub : Z) : option (nat * DeviceParameter) :=
  c ← parameters s !! Image.makeParameterKey idx sub; p ← cells s !! c; Some (c, p).

Inductive StoreError :=
  | NotFound (position idx sub : Z)
  | BusError (error : text)
  | DecodeError (error : ParamError)
  | Reenumerated (position idx sub : Z)
  | NoParameters (position : Z)
  | ObjectNotFound (position idx : Z)
  | TypeMismatch (idx sub : Z).

(** ** Cached reads *)
Definition parameter (s : store) (idx sub : Z) : option DeviceParameter := snd <$> find s idx sub.
Definition parameterValue (s : store) (idx sub : Z) : option DeviceParameterValue := currentValue <$> parameter s idx sub.
Definition dataTypeOf (s : store) (idx sub : Z) : option Z := dataType <$> parameter s idx sub.
Definition hasParameters (s : store) : bool := negb (bool_decide (parameters s = ∅)).
Definition isCia402 (s : store) : bool :=
  match find s 0x6040 0, find s 0x6041 0 with Some _, Some _ => true | _, _ => false end.

(** [Device::value<T>] and [Device::setValue<T>], the cyclic task's accessors, for an integer [T]. *)
Definition rt_value (t : IntType) (s : store) (idx sub : Z) : option Z :=
  match find s idx sub with Some (_, p) => scalar t p | None => None end.

Definition rt_setValue (t : IntType) (s : store) (idx sub : Z) (v : Z) : store * bool :=
  match find s idx sub with
  | Some (c, p) =>
      match defaultValueForDataType (dataType p) with
      | VInt t' _ => if bool_decide (t' = t) then (put s c (storeBits p (uwrap (int_bits t) v)), true) else (s, false)
      | _ => (s, false)
      end
  | None => (s, false)
  end.

(** The decode under the lock that [readParameter] and [setValueFromBytes] share. *)
Definition commit (s : store) (c : nat) (p : DeviceParameter) (l : bytes) : store :=
  put s c (set_sync (setRawValue p l) Synced).

Definition setValueFromBytes (s : store) (idx sub : Z) (l : bytes) : store * expected StoreError DeviceParameterValue :=
  match find s idx sub with
  | None => (s, Unexpected (NotFound (position s) idx sub))
  | Some (c, p) =>
      match decodeSdoBytes (dataType p) l with
      | Unexpected e => (s, Unexpected (DecodeError e))
      | Value v =>
          match setValue p v with
          | (_, Unexpected e) => (s, Unexpected (DecodeError e))
          | (p', Value _) => let p' := set_sync p' Synced in (put s c p', Value (currentValue p'))
          end
      end
  end.

(** [Device::markReadFailed]. *)
Definition markFailed (s : store) (idx sub declaredType : Z) : store :=
  match find s idx sub with
  | Some (c, p) => if dataType p =? declaredType then put s c (markReadFailed p) else s
  | None => s
  end.

(** ** Publishing an enumeration *)

(** Adopting a definition into a reusable cell. *)
Definition adopt (cell_ d : DeviceParameter) : DeviceParameter :=
  let a := mk_parameter (index cell_) (subindex cell_) (name d) (objectCode d) (dataType cell_)
    (bitLength cell_) (access d) (origin cell_) (cell cell_) (rawValue cell_) (syncState cell_)
    (unit_ d) (unitSymbol d) (defaultValue d) (minValue d) (maxValue d) (description d) (options d)
    (esiFile d) in
  match syncState d with
  | Stale => markReadFailed a
  | Unknown => a
  | Synced | Pending => set_sync (set_storage a (cell d) (rawValue d)) (syncState d)
  end.

Definition reusable (old : gmap Z nat) (cs : list DeviceParameter) (key : Z) (d : DeviceParameter)
    : option (nat * DeviceParameter) :=
  c ← old !! key; p ← cs !! c;
  if (dataType p =? dataType d) && (bitLength p =? bitLength d) then Some (c, p) else None.

(** One entry of [built]; [old] is the map being replaced. *)
Definition publish_one (old : gmap Z nat) (acc : list DeviceParameter * gmap Z nat) (kd : Z * DeviceParameter)
    : list DeviceParameter * gmap Z nat :=
  let '(cs, next) := acc in
  let '(key, d) := kd in
  match reusable old cs key d with
  | Some (c, p) => (<[c := adopt p d]> cs, <[key := c]> next)
  | None =>
      let d := if bool_decide (syncState d = Stale) then set_sync d Unknown else d in
      (cs ++ [d], <[key := length cs]> next)
  end.

(** [built] is the map's entries in the order the loop visits them; [drained] is what [pauseCycle]
    reports. *)
Definition publishParameters (s : store) (drained : bool) (built : list (Z * DeviceParameter)) : store :=
  let '(cs, next) := foldl (publish_one (parameters s)) (cells s, ∅) built in
  mk_store (position s) cs next
    (if drained then retiredMaps s else retiredMaps s ++ [parameters s])
    (caSupport s) (declaredSubindexReads s) (processData s).

(** ** Complete Access *)
Definition kOtypeArray : Z := 8.
Definition kOtypeRecord : Z := 9.

Fixpoint eligible_loop (subs : list DeviceParameter) (k : Z) : bool :=
  match subs with
  | [] => true
  | p :: subs' =>
      if negb (subindex p =? u8 k) || (bitLength p =? 0) || negb (bitLength p mod 8 =? 0) then false
      else eligible_loop subs' (k + 1)
  end.

Definition completeAccessEligible (subs : list DeviceParameter) : bool :=
  if (length subs <? 2)%nat then false
  else match subs with
       | [] => false
       | p :: _ =>
           if negb (objectCode p =? kOtypeArray) && negb (objectCode p =? kOtypeRecord) then false
           else eligible_loop subs 0
       end.

Inductive CompleteAccessDecode := CaFilled | CaShortBlob | CaUndecodable.

(** [subs] are pointers into [cs]; [k] counts from the first. *)
Fixpoint decode_complete (subs : list nat) (blob : bytes) (k : nat) (cursor : Z) (cs : list DeviceParameter)
    : list DeviceParameter * CompleteAccessDecode :=
  match subs with
  | [] => (cs, CaFilled)
  | c :: subs' =>
      match cs !! c with
      | None => (cs, CaUndecodable)
      | Some p =>
          if u32 (u32 (Z.of_nat (length blob)) * 8) <? u32 (cursor + bitLength p) then (cs, CaShortBlob)
          else
            let slice := Bits.extractBits blob cursor (bitLength p) in
            match decodeSdoBytes (dataType p) slice with
            | Unexpected _ => (cs, CaUndecodable)
            | Value _ =>
                decode_complete subs' blob (S k)
                  (u32 (cursor + (if (k =? 0)%nat then 16 else bitLength p)))
                  (<[c := set_sync (setRawValue p slice) Synced]> cs)
            end
      end
  end.

Definition decodeCompleteAccess (subs : list nat) (blob : bytes) (cs : list DeviceParameter)
    : list DeviceParameter * CompleteAccessDecode := decode_complete subs blob 0 0 cs.

(** [CompleteAccessProbe]. *)
Definition ca_enabled (useCompleteAccess : bool) (state : CompleteAccessSupport) : bool :=
  useCompleteAccess && negb (bool_decide (state = CaUnsupported)).
Definition recordFailure (state : CompleteAccessSupport) : CompleteAccessSupport :=
  if bool_decide (state = CaUnknown) then CaUnsupported else state.

Definition subindicesInUse (code : Z) (value : DeviceParameterValue) : option Z :=
  if negb (code =? kOtypeArray) && negb (code =? kOtypeRecord) then None
  else match value with VInt U8 count => Some count | _ => None end.

(** ** Operations on the bus *)

(** The Complete Access upload of the driver, and what other threads do while the lock is free. *)
Class ParameterBus (B : Type) `{FieldbusDriver B} := {
  drv_readSdoComplete : Z -> Z -> B -> B * expected text bytes;
  others : B -> store -> store;
}.

Section Operations.
Context {B : Type} `{ParameterBus B}.

Abbreviation S := (M (B * store)).

Definition mailboxActive (b : B) (s : store) : bool :=
  let state := alState (drv_slaveState (position s) b) in
  (state =? kPreOp) || (state =? kSafeOp) || (state =? kOp).

(** The process data, when there is any and the device exchanges. *)
Definition exchanging (b : B) (s : store) : option process_data :=
  match processData s with
  | Some pd => if exchangesProcessData (drv_slaveState (position s) b) then Some pd else None
  | None => None
  end.

Definition image_bytes (b : B) (s : store) (idx sub : Z) : option bytes :=
  match exchanging b s with Some pd => readPdo pd (cells s) (position s) idx sub | None => None end.

Definition readParameter (idx sub : Z) : S StoreError DeviceParameterValue := fun '(b, s) =>
  match find s idx sub with
  | None => ((b, s), Unexpected (NotFound (position s) idx sub))
  | Some (c, p) =>
      match image_bytes b s idx sub with
      | Some l =>
          match decodeSdoBytes (dataType p) l with
          | Unexpected e => ((b, put s c (markReadFailed p)), Unexpected (DecodeError e))
          | Value v => ((b, commit s c p l), Value v)
          end
      | None =>
          if negb (mailboxActive b s) then ((b, s), Value (currentValue p))
          else
            let declaredType := dataType p in
            let '(b, r) := drv_readSdo (position s) idx sub b in
            let s := others b s in
            match r with
            | Unexpected e => ((b, markFailed s idx sub declaredType), Unexpected (BusError e))
            | Value l =>
                match decodeSdoBytes declaredType l with
                | Unexpected e => ((b, markFailed s idx sub declaredType), Unexpected (DecodeError e))
                | Value v =>
                    match find s idx sub with
                    | Some (c, p) =>
                        if dataType p =? declaredType then ((b, commit s c p l), Value v)
                        else ((b, s), Unexpected (Reenumerated (position s) idx sub))
                    | None => ((b, s), Unexpected (Reenumerated (position s) idx sub))
                    end
                end
            end
      end
  end.

(** The warning about an over-long string is a log line. *)
Definition writeParameter (idx sub : Z) (newValue : DeviceParameterValue) : S StoreError unit := fun '(b, s) =>
  match find s idx sub with
  | None => ((b, s), Unexpected (NotFound (position s) idx sub))
  | Some (c, p) =>
      match setValue p newValue with
      | (_, Unexpected e) => ((b, s), Unexpected (DecodeError e))
      | (p, Value _) =>
          let l := rawValueBytes p in
          if match exchanging b s with Some pd => isOutputMapped pd (position s) idx sub | None => false end
          then ((b, put s c (set_sync p Synced)), Value tt)
          else if negb (mailboxActive b s) then ((b, put s c (set_sync p Pending)), Value tt)
          else
            let s := put s c p in
            let '(b, written) := drv_writeSdo (position s) idx sub l b in
            let s := others b s in
            let s := match find s idx sub with
                     | Some (c, p) => put s c (set_sync p (if has_value written then Synced else Pending))
                     | None => s
                     end in
            ((b, s), match written with Value _ => Value tt | Unexpected e => Unexpected (BusError e) end)
      end
  end.

(** [Device::readValue<T>], [Device::writeValue<T>], [Device::readCachedValue<T>], integer [T]. *)
Definition readValue (t : IntType) (idx sub : Z) : S StoreError Z :=
  let! v := readParameter idx sub in
  match valueAs t v with Some z => ret z | None => fail (TypeMismatch idx sub) end.

Definition writeValue (t : IntType) (idx sub v : Z) : S StoreError unit := writeParameter idx sub (VInt t v).

Definition readCachedValue (t : IntType) (idx sub : Z) : S StoreError Z := fun '(b, s) =>
  match find s idx sub with
  | Some (_, p) =>
      if bool_decide (syncState p = Synced)
      then ((b, s), match getValue t p with Value z => Value z | Unexpected e => Unexpected (DecodeError e) end)
      else readValue t idx sub (b, s)
  | None => readValue t idx sub (b, s)
  end.

(** The pointers of an object's entries; [None] when one is missing. *)
Definition find_all (s : store) (idx : Z) (subs : list Z) : option (list nat) :=
  mapM (fun sub => fst <$> find s idx sub) subs.
Definition deref (s : store) (cs : list nat) : list DeviceParameter := omap (fun c => cells s !! c) cs.

Definition readObjectComplete (idx : Z) (subindices : list Z) (useCompleteAccess : bool) (w : B * store)
    : (B * store) * bool :=
  let '(b, s) := w in
  if negb (ca_enabled useCompleteAccess (caSupport s)) || negb (mailboxActive b s) then ((b, s), false)
  else match find_all s idx subindices with
  | None => ((b, s), false)
  | Some subs =>
      if negb (completeAccessEligible (deref s subs)) then ((b, s), false)
      else if existsb (fun sub => match image_bytes b s idx sub with Some _ => true | None => false end) subindices
      then ((b, s), false)
      else
        let '(b, blob) := drv_readSdoComplete (position s) idx b in
        let s := others b s in
        match blob with
        | Unexpected _ => ((b, set_ca s (recordFailure (caSupport s))), false)
        | Value blob =>
            let s := set_ca s CaSupported in
            match find_all s idx subindices with
            | None => ((b, s), false)
            | Some subs =>
                if negb (completeAccessEligible (deref s subs)) then ((b, s), false)
                else
                  let '(cs, r) := decodeCompleteAccess subs blob (cells s) in
                  ((b, set_cells s cs), match r with CaFilled => true | _ => false end)
            end
        end
  end.

(** The readable subindices of an object, ascending. *)
Definition readable_subindices (s : store) (idx : Z) : list Z :=
  merge_sort Z.le
    (omap (fun c => match cells s !! c with
                    | Some p => if (index p =? idx) && isReadable p then Some (subindex p) else None
                    | None => None
                    end) (snd <$> map_to_list (parameters s))).

Fixpoint read_each (idx : Z) (subs : list Z) (acc : gmap Z DeviceParameterValue)
    : S StoreError (gmap Z DeviceParameterValue) :=
  match subs with
  | [] => ret acc
  | sub :: subs' => let! v := readParameter idx sub in read_each idx subs' (<[sub := v]> acc)
  end.

(** The values of the entries until one is missing. *)
Fixpoint collect (s : store) (idx : Z) (subs : list Z) (acc : gmap Z DeviceParameterValue)
    : gmap Z DeviceParameterValue :=
  match subs with
  | [] => acc
  | sub :: subs' =>
      match find s idx sub with
      | None => acc
      | Some (_, p) => collect s idx subs' (<[sub := currentValue p]> acc)
      end
  end.

Definition readObject (idx : Z) (useCompleteAccess : bool) : S StoreError (gmap Z DeviceParameterValue) := fun '(b, s) =>
  let subindices := readable_subindices s idx in
  match subindices with
  | [] => ((b, s), Unexpected (ObjectNotFound (position s) idx))
  | _ :: _ =>
      let '(b, s, filled) :=
        if (2 <=? length subindices)%nat then readObjectComplete idx subindices useCompleteAccess (b, s)
        else ((b, s), false) in
      let values := collect s idx subindices ∅ in
      if filled && (size values =? length subindices)%nat then ((b, s), Value values)
      else read_each idx subindices ∅ (b, s)
  end.

(** *** [readAllParameters] *)
Fixpoint sweep_subindices (idx code : Z) (subs : list Z) (lastInUse : option Z) (w : B * store) : B * store :=
  match subs with
  | [] => w
  | si :: subs' =>
      let aboveCount := match lastInUse with Some n => n <? si | None => false end in
      if aboveCount && bool_decide (declaredSubindexReads w.2 = ReadsRefused) then w
      else
        let '((b, s), r) := readParameter idx si w in
        let s := if aboveCount then set_declared s (if has_value r then ReadsServed else ReadsRefused) else s in
        let lastInUse :=
          match r with
          | Value v => if si =? 0 then subindicesInUse code v else lastInUse
          | Unexpected _ => lastInUse
          end in
        sweep_subindices idx code subs' lastInUse (b, s)
  end.

Definition sweep_object (useCompleteAccess : bool) (w : B * store) (o : Z * Z * list Z) : B * store :=
  let '(idx, code, subs) := o in
  let '(w, filled) :=
    if (2 <=? length subs)%nat then readObjectComplete idx subs useCompleteAccess w else (w, false) in
  if filled then w else sweep_subindices idx code subs None w.

(** The readable objects in index order, with an object code and the readable subindices. *)
Definition readable_objects (s : store) : list (Z * Z * list Z) :=
  let entries := omap (fun c => match cells s !! c with
                                | Some p => if isReadable p then Some (index p, objectCode p) else None
                                | None => None
                                end) (snd <$> map_to_list (parameters s)) in
  let objects := foldl (fun (m : gmap Z Z) e => <[e.1 := e.2]> m) ∅ entries in
  (fun i => (i, default 0 (objects !! i), readable_subindices s i)) <$>
    merge_sort Z.le (map_to_list objects).*1.

Definition readAllParameters (useCompleteAccess : bool) : S StoreError unit := fun '(b, s) =>
  if negb (hasParameters s) then ((b, s), Unexpected (NoParameters (position s)))
  else (foldl (sweep_object useCompleteAccess) (b, s) (readable_objects s), Value tt).
End Operations.

(** ** Cells are stable *)

(** What a real-time reader of a cell relies on without a lock: the cell stays the same object with
    the same declared type and width. *)
Definition same_schema (p q : DeviceParameter) : Prop :=
  index q = index p /\ subindex q = subindex p /\ dataType q = dataType p /\ bitLength q = bitLength p.

Definition extends (cs cs' : list DeviceParameter) : Prop :=
  forall c p, cs !! c = Some p -> exists q, cs' !! c = Some q /\ same_schema p q.

(** Every address in the map is a live cell, and the cell of that object. *)
Definition map_ok (m : gmap Z nat) (cs : list DeviceParameter) : Prop :=
  forall k c, m !! k = Some c -> exists p, cs !! c = Some p /\ key_of p = k.

Definition store_ok (s : store) : Prop := map_ok (parameters s) (cells s).

Definition evolves (s s' : store) : Prop := position s' = position s /\ extends (cells s) (cells s').

Lemma same_schema_refl p : same_schema p p.
Proof. done. Qed.

Lemma same_schema_trans p q r : same_schema p q -> same_schema q r -> same_schema p r.
Proof. unfold same_schema. intuition congruence. Qed.

Lemma same_schema_key p q : same_schema p q -> key_of q = key_of p.
Proof. intros (H1 & H2 & _). unfold key_of. by rewrite H1, H2. Qed.

Lemma extends_refl cs : extends cs cs.
Proof. intros c p Hp. exists p. split; [done|apply same_schema_refl]. Qed.

Lemma extends_trans a b c : extends a b -> extends b c -> extends a c.
Proof.
  intros Hab Hbc i p Hp. destruct (Hab i p Hp) as (q & Hq & Hs). destruct (Hbc i q Hq) as (r & Hr & Hs').
  exists r. split; [done|]. by apply (same_schema_trans p q r).
Qed.

Lemma extends_insert cs c p q : cs !! c = Some p -> same_schema p q -> extends cs (<[c := q]> cs).
Proof.
  intros Hc Hs i r Hi. destruct (decide (i = c)) as [->|Hne].
  - exists q. rewrite list_lookup_insert_eq by (by eapply lookup_lt_Some). split; [done|]. congruence.
  - exists r. rewrite list_lookup_insert_ne by done. split; [done|apply same_schema_refl].
Qed.

Lemma extends_app cs cs' : extends cs (cs ++ cs').
Proof. intros c p Hp. exists p. split; [by apply lookup_app_l_Some|apply same_schema_refl]. Qed.

Lemma map_ok_extends m cs cs' : map_ok m cs -> extends cs cs' -> map_ok m cs'.
Proof.
  intros Hm He k c Hk. destruct (Hm k c Hk) as (p & Hp & <-). destruct (He c p Hp) as (q & Hq & Hs).
  exists q. split; [done|]. by apply same_schema_key.
Qed.

Lemma evolves_refl s : evolves s s.
Proof. split; [done|apply extends_refl]. Qed.

Lemma evolves_trans a b c : evolves a b -> evolves b c -> evolves a c.
Proof. intros [? ?] [? ?]. split; [congruence|]. by eapply extends_trans. Qed.

Lemma setRawValue_schema p l : same_schema p (setRawValue p l).
Proof. unfold setRawValue. by destruct (isScalarDataType (dataType p)). Qed.

Lemma setValue_schema p v q r : setValue p v = (q, r) -> same_schema p q.
Proof.
  unfold setValue. destruct (encode p v); intros [= <- <-]; [apply setRawValue_schema|apply same_schema_refl].
Qed.

Lemma markReadFailed_schema p : same_schema p (markReadFailed p).
Proof. unfold markReadFailed. by case_bool_decide. Qed.

Lemma adopt_schema p d : same_schema p (adopt p d).
Proof.
  unfold adopt. destruct (syncState d); try done. unfold markReadFailed. by case_bool_decide.
Qed.

Lemma find_cell s idx sub c p : find s idx sub = Some (c, p) ->
  parameters s !! Image.makeParameterKey idx sub = Some c /\ cells s !! c = Some p.
Proof.
  unfold find. intros H. apply bind_Some in H as (c' & Hc & H). apply bind_Some in H as (p' & Hp & H). by simplify_eq.
Qed.

Lemma find_put s idx sub c p q : find s idx sub = Some (c, p) -> find (put s c q) idx sub = Some (c, q).
Proof.
  intros [Hc Hp]%find_cell. unfold find, put. cbn [parameters cells set_cells]. rewrite Hc. cbn.
  by rewrite list_lookup_insert_eq by (by eapply lookup_lt_Some).
Qed.

(** A step keeps the store well formed and its cells stable. *)
Definition step_ok (s s' : store) : Prop := store_ok s -> store_ok s' /\ evolves s s'.

Lemma step_ok_refl s : step_ok s s.
Proof. intros H. split; [done|apply evolves_refl]. Qed.

Lemma step_ok_trans a b c : step_ok a b -> step_ok b c -> step_ok a c.
Proof. intros Hab Hbc Ha. destruct (Hab Ha) as [Hb He]. destruct (Hbc Hb). split; [done|]. by eapply evolves_trans. Qed.

Lemma step_ok_extends s s' : parameters s' = parameters s -> position s' = position s ->
  extends (cells s) (cells s') -> step_ok s s'.
Proof. intros Hp Hpos He Hok. unfold store_ok. rewrite Hp. split; [by eapply map_ok_extends|done]. Qed.

Lemma step_ok_put s c p q : cells s !! c = Some p -> same_schema p q -> step_ok s (put s c q).
Proof. intros Hc Hs. apply step_ok_extends; [done..|]. by eapply extends_insert. Qed.

Lemma step_ok_put_find s idx sub c p q : find s idx sub = Some (c, p) -> same_schema p q -> step_ok s (put s c q).
Proof. intros [_ Hc]%find_cell Hs. by eapply step_ok_put. Qed.

Create HintDb mm_store.
#[export] Hint Resolve step_ok_refl same_schema_refl setRawValue_schema markReadFailed_schema : mm_store.

Lemma markFailed_ok s idx sub dt : step_ok s (markFailed s idx sub dt).
Proof.
  unfold markFailed. destruct (find s idx sub) as [[c p]|] eqn:E; [|apply step_ok_refl].
  destruct (dataType p =? dt); [|apply step_ok_refl]. eapply step_ok_put_find; [done|apply markReadFailed_schema].
Qed.

Lemma commit_ok s idx sub c p l : find s idx sub = Some (c, p) -> step_ok s (commit s c p l).
Proof. intros Hf. eapply step_ok_put_find; [done|]. apply (setRawValue_schema p l). Qed.

(** ** Publishing *)

(** What the store holds of entry [d] of an enumeration: the cell it had, when type and width are
    unchanged, with its value unless this enumeration read one; else a new cell. *)
Definition published (s : store) (cs : list DeviceParameter) (next : gmap Z nat) (k : Z) (d : DeviceParameter) : Prop :=
  exists c q, next !! k = Some c /\ cs !! c = Some q /\ key_of q = k /\
    dataType q = dataType d /\ bitLength q = bitLength d /\ name q = name d /\
    match reusable (parameters s) (cells s) k d with
    | Some (c0, p) =>
        c = c0 /\ currentValue q =
          (if bool_decide (syncState d = Unknown \/ syncState d = Stale) then currentValue p else currentValue d)
    | None => (length (cells s) <= c)%nat /\ currentValue q = currentValue d /\ syncState q <> Stale
    end.

Lemma currentValue_eq p q : dataType p = dataType q -> cell p = cell q -> rawValue p = rawValue q ->
  currentValue p = currentValue q.
Proof. intros H1 H2 H3. unfold currentValue. by rewrite H1, H2, H3. Qed.

Lemma markReadFailed_value p : currentValue (markReadFailed p) = currentValue p.
Proof. unfold markReadFailed. by case_bool_decide. Qed.

Lemma adopt_value p d : dataType p = dataType d ->
  currentValue (adopt p d) =
  if bool_decide (syncState d = Unknown \/ syncState d = Stale) then currentValue p else currentValue d.
Proof.
  intros Ht. unfold adopt. destruct (syncState d) eqn:E.
  - rewrite bool_decide_eq_true_2 by (by left). done.
  - rewrite bool_decide_eq_false_2 by naive_solver. by apply currentValue_eq.
  - rewrite bool_decide_eq_false_2 by naive_solver. by apply currentValue_eq.
  - rewrite bool_decide_eq_true_2 by (by right). rewrite markReadFailed_value. done.
Qed.

Lemma adopt_name p d : name (adopt p d) = name d.
Proof. unfold adopt. destruct (syncState d); try done. unfold markReadFailed. by case_bool_decide. Qed.

(** The loop of [publishParameters] after the entries [done]. *)
Record publish_inv (s : store) (seen : list (Z * DeviceParameter)) (cs : list DeviceParameter) (next : gmap Z nat) : Prop := {
  pi_next : map_ok next cs;
  pi_extends : extends (cells s) cs;
  pi_untouched : forall k c, parameters s !! k = Some c -> k ∉ seen.*1 -> cs !! c = cells s !! c;
  pi_length : (length (cells s) <= length cs)%nat;
  pi_dom : forall k, is_Some (next !! k) <-> k ∈ seen.*1;
  pi_seen : forall k d, (k, d) ∈ seen -> published s cs next k d;
}.

Lemma reusable_Some old cs k d c p : reusable old cs k d = Some (c, p) ->
  old !! k = Some c /\ cs !! c = Some p /\ dataType p = dataType d /\ bitLength p = bitLength d.
Proof.
  unfold reusable. intros H. apply bind_Some in H as (c' & Hc & H). apply bind_Some in H as (p' & Hp & H).
  destruct (_ && _) eqn:E; [|done]. apply andb_true_iff in E as [E1%Z.eqb_eq E2%Z.eqb_eq]. by simplify_eq.
Qed.

Lemma reusable_untouched s cs k d :
  (forall c, parameters s !! k = Some c -> cs !! c = cells s !! c) ->
  reusable (parameters s) cs k d = reusable (parameters s) (cells s) k d.
Proof. intros Hu. unfold reusable. destruct (parameters s !! k) as [c|]; [|done]. cbn. by rewrite Hu. Qed.

(** An entry already published is not disturbed by writing another object's cell. *)
Lemma published_frame s cs cs' next k d k' c' : map_ok next cs -> k' <> k ->
  (forall c q, cs !! c = Some q -> key_of q = k -> cs' !! c = Some q) ->
  published s cs next k d -> published s cs' (<[k' := c']> next) k d.
Proof.
  intros Hm Hne Hcs (c & q & Hc & Hq & Hk & Hrest). exists c, q. rewrite lookup_insert_ne by done.
  split; [done|]. split; [|done]. by apply Hcs.
Qed.

Lemma publish_dom (seen : list (Z * DeviceParameter)) (next : gmap Z nat) k d c : (forall k', is_Some (next !! k') <-> k' ∈ seen.*1) ->
  forall k', is_Some ((<[k := c]> next) !! k') <-> k' ∈ (seen ++ [(k, d)]).*1.
Proof.
  intros Hd k'. rewrite fmap_app, elem_of_app, <- Hd. cbn. rewrite list_elem_of_singleton.
  destruct (decide (k' = k)) as [->|Hne]; [rewrite lookup_insert_eq; naive_solver|].
  rewrite lookup_insert_ne by done. naive_solver.
Qed.

Lemma map_ok_insert (next : gmap Z nat) cs cs' k c q : map_ok next cs ->
  (forall c' p, cs !! c' = Some p -> key_of p <> k -> cs' !! c' = Some p) ->
  cs' !! c = Some q -> key_of q = k -> map_ok (<[k := c]> next) cs'.
Proof.
  intros Hn Hother Hq Hk k' c' Hk'. destruct (decide (k' = k)) as [->|Hne].
  - rewrite lookup_insert_eq in Hk'. simplify_eq. by exists q.
  - rewrite lookup_insert_ne in Hk' by done. destruct (Hn k' c' Hk') as (p & Hp & Hkp). exists p. split; [|done].
    apply Hother; congruence.
Qed.

(** Entries published before stay so when only the cell of [k] is written and [k] is new. *)
Lemma seen_frame s seen cs cs' next k d c : map_ok next cs -> k ∉ seen.*1 ->
  (forall c' p, cs !! c' = Some p -> key_of p <> k -> cs' !! c' = Some p) ->
  (forall k' d', (k', d') ∈ seen -> published s cs next k' d') ->
  published s cs' (<[k := c]> next) k d ->
  forall k' d', (k', d') ∈ seen ++ [(k, d)] -> published s cs' (<[k := c]> next) k' d'.
Proof.
  intros Hn Hfresh Hother Hs Hself k' d' Hin. apply elem_of_app in Hin as [Hin|Hin%list_elem_of_singleton].
  - assert (k <> k') by (intros ->; apply Hfresh, list_elem_of_fmap; by exists (k', d')).
    apply (published_frame s cs); [done|done| |by apply Hs]. intros c' q Hq Hkq. apply Hother; congruence.
  - by simplify_eq.
Qed.

Lemma publish_reuse s seen cs next k d c p :
  store_ok s -> k ∉ seen.*1 -> publish_inv s seen cs next ->
  reusable (parameters s) (cells s) k d = Some (c, p) ->
  publish_inv s (seen ++ [(k, d)]) (<[c := adopt p d]> cs) (<[k := c]> next).
Proof.
  intros Hok Hfresh [Hn He Hu Hl Hd Hs] Er.
  pose proof (reusable_Some _ _ _ _ _ _ Er) as (Hold & Hp & Ht & Hb).
  assert (Hcs : cs !! c = Some p) by (rewrite <- Hp; by apply (Hu k)).
  assert (Hkp : key_of p = k) by (destruct (Hok k c Hold) as (p' & ? & ?); congruence).
  pose proof (adopt_schema p d) as Hsch.
  assert (Hother : forall c' q, cs !! c' = Some q -> key_of q <> k -> (<[c := adopt p d]> cs) !! c' = Some q).
  { intros c' q Hq Hkq. rewrite list_lookup_insert_ne; [done|]. intros <-. congruence. }
  assert (Hself : (<[c := adopt p d]> cs) !! c = Some (adopt p d)) by (apply list_lookup_insert_eq; by eapply lookup_lt_Some).
  assert (Hka : key_of (adopt p d) = k) by by rewrite (same_schema_key p).
  split.
  - by eapply map_ok_insert.
  - eapply extends_trans; [done|]. by eapply extends_insert.
  - intros k' c' Hk' Hnin. rewrite fmap_app, not_elem_of_app in Hnin. destruct Hnin as [Hnin Hne].
    rewrite <- (Hu k' c' Hk' Hnin). apply list_lookup_insert_ne. intros <-.
    destruct (Hok k' c Hk') as (q & Hq & Hkq). apply Hne. cbn. apply list_elem_of_singleton. congruence.
  - by rewrite length_insert.
  - by apply publish_dom.
  - eapply seen_frame; [done..|]. exists c, (adopt p d). rewrite lookup_insert_eq, Er. destruct Hsch as (_ & _ & H3 & H4).
    split_and!; try done; [congruence|congruence|apply adopt_name|by apply adopt_value].
Qed.

Lemma publish_fresh s seen cs next k d :
  store_ok s -> key_of d = k -> k ∉ seen.*1 -> publish_inv s seen cs next ->
  reusable (parameters s) (cells s) k d = None ->
  publish_inv s (seen ++ [(k, d)])
    (cs ++ [if bool_decide (syncState d = Stale) then set_sync d Unknown else d]) (<[k := length cs]> next).
Proof.
  intros Hok Hkd Hfresh [Hn He Hu Hl Hd Hs] Er.
  set (d0 := if bool_decide (syncState d = Stale) then set_sync d Unknown else d).
  assert (Hd0 : key_of d0 = k /\ dataType d0 = dataType d /\ bitLength d0 = bitLength d /\ name d0 = name d /\
    currentValue d0 = currentValue d /\ syncState d0 <> Stale) by (unfold d0; case_bool_decide; split_and!; done).
  destruct Hd0 as (Hk0 & Ht0 & Hb0 & Hn0 & Hv0 & Hs0).
  assert (Hself : (cs ++ [d0]) !! length cs = Some d0) by (rewrite lookup_app_r, Nat.sub_diag by lia; done).
  assert (Hother : forall c q, cs !! c = Some q -> key_of q <> k -> (cs ++ [d0]) !! c = Some q)
    by (intros; by apply lookup_app_l_Some).
  split.
  - by eapply map_ok_insert.
  - eapply extends_trans; [done|apply extends_app].
  - intros k' c' Hk' Hnin. rewrite fmap_app, not_elem_of_app in Hnin. destruct Hnin as [Hnin _].
    rewrite <- (Hu k' c' Hk' Hnin). destruct (Hok k' c' Hk') as (q & Hq%lookup_lt_Some & _).
    apply lookup_app_l. lia.
  - rewrite length_app. lia.
  - by apply publish_dom.
  - eapply seen_frame; [done..|]. exists (length cs), d0. rewrite lookup_insert_eq, Er. split_and!; done.
Qed.

Lemma publish_loop s todo seen cs next :
  store_ok s -> Forall (fun kd => key_of kd.2 = kd.1) todo -> NoDup (seen ++ todo).*1 -> publish_inv s seen cs next ->
  let '(cs', next') := foldl (publish_one (parameters s)) (cs, next) todo in publish_inv s (seen ++ todo) cs' next'.
Proof.
  intros Hok Hk. revert seen cs next. induction Hk as [|[k d] todo Hkd Hk IH]; intros seen cs next Hnd Hinv.
  { cbn [foldl]. by rewrite app_nil_r. }
  assert (Hfresh : k ∉ seen.*1).
  { rewrite fmap_app, fmap_cons in Hnd. apply NoDup_app in Hnd as (_ & Hd & _). intros Hin. apply (Hd k Hin), list_elem_of_here. }
  assert (Hnd' : NoDup ((seen ++ [(k, d)]) ++ todo).*1) by by rewrite <- app_assoc.
  cbn [foldl publish_one].
  rewrite (reusable_untouched s) by (intros c Hc; by apply (pi_untouched _ _ _ _ Hinv k)).
  replace (seen ++ (k, d) :: todo) with ((seen ++ [(k, d)]) ++ todo) by by rewrite <- app_assoc.
  destruct (reusable (parameters s) (cells s) k d) as [[c p]|] eqn:Er; apply IH; try done.
  - by eapply publish_reuse.
  - by eapply publish_fresh.
Qed.

(** The entries of an enumeration: each under its own key, once. *)
Definition built_ok (built : list (Z * DeviceParameter)) : Prop :=
  Forall (fun kd => key_of kd.2 = kd.1) built /\ NoDup built.*1.

Lemma publish_result s drained built : store_ok s -> built_ok built ->
  let s' := publishParameters s drained built in publish_inv s built (cells s') (parameters s').
Proof.
  intros Hok [Hk Hnd]. unfold publishParameters.
  pose proof (publish_loop s built [] (cells s) ∅ Hok Hk Hnd) as H.
  destruct (foldl _ _ built) as [cs next]. apply H. split; try done.
  - apply extends_refl.
  - intros k. rewrite lookup_empty. split; [by intros []|]. intros Hin. by apply elem_of_nil in Hin.
  - intros k d Hin. by apply elem_of_nil in Hin.
Qed.


(** ** Every operation *)

(** Other threads run the same operations: they keep the store well formed and its cells stable. *)
Class Interference (B : Type) `{ParameterBus B} := { others_ok (b : B) s : step_ok s (others b s) }.

Section Invariant.
Context {B : Type} `{Interference B}.

Lemma step_others (b : B) s s' : step_ok (others b s) s' -> step_ok s s'.
Proof using Type*. intros Hs. eapply step_ok_trans; [apply (others_ok b)|done]. Qed.

Lemma readParameter_ok idx sub (b : B) s : step_ok s (readParameter idx sub (b, s)).1.2.
Proof using Type*.
  unfold readParameter. destruct (find s idx sub) as [[c p]|] eqn:Ef; [|apply step_ok_refl].
  destruct (image_bytes b s idx sub) as [l|].
  { destruct (decodeSdoBytes (dataType p) l); cbn.
    - by eapply commit_ok.
    - eapply step_ok_put_find; [done|apply markReadFailed_schema]. }
  destruct (negb (mailboxActive b s)); [apply step_ok_refl|].
  destruct (drv_readSdo (position s) idx sub b) as [b' [l|e]]; [|apply (step_others b'), markFailed_ok].
  destruct (decodeSdoBytes (dataType p) l); [|apply (step_others b'), markFailed_ok].
  apply (step_others b'). destruct (find (others b' s) idx sub) as [[c' p']|] eqn:Ef'; [|apply step_ok_refl].
  destruct (dataType p' =? dataType p); [by eapply commit_ok|apply step_ok_refl].
Qed.

Lemma writeParameter_ok idx sub v (b : B) s : step_ok s (writeParameter idx sub v (b, s)).1.2.
Proof using Type*.
  unfold writeParameter. destruct (find s idx sub) as [[c p]|] eqn:Ef; [|apply step_ok_refl].
  destruct (setValue p v) as [q [[]|e]] eqn:Eq; [|apply step_ok_refl].
  apply setValue_schema in Eq.
  assert (Hput : forall st, step_ok s (put s c (set_sync q st))) by (intros st; by eapply step_ok_put_find).
  destruct (match exchanging b s with Some pd => _ | None => false end); [apply Hput|].
  destruct (negb (mailboxActive b s)); [apply Hput|].
  destruct (drv_writeSdo _ idx sub (rawValueBytes q) b) as [b' w]. cbn [fst snd].
  eapply step_ok_trans; [by eapply (step_ok_put_find s idx sub c p q)|]. apply (step_others b').
  destruct (find (others b' (put s c q)) idx sub) as [[c' p']|] eqn:Ef'; [|apply step_ok_refl].
  by eapply step_ok_put_find.
Qed.

Lemma decode_complete_extends subs blob k cursor cs :
  extends cs (decode_complete subs blob k cursor cs).1.
Proof using.
  revert k cursor cs. induction subs as [|c subs IH]; intros k cursor cs; cbn [decode_complete]; [apply extends_refl|].
  destruct (cs !! c) as [p|] eqn:Ec; [|apply extends_refl].
  destruct (_ <? _); [apply extends_refl|]. destruct (decodeSdoBytes _ _); [|apply extends_refl].
  eapply extends_trans; [|apply IH]. eapply extends_insert; [done|]. apply (setRawValue_schema p).
Qed.

Lemma set_ca_ok s x : step_ok s (set_ca s x).
Proof using. apply step_ok_extends; [done..|apply extends_refl]. Qed.

Lemma set_declared_ok s x : step_ok s (set_declared s x).
Proof using. apply step_ok_extends; [done..|apply extends_refl]. Qed.

Lemma readObjectComplete_ok idx subs ca (b : B) s : step_ok s (readObjectComplete idx subs ca (b, s)).1.2.
Proof using Type*.
  unfold readObjectComplete. destruct (_ || _); [apply step_ok_refl|].
  destruct (find_all s idx subs) as [cs|]; [|apply step_ok_refl].
  destruct (negb _); [apply step_ok_refl|]. destruct (existsb _ _); [apply step_ok_refl|].
  destruct (drv_readSdoComplete (position s) idx b) as [b' [blob|e]]; apply (step_others b'); [|apply set_ca_ok].
  eapply step_ok_trans; [apply (set_ca_ok _ CaSupported)|].
  destruct (find_all (set_ca _ _) idx subs) as [cs'|]; [|apply step_ok_refl].
  destruct (negb _); [apply step_ok_refl|].
  pose proof (decode_complete_extends cs' blob 0 0 (cells (others b' s))) as He.
  unfold decodeCompleteAccess. cbn [cells set_ca]. destruct (decode_complete _ _ _ _ _) as [cells' r].
  by apply step_ok_extends.
Qed.

Lemma read_each_ok idx subs acc (b : B) s : step_ok s (read_each idx subs acc (b, s)).1.2.
Proof using Type*.
  revert acc b s. induction subs as [|sub subs IH]; intros acc b s; [apply step_ok_refl|]. cbn [read_each].
  pose proof (readParameter_ok idx sub b s) as Hr. unfold bind.
  destruct (readParameter idx sub (b, s)) as [[b' s'] [v|e]]; [|done].
  eapply step_ok_trans; [done|]. apply IH.
Qed.

Lemma readObject_ok idx ca (b : B) s : step_ok s (readObject idx ca (b, s)).1.2.
Proof using Type*.
  unfold readObject. destruct (readable_subindices s idx) as [|sub subs]; [apply step_ok_refl|].
  pose proof (readObjectComplete_ok idx (sub :: subs) ca b s) as Hr.
  destruct (2 <=? _)%nat.
  - destruct (readObjectComplete idx (sub :: subs) ca (b, s)) as [[b' s'] filled].
    destruct (filled && _); [done|]. eapply step_ok_trans; [done|]. apply read_each_ok.
  - cbn [andb]. apply read_each_ok.
Qed.

Lemma sweep_subindices_ok idx code subs last (b : B) s : step_ok s (sweep_subindices idx code subs last (b, s)).2.
Proof using Type*.
  revert last b s. induction subs as [|si subs IH]; intros last b s; [apply step_ok_refl|]. cbn [sweep_subindices].
  destruct (_ && _); [apply step_ok_refl|]. pose proof (readParameter_ok idx si b s) as Hr.
  destruct (readParameter idx si (b, s)) as [[b' s'] r]. eapply step_ok_trans; [done|].
  eapply step_ok_trans; [|apply IH]. destruct (match last with Some _ => _ | None => _ end); [apply set_declared_ok|apply step_ok_refl].
Qed.

Lemma sweep_object_ok ca o (b : B) s : step_ok s (sweep_object ca (b, s) o).2.
Proof using Type*.
  destruct o as [[idx code] subs]. unfold sweep_object. pose proof (readObjectComplete_ok idx subs ca b s) as Hr.
  destruct (2 <=? _)%nat; [|apply sweep_subindices_ok].
  destruct (readObjectComplete idx subs ca (b, s)) as [[b' s'] [|]]; [done|].
  eapply step_ok_trans; [done|apply sweep_subindices_ok].
Qed.

Lemma readAllParameters_ok ca (b : B) s : step_ok s (readAllParameters ca (b, s)).1.2.
Proof using Type*.
  unfold readAllParameters. destruct (negb _); [apply step_ok_refl|]. cbn [fst snd].
  generalize (readable_objects s). intros os. revert b s. induction os as [|o os IH]; intros b s; [apply step_ok_refl|].
  cbn [foldl]. pose proof (sweep_object_ok ca o b s) as Hs. destruct (sweep_object ca (b, s) o) as [b' s'].
  eapply step_ok_trans; [done|apply IH].
Qed.
End Invariant.

Lemma rt_setValue_ok t s idx sub v : step_ok s (rt_setValue t s idx sub v).1.
Proof.
  unfold rt_setValue. destruct (find s idx sub) as [[c p]|] eqn:Ef; [|apply step_ok_refl].
  destruct (defaultValueForDataType (dataType p)); try apply step_ok_refl.
  case_bool_decide; [by eapply step_ok_put_find|apply step_ok_refl].
Qed.

Lemma setValueFromBytes_ok s idx sub l : step_ok s (setValueFromBytes s idx sub l).1.
Proof.
  unfold setValueFromBytes. destruct (find s idx sub) as [[c p]|] eqn:Ef; [|apply step_ok_refl].
  destruct (decodeSdoBytes (dataType p) l); [|apply step_ok_refl].
  destruct (setValue p a) as [q [[]|e]] eqn:Eq; [|apply step_ok_refl]. apply setValue_schema in Eq.
  by eapply step_ok_put_find.
Qed.

(** The operations a device offers, in any order. *)
Inductive operation :=
  | OpRead (idx sub : Z)
  | OpWrite (idx sub : Z) (v : DeviceParameterValue)
  | OpReadObject (idx : Z) (ca : bool)
  | OpReadAll (ca : bool)
  | OpSetFromBytes (idx sub : Z) (l : bytes)
  | OpCyclicSet (t : IntType) (idx sub v : Z)
  | OpPublish (drained : bool) (built : list (Z * DeviceParameter)).

Definition run {B} `{ParameterBus B} (w : B * store) (o : operation) : B * store :=
  match o with
  | OpRead idx sub => (readParameter idx sub w).1
  | OpWrite idx sub v => (writeParameter idx sub v w).1
  | OpReadObject idx ca => (readObject idx ca w).1
  | OpReadAll ca => (readAllParameters ca w).1
  | OpSetFromBytes idx sub l => (w.1, (setValueFromBytes w.2 idx sub l).1)
  | OpCyclicSet t idx sub v => (w.1, (rt_setValue t w.2 idx sub v).1)
  | OpPublish drained built => (w.1, publishParameters w.2 drained built)
  end.

Definition op_ok (o : operation) : Prop := match o with OpPublish _ built => built_ok built | _ => True end.

Lemma publish_step_ok s drained built : built_ok built -> step_ok s (publishParameters s drained built).
Proof.
  intros Hb Hok. pose proof (publish_result s drained built Hok Hb) as [Hn He _ _ _ _]. split; [exact Hn|].
  split; [|exact He]. unfold publishParameters. by destruct (foldl _ _ built).
Qed.

Lemma run_ok {B} `{Interference B} o (w : B * store) : op_ok o -> step_ok w.2 (run w o).2.
Proof.
  destruct w as [b s]. destruct o; cbn [run fst snd]; intros Ho.
  - apply readParameter_ok.
  - apply writeParameter_ok.
  - apply readObject_ok.
  - apply readAllParameters_ok.
  - apply setValueFromBytes_ok.
  - apply rt_setValue_ok.
  - by apply publish_step_ok.
Qed.

(** C10: through any sequence of reads, writes, sweeps, cyclic writes and re-enumerations, with other
    threads interfering whenever the lock is free, every address in the map stays a live cell of the
    object it names, and a [DeviceParameter*] once obtained stays valid and keeps naming the same
    object with the same data type and width. *)
Theorem store_stable {B} `{Interference B} ops (w : B * store) idx sub c p :
  store_ok w.2 -> Forall op_ok ops -> find w.2 idx sub = Some (c, p) ->
  let s' := (foldl run w ops).2 in
  store_ok s' /\ exists q, cells s' !! c = Some q /\ same_schema p q.
Proof.
  intros Hok Hops [_ Hc]%find_cell.
  assert (Hstep : step_ok w.2 (foldl run w ops).2).
  { clear Hok Hc. revert w. induction Hops as [|o ops Ho Hops IH]; intros w; [apply step_ok_refl|]. cbn [foldl].
    eapply step_ok_trans; [by apply run_ok|apply IH]. }
  destruct (Hstep Hok) as [Hok' [_ He]]. split; [done|]. by apply He.
Qed.

(** ** What a read returns *)

Lemma decode_width dt l v : decodeSdoBytes dt l = Value v -> (scalarByteWidth dt <= length l)%nat.
Proof.
  rewrite decodeSdoBytes_table. unfold scalarByteWidth.
  destruct (defaultValueForDataType dt) as [t d|d|d|d|d]; try (intros; lia); unfold decodeInt, decodeReal.
  - destruct (Nat.ltb_spec (length l) (int_bytes t)); [done|lia].
  - destruct (Nat.ltb_spec (length l) 4); [done|lia].
  - destruct (Nat.ltb_spec (length l) 8); [done|lia].
Qed.

Lemma commit_value p l v : bytes_ok l -> decodeSdoBytes (dataType p) l = Value v ->
  currentValue (set_sync (setRawValue p l) Synced) = v.
Proof.
  intros Hl Hd. rewrite (currentValue_eq _ (setRawValue p l)) by done.
  rewrite currentValue_setRawValue by (split; [done|by eapply decode_width]). by rewrite Hd.
Qed.

(** The cells hold the same values as before, whatever their sync state. *)
Definition same_values (s s' : store) : Prop :=
  parameters s' = parameters s /\ length (cells s') = length (cells s) /\
  forall c p q, cells s !! c = Some p -> cells s' !! c = Some q ->
    currentValue q = currentValue p /\ rawValueBytes q = rawValueBytes p /\ (syncState q = Synced -> q = p).

Lemma same_values_refl s : same_values s s.
Proof. split; [done|]. split; [done|]. intros c p q Hp Hq. by simplify_eq. Qed.

Lemma same_values_failed s c p : cells s !! c = Some p -> same_values s (put s c (markReadFailed p)).
Proof.
  intros Hc. split; [done|]. split; [apply length_insert|]. intros i q q' Hq Hq'. cbn [put set_cells cells] in Hq'.
  destruct (decide (i = c)) as [->|Hne].
  - rewrite list_lookup_insert_eq in Hq' by (by eapply lookup_lt_Some). simplify_eq.
    unfold markReadFailed. by case_bool_decide.
  - rewrite list_lookup_insert_ne in Hq' by done. by simplify_eq.
Qed.

Lemma markFailed_same s idx sub dt : same_values s (markFailed s idx sub dt).
Proof.
  unfold markFailed. destruct (find s idx sub) as [[c p]|] eqn:Ef; [|apply same_values_refl].
  destruct (dataType p =? dt); [|apply same_values_refl]. by apply same_values_failed, (find_cell _ _ _ _ _ Ef).
Qed.

(** A parameter read that succeeds leaves in the store, under the requested address, the value it
    returned: decoded under the data type the object then declares (never under one it declared
    before a concurrent re-enumeration) and marked synced, or, without a mailbox, the cached value
    with nothing changed. A read that fails changes no value and leaves none marked synced that was
    not. *)
Theorem readParameter_faithful {B} `{ParameterBus B} idx sub (b b' : B) s s' r :
  readParameter idx sub (b, s) = ((b', s'), r) ->
  match r with
  | Value v =>
      exists c q, find s' idx sub = Some (c, q) /\
        ((s' = s /\ b' = b /\ mailboxActive b s = false /\ v = currentValue q) \/
         (syncState q = Synced /\ exists l, decodeSdoBytes (dataType q) l = Value v /\
            (bytes_ok l -> currentValue q = v)))
  | Unexpected e => same_values s s' \/ same_values (others b' s) s'
  end.
Proof.
  unfold readParameter. destruct (find s idx sub) as [[c p]|] eqn:Ef; [|intros [= <- <- <-]; left; apply same_values_refl].
  assert (Hcommit : forall s c p l v, find s idx sub = Some (c, p) -> decodeSdoBytes (dataType p) l = Value v ->
    exists c' q, find (commit s c p l) idx sub = Some (c', q) /\ syncState q = Synced /\
      exists l, decodeSdoBytes (dataType q) l = Value v /\ (bytes_ok l -> currentValue q = v)).
  { clear. intros s c p l v Ef Ed. exists c, (set_sync (setRawValue p l) Synced).
    split; [by eapply find_put|]. split; [done|]. exists l. cbn [set_sync dataType]. rewrite setRawValue_dataType.
    split; [done|]. intros Hl. by apply commit_value. }
  destruct (image_bytes b s idx sub) as [l|].
  { destruct (decodeSdoBytes (dataType p) l) eqn:Ed; intros [= <- <- <-].
    - destruct (Hcommit s c p l a Ef Ed) as (c' & q & Hq & Hrest). exists c', q. eauto.
    - left. by apply same_values_failed, (find_cell _ _ _ _ _ Ef). }
  destruct (mailboxActive b s) eqn:Em; cbn [negb].
  2: { intros [= <- <- <-]. exists c, p. split; [done|]. by left. }
  destruct (drv_readSdo (position s) idx sub b) as [b1 [l|e]].
  2: { intros [= <- <- <-]. right. apply markFailed_same. }
  destruct (decodeSdoBytes (dataType p) l) eqn:Ed.
  2: { intros [= <- <- <-]. right. apply markFailed_same. }
  destruct (find (others b1 s) idx sub) as [[c' p']|] eqn:Ef'.
  2: { intros [= <- <- <-]. right. apply same_values_refl. }
  destruct (Z.eqb_spec (dataType p') (dataType p)) as [Et|Et]; intros [= <- <- <-].
  - rewrite <- Et in Ed. destruct (Hcommit _ _ _ _ _ Ef' Ed) as (c'' & q & Hq & Hrest). exists c'', q. eauto.
  - right. apply same_values_refl.
Qed.

(** ** A Complete Access upload *)

(** Entry [(c, l)] of a blob: the cell [c], and the bytes [l] of its declared width and type. *)
Definition entry_fits (cs : list DeviceParameter) (e : nat * bytes) : Prop :=
  exists p v, cs !! e.1 = Some p /\ bitLength p = 8 * Z.of_nat (length e.2) /\
    decodeSdoBytes (dataType p) e.2 = Value v.

(** What reading the entries one by one commits. *)
Definition commit_all (cs : list DeviceParameter) (es : list (nat * bytes)) : list DeviceParameter :=
  foldl (fun cs e => alter (fun p => set_sync (setRawValue p e.2) Synced) e.1 cs) cs es.

Lemma entry_fits_other cs e f c : c <> e.1 -> entry_fits cs e -> entry_fits (alter f c cs) e.
Proof. intros Hne (p & v & Hp & Hrest). exists p, v. by rewrite list_lookup_alter_ne. Qed.

Lemma slice_mid (pre l post : bytes) : slice (length pre) (length l) (pre ++ l ++ post) = l.
Proof. unfold slice. rewrite drop_app_length, take_app_length. done. Qed.

Lemma decode_entry blob cs c l k o subs v p pre post :
  blob = pre ++ l ++ post -> length pre = o -> Z.of_nat (length blob) < 2 ^ 29 -> (k = 0%nat -> o = 0%nat) ->
  cs !! c = Some p -> bitLength p = 8 * Z.of_nat (length l) -> decodeSdoBytes (dataType p) l = Value v ->
  decode_complete (c :: subs) blob k (8 * Z.of_nat o) cs =
  decode_complete subs blob (Datatypes.S k)
    (8 * Z.of_nat (if (k =? 0)%nat then o + 2 else o + length l))
    (alter (fun p => set_sync (setRawValue p l) Synced) c cs).
Proof.
  intros Hb Ho Hlen Hk0 Hp Hbits Hd. cbn [decode_complete]. rewrite Hp, Hbits.
  change (2 ^ 29) with 536870912 in Hlen.
  assert (H32 : forall x, 0 <= x < 4294967296 -> u32 x = x) by (intros x Hx; by apply uwrap_id).
  assert (Hl : (o + length l <= length blob)%nat) by (rewrite Hb, !length_app; lia).
  assert (Hu : u32 (u32 (Z.of_nat (length blob)) * 8) = 8 * Z.of_nat (length blob))
    by (rewrite (H32 (Z.of_nat (length blob))), H32 by lia; lia).
  rewrite Hu, (H32 (8 * Z.of_nat o + _)) by lia.
  rewrite (proj2 (Z.ltb_ge _ _)) by lia. rewrite Bits.extractBits_aligned by done.
  assert (Hs : slice o (length l) blob = l) by (rewrite Hb, <- Ho; apply slice_mid). rewrite Hs, Hd. f_equal.
  - destruct (Nat.eqb_spec k 0) as [->|Hk]; [rewrite Hk0 by done; done|]. rewrite H32 by lia. lia.
  - symmetry. apply list_eq. intros i. destruct (decide (i = c)) as [->|Hne].
    + rewrite list_lookup_alter_eq, Hp, list_lookup_insert_eq by (by eapply lookup_lt_Some). done.
    + by rewrite list_lookup_alter_ne, list_lookup_insert_ne.
Qed.

Lemma decode_rest es : forall blob cs k o pre post,
  blob = pre ++ concat es.*2 ++ post -> length pre = o -> Z.of_nat (length blob) < 2 ^ 29 ->
  NoDup es.*1 -> Forall (entry_fits cs) es ->
  decode_complete es.*1 blob (Datatypes.S k) (8 * Z.of_nat o) cs = (commit_all cs es, CaFilled).
Proof.
  induction es as [|[c l] es IH]; intros blob cs k o pre post Hb Ho Hlen Hnd Hfit; [done|].
  apply Forall_cons in Hfit as [(p & v & Hp & Hbits & Hd) Hfit]. cbn [fmap list_fmap fst snd] in *.
  apply NoDup_cons in Hnd as [Hc Hnd].
  rewrite (decode_entry blob cs c l (Datatypes.S k) o _ v p pre (concat es.*2 ++ post)); try done.
  2: { rewrite Hb. cbn [concat]. by rewrite <- app_assoc. }
  cbn [Nat.eqb]. rewrite (IH blob _ (Datatypes.S k) (o + length l)%nat (pre ++ l) post); try done.
  - rewrite Hb. cbn [concat]. by rewrite <- !app_assoc.
  - rewrite length_app. lia.
  - rewrite Forall_forall in Hfit |- *. intros e He. apply entry_fits_other; [|by apply Hfit].
    intros ->. apply Hc, list_elem_of_fmap. eauto.
Qed.

(** A Complete Access blob in the standard layout (entry 0 in a 16-bit slot, the rest packed in
    order) fills every entry of the object exactly as reading its bytes one subindex at a time
    would, and touches no other cell. *)
Theorem completeAccess_equiv cs c0 l0 pad es post :
  (length l0 <= 2)%nat -> length pad = (2 - length l0)%nat ->
  Z.of_nat (length (l0 ++ pad ++ concat es.*2 ++ post)) < 2 ^ 29 ->
  NoDup (c0 :: es.*1) -> Forall (entry_fits cs) ((c0, l0) :: es) ->
  decodeCompleteAccess (c0 :: es.*1) (l0 ++ pad ++ concat es.*2 ++ post) cs =
    (commit_all cs ((c0, l0) :: es), CaFilled) /\
  forall c, c ∉ c0 :: es.*1 -> commit_all cs ((c0, l0) :: es) !! c = cs !! c.
Proof.
  intros Hl Hpad Hlen [Hc Hnd]%NoDup_cons [(p & v & Hp & Hbits & Hd) Hfit]%Forall_cons. split.
  - unfold decodeCompleteAccess. change 0 with (8 * Z.of_nat 0).
    rewrite (decode_entry _ cs c0 l0 0 0 _ v p [] (pad ++ concat es.*2 ++ post)) by done. cbn [Nat.eqb].
    rewrite (decode_rest es _ _ 0 (0 + 2) (l0 ++ pad) post); try done.
    + by rewrite <- app_assoc.
    + rewrite length_app. lia.
    + rewrite Forall_forall in Hfit |- *. intros e He. apply entry_fits_other; [|by apply Hfit].
      intros ->. apply Hc, list_elem_of_fmap. eauto.
  - clear. intros c Hc. change (c0 :: es.*1) with (((c0, l0) :: es).*1) in Hc. revert cs Hc.
    induction ((c0, l0) :: es) as [|e es' IH]; intros cs Hc; [done|]. cbn [commit_all foldl fmap list_fmap] in *.
    apply not_elem_of_cons in Hc as [Hne Hc]. rewrite IH by done. by apply list_lookup_alter_ne.
Qed.

(** ** Writing and reading back *)

(** A slave whose objects are a memory, used by one thread at a time. *)
Class MemorySlave (B : Type) `{ParameterBus B} (pos : Z) := {
  holds : B -> gmap (Z * Z) bytes;
  ms_read i sb l (b : B) : holds b !! (i, sb) = Some l ->
    exists b', drv_readSdo pos i sb b = (b', Value l) /\ holds b' = holds b /\ drv_slaveState pos b' = drv_slaveState pos b;
  ms_write i sb l0 l (b : B) : holds b !! (i, sb) = Some l0 -> length l = length l0 ->
    exists b', drv_writeSdo pos i sb l b = (b', Value tt) /\ holds b' = <[(i, sb) := l]> (holds b) /\
      drv_slaveState pos b' = drv_slaveState pos b;
  ms_quiet (b : B) s : others b s = s;
}.

(** The object is reached over the mailbox or the cache, or it is an output of the published image
    whose entry names its cell. *)
Definition routed {B} `{ParameterBus B} (b : B) (s : store) (idx sub : Z) (c : nat) : Prop :=
  exchanging b s = None \/
  exists pd img loc e, exchanging b s = Some pd /\ image pd = Some img /\ Image.find img (position s) idx sub = Some loc /\
    Image.isOutput loc = true /\ Image.i_outputs img !! Image.entryIndex loc = Some e /\ Image.e_parameter e = Some c.

Section RoundTrip.
Context {B : Type} `{ParameterBus B}.

Lemma exchanging_put (b : B) s c q : exchanging b (put s c q) = exchanging b s.
Proof using. done. Qed.

Lemma valueAs_in_range t t' v : in_range t v = true -> valueAs t (VInt t' v) = Some v.
Proof using. intros Hr. cbn [valueAs]. case_bool_decide; [done|]. by rewrite Hr. Qed.

Lemma setValue_int p t t' d v : defaultValueForDataType (dataType p) = VInt t' d -> in_range t' v = true ->
  exists q, setValue p (VInt t v) = (q, Value tt) /\ currentValue q = VInt t' v /\
    rawValueBytes q = le_bytes (int_bytes t') v /\ dataType q = dataType p.
Proof using.
  intros Hd Hr. destruct (setValue_cases p (VInt t v) t' d Hd) as [(z & q & Hz & _ & Hs & Hc & Hw & _)|[Hn _]].
  - cbn in Hz. subst z. exists q. split_and!; try done. by eapply setValue_schema in Hs as (_ & _ & Ht & _).
  - specialize (Hn v eq_refl). congruence.
Qed.

Lemma decode_int_bytes dt t' d v : defaultValueForDataType dt = VInt t' d -> in_range t' v = true ->
  decodeSdoBytes dt (le_bytes (int_bytes t') v) = Value (VInt t' v).
Proof using.
  intros Hd Hr. rewrite decodeSdoBytes_table, Hd, <- (app_nil_r (le_bytes _ _)). by apply decodeInt_encoded.
Qed.

Lemma image_bytes_output (b : B) s idx sub pd img loc e c q :
  exchanging b s = Some pd -> image pd = Some img -> Image.find img (position s) idx sub = Some loc ->
  Image.isOutput loc = true -> Image.i_outputs img !! Image.entryIndex loc = Some e -> Image.e_parameter e = Some c ->
  cells s !! c = Some q -> image_bytes b s idx sub = Some (rawValueBytes q).
Proof using.
  intros He Hi Hf Ho Hl Hp Hq. unfold image_bytes, readPdo. by rewrite He, Hi, Hf, Ho, Hl, Hp, Hq.
Qed.

(** Reading where the object is in the image. *)
Lemma readValue_image t (b : B) s idx sub c p l v t' :
  find s idx sub = Some (c, p) -> image_bytes b s idx sub = Some l ->
  decodeSdoBytes (dataType p) l = Value (VInt t' v) -> in_range t v = true ->
  exists s', readValue t idx sub (b, s) = ((b, s'), Value v).
Proof using.
  intros Hf Hi Hd Hr. exists (commit s c p l). unfold readValue, bind, readParameter.
  by rewrite Hf, Hi, Hd, valueAs_in_range.
Qed.

(** Reading the cache of a device without a mailbox. *)
Lemma readValue_cached t (b : B) s idx sub c p v t' :
  find s idx sub = Some (c, p) -> exchanging b s = None -> mailboxActive b s = false ->
  currentValue p = VInt t' v -> in_range t v = true -> readValue t idx sub (b, s) = ((b, s), Value v).
Proof using.
  intros Hf He Hm Hc Hr. unfold readValue, bind, readParameter, image_bytes.
  by rewrite Hf, He, Hm, Hc; cbn [negb]; rewrite valueAs_in_range.
Qed.

(** Reading over the mailbox. *)
Lemma readValue_mailbox t (b : B) s idx sub c p l v t' `{!MemorySlave B (position s)} :
  find s idx sub = Some (c, p) -> exchanging b s = None -> mailboxActive b s = true ->
  holds b !! (idx, sub) = Some l -> decodeSdoBytes (dataType p) l = Value (VInt t' v) -> in_range t v = true ->
  exists b' s', readValue t idx sub (b, s) = ((b', s'), Value v).
Proof using.
  intros Hf He Hm Hh Hd Hr. destruct (ms_read idx sub l b Hh) as (b' & Hrd & _ & _).
  exists b', (commit s c p l). unfold readValue, bind, readParameter, image_bytes. rewrite Hf, He, Hm. cbn [negb].
  rewrite Hrd, Hd, ms_quiet, Hf, Z.eqb_refl. by rewrite valueAs_in_range.
Qed.
End RoundTrip.

(** A number written to an integer object is read back unchanged, whichever way the two
    operations reach the object: over the mailbox, in which case the slave then holds the number in
    the object's declared width; through the output image; or, with the device offline, from the
    cache. *)
Theorem writeValue_readValue {B} `{ParameterBus B} t t' d idx sub v l0 (b : B) s c p `{!MemorySlave B (position s)} :
  find s idx sub = Some (c, p) -> defaultValueForDataType (dataType p) = VInt t' d ->
  in_range t v = true -> in_range t' v = true ->
  holds b !! (idx, sub) = Some l0 -> length l0 = int_bytes t' -> routed b s idx sub c ->
  exists b' s' w'', writeValue t idx sub v (b, s) = ((b', s'), Value tt) /\
    readValue t idx sub (b', s') = (w'', Value v) /\
    (exchanging b s = None -> mailboxActive b s = true -> holds b' !! (idx, sub) = Some (le_bytes (int_bytes t') v)).
Proof.
  intros Hf Hd Hr Hr' Hh Hl Hroute. destruct (setValue_int p t t' d v Hd Hr') as (q & Hset & Hcur & Hraw & Ht).
  unfold writeValue, writeParameter. rewrite Hf, Hset. pose proof (find_put s idx sub c p) as Hput.
  assert (Hdec : decodeSdoBytes (dataType q) (le_bytes (int_bytes t') v) = Value (VInt t' v))
    by (rewrite Ht; by apply (decode_int_bytes _ _ d)).
  destruct Hroute as [He|(pd & img & loc & e & He & Hi & Hloc & Ho & Hent & Hc)]; rewrite He.
  - destruct (mailboxActive b s) eqn:Em; cbn [negb].
    + destruct (ms_write idx sub l0 (rawValueBytes q) b Hh) as (b' & Hw & Hh' & Hst);
        [by rewrite Hraw, length_le_bytes|].
      change (position (put s c q)) with (position s). rewrite Hw, ms_quiet, (Hput q Hf).
      set (s' := put (put s c q) c (set_sync q Synced)).
      destruct (readValue_mailbox t b' s' idx sub c (set_sync q Synced) (le_bytes (int_bytes t') v) v t')
        as (b'' & s'' & Hrd); try done.
      * eapply find_put. by apply Hput.
      * unfold exchanging in *. cbn [s' put set_cells processData position] in *. by rewrite Hst.
      * unfold mailboxActive in *. cbn [s' put set_cells position] in *. by rewrite Hst.
      * etransitivity; [exact (f_equal (fun m => m !! (idx, sub)) Hh')|]. by rewrite lookup_insert_eq, Hraw.
      * exists b', s', (b'', s''). split; [done|]. split; [done|]. intros _ _. by rewrite Hh', lookup_insert_eq, Hraw.
    + exists b, (put s c (set_sync q Pending)). eexists. split; [done|]. split; [|done].
      by eapply readValue_cached; [by apply Hput|..].
  - unfold isOutputMapped. rewrite Hi, Hloc, Ho. set (s' := put s c (set_sync q Synced)).
    assert (Hb : image_bytes b s' idx sub = Some (rawValueBytes (set_sync q Synced))).
    { apply (image_bytes_output b s' idx sub pd img loc e c); try done. cbn.
      apply list_lookup_insert_eq. eapply lookup_lt_Some, (find_cell _ _ _ _ _ Hf). }
    assert (Hrb : rawValueBytes (set_sync q Synced) = le_bytes (int_bytes t') v) by exact Hraw.
    rewrite Hrb in Hb.
    destruct (readValue_image t b s' idx sub c (set_sync q Synced) _ v t' ltac:(by apply Hput) Hb Hdec Hr) as (s'' & Hrd).
    exists b, s', (b, s''). split; [done|]. split; [done|]. congruence.
Qed.

(** ** A simulated slave *)
Record Slave := mk_slave { sl_objects : gmap (Z * Z) bytes; sl_state : Z }.

#[export] Instance slave_driver : FieldbusDriver Slave := {|
  drv_readSdo _ i sb b :=
    (b, match sl_objects b !! (i, sb) with Some l => Value l | None => Unexpected (codes "0x06020000") end);
  drv_writeSdo _ i sb l b :=
    match sl_objects b !! (i, sb) with
    | Some l0 => if (length l =? length l0)%nat then (mk_slave (<[(i, sb) := l]> (sl_objects b)) (sl_state b), Value tt)
                 else (b, Unexpected (codes "0x06070010"))
    | None => (b, Unexpected (codes "0x06020000"))
    end;
  drv_readSii _ b := (b, Unexpected []);
  drv_slaveState _ b := sl_state b;
|}.

#[export] Instance slave_bus : ParameterBus Slave := {|
  drv_readSdoComplete _ _ b := (b, Unexpected (codes "0x06010000"));
  others _ s := s;
|}.

#[export] Instance slave_interference : Interference Slave.
Proof. constructor. intros b s. apply step_ok_refl. Qed.

#[export] Program Instance slave_memory pos : MemorySlave Slave pos := {| holds := sl_objects |}.
Next Obligation. intros pos i sb l b Hl. exists b. cbn. by rewrite Hl. Qed.
Next Obligation.
  intros pos i sb l0 l b Hl Hlen. eexists. cbn. by rewrite Hl, Hlen, Nat.eqb_refl.
Qed.
Next Obligation. intros pos b s. done. Qed.

(** Object 0x2003:01, an UNSIGNED16, and the count 0x2003:00. *)
Definition w_cell (sub dt : Z) : DeviceParameter :=
  mk_parameter 0x2003 sub [] 9 dt (if dt =? UNSIGNED8 then 8 else 16) 63 ObjectDictionary 0 [] Unknown None [] None
    None None [] [] [].
Definition w_store : store :=
  mk_store 1 [w_cell 0 UNSIGNED8; w_cell 1 UNSIGNED16]
    (<[0x200300 := 0%nat]> (<[0x200301 := 1%nat]> ∅)) [] CaUnknown ReadsUnknown None.
Definition w_bus : Slave := mk_slave (<[(0x2003, 0) := [1]]> (<[(0x2003, 1) := [0; 0]]> ∅)) kPreOp.

Lemma w_store_ok : store_ok w_store.
Proof.
  intros k c Hk. cbn [w_store parameters] in Hk. destruct (decide (k = 0x200300)) as [->|Hne].
  - rewrite lookup_insert_eq in Hk. simplify_eq. by eexists.
  - rewrite lookup_insert_ne in Hk by done. destruct (decide (k = 0x200301)) as [->|Hne'].
    + rewrite lookup_insert_eq in Hk. simplify_eq. by eexists.
    + by rewrite lookup_insert_ne in Hk.
Qed.

(** A re-enumeration in which 0x2003:01 became an UNSIGNED8. *)
Definition w_built : list (Z * DeviceParameter) := [(0x200300, w_cell 0 UNSIGNED8); (0x200301, w_cell 1 UNSIGNED8)].

Lemma w_built_ok : built_ok w_built.
Proof. split; [by repeat constructor|]. apply (bool_decide_unpack _). vm_compute. exact I. Qed.


Lemma store_stable_witness :
  exists q, cells (foldl run (w_bus, w_store)
    [OpWrite 0x2003 1 (VInt I32 500); OpPublish true w_built; OpRead 0x2003 1]).2 !! 1%nat = Some q /\
    same_schema (w_cell 1 UNSIGNED16) q.
Proof.
  apply (store_stable [OpWrite 0x2003 1 (VInt I32 500); OpPublish true w_built; OpRead 0x2003 1] (w_bus, w_store)
    0x2003 1 1%nat (w_cell 1 UNSIGNED16)).
  - exact w_store_ok.
  - apply Forall_cons; split; [exact I|]. apply Forall_cons; split; [exact w_built_ok|].
    apply Forall_cons; split; [exact I|]. by apply Forall_nil.
  - reflexivity.
Defined.

Lemma readParameter_faithful_witness :
  exists c q, find (readParameter 0x2003 0 (w_bus, w_store)).1.2 0x2003 0 = Some (c, q) /\ currentValue q = VInt U8 1.
Proof.
  destruct (readParameter_faithful 0x2003 0 w_bus w_bus w_store (readParameter 0x2003 0 (w_bus, w_store)).1.2 (Value (VInt U8 1)))
    as (c & q & Hf & [(_ & _ & Hm & _)|(Hs & l & Hd & Hv)]).
  - vm_compute. reflexivity.
  - discriminate Hm.
  - exists c, q. split; [exact Hf|]. vm_compute in Hf. injection Hf as <- <-. vm_compute. reflexivity.
Defined.

Lemma writeValue_readValue_witness :
  exists b' s' w'', writeValue I32 0x2003 1 500 (w_bus, w_store) = ((b', s'), Value tt) /\
    readValue I32 0x2003 1 (b', s') = (w'', Value 500) /\ holds (pos := 1) b' !! (0x2003, 1) = Some [244; 1].
Proof.
  destruct (writeValue_readValue I32 U16 0 0x2003 1 500 [0; 0] w_bus w_store 1%nat (w_cell 1 UNSIGNED16))
    as (b' & s' & w'' & Hw & Hr & Hh);
    [vm_compute; reflexivity|vm_compute; reflexivity|vm_compute; reflexivity|vm_compute; reflexivity|
     vm_compute; reflexivity|vm_compute; reflexivity|left; vm_compute; reflexivity|].
  exists b', s', w''. split; [exact Hw|]. split; [exact Hr|]. apply Hh; vm_compute; reflexivity.
Defined.

Lemma completeAccess_equiv_witness :
  decodeCompleteAccess [0%nat; 1%nat] [1; 0; 244; 1] (cells w_store) =
    (commit_all (cells w_store) [(0%nat, [1]); (1%nat, [244; 1])], CaFilled).
Proof.
  apply (completeAccess_equiv (cells w_store) 0 [1] [0] [(1%nat, [244; 1])] []).
  - cbn. lia.
  - reflexivity.
  - cbn. lia.
  - apply (bool_decide_unpack _). vm_compute. exact I.
  - apply Forall_cons; split; [|apply Forall_cons; split; [|by apply Forall_nil]].
    + exists (w_cell 0 UNSIGNED8), (VInt U8 1). split_and!; reflexivity.
    + exists (w_cell 1 UNSIGNED16), (VInt U16 500). split_and!; reflexivity.
Defined.

End Store.
