(* ===== verification/CycleDrain.v ===== *)
(** * The cycle handshake ([libs/node/device_manager.cc], [libs/node/process_data.h])

    How the control plane replaces what the real-time thread reads without a lock: the RT thread
    raises a depth counter and then loads the published image, the control plane unpublishes the
    image and then waits for the counter to reach zero. Modelled are the RT thread's cycle
    ([CycleGuard], the cyclic tasks, [exchangeProcessData]) down to each atomic access, and the
    operations of [DeviceManager] and [Device::publishParameters] as programs of atomic actions on
    the state both sides share. Memory is explicit: an object is live while something owns it.

    Atomics are sequentially consistent, as the handshake's own are. An answer that comes from the
    bus, the clock or the caller is chosen freely at each action, so a property of the step
    relation holds for every bus and every timing. *)

From S2P Require Import Prelude.

Module Drain.

(** ** Shared state *)

(** What can be freed: a process image, a device set with its devices and their parameter cells, a
    device's parameter map. *)
Inductive obj := OImage (i : nat) | OSet (s : nat) | OMap (m : nat).

#[export] Instance obj_eq_dec : EqDecision obj.
Proof. solve_decision. Defined.

(** Where the RT thread is. A pointer it has loaded is an argument. *)
Inductive rt_pc :=
  | Outside
  | GuardRaised                                  (* CycleGuard: depth raised, image not loaded *)
  | GuardBackout                                 (* CycleGuard: no image, depth not yet lowered *)
  | InCycle                                      (* the guard is held, between two tasks *)
  | TaskSet (s : nat)                            (* a task that resolved a device of set s *)
  | TaskMap (s m : nat)                          (* a task walking a device's parameter map *)
  | ExRaised                                     (* exchangeProcessData: depth raised *)
  | ExBackout                                    (* exchangeProcessData: no image *)
  | Composing (i : nat)                          (* the image loaded, composing outputs from cells *)
  | Exchanging (i : nat) (s : option nat).       (* the set loaded: exchange, record, decode *)

Record set_info := mk_info { has_driver : bool; devices : nat }.

Record sys := mk_sys {
  image : option nat;                            (* ProcessData::image *)
  inCycle : Z;                                   (* ProcessData::inCycle *)
  generations : list nat;                        (* ProcessData::generations *)
  ring : bool;                                   (* whether the recorder has its storage *)
  abandoned : list obj;                          (* DeviceManager::abandoned_ *)
  publishedSet : option nat;                     (* DeviceManager::publishedSet_ *)
  currentSet : nat;                              (* DeviceManager::currentSet_ *)
  holder : list nat;                             (* shared_ptrs of the operation that holds the bus *)
  infos : gmap nat set_info;                     (* contents of each set, frozen *)
  image_set : gmap nat nat;                      (* the set whose cells an image points into *)
  maps : gmap nat nat;                           (* Device::parameters_ of each device *)
  retiredMaps : list nat;                        (* Device::retiredMaps_ *)
  next : nat;                                    (* ids not yet used *)
  rt : rt_pc;
}.

(** [DeviceManager::DeviceManager]: an empty set, no image, nothing published to the RT thread. *)
Definition initial : sys :=
  mk_sys None 0 [] false [] None 0 [] {[ 0%nat := mk_info false 0 ]} ∅ ∅ [] 1 Outside.

(** ** The RT thread *)

Definition with_rt (s : sys) (depth : Z) (pc : rt_pc) : sys :=
  mk_sys (image s) depth (generations s) (ring s) (abandoned s) (publishedSet s) (currentSet s) (holder s)
    (infos s) (image_set s) (maps s) (retiredMaps s) (next s) pc.

(** What the thread does next where the code leaves it a choice: a task looks up a device and its
    map, the process-data task exchanges, or the task list ends. *)
Inductive rt_choice := Leave | Resolve | Walk (d : nat) | Exchange.

Definition rt_step (c : rt_choice) (s : sys) : option sys :=
  match rt s, c with
  | Outside, _ => Some (with_rt s (inCycle s + 1) GuardRaised)
  | GuardRaised, _ =>
      Some (with_rt s (inCycle s) (match image s with None => GuardBackout | Some _ => InCycle end))
  | GuardBackout, _ => Some (with_rt s (inCycle s - 1) Outside)
  | InCycle, Leave => Some (with_rt s (inCycle s - 1) Outside)
  | InCycle, Resolve =>
      match publishedSet s with
      | Some p => Some (with_rt s (inCycle s) (TaskSet p))
      | None => Some s
      end
  | InCycle, Exchange => Some (with_rt s (inCycle s + 1) ExRaised)
  | InCycle, Walk _ => None
  | TaskSet p, Walk d =>
      match maps s !! d with
      | Some m => Some (with_rt s (inCycle s) (TaskMap p m))
      | None => None
      end
  | TaskSet _, _ => Some (with_rt s (inCycle s) InCycle)
  | TaskMap p _, _ => Some (with_rt s (inCycle s) (TaskSet p))
  | ExRaised, _ =>
      Some (with_rt s (inCycle s) (match image s with None => ExBackout | Some i => Composing i end))
  | ExBackout, _ => Some (with_rt s (inCycle s - 1) InCycle)
  | Composing i, _ => Some (with_rt s (inCycle s) (Exchanging i (publishedSet s)))
  | Exchanging _ _, _ => Some (with_rt s (inCycle s - 1) InCycle)
  end.

(** How often the thread has raised the counter at each place. *)
Definition depth (pc : rt_pc) : Z :=
  match pc with
  | Outside => 0
  | GuardRaised | GuardBackout | InCycle | TaskSet _ | TaskMap _ _ => 1
  | ExRaised | ExBackout | Composing _ | Exchanging _ _ => 2
  end.

(** The objects it may dereference there; the cells of an image belong to the image's set. *)
Definition cells_of (s : sys) (i : nat) : list obj :=
  match image_set s !! i with Some d => [OSet d] | None => [] end.

Definition touched (s : sys) : list obj :=
  match rt s with
  | TaskSet p => [OSet p]
  | TaskMap p m => [OSet p; OMap m]
  | Composing i => OImage i :: cells_of s i
  | Exchanging i p => OImage i :: cells_of s i ++ match p with Some p => [OSet p] | None => [] end
  | _ => []
  end.

Definition live (s : sys) (o : obj) : Prop :=
  match o with
  | OImage i => i ∈ generations s \/ OImage i ∈ abandoned s
  | OSet p => p = currentSet s \/ p ∈ holder s \/ OSet p ∈ abandoned s
  | OMap m => (exists d, maps s !! d = Some m) \/ m ∈ retiredMaps s
  end.

(** ** Atomic actions of the control plane *)
Inductive act : Set -> Type :=
  | Ask : act bool                               (* an answer of the bus, the clock or the caller *)
  | GetSet : act nat                             (* deviceSet() *)
  | Info (s : nat) : act set_info
  | ImageConfigured : act bool                   (* processDataConfigured() *)
  | ExchangeNull : act (option nat)              (* image.exchange(nullptr) *)
  | DepthIsZero : act bool                       (* inCycle.load() == 0 *)
  | StoreImage (o : option nat) : act unit       (* image.store() *)
  | ClearAbandoned : act unit
  | ClearGenerations : act unit
  | AbandonGenerations : act unit
  | AbandonSet (s : nat) : act unit
  | ClearRing : act unit
  | AllocateRing : act unit
  | DriverScan : act (option nat)                (* the driver rebuilds its context *)
  | DriverMap : act bool                         (* the driver rebuilds the IOmap *)
  | PushImage (s : nat) : act nat                (* make_shared and generations.push_back *)
  | NewSet (i : set_info) : act nat              (* make_shared<DeviceSet> *)
  | StorePublished (s : nat) : act unit
  | StoreCurrent (s : nat) : act unit
  | SwapMap (d : nat) (retire : bool) : act unit.  (* parameters_ = std::move(next) *)

(** The actions that free or rewrite what an RT cycle uses: the thread must be outside. *)
Definition exclusive {A} (a : act A) : bool :=
  match a with
  | ClearAbandoned | ClearGenerations | ClearRing | AllocateRing | DriverScan | DriverMap => true
  | SwapMap _ retire => negb retire
  | _ => false
  end.

Definition with_image (s : sys) (o : option nat) : sys :=
  mk_sys o (inCycle s) (generations s) (ring s) (abandoned s) (publishedSet s) (currentSet s) (holder s)
    (infos s) (image_set s) (maps s) (retiredMaps s) (next s) (rt s).
Definition with_memory (s : sys) (gs : list nat) (r : bool) (ab : list obj) : sys :=
  mk_sys (image s) (inCycle s) gs r ab (publishedSet s) (currentSet s) (holder s)
    (infos s) (image_set s) (maps s) (retiredMaps s) (next s) (rt s).
Definition with_sets (s : sys) (p : option nat) (c : nat) (h : list nat) : sys :=
  mk_sys (image s) (inCycle s) (generations s) (ring s) (abandoned s) p c h
    (infos s) (image_set s) (maps s) (retiredMaps s) (next s) (rt s).
Definition add_set (s : sys) (i : set_info) : sys :=
  mk_sys (image s) (inCycle s) (generations s) (ring s) (abandoned s) (publishedSet s) (currentSet s)
    (next s :: holder s) (<[next s := i]> (infos s)) (image_set s) (maps s) (retiredMaps s) (S (next s)) (rt s).
Definition add_image (s : sys) (d : nat) : sys :=
  mk_sys (image s) (inCycle s) (generations s ++ [next s]) (ring s) (abandoned s) (publishedSet s) (currentSet s)
    (holder s) (infos s) (<[next s := d]> (image_set s)) (maps s) (retiredMaps s) (S (next s)) (rt s).
Definition swap_map (s : sys) (d : nat) (retire : bool) : sys :=
  mk_sys (image s) (inCycle s) (generations s) (ring s) (abandoned s) (publishedSet s) (currentSet s)
    (holder s) (infos s) (image_set s) (<[d := next s]> (maps s))
    (if retire then match maps s !! d with Some m => m :: retiredMaps s | None => retiredMaps s end
     else retiredMaps s) (S (next s)) (rt s).

(** The effect of an action; [b] and [n] are the outside world's part of the answer. *)
Definition perform {A} (a : act A) (b : bool) (n : nat) (s : sys) : A * sys :=
  match a in act A return A * sys with
  | Ask => (b, s)
  | GetSet => (currentSet s, with_sets s (publishedSet s) (currentSet s) (currentSet s :: holder s))
  | Info p => (default (mk_info false 0) (infos s !! p), s)
  | ImageConfigured => (bool_decide (is_Some (image s)), s)
  | ExchangeNull => (image s, with_image s None)
  | DepthIsZero => (inCycle s =? 0, s)
  | StoreImage o => (tt, with_image s o)
  | ClearAbandoned => (tt, with_memory s (generations s) (ring s) [])
  | ClearGenerations => (tt, with_memory s [] (ring s) (abandoned s))
  | AbandonGenerations => (tt, with_memory s [] (ring s) (abandoned s ++ (OImage <$> generations s)))
  | AbandonSet p => (tt, with_memory s (generations s) (ring s) (abandoned s ++ [OSet p]))
  | ClearRing => (tt, with_memory s (generations s) false (abandoned s))
  | AllocateRing => (tt, with_memory s (generations s) true (abandoned s))
  | DriverScan => (if b then Some n else None, s)
  | DriverMap => (b, s)
  | PushImage d => (next s, add_image s d)
  | NewSet i => (next s, add_set s i)
  | StorePublished p => (tt, with_sets s (Some p) (currentSet s) (holder s))
  | StoreCurrent p => (tt, with_sets s (publishedSet s) p (holder s))
  | SwapMap d retire => (tt, swap_map s d retire)
  end.

(** ** Operations, as programs of actions *)
Inductive prog :=
  | Ret
  | Do {A : Set} (a : act A) (k : A -> prog).

Declare Scope prog_scope.
Notation "'let*' x := a 'in' k" := (Do a (fun x => k)) (at level 10, x name, a at level 100, k at level 200)
  : prog_scope.
Notation "a ';;*' k" := (Do a (fun _ => k)) (at level 100, k at level 200, right associativity) : prog_scope.
Open Scope prog_scope.

(** The wait: the depth is polled until it is zero or the deadline has passed; [polls] bounds the
    polls that fit before the deadline. *)
Fixpoint drain (polls : nat) (k : prog) : prog :=
  match polls with
  | O => k
  | S polls =>
      let* zero := DepthIsZero in
      if zero then k else let* expired := Ask in if expired then k else drain polls k
  end.

Definition pauseCycle (polls : nat) (k : option nat -> bool -> prog) : prog :=
  let* previous := ExchangeNull in
  drain polls (let* zero := DepthIsZero in k previous zero).

Definition stopExchange (polls : nat) (k : bool -> prog) : prog :=
  pauseCycle polls (fun _ drained => if drained then ClearAbandoned ;;* k true else k false).

Definition publishDeviceSet (s : nat) (k : prog) : prog := StorePublished s ;;* StoreCurrent s ;;* k.

(** [mapOnce] up to [kProcessDataMapAttempts] times. *)
Fixpoint map_attempts (n : nat) (k : bool -> prog) : prog :=
  match n with
  | O => k false
  | S n => let* ok := DriverMap in if ok : bool then k true else map_attempts n k
  end.

Definition kProcessDataMapAttempts : nat := 3.

Definition remapProcessImage (polls : nat) (k : bool -> prog) : prog :=
  let* s := GetSet in
  let* i := Info s in
  if negb (has_driver i) then k false
  else if Nat.eqb (devices i) 0 then k false
  else stopExchange polls (fun drained =>
    if negb drained then k false
    else map_attempts kProcessDataMapAttempts (fun ok =>
      if negb ok then k false
      else AllocateRing ;;* let* g := PushImage s in StoreImage (Some g) ;;* k true)).

Definition init (polls : nat) : prog :=
  let* s := GetSet in
  let* i := Info s in
  if has_driver i then Ret
  else let* ok := Ask in
       if negb ok then Ret
       else let* new := NewSet (mk_info true 0) in
            stopExchange polls (fun _ => publishDeviceSet new Ret).

Definition publishParameters (polls d : nat) (k : prog) : prog :=
  pauseCycle polls (fun previous drained =>
    SwapMap d (negb drained) ;;* StoreImage previous ;;* k).

(** The devices whose dictionary is read, in order; a read that fails publishes nothing. *)
Fixpoint readMissingObjectDictionaries (polls : nat) (ds : list nat) (k : prog) : prog :=
  match ds with
  | [] => k
  | d :: ds =>
      let* read := Ask in
      let rest := readMissingObjectDictionaries polls ds k in
      if read : bool then publishParameters polls d rest else rest
  end.

Definition mapDevicesAlreadyExchanging (polls : nat) (ds : list nat) : prog :=
  let* exchanging := Ask in
  if exchanging then readMissingObjectDictionaries polls ds (remapProcessImage polls (fun _ => Ret)) else Ret.

Definition scan (polls : nat) (ds : list nat) : prog :=
  let* previous := GetSet in
  let* i := Info previous in
  if negb (has_driver i) then Ret
  else stopExchange polls (fun drained =>
    if negb drained then Ret
    else ClearGenerations ;;* ClearRing ;;*
      let* result := DriverScan in
      match result with
      | None => Ret
      | Some n =>
          let* set := NewSet (mk_info true n) in
          publishDeviceSet set (mapDevicesAlreadyExchanging polls ds)
      end).

Definition reset (polls : nat) : prog :=
  let* previous := GetSet in
  stopExchange polls (fun drained =>
    let publish := let* set := NewSet (mk_info false 0) in publishDeviceSet set Ret in
    if drained then ClearGenerations ;;* ClearRing ;;* publish
    else AbandonGenerations ;;* AbandonSet previous ;;* publish).

Definition configureProcessData (polls : nat) : prog := remapProcessImage polls (fun _ => Ret).

(** The image's part of [transitionToState]; [exchangeState] is whether the target is SAFE-OP or
    OP. Whether devices join or stay is the bus's answer. *)
Definition transitionToState (polls : nat) (exchangeState : bool) (ds : list nat) : prog :=
  let* s := GetSet in
  let* i := Info s in
  if negb (has_driver i) || Nat.eqb (devices i) 0 then Ret
  else let* accepted := Ask in
  if negb accepted then Ret
  else let finish := readMissingObjectDictionaries polls ds Ret in
  if exchangeState then
    let* anyJoining := Ask in
    let* configured := ImageConfigured in
    if negb configured || anyJoining then remapProcessImage polls (fun ok => if ok then finish else Ret)
    else finish
  else
    let* configured := ImageConfigured in
    if negb configured then finish
    else let* anyStays := Ask in
         if anyStays : bool then finish else stopExchange polls (fun _ => finish).

Definition followObservedStates (polls : nat) (ds : list nat) : prog :=
  let* s := GetSet in
  let* i := Info s in
  if negb (has_driver i) || Nat.eqb (devices i) 0 then Ret
  else let* read := Ask in
  if negb read then Ret
  else let* exchanging := Ask in
  let* configured := ImageConfigured in
  let* joined := Ask in
  if exchanging && (joined || negb configured)
  then readMissingObjectDictionaries polls ds (remapProcessImage polls (fun _ => Ret))
  else if negb exchanging && configured then stopExchange polls (fun _ => Ret) else Ret.

(** The operations that take [busOperationMutex_]. [polls] bounds each wait. *)
Inductive bus_op :=
  | OpInit | OpScan (ds : list nat) | OpReset | OpConfigure
  | OpTransition (exchangeState : bool) (ds : list nat) | OpFollow (ds : list nat).

Definition program (polls : nat) (o : bus_op) : prog :=
  match o with
  | OpInit => init polls
  | OpScan ds => scan polls ds
  | OpReset => reset polls
  | OpConfigure => configureProcessData polls
  | OpTransition e ds => transitionToState polls e ds
  | OpFollow ds => followObservedStates polls ds
  end.

(** ** The threads *)

(** The RT thread, the operation that holds [busOperationMutex_] if any, and the explicit
    [initializeDeviceParameters] calls in flight, which take no lock. *)
Record config := mk_config { shared : sys; bus : option prog; explicit_ : list prog }.

Definition boot : config := mk_config initial None [].

Definition prog_step (p : prog) (b : bool) (n : nat) (s : sys) : option (prog * sys) :=
  match p with
  | Ret => None
  | Do a k => let '(x, s') := perform a b n s in Some (k x, s')
  end.

Inductive move :=
  | MRt (c : rt_choice)
  | MStart (polls : nat) (o : bus_op)            (* an operation takes the lock *)
  | MBus (b : bool) (n : nat)                    (* its next action *)
  | MEnd                                         (* it returns: its shared_ptrs are dropped *)
  | MExplicit (polls d : nat)                    (* an explicit dictionary read publishes device d *)
  | MPublish (j : nat) (b : bool) (n : nat).     (* the next action of the j-th of them *)

Definition move_step (m : move) (c : config) : option config :=
  match m with
  | MRt r => s ← rt_step r (shared c); Some (mk_config s (bus c) (explicit_ c))
  | MStart polls o =>
      match bus c with
      | None => Some (mk_config (shared c) (Some (program polls o)) (explicit_ c))
      | Some _ => None
      end
  | MBus b n =>
      p ← bus c; '(p', s) ← prog_step p b n (shared c); Some (mk_config s (Some p') (explicit_ c))
  | MEnd =>
      match bus c with
      | Some Ret =>
          Some (mk_config (with_sets (shared c) (publishedSet (shared c)) (currentSet (shared c)) []) None
                  (explicit_ c))
      | _ => None
      end
  | MExplicit polls d =>
      Some (mk_config (shared c) (bus c) (explicit_ c ++ [publishParameters polls d Ret]))
  | MPublish j b n =>
      p ← explicit_ c !! j; '(p', s) ← prog_step p b n (shared c);
      Some (mk_config s (bus c) (<[j := p']> (explicit_ c)))
  end.

Definition step (c c' : config) : Prop := exists m, move_step m c = Some c'.

(** The moves of a client that makes every dictionary read under the lock, and calls [init] only
    when nothing is held back from a stalled cycle. *)
Definition serialised (m : move) (c : config) : Prop :=
  match m with
  | MExplicit _ _ => False
  | MStart _ OpInit => abandoned (shared c) = []
  | _ => True
  end.

Definition serialised_step (c c' : config) : Prop :=
  exists m, move_step m c = Some c' /\ serialised m c.

(** ** The invariant *)

(** Places where the RT thread holds no pointer and, with no image published, gets none. *)
Definition quiet_pc (pc : rt_pc) : bool :=
  match pc with Outside | GuardRaised | GuardBackout => true | _ => false end.

Definition quiet (s : sys) : Prop := image s = None /\ quiet_pc (rt s) = true.

Definition info (s : sys) (p : nat) : set_info := default (mk_info false 0) (infos s !! p).

Definition is_set (o : obj) : bool := match o with OSet _ => true | _ => false end.

(** A reset gave up on a stalled cycle and nothing has drained it since. *)
Definition stalled (s : sys) : bool := existsb is_set (abandoned s).

(** What keeps an object the RT thread may touch alive, beside the holder of the bus. *)
Definition owned (s : sys) (o : obj) : Prop :=
  match o with
  | OSet p => p = currentSet s \/ publishedSet s = Some p \/ OSet p ∈ abandoned s
  | o => live s o
  end.

Definition rt_image (pc : rt_pc) : option nat :=
  match pc with Composing i | Exchanging i _ => Some i | _ => None end.

(** The image was built from the published set, and that set has a driver. *)
Definition bound (s : sys) (i : nat) : Prop :=
  image_set s !! i = Some (currentSet s) /\ publishedSet s = Some (currentSet s) /\
  has_driver (info s (currentSet s)) = true.

Definition publishable (s : sys) (i : nat) : Prop :=
  i ∈ generations s /\ ring s = true /\ bound s i /\ stalled s = false.

Record Inv (s : sys) : Prop := {
  inv_depth : inCycle s = depth (rt s);
  inv_touched : forall o, o ∈ touched s -> owned s o;
  inv_image : forall i, image s = Some i -> publishable s i;
  inv_rt : forall i, rt_image (rt s) = Some i ->
    is_Some (image_set s !! i) /\ ring s = true /\ (stalled s = false -> bound s i);
  inv_rt_set : forall i p, rt s = Exchanging i p -> is_Some p /\ (stalled s = false -> p = publishedSet s);
  inv_published : forall p, publishedSet s = Some p -> p = currentSet s \/ p ∈ holder s;
  inv_in : quiet_pc (rt s) = false -> is_Some (publishedSet s);
  inv_driver : has_driver (info s (currentSet s)) = true -> is_Some (publishedSet s);
  inv_idle : has_driver (info s (currentSet s)) = false -> stalled s = false -> quiet s;
  inv_fresh : (currentSet s < next s)%nat /\ forall i, is_Some (image_set s !! i) -> (i < next s)%nat;
}.

Definition rt_moves (s s' : sys) : Prop := exists c, rt_step c s = Some s'.

Lemma rt_step_shape c s s' : rt_step c s = Some s' -> s' = with_rt s (inCycle s') (rt s').
Proof.
  unfold rt_step. destruct s as [im ic gs rg ab ps cs ho inf ims mp re nx pc]. cbn.
  destruct pc, c; intros Hs; repeat case_match; simplify_eq; reflexivity.
Qed.

(** Moving the RT thread keeps the invariant when the new place satisfies its part of it. *)
Lemma Inv_with_rt s pc d : Inv s -> d = depth pc ->
  (forall o, o ∈ touched (with_rt s d pc) -> owned s o) ->
  (forall i, rt_image pc = Some i ->
     is_Some (image_set s !! i) /\ ring s = true /\ (stalled s = false -> bound s i)) ->
  (forall i p, pc = Exchanging i p -> is_Some p /\ (stalled s = false -> p = publishedSet s)) ->
  (quiet_pc pc = false -> is_Some (publishedSet s)) ->
  (quiet s -> quiet_pc pc = true) -> Inv (with_rt s d pc).
Proof.
  intros [Hd Ht Hi Hr Hrs Hp Hin Hdr Hid Hf] -> Ht' Hr' Hrs' Hin' Hq. split; try done.
  intros H1 H2. specialize (Hid H1 H2). split; [apply Hid|]. by apply Hq.
Qed.

(** The common case: the new place holds no image. *)
Lemma Inv_with_rt_plain s pc d : Inv s -> d = depth pc -> rt_image pc = None ->
  (forall o, o ∈ touched (with_rt s d pc) -> owned s o) ->
  (quiet_pc pc = false -> is_Some (publishedSet s)) -> (quiet s -> quiet_pc pc = true) -> Inv (with_rt s d pc).
Proof.
  intros HI Hd Hn Ht Hin Hq. apply Inv_with_rt; try done.
  - intros i Hi. by rewrite Hn in Hi.
  - intros i p ->. done.
Qed.

Ltac no_objects := intros ? Hno; by apply elem_of_nil in Hno.
Ltac not_quiet := by intros [? ?]; simplify_eq/=.

Lemma image_bound s i : Inv s -> image s = Some i -> bound s i.
Proof. intros HI Hi. by destruct (inv_image _ HI i Hi) as (_ & _ & ? & _). Qed.

Lemma elem_of_cells s i d : image_set s !! i = Some d -> cells_of s i = [OSet d].
Proof. intros Hs. unfold cells_of. by rewrite Hs. Qed.

(** The steps to a place without an image, the objects held there apart. *)
Ltac plain := apply Inv_with_rt_plain; cbn [depth quiet_pc rt_image]; try done; try lia; try no_objects;
  try (intros [_ Hquiet]; by simplify_eq/=).

Lemma rt_step_Inv c s s' : Inv s -> rt_step c s = Some s' -> Inv s'.
Proof.
  intros HI. pose proof (inv_depth _ HI) as Hd. pose proof (inv_touched _ HI) as Ht. pose proof (inv_in _ HI) as Hin.
  pose proof (inv_rt _ HI) as Hr. unfold rt_step, touched in *. assert (Hq : quiet s -> quiet_pc (rt s) = true) by (intros []; done).
  destruct (rt s) as [| | | |p|p m| | |i|i p] eqn:Ert; cbn [depth quiet_pc rt_image] in *.
  - intros [= <-]. plain.
  - intros [= <-]. destruct (image s) as [i|] eqn:Ei; plain.
    + intros _. destruct (image_bound _ _ HI Ei) as (_ & -> & _). done.
    + intros [Hn _]. congruence.
  - intros [= <-]. plain.
  - destruct c; try (intros [= <-]; plain; auto; fail).
    destruct (publishedSet s) as [p|] eqn:Ep; intros [= <-]; [|done]. plain; auto; try (rewrite Ep; done).
    intros o ->%list_elem_of_singleton. cbn. auto.
  - destruct c; try (intros [= <-]; plain; auto; fail). destruct (maps s !! d) as [m|] eqn:Em; [|done].
    intros [= <-]. plain; auto. intros o [->|[->|[]%elem_of_nil]%elem_of_cons]%elem_of_cons; [apply Ht; left|].
    cbn. eauto.
  - intros [= <-]. plain; auto. intros o Ho. apply Ht. by apply list_elem_of_singleton in Ho as ->; left.
  - intros [= <-]. destruct (image s) as [i|] eqn:Ei; [|plain; auto].
    destruct (inv_image _ HI i Ei) as (Hg & Hring & Hb & Hst). destruct Hb as (Hb1 & Hb2 & Hb3).
    apply Inv_with_rt; cbn; auto; try done.
    + intros o [->|Ho]%elem_of_cons; [cbn; auto|]. rewrite (elem_of_cells (with_rt s (inCycle s) _) i _ Hb1) in Ho.
      apply list_elem_of_singleton in Ho as ->. cbn. auto.
    + intros i' [= <-]. rewrite Hb1. split_and!; try done.
  - intros [= <-]. plain; auto.
  - intros [= <-]. destruct (Hr i eq_refl) as ([d Hd'] & Hring & Hb). destruct (Hin eq_refl) as [p Hp].
    apply Inv_with_rt; cbn; auto; try done.
    + intros o [->|[Ho|Ho]%elem_of_app]%elem_of_cons; [apply Ht; left|apply Ht; by right|].
      rewrite Hp in Ho. apply list_elem_of_singleton in Ho as ->. cbn. auto.
    + intros i' p' [= <- <-]. rewrite Hp. done.
  - intros [= <-]. plain; auto.
Qed.
Lemma rt_moves_shape s s' : Inv s -> rtc rt_moves s s' ->
  Inv s' /\ s' = with_rt s (inCycle s') (rt s') /\ (quiet s -> quiet s').
Proof.
  intros HI Hs. apply (rtc_invariant rt_moves (fun s' =>
    Inv s' /\ s' = with_rt s (inCycle s') (rt s') /\ (quiet s -> quiet s')) s s'); [|done|by destruct s].
  clear s' Hs. intros a b (HIa & Ha & Hqa) [c Hc]. split; [by eapply rt_step_Inv|].
  pose proof (rt_step_shape _ _ _ Hc) as Hb. split; [rewrite Hb, Ha; done|]. intros Hq. destruct (Hqa Hq) as [Hn Hpc].
  rewrite Hb. split; [done|]. cbn. unfold rt_step in Hc. rewrite Hn in Hc.
  destruct (rt a) eqn:Ea; try done; injection Hc as <-; done.
Qed.

(** *** Each action keeps the invariant under its own condition *)

Lemma owned_mono s s' o : owned s o ->
  (currentSet s' = currentSet s) -> publishedSet s' = publishedSet s ->
  (forall x, x ∈ abandoned s -> x ∈ abandoned s') ->
  (forall i, i ∈ generations s -> i ∈ generations s' \/ OImage i ∈ abandoned s') ->
  maps s' = maps s -> retiredMaps s' = retiredMaps s -> owned s' o.
Proof.
  intros Ho Hc Hp Hab Hg Hm Hre. destruct o; cbn in *; [|rewrite Hc, Hp; naive_solver|by rewrite Hm, Hre].
  destruct Ho as [Ho|Ho]; eauto.
Qed.

Lemma Inv_image_none s : Inv s -> Inv (with_image s None).
Proof. intros [Hd Ht Hi Hr Hrs Hp Hin Hdr Hid Hf]. split; try done. intros H1 H2. split; [done|]. by apply Hid. Qed.

Lemma Inv_image s o : Inv s -> (forall i, o = Some i -> publishable s i) -> Inv (with_image s o).
Proof.
  intros [Hd Ht Hi Hr Hrs Hp Hin Hdr Hid Hf] Ho. split; try done.
  intros H1 H2. specialize (Hid H1 H2). destruct o as [i|]; [|split; [done|apply Hid]].
  destruct (Ho i eq_refl) as (_ & _ & (_ & _ & Hb) & _). cbn in H1. unfold info in *. cbn in *. congruence.
Qed.

Lemma Inv_hold s p : Inv s -> Inv (with_sets s (publishedSet s) (currentSet s) (p :: holder s)).
Proof.
  intros [Hd Ht Hi Hr Hrs Hp Hin Hdr Hid Hf].
  split; try done; [intros o Ho; eapply owned_mono; [by apply Ht|auto..]|]. intros q Hq. cbn in *.
  destruct (Hp q Hq); [auto|]. right. by right.
Qed.

(** In a quiet state the recorder, the generations and what was held back may all go. *)
Lemma Inv_memory_quiet s gs r ab : Inv s -> quiet s -> Inv (with_memory s gs r ab).
Proof.
  intros [Hd Ht Hi Hr Hrs Hp Hin Hdr Hid Hf] [Hn Hq].
  split; try done; cbn in *; try (rewrite Hn; done); unfold touched in *; cbn; destruct (rt s); try done; no_objects.
Qed.

(** With no image published, objects may be moved to the held-back list. *)
Lemma Inv_abandon s gs ab : Inv s -> image s = None ->
  (forall i, i ∈ generations s -> i ∈ gs \/ OImage i ∈ abandoned s ++ ab) ->
  Inv (with_memory s gs (ring s) (abandoned s ++ ab)).
Proof.
  intros [Hd Ht Hi Hr Hrs Hp Hin Hdr Hid Hf] Hn Hg.
  assert (Hst : stalled (with_memory s gs (ring s) (abandoned s ++ ab)) = false -> stalled s = false).
  { unfold stalled. cbn. rewrite existsb_app. by intros [? _]%orb_false_iff. }
  split; try done; cbn in *.
  - intros o Ho. eapply owned_mono; [by apply Ht|try done..]. intros x Hx. apply elem_of_app. by left.
  - rewrite Hn. done.
  - intros i Hi'. destruct (Hr i Hi') as (H1 & H2 & H3). split_and!; try done. intros H. by apply H3, Hst.
  - intros i p Hi'. destruct (Hrs i p Hi') as (H1 & H2). split; try done. intros H. by apply H2, Hst.
  - intros H1 H. apply Hid; [done|by apply Hst].
Qed.

Lemma Inv_add_set s i : Inv s -> Inv (add_set s i).
Proof.
  intros [Hd Ht Hi Hr Hrs Hp Hin Hdr Hid [Hf Hf']].
  assert (Hinfo : info (add_set s i) (currentSet s) = info s (currentSet s)).
  { unfold info. cbn. rewrite lookup_insert_ne by lia. done. }
  split; try done; cbn in *; unfold publishable, bound in *; cbn; rewrite ?Hinfo; try done.
  - intros o Ho. eapply owned_mono; [by apply Ht|auto..].
  - intros p Hp'. destruct (Hp p Hp'); [auto|]. right. by right.
  - split; [lia|]. intros j Hj. specialize (Hf' j Hj). lia.
Qed.

Lemma Inv_add_image s d : Inv s -> Inv (add_image s d).
Proof.
  intros [Hd Ht Hi Hr Hrs Hp Hin Hdr Hid [Hf Hf']].
  assert (Hlook : forall j, is_Some (image_set s !! j) -> <[next s := d]> (image_set s) !! j = image_set s !! j).
  { intros j Hj%Hf'. rewrite lookup_insert_ne by lia. done. }
  assert (Hgen : forall j, j ∈ generations s -> j ∈ generations s ++ [next s]) by (intros; apply elem_of_app; auto).
  assert (Hb : forall j, bound s j -> bound (add_image s d) j).
  { intros j (H1 & H2 & H3). split; [|done]. cbn. rewrite Hlook; [done|]. by rewrite H1. }
  split; try done; cbn in *.
  - intros o Ho. assert (o ∈ touched s) as Ho'.
    { unfold touched in *. cbn in *. destruct (rt s); try done; cbn in Hr; destruct (Hr i eq_refl) as (Hj & _);
      unfold cells_of in *; cbn in Ho; by rewrite Hlook in Ho. }
    eapply owned_mono; [by apply Ht|try done..]. cbn. auto.
  - intros j Hj. destruct (Hi j Hj) as (H1 & H2 & H3 & H4). split_and!; try done; [by apply Hgen|by apply Hb].
  - intros j Hj. destruct (Hr j Hj) as (H1 & H2 & H3). split_and!; [by rewrite Hlook|done|auto].
  - split; [lia|]. intros j. destruct (decide (j = next s)) as [->|Hne]; [lia|].
    rewrite lookup_insert_ne by done. intros Hj%Hf'. lia.
Qed.

Lemma Inv_swap_map s d retire : Inv s -> (retire = false -> quiet s) -> Inv (swap_map s d retire).
Proof.
  intros [Hd Ht Hi Hr Hrs Hp Hin Hdr Hid [Hf Hf']] Hq. split; try done; cbn in *.
  - intros o Ho. change (touched (swap_map s d retire)) with (touched s) in Ho. specialize (Ht o Ho).
    destruct o as [|p|m]; cbn in *; try done.
    destruct retire.
    + destruct Ht as [[d' Hm]|Hm].
      * destruct (decide (d = d')) as [->|Hne]; [|left; exists d'; by rewrite lookup_insert_ne].
        rewrite Hm. right. left.
      * right. case_match; [by right|done].
    + destruct (Hq eq_refl) as [_ Hpc]. unfold touched in Ho. by destruct (rt s); try done; apply elem_of_nil in Ho.
  - split; [lia|]. intros j Hj%Hf'. lia.
Qed.

(** The published pointer may move to a held set when it is quiet or stalled. *)
Lemma Inv_store_published s p : Inv s -> p ∈ holder s -> publishedSet s = None \/ publishedSet s = Some (currentSet s) ->
  image s = None -> quiet s \/ stalled s = true -> Inv (with_sets s (Some p) (currentSet s) (holder s)).
Proof.
  intros [Hd Ht Hi Hr Hrs Hp Hin Hdr Hid [Hf Hf']] Hh Hset Hn Hq. split; try done; cbn in *.
  - intros o Ho. specialize (Ht o Ho). destruct o as [|q|]; cbn in *; try done.
    destruct Ht as [Ht|[Ht|Ht]]; auto. destruct Hset as [E|E]; rewrite E in Ht; [done|]. injection Ht as <-. auto.
  - rewrite Hn. done.
  - intros i Hi'. destruct (Hr i Hi') as (H1 & H2 & H3). split_and!; try done. intros H.
    destruct Hq as [[_ Hq]|Hq]; [by destruct (rt s)|]. unfold stalled in *. cbn in H. congruence.
  - intros i q Hi'. destruct (Hrs i q Hi') as (H1 & H2). split; try done. intros H.
    destruct Hq as [[_ Hq]|Hq]; [by rewrite Hi' in Hq|]. unfold stalled in *. cbn in H. congruence.
  - intros q [= <-]. auto.
Qed.

(** The owning reference follows it; the set it drops is held back or out of reach. *)
Lemma Inv_store_current s p : Inv s -> publishedSet s = Some p -> (p < next s)%nat ->
  quiet s \/ (image s = None /\ stalled s = true /\ OSet (currentSet s) ∈ abandoned s) ->
  Inv (with_sets s (publishedSet s) p (holder s)).
Proof.
  intros [Hd Ht Hi Hr Hrs Hp Hin Hdr Hid [Hf Hf']] Hpub Hlt Hq.
  assert (Hn : image s = None) by (destruct Hq as [[? _]|(? & _)]; done).
  split; try done; cbn in *.
  - intros o Ho. specialize (Ht o Ho). destruct o as [|q|]; cbn in *; try done.
    destruct Ht as [->|[Ht|Ht]]; auto. destruct Hq as [[_ Hq]|(_ & _ & Hq)]; [|auto].
    unfold touched in Ho. cbn in Ho. by destruct (rt s); try done; apply elem_of_nil in Ho.
  - rewrite Hn. done.
  - intros i Hi'. destruct (Hr i Hi') as (H1 & H2 & H3). split_and!; try done. intros H.
    destruct Hq as [[_ Hq]|(_ & Hq & _)]; [by destruct (rt s)|]. unfold stalled in *. cbn in H. congruence.
  - intros q Hq'. left. congruence.
  - intros _ H. destruct Hq as [Hq|(_ & Hq & _)]; [done|]. unfold stalled in *. cbn in H. congruence.
Qed.
(** ** What a program guarantees

    [wp p s]: started in [s], with the RT thread moving freely before each action, [p] keeps the
    invariant, takes an exclusive action only when the RT thread is out, and ends with the two
    references to the device set in agreement. *)
Definition settled (s : sys) : Prop := publishedSet s = None \/ publishedSet s = Some (currentSet s).

Fixpoint wp (p : prog) (s : sys) : Prop :=
  match p with
  | Ret => settled s
  | Do a k => forall s1, rtc rt_moves s s1 ->
      (exclusive a = true -> quiet s1) /\
      forall b n, Inv (perform a b n s1).2 /\ wp (k (perform a b n s1).1) (perform a b n s1).2
  end.

Lemma wp_rt p s s' : Inv s -> rt_moves s s' -> wp p s -> wp p s'.
Proof.
  intros HI Hs. destruct p as [|A a k]; cbn.
  - destruct Hs as [c Hc]. pose proof (rt_step_shape _ _ _ Hc) as ->. done.
  - intros Hw s1 H1. apply Hw. by eapply rtc_l.
Qed.

(** One action: the RT thread has moved to any [pc] that the invariant allows. *)
Lemma wp_do {A : Set} (a : act A) k s : Inv s ->
  (forall d pc, let s1 := with_rt s d pc in Inv s1 -> (quiet s -> quiet s1) ->
     (exclusive a = true -> quiet s1) /\
     forall b n, Inv (perform a b n s1).2 /\ wp (k (perform a b n s1).1) (perform a b n s1).2) ->
  wp (Do a k) s.
Proof.
  intros HI Hk s1 H1. destruct (rt_moves_shape _ _ HI H1) as (HI1 & Hs1 & Hq).
  specialize (Hk (inCycle s1) (rt s1)). cbn zeta in Hk. rewrite <- Hs1 in Hk. auto.
Qed.

Lemma wp_ask k s : Inv s -> (forall b d pc, let s1 := with_rt s d pc in Inv s1 -> (quiet s -> quiet s1) -> wp (k b) s1) ->
  wp (Do Ask k) s.
Proof. intros HI Hk. apply wp_do; [done|]. intros d pc s1 HI1 Hq. split; [done|]. intros b n. split; [done|]. by apply Hk. Qed.

(** A depth of zero means the RT thread is outside. *)
Lemma depth_zero s : Inv s -> (inCycle s =? 0) = true -> quiet_pc (rt s) = true.
Proof. intros HI Hz%Z.eqb_eq. rewrite (inv_depth _ HI) in Hz. by destruct (rt s). Qed.

Lemma wp_drain polls k s : Inv s -> image s = None ->
  (forall s', Inv s' -> s' = with_rt s (inCycle s') (rt s') -> wp k s') -> wp (drain polls k) s.
Proof.
  revert s. induction polls as [|polls IH]; intros s HI Hn Hk; cbn [drain]; [apply Hk; [done|by destruct s]|].
  apply wp_do; [done|]. intros d pc s1 HI1 _. split; [done|]. intros b n. cbn [perform fst snd]. split; [done|].
  destruct (_ =? 0); [by apply Hk|]. apply wp_ask; [done|]. intros e d' pc' s2 HI2 _.
  destruct e; [by apply Hk|]. apply IH; try done.
Qed.

Lemma wp_pauseCycle polls k s : Inv s ->
  (forall s' drained, Inv s' -> s' = with_rt (with_image s None) (inCycle s') (rt s') ->
     (drained = true -> quiet s') -> wp (k (image s) drained) s') ->
  wp (pauseCycle polls k) s.
Proof.
  intros HI Hk. unfold pauseCycle. apply wp_do; [done|]. intros d pc s1 HI1 _. split; [done|]. intros b n.
  cbn [perform fst snd]. pose proof (Inv_image_none _ HI1) as HI2. split; [done|].
  apply wp_drain; [done|done|]. intros s' HI' Hs'. apply wp_do; [done|]. intros d' pc' s3 HI3 _. split; [done|].
  intros b' n'. cbn [perform fst snd]. split; [done|].
  apply Hk; [done|unfold s3; by rewrite Hs'|].
  intros Hz. split; [unfold s3; by rewrite Hs'|by apply depth_zero].
Qed.

Lemma wp_stopExchange polls k s : Inv s ->
  (forall s' ab, Inv s' -> s' = with_rt (with_image (with_memory s (generations s) (ring s) ab) None) (inCycle s') (rt s') ->
     (quiet s' /\ ab = [] -> wp (k true) s') /\ (ab = abandoned s -> wp (k false) s')) ->
  wp (stopExchange polls k) s.
Proof.
  intros HI Hk. unfold stopExchange. apply wp_pauseCycle; [done|]. intros s' drained HI' Hs' Hq. destruct drained.
  - apply wp_do; [done|]. intros d pc s1 HI1 Hq1. specialize (Hq1 (Hq eq_refl)). split; [done|]. intros b n.
    cbn [perform fst snd]. pose proof (Inv_memory_quiet _ (generations s1) (ring s1) [] HI1 Hq1) as HI2. split; [done|].
    eapply (Hk _ []); [done|unfold s1; rewrite Hs'; done|]. split; [apply Hq1|done].
  - apply (Hk s' (abandoned s)); done.
Qed.
Lemma and_keep (P Q : Prop) : P -> (P -> Q) -> P /\ Q.
Proof. auto. Qed.

(** One action of a program, and the proof that it keeps the invariant. *)
Ltac keep tac := apply and_keep; [by tac|let H := fresh "HI" in intros H].
Ltac act := apply wp_do; [done|]; let d := fresh "d" in let pc := fresh "pc" in let s := fresh "s" in
  let HI := fresh "HI" in let Hq := fresh "Hq" in intros d pc s HI Hq;
  let finish := (let b := fresh "b" in let n := fresh "n" in intros b n; cbn [perform fst snd]) in
  split; [cbn [exclusive negb]; try done|finish].

Lemma wp_publishDeviceSet p k s : Inv s -> settled s -> p ∈ holder s -> (p < next s)%nat -> image s = None ->
  quiet s \/ (stalled s = true /\ OSet (currentSet s) ∈ abandoned s) ->
  (forall s', Inv s' -> settled s' -> wp k s') -> wp (publishDeviceSet p k) s.
Proof.
  intros HI Hset Hh Hlt Hn Hq Hk. unfold publishDeviceSet. act.
  assert (HI1 : Inv (with_sets s0 (Some p) (currentSet s0) (holder s0))).
  { apply Inv_store_published; try done. destruct Hq as [Hq|[Hq _]]; [left; auto|by right]. }
  split; [done|]. act. pose proof (Inv_store_current s1 p HI2 eq_refl Hlt) as HI3.
  assert (HI4 : Inv (with_sets s1 (publishedSet s1) p (holder s1))).
  { apply HI3. destruct Hq as [Hq|[Hq Hab]]; [|by right]. left. apply Hq1. by destruct (Hq0 Hq). }
  split; [done|]. apply Hk; [done|by right].
Qed.

Lemma wp_map_attempts n k s : Inv s -> quiet s ->
  (forall s' ok, Inv s' -> s' = with_rt s (inCycle s') (rt s') -> quiet s' -> wp (k ok) s') -> wp (map_attempts n k) s.
Proof.
  revert s. induction n as [|n IH]; intros s HI Hq Hk; cbn [map_attempts]; [apply Hk; try done; by destruct s|].
  act; [auto|]. split; [done|]. destruct b; [apply Hk; auto|]. apply IH; auto.
Qed.

Lemma driver_published s : Inv s -> settled s -> has_driver (info s (currentSet s)) = true ->
  publishedSet s = Some (currentSet s).
Proof. intros HI [Hn|Hs] Hd; [|done]. destruct (inv_driver _ HI Hd) as [p Hp]. congruence. Qed.

Lemma wp_remap polls k s : Inv s -> settled s ->
  (forall s' ok, Inv s' -> settled s' -> wp (k ok) s') -> wp (remapProcessImage polls k) s.
Proof.
  intros HI Hset Hk. unfold remapProcessImage. act. keep ltac:(apply Inv_hold). act. split; [done|].
  destruct (has_driver (default _ _)) eqn:Ed; cbn [negb]; [|by apply Hk].
  destruct (Nat.eqb _ 0); [by apply Hk|]. apply wp_stopExchange; [done|]. intros s' ab HI' Hs'. split.
  2: { intros _. cbn [negb]. apply Hk; [done|by rewrite Hs']. }
  intros [Hquiet ->]. cbn [negb]. apply wp_map_attempts; try done. intros t ok HIt Ht Hqt.
  assert (Hset2 : settled t) by (rewrite Ht, Hs'; done).
  assert (Hc : currentSet t = currentSet s0) by (rewrite Ht, Hs'; done).
  assert (Hdr : has_driver (info t (currentSet t)) = true) by (rewrite Hc, Ht, Hs'; done).
  assert (Hab : stalled t = false) by (rewrite Ht, Hs'; done).
  pose proof (driver_published t HIt Hset2 Hdr) as Hpub.
  destruct ok; cbn [negb]; [|by apply Hk]. act; [auto|]. keep ltac:(apply Inv_memory_quiet; auto). act.
  keep ltac:(apply Inv_add_image). act.
  assert (Hnew : publishable s4 (next s3)).
  { split_and!; [cbn; apply elem_of_app; right; by left|done| |done]. split_and!; [|done..].
    cbn. rewrite lookup_insert_eq. by rewrite Hc. }
  keep ltac:(apply Inv_image; [|intros i [= <-]]). by apply Hk.
Qed.

Lemma wp_publishParameters polls d k s : Inv s -> settled s ->
  (forall s', Inv s' -> settled s' -> wp k s') -> wp (publishParameters polls d k) s.
Proof.
  intros HI Hset Hk. unfold publishParameters. apply wp_pauseCycle; [done|]. intros s' drained HI' Hs' Hq.
  act; [intros ?%negb_true_iff%negb_false_iff; auto|].
  keep ltac:(apply Inv_swap_map; [|intros ?%negb_false_iff; auto]). act.
  assert (Hprev : forall i, image s = Some i -> publishable s1 i).
  { intros i Hi. destruct (inv_image _ HI i Hi) as (H1 & H2 & H3 & H4). unfold s1, s0. rewrite Hs'. done. }
  keep ltac:(apply Inv_image). apply Hk; [done|]. unfold s1, s0. rewrite Hs'. done.
Qed.

Lemma wp_readMissing polls ds k s : Inv s -> settled s ->
  (forall s', Inv s' -> settled s' -> wp k s') -> wp (readMissingObjectDictionaries polls ds k) s.
Proof.
  revert s. induction ds as [|d ds IH]; intros s HI Hset Hk; cbn [readMissingObjectDictionaries]; [by apply Hk|].
  apply wp_ask; [done|]. intros b d' pc s1 HI1 _. destruct b; [|by apply IH]. apply wp_publishParameters; auto.
Qed.

(** The continuation that returns, and the one that only needs the invariant. *)
Create HintDb drain.
#[local] Hint Resolve wp_readMissing wp_remap : drain.

Lemma wp_ret s : settled s -> wp Ret s.
Proof. done. Qed.
#[local] Hint Resolve wp_ret : drain.

Lemma wp_mapDevicesAlreadyExchanging polls ds s : Inv s -> settled s -> wp (mapDevicesAlreadyExchanging polls ds) s.
Proof.
  intros HI Hset. apply wp_ask; [done|]. intros b d pc s1 HI1 _. destruct b; [|done]. auto 6 with drain.
Qed.

Lemma wp_scan polls ds s : Inv s -> settled s -> wp (scan polls ds) s.
Proof.
  intros HI Hset. unfold scan. act. keep ltac:(apply Inv_hold). act. split; [done|].
  destruct (has_driver _); cbn [negb]; [|done]. apply wp_stopExchange; [done|]. intros s' ab HI' Hs'.
  split; [|by intros _; rewrite Hs']. intros [Hquiet _]. cbn [negb].
  act; [auto|]. keep ltac:(apply Inv_memory_quiet; auto). act; [auto|]. keep ltac:(apply Inv_memory_quiet; auto).
  act; [auto|]. split; [done|]. assert (Hset' : settled s4) by (unfold s4, s3, s2; rewrite Hs'; done).
  destruct b3; [|done]. act. keep ltac:(apply Inv_add_set).
  apply wp_publishDeviceSet; try done; [left|cbn; lia|by apply Hq4, Hq3, Hq2, Hq1|left|].
  - by apply Hq4, Hq3, Hq2, Hq1.
  - intros. by apply wp_mapDevicesAlreadyExchanging.
Qed.

Lemma wp_reset polls s : Inv s -> settled s -> wp (reset polls) s.
Proof.
  intros HI Hset. unfold reset. act. keep ltac:(apply Inv_hold).
  apply wp_stopExchange; [done|]. intros s' ab HI' Hs'. split.
  - intros [Hquiet _]. act; [auto|]. keep ltac:(apply Inv_memory_quiet; auto). act; [auto|].
    keep ltac:(apply Inv_memory_quiet; auto). act. keep ltac:(apply Inv_add_set).
    apply wp_publishDeviceSet; try done; [unfold s3, s2, s1; rewrite Hs'; done|left|cbn; lia| |left].
    + by apply Hq2, Hq1, Hq0.
    + by apply Hq2, Hq1, Hq0.
  - intros _. act. keep ltac:(apply Inv_abandon; [done|unfold s1; rewrite Hs'; done|]; intros i Hi; right;
      apply elem_of_app; right; by apply list_elem_of_fmap_2). act.
    keep ltac:(apply Inv_abandon; [done|unfold s2, s1; rewrite Hs'; done|auto]). act. keep ltac:(apply Inv_add_set).
    apply wp_publishDeviceSet; try done; [unfold s3, s2, s1; rewrite Hs'; done|left|cbn; lia| |right].
    + unfold s3, s2, s1. by rewrite Hs'.
    + split; [unfold stalled; cbn; rewrite existsb_app; by rewrite orb_true_r|].
      cbn. apply elem_of_app. right. unfold s2, s1. rewrite Hs'. by left.
Qed.
Lemma wp_init polls s : Inv s -> settled s -> abandoned s = [] -> wp (init polls) s.
Proof.
  intros HI Hset Hab. unfold init. act. keep ltac:(apply Inv_hold). act. split; [done|].
  destruct (has_driver _) eqn:Ed; [done|]. apply wp_ask; [done|]. intros ok d' pc' t HIt _.
  destruct ok; cbn [negb]; [|done]. act. keep ltac:(apply Inv_add_set).
  apply wp_stopExchange; [done|]. intros s' ab HI' Hs'.
  assert (Hc : currentSet s' = currentSet s) by (rewrite Hs'; done).
  assert (Hd : has_driver (info s' (currentSet s')) = false).
  { rewrite Hc, Hs'. unfold info. cbn. pose proof (inv_fresh _ HI) as [Hlt _]. rewrite lookup_insert_ne; [done|].
    cbn in Hlt |- *. lia. }
  assert (Hpub : quiet s' -> wp (publishDeviceSet (next s2) Ret) s').
  { intros Hquiet. apply wp_publishDeviceSet; try done; [rewrite Hs'; done|rewrite Hs'; left|rewrite Hs'; cbn; lia|apply Hquiet|by left]. }
  split; [intros [? _]; auto|]. intros ->. apply Hpub, inv_idle; try done. rewrite Hs'. unfold stalled. cbn. by rewrite Hab.
Qed.

Lemma wp_transition polls e ds s : Inv s -> settled s -> wp (transitionToState polls e ds) s.
Proof.
  intros HI Hset. unfold transitionToState. act. keep ltac:(apply Inv_hold). act. split; [done|].
  destruct (_ || _); [done|]. apply wp_ask; [done|]. intros ok d' pc' t HIt _. destruct ok; cbn [negb]; [|done].
  assert (Hfin : forall s', Inv s' -> settled s' -> wp (readMissingObjectDictionaries polls ds Ret) s')
    by (intros; by apply wp_readMissing).
  destruct e.
  - apply wp_ask; [done|]. intros j ed1 epc1 t1 HIt1 _. act. split; [done|].
    destruct (_ || _); [|by apply Hfin]. apply wp_remap; try done. intros s' [] ? ?; [by apply Hfin|done].
  - act. split; [done|]. destruct (negb _); [by apply Hfin|]. apply wp_ask; [done|]. intros st ed1 epc1 t1 HIt1 _.
    destruct st; [by apply Hfin|]. apply wp_stopExchange; [done|]. intros s' ab HI' Hs'.
    assert (settled s') by (rewrite Hs'; done). split; intros _; by apply Hfin.
Qed.

Lemma wp_follow polls ds s : Inv s -> settled s -> wp (followObservedStates polls ds) s.
Proof.
  intros HI Hset. unfold followObservedStates. act. keep ltac:(apply Inv_hold). act. split; [done|].
  destruct (_ || _); [done|]. apply wp_ask; [done|]. intros ok d' pc' t HIt _. destruct ok; cbn [negb]; [|done].
  apply wp_ask; [done|]. intros ex ed1 epc1 t1 HIt1 _. act. split; [done|]. apply wp_ask; [done|]. intros j ed2 epc2 t2 HIt2 _.
  destruct (_ && _); [apply wp_readMissing; try done; intros; by apply wp_remap|].
  destruct (_ && _); [|done]. apply wp_stopExchange; [done|]. intros s' ab HI' Hs'. split; intros _; by rewrite Hs'.
Qed.

Lemma wp_program polls o s : Inv s -> settled s -> (o = OpInit -> abandoned s = []) -> wp (program polls o) s.
Proof.
  intros HI Hset Ho. destruct o; cbn [program].
  - by apply wp_init; auto.
  - by apply wp_scan.
  - by apply wp_reset.
  - by apply wp_remap.
  - by apply wp_transition.
  - by apply wp_follow.
Qed.

Definition config_ok (c : config) : Prop :=
  Inv (shared c) /\ explicit_ c = [] /\
  match bus c with Some p => wp p (shared c) | None => settled (shared c) /\ holder (shared c) = [] end.

Lemma Inv_drop_holder s : Inv s -> settled s -> Inv (with_sets s (publishedSet s) (currentSet s) []).
Proof.
  intros [Hd Ht Hi Hr Hrs Hp Hin Hdr Hid Hf] Hset. split; try done.
  - intros o Ho. eapply owned_mono; [by apply Ht|auto..].
  - cbn. intros p Hp'. destruct Hset as [E|E]; rewrite E in Hp'; [done|]. injection Hp' as <-. auto.
Qed.

Lemma config_ok_step c c' : config_ok c -> serialised_step c c' -> config_ok c'.
Proof.
  intros (HI & He & Hb) (m & Hm & Hs). destruct c as [s b es]. cbn in *. subst es.
  destruct m as [r|polls o|b' n| |polls d|j b' n]; cbn in *.
  - destruct (rt_step r s) as [s'|] eqn:Er; [|done]. injection Hm as <-. split; [by eapply rt_step_Inv|]. split; [done|].
    cbn. destruct b as [p|]; [eapply wp_rt; eauto; by exists r|]. by rewrite (rt_step_shape _ _ _ Er).
  - destruct b; [done|]. injection Hm as <-. split; [done|]. split; [done|]. apply wp_program; [done|apply Hb|].
    by intros ->.
  - destruct b as [p|]; [|done]. cbn in Hm. destruct p as [|A a k]; [done|]. cbn in Hm.
    destruct (Hb s (rtc_refl _ _)) as [_ Hp]. specialize (Hp b' n). destruct (perform a b' n s) as [x s'].
    injection Hm as <-. split; [apply Hp|]. split; [done|]. apply Hp.
  - destruct b as [[|]|]; try done. injection Hm as <-. split; [by apply Inv_drop_holder|]. done.
  - done.
  - done.
Qed.

Lemma boot_ok : config_ok boot.
Proof.
  split; [|split; [done|split; [by left|done]]]. split; try done; cbn.
  - no_objects.
  - split; [lia|]. intros i. rewrite lookup_empty. by intros [].
Qed.

Lemma owned_live s o : Inv s -> owned s o -> live s o.
Proof.
  intros HI Ho. destruct o as [|p|]; try done. cbn in *. destruct Ho as [Ho|[Ho|Ho]]; auto.
  destruct (inv_published _ HI p Ho); auto.
Qed.

(** ** Concrete schedules *)

Definition run (ms : list move) (c : config) : option config := foldl (fun o m => c ← o; move_step m c) (Some c) ms.

Lemma run_none ms : foldl (fun o m => c ← o; move_step m c) (@None config) ms = None.
Proof. induction ms; auto. Qed.

Lemma run_rtc (R : relation config) ms c c' :
  (forall m a b, m ∈ ms -> move_step m a = Some b -> R a b) -> run ms c = Some c' -> rtc R c c'.
Proof.
  unfold run. revert c. induction ms as [|m ms IH]; intros c HR; cbn; [by intros [= ->]; apply rtc_refl|].
  destruct (move_step m c) as [c1|] eqn:Em; [|by rewrite run_none]. intros Hr.
  eapply rtc_l; [apply (HR m); [left|done]|]. apply IH; [|done]. intros m' a b Hin. apply HR. by right.
Qed.

Lemma run_step ms c c' : run ms c = Some c' -> rtc step c c'.
Proof. apply run_rtc. intros m a b _ Hm. by exists m. Qed.

(** Moves the serialised relation allows in any state. *)
Definition plain_move (m : move) : bool :=
  match m with MExplicit _ _ | MStart _ OpInit => false | _ => true end.

Lemma run_serialised ms c c' : forallb plain_move ms = true -> run ms c = Some c' -> rtc serialised_step c c'.
Proof.
  intros Hp. apply run_rtc. intros m a b Hin Hm. exists m. split; [done|].
  rewrite forallb_forall in Hp. specialize (Hp m (proj1 (list_elem_of_In _ _) Hin)). by destruct m as [|? []| | | |].
Qed.

Definition acts (n : nat) : list move := replicate n (MBus true 1).

(** Whether a schedule runs to its end, and where to. *)
Definition runs (ms : list move) (c : config) : bool := match run ms c with Some _ => true | None => false end.
Definition after (ms : list move) (c : config) : config := default boot (run ms c).

Lemma run_after ms c : runs ms c = true -> run ms c = Some (after ms c).
Proof. unfold runs, after. by destruct (run ms c). Qed.

Lemma after_serialised ms c : forallb plain_move ms && runs ms c = true -> rtc serialised_step c (after ms c).
Proof. intros [Hp Hr]%andb_true_iff. eapply run_serialised; [done|by apply run_after]. Qed.

Definition started : config := mk_config initial (Some (program 1 OpInit)) [].

(** [init], a scan that finds one device already exchanging, and the re-map that publishes its image. *)
Definition bring_up : list move := acts 10 ++ [MEnd; MStart 1 (OpScan [])] ++ acts 23 ++ [MEnd].

Definition up : config := after bring_up started.

Lemma up_reachable : rtc serialised_step boot up.
Proof.
  eapply rtc_l; [exists (MStart 1 OpInit); split; [reflexivity|done]|].
  apply (after_serialised bring_up started). vm_compute. reflexivity.
Defined.

Definition enter : list move := [MRt Leave; MRt Leave; MRt Exchange; MRt Leave].

Definition exchanging : config := after (enter ++ [MRt Leave]) up.


(** The lock matters: an explicit dictionary read takes none, so a scan may run between its pause
    and its resume. The scan frees the image the read has put aside, the read publishes it again,
    and the next cycle composes its outputs from freed memory. *)
Definition dangling_schedule : list move :=
  [MExplicit 1 0] ++ replicate 3 (MPublish 0 true 0) ++
  [MStart 1 (OpScan [])] ++ acts 12 ++ [MBus false 0; MEnd] ++ replicate 2 (MPublish 0 true 0) ++ enter.

Lemma explicit_read_dangles : exists c, rtc step boot c /\
  OImage 3 ∈ touched (shared c) /\ ~ live (shared c) (OImage 3).
Proof.
  exists (after ([MStart 1 OpInit] ++ bring_up ++ dangling_schedule) boot). split; [|split].
  - eapply run_step, run_after. vm_compute. reflexivity.
  - vm_compute. left.
  - intros [H|H]; vm_compute in H; inversion H.
Qed.

(** A reset that gives up on a stalled cycle publishes an empty set while the cycle is still
    composing; the cycle then loads that set and calls through its null driver. *)
Lemma reset_strands_exchange : exists c, rtc serialised_step boot c /\
  exists i d, rt (shared c) = Exchanging i (Some d) /\ has_driver (info (shared c) d) = false.
Proof.
  exists (after (enter ++ [MStart 1 OpReset] ++ acts 10 ++ [MRt Leave]) up). split.
  - etrans; [apply up_reachable|]. apply after_serialised. vm_compute. reflexivity.
  - exists 3%nat, 4%nat. split; vm_compute; reflexivity.
Qed.

(** A scan refused because the cycle did not drain returns with the image unpublished: the exchange
    stays stopped until something maps the bus again. *)
Definition refused_scan : list move := MStart 1 (OpScan []) :: acts 6 ++ [MEnd].

Lemma refused_scan_stops_exchange : exists c, rtc serialised_step boot c /\
  image (shared c) = Some 3%nat /\ runs refused_scan c = true /\
  let c' := after refused_scan c in
  bus c' = None /\ generations (shared c') = generations (shared c) /\ image (shared c') = None.
Proof.
  exists (after (take 2 enter) up). split; [|vm_compute; done].
  etrans; [apply up_reachable|]. apply after_serialised. vm_compute. reflexivity.
Qed.

End Drain.
