(* ===== verification/RtCycle.v ===== *)
(** * One real-time cycle ([DeviceManager::exchangeProcessData], [libs/node/device_manager.cc])

    The body of a cycle once the image is loaded: composing the output image from the parameters'
    cells, the driver's exchange, the health counters, the recorder, and decoding the inputs back
    into the cells. [CycleDrain] is about when this body may run; here is what it computes.

    The cells of all devices form one arena, so a [DeviceParameter*] of the image is a place in it.
    The driver's exchange and its mirror of the AL states are the parameters of the section. *)

From S2P Require Import Prelude Util Driver ProcessBits PdoMapping ProcessDataRing ProcessImage DeviceParameter DeviceStore.
Import Param.

Module Cycle.

Abbreviation entry := (Image.ProcessImageEntry nat).

(** What the RT thread keeps between cycles. *)
Record rt_data := mk_rt {
  arena : list DeviceParameter;
  recorder : Ring.ring;
  lastWkc : Z;
  expectedWkc : Z;
  shortWkcCycles : Z;
  firstShortWkcNs : Z;
  lastShortWkcNs : Z;
  outScratch : bytes;
  inScratch : bytes;
}.

(** *** Outputs *)
Definition compose_entry (cells : list DeviceParameter) (outputs : bytes) (e : entry) : bytes :=
  match Image.e_parameter e with
  | None => outputs
  | Some c =>
      match cells !! c with
      | Some p => Bits.insertBits outputs (Image.e_bitOffset e) (Image.e_bitLength e) (unpackLeBits (cell p) 8)
      | None => outputs
      end
  end.

Definition compose (cells : list DeviceParameter) (es : list entry) (outputBytes : nat) : bytes :=
  foldl (compose_entry cells) (replicate outputBytes 0) es.

(** *** Inputs *)

(** [position], [exchanging] and [buf] carry over from entry to entry. *)
Record decoder := mk_decoder { position : Z; exchanging : bool; buf : bytes; decoded : list DeviceParameter }.

Definition decode_entry (inputs : bytes) (slaveState : Z -> Z) (d : decoder) (e : entry) : decoder :=
  let '(pos, exch) :=
    if negb (Image.e_slavePosition e =? position d)
    then (Image.e_slavePosition e, exchangesProcessData (slaveState (Image.e_slavePosition e)))
    else (position d, exchanging d) in
  if negb exch then mk_decoder pos exch (buf d) (decoded d)
  else match Image.e_parameter e with
       | None => mk_decoder pos exch (buf d) (decoded d)
       | Some c =>
           let b := Bits.extractBits_into inputs (Image.e_bitOffset e) (Image.e_bitLength e) (buf d) in
           mk_decoder pos exch b (alter (fun p => storeBits p (packLeBits b)) c (decoded d))
       end.

Definition decodeInputsIntoCells (es : list entry) (inputs : bytes) (slaveState : Z -> Z)
    (cells : list DeviceParameter) : list DeviceParameter :=
  decoded (foldl (decode_entry inputs slaveState) (mk_decoder 0 false (replicate 8 0) cells) es).

(** *** Health *)
Definition note_wkc (wkc timestampNs : Z) (s : rt_data) : rt_data :=
  if wkc <? expectedWkc s then
    mk_rt (arena s) (recorder s) wkc (expectedWkc s) (u64 (shortWkcCycles s + 1))
      (if shortWkcCycles s =? 0 then timestampNs else firstShortWkcNs s) timestampNs (outScratch s) (inScratch s)
  else mk_rt (arena s) (recorder s) wkc (expectedWkc s) (shortWkcCycles s) (firstShortWkcNs s) (lastShortWkcNs s)
         (outScratch s) (inScratch s).

Section Exchange.
(** One frame: the outputs sent and the buffer the inputs are received into give the working counter
    and the buffer's new contents. *)
Context {B : Type} `{FieldbusDriver B} (exchange : bytes -> bytes -> B -> B * (Z * bytes)).

Definition exchangeProcessData (image : option (Image.ProcessImage nat)) (timestampNs : Z) (w : B * rt_data)
    : B * rt_data :=
  let '(b, s) := w in
  match image with
  | None => (b, s)
  | Some img =>
      let outputBytes := Z.to_nat (Image.i_outputBytes img) in
      let inputBytes := Z.to_nat (Image.i_inputBytes img) in
      let outputs := compose (arena s) (Image.i_outputs img) outputBytes in
      let '(b', (wkc, inputs)) := exchange outputs (take inputBytes (inScratch s)) b in
      let s1 := note_wkc wkc timestampNs s in
      (b', mk_rt
             (decodeInputsIntoCells (Image.i_inputs img) inputs (fun pos => drv_slaveState pos b') (arena s1))
             (Ring.write (recorder s1) (Ring.mk_cycle timestampNs wkc inputs outputs))
             (lastWkc s1) (expectedWkc s1) (shortWkcCycles s1) (firstShortWkcNs s1) (lastShortWkcNs s1)
             (outputs ++ drop outputBytes (outScratch s1)) (inputs ++ drop inputBytes (inScratch s1)))
  end.
End Exchange.

(** ** What is sent *)

(** The field of an entry, as a set of bit positions. *)
Definition covers (e : entry) (k : Z) : bool :=
  (Image.e_bitOffset e <=? k) && (k <? Image.e_bitOffset e + Image.e_bitLength e).

Definition cells_ok (cells : list DeviceParameter) : Prop := Forall (fun p => in_u 64 (cell p)) cells.

Section Compose.
Context (cells : list DeviceParameter) (total : nat).

Definition entry_ok (e : entry) : Prop :=
  0 <= Image.e_bitOffset e /\ 0 <= Image.e_bitLength e < 256 /\
  Image.e_bitOffset e + Image.e_bitLength e <= 8 * Z.of_nat total.

Lemma compose_entry_ok outputs e : entry_ok e -> Z.of_nat total <= kMaxProcessImageBytes ->
  length outputs = total -> bytes_ok outputs ->
  length (compose_entry cells outputs e) = total /\ bytes_ok (compose_entry cells outputs e) /\
  forall k, 0 <= k -> covers e k = false \/ Image.e_parameter e = None ->
    Bits.bit (compose_entry cells outputs e) k = Bits.bit outputs k.
Proof using.
  intros (Ho & Hl & Hfit) Ht Hlen Hok. unfold compose_entry, kMaxProcessImageBytes in *.
  destruct (Image.e_parameter e) as [c|]; [|done]. destruct (cells !! c) as [p|]; [|done].
  destruct (Bits.insert_bits (Image.e_bitOffset e) (Image.e_bitLength e)) with (dst := outputs) (v := unpackLeBits (cell p) 8)
    as (H1 & H2 & H3); unfold in_u; try lia; try done.
  { rewrite unpackLeBits_spec by lia. apply le_bytes_ok. }
  split; [congruence|]. split; [done|]. intros k Hk [Hc|Hc]; [|done]. rewrite H3 by done. unfold covers in Hc.
  by rewrite Hc.
Qed.

Lemma compose_ok es outputs : Forall entry_ok es -> Z.of_nat total <= kMaxProcessImageBytes ->
  length outputs = total -> bytes_ok outputs ->
  length (foldl (compose_entry cells) outputs es) = total /\
  bytes_ok (foldl (compose_entry cells) outputs es) /\
  forall k, 0 <= k -> (forall e, e ∈ es -> covers e k = false \/ Image.e_parameter e = None) ->
    Bits.bit (foldl (compose_entry cells) outputs es) k = Bits.bit outputs k.
Proof using.
  intros Hes Ht. revert outputs. induction Hes as [|e es He Hes IH]; intros outputs Hl Hok; [done|].
  cbn [foldl]. destruct (compose_entry_ok outputs e He Ht Hl Hok) as (H1 & H2 & H3).
  destruct (IH _ H1 H2) as (H4 & H5 & H6). split; [done|]. split; [done|]. intros k Hk Hc.
  rewrite H6; [|done|intros; apply Hc; by right].
  apply H3; [done|]. apply Hc. left.
Qed.

(** A field reads the same in two images that agree on its bits. *)
Lemma extract_agree off len src src' : in_u 32 off -> in_u 16 len -> bytes_ok src -> bytes_ok src' ->
  Z.of_nat (length src) < 2 ^ 29 -> length src' = length src ->
  (forall k, off <= k < off + len -> Bits.bit src' k = Bits.bit src k) ->
  Bits.extractBits src' off len = Bits.extractBits src off len.
Proof using.
  intros Ho Hl Hok Hok' Hs Es Hb.
  destruct (Bits.extract_bits off len Ho Hl src Hok Hs) as (H1 & H2 & H3).
  destruct (Bits.extract_bits off len Ho Hl src' Hok' ltac:(by rewrite Es)) as (H4 & H5 & H6).
  apply Bits.bits_ext; [done..|congruence|]. intros k Hk. rewrite H3, H6 by done. unfold in_u in *.
  destruct (Z.ltb_spec k len); cbn [andb]; [|done]. apply Hb. lia.
Qed.

Lemma compose_field es i e c p : Image.fields_ok (Z.of_nat total) es -> cells_ok cells ->
  es !! i = Some e -> Image.e_parameter e = Some c -> cells !! c = Some p ->
  Bits.extractBits (compose cells es total) (Image.e_bitOffset e) (Image.e_bitLength e) =
    le_bytes (Z.to_nat ((Image.e_bitLength e + 7) / 8)) (uwrap (Image.e_bitLength e) (cell p)).
Proof using.
  intros Hf Hc Hi Hp Hcell. pose proof Hf as (Ht & Hin & _). unfold compose.
  rewrite <- (take_drop_middle _ _ _ Hi), foldl_app. cbn [foldl].
  assert (Hpre : Forall entry_ok (take i es)) by (apply Forall_take, Hin).
  assert (Hpost : Forall entry_ok (drop (S i) es)) by (apply Forall_drop, Hin).
  pose proof (Forall_lookup_1 _ _ _ _ Hin Hi) as He. cbn beta in He.
  destruct (compose_ok (take i es) (replicate total 0) Hpre Ht ltac:(apply length_replicate) (Bits.zeros_ok _))
    as (L1 & O1 & _). set (o1 := foldl _ (replicate total 0) _) in *.
  destruct (compose_entry_ok o1 e He Ht L1 O1) as (L2 & O2 & _). set (o2 := compose_entry cells o1 e) in *.
  destruct (compose_ok (drop (S i) es) o2 Hpost Ht L2 O2) as (L3 & O3 & B3).
  unfold kMaxProcessImageBytes in Ht. rewrite (extract_agree _ _ o2); unfold in_u; try done; try lia.
  2: { intros k Hk. apply B3; [lia|]. intros e' [j Hj]%list_elem_of_lookup_1. left.
       rewrite lookup_drop in Hj. pose proof (Image.fields_disjoint _ _ _ _ _ _ Hf Hi Hj ltac:(lia)) as Hd.
       unfold Image.disjoint_fields in Hd. unfold covers. apply andb_false_iff. rewrite Z.leb_gt, Z.ltb_ge. lia. }
  unfold o2, compose_entry. rewrite Hp, Hcell.
  destruct (Bits.insert_extract_lemma o1 (Image.e_bitOffset e) (Image.e_bitLength e) (unpackLeBits (cell p) 8) 0 0)
    as [-> _]; unfold in_u; try done; try lia; rewrite unpackLeBits_spec by lia; [apply le_bytes_ok|].
  rewrite le_value_bytes. change (8 * Z.of_nat 8) with 64. rewrite (uwrap_id 64); [done|].
  by apply (Forall_lookup_1 _ _ _ _ Hc Hcell).
Qed.
End Compose.

(** The frame sent carries the cell of every mapped output object, cut to the object's width, in
    the object's field, and zero everywhere else (padding, alignment gaps, objects without a
    parameter). *)
Theorem composed_outputs (cells : list DeviceParameter) (es : list entry) (total : nat) :
  Image.fields_ok (Z.of_nat total) es -> cells_ok cells ->
  let frame := compose cells es total in
  length frame = total /\
  (forall i e c p, es !! i = Some e -> Image.e_parameter e = Some c -> cells !! c = Some p ->
     Bits.extractBits frame (Image.e_bitOffset e) (Image.e_bitLength e) =
       le_bytes (Z.to_nat ((Image.e_bitLength e + 7) / 8)) (uwrap (Image.e_bitLength e) (cell p))) /\
  (forall k, 0 <= k -> (forall e, e ∈ es -> covers e k = true -> Image.e_parameter e = None) -> Bits.bit frame k = false).
Proof.
  intros Hf Hc frame. pose proof Hf as (Ht & Hin & _).
  destruct (compose_ok cells total es (replicate total 0) Hin Ht ltac:(apply length_replicate) (Bits.zeros_ok _))
    as (L & _ & Hb).
  split; [done|]. split; [intros i e c p; by apply (compose_field cells total)|].
  intros k Hk Hno. unfold frame, compose. rewrite Hb; [apply Bits.bit_replicate_0|done|].
  intros e He. destruct (covers e k) eqn:Ek; auto.
Qed.
(** ** What is received *)

(** The value of an entry's field in the received image, as the cell stores it. *)
Definition field (inputs : bytes) (e : entry) : Z :=
  packLeBits (Bits.extractBits_into inputs (Image.e_bitOffset e) (Image.e_bitLength e) (replicate 8 0)).

(** Decoding one entry without the state carried between entries. *)
Definition deliver (inputs : bytes) (slaveState : Z -> Z) (cells : list DeviceParameter) (e : entry)
    : list DeviceParameter :=
  match Image.e_parameter e with
  | Some c =>
      if exchangesProcessData (slaveState (Image.e_slavePosition e))
      then alter (fun p => storeBits p (field inputs e)) c cells else cells
  | None => cells
  end.

Definition decoder_ok (slaveState : Z -> Z) (d : decoder) : Prop :=
  length (buf d) = 8%nat /\
  (position d = 0 \/ exchanging d = exchangesProcessData (slaveState (position d))).

Lemma field_buf inputs (e : entry) b : length b = 8%nat ->
  packLeBits (Bits.extractBits_into inputs (Image.e_bitOffset e) (Image.e_bitLength e) b) = field inputs e.
Proof. intros Hb. unfold field, Bits.extractBits_into. by rewrite Hb. Qed.

Lemma length_extract_bytes_loop src o n i out : length (Bits.extract_bytes_loop src o n i out) = length out.
Proof.
  revert i out. induction n as [|n IH]; intros i out; cbn; [done|].
  repeat case_match; rewrite ?IH, ?length_insert; done.
Qed.

Lemma length_extract_bits_loop src o vb n i out : length (Bits.extract_bits_loop src o vb n i out) = length out.
Proof.
  revert i out. induction n as [|n IH]; intros i out; cbn; [done|].
  repeat case_match; rewrite ?IH, ?length_insert; done.
Qed.

Lemma length_extract_into src o l out : length (Bits.extractBits_into src o l out) = length out.
Proof.
  unfold Bits.extractBits_into. destruct (_ && _); rewrite ?length_extract_bytes_loop, ?length_extract_bits_loop;
    apply length_replicate.
Qed.

Lemma decode_entry_step inputs slaveState d e : decoder_ok slaveState d -> Image.e_slavePosition e <> 0 ->
  decoder_ok slaveState (decode_entry inputs slaveState d e) /\
  decoded (decode_entry inputs slaveState d e) = deliver inputs slaveState (decoded d) e.
Proof.
  intros [Hb Hd] Hpos. unfold decode_entry, deliver.
  destruct (Z.eqb_spec (Image.e_slavePosition e) (position d)) as [E|E]; cbn [negb].
  - destruct Hd as [Hd|Hd]; [congruence|]. rewrite Hd, E.
    destruct (exchangesProcessData _) eqn:Ex; cbn [negb]; destruct (Image.e_parameter e) as [c|];
      split; try done; try (split; cbn; [by rewrite ?length_extract_into|by right]).
    cbn [decoded]. by rewrite field_buf.
  - destruct (exchangesProcessData (slaveState (Image.e_slavePosition e))) eqn:Ex; cbn [negb]; destruct (Image.e_parameter e) as [c|];
      split; try done; try (split; cbn; [by rewrite ?length_extract_into|by right]).
    cbn [decoded]. by rewrite field_buf.
Qed.

(** Caching a device's state over its consecutive entries changes nothing. *)
Lemma decode_is_deliver es inputs slaveState cells : Forall (fun e => Image.e_slavePosition e <> 0) es ->
  decodeInputsIntoCells es inputs slaveState cells = foldl (deliver inputs slaveState) cells es.
Proof.
  intros Hes. unfold decodeInputsIntoCells.
  assert (Hok : decoder_ok slaveState (mk_decoder 0 false (replicate 8 0) cells)) by (split; [done|by left]).
  set (d := mk_decoder 0 false (replicate 8 0) cells) in *. change cells with (decoded d) at 1. clearbody d.
  revert d Hok. induction Hes as [|e es He Hes IH]; intros d Hok; [done|]. cbn [foldl].
  destruct (decode_entry_step inputs slaveState d e Hok He) as [Hok' Hd]. rewrite IH by done. by rewrite Hd.
Qed.

Lemma deliver_other inputs slaveState es cells c : c ∉ omap Image.e_parameter es ->
  foldl (deliver inputs slaveState) cells es !! c = cells !! c.
Proof.
  revert cells. induction es as [|e es IH]; intros cells Hc; [done|]. cbn [foldl omap list_omap] in *.
  unfold deliver at 2. destruct (Image.e_parameter e) as [c'|]; [|by apply IH].
  apply not_elem_of_cons in Hc as [Hne Hc]. rewrite IH by done.
  destruct (exchangesProcessData _); [|done]. by rewrite list_lookup_alter_ne.
Qed.

Lemma deliver_lookup inputs slaveState es cells i e c p :
  NoDup (omap Image.e_parameter es) -> es !! i = Some e -> Image.e_parameter e = Some c -> cells !! c = Some p ->
  foldl (deliver inputs slaveState) cells es !! c =
    Some (if exchangesProcessData (slaveState (Image.e_slavePosition e)) then storeBits p (field inputs e) else p).
Proof.
  revert cells i. induction es as [|e0 es IH]; intros cells i Hnd Hi He Hp; [done|]. cbn [foldl omap list_omap] in *.
  destruct i as [|i].
  - injection Hi as ->. rewrite He in Hnd. apply NoDup_cons in Hnd as [Hni _]. rewrite deliver_other by done.
    unfold deliver. rewrite He. destruct (exchangesProcessData _); [|done]. by rewrite list_lookup_alter_eq, Hp.
  - cbn in Hi. assert (Hin : c ∈ omap Image.e_parameter es).
    { apply list_elem_of_omap. exists e. split; [by eapply list_elem_of_lookup_2|done]. }
    assert (Hkeep : deliver inputs slaveState cells e0 !! c = Some p).
    { unfold deliver. destruct (Image.e_parameter e0) as [c0|]; [|done]. apply NoDup_cons in Hnd as [Hni _].
      destruct (exchangesProcessData (slaveState (Image.e_slavePosition e0))); [|exact Hp]. rewrite list_lookup_alter_ne; [done|]. intros ->. by apply Hni. }
    eapply IH; try done. destruct (Image.e_parameter e0); [by apply NoDup_cons in Hnd as [_ ?]|done].
Qed.

(** The bits of a decoded cell are the bits of the object's field, the rest zero. *)
Lemma field_bits inputs (e : entry) k : bytes_ok inputs -> Z.of_nat (length inputs) <= kMaxProcessImageBytes ->
  entry_ok (length inputs) e -> 0 <= k ->
  Z.testbit (field inputs e) k = (k <? Z.min (Image.e_bitLength e) 64) && Bits.bit inputs (Image.e_bitOffset e + k).
Proof.
  intros Hok Hl (Ho & Hlen & Hfit) Hk. unfold kMaxProcessImageBytes in Hl.
  destruct (Bits.extract_into_bits (Image.e_bitOffset e) (Image.e_bitLength e)) with (src := inputs) (out := replicate 8 0)
    as (H1 & H2 & H3); unfold in_u; try done; try lia.
  unfold field. rewrite packLeBits_spec, take_ge by (done || rewrite H1; done).
  rewrite Bits.testbit_le_value by done. rewrite H3 by done. by rewrite length_replicate.
Qed.
(** The bytes a point read extracts are the decoded cell's. *)
Lemma extract_field inputs (e : entry) : bytes_ok inputs -> Z.of_nat (length inputs) <= kMaxProcessImageBytes ->
  entry_ok (length inputs) e -> Image.e_bitLength e <= 64 ->
  Bits.extractBits inputs (Image.e_bitOffset e) (Image.e_bitLength e) =
    le_bytes (Z.to_nat ((Image.e_bitLength e + 7) / 8)) (field inputs e).
Proof.
  intros Hok Hl He Hw. pose proof He as (Ho & Hlen & Hfit). unfold kMaxProcessImageBytes in Hl.
  destruct (Bits.extract_bits (Image.e_bitOffset e) (Image.e_bitLength e)) with (src := inputs)
    as (H1 & H2 & H3); unfold in_u; try done; try lia.
  apply Bits.bits_ext; [done|apply le_bytes_ok|by rewrite length_le_bytes|]. intros k Hk. rewrite H3 by done.
  rewrite <- (Bits.testbit_le_value (le_bytes _ _)) by (auto using le_bytes_ok). rewrite le_value_bytes. unfold uwrap.
  pose proof (Bits.ceil_8 (Image.e_bitLength e) ltac:(lia)) as Hc.
  destruct (decide (k < 8 * Z.of_nat (Z.to_nat ((Image.e_bitLength e + 7) / 8)))).
  - rewrite Z.mod_pow2_bits_low by lia. rewrite field_bits by done. by rewrite Z.min_l by lia.
  - rewrite Z.mod_pow2_bits_high by lia. by rewrite (proj2 (Z.ltb_ge _ _)) by lia.
Qed.

(** A ring that has recorded the cycles [cs], with slots for whole images. *)
Definition records (r : Ring.ring) (img : Image.ProcessImage nat) (cs : list Ring.cycle) : Prop :=
  exists ml cap, (0 < cap)%nat /\ Forall Ring.cycle_ok cs /\ Z.of_nat (length cs) + 1 < Ring.kInvalidSeq /\
    r = foldl Ring.write (Ring.allocate ml (Z.to_nat (Image.i_inputBytes img)) (Z.to_nat (Image.i_outputBytes img)) cap
          Ring.empty_ring) cs.

Lemma clamp32_full n cap : Z.of_nat n <= kMaxProcessImageBytes -> cap = n -> Ring.clamp32 n cap = n.
Proof.
  unfold kMaxProcessImageBytes, Ring.clamp32, u32. intros Hn ->. rewrite uwrap_id; [lia|].
  unfold in_u. change (2 ^ 32) with 4294967296. lia.
Qed.

(** The cycle just written is the one a point read finds. *)
Lemma newest_record r img cs c out : records r img cs -> Ring.cycle_ok c ->
  length (Ring.c_in c) = Z.to_nat (Image.i_inputBytes img) -> length (Ring.c_out c) = Z.to_nat (Image.i_outputBytes img) ->
  Image.i_inputBytes img <= kMaxProcessImageBytes -> Image.i_outputBytes img <= kMaxProcessImageBytes ->
  0 <= Image.i_inputBytes img -> 0 <= Image.i_outputBytes img ->
  Ring.head (Ring.write r c) = Z.of_nat (length cs) + 1 /\
  Ring.readRecord (Ring.write r c) (Ring.head (Ring.write r c) - 1) out =
    (Ring.mk_record (Z.of_nat (length cs)) (Ring.c_ts c) (Ring.c_wkc c) (Ring.c_in c) (Ring.c_out c), true).
Proof.
  intros (ml & cap & Hcap & Hok & Hlen & ->) Hc Hin Hout Hi Ho Hi0 Ho0.
  set (r0 := Ring.allocate _ _ _ _ _). replace (Ring.write (foldl Ring.write r0 cs) c) with (foldl Ring.write r0 (cs ++ [c]))
    by (by rewrite foldl_app).
  destruct (Ring.holds_last_capacity ml (Z.to_nat (Image.i_inputBytes img)) (Z.to_nat (Image.i_outputBytes img)) cap
    (cs ++ [c]) (Z.of_nat (length cs)) out) as (Hh & Hold & Hr); try done.
  { apply Forall_app. split; [done|]. by apply Forall_singleton. }
  { rewrite length_app. cbn. lia. }
  { unfold in_u. unfold Ring.kInvalidSeq in Hlen. lia. }
  { lia. }
  fold r0 in Hh, Hold, Hr. rewrite Hh, length_app. cbn [length]. split; [lia|].
  replace (Z.of_nat (length cs + 1) - 1) with (Z.of_nat (length cs)) by lia. rewrite Hr, Hold, length_app. cbn [length].
  rewrite (proj2 (Z.leb_le _ _)) by lia. rewrite Nat2Z.id, lookup_app_r, Nat.sub_diag by lia. cbn [lookup list_lookup].
  rewrite !clamp32_full by lia. rewrite !take_ge by lia. done.
Qed.

Section Delivered.
Context {B : Type} `{FieldbusDriver B} (exchange : bytes -> bytes -> B -> B * (Z * bytes)).

(** C13: after a cycle, every mapped input of a device that exchanges process data has its field of
    the received image in its cell, every other cell is as it was, the recorder's newest record is
    this cycle (its bytes as received and as sent), the short-counter statistic counts it exactly
    when the bus did not fully answer, and a point read of an input on a healthy bus returns the
    bytes of this same cycle, equal to what its cell holds. *)
Theorem cycle_delivers (img : Image.ProcessImage nat) timestampNs (b b' : B) s wkc inputs cs :
  let total := Z.to_nat (Image.i_inputBytes img) in
  let sent := compose (arena s) (Image.i_outputs img) (Z.to_nat (Image.i_outputBytes img)) in
  exchange sent (take total (inScratch s)) b = (b', (wkc, inputs)) ->
  length inputs = total -> bytes_ok inputs -> in_u 64 timestampNs -> in_s 32 wkc ->
  0 <= Image.i_inputBytes img -> 0 <= Image.i_outputBytes img ->
  Image.fields_ok (Image.i_inputBytes img) (Image.i_inputs img) ->
  Image.fields_ok (Image.i_outputBytes img) (Image.i_outputs img) ->
  Forall (fun e => Image.e_slavePosition e <> 0) (Image.i_inputs img) ->
  NoDup (omap Image.e_parameter (Image.i_inputs img)) -> records (recorder s) img cs ->
  let '(_, s') := exchangeProcessData exchange (Some img) timestampNs (b, s) in
  (forall i e c p, Image.i_inputs img !! i = Some e -> Image.e_parameter e = Some c -> arena s !! c = Some p ->
     arena s' !! c = Some (if exchangesProcessData (drv_slaveState (Image.e_slavePosition e) b')
                           then storeBits p (field inputs e) else p)) /\
  (forall c, c ∉ omap Image.e_parameter (Image.i_inputs img) -> arena s' !! c = arena s !! c) /\
  (forall out, Ring.readRecord (recorder s') (Ring.head (recorder s') - 1) out =
     (Ring.mk_record (Z.of_nat (length cs)) timestampNs wkc inputs sent, true)) /\
  lastWkc s' = wkc /\
  shortWkcCycles s' = (if wkc <? expectedWkc s then u64 (shortWkcCycles s + 1) else shortWkcCycles s) /\
  (forall pos idx sub loc, expectedWkc s <= wkc -> Image.find img pos idx sub = Some loc -> Image.isOutput loc = false ->
     exists e, Image.i_inputs img !! Image.entryIndex loc = Some e /\
       Store.readPdo (Store.mk_pd (Some img) (recorder s') (lastWkc s') (expectedWkc s')) (arena s') pos idx sub =
         Some (Bits.extractBits inputs (Image.e_bitOffset e) (Image.e_bitLength e)) /\
       (Image.e_bitLength e <= 64 -> Bits.extractBits inputs (Image.e_bitOffset e) (Image.e_bitLength e) =
         le_bytes (Z.to_nat ((Image.e_bitLength e + 7) / 8)) (field inputs e))).
Proof using.
  intros total sent Hx Hlen Hok Hts Hw Hi0 Ho0 Hf Hfo Hpos Hnd Hrec.
  unfold exchangeProcessData. fold total. fold sent. rewrite Hx.
  pose proof Hf as (Hmax & Hin & _). pose proof Hfo as (Hmaxo & Hout & _).
  assert (Hsent : length sent = Z.to_nat (Image.i_outputBytes img)).
  { unfold sent, compose. apply compose_ok; [|lia|apply length_replicate|apply Bits.zeros_ok].
    eapply Forall_impl; [exact Hout|]. intros e. cbn beta. unfold entry_ok. rewrite Z2Nat.id by done. done. }
  assert (Har : arena (note_wkc wkc timestampNs s) = arena s) by (unfold note_wkc; by destruct (_ <? _)).
  assert (Hre : recorder (note_wkc wkc timestampNs s) = recorder s) by (unfold note_wkc; by destruct (_ <? _)).
  cbn [arena recorder]. rewrite Har, Hre, decode_is_deliver by done.
  pose proof (fun out => newest_record (recorder s) img cs (Ring.mk_cycle timestampNs wkc inputs sent) out Hrec) as Hnew.
  cbn [Ring.c_in Ring.c_out Ring.c_ts Ring.c_wkc] in Hnew.
  split; [intros i e c p He Hp Hc; exact (deliver_lookup inputs (fun pos => drv_slaveState pos b') _ _ i e c p Hnd He Hp Hc)|].
  split; [intros c Hc; by apply deliver_other|].
  split; [intros out; by apply (Hnew out)|].
  split; [cbn; unfold note_wkc; by destruct (_ <? _)|]. split; [cbn; unfold note_wkc; by destruct (_ <? _)|].
  intros pos idx sub loc Hhealthy Hfind Hloc. pose proof (Image.find_spec img pos idx sub) as Hs. rewrite Hfind, Hloc in Hs.
  destruct Hs as (e & He & _ & Hoff & Hbl & _). exists e. split; [done|]. split.
  2: { apply extract_field; try done; [lia|]. pose proof (Forall_lookup_1 _ _ _ _ Hin He) as Hb. cbn beta in Hb.
       unfold entry_ok. lia. }
  destruct (Hnew Store.no_record) as [Hh Hr]; try done. unfold Store.readPdo. cbn [Store.image Store.pd_ring].
  rewrite Hfind, Hloc. unfold Store.healthy. cbn [Store.image Store.expectedWkc Store.lastWkc].
  assert (Hwk : expectedWkc (note_wkc wkc timestampNs s) <= lastWkc (note_wkc wkc timestampNs s))
    by (unfold note_wkc; destruct (_ <? _); done).
  cbn [expectedWkc lastWkc]. rewrite (proj2 (Z.leb_le _ _) Hwk). cbn [negb]. rewrite Hh at 1.
  rewrite (proj2 (Z.eqb_neq _ _)) by lia. rewrite Hr. cbn [Ring.inputs]. by rewrite Hoff, Hbl.
Qed.
End Delivered.
(** ** One drive, two outputs (one of them four bits wide) and one input *)
Definition w_param (idx dt v : Z) : DeviceParameter :=
  mk_parameter idx 0 [] 7 dt 16 63 ObjectDictionary v [] Unknown None [] None None None [] [] [].

Definition w_cells : list DeviceParameter :=
  [w_param 0x6040 UNSIGNED16 0x10f; w_param 0x6060 INTEGER8 0xa8; w_param 0x6041 UNSIGNED16 0].

Definition w_image : Image.ProcessImage nat :=
  Image.mk_image
    [Image.mk_image_entry 1 0x6040 0 16 0 (Some 0%nat); Image.mk_image_entry 1 0x6060 0 4 18 (Some 1%nat)]
    [Image.mk_image_entry 1 0x6041 0 16 0 (Some 2%nat)] 3 2 3.

Lemma composed_outputs_witness :
  compose w_cells (Image.i_outputs w_image) 3 = [0x0f; 0x01; 0x20] /\
  Bits.extractBits (compose w_cells (Image.i_outputs w_image) 3) 18 4 = [8].
Proof.
  split; [vm_compute; reflexivity|].
  etrans; [eapply (composed_outputs w_cells (Image.i_outputs w_image) 3) with (i := 1%nat) (c := 1%nat)
    (e := Image.mk_image_entry 1 0x6060 0 4 18 (Some 1%nat)); try reflexivity|vm_compute; reflexivity].
  - split; [done|]. split; [repeat constructor; cbn; lia|]. repeat constructor; cbn; lia.
  - repeat constructor; cbn; lia.
Defined.

#[local] Existing Instance Store.slave_driver.

Definition w_exchange (sent received : bytes) (b : Store.Slave) : Store.Slave * (Z * bytes) := (b, (3, [0x37; 0x12])).

Definition w_rt : rt_data :=
  mk_rt w_cells (Ring.allocate true 2 3 4 Ring.empty_ring) 0 3 0 0 0 (replicate 8 0) (replicate 8 0).

Definition w_op : Store.Slave := Store.mk_slave ∅ kOp.

Lemma cycle_delivers_witness :
  let '(_, s') := exchangeProcessData w_exchange (Some w_image) 77 (w_op, w_rt) in
  arena s' !! 2%nat = Some (storeBits (w_param 0x6041 UNSIGNED16 0) 0x1237) /\
  Store.readPdo (Store.mk_pd (Some w_image) (recorder s') (lastWkc s') (expectedWkc s')) (arena s') 1 0x6041 0 =
    Some [0x37; 0x12].
Proof.
  pose proof (cycle_delivers w_exchange w_image 77 w_op w_op w_rt 3 [0x37; 0x12] []) as H.
  destruct (exchangeProcessData w_exchange (Some w_image) 77 (w_op, w_rt)) as [b s'] eqn:E.
  destruct H as (H1 & _ & _ & _ & _ & H6); try done.
  - repeat constructor; cbn; lia.
  - split; [done|]. split; repeat constructor; cbn; lia.
  - split; [done|]. split; repeat constructor; cbn; lia.
  - repeat constructor; cbn; lia.
  - apply NoDup_singleton.
  - exists true, 4%nat. split_and!; try done; try lia; by constructor.
  - split.
    + rewrite (H1 0%nat (Image.mk_image_entry 1 0x6041 0 16 0 (Some 2%nat)) 2%nat (w_param 0x6041 UNSIGNED16 0)); done.
    + destruct (H6 1 0x6041 0 (Image.mk_location 0 16 false 0)) as (e & He & Hr & _); try done.
      injection He as <-. rewrite Hr. vm_compute. reflexivity.
Defined.
End Cycle.
