(* ===== verification/Cia402.v ===== *)
(** * The CiA402 drive profile ([libs/node/cia402.h])

    The protocol vocabulary: the statusword decoder, operation modes, the names of the states, and
    the next-hop table [nextFsaTransition] that walks a drive through its state machine. The profile's
    own state graph (ETG.6010 Figure 2) is stated here as [fsa_edge], independent of the table. *)

From S2P Require Import Prelude Util.

Module Cia402.

(** ** Objects used by the drive operations *)
Definition kErrorCode : Z := 24639.
Definition kControlword : Z := 24640.
Definition kStatusword : Z := 24641.
Definition kQuickStopOptionCode : Z := 24666.
Definition kModeOfOperation : Z := 24672.
Definition kModeOfOperationDisplay : Z := 24673.
Definition kPositionActualValue : Z := 24676.
Definition kVelocityActualValue : Z := 24684.
Definition kTargetTorque : Z := 24689.
Definition kTorqueActualValue : Z := 24695.
Definition kTargetPosition : Z := 24698.
Definition kTargetVelocity : Z := 24831.
Definition kPositionDemandValue : Z := 0x6062.
Definition kFollowingErrorWindow : Z := 0x6065.
Definition kFollowingErrorTimeout : Z := 0x6066.
Definition kPositionWindow : Z := 0x6067.
Definition kPositionWindowTime : Z := 0x6068.
Definition kVelocityDemandValue : Z := 0x606B.
Definition kVelocityWindow : Z := 0x606D.
Definition kVelocityWindowTime : Z := 0x606E.
Definition kVelocityThreshold : Z := 0x606F.
Definition kVelocityThresholdTime : Z := 0x6070.
Definition kMaxTorque : Z := 0x6072.
Definition kMaxCurrent : Z := 0x6073.
Definition kTorqueDemand : Z := 0x6074.
Definition kMotorRatedCurrent : Z := 0x6075.
Definition kMotorRatedTorque : Z := 0x6076.
Definition kDcLinkCircuitVoltage : Z := 0x6079.
Definition kPositionRangeLimit : Z := 0x607B.
Definition kHomeOffset : Z := 0x607C.
Definition kSoftwarePositionLimit : Z := 0x607D.
Definition kPolarity : Z := 0x607E.
Definition kMaxMotorSpeed : Z := 0x6080.
(** The object; the mode of the same name is a constructor of [OperationMode]. *)
Definition kProfileVelocityObject : Z := 0x6081.
Definition kProfileAcceleration : Z := 0x6083.
Definition kProfileDeceleration : Z := 0x6084.
Definition kQuickStopDeceleration : Z := 0x6085.
Definition kMotionProfileType : Z := 0x6086.
Definition kTorqueSlope : Z := 0x6087.
Definition kTorqueProfileType : Z := 0x6088.
Definition kGearRatio : Z := 0x6091.
Definition kFeedConstant : Z := 0x6092.
Definition kHomingMethod : Z := 0x6098.
Definition kHomingSpeeds : Z := 0x6099.
Definition kHomingAcceleration : Z := 0x609A.
Definition kSiUnitVelocity : Z := 0x60A9.
Definition kVelocityOffset : Z := 0x60B1.
Definition kTorqueOffset : Z := 0x60B2.
Definition kTouchProbeFunction : Z := 0x60B8.
Definition kTouchProbeStatus : Z := 0x60B9.
Definition kTouchProbe1PositiveEdge : Z := 0x60BA.
Definition kTouchProbe1NegativeEdge : Z := 0x60BB.
Definition kTouchProbeTimeStamp1PositiveValue : Z := 0x60D1.
Definition kTouchProbeTimeStamp1NegativeValue : Z := 0x60D2.
Definition kPositioningOptionCode : Z := 0x60F2.
Definition kFollowingErrorActualValue : Z := 0x60F4.
Definition kControlEffort : Z := 0x60FA.
Definition kPositionDemandInternalValue : Z := 0x60FC.
Definition kDigitalInputs : Z := 0x60FD.
Definition kDigitalOutputs : Z := 0x60FE.
Definition kSupportedDriveModes : Z := 0x6502.

(** ** Operation modes *)
Inductive OperationMode :=
  | kNoMode | kProfilePosition | kVelocity | kProfileVelocity | kProfileTorque | kHoming
  | kInterpolatedPosition | kCyclicSyncPosition | kCyclicSyncVelocity | kCyclicSyncTorque
  | kCyclicSyncTorqueCommutationAngle.

#[export] Instance OperationMode_eq_dec : EqDecision OperationMode.
Proof. solve_decision. Defined.

Definition mode_value (m : OperationMode) : Z :=
  match m with
  | kNoMode => 0 | kProfilePosition => 1 | kVelocity => 2 | kProfileVelocity => 3
  | kProfileTorque => 4 | kHoming => 6 | kInterpolatedPosition => 7 | kCyclicSyncPosition => 8
  | kCyclicSyncVelocity => 9 | kCyclicSyncTorque => 10 | kCyclicSyncTorqueCommutationAngle => 11
  end.

Definition toOperationMode (value : Z) : option OperationMode :=
  if (value <? -128) || (127 <? value) then None
  else
    let v := swrap 8 value in
    if v =? 0 then Some kNoMode
    else if v =? 1 then Some kProfilePosition
    else if v =? 2 then Some kVelocity
    else if v =? 3 then Some kProfileVelocity
    else if v =? 4 then Some kProfileTorque
    else if v =? 6 then Some kHoming
    else if v =? 7 then Some kInterpolatedPosition
    else if v =? 8 then Some kCyclicSyncPosition
    else if v =? 9 then Some kCyclicSyncVelocity
    else if v =? 10 then Some kCyclicSyncTorque
    else if v =? 11 then Some kCyclicSyncTorqueCommutationAngle
    else None.

(** One row of [kStandardOperationModes]: mode, 0x6502 bit, abbreviation, label. *)
Definition kStandardOperationModes : list (OperationMode * Z * text * text) :=
  [(kNoMode, -1, codes "", codes "No mode selected");
   (kProfilePosition, 0, codes "pp", codes "Profile position mode");
   (kVelocity, 1, codes "vl", codes "Velocity mode (frequency converter)");
   (kProfileVelocity, 2, codes "pv", codes "Profile velocity mode");
   (kProfileTorque, 3, codes "tq", codes "Profile torque mode");
   (kHoming, 5, codes "hm", codes "Homing mode");
   (kInterpolatedPosition, 6, codes "ip", codes "Interpolated position mode");
   (kCyclicSyncPosition, 7, codes "csp", codes "Cyclic synchronous position mode");
   (kCyclicSyncVelocity, 8, codes "csv", codes "Cyclic synchronous velocity mode");
   (kCyclicSyncTorque, 9, codes "cst", codes "Cyclic synchronous torque mode");
   (kCyclicSyncTorqueCommutationAngle, 10, codes "cstca",
    codes "Cyclic synchronous torque mode with commutation angle")].

(** ** States *)
Inductive State :=
  | kNotReadyToSwitchOn | kSwitchOnDisabled | kReadyToSwitchOn | kSwitchedOn | kOperationEnabled
  | kQuickStopActive | kFaultReactionActive | kFault.

#[export] Instance State_eq_dec : EqDecision State.
Proof. solve_decision. Defined.

Definition kCommandMask : Z := 143.

Definition kCmdShutdown : Z := 6.
Definition kCmdSwitchOn : Z := 7.
Definition kCmdEnableOperation : Z := 15.
Definition kCmdDisableVoltage : Z := 0.
Definition kCmdQuickStop : Z := 2.
Definition kCmdFaultReset : Z := 128.

Definition decodeState (statusword : Z) : State :=
  if Z.land statusword 79 =? 64 then kSwitchOnDisabled
  else if Z.land statusword 111 =? 33 then kReadyToSwitchOn
  else if Z.land statusword 111 =? 35 then kSwitchedOn
  else if Z.land statusword 111 =? 39 then kOperationEnabled
  else if Z.land statusword 111 =? 7 then kQuickStopActive
  else if Z.land statusword 79 =? 15 then kFaultReactionActive
  else if Z.land statusword 79 =? 8 then kFault
  else kNotReadyToSwitchOn.

Definition isInternalLimitActive (statusword : Z) : bool := negb (Z.land statusword 2048 =? 0).
Definition isTargetReached (statusword : Z) : bool := negb (Z.land statusword 1024 =? 0).

Definition isFaulted (statusword : Z) : bool :=
  let s := decodeState statusword in
  bool_decide (s = kFault) || bool_decide (s = kFaultReactionActive).

Definition state_name (s : State) : text :=
  match s with
  | kNotReadyToSwitchOn => codes "NotReadyToSwitchOn"
  | kSwitchOnDisabled => codes "SwitchOnDisabled"
  | kReadyToSwitchOn => codes "ReadyToSwitchOn"
  | kSwitchedOn => codes "SwitchedOn"
  | kOperationEnabled => codes "OperationEnabled"
  | kQuickStopActive => codes "QuickStopActive"
  | kFaultReactionActive => codes "FaultReactionActive"
  | kFault => codes "Fault"
  end.

Definition mode_name (m : OperationMode) : text :=
  match m with
  | kNoMode => codes "NoMode"
  | kProfilePosition => codes "ProfilePosition"
  | kVelocity => codes "Velocity"
  | kProfileVelocity => codes "ProfileVelocity"
  | kProfileTorque => codes "ProfileTorque"
  | kHoming => codes "Homing"
  | kInterpolatedPosition => codes "InterpolatedPosition"
  | kCyclicSyncPosition => codes "CyclicSyncPosition"
  | kCyclicSyncVelocity => codes "CyclicSyncVelocity"
  | kCyclicSyncTorque => codes "CyclicSyncTorque"
  | kCyclicSyncTorqueCommutationAngle => codes "CyclicSyncTorqueCommutationAngle"
  end.

Definition quickStopHolds (optionCode : Z) : bool := (5 <=? optionCode) && (optionCode <=? 8).

Definition all_states : list State :=
  [kNotReadyToSwitchOn; kSwitchOnDisabled; kReadyToSwitchOn; kSwitchedOn; kOperationEnabled;
   kQuickStopActive; kFaultReactionActive; kFault].

Definition parseState (token : text) : option State :=
  List.find (fun s => bool_decide (token = state_name s)) all_states.

Definition isCommandableState (s : State) : bool :=
  match s with
  | kSwitchOnDisabled | kReadyToSwitchOn | kSwitchedOn | kOperationEnabled | kQuickStopActive => true
  | kNotReadyToSwitchOn | kFaultReactionActive | kFault => false
  end.

(** ** The next-hop table *)
Inductive FsaAction := kArrived | kCommand (command : Z) | kWait | kUnreachable.

Definition nextFsaTransition (from target : State) (allowQuickStopOverride : bool) : FsaAction :=
  if negb (isCommandableState target) then kUnreachable
  else if bool_decide (from = target) then kArrived
  else
    match from with
    | kNotReadyToSwitchOn | kFaultReactionActive => kWait
    | kFault => kCommand kCmdFaultReset
    | kSwitchOnDisabled => kCommand kCmdShutdown
    | kReadyToSwitchOn =>
        match target with
        | kSwitchOnDisabled => kCommand kCmdDisableVoltage
        | _ => kCommand kCmdSwitchOn
        end
    | kSwitchedOn =>
        match target with
        | kSwitchOnDisabled => kCommand kCmdDisableVoltage
        | kReadyToSwitchOn => kCommand kCmdShutdown
        | _ => kCommand kCmdEnableOperation
        end
    | kOperationEnabled =>
        match target with
        | kSwitchOnDisabled => kCommand kCmdDisableVoltage
        | kReadyToSwitchOn => kCommand kCmdShutdown
        | kSwitchedOn => kCommand kCmdSwitchOn
        | _ => kCommand kCmdQuickStop
        end
    | kQuickStopActive =>
        match target with
        | kOperationEnabled =>
            if allowQuickStopOverride then kCommand kCmdEnableOperation else kUnreachable
        | _ => kCommand kCmdDisableVoltage
        end
    end.

(** ** The profile's state graph

    The transitions of ETG.6010 Figure 2 with the command that causes them; [None] for those the
    drive makes on its own (1 and 14). *)
Inductive fsa_edge : State -> option Z -> State -> Prop :=
  | t1 : fsa_edge kNotReadyToSwitchOn None kSwitchOnDisabled
  | t2 : fsa_edge kSwitchOnDisabled (Some kCmdShutdown) kReadyToSwitchOn
  | t3 : fsa_edge kReadyToSwitchOn (Some kCmdSwitchOn) kSwitchedOn
  | t4 : fsa_edge kSwitchedOn (Some kCmdEnableOperation) kOperationEnabled
  | t5 : fsa_edge kOperationEnabled (Some kCmdSwitchOn) kSwitchedOn
  | t6 : fsa_edge kSwitchedOn (Some kCmdShutdown) kReadyToSwitchOn
  | t7 : fsa_edge kReadyToSwitchOn (Some kCmdDisableVoltage) kSwitchOnDisabled
  | t8 : fsa_edge kOperationEnabled (Some kCmdShutdown) kReadyToSwitchOn
  | t9 : fsa_edge kOperationEnabled (Some kCmdDisableVoltage) kSwitchOnDisabled
  | t10 : fsa_edge kSwitchedOn (Some kCmdDisableVoltage) kSwitchOnDisabled
  | t11 : fsa_edge kOperationEnabled (Some kCmdQuickStop) kQuickStopActive
  | t12 : fsa_edge kQuickStopActive (Some kCmdDisableVoltage) kSwitchOnDisabled
  | t14 : fsa_edge kFaultReactionActive None kFault
  | t15 : fsa_edge kFault (Some kCmdFaultReset) kSwitchOnDisabled
  | t16 : fsa_edge kQuickStopActive (Some kCmdEnableOperation) kOperationEnabled.

(** A walk that takes, at every state, exactly the step the table names. *)
Inductive walks (target : State) (override : bool) : nat -> State -> Prop :=
  | walk_done n s : nextFsaTransition s target override = kArrived -> walks target override n s
  | walk_command n s c s' :
      nextFsaTransition s target override = kCommand c -> fsa_edge s (Some c) s' ->
      walks target override n s' -> walks target override (S n) s
  | walk_wait n s s' :
      nextFsaTransition s target override = kWait -> fsa_edge s None s' ->
      walks target override n s' -> walks target override (S n) s.

(** From every state, following the table reaches every state a master can ask for in at most
    seven steps of the profile's state graph, the single exception being a quick stop that the
    caller did not allow to be overridden. *)
Theorem table_reaches_target s target override :
  isCommandableState target = true ->
  walks target override 7 s \/ (s = kQuickStopActive /\ target = kOperationEnabled /\ override = false).
Proof.
  intros Ht. destruct s, target, override; try done;
    try (right; done); left;
    repeat first
      [ apply walk_done; reflexivity
      | eapply walk_command; [reflexivity|constructor|]
      | eapply walk_wait; [reflexivity|constructor|] ].
Qed.

Lemma table_reaches_target_witness : walks kQuickStopActive false 7 kFaultReactionActive.
Proof.
  destruct (table_reaches_target kFaultReactionActive kQuickStopActive false eq_refl) as [H|[H _]].
  - exact H.
  - discriminate H.
Defined.

(** The statuswords of one state: the mask and value of the profile's table. *)
Definition state_pattern (s : State) : list (Z * Z) :=
  match s with
  | kNotReadyToSwitchOn => [(79, 0)]
  | kSwitchOnDisabled => [(79, 64)]
  | kReadyToSwitchOn => [(111, 33)]
  | kSwitchedOn => [(111, 35)]
  | kOperationEnabled => [(111, 39)]
  | kQuickStopActive => [(111, 7)]
  | kFaultReactionActive => [(79, 15)]
  | kFault => [(79, 8)]
  end.

Definition all_bytes : list Z := seqZ 0 128.

Lemma land_low x m : 0 <= m < 128 -> Z.land x m = Z.land (x mod 128) m.
Proof.
  intros Hm. change 128 with (2 ^ 7). rewrite <- Z.land_ones by lia. rewrite <- Z.land_assoc. f_equal.
  apply Z.bits_inj'. intros i Hi. rewrite Z.land_spec. destruct (decide (i < 7)).
  - rewrite Z.ones_spec_low by lia. done.
  - rewrite (testbit_above 7 m) by (done || lia). by rewrite andb_false_r.
Qed.

Lemma decodeState_low x : decodeState x = decodeState (x mod 128).
Proof.
  unfold decodeState. rewrite !(land_low x) by lia. done.
Qed.

(** The decoder agrees with the profile's mask table on every statusword: a word carrying a
    state's pattern decodes to that state, whatever its other bits, and no word carries the pattern
    of two states. *)
Theorem decodeState_patterns statusword s m v :
  (m, v) ∈ state_pattern s -> Z.land statusword m = v -> decodeState statusword = s.
Proof.
  intros Hin Hv. rewrite decodeState_low.
  assert (Hm : 0 <= m < 128) by (destruct s; cbn in Hin; apply list_elem_of_singleton in Hin as [= -> ->]; lia).
  rewrite land_low in Hv by done.
  assert (Hr : In (statusword mod 128) all_bytes).
  { apply list_elem_of_In, elem_of_seqZ. pose proof (Z.mod_pos_bound statusword 128 ltac:(lia)). lia. }
  assert (Hall : forallb (fun s => forallb (fun '(m, v) => forallb (fun x =>
    negb (Z.land x m =? v) || bool_decide (decodeState x = s)) all_bytes) (state_pattern s)) all_states = true)
    by (vm_compute; reflexivity).
  rewrite forallb_forall in Hall. specialize (Hall s ltac:(destruct s; cbn; tauto)).
  rewrite forallb_forall in Hall. apply list_elem_of_In in Hin. specialize (Hall _ Hin). cbn beta iota in Hall.
  rewrite forallb_forall in Hall. specialize (Hall _ Hr). rewrite Hv, Z.eqb_refl in Hall. cbn [negb orb] in Hall.
  by apply bool_decide_eq_true in Hall.
Qed.

Lemma decodeState_patterns_witness : decodeState 5687 = kOperationEnabled.
Proof. apply (decodeState_patterns 5687 kOperationEnabled 111 39); [set_solver|reflexivity]. Defined.

(** State names and modes survive their round trips. *)
Lemma parseState_name s : parseState (state_name s) = Some s.
Proof. by destruct s. Qed.

Lemma toOperationMode_value m : toOperationMode (mode_value m) = Some m.
Proof. by destruct m. Qed.

Lemma toOperationMode_inv v m : toOperationMode v = Some m -> v = mode_value m.
Proof.
  unfold toOperationMode. destruct (Z.ltb_spec v (-128)), (Z.ltb_spec 127 v); cbn [orb]; try done.
  assert (E : swrap 8 v = v).
  { unfold swrap. destruct (decide (0 <= v)).
    - rewrite uwrap_id by (unfold in_u; lia). destruct (Z.ltb_spec v (2 ^ (8 - 1))); lia.
    - unfold uwrap. rewrite <- (Z_mod_plus_full v 1), Z.mod_small by lia.
      destruct (Z.ltb_spec (v + 1 * 2 ^ 8) (2 ^ (8 - 1))); lia. }
  rewrite E. repeat match goal with
  | |- context [v =? ?k] => destruct (Z.eqb_spec v k); [by intros [= <-]|]
  end.
  done.
Qed.

End Cia402.
