(* ===== verification/OsCommand.v ===== *)
(** * OS commands of a SOMANET drive ([libs/node/somanet_drive.{h,cc}])

    The channel of objects 0x1023 and 0x1024 ([runOsCommand]: drain, mode, command, poll, abort), the
    typed commands built on it, and the decoders of what they transfer. The drive is an interface; a
    firmware that follows the documented channel is one instance of it. *)

From S2P Require Import Prelude Util Driver DeviceParameter Cia402.

Module Os.

(** ** Vocabulary *)
Definition kOsCommandSize : nat := 8.
Definition kProgressMin : Z := 100.
Definition kProgressMax : Z := 200.
Definition kExecuting : Z := 255.
Definition kModeExecuteImmediately : Z := 0.
Definition kModeAbort : Z := 3.

Inductive OsCommandStatus := Completed | CompletedWithData | Failed | FailedWithData.

Record OsCommandResponse := mk_response {
  status : OsCommandStatus; data : bytes; errorCode : option Z; fsBuffer : bytes }.

Definition failed (r : OsCommandResponse) : bool :=
  match status r with Failed | FailedWithData => true | _ => false end.

Definition responsePayload (l : bytes) (from : nat) : bytes := drop from l.

(** Byte 0 is known to be 0 to 3. *)
Definition decodeResponse (l : bytes) : OsCommandResponse :=
  match byte_at l 0 with
  | 0 => mk_response Completed [] None []
  | 1 => mk_response CompletedWithData (responsePayload l 2) None []
  | 2 => mk_response Failed [] None []
  | _ => mk_response FailedWithData (responsePayload l 3) (Some (byte_at l 2)) []
  end.

Inductive FsBufferTransfer := FsNone | FsRead | FsWrite (payload : bytes).

Record OsCommandConfig := mk_config { timeout : Z; pollInterval : Z; abortTimeout : Z }.

(** The general error codes. *)
Definition osCommandErrorName (code : Z) : option string :=
  match code with
  | 251 => Some "command not allowed" | 252 => Some "command aborted" | 253 => Some "command timeout"
  | 254 => Some "unsupported command" | 255 => Some "reserved" | _ => None
  end.

Inductive abort_reason := Cancelled | TimedOut.

Inductive OsError :=
  | BadSize (n : nat) | Transport (e : text) | WriteRefused (e : text) (in_progress : bool) | ShortResponse (n : nat)
  | UnknownStatus (s : Z) | FsBufferFailed (e : text) | AbortFailed (r : abort_reason) (e : text)
  | AbortUnconfirmed (r : abort_reason) | Aborted (r : abort_reason).

(** ** The drive *)
Class OsDrive (D : Type) := {
  os_response : D -> D * expected text bytes;              (* reads 0x1023:03 *)
  os_setMode : Z -> D -> D * expected text unit;           (* writes 0x1024 *)
  os_setCommand : bytes -> D -> D * expected text unit;    (* writes 0x1023:01 *)
  os_writeFile : bytes -> D -> D * expected text unit;     (* FoE, "fs-buffer" *)
  os_readFile : D -> D * expected text bytes;
  os_now : D -> D * Z;                                     (* steady_clock, in milliseconds *)
  os_stop : D -> D * bool;                                 (* the stop token *)
  os_sleep : Z -> D -> D;
  os_state : D -> D * expected text Cia402.State;
  os_errorReport : D -> D * expected text text;
}.

Section Commands.
Context {D : Type} `{OsDrive D}.

(** The modes written so far, oldest first, are kept beside the drive. *)
Definition world : Type := D * list Z.

Definition setMode (m : Z) (w : world) : world * expected text unit :=
  let '(d, r) := os_setMode m w.1 in ((d, w.2 ++ [m]), r).

(** What the loop does with a terminal response. *)
Definition finish (fs : FsBufferTransfer) (fsError : text) (aborting : option abort_reason) (l : bytes) (w : world)
    : world * expected OsError OsCommandResponse :=
  match aborting with
  | Some r => (w, Unexpected (Aborted r))
  | None =>
      let decoded := decodeResponse l in
      match fsError with
      | _ :: _ => if failed decoded then (w, Value decoded) else (w, Unexpected (FsBufferFailed fsError))
      | [] =>
          match fs with
          | FsRead =>
              if failed decoded then (w, Value decoded)
              else let '(d, r) := os_readFile w.1 in
                   match r with
                   | Unexpected e => ((d, w.2), Unexpected (FsBufferFailed e))
                   | Value content => ((d, w.2), Value (mk_response (status decoded) (data decoded) (errorCode decoded) content))
                   end
          | _ => (w, Value decoded)
          end
      end
  end.

(** The poll loop. [fuel] bounds the polls; [armed] says that the mode is to be restored on the way out. *)
Fixpoint poll (fuel : nat) (cfg : OsCommandConfig) (fs : FsBufferTransfer) (fsError : text)
    (aborting : option abort_reason) (armed : bool) (deadline : Z) (w : world)
    : world * bool * option (expected OsError OsCommandResponse) :=
  match fuel with
  | O => (w, armed, None)
  | S fuel =>
      let '(d, response) := os_response w.1 in
      let w := (d, w.2) in
      match response with
      | Unexpected e => (w, armed, Some (Unexpected (Transport e)))
      | Value l =>
          if (length l <? kOsCommandSize)%nat then (w, armed, Some (Unexpected (ShortResponse (length l))))
          else
            let st := byte_at l 0 in
            if st <=? 3 then let '(w, r) := finish fs fsError aborting l w in (w, armed, Some r)
            else if negb ((kProgressMin <=? st) && (st <=? kProgressMax)) && negb (st =? kExecuting) then
              (w, armed, Some (Unexpected (UnknownStatus st)))
            else
              let '(d, now) := os_now w.1 in
              let w := (d, w.2) in
              match aborting with
              | None =>
                  let '(d, stop) := os_stop w.1 in
                  let w := (d, w.2) in
                  let reason := if stop then Some Cancelled else if deadline <=? now then Some TimedOut else None in
                  match reason with
                  | Some r =>
                      let '(w, aborted) := setMode kModeAbort w in
                      match aborted with
                      | Unexpected e => (w, true, Some (Unexpected (AbortFailed r e)))
                      | Value _ => poll fuel cfg fs fsError (Some r) true (now + abortTimeout cfg) (os_sleep (pollInterval cfg) w.1, w.2)
                      end
                  | None => poll fuel cfg fs fsError None armed deadline (os_sleep (pollInterval cfg) w.1, w.2)
                  end
              | Some r =>
                  if deadline <=? now then (w, armed, Some (Unexpected (AbortUnconfirmed r)))
                  else poll fuel cfg fs fsError (Some r) armed deadline (os_sleep (pollInterval cfg) w.1, w.2)
              end
      end
  end.

(** The destructor of [ModeRestorer]. *)
Definition restore (armed : bool) (w : world) : world := if armed then (setMode kModeExecuteImmediately w).1 else w.

Definition runOsCommand (fuel : nat) (command : bytes) (cfg : OsCommandConfig) (fs : FsBufferTransfer) (w : world)
    : world * option (expected OsError OsCommandResponse) :=
  if negb (length command =? kOsCommandSize)%nat then (w, Some (Unexpected (BadSize (length command))))
  else
    let '(d, _) := os_response w.1 in
    let '(w, mode) := setMode kModeExecuteImmediately (d, w.2) in
    match mode with
    | Unexpected e => (w, Some (Unexpected (Transport e)))
    | Value _ =>
        let '(d, written) := os_setCommand command w.1 in
        let w := (d, w.2) in
        match written with
        | Unexpected e =>
            let '(d, pending) := os_response w.1 in
            (((d, w.2)), Some (Unexpected (WriteRefused e (match pending with Value (b :: _) => b =? kExecuting | _ => false end))))
        | Value _ =>
            let '(d, now) := os_now w.1 in
            let '(d, fsError) := match fs with
              | FsWrite payload => let '(d, r) := os_writeFile payload d in (d, match r with Unexpected e => e | Value _ => [] end)
              | _ => (d, [])
              end in
            let '(w, armed, r) := poll fuel cfg fs fsError None false (now + timeout cfg) (d, w.2) in
            (restore armed w, r)
        end
    end.

(** ** The typed commands *)
Inductive drive_suffix := NoSuffix | InState (state : Cia402.State) (report : text).

Inductive CommandError :=
  | Channel (e : OsError) | NoCode | General (code : Z) (suffix : drive_suffix) | NotAnswered (code : Z)
  | NamedFault (code : Z) | CommandSpecific (code : Z) | ShortPayload (got expected : nat) | UndefinedOrder (v : Z)
  | BadDuration (ms : Z) | BadLength (n : Z) | OutOfFuel.

Definition M (A : Type) : Type := world -> world * expected CommandError A.

(** [runOsCommand] as the typed commands call it, with no fs-buffer. *)
Definition run (fuel : nat) (command : bytes) (cfg : OsCommandConfig) : M OsCommandResponse :=
  fun w => let '(w, r) := runOsCommand fuel command cfg FsNone w in
  (w, match r with None => Unexpected OutOfFuel | Some (Unexpected e) => Unexpected (Channel e) | Some (Value v) => Value v end).

(** A request of zeros with some bytes set. *)
Definition request (sets : list (nat * Z)) : bytes := foldl (fun l s => <[s.1 := s.2]> l) (replicate kOsCommandSize 0) sets.

Definition kNotAllowed : Z := 251.
Definition kAborted : Z := 252.
Definition kTimeout : Z := 253.

(** [decodeBigEndian<T>] with [n = sizeof(T)]. *)
Definition decodeBigEndian (n : nat) (signed : bool) (payload : bytes) : expected CommandError Z :=
  if (length payload <? n)%nat then Unexpected (ShortPayload (length payload) n) else Value (Util.fromBytes n signed true payload).

Definition driveStateSuffix (code : Z) (w : world) : world * drive_suffix :=
  if negb (code =? kNotAllowed) && negb (code =? kAborted) then (w, NoSuffix)
  else
    let '(d, state) := os_state w.1 in
    match state with
    | Unexpected _ => ((d, w.2), NoSuffix)
    | Value st =>
        match st with
        | Cia402.kOperationEnabled => ((d, w.2), NoSuffix)
        | Cia402.kFault | Cia402.kFaultReactionActive =>
            let '(d, report) := os_errorReport d in
            ((d, w.2), InState st (match report with Value t => t | Unexpected _ => [] end))
        | _ => ((d, w.2), InState st [])
        end
    end.

(** [runMotorMeasurement]; [currentAmplitude] is [CommandSpecificFault::kCurrentAmplitude]. *)
Definition runMotorMeasurement (fuel : nat) (id : Z) (currentAmplitude : bool) (cfg : OsCommandConfig) : M bytes :=
  fun w => let '(w, r) := run fuel (request [(0%nat, id)]) cfg w in
  match r with
  | Unexpected e => (w, Unexpected e)
  | Value response =>
      if failed response then
        match errorCode response with
        | None => (w, Unexpected NoCode)
        | Some code =>
            match osCommandErrorName code with
            | Some _ => let '(w, suffix) := driveStateSuffix code w in (w, Unexpected (General code suffix))
            | None => if currentAmplitude && (code =? 0) then (w, Unexpected (NamedFault code)) else (w, Unexpected (CommandSpecific code))
            end
        end
      else (w, Value (data response))
  end.

(** A measurement whose payload is one big-endian integer. *)
Definition measure (fuel : nat) (id : Z) (currentAmplitude : bool) (n : nat) (signed : bool) (cfg : OsCommandConfig) : M Z :=
  fun w => let '(w, r) := runMotorMeasurement fuel id currentAmplitude cfg w in
  (w, match r with Unexpected e => Unexpected e | Value payload => decodeBigEndian n signed payload end).

Definition runCommutationOffsetMeasurement (fuel : nat) (cfg : OsCommandConfig) : M Z := measure fuel 5 false 2 true cfg.
Definition runPolePairDetection (fuel : nat) (cfg : OsCommandConfig) : M Z := measure fuel 7 true 1 false cfg.
Definition runPhaseResistanceMeasurement (fuel : nat) (cfg : OsCommandConfig) : M Z := measure fuel 8 true 4 false cfg.
Definition runPhaseInductanceMeasurement (fuel : nat) (cfg : OsCommandConfig) : M Z := measure fuel 9 true 4 false cfg.
Definition runTorqueConstantMeasurement (fuel : nat) (cfg : OsCommandConfig) : M Z := measure fuel 10 false 4 true cfg.

Definition runMotorPhaseOrderDetection (fuel : nat) (cfg : OsCommandConfig) : M Z :=
  fun w => let '(w, r) := measure fuel 4 false 1 false cfg w in
  (w, match r with Value o => if 1 <? o then Unexpected (UndefinedOrder o) else Value o | Unexpected e => Unexpected e end).

(** [runOpenPhaseDetection] *)
Record OpenPhaseResult := mk_open { phaseOpened : bool; faultCode : option Z; fault : option Z }.

Definition runOpenPhaseDetection (fuel : nat) (cfg : OsCommandConfig) : M OpenPhaseResult :=
  fun w => let '(w, r) := run fuel (request [(0%nat, 6)]) cfg w in
  match r with
  | Unexpected e => (w, Unexpected e)
  | Value response =>
      if negb (failed response) then (w, Value (mk_open false None None))
      else match errorCode response with
           | Some code =>
               match osCommandErrorName code with
               | Some _ => let '(w, suffix) := driveStateSuffix code w in (w, Unexpected (General code suffix))
               | None => (w, Value (mk_open true (Some code) (if code <=? 8 then Some code else None)))
               end
           | None => (w, Value (mk_open true None None))
           end
  end.

(** The failure of a command whose own codes are [0 .. named - 1]; [notAnswered] is whether it reads a timeout as nobody
    having answered. *)
Definition describe_failure (named : Z) (notAnswered : bool) (response : OsCommandResponse) : CommandError :=
  match errorCode response with
  | None => NoCode
  | Some code =>
      match osCommandErrorName code with
      | Some _ => if notAnswered && (code =? kTimeout) then NotAnswered code else General code NoSuffix
      | None => if code <? named then NamedFault code else CommandSpecific code
      end
  end.

(** A command with no payload in its answer. *)
Definition order (fuel : nat) (sets : list (nat * Z)) (named : Z) (notAnswered : bool) (cfg : OsCommandConfig) : M unit :=
  fun w => let '(w, r) := run fuel (request sets) cfg w in
  (w, match r with
      | Unexpected e => Unexpected e
      | Value response => if failed response then Unexpected (describe_failure named notAnswered response) else Value tt
      end).

Definition setIcMuCalibrationMode (fuel : nat) (encoder mode : Z) (cfg : OsCommandConfig) : M unit :=
  order fuel [(0%nat, 1); (1%nat, u8 (Z.lor (Z.shiftl mode 3) encoder))] 0 false cfg.

Definition setIgnoreBissStatusBits (fuel : nat) (encoder : Z) (ignore : bool) (cfg : OsCommandConfig) : M unit :=
  order fuel [(0%nat, 14); (1%nat, u8 (Z.lor (Z.shiftl encoder 1) (if ignore then 1 else 0)))] 0 true cfg.

Definition setVelocitySource (fuel : nat) (source : Z) (cfg : OsCommandConfig) : M unit :=
  order fuel [(0%nat, 18); (1%nat, source)] 0 false cfg.

Definition maxHrdStreamDuration (data : Z) : Z := if data =? 0 then 10000 else 6000.

Definition configureHrdStream (fuel : nat) (data duration : Z) (cfg : OsCommandConfig) : M unit :=
  fun w =>
  if (duration <=? 0) || (maxHrdStreamDuration data <? duration) then (w, Unexpected (BadDuration duration))
  else
    let milliseconds := u16 duration in
    order fuel [(0%nat, 3); (1%nat, 0); (2%nat, data); (3%nat, u8 (Z.shiftr milliseconds 8)); (4%nat, u8 (Z.land milliseconds 255))] 5 false cfg w.

Definition startHrdStream (fuel : nat) (cfg : OsCommandConfig) : M unit := order fuel [(0%nat, 3); (1%nat, 1)] 5 false cfg.

(** A parameter index in byte 1 and a 32-bit value from byte 2, the most significant byte first. *)
Definition parameter_sets (id parameter value : Z) : list (nat * Z) :=
  [(0%nat, id); (1%nat, parameter); (2%nat, u8 (Z.shiftr value 24)); (3%nat, u8 (Z.shiftr value 16));
   (4%nat, u8 (Z.shiftr value 8)); (5%nat, u8 value)].

Definition setOpenLoopFieldParameter (fuel : nat) (parameter value : Z) (cfg : OsCommandConfig) : M unit :=
  order fuel (parameter_sets 2 parameter (u32 value)) 0 false cfg.
Definition setSystemIdentificationParameter (fuel : nat) (parameter value : Z) (cfg : OsCommandConfig) : M unit :=
  order fuel (parameter_sets 15 parameter value) 0 false cfg.

Definition readSkippedCycles (fuel : nat) (service : Z) (cfg : OsCommandConfig) : M Z :=
  fun w => let '(w, r) := run fuel (request [(0%nat, 13); (1%nat, service)]) cfg w in
  (w, match r with
      | Unexpected e => Unexpected e
      | Value response => if failed response then Unexpected (describe_failure 0 true response) else decodeBigEndian 4 false (data response)
      end).

(** [accessEncoderRegister]: the value reported, if the drive reported one. *)
Definition accessEncoderRegister (fuel : nat) (encoder : Z) (write_ : bool) (registerAddress value : Z) (cfg : OsCommandConfig) : M (option Z) :=
  fun w => let '(w, r) := run fuel (request [(0%nat, 0); (1%nat, encoder); (2%nat, if write_ then 1 else 0); (3%nat, registerAddress);
                                         (4%nat, if write_ then value else 0)]) cfg w in
  (w, match r with
      | Unexpected e => Unexpected e
      | Value response =>
          if failed response then Unexpected (describe_failure 2 false response)
          else match status response with
               | CompletedWithData => match decodeBigEndian 1 false (data response) with Value v => Value (Some v) | Unexpected e => Unexpected e end
               | _ => Value None
               end
      end).

(** [accessKueblerRegister]: the bytes and their value, least significant first. *)
Definition kuebler_sets (address length_ : Z) (write_ : bool) (value : Z) : list (nat * Z) :=
  [(0%nat, 19); (1%nat, if write_ then 1 else 0); (2%nat, address); (3%nat, length_)] ++
  ((fun i => ((4 + i)%nat, u8 (Z.shiftr value (8 * Z.of_nat i)))) <$> seq 0 (Z.to_nat length_)).

Definition accessKueblerRegister (fuel : nat) (address length_ : Z) (write_ : bool) (value : Z) (cfg : OsCommandConfig) : M (bytes * Z) :=
  fun w =>
  if (length_ <? 1) || (4 <? length_) then (w, Unexpected (BadLength length_))
  else
    let '(w, r) := run fuel (request (kuebler_sets address length_ write_ value)) cfg w in
    (w, match r with
        | Unexpected e => Unexpected e
        | Value response =>
            let n := Z.to_nat length_ in
            if failed response then Unexpected (describe_failure 5 false response)
            else if (length (data response) <? n)%nat then Unexpected (ShortPayload (length (data response)) n)
            else let l := take n (data response) in
                 Value (l, foldl (fun v i => Z.lor v (u32 (Z.shiftl (byte_at l i) (8 * Z.of_nat i)))) 0 (seq 0 n))
        end).

(** Firmware latencies (command 22). *)
Definition firmwareLatencyCommand (action : Z) (latency : option Z) : list (nat * Z) :=
  [(0%nat, 22); (1%nat, action)] ++ match latency with Some l => [(2%nat, l)] | None => [] end.

Definition decodeLatencyNanoseconds (payload : bytes) (offset : nat) : Z :=
  u32 (foldl (fun v i => Z.lor v (Z.shiftl (byte_at payload (offset + i)) (8 * Z.of_nat i))) 0 (seq 0 3) * 10).

Definition startFirmwareLatencyMeasurement (fuel : nat) (latency : Z) (cfg : OsCommandConfig) : M unit :=
  order fuel (firmwareLatencyCommand 0 (Some latency)) 2 true cfg.
Definition stopFirmwareLatencyMeasurements (fuel : nat) (cfg : OsCommandConfig) : M unit :=
  order fuel (firmwareLatencyCommand 2 None) 2 true cfg.
Definition readMaximumFirmwareLatency (fuel : nat) (latency : Z) (cfg : OsCommandConfig) : M (Z * Z) :=
  fun w => let '(w, r) := run fuel (request (firmwareLatencyCommand 1 (Some latency))) cfg w in
  (w, match r with
      | Unexpected e => Unexpected e
      | Value response =>
          if failed response then Unexpected (describe_failure 2 true response)
          else if (length (data response) <? 6)%nat then Unexpected (ShortPayload (length (data response)) 6)
          else Value (decodeLatencyNanoseconds (data response) 0, decodeLatencyNanoseconds (data response) 3)
      end).

(** [triggerError]: an answer that never comes is the success of an error meant to stop the service. *)
Definition stopsService (type : Z) : bool := existsb (Z.eqb type) [4; 6; 7; 10].

Definition triggerError (fuel : nat) (service type : Z) (cfg : OsCommandConfig) : M bool :=
  fun w => let '(w, r) := run fuel (request [(0%nat, 16); (1%nat, service); (2%nat, type)]) cfg w in
  (w, match r with
      | Unexpected e => if stopsService type then Value true else Unexpected e
      | Value _ => Value false
      end).

(** ** The mode is always restored *)
Lemma finish_modes fs fsError aborting l w w' r : finish fs fsError aborting l w = (w', r) -> w'.2 = w.2.
Proof.
  unfold finish. destruct aborting; [by intros [= <- _]|]. destruct fsError; [|destruct (failed _); by intros [= <- _]].
  destruct fs; try by intros [= <- _]. destruct (failed _); [by intros [= <- _]|]. destruct (os_readFile w.1) as [d [c|e]]; by intros [= <- _].
Qed.

(** The loop writes the abort mode at most once, and says so. *)
Lemma poll_modes fuel cfg fs fsError : forall aborting armed deadline w w' armed' r,
  poll fuel cfg fs fsError aborting armed deadline w = (w', armed', r) ->
  (aborting = None -> armed = false) -> (is_Some aborting -> armed = true) ->
  (w'.2 = w.2 /\ armed' = armed) \/ (aborting = None /\ w'.2 = w.2 ++ [kModeAbort] /\ armed' = true).
Proof.
  induction fuel as [|fuel IH]; intros aborting armed deadline w w' armed' r E Hn Hs; [injection E as <- <- _; by left|].
  cbn [poll] in E. destruct (os_response w.1) as [d [l|e]]; [|injection E as <- <- _; by left].
  destruct (length l <? kOsCommandSize)%nat; [injection E as <- <- _; by left|].
  destruct (byte_at l 0 <=? 3).
  { destruct (finish fs fsError aborting l (d, w.2)) as [w1 r1] eqn:Ef. apply finish_modes in Ef. injection E as <- <- _. by left. }
  destruct (negb _ && negb _); [injection E as <- <- _; by left|]. cbn [fst snd] in E. destruct (os_now d) as [d1 now].
  destruct aborting as [r0|]; cbn [fst snd] in E.
  - destruct (deadline <=? now); [injection E as <- <- _; by left|]. apply IH in E as [E|(? & _)]; [by left|done|done|done].
  - destruct (os_stop d1) as [d2 stop]. destruct (if stop then _ else _) as [reason|].
    + unfold setMode in E. cbn [fst snd] in E. destruct (os_setMode kModeAbort d2) as [d3 [u|e]].
      * apply IH in E as [[E1 E2]|(? & _)]; [|done|done|done]. right. by rewrite E1, E2.
      * injection E as <- <- _. by right.
    + apply IH in E as [E|(_ & E1 & E2)]; [by left|by right|done|by intros [? [=]]].
Qed.

(** Whatever the drive answers and however the command ends (success, failure, transport error, timeout, cancellation, an
    abort that fails or is never confirmed), the modes written to 0x1024 are either "execute" alone or "execute", "abort",
    "execute": the last mode written is "execute", so the next command is accepted. *)
Theorem mode_restored fuel command cfg fs w w' r : runOsCommand fuel command cfg fs w = (w', Some r) ->
  w'.2 = w.2 ++ (if (length command =? kOsCommandSize)%nat then [kModeExecuteImmediately] else []) \/
  w'.2 = w.2 ++ [kModeExecuteImmediately; kModeAbort; kModeExecuteImmediately].
Proof.
  unfold runOsCommand. destruct (length command =? kOsCommandSize)%nat; cbn [negb]; [|intros [= <- _]; left; by rewrite app_nil_r].
  destruct (os_response w.1) as [d0 r0]. unfold setMode. cbn [fst snd]. destruct (os_setMode kModeExecuteImmediately d0) as [d1 [u|e]];
    [|intros [= <- _]; by left]. cbn [fst snd].
  destruct (os_setCommand command d1) as [d2 [u2|e]]; [|destruct (os_response d2); intros [= <- _]; by left].
  destruct (os_now d2) as [d3 now]. destruct (match fs with FsWrite payload => _ | _ => _ end) as [d4 fe].
  destruct (poll fuel cfg fs fe None false (now + timeout cfg) (d4, w.2 ++ [kModeExecuteImmediately])) as [[w1 armed] r1] eqn:Ep.
  apply poll_modes in Ep as [[E1 ->]|(_ & E1 & ->)]; [| |done|by intros [? [=]]]; intros [= <- _]; cbn [restore].
  - by left.
  - right. unfold setMode. destruct (os_setMode kModeExecuteImmediately w1.1) as [d5 r5]. cbn. rewrite E1. cbn. by rewrite <- !app_assoc.
Qed.

(** ** The loop ends *)
Section Steady.
Context (clock : D -> Z).
(** A steady clock: no call takes it back, and a sleep of the poll interval moves it on. *)
Class SteadyClock (interval : Z) := {
  sc_now : forall d, (os_now d).2 = clock (os_now d).1 /\ clock d <= clock (os_now d).1;
  sc_response : forall d, clock d <= clock (os_response d).1;
  sc_stop : forall d, clock d <= clock (os_stop d).1;
  sc_mode : forall m d, clock d <= clock (os_setMode m d).1;
  sc_sleep : forall d, clock d + 1 <= clock (os_sleep interval d) }.

Context (cfg : OsCommandConfig) {Hclock : SteadyClock (pollInterval cfg)}.

Lemma poll_aborting_ends fs fsError r deadline : forall fuel w armed,
  Z.max 0 (deadline - clock w.1) + 1 <= Z.of_nat fuel -> is_Some (poll fuel cfg fs fsError (Some r) armed deadline w).2.
Proof using Hclock.
  induction fuel as [|fuel IH]; intros w armed Hf; [lia|]. cbn [poll].
  pose proof (sc_response w.1) as Hr. destruct (os_response w.1) as [d [l|e]]; [|done]. cbn [fst snd] in *.
  destruct (length l <? kOsCommandSize)%nat; [done|]. destruct (byte_at l 0 <=? 3); [by destruct (finish _ _ _ _ _)|].
  destruct (negb _ && negb _); [done|]. pose proof (sc_now d) as [Hn1 Hn2]. destruct (os_now d) as [d1 now]. cbn [fst snd] in *.
  destruct (Z.leb_spec deadline now); [done|]. apply IH. cbn. pose proof (sc_sleep d1). lia.
Qed.

Lemma poll_ends fs fsError deadline : 0 <= abortTimeout cfg -> forall fuel w armed,
  Z.max 0 (deadline - clock w.1) + abortTimeout cfg + 2 <= Z.of_nat fuel -> is_Some (poll fuel cfg fs fsError None armed deadline w).2.
Proof using Hclock.
  intros Ha. induction fuel as [|fuel IH]; intros w armed Hf; [lia|]. cbn [poll].
  pose proof (sc_response w.1) as Hr. destruct (os_response w.1) as [d [l|e]]; [|done]. cbn [fst snd] in *.
  destruct (length l <? kOsCommandSize)%nat; [done|]. destruct (byte_at l 0 <=? 3); [by destruct (finish _ _ _ _ _)|].
  destruct (negb _ && negb _); [done|]. pose proof (sc_now d) as [Hn1 Hn2]. destruct (os_now d) as [d1 now]. cbn [fst snd] in *.
  pose proof (sc_stop d1) as Hs. destruct (os_stop d1) as [d2 stop]. cbn [fst snd] in *.
  assert (Habort : forall r, is_Some (let '(w, aborted) := setMode kModeAbort (d2, w.2) in
      match aborted with
      | Unexpected e => (w, true, Some (Unexpected (AbortFailed r e)))
      | Value _ => poll fuel cfg fs fsError (Some r) true (now + abortTimeout cfg) (os_sleep (pollInterval cfg) w.1, w.2)
      end).2).
  { intros r. unfold setMode. cbn [fst snd]. pose proof (sc_mode kModeAbort d2). destruct (os_setMode kModeAbort d2) as [d3 [u|e]]; [|done].
    cbn [fst snd] in *. apply poll_aborting_ends. cbn. pose proof (sc_sleep d3). lia. }
  destruct stop; [apply Habort|]. destruct (Z.leb_spec deadline now); [apply Habort|]. apply IH. cbn. pose proof (sc_sleep d2). lia.
Qed.

(** With a steady clock, a command returns: at most one poll per unit of the timeout and of the abort timeout is made,
    whatever the drive answers and whenever a stop is requested. *)
Theorem command_returns command fs w fuel : 0 <= timeout cfg -> 0 <= abortTimeout cfg ->
  (forall c d, clock d <= clock (os_setCommand c d).1) -> (forall l d, clock d <= clock (os_writeFile l d).1) ->
  timeout cfg + abortTimeout cfg + 2 <= Z.of_nat fuel -> is_Some (runOsCommand fuel command cfg fs w).2.
Proof using Hclock.
  intros Ht Ha Hc Hw Hf. unfold runOsCommand. destruct (negb _); [done|]. destruct (os_response w.1) as [d0 r0]. unfold setMode.
  cbn [fst snd]. destruct (os_setMode kModeExecuteImmediately d0) as [d1 [u|e]]; [|done]. cbn [fst snd].
  destruct (os_setCommand command d1) as [d2 [u2|e]]; [|by destruct (os_response d2)].
  pose proof (sc_now d2) as [Hn1 Hn2]. destruct (os_now d2) as [d3 now]. cbn [fst snd] in *.
  assert (Hfs : exists d4 fe, match fs with FsWrite payload =>
      let '(d, r) := os_writeFile payload d3 in (d, match r with Unexpected e => e | Value _ => [] end) | _ => (d3, []) end = (d4, fe) /\ clock d3 <= clock d4).
  { destruct fs as [| |payload]; [by exists d3, []..|]. pose proof (Hw payload d3). destruct (os_writeFile payload d3) as [d r]. by eexists _, _. }
  destruct Hfs as (d4 & fe & -> & H4).
  pose proof (poll_ends fs fe (now + timeout cfg) Ha fuel (d4, w.2 ++ [kModeExecuteImmediately]) false) as Hp.
  destruct (poll _ _ _ _ _ _ _ _) as [[w1 armed] r1]. apply Hp. cbn. lia.
Qed.
End Steady.
End Commands.

(** ** A firmware that follows the channel's rules

    The drive ignores a command while its mode is not 0 or an answer lies unread, refuses one while another runs, answers 255
    while a command runs, and is idle again once its answer was read. An abort ends the running command with code 252. *)
Inductive channel := ChIdle | ChUnread (l : bytes) | ChRunning (polls : nat) (l : bytes).

Record fw := mk_fw {
  f_mode : Z; chan : channel; f_clock : Z;
  f_idle : bytes;                                (* what 0x1023:03 reads when idle *)
  f_reply : bytes -> bytes; f_delay : bytes -> nat; f_abort : nat }.

Definition set_chan (f : fw) (c : channel) : fw := mk_fw (f_mode f) c (f_clock f) (f_idle f) (f_reply f) (f_delay f) (f_abort f).
Definition executing : bytes := [255; 0; 0; 0; 0; 0; 0; 0].
Definition aborted : bytes := [3; 0; 252; 0; 0; 0; 0; 0].

#[export] Instance fw_drive : OsDrive fw := {
  os_response f := match chan f with
    | ChIdle => (f, Value (f_idle f))
    | ChUnread l => (set_chan f ChIdle, Value l)
    | ChRunning O l => (set_chan f ChIdle, Value l)
    | ChRunning (S n) l => (set_chan f (ChRunning n l), Value executing)
    end;
  os_setMode m f := (mk_fw m (match chan f with ChRunning n l => if m =? 3 then ChRunning (f_abort f) aborted else ChRunning n l | c => c end)
                      (f_clock f) (f_idle f) (f_reply f) (f_delay f) (f_abort f), Value tt);
  os_setCommand c f := match chan f with
    | ChRunning _ _ => (f, Unexpected [])
    | ChUnread _ => (f, Value tt)
    | ChIdle => if f_mode f =? 0 then (set_chan f (ChRunning (f_delay f c) (f_reply f c)), Value tt) else (f, Value tt)
    end;
  os_writeFile _ f := (f, Value tt);
  os_readFile f := (f, Value []);
  os_now f := (f, f_clock f);
  os_stop f := (f, false);
  os_sleep n f := mk_fw (f_mode f) (chan f) (f_clock f + n) (f_idle f) (f_reply f) (f_delay f) (f_abort f);
  os_state f := (f, Value Cia402.kOperationEnabled);
  os_errorReport f := (f, Value []);
}.

Definition terminal (l : bytes) : Prop := (8 <= length l)%nat /\ byte_at l 0 <= 3.

Lemma poll_terminal fuel cfg aborting armed deadline f ms l : terminal l -> chan f = ChRunning 0 l ->
  poll (S fuel) cfg FsNone [] aborting armed deadline (f, ms) =
  ((set_chan f ChIdle, ms), armed, Some (match aborting with Some r => Unexpected (Aborted r) | None => Value (decodeResponse l) end)).
Proof.
  intros [Hlen Hst] Hc. cbn [poll fst snd os_response fw_drive]. rewrite Hc. rewrite (proj2 (Nat.ltb_ge _ _)) by (unfold kOsCommandSize; lia).
  rewrite (proj2 (Z.leb_le _ _)) by done. by destruct aborting.
Qed.

(** The aborted command is confirmed in time. *)
Lemma poll_abort_confirmed cfg r deadline : 0 <= pollInterval cfg -> forall n fuel f ms,
  chan f = ChRunning n aborted -> (n < fuel)%nat -> f_clock f + (Z.of_nat n - 1) * pollInterval cfg < deadline ->
  exists f', poll fuel cfg FsNone [] (Some r) true deadline (f, ms) = ((f', ms), true, Some (Unexpected (Aborted r))) /\
    chan f' = ChIdle.
Proof.
  intros Hp. induction n as [|n IH]; intros fuel f ms Hc Hf Hd; (destruct fuel as [|fuel]; [lia|]).
  - rewrite (poll_terminal _ _ _ _ _ _ _ aborted) by (done || (split; cbn; lia)). by eexists.
  - cbn [poll fst snd os_response fw_drive]. rewrite Hc. cbn -[poll]. rewrite (proj2 (Z.leb_gt _ _)) by nia.
    apply IH; cbn; [done|lia|nia].
Qed.

Lemma poll_fw cfg deadline : 0 <= pollInterval cfg -> forall n fuel f ms l, terminal l -> chan f = ChRunning n l ->
  (n + f_abort f + 1 < fuel)%nat -> (Z.of_nat (f_abort f) - 1) * pollInterval cfg + pollInterval cfg < abortTimeout cfg ->
  exists f', 
    (if f_clock f + (Z.of_nat n - 1) * pollInterval cfg <? deadline then
       poll fuel cfg FsNone [] None false deadline (f, ms) = ((f', ms), false, Some (Value (decodeResponse l)))
     else n = 0%nat \/ poll fuel cfg FsNone [] None false deadline (f, ms) = ((f', ms ++ [kModeAbort]), true, Some (Unexpected (Aborted TimedOut)))) /\
    chan f' = ChIdle /\ f_mode f' = (if f_clock f + (Z.of_nat n - 1) * pollInterval cfg <? deadline then f_mode f else f_mode f').
Proof.
  intros Hp. induction n as [|n IH]; intros fuel f ms l Hl Hc Hf Ha; (destruct fuel as [|fuel]; [lia|]).
  - exists (set_chan f ChIdle). rewrite (poll_terminal _ _ _ _ _ _ _ l) by done. destruct (_ <? _); split_and!; auto.
  - cbn [poll fst snd os_response fw_drive]. rewrite Hc. cbn -[poll Z.of_nat Z.mul Z.sub].
    destruct (Z.leb_spec deadline (f_clock f)) as [Hd|Hd].
    + destruct (poll_abort_confirmed cfg TimedOut (f_clock f + abortTimeout cfg) Hp (f_abort f) fuel
        (mk_fw 3 (ChRunning (f_abort f) aborted) (f_clock f + pollInterval cfg) (f_idle f) (f_reply f) (f_delay f) (f_abort f)) (ms ++ [kModeAbort]))
        as (f' & E & Hi); [done|cbn; lia|cbn; lia|].
      exists f'. rewrite (proj2 (Z.ltb_ge _ _)) by nia. split_and!; [right; exact E|done..].
    + specialize (IH fuel (mk_fw (f_mode f) (ChRunning n l) (f_clock f + pollInterval cfg) (f_idle f) (f_reply f) (f_delay f) (f_abort f)) ms l Hl eq_refl).
      cbn [f_clock f_abort f_mode] in IH.
      replace (f_clock f + pollInterval cfg + (Z.of_nat n - 1) * pollInterval cfg)
        with (f_clock f + (Z.of_nat (S n) - 1) * pollInterval cfg) in IH by lia.
      destruct IH as (f' & E & Hi & Hm); [lia|done|]. exists f'. destruct (Z.ltb_spec (f_clock f + (Z.of_nat (S n) - 1) * pollInterval cfg) deadline);
        [split_and!; done|]. destruct E as [->|E]; [lia|]. split_and!; [by right|done..].
Qed.

(** C18: on a firmware that follows the channel's rules, in whatever mode it was left and whatever answer of an earlier command
    lies unread, a command gets its own answer, and exactly when the firmware takes at most the timeout for it; otherwise it is
    aborted and reported as timed out. Either way the channel is idle and executing commands again afterwards. When another
    command still runs, the write is refused, reported as such, and the other command runs on; if it finishes in between, its
    answer is consumed by the read that tells which. *)
Theorem command_own_verdict cfg c f fuel ms :
  length c = 8%nat -> 0 <= pollInterval cfg -> 0 < timeout cfg -> terminal (f_reply f c) ->
  (f_delay f c + f_abort f + 1 < fuel)%nat -> Z.of_nat (f_abort f) * pollInterval cfg < abortTimeout cfg ->
  exists f', match chan f with
    | ChRunning (S (S n)) l =>
        runOsCommand fuel c cfg FsNone (f, ms) = ((f', ms ++ [0]), Some (Unexpected (WriteRefused [] true))) /\ chan f' = ChRunning n l
    | ChRunning 1 l =>
        runOsCommand fuel c cfg FsNone (f, ms) =
          ((f', ms ++ [0]), Some (Unexpected (WriteRefused [] (match l with b :: _ => b =? kExecuting | [] => false end)))) /\ chan f' = ChIdle
    | _ =>
        runOsCommand fuel c cfg FsNone (f, ms) =
          (if (Z.of_nat (f_delay f c) - 1) * pollInterval cfg <? timeout cfg
           then ((f', ms ++ [0]), Some (Value (decodeResponse (f_reply f c))))
           else ((f', ms ++ [0; 3; 0]), Some (Unexpected (Aborted TimedOut)))) /\
        chan f' = ChIdle /\ f_mode f' = 0
    end.
Proof.
  intros Hc Hp Ht Hterm Hfuel Habort.
  set (g := mk_fw 0 (ChRunning (f_delay f c) (f_reply f c)) (f_clock f) (f_idle f) (f_reply f) (f_delay f) (f_abort f)).
  destruct (poll_fw cfg (f_clock f + timeout cfg) Hp (f_delay f c) fuel g (ms ++ [0]) (f_reply f c)) as (f' & E & Hi & Hm);
    [done|done|cbn; lia|cbn; lia|].
  assert (Hidle : chan f = ChIdle \/ (exists l, chan f = ChUnread l) \/ (exists l, chan f = ChRunning 0 l) -> exists f'',
    runOsCommand fuel c cfg FsNone (f, ms) =
      (if (Z.of_nat (f_delay f c) - 1) * pollInterval cfg <? timeout cfg
       then ((f'', ms ++ [0]), Some (Value (decodeResponse (f_reply f c))))
       else ((f'', ms ++ [0; 3; 0]), Some (Unexpected (Aborted TimedOut)))) /\ chan f'' = ChIdle /\ f_mode f'' = 0).
  { intros Hch.
    assert (Er : runOsCommand fuel c cfg FsNone (f, ms) =
      let '(w, armed, r) := poll fuel cfg FsNone [] None false (f_clock f + timeout cfg) (g, ms ++ [0]) in (restore armed w, r)).
    { unfold runOsCommand. rewrite Hc. destruct Hch as [Hch|[[l Hch]|[l Hch]]]; cbn -[poll]; repeat (rewrite Hch; cbn -[poll]); reflexivity. }
    rewrite Er. cbn [f_clock g f_mode] in E, Hm.
    replace (f_clock f + (Z.of_nat (f_delay f c) - 1) * pollInterval cfg <? f_clock f + timeout cfg)
      with ((Z.of_nat (f_delay f c) - 1) * pollInterval cfg <? timeout cfg) in E, Hm by (apply eq_true_iff_eq; rewrite !Z.ltb_lt; lia).
    destruct (Z.ltb_spec ((Z.of_nat (f_delay f c) - 1) * pollInterval cfg) (timeout cfg)) as [Hlt|Hge].
    - rewrite E. exists f'. by split_and!.
    - destruct E as [E|E]; [exfalso; rewrite E in Hge; nia|]. rewrite E.
      exists (mk_fw 0 (chan f') (f_clock f') (f_idle f') (f_reply f') (f_delay f') (f_abort f')). cbn. rewrite Hi, <- !app_assoc. by split_and!. }
  destruct (chan f) as [|l|[|[|n]] l] eqn:Hch;
    [apply Hidle; by left|apply Hidle; right; left; by exists l|apply Hidle; right; right; by exists l| |].
  - exists (set_chan (mk_fw 0 ChIdle (f_clock f) (f_idle f) (f_reply f) (f_delay f) (f_abort f)) ChIdle).
    unfold runOsCommand. rewrite Hc. cbn -[poll]. repeat (rewrite Hch; cbn -[poll]). split; reflexivity.
  - exists (mk_fw 0 (ChRunning n l) (f_clock f) (f_idle f) (f_reply f) (f_delay f) (f_abort f)).
    unfold runOsCommand. rewrite Hc. cbn -[poll]. repeat (rewrite Hch; cbn -[poll]). split; reflexivity.
Qed.

(** ** Examples *)
Definition polling : OsCommandConfig := mk_config 1000 10 100.
Definition spin_up : bytes := [7; 0; 0; 0; 0; 0; 0; 0].
Definition stale_fw : fw := mk_fw 3 (ChUnread [0; 0; 0; 0; 0; 0; 0; 0]) 0 (replicate 8 0) (fun _ => [1; 0; 5; 0; 0; 0; 0; 0]) (fun _ => 3%nat) 2.

Lemma command_own_verdict_witness : exists f',
  runOsCommand 20 spin_up polling FsNone (stale_fw, []) = ((f', [0]), Some (Value (mk_response CompletedWithData [5; 0; 0; 0; 0; 0] None []))).
Proof.
  destruct (command_own_verdict polling spin_up stale_fw 20 []) as (f' & E & _); [done|done|done|split; cbn; lia|cbn; lia|done|].
  exists f'. exact E.
Defined.

Lemma mode_restored_witness : (runOsCommand 200 spin_up (mk_config 20 10 100) FsNone (set_chan stale_fw ChIdle, [])).1.2 = [0] \/
  (runOsCommand 200 spin_up (mk_config 20 10 100) FsNone (set_chan stale_fw ChIdle, [])).1.2 = [0; 3; 0].
Proof.
  refine (mode_restored 200 spin_up (mk_config 20 10 100) FsNone (set_chan stale_fw ChIdle, []) _ _ _).
  vm_compute. reflexivity.
Defined.

#[export] Instance fw_clock : SteadyClock f_clock 10.
Proof.
  split; cbn; try lia; try done. intros d. destruct (chan d) as [|l|[|n] l]; cbn; lia.
Qed.

Lemma command_returns_witness : is_Some (runOsCommand 1102 spin_up polling FsNone (stale_fw, [])).2.
Proof.
  refine (command_returns f_clock polling (Hclock := fw_clock) spin_up FsNone (stale_fw, []) 1102 _ _ _ _ _); [done|done| | |done].
  - intros c d. cbn. destruct (chan d); cbn; [destruct (f_mode d =? 0); cbn; lia|lia|lia].
  - intros l d. cbn. lia.
Defined.

(** ** The layouts the drive reads *)
Lemma request_length sets : length (request sets) = 8%nat.
Proof.
  unfold request. assert (Hl : length (replicate kOsCommandSize 0) = 8%nat) by reflexivity. revert Hl.
  generalize (replicate kOsCommandSize 0). induction sets as [|s sets IH]; intros l Hl; [exact Hl|].
  cbn. apply IH. by rewrite length_insert.
Qed.
End Os.
