(* ===== verification/SomanetFiles.v ===== *)
(** * Files and bulk transfers of a SOMANET drive ([libs/node/somanet_drive.cc])

    The file list a drive serves as a pseudo-file ([parseDeviceFileList]), the recording it leaves in
    numbered files ([readHrdRecording]), and the transfer that carries every object dictionary value
    in one read ([decodeObjectDictionaryValues]). The file transfer itself is an interface. *)

From stdpp Require Import sorting.
From S2P Require Import Prelude Util Driver DeviceParameter Cia402 OsCommand.

Module Files.
Import Util.

(** ** The file list *)
Definition blank (c : Z) : bool := (c =? 32) || (c =? 9).

Fixpoint skipSpace (l : text) : text :=
  match l with
  | [] => []
  | c :: l' => if blank c then skipSpace l' else l
  end.

(** [s.substr(0, s.find_last_not_of(blanks) + 1)] *)
Definition trimRight (l : text) : text := reverse (skipSpace (reverse l)).

(** [starts_with], with what follows the prefix. *)
Fixpoint after_prefix (p l : text) : option text :=
  match p, l with
  | [], _ => Some l
  | a :: p', c :: l' => if a =? c then after_prefix p' l' else None
  | _ :: _, [] => None
  end.

Definition ends_with (l s : text) : bool := bool_decide (drop (length l - length s) l = s).

Definition kSizeLabel : text := codes "size:".

Definition parseFileSizeSuffix (tail : text) : option Z :=
  match after_prefix kSizeLabel (skipSpace tail) with
  | None => None
  | Some tail =>
      match Util.from_chars 64 10 (skipSpace tail) with
      | None => None
      | Some (size, p) => match skipSpace p with [] => Some size | _ => None end
      end
  end.

Record DeviceFile := mk_file { name : text; byteCount : option Z }.

(** The loop over the commas of a line: the first one a size follows. [before] is what precedes, reversed. *)
Fixpoint find_size (before line : text) : option (text * Z) :=
  match line with
  | [] => None
  | c :: line' =>
      match (if c =? 44 then parseFileSizeSuffix line' else None) with
      | Some size => Some (reverse before, size)
      | None => find_size (c :: before) line'
      end
  end.

Definition parse_line (line : text) : DeviceFile :=
  match find_size [] line with
  | Some (nm, size) => mk_file (match trimRight nm with [] => nm | t => t end) (Some size)
  | None => mk_file line None
  end.

(** The pieces between newlines; an empty text has none. *)
Fixpoint lines (l : text) : list text :=
  match l with
  | [] => []
  | c :: l' =>
      if c =? 10 then [] :: lines l'
      else match lines l' with [] => [[c]] | x :: xs => (c :: x) :: xs end
  end.

Definition drop_cr (line : text) : text :=
  match last line with Some 13 => removelast line | _ => line end.

Fixpoint parse_lines (ls : list text) : list DeviceFile :=
  match ls with
  | [] => []
  | line :: ls' =>
      match skipSpace (drop_cr line) with
      | [] => parse_lines ls'
      | trimmed => parse_line (trimRight trimmed) :: parse_lines ls'
      end
  end.

Definition parseDeviceFileList (l : text) : list DeviceFile := parse_lines (lines l).

(** ** Files over FoE *)
Inductive FoeErrorKind := FileNotFound | OtherFoe.

Class FileDevice (D : Type) := {
  fd_readFile : text -> option Z -> D -> D * expected (FoeErrorKind * text) bytes;   (* name, timeout in seconds *)
}.

Inductive FileError := ListFailed (e : text) | RemoveFailed (e : text) | NoRecording | ChunkFailed (nm : text) (e : text).

Definition kFileListName : text := codes "fs-getlist".
Definition kRemoveFileName : text := codes "fs-remove=".
Definition kEsiFileName : text := codes "SOMANET_CiA_402.xml.zip".

Section Reading.
Context {D : Type} `{FileDevice D}.

Definition readFileList (d : D) : D * expected FileError (list DeviceFile) :=
  let '(d, listing) := fd_readFile kFileListName None d in
  (d, match listing with Unexpected e => Unexpected (ListFailed e.2) | Value l => Value (parseDeviceFileList l) end).

Definition removeDeviceFile (filename : text) (d : D) : D * expected FileError unit :=
  let timeout := if bool_decide (filename = kEsiFileName) then 30 else 10 in
  let '(d, removed) := fd_readFile (kRemoveFileName ++ filename) (Some timeout) d in
  (d, match removed with
      | Value _ | Unexpected (FileNotFound, _) => Value tt
      | Unexpected (_, e) => Unexpected (RemoveFailed e)
      end).

(** ** High resolution data *)
Inductive HrdData := kEncoderRawData | kSystemIdentificationData.

Definition hrdSampleSize (data : HrdData) : nat := match data with kEncoderRawData => 4 | kSystemIdentificationData => 6 end.

(** A velocity is kept as the Q15 integer it is decoded from: the double is that integer divided by [2^15], which is exact. *)
Inductive HrdSample :=
  | EncoderSample (raw masterCount noniusCount : Z)
  | SystemIdentificationSample (velocityQ15 torquePermil : Z).

Definition kHrdTrackMask : Z := 0x3FFF.
Definition kHrdNoniusShift : Z := 14.

Definition word_at (l : bytes) (i : nat) : Z :=
  Z.lor (Z.lor (Z.lor (byte_at l i) (Z.shiftl (byte_at l (i + 1)) 8)) (Z.shiftl (byte_at l (i + 2)) 16)) (Z.shiftl (byte_at l (i + 3)) 24).

Definition decode_sample (data : HrdData) (l : bytes) (at_ : nat) : HrdSample :=
  match data with
  | kEncoderRawData =>
      let raw := word_at l at_ in
      EncoderSample raw (u16 (Z.land raw kHrdTrackMask)) (u16 (Z.land (Z.shiftr raw kHrdNoniusShift) kHrdTrackMask))
  | kSystemIdentificationData =>
      SystemIdentificationSample (swrap 32 (word_at l at_))
        (swrap 16 (u16 (Z.lor (byte_at l (at_ + 4)) (Z.shiftl (byte_at l (at_ + 5)) 8))))
  end.

Definition decodeHrdSamples (l : bytes) (data : HrdData) : list HrdSample :=
  let sampleSize := hrdSampleSize data in
  (fun i => decode_sample data l (i * sampleSize)) <$> seq 0 (length l / sampleSize).

Definition hrdFileIndex (nm : text) : option Z :=
  match after_prefix (codes "hr_data") nm with
  | None => None
  | Some _ =>
      if negb (ends_with nm (codes ".bin")) then None
      else
        let digits := slice 7 (length nm - 7 - 4) nm in
        match digits with
        | [] => None
        | _ => match Util.from_chars 32 10 digits with Some (index, []) => Some index | _ => None end
        end
  end.

Record HrdRecording := mk_recording {
  hr_data : HrdData; hr_files : list DeviceFile; hr_byteCount : nat; hr_trailingBytes : nat; hr_samples : list HrdSample }.

(** The order of the recorded files. [std::ranges::sort] leaves the order of equal indices open; here they keep the list's. *)
Definition by_index : relation (Z * DeviceFile) := fun a b => a.1 <= b.1.
#[local] Instance by_index_dec a b : Decision (by_index a b).
Proof. unfold by_index; apply _. Defined.

Definition recorded_files (listing : list DeviceFile) : list (Z * DeviceFile) :=
  merge_sort by_index (omap (fun f => (fun i => (i, f)) <$> hrdFileIndex (name f)) listing).

Fixpoint read_chunks (files : list (Z * DeviceFile)) (d : D) : D * expected FileError bytes :=
  match files with
  | [] => (d, Value [])
  | (_, f) :: files' =>
      let '(d, content) := fd_readFile (name f) None d in
      match content with
      | Unexpected e => (d, Unexpected (ChunkFailed (name f) e.2))
      | Value l =>
          let '(d, rest) := read_chunks files' d in
          (d, match rest with Value k => Value (l ++ k) | Unexpected e => Unexpected e end)
      end
  end.

Definition readHrdRecording (data : HrdData) (d : D) : D * expected FileError HrdRecording :=
  let '(d, listing) := readFileList d in
  match listing with
  | Unexpected e => (d, Unexpected e)
  | Value listing =>
      let recorded := recorded_files listing in
      match recorded with
      | [] => (d, Unexpected NoRecording)
      | _ =>
          let '(d, content) := read_chunks recorded d in
          (d, match content with
              | Unexpected e => Unexpected e
              | Value l => Value (mk_recording data recorded.*2 (length l) (length l mod hrdSampleSize data) (decodeHrdSamples l data))
              end)
      end
  end.
End Reading.

(** ** The file list is read back as it was written *)
Lemma skipSpace_in c l : blank c = false -> c ∈ l -> c ∈ skipSpace l.
Proof.
  intros Hc. induction l as [|d l IH]; [done|]. cbn. intros Hin. destruct (blank d) eqn:Hb; [|done].
  apply elem_of_cons in Hin as [->|Hin]; [congruence|auto].
Qed.

Lemma skipSpace_head c l : blank c = false -> skipSpace (c :: l) = c :: l.
Proof. intros Hc. cbn. by rewrite Hc. Qed.

Lemma trimRight_last l c : blank c = false -> trimRight (l ++ [c]) = l ++ [c].
Proof. intros Hc. unfold trimRight. rewrite reverse_snoc, skipSpace_head by done. by rewrite reverse_cons, reverse_involutive. Qed.

Lemma after_prefix_app p l : after_prefix p (p ++ l) = Some l.
Proof. induction p as [|a p IH]; [done|]. cbn. by rewrite Z.eqb_refl. Qed.

Lemma after_prefix_Some p l t : after_prefix p l = Some t -> l = p ++ t.
Proof.
  revert l. induction p as [|a p IH]; intros l; [by intros [= ->]|]. destruct l as [|c l]; [done|]. cbn.
  destruct (Z.eqb_spec a c) as [->|]; [|done]. intros E. by rewrite (IH _ E).
Qed.

Lemma digits_prefix_split acc l v rest : Util.digits_prefix 10 acc l = (v, rest) ->
  exists ds, l = ds ++ rest /\ Forall (fun c => 0 <= Util.digit c) ds.
Proof.
  revert acc. induction l as [|c l IH]; intros acc E; cbn in E; [injection E as <- <-; by exists []|].
  destruct (Z.leb_spec 0 (Util.digit c)); cbn in E; [|injection E as <- <-; by exists []].
  destruct (Util.digit c <? 10); [|injection E as <- <-; by exists []].
  destruct (IH _ E) as (ds & -> & Hd). exists (c :: ds). by split; [|constructor].
Qed.

(** What follows a comma of the name still holds the comma before the size, so it is not a size. *)
Lemma size_no_comma tail : 44 ∈ tail -> parseFileSizeSuffix tail = None.
Proof.
  intros Hin. apply (skipSpace_in 44) in Hin; [|done]. unfold parseFileSizeSuffix.
  destruct (after_prefix kSizeLabel (skipSpace tail)) as [t|] eqn:Ep; [|done]. apply after_prefix_Some in Ep. rewrite Ep in Hin.
  apply elem_of_app in Hin as [Hin|Hin]; [vm_compute in Hin; exfalso; set_solver|]. apply (skipSpace_in 44) in Hin; [|done].
  destruct (Util.from_chars 64 10 (skipSpace t)) as [[v rest]|] eqn:Ef; [|done].
  assert (Hr : 44 ∈ rest).
  { unfold Util.from_chars in Ef. destruct (skipSpace t) as [|c l]; [done|]. destruct (_ && _); [|done].
    destruct (Util.digits_prefix 10 0 (c :: l)) as [v' rest'] eqn:Ed. destruct (v' <? 2 ^ 64); [|done]. injection Ef as <- <-.
    apply digits_prefix_split in Ed as (ds & E & Hd). rewrite E in Hin. apply elem_of_app in Hin as [Hin|]; [|done].
    rewrite Forall_forall in Hd. specialize (Hd _ Hin). by cbn in Hd. }
  apply (skipSpace_in 44) in Hr; [|done]. destruct (skipSpace rest); [by apply not_elem_of_nil in Hr|done].
Qed.

Lemma find_size_app before nm tail size : parseFileSizeSuffix tail = Some size ->
  find_size before (nm ++ 44 :: tail) = Some (reverse before ++ nm, size).
Proof.
  intros Ht. revert before. induction nm as [|c nm IH]; intros before; cbn [app find_size].
  - by rewrite Z.eqb_refl, Ht, app_nil_r.
  - assert (E : (if c =? 44 then parseFileSizeSuffix (nm ++ 44 :: tail) else None) = None).
    { destruct (c =? 44); [|done]. apply size_no_comma. set_solver. }
    rewrite E, IH. by rewrite reverse_cons, <- app_assoc.
Qed.

(** The listing as the drive formats it: [<filename>, size: <bytes>] a line, or the name alone. *)
Definition line_of (f : DeviceFile) : text :=
  name f ++ (match byteCount f with Some n => codes ", size: " ++ decimal n | None => [] end).
Definition listing_of (crlf : bool) (files : list DeviceFile) : text :=
  concat ((fun f => line_of f ++ (if crlf then [13] else []) ++ [10]) <$> files).

Definition blank_free_ends (l : text) : Prop :=
  match head l, last l with Some a, Some b => blank a = false /\ blank b = false /\ b <> 13 | _, _ => False end.

(** A name that a listing can carry; one listed without a size must not look like one listed with a size. *)
Definition listable (f : DeviceFile) : Prop :=
  (10 ∉ name f) /\ blank_free_ends (name f) /\
  match byteCount f with Some n => in_u 64 n | None => find_size [] (name f) = None end.

Lemma lines_app l rest : 10 ∉ l -> lines (l ++ [10] ++ rest) = l :: lines rest.
Proof.
  induction l as [|c l IH]; intros Hn; [done|]. rewrite not_elem_of_cons in Hn. destruct Hn as [Hc Hn]. cbn [app lines].
  rewrite (proj2 (Z.eqb_neq c 10)) by done. cbn [app] in IH. by rewrite IH.
Qed.

Lemma drop_cr_line l crlf : last l <> Some 13 -> drop_cr (l ++ (if crlf : bool then [13] else [])) = l.
Proof.
  intros Hl. unfold drop_cr. destruct crlf.
  - by rewrite last_snoc, removelast_last.
  - rewrite app_nil_r. destruct (last l) as [z|] eqn:E; [|done].
    destruct (decide (z = 13)) as [->|Hz]; [done|]. destruct z as [|z|z]; [done| |done].
    do 4 (destruct z as [z|z|]; try done).
Qed.

Lemma line_of_ends f : listable f -> blank_free_ends (line_of f) /\ 10 ∉ line_of f.
Proof.
  intros (Hn & He & Hs). unfold line_of. destruct (byteCount f) as [n|]; [|by rewrite app_nil_r].
  destruct (decimal_spec n Hs) as (ds & -> & Hd & Hne & _). split.
  - unfold blank_free_ends in *. destruct (name f) as [|a nm]; [done|]. cbn [head app] in *. destruct (last (a :: nm)) as [b|]; [|done].
    destruct He as (Ha & _). destruct (exists_last Hne) as (ds' & d & ->).
    rewrite app_comm_cons, !app_assoc, last_snoc. apply Forall_app in Hd as [_ Hd]. apply Forall_cons in Hd as [Hd _].
    unfold blank, is_digit in *. split_and!; [done| |lia]. apply orb_false_iff. lia.
  - rewrite !not_elem_of_app. split_and!; [done| |]; [vm_compute; intros Hin; set_solver|].
    rewrite Forall_forall in Hd. intros Hin. specialize (Hd _ Hin). unfold is_digit in Hd. lia.
Qed.

Lemma skipSpace_ends l : blank_free_ends l -> skipSpace l = l /\ trimRight l = l /\ last l <> Some 13 /\ l <> [].
Proof.
  unfold blank_free_ends. destruct l as [|a l]; [done|]. cbn [head]. destruct (last (a :: l)) as [b|] eqn:El; [|done].
  intros (Ha & Hb & Hb'). split_and!; [by apply skipSpace_head| |congruence|done].
  apply last_Some in El as [l' ->]. by apply trimRight_last.
Qed.

Lemma size_suffix n : in_u 64 n -> parseFileSizeSuffix (codes " size: " ++ decimal n) = Some n.
Proof.
  intros Hn. pose proof (from_chars_decimal 64 n ltac:(lia) Hn) as Hf. unfold parseFileSizeSuffix.
  destruct (decimal_spec n Hn) as (ds & E & Hd & Hne & _). rewrite E in *. destruct ds as [|c ds]; [done|].
  change (skipSpace (codes " size: " ++ c :: ds)) with (kSizeLabel ++ 32 :: c :: ds). rewrite after_prefix_app.
  apply Forall_cons in Hd as [Hc _]. unfold is_digit in Hc.
  assert (Hb : blank c = false) by (apply orb_false_iff; lia). change (skipSpace (32 :: c :: ds)) with (skipSpace (c :: ds)).
  rewrite skipSpace_head, Hf by done. done.
Qed.

Lemma parse_line_of f : listable f -> parse_line (line_of f) = f.
Proof.
  intros (Hn & He & Hs). unfold parse_line, line_of. destruct f as [nm [n|]]; cbn [name byteCount] in *.
  - change (codes ", size: ") with (44 :: codes " size: "). cbn [app].
    rewrite (find_size_app [] nm _ n) by (by apply size_suffix). cbn [reverse app].
    destruct (skipSpace_ends _ He) as (_ & Ht & _ & Hne). change (reverse [] ++ nm) with nm. rewrite Ht. by destruct nm.
  - by rewrite app_nil_r, Hs.
Qed.

Lemma parse_listing crlf files : Forall listable files -> parseDeviceFileList (listing_of crlf files) = files.
Proof.
  intros Hf. unfold parseDeviceFileList, listing_of. induction Hf as [|f files Hl Hf IH]; [done|]. cbn [fmap list_fmap concat].
  destruct (line_of_ends f Hl) as [He Hn]. destruct (skipSpace_ends _ He) as (Hs & Ht & Hcr & Hne).
  rewrite app_assoc, <- app_assoc, lines_app.
  2:{ rewrite not_elem_of_app. split; [done|]. destruct crlf; set_solver. }
  cbn [parse_lines]. rewrite drop_cr_line by done. rewrite Hs. destruct (line_of f) as [|c l] eqn:El; [done|].
  rewrite Ht, <- El, parse_line_of by done. f_equal. exact IH.
Qed.

(** A file list is read back as it was written: [parseDeviceFileList] of a listing the drive formats, with either line ending
    and whatever commas the names hold, is exactly the listed files with their sizes, in the listed order. *)
Theorem file_list_roundtrip crlf files : Forall listable files -> parseDeviceFileList (listing_of crlf files) = files.
Proof. apply parse_listing. Qed.

Lemma file_list_roundtrip_witness :
  parseDeviceFileList (listing_of true [mk_file (codes "a, size: 1,b") (Some 12); mk_file (codes ".variant") None]) =
    [mk_file (codes "a, size: 1,b") (Some 12); mk_file (codes ".variant") None].
Proof.
  apply (file_list_roundtrip true).
  repeat constructor; first [by vm_compute|lia|apply (bool_decide_unpack _); by vm_compute].
Defined.

(** ** A recording is reassembled

    A drive whose flash holds [files] and which lists them in that order. *)
Record flash := mk_flash { fl_crlf : bool; fl_files : list (text * bytes) }.

Fixpoint content_of (files : list (text * bytes)) (nm : text) : option bytes :=
  match files with
  | [] => None
  | (n, l) :: files' => if bool_decide (n = nm) then Some l else content_of files' nm
  end.

Definition file_of (e : text * bytes) : DeviceFile := mk_file e.1 (Some (Z.of_nat (length e.2))).

#[export] Instance flash_device : FileDevice flash := {
  fd_readFile nm _ d :=
    (d, if bool_decide (nm = kFileListName) then Value (listing_of (fl_crlf d) (file_of <$> fl_files d))
        else match content_of (fl_files d) nm with Some l => Value l | None => Unexpected (FileNotFound, []) end) }.

Definition hrd_name (i : Z) : text := codes "hr_data" ++ decimal i ++ codes ".bin".
(** The files of a recording cut into [chunks]. *)
Definition recording_files (chunks : list bytes) : list (text * bytes) := imap (fun i l => (hrd_name (Z.of_nat i), l)) chunks.

Definition encode_sample (s : HrdSample) : bytes :=
  match s with
  | EncoderSample raw _ _ => le_bytes 4 raw
  | SystemIdentificationSample v t => le_bytes 4 v ++ le_bytes 2 t
  end.

Definition sample_ok (data : HrdData) (s : HrdSample) : Prop :=
  match data, s with
  | kEncoderRawData, EncoderSample raw m n => in_u 32 raw /\ m = raw mod 2 ^ 14 /\ n = (raw / 2 ^ 14) mod 2 ^ 14
  | kSystemIdentificationData, SystemIdentificationSample v t => in_s 32 v /\ in_s 16 t
  | _, _ => False
  end.

Lemma hrdFileIndex_name i : in_u 32 i -> hrdFileIndex (hrd_name i) = Some i.
Proof.
  intros Hi. pose proof (from_chars_decimal 32 i ltac:(lia) Hi) as Hf. unfold hrdFileIndex, hrd_name. rewrite after_prefix_app.
  assert (Hlen : length (codes "hr_data" ++ decimal i ++ codes ".bin") = (7 + length (decimal i) + 4)%nat) by (rewrite !length_app; cbn; lia).
  unfold ends_with. rewrite Hlen, bool_decide_true.
  2:{ rewrite app_assoc, drop_app_length'; [done|]. rewrite length_app. cbn. lia. }
  cbn [negb]. unfold slice. rewrite drop_app_length' by done.
  replace (7 + length (decimal i) + 4 - 7 - 4)%nat with (length (decimal i)) by lia. rewrite take_app_length, Hf.
  unfold Util.from_chars in Hf. by destruct (decimal i).
Qed.

Lemma slice_bytes l i n : (i + n <= length l)%nat -> slice i n l = (fun j => byte_at l (i + j)) <$> seq 0 n.
Proof.
  intros Hl. apply list_eq. intros j. rewrite list_lookup_fmap. destruct (decide (j < n)%nat) as [Hj|Hj].
  - rewrite lookup_slice, lookup_seq_lt by done. cbn. unfold byte_at.
    destruct (lookup_lt_is_Some_2 l (i + j)) as [b Hb]; [lia|]. by rewrite Hb.
  - rewrite !(proj2 (lookup_ge_None _ _)); [done|rewrite length_seq; lia|rewrite length_slice by done; lia].
Qed.

Lemma word_at_value l i : bytes_ok l -> (i + 4 <= length l)%nat -> word_at l i = le_value (slice i 4 l).
Proof.
  intros Hb Hl. unfold word_at. pose proof (byte_at_ok l i Hb) as H0. pose proof (byte_at_ok l (i + 1) Hb) as H1.
  pose proof (byte_at_ok l (i + 2) Hb) as H2. pose proof (byte_at_ok l (i + 3) Hb) as H3. unfold in_u in *.
  rewrite (lor_shiftl_add (byte_at l i) _ 8), (lor_shiftl_add _ (byte_at l (i + 2)) 16), (lor_shiftl_add _ (byte_at l (i + 3)) 24)
    by (unfold in_u; lia).
  rewrite slice_bytes by done. cbn [seq fmap list_fmap le_value]. rewrite Nat.add_0_r. lia.
Qed.

Lemma half_at_value l i : bytes_ok l -> (i + 2 <= length l)%nat ->
  Z.lor (byte_at l i) (Z.shiftl (byte_at l (i + 1)) 8) = le_value (slice i 2 l).
Proof.
  intros Hb Hl. pose proof (byte_at_ok l i Hb) as H0. rewrite lor_shiftl_add by (done || lia).
  rewrite slice_bytes by done. cbn [seq fmap list_fmap le_value]. rewrite Nat.add_0_r. lia.
Qed.

Lemma track n k : 0 <= n -> 0 <= k -> u16 (Z.land (Z.shiftr n k) kHrdTrackMask) = (n / 2 ^ k) mod 2 ^ 14.
Proof.
  intros Hn Hk. change kHrdTrackMask with (Z.ones 14). rewrite Z.land_ones, Z.shiftr_div_pow2 by lia.
  apply uwrap_id. unfold in_u. pose proof (Z.mod_pos_bound (n / 2 ^ k) (2 ^ 14)). lia.
Qed.

Lemma length_encode data s : sample_ok data s -> length (encode_sample s) = hrdSampleSize data.
Proof. by destruct data, s. Qed.

Lemma encode_sample_ok s : bytes_ok (encode_sample s).
Proof. destruct s; [|apply bytes_ok_app]; apply le_bytes_ok. Qed.

(** A sample decodes to itself wherever it stands. *)
Lemma decode_encoded data s pre post : sample_ok data s -> bytes_ok pre -> bytes_ok post ->
  decode_sample data (pre ++ encode_sample s ++ post) (length pre) = s.
Proof.
  intros Hs Hpre Hpost. pose proof (encode_sample_ok s) as He.
  assert (Hb : bytes_ok (pre ++ encode_sample s ++ post)) by (repeat apply bytes_ok_app; done).
  assert (Hsl : forall k n, slice (length pre + k) n (pre ++ encode_sample s ++ post) = slice k n (encode_sample s ++ post)).
  { intros k n. unfold slice. by rewrite drop_app_add. }
  pose proof (Hsl 0%nat 4%nat) as Hsl0. rewrite Nat.add_0_r in Hsl0.
  destruct data, s as [raw m n|v t]; try done; cbn [sample_ok encode_sample] in *; unfold decode_sample;
    rewrite word_at_value by (done || (rewrite !length_app; cbn; lia)); rewrite Hsl0.
  - destruct Hs as (Hr & -> & ->). assert (E : slice 0 4 (le_bytes 4 raw ++ post) = le_bytes 4 raw) by done.
    rewrite E, le_value_bytes, uwrap_id by done. destruct Hr. f_equal; [|by apply track].
    pose proof (track raw 0) as T. rewrite Z.shiftr_0_r in T. change (2 ^ 0) with 1 in T. rewrite Z.div_1_r in T. by apply T.
  - destruct Hs as [Hv Ht]. assert (E : slice 0 4 ((le_bytes 4 v ++ le_bytes 2 t) ++ post) = le_bytes 4 v) by done.
    assert (E2 : slice 4 2 ((le_bytes 4 v ++ le_bytes 2 t) ++ post) = le_bytes 2 t) by done.
    rewrite E, le_value_bytes. replace (length pre + 5)%nat with (length pre + 4 + 1)%nat by lia.
    rewrite half_at_value by (done || (rewrite !length_app; cbn; lia)). rewrite Hsl, E2, le_value_bytes.
    unfold u16. rewrite (uwrap_id 16) by (apply uwrap_range; lia). f_equal; by apply swrap_uwrap.
Qed.

Definition encode_samples (samples : list HrdSample) : bytes := concat (encode_sample <$> samples).

Lemma encode_samples_ok samples : bytes_ok (encode_samples samples).
Proof. induction samples; [constructor|]. apply bytes_ok_app; [apply encode_sample_ok|done]. Qed.

Lemma length_encode_samples data samples : Forall (sample_ok data) samples ->
  length (encode_samples samples) = (length samples * hrdSampleSize data)%nat.
Proof. induction 1 as [|s samples Hs _ IH]; [done|]. cbn. rewrite length_app, (length_encode data) by done. unfold encode_samples in IH. lia. Qed.

Lemma hrdSampleSize_pos data : (0 < hrdSampleSize data)%nat.
Proof. destruct data; cbn; lia. Qed.

Lemma decode_samples data samples pad : Forall (sample_ok data) samples -> bytes_ok pad -> (length pad < hrdSampleSize data)%nat ->
  decodeHrdSamples (encode_samples samples ++ pad) data = samples.
Proof.
  intros Hs Hpad Hlt. unfold decodeHrdSamples. pose proof (hrdSampleSize_pos data) as Hp.
  assert (En : (length (encode_samples samples ++ pad) / hrdSampleSize data = length samples)%nat).
  { rewrite length_app, (length_encode_samples data), Nat.div_add_l, Nat.div_small by (done || lia). lia. }
  rewrite En. apply list_eq. intros i. rewrite list_lookup_fmap. destruct (samples !! i) as [s|] eqn:Ei.
  - rewrite lookup_seq_lt by (by eapply lookup_lt_Some). cbn. f_equal.
    rewrite <- (take_drop_middle samples i s Ei). unfold encode_samples. rewrite fmap_app, concat_app. cbn [fmap list_fmap concat].
    rewrite <- !app_assoc.
    replace (i * hrdSampleSize data)%nat with (length (encode_samples (take i samples))).
    2:{ rewrite (length_encode_samples data), length_take by (by apply Forall_take). apply lookup_lt_Some in Ei. lia. }
    apply decode_encoded; [by eapply Forall_lookup_1|apply encode_samples_ok|]. apply bytes_ok_app; [apply encode_samples_ok|done].
  - apply lookup_ge_None in Ei. by rewrite (proj2 (lookup_ge_None _ _)) by (rewrite length_seq; lia).
Qed.

Lemma content_of_in files nm l : NoDup files.*1 -> (nm, l) ∈ files -> content_of files nm = Some l.
Proof.
  induction files as [|[n k] files IH]; intros Hn Hin; [by apply not_elem_of_nil in Hin|]. cbn in Hn. apply NoDup_cons in Hn as [Hh Hn].
  cbn. apply elem_of_cons in Hin as [[= <- <-]|Hin]; [by rewrite bool_decide_true|].
  rewrite bool_decide_false; [by apply IH|]. intros ->. apply Hh, list_elem_of_fmap. by exists (nm, l).
Qed.

(** Files are read in the order given. *)
Lemma read_chunks_content crlf files all : NoDup all.*1 -> Forall (fun e => e ∈ all /\ e.1 <> kFileListName) files ->
  forall indices, length indices = length files ->
  read_chunks (zip indices (file_of <$> files)) (mk_flash crlf all) = (mk_flash crlf all, Value (concat files.*2)).
Proof.
  intros Hn Hf. induction Hf as [|[nm l] files [Hin Hne] _ IH]; intros indices Hi; destruct indices as [|i indices]; try done.
  cbn [fmap list_fmap zip zip_with read_chunks file_of fst snd name fd_readFile flash_device fl_files]. cbn [fst] in Hne.
  rewrite bool_decide_false by done. rewrite (content_of_in all nm l) by done. rewrite IH by (cbn in Hi; lia). done.
Qed.

Lemma by_index_unique (l1 l2 : list (Z * DeviceFile)) : Sorted by_index l1 -> Sorted by_index l2 -> NoDup l1.*1 -> l1 ≡ₚ l2 -> l1 = l2.
Proof.
  intros H1 H2 Hn Hp. assert (Htr : Transitive by_index) by (intros x y z; unfold by_index; lia).
  apply (StronglySorted_unique_strong by_index); [|by apply Sorted_StronglySorted..|done].
  intros x1 x2 Hx1 Hx2 Ha Hb. rewrite <- Hp in Hx2. unfold by_index in *.
  apply list_elem_of_lookup in Hx1 as [i Hi]. apply list_elem_of_lookup in Hx2 as [j Hj].
  assert (i = j) as ->; [|congruence]. eapply (NoDup_lookup l1.*1 i j x1.1); [done|rewrite list_lookup_fmap, Hi; done|].
  rewrite list_lookup_fmap, Hj. cbn. f_equal. lia.
Qed.

Definition indexed (chunks : list bytes) : list (Z * DeviceFile) := imap (fun i l => (Z.of_nat i, file_of (hrd_name (Z.of_nat i), l))) chunks.

Lemma indexed_zip chunks : indexed chunks = zip (imap (fun i _ => Z.of_nat i) chunks) (file_of <$> recording_files chunks).
Proof.
  unfold indexed, recording_files. apply list_eq. intros i. rewrite lookup_zip_with, list_lookup_fmap, !list_lookup_imap.
  by destruct (chunks !! i).
Qed.

Lemma indexed_files chunks : (indexed chunks).*2 = file_of <$> recording_files chunks.
Proof.
  unfold indexed, recording_files. apply list_eq. intros i. rewrite !list_lookup_fmap, !list_lookup_imap. by destruct (chunks !! i).
Qed.

Lemma indexed_lookup chunks i x : indexed chunks !! i = Some x -> x.1 = Z.of_nat i /\ (i < length chunks)%nat.
Proof.
  unfold indexed. rewrite list_lookup_imap. destruct (chunks !! i) as [l|] eqn:E; [|done]. intros [= <-].
  split; [done|by eapply lookup_lt_Some].
Qed.

Lemma indexed_sorted chunks : Sorted by_index (indexed chunks).
Proof.
  unfold indexed. assert (Hg : forall (k : nat) (l : list bytes), Sorted by_index
    (imap (fun i c => (Z.of_nat (k + i), file_of (hrd_name (Z.of_nat (k + i)), c))) l)); [|apply (Hg 0%nat)].
  intros k l. revert k. induction l as [|c l IH]; intros k; [constructor|]. cbn [imap]. constructor.
  - erewrite imap_ext; [apply (IH (S k))|]. intros i x _. cbn. by replace (k + S i)%nat with (S (k + i)) by lia.
  - destruct l; cbn; constructor. unfold by_index. cbn. lia.
Qed.

Lemma indexed_nodup chunks : NoDup (indexed chunks).*1.
Proof.
  apply NoDup_alt. intros i j x Hi Hj. rewrite list_lookup_fmap in Hi, Hj.
  destruct (indexed chunks !! i) as [a|] eqn:Ea; [|done]. destruct (indexed chunks !! j) as [b|] eqn:Eb; [|done].
  apply indexed_lookup in Ea as [Ea _]. apply indexed_lookup in Eb as [Eb _]. cbn in Hi, Hj. assert (Z.of_nat i = Z.of_nat j) by congruence. lia.
Qed.

Lemma omap_recording chunks : Z.of_nat (length chunks) <= 2 ^ 32 ->
  omap (fun f => (fun i => (i, f)) <$> hrdFileIndex (name f)) (file_of <$> recording_files chunks) = indexed chunks.
Proof.
  intros Hl. unfold recording_files, indexed.
  assert (Hg : forall (k : nat) (l : list bytes), Z.of_nat (k + length l) <= 2 ^ 32 ->
    omap (fun f => (fun i => (i, f)) <$> hrdFileIndex (name f)) (file_of <$> imap (fun i c => (hrd_name (Z.of_nat (k + i)), c)) l) =
    imap (fun i c => (Z.of_nat (k + i), file_of (hrd_name (Z.of_nat (k + i)), c))) l); [|by apply (Hg 0%nat)].
  intros k l. revert k. induction l as [|c l IH]; intros k Hk; [done|]. cbn [length] in Hk. cbn [imap fmap list_fmap omap list_omap file_of fst snd name].
  rewrite hrdFileIndex_name by (unfold in_u; lia). cbn [fmap option_fmap option_map]. f_equal.
  assert (Hs : forall A (f : nat -> bytes -> A), imap (f ∘ S) l = imap (fun i => f (S i)) l) by done. rewrite !Hs.
  specialize (IH (S k) ltac:(lia)).
  erewrite (imap_ext (fun i c => (hrd_name (Z.of_nat (k + S i)), c))), (imap_ext (fun i c => (Z.of_nat (k + S i), _))); [exact IH|..];
    intros i x _; cbn; by replace (k + S i)%nat with (S (k + i)) by lia.
Qed.

Lemma omap_others (others : list (text * bytes)) : Forall (fun e => hrdFileIndex e.1 = None) others ->
  omap (fun f => (fun i => (i, f)) <$> hrdFileIndex (name f)) (file_of <$> others) = [].
Proof. induction 1 as [|e others He _ IH]; [done|]. cbn. by rewrite He. Qed.

Lemma recorded_indexed files others chunks : Z.of_nat (length chunks) <= 2 ^ 32 -> files ≡ₚ others ++ recording_files chunks ->
  Forall (fun e => hrdFileIndex e.1 = None) others -> recorded_files (file_of <$> files) = indexed chunks.
Proof.
  intros Hl Hp Ho. symmetry. apply by_index_unique; [apply indexed_sorted| |apply indexed_nodup|].
  - apply Sorted_merge_sort. intros x y. unfold by_index. lia.
  - unfold recorded_files. rewrite merge_sort_Permutation, Hp, fmap_app, omap_app, omap_others, omap_recording by done. done.
Qed.

Lemma hrd_name_listable i l : in_u 64 i -> Z.of_nat (length l) < 2 ^ 64 -> listable (file_of (hrd_name i, l)) /\ hrd_name i <> kFileListName.
Proof.
  intros Hi Hl. split; [|done]. unfold listable, file_of, hrd_name. cbn [fst snd name byteCount].
  destruct (decimal_spec i Hi) as (ds & -> & Hd & _). split_and!; [| |unfold in_u; lia].
  - rewrite !not_elem_of_app. split_and!; [vm_compute; intros Hin; set_solver| |vm_compute; intros Hin; set_solver].
    rewrite Forall_forall in Hd. intros Hin. specialize (Hd _ Hin). unfold is_digit in Hd. lia.
  - unfold blank_free_ends. change (codes ".bin") with (codes ".bi" ++ [110]). rewrite !app_assoc, last_snoc. cbn. done.
Qed.

Lemma recording_listed chunks : Z.of_nat (length chunks) <= 2 ^ 32 -> Forall (fun l => Z.of_nat (length l) < 2 ^ 64) chunks ->
  Forall (fun e => listable (file_of e) /\ e.1 <> kFileListName) (recording_files chunks).
Proof.
  intros Hl Hc. apply Forall_lookup. intros i e. unfold recording_files. rewrite list_lookup_imap.
  destruct (chunks !! i) as [l|] eqn:E; [|done]. intros [= <-]. apply hrd_name_listable; [|by eapply (Forall_lookup_1 _ _ _ _ Hc)].
  apply lookup_lt_Some in E. unfold in_u. lia.
Qed.

Lemma recording_contents chunks : (recording_files chunks).*2 = chunks.
Proof.
  unfold recording_files. apply list_eq. intros i. rewrite list_lookup_fmap, list_lookup_imap. by destruct (chunks !! i).
Qed.

(** C19: a recording is reassembled exactly. A drive that wrote the samples as one byte stream, cut anywhere into numbered files and
    padded, and that lists those files in any order among others, gives back the samples, the files in recording order (the
    tenth after the ninth) and the size of the padding. *)
Theorem recording_reassembled data samples pad chunks others files crlf :
  Forall (sample_ok data) samples -> bytes_ok pad -> (length pad < hrdSampleSize data)%nat ->
  concat chunks = encode_samples samples ++ pad -> chunks <> [] -> Z.of_nat (length chunks) <= 2 ^ 32 ->
  Forall (fun l => Z.of_nat (length l) < 2 ^ 64) chunks ->
  files ≡ₚ others ++ recording_files chunks -> NoDup files.*1 ->
  Forall (fun e => hrdFileIndex e.1 = None /\ listable (file_of e)) others ->
  readHrdRecording data (mk_flash crlf files) =
    (mk_flash crlf files, Value (mk_recording data (file_of <$> recording_files chunks) (length (concat chunks)) (length pad) samples)).
Proof.
  intros Hs Hpad Hlt Hc Hne Hl Hsz Hp Hn Ho. pose proof (recording_listed chunks Hl Hsz) as Hr.
  assert (Hlist : Forall listable (file_of <$> files)).
  { apply Forall_fmap. rewrite Hp. apply Forall_app. split; (eapply Forall_impl; [done|]); [by intros e []|by intros e []]. }
  unfold readHrdRecording, readFileList. cbn [fd_readFile flash_device fl_crlf fl_files]. rewrite bool_decide_true by done.
  rewrite (parse_listing crlf) by done. rewrite (recorded_indexed files others chunks) by (done || (eapply Forall_impl; [done|]; by intros e [])).
  destruct (indexed chunks) as [|x xs] eqn:Ei; [by destruct chunks|]. rewrite <- Ei. clear x xs Ei.
  rewrite indexed_files, indexed_zip, (read_chunks_content crlf (recording_files chunks) files); [|done| |].
  - rewrite recording_contents, Hc, decode_samples by done. do 3 f_equal.
    rewrite length_app, (length_encode_samples data), Nat.add_comm, Nat.Div0.mod_add by done. by apply Nat.mod_small.
  - apply Forall_forall. intros e He. rewrite Forall_forall in Hr. split; [rewrite Hp; set_solver|by apply Hr].
  - unfold recording_files. by rewrite !length_imap.
Qed.

(** *** Three samples in two files, listed backwards *)
Definition two_chunks : list bytes := [[1; 0; 0; 0; 2; 0; 0]; [0; 3; 64; 0; 0; 9]].
Definition shuffled : list (text * bytes) := reverse ((codes ".variant", []) :: recording_files two_chunks).

Lemma recording_reassembled_witness :
  (readHrdRecording kEncoderRawData (mk_flash false shuffled)).2 =
  Value (mk_recording kEncoderRawData (file_of <$> recording_files two_chunks) 13 1
    [EncoderSample 1 1 0; EncoderSample 2 2 0; EncoderSample 16387 3 1]).
Proof.
  rewrite (recording_reassembled kEncoderRawData [EncoderSample 1 1 0; EncoderSample 2 2 0; EncoderSample 16387 3 1] [9] two_chunks
    [(codes ".variant", [])] shuffled false); try reflexivity.
  - repeat constructor; lia.
  - repeat constructor; lia.
  - cbn; lia.
  - done.
  - cbn; lia.
  - repeat constructor; cbn; lia.
  - apply reverse_Permutation.
  - apply (bool_decide_unpack _). by vm_compute.
  - repeat constructor; first [by vm_compute|apply (bool_decide_unpack _); by vm_compute].
Defined.
End Files.
