(* ===== verification/OdValues.v ===== *)
(** * Every object dictionary value in one transfer ([libs/node/somanet_drive.cc])

    OS command 21 leaves the drive's values one after the other in the fs-buffer, without indices or
    widths; [decodeObjectDictionaryValues] cuts them apart by the widths the master's own dictionary
    declares. *)

From S2P Require Import Prelude Util Driver ProcessImage DeviceParameter Cia402 OsCommand.

Module OdValues.
Import Param.

Definition kObjectsOutsideOdValues : list Z := [Image.makeParameterKey 0x10F8 0].

Record ObjectDictionaryValue := mk_value { ov_index : Z; ov_subindex : Z; ov_value : DeviceParameterValue }.
Record ObjectDictionaryValues := mk_values { ov_byteCount : nat; ov_values : list ObjectDictionaryValue }.

Inductive OdError :=
  | NotEnumerated | UnknownWidth (index subindex dataType : Z)
  | RunsOut (size : nat) (index subindex : Z) (width offset : nat)
  | BadValue (index subindex : Z) (e : ParamError) | Leftover (size entries offset : nat)
  | ReadRefused (code : option Z) | ChannelError (e : Os.OsError) | NoAnswer.

Definition objectDictionaryEntryWidth (p : DeviceParameter) : option nat :=
  let scalar := scalarByteWidth (dataType p) in
  if (0 <? scalar)%nat then Some scalar
  else if bitLength p =? 0 then None
  else Some (Z.to_nat ((bitLength p + 7) / 8)).

Definition outside (p : DeviceParameter) : bool :=
  bool_decide (Image.makeParameterKey (index p) (subindex p) ∈ kObjectsOutsideOdValues).

(** The walk: the values so far, and the offset of the next one. *)
Fixpoint walk (data : bytes) (definitions : list DeviceParameter) (values : list ObjectDictionaryValue) (offset : nat)
    : expected OdError (list ObjectDictionaryValue * nat) :=
  match definitions with
  | [] => Value (values, offset)
  | p :: definitions' =>
      if outside p then walk data definitions' values offset
      else match objectDictionaryEntryWidth p with
           | None => Unexpected (UnknownWidth (index p) (subindex p) (dataType p))
           | Some width =>
               if (length data <? offset + width)%nat then Unexpected (RunsOut (length data) (index p) (subindex p) width offset)
               else match decodeSdoBytes (dataType p) (slice offset width data) with
                    | Unexpected e => Unexpected (BadValue (index p) (subindex p) e)
                    | Value v => walk data definitions' (values ++ [mk_value (index p) (subindex p) v]) (offset + width)
                    end
           end
  end.

Definition decodeObjectDictionaryValues (data : bytes) (definitions : list DeviceParameter) : expected OdError ObjectDictionaryValues :=
  match definitions with
  | [] => Unexpected NotEnumerated
  | _ =>
      match walk data definitions [] 0 with
      | Unexpected e => Unexpected e
      | Value (values, offset) =>
          if negb (offset =? length data)%nat then Unexpected (Leftover (length data) (length values) offset)
          else Value (mk_values (length data) values)
      end
  end.

(** [readObjectDictionaryValues]; [ordered] is [device_.parametersOrdered()]. *)
Definition readObjectDictionaryValues {D} `{Os.OsDrive D} (fuel : nat) (ordered : list DeviceParameter) (cfg : Os.OsCommandConfig)
    (w : Os.world) : Os.world * expected OdError ObjectDictionaryValues :=
  let '(w, r) := Os.runOsCommand fuel (Os.request [(0%nat, 21)]) cfg Os.FsRead w in
  (w, match r with
      | None => Unexpected NoAnswer
      | Some (Unexpected e) => Unexpected (ChannelError e)
      | Some (Value response) =>
          if Os.failed response then Unexpected (ReadRefused (Os.errorCode response))
          else decodeObjectDictionaryValues (Os.fsBuffer response) ordered
      end).

(** ** What a decoded transfer is *)
Definition carried (definitions : list DeviceParameter) : list DeviceParameter := filter (fun p => outside p = false) definitions.

(** Entry [p] took the bytes [part] and they are the value [o]. *)
Definition entry_of (p : DeviceParameter) (part : bytes) (o : ObjectDictionaryValue) : Prop :=
  objectDictionaryEntryWidth p = Some (length part) /\ ov_index o = index p /\ ov_subindex o = subindex p /\
  decodeSdoBytes (dataType p) part = Value (ov_value o).

Lemma slice_middle {A} (pre part post : list A) : slice (length pre) (length part) (pre ++ part ++ post) = part.
Proof. unfold slice. by rewrite drop_app_length, take_app_length. Qed.

Lemma walk_sound data definitions values offset out offset' :
  walk data definitions values offset = Value (out, offset') -> (offset <= length data)%nat ->
  exists parts vs, out = values ++ vs /\ length (concat parts) = (offset' - offset)%nat /\ (offset <= offset' <= length data)%nat /\
    slice offset (offset' - offset) data = concat parts /\ Forall3 entry_of (carried definitions) parts vs.
Proof.
  revert values offset. induction definitions as [|p definitions IH]; intros values offset E Hle; cbn [walk] in E.
  { injection E as <- <-. exists [], []. rewrite app_nil_r, Nat.sub_diag. unfold slice. cbn. split_and!; try done; try lia. constructor. }
  destruct (outside p) eqn:Ho.
  { destruct (IH _ _ E Hle) as (parts & vs & ? & ? & ? & ? & ?). exists parts, vs. split_and!; try done; try lia.
    unfold carried. by rewrite filter_cons_False by (rewrite Ho; done). }
  destruct (objectDictionaryEntryWidth p) as [width|] eqn:Ew; [|done].
  destruct (Nat.ltb_spec (length data) (offset + width)); [done|].
  destruct (decodeSdoBytes (dataType p) (slice offset width data)) as [v|] eqn:Ed; [|done].
  destruct (IH _ _ E ltac:(lia)) as (parts & vs & -> & Hl & Hb & Hs & Hf).
  exists (slice offset width data :: parts), (mk_value (index p) (subindex p) v :: vs).
  pose proof (length_slice offset width data ltac:(lia)) as Hls. split_and!; [by rewrite <- app_assoc| |lia|lia| |].
  - cbn. rewrite length_app, Hls, Hl. lia.
  - cbn. rewrite <- Hs. unfold slice. replace (offset' - offset)%nat with (width + (offset' - (offset + width)))%nat by lia.
    by rewrite <- take_take_drop, drop_drop.
  - unfold carried. rewrite filter_cons_True by done. constructor; [|done]. split_and!; try done. by rewrite Hls.
Qed.

Lemma walk_complete definitions parts vs : Forall3 entry_of (carried definitions) parts vs -> forall pre post values,
  walk (pre ++ concat parts ++ post) definitions values (length pre) = Value (values ++ vs, (length pre + length (concat parts))%nat).
Proof.
  revert parts vs. induction definitions as [|p definitions IH]; intros parts vs Hf pre post values; cbn [walk].
  { inversion Hf; subst. cbn. by rewrite app_nil_r, Nat.add_0_r. }
  unfold carried in Hf. destruct (outside p) eqn:Ho.
  { rewrite filter_cons_False in Hf by (rewrite Ho; done). by apply IH. }
  rewrite filter_cons_True in Hf by done. inversion Hf as [|? part o ? parts' vs' (Hw & Hi & Hsub & Hd) Hf']; subst. rewrite Hw.
  cbn [concat]. rewrite <- app_assoc, slice_middle, Hd.
  rewrite (proj2 (Nat.ltb_ge _ _)) by (rewrite !length_app; lia).
  rewrite app_assoc, <- length_app, (IH parts' vs' Hf' (pre ++ part) post), <- app_assoc.
  rewrite <- Hi, <- Hsub. destruct o. cbn. rewrite !length_app. do 2 f_equal. lia.
Qed.

(** The transfer is accepted exactly when it is the values of the enumerated entries one after the other, each taking the width
    its definition declares, with nothing missing and nothing left over; what is returned is then the decoding of each entry's
    own bytes, in dictionary order, without the entries the transfer does not carry. *)
Theorem od_values_exact data definitions r :
  decodeObjectDictionaryValues data definitions = Value r <->
  definitions <> [] /\ ov_byteCount r = length data /\
  exists parts, data = concat parts /\ Forall3 entry_of (carried definitions) parts (ov_values r).
Proof.
  assert (Hd : definitions <> [] -> decodeObjectDictionaryValues data definitions =
      match walk data definitions [] 0 with
      | Unexpected e => Unexpected e
      | Value (values, offset) =>
          if negb (offset =? length data)%nat then Unexpected (Leftover (length data) (length values) offset)
          else Value (mk_values (length data) values)
      end) by (by destruct definitions).
  split.
  - intros E. assert (Hne : definitions <> []) by (by destruct definitions). rewrite Hd in E by done.
    destruct (walk data definitions [] 0) as [[vs offset]|] eqn:Ew; [|done].
    destruct (Nat.eqb_spec offset (length data)) as [->|]; cbn in E; [|done]. injection E as <-.
    apply walk_sound in Ew as (parts & vs' & -> & _ & _ & Hs & Hf); [|lia]. rewrite Nat.sub_0_r in Hs. unfold slice in Hs.
    rewrite drop_0, firstn_all in Hs. split_and!; [done|done|]. by exists parts.
  - intros (Hne & Hc & parts & -> & Hf). rewrite Hd by done. pose proof (walk_complete _ _ _ Hf [] [] []) as Hw.
    rewrite app_nil_r in Hw. cbn [app length] in Hw. rewrite Hw. cbn [Nat.add]. rewrite Nat.eqb_refl. cbn.
    destruct r as [n vs]. cbn in *. by subst.
Qed.

Example two_entries : decodeObjectDictionaryValues [5; 254; 255] [w_param UNSIGNED8; w_param INTEGER16] =
  Value (mk_values 3 [mk_value (index (w_param UNSIGNED8)) (subindex (w_param UNSIGNED8)) (VInt U8 5);
                      mk_value (index (w_param INTEGER16)) (subindex (w_param INTEGER16)) (VInt I16 (-2))]).
Proof. vm_compute. reflexivity. Qed.
End OdValues.
