(* ===== verification/Cia402Drive.v ===== *)
(** * Driving a CiA402 device ([libs/node/cia402_drive.cc])

    The operations of [Cia402Drive] that command the state machine: composing the controlword, the
    fault reset, the walk of [transitionToState], changing the operation mode, and loading a target
    from an actual value. The device is reached through typed object reads and writes and the
    program through a clock and [sleep_for]: [DriveWorld]. Time is in milliseconds. *)

From S2P Require Import Prelude Util Driver DeviceParameter Cia402.
Import Cia402.

Module Drive.

(** [Device::readValue<T>], [Device::writeValue<T>], [steady_clock::now], [this_thread::sleep_for]. *)
Class DriveWorld (W : Type) := {
  readValue : Param.IntType -> Z -> Z -> W -> W * expected text Z;
  writeValue : Param.IntType -> Z -> Z -> Z -> W -> W * expected text unit;
  now : W -> Z;
  sleep_for : Z -> W -> W;
}.

Inductive DriveError :=
  | DeviceError (error : text)
  | NotCommandable (target : State)
  | QuickStopOverrideNeeded (current target : State)
  | StillInFault (errorCode : option Z)
  | TransitionTimedOut (target : State) (timeout : Z) (current : State) (stoppedHint : bool)
  | ModeNotAdopted (mode active : Z) (errorCode : option Z).

Inductive Cia402Command := CommandEnable | CommandDisable | CommandQuickStop | CommandFaultReset.

Definition parseCia402Command (token : text) : option Cia402Command :=
  if bool_decide (token = codes "enable") then Some CommandEnable
  else if bool_decide (token = codes "disable") then Some CommandDisable
  else if bool_decide (token = codes "quickStop") then Some CommandQuickStop
  else if bool_decide (token = codes "faultReset") then Some CommandFaultReset
  else None.

Inductive Cia402TargetKind := KindPosition | KindVelocity | KindTorque.

Definition parseCia402TargetKind (token : text) : option Cia402TargetKind :=
  if bool_decide (token = codes "position") then Some KindPosition
  else if bool_decide (token = codes "velocity") then Some KindVelocity
  else if bool_decide (token = codes "torque") then Some KindTorque
  else None.

Definition kind_name (k : Cia402TargetKind) : text :=
  match k with
  | KindPosition => codes "position"
  | KindVelocity => codes "velocity"
  | KindTorque => codes "torque"
  end.

Definition targetKindForMode (mode : OperationMode) : option Cia402TargetKind :=
  match mode with
  | kCyclicSyncPosition | kProfilePosition => Some KindPosition
  | kCyclicSyncVelocity | kProfileVelocity => Some KindVelocity
  | kCyclicSyncTorque | kProfileTorque | kCyclicSyncTorqueCommutationAngle => Some KindTorque
  | kNoMode | kHoming | kVelocity | kInterpolatedPosition => None
  end.

Definition kPollStep : Z := 1.
Definition kFaultResetGrace : Z := 200.
Definition kEdgeSettle : Z := 10.

(** [stoppedServiceHint], whether it says anything. *)
Definition stoppedServiceHint (commandIssued statuswordChanged : bool) : bool :=
  if negb commandIssued || statuswordChanged then false else true.

Record Cia402Status := mk_status {
  s_state : State;
  s_statusword : Z;
  s_controlword : Z;
  s_mode : Z;
  s_targetPosition : option Z;
  s_targetVelocity : option Z;
  s_targetTorque : option Z;
  s_actualPosition : option Z;
  s_actualVelocity : option Z;
  s_actualTorque : option Z;
  s_errorDescription : option text;
}.

Section Drive.
Context {W : Type} `{DriveWorld W}.

Definition statusword : M W text Z := readValue Param.U16 kStatusword 0.
Definition controlword : M W text Z := readValue Param.U16 kControlword 0.
Definition setControlword (value : Z) : M W text unit := writeValue Param.U16 kControlword 0 value.

Definition sleep {E} (ms : Z) : M W E unit := fun w => (sleep_for ms w, Value tt).

Definition state : M W text State := let! sw := statusword in ret (decodeState sw).

(** The cast to [OperationMode] keeps the [int8_t], named or not. *)
Definition operationMode : M W text Z := readValue Param.I8 kModeOfOperationDisplay 0.
Definition operationModeValue : M W text Z := readValue Param.I8 kModeOfOperation 0.
Definition setOperationModeValue (mode : Z) : M W text unit := writeValue Param.I8 kModeOfOperation 0 mode.
Definition operationModeValueDisplay : M W text Z := readValue Param.I8 kModeOfOperationDisplay 0.
Definition setOperationMode (mode : OperationMode) : M W text unit := setOperationModeValue (mode_value mode).

Definition targetPosition : M W text Z := readValue Param.I32 kTargetPosition 0.
Definition setTargetPosition (counts : Z) : M W text unit := writeValue Param.I32 kTargetPosition 0 counts.
Definition targetVelocity : M W text Z := readValue Param.I32 kTargetVelocity 0.
Definition setTargetVelocity (value : Z) : M W text unit := writeValue Param.I32 kTargetVelocity 0 value.
Definition targetTorque : M W text Z := readValue Param.I16 kTargetTorque 0.
Definition setTargetTorque (perMille : Z) : M W text unit := writeValue Param.I16 kTargetTorque 0 perMille.
Definition positionActualValue : M W text Z := readValue Param.I32 kPositionActualValue 0.
Definition velocityActualValue : M W text Z := readValue Param.I32 kVelocityActualValue 0.
Definition torqueActualValue : M W text Z := readValue Param.I16 kTorqueActualValue 0.

(** A read whose failure is an empty optional. *)
Definition optional (m : M W text Z) : M W text (option Z) :=
  let! r := attempt m in ret (match r with Value v => Some v | Unexpected _ => None end).

Definition readStatus : M W text Cia402Status :=
  let! sw := statusword in
  let! cw := controlword in
  let! mode := operationMode in
  let! tp := optional targetPosition in
  let! tv := optional targetVelocity in
  let! tq := optional targetTorque in
  let! ap := optional positionActualValue in
  let! av := optional velocityActualValue in
  let! aq := optional torqueActualValue in
  ret (mk_status (decodeState sw) sw cw mode tp tv tq ap av aq None).

Definition applyCommand (command : Z) : M W text unit :=
  let! current := controlword in
  let next := u16 (Z.lor (Z.land current (Z.lnot kCommandMask)) (Z.land command kCommandMask)) in
  setControlword next.

Definition faultReset : M W text unit :=
  let! current := controlword in
  if negb (Z.land current kCmdFaultReset =? 0) then
    setControlword (u16 (Z.land current (Z.lnot kCmdFaultReset))) ;;!
    sleep kEdgeSettle ;;!
    let! reread := controlword in
    setControlword (u16 (Z.lor reread kCmdFaultReset))
  else setControlword (u16 (Z.lor current kCmdFaultReset)).

Definition shutdown : M W text unit := applyCommand kCmdShutdown.
Definition switchOn : M W text unit := applyCommand kCmdSwitchOn.
Definition enableOperation : M W text unit := applyCommand kCmdEnableOperation.
Definition disableVoltage : M W text unit := applyCommand kCmdDisableVoltage.
Definition quickStop : M W text unit := applyCommand kCmdQuickStop.
Definition disable : M W text unit := disableVoltage.

(** *** [transitionToState] *)
Record walk_state := mk_walk {
  faultResetAt : option Z;
  quickStopIssued : bool;
  firstStatusword : option Z;
  statuswordChanged : bool;
  commandIssued : bool;
}.
Definition walk_start : walk_state := mk_walk None false None false false.

(** The bookkeeping at the top of the loop body. *)
Definition observe (st : walk_state) (observed : Z) : walk_state :=
  match firstStatusword st with
  | None => mk_walk (faultResetAt st) (quickStopIssued st) (Some observed) (statuswordChanged st) (commandIssued st)
  | Some first =>
      mk_walk (faultResetAt st) (quickStopIssued st) (Some first)
        (if negb (observed =? first) then true else statuswordChanged st) (commandIssued st)
  end.

(** One pass of the loop body up to the deadline check: the function's result, or the state to go
    on with and the drive state observed. *)
Definition walk_body (target : State) (allowQuickStopOverride quickStopPassesThrough : bool)
    (st : walk_state) (w : W) : W * (expected DriveError unit + walk_state * State) :=
  let '(w, r) := statusword w in
  match r with
  | Unexpected e => (w, inl (Unexpected (DeviceError e)))
  | Value observed =>
      let st := observe st observed in
      let current := decodeState observed in
      if quickStopPassesThrough && bool_decide (current = kSwitchOnDisabled) && quickStopIssued st
      then (w, inl (Value tt))
      else
        match nextFsaTransition current target allowQuickStopOverride with
        | kArrived => (w, inl (Value tt))
        | kUnreachable => (w, inl (Unexpected (QuickStopOverrideNeeded current target)))
        | kWait => (w, inr (st, current))
        | kCommand command =>
            if bool_decide (current = kFault) then
              if match faultResetAt st with Some t => kFaultResetGrace <=? now w - t | None => false end
              then
                let '(w, code) := readValue Param.U16 kErrorCode 0 w in
                (w, inl (Unexpected (StillInFault
                      match code with Value c => Some c | Unexpected _ => None end)))
              else
                match faultResetAt st with
                | Some _ => (w, inr (st, current))
                | None =>
                    let '(w, r) := faultReset w in
                    match r with
                    | Unexpected e => (w, inl (Unexpected (DeviceError e)))
                    | Value _ =>
                        (w, inr (mk_walk (Some (now w)) (quickStopIssued st) (firstStatusword st)
                                   (statuswordChanged st) (commandIssued st), current))
                    end
                end
            else
              let '(w, r) := applyCommand command w in
              match r with
              | Unexpected e => (w, inl (Unexpected (DeviceError e)))
              | Value _ =>
                  (w, inr (mk_walk (faultResetAt st)
                             (if command =? kCmdQuickStop then true else quickStopIssued st)
                             (firstStatusword st) (statuswordChanged st) true, current))
              end
        end
  end.

(** The loop; [None] when [fuel] iterations were not enough. *)
Fixpoint walk (target : State) (override passes : bool) (timeout deadline : Z) (fuel : nat)
    (st : walk_state) (w : W) : option (W * expected DriveError unit) :=
  match fuel with
  | O => None
  | S fuel' =>
      match walk_body target override passes st w with
      | (w, inl r) => Some (w, r)
      | (w, inr (st, current)) =>
          if deadline <=? now w
          then Some (w, Unexpected (TransitionTimedOut target timeout current
                          (stoppedServiceHint (commandIssued st) (statuswordChanged st))))
          else walk target override passes timeout deadline fuel' st (sleep_for kPollStep w)
      end
  end.

Definition transitionToState (fuel : nat) (target : State) (timeout : Z) (override : bool) (w : W)
    : option (W * expected DriveError unit) :=
  if negb (isCommandableState target) then Some (w, Unexpected (NotCommandable target))
  else
    let '(w, passes) :=
      if bool_decide (target = kQuickStopActive) then
        let '(w, r) := readValue Param.I16 kQuickStopOptionCode 0 w in
        (w, negb (quickStopHolds (match r with Value c => c | Unexpected _ => 0 end)))
      else (w, false) in
    walk target override passes timeout (now w + timeout) fuel walk_start w.

Definition enable (fuel : nat) (timeout : Z) (w : W) : option (W * expected DriveError unit) :=
  transitionToState fuel kOperationEnabled timeout false w.

(** *** [applyOperationMode] *)
Fixpoint mode_loop (mode deadline : Z) (fuel : nat) (w : W) : option (W * expected DriveError unit) :=
  match fuel with
  | O => None
  | S fuel' =>
      let '(w, r) := operationModeValueDisplay w in
      match r with
      | Unexpected e => Some (w, Unexpected (DeviceError e))
      | Value active =>
          if (mode =? 0) || (active =? mode) then Some (w, Value tt)
          else if deadline <=? now w then
            let '(w, code) := readValue Param.U16 kErrorCode 0 w in
            Some (w, Unexpected (ModeNotAdopted mode active
                       match code with Value c => Some c | Unexpected _ => None end))
          else mode_loop mode deadline fuel' (sleep_for kPollStep w)
      end
  end.

Definition applyOperationMode (fuel : nat) (mode timeout : Z) (w : W)
    : option (W * expected DriveError unit) :=
  let '(w, r) := setOperationModeValue mode w in
  match r with
  | Unexpected e => Some (w, Unexpected (DeviceError e))
  | Value _ => mode_loop mode (now w + timeout) fuel w
  end.

(** *** [setTargetToActual] *)
Definition setTargetToActual (kind : Cia402TargetKind) : M W text Z :=
  match kind with
  | KindPosition =>
      let! actual := positionActualValue in
      setTargetPosition actual ;;! ret actual
  | KindVelocity =>
      let! actual := velocityActualValue in
      setTargetVelocity actual ;;! ret actual
  | KindTorque =>
      let! actual := torqueActualValue in
      setTargetTorque actual ;;! ret actual
  end.
End Drive.

(** ** The controlword *)

Definition command_bit (k : Z) : bool := (k =? 0) || (k =? 1) || (k =? 2) || (k =? 3) || (k =? 7).

Lemma mask_bits k : 0 <= k -> Z.testbit kCommandMask k = command_bit k.
Proof.
  intros Hk. destruct (decide (k < 8)) as [Hk8|Hk8].
  - assert (k = 0 \/ k = 1 \/ k = 2 \/ k = 3 \/ k = 4 \/ k = 5 \/ k = 6 \/ k = 7) as Hc by lia.
    repeat (destruct Hc as [-> | Hc]; [done|]). by subst.
  - rewrite (testbit_above 8 kCommandMask) by (done || lia). unfold command_bit. bool_split; done || lia.
Qed.

(** What [applyCommand] writes over a controlword. *)
Definition commanded (current command : Z) : Z :=
  u16 (Z.lor (Z.land current (Z.lnot kCommandMask)) (Z.land command kCommandMask)).

Lemma commanded_bits current command k : 0 <= k < 16 ->
  Z.testbit (commanded current command) k =
  if command_bit k then Z.testbit command k else Z.testbit current k.
Proof.
  intros Hk. unfold commanded, u16, uwrap. rewrite Z.mod_pow2_bits_low by lia.
  rewrite Z.lor_spec, !Z.land_spec, Z.lnot_spec, !mask_bits by lia.
  destruct (command_bit k); cbn [negb]; by rewrite ?andb_false_r, ?andb_true_r, ?orb_false_r.
Qed.

(** A command changes exactly the five command bits of the controlword the device holds and
    preserves every other bit (mode-specific, halt and manufacturer bits), and is written once. *)
Theorem applyCommand_preserves {W} `{DriveWorld W} command (w w1 : W) current :
  controlword w = (w1, Value current) ->
  exists next, applyCommand command w = setControlword next w1 /\ in_u 16 next /\
    forall k, 0 <= k < 16 ->
      Z.testbit next k = if command_bit k then Z.testbit command k else Z.testbit current k.
Proof.
  intros Hc. exists (commanded current command). split; [|split].
  - unfold applyCommand. by rewrite (bind_run _ _ _ _ _ Hc).
  - by apply uwrap_range.
  - apply commanded_bits.
Qed.

(** ** Success is what was observed *)

Section AnyDevice.
Context {W : Type} `{DriveWorld W}.

Lemma walk_body_Value target override passes st (w w' : W) :
  walk_body target override passes st w = (w', inl (Value tt)) ->
  exists sw, statusword w = (w', Value sw) /\
    (decodeState sw = target \/
     (passes = true /\ decodeState sw = kSwitchOnDisabled /\ quickStopIssued st = true)).
Proof using.
  unfold walk_body. destruct (statusword w) as [w1 [sw|e]] eqn:Es; [|done].
  assert (Ei : quickStopIssued (observe st sw) = quickStopIssued st)
    by (unfold observe; by destruct (firstStatusword st)).
  destruct (passes && _ && _) eqn:Ep.
  - intros [= <-]. apply andb_true_iff in Ep as [[-> Ed%bool_decide_eq_true]%andb_true_iff Eq].
    exists sw. rewrite Ei in Eq. eauto.
  - destruct (nextFsaTransition (decodeState sw) target override) eqn:En; try done.
    + intros [= <-]. exists sw. split; [done|]. left. unfold nextFsaTransition in En.
      destruct (negb (isCommandableState target)); [done|].
      case_bool_decide; [done|]. by destruct (decodeState sw), target, override.
    + destruct (bool_decide (decodeState sw = kFault)); [|by destruct (applyCommand command w1) as [? []]].
      destruct (match faultResetAt _ with Some _ => _ | None => _ end); [by destruct (readValue _ _ _ w1)|].
      destruct (faultResetAt _); [done|]. by destruct (faultReset w1) as [? []].
Qed.

Lemma walk_Value target override passes timeout deadline fuel st (w w' : W) :
  walk target override passes timeout deadline fuel st w = Some (w', Value tt) ->
  exists w1 sw, statusword w1 = (w', Value sw) /\
    (decodeState sw = target \/ (passes = true /\ decodeState sw = kSwitchOnDisabled)).
Proof using.
  revert st w. induction fuel as [|fuel IH]; intros st w Hw; cbn [walk] in Hw; [done|].
  destruct (walk_body target override passes st w) as [w1 [r|[st1 cur]]] eqn:Eb.
  - injection Hw as <- ->. destruct (walk_body_Value _ _ _ _ _ _ Eb) as (sw & Hs & Hd).
    exists w, sw. split; [done|]. tauto.
  - destruct (deadline <=? now w1); [done|]. by apply IH in Hw.
Qed.
End AnyDevice.

(** Whatever the drive does, [transitionToState] reports success only on a statusword it has just
    read: one that decodes to the target, or, for a quick stop the drive is configured not to hold,
    to Switch On Disabled. *)
Theorem transitionToState_sound {W} `{DriveWorld W} fuel target timeout override (w w' : W) :
  transitionToState fuel target timeout override w = Some (w', Value tt) ->
  isCommandableState target = true /\
  exists w1 sw, statusword w1 = (w', Value sw) /\
    (decodeState sw = target \/
     (target = kQuickStopActive /\ decodeState sw = kSwitchOnDisabled /\
      exists w0 r, readValue Param.I16 kQuickStopOptionCode 0 w = (w0, r) /\
        forall c, r = Value c -> quickStopHolds c = false)).
Proof.
  unfold transitionToState. destruct (isCommandableState target); [|done]. cbn [negb]. split; [done|].
  case_bool_decide as Et.
  - destruct (readValue Param.I16 kQuickStopOptionCode 0 w) as [w0 r] eqn:Er.
    destruct (walk_Value _ _ _ _ _ _ _ _ _ H0) as (w1 & sw & Hs & [Hd|[Hp Hd]]); exists w1, sw; [tauto|].
    split; [done|]. right. split; [done|]. split; [done|]. exists w0, r. split; [done|].
    intros c ->. by apply negb_true_iff in Hp.
  - destruct (walk_Value _ _ _ _ _ _ _ _ _ H0) as (w1 & sw & Hs & [Hd|[Hp Hd]]); [|done].
    exists w1, sw. tauto.
Qed.

(** ** The walk ends *)

(** [std::chrono::steady_clock] and [sleep_for] as documented: time never runs back, and a sleep
    takes at least its duration. *)
Class SteadyClock (W : Type) `{DriveWorld W} := {
  clock_read : forall ty i sub (w : W), now w <= now (readValue ty i sub w).1;
  clock_write : forall ty i sub v (w : W), now w <= now (writeValue ty i sub v w).1;
  clock_sleep : forall n (w : W), now w + n <= now (sleep_for n w);
}.

Section Terminates.
Context {W : Type} `{SteadyClock W}.

(** An operation that does not turn the clock back. *)
Definition forward {E A} (m : M W E A) : Prop := forall w, now w <= now (m w).1.

Lemma forward_bind {E A A'} (m : M W E A) (k : A -> M W E A') :
  forward m -> (forall a, forward (k a)) -> forward (bind m k).
Proof using.
  intros Hm Hk w. unfold bind. specialize (Hm w). destruct (m w) as [w1 [a|e]]; cbn [fst] in *; [|done].
  specialize (Hk a w1). lia.
Qed.

Lemma forward_applyCommand c : forward (applyCommand c).
Proof using H0.
  unfold applyCommand. apply forward_bind; [intros w; apply clock_read|]. intros a w. apply clock_write.
Qed.

Lemma forward_faultReset : forward faultReset.
Proof using H0.
  unfold faultReset. apply forward_bind; [intros w; apply clock_read|]. intros a.
  destruct (negb _); [|intros w; apply clock_write].
  apply forward_bind; [intros w; apply clock_write|]. intros _. apply forward_bind.
  - intros w. cbn [sleep fst]. pose proof (clock_sleep kEdgeSettle w). unfold kEdgeSettle in *. lia.
  - intros _. apply forward_bind; [intros w; apply clock_read|]. intros b w. apply clock_write.
Qed.

Lemma walk_body_forward target override passes st (w : W) :
  now w <= now (walk_body target override passes st w).1.
Proof using H0.
  unfold walk_body. pose proof (clock_read Param.U16 kStatusword 0 w) as Hr. unfold statusword.
  destruct (readValue Param.U16 kStatusword 0 w) as [w1 [sw|e]]; cbn [fst] in *; [|done].
  destruct (_ && _); [done|]. destruct (nextFsaTransition _ _ _); try done.
  case_bool_decide.
  - destruct (match faultResetAt (observe st sw) with Some _ => _ | None => _ end).
    + pose proof (clock_read Param.U16 kErrorCode 0 w1). destruct (readValue _ _ _ w1). cbn [fst] in *. lia.
    + destruct (faultResetAt (observe st sw)); [done|]. pose proof (forward_faultReset w1).
      destruct (faultReset w1) as [w2 []]; cbn [fst] in *; lia.
  - pose proof (forward_applyCommand command w1). destruct (applyCommand command w1) as [w2 []];
      cbn [fst] in *; lia.
Qed.

Lemma walk_terminates target override passes timeout deadline fuel st (w : W) :
  (0 < fuel)%nat -> deadline - now w < Z.of_nat fuel ->
  exists r, walk target override passes timeout deadline fuel st w = Some r.
Proof using H0.
  revert st w. induction fuel as [|fuel IH]; intros st w Hf0 Hf; [lia|]. cbn [walk].
  pose proof (walk_body_forward target override passes st w) as Hb.
  destruct (walk_body target override passes st w) as [w1 [r|[st1 cur]]]; cbn [fst] in Hb; [eauto|].
  destruct (Z.leb_spec deadline (now w1)); [eauto|].
  pose proof (clock_sleep kPollStep w1). unfold kPollStep in *. apply IH; lia.
Qed.

Lemma mode_loop_terminates mode deadline fuel (w : W) :
  (0 < fuel)%nat -> deadline - now w < Z.of_nat fuel ->
  exists r, mode_loop mode deadline fuel w = Some r.
Proof using H0.
  revert w. induction fuel as [|fuel IH]; intros w Hf0 Hf; [lia|]. cbn [mode_loop].
  pose proof (clock_read Param.I8 kModeOfOperationDisplay 0 w) as Hb. unfold operationModeValueDisplay.
  destruct (readValue Param.I8 kModeOfOperationDisplay 0 w) as [w1 [active|e]]; cbn [fst] in Hb; [|eauto].
  destruct (_ || _); [eauto|]. destruct (Z.leb_spec deadline (now w1)).
  - destruct (readValue Param.U16 kErrorCode 0 w1). eauto.
  - pose proof (clock_sleep kPollStep w1). unfold kPollStep in *. apply IH; lia.
Qed.
End Terminates.

(** C7: with a steady clock the state walk and the mode change always return, whatever the drive
    answers: at most one poll per millisecond of the timeout and one more. *)
Theorem drive_loops_terminate {W} `{SteadyClock W} target override mode timeout (w : W) :
  0 <= timeout ->
  (exists r, transitionToState (Z.to_nat timeout + 1) target timeout override w = Some r) /\
  (exists r, applyOperationMode (Z.to_nat timeout + 1) mode timeout w = Some r).
Proof.
  intros Ht. split.
  - unfold transitionToState. destruct (negb (isCommandableState target)); [eauto|].
    case_bool_decide; [destruct (readValue Param.I16 kQuickStopOptionCode 0 w)|]; apply walk_terminates; lia.
  - unfold applyOperationMode. destruct (setOperationModeValue mode w) as [w1 []]; [|eauto].
    apply mode_loop_terminates; lia.
Qed.

(** ** A drive that follows the profile *)

(** How a drive answers the controlword it received: one transition per cycle. Transition 15 needs a
    rising edge of bit 7 between the controlword seen before and the one seen now. [holds] is whether
    its quick stop stays in Quick Stop Active. *)
Definition respond (holds : bool) (s : State) (seen cw : Z) : State :=
  let b := Z.testbit cw in
  match s with
  | kNotReadyToSwitchOn => kSwitchOnDisabled
  | kFaultReactionActive => kFault
  | kFault => if b 7 && negb (Z.testbit seen 7) then kSwitchOnDisabled else kFault
  | kSwitchOnDisabled => if b 2 && b 1 && negb (b 0) then kReadyToSwitchOn else kSwitchOnDisabled
  | kReadyToSwitchOn =>
      if negb (b 1) || negb (b 2) then kSwitchOnDisabled
      else if b 0 then kSwitchedOn else kReadyToSwitchOn
  | kSwitchedOn =>
      if negb (b 1) || negb (b 2) then kSwitchOnDisabled
      else if negb (b 0) then kReadyToSwitchOn
      else if b 3 then kOperationEnabled else kSwitchedOn
  | kOperationEnabled =>
      if negb (b 1) then kSwitchOnDisabled
      else if negb (b 2) then (if holds then kQuickStopActive else kSwitchOnDisabled)
      else if negb (b 0) then kReadyToSwitchOn
      else if negb (b 3) then kSwitchedOn else kOperationEnabled
  | kQuickStopActive =>
      if negb (b 1) || negb holds then kSwitchOnDisabled
      else if b 0 && b 2 && b 3 then kOperationEnabled else kQuickStopActive
  end.

(** A drive exchanging process data: reads show its state, a controlword write is staged until the
    next cycle, every sleep is at least one cycle. *)
Class ConformingDrive (W : Type) `{DriveWorld W} := {
  dstate : W -> State;
  cw : W -> Z;
  seen : W -> Z;
  option_code : W -> Z;
  cd_statusword : forall w, exists sw, readValue Param.U16 kStatusword 0 w = (w, Value sw) /\ decodeState sw = dstate w;
  cd_controlword : forall w, readValue Param.U16 kControlword 0 w = (w, Value (cw w));
  cd_option_code : forall w, readValue Param.I16 kQuickStopOptionCode 0 w = (w, Value (option_code w));
  cd_write : forall w v, exists w', writeValue Param.U16 kControlword 0 v w = (w', Value tt) /\
    cw w' = v /\ dstate w' = dstate w /\ seen w' = seen w /\ option_code w' = option_code w /\ now w' = now w;
  cd_sleep : forall w n, 1 <= n -> let w' := sleep_for n w in
    dstate w' = respond (quickStopHolds (option_code w)) (dstate w) (seen w) (cw w) /\
    cw w' = cw w /\ seen w' = cw w /\ option_code w' = option_code w /\ now w' = now w + n;
}.

Section Conforming.
Context {W : Type} `{ConformingDrive W}.
Implicit Types w : W.

Lemma read_controlword w : controlword w = (w, Value (cw w)).
Proof using. apply cd_controlword. Qed.

(** Only the command bits matter to the drive. *)
Lemma respond_commanded holds s sn current command :
  s <> kFault -> respond holds s sn (commanded current command) = respond holds s sn command.
Proof using.
  intros Hs. assert (Hb : forall k, k = 0 \/ k = 1 \/ k = 2 \/ k = 3 ->
    Z.testbit (commanded current command) k = Z.testbit command k).
  { intros k Hk. rewrite commanded_bits by lia. unfold command_bit.
    by destruct Hk as [-> | [-> | [-> | ->]]]. }
  unfold respond. rewrite !Hb by tauto. by destruct s.
Qed.

Definition settled w : Prop := seen w = cw w.

(** One command and one poll. *)
Lemma command_cycle w command :
  dstate w <> kFault ->
  exists w1, applyCommand command w = (w1, Value tt) /\ now w1 = now w /\
    let w2 := sleep_for kPollStep w1 in
    dstate w2 = respond (quickStopHolds (option_code w)) (dstate w) 0 command /\
    settled w2 /\ option_code w2 = option_code w /\ now w2 = now w + 1.
Proof using.
  intros Hs. destruct (cd_write w (commanded (cw w) command)) as (w1 & Hw & Hc & Hd & Hse & Ho & Hn).
  exists w1. split; [unfold applyCommand; by rewrite (bind_run _ _ _ _ _ (read_controlword w))|].
  split; [done|]. destruct (cd_sleep w1 kPollStep ltac:(done)) as (Sd & Sc & Ss & So & Sn).
  cbv zeta. unfold settled. rewrite Sd, Sc, Ss, So, Sn, Hc, Ho, Hd, Hn, respond_commanded by done.
  split; [by destruct (dstate w)|]. done.
Qed.

Lemma testbit_7 x : negb (Z.land x kCmdFaultReset =? 0) = Z.testbit x 7.
Proof using.
  unfold kCmdFaultReset. destruct (Z.testbit x 7) eqn:E.
  - apply negb_true_iff, Z.eqb_neq. intros E0. apply (f_equal (fun z => Z.testbit z 7)) in E0.
    rewrite Z.land_spec, E in E0. done.
  - apply negb_false_iff, Z.eqb_eq, Z.bits_inj'. intros i Hi. rewrite Z.land_spec, Z.bits_0.
    change 128 with (2 ^ 7). destruct (decide (i = 7)) as [->|]; [by rewrite E|].
    rewrite Z.pow2_bits_false by lia. apply andb_false_r.
Qed.

Lemma u16_testbit x k : 0 <= k < 16 -> Z.testbit (u16 x) k = Z.testbit x k.
Proof using. intros Hk. unfold u16, uwrap. apply Z.mod_pow2_bits_low. lia. Qed.

(** A fault reset makes an edge the drive sees, also when bit 7 was left high. *)
Lemma fault_reset_cycle w :
  dstate w = kFault -> settled w ->
  exists w1, faultReset w = (w1, Value tt) /\ now w1 <= now w + kEdgeSettle /\
    let w2 := sleep_for kPollStep w1 in
    dstate w2 = kSwitchOnDisabled /\ settled w2 /\ option_code w2 = option_code w /\
    now w2 <= now w + kEdgeSettle + 1.
Proof using.
  intros Hd Hs. unfold faultReset. rewrite (bind_run _ _ _ _ _ (read_controlword w)), testbit_7.
  assert (Hset : forall w' c, dstate w' = kFault -> Z.testbit (seen w') 7 = false ->
    option_code w' = option_code w ->
    exists w1, setControlword (u16 (Z.lor c kCmdFaultReset)) w' = (w1, Value tt) /\ now w1 = now w' /\
      let w2 := sleep_for kPollStep w1 in
      dstate w2 = kSwitchOnDisabled /\ settled w2 /\ option_code w2 = option_code w /\ now w2 = now w' + 1).
  { intros w' c Hd' Hs7 Ho'. destruct (cd_write w' (u16 (Z.lor c kCmdFaultReset))) as (w1 & Hw & Hc & Hdd & Hss & Hoo & Hn).
    exists w1. split; [done|]. split; [done|]. cbv zeta.
    destruct (cd_sleep w1 kPollStep ltac:(done)) as (Sd & Sc & Ss & So & Sn). unfold settled.
    rewrite Sd, Sc, Ss, So, Sn, Hdd, Hd', Hss, Hoo, Ho', Hn, Hc. cbn [respond].
    rewrite u16_testbit, Z.lor_spec, Hs7 by lia. change (Z.testbit kCmdFaultReset 7) with true.
    by rewrite orb_true_r. }
  destruct (Z.testbit (cw w) 7) eqn:E7.
  - destruct (cd_write w (u16 (Z.land (cw w) (Z.lnot kCmdFaultReset)))) as (wa & Ha & Hca & Hda & Hsa & Hoa & Hna).
    change (writeValue Param.U16 kControlword 0 ?v) with (setControlword v) in Ha.
    rewrite (bind_run _ _ _ _ _ Ha). unfold sleep. unfold bind at 1.
    destruct (cd_sleep wa kEdgeSettle ltac:(done)) as (Sd & Sc & Ss & So & Sn).
    rewrite (bind_run _ _ _ _ _ (read_controlword (sleep_for kEdgeSettle wa))).
    assert (Hb7 : Z.testbit (cw wa) 7 = false)
      by (rewrite Hca, u16_testbit, Z.land_spec, Z.lnot_spec by lia; by rewrite andb_false_r).
    destruct (Hset (sleep_for kEdgeSettle wa) (cw (sleep_for kEdgeSettle wa))) as (w1 & Hw1 & Hn1 & Hrest).
    + rewrite Sd, Hda, Hd. cbn [respond]. by rewrite Hb7.
    + by rewrite Ss.
    + congruence.
    + exists w1. split; [exact Hw1|]. unfold kEdgeSettle in *. split; [lia|].
      destruct Hrest as (? & ? & ? & ?). split_and!; try done. lia.
  - destruct (Hset w (cw w) Hd) as (w1 & Hw1 & Hn1 & Hrest); [by rewrite Hs|done|].
    exists w1. split; [exact Hw1|]. unfold kEdgeSettle in *. split; [lia|].
    destruct Hrest as (? & ? & ? & ?). split_and!; try done. lia.
Qed.

(** The walk as it runs against the drive's own state machine, [n] polls allowed. *)
Fixpoint arrives (holds override : bool) (target : State) (n : nat) (s : State) (issued : bool) : bool :=
  if bool_decide (target = kQuickStopActive) && negb holds && bool_decide (s = kSwitchOnDisabled) && issued
  then true
  else
    match nextFsaTransition s target override, n with
    | kArrived, _ => true
    | kWait, S n' => arrives holds override target n' (respond holds s 0 0) issued
    | kCommand c, S n' =>
        arrives holds override target n' (if bool_decide (s = kFault) then kSwitchOnDisabled else respond holds s 0 c)
          (if c =? kCmdQuickStop then true else issued)
    | _, _ => false
    end.

Lemma arrives_all holds override target s :
  isCommandableState target = true ->
  ~ (s = kQuickStopActive /\ target = kOperationEnabled /\ override = false) ->
  arrives holds override target 7 s false = true.
Proof using.
  intros Ht Hn. destruct holds, override, target, s; try discriminate Ht; try reflexivity;
    exfalso; apply Hn; done.
Qed.

Definition faulty (s : State) : bool := bool_decide (s = kFault) || bool_decide (s = kFaultReactionActive).
Definition slack (s : State) : Z := if faulty s then kEdgeSettle + 1 else 0.

Lemma respond_not_faulty holds s sn c : faulty s = false -> faulty (respond holds s sn c) = false.
Proof using. destruct s; try done; intros _; cbn [respond]; repeat case_match; done. Qed.

Lemma observe_issued st sw : quickStopIssued (observe st sw) = quickStopIssued st /\
  faultResetAt (observe st sw) = faultResetAt st.
Proof using. unfold observe. by destruct (firstStatusword st). Qed.

Lemma walk_arrives target override timeout deadline n fuel st w holds :
  (n < fuel)%nat -> quickStopHolds (option_code w) = holds -> settled w ->
  (faulty (dstate w) = true -> faultResetAt st = None) ->
  arrives holds override target n (dstate w) (quickStopIssued st) = true ->
  now w + Z.of_nat n + slack (dstate w) < deadline ->
  exists w', walk target override (bool_decide (target = kQuickStopActive) && negb holds)
      timeout deadline fuel st w = Some (w', Value tt) /\
    (dstate w' = target \/ (target = kQuickStopActive /\ holds = false /\ dstate w' = kSwitchOnDisabled)).
Proof using.
  intros Hn. revert n st w Hn. induction fuel as [|fuel IH]; intros n st w Hn Hh Hs Hf Ha Ht; [lia|].
  cbn [walk]. unfold walk_body. destruct (cd_statusword w) as (sw & Hsw & Hdec).
  change (readValue Param.U16 kStatusword 0) with (statusword (W := W)) in Hsw. rewrite Hsw, Hdec.
  destruct (observe_issued st sw) as [Eq Er]. rewrite Eq, Er.
  destruct n as [|n]; cbn [arrives] in Ha;
    (destruct (bool_decide (target = kQuickStopActive) && negb holds && bool_decide (dstate w = kSwitchOnDisabled) &&
       quickStopIssued st) eqn:Ep;
     [exists w; split; [done|]; right;
      apply andb_true_iff in Ep as [[[E1%bool_decide_eq_true E2%negb_true_iff]%andb_true_iff
        E3%bool_decide_eq_true]%andb_true_iff _]; done|]).
  { destruct (nextFsaTransition (dstate w) target override) eqn:En; try done.
    exists w. split; [done|]. left. unfold nextFsaTransition in En.
    by destruct (dstate w), target, override. }
  destruct (nextFsaTransition (dstate w) target override) as [|c| |] eqn:En; try done.
  - exists w. split; [done|]. left. unfold nextFsaTransition in En. by destruct (dstate w), target, override.
  - case_bool_decide as Efault.
    + rewrite (Hf ltac:(unfold faulty; by rewrite Efault)).
      destruct (fault_reset_cycle w Efault Hs) as (w1 & Hw1 & Hn1 & Hd2 & Hs2 & Ho2 & Hn2). rewrite Hw1.
      unfold slack, faulty in Ht. rewrite Efault in Ht. cbn [bool_decide orb] in Ht.
      replace (bool_decide (kFault = kFault)) with true in Ht by done. cbn [orb] in Ht.
      destruct (Z.leb_spec deadline (now w1)); [unfold kEdgeSettle in *; lia|].
      apply (IH n); [lia|by rewrite Ho2|done|by rewrite Hd2| |].
      * rewrite Hd2. cbn [quickStopIssued].
        assert (c = kCmdFaultReset) as ->.
        { unfold nextFsaTransition in En. rewrite Efault in En. destruct target; vm_compute in En; try discriminate En; by injection En as <-. }
        exact Ha.
      * rewrite Hd2. change (slack kSwitchOnDisabled) with 0. unfold kPollStep in *. lia.
    + assert (Hnf : faulty (dstate w) = false).
      { unfold nextFsaTransition in En. unfold faulty. rewrite (bool_decide_eq_false_2 (dstate w = kFault)) by done.
        destruct (dstate w), target; done. }
      destruct (command_cycle w c Efault) as (w1 & Hw1 & Hn1 & Hd2 & Hs2 & Ho2 & Hn2). rewrite Hw1.
      unfold slack in Ht. rewrite Hnf in Ht. destruct (Z.leb_spec deadline (now w1)); [lia|].
      assert (Hnf2 : faulty (dstate (sleep_for kPollStep w1)) = false)
        by (rewrite Hd2; by apply respond_not_faulty).
      apply (IH n); [lia|by rewrite Ho2|done|by rewrite Hnf2| |].
      * rewrite Hd2, Hh. exact Ha.
      * unfold slack. rewrite Hnf2. lia.
  - destruct (cd_sleep w kPollStep ltac:(done)) as (Sd & Sc & Ss & So & Sn).
    assert (Hr : dstate (sleep_for kPollStep w) = respond holds (dstate w) 0 0).
    { rewrite Sd, Hh. unfold nextFsaTransition in En. by destruct (dstate w), target, override. }
    assert (Hsl : slack (respond holds (dstate w) 0 0) <= slack (dstate w)).
    { unfold nextFsaTransition in En. by destruct (dstate w), target, override. }
    assert (0 <= slack (dstate w)) by (unfold slack, kEdgeSettle; case_match; lia).
    destruct (Z.leb_spec deadline (now w)); [lia|]. unfold kPollStep in Sn.
    apply (IH n); [lia|by rewrite So|by unfold settled; rewrite Ss, Sc| | |].
    + rewrite Hr, Er. intros Hfr. apply Hf. unfold nextFsaTransition in En.
      by destruct (dstate w), target, override.
    + rewrite Hr, Eq. exact Ha.
    + rewrite Hr. unfold kPollStep. lia.
Qed.
End Conforming.


(** ** A simulated drive *)
Record SimDrive := mk_sim {
  sim_state : State;
  sim_cw : Z;
  sim_seen : Z;
  sim_option : Z;
  sim_now : Z;
}.

(** A statusword of each state. *)
Definition statusword_of (s : State) : Z :=
  match s with
  | kNotReadyToSwitchOn => 0
  | kSwitchOnDisabled => 64
  | kReadyToSwitchOn => 33
  | kSwitchedOn => 35
  | kOperationEnabled => 39
  | kQuickStopActive => 7
  | kFaultReactionActive => 15
  | kFault => 8
  end.

#[export] Instance sim_world : DriveWorld SimDrive := {|
  readValue _ i _ w :=
    (w, if i =? kStatusword then Value (statusword_of (sim_state w))
        else if i =? kControlword then Value (sim_cw w)
        else if i =? kQuickStopOptionCode then Value (sim_option w)
        else Unexpected (codes "no such object"));
  writeValue _ i _ v w :=
    if i =? kControlword then (mk_sim (sim_state w) v (sim_seen w) (sim_option w) (sim_now w), Value tt)
    else (w, Unexpected (codes "no such object"));
  now := sim_now;
  sleep_for n w :=
    mk_sim (respond (quickStopHolds (sim_option w)) (sim_state w) (sim_seen w) (sim_cw w))
      (sim_cw w) (sim_cw w) (sim_option w) (sim_now w + n);
|}.

#[export] Program Instance sim_conforming : ConformingDrive SimDrive :=
  {| dstate := sim_state; cw := sim_cw; seen := sim_seen; option_code := sim_option |}.
Next Obligation. intros w. eexists. split; [reflexivity|]. by destruct (sim_state w). Qed.
Next Obligation. intros w. done. Qed.
Next Obligation. intros w. done. Qed.
Next Obligation. intros w v. eexists. done. Qed.
Next Obligation. intros w n Hn. done. Qed.

#[export] Instance sim_clock : SteadyClock SimDrive.
Proof.
  constructor; intros; cbn; try case_match; cbn; lia.
Qed.

(** A drive in Fault with bit 7 of its controlword left high, as after an abandoned reset. *)
Definition w_sim : SimDrive := mk_sim kFault 128 128 6 0.


Lemma drive_loops_terminate_witness :
  exists r, transitionToState (Z.to_nat 5 + 1) kOperationEnabled 5 false w_sim = Some r.
Proof. apply (drive_loops_terminate kOperationEnabled false 8 5 w_sim). lia. Defined.

Lemma transitionToState_sound_witness :
  exists w1 sw, statusword w1 = (mk_sim kQuickStopActive 2 2 6 15, Value sw) /\
    decodeState sw = kQuickStopActive.
Proof.
  destruct (transitionToState_sound 8 kQuickStopActive 100 false w_sim (mk_sim kQuickStopActive 2 2 6 15))
    as (_ & w1 & sw & Hs & [Hd|(_ & Hd & w0 & r & Hr & Hc)]).
  - vm_compute. reflexivity.
  - exists w1, sw. split; [exact Hs|exact Hd].
  - exfalso. cbn in Hr. injection Hr as <- <-. specialize (Hc 6 eq_refl). discriminate Hc.
Defined.

Lemma applyCommand_preserves_witness :
  exists next, applyCommand kCmdEnableOperation (mk_sim kSwitchedOn 26887 26887 6 0) =
      setControlword next (mk_sim kSwitchedOn 26887 26887 6 0) /\ Z.testbit next 3 = true /\
      Z.testbit next 8 = Z.testbit 26887 8.
Proof.
  destruct (applyCommand_preserves kCmdEnableOperation (mk_sim kSwitchedOn 26887 26887 6 0)
    (mk_sim kSwitchedOn 26887 26887 6 0) 26887) as (next & Hn & _ & Hb); [vm_compute; reflexivity|].
  exists next. split; [exact Hn|]. split; [rewrite (Hb 3) by lia; reflexivity|apply (Hb 8); lia].
Defined.

End Drive.
