(* ===== verification/Cia402Objects.v ===== *)
(** * The typed accessors of a CiA402 drive ([libs/node/cia402_drive.cc])

    Every getter and setter of [Cia402Drive] beyond the state machine: one object each, or the two
    subindices of a record. They reach the device through [DriveWorld] and through [ObjectWorld],
    the grouped object read of [Device] ([ObjectValues] in [libs/node/device.h]). *)

From S2P Require Import Prelude Util Driver DeviceParameter Cia402 Cia402Drive.
Import Param Cia402 Drive.

Module Objects.

(** [ObjectValues]. *)
Record ObjectValues := mk_object { o_index : Z; o_values : gmap Z Param.DeviceParameterValue }.

(** [ObjectValues::get<T>] for an integer [T]: the exact alternative. *)
Definition get (t : Param.IntType) (o : ObjectValues) (sub : Z) : expected Param.ParamError Z :=
  match o_values o !! sub with
  | None => Unexpected (Param.NoReadableSubindex (o_index o) sub)
  | Some (Param.VInt t' v) =>
      if bool_decide (t' = t) then Value v else Unexpected (Param.DifferentType (o_index o) sub)
  | Some _ => Unexpected (Param.DifferentType (o_index o) sub)
  end.

(** [Device::readObject] and [Device::readCachedValue<uint32_t>]. *)
Class ObjectWorld (W : Type) `{DriveWorld W} := {
  readObject : Z -> W -> W * expected text ObjectValues;
  readCachedValue : Z -> Z -> W -> W * expected text Z;
  explain : Param.ParamError -> text;
}.

Section Accessors.
Context {W : Type} `{ObjectWorld W}.

Definition lift {A} (r : expected Param.ParamError A) : M W text A :=
  fun w => (w, match r with Value a => Value a | Unexpected e => Unexpected (explain e) end).

(** *** One object each *)
Definition errorCode : M W text Z := readValue Param.U16 kErrorCode 0.
Definition quickStopOptionCode : M W text Z := readValue Param.I16 kQuickStopOptionCode 0.
Definition setQuickStopOptionCode (value : Z) : M W text unit := writeValue Param.I16 kQuickStopOptionCode 0 value.
Definition positionDemandValue : M W text Z := readValue Param.I32 kPositionDemandValue 0.
Definition followingErrorWindow : M W text Z := readValue Param.U32 kFollowingErrorWindow 0.
Definition setFollowingErrorWindow (value : Z) : M W text unit := writeValue Param.U32 kFollowingErrorWindow 0 value.
Definition followingErrorTimeout : M W text Z := readValue Param.U16 kFollowingErrorTimeout 0.
Definition setFollowingErrorTimeout (value : Z) : M W text unit := writeValue Param.U16 kFollowingErrorTimeout 0 value.
Definition positionWindow : M W text Z := readValue Param.U32 kPositionWindow 0.
Definition setPositionWindow (value : Z) : M W text unit := writeValue Param.U32 kPositionWindow 0 value.
Definition positionWindowTime : M W text Z := readValue Param.U16 kPositionWindowTime 0.
Definition setPositionWindowTime (value : Z) : M W text unit := writeValue Param.U16 kPositionWindowTime 0 value.
Definition velocityDemandValue : M W text Z := readValue Param.I32 kVelocityDemandValue 0.
Definition velocityWindow : M W text Z := readValue Param.U16 kVelocityWindow 0.
Definition setVelocityWindow (value : Z) : M W text unit := writeValue Param.U16 kVelocityWindow 0 value.
Definition velocityWindowTime : M W text Z := readValue Param.U16 kVelocityWindowTime 0.
Definition setVelocityWindowTime (value : Z) : M W text unit := writeValue Param.U16 kVelocityWindowTime 0 value.
Definition velocityThreshold : M W text Z := readValue Param.U16 kVelocityThreshold 0.
Definition setVelocityThreshold (value : Z) : M W text unit := writeValue Param.U16 kVelocityThreshold 0 value.
Definition velocityThresholdTime : M W text Z := readValue Param.U16 kVelocityThresholdTime 0.
Definition setVelocityThresholdTime (value : Z) : M W text unit := writeValue Param.U16 kVelocityThresholdTime 0 value.
Definition maxTorque : M W text Z := readValue Param.U16 kMaxTorque 0.
Definition setMaxTorque (perMille : Z) : M W text unit := writeValue Param.U16 kMaxTorque 0 perMille.
Definition maxCurrent : M W text Z := readValue Param.U16 kMaxCurrent 0.
Definition setMaxCurrent (perMille : Z) : M W text unit := writeValue Param.U16 kMaxCurrent 0 perMille.
Definition torqueDemand : M W text Z := readValue Param.I16 kTorqueDemand 0.
Definition motorRatedCurrent : M W text Z := readValue Param.U32 kMotorRatedCurrent 0.
Definition setMotorRatedCurrent (milliamps : Z) : M W text unit := writeValue Param.U32 kMotorRatedCurrent 0 milliamps.
Definition motorRatedTorque : M W text Z := readValue Param.U32 kMotorRatedTorque 0.
Definition setMotorRatedTorque (millinewtonMetres : Z) : M W text unit := writeValue Param.U32 kMotorRatedTorque 0 millinewtonMetres.
Definition dcLinkCircuitVoltage : M W text Z := readValue Param.U32 kDcLinkCircuitVoltage 0.
Definition homeOffset : M W text Z := readValue Param.I32 kHomeOffset 0.
Definition setHomeOffset (value : Z) : M W text unit := writeValue Param.I32 kHomeOffset 0 value.
Definition polarity : M W text Z := readValue Param.U8 kPolarity 0.
Definition setPolarity (value : Z) : M W text unit := writeValue Param.U8 kPolarity 0 value.
Definition maxMotorSpeed : M W text Z := readValue Param.U32 kMaxMotorSpeed 0.
Definition setMaxMotorSpeed (value : Z) : M W text unit := writeValue Param.U32 kMaxMotorSpeed 0 value.
Definition profileVelocity : M W text Z := readValue Param.U32 kProfileVelocityObject 0.
Definition setProfileVelocity (value : Z) : M W text unit := writeValue Param.U32 kProfileVelocityObject 0 value.
Definition profileAcceleration : M W text Z := readValue Param.U32 kProfileAcceleration 0.
Definition setProfileAcceleration (value : Z) : M W text unit := writeValue Param.U32 kProfileAcceleration 0 value.
Definition profileDeceleration : M W text Z := readValue Param.U32 kProfileDeceleration 0.
Definition setProfileDeceleration (value : Z) : M W text unit := writeValue Param.U32 kProfileDeceleration 0 value.
Definition quickStopDeceleration : M W text Z := readValue Param.U32 kQuickStopDeceleration 0.
Definition setQuickStopDeceleration (value : Z) : M W text unit := writeValue Param.U32 kQuickStopDeceleration 0 value.
Definition motionProfileType : M W text Z := readValue Param.I16 kMotionProfileType 0.
Definition setMotionProfileType (value : Z) : M W text unit := writeValue Param.I16 kMotionProfileType 0 value.
Definition torqueSlope : M W text Z := readValue Param.U32 kTorqueSlope 0.
Definition setTorqueSlope (value : Z) : M W text unit := writeValue Param.U32 kTorqueSlope 0 value.
Definition torqueProfileType : M W text Z := readValue Param.I16 kTorqueProfileType 0.
Definition setTorqueProfileType (value : Z) : M W text unit := writeValue Param.I16 kTorqueProfileType 0 value.
Definition homingMethod : M W text Z := readValue Param.I8 kHomingMethod 0.
Definition setHomingMethod (method : Z) : M W text unit := writeValue Param.I8 kHomingMethod 0 method.
Definition homingAcceleration : M W text Z := readValue Param.U32 kHomingAcceleration 0.
Definition setHomingAcceleration (value : Z) : M W text unit := writeValue Param.U32 kHomingAcceleration 0 value.
Definition siUnitVelocity : M W text Z := readValue Param.U32 kSiUnitVelocity 0.
Definition setSiUnitVelocity (value : Z) : M W text unit := writeValue Param.U32 kSiUnitVelocity 0 value.
Definition velocityOffset : M W text Z := readValue Param.I32 kVelocityOffset 0.
Definition setVelocityOffset (value : Z) : M W text unit := writeValue Param.I32 kVelocityOffset 0 value.
Definition torqueOffset : M W text Z := readValue Param.I16 kTorqueOffset 0.
Definition setTorqueOffset (value : Z) : M W text unit := writeValue Param.I16 kTorqueOffset 0 value.
Definition touchProbeFunction : M W text Z := readValue Param.U16 kTouchProbeFunction 0.
Definition setTouchProbeFunction (value : Z) : M W text unit := writeValue Param.U16 kTouchProbeFunction 0 value.
Definition touchProbeStatus : M W text Z := readValue Param.U16 kTouchProbeStatus 0.
Definition touchProbe1PositiveEdge : M W text Z := readValue Param.I32 kTouchProbe1PositiveEdge 0.
Definition touchProbe1NegativeEdge : M W text Z := readValue Param.I32 kTouchProbe1NegativeEdge 0.
Definition touchProbeTimeStamp1PositiveValue : M W text Z := readValue Param.U32 kTouchProbeTimeStamp1PositiveValue 0.
Definition touchProbeTimeStamp1NegativeValue : M W text Z := readValue Param.U32 kTouchProbeTimeStamp1NegativeValue 0.
Definition positioningOptionCode : M W text Z := readValue Param.U16 kPositioningOptionCode 0.
Definition setPositioningOptionCode (value : Z) : M W text unit := writeValue Param.U16 kPositioningOptionCode 0 value.
Definition followingErrorActualValue : M W text Z := readValue Param.I32 kFollowingErrorActualValue 0.
Definition controlEffort : M W text Z := readValue Param.I32 kControlEffort 0.
Definition positionDemandInternalValue : M W text Z := readValue Param.I32 kPositionDemandInternalValue 0.
Definition digitalInputs : M W text Z := readValue Param.U32 kDigitalInputs 0.
Definition supportedDriveModes : M W text Z := readCachedValue kSupportedDriveModes 0.

(** *** Records of two entries: subindices 1 and 2, written in that order *)
Definition positionRangeLimit : M W text (Z * Z) :=
  let! object := readObject kPositionRangeLimit in
  let! first := lift (get Param.I32 object 1) in
  let! second := lift (get Param.I32 object 2) in
  ret (first, second).
Definition setPositionRangeLimit (limit : Z * Z) : M W text unit :=
  writeValue Param.I32 kPositionRangeLimit 1 limit.1 ;;!
  writeValue Param.I32 kPositionRangeLimit 2 limit.2.
Definition softwarePositionLimit : M W text (Z * Z) :=
  let! object := readObject kSoftwarePositionLimit in
  let! first := lift (get Param.I32 object 1) in
  let! second := lift (get Param.I32 object 2) in
  ret (first, second).
Definition setSoftwarePositionLimit (limit : Z * Z) : M W text unit :=
  writeValue Param.I32 kSoftwarePositionLimit 1 limit.1 ;;!
  writeValue Param.I32 kSoftwarePositionLimit 2 limit.2.
Definition gearRatio : M W text (Z * Z) :=
  let! object := readObject kGearRatio in
  let! first := lift (get Param.U32 object 1) in
  let! second := lift (get Param.U32 object 2) in
  ret (first, second).
Definition setGearRatio (ratio : Z * Z) : M W text unit :=
  writeValue Param.U32 kGearRatio 1 ratio.1 ;;!
  writeValue Param.U32 kGearRatio 2 ratio.2.
Definition feedConstant : M W text (Z * Z) :=
  let! object := readObject kFeedConstant in
  let! first := lift (get Param.U32 object 1) in
  let! second := lift (get Param.U32 object 2) in
  ret (first, second).
Definition setFeedConstant (constant : Z * Z) : M W text unit :=
  writeValue Param.U32 kFeedConstant 1 constant.1 ;;!
  writeValue Param.U32 kFeedConstant 2 constant.2.
Definition homingSpeeds : M W text (Z * Z) :=
  let! object := readObject kHomingSpeeds in
  let! first := lift (get Param.U32 object 1) in
  let! second := lift (get Param.U32 object 2) in
  ret (first, second).
Definition setHomingSpeeds (speeds : Z * Z) : M W text unit :=
  writeValue Param.U32 kHomingSpeeds 1 speeds.1 ;;!
  writeValue Param.U32 kHomingSpeeds 2 speeds.2.
Definition digitalOutputs : M W text (Z * Z) :=
  let! object := readObject kDigitalOutputs in
  let! first := lift (get Param.U32 object 1) in
  let! second := lift (get Param.U32 object 2) in
  ret (first, second).
Definition setDigitalOutputs (outputs : Z * Z) : M W text unit :=
  writeValue Param.U32 kDigitalOutputs 1 outputs.1 ;;!
  writeValue Param.U32 kDigitalOutputs 2 outputs.2.

(** *** All of them *)
Record accessor := mk_accessor {
  a_type : Param.IntType;
  a_index : Z;
  a_get : M W text Z;
  a_set : Z -> M W text unit;
}.

Definition accessors : list accessor := [
  mk_accessor Param.I32 kTargetPosition targetPosition setTargetPosition;
  mk_accessor Param.I32 kTargetVelocity targetVelocity setTargetVelocity;
  mk_accessor Param.I16 kTargetTorque targetTorque setTargetTorque;
  mk_accessor Param.I16 kQuickStopOptionCode quickStopOptionCode setQuickStopOptionCode;
  mk_accessor Param.U32 kFollowingErrorWindow followingErrorWindow setFollowingErrorWindow;
  mk_accessor Param.U16 kFollowingErrorTimeout followingErrorTimeout setFollowingErrorTimeout;
  mk_accessor Param.U32 kPositionWindow positionWindow setPositionWindow;
  mk_accessor Param.U16 kPositionWindowTime positionWindowTime setPositionWindowTime;
  mk_accessor Param.U16 kVelocityWindow velocityWindow setVelocityWindow;
  mk_accessor Param.U16 kVelocityWindowTime velocityWindowTime setVelocityWindowTime;
  mk_accessor Param.U16 kVelocityThreshold velocityThreshold setVelocityThreshold;
  mk_accessor Param.U16 kVelocityThresholdTime velocityThresholdTime setVelocityThresholdTime;
  mk_accessor Param.U16 kMaxTorque maxTorque setMaxTorque;
  mk_accessor Param.U16 kMaxCurrent maxCurrent setMaxCurrent;
  mk_accessor Param.U32 kMotorRatedCurrent motorRatedCurrent setMotorRatedCurrent;
  mk_accessor Param.U32 kMotorRatedTorque motorRatedTorque setMotorRatedTorque;
  mk_accessor Param.I32 kHomeOffset homeOffset setHomeOffset;
  mk_accessor Param.U8 kPolarity polarity setPolarity;
  mk_accessor Param.U32 kMaxMotorSpeed maxMotorSpeed setMaxMotorSpeed;
  mk_accessor Param.U32 kProfileVelocityObject profileVelocity setProfileVelocity;
  mk_accessor Param.U32 kProfileAcceleration profileAcceleration setProfileAcceleration;
  mk_accessor Param.U32 kProfileDeceleration profileDeceleration setProfileDeceleration;
  mk_accessor Param.U32 kQuickStopDeceleration quickStopDeceleration setQuickStopDeceleration;
  mk_accessor Param.I16 kMotionProfileType motionProfileType setMotionProfileType;
  mk_accessor Param.U32 kTorqueSlope torqueSlope setTorqueSlope;
  mk_accessor Param.I16 kTorqueProfileType torqueProfileType setTorqueProfileType;
  mk_accessor Param.I8 kHomingMethod homingMethod setHomingMethod;
  mk_accessor Param.U32 kHomingAcceleration homingAcceleration setHomingAcceleration;
  mk_accessor Param.U32 kSiUnitVelocity siUnitVelocity setSiUnitVelocity;
  mk_accessor Param.I32 kVelocityOffset velocityOffset setVelocityOffset;
  mk_accessor Param.I16 kTorqueOffset torqueOffset setTorqueOffset;
  mk_accessor Param.U16 kTouchProbeFunction touchProbeFunction setTouchProbeFunction;
  mk_accessor Param.U16 kPositioningOptionCode positioningOptionCode setPositioningOptionCode].

Definition readings : list (Param.IntType * Z * M W text Z) := [
  (Param.I32, kPositionActualValue, positionActualValue);
  (Param.I32, kVelocityActualValue, velocityActualValue);
  (Param.I16, kTorqueActualValue, torqueActualValue);
  (Param.U16, kErrorCode, errorCode);
  (Param.I32, kPositionDemandValue, positionDemandValue);
  (Param.I32, kVelocityDemandValue, velocityDemandValue);
  (Param.I16, kTorqueDemand, torqueDemand);
  (Param.U32, kDcLinkCircuitVoltage, dcLinkCircuitVoltage);
  (Param.U16, kTouchProbeStatus, touchProbeStatus);
  (Param.I32, kTouchProbe1PositiveEdge, touchProbe1PositiveEdge);
  (Param.I32, kTouchProbe1NegativeEdge, touchProbe1NegativeEdge);
  (Param.U32, kTouchProbeTimeStamp1PositiveValue, touchProbeTimeStamp1PositiveValue);
  (Param.U32, kTouchProbeTimeStamp1NegativeValue, touchProbeTimeStamp1NegativeValue);
  (Param.I32, kFollowingErrorActualValue, followingErrorActualValue);
  (Param.I32, kControlEffort, controlEffort);
  (Param.I32, kPositionDemandInternalValue, positionDemandInternalValue);
  (Param.U32, kDigitalInputs, digitalInputs)].

Record pair_accessor := mk_pair {
  p_type : Param.IntType;
  p_index : Z;
  p_get : M W text (Z * Z);
  p_set : Z * Z -> M W text unit;
}.

Definition pair_accessors : list pair_accessor := [
  mk_pair Param.I32 kPositionRangeLimit positionRangeLimit setPositionRangeLimit;
  mk_pair Param.I32 kSoftwarePositionLimit softwarePositionLimit setSoftwarePositionLimit;
  mk_pair Param.U32 kGearRatio gearRatio setGearRatio;
  mk_pair Param.U32 kFeedConstant feedConstant setFeedConstant;
  mk_pair Param.U32 kHomingSpeeds homingSpeeds setHomingSpeeds;
  mk_pair Param.U32 kDigitalOutputs digitalOutputs setDigitalOutputs].
End Accessors.

(** ** What the accessors need of the device *)

(** A device whose integer objects are a memory: a write of a value the type holds succeeds and
    changes that object only, a read gives what is there, and a grouped read gives both entries. *)
Class CoherentObjects (W : Type) `{ObjectWorld W} := {
  mem : W -> gmap (Z * Z) (Param.IntType * Z);
  co_write t i s v x (w : W) :
    mem w !! (i, s) = Some (t, x) -> Param.in_range t v = true ->
    exists w', writeValue t i s v w = (w', Value tt) /\ mem w' = <[(i, s) := (t, v)]> (mem w);
  co_read t i s v (w : W) :
    mem w !! (i, s) = Some (t, v) -> exists w', readValue t i s w = (w', Value v) /\ mem w' = mem w;
  co_object i (w : W) : (exists s x, mem w !! (i, s) = Some x) ->
    exists w' m, readObject i w = (w', Value (mk_object i m)) /\ mem w' = mem w /\
      forall s, m !! s = (fun '(t, v) => Param.VInt t v) <$> mem w !! (i, s);
}.

Section Coherent.
Context {W : Type} `{CoherentObjects W}.

Lemma accessors_plain :
  Forall (fun a => a_get a = readValue (a_type a) (a_index a) 0 /\
                   a_set a = writeValue (a_type a) (a_index a) 0) (accessors (W := W)).
Proof using. repeat (apply Forall_cons; split; [by split|]). by apply Forall_nil. Qed.

Lemma readings_plain :
  Forall (fun '(t, i, g) => g = readValue t i 0) (readings (W := W)).
Proof using. repeat (apply Forall_cons; split; [done|]). by apply Forall_nil. Qed.

Definition pair_get (t : Param.IntType) (i : Z) : M W text (Z * Z) :=
  let! object := readObject i in
  let! first := lift (get t object 1) in
  let! second := lift (get t object 2) in
  ret (first, second).
Definition pair_set (t : Param.IntType) (i : Z) (v : Z * Z) : M W text unit :=
  writeValue t i 1 v.1 ;;! writeValue t i 2 v.2.

Lemma pairs_plain :
  Forall (fun a => p_get a = pair_get (p_type a) (p_index a) /\
                   forall v, p_set a v = pair_set (p_type a) (p_index a) v) (pair_accessors (W := W)).
Proof using. repeat (apply Forall_cons; split; [by split|]). by apply Forall_nil. Qed.

Lemma get_mem t i s v m x :
  m !! s = (fun '(t, v) => Param.VInt t v) <$> x -> x = Some (t, v) -> get t (mk_object i m) s = Value v.
Proof using. intros Hm ->. unfold get. cbn [o_values]. rewrite Hm. cbn. by rewrite bool_decide_eq_true_2. Qed.

Lemma pair_get_mem t i v1 v2 (w : W) :
  mem w !! (i, 1) = Some (t, v1) -> mem w !! (i, 2) = Some (t, v2) ->
  exists w', pair_get t i w = (w', Value (v1, v2)) /\ mem w' = mem w.
Proof using.
  intros Hx1 Hx2. destruct (co_object i w) as (w' & m & Hr & Hm & Hs); [eauto|].
  exists w'. split; [|done]. unfold pair_get. rewrite (bind_run _ _ _ _ _ Hr).
  unfold bind, lift. rewrite (get_mem t i 1 v1 m _ (Hs 1) Hx1), (get_mem t i 2 v2 m _ (Hs 2) Hx2). done.
Qed.

Lemma pair_set_mem t i v x1 x2 (w : W) :
  mem w !! (i, 1) = Some (t, x1) -> mem w !! (i, 2) = Some (t, x2) ->
  Param.in_range t v.1 = true -> Param.in_range t v.2 = true ->
  exists w', pair_set t i v w = (w', Value tt) /\
    mem w' = <[(i, 2) := (t, v.2)]> (<[(i, 1) := (t, v.1)]> (mem w)).
Proof using.
  intros Hx1 Hx2 Hr1 Hr2. destruct (co_write t i 1 v.1 x1 w Hx1 Hr1) as (w1 & Hw1 & Hm1).
  destruct (co_write t i 2 v.2 x2 w1) as (w2 & Hw2 & Hm2); [|done|].
  { rewrite Hm1, lookup_insert_ne by done. done. }
  exists w2. split; [|by rewrite Hm2, Hm1]. unfold pair_set. by rewrite (bind_run _ _ _ _ _ Hw1).
Qed.
End Coherent.

(** The index each accessor is about, over all three tables. *)
Definition accessor_indices {W} `{ObjectWorld W} : list Z :=
  (a_index <$> accessors (W := W)) ++ ((fun r => r.1.2) <$> readings (W := W)) ++
  (p_index <$> pair_accessors (W := W)).

(** On a device whose objects are a memory, every setter of a scalar object is read back by its
    own getter and changes no other object, so every other getter still reads what it read; the
    getters and setters agree on index, subindex and type, and no two accessors share an object. *)
Theorem accessors_roundtrip {W} `{CoherentObjects W} a v x (w : W) :
  a ∈ accessors (W := W) -> mem w !! (a_index a, 0) = Some (a_type a, x) ->
  Param.in_range (a_type a) v = true ->
  exists w' w'', a_set a v w = (w', Value tt) /\ a_get a w' = (w'', Value v) /\ mem w'' = mem w' /\
    (forall i s, (i, s) <> (a_index a, 0) -> mem w' !! (i, s) = mem w !! (i, s)) /\
    NoDup (accessor_indices (W := W)).
Proof.
  intros Ha Hm Hr. pose proof accessors_plain as Hp. rewrite Forall_forall in Hp.
  destruct (Hp a Ha) as [Hg Hs]. destruct (co_write _ _ 0 v x w Hm Hr) as (w' & Hw & Hm').
  destruct (co_read (a_type a) (a_index a) 0 v w') as (w'' & Hrd & Hm''); [by rewrite Hm', lookup_insert_eq|].
  exists w', w''. rewrite Hs, Hg. split; [done|]. split; [done|]. split; [done|]. split.
  - intros i s Hn. rewrite Hm', lookup_insert_ne by done. done.
  - apply (bool_decide_unpack _). vm_compute. exact I.
Qed.

(** The same of the records: both entries are read back as written, and no object but the two
    entries changes. *)
Theorem pair_accessors_roundtrip {W} `{CoherentObjects W} a v x1 x2 (w : W) :
  a ∈ pair_accessors (W := W) ->
  mem w !! (p_index a, 1) = Some (p_type a, x1) -> mem w !! (p_index a, 2) = Some (p_type a, x2) ->
  Param.in_range (p_type a) v.1 = true -> Param.in_range (p_type a) v.2 = true ->
  exists w' w'', p_set a v w = (w', Value tt) /\ p_get a w' = (w'', Value v) /\
    forall i s, (i, s) <> (p_index a, 1) -> (i, s) <> (p_index a, 2) -> mem w' !! (i, s) = mem w !! (i, s).
Proof.
  intros Ha Hx1 Hx2 Hr1 Hr2. pose proof pairs_plain as Hp. rewrite Forall_forall in Hp.
  destruct (Hp a Ha) as [Hg Hs]. destruct (pair_set_mem _ _ v x1 x2 w Hx1 Hx2 Hr1 Hr2) as (w' & Hw & Hm').
  destruct (pair_get_mem (p_type a) (p_index a) v.1 v.2 w') as (w'' & Hrd & _).
  - rewrite Hm', lookup_insert_ne by congruence. by rewrite lookup_insert_eq.
  - by rewrite Hm', lookup_insert_eq.
  - exists w', w''. rewrite Hs, Hg. split; [done|]. split; [by destruct v|]. intros i s Hn1 Hn2.
    by rewrite Hm', !lookup_insert_ne by done.
Qed.

(** ** A simulated device *)
Abbreviation Memory := (gmap (Z * Z) (Param.IntType * Z)).

#[export] Instance memory_world : DriveWorld Memory := {|
  readValue t i s m :=
    (m, match m !! (i, s) with
        | Some (t', v) => if bool_decide (t' = t) then Value v else Unexpected []
        | None => Unexpected []
        end);
  writeValue t i s v m :=
    match m !! (i, s) with
    | Some (t', _) =>
        if bool_decide (t' = t) && Param.in_range t v then (<[(i, s) := (t, v)]> m, Value tt) else (m, Unexpected [])
    | None => (m, Unexpected [])
    end;
  now m := 0;
  sleep_for n m := m;
|}.

(** The entries of object [i], by subindex. *)
Definition entries_of (m : Memory) (i : Z) : gmap Z Param.DeviceParameterValue :=
  list_to_map ((fun '((_, s), (t, v)) => (s, Param.VInt t v)) <$>
    filter (fun e => e.1.1 = i) (map_to_list m)).

#[export] Instance memory_objects : ObjectWorld Memory := {|
  readObject i m := (m, Value (mk_object i (entries_of m i)));
  readCachedValue i s m := readValue Param.U32 i s m;
  explain _ := [];
|}.

Lemma entries_of_lookup (m : Memory) i s :
  entries_of m i !! s = (fun '(t, v) => Param.VInt t v) <$> m !! (i, s).
Proof.
  unfold entries_of. destruct (m !! (i, s)) as [[t v]|] eqn:E; cbn.
  - apply elem_of_list_to_map_1'.
    + intros y Hy. apply list_elem_of_fmap in Hy as ([[i' s'] [t' v']] & [= -> ->] & Hy).
      apply list_elem_of_filter in Hy as [Hi Hy%elem_of_map_to_list]. cbn in Hi, Hy. subst i'. congruence.
    + apply list_elem_of_fmap. exists ((i, s), (t, v)). split; [done|]. apply list_elem_of_filter.
      split; [done|]. by apply elem_of_map_to_list.
  - apply not_elem_of_list_to_map_1. intros Hs. apply list_elem_of_fmap in Hs as ([s' y] & -> & Hy).
    apply list_elem_of_fmap in Hy as ([[i' s''] [t' v']] & [= -> ->] & Hy).
    apply list_elem_of_filter in Hy as [Hi Hy%elem_of_map_to_list]. cbn in E, Hi, Hy. subst i'. congruence.
Qed.

#[export] Program Instance memory_coherent : CoherentObjects Memory := {| mem m := m |}.
Next Obligation.
  intros t i s v x m E Hr. exists (<[(i, s) := (t, v)]> m). split; [|done]. cbn.
  rewrite E, Hr, bool_decide_eq_true_2 by done. done.
Qed.
Next Obligation.
  intros t i s v m E. exists m. split; [|done]. cbn. by rewrite E, bool_decide_eq_true_2.
Qed.
Next Obligation.
  intros i m _. exists m, (entries_of m i). split; [done|]. split; [done|]. apply entries_of_lookup.
Qed.

Definition w_memory : Memory :=
  <[(kHomeOffset, 0) := (Param.I32, 5)]> (<[(kGearRatio, 1) := (Param.U32, 1)]>
    (<[(kGearRatio, 2) := (Param.U32, 1)]> ∅)).

Lemma accessors_roundtrip_witness :
  exists w' w'', setHomeOffset (-7) w_memory = (w', Value tt) /\ homeOffset w' = (w'', Value (-7)).
Proof.
  destruct (accessors_roundtrip (mk_accessor Param.I32 kHomeOffset homeOffset setHomeOffset) (-7) 5 w_memory)
    as (w' & w'' & Hs & Hg & _).
  - unfold accessors. repeat (apply list_elem_of_here || apply list_elem_of_further).
  - reflexivity.
  - reflexivity.
  - exists w', w''. split; [exact Hs|exact Hg].
Defined.

Lemma pair_accessors_roundtrip_witness :
  exists w' w'', setGearRatio (3, 4) w_memory = (w', Value tt) /\ gearRatio w' = (w'', Value (3, 4)).
Proof.
  destruct (pair_accessors_roundtrip (mk_pair Param.U32 kGearRatio gearRatio setGearRatio) (3, 4) 1 1 w_memory)
    as (w' & w'' & Hs & Hg & _); [|reflexivity..|].
  - unfold pair_accessors. repeat (apply list_elem_of_here || apply list_elem_of_further).
  - exists w', w''. split; [exact Hs|exact Hg].
Defined.

End Objects.
