(* ===== verification/Script.v ===== *)
(** * Scripts

    A procedure of the program is a finite script: it makes calls on the drive, the reporter, the clock
    and the stop token, and goes on with what each answers. Nothing is assumed of an answer, so a
    property of a script's runs holds whatever the devices do and whenever a client cancels. A relation
    [acts] on a state says, where that is needed, what calls do to a device. *)

From S2P Require Import Prelude.

Module Script.
Section Scripts.
Context {op : Type} {answer : op -> Type}.

Inductive script (A : Type) : Type :=
  | Ret (a : A)
  | Do (o : op) (k : answer o -> script A).
#[global] Arguments Ret {A} a.
#[global] Arguments Do {A} o k.

Definition event : Type := {o : op & answer o}.
Definition ev (o : op) (x : answer o) : event := existT o x.

Fixpoint bind {A B} (s : script A) (f : A -> script B) : script B :=
  match s with Ret a => f a | Do o k => Do o (fun x => bind (k x) f) end.
Definition call (o : op) : script (answer o) := Do o Ret.

(** ** Runs *)
Fixpoint runs {A} (s : script A) (tr : list event) (a : A) : Prop :=
  match s with
  | Ret b => tr = [] /\ a = b
  | Do o k => exists x tr', tr = ev o x :: tr' /\ runs (k x) tr' a
  end.

(** Answers chosen from what happened so far make a run; there is always one, and it is finite. *)
Fixpoint exec {A} (f : list event -> forall o, answer o) (h : list event) (s : script A) : list event * A :=
  match s with
  | Ret a => (h, a)
  | Do o k => exec f (h ++ [ev o (f h o)]) (k (f h o))
  end.

Lemma exec_runs {A} f (s : script A) : forall h, exists tr, exec f h s = (h ++ tr, (exec f h s).2) /\ runs s tr (exec f h s).2.
Proof.
  induction s as [a|o k IH]; intros h; cbn [exec runs]; [exists []; by rewrite app_nil_r|].
  destruct (IH (f h o) (h ++ [ev o (f h o)])) as (tr & E & H). exists (ev o (f h o) :: tr). split; [|by eexists _, _].
  rewrite E at 1. by rewrite <- app_assoc.
Qed.

Lemma runs_exec {A} f (s : script A) : runs s (exec f [] s).1 (exec f [] s).2.
Proof. destruct (exec_runs f s []) as (tr & E & H). rewrite E. cbn. by rewrite E in H. Qed.

Lemma exec_bind {A B} f (s : script A) (k : A -> script B) : forall h, exec f h (bind s k) = exec f (exec f h s).1 (k (exec f h s).2).
Proof. induction s as [a|o g IH]; intros h; cbn [bind exec]; [done|]. apply IH. Qed.

Lemma exec_grows {A} f (s : script A) h e : e ∈ h -> e ∈ (exec f h s).1.
Proof. revert h. induction s as [a|o k IH]; intros h He; cbn [exec]; [done|]. apply IH, elem_of_app. by left. Qed.

Lemma exec_all {A} (P : event -> Prop) f (s : script A) : (forall h o, P (ev o (f h o))) -> Forall P (exec f [] s).1.
Proof.
  intros HP. enough (forall h, Forall P h -> Forall P (exec f h s).1) by auto. induction s as [a|o k IH]; intros h Hh; cbn [exec]; [done|].
  apply IH, Forall_app. auto.
Qed.

Lemma runs_bind_inv {A B} (s : script A) (f : A -> script B) tr b :
  runs (bind s f) tr b <-> exists t1 t2 a, tr = t1 ++ t2 /\ runs s t1 a /\ runs (f a) t2 b.
Proof.
  revert tr. induction s as [a|o k IH]; intros tr; cbn [bind runs].
  - split; [intros H; by exists [], tr, a|]. by intros (t1 & t2 & x & -> & [-> ->] & H).
  - split.
    + intros (x & tr' & -> & (t1 & t2 & a & -> & H1 & H2)%IH). exists (ev o x :: t1), t2, a. split; [done|]. split; [by eexists _, _|done].
    + intros (t1 & t2 & a & -> & (x & t1' & -> & H1) & H2). exists x, (t1' ++ t2). split; [done|]. apply IH. by exists t1', t2, a.
Qed.

(** ** Devices *)
Section Device.
Context {S : Type} (acts : event -> S -> S -> Prop).

Inductive follows : S -> list event -> S -> Prop :=
  | follows_nil s : follows s [] s
  | follows_cons s e s1 tr s2 : acts e s s1 -> follows s1 tr s2 -> follows s (e :: tr) s2.

(** A device that reacts in one way. *)
Lemma follows_by (react : S -> event -> S) tr : forall d, (forall k e, tr !! k = Some e -> acts e (foldl react d (take k tr)) (react (foldl react d (take k tr)) e)) ->
  follows d tr (foldl react d tr).
Proof.
  induction tr as [|e tr IH]; intros d H; [constructor|]. econstructor; [exact (H 0%nat e eq_refl)|]. apply IH. intros k e' Hk. exact (H (Datatypes.S k) e' Hk).
Qed.

(** A simulated device, which answers from its state and reacts, follows its own runs. *)
Lemma exec_follows (react : S -> event -> S) (reply : S -> forall o, answer o) d {A} (s : script A) :
  (forall d o, acts (ev o (reply d o)) d (react d (ev o (reply d o)))) ->
  let tr := (exec (fun h => reply (foldl react d h)) [] s).1 in follows d tr (foldl react d tr).
Proof.
  intros Ha. cbv zeta. enough (forall h, exists tr, (exec (fun h => reply (foldl react d h)) h s).1 = h ++ tr /\ follows (foldl react d h) tr (foldl react d (h ++ tr))) as H.
  { destruct (H []) as (tr & -> & Hf). exact Hf. }
  induction s as [a|o k IH]; intros h; cbn [exec].
  - exists []. rewrite app_nil_r. split; [done|constructor].
  - destruct (IH (reply (foldl react d h) o) (h ++ [ev o (reply (foldl react d h) o)])) as (tr & E & Hf). exists (ev o (reply (foldl react d h) o) :: tr).
    rewrite E, <- app_assoc. split; [done|]. econstructor; [apply Ha|]. rewrite <- app_assoc, foldl_app in Hf. exact Hf.
Qed.

(** What holds of the result, the calls made and the device after every run. *)
Fixpoint wp {A} (s : script A) (h : list event) (d : S) (Q : A -> list event -> S -> Prop) : Prop :=
  match s with
  | Ret a => Q a h d
  | Do o k => forall x d', acts (ev o x) d d' -> wp (k x) (h ++ [ev o x]) d' Q
  end.

Lemma wp_mono {A} (s : script A) (Q Q' : A -> list event -> S -> Prop) : (forall a h d, Q a h d -> Q' a h d) -> forall h d, wp s h d Q -> wp s h d Q'.
Proof. intros HQ. induction s as [a|o k IH]; cbn [wp]; eauto. Qed.

Lemma wp_bind {A B} (s : script A) (f : A -> script B) Q : forall h d, wp (bind s f) h d Q <-> wp s h d (fun a h d => wp (f a) h d Q).
Proof. induction s as [a|o k IH]; intros h d; cbn [bind wp]; [done|]. split; intros H x d' Ha; apply IH; eauto. Qed.

Lemma wp_runs {A} (s : script A) Q : forall tr a h d d', runs s tr a -> wp s h d Q -> follows d tr d' -> Q a (h ++ tr) d'.
Proof.
  induction s as [b|o k IH]; intros tr a h d d'; cbn [runs wp].
  - intros [-> ->] Hw Hf. inversion Hf; subst. by rewrite app_nil_r.
  - intros (x & tr' & -> & Hr) Hw Hf. inversion Hf; subst.
    pose proof (IH x tr' a (h ++ [ev o x]) s1 d' Hr (Hw x s1 ltac:(done)) ltac:(done)) as H. by rewrite <- app_assoc in H.
Qed.

(** What was called stays in the history. *)
Lemma wp_keep (F : list event -> Prop) {A} (s : script A) Q : (forall h t, F h -> F (h ++ t)) -> forall h d, F h -> wp s h d Q -> wp s h d (fun a h d => F h /\ Q a h d).
Proof. intros HF. induction s as [a|o k IH]; intros h d Hh; cbn [wp]; [done|]. eauto. Qed.

(** A property of the calls and the device that every call of a script keeps holds when it ends. *)
Fixpoint all_ops (p : op -> Prop) {A} (s : script A) : Prop :=
  match s with Ret _ => True | Do o k => p o /\ forall x, all_ops p (k x) end.

Lemma all_ops_bind p {A B} (s : script A) (f : A -> script B) : all_ops p s -> (forall a, all_ops p (f a)) -> all_ops p (bind s f).
Proof. intros Hs Hf. induction s as [a|o k IH]; cbn [bind all_ops] in *; [done|]. destruct Hs as [Ho Hk]. split; auto. Qed.

Lemma wp_all_ops (p : op -> Prop) (I : list event -> S -> Prop) {A} (s : script A) :
  (forall o x h d d', p o -> I h d -> acts (ev o x) d d' -> I (h ++ [ev o x]) d') ->
  all_ops p s -> forall h d, I h d -> wp s h d (fun _ h d => I h d).
Proof. intros HI. induction s as [a|o k IH]; cbn [all_ops wp]; [done|]. intros [Ho Hk] h d Hi x d' Ha. apply IH; eauto. Qed.
End Device.

(** ** Monitors: an observer that follows the calls *)
Section Monitor.
Context {S : Type} (watch : S -> event -> S).

Fixpoint seen {A} (s : script A) (m : S) (Q : A -> S -> Prop) : Prop :=
  match s with
  | Ret a => Q a m
  | Do o k => forall x, seen (k x) (watch m (ev o x)) Q
  end.

Lemma seen_mono {A} (s : script A) (Q Q' : A -> S -> Prop) : (forall a m, Q a m -> Q' a m) -> forall m, seen s m Q -> seen s m Q'.
Proof. intros HQ. induction s as [a|o k IH]; cbn [seen]; eauto. Qed.

Lemma seen_bind {A B} (s : script A) (f : A -> script B) Q : forall m, seen (bind s f) m Q <-> seen s m (fun a m => seen (f a) m Q).
Proof. induction s as [a|o k IH]; intros m; cbn [bind seen]; [done|]. split; intros H x; apply IH; eauto. Qed.

Lemma seen_runs {A} (s : script A) Q : forall tr a m, runs s tr a -> seen s m Q -> Q a (foldl watch m tr).
Proof.
  induction s as [b|o k IH]; intros tr a m; cbn [runs seen].
  - by intros [-> ->].
  - intros (x & tr' & -> & Hr) Hs. exact (IH x tr' a _ Hr (Hs x)).
Qed.
End Monitor.
End Scripts.
#[global] Arguments script {op} answer A.
#[global] Arguments event {op} answer.

(** ** Walking through a script *)
Ltac head_of t := lazymatch t with ?f _ => head_of f | _ => t end.

(** Decides the condition of a branch by computation, or by cases. *)
Ltac decided b := let b' := eval lazy in b in first [change b with b'; is_constructor b' | destruct b eqn:?].

Ltac reduce_state :=
  lazymatch goal with |- seen ?w ?s ?m ?Q => let m' := eval lazy in m in change (seen w s m' Q) end.

Ltac seen_step_with answers :=
  lazymatch goal with
  | |- seen _ (bind _ _) _ _ => apply seen_bind
  | |- seen _ (Ret _) _ _ => cbn [seen]
  | |- seen _ (call _) _ _ => let x := fresh "x" in cbn [seen call]; intros x; answers x; cbv beta iota; try reduce_state
  | |- seen _ (let '(_, _) := ?x in _) _ _ => destruct x
  | |- seen _ ((if ?b then _ else _) _) _ _ => decided b
  | |- seen _ (if ?b then _ else _) _ _ => decided b
  | |- seen _ ?t _ _ => let h := head_of t in progress unfold h
  end; cbv beta iota.

Ltac wp_step_with answers simplified :=
  lazymatch goal with
  | |- wp _ (bind _ _) _ _ _ => apply wp_bind
  | |- wp _ (Ret _) _ _ _ => cbn [wp]
  | |- wp _ (call _) _ _ _ =>
      let x := fresh "x" in let d := fresh "d" in let H := fresh "Ha" in cbn [wp call]; intros x d H; answers x; simplified H
  | |- wp _ (let '(_, _) := ?x in _) _ _ _ => destruct x
  | |- wp _ ((if ?b then _ else _) _) _ _ _ => decided b
  | |- wp _ (if ?b then _ else _) _ _ _ => decided b
  | |- wp _ ?t _ _ _ => let h := head_of t in progress unfold h
  end; cbv beta iota.

Ltac all_ops_step :=
  lazymatch goal with
  | |- all_ops _ (bind _ _) => apply all_ops_bind; [|intros ?]
  | |- all_ops _ (call _) => split; [done|intros ?; exact I]
  | |- all_ops _ (Ret _) => exact I
  | |- all_ops _ (match ?x with _ => _ end) => destruct x
  | |- all_ops _ ?t => let h := head_of t in progress unfold h
  end; cbv beta iota zeta.
End Script.
