(* ===== verification/IcMuBridge.v ===== *)
(** * The registers of an iC-MU encoder and the I2C bridge behind them ([libs/node/ic_mu_bridge.{h,cc}])

    The functions that read and write one register at a time, run a command of the chip and wait for it,
    and move bytes between the exchange registers and the EEPROM or the iC-PVL: scripts of calls on the
    drive. The chip is a device as its documentation describes it, on which a script's success has a
    meaning: a queue of one command before the running one, commands that finish when they like, an EEPROM
    whose page writes wrap, and an error bit that a failed transfer leaves set. *)

From S2P Require Import Prelude Util ParameterCache Cia402 Script IcHausRegisters IcMu.

Module Bridge.
Import Script IcMu.

(** ** Calls *)
Inductive error :=
  | Drive (message : string)
  | NoValue (e : EncoderOrdinal) (a : Z)
  | BankSelected (bank : Z)
  | Cancelled
  | Echo (e : EncoderOrdinal) (v a : Z) (reported : option Z)
  | NotFinished (e : EncoderOrdinal) (c : Z)
  | TransferFailed (e : EncoderOrdinal) (c status1 : Z)
  | CrcFailed (e : EncoderOrdinal) (status1 : Z)
  | NotCleared (cause : error)
  | TooOld (v : Util.text) | NotAVersion (v : Util.text)
  | Refused (why : IcMuError)
  | NotListed (e : EncoderOrdinal)
  | OperationEnabled
  | BatteryModeUnused | JasperMultiturn (v : Util.text) | OnlyDefaultBatteryMode (polePairs : Z) | ServesNoController (e : EncoderOrdinal)
  | ConfigurationCancelled
  | EepromDiffers (a found wanted : Z)
  | WrongMpc (found wanted : Z) | WrongOutput (found wanted : Z)
  | FileNotWritten (name : string) (cause : error) | FileNotRead (name : string) (cause : error) | FileDiffers (name : string) (read written : nat)
  | NoRestoreFile (e : EncoderOrdinal) (port : Z) | BadRestoreFile (why : RestoreError)
  | Both (first second : error).

(** What a step records. *)
Inductive value :=
  | VNone
  | VEncoders (l : list EncoderConfiguration)
  | VStatuses (l : list IcMuEncoderStatus)
  | VPlan (e : EncoderConfiguration) (c : IcMuConfiguration) (warnings : list IcMuWarning)
  | VFaulted (b : bool)
  | VSync (rawPosition icPvlSync mpcRegister : Z)
  | VStatus (s : IcMuEncoderStatus)
  | VFile (name : string) | VNoFile (reason : string)
  | VTool (e : EncoderConfiguration)
  | VKeys (l : list (Z * Z * Z * option IcHaus.IcHausRegister))
  | VBytes (l : list (Z * Z))
  | VTransfer (t : IcMuI2cTarget) (deviceId : Z) (write : bool) (a v : Z)
  | VEntries (name : string) (l : list IcMuRestoreEntry).
Inductive report := Start (step : string) | Succeed (step : string) (v : value) | FailStep (step : string) (e : error).

(** [OsCommandConfig]: a timeout and a poll interval in milliseconds, and whether it has the run's stop token. *)
Record OsCommandConfig := mk_config { timeout : Z; pollInterval : Z; stoppable : bool }.

Inductive op :=
  | StopRequested | DeadlinePassed | SleepFor (ms : Z)
  | Report (r : report)
  | CreateSomanetDrive
  | ReadEncoderRegister (e : EncoderOrdinal) (a : Z) (c : OsCommandConfig)
  | WriteEncoderRegister (e : EncoderOrdinal) (a v : Z) (c : OsCommandConfig)
  | SetIgnoreBissStatusBits (e : EncoderOrdinal) (ignore : bool) (c : OsCommandConfig)
  | HasParameter (index subindex : Z) | ReadValue (index subindex : Z)
  | SoftwareVersion | ReadState | ReadGearRatio | ReadStatusword | FaultReset
  | WriteFile (name : string) (content : list Z) | ReadFile (name : string) | RemoveDeviceFile (name : string).

Definition answer (o : op) : Type :=
  match o with
  | StopRequested | DeadlinePassed | HasParameter _ _ => bool
  | SleepFor _ | Report _ => unit
  | CreateSomanetDrive | SetIgnoreBissStatusBits _ _ _ | FaultReset | WriteFile _ _ | RemoveDeviceFile _ => expected error unit
  | ReadEncoderRegister _ _ _ | WriteEncoderRegister _ _ _ _ => expected error (option Z)
  | ReadValue _ _ | ReadStatusword => expected error Z
  | SoftwareVersion => expected error (list Z)
  | ReadState => expected error Cia402.State
  | ReadGearRatio => expected error GearRatio
  | ReadFile _ => expected error (list Z)
  end.

Definition fallible (A : Type) : Type := script answer (expected error A).
Definition try_ {A B} (m : fallible A) (k : A -> fallible B) : fallible B :=
  bind m (fun x => match x with Value a => k a | Unexpected e => Ret (Unexpected e) end).
Definition done_ {A} (a : A) : fallible A := Ret (Value a).

(** A function gets the run's stop token, or an empty one that never asks to stop. *)
Definition stop_requested (stop : bool) : script answer bool := if stop then call StopRequested else Ret false.

(** ** Registers *)
Definition kEncoderRegisterTimeout : Z := 5000.
Definition kEncoderRegisterPollInterval : Z := 20.
Definition kIcMuCommandTimeout : Z := 5000.
Definition kIcMuCommandPollInterval : Z := 20.
Definition kIcMuStatus1Register : Z := 0x77.
Definition kIcMuCrcError : Z := 0x80.
Definition kIcMuEepromError : Z := 0x40.
Definition kIcMuCommandInProgress : Z := 0x01.

Definition register_config (stop : bool) : OsCommandConfig := mk_config kEncoderRegisterTimeout kEncoderRegisterPollInterval stop.

Definition readIcMuRegister (e : EncoderOrdinal) (a : Z) (stop : bool) : fallible Z :=
  try_ (call (ReadEncoderRegister e a (register_config stop))) (fun r =>
    Ret match r with Some v => Value v | None => Unexpected (NoValue e a) end).

Definition kBankSelectRegister : Z := 0x40.
Definition checkIcMuBank (e : EncoderOrdinal) (stop : bool) : fallible unit :=
  try_ (readIcMuRegister e kBankSelectRegister stop) (fun bank =>
    Ret (if bank =? 0 then Value tt else Unexpected (BankSelected bank))).

Definition writeIcMuRegister (e : EncoderOrdinal) (w : IcMuRegisterWrite) (stop : bool) : fallible unit :=
  bind (stop_requested stop) (fun stopped : bool =>
    if stopped then Ret (Unexpected Cancelled)
    else try_ (call (WriteEncoderRegister e w.1 w.2 (register_config stop))) (fun r =>
      Ret (if w.1 =? kIcMuCommandRegister then Value tt
           else if bool_decide (r = Some w.2) then Value tt
           else Unexpected (Echo e w.2 w.1 r)))).

Fixpoint writeIcMuRegisters (e : EncoderOrdinal) (ws : list IcMuRegisterWrite) (stop : bool) : fallible unit :=
  match ws with
  | [] => done_ tt
  | w :: ws => try_ (writeIcMuRegister e w stop) (fun _ => writeIcMuRegisters e ws stop)
  end.

Definition icMuCommand (c : IcMuCommand) : IcMuRegisterWrite := (kIcMuCommandRegister, command_code c).

(** The wait of [runIcMuCommand]. Each turn sleeps at least the poll interval, so 251 turns take longer
    than the timeout: when they are used up, the deadline has passed. *)
Fixpoint command_wait (fuel : nat) (e : EncoderOrdinal) (c : Z) (stop started : bool) (status1 : Z) : fallible Z :=
  if started && (Z.land status1 kIcMuCommandInProgress =? 0) then done_ status1
  else
    match fuel with
    | O => Ret (Unexpected (NotFinished e c))
    | S fuel =>
        bind (call DeadlinePassed) (fun late : bool =>
        if late then Ret (Unexpected (NotFinished e c))
        else
          bind (call (SleepFor kIcMuCommandPollInterval)) (fun _ =>
          bind (stop_requested stop) (fun stopped : bool =>
          if stopped then Ret (Unexpected Cancelled)
          else
            try_ (if started then done_ true else try_ (readIcMuRegister e kIcMuCommandRegister stop) (fun queued => done_ (queued =? 0)))
              (fun started : bool =>
                if started then try_ (readIcMuRegister e kIcMuStatus1Register stop) (fun v => command_wait fuel e c stop true v)
                else command_wait fuel e c stop false status1))))
    end.
Definition command_turns : nat := 251.

Definition runIcMuCommand (e : EncoderOrdinal) (c : IcMuCommand) (stop : bool) : fallible Z :=
  try_ (readIcMuRegister e kIcMuStatus1Register stop) (fun _ =>
  try_ (writeIcMuRegister e (icMuCommand c) stop) (fun _ =>
  try_ (command_wait command_turns e (command_code c) stop false kIcMuCommandInProgress) (fun status1 =>
    Ret (if negb (Z.land status1 kIcMuEepromError =? 0) then Unexpected (TransferFailed e (command_code c) status1) else Value status1)))).

Definition saveIcMuEeprom (e : EncoderOrdinal) (stop : bool) : fallible Z :=
  try_ (runIcMuCommand e kWriteAll stop) (fun status1 =>
    Ret (if negb (Z.land status1 kIcMuCrcError =? 0) then Unexpected (CrcFailed e status1) else Value status1)).

Definition runIcMuI2cTransfer (e : EncoderOrdinal) (ws : list IcMuRegisterWrite) (stop : bool) : fallible unit :=
  try_ (writeIcMuRegisters e (take (length ws - 1) ws) stop) (fun _ =>
  try_ (runIcMuCommand e kI2cCom stop) (fun _ => done_ tt)).

Fixpoint read_exchange (e : EncoderOrdinal) (registers : list Z) (stop : bool) : fallible (list Z) :=
  match registers with
  | [] => done_ []
  | a :: registers => try_ (readIcMuRegister e (uwrap 8 a) stop) (fun v => try_ (read_exchange e registers stop) (fun l => done_ (v :: l)))
  end.

Definition readIcMuI2c (e : EncoderOrdinal) (target : IcMuI2cTarget) (deviceStart count : Z) (stop : bool) : fallible (list Z) :=
  try_ (writeIcMuRegisters e (icMuI2cTransferSetup (icMuI2cDeviceId target false) deviceStart count) stop) (fun _ =>
  try_ (runIcMuCommand e kI2cCom stop) (fun _ => read_exchange e (seqZ kIcMuExchangeRegister count) stop)).

Definition writeIcMuI2c (e : EncoderOrdinal) (target : IcMuI2cTarget) (deviceStart : Z) (l : list Z) (stop : bool) : fallible unit :=
  runIcMuI2cTransfer e
    (icMuI2cTransferSetup (icMuI2cDeviceId target true) deviceStart (uwrap 8 (Z.of_nat (length l)))
     ++ imap (fun i v => (uwrap 8 (kIcMuExchangeRegister + Z.of_nat i), v)) l ++ [icMuCommand kI2cCom]) stop.

Definition clearIcMuI2cError (e : EncoderOrdinal) : fallible unit :=
  try_ (readIcMuRegister e kIcMuStatus1Register false) (fun status1 =>
    if Z.land status1 kIcMuEepromError =? 0 then done_ tt
    else bind (readIcMuI2c e kEeprom 0x00 1 false) (fun r =>
      Ret match r with Value _ => Value tt | Unexpected er => Unexpected (NotCleared er) end)).

(** ** The chip *)
Record Memory := mk_memory {
  regs : Z -> Z; eeprom : Z -> Z; pvl : Z -> Z; ignoring : bool; files : gmap string (list Z); reports : list report }.
Record Chip := mk_chip { memory : Memory; queued : option Z; running : option Z; eprError : bool }.

Definition upd (f : Z -> Z) (a v : Z) : Z -> Z := fun x => if x =? a then v else f x.
Definition set_reg (m : Memory) (w : IcMuRegisterWrite) : Memory :=
  mk_memory (upd (regs m) w.1 w.2) (eeprom m) (pvl m) (ignoring m) (files m) (reports m).
Definition set_regs (m : Memory) (ws : list IcMuRegisterWrite) : Memory := foldl set_reg m ws.
Definition set_ignoring (m : Memory) (b : bool) : Memory := mk_memory (regs m) (eeprom m) (pvl m) b (files m) (reports m).
Definition set_files (m : Memory) (f : gmap string (list Z)) : Memory := mk_memory (regs m) (eeprom m) (pvl m) (ignoring m) f (reports m).
Definition add_report (m : Memory) (r : report) : Memory := mk_memory (regs m) (eeprom m) (pvl m) (ignoring m) (files m) (reports m ++ [r]).

Section Chip.
(** The encoder, and the page of its EEPROM. *)
Context (enc : EncoderOrdinal) (page : Z).

(** A page write wraps at the end of its page. *)
Definition page_address (start i : Z) : Z := start / page * page + (start + i) mod page.
Definition page_write (start : Z) (l : list Z) (m : Z -> Z) : Z -> Z :=
  foldl (fun m w => upd m w.1 w.2) m (imap (fun i v => (page_address start (Z.of_nat i), v)) l).

Definition others (m m' : Memory) : Prop := ignoring m' = ignoring m /\ files m' = files m /\ reports m' = reports m.

(** I2C_COM: the bytes of the exchange registers go to the device that 0x5E names, or come from it. Of the
    iC-PVL, its configuration registers 0x00-0x06 count; REBOOT loads them from the EEPROM. *)
Definition transferred (m m' : Memory) : Prop :=
  let device := regs m kIcMuI2cDeviceIdRegister in
  let start := regs m kIcMuI2cDeviceStartRegister in
  let low := regs m kIcMuI2cRamStartRegister in
  let high := regs m kIcMuI2cRamEndRegister in
  others m m' /\
  if device =? 0xA0 then
    (forall a, regs m' a = regs m a) /\ (forall x, eeprom m' x = page_write start (regs m <$> seqZ low (high - low + 1)) (eeprom m) x) /\ (forall r, pvl m' r = pvl m r)
  else if device =? 0xA1 then
    (forall a, regs m' a = if (low <=? a) && (a <=? high) then eeprom m (start + (a - low)) else regs m a) /\
    (forall x, eeprom m' x = eeprom m x) /\ (forall r, pvl m' r = pvl m r)
  else if (device =? 0xC2) && (low =? high) then
    (forall a, regs m' a = regs m a) /\ (forall x, eeprom m' x = eeprom m x) /\
    forall r, 0 <= r <= 6 -> pvl m' r =
      (if start =? kIcPvlCommandRegister then (if regs m low =? pvl_code kReboot then eeprom m (kIcPvlEepromStart + r) else pvl m r)
       else if r =? start then regs m low else pvl m r)
  else if device =? 0xC3 then
    (forall a, low <= a <= high \/ regs m' a = regs m a) /\ (forall x, eeprom m' x = eeprom m x) /\ (forall r, pvl m' r = pvl m r)
  else True.

(** WRITE_ALL: the configuration and the offset table go to their places in the EEPROM; what it does to the
    checksums after them is open, and it stays below the iC-PVL's bytes. *)
Definition saved (m m' : Memory) : Prop :=
  others m m' /\ (forall a, regs m' a = regs m a) /\ (forall r, pvl m' r = pvl m r) /\
  (forall a x, 0 <= a -> icMuEepromAddress a = Some x -> eeprom m' x = regs m a) /\ (forall x, kIcPvlEepromStart <= x -> eeprom m' x = eeprom m x).

Definition effect (c : Z) (m m' : Memory) : Prop :=
  if c =? command_code kWriteAll then saved m m' else if c =? command_code kI2cCom then transferred m m' else m' = m.
(** The commands that move bytes to or from an I2C device, and can fail. *)
Definition moves (c : Z) : bool := (c =? command_code kWriteAll) || (c =? command_code kI2cCom).

(** What the chip does by itself: a queued command starts when none runs, and a running one finishes or fails. *)
Inductive advance : Chip -> Chip -> Prop :=
  | advance_start m c e : advance (mk_chip m (Some c) None e) (mk_chip m None (Some c) e)
  | advance_done m m' q c e : effect c m m' -> advance (mk_chip m q (Some c) e) (mk_chip m' q None (if moves c then false else e))
  | advance_failed m m' q c e : moves c = true -> advance (mk_chip m q (Some c) e) (mk_chip m' q None true).

Definition is_running (d : Chip) : bool := match running d with Some _ => true | None => false end.
Definition reads (d : Chip) (a v : Z) : Prop :=
  if a =? kIcMuCommandRegister then v = 0 <-> queued d = None
  else if a =? kIcMuStatus1Register then Z.testbit v 0 = is_running d /\ Z.testbit v 6 = eprError d
  else v = regs (memory d) a.

Definition with_memory (d : Chip) (m : Memory) : Chip := mk_chip m (queued d) (running d) (eprError d).

(** On a fault reset the drive clears the iC-PVL and synchronises the chips by itself: SPO_MT and the bridge
    registers can change. *)
Definition resynchronised (m m' : Memory) : Prop :=
  others m m' /\ (forall x, eeprom m' x = eeprom m x) /\ (forall r, 0 <= r <= 6 -> pvl m' r = pvl m r) /\
  (forall a, 0x5B <= a <= 0x6F \/ a = kIcMuMpcRegister \/ regs m' a = regs m a) /\ regs m' kIcMuMpcRegister mod 16 = regs m kIcMuMpcRegister mod 16.

(** What a call does, by its answer. A call that failed may have done anything. *)
Definition reacts (o : op) : answer o -> Chip -> Chip -> Prop :=
  match o return answer o -> Chip -> Chip -> Prop with
  | ReadEncoderRegister e a _ => fun x d d' => d' = d /\ match x with Value (Some v) => e = enc -> reads d a v | _ => True end
  | WriteEncoderRegister e a v _ => fun x d d' =>
      match x with
      | Value r => e = enc ->
          if a =? kIcMuCommandRegister then d' = mk_chip (memory d) (Some v) (running d) (eprError d)
          else r = Some v -> d' = with_memory d (set_reg (memory d) (a, v))
      | Unexpected _ => True
      end
  | SetIgnoreBissStatusBits e b _ => fun x d d' => match x with Value _ => e = enc -> d' = with_memory d (set_ignoring (memory d) b) | Unexpected _ => True end
  | Report r => fun _ d d' => d' = with_memory d (add_report (memory d) r)
  | WriteFile n c => fun x d d' => match x with Value _ => d' = with_memory d (set_files (memory d) (<[n:=c]> (files (memory d)))) | Unexpected _ => True end
  | ReadFile n => fun x d d' => d' = d /\ match x with Value c => files (memory d) !! n = Some c | Unexpected _ => True end
  | RemoveDeviceFile n => fun x d d' => match x with Value _ => d' = with_memory d (set_files (memory d) (delete n (files (memory d)))) | Unexpected _ => True end
  | FaultReset => fun x d d' => match x with Value _ => exists m, resynchronised (memory d) m /\ d' = with_memory d m | Unexpected _ => True end
  | _ => fun _ d d' => d' = d
  end.
Definition acts (e : event answer) (d d' : Chip) : Prop := exists d1, rtc advance d d1 /\ reacts (projT1 e) (projT2 e) d1 d'.

(** ** Reasoning about a script that succeeds *)
Definition idle (c : option Z) : Prop := c = None \/ c = Some (command_code kAbsReset).
(** Nothing is under way that changes the memory. *)
Definition quiet (d : Chip) : Prop := idle (queued d) /\ idle (running d).

Definition triple {A} (P : Memory -> Prop) (s : fallible A) (Q : A -> Memory -> Prop) : Prop :=
  forall h d, quiet d -> P (memory d) ->
    wp acts s h d (fun x _ d' => match x with Value a => quiet d' /\ Q a (memory d') | Unexpected _ => True end).

Lemma advance_quiet d d' : quiet d -> rtc advance d d' -> quiet d' /\ memory d' = memory d /\ eprError d' = eprError d.
Proof.
  intros Hq Hr. revert Hq. induction Hr as [d|d d1 d' Ha _ IH]; intros Hq; [done|].
  assert (quiet d1 /\ memory d1 = memory d /\ eprError d1 = eprError d) as (Hq1 & Em & Ee).
  { destruct Hq as [Hq Hr]. inversion Ha; subst; cbn in *.
    - split; [|done]. destruct Hq as [?|[=->]]; [done|]. split; [by left|by right].
    - destruct Hr as [?|[=->]]; [done|]. cbn in *. unfold effect in H. cbn in H. subst. split; [split; [done|by left]|done].
    - destruct Hr as [?|[=->]]; done. }
  destruct (IH Hq1) as (? & -> & ->). done.
Qed.

Lemma triple_conseq {A} (P P' : Memory -> Prop) (s : fallible A) (Q Q' : A -> Memory -> Prop) :
  triple P s Q -> (forall m, P' m -> P m) -> (forall a m, Q a m -> Q' a m) -> triple P' s Q'.
Proof. intros H HP HQ h d Hq Hp. eapply wp_mono; [|by apply H; [|apply HP]]. intros [a|e] _ d'; cbn; [|done]. intros []. split; auto. Qed.

Lemma triple_ret {A} (P : Memory -> Prop) (a : A) (Q : A -> Memory -> Prop) : (forall m, P m -> Q a m) -> triple P (Ret (Value a)) Q.
Proof. intros H h d Hq Hp. cbn [wp]. auto. Qed.

Lemma triple_fail {A} (P : Memory -> Prop) e (Q : A -> Memory -> Prop) : triple P (Ret (Unexpected e)) Q.
Proof. intros h d Hq Hp. done. Qed.

Lemma triple_pure {A} (P : Memory -> Prop) (x : expected error A) (Q : A -> Memory -> Prop) : (forall a m, x = Value a -> P m -> Q a m) -> triple P (Ret x) Q.
Proof. intros H. destruct x as [a|e]; [|apply triple_fail]. apply triple_ret. auto. Qed.

Lemma triple_try {A B} (P : Memory -> Prop) (s : fallible A) (k : A -> fallible B) (R : A -> Memory -> Prop) (Q : B -> Memory -> Prop) :
  triple P s R -> (forall a, triple (R a) (k a) Q) -> triple P (try_ s k) Q.
Proof.
  intros Hs Hk h d Hq Hp. unfold try_. apply wp_bind. eapply wp_mono; [|by apply Hs]. intros [a|e] h' d'; cbn [wp]; [|done]. intros []. by apply Hk.
Qed.

Lemma triple_exists {A X} (P : X -> Memory -> Prop) (s : fallible A) (Q : A -> Memory -> Prop) :
  (forall x, triple (P x) s Q) -> triple (fun m => exists x, P x m) s Q.
Proof. intros H h d Hq [x Hx]. by apply (H x). Qed.

Lemma triple_from {A} (P : Memory -> Prop) (s : fallible A) (Q : A -> Memory -> Prop) : (forall m, P m -> triple (eq m) s Q) -> triple P s Q.
Proof. intros H h d Hq Hp. by apply (H (memory d)). Qed.

(** A call that leaves the chip alone. *)
Definition neutral (o : op) : Prop := forall x d d', reacts o x d d' -> d' = d.

Lemma triple_ask {A} o (k : answer o -> fallible A) (P : Memory -> Prop) (Q : A -> Memory -> Prop) :
  neutral o -> (forall x, triple P (k x) Q) -> triple P (bind (call o) k) Q.
Proof.
  intros Hn Hk h d Hq Hp. cbn [bind call wp]. intros x d' (d1 & Hr & ->%Hn). destruct (advance_quiet _ _ Hq Hr) as (Hq1 & Em & _). apply Hk; [done|by rewrite Em].
Qed.

Lemma triple_stop {A} stop (k : bool -> fallible A) (P : Memory -> Prop) (Q : A -> Memory -> Prop) :
  (forall b, triple P (k b) Q) -> triple P (bind (stop_requested stop) k) Q.
Proof. intros Hk. destruct stop; [by apply triple_ask; [intros ? ? ? ?|]|exact (Hk false)]. Qed.

(** ** What the functions of the bridge do *)
Lemma read_spec m a stop : a <> kIcMuCommandRegister -> a <> kIcMuStatus1Register ->
  triple (eq m) (readIcMuRegister enc a stop) (fun v m' => m' = m /\ v = regs m a).
Proof.
  intros H1 H2 h d Hq Hm. cbn [readIcMuRegister try_ bind call wp]. intros x d' (d1 & Hr & [-> Hx]). destruct (advance_quiet _ _ Hq Hr) as (Hq1 & Em & _).
  cbn [projT2] in Hx. destruct x as [[v|]|e]; cbn [wp]; [|done|done]. split; [done|]. specialize (Hx eq_refl). unfold reads in Hx.
  rewrite (proj2 (Z.eqb_neq _ _) H1), (proj2 (Z.eqb_neq _ _) H2) in Hx. cbn in Hm. by rewrite Hx, Em, <- Hm.
Qed.

Lemma read_status_spec m stop : triple (eq m) (readIcMuRegister enc kIcMuStatus1Register stop) (fun _ m' => m' = m).
Proof.
  intros h d Hq Hm. cbn [readIcMuRegister try_ bind call wp]. intros x d' (d1 & Hr & [-> Hx]). destruct (advance_quiet _ _ Hq Hr) as (Hq1 & Em & _).
  destruct x as [[v|]|e]; cbn [wp]; [|done|done]. by rewrite Em.
Qed.

Lemma bridge_write_spec m w stop : w.1 <> kIcMuCommandRegister -> triple (eq m) (writeIcMuRegister enc w stop) (fun _ m' => m' = set_reg m w).
Proof.
  intros Hw. apply triple_stop. intros [|]; [apply triple_fail|]. intros h d Hq Hm. cbn [try_ bind call wp]. intros x d' (d1 & Hr & Hx).
  destruct (advance_quiet _ _ Hq Hr) as (Hq1 & Em & _). cbn [projT1 projT2] in Hx. destruct x as [r|e]; cbn [wp]; [|done]. cbn [reacts] in Hx. specialize (Hx eq_refl).
  rewrite (proj2 (Z.eqb_neq _ _) Hw) in *. case_bool_decide as E; [|done]. rewrite (Hx E). cbn. split; [done|]. rewrite Em, <- Hm. by destruct w.
Qed.

Lemma command_spec m stop : triple (eq m) (writeIcMuRegister enc (icMuCommand kAbsReset) stop) (fun _ m' => m' = m).
Proof.
  apply triple_stop. intros [|]; [apply triple_fail|]. intros h d Hq Hm. cbn [try_ bind call wp]. intros x d' (d1 & Hr & Hx).
  destruct (advance_quiet _ _ Hq Hr) as ([Hq1 Hq2] & Em & _). cbn [projT1 projT2] in Hx. destruct x as [r|e]; cbn [wp]; [|done]. cbn in Hx. rewrite (Hx eq_refl). cbn.
  rewrite Em, <- Hm. split; [split; [by right|done]|done].
Qed.

Lemma writes_spec ws stop : Forall (fun w => w.1 <> kIcMuCommandRegister) ws -> forall m,
  triple (eq m) (writeIcMuRegisters enc ws stop) (fun _ m' => m' = set_regs m ws).
Proof.
  induction 1 as [|w ws Hw _ IH]; intros m; cbn [writeIcMuRegisters set_regs foldl]; [by apply triple_ret|].
  eapply triple_try; [by apply bridge_write_spec|]. intros []. apply triple_from. intros m' ->. apply IH.
Qed.

(** *** Running a command *)
Definition awaits (c : Z) (m : Memory) (started : bool) (d : Chip) : Prop :=
  (started = false /\ queued d = Some c /\ idle (running d) /\ memory d = m) \/
  (queued d = None /\ running d = Some c /\ memory d = m) \/
  (queued d = None /\ running d = None /\ (eprError d = false -> effect c m (memory d))).

Lemma awaits_advance c m started d d' : moves c = true -> awaits c m started d -> rtc advance d d' -> awaits c m started d'.
Proof.
  intros Hc Ha Hr. induction Hr as [d|d d1 d' Hs _ IH]; [done|]. apply IH. clear IH. destruct Hs as [mm cc ee|mm mm' q cc ee He|mm mm' q cc ee He]; destruct Ha as [(Es & Eq & Er & Em)|[(Eq & Er & Em)|(Eq & Er & Em)]]; cbn in *; try done.
  - injection Eq as ->. right. left. done.
  - destruct Er as [?|[= ->]]; [done|]. left. split; [done|]. split; [done|]. split; [by left|]. unfold effect in He. cbn in He. by subst.
  - injection Er as ->. right. right. subst. done.
  - destruct Er as [?|[= ->]]; [done|]. done.
  - right. right. done.
Qed.

Lemma in_progress v : (Z.land v kIcMuCommandInProgress =? 0) = negb (Z.testbit v 0).
Proof. apply (land_bit v 0). lia. Qed.
Lemma epr_bit v : (Z.land v kIcMuEepromError =? 0) = negb (Z.testbit v 6).
Proof. apply (land_bit v 6). lia. Qed.

(** After the wait the command is done, and the status read last says whether it failed. *)
Definition finished (c : Z) (m : Memory) (v : Z) (d : Chip) : Prop :=
  queued d = None /\ running d = None /\ eprError d = Z.testbit v 6 /\ (eprError d = false -> effect c m (memory d)).

Lemma wait_spec c m stop : moves c = true -> forall fuel started status1 h d, awaits c m started d ->
  (started = true -> Z.testbit status1 0 = false -> finished c m status1 d) ->
  wp acts (command_wait fuel enc c stop started status1) h d (fun x _ d' => match x with Value v => finished c m v d' | Unexpected _ => True end).
Proof.
  intros Hc. induction fuel as [|fuel IH]; intros started status1 h d Ha Hf; cbn [command_wait].
  - destruct started; cbn [andb]; [|done]. rewrite in_progress. destruct (Z.testbit status1 0); cbn; auto.
  - destruct (started && _) eqn:E.
    { destruct started; [|done]. cbn [andb] in E. rewrite in_progress in E. cbn [wp done_]. apply Hf; [done|]. by destruct (Z.testbit status1 0). }
    clear E Hf. cbn [bind call wp]. intros late d1 (d0 & Hr & ->). apply (awaits_advance _ _ _ _ _ Hc Ha) in Hr as Ha1. clear Ha Hr d. destruct late; [done|].
    cbn [bind wp]. intros [] d1 (d2 & Hr & ->). apply (awaits_advance _ _ _ _ _ Hc Ha1) in Hr as Ha2. clear Ha1 Hr d0. cbn [projT1] in *.
    apply wp_bind. assert (Hk : forall h, wp acts (if stop then call StopRequested else Ret false) h d2 (fun b h d => awaits c m started d)).
    { intros h'. destruct stop; cbn [wp call]; [|done]. intros b d1 (d0 & Hr & ->). by apply (awaits_advance _ _ _ _ _ Hc Ha2) in Hr. }
    eapply wp_mono; [|apply Hk]. clear Hk Ha2. intros [|] h1 d1 Ha; [done|]. unfold try_ at 1. apply wp_bind.
    eapply (wp_mono _ _ (fun x _ d => match x with Value s => awaits c m s d | Unexpected _ => True end)).
    2:{ destruct started; [done|]. cbn [readIcMuRegister try_ bind call wp]. intros x d3 (d0 & Hr & [-> Hx]). apply (awaits_advance _ _ _ _ _ Hc Ha) in Hr. cbn [projT2] in Hx.
        destruct x as [[v|]|e]; cbn [wp bind]; [|done|done]. specialize (Hx eq_refl). cbn in Hx. destruct (Z.eqb_spec v 0) as [->|Hv]; [|done].
        destruct Hr as [(_ & Eq & _)|[H|H]]; [rewrite (proj1 Hx eq_refl) in Eq; done|right; by left|right; by right]. }
    intros [[|]|e] h2 d3 Ha3; [| |done].
    + unfold try_. cbn [readIcMuRegister try_ bind call wp]. intros x d4 (d0 & Hr & [-> Hx]). apply (awaits_advance _ _ _ _ _ Hc Ha3) in Hr. cbn [projT2] in Hx.
      destruct x as [[v|]|e]; cbn [wp bind]; [|done|done]. specialize (Hx eq_refl). change (Z.testbit v 0 = is_running d0 /\ Z.testbit v 6 = eprError d0) in Hx. destruct Hx as [B0 B6]. apply IH; [done|]. intros _ Hb. rewrite Hb in B0. unfold is_running in B0.
      destruct Hr as [(? & _)|[(_ & Er & _)|(Eq & Er & Em)]]; [done|rewrite Er in B0; done|]. repeat split; auto.
    + by apply IH.
Qed.

Lemma run_spec m c stop : moves (command_code c) = true ->
  triple (eq m) (runIcMuCommand enc c stop) (fun _ m' => effect (command_code c) m m').
Proof.
  intros Hc. unfold runIcMuCommand. eapply triple_try; [apply read_status_spec|]. intros v0. apply triple_from. intros m' ->. clear v0.
  intros h d Hq Hm. unfold try_ at 1. apply wp_bind.
  eapply (wp_mono _ _ (fun x _ d => match x with Value _ => awaits (command_code c) m false d | Unexpected _ => True end)).
  - intros [[]|e] h' d' Ha; [|done]. unfold try_. apply wp_bind. eapply wp_mono; [|apply (wait_spec _ m stop Hc); [exact Ha|done]].
    intros [v|e] h2 d2; cbn [wp]; [|done]. intros (Eq & Er & Ee & Ef). rewrite epr_bit. destruct (Z.testbit v 6); cbn [negb wp]; [done|].
    split; [by split; left|]. auto.
  - unfold writeIcMuRegister. apply wp_bind. assert (Hs : forall h, wp acts (stop_requested stop) h d (fun _ _ d' => quiet d' /\ memory d' = m)).
    { intros h'. unfold stop_requested. destruct stop; cbn [wp call]; [|done]. intros b d' (d1 & Hr & ->). destruct (advance_quiet _ _ Hq Hr) as (? & -> & _). done. }
    eapply wp_mono; [|apply Hs]. intros [|] h' d' [Hq' Hm']; [done|]. cbn [try_ bind call wp]. intros x d2 (d1 & Hr & Hx).
    destruct (advance_quiet _ _ Hq' Hr) as ([? ?] & Em & _). cbn [projT1 projT2] in Hx. destruct x as [r|e]; cbn [wp]; [|done]. specialize (Hx eq_refl). cbn in Hx.
    subst d2. cbn. left. split; [done|]. split; [done|]. split; [done|]. cbn. by rewrite Em.
Qed.

Lemma save_spec m stop : triple (eq m) (saveIcMuEeprom enc stop) (fun _ m' => saved m m').
Proof.
  unfold saveIcMuEeprom. eapply triple_try; [by apply run_spec|]. intros v. apply triple_pure. intros a m' _ H. exact H.
Qed.

(** *** Moving bytes *)
Lemma set_regs_app m ws ws' : set_regs m (ws ++ ws') = set_regs (set_regs m ws) ws'.
Proof. apply foldl_app. Qed.

Lemma set_regs_others ws : forall m, others m (set_regs m ws) /\ pvl (set_regs m ws) = pvl m /\ eeprom (set_regs m ws) = eeprom m.
Proof. induction ws as [|w ws IH]; intros m; [done|]. destruct (IH (set_reg m w)) as ((? & ? & ?) & ? & ?). by repeat split. Qed.

Lemma others_trans m1 m2 m3 : others m1 m2 -> others m2 m3 -> others m1 m3.
Proof. intros (? & ? & ?) (? & ? & ?). repeat split; congruence. Qed.

(** Registers written in a row hold the bytes, and no other register changes. *)
Lemma set_regs_imap l : forall m low, 0 <= low -> low + Z.of_nat (length l) <= 256 -> let m' := set_regs m (imap (fun i v => (uwrap 8 (low + Z.of_nat i), v)) l) in
  forall a, regs m' a = if (low <=? a) && (a <? low + Z.of_nat (length l)) then nth (Z.to_nat (a - low)) l 0 else regs m a.
Proof.
  induction l as [|v l IH] using rev_ind; intros m low H0 Hl; cbv zeta; intros a.
  - cbn [length imap set_regs foldl]. destruct (Z.leb_spec low a), (Z.ltb_spec a (low + Z.of_nat 0)); cbn [andb]; try lia; done.
  - rewrite imap_app, set_regs_app. rewrite length_app in *. cbn [length] in *. cbn [imap set_regs foldl set_reg regs]. unfold upd. cbn [fst snd].
    rewrite Nat.add_0_r, uwrap_id by (unfold in_u; lia).
    specialize (IH m low H0 ltac:(lia) a). cbv zeta in IH. destruct (Z.eqb_spec a (low + Z.of_nat (length l))) as [->|Hne].
    + rewrite (proj2 (Z.leb_le _ _)), (proj2 (Z.ltb_lt _ _)) by lia. cbn [andb]. rewrite app_nth2 by lia.
      by replace (Z.to_nat (low + Z.of_nat (length l) - low) - length l)%nat with 0%nat by lia.
    + rewrite IH. destruct (Z.leb_spec low a); [|done]. destruct (Z.ltb_spec a (low + Z.of_nat (length l))), (Z.ltb_spec a (low + Z.of_nat (length l + 1))); cbn [andb]; try lia.
      by rewrite app_nth1 by lia.
Qed.

Lemma page_write_spec l : (8 | page) -> 0 < page -> forall m start, 0 <= start -> (l <> [] -> start / 8 = (start + Z.of_nat (length l) - 1) / 8) ->
  forall x, page_write start l m x = if (start <=? x) && (x <? start + Z.of_nat (length l)) then nth (Z.to_nat (x - start)) l 0 else m x.
Proof.
  intros [k Hk] Hp. induction l as [|v l IH] using rev_ind; intros m start H0 Hs x; unfold page_write in *.
  - cbn [length imap foldl]. destruct (Z.leb_spec start x), (Z.ltb_spec x (start + Z.of_nat 0)); cbn [andb]; try lia; done.
  - rewrite imap_app, foldl_app. rewrite length_app in *. cbn [length] in *. cbn [imap foldl]. unfold upd at 1. cbn [fst snd]. rewrite Nat.add_0_r.
    assert (Ea : page_address start (Z.of_nat (length l)) = start + Z.of_nat (length l)).
    { unfold page_address. specialize (Hs ltac:(by destruct l)). replace (start + Z.of_nat (length l + 1) - 1) with (start + Z.of_nat (length l)) in Hs by lia.
      assert (start / page = (start + Z.of_nat (length l)) / page) as E.
      { rewrite Hk, (Z.mul_comm k 8), <- !Z.div_div by lia. by rewrite Hs. }
      rewrite E. pose proof (Z.div_mod (start + Z.of_nat (length l)) page ltac:(lia)). lia. }
    rewrite Ea, IH; [|done|].
    2:{ intros Hl. specialize (Hs ltac:(by destruct l)). replace (start + Z.of_nat (length l + 1) - 1) with (start + Z.of_nat (length l)) in Hs by lia.
        pose proof (Z.div_le_mono start (start + Z.of_nat (length l) - 1) 8 ltac:(lia)). destruct l; [done|]. cbn [length] in *. specialize (H ltac:(lia)).
        pose proof (Z.div_le_mono (start + Z.of_nat (S (length l)) - 1) (start + Z.of_nat (S (length l))) 8 ltac:(lia) ltac:(lia)). lia. }
    destruct (Z.eqb_spec x (start + Z.of_nat (length l))) as [->|Hne].
    + rewrite (proj2 (Z.leb_le _ _)), (proj2 (Z.ltb_lt _ _)) by lia. cbn [andb]. rewrite app_nth2 by lia.
      by replace (Z.to_nat (start + Z.of_nat (length l) - start) - length l)%nat with 0%nat by lia.
    + destruct (Z.leb_spec start x); [|done]. destruct (Z.ltb_spec x (start + Z.of_nat (length l))), (Z.ltb_spec x (start + Z.of_nat (length l + 1))); cbn [andb]; try lia.
      by rewrite app_nth1 by lia.
Qed.

(** Two memories that differ in the bridge registers only. *)
Definition off_bridge (m m' : Memory) : Prop :=
  others m m' /\ (forall a, 0x5B <= a <= 0x6F \/ regs m' a = regs m a).
Definition pvl_kept (m m' : Memory) : Prop := forall r, 0 <= r <= 6 -> pvl m' r = pvl m r.
Definition eeprom_kept (m m' : Memory) : Prop := forall x, eeprom m' x = eeprom m x.

Lemma setup_regs m id start count : 0 <= count <= 16 -> 0 < count -> let m' := set_regs m (icMuI2cTransferSetup id start count) in
  regs m' kIcMuI2cDeviceIdRegister = id /\ regs m' kIcMuI2cDeviceStartRegister = start /\ regs m' kIcMuI2cRamStartRegister = kIcMuExchangeRegister /\
  regs m' kIcMuI2cRamEndRegister = kIcMuExchangeRegister + count - 1 /\ (forall a, 0x5B <= a <= 0x5E \/ regs m' a = regs m a).
Proof.
  intros Hc Hc'. assert (E : uwrap 8 (kIcMuExchangeRegister + count - 1) = kIcMuExchangeRegister + count - 1) by (apply uwrap_id; unfold in_u, kIcMuExchangeRegister; lia).
  cbn [icMuI2cTransferSetup set_regs foldl set_reg regs fst snd]. unfold upd. rewrite E. cbn.
  repeat split; try reflexivity. intros a. unfold kIcMuI2cDeviceStartRegister, kIcMuI2cRamStartRegister, kIcMuI2cRamEndRegister, kIcMuI2cDeviceIdRegister.
  destruct (Z.eqb_spec a 93), (Z.eqb_spec a 91), (Z.eqb_spec a 92), (Z.eqb_spec a 94); try (left; lia). by right.
Qed.

Lemma setup_not_command id start count : Forall (fun w : IcMuRegisterWrite => w.1 <> kIcMuCommandRegister) (icMuI2cTransferSetup id start count).
Proof. repeat constructor; done. Qed.

Lemma read_exchange_spec m stop l : Forall (fun a => 0x60 <= a <= 0x6F) l -> triple (eq m) (read_exchange enc l stop) (fun bs m' => m' = m /\ bs = regs m <$> l).
Proof.
  induction 1 as [|a l Ha _ IH]; cbn [read_exchange]; [by apply triple_ret|]. assert (uwrap 8 a = a) as -> by (apply uwrap_id; unfold in_u; lia).
  eapply triple_try; [apply (read_spec m a stop); unfold kIcMuCommandRegister, kIcMuStatus1Register; lia|]. intros v. apply triple_from. intros m' [-> ->].
  eapply triple_try; [exact IH|]. intros bs. apply triple_ret. intros m' [-> ->]. done.
Qed.

Lemma fmap_seqZ_ext (f g : Z -> Z) lo n : (forall i, 0 <= i < n -> f (lo + i) = g i) -> f <$> seqZ lo n = g <$> seqZ 0 n.
Proof.
  intros H. apply list_eq. intros i. rewrite !list_lookup_fmap. destruct (decide (Z.of_nat i < n)) as [Hi|Hi].
  - rewrite !lookup_seqZ_lt by lia. cbn. f_equal. rewrite <- (Z.add_0_l (Z.of_nat i)) at 2. rewrite Z.add_0_l. apply H. lia.
  - by rewrite !lookup_seqZ_ge by lia.
Qed.

(** A read of the EEPROM returns what it holds, and touches the bridge only. *)
Lemma eeprom_read_spec m start count stop : 1 <= count <= 16 ->
  triple (eq m) (readIcMuI2c enc kEeprom start count stop)
    (fun bs m' => off_bridge m m' /\ pvl_kept m m' /\ eeprom_kept m m' /\ bs = eeprom m <$> seqZ start count).
Proof.
  intros Hc. unfold readIcMuI2c. eapply triple_try; [apply (writes_spec _ stop (setup_not_command _ _ _))|]. intros []. apply triple_from. intros m1 ->.
  pose proof (setup_regs m (icMuI2cDeviceId kEeprom false) start count ltac:(lia) ltac:(lia)) as Hs. cbv zeta in Hs.
  destruct (set_regs_others (icMuI2cTransferSetup (icMuI2cDeviceId kEeprom false) start count) m) as (O1 & P1 & Q1).
  set (m1 := set_regs m _) in *. clearbody m1. destruct Hs as (E1 & E2 & E3 & E4 & E5).
  eapply triple_try; [by apply run_spec|]. intros v. apply triple_from. intros m2 H2. change (effect (command_code kI2cCom) m1 m2) with (transferred m1 m2) in H2.
  unfold transferred in H2. rewrite E1, E2, E3, E4 in H2. destruct H2 as [Ho H2]. cbn in H2. destruct H2 as (Hr & He & Hv).
  eapply triple_conseq; [apply (read_exchange_spec m2)|done|].
  - apply Forall_forall. intros a Ha%elem_of_seqZ. unfold kIcMuExchangeRegister in Ha. lia.
  - cbn beta. intros bs m' [-> ->]. split; [split; [by eapply others_trans|]|].
    + intros a. specialize (Hr a). unfold kIcMuExchangeRegister in Hr. revert Hr. destruct (Z.leb_spec 96 a), (Z.leb_spec a (96 + count - 1)); cbn [andb]; intros Hr; try (left; lia); (destruct (E5 a) as [?|E]; [left; lia|right; congruence]).
    + split; [intros r _; by rewrite Hv, P1|]. split; [intros x; by rewrite He, Q1|]. rewrite (fmap_seqZ_ext _ (fun i => eeprom m (start + i))).
      * symmetry. by apply fmap_seqZ_ext.
      * intros i Hi. rewrite Hr. unfold kIcMuExchangeRegister. rewrite (proj2 (Z.leb_le _ _)), (proj2 (Z.leb_le _ _)) by lia. cbn [andb]. rewrite Q1. by replace (96 + i - 96) with i by lia.
Qed.

(** A write inside a page of eight puts the bytes there and nowhere else, on an EEPROM with longer pages too. *)
Lemma eeprom_write_spec m start l stop : (8 | page) -> 0 < page -> 0 <= start -> l <> [] -> start / 8 = (start + Z.of_nat (length l) - 1) / 8 ->
  triple (eq m) (writeIcMuI2c enc kEeprom start l stop)
    (fun _ m' => off_bridge m m' /\ pvl_kept m m' /\
      forall x, eeprom m' x = if (start <=? x) && (x <? start + Z.of_nat (length l)) then nth (Z.to_nat (x - start)) l 0 else eeprom m x).
Proof.
  intros Hp Hp' Hs Hl Hpg. assert (Hn : 1 <= Z.of_nat (length l) <= 8).
  { destruct l; [done|]. cbn [length] in *. split; [lia|]. pose proof (Z.div_mod start 8 ltac:(lia)). pose proof (Z.mod_pos_bound start 8 ltac:(lia)).
    pose proof (Z.div_mod (start + Z.of_nat (S (length l)) - 1) 8 ltac:(lia)). pose proof (Z.mod_pos_bound (start + Z.of_nat (S (length l)) - 1) 8 ltac:(lia)). lia. }
  unfold writeIcMuI2c, runIcMuI2cTransfer. rewrite uwrap_id by (unfold in_u; lia). set (setup := icMuI2cTransferSetup _ _ _). set (data := imap _ l).
  rewrite (app_assoc setup data), length_app. cbn [length]. rewrite take_app_le, take_ge by lia.
  eapply triple_try; [apply (writes_spec (setup ++ data) stop)|].
  { apply Forall_app. split; [apply setup_not_command|]. unfold data. apply Forall_lookup. intros i w Hw. rewrite list_lookup_imap in Hw. destruct (l !! i) eqn:E; [|done].
    injection Hw as <-. cbn. apply lookup_lt_Some in E. rewrite uwrap_id by (unfold in_u, kIcMuExchangeRegister; lia). unfold kIcMuExchangeRegister, kIcMuCommandRegister. lia. }
  intros []. apply triple_from. intros m1 ->. rewrite set_regs_app.
  pose proof (setup_regs m (icMuI2cDeviceId kEeprom true) start (Z.of_nat (length l)) ltac:(lia) ltac:(lia)) as H0. cbv zeta in H0. fold setup in H0. set (m0 := set_regs m setup) in *.
  destruct H0 as (E1 & E2 & E3 & E4 & E5). pose proof (set_regs_imap l m0 kIcMuExchangeRegister ltac:(done) ltac:(unfold kIcMuExchangeRegister; lia)) as H1. cbv zeta in H1. fold data in H1. unfold kIcMuExchangeRegister in *. set (m1 := set_regs m0 data) in *.
  assert (K : forall a, a < 96 -> regs m1 a = regs m0 a) by (intros a Ha; rewrite H1; destruct (Z.leb_spec 96 a); [lia|done]).
  destruct (set_regs_others setup m) as (O0 & P0 & Q0), (set_regs_others data m0) as (O1 & P1 & Q1). fold m0 in O0, P0, Q0. fold m1 in O1, P1, Q1.
  clearbody m1. clearbody m0.
  eapply triple_try; [by apply run_spec|]. intros v. apply triple_ret. intros m2 H2. change (effect (command_code kI2cCom) m1 m2) with (transferred m1 m2) in H2.
  unfold transferred in H2. unfold kIcMuI2cDeviceIdRegister, kIcMuI2cDeviceStartRegister, kIcMuI2cRamStartRegister, kIcMuI2cRamEndRegister in *. rewrite !K in H2 by lia. rewrite E1, E2, E3, E4 in H2. destruct H2 as [Ho H2]. cbn in H2. destruct H2 as (Hr & He & Hv).
  split; [split; [by eapply others_trans, Ho; eapply others_trans|]|].
  - intros a. rewrite Hr, H1. destruct (Z.leb_spec 96 a), (Z.ltb_spec a (96 + Z.of_nat (length l))); cbn [andb]; try (left; lia); (destruct (E5 a) as [?|E]; [left; lia|by right]).
  - split; [intros r _; by rewrite Hv, P1, P0|]. intros x. rewrite He.
    assert (regs m1 <$> seqZ 96 (96 + Z.of_nat (length l) - 1 - 96 + 1) = l) as ->.
    { replace (96 + Z.of_nat (length l) - 1 - 96 + 1) with (Z.of_nat (length l)) by lia. apply list_eq. intros i. rewrite list_lookup_fmap. destruct (decide (i < length l)%nat) as [Hi|Hi].
      - rewrite lookup_seqZ_lt by lia. cbn [fmap option_fmap option_map]. rewrite H1. rewrite (proj2 (Z.leb_le _ _)), (proj2 (Z.ltb_lt _ _)) by lia. cbn [andb].
        replace (Z.to_nat (96 + Z.of_nat i - 96)) with i by lia. destruct (lookup_lt_is_Some_2 l i Hi) as [b Eb]. rewrite Eb. f_equal. by apply nth_lookup_Some.
      - rewrite lookup_seqZ_ge by lia. cbn. symmetry. apply lookup_ge_None. lia. }
    rewrite page_write_spec by done. by rewrite Q1, Q0.
Qed.

(** One byte to or from a register of the iC-PVL. *)
Lemma pvl_write_spec m r v stop : triple (eq m) (runIcMuI2cTransfer enc (icPvlRegisterWrite r v) stop)
  (fun _ m' => off_bridge m m' /\ eeprom_kept m m' /\ forall q, 0 <= q <= 6 -> pvl m' q =
    if r =? kIcPvlCommandRegister then (if v =? pvl_code kReboot then eeprom m (kIcPvlEepromStart + q) else pvl m q) else if q =? r then v else pvl m q).
Proof.
  unfold runIcMuI2cTransfer, icPvlRegisterWrite. set (setup := icMuI2cTransferSetup _ _ _). rewrite length_app. cbn [length]. replace (length setup + 2 - 1)%nat with (length setup + 1)%nat by lia. rewrite take_app_add. cbn [take].
  eapply triple_try; [apply (writes_spec (setup ++ [(kIcMuExchangeRegister, v)]) stop)|].
  { apply Forall_app. split; [apply setup_not_command|]. by repeat constructor. }
  intros []. apply triple_from. intros m1 ->. rewrite set_regs_app. pose proof (setup_regs m (icMuI2cDeviceId kIcPvlChip true) r 1 ltac:(lia) ltac:(lia)) as H0. cbv zeta in H0. fold setup in H0.
  destruct (set_regs_others setup m) as (O0 & P0 & Q0). set (m0 := set_regs m setup) in *. clearbody m0. destruct H0 as (E1 & E2 & E3 & E4 & E5).
  eapply triple_try; [by apply run_spec|]. intros st. apply triple_ret. intros m2 H2. change (effect (command_code kI2cCom)) with transferred in H2.
  unfold transferred in H2. cbn [set_regs foldl set_reg regs eeprom pvl fst snd] in H2. unfold upd in H2. cbn [Z.eqb Pos.eqb kIcMuI2cDeviceIdRegister kIcMuI2cDeviceStartRegister kIcMuI2cRamStartRegister kIcMuI2cRamEndRegister kIcMuExchangeRegister] in H2.
  change 94 with kIcMuI2cDeviceIdRegister in H2. change 91 with kIcMuI2cDeviceStartRegister in H2. change 92 with kIcMuI2cRamStartRegister in H2. change 93 with kIcMuI2cRamEndRegister in H2.
  rewrite E1, E2, E3, E4 in H2. destruct H2 as [Ho H2]. change (kIcMuExchangeRegister =? kIcMuExchangeRegister + 1 - 1) with true in H2. cbn in H2. destruct H2 as (Hr & He & Hv).
  split; [split; [by eapply others_trans, Ho|]|].
  - intros a. rewrite Hr. destruct (Z.eqb_spec a kIcMuExchangeRegister); [left; unfold kIcMuExchangeRegister in *; lia|]. destruct (E5 a) as [?|E]; [left; lia|by right].
  - split; [intros x; by rewrite He, Q0|]. intros q Hq. rewrite (Hv q Hq), P0, Q0. done.
Qed.

Lemma pvl_read_spec m r stop : triple (eq m) (runIcMuI2cTransfer enc (icPvlRegisterRead r) stop) (fun _ m' => off_bridge m m' /\ pvl_kept m m' /\ eeprom_kept m m').
Proof.
  unfold runIcMuI2cTransfer, icPvlRegisterRead. set (setup := icMuI2cTransferSetup _ _ _). rewrite length_app. cbn [length]. rewrite take_app_length' by lia.
  eapply triple_try; [apply (writes_spec setup stop), setup_not_command|].
  intros []. apply triple_from. intros m1 ->. pose proof (setup_regs m (icMuI2cDeviceId kIcPvlChip false) r 1 ltac:(lia) ltac:(lia)) as H0. cbv zeta in H0. fold setup in H0.
  destruct (set_regs_others setup m) as (O0 & P0 & Q0). set (m0 := set_regs m setup) in *. clearbody m0. destruct H0 as (E1 & E2 & E3 & E4 & E5).
  eapply triple_try; [by apply run_spec|]. intros st. apply triple_ret. intros m2 H2. change (effect (command_code kI2cCom)) with transferred in H2.
  unfold transferred in H2. rewrite E1, E2, E3, E4 in H2. destruct H2 as [Ho H2]. cbn in H2. destruct H2 as (Hr & He & Hv).
  split; [split; [by eapply others_trans, Ho|]|].
  - intros a. destruct (Hr a) as [?|E]; [left; unfold kIcMuExchangeRegister in *; lia|]. destruct (E5 a) as [?|E']; [left; lia|right; congruence].
  - split; [intros q _; by rewrite Hv, P0|intros x; by rewrite He, Q0].
Qed.

Lemma clear_spec m : triple (eq m) (clearIcMuI2cError enc) (fun _ m' => off_bridge m m' /\ pvl_kept m m' /\ eeprom_kept m m').
Proof.
  assert (K : off_bridge m m /\ pvl_kept m m /\ eeprom_kept m m) by (repeat split; try done; by right).
  unfold clearIcMuI2cError. eapply triple_try; [apply read_status_spec|]. intros v. apply triple_from. intros m' ->. destruct (_ =? 0); [by apply triple_ret; intros ? <-|].
  intros h d Hq Hm. apply wp_bind. eapply wp_mono; [|by apply (eeprom_read_spec m 0 1 false)]. intros [bs|e] h' d'; cbn [wp]; [|done]. by intros (? & ? & ? & ? & _).
Qed.

(** ** Other calls *)
Lemma triple_report {A} r (k : unit -> fallible A) m (Q : A -> Memory -> Prop) : triple (eq (add_report m r)) (k tt) Q -> triple (eq m) (bind (call (Report r)) k) Q.
Proof.
  intros Hk h d Hq Hm. cbn [bind call wp]. intros [] d' (d1 & Hr & Hx). destruct (advance_quiet _ _ Hq Hr) as (Hq1 & Em & _). cbn in Hx. subst d'. by apply Hk; [|cbn; rewrite Em, <- Hm].
Qed.

Lemma ignore_spec m b c : triple (eq m) (call (SetIgnoreBissStatusBits enc b c)) (fun _ m' => m' = set_ignoring m b).
Proof.
  intros h d Hq Hm. cbn [call wp]. intros x d' (d1 & Hr & Hx). destruct (advance_quiet _ _ Hq Hr) as (Hq1 & Em & _). cbn in Hx. destruct x as [[]|e]; [|done].
  rewrite (Hx eq_refl). cbn. by rewrite Em, <- Hm.
Qed.

Lemma write_file_spec m n c : triple (eq m) (call (WriteFile n c)) (fun _ m' => m' = set_files m (<[n:=c]> (files m))).
Proof.
  intros h d Hq Hm. cbn [call wp]. intros x d' (d1 & Hr & Hx). destruct (advance_quiet _ _ Hq Hr) as (Hq1 & Em & _). cbn in Hx. destruct x as [[]|e]; [|done].
  rewrite Hx. cbn. by rewrite Em, <- Hm.
Qed.

Lemma remove_file_spec m n : triple (eq m) (call (RemoveDeviceFile n)) (fun _ m' => m' = set_files m (delete n (files m))).
Proof.
  intros h d Hq Hm. cbn [call wp]. intros x d' (d1 & Hr & Hx). destruct (advance_quiet _ _ Hq Hr) as (Hq1 & Em & _). cbn in Hx. destruct x as [[]|e]; [|done].
  rewrite Hx. cbn. by rewrite Em, <- Hm.
Qed.

Lemma reset_spec m : triple (eq m) (call FaultReset) (fun _ m' => resynchronised m m').
Proof.
  intros h d Hq Hm. cbn [call wp]. intros x d' (d1 & Hr & Hx). destruct (advance_quiet _ _ Hq Hr) as (Hq1 & Em & _). cbn in Hx. destruct x as [[]|e]; [|done].
  destruct Hx as (m' & Hx & ->). cbn. by rewrite Em, <- Hm in Hx.
Qed.

(** ** A chip that works at once *)
Definition applied (c : Z) (m : Memory) : Memory :=
  let keep r e p := mk_memory r e p (ignoring m) (files m) (reports m) in
  if c =? command_code kWriteAll then
    keep (regs m) (fun x => if (0 <=? x) && (x <=? 0x18) then regs m x else if (0x19 <=? x) && (x <=? 0x20) then regs m (0x52 + (x - 0x19)) else eeprom m x) (pvl m)
  else if c =? command_code kI2cCom then
    let device := regs m kIcMuI2cDeviceIdRegister in
    let start := regs m kIcMuI2cDeviceStartRegister in
    let low := regs m kIcMuI2cRamStartRegister in
    let high := regs m kIcMuI2cRamEndRegister in
    if device =? 0xA0 then keep (regs m) (page_write start (regs m <$> seqZ low (high - low + 1)) (eeprom m)) (pvl m)
    else if device =? 0xA1 then keep (fun a => if (low <=? a) && (a <=? high) then eeprom m (start + (a - low)) else regs m a) (eeprom m) (pvl m)
    else if (device =? 0xC2) && (low =? high) then
      keep (regs m) (eeprom m) (fun r => if start =? kIcPvlCommandRegister then (if regs m low =? pvl_code kReboot then eeprom m (kIcPvlEepromStart + r) else pvl m r)
                                         else if r =? start then regs m low else pvl m r)
    else m
  else m.

Lemma applied_effect c m : effect c m (applied c m).
Proof.
  unfold effect, applied, saved, transferred. destruct (c =? command_code kWriteAll); [|destruct (c =? command_code kI2cCom); [|done]].
  - cbn [regs eeprom pvl]. repeat split; cbn.
    + intros a x H0 Hx. unfold icMuEepromAddress, kLastConfigurationRam, kSpoBaseRam, kSpoLastRam, kSpoBaseEeprom in Hx. destruct (Z.leb_spec a 24).
      * injection Hx as <-. by rewrite (proj2 (Z.leb_le 0 a)), (proj2 (Z.leb_le a 24)) by lia.
      * destruct (Z.leb_spec 82 a), (Z.leb_spec a 89); cbn [andb] in Hx; try done. injection Hx as <-. rewrite uwrap_id by (unfold in_u; lia).
        destruct (Z.leb_spec (25 + (a - 82)) 24); [lia|]. rewrite andb_false_r. rewrite (proj2 (Z.leb_le 25 _)), (proj2 (Z.leb_le _ 32)) by lia. cbn [andb]. f_equal. lia.
    + intros x Hx. unfold kIcPvlEepromStart in Hx. destruct (Z.leb_spec x 24); [lia|]. rewrite andb_false_r. destruct (Z.leb_spec x 32); [lia|]. by rewrite andb_false_r.
  - destruct (_ =? 160); [done|]. destruct (_ =? 161); [done|]. destruct ((_ =? 194) && _); [done|]. destruct (_ =? 195); [|done]. split; [done|]. split; [by right|done].
Qed.

Definition settle_one (c : option Z) (d : Chip) : Chip :=
  match c with Some c => mk_chip (applied c (memory d)) None None (if moves c then false else eprError d) | None => mk_chip (memory d) None None (eprError d) end.
Definition settled (d : Chip) : Chip := settle_one (queued d) (settle_one (running d) d).

Lemma settled_advance d : rtc advance d (settled d).
Proof.
  destruct d as [m q r e]. unfold settled. cbn [queued running]. transitivity (mk_chip (memory (settle_one r (mk_chip m q r e))) q None (eprError (settle_one r (mk_chip m q r e)))).
  - destruct r as [c|]; [|done]. apply rtc_once. apply advance_done, applied_effect.
  - set (d1 := settle_one r _). destruct q as [c|]; [|done]. eapply rtc_l; [apply advance_start|]. apply rtc_once. cbn. apply advance_done, applied_effect.
Qed.

(** It answers for itself, and [world] answers what the drive is asked. *)
Section World.
Context (world : forall o, answer o).

Definition reply (d : Chip) (o : op) : answer o :=
  let d := settled d in
  match o return answer o with
  | ReadEncoderRegister _ a _ => Value (Some (if a =? kIcMuCommandRegister then 0 else if a =? kIcMuStatus1Register then (if eprError d then 64 else 0) else regs (memory d) a))
  | WriteEncoderRegister _ _ v _ => Value (Some v)
  | SetIgnoreBissStatusBits _ _ _ | WriteFile _ _ | RemoveDeviceFile _ => Value tt
  | ReadFile n => match files (memory d) !! n with Some c => Value c | None => Unexpected (Drive "file not found") end
  | o => world o
  end.

Definition react (d : Chip) (e : event answer) : Chip :=
  let d := settled d in
  match projT1 e with
  | WriteEncoderRegister _ a v _ => if a =? kIcMuCommandRegister then mk_chip (memory d) (Some v) (running d) (eprError d) else with_memory d (set_reg (memory d) (a, v))
  | SetIgnoreBissStatusBits _ b _ => with_memory d (set_ignoring (memory d) b)
  | Report r => with_memory d (add_report (memory d) r)
  | WriteFile n c => with_memory d (set_files (memory d) (<[n:=c]> (files (memory d))))
  | RemoveDeviceFile n => with_memory d (set_files (memory d) (delete n (files (memory d))))
  | _ => d
  end.

Lemma settled_idle d : queued (settled d) = None /\ running (settled d) = None.
Proof. unfold settled, settle_one. destruct (queued d), (running d); done. Qed.

Lemma simulated d o : acts (ev o (reply d o)) d (react d (ev o (reply d o))).
Proof.
  exists (settled d). split; [apply settled_advance|]. destruct (settled_idle d) as [Eq Er]. unfold react, reply. cbn [projT1 projT2 ev]. set (d1 := settled d) in *. clearbody d1.
  destruct o; cbn [reacts]; try done.
  - split; [done|]. intros _. unfold reads. destruct (_ =? kIcMuCommandRegister); [done|]. destruct (_ =? kIcMuStatus1Register); [|done]. unfold is_running. rewrite Er. by destruct (eprError d1).
  - intros _. destruct (_ =? kIcMuCommandRegister); [done|]. by intros _.
  - destruct (world FaultReset); [|done]. exists (memory d1). split; [|by destruct d1]. repeat split; try done. intros a'. by right; right.
  - split; [done|]. by destruct (files (memory d1) !! name) eqn:E.
Qed.

(** A run of a script against it. *)
Definition simulate {A} (d : Chip) (s : script answer A) : list (event answer) * A := exec (fun h => reply (foldl react d h)) [] s.

Lemma simulate_run {A} d (s : script answer A) : runs s (simulate d s).1 (simulate d s).2 /\ follows acts d (simulate d s).1 (foldl react d (simulate d s).1).
Proof. split; [apply runs_exec|]. exact (exec_follows acts react reply d s simulated). Qed.
End World.
End Chip.
End Bridge.
