(* ===== verification/IcMuProcedures.v ===== *)
(** * The procedures of integrated encoders ([libs/node/somanet_procedures.cc], [SomanetDrive::encoders])

    Reporting the status of the iC-MU encoders, configuring one, reading its registers and its EEPROM,
    moving single bytes over the bridge, writing the restore file, erasing the EEPROM: scripts of calls on
    the drive and the reporter. *)

From S2P Require Import Prelude Util ParameterCache Cia402 Script IcHausRegisters IcMu IcMuBridge.

Module IcMuProcedures.
Import Script IcMu Bridge.
#[local] Existing Instance Cia402.State_eq_dec.

Definition start (s : string) : script answer unit := call (Report (Start s)).
Definition succeed (s : string) (v : value) : script answer unit := call (Report (Succeed s v)).
Definition fail {A} (s : string) (e : error) : fallible A := bind (call (Report (FailStep s e))) (fun _ => Ret (Unexpected e)).
Definition or_fail {A B} (s : string) (m : fallible A) (k : A -> fallible B) : fallible B :=
  bind m (fun x => match x with Value a => k a | Unexpected e => fail s e end).
Definition then_ {A} (m : script answer unit) (k : fallible A) : fallible A := bind m (fun _ => k).

(** A loop that ends at the first failure. *)
Fixpoint for_each {A} (l : list A) (body : A -> fallible unit) : fallible unit :=
  match l with [] => done_ tt | a :: l => try_ (body a) (fun _ => for_each l body) end.

(** ** The encoders of the drive *)
Definition kEncoder1Configuration : Z := 0x2110.
Definition kEncoder2Configuration : Z := 0x2112.
Definition kEncoderSensorPort : Z := 0x01.
Definition kEncoderType : Z := 0x02.
Definition kEncoderResolution : Z := 0x03.
Definition kEncoderPolarity : Z := 0x05.
Definition kEncoderMultiturnBits : Z := 0x0A.
Definition kEncoderSingleturnBits : Z := 0x0C.

(** [std::has_single_bit] and [std::countr_zero] of a 32-bit number. *)
Definition resolution_bits (r : Z) : Z := if (0 <? r) && (2 ^ Z.log2 r =? r) then Z.log2 r else 0.

Definition optional_byte (index subindex : Z) : fallible Z :=
  bind (call (HasParameter index subindex)) (fun has : bool => if has then call (ReadValue index subindex) else done_ 0).

Definition read_encoder (ordinal : EncoderOrdinal) (index : Z) : fallible EncoderConfiguration :=
  try_ (call (ReadValue index kEncoderSensorPort)) (fun port =>
  try_ (call (ReadValue index kEncoderType)) (fun ty =>
  try_ (call (ReadValue index kEncoderResolution)) (fun res =>
  try_ (call (ReadValue index kEncoderPolarity)) (fun polarity =>
  try_ (optional_byte index kEncoderMultiturnBits) (fun mt =>
  try_ (optional_byte index kEncoderSingleturnBits) (fun st =>
    let icMuType := (ty =? kBiss) || (ty =? kInternal) in
    let bits := resolution_bits res in
    done_ (if icMuType && negb (isIcMuSingleturnBits st) && isIcMuSingleturnBits (uwrap 8 bits)
           then mk_encoder ordinal port ty res (negb (polarity =? 0)) mt (uwrap 8 bits) true
           else mk_encoder ordinal port ty res (negb (polarity =? 0)) mt st false))))))).

Definition source (index subindex : Z) : fallible (option EncoderOrdinal) :=
  try_ (call (ReadValue index subindex)) (fun v =>
    done_ (if v =? 1 then Some kEncoder1 else if v =? 2 then Some kEncoder2 else None)).

Definition drive_encoders : fallible Encoders :=
  try_ (read_encoder kEncoder1 kEncoder1Configuration) (fun e1 =>
  try_ (read_encoder kEncoder2 kEncoder2Configuration) (fun e2 =>
  try_ (source 0x2012 0x09) (fun position =>
  try_ (source 0x2011 0x05) (fun velocity =>
  try_ (source 0x2010 0x0C) (fun commutation =>
    done_ (mk_encoders [e1; e2] position velocity commutation)))))).

Section Procedures.
Context {semver : Semver}.

(** ** Firmware and restore file *)
Definition icMuFirmwareError (v : Util.text) : option error :=
  match icMuFirmwareSupport v with kSupported | kJasper => None | kTooOld => Some (TooOld v) | kUnreadable => Some (NotAVersion v) end.

(** Reads the version and refuses one the procedures cannot run on. *)
Definition checked_version : fallible Util.text :=
  try_ (call SoftwareVersion) (fun raw =>
    let v := Cache.trimFirmwareVersion raw in
    Ret match icMuFirmwareError v with Some e => Unexpected e | None => Value v end).

Fixpoint read_registers (e : EncoderOrdinal) (l : list Z) (stop : bool) : fallible (list Z) :=
  match l with
  | [] => done_ []
  | a :: l => try_ (readIcMuRegister e a stop) (fun v => try_ (read_registers e l stop) (fun vs => done_ (v :: vs)))
  end.

(** [IcMuWrittenRestoreFile]: its name and its bytes. *)
Definition writeIcMuRestoreFile (e : EncoderOrdinal) (port : Z) (stop : bool) : fallible (string * list Z) :=
  try_ (read_registers e icMuRestoreRegisters stop) (fun values =>
    let name := icMuRestoreFileName port in
    let content := icMuRestoreFile values in
    bind (call (WriteFile name content)) (fun written =>
    match written with
    | Unexpected er => Ret (Unexpected (FileNotWritten name er))
    | Value _ =>
        bind (call (ReadFile name)) (fun back =>
        Ret match back with
            | Unexpected er => Unexpected (FileNotRead name er)
            | Value b => if bool_decide (b = content) then Value (name, content) else Unexpected (FileDiffers name (length b) (length content))
            end)
    end)).

(** ** Status *)
Definition status_object (e : EncoderOrdinal) : Z := match e with kEncoder1 => 0x2111 | kEncoder2 => 0x2113 end.

Fixpoint read_statuses (l : list EncoderConfiguration) (stop : bool) : fallible (list IcMuEncoderStatus) :=
  match l with
  | [] => done_ []
  | e :: l =>
      try_ (readIcMuRegister (encoderOrdinal e) kIcMuHardRevRegister stop) (fun rev =>
      try_ (readIcMuRegister (encoderOrdinal e) kIcMuOutputRegister stop) (fun output =>
      try_ (call (ReadValue (status_object (encoderOrdinal e)) 0x04)) (fun word =>
        let s := icMuEncoderStatus e rev output in
        let s := mk_status (status_encoder s) (status_port s) (status_singleturn s) (status_multiturn s) (masterPolePairs s) (hardRev s) (outputRegister s)
                   (expectedOutputRegister s) (state s) (reason s) (status_path s) (batteryModes s) word in
        try_ (read_statuses l stop) (fun ss => done_ (s :: ss)))))
  end.

Definition runIcMuEncoderStatusProcedure : fallible unit :=
  try_ (call CreateSomanetDrive) (fun _ =>
  then_ (start "read-encoders") (
  or_fail "read-encoders" (try_ checked_version (fun _ => drive_encoders)) (fun es =>
  let listed := filter (fun e => isIcMuEncoder e = true) (encoders es) in
  then_ (succeed "read-encoders" (VEncoders listed)) (
  then_ (start "read-registers") (
  or_fail "read-registers" (read_statuses listed true) (fun ss =>
  then_ (succeed "read-registers" (VStatuses ss)) (done_ tt))))))).

(** ** Configuration *)
Record Waits := mk_waits { icPvlEeprom : Z; icPvlReboot : Z; absReset : Z }.
Record Request := mk_request { req_encoder : EncoderOrdinal; req_batteryMode : option Z; writeRestoreFile : bool; waits : Waits }.

Definition kSlice : Z := 50.
Fixpoint sleep_slices (fuel : nat) (remaining : Z) : script answer bool :=
  match fuel with
  | O => bind (call StopRequested) (fun s : bool => Ret (negb s))
  | S fuel =>
      if remaining <=? 0 then bind (call StopRequested) (fun s : bool => Ret (negb s))
      else bind (call StopRequested) (fun s : bool =>
        if s then Ret false
        else bind (call (SleepFor (Z.min kSlice remaining))) (fun _ => sleep_slices fuel (remaining - Z.min kSlice remaining)))
  end.
Definition sleepUnlessStopped (duration : Z) : script answer bool := sleep_slices (Z.to_nat duration) duration.
Definition waitForEncoder (duration : Z) : fallible unit :=
  bind (sleepUnlessStopped duration) (fun ok : bool => Ret (if ok then Value tt else Unexpected ConfigurationCancelled)).

Definition ringFromResolutionWarning (e : EncoderConfiguration) : option IcMuWarning :=
  if singleturnBitsFromResolution e then Some (RingFromResolution (encoderOrdinal e) (singleturnBits e) (resolution e)) else None.

Record IcMuPlan := mk_plan { plan_encoder : EncoderConfiguration; plan_configuration : IcMuConfiguration; plan_warnings : list IcMuWarning }.

Definition find_encoder (es : Encoders) (e : EncoderOrdinal) : fallible EncoderConfiguration :=
  Ret match List.find (fun c => bool_decide (encoderOrdinal c = e)) (encoders es) with
      | Some c => if isIcMuEncoder c then Value c else Unexpected (NotListed e)
      | None => Unexpected (NotListed e)
      end.

Definition check_part (e : EncoderOrdinal) (c : EncoderConfiguration) (stop : bool) : fallible unit :=
  try_ (readIcMuRegister e kIcMuHardRevRegister stop) (fun rev =>
    Ret match icMuPartError (sensorPort c) rev with Some er => Unexpected (Refused er) | None => Value tt end).

Definition check_not_enabled : fallible unit :=
  try_ (call ReadState) (fun s => Ret (if bool_decide (s = Cia402.kOperationEnabled) then Unexpected OperationEnabled else Value tt)).

Definition option_list {A} (o : option A) : list A := match o with Some a => [a] | None => [] end.

Definition planIcMuConfiguration (r : Request) (stop : bool) : fallible IcMuPlan :=
  let enc := req_encoder r in
  try_ checked_version (fun version =>
  let jasper := bool_decide (icMuFirmwareSupport version = kJasper) in
  try_ drive_encoders (fun es =>
  try_ (find_encoder es enc) (fun found =>
  try_ (Ret match icMuSingleturnBitsError (singleturnBits found) with Some er => Unexpected (Refused er) | None => Value tt end) (fun _ =>
  try_ (checkIcMuBank enc stop) (fun _ =>
  try_ (if isIntegratedSensorPort (sensorPort found) then done_ tt else check_part enc found stop) (fun _ =>
  try_ check_not_enabled (fun _ =>
  let p := icMuPath (sensorPort found) (multiturnBits found) in
  let warnings := option_list (ringFromResolutionWarning found) ++ option_list (icMuMultiturnBitsWarning p (multiturnBits found)) in
  bind (call (HasParameter 0x2630 0x00)) (fun safe : bool =>
  let plan battery := mk_plan found (mk_configuration p (singleturnBits found) (multiturnBits found) safe battery) warnings in
  if negb (is_multiturn p) then
    Ret match req_batteryMode r with Some _ => Unexpected BatteryModeUnused | None => Value (plan 0) end
  else if jasper then Ret (Unexpected (JasperMultiturn version))
  else match req_batteryMode r with
       | Some battery =>
           Ret match mbind (fun m => icPvlMaxAcceleration m (singleturnBits found)) (head icPvlBatteryModes) with
               | None => Unexpected (OnlyDefaultBatteryMode (icMuMasterPolePairs (singleturnBits found)))
               | Some _ => Value (plan battery)
               end
       | None =>
           try_ (call ReadGearRatio) (fun gear =>
           Ret match encoderShaft es enc gear with
               | None => Unexpected (ServesNoController enc)
               | Some shaft => Value (plan (icPvlDefaultBatteryMode shaft))
               end)
       end)))))))).

Definition kNoRestoreFile : string := "the drive keeps a restore file only for sensor ports 1 and 2".

(** *** The steps *)
Section Configure.
Context (enc : EncoderOrdinal) (w : Waits).

Definition write_chunks (first : Z) (l : list Z) (cs : list IcMuI2cChunk) : fallible unit :=
  for_each cs (fun c => writeIcMuI2c enc kEeprom c.1 (slice (Z.to_nat (c.1 - first)) (Z.to_nat c.2) l) true).

Definition differing (first : Z) (l : list Z) (at_ : Z) (read : list Z) : option error :=
  foldr (fun '(i, v) found => let a := uwrap 8 (at_ + Z.of_nat i) in let wanted := nth (Z.to_nat (a - first)) l 0 in
           if v =? wanted then found else Some (EepromDiffers a v wanted)) None (imap pair read).

Definition verify_chunks (first : Z) (l : list Z) (cs : list IcMuI2cChunk) : fallible unit :=
  for_each cs (fun c => try_ (readIcMuI2c enc kEeprom c.1 c.2 true) (fun read =>
    Ret match differing first l c.1 read with Some e => Unexpected e | None => Value tt end)).

Definition writeIcPvlEeprom (l : list Z) : fallible unit :=
  let first := kIcPvlEepromStart in
  let last := uwrap 8 (first + Z.of_nat (length l) - 1) in
  try_ (write_chunks first l (icMuEepromWriteChunks first last)) (fun _ =>
  try_ (waitForEncoder (icPvlEeprom w)) (fun _ => verify_chunks first l (icMuEepromReadChunks first last))).

Definition clearAndReset : fallible unit :=
  try_ (runIcMuI2cTransfer enc (icPvlCommand kSclr) true) (fun _ => writeIcMuRegister enc (icMuCommand kAbsReset) true).

Definition save : fallible unit := try_ (saveIcMuEeprom enc true) (fun _ => done_ tt).

(** The raw position, the SYNC bits and what register 0x0F got. *)
Definition synchronise (c : IcMuConfiguration) : fallible (Z * Z * Z) :=
  try_ (readIcMuRegister enc kIcMuMpcRegister true) (fun mpc =>
  try_ (writeIcMuRegisters enc [(kIcMuMpcRegister, uwrap 8 (Z.land mpc 0x0F))] true) (fun _ =>
  try_ (writeIcMuRegister enc (icMuCommand kAbsReset) true) (fun _ =>
  try_ (waitForEncoder (absReset w)) (fun _ =>
  try_ (call (ReadValue (status_object enc) 0x01)) (fun rawPosition =>
  try_ (runIcMuI2cTransfer enc (icPvlRegisterWrite 0x05 kIcPvlPositionOutputOn) true) (fun _ =>
  try_ (runIcMuI2cTransfer enc (icPvlRegisterRead kIcPvlSyncRegister) true) (fun _ =>
  try_ (readIcMuRegister enc kIcMuExchangeRegister true) (fun sync =>
  let spoMt := icMuSpoMtRegister rawPosition (cfg_singleturnBits c) sync in
  try_ (writeIcMuRegisters enc [(kIcMuMpcRegister, spoMt)] true) (fun _ =>
  try_ (runIcMuI2cTransfer enc (icPvlRegisterWrite 0x05 kIcPvlPositionOutputOff) true) (fun _ =>
  try_ save (fun _ =>
  try_ clearAndReset (fun _ => done_ (rawPosition, Z.land sync 0x07, spoMt))))))))))))).

Definition verify (p : IcMuPlan) : fallible IcMuEncoderStatus :=
  let expectedMpc := icMuMasterPeriodCount (cfg_singleturnBits (plan_configuration p)) in
  try_ (readIcMuRegister enc kIcMuMpcRegister true) (fun mpc =>
  if negb (Z.land mpc 0x0F =? expectedMpc) then Ret (Unexpected (WrongMpc (Z.land mpc 0x0F) expectedMpc))
  else
    try_ (readIcMuRegister enc kIcMuHardRevRegister true) (fun rev =>
    try_ (readIcMuRegister enc kIcMuOutputRegister true) (fun output =>
    let s := icMuEncoderStatus (plan_encoder p) rev output in
    Ret (if bool_decide (state s = Some kConfigured) then Value s else Unexpected (WrongOutput output (default 0 (expectedOutputRegister s))))))).

Definition synchronise_step (p : IcMuPlan) : fallible unit :=
  then_ (start "fault-reset") (
  or_fail "fault-reset" (call ReadStatusword) (fun sw =>
  let faulted := Cia402.isFaulted sw in
  or_fail "fault-reset" (if faulted then call FaultReset else done_ tt) (fun _ =>
  then_ (succeed "fault-reset" (VFaulted faulted)) (
  then_ (start "multiturn-synchronisation") (
  or_fail "multiturn-synchronisation" (synchronise (plan_configuration p)) (fun '(raw, sync, spo) =>
  then_ (succeed "multiturn-synchronisation" (VSync raw sync spo)) (done_ tt))))))).

Definition pvl_step (c : IcMuConfiguration) : fallible unit :=
  then_ (start "ic-pvl-registers") (
  or_fail "ic-pvl-registers"
    (try_ (writeIcPvlEeprom (icPvlEepromBytes c)) (fun _ =>
     try_ (runIcMuI2cTransfer enc (icPvlCommand kReboot) true) (fun _ => waitForEncoder (icPvlReboot w)))) (fun _ =>
  then_ (succeed "ic-pvl-registers" VNone) (done_ tt))).

Definition restore_step (p : IcMuPlan) (wanted : bool) : fallible unit :=
  then_ (start "restore-file") (
  if negb wanted then then_ (succeed "restore-file" (VNoFile "the request left it out")) (done_ tt)
  else if negb (isIntegratedSensorPort (sensorPort (plan_encoder p))) then then_ (succeed "restore-file" (VNoFile kNoRestoreFile)) (done_ tt)
  else or_fail "restore-file" (writeIcMuRestoreFile enc (sensorPort (plan_encoder p)) true) (fun f =>
    then_ (succeed "restore-file" (VFile f.1)) (done_ tt))).

(** The lambda [configure]. *)
Definition configure (p : IcMuPlan) (wanted : bool) : fallible unit :=
  let c := plan_configuration p in
  let multiturn := is_multiturn (path c) in
  then_ (start "ic-mu-registers") (
  or_fail "ic-mu-registers" (writeIcMuRegisters enc (icMuRamWrites c) true) (fun _ =>
  then_ (succeed "ic-mu-registers" VNone) (
  try_ (if multiturn then pvl_step c else done_ tt) (fun _ =>
  then_ (start "eeprom-write") (
  or_fail "eeprom-write" (try_ save (fun _ => if multiturn then clearAndReset else writeIcMuRegister enc (icMuCommand kAbsReset) true)) (fun _ =>
  then_ (succeed "eeprom-write" VNone) (
  try_ (if multiturn then synchronise_step p else done_ tt) (fun _ =>
  then_ (start "verify") (
  or_fail "verify" (verify p) (fun s =>
  then_ (succeed "verify" (VStatus s)) (restore_step p wanted))))))))))).
End Configure.

Definition kBissServiceTimeout : Z := 30000.
Definition biss_config (stop : bool) : OsCommandConfig := mk_config kBissServiceTimeout kEncoderRegisterPollInterval stop.

(** Turning the status bits on again, whatever the body returned: [withStatusBitsIgnored] after its body, and
    the end of the configuration. *)
Definition restore_status_bits (enc : EncoderOrdinal) (result : expected error unit) : fallible unit :=
  bind (start "restore-status-bits") (fun _ =>
  bind (clearIcMuI2cError enc) (fun cleared =>
  let result := match cleared with
    | Value _ => result
    | Unexpected e => match result with Value _ => Unexpected e | Unexpected e' => Unexpected (Both e' e) end end in
  bind (call (SetIgnoreBissStatusBits enc false (biss_config false))) (fun restored : expected error unit =>
  let said := match restored with Value _ => Succeed "restore-status-bits" VNone | Unexpected e => FailStep "restore-status-bits" e end in
  bind (call (Report said)) (fun _ =>
  Ret (match result with Value _ => restored | Unexpected e => Unexpected e end))))).

Definition withStatusBitsIgnored (enc : EncoderOrdinal) (body : fallible unit) : fallible unit :=
  then_ (start "ignore-status-bits") (
  or_fail "ignore-status-bits" (call (SetIgnoreBissStatusBits enc true (biss_config true))) (fun _ =>
  then_ (succeed "ignore-status-bits" VNone) (bind body (restore_status_bits enc)))).

Definition runIcMuEncoderConfigurationProcedure (r : Request) : fallible unit :=
  try_ (call CreateSomanetDrive) (fun _ =>
  then_ (start "validate") (
  or_fail "validate" (planIcMuConfiguration r true) (fun p =>
  then_ (succeed "validate" (VPlan (plan_encoder p) (plan_configuration p) (plan_warnings p))) (
  withStatusBitsIgnored (req_encoder r) (configure (req_encoder r) (waits r) p (writeRestoreFile r)))))).

(** ** Tools *)
Definition planIcMuTool (enc : EncoderOrdinal) (bridge : bool) (stop : bool) : fallible EncoderConfiguration :=
  try_ checked_version (fun _ =>
  try_ drive_encoders (fun es =>
  try_ (find_encoder es enc) (fun found =>
  try_ (check_part enc found stop) (fun _ =>
  try_ (if bridge then check_not_enabled else done_ tt) (fun _ => done_ found))))).

Definition key_registers (values : list Z) : list (Z * Z * Z * option IcHaus.IcHausRegister) :=
  (fun '(ram, v) => (ram, default 0 (icMuEepromAddress ram), v, icMuRamRegister ram)) <$> zip icMuRestoreRegisters values.

Definition runIcMuKeyRegistersProcedure (enc : EncoderOrdinal) : fallible unit :=
  try_ (call CreateSomanetDrive) (fun _ =>
  then_ (start "validate") (
  or_fail "validate" (planIcMuTool enc false true) (fun plan =>
  or_fail "validate" (checkIcMuBank enc true) (fun _ =>
  then_ (succeed "validate" (VTool plan)) (
  then_ (start "read-key-registers") (
  or_fail "read-key-registers" (read_registers enc icMuRestoreRegisters true) (fun values =>
  then_ (succeed "read-key-registers" (VKeys (key_registers values))) (done_ tt)))))))).

(** The bytes of [cs], each with its address. *)
Fixpoint read_chunks (enc : EncoderOrdinal) (cs : list IcMuI2cChunk) : fallible (list (Z * Z)) :=
  match cs with
  | [] => done_ []
  | c :: cs => try_ (readIcMuI2c enc kEeprom c.1 c.2 true) (fun read =>
      try_ (read_chunks enc cs) (fun rest => done_ (imap (fun i v => (uwrap 8 (c.1 + Z.of_nat i), v)) read ++ rest)))
  end.

Definition on_bridge (enc : EncoderOrdinal) (body : EncoderConfiguration -> fallible unit) : fallible unit :=
  try_ (call CreateSomanetDrive) (fun _ =>
  then_ (start "validate") (
  or_fail "validate" (planIcMuTool enc true true) (fun plan =>
  then_ (succeed "validate" (VTool plan)) (withStatusBitsIgnored enc (body plan))))).

Definition runIcMuEepromExportProcedure (enc : EncoderOrdinal) : fallible unit :=
  on_bridge enc (fun _ =>
    then_ (start "read-eeprom") (
    or_fail "read-eeprom" (read_chunks enc (icMuEepromReadChunks 0x00 kIcMuEepromConfigurationEnd)) (fun l =>
    then_ (succeed "read-eeprom" (VBytes l)) (done_ tt)))).

Record I2cRequest := mk_i2c { i2c_encoder : EncoderOrdinal; target : IcMuI2cTarget; write : bool; i2c_address : Z; i2c_value : Z }.

Definition runIcMuI2cRegisterProcedure (r : I2cRequest) : fallible unit :=
  let enc := i2c_encoder r in
  on_bridge enc (fun _ =>
    then_ (start "i2c-transfer") (
    or_fail "i2c-transfer"
      (if write r then try_ (writeIcMuI2c enc (target r) (i2c_address r) [i2c_value r] true) (fun _ => done_ (i2c_value r))
       else try_ (readIcMuI2c enc (target r) (i2c_address r) 1 true) (fun l => done_ (nth 0 l 0))) (fun v =>
    then_ (succeed "i2c-transfer" (VTransfer (target r) (icMuI2cDeviceId (target r) (write r)) (write r) (i2c_address r) v)) (done_ tt)))).

Definition parsed_file (f : string * list Z) : fallible (string * list IcMuRestoreEntry) :=
  Ret match parseIcMuRestoreFile f.2 with Value l => Value (f.1, l) | Unexpected er => Unexpected (BadRestoreFile er) end.

Definition runIcMuRestoreFileProcedure (enc : EncoderOrdinal) : fallible unit :=
  try_ (call CreateSomanetDrive) (fun _ =>
  then_ (start "validate") (
  or_fail "validate" (planIcMuTool enc false true) (fun plan =>
  or_fail "validate" (Ret (if isIntegratedSensorPort (sensorPort plan) then Value tt else Unexpected (NoRestoreFile enc (sensorPort plan)))) (fun _ =>
  or_fail "validate" (checkIcMuBank enc true) (fun _ =>
  then_ (succeed "validate" (VTool plan)) (
  then_ (start "restore-file") (
  or_fail "restore-file"
    (try_ (writeIcMuRestoreFile enc (sensorPort plan) true) parsed_file) (fun '(name, l) =>
  then_ (succeed "restore-file" (VEntries name l)) (done_ tt))))))))).

Definition erase_chunks (enc : EncoderOrdinal) (cs : list IcMuI2cChunk) : fallible unit :=
  for_each cs (fun c => writeIcMuI2c enc kEeprom c.1 (replicate (Z.to_nat c.2) 0xFF) true).

Definition erased (l : list (Z * Z)) : fallible (list (Z * Z)) :=
  Ret match List.find (fun b => negb (b.2 =? 0xFF)) l with Some b => Unexpected (EepromDiffers b.1 b.2 0xFF) | None => Value l end.

Definition runIcMuEepromEraseProcedure (enc : EncoderOrdinal) : fallible unit :=
  on_bridge enc (fun plan =>
    then_ (start "erase-eeprom") (
    or_fail "erase-eeprom" (erase_chunks enc (icMuEepromWriteChunks 0x00 kIcMuEepromConfigurationEnd)) (fun _ =>
    then_ (succeed "erase-eeprom" VNone) (
    then_ (start "read-eeprom") (
    or_fail "read-eeprom" (try_ (read_chunks enc (icMuEepromReadChunks 0x00 kIcMuEepromConfigurationEnd)) erased) (fun l =>
    then_ (succeed "read-eeprom" (VBytes l)) (
    then_ (start "delete-restore-file") (
    if negb (isIntegratedSensorPort (sensorPort plan)) then then_ (succeed "delete-restore-file" (VNoFile kNoRestoreFile)) (done_ tt)
    else
      let name := icMuRestoreFileName (sensorPort plan) in
      or_fail "delete-restore-file" (call (RemoveDeviceFile name)) (fun _ =>
      then_ (succeed "delete-restore-file" (VFile name)) (done_ tt)))))))))).

(** ** What success means on the chip *)
Section Success.
Context (enc : EncoderOrdinal) (page : Z).
Abbreviation triple := (Bridge.triple enc page).
Abbreviation acts := (Bridge.acts enc page).

Lemma wp_trivial {A} (s : script answer A) (Q : A -> list (event answer) -> Chip -> Prop) : (forall a h d, Q a h d) -> forall h d, wp acts s h d Q.
Proof. intros HQ. induction s as [a|o k IH]; intros h d; cbn [wp]; auto. Qed.

Lemma triple_said {A} r (k : fallible A) (P : Memory -> Prop) (Q : A -> Memory -> Prop) :
  (forall m, P m -> P (add_report m r)) -> triple P k Q -> triple P (then_ (call (Report r)) k) Q.
Proof. intros HP Hk. apply triple_from. intros m Hm. apply triple_report. eapply triple_conseq; [exact Hk|intros ? <-; auto|done]. Qed.

Lemma triple_or_fail {A B} step (s : fallible A) (k : A -> fallible B) (P : Memory -> Prop) (R : A -> Memory -> Prop) (Q : B -> Memory -> Prop) :
  triple P s R -> (forall a, triple (R a) (k a) Q) -> triple P (or_fail step s k) Q.
Proof.
  intros Hs Hk h d Hq Hp. unfold or_fail. apply wp_bind. eapply wp_mono; [|by apply Hs]. intros [a|e] h' d'; [intros []; by apply Hk|]. intros _. cbn. done.
Qed.

(** *** Scripts that only look *)
Definition keeps {A} (s : fallible A) (phi : A -> Prop) : Prop := forall m, triple (eq m) s (fun a m' => m' = m /\ phi a).

Lemma keeps_try {A B} (s : fallible A) (k : A -> fallible B) phi psi : keeps s phi -> (forall a, phi a -> keeps (k a) psi) -> keeps (try_ s k) psi.
Proof. intros Hs Hk m. eapply triple_try; [apply Hs|]. intros a. apply triple_from. intros m' [-> Ha]. by apply Hk. Qed.

Lemma keeps_pure {A} (x : expected error A) (phi : A -> Prop) : (forall a, x = Value a -> phi a) -> keeps (Ret x) phi.
Proof. intros H m. apply triple_pure. intros a m' E <-. auto. Qed.

Lemma keeps_ask {A} o (k : answer o -> fallible A) phi : neutral enc o -> (forall x, keeps (k x) phi) -> keeps (bind (call o) k) phi.
Proof. intros Hn Hk m. apply triple_ask; [done|]. intros x. apply Hk. Qed.

Lemma keeps_do {A} o (k : answer o -> fallible A) phi : neutral enc o -> (forall x, keeps (k x) phi) -> keeps (Do o k) phi.
Proof. exact (keeps_ask o k phi). Qed.

Ltac keeps_call := unfold call; apply keeps_do; [by intros ? ? ? ?|intros ?; by apply keeps_pure].

Lemma keeps_read a stop : a <> kIcMuCommandRegister -> a <> kIcMuStatus1Register -> keeps (readIcMuRegister enc a stop) (fun _ => True).
Proof. intros H1 H2 m. eapply triple_conseq; [by apply read_spec|done|]. cbn. by intros ? ? [-> _]. Qed.

Lemma keeps_mono {A} (s : fallible A) (phi psi : A -> Prop) : keeps s phi -> (forall a, phi a -> psi a) -> keeps s psi.
Proof. intros Hs H1 m. eapply triple_conseq; [apply Hs|done|]. cbn. intros a m' [-> ?]. auto. Qed.

Lemma keeps_optional i j : keeps (optional_byte i j) (fun _ => True).
Proof. apply keeps_ask; [by intros ? ? ? ?|]. intros []; [keeps_call|by apply keeps_pure]. Qed.

Ltac look := repeat first
  [ apply keeps_pure; done
  | apply (keeps_try _ _ (fun _ => True)); [first [by apply keeps_read|apply keeps_optional|keeps_call]|intros ? _] ].

Lemma keeps_encoder o i : keeps (read_encoder o i) (fun e => encoderOrdinal e = o).
Proof.
  unfold read_encoder. look. apply keeps_pure. intros e [= <-]. by destruct (_ && _).
Qed.

Lemma keeps_source i j : keeps (source i j) (fun _ => True).
Proof. unfold source. look. Qed.

Lemma keeps_encoders : keeps drive_encoders (fun _ => True).
Proof.
  unfold drive_encoders. do 2 (eapply keeps_try; [apply keeps_encoder|intros ? _]). do 3 (eapply keeps_try; [apply keeps_source|intros ? _]). by apply keeps_pure.
Qed.

Lemma keeps_checked : keeps checked_version (fun _ => True).
Proof. unfold checked_version. apply (keeps_try _ _ (fun _ => True)); [keeps_call|intros ? _]. by apply keeps_pure. Qed.

Lemma keeps_find es e : keeps (find_encoder es e) (fun c => encoderOrdinal c = e /\ isIcMuEncoder c = true).
Proof.
  apply keeps_pure. intros c E. destruct (List.find _ _) as [c'|] eqn:F; [|done]. destruct (isIcMuEncoder c') eqn:I; [|done]. injection E as <-.
  apply List.find_some in F as [_ F%bool_decide_eq_true]. done.
Qed.

Lemma keeps_bank stop : keeps (checkIcMuBank enc stop) (fun _ => True).
Proof. unfold checkIcMuBank. eapply keeps_try; [by apply keeps_read|intros ? _]. by apply keeps_pure. Qed.
Lemma keeps_part c stop : keeps (check_part enc c stop) (fun _ => True).
Proof. unfold check_part. eapply keeps_try; [by apply keeps_read|intros ? _]. by apply keeps_pure. Qed.
Lemma keeps_enabled : keeps check_not_enabled (fun _ => True).
Proof. unfold check_not_enabled. apply (keeps_try _ _ (fun _ => True)); [keeps_call|intros ? _]. by apply keeps_pure. Qed.

Lemma keeps_tool bridge stop : keeps (planIcMuTool enc bridge stop) (fun c => encoderOrdinal c = enc).
Proof.
  unfold planIcMuTool. eapply keeps_try; [apply keeps_checked|intros ? _]. eapply keeps_try; [apply keeps_encoders|intros es _]. eapply keeps_try; [apply keeps_find|intros c [Hc _]].
  eapply keeps_try; [apply keeps_part|intros ? _]. eapply keeps_try; [|intros ? _; apply keeps_pure; intros ? [= <-]; exact Hc]. destruct bridge; [apply keeps_enabled|by apply keeps_pure].
Qed.

(** What the validation settles of a plan. *)
Definition planned (r : Request) (p : IcMuPlan) : Prop :=
  let e := plan_encoder p in let c := plan_configuration p in
  encoderOrdinal e = req_encoder r /\ isIcMuEncoder e = true /\ isIcMuSingleturnBits (singleturnBits e) = true /\
  path c = icMuPath (sensorPort e) (multiturnBits e) /\ cfg_singleturnBits c = singleturnBits e /\ cfg_multiturnBits c = multiturnBits e.

Lemma keeps_plan r stop : req_encoder r = enc -> keeps (planIcMuConfiguration r stop) (planned r).
Proof.
  intros He. unfold planIcMuConfiguration. rewrite He. eapply keeps_try; [apply keeps_checked|intros version _]. eapply keeps_try; [apply keeps_encoders|intros es _].
  eapply keeps_try; [apply keeps_find|intros c [Hc Hi]].
  eapply (keeps_try _ _ (fun _ => isIcMuSingleturnBits (singleturnBits c) = true)).
  { apply keeps_pure. intros [] E. unfold icMuSingleturnBitsError in E. by destruct (isIcMuSingleturnBits _). }
  intros [] Hs. eapply keeps_try; [apply keeps_bank|intros ? _]. apply (keeps_try _ _ (fun _ => True)); [destruct (isIntegratedSensorPort _); [by apply keeps_pure|apply keeps_part]|intros ? _].
  eapply keeps_try; [apply keeps_enabled|intros ? _]. cbv zeta. apply keeps_ask; [by intros ? ? ? ?|intros safe].
  assert (P : forall b, planned r (mk_plan c (mk_configuration (icMuPath (sensorPort c) (multiturnBits c)) (singleturnBits c) (multiturnBits c) safe b)
    (option_list (ringFromResolutionWarning c) ++ option_list (icMuMultiturnBitsWarning (icMuPath (sensorPort c) (multiturnBits c)) (multiturnBits c))))).
  { intros b. rewrite <- He in Hc. by repeat split. }
  destruct (is_multiturn _); cbn [negb].
  - destruct (bool_decide _); [by apply keeps_pure|]. destruct (req_batteryMode r) as [b|].
    + apply keeps_pure. intros pl E. destruct (mbind _ _); [|done]. injection E as <-. apply P.
    + apply (keeps_try _ _ (fun _ => True)); [keeps_call|intros gear _]. apply keeps_pure. intros pl E. destruct (encoderShaft _ _ _); [|done]. injection E as <-. apply P.
  - apply keeps_pure. intros pl E. destruct (req_batteryMode r); [done|]. injection E as <-. apply P.
Qed.

(** *** What holds of the memory while the encoder is configured *)
Definition ram_ok (c : IcMuConfiguration) (m : Memory) : Prop :=
  (forall a v, (a, v) ∈ icMuRamWrites c -> a <> kIcMuMpcRegister -> regs m a = v) /\ regs m kIcMuMpcRegister mod 16 = icMuMasterPeriodCount (cfg_singleturnBits c).
Definition stored (m : Memory) : Prop := forall a x, 0 <= a -> icMuEepromAddress a = Some x -> eeprom m x = regs m a.
Definition pvl_stored (c : IcMuConfiguration) (m : Memory) : Prop := forall i b, icPvlEepromBytes c !! i = Some b -> eeprom m (kIcPvlEepromStart + Z.of_nat i) = b.
Definition pvl_loaded (c : IcMuConfiguration) (but : Z) (m : Memory) : Prop :=
  forall i b, icPvlEepromBytes c !! i = Some b -> (i <= 6)%nat -> Z.of_nat i <> but -> pvl m (Z.of_nat i) = b.

Lemma ram_addresses c a v : (a, v) ∈ icMuRamWrites c -> 0 <= a <= 0x18.
Proof.
  intros H. assert (E : a ∈ (icMuRamWrites c).*1) by (apply list_elem_of_fmap; by exists (a, v)).
  assert (Forall (fun a => 0 <= a <= 0x18) ((icMuRamWrites c).*1)) as F by (cbn; unfold kIcMuMpcRegister, kIcMuOutputRegister; repeat (apply Forall_cons; split; [lia|]); by apply Forall_nil). rewrite Forall_forall in F. auto.
Qed.

Lemma eeprom_address a x : 0 <= a -> icMuEepromAddress a = Some x -> (0 <= a <= 0x18 \/ 0x52 <= a <= 0x59) /\ 0 <= x <= 0x20.
Proof.
  intros H0 E. unfold icMuEepromAddress, kLastConfigurationRam, kSpoBaseRam, kSpoLastRam, kSpoBaseEeprom in E. destruct (Z.leb_spec a 24); [injection E as <-; lia|].
  destruct (Z.leb_spec 82 a), (Z.leb_spec a 89); cbn [andb] in E; try done. injection E as <-. rewrite uwrap_id by (unfold in_u; lia). lia.
Qed.

Lemma ram_ok_bridge c m m' : off_bridge m m' -> ram_ok c m -> ram_ok c m'.
Proof.
  intros [_ Hr] [H1 H2]. split.
  - intros a v Ha Hne. pose proof (ram_addresses _ _ _ Ha). destruct (Hr a) as [?| ->]; [lia|auto].
  - destruct (Hr kIcMuMpcRegister) as [?| ->]; [unfold kIcMuMpcRegister in *; lia|done].
Qed.
Lemma ram_ok_regs c m m' : (forall a, regs m' a = regs m a) -> ram_ok c m -> ram_ok c m'.
Proof. intros E [H1 H2]. split; [intros a v Ha Hne|]; rewrite E; auto. Qed.
Lemma ram_ok_reset c m m' : resynchronised m m' -> ram_ok c m -> ram_ok c m'.
Proof.
  intros (_ & _ & _ & Hr & Hm) [H1 H2]. split; [|by rewrite Hm]. intros a v Ha Hne. pose proof (ram_addresses _ _ _ Ha).
  destruct (Hr a) as [?|[?| ->]]; [lia|done|auto].
Qed.
Lemma ram_ok_mpc c m v : v mod 16 = icMuMasterPeriodCount (cfg_singleturnBits c) -> ram_ok c m -> ram_ok c (set_reg m (kIcMuMpcRegister, v)).
Proof.
  intros Hv [H1 H2]. split; cbn [set_reg regs]; unfold upd; cbn [fst snd]; [|done]. intros a w Ha Hne. rewrite (proj2 (Z.eqb_neq _ _) Hne). auto.
Qed.
Lemma stored_bridge m m' : off_bridge m m' -> eeprom_kept m m' -> stored m -> stored m'.
Proof. intros [_ Hr] He Hs a x H0 Hx. pose proof (eeprom_address _ _ H0 Hx). rewrite He. destruct (Hr a) as [?| ->]; [lia|]. by apply Hs. Qed.
Lemma pvl_stored_kept c m m' : eeprom_kept m m' -> pvl_stored c m -> pvl_stored c m'.
Proof. intros He Hs i b Hi. rewrite He. by apply Hs. Qed.
Lemma pvl_stored_saved c m m' : saved m m' -> pvl_stored c m -> pvl_stored c m'.
Proof. intros (_ & _ & _ & _ & He) Hs i b Hi. rewrite He by (unfold kIcPvlEepromStart; lia). by apply Hs. Qed.
Lemma pvl_loaded_kept c but m m' : pvl_kept m m' -> pvl_loaded c but m -> pvl_loaded c but m'.
Proof. intros Hk Hl i b Hi Hn Hne. rewrite Hk by lia. by apply Hl. Qed.

Lemma mpc_small st : isIcMuSingleturnBits st = true -> icMuMasterPeriodCount st = st - 14.
Proof. unfold isIcMuSingleturnBits, kIcMuMinSingleturnBits, kIcMuMaxSingleturnBits, icMuMasterPeriodCount. intros H0. apply uwrap_id. unfold in_u. lia. Qed.

Lemma set_regs_other a : forall l m, a ∉ l.*1 -> regs (set_regs m l) a = regs m a.
Proof.
  induction l as [|[b w] l IH]; intros m Hn; [done|]. cbn in Hn. apply not_elem_of_cons in Hn as [Hne Hn]. change (regs (set_regs (set_reg m (b, w)) l) a = regs m a).
  rewrite IH by done. cbn. unfold upd. cbn. by rewrite (proj2 (Z.eqb_neq _ _) Hne).
Qed.
Lemma set_regs_in a v : forall l m, NoDup (l.*1) -> (a, v) ∈ l -> regs (set_regs m l) a = v.
Proof.
  induction l as [|[b w] l IH]; intros m Hn Hin; [by apply elem_of_nil in Hin|]. cbn in Hn. apply NoDup_cons in Hn as [Hb Hn]. apply elem_of_cons in Hin as [[= <- <-]|Hin]; [|by apply IH].
  change (regs (set_regs (set_reg m (a, v)) l) a = v). rewrite set_regs_other by done. cbn. unfold upd. cbn. by rewrite Z.eqb_refl.
Qed.
Lemma ram_writes_nodup c : NoDup ((icMuRamWrites c).*1).
Proof.
  apply NoDup_ListNoDup, (proj2 (NoDup_count_occ Z.eq_dec _)). intros x. destruct (decide (0 <= x <= 24)) as [Hx|Hx].
  - pose proof (ram_writes_partition c x Hx). lia.
  - rewrite (proj1 (count_occ_not_In Z.eq_dec _ _)); [lia|]. intros ([b w] & -> & Hin)%list_elem_of_In%list_elem_of_fmap. apply (ram_addresses c) in Hin. cbn in Hx. lia.
Qed.

Lemma write_ram_spec c stop : isIcMuSingleturnBits (cfg_singleturnBits c) = true ->
  triple (fun _ => True) (writeIcMuRegisters enc (icMuRamWrites c) stop) (fun _ m => ram_ok c m).
Proof.
  intros Hst. apply triple_from. intros m _. eapply triple_conseq; [apply writes_spec; repeat constructor; done|done|]. cbn beta. intros [] m' ->. split.
  - intros a v Ha Hne. apply set_regs_in; [apply ram_writes_nodup|done].
  - rewrite (set_regs_in _ (icMuMasterPeriodCount (cfg_singleturnBits c))); [|apply ram_writes_nodup|cbn; set_solver].
    rewrite mpc_small by done. unfold isIcMuSingleturnBits, kIcMuMinSingleturnBits, kIcMuMaxSingleturnBits in Hst. apply Z.mod_small. lia.
Qed.

(** *** EEPROM ranges *)
Definition calm (m m' : Memory) : Prop := off_bridge m m' /\ pvl_kept m m' /\ eeprom_kept m m'.
Lemma off_bridge_refl m : off_bridge m m.
Proof. split; [done|]. intros a. by right. Qed.
Lemma off_bridge_trans m1 m2 m3 : off_bridge m1 m2 -> off_bridge m2 m3 -> off_bridge m1 m3.
Proof. intros [O1 R1] [O2 R2]. split; [by eapply others_trans|]. intros a. destruct (R1 a) as [?|E1]; [by left|]. destruct (R2 a) as [?|E2]; [by left|]. right. congruence. Qed.
Lemma pvl_kept_trans m1 m2 m3 : pvl_kept m1 m2 -> pvl_kept m2 m3 -> pvl_kept m1 m3.
Proof. intros K1 K2 r Hr. by rewrite K2, K1. Qed.
Lemma calm_refl m : calm m m.
Proof. split; [apply off_bridge_refl|done]. Qed.
Lemma calm_trans m1 m2 m3 : calm m1 m2 -> calm m2 m3 -> calm m1 m3.
Proof. intros (B1 & K1 & E1) (B2 & K2 & E2). split; [by eapply off_bridge_trans|]. split; [by eapply pvl_kept_trans|]. intros x. by rewrite E2, E1. Qed.

Lemma for_each_calm {A} (l : list A) (body : A -> fallible unit) : Forall (fun a => forall m, triple (eq m) (body a) (fun _ => calm m)) l ->
  forall m, triple (eq m) (for_each l body) (fun _ => calm m).
Proof.
  induction 1 as [|a l Ha _ IH]; intros m; cbn [for_each]; [apply triple_ret; intros ? <-; apply calm_refl|].
  eapply triple_try; [apply Ha|]. intros []. apply triple_from. intros m1 H1. eapply triple_conseq; [apply IH|done|]. intros [] m2 H2. by eapply calm_trans.
Qed.

(** Bursts that stay inside pages write the content [f] over the range they cover, and nothing else. *)
Lemma for_each_write (data : IcMuI2cChunk -> list Z) (f : Z -> Z) cs : (8 | page) -> 0 < page ->
  Forall (fun c => 0 <= c.1 /\ 1 <= c.2 /\ length (data c) = Z.to_nat c.2 /\ c.1 / 8 = (c.1 + c.2 - 1) / 8 /\ forall i, 0 <= i < c.2 -> nth (Z.to_nat i) (data c) 0 = f (c.1 + i)) cs ->
  forall m, triple (eq m) (for_each cs (fun c => writeIcMuI2c enc kEeprom c.1 (data c) true))
    (fun _ m' => off_bridge m m' /\ pvl_kept m m' /\ forall x, eeprom m' x = if decide (x ∈ concat (burst <$> cs)) then f x else eeprom m x).
Proof.
  intros Hp Hp'. induction 1 as [|c cs (H0 & Hc & Hl & Hpg & Hd) _ IH]; intros m; cbn [for_each].
  - apply triple_ret. intros ? <-. split; [apply off_bridge_refl|]. split; [done|]. intros x. by rewrite decide_False by apply not_elem_of_nil.
  - eapply triple_try; [apply (eeprom_write_spec enc page m c.1 (data c)); [done|done|done| |]|].
    { destruct (data c); [cbn in Hl; lia|done]. }
    { rewrite Hl, Z2Nat.id by lia. exact Hpg. }
    intros []. apply triple_from. intros m1 (B1 & K1 & E1). eapply triple_conseq; [apply IH|done|]. intros [] m2 (B2 & K2 & E2).
    split; [by eapply off_bridge_trans|]. split; [by eapply pvl_kept_trans|]. intros x. rewrite E2, fmap_cons, concat_cons. rewrite Hl, Z2Nat.id in E1 by lia.
    destruct (decide (x ∈ concat (burst <$> cs))) as [Hx|Hx]; [by rewrite decide_True by (apply elem_of_app; by right)|]. rewrite E1.
    destruct (decide (x ∈ burst c ++ concat (burst <$> cs))) as [Hin|Hin].
    + apply elem_of_app in Hin as [Hin|?]; [|done]. apply elem_of_seqZ in Hin. rewrite (proj2 (Z.leb_le _ _)), (proj2 (Z.ltb_lt _ _)) by lia. cbn [andb].
      rewrite Hd by lia. f_equal. lia.
    + destruct (Z.leb_spec c.1 x), (Z.ltb_spec x (c.1 + c.2)); cbn [andb]; try done. exfalso. apply Hin, elem_of_app. left. apply elem_of_seqZ. lia.
Qed.

Lemma chunks_covered first last size aligned : 0 <= first <= last -> last < 256 -> 0 < size < 256 ->
  forall x, x ∈ concat (burst <$> chunks first last size aligned) <-> first <= x <= last.
Proof. intros H1 H2 H3 x. destruct (chunks_spec first last size aligned H1 H2 H3) as [-> _]. rewrite elem_of_seqZ. lia. Qed.

Lemma pvl_bytes_length c : length (icPvlEepromBytes c) = 13%nat.
Proof. reflexivity. Qed.

Lemma sleep_keeps {A} fuel (k : bool -> fallible A) phi : (forall b, keeps (k b) phi) -> forall remaining, keeps (bind (sleep_slices fuel remaining) k) phi.
Proof.
  intros Hk. induction fuel as [|fuel IH]; intros remaining; cbn [sleep_slices].
  - cbn [bind call]. apply keeps_do; [by intros ? ? ? ?|intros b; apply Hk].
  - destruct (remaining <=? 0); cbn [bind call]; (apply keeps_do; [by intros ? ? ? ?|intros b]); [apply Hk|]. destruct b; [apply Hk|]. cbn [bind]. apply keeps_do; [by intros ? ? ? ?|intros []]. apply IH.
Qed.
Lemma wait_keeps d : keeps (waitForEncoder d) (fun _ => True).
Proof. apply sleep_keeps. intros b. by apply keeps_pure. Qed.

Lemma write_pvl_spec w c : (8 | page) -> 0 < page -> forall m,
  triple (eq m) (writeIcPvlEeprom enc w (icPvlEepromBytes c)) (fun _ m' => off_bridge m m' /\ pvl_kept m m' /\ pvl_stored c m').
Proof.
  intros Hp Hp' m. unfold writeIcPvlEeprom. change (uwrap 8 (kIcPvlEepromStart + Z.of_nat (length (icPvlEepromBytes c)) - 1)) with 0x4C. unfold kIcPvlEepromStart. set (l := icPvlEepromBytes c).
  eapply triple_try; [apply (for_each_write _ (fun x => nth (Z.to_nat (x - 0x40)) l 0)); [done|done|]|].
  { destruct (chunks_spec 0x40 0x4C 8 true ltac:(lia) ltac:(lia) ltac:(lia)) as [_ F]. eapply Forall_impl; [exact F|]. cbn beta. intros ch (H1 & H2 & H3 & H4). assert (length l = 13%nat) by apply pvl_bytes_length.
    split; [lia|]. split; [lia|]. split; [apply length_slice; lia|]. split; [by apply H4|]. intros i Hi. unfold slice. rewrite nth_lookup, lookup_take_lt by lia. rewrite lookup_drop, nth_lookup. do 2 f_equal. lia. }
  intros []. apply triple_from. intros m1 (B1 & K1 & E1). assert (S1 : pvl_stored c m1).
  { intros i b Hi. unfold kIcPvlEepromStart. pose proof (lookup_lt_Some _ _ _ Hi) as Hlt. rewrite pvl_bytes_length in Hlt. rewrite E1.
    rewrite decide_True by (apply (chunks_covered 0x40 0x4C 8 true); lia). replace (Z.to_nat (64 + Z.of_nat i - 64)) with i by lia. by apply nth_lookup_Some. }
  eapply triple_try; [apply wait_keeps|]. intros []. apply triple_from. intros m2 [-> _]. eapply triple_conseq; [apply for_each_calm|done|].
  { destruct (chunks_spec 0x40 0x4C 16 false ltac:(lia) ltac:(lia) ltac:(lia)) as [_ F]. eapply Forall_impl; [exact F|]. cbn beta. intros ch (_ & H2 & _) mm.
    eapply triple_try; [apply eeprom_read_spec; lia|]. intros bs. apply triple_pure. intros [] m' _ (? & ? & ? & _). done. }
  intros [] m' (B2 & K2 & E2). split; [by eapply off_bridge_trans|]. split; [by eapply pvl_kept_trans|]. by eapply pvl_stored_kept.
Qed.

(** *** The steps of a configuration *)
Lemma clear_reset_spec m : triple (eq m) (clearAndReset enc) (fun _ => calm m).
Proof.
  unfold clearAndReset, icPvlCommand. eapply triple_try; [apply pvl_write_spec|]. intros []. apply triple_from. intros m1 (B & E & K).
  eapply triple_conseq; [apply command_spec|done|]. intros [] m2 ->. split; [exact B|]. split; [|exact E]. intros r Hr. rewrite (K r Hr). done.
Qed.

Lemma saves_spec m : triple (eq m) (save enc) (fun _ => saved m).
Proof. unfold save. eapply triple_try; [apply save_spec|]. intros v. by apply triple_ret. Qed.

(** What a configured encoder holds; [but] is a register of the iC-PVL that is switched over for the moment. *)
Definition holds (c : IcMuConfiguration) (but : Z) (m : Memory) : Prop :=
  ram_ok c m /\ (is_multiturn (path c) = true -> pvl_stored c m /\ pvl_loaded c but m).

Lemma holds_calm c but m m' : calm m m' -> holds c but m -> holds c but m'.
Proof.
  intros (B & K & E) [Hr Hp]. split; [by eapply ram_ok_bridge|]. intros Hm. destruct (Hp Hm) as [Hs Hl]. split; [by eapply pvl_stored_kept|by eapply pvl_loaded_kept].
Qed.
Lemma holds_saved c but m m' : saved m m' -> holds c but m -> holds c but m' /\ stored m'.
Proof.
  intros Hs [Hr Hp]. pose proof Hs as (_ & R & V & S & _). split; [split; [by eapply ram_ok_regs|]|].
  - intros Hm. destruct (Hp Hm) as [Hs' Hl]. split; [by eapply pvl_stored_saved|]. eapply pvl_loaded_kept; [|exact Hl]. intros r _. apply V.
  - intros a x H0 Hx. by rewrite R, (S a x).
Qed.
Lemma stored_calm m m' : calm m m' -> stored m -> stored m'.
Proof. intros (B & K & E). by apply stored_bridge. Qed.

Lemma spoMt_low raw st sync : isIcMuSingleturnBits st = true -> icMuSpoMtRegister raw st sync mod 16 = icMuMasterPeriodCount st.
Proof.
  intros Hst. unfold icMuSpoMtRegister. cbv zeta. set (q := _ / 225 + _). rewrite mpc_small by done. unfold isIcMuSingleturnBits, kIcMuMinSingleturnBits, kIcMuMaxSingleturnBits in Hst.
  change 15 with (Z.ones 4). rewrite Z.land_ones by lia. pose proof (Z.mod_pos_bound q (2 ^ 4) ltac:(lia)). rewrite Z.lor_comm, lor_shiftl_add by (unfold in_u; lia).
  rewrite uwrap_id by (unfold in_u; lia). symmetry. apply (Z.mod_unique_pos _ _ (q mod 2 ^ 4)); lia.
Qed.

Lemma cleared_mpc v : uwrap 8 (Z.land v 15) mod 16 = v mod 16.
Proof.
  change 15 with (Z.ones 4). rewrite Z.land_ones by lia. pose proof (Z.mod_pos_bound v (2 ^ 4) ltac:(lia)). rewrite uwrap_id by (unfold in_u; lia).
  change (2 ^ 4) with 16. apply Z.mod_mod. lia.
Qed.

Lemma holds_mpc c but m v : v mod 16 = icMuMasterPeriodCount (cfg_singleturnBits c) -> holds c but m -> holds c but (set_reg m (kIcMuMpcRegister, v)).
Proof. intros Hv [Hr Hp]. split; [by apply ram_ok_mpc|exact Hp]. Qed.

(** Register 0x05 of the iC-PVL is switched over and back. *)
Lemma holds_switched c m m' v : off_bridge m m' -> eeprom_kept m m' -> (forall q, 0 <= q <= 6 -> pvl m' q = if q =? 5 then v else pvl m q) ->
  holds c 5 m -> holds c (if v =? kIcPvlPositionOutputOff then -1 else 5) m'.
Proof.
  intros B E K [Hr Hp]. split; [by eapply ram_ok_bridge|]. intros Hm. destruct (Hp Hm) as [Hs Hl]. split; [by eapply pvl_stored_kept|].
  intros i b Hi Hn Hne. rewrite K by lia. destruct (Z.eqb_spec (Z.of_nat i) 5) as [Ei|Ei]; [|by apply Hl].
  destruct (Z.eqb_spec v kIcPvlPositionOutputOff) as [->|]; [|lia]. replace i with 5%nat in Hi by lia. by injection Hi as <-.
Qed.
Lemma holds_weaken c but m : holds c (-1) m -> holds c but m.
Proof. intros [Hr Hp]. split; [done|]. intros Hm. destruct (Hp Hm) as [Hs Hl]. split; [done|]. intros i b Hi Hn Hne. apply Hl; [done|done|lia]. Qed.

Lemma synchronise_spec w c : isIcMuSingleturnBits (cfg_singleturnBits c) = true ->
  triple (holds c (-1)) (synchronise enc w c) (fun _ m => holds c (-1) m /\ stored m).
Proof.
  intros Hst. unfold synchronise. apply triple_from. intros m Hm. eapply triple_try; [apply read_spec; done|]. intros mpc. apply triple_from. intros ? [-> ->].
  eapply triple_try; [apply writes_spec; by repeat constructor|]. intros []. apply triple_from. intros ? ->. cbn [set_regs foldl].
  apply (holds_mpc c _ m (uwrap 8 (Z.land (regs m kIcMuMpcRegister) 15))) in Hm; [|rewrite cleared_mpc; apply Hm]. set (m1 := set_reg m _) in *. clearbody m1. clear m.
  eapply triple_try; [apply command_spec|]. intros []. apply triple_from. intros ? ->. eapply triple_try; [apply wait_keeps|]. intros []. apply triple_from. intros ? [-> _].
  apply (triple_try _ _ _ _ _ (fun _ m => m = m1)). { eapply triple_conseq; [apply (keeps_do (ReadValue (status_object enc) 1) Ret (fun _ => True)); [by intros ? ? ? ?|intros ?; by apply keeps_pure]|done|by intros ? ? [-> _]]. }
  intros raw. apply triple_from. intros ? ->. eapply triple_try; [apply pvl_write_spec|]. intros []. apply triple_from. intros m2 (B2 & E2 & K2).
  apply holds_weaken with (but := 5) in Hm. apply (holds_switched c m1 m2 kIcPvlPositionOutputOn B2 E2 K2) in Hm. cbn [Z.eqb Pos.eqb kIcPvlPositionOutputOn kIcPvlPositionOutputOff] in Hm. clear m1 B2 E2 K2.
  eapply triple_try; [apply pvl_read_spec|]. intros []. apply triple_from. intros m3 H3. apply (holds_calm _ _ _ _ H3) in Hm. clear m2 H3.
  eapply triple_try; [apply read_spec; done|]. intros sync. apply triple_from. intros ? [-> _]. cbv zeta.
  eapply triple_try; [apply writes_spec; by repeat constructor|]. intros []. apply triple_from. intros ? ->. cbn [set_regs foldl].
  apply (holds_mpc c _ m3 (icMuSpoMtRegister raw (cfg_singleturnBits c) sync)) in Hm; [|by apply spoMt_low]. set (m4 := set_reg m3 _) in *. clearbody m4. clear m3.
  eapply triple_try; [apply pvl_write_spec|]. intros []. apply triple_from. intros m5 (B5 & E5 & K5). apply (holds_switched c m4 m5 kIcPvlPositionOutputOff B5 E5 K5) in Hm. clear m4 B5 E5 K5. cbn in Hm.
  eapply triple_try; [apply saves_spec|]. intros []. apply triple_from. intros m6 H6. destruct (holds_saved _ _ _ _ H6 Hm) as [Hm6 S6]. clear m5 Hm H6.
  eapply triple_try; [apply clear_reset_spec|]. intros []. apply triple_ret. intros m7 H7. split; [by eapply holds_calm|by eapply stored_calm].
Qed.

Lemma pvl_step_spec w c : (8 | page) -> 0 < page -> triple (ram_ok c) (pvl_step enc w c) (fun _ => holds c (-1)).
Proof.
  intros Hp Hp'. unfold pvl_step. apply triple_said; [done|]. apply (triple_or_fail _ _ _ _ (fun _ => holds c (-1))).
  - apply triple_from. intros m Hm. eapply triple_try; [by apply write_pvl_spec|]. intros []. apply triple_from. intros m1 (B1 & K1 & S1).
    unfold icPvlCommand. eapply triple_try; [apply pvl_write_spec|]. intros []. apply triple_from. intros m2 (B2 & E2 & K2).
    eapply triple_conseq; [apply wait_keeps|done|]. intros [] m3 [-> _]. split; [by eapply ram_ok_bridge, ram_ok_bridge|]. intros _. split; [by eapply pvl_stored_kept|].
    intros i b Hi Hn _. rewrite K2 by lia. exact (S1 i b Hi).
  - intros []. apply triple_said; [done|]. by apply triple_ret.
Qed.

Lemma holds_reset c m m' : resynchronised m m' -> holds c (-1) m -> holds c (-1) m'.
Proof.
  intros Hr [H1 H2]. split; [by eapply ram_ok_reset|]. destruct Hr as (_ & E & K & _). intros Hm. destruct (H2 Hm). split; [by eapply pvl_stored_kept|by eapply pvl_loaded_kept].
Qed.

Lemma synchronise_step_spec w p : isIcMuSingleturnBits (cfg_singleturnBits (plan_configuration p)) = true ->
  triple (holds (plan_configuration p) (-1)) (synchronise_step enc w p) (fun _ m => holds (plan_configuration p) (-1) m /\ stored m).
Proof.
  intros Hst. set (c := plan_configuration p) in *. unfold synchronise_step. apply triple_said; [done|].
  apply (triple_or_fail _ _ _ _ (fun _ => holds c (-1))).
  { apply triple_from. intros m Hm. eapply triple_conseq; [apply (keeps_do ReadStatusword Ret (fun _ => True)); [by intros ? ? ? ?|intros ?; by apply keeps_pure]|done|by intros ? ? [-> _]]. }
  intros sw. cbv zeta. apply (triple_or_fail _ _ _ _ (fun _ => holds c (-1))).
  { destruct (Cia402.isFaulted sw); [|by apply triple_ret]. apply triple_from. intros m Hm. eapply triple_conseq; [apply reset_spec|done|]. intros [] m' Hr. by eapply holds_reset. }
  intros []. apply triple_said; [done|]. apply triple_said; [done|]. eapply triple_or_fail; [by apply synchronise_spec|]. intros [[raw sync] spo].
  apply triple_said; [done|]. by apply triple_ret.
Qed.

Lemma verify_keeps p : keeps (verify enc p) (fun _ => True).
Proof.
  unfold verify. apply (keeps_try _ _ (fun _ => True)); [by apply keeps_read|intros mpc _]. destruct (negb _); [by apply keeps_pure|].
  do 2 (apply (keeps_try _ _ (fun _ => True)); [by apply keeps_read|intros ? _]). by apply keeps_pure.
Qed.

Lemma read_registers_spec stop l : Forall (fun a => a <> kIcMuCommandRegister /\ a <> kIcMuStatus1Register) l -> forall m,
  triple (eq m) (read_registers enc l stop) (fun vs m' => m' = m /\ vs = regs m <$> l).
Proof.
  induction 1 as [|a l [H1 H2] _ IH]; intros m; cbn [read_registers]; [by apply triple_ret|]. eapply triple_try; [by apply read_spec|]. intros v. apply triple_from. intros ? [-> ->].
  eapply triple_try; [apply IH|]. intros vs. apply triple_ret. intros ? [-> ->]. done.
Qed.

Lemma restore_registers_in : Forall (fun a => 0 <= a <= 0x18 \/ 0x52 <= a <= 0x59) icMuRestoreRegisters.
Proof. unfold icMuRestoreRegisters. apply Forall_app. split; apply Forall_forall; intros a Ha%elem_of_seqZ; lia. Qed.

(** The restore file holds what the registers hold. *)
Definition backed_up (port : Z) (m : Memory) : Prop := files m !! icMuRestoreFileName port = Some (icMuRestoreFile (regs m <$> icMuRestoreRegisters)).

Lemma restore_file_spec port stop m : triple (eq m) (writeIcMuRestoreFile enc port stop)
  (fun f m' => exists fs, m' = set_files m fs /\ backed_up port m' /\ f = (icMuRestoreFileName port, icMuRestoreFile (regs m <$> icMuRestoreRegisters))).
Proof.
  unfold writeIcMuRestoreFile. eapply triple_try; [apply read_registers_spec; eapply Forall_impl; [apply restore_registers_in|]; cbn; unfold kIcMuCommandRegister, kIcMuStatus1Register; lia|].
  intros vs. apply triple_from. intros ? [-> ->]. cbv zeta. intros h d Hq Hm. apply wp_bind. eapply wp_mono; [|by apply write_file_spec]. intros [[]|e] h1 d1; [|done]. intros [Hq1 Hm1].
  cbn [bind call wp]. intros x d2 (d3 & Hr & Hx). destruct (advance_quiet page _ _ Hq1 Hr) as (Hq3 & Em & _). cbn in Hx. destruct Hx as [-> Hx]. destruct x as [b|e]; cbn [wp]; [|done].
  case_bool_decide as Eb; [|done]. split; [done|]. eexists. rewrite Em. split; [exact Hm1|]. split; [|by f_equal]. subst b. unfold backed_up. rewrite <- Em, Hx, Em, Hm1. done.
Qed.

Definition configured (p : IcMuPlan) (wanted : bool) (m : Memory) : Prop :=
  holds (plan_configuration p) (-1) m /\ stored m /\
  (wanted = true -> isIntegratedSensorPort (sensorPort (plan_encoder p)) = true -> backed_up (sensorPort (plan_encoder p)) m).

Lemma restore_step_spec p wanted : triple (fun m => holds (plan_configuration p) (-1) m /\ stored m) (restore_step enc p wanted) (fun _ => configured p wanted).
Proof.
  unfold restore_step. apply triple_said; [done|]. destruct wanted; cbn [negb]; [|apply triple_said; [done|]; apply triple_ret; by intros m [? ?]].
  destruct (isIntegratedSensorPort _) eqn:Ei; cbn [negb]; [|apply triple_said; [done|]; apply triple_ret; intros m [? ?]; split; [done|]; split; [done|]; by rewrite Ei].
  apply (triple_or_fail _ _ _ _ (fun _ => configured p true)); [|intros f; apply triple_said; [done|]; by apply triple_ret].
  apply triple_from. intros m [Hh Hs]. eapply triple_conseq; [apply restore_file_spec|done|]. cbn beta. intros f m' (fs & -> & Hb & _). done.
Qed.

Lemma configure_spec w p wanted : (8 | page) -> 0 < page -> isIcMuSingleturnBits (cfg_singleturnBits (plan_configuration p)) = true ->
  triple (fun _ => True) (configure enc w p wanted) (fun _ => configured p wanted).
Proof.
  intros Hp Hp' Hst. set (c := plan_configuration p) in *. unfold configure. fold c. cbv zeta. apply triple_said; [done|]. eapply triple_or_fail; [by apply write_ram_spec|]. intros [].
  apply triple_said; [done|]. apply (triple_try _ _ _ _ _ (fun _ => holds c (-1))).
  { destruct (is_multiturn (path c)) eqn:Em; [by apply pvl_step_spec|]. apply triple_ret. intros m Hm. split; [done|]. by rewrite Em. }
  intros []. apply triple_said; [done|]. apply (triple_or_fail _ _ _ _ (fun _ m => holds c (-1) m /\ stored m)).
  { apply triple_from. intros m Hm. eapply triple_try; [apply saves_spec|]. intros []. apply triple_from. intros m1 H1. destruct (holds_saved _ _ _ _ H1 Hm) as [Hm1 S1].
    destruct (is_multiturn _); [eapply triple_conseq; [apply clear_reset_spec|done|intros [] m2 H2; split; [by eapply holds_calm|by eapply stored_calm]]|].
    eapply triple_conseq; [apply command_spec|done|]. by intros [] m2 ->. }
  intros []. apply triple_said; [done|]. apply (triple_try _ _ _ _ _ (fun _ m => holds c (-1) m /\ stored m)).
  { destruct (is_multiturn _); [|by apply triple_ret]. eapply triple_conseq; [by apply synchronise_step_spec|by intros m [? _]|done]. }
  intros []. apply triple_said; [done|]. apply (triple_or_fail _ _ _ _ (fun _ m => holds c (-1) m /\ stored m)).
  { apply triple_from. intros m Hm. eapply triple_conseq; [apply verify_keeps|done|]. by intros s m' [-> _]. }
  intros s. apply triple_said; [done|]. apply restore_step_spec.
Qed.

(** *** Turning the status bits on again *)
Lemma restore_failed e h d : wp acts (restore_status_bits enc (Unexpected e)) h d (fun x _ _ => match x with Value _ => False | Unexpected _ => True end).
Proof.
  unfold restore_status_bits. do 2 (apply wp_bind, wp_trivial; intros ? ? ?). apply wp_bind, wp_trivial. intros r ? ?. apply wp_bind, wp_trivial. intros ? ? ?. cbn [wp]. by destruct a0.
Qed.

Lemma with_bits_spec (body : fallible unit) (P R : Memory -> Prop) :
  (forall m r, P m -> P (add_report m r)) -> (forall m, P m -> P (set_ignoring m true)) ->
  (forall m m', calm m m' -> R m -> R m') -> (forall m r, R m -> R (add_report m r)) -> (forall m, R m -> R (set_ignoring m false)) ->
  triple P body (fun _ => R) -> triple P (withStatusBitsIgnored enc body) (fun _ m => R m /\ ignoring m = false).
Proof.
  intros P1 P2 R1 R2 R3 Hb. unfold withStatusBitsIgnored. apply triple_said; [auto|]. apply (triple_or_fail _ _ _ _ (fun _ => P)).
  { apply triple_from. intros m Hm. eapply triple_conseq; [apply ignore_spec|done|]. intros [] m' ->. auto. }
  intros []. apply triple_said; [auto|]. intros h d Hq Hp. apply wp_bind. eapply wp_mono; [|by apply Hb]. clear h d Hq Hp.
  intros [[]|e] h d; [|intros _; eapply wp_mono; [|apply restore_failed]; by intros [[]|e'] ? ?]. intros [Hq Hr]. unfold restore_status_bits.
  assert (T : triple R (try_ (clearIcMuI2cError enc) (fun _ => try_ (call (SetIgnoreBissStatusBits enc false (biss_config false))) (fun _ =>
    then_ (succeed "restore-status-bits" VNone) (done_ tt)))) (fun _ m => R m /\ ignoring m = false)).
  { apply triple_from. intros m Hm. eapply triple_try; [apply clear_spec|]. intros []. apply triple_from. intros m1 H1. apply (R1 _ _ H1) in Hm.
    eapply triple_try; [apply ignore_spec|]. intros []. apply triple_from. intros m2 ->. apply triple_report. apply triple_ret. intros m3 <-. split; [auto|done]. }
  apply wp_bind. cbn [start call wp]. intros [] d1 (d0 & Hr0 & Hx). destruct (advance_quiet page _ _ Hq Hr0) as (Hq0 & Em & _). cbn in Hx. subst d1.
  assert (Hr1 : R (memory (with_memory d0 (add_report (memory d0) (Start "restore-status-bits"))))) by (cbn; rewrite Em; auto).
  assert (Hq1 : quiet (with_memory d0 (add_report (memory d0) (Start "restore-status-bits")))) by done. specialize (T (h ++ [ev (Report (Start "restore-status-bits")) tt]) _ Hq1 Hr1).
  unfold try_ in T. apply wp_bind in T. apply wp_bind. eapply wp_mono; [|exact T]. clear T. intros [[]|e] h2 d2; cbn [wp].
  - intros T. apply wp_bind in T. apply wp_bind. eapply wp_mono; [|exact T]. clear T. intros [[]|e] h3 d3; [done|]. intros _. apply wp_bind, wp_trivial. intros ? ? ?. done.
  - intros _. apply wp_bind, wp_trivial. intros r h3 d3. apply wp_bind, wp_trivial. intros ? ? ?. done.
Qed.

(** *** Whole procedures *)
Definition said (r : report) (m : Memory) : Prop := r ∈ reports m.
Lemma said_calm r m m' : off_bridge m m' -> said r m -> said r m'.
Proof. intros [(_ & _ & E) _]. unfold said. by rewrite E. Qed.
Lemma said_more r m r' : said r m -> said r (add_report m r').
Proof. unfold said. cbn. rewrite elem_of_app. by left. Qed.
Lemma said_now r m : said r (add_report m r).
Proof. unfold said. cbn. apply elem_of_app. right. apply list_elem_of_here. Qed.

Lemma configuration_wp r d : req_encoder r = enc -> (8 | page) -> 0 < page -> quiet d ->
  wp acts (runIcMuEncoderConfigurationProcedure r) [] d (fun x h d' => match x with
    | Value _ => exists p, planned r p /\ ev (Report (Succeed "validate" (VPlan (plan_encoder p) (plan_configuration p) (plan_warnings p)))) tt ∈ h /\
        configured p (writeRestoreFile r) (memory d') /\ ignoring (memory d') = false
    | Unexpected _ => True end).
Proof.
  intros He Hp Hp' Hq. unfold runIcMuEncoderConfigurationProcedure. rewrite He. unfold try_ at 1. apply wp_bind. generalize (@nil (event answer)) as h0. intros h0.
  assert (K : keeps (call CreateSomanetDrive) (fun _ => True)) by keeps_call. eapply wp_mono; [|by apply (K (memory d))]. clear Hq K h0.
  intros [[]|e] h0 d0; [|done]. intros [Hq _]. unfold then_, start. cbn [bind call wp]. intros [] d1 (d2 & Hr & Hx). destruct (advance_quiet page _ _ Hq Hr) as (Hq2 & _). cbn in Hx.
  assert (Hq1 : quiet d1) by (subst d1; done). clear d0 d2 Hq Hq2 Hr Hx. unfold or_fail. apply wp_bind. eapply wp_mono; [|by apply (keeps_plan r true He (memory d1))]. clear Hq1.
  intros [p|e] h1 d4; [|intros _; cbn; done]. intros [Hq (_ & Hpl)]. clear d1. cbn [bind call wp succeed]. intros [] d2 (d3 & Hr & Hx). destruct (advance_quiet page _ _ Hq Hr) as (Hq3 & _). cbn in Hx.
  assert (Hq2 : quiet d2) by (subst d2; done). clear d4 d3 Hq Hq3 Hr Hx. set (e := @ev op answer (Report (Succeed "validate" (VPlan (plan_encoder p) (plan_configuration p) (plan_warnings p)))) tt). assert (Hin : e ∈ h1 ++ [e]) by (apply elem_of_app; right; apply list_elem_of_here).
  set (h2 := h1 ++ [e]) in *. clearbody h2.
  assert (T : triple (fun _ => True) (withStatusBitsIgnored enc (configure enc (waits r) p (writeRestoreFile r))) (fun _ m => configured p (writeRestoreFile r) m /\ ignoring m = false)).
  { apply with_bits_spec; try done.
    - intros m m' Hc (Hh & Hs & Hb). split; [by eapply holds_calm|]. split; [by eapply stored_calm|]. intros Hw Hi. specialize (Hb Hw Hi). unfold backed_up in *. destruct Hc as ([(_ & -> & _) Hr] & _). rewrite Hb.
      do 2 f_equal. apply Forall_fmap_ext_1. eapply Forall_impl; [apply restore_registers_in|]. intros a Ha. cbn in Ha. destruct (Hr a) as [?| ->]; [lia|done].
    - apply configure_spec; [done..|]. destruct Hpl as (_ & _ & Hst & _ & -> & _). exact Hst. }
  specialize (T h2 d2 Hq2 I). eapply (wp_mono _ _ (fun x h d => e ∈ h /\ match x with Value a => quiet d /\ configured p (writeRestoreFile r) (memory d) /\ ignoring (memory d) = false | Unexpected _ => True end)).
  - intros [[]|e'] h d'; [|done]. intros (Hin' & _ & Hc & Hi). exists p. done.
  - apply (wp_keep _ (fun h => e ∈ h)); [|done|exact T]. intros h t Ht. apply elem_of_app. by left.
Qed.

Lemma read_chunks_spec cs : Forall (fun c => 0 <= c.1 /\ 1 <= c.2 <= 16 /\ c.1 + c.2 <= 256) cs -> forall m,
  triple (eq m) (read_chunks enc cs) (fun l m' => calm m m' /\ l = (fun x => (x, eeprom m x)) <$> concat (burst <$> cs)).
Proof.
  induction 1 as [|c cs (H0 & Hc & Hl) _ IH]; intros m; cbn [read_chunks]; [apply triple_ret; intros ? <-; split; [apply calm_refl|done]|].
  eapply triple_try; [by apply eeprom_read_spec|]. intros bs. apply triple_from. intros m1 (B1 & K1 & E1 & ->). eapply triple_try; [apply IH|]. intros rest. apply triple_ret. intros m2 [C2 ->].
  split; [by eapply calm_trans|]. rewrite fmap_cons, concat_cons, fmap_app. f_equal.
  - unfold burst. apply list_eq. intros i. rewrite list_lookup_imap, !list_lookup_fmap. destruct (decide (Z.of_nat i < c.2)).
    + rewrite !lookup_seqZ_lt by lia. cbn. by rewrite uwrap_id by (unfold in_u; lia).
    + by rewrite !lookup_seqZ_ge by lia.
  - apply list_fmap_ext. intros i x _. by rewrite E1.
Qed.

Lemma on_bridge_spec (body : EncoderConfiguration -> fallible unit) (P : Memory -> Prop) (R : EncoderConfiguration -> Memory -> Prop) :
  (forall m r, P m -> P (add_report m r)) -> (forall m, P m -> P (set_ignoring m true)) ->
  (forall e m m', calm m m' -> R e m -> R e m') -> (forall e m r, R e m -> R e (add_report m r)) -> (forall e m, R e m -> R e (set_ignoring m false)) ->
  (forall e, encoderOrdinal e = enc -> triple (fun m => P m /\ said (Succeed "validate" (VTool e)) m) (body e) (fun _ => R e)) ->
  triple P (on_bridge enc body) (fun _ m => exists e, encoderOrdinal e = enc /\ R e m /\ ignoring m = false).
Proof.
  intros P1 P2 R1 R2 R3 Hb. unfold on_bridge. apply triple_from. intros m Hm. assert (K : keeps (call CreateSomanetDrive) (fun _ => True)) by keeps_call.
  eapply triple_try; [apply K|]. intros []. apply triple_from. intros ? [-> _]. apply triple_report. eapply triple_or_fail; [apply keeps_tool|]. intros e. apply triple_from. intros m1 [-> He].
  apply triple_report. eapply triple_conseq; [apply (with_bits_spec (body e) (fun m => P m /\ said (Succeed "validate" (VTool e)) m) (R e))| |]; eauto.
  - intros m' r' [? ?]. split; [auto|by apply said_more].
  - intros m' [? ?]. split; [auto|done].
  - cbn beta. intros m' <-. split; [auto|apply said_now].
Qed.
End Success.

(** ** Theorems *)
(** C38: A configuration that reports success leaves the chip configured as its plan says. The plan is the one the run reported, for the encoder the
    client named and a ring the rules know. On a chip that works as documented - commands queue, run and fail when they like, a failed transfer sets
    EPR_ERR, page writes wrap at a page whose length is a multiple of 8 - every register the configuration owns holds its value (SPO_MT aside, MPC is the
    ring's), the EEPROM holds what the registers hold, on the multiturn path the iC-PVL's bytes are in the EEPROM and loaded, a requested restore file holds
    the 33 registers, and the status bits are on again. *)
Theorem encoder_configured r page d d' tr : (8 | page) -> 0 < page -> quiet d ->
  runs (runIcMuEncoderConfigurationProcedure r) tr (Value tt) -> follows (Bridge.acts (req_encoder r) page) d tr d' ->
  exists p, planned r p /\ ev (Report (Succeed "validate" (VPlan (plan_encoder p) (plan_configuration p) (plan_warnings p)))) tt ∈ tr /\
    configured p (writeRestoreFile r) (memory d') /\ ignoring (memory d') = false.
Proof. intros Hp Hp' Hq Hr Hf. exact (wp_runs _ _ _ tr (Value tt) [] d d' Hr (configuration_wp _ page r d eq_refl Hp Hp' Hq) Hf). Qed.

(** An export reports the bytes the EEPROM holds, and changes none of them. *)
Theorem eeprom_exported enc page d d' tr : quiet d ->
  runs (runIcMuEepromExportProcedure enc) tr (Value tt) -> follows (Bridge.acts enc page) d tr d' ->
  Succeed "read-eeprom" (VBytes ((fun x => (x, eeprom (memory d) x)) <$> seqZ 0 0x4D)) ∈ reports (memory d') /\ (forall x, eeprom (memory d') x = eeprom (memory d) x) /\ ignoring (memory d') = false.
Proof.
  intros Hq Hr Hf. set (m0 := memory d). assert (T : triple enc page (eeprom_kept m0) (runIcMuEepromExportProcedure enc)
    (fun _ m => exists e, encoderOrdinal e = enc /\ (said (Succeed "read-eeprom" (VBytes ((fun x => (x, eeprom m0 x)) <$> seqZ 0 0x4D))) m /\ eeprom_kept m0 m) /\ ignoring m = false)).
  { apply (on_bridge_spec enc page _ (eeprom_kept m0) (fun _ m => said _ m /\ eeprom_kept m0 m)); try done.
    - intros _ m m' (B & _ & E) [Hs Hk]. split; [by eapply said_calm|]. intros x. by rewrite E, Hk.
    - intros _ m rr [Hs Hk]. split; [by apply said_more|done].
    - intros e _. eapply (triple_conseq _ _ (eeprom_kept m0)); [|by intros m [? _]|intros ? ? HQ; exact HQ]. apply triple_said; [done|]. apply triple_from. intros m Hm.
      eapply triple_or_fail; [apply read_chunks_spec|].
      { destruct (chunks_spec 0 0x4C 16 false ltac:(lia) ltac:(lia) ltac:(lia)) as [_ F]. eapply Forall_impl; [exact F|]. cbn beta. intros c (? & ? & ? & _). lia. }
      intros l. apply triple_from. intros m1 [(_ & _ & E1) ->]. apply triple_report. apply triple_ret. intros m2 <-.
      assert (El : (fun x => (x, eeprom m x)) <$> concat (burst <$> icMuEepromReadChunks 0 kIcMuEepromConfigurationEnd) = (fun x => (x, eeprom m0 x)) <$> seqZ 0 0x4D).
      { unfold icMuEepromReadChunks, kIcMuExchangeBytes, kIcMuEepromConfigurationEnd. rewrite (proj1 (chunks_spec 0 0x4C 16 false ltac:(lia) ltac:(lia) ltac:(lia))). apply list_fmap_ext. intros i x _. by rewrite Hm. }
      rewrite El. split; [apply said_now|]. intros x. cbn. by rewrite E1, Hm. }
  destruct (wp_runs _ _ _ tr (Value tt) [] d d' Hr (T [] d Hq ltac:(done)) Hf) as (_ & e & _ & (Hs & Hk) & Hi). done.
Qed.

(** C39: An erase that reports success has put 0xFF into the EEPROM from 0x00 to 0x4C and nowhere else, although page writes wrap; the drive's restore
    file of the encoder's port, which would bring the old configuration back, is gone; the configuration registers still hold what they held; and the
    status bits are on again. *)
Theorem eeprom_erased enc page d d' tr : (8 | page) -> 0 < page -> quiet d ->
  runs (runIcMuEepromEraseProcedure enc) tr (Value tt) -> follows (Bridge.acts enc page) d tr d' ->
  (forall x, eeprom (memory d') x = if (0 <=? x) && (x <=? 0x4C) then 0xFF else eeprom (memory d) x) /\
  (forall a, 0x5B <= a <= 0x6F \/ regs (memory d') a = regs (memory d) a) /\ ignoring (memory d') = false /\
  exists e, encoderOrdinal e = enc /\ Succeed "validate" (VTool e) ∈ reports (memory d') /\
    (isIntegratedSensorPort (sensorPort e) = true -> files (memory d') !! icMuRestoreFileName (sensorPort e) = None).
Proof.
  intros Hp Hp' Hq Hr Hf. set (m0 := memory d). set (P := fun m => eeprom_kept m0 m /\ forall a, 0x5B <= a <= 0x6F \/ regs m a = regs m0 a).
  set (W := fun m => (forall x, eeprom m x = if (0 <=? x) && (x <=? 0x4C) then 0xFF else eeprom m0 x) /\ (forall a, 0x5B <= a <= 0x6F \/ regs m a = regs m0 a)).
  set (R := fun e m => W m /\ said (Succeed "validate" (VTool e)) m /\ (isIntegratedSensorPort (sensorPort e) = true -> files m !! icMuRestoreFileName (sensorPort e) = None)).
  assert (WC : forall m m', calm m m' -> W m -> W m').
  { intros m m' ([_ Hg] & _ & E) [H1 H2]. split; [intros x; by rewrite E|]. intros a. destruct (Hg a) as [?| ->]; [by left|apply H2]. }
  assert (T : triple enc page P (runIcMuEepromEraseProcedure enc) (fun _ m => exists e, encoderOrdinal e = enc /\ R e m /\ ignoring m = false)).
  { apply on_bridge_spec; try done.
    - intros e m m' C (Hw & Hs & Hg). split; [by eapply WC|]. pose proof C as (B & _). split; [by eapply said_calm|]. intros Hi. destruct B as [(_ & -> & _) _]. auto.
    - intros e m rr (Hw & Hs & Hg). split; [done|]. split; [by apply said_more|done].
    - intros e _. set (S := said (Succeed "validate" (VTool e))). assert (SM : forall m rr, W m /\ S m -> W (add_report m rr) /\ S (add_report m rr)) by (intros m rr [? ?]; split; [done|by apply said_more]).
      apply triple_said; [intros m [? ?]; split; [done|by apply said_more]|].
      apply (triple_or_fail _ _ _ _ _ _ (fun _ m => W m /\ S m)).
      { apply triple_from. intros m [[He Hg] Hs]. eapply triple_conseq; [apply (for_each_write enc page _ (fun _ => 0xFF)); [done|done|]|done|].
        { destruct (chunks_spec 0 0x4C 8 true ltac:(lia) ltac:(lia) ltac:(lia)) as [_ F]. eapply Forall_impl; [exact F|]. cbn beta. intros c (? & ? & ? & Ha).
          split; [lia|]. split; [lia|]. split; [apply length_replicate|]. split; [by apply Ha|]. intros i Hi. apply nth_lookup_Some. apply lookup_replicate. lia. }
        cbn beta. intros [] m1 (B1 & K1 & E1). split; [split|by eapply said_calm].
        - intros x. rewrite E1. destruct (decide _) as [Hx|Hx]; rewrite (chunks_covered 0 0x4C 8 true ltac:(lia) ltac:(lia) ltac:(lia)) in Hx.
          + by rewrite (proj2 (Z.leb_le _ _)), (proj2 (Z.leb_le _ _)) by lia.
          + destruct (Z.leb_spec 0 x), (Z.leb_spec x 0x4C); cbn [andb]; try lia; apply He.
        - intros a. destruct (proj2 B1 a) as [?| ->]; [by left|apply Hg]. }
      intros []. apply triple_said; [by auto|]. apply triple_said; [by auto|]. apply (triple_or_fail _ _ _ _ _ _ (fun _ m => W m /\ S m)).
      { apply triple_from. intros m [Hw Hs]. eapply triple_try; [apply read_chunks_spec|].
        { destruct (chunks_spec 0 0x4C 16 false ltac:(lia) ltac:(lia) ltac:(lia)) as [_ F]. eapply Forall_impl; [exact F|]. cbn beta. intros c (? & ? & ? & _). lia. }
        intros l. apply triple_pure. intros l' m1 _ [C1 _]. split; [by eapply WC|]. pose proof C1 as (B1 & _). by eapply said_calm. }
      intros l. apply triple_said; [by auto|]. apply triple_said; [by auto|]. destruct (isIntegratedSensorPort _) eqn:Ei; cbn [negb].
      + apply (triple_or_fail _ _ _ _ _ _ (fun _ => R e)).
        * apply triple_from. intros m [Hw Hs]. eapply triple_conseq; [apply remove_file_spec|done|]. cbn beta. intros [] m1 ->. split; [done|]. split; [done|]. intros _. cbn. apply lookup_delete_eq.
        * intros []. apply triple_said; [|by apply triple_ret]. intros m (Hw & Hs & Hg). split; [done|]. split; [by apply said_more|done].
      + apply triple_said; [by auto|]. apply triple_ret. intros m [Hw Hs]. split; [done|]. split; [done|]. by rewrite Ei. }
  destruct (wp_runs _ _ _ tr (Value tt) [] d d' Hr (T [] d Hq ltac:(split; [done|by right])) Hf) as (_ & e & He & (Hw & Hs & Hg) & Hi).
  split; [apply Hw|]. split; [apply Hw|]. split; [done|]. eauto.
Qed.

(** ** The status bits come back on every way out *)
Inductive bits := On | Off | Restored (ok : bool) | Broken.
Definition succeeded {A} (x : expected error A) : bool := match x with Value _ => true | Unexpected _ => false end.

(** An observer of the calls for one encoder: registers are written only while the bits are off; they are turned on again by one command, which has no
    stop token, and nothing is asked of the encoder after it. *)
Definition watch (enc : EncoderOrdinal) (b : bits) (e : event answer) : bits :=
  match e with
  | existT o x =>
      match o return answer o -> bits with
      | SetIgnoreBissStatusBits e' ignore c => fun x =>
          if negb (bool_decide (e' = enc)) then Broken
          else match b, ignore with
               | On, true => if succeeded x then Off else On
               | Off, false => if stoppable c then Broken else Restored (succeeded x)
               | _, _ => Broken
               end
      | WriteEncoderRegister e' _ _ _ => fun _ => if negb (bool_decide (e' = enc)) then Broken else match b with Off => Off | _ => Broken end
      | ReadEncoderRegister e' _ _ => fun _ => if negb (bool_decide (e' = enc)) then Broken else match b with On => On | Off => Off | _ => Broken end
      | _ => fun _ => b
      end x
  end.

Section Bits.
Context (enc : EncoderOrdinal).
(** Calls that look, and calls that also write. *)
Definition looks (o : op) : Prop := match o with SetIgnoreBissStatusBits _ _ _ | WriteEncoderRegister _ _ _ _ => False | ReadEncoderRegister e _ _ => e = enc | _ => True end.
Definition works (o : op) : Prop := match o with SetIgnoreBissStatusBits _ _ _ => False | WriteEncoderRegister e _ _ _ | ReadEncoderRegister e _ _ => e = enc | _ => True end.

Lemma seen_all {A} (P : op -> Prop) (s : script answer A) b : (forall o x, P o -> watch enc b (ev o x) = b) -> all_ops P s -> seen (watch enc) s b (fun _ b' => b' = b).
Proof. intros HP. induction s as [a|o k IH]; cbn [all_ops seen]; [done|]. intros [Ho Hk] x. rewrite HP by done. auto. Qed.

Lemma looks_on o x : looks o -> watch enc On (ev o x) = On.
Proof. destruct o; cbn; try done. intros ->. by rewrite bool_decide_true. Qed.
Lemma works_off o x : works o -> watch enc Off (ev o x) = Off.
Proof. destruct o; cbn; try done; intros ->; by rewrite bool_decide_true. Qed.
Lemma looks_works o : looks o -> works o.
Proof. by destruct o. Qed.

Lemma encoder_ops_mono {A} (P Q : op -> Prop) (s : script answer A) : (forall o, P o -> Q o) -> all_ops P s -> all_ops Q s.
Proof. intros H. induction s as [a|o k IH]; cbn; [done|]. intros [? ?]. split; auto. Qed.

Lemma try_ops {A B} (P : op -> Prop) (s : fallible A) (k : A -> fallible B) : all_ops P s -> (forall a, all_ops P (k a)) -> all_ops P (try_ s k).
Proof. intros Hs Hk. apply all_ops_bind; [done|]. intros [a|e]; [apply Hk|done]. Qed.
Lemma said_ops {A} (P : op -> Prop) r (k : fallible A) : P (Report r) -> all_ops P k -> all_ops P (then_ (call (Report r)) k).
Proof. intros Hr Hk. apply all_ops_bind; [done|]. by intros []. Qed.
Lemma or_fail_ops {A B} (P : op -> Prop) step (s : fallible A) (k : A -> fallible B) : (forall r, P (Report r)) -> all_ops P s -> (forall a, all_ops P (k a)) -> all_ops P (or_fail step s k).
Proof. intros Hr Hs Hk. apply all_ops_bind; [done|]. intros [a|e]; [apply Hk|]. by apply all_ops_bind. Qed.

Ltac ops := repeat (first
  [ done | assumption
  | lazymatch goal with
    | |- all_ops _ (try_ _ _) => apply try_ops; [|intros ?]
    | |- all_ops _ (then_ (call (Report _)) _) => apply said_ops; [done|]
    | |- all_ops _ (then_ (start _) _) => apply said_ops; [done|]
    | |- all_ops _ (then_ (succeed _ _) _) => apply said_ops; [done|]
    | |- all_ops _ (or_fail _ _ _) => apply or_fail_ops; [done| |intros ?]
    | |- all_ops _ (bind _ _) => apply all_ops_bind; [|intros ?]
    | |- all_ops _ (call _) => split; [done|intros ?; exact I]
    | |- all_ops _ (done_ _) => exact I
    | |- all_ops _ (Ret _) => exact I
    | |- all_ops _ (match ?x with _ => _ end) => destruct x
    | |- all_ops _ (let '(_, _) := ?x in _) => destruct x
    end ]; cbv beta iota zeta).

Lemma read_looks a stop : all_ops looks (readIcMuRegister enc a stop).
Proof. unfold readIcMuRegister. ops. Qed.
Lemma read_works a stop : all_ops works (readIcMuRegister enc a stop).
Proof. unfold readIcMuRegister. ops. Qed.
Lemma stop_works stop : all_ops works (stop_requested stop).
Proof. unfold stop_requested. ops. Qed.
Lemma write_works w stop : all_ops works (writeIcMuRegister enc w stop).
Proof. unfold writeIcMuRegister. apply all_ops_bind; [apply stop_works|]. intros []; ops. Qed.
Lemma writes_works ws stop : all_ops works (writeIcMuRegisters enc ws stop).
Proof. induction ws as [|w ws IH]; cbn [writeIcMuRegisters]; [done|]. apply try_ops; [apply write_works|done]. Qed.
Lemma wait_works c stop fuel : forall started status1, all_ops works (command_wait fuel enc c stop started status1).
Proof.
  induction fuel as [|fuel IH]; intros started status1; cbn [command_wait]; [destruct (_ && _); ops|]. destruct (_ && _); [ops|]. apply all_ops_bind; [ops|]. intros []; [ops|].
  apply all_ops_bind; [ops|]. intros []. apply all_ops_bind; [apply stop_works|]. intros []; [ops|]. apply try_ops.
  - destruct started; [ops|]. apply try_ops; [apply read_works|ops].
  - intros []; [apply try_ops; [apply read_works|auto]|auto].
Qed.
Lemma run_works c stop : all_ops works (runIcMuCommand enc c stop).
Proof. unfold runIcMuCommand. apply try_ops; [apply read_works|intros ?]. apply try_ops; [apply write_works|intros ?]. apply try_ops; [apply wait_works|ops]. Qed.
Lemma transfer_works ws stop : all_ops works (runIcMuI2cTransfer enc ws stop).
Proof. unfold runIcMuI2cTransfer. apply try_ops; [apply writes_works|intros ?]. apply try_ops; [apply run_works|ops]. Qed.
Lemma exchange_works l stop : all_ops works (read_exchange enc l stop).
Proof. induction l as [|a l IH]; cbn [read_exchange]; [ops|]. apply try_ops; [apply read_works|intros ?]. apply try_ops; [done|ops]. Qed.
Lemma read_i2c_works t a n stop : all_ops works (readIcMuI2c enc t a n stop).
Proof. unfold readIcMuI2c. apply try_ops; [apply writes_works|intros ?]. apply try_ops; [apply run_works|intros ?; apply exchange_works]. Qed.
Lemma write_i2c_works t a l stop : all_ops works (writeIcMuI2c enc t a l stop).
Proof. apply transfer_works. Qed.
Lemma clear_works : all_ops works (clearIcMuI2cError enc).
Proof. unfold clearIcMuI2cError. apply try_ops; [apply read_works|intros v]. destruct (_ =? 0); [ops|]. apply all_ops_bind; [apply read_i2c_works|ops]. Qed.
Lemma save_works : all_ops works (save enc).
Proof. unfold save, saveIcMuEeprom. apply try_ops; [|ops]. apply try_ops; [apply run_works|ops]. Qed.
Lemma for_each_works {A} (l : list A) body : (forall a, all_ops works (body a)) -> all_ops works (for_each l body).
Proof. intros Hb. induction l as [|a l IH]; cbn [for_each]; [ops|]. apply try_ops; auto. Qed.
Lemma sleep_works fuel : forall remaining, all_ops works (sleep_slices fuel remaining).
Proof. induction fuel as [|fuel IH]; intros remaining; cbn [sleep_slices]; [ops|]. destruct (remaining <=? 0); [ops|]. apply all_ops_bind; [ops|]. intros []; [ops|]. apply all_ops_bind; [ops|auto]. Qed.
Lemma wait_encoder_works d : all_ops works (waitForEncoder d).
Proof. unfold waitForEncoder. apply all_ops_bind; [apply sleep_works|ops]. Qed.
Lemma registers_works l stop : all_ops works (read_registers enc l stop).
Proof. induction l as [|a l IH]; cbn [read_registers]; [ops|]. apply try_ops; [apply read_works|intros ?]. apply try_ops; [done|ops]. Qed.
Lemma chunks_works cs : all_ops works (read_chunks enc cs).
Proof. induction cs as [|c cs IH]; cbn [read_chunks]; [ops|]. apply try_ops; [apply read_i2c_works|intros ?]. apply try_ops; [done|ops]. Qed.

#[local] Hint Resolve read_looks read_works write_works writes_works run_works transfer_works read_i2c_works write_i2c_works clear_works save_works
  wait_encoder_works registers_works chunks_works for_each_works : core.

Lemma encoders_looks : all_ops looks drive_encoders.
Proof. unfold drive_encoders, read_encoder, optional_byte, source. ops. Qed.
Lemma checked_looks : all_ops looks checked_version.
Proof. unfold checked_version. ops. Qed.
Lemma part_looks c stop : all_ops looks (check_part enc c stop).
Proof. unfold check_part. apply try_ops; [auto|ops]. Qed.

Lemma plan_looks r stop : req_encoder r = enc -> all_ops looks (planIcMuConfiguration r stop).
Proof.
  intros He. unfold planIcMuConfiguration. rewrite He. apply try_ops; [apply checked_looks|intros v]. apply try_ops; [apply encoders_looks|intros es]. apply try_ops; [exact I|intros c].
  apply try_ops; [exact I|intros ?]. apply try_ops; [unfold checkIcMuBank; apply try_ops; [auto|ops]|intros ?]. apply try_ops; [destruct (isIntegratedSensorPort _); [ops|apply part_looks]|intros ?].
  apply try_ops; [unfold check_not_enabled; ops|intros ?]. ops.
Qed.
Lemma tool_looks stop : all_ops looks (planIcMuTool enc true stop).
Proof.
  unfold planIcMuTool. apply try_ops; [apply checked_looks|intros v]. apply try_ops; [apply encoders_looks|intros es]. apply try_ops; [exact I|intros c].
  apply try_ops; [apply part_looks|intros ?]. unfold check_not_enabled. ops.
Qed.

Lemma clear_reset_works : all_ops works (clearAndReset enc).
Proof. unfold clearAndReset. apply try_ops; auto. Qed.
Lemma synchronise_works w c : all_ops works (synchronise enc w c).
Proof. unfold synchronise. repeat (apply try_ops; [auto using clear_reset_works|intros ?]); ops. Qed.
Lemma configure_works w p wanted : all_ops works (configure enc w p wanted).
Proof.
  assert (V : all_ops works (verify enc p)) by (unfold verify; apply try_ops; [auto|intros mpc]; destruct (negb _); [ops|]; do 2 (apply try_ops; [auto|intros ?]); ops).
  assert (W : forall port, all_ops works (writeIcMuRestoreFile enc port true)) by (intros port; unfold writeIcMuRestoreFile; apply try_ops; [auto|intros vs; ops]).
  assert (L : forall l, all_ops works (writeIcPvlEeprom enc w l)).
  { intros l. unfold writeIcPvlEeprom. apply try_ops; [apply for_each_works; auto|intros ?]. apply try_ops; [auto|intros ?]. apply for_each_works. intros c. apply try_ops; [auto|ops]. }
  unfold configure, pvl_step, synchronise_step, restore_step. ops; auto using clear_reset_works, synchronise_works.
Qed.

(** The window in which the bits are off. *)
Lemma bits_window body : all_ops works body ->
  seen (watch enc) (withStatusBitsIgnored enc body) On (fun x b => (b = On /\ succeeded x = false) \/ exists ok, b = Restored ok /\ (succeeded x = true -> ok = true)).
Proof.
  intros Hb. unfold withStatusBitsIgnored, then_, start, succeed. cbn [bind call seen]. intros []. cbn [watch ev]. unfold or_fail. cbn [bind call seen]. intros x. cbn [watch ev]. rewrite bool_decide_true by done. cbn [negb].
  destruct x as [[]|e]; cbn [succeeded].
  2:{ cbn. intros _. by left. }
  cbn [bind call seen]. intros []. cbn [watch ev]. apply seen_bind. eapply seen_mono; [|exact (seen_all works _ Off works_off Hb)]. intros r b ->.
  unfold restore_status_bits, start. cbn [bind call seen]. intros []. cbn [watch ev]. apply seen_bind. eapply seen_mono; [|exact (seen_all works _ Off works_off clear_works)]. intros cl b ->.
  cbn [bind call seen]. intros x. cbn [watch ev stoppable biss_config]. rewrite bool_decide_true by done. cbn [negb]. intros []. cbn [watch ev]. right. exists (succeeded x). split; [done|].
  destruct cl, r; cbn; done.
Qed.

Definition bits_back (x : expected error unit) (b : bits) : Prop := (b = On /\ succeeded x = false) \/ exists ok, b = Restored ok /\ (succeeded x = true -> ok = true).

Lemma configuration_bits r : req_encoder r = enc -> seen (watch enc) (runIcMuEncoderConfigurationProcedure r) On bits_back.
Proof.
  intros He. unfold runIcMuEncoderConfigurationProcedure, try_, then_, start, succeed, or_fail. cbn [bind call seen]. intros x. cbn [watch ev]. destruct x as [[]|e]; [|cbn; by left].
  cbn [bind call seen]. intros []. cbn [watch ev]. apply seen_bind. eapply seen_mono; [|exact (seen_all looks _ On looks_on (plan_looks r true He))]. intros [p|e] b ->; [|cbn; by left].
  cbn [bind call seen]. intros []. cbn [watch ev]. rewrite He. apply bits_window, configure_works.
Qed.

Lemma bridge_bits body : (forall e, all_ops works (body e)) -> seen (watch enc) (on_bridge enc body) On bits_back.
Proof.
  intros Hb. unfold on_bridge, try_, then_, start, succeed, or_fail. cbn [bind call seen]. intros x. cbn [watch ev]. destruct x as [[]|e]; [|cbn; by left].
  cbn [bind call seen]. intros []. cbn [watch ev]. apply seen_bind. eapply seen_mono; [|exact (seen_all looks _ On looks_on (tool_looks true))]. intros [p|e] b ->; [|cbn; by left].
  cbn [bind call seen]. intros []. cbn [watch ev]. apply bits_window. done.
Qed.

Lemma tools_bits : seen (watch enc) (runIcMuEepromExportProcedure enc) On bits_back /\ seen (watch enc) (runIcMuEepromEraseProcedure enc) On bits_back /\
  forall r, i2c_encoder r = enc -> seen (watch enc) (runIcMuI2cRegisterProcedure r) On bits_back.
Proof.
  split; [|split].
  - apply bridge_bits. intros e. ops; auto.
  - apply bridge_bits. intros e. ops; auto. apply for_each_works. auto.
  - intros r Hr. unfold runIcMuI2cRegisterProcedure. rewrite Hr. apply bridge_bits. intros e. ops; auto.
Qed.
End Bits.

(** The procedures that use the bridge of an encoder. *)
Inductive bridge_procedure (enc : EncoderOrdinal) : fallible unit -> Prop :=
  | bridge_configuration r : req_encoder r = enc -> bridge_procedure enc (runIcMuEncoderConfigurationProcedure r)
  | bridge_export : bridge_procedure enc (runIcMuEepromExportProcedure enc)
  | bridge_erase : bridge_procedure enc (runIcMuEepromEraseProcedure enc)
  | bridge_register r : i2c_encoder r = enc -> bridge_procedure enc (runIcMuI2cRegisterProcedure r).

End Procedures.

(** ** A drive and a chip to run the procedures on *)
(** Versions by their major number. *)
#[local] Instance majors : Semver := {|
  version := Z;
  semver_parse := fun s => match Util.from_chars 32 10 s with Some (v, 46 :: _) => Some v | _ => None end;
  initial := 0;
  vcompare := Z.compare |}.

(** Encoder 1 is an internal one on port 1 with a ring of 32 master pole pairs and 18 multiturn bits. *)
Definition bench_value (index subindex : Z) : Z :=
  if index =? 0x2111 then 0x12345
  else if subindex =? 1 then (if index =? 0x2110 then 1 else 2) else if subindex =? 2 then 5 else if subindex =? 3 then 2 ^ 19
  else if subindex =? 0x0A then 18 else if subindex =? 0x0C then (if index =? 0x2010 then 1 else 19) else 0.
Definition bench (o : op) : answer o :=
  match o return answer o with
  | StopRequested | DeadlinePassed => false
  | HasParameter index _ => negb (index =? 0x2630)
  | SleepFor _ | Report _ => tt
  | CreateSomanetDrive | SetIgnoreBissStatusBits _ _ _ | FaultReset | WriteFile _ _ | RemoveDeviceFile _ => Value tt
  | ReadEncoderRegister _ _ _ | WriteEncoderRegister _ _ _ _ => Value None
  | ReadValue i j => Value (bench_value i j)
  | ReadStatusword => Value 0x0008
  | SoftwareVersion => Value (txt "5.6.0")
  | ReadState => Value Cia402.kSwitchedOn
  | ReadGearRatio => Value (mk_gear 1 1)
  | ReadFile _ => Value []
  end.
Definition fresh : Chip := mk_chip (mk_memory (fun _ => 0) (fun _ => 0x5A) (fun _ => 0) false ∅ []) None None false.
Lemma fresh_quiet : quiet fresh.
Proof. by split; left. Qed.

Definition bench_request : Request := mk_request kEncoder1 (Some 0x50) true (mk_waits 100 100 80).

(** A command that fails may still have taken effect: the bits can be off when the run ends. *)
Definition bench_lost (d : Chip) (o : op) : answer o :=
  match o return answer o with SetIgnoreBissStatusBits _ _ _ => Unexpected (Drive "the drive did not answer") | o => reply 8 bench d o end.

Lemma bench_lost_acts d o : Bridge.acts kEncoder1 8 (ev o (bench_lost d o)) d (react 8 d (ev o (bench_lost d o))).
Proof. destruct o; try exact (simulated kEncoder1 8 bench d _). exists (settled 8 d). split; [apply settled_advance|done]. Qed.

Theorem bits_can_stay_off : exists tr e d', runs (runIcMuEepromEraseProcedure kEncoder1) tr (Unexpected e) /\ follows (Bridge.acts kEncoder1 8) fresh tr d' /\ ignoring (memory d') = true.
Proof.
  set (s := runIcMuEepromEraseProcedure kEncoder1). set (run := exec (fun h => bench_lost (foldl (react 8) fresh h)) [] s). exists run.1, (Drive "the drive did not answer"), (foldl (react 8) fresh run.1).
  split; [|split; [exact (exec_follows _ (react 8) bench_lost fresh s bench_lost_acts)|vm_compute; reflexivity]].
  pose proof (runs_exec (fun h => bench_lost (foldl (react 8) fresh h)) s) as Hr. replace (exec _ [] s).2 with (Unexpected (A := unit) (Drive "the drive did not answer")) in Hr by (vm_compute; reflexivity). exact Hr.
Qed.

Definition reported (step : string) (tr : list (event answer)) : bool :=
  existsb (fun e => match projT1 e with Report (Succeed s _) => String.eqb s step | _ => false end) tr.

(** The multiturn path, with a battery mode and a restore file. *)
Lemma encoder_configured_witness : exists tr d', reported "multiturn-synchronisation" tr = true /\
  exists p, planned bench_request p /\ configured p true (memory d') /\ ignoring (memory d') = false.
Proof.
  set (s := runIcMuEncoderConfigurationProcedure bench_request). destruct (simulate_run kEncoder1 8 bench fresh s) as [Hr Hf].
  assert (E : (simulate 8 bench fresh s).2 = Value tt) by (vm_compute; reflexivity). rewrite E in Hr.
  destruct (encoder_configured bench_request 8 fresh _ _ ltac:(by exists 1) ltac:(done) fresh_quiet Hr Hf) as (p & Hp & _ & Hc & Hi).
  exists (simulate 8 bench fresh s).1. match type of Hi with ignoring (memory ?d) = _ => exists d end. split; [vm_compute; reflexivity|].
  exists p. split; [exact Hp|]. split; [exact Hc|exact Hi].
Defined.

Lemma eeprom_erased_witness : exists d', eeprom (memory d') 0x4C = 0xFF /\ eeprom (memory d') 0x4D = 0x5A /\ ignoring (memory d') = false.
Proof.
  set (s := runIcMuEepromEraseProcedure kEncoder1). destruct (simulate_run kEncoder1 16 bench fresh s) as [Hr Hf].
  assert (E : (simulate 16 bench fresh s).2 = Value tt) by (vm_compute; reflexivity). rewrite E in Hr.
  destruct (eeprom_erased kEncoder1 16 fresh _ _ ltac:(by exists 2) ltac:(done) fresh_quiet Hr Hf) as (He & _ & Hi & _).
  match type of Hi with ignoring (memory ?d) = _ => exists d end. rewrite !He. split; [reflexivity|]. split; [reflexivity|exact Hi].
Defined.

(** A run that is cancelled while the encoder is written ends with the bits on. *)
Definition bench_cancelled (o : op) : answer o := match o return answer o with StopRequested => true | o => bench o end.
End IcMuProcedures.
