(* ===== verification/DeviceInit.v ===== *)
(** * Initialising a device's parameters ([libs/node/device.cc])

    [initializeParameters] takes the definitions from the cache, from the device's object dictionary or from
    its SII, joins the ESI, reads the values and publishes the result. It is a script: uploads, the caches
    and the publication are its calls. *)

From S2P Require Import Prelude Util Driver DeviceParameter Floats Json ProcessImage Sii ProcessBits EsiTypes EsiEntries EsiCache ParameterCache DeviceStore Script.

Module DeviceInit.
Import Param Store Script.

(** ** Calls *)
Record OdEntry := mk_entry {
  od_index : Z; od_subindex : Z; od_objectCode : Z; od_dataType : Z; od_bitLength : Z; od_access : Z; od_name : text; od_unit : option Z;
  od_defaultValue : option bytes; od_minValue : option bytes; od_maxValue : option bytes }.
Record OdRead := mk_read { od_entries : list OdEntry; od_missingEntries : Z }.

Inductive op :=
  | ReadSdo (idx sub : Z)
  | ReadSdoComplete (idx : Z)
  | ReadObjectDictionary
  | ReadSii
  | CacheLoad (vendorId productCode : Z) (firmwareVersion : text)
  | CacheStore (vendorId productCode : Z) (firmwareVersion : text) (definitions : list DeviceParameter)
  | EsiFind (vendorId productCode : Z) (firmwareVersion : text)
  | Publish (built : list (Z * DeviceParameter))
  | SetUnavailable (b : bool).
Definition answer (o : op) : Type :=
  match o with
  | ReadSdo _ _ | ReadSdoComplete _ | ReadSii => expected text bytes
  | ReadObjectDictionary => expected text OdRead
  | CacheLoad _ _ _ => option (list DeviceParameter)
  | EsiFind _ _ _ => option (list Esi.EsiEntry)
  | CacheStore _ _ _ _ | Publish _ | SetUnavailable _ => unit
  end.
Definition prog (A : Type) : Type := script answer A.

Record device := mk_device {
  supportsCoe : bool; vendorId : Z; productCode : Z; parameterCache : bool; cacheEnabled : bool; esiCache : bool; esiEnabled : bool }.

Inductive InitError := BusFailure (e : text) | SiiReadFailed (e : text) | SiiParseFailed (e : Sii.SiiError) | SiiOutOfBounds.

(** [std::unordered_map::emplace] of each: the first entry of a key stays. *)
Definition emplace (built : list (Z * DeviceParameter)) (p : DeviceParameter) : list (Z * DeviceParameter) :=
  if bool_decide (key_of p ∈ built.*1) then built else built ++ [(key_of p, p)].
Definition build_map (defs : list DeviceParameter) : list (Z * DeviceParameter) := foldl emplace [] defs.

(** ** Definitions *)
Definition decodeRawBytes (dt : Z) (raw : option bytes) : option DeviceParameterValue :=
  match raw with
  | None => None
  | Some b => match decodeSdoBytes dt b with Value v => Some v | Unexpected _ => None end
  end.
Definition define (e : OdEntry) : DeviceParameter :=
  mk_parameter (od_index e) (od_subindex e) (od_name e) (od_objectCode e) (od_dataType e) (od_bitLength e) (od_access e) ObjectDictionary 0 [] Unknown
    (od_unit e) [] (decodeRawBytes (od_dataType e) (od_defaultValue e)) (decodeRawBytes (od_dataType e) (od_minValue e))
    (decodeRawBytes (od_dataType e) (od_maxValue e)) [] [] [].

(** [buildSiiParameterDefinitions]. *)
Definition sii_name (strings : list text) (e : Sii.SiiCategoryPdoEntryElement) : text :=
  if (0 <? Sii.entryNameIdx e) && (Sii.entryNameIdx e <=? Z.of_nat (length strings)) then default [] (strings !! Z.to_nat (Sii.entryNameIdx e - 1)) else [].
Definition sii_definition (strings : list text) (acc : Z) (e : Sii.SiiCategoryPdoEntryElement) : DeviceParameter :=
  mk_parameter (Sii.entryIndex e) (Sii.subindex e) (sii_name strings e) 7 (Sii.dataType e) (Sii.bitLen e) acc FromSii 0 [] Unknown None [] None None None [] [] [].
Definition sii_append (strings : list text) (acc : Z) (pdos : list Sii.SiiCategoryPdoElement) : list DeviceParameter :=
  sii_definition strings acc <$> filter (fun e => Sii.entryIndex e <> 0) (concat (Sii.entries <$> pdos)).
Definition sii_definitions (sii : Sii.SlaveInformationInterface) : list DeviceParameter :=
  let c := Sii.category sii in sii_append (Sii.strings c) 0x3F (Sii.rxPdos c) ++ sii_append (Sii.strings c) 0x07 (Sii.txPdos c).
Definition buildSiiParameterDefinitions : prog (expected InitError (list DeviceParameter)) :=
  bind (call ReadSii) (fun raw =>
    Ret (match raw with
         | Unexpected e => Unexpected (SiiReadFailed e)
         | Value b => match Sii.parseSii b with
                      | None => Unexpected SiiOutOfBounds
                      | Some (Unexpected e) => Unexpected (SiiParseFailed e)
                      | Some (Value sii) => Value (sii_definitions sii)
                      end
         end)).

(** ** Values *)
Definition readOne (defs : list DeviceParameter) (i : nat) : prog (list DeviceParameter) :=
  match defs !! i with
  | None => Ret defs
  | Some p =>
      bind (call (ReadSdo (index p) (subindex p))) (fun r =>
        Ret (<[i := match r with
                    | Unexpected _ => set_sync p Stale
                    | Value b => match decodeSdoBytes (dataType p) b with
                                 | Unexpected _ => set_sync p Stale
                                 | Value _ => set_sync (setRawValue p b) Synced
                                 end
                    end]> defs))
  end.

(** The classic reads of one object, stopping at its count once such a read was refused. *)
Fixpoint read_subs (subs : list nat) (lastInUse : option Z) (declared : DeclaredSubindexReads) (defs : list DeviceParameter)
    : prog (list DeviceParameter * DeclaredSubindexReads) :=
  match subs with
  | [] => Ret (defs, declared)
  | i :: subs' =>
      match defs !! i with
      | None => Ret (defs, declared)
      | Some p =>
          let aboveCount := match lastInUse with Some n => n <? subindex p | None => false end in
          if aboveCount && bool_decide (declared = ReadsRefused) then Ret (defs, declared)
          else
            bind (readOne defs i) (fun defs =>
              let ok := match defs !! i with Some q => bool_decide (syncState q = Synced) | None => false end in
              let declared := if aboveCount then (if ok then ReadsServed else ReadsRefused) else declared in
              let lastInUse := match defs !! i with
                               | Some q => if (subindex q =? 0) && ok then subindicesInUse (objectCode q) (currentValue q) else lastInUse
                               | None => lastInUse
                               end in
              read_subs subs' lastInUse declared defs)
      end
  end.

(** [readCompleteInto] with the state of the probe. *)
Definition readCompleteInto (idx : Z) (subs : list nat) (ca : CompleteAccessSupport) (defs : list DeviceParameter)
    : prog (list DeviceParameter * CompleteAccessSupport * bool) :=
  bind (call (ReadSdoComplete idx)) (fun r =>
    Ret (match r with
         | Unexpected _ => (defs, recordFailure ca, false)
         | Value blob => let '(defs, d) := decodeCompleteAccess subs blob defs in
                         (defs, CaSupported, match d with CaFilled => true | _ => false end)
         end)).

(** The length of the run of entries of one object. *)
Fixpoint run_length (idx : Z) (l : list DeviceParameter) : nat :=
  match l with p :: l' => if index p =? idx then S (run_length idx l') else 0 | [] => 0 end.

Definition read_object (useCompleteAccess : bool) (subs : list nat) (ca : CompleteAccessSupport) (declared : DeclaredSubindexReads) (defs : list DeviceParameter)
    : prog (list DeviceParameter * CompleteAccessSupport * DeclaredSubindexReads) :=
  let cells := omap (fun i => defs !! i) subs in
  let classic := fun ca defs => bind (read_subs subs None declared defs) (fun '(defs, declared) => Ret (defs, ca, declared)) in
  if ca_enabled useCompleteAccess ca && completeAccessEligible cells
  then bind (readCompleteInto (match cells with p :: _ => index p | [] => 0 end) subs ca defs) (fun '(defs, ca, filled) =>
         if filled then Ret (defs, ca, declared) else classic ca defs)
  else classic ca defs.

(** The loop over the objects; each pass consumes at least one entry, so the number of entries is enough fuel. *)
Fixpoint read_objects (fuel : nat) (useCompleteAccess : bool) (start : nat) (ca : CompleteAccessSupport) (declared : DeclaredSubindexReads)
    (defs : list DeviceParameter) : prog (list DeviceParameter) :=
  match fuel, drop start defs with
  | O, _ | _, [] => Ret defs
  | S fuel', p :: rest =>
      let n := S (run_length (index p) rest) in
      bind (read_object useCompleteAccess (seq start n) ca declared defs) (fun '(defs, ca, declared) =>
        read_objects fuel' useCompleteAccess (start + n) ca declared defs)
  end.
Definition readParameterValues (useCompleteAccess : bool) (defs : list DeviceParameter) : prog (list DeviceParameter) :=
  read_objects (length defs) useCompleteAccess 0 CaUnknown ReadsUnknown defs.

(** ** [readParameterDefinitions] *)
Definition reset_value (p : DeviceParameter) : DeviceParameter := set_sync (set_storage p 0 []) Unknown.

Definition read_version (d : device) : prog text :=
  if (parameterCache d && cacheEnabled d) || (esiCache d && esiEnabled d) then
    bind (call (ReadSdo 0x100A 0)) (fun r => Ret (match r with Value b => Cache.trimFirmwareVersion b | Unexpected _ => [] end))
  else Ret [].

(** The definitions: from the cache, or from the device, which are then cached when none is missing. *)
Definition obtain (d : device) (version : text) : prog (expected InitError (list DeviceParameter)) :=
  bind (if parameterCache d && cacheEnabled d then call (CacheLoad (vendorId d) (productCode d) version) else Ret None) (fun cached =>
    match cached with
    | Some defs => Ret (Value defs)
    | None =>
        bind (call ReadObjectDictionary) (fun r =>
          match r with
          | Unexpected e => Ret (Unexpected (BusFailure e))
          | Value read =>
              let built := define <$> od_entries read in
              bind (if parameterCache d && (od_missingEntries read =? 0) then call (CacheStore (vendorId d) (productCode d) version built) else Ret tt) (fun _ =>
                Ret (Value built))
          end)
    end).

Definition readParameterDefinitions (d : device) (readValues useCompleteAccess : bool) : prog (expected InitError unit) :=
  if negb (supportsCoe d) then
    bind buildSiiParameterDefinitions (fun r =>
      match r with
      | Unexpected e => Ret (Unexpected e)
      | Value defs => bind (call (Publish (build_map defs))) (fun _ => Ret (Value tt))
      end)
  else
    bind (read_version d) (fun version =>
    bind (obtain d version) (fun r =>
      match r with
      | Unexpected e => Ret (Unexpected e)
      | Value defs =>
          bind (if esiCache d && esiEnabled d then call (EsiFind (vendorId d) (productCode d) version) else Ret None) (fun esi =>
            let defs := reset_value <$> EsiCache.joinEsi defs esi (EsiCache.fileName (vendorId d) version) in
            bind (if readValues then readParameterValues useCompleteAccess defs else Ret defs) (fun defs =>
            bind (call (Publish (build_map defs))) (fun _ => Ret (Value tt))))
      end)).

Definition initializeParameters (d : device) (readValues useCompleteAccess : bool) : prog (expected InitError unit) :=
  bind (readParameterDefinitions d readValues useCompleteAccess) (fun result =>
  bind (call (SetUnavailable (negb (has_value result)))) (fun _ => Ret result)).

(** ** The value pass *)
Abbreviation history := (list (event answer)).
Abbreviation did o x := (@ev op answer o x).
Definition free (e : event answer) (x y : unit) : Prop := True.
Abbreviation always s h Q := (wp free s h tt (fun a h' _ => Q a h')).

(** Bytes the device sent for a parameter: an upload of its own, or a part of an upload of its object. *)
Definition answered (h : history) (p : DeviceParameter) (b : bytes) : Prop :=
  ev (ReadSdo (index p) (subindex p)) (Value b) ∈ h \/
  exists blob at_, ev (ReadSdoComplete (index p)) (Value blob) ∈ h /\ b = Bits.extractBits blob at_ (bitLength p).
Definition failed (h : history) (p : DeviceParameter) : Prop :=
  exists r, ev (ReadSdo (index p) (subindex p)) r ∈ h /\ forall b, r = Value b -> has_value (decodeSdoBytes (dataType p) b) = false.

(** What the pass makes of the definition [p0]. *)
Record came_from (h : history) (p0 p : DeviceParameter) : Prop := mk_came {
  cf_only : p = set_sync (set_storage p0 (cell p) (rawValue p)) (syncState p);
  cf_scalar : if isScalarDataType (dataType p0) then rawValue p = rawValue p0 else cell p = cell p0;
  cf_unknown : syncState p = Unknown -> p = p0;
  cf_synced : syncState p = Synced -> exists b, answered h p0 b /\ has_value (decodeSdoBytes (dataType p0) b) = true /\ p = set_sync (setRawValue p0 b) Synced;
  cf_stale : syncState p = Stale -> failed h p0;
  cf_pending : syncState p <> Pending }.

Lemma answered_mono h h' p b : (forall e, e ∈ h -> e ∈ h') -> answered h p b -> answered h' p b.
Proof. intros Hs [H|(blob & a & H & ->)]; [left; auto|right; eauto]. Qed.

Lemma came_from_mono h h' p0 p : (forall e, e ∈ h -> e ∈ h') -> came_from h p0 p -> came_from h' p0 p.
Proof.
  intros Hs []. split; try done.
  - intros H. destruct (cf_synced0 H) as (b & Ha & Hb). exists b. split; [by eapply answered_mono|done].
  - intros H. destruct (cf_stale0 H) as (r & Hr & Hf). exists r. auto.
Qed.

Lemma came_from_fields h p0 p : came_from h p0 p -> index p = index p0 /\ subindex p = subindex p0 /\ dataType p = dataType p0 /\ bitLength p = bitLength p0 /\ objectCode p = objectCode p0.
Proof. intros []. rewrite cf_only0. done. Qed.

(** Storing bytes over an earlier value stores them over the definition. *)
Lemma store_over h p0 p b : came_from h p0 p -> set_sync (setRawValue p b) Synced = set_sync (setRawValue p0 b) Synced.
Proof.
  intros []. rewrite cf_only0. unfold setRawValue, storeBits. cbn [set_sync set_storage dataType cell rawValue]. destruct (isScalarDataType (dataType p0)); cbn; by rewrite cf_scalar0.
Qed.

Lemma came_synced h p0 p b : came_from h p0 p -> answered h p0 b -> has_value (decodeSdoBytes (dataType p0) b) = true -> came_from h p0 (set_sync (setRawValue p b) Synced).
Proof.
  intros Hc Ha Hv. rewrite (store_over h p0 p b Hc). unfold setRawValue, storeBits. split; cbn; try done.
  - by destruct (isScalarDataType (dataType p0)).
  - by destruct (isScalarDataType (dataType p0)).
  - intros _. by exists b.
Qed.

Lemma came_stale h p0 p : came_from h p0 p -> failed h p0 -> came_from h p0 (set_sync p Stale).
Proof. intros [Ho Hs _ _ _ _] Hf. split; cbn; try done. by rewrite Ho at 1. Qed.

Definition pass_ok (h : history) (defs0 defs : list DeviceParameter) : Prop := Forall2 (came_from h) defs0 defs.

Lemma pass_ok_mono h h' defs0 defs : (forall e, e ∈ h -> e ∈ h') -> pass_ok h defs0 defs -> pass_ok h' defs0 defs.
Proof. intros Hs Hp. eapply Forall2_impl; [exact Hp|]. intros p0 p. by apply came_from_mono. Qed.

Lemma pass_lookup h defs0 defs i p : pass_ok h defs0 defs -> defs !! i = Some p -> exists p0, defs0 !! i = Some p0 /\ came_from h p0 p.
Proof. intros Hp Hi. by apply (Forall2_lookup_r _ _ _ _ _ Hp). Qed.

Lemma pass_insert h defs0 defs i p : pass_ok h defs0 defs -> (forall p0, defs0 !! i = Some p0 -> came_from h p0 p) -> pass_ok h defs0 (<[i := p]> defs).
Proof.
  intros Hp Hi. destruct (defs0 !! i) as [p0|] eqn:E.
  - rewrite <- (list_insert_id defs0 i p0 E). apply Forall2_insert; [done|by apply Hi].
  - rewrite list_insert_ge; [done|]. rewrite <- (Forall2_length _ _ _ Hp). by apply lookup_ge_None.
Qed.

Lemma snoc_mono (h : history) e x : x ∈ h -> x ∈ h ++ [e].
Proof. intros. apply elem_of_app. by left. Qed.
Lemma snoc_last (h : history) e : e ∈ h ++ [e].
Proof. apply elem_of_app. right. by apply list_elem_of_singleton. Qed.

Lemma readOne_pass h defs0 defs i : pass_ok h defs0 defs -> always (readOne defs i) h (fun defs h => pass_ok h defs0 defs).
Proof.
  intros Hp. unfold readOne. destruct (defs !! i) as [p|] eqn:E; [|done]. cbn [bind call wp]. intros r [] _. cbn [bind wp].
  destruct (pass_lookup h defs0 defs i p Hp E) as (p0 & E0 & Hc). destruct (came_from_fields h p0 p Hc) as (Hi & Hs & Hd & _).
  assert (Hc' : came_from (h ++ [ev (ReadSdo (index p) (subindex p)) r]) p0 p) by (eapply came_from_mono; [|exact Hc]; apply snoc_mono).
  apply pass_insert; [eapply pass_ok_mono; [|exact Hp]; apply snoc_mono|]. intros p0' E0'. rewrite E0 in E0'. injection E0' as <-.
  destruct r as [b|e].
  - destruct (decodeSdoBytes (dataType p) b) as [v|e] eqn:Ed.
    + apply came_synced; [done| |by rewrite <- Hd, Ed]. left. rewrite <- Hi, <- Hs. apply snoc_last.
    + apply came_stale; [done|]. exists (Value b). rewrite <- Hi, <- Hs. split; [apply snoc_last|]. intros b' [= <-]. by rewrite <- Hd, Ed.
  - apply came_stale; [done|]. exists (Unexpected e). rewrite <- Hi, <- Hs. split; [apply snoc_last|done].
Qed.

Lemma read_subs_pass defs0 subs : forall last declared defs h, pass_ok h defs0 defs -> always (read_subs subs last declared defs) h (fun r h => pass_ok h defs0 r.1).
Proof.
  induction subs as [|i subs IH]; intros last declared defs h Hp; cbn [read_subs]; [done|]. destruct (defs !! i) as [p|]; [|done].
  cbv zeta. destruct (_ && _); [done|]. apply wp_bind. eapply wp_mono; [|exact (readOne_pass h defs0 defs i Hp)]. intros defs' h' [] Hp'. by apply IH.
Qed.

Lemma decode_complete_pass h defs0 idx blob subs : ev (ReadSdoComplete idx) (Value blob) ∈ h -> forall k cursor defs,
  (forall i p, i ∈ subs -> defs0 !! i = Some p -> index p = idx) -> pass_ok h defs0 defs -> pass_ok h defs0 (decode_complete subs blob k cursor defs).1.
Proof.
  intros Hb. induction subs as [|i subs IH]; intros k cursor defs Hi Hp; cbn [decode_complete]; [done|]. destruct (defs !! i) as [p|] eqn:E; [|done].
  destruct (_ <? _); [done|]. cbv zeta. destruct (decodeSdoBytes (dataType p) _) as [v|e] eqn:Ed; [|done]. apply IH; [set_solver|].
  destruct (pass_lookup h defs0 defs i p Hp E) as (p0 & E0 & Hc). destruct (came_from_fields h p0 p Hc) as (Ei & Es & Edt & Eb & _).
  apply pass_insert; [done|]. intros p0' E0'. rewrite E0 in E0'. injection E0' as <-. apply came_synced; [done| |by rewrite <- Edt, Ed].
  right. exists blob, cursor. rewrite (Hi i p0) by (done || set_solver). by rewrite <- Eb.
Qed.

Lemma read_object_pass h defs0 ca_on subs ca declared defs idx : pass_ok h defs0 defs -> (forall i p, i ∈ subs -> defs0 !! i = Some p -> index p = idx) ->
  always (read_object ca_on subs ca declared defs) h (fun r h => pass_ok h defs0 r.1.1).
Proof.
  intros Hp Hi. unfold read_object.
  assert (Hclassic : forall ca' defs' h', pass_ok h' defs0 defs' ->
    always (bind (read_subs subs None declared defs') (fun '(defs, declared) => Ret (defs, ca', declared))) h'
      (fun (r : list DeviceParameter * CompleteAccessSupport * DeclaredSubindexReads) h => pass_ok h defs0 r.1.1)).
  { intros ca' defs' h' Hp'. apply wp_bind. eapply wp_mono; [|exact (read_subs_pass defs0 subs None declared defs' h' Hp')]. intros [d1 d2] h2 [] H2. done. }
  destruct (_ && _) eqn:Ec; [|by apply Hclassic]. unfold readCompleteInto. cbn [bind call wp]. intros r [] _. cbn [bind].
  set (cells := omap (fun i => defs !! i) subs) in *.
  assert (Hidx : match cells with p :: _ => index p | [] => 0 end = idx).
  { apply andb_true_iff in Ec as [_ Ec]. destruct cells as [|p l] eqn:El; [done|]. assert (Hin : p ∈ cells) by (rewrite El; left).
    unfold cells in Hin. apply list_elem_of_omap in Hin as (i & Hin & E). destruct (pass_lookup h defs0 defs i p Hp E) as (p0 & E0 & Hc).
    rewrite (proj1 (came_from_fields h p0 p Hc)). by apply (Hi i). }
  rewrite Hidx. destruct r as [blob|e]; cbv beta iota.
  - pose proof (decode_complete_pass (h ++ [ev (ReadSdoComplete idx) (Value blob)]) defs0 idx blob subs (snoc_last _ _) 0 0 defs Hi
      (pass_ok_mono _ _ _ _ (snoc_mono h _) Hp)) as Hd. unfold decodeCompleteAccess. destruct (decode_complete subs blob 0 0 defs) as [defs' d]. cbn [fst] in Hd.
    destruct d; [done|by apply Hclassic..].
  - apply Hclassic. eapply pass_ok_mono; [|exact Hp]. apply snoc_mono.
Qed.

Lemma run_length_same idx l i p : (i < run_length idx l)%nat -> l !! i = Some p -> index p = idx.
Proof.
  revert i. induction l as [|q l IH]; intros i Hi Hl; [done|]. cbn in Hi. destruct (Z.eqb_spec (index q) idx); [|lia]. destruct i as [|i]; [by injection Hl as <-|]. apply (IH i); [lia|done].
Qed.

Lemma read_objects_pass defs0 ca_on fuel : forall start ca declared defs h, pass_ok h defs0 defs ->
  always (read_objects fuel ca_on start ca declared defs) h (fun defs h => pass_ok h defs0 defs).
Proof.
  induction fuel as [|fuel IH]; intros start ca declared defs h Hp; cbn [read_objects]; [done|]. destruct (drop start defs) as [|p rest] eqn:Ed; [done|].
  apply wp_bind. eapply wp_mono; [|apply (read_object_pass h defs0 ca_on _ ca declared defs (index p) Hp)].
  - intros [[defs' ca'] declared'] h' [] Hp'. by apply IH.
  - intros i p0 Hin E0. apply elem_of_seq in Hin. destruct (lookup_lt_is_Some_2 defs i) as [q E].
    { rewrite <- (Forall2_length _ _ _ Hp). by eapply lookup_lt_Some. }
    destruct (pass_lookup h defs0 defs i q Hp E) as (p0' & E0' & Hc). rewrite E0 in E0'. injection E0' as <-. rewrite <- (proj1 (came_from_fields h p0 q Hc)).
    assert (Hq : (p :: rest) !! (i - start)%nat = Some q) by (rewrite <- Ed, lookup_drop; rewrite <- E; f_equal; lia).
    destruct (i - start)%nat as [|j] eqn:Ej; [by injection Hq as ->|]. apply (run_length_same (index p) rest j); [lia|done].
Qed.

Lemma came_refl h p : syncState p = Unknown -> came_from h p p.
Proof. intros Hp. split; rewrite ?Hp; try done; [destruct p; cbn in *; by rewrite Hp|by destruct (isScalarDataType _)]. Qed.

Lemma values_pass ca_on h defs : Forall (fun p => syncState p = Unknown) defs -> always (readParameterValues ca_on defs) h (fun defs' h => pass_ok h defs defs').
Proof.
  intros Hu. apply read_objects_pass. induction Hu as [|p l Hp _ IH]; constructor; [by apply came_refl|done].
Qed.

(** ** The map that is published *)
Lemma build_map_keys defs : (forall k, k ∈ (build_map defs).*1 <-> k ∈ key_of <$> defs) /\ built_ok (build_map defs) /\ forall k p, (k, p) ∈ build_map defs -> p ∈ defs.
Proof.
  unfold build_map. induction defs as [|p defs (IH1 & [IH2 IH3] & IH4)] using rev_ind; [split_and!; [done|split; constructor|by intros ?? ?%elem_of_nil]|].
  rewrite foldl_snoc. generalize dependent (foldl emplace [] defs). intros b IH1 IH2 IH3 IH4. unfold emplace. case_bool_decide as Hin.
  - split_and!; [|by split|].
    + intros k. rewrite fmap_app, elem_of_app, IH1. cbn. rewrite list_elem_of_singleton. split; [by left|]. intros [?| ->]; [done|]. by apply IH1.
    + intros k q Hq. apply elem_of_app. left. by apply (IH4 k).
  - split_and!.
    + intros k. rewrite !fmap_app, !elem_of_app, IH1. done.
    + split; [apply Forall_app; split; [done|repeat constructor]|]. rewrite fmap_app. cbn. apply Esi.NoDup_snoc. done.
    + intros k q [Hq|Hq]%elem_of_app; apply elem_of_app; [left; by apply (IH4 k)|right]. apply list_elem_of_singleton in Hq. injection Hq as _ ->. by apply list_elem_of_singleton.
Qed.

(** ** What a run publishes *)

(** Calls that neither publish nor report. *)
Definition quiet (o : op) : Prop := match o with Publish _ | SetUnavailable _ => False | _ => True end.
Definition quiet_history (h : history) : Prop := Forall (fun e : event answer => quiet (projT1 e)) h.

(** Where definitions come from. *)
Inductive source_of (h : history) (d : device) : list DeviceParameter -> Prop :=
  | from_cache version src : did (CacheLoad (vendorId d) (productCode d) version) (Some src) ∈ h -> parameterCache d = true -> source_of h d src
  | from_device read : did ReadObjectDictionary (Value read) ∈ h -> source_of h d (define <$> od_entries read).

(** What was published, and why. *)
Inductive justified (h : history) (d : device) (readValues : bool) : list DeviceParameter -> Prop :=
  | of_sii b sii : supportsCoe d = false -> did ReadSii (Value b) ∈ h -> Sii.parseSii b = Some (Value sii) -> justified h d readValues (sii_definitions sii)
  | of_coe src esi file defs : supportsCoe d = true -> source_of h d src ->
      (if readValues then pass_ok h (reset_value <$> EsiCache.joinEsi src esi file) defs else defs = reset_value <$> EsiCache.joinEsi src esi file) ->
      (esi = None \/ exists version, did (EsiFind (vendorId d) (productCode d) version) esi ∈ h) ->
      justified h d readValues defs.

Definition result_ok (d : device) (readValues : bool) (r : expected InitError unit) (h : history) : Prop :=
  match r with
  | Unexpected _ => quiet_history h
  | Value _ => exists h1 defs, h = h1 ++ [did (Publish (build_map defs)) tt] /\ quiet_history h1 /\ justified h1 d readValues defs
  end.

Lemma quiet_snoc h o x : quiet_history h -> quiet o -> quiet_history (h ++ [ev o x]).
Proof. intros Hh Ho. apply Forall_app. split; [done|repeat constructor; exact Ho]. Qed.

(** A quiet script keeps the history quiet, and keeps what was in it. *)
Lemma quiet_script {A} (s : prog A) h Q : all_ops quiet s -> quiet_history h -> always s h Q -> always s h (fun a h => quiet_history h /\ Q a h).
Proof.
  revert h. induction s as [a|o k IH]; intros h Hs Hh Hq; cbn [wp all_ops] in *; [done|]. destruct Hs as [Ho Hk]. intros x [] _. apply IH; [apply Hk|by apply quiet_snoc|by apply Hq].
Qed.
Lemma keep_script {A} (s : prog A) (h h0 : history) Q : (forall e, e ∈ h0 -> e ∈ h) -> always s h Q -> always s h (fun a h => (forall e, e ∈ h0 -> e ∈ h) /\ Q a h).
Proof.
  revert h. induction s as [a|o k IH]; intros h Hs Hq; cbn [wp] in *; [done|]. intros x [] _. apply IH; [|by apply Hq]. intros e He. by apply snoc_mono, Hs.
Qed.

Lemma quiet_read_subs subs : forall last declared defs, all_ops quiet (read_subs subs last declared defs).
Proof.
  induction subs as [|i subs IH]; intros last declared defs; cbn [read_subs]; [done|]. destruct (defs !! i) as [p|] eqn:E; [|done]. cbv zeta. destruct (_ && _); [done|].
  apply all_ops_bind; [|intros; apply IH]. unfold readOne. rewrite E. by split.
Qed.
Lemma quiet_values ca_on defs : all_ops quiet (readParameterValues ca_on defs).
Proof.
  unfold readParameterValues. generalize (length defs), 0%nat, CaUnknown, ReadsUnknown. intros fuel. revert defs.
  induction fuel as [|fuel IH]; intros defs start ca declared; cbn [read_objects]; [done|]. destruct (drop start defs) as [|p rest]; [done|].
  apply all_ops_bind; [|intros [[? ?] ?]; apply IH]. unfold read_object.
  assert (Hc : forall (ca' : CompleteAccessSupport) defs', all_ops quiet (bind (read_subs (seq start (S (run_length (index p) rest))) None declared defs') (fun '(defs, declared) => Ret (defs, ca', declared))))
    by (intros; apply all_ops_bind; [apply quiet_read_subs|by intros []]).
  destruct (_ && _); [|apply Hc]. apply all_ops_bind; [by split|]. intros [[? ?] []]; [done|apply Hc].
Qed.

Lemma obtain_ok d version h : quiet_history h ->
  always (obtain d version) h (fun r h => quiet_history h /\ match r with Value src => source_of h d src | Unexpected _ => True end).
Proof.
  intros Hh. unfold obtain. destruct (parameterCache d) eqn:Ep; cbn [andb].
  - assert (Hdict : forall h, quiet_history h -> always (bind (call ReadObjectDictionary) (fun r =>
        match r with
        | Unexpected e => Ret (Unexpected (BusFailure e))
        | Value read => bind (if od_missingEntries read =? 0 then call (CacheStore (vendorId d) (productCode d) version (define <$> od_entries read)) else Ret tt)
                          (fun _ => Ret (Value (define <$> od_entries read)))
        end)) h (fun r h => quiet_history h /\ match r with Value src => source_of h d src | Unexpected _ => True end)).
    { intros h' Hh'. cbn [bind call wp]. intros [read|e] [] _; cbn [bind wp].
      - assert (Hq : quiet_history (h' ++ [ev ReadObjectDictionary (Value read)])) by (by apply quiet_snoc).
        destruct (od_missingEntries read =? 0); cbn [bind call wp]; [intros [] [] _|]; (split; [try done; by apply quiet_snoc|]);
          apply from_device; [apply snoc_mono|]; apply snoc_last.
      - split; [by apply quiet_snoc|done]. }
    destruct (cacheEnabled d); cbn [bind call wp]; [|by apply Hdict]. intros [src|] [] _; cbn [bind wp]; [|apply Hdict; by apply quiet_snoc].
    split; [by apply quiet_snoc|]. eapply from_cache; [apply snoc_last|done].
  - cbn [bind call wp]. intros [read|e] [] _; cbn [bind wp]; (split; [by apply quiet_snoc|]); [|done]. apply from_device, snoc_last.
Qed.

Lemma publish_ok d rv defs h : quiet_history h -> justified h d rv defs ->
  always (bind (call (Publish (build_map defs))) (fun _ => Ret (Value tt))) h (fun r h => result_ok d rv r h).
Proof. intros Hh Hj. cbn [bind call wp]. intros [] [] _. exists h, defs. done. Qed.

Lemma definitions_ok d rv ca : always (readParameterDefinitions d rv ca) [] (fun r h => result_ok d rv r h).
Proof.
  unfold readParameterDefinitions. destruct (supportsCoe d) eqn:Es; cbn [negb].
  - apply wp_bind. eapply (wp_mono _ _ (fun version h _ => quiet_history h)).
    2: { unfold read_version. destruct (_ || _); [|by constructor]. cbn [bind call wp]. intros x [] _. by apply (quiet_snoc []); [constructor|]. }
    intros version h [] Hh. apply wp_bind. eapply wp_mono; [|exact (obtain_ok d version h Hh)]. intros [src|e] h1 [] [Hh1 Hsrc]; [|exact Hh1].
    apply wp_bind. eapply (wp_mono _ _ (fun esi h _ => quiet_history h /\ source_of h d src /\
      (esi = None \/ exists version, did (EsiFind (vendorId d) (productCode d) version) esi ∈ h))).
    2: { assert (Hm : forall e, source_of (h1 ++ [e]) d src) by (intros e; inversion Hsrc; subst; [eapply from_cache; [by apply snoc_mono|done]|by apply from_device, snoc_mono]).
      destruct (_ && _); cbn [call wp]; [|by split_and!; [..|left]]. intros esi [] _. split_and!; [by apply quiet_snoc|apply Hm|]. right. exists version. apply snoc_last. }
    intros esi h2 [] (Hh2 & Hs2 & He2). cbv zeta. set (defs0 := reset_value <$> _).
    apply wp_bind. eapply (wp_mono _ _ (fun defs h _ => quiet_history h /\ (forall e, e ∈ h2 -> e ∈ h) /\ if rv then pass_ok h defs0 defs else defs = defs0)).
    2: { destruct rv; [|done]. apply quiet_script; [apply quiet_values|done|]. apply keep_script; [done|]. apply values_pass. apply Forall_fmap, Forall_true. done. }
    intros defs h3 [] (Hh3 & Hm & Hd). apply publish_ok; [done|]. eapply (of_coe h3 d rv src esi); [done| |exact Hd|].
    + inversion Hs2; subst; [eapply from_cache; [by apply Hm|done]|by apply from_device, Hm].
    + destruct He2 as [->|(v & Hv)]; [by left|right; exists v; by apply Hm].
  - unfold buildSiiParameterDefinitions. cbn [bind call wp]. intros raw [] _. cbn [bind app].
    assert (Hq : quiet_history [ev ReadSii raw]) by (by apply (quiet_snoc []); [constructor|]).
    destruct raw as [b|e]; [|exact Hq]. destruct (Sii.parseSii b) as [[sii|e]|] eqn:Ep; [|exact Hq..].
    apply publish_ok; [done|]. eapply of_sii; [done| |exact Ep]. by apply list_elem_of_singleton.
Qed.


(** ** What is cached *)

(** A store in the history: of a dictionary read without loss, for the version the device reported. *)
Definition store_justified (d : device) (h : history) (o : op) : Prop :=
  match o with
  | CacheStore v p ver ps => v = vendorId d /\ p = productCode d /\
      (exists read, did ReadObjectDictionary (Value read) ∈ h /\ od_missingEntries read = 0 /\ ps = define <$> od_entries read) /\
      (ver = [] \/ exists b, did (ReadSdo 0x100A 0) (Value b) ∈ h /\ ver = Cache.trimFirmwareVersion b)
  | _ => True
  end.
Definition stores_ok (d : device) (h : history) : Prop := forall o x, did o x ∈ h -> store_justified d h o.

Lemma stores_snoc d h o x : stores_ok d h -> store_justified d (h ++ [did o x]) o -> stores_ok d (h ++ [did o x]).
Proof.
  intros Hh Ho o' x' [Hin|Hin]%elem_of_app.
  - specialize (Hh o' x' Hin). destruct o'; try done. destruct Hh as (-> & -> & (read & H1 & H2) & Hv). split_and!; [done|done| |].
    + exists read. split; [by apply snoc_mono|done].
    + destruct Hv as [->|(b & H3 & ->)]; [by left|right; exists b; split; [by apply snoc_mono|done]].
  - apply list_elem_of_singleton in Hin. assert (o' = o) as -> by (exact (f_equal (@projT1 op answer) Hin)). done.
Qed.

Definition no_store (o : op) : Prop := match o with CacheStore _ _ _ _ => False | _ => True end.
Lemma stores_script d {A} (s : prog A) h : all_ops no_store s -> stores_ok d h -> always s h (fun _ h => stores_ok d h).
Proof.
  revert h. induction s as [a|o k IH]; intros h Hs Hh; cbn [wp all_ops] in *; [done|]. destruct Hs as [Ho Hk]. intros x [] _. apply IH; [apply Hk|].
  apply stores_snoc; [done|]. by destruct o.
Qed.

Lemma no_store_values ca_on defs : all_ops no_store (readParameterValues ca_on defs).
Proof.
  unfold readParameterValues. generalize (length defs), 0%nat, CaUnknown, ReadsUnknown. intros fuel. revert defs.
  induction fuel as [|fuel IH]; intros defs start ca declared; cbn [read_objects]; [done|]. destruct (drop start defs) as [|p rest]; [done|].
  apply all_ops_bind; [|intros [[? ?] ?]; apply IH]. unfold read_object.
  assert (Hsub : forall subs last declared defs, all_ops no_store (read_subs subs last declared defs)).
  { intros subs. induction subs as [|i subs IHs]; intros last decl defs'; cbn [read_subs]; [done|]. destruct (defs' !! i) as [q|] eqn:E; [|done]. cbv zeta. destruct (_ && _); [done|].
    apply all_ops_bind; [|intros; apply IHs]. unfold readOne. rewrite E. by split. }
  assert (Hc : forall (ca' : CompleteAccessSupport) defs', all_ops no_store (bind (read_subs (seq start (S (run_length (index p) rest))) None declared defs') (fun '(defs, declared) => Ret (defs, ca', declared))))
    by (intros; apply all_ops_bind; [apply Hsub|by intros []]).
  destruct (_ && _); [|apply Hc]. apply all_ops_bind; [by split|]. intros [[? ?] []]; [done|apply Hc].
Qed.

Lemma obtain_stores d version h : stores_ok d h -> (version = [] \/ exists b, did (ReadSdo 0x100A 0) (Value b) ∈ h /\ version = Cache.trimFirmwareVersion b) ->
  always (obtain d version) h (fun _ h => stores_ok d h).
Proof.
  intros Hh Hv. unfold obtain. apply wp_bind.
  eapply (wp_mono _ _ (fun _ h _ => stores_ok d h /\ (version = [] \/ exists b, did (ReadSdo 0x100A 0) (Value b) ∈ h /\ version = Cache.trimFirmwareVersion b))).
  2: { destruct (_ && _); [|done]. cbn [call wp]. intros x [] _. split; [by apply stores_snoc|]. destruct Hv as [->|(b & H1 & ->)]; [by left|right; exists b; split; [by apply snoc_mono|done]]. }
  intros [src|] h1 [] [Hh1 Hv1]; [done|]. cbn [bind call wp]. intros [read|e] [] _; [|by apply stores_snoc].
  assert (Hh2 : stores_ok d (h1 ++ [did ReadObjectDictionary (Value read)])) by (by apply stores_snoc).
  destruct (parameterCache d && (od_missingEntries read =? 0)) eqn:Ec; [|done]. cbn [bind call wp]. intros [] [] _. apply stores_snoc; [done|].
  apply andb_true_iff in Ec as [_ Em%Z.eqb_eq]. split_and!; [done|done| |].
  - exists read. split; [|done]. apply snoc_mono, snoc_last.
  - destruct Hv1 as [->|(b & H1 & ->)]; [by left|right; exists b; split; [by do 2 apply snoc_mono|done]].
Qed.

Theorem init_caches_complete d rv ca tr r : runs (initializeParameters d rv ca) tr r -> stores_ok d tr.
Proof.
  intros Hr. apply (wp_runs free (initializeParameters d rv ca) (fun r h _ => stores_ok d h) tr r [] tt tt Hr).
  2: { clear. induction tr as [|e tr IH]; [constructor|]. by econstructor; [exact I|]. }
  assert (H0 : stores_ok d []) by (intros o x Hx; by apply elem_of_nil in Hx).
  unfold initializeParameters. apply wp_bind. eapply (wp_mono _ _ (fun _ h _ => stores_ok d h)).
  { intros x h [] Hx. cbn [bind call wp]. intros [] [] _. by apply stores_snoc. }
  unfold readParameterDefinitions. destruct (supportsCoe d); cbn [negb].
  - apply wp_bind. eapply (wp_mono _ _ (fun version h _ => stores_ok d h /\ (version = [] \/ exists b, did (ReadSdo 0x100A 0) (Value b) ∈ h /\ version = Cache.trimFirmwareVersion b))).
    2: { unfold read_version. destruct (_ || _); [|by split; [|left]]. cbn [bind call wp]. intros x [] _. cbn [bind wp]. split; [by apply (stores_snoc d [])|].
         destruct x as [b|e]; [right; exists b; split; [by apply list_elem_of_singleton|done]|by left]. }
    intros version h [] [Hh Hv]. apply wp_bind. eapply wp_mono; [|exact (obtain_stores d version h Hh Hv)]. intros [src|e] h1 [] Hh1; [|done].
    apply stores_script; [|done]. apply all_ops_bind; [by destruct (_ && _)|]. intros esi. cbv zeta. apply all_ops_bind; [destruct rv; [apply no_store_values|done]|]. by split.
  - apply stores_script; [|done]. apply all_ops_bind; [by split|]. intros [defs|e]; [by split|done].
Qed.

(** ** A warm start is a cold start *)
Lemma decode_bound_ok dt b v : bytes_ok b -> decodeSdoBytes dt b = Value v -> Cache.bound_ok dt v.
Proof.
  intros Hb. rewrite decodeSdoBytes_table. unfold Cache.bound_ok. destruct (defaultValueForDataType dt) as [t z|x|x|x|x].
  - unfold decodeInt. destruct (_ <? _)%nat; [done|]. intros [= <-]. split; [done|apply int_of_bits_range].
  - unfold decodeReal. destruct (Nat.ltb_spec (length b) 4); [done|]. intros [= <-]. pose proof (le_value_range (take 4 b) (Forall_take _ 4 b Hb)) as Hr.
    rewrite length_take, Nat.min_l in Hr by lia. exact Hr.
  - unfold decodeReal. destruct (_ <? _)%nat; [done|]. by intros [= <-].
  - by intros [= <-].
  - by intros [= <-].
Qed.

Definition raw_ok (dt : Z) (raw : option bytes) : Prop := forall b, raw = Some b -> bytes_ok b /\ forall v, decodeSdoBytes dt b = Value v -> Cache.finite_bound v = true.
Record entry_ok (e : OdEntry) : Prop := mk_entry_ok {
  eo_index : in_u 16 (od_index e); eo_subindex : in_u 8 (od_subindex e); eo_code : in_u 16 (od_objectCode e); eo_type : in_u 16 (od_dataType e);
  eo_bits : in_u 16 (od_bitLength e); eo_access : in_u 16 (od_access e); eo_unit : forall u, od_unit e = Some u -> in_u 32 u;
  eo_default : raw_ok (od_dataType e) (od_defaultValue e); eo_min : raw_ok (od_dataType e) (od_minValue e); eo_max : raw_ok (od_dataType e) (od_maxValue e) }.

Lemma raw_kept dt raw : raw_ok dt raw -> Cache.kept (decodeRawBytes dt raw) = decodeRawBytes dt raw /\ forall v, decodeRawBytes dt raw = Some v -> Cache.bound_ok dt v.
Proof.
  intros Hr. unfold decodeRawBytes. destruct raw as [b|]; [|done]. destruct (Hr b eq_refl) as [Hb Hf]. destruct (decodeSdoBytes dt b) as [v|] eqn:E; [|done].
  split; [cbn; by rewrite (Hf v eq_refl)|]. intros v' [= <-]. by apply (decode_bound_ok dt b).
Qed.

Lemma define_kept e : entry_ok e -> Cache.definition_ok (define e) /\ Cache.restored (define e) = define e.
Proof.
  intros []. destruct (raw_kept _ _ eo_default0) as [Kd Bd], (raw_kept _ _ eo_min0) as [Ki Bi], (raw_kept _ _ eo_max0) as [Ka Ba].
  split; [by split|]. unfold Cache.restored, define. cbn [defaultValue minValue maxValue index subindex name objectCode dataType bitLength access unit_].
  by rewrite Kd, Ki, Ka.
Qed.

(** C30: A device whose dictionary was cached comes up as one that is asked. The dictionary an initialisation
    read without loss and stored is what the cache answers at the next one, entry for entry, and with that
    answer the initialisation goes on with the same definitions as after reading the device; it asks the
    device nothing. Every store of an initialisation is of that kind: the complete dictionary as the device
    listed it, before any ESI, for the firmware version the device reported. *)
Theorem warm_start `{Json.JsonLaws} home config o fs d version read dmp :
  parameterCache d = true -> cacheEnabled d = true -> od_missingEntries read = 0 -> Forall entry_ok (od_entries read) ->
  Cache.identity_ok config (vendorId d) (productCode d) version ->
  Cache.complete_write (vendorId d) (productCode d) version (define <$> od_entries read) o dmp ->
  let defs := define <$> od_entries read in
  let load := fun fs => Cache.load home config (vendorId d) (productCode d) version fs in
  let fs' := Cache.store home config (vendorId d) (productCode d) version defs o fs in
  load fs' = Some defs /\
  runs (obtain d version) [did (CacheLoad (vendorId d) (productCode d) version) (load fs')] (Value defs) /\
  (load fs = None -> runs (obtain d version) [did (CacheLoad (vendorId d) (productCode d) version) (load fs);
     did ReadObjectDictionary (Value read); did (CacheStore (vendorId d) (productCode d) version defs) tt] (Value defs)) /\
  forall rv ca tr r, runs (initializeParameters d rv ca) tr r -> stores_ok d tr.
Proof.
  intros Hp He Hm Hok Hid Hw. cbv zeta.
  assert (Hdef : Forall Cache.definition_ok (define <$> od_entries read)) by (apply Forall_fmap; eapply Forall_impl; [exact Hok|]; intros e Ho; apply (define_kept e Ho)).
  assert (Hl : Cache.load home config (vendorId d) (productCode d) version (Cache.store home config (vendorId d) (productCode d) version (define <$> od_entries read) o fs) =
    Some (define <$> od_entries read)).
  { rewrite (Cache.store_served home config _ _ _ _ _ _ fs Hid Hdef Hw). f_equal. rewrite <- list_fmap_compose.
    clear -Hok. induction Hok as [|e l Ho _ IH]; [done|]. cbn. rewrite (proj2 (define_kept e Ho)). by f_equal. }
  split_and!; [done| | |intros; by eapply init_caches_complete].
  - rewrite Hl. unfold obtain. rewrite Hp, He. cbn [andb bind call runs]. by eexists _, [].
  - intros ->. unfold obtain. rewrite Hp, He. cbn [andb bind call runs]. eexists _, _. split; [done|]. cbn [bind runs]. eexists _, _. split; [done|]. cbv iota beta.
    rewrite Hm. cbn [Z.eqb bind runs]. by eexists _, [].
Qed.

(** ** A simulated device

    A record that reports one entry in use and refuses the others, and a variable. *)
Definition w_entry (idx sub code dt bits : Z) : OdEntry := mk_entry idx sub code dt bits 0x3F (codes "entry") None (Some [0; 0; 0; 0]) None None.
Definition w_read : OdRead :=
  mk_read [w_entry 0x1018 0 9 UNSIGNED8 8; w_entry 0x1018 1 9 UNSIGNED32 32; w_entry 0x1018 2 9 UNSIGNED32 32; w_entry 0x1018 3 9 UNSIGNED32 32;
           w_entry 0x6040 0 7 UNSIGNED16 16] 0.
Definition w_device : device := mk_device true 0x22D2 0x301 true true false false.
Definition w_answer (o : op) : answer o :=
  match o with
  | ReadSdo idx sub => if (idx =? 0x1018) && (1 <? sub) then Unexpected (codes "refused") else if idx =? 0x100A then Value (codes " v5.6 rc") else Value [1; 0; 0; 0]
  | ReadSdoComplete _ => Unexpected (codes "unsupported")
  | ReadObjectDictionary => Value w_read
  | ReadSii => Unexpected []
  | CacheLoad _ _ _ | EsiFind _ _ _ => None
  | CacheStore _ _ _ _ | Publish _ | SetUnavailable _ => tt
  end.
Definition w_run {A} (s : prog A) : history * A := exec (fun _ o => w_answer o) [] s.


#[local] Existing Instance Json.token_json.
#[local] Existing Instance Json.token_json_laws.
Definition w_version : text := codes "v5.6 rc".
Definition w_dump : bytes := [Z.pos (countable.encode (Json.to_tree (Json.reread (Json.JObject (Cache.document 0x22D2 0x301 w_version (define <$> od_entries w_read))))))].

Lemma w_entries_ok : Forall entry_ok (od_entries w_read).
Proof.
  assert (Hraw : forall dt, bool_decide (dt ∈ [UNSIGNED8; UNSIGNED32; UNSIGNED16]) = true -> raw_ok dt (Some [0; 0; 0; 0])).
  { intros dt Hdt%bool_decide_eq_true b Hb. injection Hb as <-. split; [apply (bool_decide_unpack (bytes_ok _)); vm_compute; exact I|].
    intros v. rewrite !elem_of_cons in Hdt. destruct Hdt as [->|[->|[->|Hdt]]]; [vm_compute; intros [= <-]; reflexivity..|by apply elem_of_nil in Hdt]. }
  unfold w_read, od_entries. repeat apply Forall_cons_2; [..|by apply Forall_nil_2];
    (split; [apply (bool_decide_unpack (in_u _ _)); vm_compute; exact I..|done|apply Hraw; vm_compute; reflexivity|done|done]).
Qed.

Lemma warm_start_witness :
  Cache.load [] Cache.w_config 0x22D2 0x301 w_version (Cache.store [] Cache.w_config 0x22D2 0x301 w_version (define <$> od_entries w_read) (Cache.w_outcome 9) ∅) =
    Some (define <$> od_entries w_read).
Proof.
  refine (proj1 (warm_start [] Cache.w_config (Cache.w_outcome 9) ∅ w_device w_version w_read w_dump eq_refl eq_refl eq_refl w_entries_ok _ _)).
  - split_and!; [reflexivity|unfold in_u; cbn; lia|unfold in_u; cbn; lia|done].
  - split_and!; try reflexivity. cbn. lia.
Defined.

End DeviceInit.
