(* ===== verification/DeviceValues.v ===== *)
(** * The value pass of an initialisation is complete ([libs/node/device.cc])

    The pass reads every entry, except those above the count an array or a record reports: its uploads stop
    at that count once one above it was refused. *)

From Stdlib Require Import Sorted.
From stdpp Require Import sorting.
From S2P Require Import Prelude DeviceParameter ProcessBits DeviceStore Script DeviceInit.

Module DeviceValues.
Import Param Store Script DeviceInit.

(** ** Addresses do not change *)
Definition address (p : DeviceParameter) : Z * Z := (index p, subindex p).
Definition at_addresses (ad : list (Z * Z)) (defs : list DeviceParameter) : Prop := address <$> defs = ad.

(** The entry [q] counts, and [p] is above its count. *)
Definition above (defs : list DeviceParameter) (within : nat -> Prop) (p : DeviceParameter) : Prop := exists j q m,
  within j /\ defs !! j = Some q /\ index q = index p /\ subindex q = 0 /\ syncState q = Synced /\
  subindicesInUse (objectCode q) (currentValue q) = Some m /\ m < subindex p.
Definition settled (defs : list DeviceParameter) (within : nat -> Prop) : Prop :=
  forall i p, within i -> defs !! i = Some p -> syncState p = Unknown -> above defs within p.

(** A step of the pass over the entries [subs]: others stay, and all keep their address. *)
Definition touches (subs : list nat) (defs defs' : list DeviceParameter) : Prop :=
  address <$> defs' = address <$> defs /\ forall i, i ∉ subs -> defs' !! i = defs !! i.

Lemma touches_refl subs defs : touches subs defs defs.
Proof. done. Qed.
Lemma touches_trans subs a b c : touches subs a b -> touches subs b c -> touches subs a c.
Proof. intros [H1 H2] [H3 H4]. split; [by rewrite H3|]. intros i Hi. by rewrite H4, H2. Qed.
Lemma touches_weaken subs subs' a b : (forall i, i ∈ subs -> i ∈ subs') -> touches subs a b -> touches subs' a b.
Proof. intros Hs [H1 H2]. split; [done|]. intros i Hi. apply H2. auto. Qed.
Lemma touches_insert i p q defs : defs !! i = Some p -> address q = address p -> touches [i] defs (<[i := q]> defs).
Proof.
  intros Hi Ha. split.
  - rewrite list_fmap_insert. apply list_insert_id. by rewrite list_lookup_fmap, Hi, Ha.
  - intros j Hj. apply list_lookup_insert_ne. intros ->. apply Hj. by left.
Qed.
Lemma touches_address subs a b i p q : touches subs a b -> a !! i = Some p -> b !! i = Some q -> address q = address p.
Proof. intros [H _] Ha Hb. apply (f_equal (fun l => l !! i)) in H. rewrite !list_lookup_fmap, Ha, Hb in H. by apply Some_inj in H. Qed.
Lemma touches_length subs a b : touches subs a b -> length b = length a.
Proof. intros [H _]. apply (f_equal length) in H. by rewrite !length_fmap in H. Qed.

Lemma above_kept subs a b within p q : touches subs a b -> (forall j, within j -> j ∉ subs) -> address q = address p -> above a within p -> above b within q.
Proof.
  intros [_ Ht] Hw Ha (j & c & m & Hj & Hc & H1 & H2 & H3 & H4 & H5). injection Ha as Hi Hs. exists j, c, m. rewrite Ht by auto. split_and!; try done; lia.
Qed.

Lemma StronglySorted_weaken {A} (R S : A -> A -> Prop) l : (forall x y, x ∈ l -> y ∈ l -> R x y -> S x y) -> StronglySorted R l -> StronglySorted S l.
Proof.
  intros Himp Hs. induction Hs as [|x l Hs IH Hx]; constructor; [apply IH; intros; apply Himp; try (by right); done|].
  rewrite Forall_forall in Hx |- *. intros y Hy. apply Himp; [by left|by right|by apply Hx].
Qed.

(** ** One read *)
Lemma readOne_step defs i p h : defs !! i = Some p ->
  always (readOne defs i) h (fun defs' h => exists q, defs' = <[i := q]> defs /\ address q = address p /\ syncState q <> Unknown).
Proof.
  intros E. unfold readOne. rewrite E. cbn [bind call wp]. intros r [] _. cbn [bind wp]. eexists. split; [done|].
  destruct r as [b|e]; [destruct (decodeSdoBytes (dataType p) b)|]; (split; [|done]); try done. unfold setRawValue, storeBits. by destruct (isScalarDataType _).
Qed.

(** The entries of an object, in the order of their subindexes. *)
Definition in_order (defs : list DeviceParameter) (subs : list nat) (idx : Z) : Prop :=
  (forall i, i ∈ subs -> exists p, defs !! i = Some p /\ index p = idx) /\
  StronglySorted (fun i j => forall p q, defs !! i = Some p -> defs !! j = Some q -> subindex p < subindex q) subs.

Lemma in_order_touches subs' a b subs idx : touches subs' a b -> in_order a subs idx -> in_order b subs idx.
Proof.
  intros Ht [H1 H2]. split.
  - intros i Hi. destruct (H1 i Hi) as (p & Hp & Ei). destruct (lookup_lt_is_Some_2 b i) as [q Hq].
    { rewrite (touches_length _ _ _ Ht). by eapply lookup_lt_Some. }
    exists q. split; [done|]. by injection (touches_address _ _ _ _ _ _ Ht Hp Hq) as -> _.
  - revert H2. apply StronglySorted_weaken. intros i j Hi Hj Hij q r Hq Hr.
    destruct (H1 i Hi) as (p & Hp & _), (H1 j Hj) as (p' & Hp' & _). specialize (Hij p p' Hp Hp').
    injection (touches_address _ _ _ _ _ _ Ht Hp Hq) as _ E1. injection (touches_address _ _ _ _ _ _ Ht Hp' Hr) as _ E2. lia.
Qed.

(** The count the loop holds is that of an entry it has read. *)
Definition counted (defs : list DeviceParameter) (idx : Z) (subs : list nat) (within : nat -> Prop) (last : option Z) : Prop :=
  forall m, last = Some m -> exists j q, within j /\ (j ∉ subs) /\ defs !! j = Some q /\ index q = idx /\ subindex q = 0 /\ syncState q = Synced /\
    subindicesInUse (objectCode q) (currentValue q) = Some m.

Lemma counted_above defs idx subs within m p : counted defs idx subs within (Some m) -> index p = idx -> m < subindex p -> above defs within p.
Proof. intros Hc Hi Hm. destruct (Hc m eq_refl) as (j & q & Hj & _ & H1 & H2 & H3 & H4 & H5). exists j, q, m. split_and!; try done. lia. Qed.

Lemma read_subs_step idx within subs : forall last declared defs h, NoDup subs -> (forall i, i ∈ subs -> within i) -> in_order defs subs idx -> counted defs idx subs within last ->
  always (read_subs subs last declared defs) h (fun r _ => touches subs defs r.1 /\
    forall i p, i ∈ subs -> r.1 !! i = Some p -> syncState p = Unknown -> above r.1 within p).
Proof.
  induction subs as [|i subs IH]; intros last declared defs h Hnd Hw Ho Hc; cbn [read_subs].
  { split; [apply touches_refl|]. intros i p Hi. by apply elem_of_nil in Hi. }
  apply NoDup_cons in Hnd as [Hni Hnd]. destruct (proj1 Ho i ltac:(by left)) as (p & Ep & Ei). rewrite Ep. cbv zeta.
  destruct ((match last with Some n => n <? subindex p | None => false end) && bool_decide (declared = ReadsRefused)) eqn:Eb.
  - split; [apply touches_refl|]. cbn [fst]. intros j q Hj Hq _. destruct last as [m|]; [|done]. apply andb_true_iff in Eb as [Em%Z.ltb_lt _].
    destruct (proj1 Ho j Hj) as (q' & Eq & Ej). rewrite Hq in Eq. injection Eq as <-. eapply counted_above; [exact Hc|done|].
    apply elem_of_cons in Hj as [->|Hj]; [by simplify_eq|]. destruct Ho as [_ Ho]. apply StronglySorted_cons in Ho as [Hx _].
    rewrite Forall_forall in Hx. specialize (Hx j Hj p q Ep Hq). lia.
  - apply wp_bind. eapply wp_mono; [|exact (readOne_step defs i p h Ep)]. intros defs1 h1 [] (q & -> & Ha & Hu).
    assert (Eq : <[i := q]> defs !! i = Some q) by (apply list_lookup_insert_eq; by eapply lookup_lt_Some).
    pose proof (touches_insert i p q defs Ep Ha) as Ht. rewrite Eq. pose proof Ha as Ha'. injection Ha' as Eqi Eqs.
    eapply wp_mono; [|apply (IH _ _ (<[i := q]> defs) h1 Hnd)].
    + intros [r dr] h2 [] [Ht2 Hr]. cbn [fst] in *. split; [eapply touches_trans; [eapply touches_weaken; [|exact Ht]|eapply touches_weaken; [|exact Ht2]]; set_solver|].
      intros j x Hj Hx Hux. apply elem_of_cons in Hj as [->|Hj]; [|by apply (Hr j)]. destruct Ht2 as [_ Ht2]. rewrite Ht2, Eq in Hx by done. congruence.
    + intros j Hj. apply Hw. by right.
    + assert (Ho' : in_order defs subs idx). { destruct Ho as [H1 H2]. apply StronglySorted_cons in H2 as [_ H2]. split; [intros j Hj; apply H1; by right|done]. }
      by eapply in_order_touches.
    + intros m. destruct ((subindex q =? 0) && bool_decide (syncState q = Synced)) eqn:Es.
      * apply andb_true_iff in Es as [Es%Z.eqb_eq Ey%bool_decide_eq_true]. intros Hm. exists i, q. split_and!; try done; [apply Hw; by left|congruence].
      * intros Hm. destruct (Hc m Hm) as (j & c & Hj & Hjs & Hjc & Hrest). exists j, c. split_and!; try apply Hrest; [done|set_solver|].
        rewrite list_lookup_insert_ne; [done|]. intros ->. apply Hjs. by left.
Qed.

(** ** One object *)
Lemma decode_complete_step blob subs : forall k cursor defs, NoDup subs ->
  let r := decode_complete subs blob k cursor defs in
  touches subs defs r.1 /\ (r.2 = CaFilled -> forall i p, i ∈ subs -> r.1 !! i = Some p -> syncState p <> Unknown).
Proof.
  induction subs as [|i subs IH]; intros k cursor defs Hnd; cbn [decode_complete]; [split; [apply touches_refl|intros _ i p Hi; by apply elem_of_nil in Hi]|].
  apply NoDup_cons in Hnd as [Hni Hnd]. destruct (defs !! i) as [p|] eqn:Ep; [|split; [apply touches_refl|done]]. destruct (_ <? _); [split; [apply touches_refl|done]|].
  cbv zeta. destruct (decodeSdoBytes _ _) as [v|e]; [|split; [apply touches_refl|done]]. set (q := set_sync _ Synced).
  destruct (IH (S k) (u32 (cursor + (if (k =? 0)%nat then 16 else bitLength p))) (<[i := q]> defs) Hnd) as [Ht Hf].
  assert (Ha : address q = address p) by (unfold q, setRawValue, storeBits; by destruct (isScalarDataType _)).
  pose proof (touches_insert i p q defs Ep Ha) as Ht1. split; [eapply touches_trans; [eapply touches_weaken; [|exact Ht1]|eapply touches_weaken; [|exact Ht]]; set_solver|].
  intros Hfill j x Hj Hx. apply elem_of_cons in Hj as [->|Hj]; [|by apply (Hf Hfill j)]. destruct Ht as [_ Ht]. rewrite Ht in Hx by done.
  rewrite list_lookup_insert_eq in Hx by (by eapply lookup_lt_Some). by injection Hx as <-.
Qed.

Lemma read_object_step ca_on idx subs within ca declared defs h : NoDup subs -> (forall i, i ∈ subs -> within i) -> in_order defs subs idx ->
  always (read_object ca_on subs ca declared defs) h (fun r _ => touches subs defs r.1.1 /\
    forall i p, i ∈ subs -> r.1.1 !! i = Some p -> syncState p = Unknown -> above r.1.1 within p).
Proof.
  intros Hnd Hw Ho. unfold read_object.
  assert (Hclassic : forall ca' defs' h', touches subs defs defs' ->
    always (bind (read_subs subs None declared defs') (fun '(defs, declared) => Ret (defs, ca', declared))) h'
      (fun (r : list DeviceParameter * CompleteAccessSupport * DeclaredSubindexReads) _ => touches subs defs r.1.1 /\
        forall i p, i ∈ subs -> r.1.1 !! i = Some p -> syncState p = Unknown -> above r.1.1 within p)).
  { intros ca' defs' h' Ht. apply wp_bind. eapply wp_mono; [|apply (read_subs_step idx within subs None declared defs' h' Hnd Hw)].
    - intros [d1 d2] h2 [] [H1 H2]. split; [by eapply touches_trans|done].
    - by eapply in_order_touches.
    - by intros m. }
  destruct (_ && _); [|by apply Hclassic]. unfold readCompleteInto. cbn [bind call wp]. intros r [] _. cbn [bind]. destruct r as [blob|e]; cbv beta iota; [|by apply Hclassic].
  destruct (decode_complete_step blob subs 0 0 defs Hnd) as [Ht Hf]. unfold decodeCompleteAccess. destruct (decode_complete subs blob 0 0 defs) as [defs' dec]. cbn [fst snd] in *.
  destruct dec; [|by apply Hclassic..]. split; [done|]. intros i p Hi Hp Hu. by destruct (Hf eq_refl i p Hi Hp).
Qed.

(** ** The pass *)

(** The entries in the order of their addresses, each once. *)
Definition sorted_entries (defs : list DeviceParameter) : Prop :=
  StronglySorted (fun a b : Z * Z => a.1 < b.1 \/ (a.1 = b.1 /\ a.2 < b.2)) (address <$> defs).

Lemma StronglySorted_lookup {A} (R : A -> A -> Prop) l i j x y : StronglySorted R l -> (i < j)%nat -> l !! i = Some x -> l !! j = Some y -> R x y.
Proof.
  intros Hs. revert i j. induction Hs as [|z l Hs IH Hz]; intros i j Hij Hx Hy; [done|]. destruct j as [|j]; [lia|]. destruct i as [|i].
  - injection Hx as <-. rewrite Forall_forall in Hz. apply Hz. by eapply list_elem_of_lookup_2.
  - apply (IH i j); [lia|done|done].
Qed.

Lemma run_in_order defs start p rest : sorted_entries defs -> drop start defs = p :: rest ->
  in_order defs (seq start (S (run_length (index p) rest))) (index p).
Proof.
  intros Hs Hd. set (n := S (run_length (index p) rest)).
  assert (Hrun : forall i, i ∈ seq start n -> exists q, defs !! i = Some q /\ index q = index p).
  { intros i Hi%elem_of_seq. assert (Hl : (i - start < length (p :: rest))%nat).
    { assert (forall l, (run_length (index p) l <= length l)%nat) as Hr by (intros l; induction l; cbn; [lia|case_match; lia]). specialize (Hr rest). cbn [length]. lia. }
    destruct (lookup_lt_is_Some_2 _ _ Hl) as [q Hq]. exists q. split.
    - rewrite <- Hd, lookup_drop in Hq. rewrite <- Hq. f_equal. lia.
    - destruct (i - start)%nat as [|j] eqn:Ej; [by injection Hq as ->|]. apply (run_length_same (index p) rest j); [lia|done]. }
  split; [exact Hrun|]. assert (Hseq : forall n start, StronglySorted lt (seq start n)).
  { clear. induction n as [|n IH]; intros start; constructor; [apply IH|]. apply Forall_forall. intros x Hx%elem_of_seq. lia. }
  eapply StronglySorted_weaken; [|apply Hseq]. intros i j Hi Hj Hij a b Ha Hb.
  destruct (Hrun i Hi) as (a' & Ha' & Ea), (Hrun j Hj) as (b' & Hb' & Eb). rewrite Ha in Ha'. rewrite Hb in Hb'. injection Ha' as <-. injection Hb' as <-.
  pose proof (StronglySorted_lookup _ _ i j (address a) (address b) Hs Hij) as Hr. rewrite !list_lookup_fmap, Ha, Hb in Hr. specialize (Hr eq_refl eq_refl). cbn in Hr. lia.
Qed.

Lemma read_objects_step ca_on fuel : forall start ca declared defs h, (length defs <= start + fuel)%nat -> sorted_entries defs -> settled defs (fun i => i < start)%nat ->
  always (read_objects fuel ca_on start ca declared defs) h (fun defs' _ => address <$> defs' = address <$> defs /\ settled defs' (fun i => i < length defs)%nat).
Proof.
  induction fuel as [|fuel IH]; intros start ca declared defs h Hf Hs Hset; cbn [read_objects].
  { split; [done|]. intros i p Hi Hp Hu. cbv beta in Hi. destruct (Hset i p ltac:(cbv beta; lia) Hp Hu) as (j & q & m & Hj & Hq & Hrest). exists j, q, m. split; [by eapply lookup_lt_Some|done]. }
  destruct (drop start defs) as [|p rest] eqn:Ed.
  { assert (length defs <= start)%nat by (apply (f_equal length) in Ed; rewrite length_drop in Ed; cbn in Ed; lia). split; [done|]. intros i p Hi Hp Hu. cbv beta in Hi.
    destruct (Hset i p ltac:(cbv beta; lia) Hp Hu) as (j & q & m & Hj & Hq & Hrest). exists j, q, m. split; [by eapply lookup_lt_Some|done]. }
  set (n := S (run_length (index p) rest)). apply wp_bind.
  eapply wp_mono; [|apply (read_object_step ca_on (index p) (seq start n) (fun i => i < start + n)%nat ca declared defs h); [apply NoDup_seq|intros i Hi%elem_of_seq; lia|by apply run_in_order]].
  intros [[defs' ca'] declared'] h' [] [Ht Hr]. cbn [fst] in Ht, Hr. pose proof (touches_length _ _ _ Ht) as El.
  eapply wp_mono; [|apply (IH (start + n)%nat ca' declared' defs' h')].
  - intros r h2 [] [H1 H2]. rewrite El in H2. split; [by rewrite H1; apply Ht|done].
  - rewrite El. lia.
  - unfold sorted_entries. by rewrite (proj1 Ht).
  - intros i x Hi Hx Hu. cbv beta in Hi. destruct (decide (i ∈ seq start n)) as [Hin|Hin]; [by apply (Hr i)|].
    assert (Hlt : (i < start)%nat) by (rewrite elem_of_seq in Hin; lia). destruct Ht as [Ht1 Ht2]. rewrite Ht2 in Hx by done.
    destruct (Hset i x Hlt Hx Hu) as (j & q & m & Hj & Hq & Hrest). cbv beta in Hj. exists j, q, m. split; [cbv beta; lia|]. rewrite Ht2; [done|]. rewrite elem_of_seq. lia.
Qed.

(** The value pass leaves no entry in use unread: on a dictionary in the order
    of its addresses, an entry that is neither read nor marked as failed afterwards belongs to an array or
    a record whose count was read in this pass and is smaller than the entry's subindex. Whatever the
    device answers or refuses, addresses and the number of entries stay. *)
Theorem init_values_complete ca_on defs tr defs' : sorted_entries defs -> runs (readParameterValues ca_on defs) tr defs' ->
  address <$> defs' = address <$> defs /\
  forall i p, defs' !! i = Some p -> syncState p = Unknown -> exists j q m,
    defs' !! j = Some q /\ index q = index p /\ subindex q = 0 /\ syncState q = Synced /\ subindicesInUse (objectCode q) (currentValue q) = Some m /\ m < subindex p.
Proof.
  intros Hs Hr. pose proof (wp_runs free (readParameterValues ca_on defs) (fun defs' _ _ => address <$> defs' = address <$> defs /\ settled defs' (fun i => i < length defs)%nat)
    tr defs' [] tt tt Hr) as Hw. destruct Hw as [Ha Hset].
  - apply read_objects_step; [lia|done|]. intros i p Hi. cbv beta in Hi. lia.
  - clear. induction tr as [|e tr IH]; [constructor|]. by econstructor; [exact I|].
  - split; [done|]. intros i p Hp Hu. destruct (Hset i p) as (j & q & m & _ & Hrest); [|done|done|by exists j, q, m].
    apply (f_equal length) in Ha. rewrite !length_fmap in Ha. rewrite <- Ha. by eapply lookup_lt_Some.
Qed.

Definition w_defs : list DeviceParameter := define <$> od_entries w_read.
Lemma init_values_complete_witness :
  let out := (w_run (readParameterValues true w_defs)).2 in
  (syncState <$> out) = [Synced; Synced; Stale; Unknown; Synced] /\
  forall i p, out !! i = Some p -> syncState p = Unknown -> exists j q m,
    out !! j = Some q /\ index q = index p /\ subindex q = 0 /\ syncState q = Synced /\ subindicesInUse (objectCode q) (currentValue q) = Some m /\ m < subindex p.
Proof.
  cbv zeta. split; [vm_compute; reflexivity|].
  refine (proj2 (init_values_complete true w_defs _ _ _ (runs_exec (fun _ o => w_answer o) (readParameterValues true w_defs)))).
  unfold sorted_entries. vm_compute. repeat constructor; vm_compute; tauto.
Defined.

End DeviceValues.
