(* ===== verification/Diagnostics.v ===== *)
(** * Motor procedures ([libs/node/somanet_procedures.cc], the brake of [somanet_drive.cc])

    The procedures that put a drive into its diagnostics mode, measure and put it back, and the
    procedures that issue OS commands: scripts of calls on the drive, the progress reporter and the stop
    token. [DriveRestorer], whose destructor undoes what a body changed, is the state a body carries and
    a script that runs after it on every way out. *)

From stdpp Require Import pretty.
From S2P Require Import Prelude Util Cia402 OsCommand Procedures Script.

Module Diagnostics.
Import Procedures Script.
#[local] Existing Instance Cia402.State_eq_dec.

(** ** Calls *)
Inductive CommutationOffsetMethod := kRotating | kRotatingTuned | kStationary.

(** [OsCommandConfig]: a timeout and a poll interval in milliseconds, and whether it has a stop token. *)
Record OsCommandConfig := mk_config { timeout : Z; pollInterval : Z; stoppable : bool }.

Inductive HrdData := kEncoderRawData | kSystemIdentificationData.
Inductive IcMuCalibrationMode := kConfiguration | kRaw | kStandard.
Inductive VelocitySource := kFirmware | kEncoder.
Inductive FirmwareService := kDriveControl | kMotionControl.
Inductive FirmwareLatency := kSetpoint | kFeedback.
Inductive ChirpSignalType := kLogarithmic | kLinear.
Inductive SystemIdentificationStart := kNone | kImmediately | kAfterHrdStreamStart.
Inductive SystemIdentificationParameter :=
  | kStartProcedure | kStartFrequency | kTargetFrequency | kTargetAmplitude | kTransitionTime | kSignalType.

(** The OS commands that a procedure issues through one call. *)
Inductive command :=
  | PolePairDetection | MotorPhaseOrderDetection | PhaseResistanceMeasurement | PhaseInductanceMeasurement
  | CommutationOffsetMeasurement (m : option CommutationOffsetMethod) | TorqueConstantMeasurement
  | ConfigureHrdStream (data : HrdData) (durationMs : Z) | StartHrdStream
  | ReadEncoderRegister (ordinal address : Z) | WriteEncoderRegister (ordinal address v : Z)
  | SetIcMuCalibrationMode (ordinal : Z) (mode : IcMuCalibrationMode) | AccessKueblerRegister (address length : Z) (write : bool) (v : Z)
  | SetVelocitySource (source : VelocitySource) | StartFirmwareLatency (l : FirmwareLatency) | ReadMaximumFirmwareLatency (l : FirmwareLatency)
  | StopFirmwareLatency | TriggerError (s : FirmwareService) (e : Z) | SetIgnoreBissStatusBits (ordinal : Z) (ignore : bool)
  | ReadSkippedCycles (s : FirmwareService) | ReadObjectDictionaryValues.

Record BrakeState := mk_brake {
  brakeObject : bool; status : Z; releaseStrategy : Z; pullTime : Z; pullVoltageMv : Z; holdVoltageMv : Z }.

Inductive field := FText (s : string) | FNumber (z : Z) | FBool (b : bool) | FTexts (l : list string).

Section Json.
(** What the drive's results hold. *)
Context {J : Type}.

(** What a step records. *)
Inductive json := JNull | JResult (j : J) | JBrake (s : BrakeState) | JOsResult (r : Os.OsCommandResponse) | JFields (l : list (string * field)).

Record OpenPhaseResult := mk_open { phaseOpened : bool; describe : string; open_json : J }.

Inductive op :=
  | StopRequested
  | Report (r : @report json)
  | CreateSomanetDrive
  | OperationModeValue | OperationModeValueDisplay | SetOperationModeValue (m : Z) | ApplyOperationMode (m : Z)
  | Enable | Disable | TransitionToState (s : Cia402.State) | ReadState | ErrorReport
  | HasBrakeObject | ReadObject (index subindex : Z) | WriteObject (index subindex v : Z)
  | SleepFor (ms : Z)
  | CommutationMethod
  | OpenPhaseDetection (c : OsCommandConfig)
  | RunOsCommand (request : list Z) (c : OsCommandConfig) (fsBuffer : bool * list Z)
  | Command (c : command) (config : OsCommandConfig)
  | SetSystemIdentificationParameter (p : SystemIdentificationParameter) (v : Z) (config : option OsCommandConfig)
  | SetTargetVelocity (v : Z) | SetProfileAcceleration (v : Z) | SetProfileDeceleration (v : Z).

Definition answer (o : op) : Type :=
  match o with
  | StopRequested | HasBrakeObject => bool
  | Report _ | SleepFor _ => unit
  | CreateSomanetDrive | SetOperationModeValue _ | ApplyOperationMode _ | Enable | Disable | TransitionToState _
  | WriteObject _ _ _ | SetSystemIdentificationParameter _ _ _ | SetTargetVelocity _ | SetProfileAcceleration _
  | SetProfileDeceleration _ => expected string unit
  | OperationModeValue | OperationModeValueDisplay | ReadObject _ _ => expected string Z
  | ReadState => expected string Cia402.State
  | ErrorReport => expected string string
  | CommutationMethod => expected string (option CommutationOffsetMethod)
  | OpenPhaseDetection _ => expected string OpenPhaseResult
  | RunOsCommand _ _ _ => expected string Os.OsCommandResponse
  | Command _ _ => expected string J
  end.

Definition trace : Type := list (event answer).
Definition fallible (A : Type) : Type := script answer (expected string A).

Definition start (i : string) : script answer unit := call (Report (Start i)).
Definition succeed (i : string) (v : json) : script answer unit := call (Report (Succeed i v)).
Definition fail (i : string) (e : string) : script answer unit := call (Report (FailStep i e)).

Definition try_ {A B} (m : fallible A) (k : A -> fallible B) : fallible B :=
  bind m (fun x => match x with Value a => k a | Unexpected e => Ret (Unexpected e) end).

(** ** The brake ([somanet_drive.cc]) *)
Definition kBrakeOptions : Z := 0x2004.
Definition kBrakePullVoltage : Z := 1.
Definition kBrakeHoldVoltage : Z := 2.
Definition kBrakePullTime : Z := 3.
Definition kBrakeReleaseStrategy : Z := 4.
Definition kBrakeStatus : Z := 7.
Definition kNotConfigured : Z := 0.
Definition kEngaged : Z := 1.
Definition kDisengaged : Z := 2.
Definition kManualOutputVoltage : Z := 0.

Definition softwareControllable (s : BrakeState) : bool := brakeObject s && negb (releaseStrategy s =? kManualOutputVoltage).

Definition brakeStatus : fallible Z :=
  bind (call HasBrakeObject) (fun has : bool =>
    if negb has then Ret (Value kNotConfigured) else call (ReadObject kBrakeOptions kBrakeStatus)).

Definition setBrakeStatus (b : Z) : fallible unit :=
  bind (call HasBrakeObject) (fun has : bool =>
    if negb has then Ret (Value tt) else call (WriteObject kBrakeOptions kBrakeStatus b)).

Definition brakeState : fallible BrakeState :=
  bind (call HasBrakeObject) (fun has : bool =>
    if negb has then Ret (Value (mk_brake false kNotConfigured kManualOutputVoltage 0 0 0))
    else try_ brakeStatus (fun st =>
         try_ (call (ReadObject kBrakeOptions kBrakeReleaseStrategy)) (fun strategy =>
         try_ (call (ReadObject kBrakeOptions kBrakePullTime)) (fun pull =>
         try_ (call (ReadObject kBrakeOptions kBrakePullVoltage)) (fun pv =>
         try_ (call (ReadObject kBrakeOptions kBrakeHoldVoltage)) (fun hv =>
         Ret (Value (mk_brake true st strategy pull pv hv)))))))).

Definition releaseBrake (settle : Z) : fallible BrakeState :=
  try_ brakeState (fun state =>
    if negb (softwareControllable state) || (status state =? kDisengaged) then Ret (Value state)
    else try_ (setBrakeStatus kDisengaged) (fun _ =>
         bind (call (SleepFor (pullTime state + settle))) (fun _ => brakeState))).

Definition engageBrake (settle : Z) : fallible BrakeState :=
  try_ brakeState (fun state =>
    if negb (softwareControllable state) then Ret (Value state)
    else try_ (setBrakeStatus kEngaged) (fun _ =>
         bind (call (SleepFor settle)) (fun _ => brakeState))).

(** ** Restoring ([DriveRestorer]) *)
Definition kSwitchOnDisabled := Cia402.kSwitchOnDisabled.

Record Restorer := mk_restorer {
  mode_ : option Z; resting_ : Cia402.State; brake_ : option Z; disarmChirp_ : bool; profile_ : option (Z * Z); targetVelocity_ : option Z }.
Definition inert : Restorer := mk_restorer None kSwitchOnDisabled None false None None.
Definition restoreMode (m : Z) (resting : Cia402.State) (r : Restorer) : Restorer :=
  mk_restorer (Some m) resting (brake_ r) (disarmChirp_ r) (profile_ r) (targetVelocity_ r).
Definition restoreBrake (b : Z) (r : Restorer) : Restorer :=
  mk_restorer (mode_ r) (resting_ r) (Some b) (disarmChirp_ r) (profile_ r) (targetVelocity_ r).
Definition disarmChirp (r : Restorer) : Restorer :=
  mk_restorer (mode_ r) (resting_ r) (brake_ r) true (profile_ r) (targetVelocity_ r).
Definition restoreProfile (a d : Z) (r : Restorer) : Restorer :=
  mk_restorer (mode_ r) (resting_ r) (brake_ r) (disarmChirp_ r) (Some (a, d)) (targetVelocity_ r).
Definition restoreTargetVelocity (v : Z) (r : Restorer) : Restorer :=
  mk_restorer (mode_ r) (resting_ r) (brake_ r) (disarmChirp_ r) (profile_ r) (Some v).

Definition is_inert (r : Restorer) : bool :=
  match mode_ r, brake_ r, disarmChirp_ r, profile_ r, targetVelocity_ r with None, None, false, None, None => true | _, _, _, _, _ => false end.

Definition kRestoreStep : string := "restore".

Definition show (l : Util.text) : string := fold_right (fun c s => String (Ascii.ascii_of_nat (Z.to_nat c)) s) "" l.

(** The lambda [note]: one more failure. *)
Definition note (failures what : string) : string := if String.eqb failures "" then what else failures +:+ "; " +:+ what.
Definition noted (failures what : string) (m : fallible unit) : script answer string :=
  bind m (fun r => Ret match r with Value _ => failures | Unexpected e => note failures (what +:+ e) end).

Definition restore_mode (m : Z) (failures : string) : script answer (string * list string) :=
  if m =? 0 then
    bind (call (SetOperationModeValue 0)) (fun r =>
      match r with
      | Unexpected e => Ret (note failures ("failed to restore operation mode 0: " +:+ e), [])
      | Value _ => bind (call OperationModeValueDisplay) (fun shown => Ret (failures,
          match shown with
          | Value v => if v =? 0 then [] else
              ["the drive was in no operation mode, and a SOMANET drive cannot be returned to none, so it stays in mode " +:+ pretty v]
          | Unexpected _ => []
          end))
      end)
  else bind (noted failures ("failed to restore operation mode " +:+ pretty m +:+ ": ") (call (ApplyOperationMode m))) (fun f => Ret (f, [])).

(** The destructor. *)
Definition restore (r : Restorer) : script answer unit :=
  if is_inert r then Ret tt
  else
    bind (start kRestoreStep) (fun _ =>
    bind (if disarmChirp_ r then noted "" "failed to disarm the chirp: " (call (SetSystemIdentificationParameter kStartProcedure 0 None)) else Ret "") (fun f =>
    bind (match brake_ r with Some b => noted f "failed to restore the brake: " (setBrakeStatus b) | None => Ret f end) (fun f =>
    bind (match mode_ r with
          | Some m =>
              bind (if bool_decide (resting_ r = kSwitchOnDisabled) then noted f "failed to return the drive to Switch On Disabled: " (call Disable)
                    else noted f ("failed to return the drive to " +:+ show (Cia402.state_name (resting_ r)) +:+ ": ") (call (TransitionToState (resting_ r))))
                (restore_mode m)
          | None => Ret (f, [])
          end) (fun '(f, notes) =>
    bind (match targetVelocity_ r with Some v => noted f "failed to restore the target velocity: " (call (SetTargetVelocity v)) | None => Ret f end) (fun f =>
    bind (match profile_ r with
          | Some (a, d) => bind (noted f "failed to restore the profile acceleration: " (call (SetProfileAcceleration a)))
                             (fun f => noted f "failed to restore the profile deceleration: " (call (SetProfileDeceleration d)))
          | None => Ret f
          end) (fun f =>
    if String.eqb f "" then succeed kRestoreStep (match notes with [] => JNull | _ => JFields [("notes", FTexts notes)] end)
    else fail kRestoreStep f)))))).

(** ** Bodies: calls with the restorer they arm *)
Definition proc (A : Type) : Type := Restorer -> script answer (Restorer * expected string A).
Definition ret {A} (a : A) : proc A := fun r => Ret (r, Value a).
Definition throw {A} (e : string) : proc A := fun r => Ret (r, Unexpected e).
Definition pbind {A B} (m : proc A) (k : A -> proc B) : proc B :=
  fun r => bind (m r) (fun '(r, x) => match x with Value a => k a r | Unexpected e => Ret (r, Unexpected e) end).
Definition lift {A} (s : script answer A) : proc A := fun r => bind s (fun a => Ret (r, Value a)).
Definition arm (f : Restorer -> Restorer) : proc unit := fun r => Ret (f r, Value tt).

(** A call that fails its step and ends the body when it does not succeed. *)
Definition attempt {A} (step : string) (m : fallible A) : proc A :=
  pbind (lift m) (fun x => match x with Value a => ret a | Unexpected e => pbind (lift (fail step e)) (fun _ => throw e) end).
Definition explained (why : string) {A} (m : fallible A) : fallible A :=
  bind m (fun x => Ret match x with Value a => Value a | Unexpected e => Unexpected (why +:+ e) end).

Definition cancelled (what : string) : string := what +:+ " was cancelled".
Definition unless_stopped (what : string) : proc unit :=
  pbind (lift (call StopRequested)) (fun stop : bool => if stop then throw (cancelled what) else ret tt).

Definition kPrepareStep : string := "prepare".
Definition kReleaseBrakeStep : string := "release-brake".
Definition kSetBrakeStep : string := "set-brake".
Definition kOpenPhaseDetectionStep : string := "open-phase-detection".
Definition kPolePairDetectionStep : string := "pole-pair-detection".
Definition kMotorPhaseOrderDetectionStep : string := "motor-phase-order-detection".
Definition kCommutationOffsetMeasurementStep : string := "commutation-offset-measurement".
Definition kPhaseResistanceMeasurementStep : string := "phase-resistance-measurement".
Definition kPhaseInductanceMeasurementStep : string := "phase-inductance-measurement".
Definition kTorqueConstantMeasurementStep : string := "torque-constant-measurement".

Definition kDiagnostics : Z := -2.
Definition kSettle : Z := 50.

Definition prepareForDiagnostics : proc unit :=
  pbind (lift (start kPrepareStep)) (fun _ =>
  pbind (attempt kPrepareStep (call OperationModeValue)) (fun savedMode =>
  pbind (attempt kPrepareStep (call (SetOperationModeValue kDiagnostics))) (fun _ =>
  pbind (arm (restoreMode savedMode kSwitchOnDisabled)) (fun _ =>
  pbind (attempt kPrepareStep (explained "the drive did not reach Operation Enabled, which the command requires: " (call Enable))) (fun _ =>
  lift (succeed kPrepareStep JNull)))))).

Definition releaseBrakeForDiagnostics : proc unit :=
  pbind (lift (start kReleaseBrakeStep)) (fun _ =>
  pbind (attempt kReleaseBrakeStep brakeStatus) (fun savedBrake =>
  pbind (arm (restoreBrake savedBrake)) (fun _ =>
  pbind (attempt kReleaseBrakeStep (releaseBrake kSettle)) (fun brake =>
  lift (succeed kReleaseBrakeStep (JBrake brake)))))).

Definition confirmStillEnabled : fallible unit :=
  bind (call ReadState) (fun x =>
    match x with
    | Unexpected e => Ret (Unexpected ("could not confirm the drive is still enabled: " +:+ e))
    | Value s =>
        if bool_decide (s = Cia402.kOperationEnabled) then Ret (Value tt)
        else
          let reason := "the drive left Operation Enabled and is now in " +:+ show (Cia402.state_name s) +:+ ", so the command was not issued" in
          if bool_decide (s = Cia402.kFault) || bool_decide (s = Cia402.kFaultReactionActive) then
            bind (call ErrorReport) (fun report => Ret (Unexpected
              match report with
              | Value t => if String.eqb t "" then reason else reason +:+ " (drive error report: " +:+ t +:+ ")"
              | Unexpected _ => reason
              end))
          else Ret (Unexpected reason)
    end).

Definition compositeStep {A} (to_json : A -> json) (step what : string) (run : fallible A) : proc unit :=
  pbind (unless_stopped what) (fun _ =>
  pbind (lift (start step)) (fun _ =>
  pbind (attempt step confirmStillEnabled) (fun _ =>
  pbind (attempt step run) (fun result =>
  lift (succeed step (to_json result)))))).

(** The scope of a [DriveRestorer]: its destructor runs on every way out. *)
Definition with_restorer (body : proc unit) : fallible unit :=
  bind (body inert) (fun '(r, x) => bind (restore r) (fun _ => Ret x)).

(** [MeasurementProcedure]; the name is only logged. *)
Record MeasurementProcedure := mk_measurement { m_step : string; m_what : string; m_releaseBrake : bool; m_timeout : Z }.

Definition runMeasurementProcedure (spec : MeasurementProcedure) (measure : OsCommandConfig -> fallible J) : fallible unit :=
  try_ (call CreateSomanetDrive) (fun _ => with_restorer (
    pbind prepareForDiagnostics (fun _ =>
    pbind (unless_stopped (m_what spec)) (fun _ =>
    pbind (if m_releaseBrake spec then pbind releaseBrakeForDiagnostics (fun _ => unless_stopped (m_what spec)) else ret tt) (fun _ =>
    pbind (lift (start (m_step spec))) (fun _ =>
    pbind (attempt (m_step spec) (measure (mk_config (m_timeout spec) 100 true))) (fun result =>
    lift (succeed (m_step spec) (JResult result))))))))).

Definition command_call (c : command) (config : OsCommandConfig) : fallible J := call (Command c config).

(** A check that ran and found an open phase fails its step. *)
Definition open_phase_checked : proc unit :=
  pbind (attempt kOpenPhaseDetectionStep (call (OpenPhaseDetection (mk_config 10000 100 true)))) (fun result =>
  if phaseOpened result then pbind (lift (fail kOpenPhaseDetectionStep (describe result))) (fun _ => throw (describe result))
  else lift (succeed kOpenPhaseDetectionStep (JResult (open_json result)))).

Definition runOpenPhaseDetectionProcedure : fallible unit :=
  try_ (call CreateSomanetDrive) (fun _ => with_restorer (
    pbind prepareForDiagnostics (fun _ =>
    pbind (unless_stopped "open phase detection") (fun _ =>
    pbind (lift (start kOpenPhaseDetectionStep)) (fun _ => open_phase_checked))))).

Definition runPolePairDetectionProcedure : fallible unit :=
  runMeasurementProcedure (mk_measurement kPolePairDetectionStep "pole pair detection" true 60000) (command_call PolePairDetection).
Definition runMotorPhaseOrderDetectionProcedure : fallible unit :=
  runMeasurementProcedure (mk_measurement kMotorPhaseOrderDetectionStep "motor phase order detection" true 60000) (command_call MotorPhaseOrderDetection).
Definition runPhaseResistanceMeasurementProcedure : fallible unit :=
  runMeasurementProcedure (mk_measurement kPhaseResistanceMeasurementStep "phase resistance measurement" false 30000) (command_call PhaseResistanceMeasurement).
Definition runPhaseInductanceMeasurementProcedure : fallible unit :=
  runMeasurementProcedure (mk_measurement kPhaseInductanceMeasurementStep "phase inductance measurement" false 30000) (command_call PhaseInductanceMeasurement).
Definition runTorqueConstantMeasurementProcedure : fallible unit :=
  runMeasurementProcedure (mk_measurement kTorqueConstantMeasurementStep "torque constant measurement" true 60000) (command_call TorqueConstantMeasurement).

Definition requiresBrakeReleased (m : option CommutationOffsetMethod) : bool :=
  match m with Some kStationary => false | _ => true end.

Definition runCommutationOffsetMeasurementProcedure : fallible unit :=
  try_ (call CreateSomanetDrive) (fun _ =>
  try_ (call CommutationMethod) (fun method =>
  runMeasurementProcedure (mk_measurement kCommutationOffsetMeasurementStep "commutation offset measurement" (requiresBrakeReleased method) 60000)
    (command_call (CommutationOffsetMeasurement method)))).

Definition kWhat : string := "offset detection".

Definition offset_command (step : string) (c : command) (ms : Z) : proc unit :=
  compositeStep JResult step kWhat (command_call c (mk_config ms 100 true)).

Definition runOffsetDetectionProcedure : fallible unit :=
  try_ (call CreateSomanetDrive) (fun _ =>
  try_ (call CommutationMethod) (fun method => with_restorer (
    pbind prepareForDiagnostics (fun _ =>
    pbind (unless_stopped kWhat) (fun _ =>
    pbind (lift (start kOpenPhaseDetectionStep)) (fun _ =>
    pbind (attempt kOpenPhaseDetectionStep confirmStillEnabled) (fun _ =>
    pbind open_phase_checked (fun _ =>
    pbind (offset_command kPhaseResistanceMeasurementStep PhaseResistanceMeasurement 30000) (fun _ =>
    pbind (offset_command kPhaseInductanceMeasurementStep PhaseInductanceMeasurement 30000) (fun _ =>
    pbind releaseBrakeForDiagnostics (fun _ =>
    pbind (offset_command kPolePairDetectionStep PolePairDetection 60000) (fun _ =>
    pbind (offset_command kMotorPhaseOrderDetectionStep MotorPhaseOrderDetection 60000) (fun _ =>
    pbind (unless_stopped kWhat) (fun _ =>
    pbind (lift (start kSetBrakeStep)) (fun _ =>
    pbind (attempt kSetBrakeStep (if requiresBrakeReleased method then releaseBrake kSettle else engageBrake kSettle)) (fun brake =>
    pbind (lift (succeed kSetBrakeStep (JBrake brake))) (fun _ =>
    offset_command kCommutationOffsetMeasurementStep (CommutationOffsetMeasurement method) 60000))))))))))))))))).

(** ** Procedures of one command each *)
Definition simple (step : string) {A} (m : fallible A) (payload : A -> json) : fallible unit :=
  try_ (call CreateSomanetDrive) (fun _ =>
  bind (start step) (fun _ =>
  bind m (fun x =>
    match x with
    | Unexpected e => bind (fail step e) (fun _ => Ret (Unexpected e))
    | Value a => bind (succeed step (payload a)) (fun _ => Ret (Value tt))
    end))).

Definition kEncoderRegisterTimeout : Z := 5000.
Definition kEncoderRegisterPollInterval : Z := 20.
Definition register_config : OsCommandConfig := mk_config kEncoderRegisterTimeout kEncoderRegisterPollInterval true.

Definition os_error_reason (r : Os.OsCommandResponse) : string :=
  match Os.errorCode r with
  | Some c => match Os.osCommandErrorName c with
              | Some n => "OS error " +:+ pretty c +:+ " (" +:+ n +:+ ")"
              | None => "OS error " +:+ pretty c +:+ " (command-specific)"
              end
  | None => "the drive reported an error with no code"
  end.

(** [OsCommandRequest]; the last part is the bulk data: its direction and payload. *)
Record OsCommandRequest := mk_os_request { o_command : list Z; o_timeout : Z; o_pollInterval : Z; o_fsBuffer : bool * list Z }.

Definition runOsCommandProcedure (q : OsCommandRequest) : fallible unit :=
  simple "command"
    (bind (call (RunOsCommand (o_command q) (mk_config (o_timeout q) (o_pollInterval q) true) (o_fsBuffer q))) (fun x => Ret
      match x with
      | Unexpected e => Unexpected e
      | Value r => if Os.failed r then Unexpected (os_error_reason r) else Value r
      end)) JOsResult.

Record EncoderRegisterRequest := mk_register_request { e_ordinal : Z; e_address : Z; e_write : bool; e_value : Z }.
Definition runEncoderRegisterProcedure (q : EncoderRegisterRequest) : fallible unit :=
  simple "register-access"
    (command_call (if e_write q then WriteEncoderRegister (e_ordinal q) (e_address q) (e_value q) else ReadEncoderRegister (e_ordinal q) (e_address q)) register_config)
    JResult.

Definition mode_token (m : IcMuCalibrationMode) : string :=
  match m with kConfiguration => "configuration" | kRaw => "raw" | kStandard => "standard" end.
Definition runIcMuCalibrationModeProcedure (ordinal : Z) (m : IcMuCalibrationMode) : fallible unit :=
  simple "set-mode" (command_call (SetIcMuCalibrationMode ordinal m) register_config)
    (fun _ => JFields [("encoderOrdinal", FNumber ordinal); ("mode", FText (mode_token m))]).

Definition runKueblerRegisterProcedure (address length : Z) (write : bool) (v : Z) : fallible unit :=
  simple "register-access" (command_call (AccessKueblerRegister address length write v) register_config) JResult.

Definition source_token (v : VelocitySource) : string := match v with kFirmware => "firmware" | kEncoder => "encoder" end.
Definition runVelocitySourceProcedure (v : VelocitySource) : fallible unit :=
  simple "set-source" (command_call (SetVelocitySource v) register_config) (fun _ => JFields [("source", FText (source_token v))]).

Definition runTriggerErrorProcedure (s : FirmwareService) (e : Z) : fallible unit :=
  simple "trigger" (command_call (TriggerError s e) (mk_config 3000 kEncoderRegisterPollInterval true)) JResult.
Definition runIgnoreBissStatusBitsProcedure (ordinal : Z) (ignore : bool) : fallible unit :=
  simple "set-ignore" (command_call (SetIgnoreBissStatusBits ordinal ignore) (mk_config 30000 kEncoderRegisterPollInterval true))
    (fun _ => JFields [("encoderOrdinal", FNumber ordinal); ("ignore", FBool ignore)]).
Definition runSkippedCyclesProcedure (s : FirmwareService) : fallible unit :=
  simple "read-counter" (command_call (ReadSkippedCycles s) (mk_config 30000 kEncoderRegisterPollInterval true)) JResult.
Definition runReadObjectDictionaryProcedure : fallible unit :=
  simple "read-dictionary" (command_call ReadObjectDictionaryValues (mk_config 30000 20 true)) JResult.

(** ** Procedures of several commands *)

(** One reported step of such a body. *)
Definition reported {A} (step : string) (m : fallible A) (payload : A -> json) (k : fallible unit) : fallible unit :=
  bind (start step) (fun _ =>
  bind m (fun x =>
    match x with
    | Unexpected e => bind (fail step e) (fun _ => Ret (Unexpected e))
    | Value a => bind (succeed step (payload a)) (fun _ => k)
    end)).

Definition kHrdConfigureStep : string := "configure-stream".
Definition kHrdRecordStep : string := "record".
Definition kHrdConfigureTimeout : Z := 10000.
Definition kHrdRecordMargin : Z := 5000.
Definition kHrdPollInterval : Z := 100.
Definition data_token (d : HrdData) : string := match d with kEncoderRawData => "encoder-raw" | kSystemIdentificationData => "system-identification" end.

Definition runHrdStreamingProcedure (d : HrdData) (duration : Z) : fallible unit :=
  try_ (call CreateSomanetDrive) (fun _ =>
  reported kHrdConfigureStep (command_call (ConfigureHrdStream d duration) (mk_config kHrdConfigureTimeout kHrdPollInterval true))
    (fun _ => JFields [("data", FText (data_token d)); ("durationMs", FNumber duration)])
  (reported kHrdRecordStep (command_call StartHrdStream (mk_config (duration + kHrdRecordMargin) kHrdPollInterval true)) (fun _ => JNull)
  (Ret (Value tt)))).

(** [sleepUnlessStopped]: slices of 50 ms, each after a look at the stop token; [fuel] bounds the slices. *)
Definition kSlice : Z := 50.
Fixpoint sleep_slices (fuel : nat) (remaining : Z) : script answer bool :=
  match fuel with
  | O => bind (call StopRequested) (fun stop : bool => Ret (negb stop))
  | S fuel =>
      if remaining <=? 0 then bind (call StopRequested) (fun stop : bool => Ret (negb stop))
      else bind (call StopRequested) (fun stop : bool =>
        if stop then Ret false
        else bind (call (SleepFor (Z.min kSlice remaining))) (fun _ => sleep_slices fuel (remaining - Z.min kSlice remaining)))
  end.
Definition sleepUnlessStopped (duration : Z) : script answer bool := sleep_slices (Z.to_nat duration) duration.

Inductive FirmwareLatencyAction := kMeasure | kStart | kReadMaximum | kStop.
Record FirmwareLatencyRequest := mk_latency { l_action : FirmwareLatencyAction; l_latency : FirmwareLatency; l_duration : Z }.
Definition latency_token (l : FirmwareLatency) : string := match l with kSetpoint => "setpoint" | kFeedback => "feedback" end.
Definition latency_config : OsCommandConfig := mk_config 30000 kEncoderRegisterPollInterval true.

Definition runFirmwareLatencyProcedure (q : FirmwareLatencyRequest) : fallible unit :=
  let starts := match l_action q with kMeasure | kStart => true | _ => false end in
  let measures := match l_action q with kMeasure => true | _ => false end in
  let reads := match l_action q with kMeasure | kReadMaximum => true | _ => false end in
  let stops := match l_action q with kStop => true | _ => false end in
  let when (c : bool) {A} (step : string) (m : fallible A) (payload : A -> json) (k : fallible unit) := if c then reported step m payload k else k in
  try_ (call CreateSomanetDrive) (fun _ =>
  when starts "start-measurement" (command_call (StartFirmwareLatency (l_latency q)) latency_config)
    (fun _ => JFields [("latency", FText (latency_token (l_latency q)))])
  (when measures "observe"
    (bind (sleepUnlessStopped (l_duration q)) (fun ok : bool => Ret
      (if ok then Value tt else Unexpected "the firmware latency measurement was cancelled while collecting")))
    (fun _ => JFields [("durationMs", FNumber (l_duration q))])
  (when reads "read-maximum" (command_call (ReadMaximumFirmwareLatency (l_latency q)) latency_config) JResult
  (when stops "stop-measurements" (command_call StopFirmwareLatency latency_config) (fun _ => JNull)
  (Ret (Value tt)))))).

Record SystemIdentificationRequest := mk_chirp {
  startFrequencyMilliHz : Z; targetFrequencyMilliHz : Z; targetAmplitudePermil : Z; transitionTimeMs : Z;
  signalType : ChirpSignalType; start_ : SystemIdentificationStart }.
Definition signal_value (t : ChirpSignalType) : Z := match t with kLogarithmic => 0 | kLinear => 1 end.
Definition start_value (t : SystemIdentificationStart) : Z := match t with kNone => 0 | kImmediately => 1 | kAfterHrdStreamStart => 2 end.
Definition signal_token (t : ChirpSignalType) : string := match t with kLogarithmic => "logarithmic" | kLinear => "linear" end.
Definition start_token (t : SystemIdentificationStart) : string :=
  match t with kNone => "none" | kImmediately => "immediately" | kAfterHrdStreamStart => "after-hrd-stream-start" end.
Definition parameter_name (p : SystemIdentificationParameter) : string :=
  match p with
  | kStartFrequency => "start frequency" | kTargetFrequency => "target frequency" | kTargetAmplitude => "target amplitude"
  | kTransitionTime => "transition time" | kSignalType => "signal type" | kStartProcedure => "start the procedure"
  end.

Definition chirp_settings (q : SystemIdentificationRequest) : list (SystemIdentificationParameter * Z) :=
  [(kStartProcedure, start_value kNone); (kStartFrequency, startFrequencyMilliHz q); (kTargetFrequency, targetFrequencyMilliHz q);
   (kTargetAmplitude, targetAmplitudePermil q); (kTransitionTime, transitionTimeMs q); (kSignalType, signal_value (signalType q))].

Fixpoint write_settings (l : list (SystemIdentificationParameter * Z)) (config : OsCommandConfig) (what : string) : fallible unit :=
  match l with
  | [] => Ret (Value tt)
  | (p, v) :: l =>
      bind (call StopRequested) (fun stop : bool =>
        if stop then Ret (Unexpected (what +:+ " was cancelled after " +:+ parameter_name p))
        else try_ (call (SetSystemIdentificationParameter p v (Some config))) (fun _ => write_settings l config what))
  end.
Definition writeChirpSettings (q : SystemIdentificationRequest) (config : OsCommandConfig) (what : string) : fallible unit :=
  write_settings (chirp_settings q) config what.

Definition chirpSettingsJson (q : SystemIdentificationRequest) : json :=
  JFields [("startFrequencyMilliHz", FNumber (startFrequencyMilliHz q)); ("targetFrequencyMilliHz", FNumber (targetFrequencyMilliHz q));
    ("targetAmplitudePermil", FNumber (targetAmplitudePermil q)); ("transitionTimeMs", FNumber (transitionTimeMs q));
    ("signalType", FText (signal_token (signalType q)))].

Definition runSystemIdentificationProcedure (q : SystemIdentificationRequest) : fallible unit :=
  try_ (call CreateSomanetDrive) (fun _ =>
  reported "configure-chirp" (writeChirpSettings q register_config "system identification") (fun _ => chirpSettingsJson q)
  (reported "arm" (call (SetSystemIdentificationParameter kStartProcedure (start_value (start_ q)) (Some register_config)))
    (fun _ => JFields [("start", FText (start_token (start_ q)))])
  (Ret (Value tt)))).

(** ** The order of what is done to the drive *)

(** [Untouched], in diagnostics mode, enabled there, putting back, disabled again; [Wrong] is for ever. *)
Inductive phase := Untouched | InDiagnostics | Ready | Restoring | Disabled | Wrong.
Record order := mk_order { at_ : phase; stopped : bool; confirmed : bool; blind : bool }.

Definition to (m : order) (p : phase) : order := mk_order p (stopped m) false (blind m).
Definition issue (m : order) : order :=
  match at_ m with
  | Ready => if stopped m then to m Wrong else mk_order Ready false false (blind m || negb (confirmed m))
  | _ => to m Wrong
  end.

Definition watch_order (m : order) (e : event answer) : order :=
  let 'existT o x := e in
  (match o return answer o -> order with
   | StopRequested => fun b => mk_order (at_ m) (stopped m || b) false (blind m)
   | ReadState => fun r => mk_order (at_ m) (stopped m) (match r with Value s => bool_decide (s = Cia402.kOperationEnabled) | _ => false end) (blind m)
   | SetOperationModeValue v => fun r =>
       match at_ m with
       | Untouched => if v =? kDiagnostics then to m (if has_value r then InDiagnostics else Untouched) else to m Wrong
       | Disabled => to m (if v =? 0 then Disabled else Wrong)
       | _ => to m Wrong
       end
   | Enable => fun r => match at_ m with InDiagnostics => to m (if has_value r then Ready else InDiagnostics) | _ => to m Wrong end
   | OpenPhaseDetection _ => fun _ => issue m
   | Command _ _ => fun _ => issue m
   | RunOsCommand _ _ _ => fun _ => issue m
   | WriteObject _ _ _ => fun _ => match at_ m with Ready => to m (if stopped m then Wrong else Ready) | Restoring => to m Restoring | _ => to m Wrong end
   | Report (Start i) => fun _ =>
       if String.eqb i kRestoreStep then match at_ m with InDiagnostics | Ready => to m Restoring | _ => to m Wrong end else to m (at_ m)
   | Disable => fun _ => match at_ m with Restoring => to m Disabled | _ => to m Wrong end
   | ApplyOperationMode _ => fun _ => match at_ m with Disabled => to m Disabled | _ => to m Wrong end
   | TransitionToState _ | SetSystemIdentificationParameter _ _ _ | SetTargetVelocity _ | SetProfileAcceleration _ | SetProfileDeceleration _ =>
       fun _ => to m Wrong
   | _ => fun _ => to m (at_ m)
   end) x.

Definition diagnostics_procedures : list (fallible unit) :=
  [runOpenPhaseDetectionProcedure; runPolePairDetectionProcedure; runMotorPhaseOrderDetectionProcedure; runOffsetDetectionProcedure;
   runCommutationOffsetMeasurementProcedure; runPhaseResistanceMeasurementProcedure; runPhaseInductanceMeasurementProcedure;
   runTorqueConstantMeasurementProcedure].

Definition watching : order := mk_order Untouched false false false.

Definition settled (m : order) : Prop := at_ m = Untouched \/ at_ m = Disabled.


(** Walks through the calls of a script with a monitor whose state is known. *)
Ltac answers x :=
  cbn [answer] in x;
  lazymatch type of x with
  | unit => destruct x
  | bool => destruct x
  | expected _ Cia402.State => destruct x as [[]|?]
  | expected _ (option CommutationOffsetMethod) => destruct x as [[[]|]|?]
  | expected _ unit => destruct x as [[]|?]
  | expected _ OpenPhaseResult => destruct x as [[[] ? ?]|?]
  | expected _ _ => destruct x as [?|?]
  | _ => idtac
  end.
Ltac seen_step :=
  lazymatch goal with
  | |- seen _ (restore _) _ _ => fail
  | |- seen _ (match ?x with Value _ => _ | Unexpected _ => _ end) _ _ => destruct x; cbv beta iota
  | |- seen _ (match ?x with Value _ => _ | Unexpected _ => _ end _) _ _ => destruct x; cbv beta iota
  | |- _ => seen_step_with answers
  end.

Definition armed (m : Z) (b : option Z) : Restorer := mk_restorer (Some m) kSwitchOnDisabled b false None None.

Lemma restore_ordered m b p s c bl Q : p = InDiagnostics \/ p = Ready ->
  (forall s c, Q tt (mk_order Disabled s c bl)) -> seen watch_order (restore (armed m b)) (mk_order p s c bl) Q.
Proof.
  intros Hp HQ. unfold restore, restore_mode. destruct b as [b|]; destruct Hp as [-> | ->]; cbn [is_inert armed mode_ brake_ resting_ disarmChirp_ profile_ targetVelocity_].
  all: repeat (seen_step; cbn [is_inert armed mode_ brake_ resting_ disarmChirp_ profile_ targetVelocity_]); apply HQ.
Qed.

(** The restorer as the body left it. *)
Ltac left_armed lem :=
  lazymatch goal with |- seen _ (restore ?r) _ _ =>
    let r' := eval cbv [restoreMode restoreBrake inert mode_ brake_ resting_ disarmChirp_ profile_ targetVelocity_] in r in
    lazymatch r' with mk_restorer (Some ?m) _ ?b _ _ _ => change r with (armed m b); apply lem end end.
Ltac untouched := lazymatch goal with |- seen _ (restore inert) _ _ => cbn [restore is_inert inert mode_ brake_ disarmChirp_ profile_ targetVelocity_ seen] end.

Lemma brakeStatus_ordered p s c bl Q : (forall x c, Q x (mk_order p s c bl)) -> seen watch_order brakeStatus (mk_order p s c bl) Q.
Proof. intros HQ. repeat seen_step; apply HQ. Qed.
Lemma brakeState_ordered p s c bl Q : (forall x c, Q x (mk_order p s c bl)) -> seen watch_order brakeState (mk_order p s c bl) Q.
Proof. intros HQ. repeat seen_step; apply HQ. Qed.
Lemma setBrakeStatus_ordered b c bl Q : (forall x c, Q x (mk_order Ready false c bl)) -> seen watch_order (setBrakeStatus b) (mk_order Ready false c bl) Q.
Proof. intros HQ. repeat seen_step; apply HQ. Qed.

Ltac brake_step :=
  lazymatch goal with
  | |- seen _ brakeStatus _ _ => apply brakeStatus_ordered; intros [|] ?
  | |- seen _ brakeState _ _ => apply brakeState_ordered; intros [|] ?
  | |- seen _ (setBrakeStatus _) _ _ => apply setBrakeStatus_ordered; intros [|] ?
  end; cbv beta iota.

Lemma releaseBrake_ordered ms c bl Q : (forall x c, Q x (mk_order Ready false c bl)) -> seen watch_order (releaseBrake ms) (mk_order Ready false c bl) Q.
Proof. intros HQ. repeat (brake_step || seen_step); apply HQ. Qed.
Lemma engageBrake_ordered ms c bl Q : (forall x c, Q x (mk_order Ready false c bl)) -> seen watch_order (engageBrake ms) (mk_order Ready false c bl) Q.
Proof. intros HQ. repeat (brake_step || seen_step); apply HQ. Qed.
Lemma confirm_ordered c bl Q : Q (Value tt) (mk_order Ready false true bl) -> (forall e c, Q (Unexpected e) (mk_order Ready false c bl)) ->
  seen watch_order confirmStillEnabled (mk_order Ready false c bl) Q.
Proof. intros HQ HQ'. repeat seen_step; (exact HQ || apply HQ'). Qed.

Ltac order_step :=
  first [lazymatch goal with
  | |- seen _ brakeStatus _ _ => apply brakeStatus_ordered; intros [|] ?
  | |- seen _ (releaseBrake _) _ _ => apply releaseBrake_ordered; intros [|] ?
  | |- seen _ (engageBrake _) _ _ => apply engageBrake_ordered; intros [|] ?
  | |- seen _ confirmStillEnabled _ _ => apply confirm_ordered; [|intros]
  end; cbv beta iota | seen_step | untouched].

Ltac ordered :=
  repeat order_step; first [left_armed restore_ordered; [auto|intros; cbn; auto] | cbn; auto].

Ltac listed := apply (bool_decide_unpack _); by vm_compute.

Definition measured_steps : list string :=
  [kPolePairDetectionStep; kMotorPhaseOrderDetectionStep; kPhaseResistanceMeasurementStep; kPhaseInductanceMeasurementStep;
   kTorqueConstantMeasurementStep; kCommutationOffsetMeasurementStep].

Lemma measurement_ordered step what b ms c : step ∈ measured_steps ->
  seen watch_order (runMeasurementProcedure (mk_measurement step what b ms) (command_call c)) watching (fun _ m => settled m).
Proof.
  unfold measured_steps. rewrite !elem_of_cons, elem_of_nil. intros [->|[->|[->|[->|[->|[->|[]]]]]]];
  unfold runMeasurementProcedure, settled; destruct b; ordered.
Qed.

Lemma commutation_ordered : seen watch_order runCommutationOffsetMeasurementProcedure watching (fun _ m => settled m).
Proof.
  unfold runCommutationOffsetMeasurementProcedure, settled.
  repeat lazymatch goal with
  | |- seen _ (runMeasurementProcedure _ _) _ _ => apply measurement_ordered; listed
  | |- _ => order_step
  end; auto.
Qed.
Lemma open_phase_ordered : seen watch_order runOpenPhaseDetectionProcedure watching (fun _ m => settled m).
Proof. unfold runOpenPhaseDetectionProcedure, settled. ordered. Qed.
Lemma offset_ordered : seen watch_order runOffsetDetectionProcedure watching (fun _ m => settled m /\ blind m = false).
Proof. unfold runOffsetDetectionProcedure, settled. ordered. Qed.

Lemma procedures_ordered p : p ∈ diagnostics_procedures -> seen watch_order p watching (fun _ m => settled m).
Proof.
  unfold diagnostics_procedures. rewrite !elem_of_cons, elem_of_nil.
  intros [->|[->|[->|[->|[->|[->|[->|[->|[]]]]]]]]]; 
    [apply open_phase_ordered|apply measurement_ordered; listed|apply measurement_ordered; listed| |apply commutation_ordered|apply measurement_ordered; listed..].
  eapply seen_mono; [|exact offset_ordered]. cbv beta. tauto.
Qed.


(** ** What a run leaves behind *)

(** The drive as the procedures change it: the operation mode, the brake object if there is one, and
    whether it is enabled. A call that fails may have had its effect or not, a drive may leave Operation
    Enabled at any time, mode 0 keeps the mode, and in diagnostics mode only a write moves the brake. *)
Record drive := mk_drive { d_mode : Z; d_brake : Z; d_hasBrake : bool; d_enabled : bool }.

Definition may_drop (d d' : drive) : Prop := d_enabled d' = true -> d_enabled d = true.
Definition quiet (d d' : drive) : Prop := d_mode d' = d_mode d /\ d_brake d' = d_brake d /\ may_drop d d'.
Definition adopt (d : drive) (m : Z) : Z := if m =? 0 then d_mode d else m.
Definition mode_set (m : Z) (ok : bool) (d d' : drive) : Prop :=
  d_brake d' = d_brake d /\ may_drop d d' /\ if ok then d_mode d' = adopt d m else d_mode d' = d_mode d \/ d_mode d' = adopt d m.

Definition acts (e : event answer) (d d' : drive) : Prop :=
  d_hasBrake d' = d_hasBrake d /\
  let 'existT o x := e in
  (match o return answer o -> Prop with
   | OperationModeValue => fun r => quiet d d' /\ match r with Value v => v = d_mode d | Unexpected _ => True end
   | SetOperationModeValue m => fun r => mode_set m (has_value r) d d'
   | ApplyOperationMode m => fun r => mode_set m (has_value r) d d'
   | Enable => fun _ => d_mode d' = d_mode d /\ d_brake d' = d_brake d
   | Disable => fun r => quiet d d' /\ (has_value r = true -> d_enabled d' = false)
   | TransitionToState s => fun r => d_mode d' = d_mode d /\ d_brake d' = d_brake d /\
       (has_value r = true -> d_enabled d' = true -> s = Cia402.kOperationEnabled)
   | HasBrakeObject => fun b => quiet d d' /\ b = d_hasBrake d
   | ReadObject i s => fun r => quiet d d' /\
       (i = kBrakeOptions -> s = kBrakeStatus -> match r with Value v => v = d_brake d | Unexpected _ => True end)
   | WriteObject i s v => fun r => d_mode d' = d_mode d /\ may_drop d d' /\
       if (i =? kBrakeOptions) && (s =? kBrakeStatus) && d_hasBrake d then (if has_value r then d_brake d' = v else d_brake d' = d_brake d \/ d_brake d' = v)
       else d_brake d' = d_brake d
   | _ => fun _ => quiet d d'
   end) x.

Definition is_restore_start (e : event answer) : bool :=
  match projT1 e with Report (Start i) => String.eqb i kRestoreStep | _ => false end.
Definition is_restore_success (e : event answer) : bool :=
  match projT1 e with Report (Succeed i _) => String.eqb i kRestoreStep | _ => false end.
Definition is_enable (e : event answer) : bool := match projT1 e with Enable => true | _ => false end.
(** A write of the diagnostics mode that failed. *)
Definition is_mode_refused (e : event answer) : bool :=
  let 'existT o x := e in
  (match o return answer o -> bool with SetOperationModeValue m => fun r => (m =? kDiagnostics) && negb (has_value r) | _ => fun _ => false end) x.

Definition brake_kept (d0 : drive) (b : option Z) (d : drive) : Prop :=
  match b with
  | None => d_brake d = d_brake d0
  | Some v => if d_hasBrake d0 then v = d_brake d0 else d_brake d = d_brake d0
  end.

Ltac wp_step :=
  lazymatch goal with
  | |- wp _ (match ?x with Value _ => _ | Unexpected _ => _ end) _ _ _ => destruct x; cbv beta iota
  | |- wp _ (match ?x with Value _ => _ | Unexpected _ => _ end _) _ _ _ => destruct x; cbv beta iota
  | |- _ => wp_step_with answers ltac:(fun H => cbv [acts ev quiet mode_set may_drop has_value brake_kept] in H; cbv beta iota in H)
  end.

Ltac flags :=
  rewrite ?existsb_app;
  repeat lazymatch goal with |- context [existsb ?p [?e]] => let b := eval lazy in (existsb p [e]) in change (existsb p [e]) with b end.

Ltac off_last := split_and!; [congruence..|];
  lazymatch goal with |- d_enabled ?x = false => destruct (d_enabled x) eqn:?; [|done] end; exfalso; naive_solver congruence.

Lemma restore_puts_back d0 b h d : d_mode d0 <> 0 -> d_hasBrake d = d_hasBrake d0 -> brake_kept d0 b d -> existsb is_restore_success h = false ->
  wp acts (restore (armed (d_mode d0) b)) h d (fun _ h' d' => existsb is_restore_start h' = true /\
    (existsb is_restore_success h' = true -> d_mode d' = d_mode d0 /\ d_brake d' = d_brake d0 /\ d_enabled d' = false)).
Proof.
  intros Hm Hh Hb Hs. unfold restore, restore_mode. cbn [is_inert armed mode_ brake_ resting_ disarmChirp_ profile_ targetVelocity_].
  rewrite (proj2 (Z.eqb_neq _ _) Hm). destruct b as [b|];
  repeat (wp_step; cbn [is_inert armed mode_ brake_ resting_ disarmChirp_ profile_ targetVelocity_]).
  all: flags; rewrite ?Hs, ?orb_true_r, ?orb_false_r; (split; [done|]); try done; intros _; unfold adopt in *; rewrite ?(proj2 (Z.eqb_neq _ _) Hm) in *.
  all: cbn [brake_kept] in Hb; destruct_and?; destruct (d_hasBrake d0) eqn:E0; try congruence;
    try (lazymatch goal with H : context [_ && d_hasBrake ?x] |- _ => replace (d_hasBrake x) with true in H by congruence end); cbn in *; off_last.
Qed.

(** ** The bodies *)
Section Run.
Context (d0 : drive).

(** Armed with the mode that was found and, once the brake was read, its status. *)
Definition armed_state (b : option Z) (r : Restorer) (h : trace) (d : drive) : Prop :=
  r = armed (d_mode d0) b /\ brake_kept d0 b d /\ d_hasBrake d = d_hasBrake d0 /\
  existsb is_restore_start h = false /\ existsb is_restore_success h = false.

Definition not_restore (i : string) : Prop := String.eqb i kRestoreStep = false.

(** Calls that keep it: no brake write while the brake's restore is not armed, no report of the restore. *)
Definition plain (b : option Z) (o : op) : Prop :=
  match o with
  | WriteObject _ _ _ => b <> None
  | Report (Start i) => not_restore i
  | Report (Succeed i _) => not_restore i
  | _ => True
  end.

Lemma plain_kept b r o x h d d' : plain b o -> armed_state b r h d -> acts (ev o x) d d' -> armed_state b r (h ++ [ev o x]) d'.
Proof.
  intros Hp (-> & Hb & Hh & H1 & H2) [Hh' Ha]. unfold armed_state.
  assert (Hk : brake_kept d0 b d').
  { assert (Hq : d_brake d' = d_brake d -> brake_kept d0 b d') by (intros E; destruct b; cbn in *; [destruct (d_hasBrake d0); [done|congruence]|congruence]).
    destruct o; cbn in Hp, Ha; unfold quiet, mode_set in *; destruct_and?; auto.
    destruct b as [v'|]; [|done]. cbn in *. destruct (d_hasBrake d0) eqn:E0; [done|]. rewrite Hh, andb_false_r in *. auto. }
  split_and!; [done..|congruence| |]; rewrite existsb_app; rewrite ?H1, ?H2; destruct o as [|[]| | | | | | | | | | | | | | | | | | | | | |]; cbn in *; try done; by rewrite Hp.
Qed.

Definition wpp {A} (m : proc A) (r : Restorer) (h : trace) (d : drive) (Q : Restorer -> expected string A -> trace -> drive -> Prop) : Prop :=
  wp acts (m r) h d (fun '(r, x) h d => Q r x h d).

Lemma wpp_bind {A B} (m : proc A) (k : A -> proc B) r h d Q :
  wpp m r h d (fun r x h d => match x with Value a => wpp (k a) r h d Q | Unexpected e => Q r (Unexpected e) h d end) -> wpp (pbind m k) r h d Q.
Proof. intros H. unfold wpp, pbind. apply wp_bind. eapply wp_mono; [|exact H]. intros [r' [a|e]] h' d'; done. Qed.

(** Bodies that keep the restorer armed as it is. *)
Definition keeps (b : option Z) {A} (m : proc A) : Prop :=
  forall r h d, armed_state b r h d -> wpp m r h d (fun r _ h d => armed_state b r h d).

Lemma held_lift b {A} (s : script answer A) : all_ops (plain b) s -> keeps b (lift s).
Proof.
  intros Ho r h d Hi. unfold wpp, lift. apply wp_bind. cbn [wp].
  apply (wp_all_ops acts (plain b) (armed_state b r)); [|done|done]. intros o x h' d' d'' Hp HI Ha. by eapply plain_kept.
Qed.
Lemma held_bind b {A B} (m : proc A) (k : A -> proc B) : keeps b m -> (forall a, keeps b (k a)) -> keeps b (pbind m k).
Proof. intros Hm Hk r h d Hi. apply wpp_bind. eapply wp_mono; [|exact (Hm r h d Hi)]. intros [r' [a|e]] h' d' HI; [by apply Hk|done]. Qed.
Lemma held_ret b {A} (a : A) : keeps b (ret a).
Proof. intros r h d Hi. exact Hi. Qed.
Lemma keeps_throw b {A} e : keeps b (throw e : proc A).
Proof. intros r h d Hi. exact Hi. Qed.
Lemma held_attempt b {A} step (m : fallible A) : all_ops (plain b) m -> keeps b (attempt step m).
Proof.
  intros Ho. apply held_bind; [by apply held_lift|]. intros [a|e]; [apply held_ret|]. apply held_bind; [by apply held_lift|intros ?; apply keeps_throw].
Qed.
Lemma keeps_unless b what : keeps b (unless_stopped what).
Proof. apply held_bind; [by apply held_lift|]. intros []; [apply keeps_throw|apply held_ret]. Qed.

Ltac all_plain := repeat all_ops_step.
Ltac kept :=
  repeat lazymatch goal with
  | |- keeps _ (pbind _ _) => apply held_bind; [|intros ?]
  | |- keeps _ (lift _) => apply held_lift; all_plain
  | |- keeps _ (attempt _ _) => apply held_attempt; all_plain
  | |- keeps _ (unless_stopped _) => apply keeps_unless
  | |- keeps _ (ret _) => apply held_ret
  | |- keeps _ (throw _) => apply keeps_throw
  | |- keeps _ (if ?b then _ else _) => destruct b
  | |- keeps _ ?t => let h := head_of t in progress unfold h
  end.

Lemma open_phase_keeps b : keeps b open_phase_checked.
Proof. kept. Qed.
Lemma offset_command_keeps b step c ms : not_restore step -> keeps b (offset_command step c ms).
Proof. intros Hs. kept. Qed.

(** How a body ends: nothing was changed, or the restorer is armed. *)
Definition ended (r : Restorer) (h : trace) (d : drive) : Prop :=
  (r = inert /\ d_brake d = d_brake d0 /\ (existsb is_mode_refused h = false -> d_mode d = d_mode d0) /\ may_drop d0 d /\
    existsb is_enable h = false /\ existsb is_restore_start h = false /\ existsb is_restore_success h = false) \/
  exists b, armed_state b r h d.

Lemma armed_ended b {A} (m : proc A) r h d : keeps b m -> armed_state b r h d -> wpp m r h d (fun r _ h d => ended r h d).
Proof. intros Hk Hi. eapply wp_mono; [|exact (Hk r h d Hi)]. intros [r' x] h' d' HI. right. by exists b. Qed.

(** No call so far changed anything. *)
Definition clean (h : trace) : Prop :=
  existsb is_mode_refused h = false /\ existsb is_enable h = false /\ existsb is_restore_start h = false /\ existsb is_restore_success h = false.

Lemma prepare_arms h d : clean h -> quiet d0 d -> d_hasBrake d = d_hasBrake d0 ->
  wpp prepareForDiagnostics inert h d (fun r x h d => match x with Value _ => armed_state None r h d | Unexpected _ => ended r h d end).
Proof.
  intros (F1 & F2 & F3 & F4) (Q1 & Q2 & Q3) Hh. unfold wpp. repeat wp_step; destruct_and?; subst.
  all: first [left; split; [done|] | try right; try exists None; split; [unfold armed, restoreMode, inert; f_equal; congruence|]].
  all: flags; rewrite ?F1, ?F2, ?F3, ?F4; cbn [orb brake_kept].
  all: unfold may_drop in *; split_and!; try done; try congruence; auto 10.
Qed.

Lemma wpp_mono {A} (m : proc A) r h d (Q Q' : Restorer -> expected string A -> trace -> drive -> Prop) :
  (forall r x h d, Q r x h d -> Q' r x h d) -> wpp m r h d Q -> wpp m r h d Q'.
Proof. intros H. apply wp_mono. intros [r' x] h' d'. apply H. Qed.

Lemma wpp_keeps b {A B} (m : proc A) (k : A -> proc B) r h d Q : keeps b m -> armed_state b r h d ->
  (forall r e h d, armed_state b r h d -> Q r (Unexpected e) h d) -> (forall a r h d, armed_state b r h d -> wpp (k a) r h d Q) -> wpp (pbind m k) r h d Q.
Proof. intros Hk Hi He Ha. apply wpp_bind. eapply wpp_mono; [|exact (Hk r h d Hi)]. intros r' [a|e] h' d' HI; auto. Qed.

Lemma brake_read r h d : armed_state None r h d ->
  wp acts brakeStatus h d (fun x h d => armed_state None r h d /\ match x with Value v => brake_kept d0 (Some v) d | Unexpected _ => True end).
Proof.
  intros Hi. pose proof Hi as (-> & Hb & Hh & F1 & F2). cbn [brake_kept] in Hb.
  unfold brakeStatus. repeat wp_step; destruct_and?; subst; unfold armed_state; flags; rewrite ?F1, ?F2; cbn [brake_kept orb].
  all: split_and!; try done; try congruence; destruct (d_hasBrake d0); try congruence; rewrite H2 by done; congruence.
Qed.

Lemma release_arms r h d : armed_state None r h d ->
  wpp releaseBrakeForDiagnostics r h d (fun r x h d => match x with Value _ => exists v, armed_state (Some v) r h d | Unexpected _ => ended r h d end).
Proof.
  intros Hi. unfold releaseBrakeForDiagnostics. eapply wpp_keeps; [apply held_lift; all_plain|exact Hi|intros; right; by exists None|].
  clear r h d Hi. intros _ r h d Hi. unfold attempt at 1. apply wpp_bind. apply wpp_bind. unfold lift, wpp at 1. apply wp_bind. 
  eapply wp_mono; [|exact (brake_read r h d Hi)]. cbv beta. intros [v|e] h1 d1 [H1 Hk]; cbn [wp].
  - unfold wpp at 1. cbn [ret wp]. apply wpp_bind. unfold arm, wpp at 1. cbn [wp].
    assert (Ha : armed_state (Some v) (restoreBrake v r) h1 d1) by (destruct H1 as (-> & _ & Hh & F1 & F2); by split_and!).
    refine (wpp_keeps (Some v) _ _ _ _ _ _ _ Ha _ _); [apply held_attempt; all_plain|intros; right; by exists (Some v)|].
    intros brake r2 h2 d2 H2. eapply wpp_mono; [|exact (held_lift (Some v) (succeed kReleaseBrakeStep (JBrake brake)) ltac:(all_plain) r2 h2 d2 H2)].
    intros r3 [x|e] h3 d3 H3; [by exists v|right; by exists (Some v)].
  - apply (wpp_keeps None); [apply held_lift; all_plain|done|intros; right; by exists None|]. intros _ r2 h2 d2 H2. right. by exists None.
Qed.

(** A body from a drive that was not changed: prepare, then what keeps the restorer armed. *)
Lemma prepared_ends (k : unit -> proc unit) h d : clean h -> quiet d0 d -> d_hasBrake d = d_hasBrake d0 ->
  (forall r h d, armed_state None r h d -> wpp (k tt) r h d (fun r _ h d => ended r h d)) ->
  wpp (pbind prepareForDiagnostics k) inert h d (fun r _ h d => ended r h d).
Proof.
  intros Hc Hq Hh Hk. apply wpp_bind. eapply wpp_mono; [|exact (prepare_arms h d Hc Hq Hh)]. intros r [[]|e] h' d' H; [by apply Hk|done].
Qed.

(** What a run leaves behind, after the destructor. *)
Definition left_behind (h : trace) (d : drive) : Prop :=
  (existsb is_restore_success h = true -> d_mode d = d_mode d0 /\ d_brake d = d_brake d0 /\ d_enabled d = false) /\
  (existsb is_restore_start h = false -> existsb is_mode_refused h = false -> d_mode d = d_mode d0 /\ d_brake d = d_brake d0 /\ may_drop d0 d) /\
  (existsb is_enable h = true -> existsb is_restore_start h = true).

Lemma scope_leaves body h d : d_mode d0 <> 0 -> wpp body inert h d (fun r _ h d => ended r h d) ->
  wp acts (with_restorer body) h d (fun _ h d => left_behind h d).
Proof.
  intros Hm Hb. unfold with_restorer. apply wp_bind. eapply wp_mono; [|exact Hb]. intros [r x] h1 d1 [(-> & H1 & H2 & H3 & H4 & H5 & H6)|(b & -> & Hk & Hh & F1 & F2)].
  - cbn. unfold left_behind. rewrite H4, H5, H6. split_and!; try done. intros _ Hr. auto.
  - apply wp_bind. eapply wp_mono; [|exact (restore_puts_back d0 b h1 d1 Hm Hh Hk F2)]. cbn. intros [] h2 d2 [H1 H2]. unfold left_behind. rewrite H1. by split_and!.
Qed.

Definition unchanged (h : trace) (d : drive) : Prop := clean h /\ quiet d0 d /\ d_hasBrake d = d_hasBrake d0.

Lemma unchanged_leaves h d : unchanged h d -> left_behind h d.
Proof. intros ((F1 & F2 & F3 & F4) & (Q1 & Q2 & Q3) & Hh). unfold left_behind. rewrite F2, F3, F4. by split_and!. Qed.

(** Calls before the scope. *)
Lemma unchanged_call o x h d d' : match o with CreateSomanetDrive | CommutationMethod => True | _ => False end ->
  unchanged h d -> acts (ev o x) d d' -> unchanged (h ++ [ev o x]) d'.
Proof.
  intros Ho ((F1 & F2 & F3 & F4) & (Q1 & Q2 & Q3) & Hh) [Hh' Ha]. destruct o; try done; destruct Ha as (A1 & A2 & A3);
  (unfold unchanged, clean, quiet, may_drop in *; flags; rewrite F1, F2, F3, F4; split_and!; try done; try congruence; auto).
Qed.

Lemma scoped (k : unit -> proc unit) h d : d_mode d0 <> 0 -> unchanged h d ->
  (forall r h d, armed_state None r h d -> wpp (k tt) r h d (fun r _ h d => ended r h d)) ->
  wp acts (with_restorer (pbind prepareForDiagnostics k)) h d (fun _ h d => left_behind h d).
Proof. intros Hm (Hc & Hq & Hh) Hk. apply scope_leaves; [done|]. by apply prepared_ends. Qed.

Lemma released_then {B} (k : unit -> proc B) r h d : armed_state None r h d -> (forall v, keeps (Some v) (k tt)) ->
  wpp (pbind releaseBrakeForDiagnostics k) r h d (fun r _ h d => ended r h d).
Proof.
  intros Hi Hk. apply wpp_bind. eapply wpp_mono; [|exact (release_arms r h d Hi)]. intros r' [[]|e] h' d'; [|done]. intros [v H]. by eapply armed_ended.
Qed.

Lemma wpp_assoc {A B C} (m : proc A) (f : A -> proc B) (g : B -> proc C) r h d Q :
  wpp (pbind m (fun a => pbind (f a) g)) r h d Q -> wpp (pbind (pbind m f) g) r h d Q.
Proof.
  unfold wpp, pbind. intros H. apply wp_bind, wp_bind. apply wp_bind in H. eapply wp_mono; [|exact H]. intros [r' [a|e]] h' d'; cbn; [|done].
  intros H'. by apply wp_bind in H'.
Qed.

Lemma measurement_leaves step what b ms c h d : not_restore step -> d_mode d0 <> 0 -> unchanged h d ->
  wp acts (runMeasurementProcedure (mk_measurement step what b ms) (command_call c)) h d (fun _ h d => left_behind h d).
Proof.
  intros Hs Hm Hu. unfold runMeasurementProcedure, try_. apply wp_bind. cbn [wp call]. intros x d1 Ha.
  pose proof (unchanged_call CreateSomanetDrive _ _ _ _ I Hu Ha) as Hu1. destruct x as [[]|e]; [|by apply unchanged_leaves].
  apply scoped; [done|done|]. clear -Hs. intros r h d Hi. cbn [m_step m_what m_releaseBrake m_timeout].
  refine (wpp_keeps None _ _ _ _ _ _ (keeps_unless _ _) Hi _ _); [intros; right; by exists None|]. clear -Hs. intros [] r h d Hi.
  destruct b; [|eapply armed_ended; [|exact Hi]; kept].
  apply wpp_assoc. apply (released_then _ _ _ _ Hi). intros v. kept.
Qed.

Lemma open_phase_leaves h d : d_mode d0 <> 0 -> unchanged h d -> wp acts runOpenPhaseDetectionProcedure h d (fun _ h d => left_behind h d).
Proof.
  intros Hm Hu. unfold runOpenPhaseDetectionProcedure, try_. apply wp_bind. cbn [wp call]. intros x d1 Ha.
  pose proof (unchanged_call CreateSomanetDrive _ _ _ _ I Hu Ha) as Hu1. destruct x as [[]|e]; [|by apply unchanged_leaves].
  apply scoped; [done|done|]. clear. intros r h d Hi. eapply armed_ended; [|exact Hi]. kept.
Qed.

Lemma commutation_leaves h d : d_mode d0 <> 0 -> unchanged h d -> wp acts runCommutationOffsetMeasurementProcedure h d (fun _ h d => left_behind h d).
Proof.
  intros Hm Hu. unfold runCommutationOffsetMeasurementProcedure, try_. apply wp_bind. cbn [wp call]. intros x d1 Ha.
  pose proof (unchanged_call CreateSomanetDrive _ _ _ _ I Hu Ha) as Hu1. destruct x as [[]|e]; [|by apply unchanged_leaves].
  apply wp_bind. cbn [wp call]. intros x d2 Ha2. pose proof (unchanged_call CommutationMethod _ _ _ _ I Hu1 Ha2) as Hu2.
  destruct x as [m|e]; [|by apply unchanged_leaves]. by apply measurement_leaves.
Qed.

Lemma offset_leaves h d : d_mode d0 <> 0 -> unchanged h d -> wp acts runOffsetDetectionProcedure h d (fun _ h d => left_behind h d).
Proof.
  intros Hm Hu. unfold runOffsetDetectionProcedure, try_. apply wp_bind. cbn [wp call]. intros x d1 Ha.
  pose proof (unchanged_call CreateSomanetDrive _ _ _ _ I Hu Ha) as Hu1. destruct x as [[]|e]; [|by apply unchanged_leaves].
  apply wp_bind. cbn [wp call]. intros x d2 Ha2. pose proof (unchanged_call CommutationMethod _ _ _ _ I Hu1 Ha2) as Hu2.
  destruct x as [m|e]; [|by apply unchanged_leaves]. apply scoped; [done|done|]. clear. intros r h d Hi.
  do 6 (refine (wpp_keeps None _ _ _ _ _ _ _ Hi _ _); [by kept|intros; right; by exists None|]; clear r h d Hi; intros ? r h d Hi).
  apply (released_then _ _ _ _ Hi). intros v. kept.
Qed.
End Run.

Lemma procedure_leaves p d : p ∈ diagnostics_procedures -> d_mode d <> 0 -> wp acts p [] d (fun _ h d' => left_behind d h d').
Proof.
  intros Hp Hm. assert (Hu : unchanged d [] d) by (unfold unchanged, clean, quiet, may_drop; by split_and!).
  unfold diagnostics_procedures in Hp. rewrite !elem_of_cons, elem_of_nil in Hp.
  destruct Hp as [->|[->|[->|[->|[->|[->|[->|[->|[]]]]]]]]];
    [by apply open_phase_leaves|by apply measurement_leaves|by apply measurement_leaves|by apply offset_leaves|by apply commutation_leaves|by apply measurement_leaves..].
Qed.


End Json.

(** ** Runs on a drive in mode 8 with its brake engaged *)
Definition sample (mode : Z) (set_ok disable_ok : bool) (h : @trace unit) (o : @op unit) : answer o :=
  match o return answer o with
  | StopRequested => false
  | HasBrakeObject => true
  | OperationModeValue => Value mode
  | OperationModeValueDisplay => Value kDiagnostics
  | SetOperationModeValue _ => if set_ok then Value tt else Unexpected "no answer"
  | Disable => if disable_ok then Value tt else Unexpected "no answer"
  | ReadObject _ s => if s =? kBrakeStatus then Value kEngaged else Value 1
  | ReadState => Value Cia402.kOperationEnabled
  | ErrorReport => Value ""
  | CommutationMethod => Value (Some kStationary)
  | OpenPhaseDetection _ => Value (mk_open false "" tt)
  | RunOsCommand _ _ _ => Unexpected "not sampled"
  | Command _ _ => Value tt
  | Report _ | SleepFor _ => tt
  | CreateSomanetDrive | ApplyOperationMode _ | Enable | TransitionToState _ | WriteObject _ _ _ | SetSystemIdentificationParameter _ _ _
  | SetTargetVelocity _ | SetProfileAcceleration _ | SetProfileDeceleration _ => Value tt
  end.

Definition sampled (mode : Z) (set_ok disable_ok : bool) (p : @fallible unit unit) : @trace unit := (exec (sample mode set_ok disable_ok) [] p).1.

(** One way such a drive can react. *)
Definition react (d : drive) (e : event (@answer unit)) : drive :=
  match projT1 e with
  | SetOperationModeValue m | ApplyOperationMode m => mk_drive (adopt d m) (d_brake d) (d_hasBrake d) (d_enabled d)
  | Enable => mk_drive (d_mode d) (d_brake d) (d_hasBrake d) true
  | Disable => mk_drive (d_mode d) (d_brake d) (d_hasBrake d) false
  | WriteObject _ _ v => mk_drive (d_mode d) v (d_hasBrake d) (d_enabled d)
  | _ => d
  end.

Ltac reacts := apply (follows_by acts react);
  lazymatch goal with |- forall k e, ?tr !! k = _ -> _ => let t := eval vm_compute in tr in change tr with t end;
  intros k e Hk; repeat (destruct k as [|k]; [injection Hk as <-; vm_compute; tauto|]); discriminate Hk.

Definition drive8 : drive := mk_drive 8 kEngaged true false.



(** Where a run does not put the drive back, or does not say so. When the write of the diagnostics
    mode takes effect but its answer is lost, the drive stays in that mode and no restore is attempted,
    because the restore is armed only after the write. When the drive cannot be disabled on the way out,
    the restore step fails but the run counts as succeeded. A drive found in mode 0 is left in diagnostics
    mode by a restore that is reported as succeeded. *)
Theorem restore_limits :
  let run mode set_ok disable_ok := sampled mode set_ok disable_ok runPhaseResistanceMeasurementProcedure in
  let result mode set_ok disable_ok := (exec (sample mode set_ok disable_ok) [] runPhaseResistanceMeasurementProcedure).2 in
  (follows acts drive8 (run 8 false true) (foldl react drive8 (run 8 false true)) /\ d_mode (foldl react drive8 (run 8 false true)) = kDiagnostics /\
    existsb is_restore_start (run 8 false true) = false /\ result 8 false true = Unexpected "no answer") /\
  (existsb is_restore_start (run 8 true false) = true /\ existsb is_restore_success (run 8 true false) = false /\ result 8 true false = Value tt) /\
  (let d := mk_drive 0 kEngaged true false in let d' := foldl react d (run 0 true true) in
    follows acts d (run 0 true true) d' /\ existsb is_restore_success (run 0 true true) = true /\ d_mode d' = kDiagnostics).
Proof.
  cbv zeta. split_and!; try (by vm_compute); reacts.
Qed.
End Diagnostics.
