(* ===== verification/ProcedureReports.v ===== *)
(** * What the procedures report ([libs/node/somanet_procedures.cc], [procedure.cc])

    The steps each procedure declares, and that its reports keep to them: the steps are started in
    their order, each is finished before the next, and the result of a run is what its steps say. *)

From S2P Require Import Prelude Cia402 Procedures Script Diagnostics.

Module Reports.
Import Procedures Diagnostics Script.

Section Json.
Context {J : Type}.

(** ** Declared steps *)
Definition osCommandSteps : list string := ["command"].
Definition encoderRegisterSteps : list string := ["register-access"].
Definition icMuCalibrationModeSteps : list string := ["set-mode"].
Definition hrdStreamingSteps : list string := [kHrdConfigureStep; kHrdRecordStep].
Definition openPhaseDetectionSteps : list string := [kPrepareStep; kOpenPhaseDetectionStep; kRestoreStep].
Definition polePairDetectionSteps : list string := [kPrepareStep; kReleaseBrakeStep; kPolePairDetectionStep; kRestoreStep].
Definition motorPhaseOrderDetectionSteps : list string := [kPrepareStep; kReleaseBrakeStep; kMotorPhaseOrderDetectionStep; kRestoreStep].
Definition offsetDetectionSteps : list string :=
  [kPrepareStep; kOpenPhaseDetectionStep; kPhaseResistanceMeasurementStep; kPhaseInductanceMeasurementStep; kReleaseBrakeStep;
   kPolePairDetectionStep; kMotorPhaseOrderDetectionStep; kSetBrakeStep; kCommutationOffsetMeasurementStep; kRestoreStep].
Definition commutationOffsetMeasurementSteps : list string :=
  [kPrepareStep; kReleaseBrakeStep; kCommutationOffsetMeasurementStep; kRestoreStep].
Definition phaseResistanceMeasurementSteps : list string := [kPrepareStep; kPhaseResistanceMeasurementStep; kRestoreStep].
Definition phaseInductanceMeasurementSteps : list string := [kPrepareStep; kPhaseInductanceMeasurementStep; kRestoreStep].
Definition torqueConstantMeasurementSteps : list string := [kPrepareStep; kReleaseBrakeStep; kTorqueConstantMeasurementStep; kRestoreStep].
Definition kueblerRegisterSteps : list string := ["register-access"].
Definition velocitySourceSteps : list string := ["set-source"].
Definition firmwareLatencySteps : list string := ["start-measurement"; "observe"; "read-maximum"; "stop-measurements"].
Definition triggerErrorSteps : list string := ["trigger"].
Definition systemIdentificationSteps : list string := ["configure-chirp"; "arm"].
Definition ignoreBissStatusBitsSteps : list string := ["set-ignore"].
Definition skippedCyclesSteps : list string := ["read-counter"].
Definition readObjectDictionarySteps : list string := ["read-dictionary"].

(** The procedures, each with its request. *)
Inductive procedure :=
  | OsCommandP (q : OsCommandRequest) | EncoderRegisterP (q : EncoderRegisterRequest) | IcMuModeP (ordinal : Z) (m : IcMuCalibrationMode)
  | HrdP (d : HrdData) (duration : Z) | OpenPhaseP | PolePairP | PhaseOrderP | OffsetP | CommutationP | ResistanceP | InductanceP | TorqueP
  | KueblerP (address length : Z) (write : bool) (v : Z) | VelocitySourceP (v : VelocitySource) | LatencyP (q : FirmwareLatencyRequest)
  | TriggerErrorP (s : FirmwareService) (e : Z) | SystemIdP (q : SystemIdentificationRequest) | IgnoreBissP (ordinal : Z) (ignore : bool)
  | SkippedCyclesP (s : FirmwareService) | ReadObjectDictionaryP.

Definition declared (p : procedure) : list string :=
  match p with
  | OsCommandP _ => osCommandSteps | EncoderRegisterP _ => encoderRegisterSteps | IcMuModeP _ _ => icMuCalibrationModeSteps
  | HrdP _ _ => hrdStreamingSteps | OpenPhaseP => openPhaseDetectionSteps | PolePairP => polePairDetectionSteps
  | PhaseOrderP => motorPhaseOrderDetectionSteps | OffsetP => offsetDetectionSteps | CommutationP => commutationOffsetMeasurementSteps
  | ResistanceP => phaseResistanceMeasurementSteps | InductanceP => phaseInductanceMeasurementSteps | TorqueP => torqueConstantMeasurementSteps
  | KueblerP _ _ _ _ => kueblerRegisterSteps | VelocitySourceP _ => velocitySourceSteps | LatencyP _ => firmwareLatencySteps
  | TriggerErrorP _ _ => triggerErrorSteps | SystemIdP _ => systemIdentificationSteps | IgnoreBissP _ _ => ignoreBissStatusBitsSteps
  | SkippedCyclesP _ => skippedCyclesSteps | ReadObjectDictionaryP => readObjectDictionarySteps
  end.

Definition body (p : procedure) : @fallible J unit :=
  match p with
  | OsCommandP q => runOsCommandProcedure q | EncoderRegisterP q => runEncoderRegisterProcedure q
  | IcMuModeP o m => runIcMuCalibrationModeProcedure o m | HrdP d t => runHrdStreamingProcedure d t
  | OpenPhaseP => runOpenPhaseDetectionProcedure | PolePairP => runPolePairDetectionProcedure
  | PhaseOrderP => runMotorPhaseOrderDetectionProcedure | OffsetP => runOffsetDetectionProcedure
  | CommutationP => runCommutationOffsetMeasurementProcedure | ResistanceP => runPhaseResistanceMeasurementProcedure
  | InductanceP => runPhaseInductanceMeasurementProcedure | TorqueP => runTorqueConstantMeasurementProcedure
  | KueblerP a l w v => runKueblerRegisterProcedure a l w v | VelocitySourceP v => runVelocitySourceProcedure v
  | LatencyP q => runFirmwareLatencyProcedure q | TriggerErrorP s e => runTriggerErrorProcedure s e
  | SystemIdP q => runSystemIdentificationProcedure q | IgnoreBissP o i => runIgnoreBissStatusBitsProcedure o i
  | SkippedCyclesP s => runSkippedCyclesProcedure s | ReadObjectDictionaryP => runReadObjectDictionaryProcedure
  end.

(** ** Following the reports *)

(** The steps still to come, the one running, the failed ones but the restore, whether a stop was seen. *)
Record book := mk_book { rest : list string; running : option string; failures : list (string * string); stop_seen : bool; bad : bool }.

Fixpoint after (i : string) (l : list string) : option (list string) :=
  match l with [] => None | x :: l => if String.eqb x i then Some l else after i l end.

Definition spoiled (b : book) : book := mk_book (rest b) (running b) (failures b) (stop_seen b) true.
Definition is_running (b : book) (i : string) : bool := match running b with Some j => String.eqb j i | None => false end.

Definition record (b : book) (r : @report (@json J)) : book :=
  match r with
  | Start i => match running b, after i (rest b) with
               | None, Some l => mk_book l (Some i) (failures b) (stop_seen b) (bad b)
               | _, _ => spoiled b
               end
  | Succeed i _ => if is_running b i then mk_book (rest b) None (failures b) (stop_seen b) (bad b) else spoiled b
  | FailStep i e => if is_running b i then
      mk_book (rest b) None (if String.eqb i kRestoreStep then failures b else failures b ++ [(i, e)]) (stop_seen b) (bad b) else spoiled b
  end.

Definition watch_book (b : book) (e : event (@answer J)) : book :=
  let 'existT o x := e in
  (match o return answer o -> book with
   | StopRequested => fun s => mk_book (rest b) (running b) (failures b) (stop_seen b || s) (bad b)
   | Report r => fun _ => record b r
   | _ => fun _ => b
   end) x.

Definition opened (ids : list string) : book := mk_book ids None [] false false.

(** The result agrees with the reports. *)
Definition agrees (ids : list string) (res : expected string unit) (b : book) : Prop :=
  bad b = false /\ running b = None /\
  match res with
  | Value _ => failures b = []
  | Unexpected e => (exists i, failures b = [(i, e)]) \/ (failures b = [] /\ (stop_seen b = true \/ rest b = ids))
  end.

(** ** Scripts that report nothing *)
Definition silent (o : @op J) : Prop := match o with StopRequested | Report _ => False | _ => True end.

Lemma seen_silent {A} (s : script (@answer J) A) b Q : all_ops silent s -> (forall a, Q a b) -> seen watch_book s b Q.
Proof.
  intros Hs HQ. revert b HQ. induction s as [a|o k IH]; intros b HQ; cbn [seen all_ops] in *; [apply HQ|]. destruct Hs as [Ho Hk]. intros x.
  destruct o; try done; apply IH; auto.
Qed.

Ltac answers x :=
  cbn [answer] in x;
  lazymatch type of x with
  | unit => destruct x
  | bool => destruct x
  | expected _ (option CommutationOffsetMethod) => destruct x as [[[]|]|?]
  | expected _ unit => destruct x as [[]|?]
  | expected _ OpenPhaseResult => destruct x as [[[] ? ?]|?]
  | expected _ _ => destruct x as [?|?]
  | _ => idtac
  end.

Ltac silently := apply seen_silent; [repeat all_ops_step|].

Lemma restore_booked m b r f st bd l Q : after kRestoreStep r = Some l -> Q tt (mk_book l None f st bd) ->
  seen watch_book (restore (armed m b)) (mk_book r None f st bd) Q.
Proof.
  intros Hl HQ. unfold restore. cbn [is_inert armed mode_ brake_ resting_ disarmChirp_ profile_ targetVelocity_].
  apply seen_bind. cbn [seen start call]. intros []. cbn [watch_book ev record running rest]. rewrite Hl.
  apply seen_bind. cbn [seen]. apply seen_bind. destruct b as [b|]; [silently; intros f1|cbn [seen]].
  all: apply seen_bind; silently; intros [f2 notes]; cbv beta iota; repeat seen_step_with answers; exact HQ.
Qed.

Ltac book_step :=
  lazymatch goal with
  | |- seen _ (restore ?r) _ _ =>
      let r' := eval cbv [restoreMode restoreBrake inert mode_ brake_ resting_ disarmChirp_ profile_ targetVelocity_] in r in
      lazymatch r' with
      | mk_restorer (Some ?m) _ ?b _ _ _ => change r with (armed m b); eapply restore_booked; [reflexivity|]
      | _ => change (restore r) with (Ret tt : script (@answer J) unit)
      end
  | |- seen _ brakeStatus _ _ => silently; intros [?|?]
  | |- seen _ (releaseBrake _) _ _ => silently; intros [?|?]
  | |- seen _ (engageBrake _) _ _ => silently; intros [?|?]
  | |- seen _ confirmStillEnabled _ _ => silently; intros [[]|?]
  | |- seen _ (match ?x with Value _ => _ | Unexpected _ => _ end) _ _ => destruct x
  | |- seen _ (match ?x with Value _ => _ | Unexpected _ => _ end _) _ _ => destruct x
  | |- _ => seen_step_with answers
  end; cbv beta iota.
Ltac booked := repeat book_step; unfold agrees; cbn; eauto 10.

Lemma open_phase_booked : seen watch_book (@runOpenPhaseDetectionProcedure J) (opened openPhaseDetectionSteps) (agrees openPhaseDetectionSteps).
Proof. booked. Qed.
Lemma offset_booked : seen watch_book (@runOffsetDetectionProcedure J) (opened offsetDetectionSteps) (agrees offsetDetectionSteps).
Proof. booked. Qed.

(** Sleeping only looks at the stop token. *)
Lemma sleep_booked n ms r i f st bd Q : Q true (mk_book r i f st bd) -> Q false (mk_book r i f true bd) ->
  seen watch_book (sleep_slices n ms) (mk_book r i f st bd) Q.
Proof.
  intros Ht Hf. revert ms. induction n as [|n IH]; intros ms; cbn [sleep_slices].
  - destruct st; repeat seen_step_with answers; done.
  - destruct (ms <=? 0); destruct st; repeat lazymatch goal with |- seen _ (sleep_slices _ _) _ _ => apply IH | |- _ => seen_step_with answers end; done.
Qed.

Lemma settings_booked l cfg what r i f st bd Q : (forall x, Q x (mk_book r i f st bd)) -> (forall e, Q (Unexpected e) (mk_book r i f true bd)) ->
  seen watch_book (@write_settings J l cfg what) (mk_book r i f st bd) Q.
Proof.
  intros HQ HQ'. induction l as [|[p v] l IH]; cbn [write_settings]; [apply HQ|].
  destruct st; repeat lazymatch goal with
    | |- seen _ (write_settings _ _ _) _ _ => apply IH
    | |- seen _ (match ?x with Value _ => _ | Unexpected _ => _ end) _ _ => destruct x
    | |- _ => seen_step_with answers end; auto.
Qed.

Ltac procedure_step :=
  lazymatch goal with
  | |- seen _ (sleepUnlessStopped _) _ _ => unfold sleepUnlessStopped; apply sleep_booked
  | |- seen _ (writeChirpSettings _ _ _) _ _ => unfold writeChirpSettings; apply settings_booked; [intros [[]|?]|intros ?]
  | |- _ => book_step
  end; cbv beta iota zeta.

Lemma body_agrees p : seen watch_book (body p) (opened (declared p)) (agrees (declared p)).
Proof.
  destruct p as [q|q|ordinal m|d duration| | | | | | | | |address length write v|v|q|sv e|q|ordinal ignore|sv| ]; cbn [body declared];
    try exact offset_booked.
  all: try (destruct q as [[] ? ?]).
  all: repeat procedure_step; unfold agrees; cbn; eauto 10.
Qed.

(** ** The snapshot of a run *)
Definition reports (tr : @trace J) : list (@report (@json J)) := omap (fun e => match projT1 e with Report r => Some r | _ => None end) tr.
Definition final_steps (ids : list string) (tr : @trace J) : list (@ProgressStep (@json J)) := foldl (apply_report JNull) (stepsFrom JNull ids) (reports tr).

Lemma change_step_in (steps : list (@ProgressStep (@json J))) i f s : NoDup (step_id <$> steps) -> s ∈ change_step steps i f ->
  (s ∈ steps /\ step_id s <> i) \/ exists s', s' ∈ steps /\ step_id s' = i /\ s = f s'.
Proof.
  induction steps as [|x steps IH]; cbn [change_step]; [by intros _ ?%elem_of_nil|]. rewrite fmap_cons, NoDup_cons. intros [Hx Hn].
  destruct (String.eqb_spec (step_id x) i) as [Ei|Hne]; rewrite !elem_of_cons; intros [->|Hs].
  - right. exists x. rewrite elem_of_cons. auto.
  - left. split; [by right|]. intros E. apply Hx. apply list_elem_of_fmap. exists s. split; [congruence|done].
  - left. split; [by left|done].
  - destruct (IH Hn Hs) as [[? ?]|(s' & ? & ? & ?)]; [left; split; [by right|done]|right]. exists s'. rewrite elem_of_cons. auto.
Qed.

Lemma change_step_keeps_ids (steps : list (@ProgressStep (@json J))) i f : (forall s, step_id (f s) = step_id s) -> step_id <$> change_step steps i f = step_id <$> steps.
Proof. intros Hf. induction steps as [|x steps IH]; [done|]. cbn. destruct (String.eqb _ _); cbn; [by rewrite Hf|by f_equal]. Qed.

Definition shows (b : book) (steps : list (@ProgressStep (@json J))) : Prop :=
  NoDup (step_id <$> steps) /\ forall s, s ∈ steps -> step_status s = SRunning -> running b = Some (step_id s).

Lemma record_shows b r steps : bad (record b r) = false -> shows b steps -> bad b = false /\ shows (record b r) (apply_report JNull steps r).
Proof.
  intros Hb [Hn Hs].
  assert (Hids : forall i f, (forall s, step_id (f s) = step_id s) -> NoDup (step_id <$> change_step steps i f)) by (intros i f Hf; by rewrite change_step_keeps_ids).
  destruct r as [i|i v|i e]; cbn [record apply_report] in *.
  - destruct (running b) as [j|] eqn:Er; [done|]. destruct (after i (rest b)); [|done]. split; [done|]. split; [by apply Hids|].
    intros s Hin Hst. apply (change_step_in _ _ _ _ Hn) in Hin as [[Hin _]|(s' & _ & Hi & ->)]; [|cbn; by rewrite Hi]. exfalso. specialize (Hs s Hin Hst). congruence.
  - unfold is_running in *. destruct (running b) as [j|] eqn:Er; [|done]. destruct (String.eqb_spec j i) as [->|]; [|done]. split; [done|]. split; [by apply Hids|].
    intros s Hin Hst. apply (change_step_in _ _ _ _ Hn) in Hin as [[Hin Hne]|(s' & _ & Hi & ->)]; [|done]. specialize (Hs s Hin Hst). congruence.
  - unfold is_running in *. destruct (running b) as [j|] eqn:Er; [|done]. destruct (String.eqb_spec j i) as [->|]; [|done]. split; [done|]. split; [by apply Hids|].
    intros s Hin Hst. apply (change_step_in _ _ _ _ Hn) in Hin as [[Hin Hne]|(s' & _ & Hi & ->)]; [|done]. specialize (Hs s Hin Hst). congruence.
Qed.

Lemma bad_kept e b : bad (watch_book b e) = false -> bad b = false.
Proof.
  destruct e as [o x]. destruct o as [|r| | | | | | | | | | | | | | | | | | | | | |]; cbn; try done.
  destruct r; cbn; unfold is_running; repeat case_match; done.
Qed.

Lemma book_shows tr : forall b steps, bad (foldl watch_book b tr) = false -> shows b steps ->
  shows (foldl watch_book b tr) (foldl (apply_report JNull) steps (reports tr)).
Proof.
  assert (Hb : forall tr b, bad (foldl watch_book b tr) = false -> bad b = false).
  { clear. intros tr. induction tr as [|e tr IH]; intros b H; [done|]. by apply IH, bad_kept in H. }
  induction tr as [|[o x] tr IH]; intros b steps H Hs; [done|]. cbn [foldl] in *. pose proof (Hb _ _ H) as H1.
  unfold reports. cbn [omap list_omap projT1]. fold (reports tr).
  destruct o as [|r| | | | | | | | | | | | | | | | | | | | | |]; try exact (IH _ _ H Hs). cbn [foldl]. apply IH; [done|]. by apply record_shows.
Qed.

Lemma declared_distinct p : NoDup (declared p).
Proof. apply (bool_decide_unpack _). by destruct p. Qed.

(** Every one of the twenty procedures, whatever its request, whatever the drive answers and
    whenever it is cancelled, starts only steps it declares, in their order, each after the one before
    it was finished. It succeeds exactly if no step but the restore failed; when it fails, the failed
    step carries the reason that the run returns, unless a cancellation was seen or no step was started.
    So the snapshot of a finished run shows no step as running. *)
Theorem procedure_reports p tr res (Hr : runs (body p) tr res) :
  agrees (declared p) res (foldl watch_book (opened (declared p)) tr) /\
  Forall (fun s => step_status s <> SRunning) (final_steps (declared p) tr).
Proof.
  pose proof (seen_runs _ _ _ _ _ _ Hr (body_agrees p)) as Ha. split; [exact Ha|]. destruct Ha as (Hb & Hn & _).
  assert (Hs : shows (opened (declared p)) (stepsFrom JNull (declared p))).
  { split; [unfold stepsFrom; rewrite <- list_fmap_compose; cbn; rewrite list_fmap_id; apply declared_distinct|].
    intros s Hin Hst. apply list_elem_of_fmap in Hin as (i & -> & _). done. }
  destruct (book_shows tr _ _ Hb Hs) as [_ Hrun]. apply Forall_forall. intros s Hin Hst. specialize (Hrun s Hin Hst). congruence.
Qed.

End Json.

Definition latency_run : procedure := LatencyP (mk_latency kMeasure kSetpoint 120).

Lemma procedure_reports_witness : let tr := sampled 8 true true (body latency_run) in
  step_status <$> final_steps (declared latency_run) tr = [SSucceeded; SSucceeded; SSucceeded; SIdle] /\
  Forall (fun s => step_status s <> SRunning) (final_steps (declared latency_run) tr).
Proof. split; [by vm_compute|]. exact (proj2 (procedure_reports latency_run _ _ (runs_exec (sample 8 true true) (body latency_run)))). Defined.
End Reports.
