(* ===== verification/FirmwareInstall.v ===== *)
(** * Firmware installation ([libs/node/somanet_procedures.cc])

    [runFirmwareInstallationProcedure]: open the package, keep a copy, take the device to BOOT, write the
    files, the SII image and the two binaries, activate them and take the device to its final state. The
    calls on the device manager, the clock and the file cache are the script's calls; opening the zip and
    the cache are answers. A wait on the clock is a loop with fuel whose exhaustion is a call of its own. *)

From stdpp Require Import pretty.
From S2P Require Import Prelude Sii Procedures Script Diagnostics ProcedureReports.

Module Firmware.
Import Procedures Script.

(** ** Calls *)
Definition kInit : Z := 1.
Definition kPreOp : Z := 2.
Definition kBoot : Z := 3.
Definition kSafeOp : Z := 4.
Definition kOp : Z := 8.
Definition al_name (s : Z) : string :=
  match s with 1 => "INIT" | 2 => "PRE-OP" | 3 => "BOOT" | 4 => "SAFE-OP" | 8 => "OP" | _ => "UNKNOWN" end.

Inductive Reachability := Answering | AddressLost | NotAnswering.
Inductive FirmwareActivation := kOnBootExit | kRestarted.
Inductive Retry := Transient | Permanent.
Record FoeError := mk_foe { retry : Retry; foe_message : string }.
Record state_info := mk_info { alState : Z; alStatusCode : Z }.

Record FirmwarePackageFile := mk_pfile { f_name : string; f_content : list Z }.
Record FirmwarePackage := mk_package {
  appBinary : option FirmwarePackageFile; comBinary : option FirmwarePackageFile; sii : option FirmwarePackageFile;
  extras : list FirmwarePackageFile; skipped : list string }.

Definition json : Type := @Diagnostics.json Empty_set.

Inductive op :=
  | StopRequested | Report (r : @report json) | SleepFor (ms : Z) | Now | OutOfFuel
  | OpenFirmwarePackage | ResolveCachedPackage | WriteCache (path : string) | ReadPackageEsi | StoreEsi (version : string)
  | DeviceAt | WriteFile (name : string) (content : list Z) | RemoveFile (name : string)
  | SupportsEsc | WriteSii (content : list Z) | ActivateFirmware (timeout : Z)
  | TransitionToState (target timeout : Z) | DeviceReachability.

Definition answer (o : op) : Type :=
  match o with
  | StopRequested | DeviceAt | SupportsEsc | WriteCache _ => bool
  | Report _ | SleepFor _ | OutOfFuel => unit
  | Now => Z
  | OpenFirmwarePackage => expected string FirmwarePackage
  | ResolveCachedPackage => expected string string
  | ReadPackageEsi => expected string bool
  | StoreEsi _ => expected string string
  | WriteFile _ _ => expected FoeError unit
  | RemoveFile _ | WriteSii _ => expected string unit
  | ActivateFirmware _ => expected string FirmwareActivation
  | TransitionToState _ _ => expected string (list state_info)
  | DeviceReachability => expected string (list Reachability)
  end.

Definition trace : Type := list (event answer).
Definition fallible (A : Type) : Type := script answer (expected string A).
Definition try_ {A B} (m : fallible A) (k : A -> fallible B) : fallible B :=
  bind m (fun x => match x with Value a => k a | Unexpected e => Ret (Unexpected e) end).
Definition explained (why : string) {A} (m : fallible A) : fallible A :=
  bind m (fun x => Ret match x with Value a => Value a | Unexpected e => Unexpected (why +:+ e) end).
Definition start (i : string) : script answer unit := call (Report (Start i)).
Definition succeed (i : string) (v : json) : script answer unit := call (Report (Succeed i v)).
Definition fail (i : string) (e : string) : script answer unit := call (Report (FailStep i e)).
Definition said (s : string) : json := Diagnostics.JFields [("", Diagnostics.FText s)].

(** ** Waiting *)
Definition kSlice : Z := 50.
Fixpoint sleep_slices (fuel : nat) (remaining : Z) : script answer bool :=
  match fuel with
  | O => bind (call StopRequested) (fun stop : bool => Ret (negb stop))
  | S fuel =>
      if remaining <=? 0 then bind (call StopRequested) (fun stop : bool => Ret (negb stop))
      else bind (call StopRequested) (fun stop : bool =>
        if stop then Ret false
        else bind (call (SleepFor (Z.min kSlice remaining))) (fun _ => sleep_slices fuel (remaining - Z.min kSlice remaining)))
  end.
Definition sleepUnlessStopped (duration : Z) : script answer bool := sleep_slices (Z.to_nat duration) duration.

Definition cancelled (what : string) : string := "firmware installation was cancelled " +:+ what.

(** ** Files *)
Definition kFoeAttempts : nat := 3.
Definition kFoeRetryDelay : Z := 100.

Section Install.
(** The bus position, the names of AL status codes and the wording of SII errors. *)
Context (devicePosition : Z) (alStatusCodeName : Z -> string) (sii_message : Sii.SiiError -> string).

Definition deviceNotFound : string := "device " +:+ pretty devicePosition +:+ " not found".

(** The loop over the attempts that are left. *)
Fixpoint write_attempts (left : nat) (lastError filename : string) (content : list Z) : fallible unit :=
  match left with
  | O => Ret (Unexpected (lastError +:+ " (gave up after " +:+ pretty (Z.of_nat kFoeAttempts) +:+ " attempts)"))
  | S left' =>
      bind (call StopRequested) (fun stop : bool =>
        if stop then Ret (Unexpected (cancelled ("before writing '" +:+ filename +:+ "'")))
        else bind (call DeviceAt) (fun found : bool =>
          if negb found then Ret (Unexpected deviceNotFound)
          else bind (call (WriteFile filename content)) (fun written =>
            match written with
            | Value _ => Ret (Value tt)
            | Unexpected e =>
                match retry e with
                | Permanent => Ret (Unexpected (foe_message e))
                | Transient =>
                    match left' with
                    | O => write_attempts left' (foe_message e) filename content
                    | S _ => bind (sleepUnlessStopped kFoeRetryDelay) (fun ok : bool =>
                        if ok then write_attempts left' (foe_message e) filename content
                        else Ret (Unexpected (cancelled ("while writing '" +:+ filename +:+ "'"))))
                    end
                end
            end)))
  end.
Definition writeFileWithRetry (filename : string) (content : list Z) : fallible unit := write_attempts kFoeAttempts "" filename content.

(** ** States *)
Definition hex_digit (d : Z) : string := default "" (["0"; "1"; "2"; "3"; "4"; "5"; "6"; "7"; "8"; "9"; "A"; "B"; "C"; "D"; "E"; "F"] !! Z.to_nat d).
Definition hex4 (x : Z) : string :=
  hex_digit (Z.land (Z.shiftr x 12) 15) +:+ hex_digit (Z.land (Z.shiftr x 8) 15) +:+ hex_digit (Z.land (Z.shiftr x 4) 15) +:+ hex_digit (Z.land x 15).

Definition kStateTimeout : Z := 10000.
Definition kBootExitTimeout : Z := 30000.
Definition kComRestartWindow : Z := 2000.
Definition kComRestartPoll : Z := 100.
Definition kActivationTimeout : Z := 120000.

Definition transitionTo (target timeout : Z) : fallible unit :=
  try_ (call (TransitionToState target timeout)) (fun states =>
    match states with
    | [] => Ret (Unexpected ("no state reported for device " +:+ pretty devicePosition))
    | reached :: _ =>
        if alState reached =? target then Ret (Value tt)
        else Ret (Unexpected ("the device reported " +:+ al_name (alState reached) +:+ " rather than " +:+ al_name target +:+
          if alStatusCode reached =? 0 then "" else
            " (AL status 0x" +:+ hex4 (alStatusCode reached) +:+ ": " +:+ alStatusCodeName (alStatusCode reached) +:+ ")"))
    end).

Definition enterBoot (warmUp : Z) : fallible unit :=
  try_ (explained "could not reach INIT: " (transitionTo kInit kStateTimeout)) (fun _ =>
  try_ (explained "could not reach BOOT: " (transitionTo kBoot kStateTimeout)) (fun _ =>
  bind (sleepUnlessStopped warmUp) (fun ok : bool =>
    Ret (if ok then Value tt else Unexpected (cancelled "while the bootloader started"))))).

Definition readReachability : script answer (option Reachability) :=
  bind (call DeviceReachability) (fun r => Ret match r with Value (x :: _) => Some x | _ => None end).

(** The first loop of [awaitComRestart]: true when the device stopped answering. *)
Fixpoint await_silence (fuel : nat) (windowEnd : Z) : script answer bool :=
  match fuel with
  | O => bind (call OutOfFuel) (fun _ => Ret true)
  | S fuel =>
      bind readReachability (fun r =>
        match r with
        | Some Answering =>
            bind (call Now) (fun now : Z =>
              if windowEnd <=? now then Ret false
              else bind (call (SleepFor kComRestartPoll)) (fun _ => await_silence fuel windowEnd))
        | _ => Ret true
        end)
  end.

(** The second loop: true when the device answers again, at its address or at its position. *)
Fixpoint await_answer (fuel : nat) (deadline : Z) : script answer bool :=
  match fuel with
  | O => bind (call OutOfFuel) (fun _ => Ret false)
  | S fuel =>
      bind readReachability (fun r =>
        match r with
        | Some AddressLost | Some Answering => Ret true
        | _ =>
            bind (call Now) (fun now : Z =>
              if deadline <=? now then Ret false
              else bind (call (SleepFor kComRestartPoll)) (fun _ => await_answer fuel deadline))
        end)
  end.

(** Rounds of 100 ms, and one more to see that the time is over. *)
Definition rounds (ms : Z) : nat := Z.to_nat (ms / kComRestartPoll) + 2.

Definition awaitComRestart : fallible unit :=
  bind (call Now) (fun now : Z =>
  bind (await_silence (rounds kComRestartWindow) (now + kComRestartWindow)) (fun restarts : bool =>
    if negb restarts then Ret (Value tt)
    else bind (call Now) (fun now : Z =>
         bind (await_answer (rounds kBootExitTimeout) (now + kBootExitTimeout)) (fun back : bool =>
           if back then transitionTo kInit kStateTimeout
           else Ret (Unexpected ("the device did not answer again within " +:+ pretty (kBootExitTimeout / 1000) +:+ " s of its restart")))))).

Definition leaveBoot (finalState : Z) (comWritten : bool) : fallible unit :=
  if finalState =? kBoot then Ret (Value tt)
  else
    try_ (explained "could not reach INIT: " (transitionTo kInit kBootExitTimeout)) (fun _ =>
    try_ (if comWritten then explained "could not reach INIT after the restart: " awaitComRestart else Ret (Value tt)) (fun _ =>
    if finalState =? kInit then Ret (Value tt)
    else try_ (explained "could not reach PRE-OP: " (transitionTo kPreOp kBootExitTimeout)) (fun _ =>
    if finalState =? kPreOp then Ret (Value tt)
    else try_ (explained "could not reach SAFE-OP: " (transitionTo kSafeOp kStateTimeout)) (fun _ =>
    if finalState =? kSafeOp then Ret (Value tt)
    else explained "could not reach OP: " (transitionTo kOp kStateTimeout))))).

(** ** The procedure *)
Definition kPackageStep : string := "package".
Definition kCacheStep : string := "cache".
Definition kBootStep : string := "boot".
Definition kExtraFilesStep : string := "extra-files".
Definition kSiiStep : string := "sii".
Definition kAppFirmwareStep : string := "app-firmware".
Definition kComFirmwareStep : string := "com-firmware".
Definition kActivateFirmwareStep : string := "activate-firmware".
Definition kFinalStateStep : string := "final-state".
Definition kAppFirmwareFoeName : string := "app_firmware.bin".
Definition kComFirmwareFoeName : string := "com_firmware.bin".
Definition firmwareInstallationSteps : list string :=
  [kPackageStep; kCacheStep; kBootStep; kExtraFilesStep; kSiiStep; kAppFirmwareStep; kComFirmwareStep; kActivateFirmwareStep; kFinalStateStep].

(** [FirmwareInstallationRequest] without the bytes and the extra files, which go to [OpenFirmwarePackage];
    [name] is the software version and the descriptor. *)
Record FirmwareInstallationRequest := mk_request {
  filename : string; name : option (string * string); cachePackage : bool; finalState : Z; bootWarmUp : Z }.
Context (request : FirmwareInstallationRequest).

Definition named (f : option FirmwarePackageFile) : Diagnostics.field := Diagnostics.FText (match f with Some f => f_name f | None => "null" end).
Definition manifest (p : FirmwarePackage) : json :=
  Diagnostics.JFields ([("filename", Diagnostics.FText (filename request)); ("appBinary", named (appBinary p)); ("comBinary", named (comBinary p));
    ("sii", named (sii p)); ("skipped", Diagnostics.FTexts (skipped p)); ("finalState", Diagnostics.FText (al_name (finalState request)));
    ("extras", Diagnostics.FTexts (f_name <$> extras p))] ++
    match name request with
    | Some (version, descriptor) => [("softwareVersion", Diagnostics.FText version); ("fullFirmwareDescriptor", Diagnostics.FText descriptor)]
    | None => []
    end).

(** The package step. *)
Definition package_step : fallible FirmwarePackage :=
  bind (start kPackageStep) (fun _ =>
  bind (call OpenFirmwarePackage) (fun package =>
    match package with
    | Unexpected e => bind (fail kPackageStep e) (fun _ => Ret (Unexpected e))
    | Value p =>
        match (match sii p with
               | Some f => match Sii.validateSiiImage (f_content f) with
                           | Some (Unexpected e) => Some ("the package's '" +:+ f_name f +:+ "' is not a valid SII image: " +:+ sii_message e)
                           | _ => None
                           end
               | None => None
               end) with
        | Some reason => bind (fail kPackageStep reason) (fun _ => Ret (Unexpected reason))
        | None => bind (succeed kPackageStep (manifest p)) (fun _ => Ret (Value p))
        end
    end)).

(** The cache step, which never fails. *)
Definition cache_step : script answer unit :=
  bind (start kCacheStep) (fun _ =>
    if negb (cachePackage request) then succeed kCacheStep (said "not cached: caching was not requested")
    else match name request with
    | None => succeed kCacheStep (said (if String.eqb (filename request) "" then "not cached: no filename was given"
                else "not cached: '" +:+ filename request +:+ "' is not a SOMANET firmware package name"))
    | Some (version, _) =>
        bind (call ResolveCachedPackage) (fun path =>
          match path with
          | Unexpected e => succeed kCacheStep (said ("not cached: " +:+ e))
          | Value path =>
              bind (call (WriteCache path)) (fun ok : bool =>
                if negb ok then succeed kCacheStep (said ("not cached: could not write '" +:+ path +:+ "'"))
                else bind (succeed kCacheStep (said path)) (fun _ =>
                     bind (call ReadPackageEsi) (fun esi =>
                       match esi with Value true => bind (call (StoreEsi version)) (fun _ => Ret tt) | _ => Ret tt end)))
          end)
    end).

(** The lambda [finish]. *)
Definition finish (failure : option string) (comWritten : bool) : fallible unit :=
  bind (start kFinalStateStep) (fun _ =>
  bind (leaveBoot (finalState request) comWritten) (fun left =>
    match left with
    | Unexpected e =>
        let reason := match failure with
          | Some _ => "the install did not complete, and the device was left in BOOT: " +:+ e
          | None => "the firmware was written; the device did not reach " +:+ al_name (finalState request) +:+ ": " +:+ e
          end in
        bind (fail kFinalStateStep reason) (fun _ => Ret (Unexpected (default reason failure)))
    | Value _ =>
        bind (succeed kFinalStateStep (said (al_name (finalState request)))) (fun _ =>
          Ret match failure with Some e => Unexpected e | None => Value tt end)
    end)).

(** The loop over the extra files: what it wrote of each, or why it was cut short. *)
Fixpoint write_extras (l : list FirmwarePackageFile) (results : list (string * Diagnostics.field)) : fallible (list (string * Diagnostics.field)) :=
  match l with
  | [] => Ret (Value results)
  | extra :: l =>
      bind (call StopRequested) (fun stop : bool =>
        if stop then Ret (Unexpected (cancelled ("before writing '" +:+ f_name extra +:+ "'")))
        else bind (call (RemoveFile (f_name extra))) (fun _ =>
             bind (writeFileWithRetry (f_name extra) (f_content extra)) (fun written =>
               write_extras l (results ++ [(f_name extra, Diagnostics.FText match written with Value _ => "written" | Unexpected e => "not written: " +:+ e end)]))))
  end.

(** A step after BOOT was entered: its failure is the run's, which then takes the common way out. *)
Definition stage {A} (step : string) (m : fallible A) (payload : A -> json) (k : A -> fallible unit) : fallible unit :=
  bind (start step) (fun _ =>
  bind m (fun x =>
    match x with
    | Unexpected e => bind (fail step e) (fun _ => finish (Some e) false)
    | Value a => bind (succeed step (payload a)) (fun _ => k a)
    end)).

Definition extras_stage (p : FirmwarePackage) (k : fallible unit) : fallible unit :=
  match extras p with
  | [] => stage kExtraFilesStep (Ret (Value tt)) (fun _ => said "no extra file was requested") (fun _ => k)
  | l => stage kExtraFilesStep (write_extras l []) (fun results => Diagnostics.JFields results) (fun _ => k)
  end.

(** What was done with the SII image. *)
Definition write_sii (p : FirmwarePackage) : fallible string :=
  match sii p with
  | None => Ret (Value "the package carries no SII image")
  | Some f =>
      bind (call DeviceAt) (fun found : bool =>
        if negb found then Ret (Unexpected ("writing the SII failed: " +:+ deviceNotFound))
        else bind (call SupportsEsc) (fun esc : bool =>
          if negb esc then Ret (Value (f_name f +:+ " not written: this transport has no SII"))
          else try_ (explained "writing the SII failed: " (call (WriteSii (f_content f)))) (fun _ =>
            Ret (Value (f_name f +:+ " written - power-cycle the device for it to take effect")))))
  end.

(** The lambda [writeBinary]. *)
Definition write_binary (binary : option FirmwarePackageFile) (foeName absent : string) : fallible string :=
  match binary with
  | None => Ret (Value absent)
  | Some f => try_ (explained ("writing " +:+ f_name f +:+ " failed: ") (writeFileWithRetry foeName (f_content f))) (fun _ =>
      Ret (Value (f_name f +:+ " written as " +:+ foeName +:+ " (" +:+ pretty (Z.of_nat (length (f_content f))) +:+ " bytes)")))
  end.

Definition activate : fallible FirmwareActivation :=
  bind (call DeviceAt) (fun found : bool =>
    if negb found then Ret (Unexpected deviceNotFound)
    else explained "activating the firmware failed: " (call (ActivateFirmware kActivationTimeout))).

(** The activation step and the way out; a failed activation leaves with the com binary still waiting. *)
Definition activation_stage (p : FirmwarePackage) : fallible unit :=
  let comWritten := match comBinary p with Some _ => true | None => false end in
  bind (start kActivateFirmwareStep) (fun _ =>
    match appBinary p, comBinary p with
    | None, None => bind (succeed kActivateFirmwareStep (said "no firmware was written")) (fun _ => finish None comWritten)
    | _, _ =>
        bind activate (fun x =>
          match x with
          | Unexpected e => bind (fail kActivateFirmwareStep e) (fun _ => finish (Some e) comWritten)
          | Value kRestarted => bind (succeed kActivateFirmwareStep (said "the device restarted into the new firmware")) (fun _ => finish None false)
          | Value kOnBootExit => bind (succeed kActivateFirmwareStep (said "applied when the device leaves BOOT")) (fun _ => finish None comWritten)
          end)
    end).

Definition runFirmwareInstallationProcedure : fallible unit :=
  try_ package_step (fun p =>
  bind cache_step (fun _ =>
  bind (call StopRequested) (fun stop : bool =>
    if stop then Ret (Unexpected (cancelled "before the device was touched"))
    else
      bind (start kBootStep) (fun _ =>
      bind (enterBoot (bootWarmUp request)) (fun entered =>
        match entered with
        | Unexpected e => bind (fail kBootStep e) (fun _ => Ret (Unexpected e))
        | Value _ =>
            bind (succeed kBootStep Diagnostics.JNull) (fun _ =>
            extras_stage p (
            stage kSiiStep (write_sii p) said (fun _ =>
            stage kAppFirmwareStep (write_binary (appBinary p) kAppFirmwareFoeName "the package carries no application firmware, or it was skipped") said (fun _ =>
            stage kComFirmwareStep (write_binary (comBinary p) kComFirmwareFoeName "the package carries no COM firmware") said (fun _ =>
            activation_stage p)))))
        end))))).

(** ** The order of what is done to the device *)
Inductive phase := Fresh | AtInit | AtBoot | Leaving | Wrong.
Record order := mk_order { at_ : phase; booted : bool }.

Definition reached (target : Z) (r : expected string (list state_info)) : bool :=
  match r with Value (s :: _) => alState s =? target | _ => false end.
Definition sii_ok (content : list Z) : bool := match Sii.validateSiiImage content with Some (Unexpected _) => false | _ => true end.

(** [Fresh], INIT reached, BOOT reached, on the way out; [Wrong] is for ever. Files, the SII image and the
    activation belong to BOOT, and the image must be valid. *)
Definition watch_order (m : order) (e : event answer) : order :=
  let 'existT o x := e in
  let to p := mk_order p (booted m) in
  (match o return answer o -> order with
   | TransitionToState t _ => fun r =>
       match at_ m with
       | Fresh => to (if t =? kInit then (if reached t r then AtInit else Fresh) else Wrong)
       | AtInit => to (if t =? kBoot then (if reached t r then AtBoot else AtInit) else Wrong)
       | Leaving => m
       | _ => to Wrong
       end
   | WriteFile _ _ | RemoveFile _ | ActivateFirmware _ => fun _ => match at_ m with AtBoot => m | _ => to Wrong end
   | WriteSii c => fun _ => match at_ m with AtBoot => if sii_ok c then m else to Wrong | _ => to Wrong end
   | Report (Start i) => fun _ => if String.eqb i kFinalStateStep then match at_ m with AtBoot => to Leaving | _ => to Wrong end else m
   | Report (Succeed i _) => fun _ => if String.eqb i kBootStep then mk_order (at_ m) true else m
   | _ => fun _ => m
   end) x.

Definition watching : order := mk_order Fresh false.

(** Calls that leave a state of the observer as it is. *)
Definition ignored (m : order) (o : op) : Prop := forall x, watch_order m (ev o x) = m.

Lemma seen_ignored m {A} (s : script answer A) Q : all_ops (ignored m) s -> (forall a, Q a m) -> seen watch_order s m Q.
Proof.
  intros Hs HQ. induction s as [a|o k IH]; cbn [seen all_ops] in *; [apply HQ|]. destruct Hs as [Ho Hk]. intros x. rewrite (Ho x). auto.
Qed.

Definition harmless (o : op) : Prop :=
  match o with
  | TransitionToState _ _ | WriteFile _ _ | RemoveFile _ | ActivateFirmware _ | WriteSii _ => False
  | Report (Start i) => String.eqb i kFinalStateStep = false
  | Report (Succeed i _) => String.eqb i kBootStep = false
  | _ => True
  end.
Lemma harmless_ignored m o : harmless o -> ignored m o.
Proof.
  intros H x. destruct m as [p b]. destruct o as [|r| | | | | | | | | | | | | | | |]; try done. destruct r; cbn in *; try done; by rewrite H.
Qed.

(** What may be called in BOOT, and on the way out. *)
Definition in_boot (o : op) : Prop := match o with WriteFile _ _ | RemoveFile _ | ActivateFirmware _ => True | WriteSii c => sii_ok c = true | _ => harmless o end.
Definition on_exit (o : op) : Prop := match o with TransitionToState _ _ => True | _ => harmless o end.
Lemma in_boot_ignored b o : in_boot o -> ignored (mk_order AtBoot b) o.
Proof. destruct o as [|r| | | | | | | | | | | | | | | |]; cbn [in_boot]; intros H; try done; try (by apply harmless_ignored). intros x. cbn. by rewrite H. Qed.
Lemma on_exit_ignored b o : on_exit o -> ignored (mk_order Leaving b) o.
Proof. destruct o; cbn [on_exit]; intros H; try done; by apply harmless_ignored. Qed.

Lemma all_ops_mono (p q : op -> Prop) {A} (s : script answer A) : (forall o, p o -> q o) -> all_ops p s -> all_ops q s.
Proof. intros Hpq. induction s as [a|o k IH]; cbn [all_ops]; [done|]. intros [Ho Hk]. split; auto. Qed.

Lemma sleep_ops (p : op -> Prop) n ms : p StopRequested -> (forall t, p (SleepFor t)) -> all_ops p (sleep_slices n ms).
Proof.
  intros H1 H2. revert ms. induction n as [|n IH]; intros ms; cbn [sleep_slices]; [by repeat all_ops_step|].
  destruct (ms <=? 0); [by repeat all_ops_step|]. apply all_ops_bind; [split; [done|intros; exact I]|]. intros []; [exact I|].
  apply all_ops_bind; [split; [done|intros; exact I]|]. intros _. apply IH.
Qed.

Lemma write_ops (p : op -> Prop) left e f c : p StopRequested -> (forall t, p (SleepFor t)) -> p DeviceAt -> p (WriteFile f c) -> all_ops p (write_attempts left e f c).
Proof.
  intros H1 H2 H3 H4. revert e. induction left as [|left IH]; intros e; cbn [write_attempts]; [exact I|].
  apply all_ops_bind; [split; [done|intros; exact I]|]. intros []; [exact I|].
  apply all_ops_bind; [split; [done|intros; exact I]|]. intros []; [|exact I]. cbn [negb].
  apply all_ops_bind; [split; [done|intros; exact I]|]. intros [?|e']; [exact I|]. destruct (retry e'); [|exact I].
  destruct left; [apply IH|]. apply all_ops_bind; [by apply sleep_ops|]. intros []; [apply IH|exact I].
Qed.

Lemma await_ops (p : op -> Prop) n t : p DeviceReachability -> p Now -> (forall t, p (SleepFor t)) -> p OutOfFuel ->
  all_ops p (await_silence n t) /\ all_ops p (await_answer n t).
Proof.
  intros H1 H2 H3 H4. assert (Hr : all_ops p readReachability) by (split; [done|intros; exact I]).
  split; revert t; induction n as [|n IH]; intros t; cbn [await_silence await_answer]; try (split; [done|intros; exact I]).
  all: apply all_ops_bind; [exact Hr|]; intros [[]|]; try exact I; (apply all_ops_bind; [split; [done|intros; exact I]|]); intros now; destruct (_ <=? now); try exact I;
    (apply all_ops_bind; [split; [done|intros; exact I]|]); intros; apply IH.
Qed.

Lemma leave_ops (p : op -> Prop) f c : (forall a t, p (TransitionToState a t)) -> p DeviceReachability -> p Now -> (forall t, p (SleepFor t)) -> p OutOfFuel -> all_ops p (leaveBoot f c).
Proof.
  intros H0 H1 H2 H3 H4.
  repeat lazymatch goal with
  | |- all_ops _ (await_silence _ _) => apply await_ops; done
  | |- all_ops _ (await_answer _ _) => apply await_ops; done
  | |- _ => all_ops_step
  end.
Qed.

(** ** What an installation does to the device *)
Lemma transition_leaves target timeout b Q : (forall x, Q x (mk_order Leaving b)) -> seen watch_order (transitionTo target timeout) (mk_order Leaving b) Q.
Proof. intros HQ. apply seen_ignored; [|done]. apply (all_ops_mono on_exit); [apply on_exit_ignored|repeat all_ops_step]. Qed.

Lemma finish_ordered failure c : seen watch_order (finish failure c) (mk_order AtBoot true) (fun _ m => m = mk_order Leaving true).
Proof.
  unfold finish. apply seen_bind. cbn [seen start call]. intros []. cbv [watch_order ev]. cbn [String.eqb]. change (String.eqb kFinalStateStep kFinalStateStep) with true.
  cbn [at_ booted]. apply seen_bind. apply seen_ignored.
  { apply (all_ops_mono on_exit); [apply on_exit_ignored|]. by apply leave_ops. }
  intros [[]|e]; cbv beta iota zeta; apply seen_bind; cbn [seen succeed fail call]; intros []; done.
Qed.

Lemma in_boot_seen {A} (s : script answer A) Q : all_ops in_boot s -> (forall a, Q a (mk_order AtBoot true)) -> seen watch_order s (mk_order AtBoot true) Q.
Proof. intros Hs. apply seen_ignored. apply (all_ops_mono in_boot); [apply in_boot_ignored|done]. Qed.

Lemma stage_ordered {A} step (m : fallible A) payload k : String.eqb step kFinalStateStep = false -> String.eqb step kBootStep = false -> all_ops in_boot m ->
  (forall a, seen watch_order (k a) (mk_order AtBoot true) (fun _ m => m = mk_order Leaving true)) ->
  seen watch_order (stage step m payload k) (mk_order AtBoot true) (fun _ m => m = mk_order Leaving true).
Proof.
  intros H1 H2 Hm Hk. unfold stage. apply seen_bind, in_boot_seen; [split; [exact H1|intros; exact I]|]. intros _. apply seen_bind, in_boot_seen; [done|].
  intros [a|e]; apply seen_bind, in_boot_seen; try (split; [done || exact H2|intros; exact I]); intros _; [apply Hk|apply finish_ordered].
Qed.

Lemma writeFile_boot f c : all_ops in_boot (writeFileWithRetry f c).
Proof. by apply write_ops. Qed.
Lemma write_binary_boot b n a : all_ops in_boot (write_binary b n a).
Proof.
  destruct b as [f|]; cbn [write_binary]; [|exact I]. unfold try_, explained.
  apply all_ops_bind; [apply all_ops_bind; [apply writeFile_boot|intros ?; exact I]|]. by intros [].
Qed.
Lemma write_extras_boot l r : all_ops in_boot (write_extras l r).
Proof.
  revert r. induction l as [|x l IH]; intros r; cbn [write_extras]; [exact I|].
  apply all_ops_bind; [by split|]. intros []; [exact I|]. apply all_ops_bind; [by split|]. intros _. apply all_ops_bind; [apply writeFile_boot|]. intros ?. apply IH.
Qed.
Lemma write_sii_boot p : (forall f, sii p = Some f -> sii_ok (f_content f) = true) -> all_ops in_boot (write_sii p).
Proof.
  intros H. unfold write_sii. destruct (sii p) as [f|]; [|exact I]. specialize (H f eq_refl). unfold try_, explained.
  apply all_ops_bind; [by split|]. intros []; [|exact I]. apply all_ops_bind; [by split|]. intros []; [|exact I]. cbn [negb].
  apply all_ops_bind; [apply all_ops_bind; [by split|intros ?; exact I]|]. by intros [].
Qed.

Lemma activation_ordered p : seen watch_order (activation_stage p) (mk_order AtBoot true) (fun _ m => m = mk_order Leaving true).
Proof.
  unfold activation_stage. apply seen_bind, in_boot_seen; [by split|]. intros _.
  assert (Hsay : forall s (k : unit -> fallible unit), (forall c, seen watch_order (k c) (mk_order AtBoot true) (fun _ m => m = mk_order Leaving true)) ->
    seen watch_order (bind (succeed kActivateFirmwareStep s) k) (mk_order AtBoot true) (fun _ m => m = mk_order Leaving true)).
  { intros s k Hk. apply seen_bind, in_boot_seen; [by split|done]. }
  assert (Hact : seen watch_order (bind activate (fun x =>
      match x with
      | Unexpected e => bind (fail kActivateFirmwareStep e) (fun _ => finish (Some e) (match comBinary p with Some _ => true | None => false end))
      | Value kRestarted => bind (succeed kActivateFirmwareStep (said "the device restarted into the new firmware")) (fun _ => finish None false)
      | Value kOnBootExit => bind (succeed kActivateFirmwareStep (said "applied when the device leaves BOOT")) (fun _ => finish None (match comBinary p with Some _ => true | None => false end))
      end)) (mk_order AtBoot true) (fun _ m => m = mk_order Leaving true)).
  { apply seen_bind, in_boot_seen; [repeat all_ops_step|]. intros [[]|e]; [apply Hsay; intros; apply finish_ordered..|].
    apply seen_bind, in_boot_seen; [by split|]. intros _. apply finish_ordered. }
  destruct (appBinary p) as [a|]; [exact Hact|]. destruct (comBinary p) as [c|]; [exact Hact|]. apply Hsay. intros. apply finish_ordered.
Qed.

(** The phases of a run, and that only valid images were written. *)
Definition orderly (m : order) : Prop := at_ m <> Wrong /\ (booted m = true -> at_ m = Leaving).

Lemma fresh_seen {A} (s : script answer A) m Q : all_ops harmless s -> (forall a, Q a m) -> seen watch_order s m Q.
Proof. intros Hs. apply seen_ignored. apply (all_ops_mono harmless); [apply harmless_ignored|done]. Qed.

Lemma transition_phase target timeout p q b Q : target = kInit /\ p = Fresh /\ q = AtInit \/ target = kBoot /\ p = AtInit /\ q = AtBoot ->
  (forall e, Q (Unexpected e) (mk_order p b)) -> Q (Value tt) (mk_order q b) -> seen watch_order (transitionTo target timeout) (mk_order p b) Q.
Proof.
  intros Hp Hf Hok. unfold transitionTo, try_. apply seen_bind. cbn [seen call].
  destruct Hp as [(-> & -> & ->)|(-> & -> & ->)]; intros [[|s ss]|e]; try apply Hf;
    cbv [watch_order ev at_ booted reached]; cbn [Z.eqb Pos.eqb kInit kBoot]; destruct (alState s =? _); cbn [seen]; (exact Hok || apply Hf).
Qed.

Lemma enterBoot_ordered warmUp Q : (forall e p, p = Fresh \/ p = AtInit \/ p = AtBoot -> Q (Unexpected e) (mk_order p false)) ->
  Q (Value tt) (mk_order AtBoot false) -> seen watch_order (enterBoot warmUp) watching Q.
Proof.
  intros He Hok. unfold enterBoot, try_, explained. apply seen_bind, seen_bind.
  apply (transition_phase kInit _ Fresh AtInit); [by auto|intros e; cbn [seen]; auto|]. cbn [seen]. apply seen_bind, seen_bind.
  apply (transition_phase kBoot _ AtInit AtBoot); [by auto|intros e; cbn [seen]; auto|]. cbn [seen].
  apply seen_bind, fresh_seen; [by apply sleep_ops|]. intros []; cbn [seen]; auto.
Qed.

Lemma install_seen : seen watch_order runFirmwareInstallationProcedure watching (fun _ m => orderly m).
Proof.
  assert (Hend : forall p, p = Fresh \/ p = AtInit \/ p = AtBoot -> orderly (mk_order p false)) by (intros p Hp; split; cbn; [naive_solver|done]).
  unfold runFirmwareInstallationProcedure, try_. apply seen_bind.
  assert (Hpack : forall Q : expected string FirmwarePackage -> order -> Prop, (forall e, Q (Unexpected e) watching) ->
    (forall p, (forall f, sii p = Some f -> sii_ok (f_content f) = true) -> Q (Value p) watching) -> seen watch_order package_step watching Q).
  { intros Q He Hp. unfold package_step. apply seen_bind. cbn [seen start call]. intros []. apply seen_bind. cbn [seen call]. intros [p|e].
    2: { apply seen_bind. cbn [seen fail call]. intros []. apply He. }
    unfold sii_ok in Hp. specialize (Hp p). cbn [watch_order ev]. destruct (sii p) as [f|] eqn:Ef.
    - destruct (Sii.validateSiiImage (f_content f)) as [[[]|e]|] eqn:Ev; apply seen_bind; cbn [seen succeed fail call]; intros []; try apply He; apply Hp; intros f' [= <-]; by rewrite Ev.
    - apply seen_bind. cbn [seen succeed call]. intros []. apply Hp. done. }
  apply Hpack; [intros e; apply Hend; auto|]. clear Hpack. intros p Hsii.
  apply seen_bind, fresh_seen; [repeat all_ops_step|]. intros _.
  apply seen_bind, fresh_seen; [by split|]. intros []; [apply Hend; auto|].
  apply seen_bind, fresh_seen; [by split|]. intros _. apply seen_bind, enterBoot_ordered.
  { intros e ph Hph. apply seen_bind, fresh_seen; [by split|]. intros _. by apply Hend. }
  apply seen_bind. cbn [seen succeed call]. intros []. change (watch_order (mk_order AtBoot false) (ev (Report (Succeed kBootStep Diagnostics.JNull)) tt)) with (mk_order AtBoot true).
  apply (seen_mono _ _ (fun _ m => m = mk_order Leaving true)); [intros a m ->; by split|].
  unfold extras_stage. assert (Hrest : seen watch_order
     (stage kSiiStep (write_sii p) said (fun _ =>
            stage kAppFirmwareStep (write_binary (appBinary p) kAppFirmwareFoeName "the package carries no application firmware, or it was skipped") said (fun _ =>
            stage kComFirmwareStep (write_binary (comBinary p) kComFirmwareFoeName "the package carries no COM firmware") said (fun _ =>
            activation_stage p)))) (mk_order AtBoot true) (fun _ m => m = mk_order Leaving true)).
  { apply stage_ordered; [done|done|by apply write_sii_boot|]. intros _. apply stage_ordered; [done|done|apply write_binary_boot|]. intros _.
    apply stage_ordered; [done|done|apply write_binary_boot|]. intros _. apply activation_ordered. }
  destruct (extras p) as [|x l]; apply stage_ordered; try done. apply write_extras_boot.
Qed.

Lemma wrong_stays tr b : at_ (foldl watch_order (mk_order Wrong b) tr) = Wrong.
Proof.
  revert b. induction tr as [|[o x] tr IH]; intros b; [done|]. cbn [foldl].
  destruct o as [|r| | | | | | | | | | | | | | | |]; try apply IH. destruct r; cbn; repeat case_match; apply IH.
Qed.

Lemma written_valid tr : forall m c x, at_ (foldl watch_order m tr) <> Wrong -> ev (WriteSii c) x ∈ tr -> sii_ok c = true.
Proof.
  induction tr as [|e tr IH]; intros m c x Hw; [by intros ?%elem_of_nil|]. rewrite elem_of_cons. intros [<-|Hin]; [|by eapply IH].
  cbn [foldl] in Hw. cbv [watch_order ev] in Hw. destruct (at_ m); try (by rewrite wrong_stays in Hw). destruct (sii_ok c); [done|]. by rewrite wrong_stays in Hw.
Qed.


(** ** What a successful installation did *)

(** The device's AL state: a transition reports the state the device is in, and a report or a look at the
    stop token leaves it; anything else may change it. *)
Definition acts (e : event answer) (al al' : Z) : Prop :=
  let 'existT o x := e in
  (match o return answer o -> Prop with
   | TransitionToState _ _ => fun r => match r with Value (s :: _) => al' = alState s | _ => True end
   | Report _ | StopRequested => fun _ => al' = al
   | _ => fun _ => True
   end) x.

Lemma write_acknowledged left f c : forall e h al, wp acts (write_attempts left e f c) h al (fun x h _ => x = Value tt -> ev (WriteFile f c) (Value tt) ∈ h).
Proof.
  induction left as [|left IH]; intros e h al; cbn [write_attempts]; [done|]. apply wp_bind. cbn [wp call]. intros [] al1 _; [done|].
  apply wp_bind. cbn [wp call]. intros [] al2 _; [|done]. apply wp_bind. cbn [wp call]. intros [[]|er] al3 _; [intros _; apply elem_of_app; right; by left|].
  destruct (retry er); [|done]. destruct left as [|left]; [apply IH|]. apply wp_bind. eapply wp_mono; [|apply (wp_all_ops acts (fun _ => True) (fun _ _ => True)); [done| |done]].
  - intros [] h4 al4 _; [apply IH|done].
  - by apply sleep_ops.
Qed.

Lemma transition_reaches target t h al : wp acts (transitionTo target t) h al (fun x _ al' => x = Value tt -> al' = target).
Proof.
  unfold transitionTo, try_. apply wp_bind. cbn [wp call]. intros [[|s ss]|e] al' Ha; [done| |done]. cbn in Ha. destruct (Z.eqb_spec (alState s) target); cbn [wp]; [congruence|done].
Qed.

Definition succeeds {A} (m : fallible A) (h : trace) (al : Z) (Q : A -> trace -> Z -> Prop) : Prop :=
  wp acts m h al (fun x h al => match x with Value a => Q a h al | Unexpected _ => True end).

Lemma succeeds_try {A B} (m : fallible A) (k : A -> fallible B) h al Q R :
  succeeds m h al R -> (forall a h al, R a h al -> succeeds (k a) h al Q) -> succeeds (try_ m k) h al Q.
Proof. intros Hm Hk. unfold succeeds, try_. apply wp_bind. eapply wp_mono; [|exact Hm]. intros [a|e] h' al' H; [by apply Hk|done]. Qed.
Lemma succeeds_explained {A} why (m : fallible A) h al Q : succeeds m h al Q -> succeeds (explained why m) h al Q.
Proof. intros Hm. unfold succeeds, explained. apply wp_bind. eapply wp_mono; [|exact Hm]. by intros [a|e] h' al' H. Qed.
Lemma succeeds_any {A} (m : fallible A) h al : succeeds m h al (fun _ _ _ => True).
Proof. unfold succeeds. revert h al. induction m as [[a|e]|o k IH]; intros h al; cbn [wp]; auto. Qed.

Lemma transition_succeeds target t h al : succeeds (transitionTo target t) h al (fun _ _ al' => al' = target).
Proof. eapply wp_mono; [|apply transition_reaches]. intros [[]|e] h' al' H; auto. Qed.

Definition final_states : list Z := [kInit; kPreOp; kBoot; kSafeOp; kOp].

Lemma leaveBoot_reaches f c h al : f ∈ final_states -> f <> kBoot -> f <> kInit \/ c = false -> succeeds (leaveBoot f c) h al (fun _ _ al' => al' = f).
Proof.
  intros Hf Hb Hc. unfold final_states in Hf. rewrite !elem_of_cons, elem_of_nil in Hf. unfold leaveBoot. rewrite (proj2 (Z.eqb_neq f kBoot) Hb).
  eapply succeeds_try; [apply succeeds_explained, transition_succeeds|]. intros _ h1 al1 ->.
  apply (succeeds_try _ _ _ _ _ (fun _ _ al => c = false -> al = kInit)).
  { destruct c; [eapply wp_mono; [|apply succeeds_explained, succeeds_any]; by intros [] ? ?|]. by cbn. }
  intros _ h2 al2 H2. destruct (Z.eqb_spec f kInit) as [->|]; [cbn; apply H2; by destruct Hc|].
  eapply succeeds_try; [apply succeeds_explained, transition_succeeds|]. intros _ h3 al3 ->. destruct (Z.eqb_spec f kPreOp); [by cbn|].
  eapply succeeds_try; [apply succeeds_explained, transition_succeeds|]. intros _ h4 al4 ->. destruct (Z.eqb_spec f kSafeOp); [by cbn|].
  apply succeeds_explained. eapply wp_mono; [|apply transition_succeeds]. intros [[]|e] h5 al5 H5; [|done]. rewrite H5. symmetry. by destruct Hf as [?|[?|[?|[?|[?|[]]]]]].
Qed.

(** A failed run does not succeed on its way out. *)
Lemma finish_fails e c h al Q : succeeds (finish (Some e) c) h al Q.
Proof.
  unfold succeeds, finish. apply wp_bind. cbn [wp start call]. intros [] al1 _. apply wp_bind. eapply wp_mono; [|apply (succeeds_any (leaveBoot (finalState request) c))].
  intros [[]|e'] h2 al2 _; cbv beta iota zeta; apply wp_bind; cbn [wp succeed fail call]; by intros [].
Qed.

Lemma finish_reaches c h al : finalState request ∈ [kPreOp; kSafeOp; kOp] -> succeeds (finish None c) h al (fun _ _ al' => al' = finalState request).
Proof.
  intros Hf. unfold succeeds, finish. apply wp_bind. cbn [wp start call]. intros [] al1 _. apply wp_bind.
  eapply wp_mono; [|apply (leaveBoot_reaches (finalState request) c)].
  - intros [[]|e'] h2 al2 H; cbv beta iota zeta; apply wp_bind; cbn [wp succeed fail call]; intros [] al3 Ha; [by cbn in Ha; congruence|done].
  - unfold final_states. rewrite !elem_of_cons, elem_of_nil in *. naive_solver.
  - rewrite !elem_of_cons, elem_of_nil in Hf. intros E. rewrite E in Hf. unfold kPreOp, kSafeOp, kOp, kBoot in Hf. naive_solver.
  - left. rewrite !elem_of_cons, elem_of_nil in Hf. intros E. rewrite E in Hf. unfold kPreOp, kSafeOp, kOp, kInit in Hf. naive_solver.
Qed.

(** What is in the history stays there. *)
Definition lasting (F : trace -> Prop) : Prop := forall h t, F h -> F (h ++ t).
Lemma lasting_in e : lasting (fun h => e ∈ h).
Proof. intros h t. rewrite elem_of_app. auto. Qed.

Lemma stage_succeeds {A} step (m : fallible A) payload k h al (F : trace -> Prop) (G : A -> trace -> Prop) Q : lasting F -> (forall a, lasting (G a)) -> F h ->
  (forall h al, F h -> succeeds m h al (fun a h _ => G a h)) -> (forall a h al, F h -> G a h -> succeeds (k a) h al Q) -> succeeds (stage step m payload k) h al Q.
Proof.
  intros HF HG Hh Hm Hk. unfold succeeds, stage. apply wp_bind. cbn [wp start call]. intros [] al1 _. apply wp_bind.
  eapply wp_mono; [|apply (wp_keep acts F); [exact HF|by apply HF|apply Hm, HF, Hh]].
  intros [a|e] h2 al2 [H2 Ha]; apply wp_bind; cbn [wp succeed fail call]; intros [] al3 _; [|apply finish_fails]. apply Hk; [by apply HF|by apply HG].
Qed.

Definition opened_as (p : FirmwarePackage) (h : trace) : Prop := ev OpenFirmwarePackage (Value p) ∈ h.
Definition wrote (b : option FirmwarePackageFile) (foeName : string) (h : trace) : Prop :=
  forall f, b = Some f -> ev (WriteFile foeName (f_content f)) (Value tt) ∈ h.
Definition wrote_sii (p : FirmwarePackage) (h : trace) : Prop :=
  forall f, sii p = Some f -> ev (WriteSii (f_content f)) (Value tt) ∈ h \/ ev SupportsEsc false ∈ h.
Definition activated (p : FirmwarePackage) (h : trace) : Prop :=
  (appBinary p <> None \/ comBinary p <> None) -> exists t a, ev (ActivateFirmware t) (Value a) ∈ h.

Lemma lasting_wrote b n : lasting (wrote b n).
Proof. intros h t H f Hf. by apply lasting_in, H. Qed.
Lemma lasting_wrote_sii p : lasting (wrote_sii p).
Proof. intros h t H f Hf. destruct (H f Hf); [left|right]; by apply lasting_in. Qed.
Lemma lasting_and F G : lasting F -> lasting G -> lasting (fun h => F h /\ G h).
Proof. intros HF HG h t [H1 H2]. split; auto. Qed.

Lemma write_binary_succeeds b n absent h al : succeeds (write_binary b n absent) h al (fun _ h _ => wrote b n h).
Proof.
  destruct b as [f|]; cbn [write_binary]; [|by intros f]. apply (succeeds_try _ _ _ _ _ (fun _ h _ => wrote (Some f) n h)).
  - apply succeeds_explained. eapply wp_mono; [|apply write_acknowledged]. intros [[]|e] h' al' H; [|done]. intros f' [= <-]. auto.
  - intros _ h' al' H. exact H.
Qed.

Lemma write_sii_succeeds p h al : succeeds (write_sii p) h al (fun _ h _ => wrote_sii p h).
Proof.
  unfold write_sii. destruct (sii p) as [f|] eqn:Ef; [|cbn; intros f; congruence]. unfold succeeds. apply wp_bind. cbn [wp call]. intros [] al1 _; [|done].
  apply wp_bind. cbn [wp call]. assert (Hf : forall f', sii p = Some f' -> f' = f) by congruence.
  intros [] al2 _; [|cbn; intros f' Hf'; right; apply elem_of_app; right; by left]. cbn [negb].
  apply (succeeds_try _ _ _ _ _ (fun _ h _ => ev (WriteSii (f_content f)) (Value tt) ∈ h)).
  - apply succeeds_explained. unfold succeeds. cbn [wp call]. intros [[]|e] al3 _; [|done]. apply elem_of_app. right. by left.
  - intros _ h' al' H. cbn. intros f' Hf'. rewrite (Hf f' Hf'). by left.
Qed.

Lemma activate_succeeds h al : succeeds activate h al (fun _ h _ => exists t a, ev (ActivateFirmware t) (Value a) ∈ h).
Proof.
  unfold succeeds, activate. apply wp_bind. cbn [wp call]. intros [] al1 _; [|done]. cbn [negb]. apply succeeds_explained. unfold succeeds. cbn [wp call].
  intros [a|e] al2 _; [|done]. exists kActivationTimeout, a. apply elem_of_app. right. by left.
Qed.

Lemma finish_keeps (G : trace -> Prop) c h al : finalState request ∈ [kPreOp; kSafeOp; kOp] -> lasting G -> G h ->
  succeeds (finish None c) h al (fun _ h al' => G h /\ al' = finalState request).
Proof.
  intros Hs HG H1. eapply wp_mono; [|apply (wp_keep acts G); [exact HG|exact H1|exact (finish_reaches c h al Hs)]]. intros [a|e] h2 al2 [H2 H3]; auto.
Qed.

Lemma activation_succeeds p h al (F : trace -> Prop) : lasting F -> F h -> finalState request ∈ [kPreOp; kSafeOp; kOp] ->
  succeeds (activation_stage p) h al (fun _ h al' => (F h /\ activated p h) /\ al' = finalState request).
Proof.
  intros HF Hh Hs. unfold succeeds, activation_stage. apply wp_bind. cbn [wp start call]. intros [] al1 _. pose proof (HF h [ev (Report (Start kActivateFirmwareStep)) tt] Hh) as Hh1.
  assert (HG : lasting (fun h => F h /\ activated p h)).
  { apply lasting_and; [done|]. intros h1 t H Hn. destruct (H Hn) as (x & a & Hin). exists x, a. by apply lasting_in. }
  assert (Hsay : forall v c h al, F h /\ activated p h -> succeeds (bind (succeed kActivateFirmwareStep v) (fun _ => finish None c)) h al
    (fun _ h al' => (F h /\ activated p h) /\ al' = finalState request)).
  { intros v c h1 al2 H1. unfold succeeds. apply wp_bind. cbn [wp succeed call]. intros [] al3 _. apply (finish_keeps (fun h => F h /\ activated p h)); [done|done|]. by apply HG. }
  assert (Hact : succeeds (bind activate (fun x =>
      match x with
      | Unexpected e => bind (fail kActivateFirmwareStep e) (fun _ => finish (Some e) (match comBinary p with Some _ => true | None => false end))
      | Value kRestarted => bind (succeed kActivateFirmwareStep (said "the device restarted into the new firmware")) (fun _ => finish None false)
      | Value kOnBootExit => bind (succeed kActivateFirmwareStep (said "applied when the device leaves BOOT")) (fun _ => finish None (match comBinary p with Some _ => true | None => false end))
      end)) (h ++ [ev (Report (Start kActivateFirmwareStep)) tt]) al1 (fun _ h al' => (F h /\ activated p h) /\ al' = finalState request)).
  { unfold succeeds. apply wp_bind. eapply wp_mono; [|apply (wp_keep acts F); [exact HF|exact Hh1|apply activate_succeeds]].
    intros [a|e] h2 al2 [H2 H3].
    - assert (Ha : F h2 /\ activated p h2) by (split; [done|]; by intros _). destruct a; by apply Hsay.
    - apply wp_bind. cbn [wp fail call]. intros [] al3 _. apply finish_fails. }
  destruct (appBinary p) as [a|] eqn:Ea; [exact Hact|]. destruct (comBinary p) as [c|] eqn:Ec; [exact Hact|]. apply Hsay. split; [done|].
  intros [H|H]; congruence.
Qed.

Lemma package_opened h al : succeeds package_step h al (fun p h _ => opened_as p h).
Proof.
  unfold succeeds, package_step. apply wp_bind. cbn [wp start call]. intros [] al1 _. apply wp_bind. cbn [wp call]. intros [p|e] al2 _.
  2: { apply wp_bind. cbn [wp fail call]. by intros []. }
  assert (Hin : forall h, opened_as p (h ++ [ev OpenFirmwarePackage (Value p)])) by (intros h'; apply elem_of_app; right; by left).
  destruct (sii p) as [f|]; [destruct (Sii.validateSiiImage (f_content f)) as [[[]|e]|]|]; apply wp_bind; cbn [wp succeed fail call]; intros [] al3 _; try done; apply lasting_in, Hin.
Qed.

Lemma stages_succeed p h al : opened_as p h -> finalState request ∈ [kPreOp; kSafeOp; kOp] ->
  succeeds (extras_stage p (
            stage kSiiStep (write_sii p) said (fun _ =>
            stage kAppFirmwareStep (write_binary (appBinary p) kAppFirmwareFoeName "the package carries no application firmware, or it was skipped") said (fun _ =>
            stage kComFirmwareStep (write_binary (comBinary p) kComFirmwareFoeName "the package carries no COM firmware") said (fun _ =>
            activation_stage p))))) h al
    (fun _ h al' => opened_as p h /\ wrote (appBinary p) kAppFirmwareFoeName h /\ wrote (comBinary p) kComFirmwareFoeName h /\ wrote_sii p h /\
      activated p h /\ al' = finalState request).
Proof.
  intros Hp Hs.
  assert (Hrest : forall h al, opened_as p h -> succeeds (
            stage kSiiStep (write_sii p) said (fun _ =>
            stage kAppFirmwareStep (write_binary (appBinary p) kAppFirmwareFoeName "the package carries no application firmware, or it was skipped") said (fun _ =>
            stage kComFirmwareStep (write_binary (comBinary p) kComFirmwareFoeName "the package carries no COM firmware") said (fun _ =>
            activation_stage p)))) h al
    (fun _ h al' => opened_as p h /\ wrote (appBinary p) kAppFirmwareFoeName h /\ wrote (comBinary p) kComFirmwareFoeName h /\ wrote_sii p h /\
      activated p h /\ al' = finalState request)).
  { clear h al Hp. intros h al Hp.
    pose (F1 := opened_as p). pose (F2 := fun h => F1 h /\ wrote_sii p h). pose (F3 := fun h => F2 h /\ wrote (appBinary p) kAppFirmwareFoeName h).
    pose (F4 := fun h => F3 h /\ wrote (comBinary p) kComFirmwareFoeName h).
    assert (L1 : lasting F1) by apply lasting_in. assert (L2 : lasting F2) by (apply lasting_and; [done|apply lasting_wrote_sii]).
    assert (L3 : lasting F3) by (apply lasting_and; [done|apply lasting_wrote]). assert (L4 : lasting F4) by (apply lasting_and; [done|apply lasting_wrote]).
    apply (stage_succeeds _ _ _ _ _ _ F1 (fun _ => wrote_sii p)); [done|intros; apply lasting_wrote_sii|done|intros; apply write_sii_succeeds|]. intros _ h1 al1 A1 B1.
    apply (stage_succeeds _ _ _ _ _ _ F2 (fun _ => wrote (appBinary p) kAppFirmwareFoeName)); [done|intros; apply lasting_wrote|by split|intros; apply write_binary_succeeds|].
    intros _ h2 al2 A2 B2.
    apply (stage_succeeds _ _ _ _ _ _ F3 (fun _ => wrote (comBinary p) kComFirmwareFoeName)); [done|intros; apply lasting_wrote|by split|intros; apply write_binary_succeeds|].
    intros _ h3 al3 A3 B3. eapply wp_mono; [|apply (activation_succeeds p h3 al3 F4 L4 (conj A3 B3) Hs)].
    intros [[]|e] h4 al4 H; [|done]. destruct H as [[[[[? ?] ?] ?] ?] ?]. by split_and!. }
  unfold extras_stage. destruct (extras p) as [|x l];
    (apply (stage_succeeds _ _ _ _ _ _ (opened_as p) (fun _ _ => True)); [apply lasting_in|done|done|intros; apply succeeds_any|]; intros; by apply Hrest).
Qed.


(** ** The waits end *)

(** A clock: it never runs backwards, [Now] tells it, and a sleep takes at least its time. *)
Definition ticks (e : event answer) (t t' : Z) : Prop :=
  t <= t' /\
  let 'existT o x := e in
  (match o return answer o -> Prop with Now => fun now => t <= now <= t' | SleepFor ms => fun _ => t + ms <= t' | _ => fun _ => True end) x.

Definition is_out (e : event answer) : bool := match projT1 e with OutOfFuel => true | _ => false end.
Definition fuelled {A} (s : script answer A) : Prop :=
  forall h t, existsb is_out h = false -> wp ticks s h t (fun _ h _ => existsb is_out h = false).

Lemma fuelled_bind {A B} (s : script answer A) (f : A -> script answer B) : fuelled s -> (forall a, fuelled (f a)) -> fuelled (bind s f).
Proof. intros Hs Hf h t Hh. apply wp_bind. eapply wp_mono; [|exact (Hs h t Hh)]. intros a h' t' H. by apply Hf. Qed.

Definition not_out (o : op) : Prop := match o with OutOfFuel => False | _ => True end.
Lemma fuelled_calls {A} (s : script answer A) : all_ops not_out s -> fuelled s.
Proof.
  intros Hs h t Hh. apply (wp_all_ops ticks not_out (fun h _ => existsb is_out h = false)); [|done|done].
  intros o x h' d d' Ho HI _. rewrite existsb_app, HI. by destruct o.
Qed.

Lemma silence_fuelled n : forall w h t, (1 <= n)%nat -> w - t <= kComRestartPoll * (Z.of_nat n - 1) -> existsb is_out h = false ->
  wp ticks (await_silence n w) h t (fun _ h _ => existsb is_out h = false).
Proof.
  induction n as [|n IH]; intros w h t Hn Hw Hh; [lia|]. cbn [await_silence]. apply wp_bind. unfold readReachability. apply wp_bind. cbn [wp call].
  intros r t1 [H1 _]. cbn [wp]. assert (Hh1 : existsb is_out (h ++ [ev DeviceReachability r]) = false) by (rewrite existsb_app, Hh; done).
  destruct (match r with Value (x :: _) => Some x | _ => None end) as [[]|]; try exact Hh1.
  apply wp_bind. cbn [wp call]. intros now t2 [H2 H3]. cbn in H3.
  assert (Hh2 : existsb is_out ((h ++ [ev DeviceReachability r]) ++ [ev Now now]) = false) by (rewrite existsb_app, Hh1; done).
  destruct (Z.leb_spec w now); [exact Hh2|]. apply wp_bind. cbn [wp call]. intros [] t3 [H4 H5]. cbn in H5. unfold kComRestartPoll in *.
  apply IH; [lia|lia|]. rewrite existsb_app, Hh2. done.
Qed.

Lemma answer_fuelled n : forall w h t, (1 <= n)%nat -> w - t <= kComRestartPoll * (Z.of_nat n - 1) -> existsb is_out h = false ->
  wp ticks (await_answer n w) h t (fun _ h _ => existsb is_out h = false).
Proof.
  induction n as [|n IH]; intros w h t Hn Hw Hh; [lia|]. cbn [await_answer]. apply wp_bind. unfold readReachability. apply wp_bind. cbn [wp call].
  intros r t1 [H1 _]. cbn [wp]. assert (Hh1 : existsb is_out (h ++ [ev DeviceReachability r]) = false) by (rewrite existsb_app, Hh; done).
  assert (Hnext : wp ticks (bind (call Now) (fun now : Z => if w <=? now then Ret false else bind (call (SleepFor kComRestartPoll)) (fun _ => await_answer n w)))
    (h ++ [ev DeviceReachability r]) t1 (fun _ h _ => existsb is_out h = false)).
  { apply wp_bind. cbn [wp call]. intros now t2 [H2 H3]. cbn in H3.
    assert (Hh2 : existsb is_out ((h ++ [ev DeviceReachability r]) ++ [ev Now now]) = false) by (rewrite existsb_app, Hh1; done).
    destruct (Z.leb_spec w now); [exact Hh2|]. apply wp_bind. cbn [wp call]. intros [] t3 [H4 H5]. cbn in H5. unfold kComRestartPoll in *.
    apply IH; [lia|lia|]. rewrite existsb_app, Hh2. done. }
  destruct (match r with Value (x :: _) => Some x | _ => None end) as [[]|]; try exact Hh1; exact Hnext.
Qed.

Lemma await_fuelled : fuelled awaitComRestart.
Proof.
  intros h t Hh. unfold awaitComRestart. apply wp_bind. cbn [wp call]. intros now t1 [H1 H2]. cbn in H2. apply wp_bind.
  assert (Hh1 : existsb is_out (h ++ [ev Now now]) = false) by (rewrite existsb_app, Hh; done).
  eapply wp_mono; [|apply silence_fuelled; [unfold rounds; lia|change (rounds kComRestartWindow) with 22%nat; unfold kComRestartWindow, kComRestartPoll; lia|exact Hh1]].
  intros [] h2 t2 H3; [|exact H3]. cbn [negb]. apply wp_bind. cbn [wp call]. intros now2 t3 [H4 H5]. cbn in H5. apply wp_bind.
  assert (Hh3 : existsb is_out (h2 ++ [ev Now now2]) = false) by (rewrite existsb_app, H3; done).
  eapply wp_mono; [|apply answer_fuelled; [unfold rounds; lia|change (rounds kBootExitTimeout) with 302%nat; unfold kBootExitTimeout, kComRestartPoll; lia|exact Hh3]].
  intros [] h4 t4 H6; [|exact H6]. apply fuelled_calls; [|done]. repeat all_ops_step.
Qed.

Ltac fuels :=
  repeat lazymatch goal with
  | |- fuelled awaitComRestart => apply await_fuelled
  | |- fuelled (bind _ _) => apply fuelled_bind; [|intros ?]
  | |- fuelled (call _) => apply fuelled_calls; by split
  | |- fuelled (Ret _) => apply fuelled_calls; exact I
  | |- fuelled (sleepUnlessStopped _) => apply fuelled_calls; by apply sleep_ops
  | |- fuelled (writeFileWithRetry _ _) => apply fuelled_calls; by apply write_ops
  | |- fuelled (match ?x with _ => _ end) => destruct x
  | |- fuelled ?t => let h := head_of t in progress unfold h
  end.

Lemma finish_fuelled f c : fuelled (finish f c).
Proof. fuels. Qed.
Lemma extras_fuelled l r : fuelled (write_extras l r).
Proof.
  revert r. induction l as [|x l IH]; intros r; cbn [write_extras]; [fuels|]. apply fuelled_bind; [fuels|]. intros []; [fuels|].
  apply fuelled_bind; [fuels|intros _]. apply fuelled_bind; [fuels|intros ?]. apply IH.
Qed.
Lemma stage_fuelled {A} step (m : fallible A) payload k : fuelled m -> (forall a, fuelled (k a)) -> fuelled (stage step m payload k).
Proof. intros Hm Hk. unfold stage. apply fuelled_bind; [fuels|intros _]. apply fuelled_bind; [done|]. intros [a|e]; (apply fuelled_bind; [fuels|intros _]); [apply Hk|apply finish_fuelled]. Qed.

Lemma install_fuelled : fuelled runFirmwareInstallationProcedure.
Proof.
  unfold runFirmwareInstallationProcedure, try_. apply fuelled_bind; [fuels|]. intros [p|e]; [|fuels]. apply fuelled_bind; [fuels|intros _].
  apply fuelled_bind; [fuels|]. intros []; [fuels|]. apply fuelled_bind; [fuels|intros _]. apply fuelled_bind; [fuels|]. intros [[]|e]; [|fuels].
  apply fuelled_bind; [fuels|intros _].
  assert (Hact : fuelled (activation_stage p)) by fuels.
  assert (Hrest : fuelled (
     stage kSiiStep (write_sii p) said (fun _ =>
            stage kAppFirmwareStep (write_binary (appBinary p) kAppFirmwareFoeName "the package carries no application firmware, or it was skipped") said (fun _ =>
            stage kComFirmwareStep (write_binary (comBinary p) kComFirmwareFoeName "the package carries no COM firmware") said (fun _ =>
            activation_stage p))))).
  { apply stage_fuelled; [fuels|intros _]. apply stage_fuelled; [fuels|intros _]. apply stage_fuelled; [fuels|intros _]. exact Hact. }
  unfold extras_stage. destruct (extras p) as [|x l]; (apply stage_fuelled; [|intros _; exact Hrest]); [fuels|apply extras_fuelled].
Qed.

(** How often a file is sent. *)
Definition count_write (n : nat) (e : event answer) : nat := match projT1 e with WriteFile _ _ => S n | _ => n end.
Lemma attempts_bounded left e f c n : seen count_write (write_attempts left e f c) n (fun _ n' => (n' <= n + left)%nat).
Proof.
  revert e n. induction left as [|left IH]; intros e n; cbn [write_attempts seen]; [lia|]. apply seen_bind. cbn [seen call]. intros []; [cbn; lia|].
  apply seen_bind. cbn [seen call]. intros []; [|cbn; lia]. cbn [negb]. apply seen_bind. cbn [seen call]. intros [[]|er]; [cbn; lia|].
  cbv [count_write ev projT1]. assert (Hrec : forall e, seen count_write (write_attempts left e f c) (S n) (fun _ n' => (n' <= n + S left)%nat)).
  { intros e'. eapply seen_mono; [|apply IH]. cbn. lia. }
  destruct (retry er); [|cbn; lia]. destruct left as [|left]; [apply Hrec|]. apply seen_bind.
  assert (Hsleep : forall k ms (Q : bool -> nat -> Prop), (forall b, Q b (S n)) -> seen count_write (sleep_slices k ms) (S n) Q).
  { intros k. induction k as [|k IHk]; intros ms Q HQ; cbn [sleep_slices]; [intros b; apply HQ|]. destruct (ms <=? 0); [intros b; apply HQ|].
    apply seen_bind. cbn [seen call]. intros []; [apply HQ|]. apply seen_bind. cbn [seen call]. intros []. by apply IHk. }
  apply Hsleep. intros []; [apply Hrec|cbn; lia].
Qed.

(** An installation returns. On any clock that advances by at least the time slept, the waits for a
    restarting device end within the rounds they are given, 22 and 302, so no run is cut short; and a
    file is sent at most three times however its transfer fails. *)
Theorem install_returns tr res t t' (Hr : runs runFirmwareInstallationProcedure tr res) (Ht : follows ticks t tr t') :
  existsb is_out tr = false /\
  (forall f c tr res, runs (writeFileWithRetry f c) tr res -> (foldl count_write 0 tr <= kFoeAttempts)%nat).
Proof.
  split; [exact (wp_runs ticks _ _ tr res [] t t' Hr (install_fuelled [] t eq_refl) Ht)|].
  intros f c tr' res' Hw. exact (seen_runs _ _ _ _ _ _ Hw (attempts_bounded kFoeAttempts "" f c 0)).
Qed.
End Install.

(** ** Sample runs *)
Definition slept (h : trace) : Z := foldl (fun t (e : event answer) => match projT1 e with SleepFor ms => t + ms | _ => t end) 0 h.
Definition entered_boot (h : trace) : bool := existsb (fun e : event answer => match projT1 e with TransitionToState t _ => t =? kBoot | _ => false end) h.

Definition sample_package : FirmwarePackage :=
  mk_package (Some (mk_pfile "app.bin" [1; 2; 3])) (Some (mk_pfile "com.bin" [4; 5])) (Some (mk_pfile "drive.sii" Sii.w_image)) [mk_pfile "logo.png" [9]] [].
Definition sample (stops removes : bool) (h : trace) (o : op) : answer o :=
  match o return answer o with
  | StopRequested => stops && entered_boot h
  | DeviceAt | SupportsEsc | WriteCache _ => true
  | Report _ | SleepFor _ | OutOfFuel => tt
  | Now => slept h
  | OpenFirmwarePackage => Value sample_package
  | ResolveCachedPackage => Value "firmwares/x.zip"
  | ReadPackageEsi => Value false
  | StoreEsi _ => Value ""
  | WriteFile _ _ => Value tt
  | RemoveFile _ => if removes then Value tt else Unexpected "busy"
  | WriteSii _ => Value tt
  | ActivateFirmware _ => Value kOnBootExit
  | TransitionToState t _ => Value [mk_info t 0]
  | DeviceReachability => Value [Answering]
  end.
Definition sample_request : FirmwareInstallationRequest := mk_request "x.zip" None true kOp 120.
Definition sample_install : fallible unit := runFirmwareInstallationProcedure 1 (fun _ => "") (fun _ => "") sample_request.
Definition sample_run (stops removes : bool) : trace := (exec (sample stops removes) [] sample_install).1.

Definition al_react (al : Z) (e : event answer) : Z := match projT1 e with TransitionToState t _ => t | _ => al end.
Definition clock_react (t : Z) (e : event answer) : Z := match projT1 e with SleepFor ms => t + ms | _ => t end.
Definition report_of (e : event answer) : option (@report json) := match projT1 e with Report r => Some r | _ => None end.
Definition is_final_start (e : event answer) : bool := match projT1 e with Report (Start i) => String.eqb i kFinalStateStep | _ => false end.

Ltac reacts lem :=
  apply lem;
  lazymatch goal with |- forall k e, ?tr !! k = _ -> _ => let t := eval vm_compute in tr in change tr with t end;
  intros k e Hk; repeat (destruct k as [|k]; [injection Hk as <-; vm_compute; intuition congruence|]); discriminate Hk.



Lemma install_returns_witness : existsb is_out (sample_run false true) = false.
Proof.
  refine (proj1 (install_returns 1 (fun _ => "") (fun _ => "") sample_request (sample_run false true) (exec (sample false true) [] sample_install).2 0 (foldl clock_react 0 (sample_run false true)) _ _));
  [exact (runs_exec (sample false true) sample_install)|reacts (follows_by ticks clock_react)].
Defined.

(** Where an installation does not do what its comments say. A cancellation while the bootloader
    starts, after BOOT was reached, ends the run at once: the device stays in BOOT and the final state is
    not attempted. An extra file that could not be removed before it was rewritten is reported like one
    that was. *)
Theorem install_limits :
  (follows acts kPreOp (sample_run true true) (foldl al_react kPreOp (sample_run true true)) /\ foldl al_react kPreOp (sample_run true true) = kBoot /\
    existsb is_final_start (sample_run true true) = false /\
    (exec (sample true true) [] sample_install).2 = Unexpected "firmware installation was cancelled while the bootloader started") /\
  (ev (RemoveFile "logo.png") (Unexpected "busy") ∈ sample_run false false /\ omap report_of (sample_run false false) = omap report_of (sample_run false true)).
Proof.
  split; [split; [reacts (follows_by acts al_react)|by vm_compute]|]. split; [|by vm_compute].
  let t := eval vm_compute in (sample_run false false) in change (sample_run false false) with t. repeat (apply elem_of_cons; first [left; reflexivity|right]).
Qed.
End Firmware.
