(* ===== verification/SpoeDriver.v ===== *)
(** * The SPoE driver ([libs/comm/spoe_fieldbus_driver.{h,cc}])

    The control plane of the driver that reaches drives over TCP: scanning, process-data set-up,
    states, SDO access, the object dictionary, files and firmware activation. Each operation is a
    script of the requests, the locks and the accesses to what threads share, with arbitrary answers.
    Drives are numbered from 0; a position is the number plus one. *)

From S2P Require Import Prelude Util Driver SpoeConnection Script.

Module SpoeDriver.
Import Script.
Abbreviation Frame := Spoe.Frame.
Abbreviation ConnectionError := Spoe.ConnectionError.

(** ** Constants *)
Definition kSdoRead : Z := 0x01.
Definition kSdoWrite : Z := 0x02.
Definition kPdoFrame : Z := 0x03.
Definition kPdoControl : Z := 0x04.
Definition kFirmwareUpdate : Z := 0x0B.
Definition kFileRead : Z := 0x0C.
Definition kFileWrite : Z := 0x0D.
Definition kStateControl : Z := 0x0E.
Definition kStateRead : Z := 0x0F.
Definition kParamList : Z := 0x10.
Definition kParamDesc : Z := 0x11.
Definition kParamSubDesc : Z := 0x12.
Definition kParamFullDesc : Z := 0x13.
Definition kServerInfo : Z := 0x20.
Definition kDeviceLocate : Z := 0x21.
Definition kWatchdogTimeout : Z := 0x22.

Definition kReplyAck : Z := 0x58.
Definition kReplyBusy : Z := 0x28.
Definition kReplyError : Z := 0x63.
Definition kPacketFirst : Z := 0x80.
Definition kPacketMiddle : Z := 0xC0.
Definition kPacketLast : Z := 0x40.
Definition kMaxParameterListPackets : nat := Z.to_nat 2000.
Definition kParameterEntrySize : nat := 68.
Definition kProtocolVersion100 : Z := 0x0100.
Definition kProtocolVersion102 : Z := 0x0102.
Definition kInputQueueLimit : nat := 30.
Definition kFileChunk : nat := 500.
Definition kMaxFilePackets : nat := Z.to_nat 200000.
Definition kFoeReadTimeout : Z := 6000.

(** ** Data *)
Inductive SpoeMode := kMonitor | kControl.
Definition pdo_mode (m : SpoeMode) : Z := match m with kMonitor => 1 | kControl => 2 end.

Record Config := mk_config {
  hosts : list text; mode : SpoeMode; watchdogMs : Z; requestTimeout : Z; fileTimeout : Z }.

Record SlaveInfo := mk_info { i_name : bytes; vendorId : Z; productCode : Z; revisionNumber : Z; serialNumber : Z }.
Definition no_info : SlaveInfo := mk_info [] 0 0 0 0.

(** [OdEntry], without the members that the driver leaves empty, and [ParameterEntry]. *)
Record OdEntry := mk_entry {
  index : Z; subindex : Z; objectCode : Z; dataType : Z; bitLength : Z; access : Z; name : bytes }.
Record ParameterEntry := mk_parameter { entry : OdEntry; subindexCount : Z }.
Record OdRead := mk_od { entries : list OdEntry; missingEntries : Z }.

Inductive FoeErrorKind := NoResponse | FileNotFound | BufferTooSmall | PacketMismatch | Protocol.
Inductive Retry := Transient | Permanent.

(** Error messages, as what is formatted into them. *)
Inductive error :=
  | EConnection (e : ConnectionError) | ENoAddress | ENoDevice (position : Z)
  | EEmpty (i : nat) (index subindex : Z) | EShort (i : nat) (index subindex : Z)
  | ERefusedMode (i : nat) (m : Z) | ESdo (i : nat) (write : bool) (index subindex status : Z)
  | ETooLarge (i : nat) (index subindex : Z) (size : nat) | ENoRegisters
  | EKeptAnswering (i : nat) | ENeverAnswered (i : nat) (timeout : Z).
Inductive file_error :=
  | FConnection (e : ConnectionError) | FStatus (i : nat) (filename : text) (code : Z) | FNeverEnded (i : nat) (filename : text)
  | FNotFound (i : nat) (filename : text) | FNoDevice (position : Z).
Record FoeError := mk_foe { kind : FoeErrorKind; retry : Retry; message : file_error }.

Record SlaveStateRaw := mk_raw { alStatus : Z; answering : bool }.
Inductive FirmwareActivation := kOnBootExit | kRestarted.

(** ** Calls *)
Inductive share := Shared | Exclusive.
#[export] Instance share_decision : EqDecision share.
Proof. solve_decision. Defined.
Inductive op :=
  | LockBus (k : share) | UnlockBus (k : share) | LockSequence (i : nat) | UnlockSequence (i : nat)
  | Request (i : nat) (type status : Z) (data : bytes) (timeout : Z)
  | Connect (i : nat) | Close (i : nat) | IsOpen (i : nat)
  | LoadState (i : nat) | StoreState (i : nat) (s : Z) | LoadVersion (i : nat) | StoreVersion (i : nat) (v : Z)
  | StoreExchanging (i : nat) (b : bool) | StopExchange (i : nat) | StartExchange (i : nat)
  | SetInfo (i : nat) (x : SlaveInfo) | GetInfo (i : nat) | SetIo (i : nat) (io : SlaveIo) | ResetBuffers (i : nat) (outputBytes inputBytes : Z)
  | SetLayout (l : PdoLayout) | GetLayout
  | ShouldAbort | Now | SleepFor (ms : Z) | OutOfFuel.

Definition answer (o : op) : Type :=
  match o with
  | Request _ _ _ _ _ => expected ConnectionError Frame
  | Connect _ | IsOpen _ | ShouldAbort => bool
  | LoadState _ | LoadVersion _ | Now => Z
  | GetInfo _ => SlaveInfo
  | GetLayout => PdoLayout
  | _ => unit
  end.

Definition fallible (A : Type) : Type := script answer (expected error A).
Definition try_ {E A B} (m : script answer (expected E A)) (k : A -> script answer (expected E B)) : script answer (expected E B) :=
  bind m (fun r => match r with Value a => k a | Unexpected e => Ret (Unexpected e) end).

(** A [std::shared_lock], a [std::unique_lock] of [bus_], and a [std::scoped_lock] of a drive's [sequenceMutex]. *)
Definition locked (k : share) {A} (m : script answer A) : script answer A :=
  bind (call (LockBus k)) (fun _ => bind m (fun a => bind (call (UnlockBus k)) (fun _ => Ret a))).
Definition sequenced (i : nat) {A} (m : script answer A) : script answer A :=
  bind (call (LockSequence i)) (fun _ => bind m (fun a => bind (call (UnlockSequence i)) (fun _ => Ret a))).

(** A range-based loop over the drives or over positions. *)
Fixpoint each {X} (f : X -> script answer unit) (l : list X) : script answer unit :=
  match l with [] => Ret tt | x :: l => bind (f x) (fun _ => each f l) end.

(** ** Pure parts *)
Definition protocolVersion (reply : Frame) : option Z :=
  if (length (Spoe.data reply) <? 2)%nat then None
  else Some (u16 (Z.lor (byte_at (Spoe.data reply) 0) (Z.shiftl (byte_at (Spoe.data reply) 1) 8))).

Definition readU16 (l : bytes) (offset : nat) : Z := u16 (Z.lor (byte_at l offset) (Z.shiftl (byte_at l (offset + 1)) 8)).
Definition readU32 (l : bytes) (offset : nat) : Z := Z.lor (readU16 l offset) (Z.shiftl (readU16 l (offset + 2)) 16).

Definition address (index subindex : Z) : bytes := [u8 index; u8 (Z.shiftr index 8); u8 subindex; u8 (Z.shiftr subindex 8)].
Definition isOpenObject (code : Z) : bool := (code =? 8) || (code =? 9).

Fixpoint take_name (l : bytes) : bytes := match l with [] => [] | b :: l => if b =? 0 then [] else b :: take_name l end.

Definition decode_entry (raw : bytes) : ParameterEntry :=
  mk_parameter (mk_entry (readU16 raw 0) (byte_at raw 2) (byte_at raw 6) (readU16 raw 4) (readU16 raw 8) (readU16 raw 10)
                  (take_name (slice 16 50 raw))) (readU32 raw 12).

Fixpoint decode_entries (turns : nat) (l : bytes) : list ParameterEntry :=
  match turns with
  | O => []
  | S turns =>
      if (length l <? kParameterEntrySize)%nat then []
      else
        let e := decode_entry (take kParameterEntrySize l) in
        let rest := decode_entries turns (drop kParameterEntrySize l) in
        if index (entry e) =? 0 then rest else e :: rest
  end.
Definition decodeParameterEntries (l : bytes) : list ParameterEntry := decode_entries (length l) l.

Definition sdoStatusName (status : Z) : string :=
  if status =? 0xFFFF then "not allowed in INIT or BOOT"
  else default "unknown status"
    (["no error"; "generic error"; "object not found"; "read only"; "write only"; "wrong type"; "invalid list"; "insufficient buffer";
      "value information unavailable"; "unknown or unsupported"; "local transfer failed"; "unsupported access"; "subindex 0 is not zero";
      "subindex not found"]%string !! Z.to_nat status).

Definition low (status : Z) : Z := Z.land status 0xFF.
Definition high (status : Z) : Z := u8 (Z.shiftr status 8).

Definition foeErrorFromStatus (i : nat) (filename : text) (code : Z) : FoeError :=
  let e k r := mk_foe k r (FStatus i filename code) in
  if code =? 0x01 then e FileNotFound Permanent
  else if code =? 0x05 then e PacketMismatch Transient
  else if code =? 0x0C then e Protocol Transient
  else if code =? 0x0E then e NoResponse Transient
  else if code =? kReplyError then e Protocol Transient
  else e Protocol Permanent.

(** ** Operations *)
Section Operations.
(** The configuration, and how many turns a loop that the source does not bound is followed. *)
Context (config : Config) (turns : nat).

Definition count : nat := length (hosts config).
Definition all_drives : list nat := seq 0 count.
Definition driveAt (position : Z) : option nat :=
  if (position =? 0) || (Z.of_nat count <? position) then None else Some (Z.to_nat (position - 1)).

Definition stopExchanges : script answer unit :=
  each (fun i => bind (call (StopExchange i)) (fun _ => call (StoreExchanging i false))) all_drives.
Definition closeAll : script answer unit :=
  bind stopExchanges (fun _ => each (fun i => bind (call (Close i)) (fun _ => call (StoreState i 0))) all_drives).

Definition request (i : nat) (type : Z) (data : bytes) (status : Z) : fallible Frame :=
  bind (call (Request i type status data (requestTimeout config))) (fun reply =>
    match reply with
    | Value f => Ret (Value f)
    | Unexpected (Spoe.EClosed r) => bind (call (StoreState i 0)) (fun _ => Ret (Unexpected (EConnection (Spoe.EClosed r))))
    | Unexpected e => Ret (Unexpected (EConnection e))
    end).

Definition init : expected error unit := if (count =? 0)%nat then Unexpected ENoAddress else Value tt.

Definition readSdoFrom (i : nat) (index subindex : Z) : fallible bytes :=
  try_ (request i kSdoRead (address index subindex) 0) (fun reply => Ret
    (if negb (Spoe.status reply =? 0) then Unexpected (ESdo i false index subindex (Spoe.status reply))
     else Value (Spoe.data reply))).

Definition identity (i : nat) (subindex : Z) : script answer Z :=
  bind (readSdoFrom i 0x1018 subindex) (fun r => Ret
    match r with Value l => if (4 <=? length l)%nat then readU32 l 0 else 0 | Unexpected _ => 0 end).

Definition identify (i : nat) : script answer unit :=
  bind (identity i 1) (fun vendor =>
  bind (call (SetInfo i (mk_info [] vendor 0 0 0))) (fun _ =>
  bind (identity i 2) (fun product =>
  bind (call (SetInfo i (mk_info [] vendor product 0 0))) (fun _ =>
  bind (identity i 3) (fun revision =>
  bind (call (SetInfo i (mk_info [] vendor product revision 0))) (fun _ =>
  bind (identity i 4) (fun serial =>
  bind (call (SetInfo i (mk_info [] vendor product revision serial))) (fun _ =>
  bind (readSdoFrom i 0x1008 0) (fun name =>
    match name with
    | Value l => call (SetInfo i (mk_info (take_name l) vendor product revision serial))
    | Unexpected _ => Ret tt
    end))))))))).

Definition connectAndIdentify (i : nat) : script answer unit :=
  bind (call (SetInfo i no_info)) (fun _ =>
  bind (call (StoreState i 0)) (fun _ =>
  bind (call (StoreVersion i 0)) (fun _ =>
  bind (call (Connect i)) (fun connected : bool =>
    if negb connected then Ret tt
    else
      bind (request i kServerInfo [] 0) (fun info =>
        match (match info with Value f => protocolVersion f | Unexpected _ => None end) with
        | None => call (Close i)
        | Some version =>
            if negb (version =? kProtocolVersion100) && negb (version =? kProtocolVersion102) then call (Close i)
            else
              bind (call (StoreVersion i version)) (fun _ =>
              bind (request i kStateRead [] 0) (fun state =>
                match state with
                | Unexpected _ => Ret tt
                | Value f =>
                    match Spoe.data f with
                    | [] => Ret tt
                    | s :: _ =>
                        bind (call (StoreState i s)) (fun _ =>
                          if (alState s =? kInit) || (alState s =? kBoot) then Ret tt else identify i)
                    end
                end))
        end))))).

Definition scan : fallible Z :=
  locked Exclusive
    (bind stopExchanges (fun _ =>
     bind (call (SetLayout (mk_layout 0 0 [] 0))) (fun _ =>
     bind (each connectAndIdentify all_drives) (fun _ => Ret (Value (Z.of_nat count)))))).

Definition slaveInfo (position : Z) : script answer SlaveInfo :=
  locked Shared (match driveAt position with Some i => call (GetInfo i) | None => Ret no_info end).
Definition slaveState (position : Z) : script answer Z :=
  match driveAt position with Some i => call (LoadState i) | None => Ret 0 end.
Definition mailboxProtocols (position : Z) : Z := match driveAt position with Some _ => Z.lor 4 8 | None => 0 end.

Definition read_u8 (i : nat) (index subindex : Z) : fallible Z :=
  try_ (readSdoFrom i index subindex) (fun l => Ret
    match l with [] => Unexpected (EEmpty i index subindex) | b :: _ => Value b end).

(** The two loops count in a [uint8_t]. *)
Fixpoint add_entries (turns : nat) (i : nat) (pdoIndex entryCount entry bits : Z) : fallible Z :=
  if entryCount <? entry then Ret (Value bits)
  else match turns with
  | O => bind (call OutOfFuel) (fun _ => Ret (Value bits))
  | S turns =>
      try_ (readSdoFrom i pdoIndex entry) (fun mapping =>
        match mapping with
        | [] => Ret (Unexpected (EEmpty i pdoIndex entry))
        | b :: _ => add_entries turns i pdoIndex entryCount (u8 (entry + 1)) (u32 (bits + b))
        end)
  end.
Fixpoint add_pdos (more : nat) (i : nat) (assignIndex pdoCount n bits : Z) : fallible Z :=
  if pdoCount <? n then Ret (Value bits)
  else match more with
  | O => bind (call OutOfFuel) (fun _ => Ret (Value bits))
  | S more =>
      try_ (readSdoFrom i assignIndex n) (fun pdo =>
        if (length pdo <? 2)%nat then Ret (Unexpected (EShort i assignIndex n))
        else
          try_ (read_u8 i (readU16 pdo 0) 0) (fun entryCount =>
          try_ (add_entries turns i (readU16 pdo 0) entryCount 1 bits) (fun bits =>
          add_pdos more i assignIndex pdoCount (u8 (n + 1)) bits)))
  end.
Definition assignedBits (i : nat) (assignIndex : Z) : fallible Z :=
  try_ (read_u8 i assignIndex 0) (fun pdoCount => add_pdos turns i assignIndex pdoCount 1 0).

Definition watchdog_bytes (ms : Z) : bytes := [u8 ms; u8 (Z.shiftr ms 8); u8 (Z.shiftr ms 16); u8 (Z.shiftr ms 24)].

(** One drive of [configureProcessData]: its window. *)
Definition configure_drive (l : PdoLayout) (i : nat) : fallible PdoLayout :=
  let position := Z.of_nat i + 1 in
  let empty := mk_slave_io position (l_outputBytes l) 0 (l_inputBytes l) 0 in
  let without := Ret (Value (mk_layout (l_outputBytes l) (l_inputBytes l) (slaves l ++ [empty]) (l_expectedWkc l))) in
  bind (call (SetIo i empty)) (fun _ =>
  bind (call (LoadState i)) (fun state =>
    if state =? 0 then without
    else bind (call (IsOpen i)) (fun isOpen : bool =>
      if negb isOpen then without
      else
        try_ (assignedBits i 0x1C12) (fun outputBits =>
        try_ (assignedBits i 0x1C13) (fun inputBits =>
          let out := u32 (outputBits + 7) / 8 in
          let inp := u32 (inputBits + 7) / 8 in
          let io := mk_slave_io position (l_outputBytes l) out (l_inputBytes l) inp in
          bind (call (SetIo i io)) (fun _ =>
          try_ (request i kPdoControl [pdo_mode (mode config)] 0) (fun modeSet =>
            if negb (Spoe.status modeSet =? 0) then Ret (Unexpected (ERefusedMode i (pdo_mode (mode config))))
            else
              try_ (match mode config with
                    | kMonitor => Ret (Value tt)
                    | kControl => bind (call (LoadVersion i)) (fun version =>
                        if version =? kProtocolVersion100 then Ret (Value tt)
                        else try_ (request i kWatchdogTimeout (watchdog_bytes (watchdogMs config)) 0) (fun _ => Ret (Value tt)))
                    end) (fun _ =>
              bind (call (ResetBuffers i out inp)) (fun _ =>
              Ret (Value (mk_layout (u32 (l_outputBytes l + out)) (u32 (l_inputBytes l + inp)) (slaves l ++ [io])
                            (l_expectedWkc l + (if 0 <? out then 2 else 0) + (if 0 <? inp then 1 else 0))))))))))))).

Fixpoint configure_drives (l : PdoLayout) (drives : list nat) : fallible PdoLayout :=
  match drives with
  | [] => Ret (Value l)
  | i :: drives => try_ (configure_drive l i) (fun l => configure_drives l drives)
  end.

Definition configureProcessData : fallible unit :=
  locked Exclusive
    (bind stopExchanges (fun _ =>
     try_ (configure_drives (mk_layout 0 0 [] 0) all_drives) (fun layout =>
     bind (call (SetLayout layout)) (fun _ =>
     bind (each (fun '(i, io) => if (0 <? io_outputBytes io) || (0 <? io_inputBytes io) then call (StartExchange i) else Ret tt)
             (zip all_drives (slaves layout))) (fun _ => Ret (Value tt)))))).

Definition processDataLayout : script answer PdoLayout := locked Shared (call GetLayout).

Definition releaseDrives : script answer unit :=
  bind stopExchanges (fun _ =>
  bind (each (fun i => bind (call (IsOpen i)) (fun isOpen : bool =>
          if isOpen then bind (request i kPdoControl [0] 0) (fun _ => Ret tt) else Ret tt)) all_drives) (fun _ =>
  closeAll)).
Definition stop : script answer unit := locked Exclusive releaseDrives.

Fixpoint readStates_from (positions : list Z) (states : list SlaveStateRaw) : fallible (list SlaveStateRaw) :=
  match positions with
  | [] => Ret (Value states)
  | p :: positions =>
      match driveAt p with
      | None => Ret (Unexpected (ENoDevice p))
      | Some i =>
          bind (locked Shared
            (bind (request i kStateRead [] 0) (fun reply =>
              let answered := match reply with Value f => match Spoe.data f with s :: _ => Some s | [] => None end | Unexpected _ => None end in
              bind (call (StoreState i (default 0 answered))) (fun _ =>
              bind (call (LoadState i)) (fun s => Ret (mk_raw s (bool_decide (is_Some answered)))))))) (fun raw =>
          readStates_from positions (states ++ [raw]))
      end
  end.
Definition readStates (positions : list Z) : fallible (list SlaveStateRaw) := readStates_from positions [].

Definition with_drive {A} (position : Z) (k : nat -> fallible A) : fallible A :=
  match driveAt position with None => Ret (Unexpected (ENoDevice position)) | Some i => k i end.

Definition readSdo (position index subindex : Z) : fallible bytes :=
  with_drive position (fun i => locked Shared (readSdoFrom i index subindex)).

Definition kWriteHeader : nat := 6.
Definition writeSdo (position index subindex : Z) (data : bytes) : fallible unit :=
  with_drive position (fun i =>
    if (Spoe.kMaxDataSize - kWriteHeader <? length data)%nat then Ret (Unexpected (ETooLarge i index subindex (length data)))
    else
      let size := Z.of_nat (length data) in
      let payload := address index subindex ++ [u8 size; u8 (Z.shiftr size 8)] ++ data in
      locked Shared
        (try_ (request i kSdoWrite payload 0) (fun reply => Ret
          (if negb (Spoe.status reply =? 0) then Unexpected (ESdo i true index subindex (Spoe.status reply)) else Value tt)))).

(** *** The object dictionary *)
Definition requestShared (i : nat) (type : Z) (data : bytes) (status : Z) : fallible Frame := locked Shared (request i type data status).

Fixpoint read_indexes (more : nat) (l : bytes) : list Z :=
  match more with
  | O => []
  | S more => if (length l <? 2)%nat then [] else readU16 l 0 :: read_indexes more (drop 2 l)
  end.

(** [std::map] keyed by address: a list in the order of its keys. *)
Definition key (e : ParameterEntry) : Z * Z := (index (entry e), subindex (entry e)).
Definition key_before (a b : Z * Z) : bool := (a.1 <? b.1) || (a.1 =? b.1) && (a.2 <? b.2).
Definition entry_map : Type := list ((Z * Z) * ParameterEntry).
Fixpoint insert_or_assign (k : Z * Z) (e : ParameterEntry) (m : entry_map) : entry_map :=
  match m with
  | [] => [(k, e)]
  | (k', e') :: m' => if key_before k k' then (k, e) :: m else if key_before k' k then (k', e') :: insert_or_assign k e m' else (k, e) :: m'
  end.
Definition find (k : Z * Z) (m : entry_map) : option ParameterEntry := snd <$> List.find (fun x => bool_decide (x.1 = k)) m.
Definition emplace (k : Z * Z) (e : ParameterEntry) (m : entry_map) : entry_map :=
  match find k m with Some _ => m | None => insert_or_assign k e m end.

Fixpoint bulk_list (packets : nat) (i : nat) (m : entry_map) : script answer entry_map :=
  match packets with
  | O => Ret m
  | S packets =>
      bind (requestShared i kParamFullDesc [] kPacketMiddle) (fun reply =>
        match reply with
        | Unexpected _ => Ret m
        | Value f =>
            let m := foldl (fun m e => insert_or_assign (key e) e m) m (decodeParameterEntries (Spoe.data f)) in
            if (high (Spoe.status f) =? kPacketLast) || (low (Spoe.status f) =? kReplyError) then Ret m
            else bulk_list packets i m
        end)
  end.

(** [describe]: the entry and the count of requests without an answer. *)
Definition describe (i : nat) (type index subindex : Z) (missing : Z) : script answer (option ParameterEntry * Z) :=
  bind (requestShared i type (address index subindex) 0) (fun reply => Ret
    match reply with
    | Unexpected _ => (None, missing + 1)
    | Value f => (List.find (fun e => bool_decide (key e = (index, subindex))) (decodeParameterEntries (Spoe.data f)), missing)
    end).

Fixpoint fill_subindexes (i : nat) (index : Z) (subindexes : list Z) (s : entry_map * Z) : script answer (entry_map * Z) :=
  match subindexes with
  | [] => Ret s
  | sub :: subindexes =>
      let '(m, missing) := s in
      match find (index, sub) m with
      | Some _ => fill_subindexes i index subindexes s
      | None => bind (describe i kParamSubDesc index sub missing) (fun '(described, missing) =>
          fill_subindexes i index subindexes (match described with Some e => emplace (index, sub) e m | None => m end, missing))
      end
  end.

Definition fill_object (i : nat) (index : Z) (s : entry_map * Z) : script answer (entry_map * Z) :=
  let '(m, missing) := s in
  bind (match find (index, 0) m with
        | Some e => Ret (Some e, m, missing)
        | None => bind (describe i kParamDesc index 0 missing) (fun '(described, missing) =>
            Ret (described, match described with Some e => emplace (index, 0) e m | None => m end, missing))
        end) (fun '(object, m, missing) =>
    match object with
    | None => Ret (m, missing)
    | Some e =>
        if negb (isOpenObject (objectCode (entry e))) then Ret (m, missing)
        else fill_subindexes i index (seqZ 1 (Z.min (subindexCount e) 0xFF)) (m, missing)
    end).

Fixpoint fill_objects (i : nat) (indexes : list Z) (s : entry_map * Z) : script answer (entry_map * Z) :=
  match indexes with [] => Ret s | index :: indexes => bind (fill_object i index s) (fill_objects i indexes) end.

Definition readObjectDictionary (position : Z) : fallible OdRead :=
  with_drive position (fun i => sequenced i
    (try_ (requestShared i kParamList [] 0) (fun list =>
      let indexes := read_indexes (length (Spoe.data list)) (Spoe.data list) in
      bind (requestShared i kParamFullDesc [] kPacketFirst) (fun first =>
      bind (match first with
            | Value f => if low (Spoe.status f) =? kReplyAck then bulk_list kMaxParameterListPackets i [] else Ret []
            | Unexpected _ => Ret []
            end) (fun m =>
      bind (fill_objects i indexes (m, 0)) (fun '(m, missing) =>
      Ret (Value (mk_od ((fun x => entry x.2) <$> m) missing)))))))).

(** *** Files *)
Definition foe (A : Type) : Type := script answer (expected FoeError A).

Definition filePacket (i : nat) (type packetState : Z) (data : bytes) (timeout : Z) : foe Frame :=
  locked Shared
    (bind (call (Request i type packetState data timeout)) (fun reply =>
      match reply with
      | Value f => Ret (Value f)
      | Unexpected e =>
          bind (match e with Spoe.EClosed _ => call (StoreState i 0) | _ => Ret tt end) (fun _ =>
          Ret (Unexpected (mk_foe NoResponse Transient (FConnection e))))
      end)).

Fixpoint read_packets (packets : nat) (i : nat) (filename : text) (timeout : Z) (content : bytes) (reply : expected FoeError Frame) : foe bytes :=
  match packets with
  | O => Ret (Unexpected (mk_foe Protocol Permanent (FNeverEnded i filename)))
  | S packets =>
      match reply with
      | Unexpected e => Ret (Unexpected e)
      | Value f =>
          let code := low (Spoe.status f) in
          if negb (code =? kReplyAck) then Ret (Unexpected (foeErrorFromStatus i filename code))
          else
            let content := content ++ Spoe.data f in
            if high (Spoe.status f) =? kPacketLast then Ret (Value content)
            else bind (filePacket i kFileRead kPacketMiddle [] timeout) (read_packets packets i filename timeout content)
      end
  end.
Definition readFileFrom (i : nat) (filename : text) (timeout : Z) : foe bytes :=
  let packetTimeout := Z.max (fileTimeout config) timeout in
  bind (filePacket i kFileRead kPacketFirst filename packetTimeout) (read_packets kMaxFilePackets i filename packetTimeout []).

(** The lines of the file list, each up to its first comma. *)
Fixpoint until (c : Z) (l : text) : text := match l with [] => [] | x :: l => if x =? c then [] else x :: until c l end.
Fixpoint split_lines (turns : nat) (l : text) : list text :=
  match turns, l with
  | O, _ | _, [] => []
  | S turns, _ => until 10 l :: split_lines turns (drop (length (until 10 l) + 1) l)
  end.
Definition listed (filename list : text) : bool := existsb (fun line => bool_decide (until 44 line = filename)) (split_lines (length list) list).
Definition kGetList : text := [102; 115; 45; 103; 101; 116; 108; 105; 115; 116].

Definition no_device (position : Z) : FoeError := mk_foe Protocol Permanent (FNoDevice position).

Definition readFile (position : Z) (filename : text) (timeout : Z) : foe bytes :=
  match driveAt position with
  | None => Ret (Unexpected (no_device position))
  | Some i => sequenced i
      (try_ (readFileFrom i filename timeout) (fun content =>
        if negb (bool_decide (content = [])) || bool_decide (filename = kGetList) then Ret (Value content)
        else bind (readFileFrom i kGetList kFoeReadTimeout) (fun list => Ret
          match list with
          | Unexpected _ => Value content
          | Value l => if listed filename l then Value content else Unexpected (mk_foe FileNotFound Permanent (FNotFound i filename))
          end)))
  end.

(** The [do] loop of [writeFile]: each turn but the last sends [kFileChunk] bytes. *)
Fixpoint write_packets (turns : nat) (i : nat) (filename : text) (data : bytes) (offset : nat) : foe unit :=
  match turns with
  | O => bind (call OutOfFuel) (fun _ => Ret (Value tt))
  | S turns =>
      let chunk := Nat.min kFileChunk (length data - offset) in
      let last := (length data <=? offset + chunk)%nat in
      try_ (filePacket i kFileWrite (if last then kPacketLast else kPacketMiddle) (slice offset chunk data) (fileTimeout config)) (fun reply =>
        let code := low (Spoe.status reply) in
        if negb (code =? kReplyAck) then Ret (Unexpected (foeErrorFromStatus i filename code))
        else if (offset + chunk <? length data)%nat then write_packets turns i filename data (offset + chunk) else Ret (Value tt))
  end.

Definition writeFile (position : Z) (filename : text) (data : bytes) : foe unit :=
  match driveAt position with
  | None => Ret (Unexpected (no_device position))
  | Some i => sequenced i
      (try_ (filePacket i kFileWrite kPacketFirst filename (fileTimeout config)) (fun first =>
        let code := low (Spoe.status first) in
        if (high (Spoe.status first) =? kPacketLast) || negb (code =? kReplyAck) && negb (code =? 0)
        then Ret (Unexpected (foeErrorFromStatus i filename code))
        else write_packets (S (length data)) i filename data 0))
  end.

(** *** States, location, activation *)
Definition readRegister : expected error unit := Unexpected ENoRegisters.
Definition writeRegister : expected error unit := Unexpected ENoRegisters.
Definition stateChangeRefusal : bool := match mode config with kMonitor => true | kControl => false end.

Definition command_drive (requiredState : option Z) (targetState timeout : Z) (i : nat) : script answer unit :=
  sequenced i (locked Shared
    (bind (call (LoadState i)) (fun state =>
      if state =? 0 then Ret tt
      else
        bind (match requiredState with
              | None => Ret false
              | Some r => bind (call (LoadState i)) (fun state => Ret (negb (alState state =? r)))
              end) (fun skip : bool =>
          if skip then Ret tt
          else bind (call (Request i kStateControl 0 [targetState] timeout)) (fun reply =>
            match reply with
            | Unexpected (Spoe.EClosed _) => call (StoreState i 0)
            | Unexpected _ => Ret tt
            | Value f => match Spoe.data f with [] => Ret tt | s :: _ => call (StoreState i s) end
            end))))).

Fixpoint command_drives (positions : list Z) (requiredState : option Z) (targetState timeout : Z) : script answer unit :=
  match positions with
  | [] => Ret tt
  | p :: positions =>
      bind (call ShouldAbort) (fun aborted : bool =>
        if aborted then Ret tt
        else bind (match driveAt p with Some i => command_drive requiredState targetState timeout i | None => Ret tt end) (fun _ =>
          command_drives positions requiredState targetState timeout))
  end.
Definition transitionToState (positions : list Z) (requiredState : option Z) (targetState timeout : Z) : script answer unit :=
  if stateChangeRefusal then Ret tt else command_drives positions requiredState targetState timeout.

Definition locate (position : Z) (on : bool) : fallible unit :=
  with_drive position (fun i => locked Shared (try_ (request i kDeviceLocate [if on then 1 else 0] 0) (fun _ => Ret (Value tt)))).

(** Waits until the drive stops answering. *)
Fixpoint await_restart (turns : nat) (i : nat) (deadline : Z) : fallible unit :=
  match turns with
  | O => bind (call OutOfFuel) (fun _ => Ret (Value tt))
  | S turns =>
      bind (requestShared i kServerInfo [] 0) (fun info =>
        match info with
        | Unexpected _ => Ret (Value tt)
        | Value _ =>
            bind (call Now) (fun now =>
              if deadline <=? now then Ret (Unexpected (EKeptAnswering i))
              else bind (call (SleepFor 200)) (fun _ => await_restart turns i deadline))
        end)
  end.

(** Connects again, and whether the drive then answered. *)
Definition reconnect (i : nat) : script answer bool :=
  locked Shared
    (bind (call (Connect i)) (fun connected : bool =>
      if negb connected then Ret false
      else bind (request i kServerInfo [] 0) (fun info =>
        bind (match info with Value _ => request i kStateRead [] 0 | Unexpected e => Ret (Unexpected e) end) (fun state =>
          match info, state with
          | Value f, Value s =>
              match Spoe.data s with
              | b :: _ => bind (call (StoreVersion i (default 0 (protocolVersion f)))) (fun _ => bind (call (StoreState i b)) (fun _ => Ret true))
              | [] => bind (call (Close i)) (fun _ => Ret false)
              end
          | _, _ => bind (call (Close i)) (fun _ => Ret false)
          end)))).

Fixpoint await_drive (turns : nat) (i : nat) (deadline timeout : Z) : fallible FirmwareActivation :=
  match turns with
  | O => bind (call OutOfFuel) (fun _ => Ret (Unexpected (ENeverAnswered i timeout)))
  | S turns =>
      bind (call Now) (fun now =>
        if negb (now <? deadline) then Ret (Unexpected (ENeverAnswered i timeout))
        else bind (call (SleepFor 500)) (fun _ => bind (reconnect i) (fun back : bool =>
          if back then Ret (Value kRestarted) else await_drive turns i deadline timeout)))
  end.

Definition activateFirmware (position timeout : Z) : fallible FirmwareActivation :=
  with_drive position (fun i => sequenced i
    (bind (call Now) (fun now =>
     try_ (requestShared i kFirmwareUpdate [] 0) (fun _ =>
     try_ (await_restart turns i (now + timeout)) (fun _ =>
     bind (locked Shared (bind (call (Close i)) (fun _ => call (StoreState i 0)))) (fun _ =>
     await_drive turns i (now + timeout) timeout)))))).
End Operations.

(** ** Locks *)

(** What one thread holds, and whether it kept to the discipline. *)
Record held := mk_held { sequence : option nat; bus : option share; proper : bool }.
Definition free : held := mk_held None None true.
Definition on_bus (h : held) : bool := match bus h with Some _ => true | None => false end.
Definition check (b : bool) (h : held) : held := mk_held (sequence h) (bus h) (proper h && b).

(** The requests of which a drive can follow one sequence at a time. *)
Definition in_sequence (type : Z) : bool :=
  existsb (Z.eqb type) [kFileRead; kFileWrite; kParamList; kParamDesc; kParamSubDesc; kParamFullDesc; kFirmwareUpdate; kStateControl].

Definition watch_locks (h : held) (e : event answer) : held :=
  let exclusive := bool_decide (bus h = Some Exclusive) in
  match projT1 e with
  | LockSequence i => mk_held (Some i) (bus h) (proper h && bool_decide (sequence h = None) && bool_decide (bus h = None))
  | UnlockSequence i => mk_held None (bus h) (proper h && bool_decide (sequence h = Some i) && bool_decide (bus h = None))
  | LockBus k => mk_held (sequence h) (Some k) (proper h && bool_decide (bus h = None))
  | UnlockBus k => mk_held (sequence h) None (proper h && bool_decide (bus h = Some k))
  | Request i type _ _ _ => check (on_bus h && (negb (in_sequence type) || bool_decide (sequence h = Some i))) h
  | Connect _ | Close _ | IsOpen _ | GetInfo _ | GetLayout => check (on_bus h) h
  | SetInfo _ _ | SetIo _ _ | ResetBuffers _ _ _ | SetLayout _ | StartExchange _ | StopExchange _ => check exclusive h
  | SleepFor _ => check (bool_decide (bus h = None)) h
  | _ => h
  end.

Definition calm (h : held) {A} (s : script answer A) : Prop := seen watch_locks s h (fun _ h' => h' = h).

Lemma calm_bind h {A B} (s : script answer A) (f : A -> script answer B) : calm h s -> (forall a, calm h (f a)) -> calm h (bind s f).
Proof. intros Hs Hf. apply seen_bind. eapply seen_mono; [|exact Hs]. intros a ? ->. apply Hf. Qed.
Lemma calm_try h {E A B} (s : script answer (expected E A)) (f : A -> script answer (expected E B)) : calm h s -> (forall a, calm h (f a)) -> calm h (try_ s f).
Proof. intros Hs Hf. apply calm_bind; [done|]. intros [a|e]; [apply Hf|done]. Qed.
Lemma calm_each h {X} (f : X -> script answer unit) l : (forall x, calm h (f x)) -> calm h (each f l).
Proof. intros Hf. induction l; [done|]. apply calm_bind; eauto. Qed.
Lemma calm_locked q k {A} (s : script answer A) : calm (mk_held q (Some k) true) s -> calm (mk_held q None true) (locked k s).
Proof.
  intros Hs. cbn [locked calm seen bind call]. intros []. apply seen_bind. change (watch_locks _ _) with (mk_held q (Some k) true).
  eapply seen_mono; [|exact Hs]. intros a ? ->. cbn [seen bind call]. intros []. cbn. by rewrite bool_decide_true.
Qed.
Lemma calm_sequenced i {A} (s : script answer A) : calm (mk_held (Some i) None true) s -> calm free (sequenced i s).
Proof.
  intros Hs. cbn [sequenced calm seen bind call]. intros []. apply seen_bind. change (watch_locks _ _) with (mk_held (Some i) None true).
  eapply seen_mono; [|exact Hs]. intros a ? ->. cbn [seen bind call]. intros []. cbn. by rewrite bool_decide_true.
Qed.
Lemma calm_call h o : (forall x, watch_locks h (ev o x) = h) -> calm h (call o).
Proof. intros H x. apply H. Qed.

(** Walks through a script whose recursive parts have lemmas of their own. *)
Ltac calm_step :=
  lazymatch goal with
  | |- calm _ (bind _ _) => apply calm_bind; [|intros ?]
  | |- calm _ (try_ _ _) => apply calm_try; [|intros ?]
  | |- calm _ (each _ _) => apply calm_each; intros ?
  | |- calm _ (locked _ _) => apply calm_locked
  | |- calm _ (sequenced _ _) => apply calm_sequenced
  | |- calm _ (call _) => apply calm_call; intros ?; cbn; rewrite ?bool_decide_true by done; reflexivity
  | |- calm _ (Ret _) => reflexivity
  | |- calm _ (match ?x with _ => _ end) => destruct x
  | |- calm _ ?t => let h := head_of t in progress unfold h
  end; cbv beta iota zeta.
Ltac calmly := intros; repeat (first [assumption | solve [auto with calm] | calm_step]).
#[local] Create HintDb calm.
Section Locks.
Context (config : Config) (turns : nat).

Lemma request_calm q k i type data status : in_sequence type = false \/ q = Some i -> calm (mk_held q (Some k) true) (request config i type data status).
Proof.
  intros H. unfold request. apply calm_bind; [apply calm_call|calmly]. intros x. unfold watch_locks, check. cbn -[in_sequence].
  destruct H as [-> | ->]; [done|]. by rewrite bool_decide_true, orb_true_r.
Qed.
Hint Extern 3 (calm _ (request _ _ _ _ _)) => (apply request_calm; first [by left | by right]) : calm.

Lemma readSdo_calm q k i x s : calm (mk_held q (Some k) true) (readSdoFrom config i x s).
Proof. calmly. Qed.
Hint Resolve readSdo_calm : calm.
Lemma connect_calm q i : calm (mk_held q (Some Exclusive) true) (connectAndIdentify config i).
Proof. calmly. Qed.
Lemma add_entries_calm q k n : forall i p c e b, calm (mk_held q (Some k) true) (add_entries config n i p c e b).
Proof. induction n; intros; cbn [add_entries]; calmly. Qed.
Hint Resolve connect_calm add_entries_calm : calm.
Lemma add_pdos_calm q k n : forall i a c e b, calm (mk_held q (Some k) true) (add_pdos config turns n i a c e b).
Proof. induction n; intros; cbn [add_pdos]; calmly. Qed.
Hint Resolve add_pdos_calm : calm.
Lemma configure_calm q l : forall x, calm (mk_held q (Some Exclusive) true) (configure_drives config turns x l).
Proof. induction l; intros; cbn [configure_drives]; calmly. Qed.
Lemma readStates_calm l : forall x, calm free (readStates_from config l x).
Proof. induction l; intros; cbn [readStates_from]; calmly. Qed.
Lemma requestShared_calm i type data status : calm (mk_held (Some i) None true) (requestShared config i type data status).
Proof. calmly. Qed.
Hint Resolve configure_calm readStates_calm requestShared_calm : calm.
Lemma bulk_calm n i : forall m, calm (mk_held (Some i) None true) (bulk_list config n i m).
Proof. induction n; intros; cbn [bulk_list]; calmly. Qed.
Lemma subindexes_calm i x l : forall m, calm (mk_held (Some i) None true) (fill_subindexes config i x l m).
Proof. induction l as [|s l IH]; intros m; cbn [fill_subindexes]; [calmly|]. destruct m as [m n]. calmly. Qed.
Hint Resolve bulk_calm subindexes_calm : calm.
Lemma objects_calm i l : forall m, calm (mk_held (Some i) None true) (fill_objects config i l m).
Proof. induction l; intros; cbn [fill_objects]; calmly. Qed.
Lemma packet_calm i type st data t : calm (mk_held (Some i) None true) (filePacket i type st data t).
Proof.
  unfold filePacket. calm_step. apply calm_bind; [apply calm_call|calmly]. intros x. unfold watch_locks, check. cbn.
  by rewrite !bool_decide_true, orb_true_r.
Qed.
Hint Resolve objects_calm packet_calm : calm.
Lemma read_packets_calm n i f t : forall c r, calm (mk_held (Some i) None true) (read_packets n i f t c r).
Proof. induction n; intros; cbn [read_packets]; calmly. Qed.
Lemma write_packets_calm n i f d : forall o, calm (mk_held (Some i) None true) (write_packets config n i f d o).
Proof. induction n; intros; cbn [write_packets]; calmly. Qed.
Lemma restart_calm n i t : calm (mk_held (Some i) None true) (await_restart config n i t).
Proof. induction n; cbn [await_restart]; calmly. Qed.
Lemma drive_calm n i t t' : calm (mk_held (Some i) None true) (await_drive config n i t t').
Proof. induction n; cbn [await_drive]; calmly. Qed.
Hint Resolve read_packets_calm write_packets_calm restart_calm drive_calm : calm.
Lemma command_calm l r s t : calm free (command_drives config l r s t).
Proof. induction l; cbn [command_drives]; calmly. Qed.
Hint Resolve command_calm : calm.

(** The calls of the control plane, their results left out. *)
Inductive operation :=
  | Scan | SlaveInfoOf (p : Z) | SlaveStateOf (p : Z) | ConfigureProcessData | ProcessDataLayout | Stop | ReadStates (l : list Z)
  | ReadSdo (p index subindex : Z) | WriteSdo (p index subindex : Z) (data : bytes) | ReadObjectDictionary (p : Z)
  | ReadFile (p : Z) (filename : text) (timeout : Z) | WriteFile (p : Z) (filename : text) (data : bytes)
  | TransitionToState (l : list Z) (required : option Z) (target timeout : Z) | Locate (p : Z) (on : bool) | ActivateFirmware (p timeout : Z).

Definition forget {A} (s : script answer A) : script answer unit := bind s (fun _ => Ret tt).
Definition perform (o : operation) : script answer unit :=
  match o with
  | Scan => forget (scan config) | SlaveInfoOf p => forget (slaveInfo config p) | SlaveStateOf p => forget (slaveState config p)
  | ConfigureProcessData => forget (configureProcessData config turns) | ProcessDataLayout => forget processDataLayout | Stop => stop config
  | ReadStates l => forget (readStates config l) | ReadSdo p i s => forget (readSdo config p i s) | WriteSdo p i s d => forget (writeSdo config p i s d)
  | ReadObjectDictionary p => forget (readObjectDictionary config p) | ReadFile p f t => forget (readFile config p f t)
  | WriteFile p f d => forget (writeFile config p f d) | TransitionToState l r s t => transitionToState config l r s t
  | Locate p b => forget (locate config p b) | ActivateFirmware p t => forget (activateFirmware config turns p t)
  end.

Lemma perform_calm o : calm free (perform o).
Proof. destruct o; cbn [perform]; calmly. Qed.
End Locks.

Lemma proper_before e h : proper (watch_locks h e) = true -> proper h = true.
Proof. destruct e as [o x]. destruct o; cbn; rewrite ?andb_true_iff; tauto. Qed.
Lemma proper_prefix tr : forall h, proper (foldl watch_locks h tr) = true -> proper h = true.
Proof. induction tr as [|e tr IH]; intros h H; [done|]. apply (proper_before e), IH, H. Qed.


Definition two_drives : Config := mk_config [[49]; [50]] kControl 75 1000 30000.
(** Answers of a drive that takes everything. *)
Definition accepting (h : list (event answer)) (o : op) : answer o :=
  match o with
  | Request _ type _ _ _ => Value (Spoe.mk_frame type 0 (if in_sequence type then Z.lor (Z.shiftl kPacketLast 8) kReplyAck else 0) [0; 1; 0; 0])
  | Connect _ | IsOpen _ => true
  | ShouldAbort => false
  | LoadState _ | LoadVersion _ | Now => 2
  | GetInfo _ => no_info
  | GetLayout => mk_layout 0 0 [] 0
  | _ => tt
  end.
Definition dictionary_run : list (event answer) := (exec accepting [] (perform two_drives 9 (ReadObjectDictionary 2))).1.

End SpoeDriver.
