(* ===== verification/SpoeTransfers.v ===== *)
(** * Files and the object dictionary over SPoE ([libs/comm/spoe_fieldbus_driver.cc])

    What the driver's segmented transfers bring about on a drive that keeps the protocol: a file that
    was written reads back, and a dictionary is complete although the bulk list loses packets. *)

From S2P Require Import Prelude Util Driver SpoeConnection Script SpoeDriver.

Module Transfers.
Import Script SpoeDriver.

(** ** A drive's files *)
Inductive transfer := Idle | Writing (name : text) (content : bytes) | Reading (rest : bytes).
Record server := mk_server { files : gmap text bytes; current : transfer }.

Definition acked (f : Frame) : bool := low (Spoe.status f) =? kReplyAck.
Definition is_last (f : Frame) : bool := high (Spoe.status f) =? kPacketLast.
Definition accepted (f : Frame) : bool := negb (is_last f) && (acked f || (low (Spoe.status f) =? 0)).

(** A reply that sends the next part of [content]. *)
Definition sends (f : Frame) (content : bytes) (s s' : server) : Prop :=
  exists rest, content = Spoe.data f ++ rest /\ files s' = files s /\ if is_last f then rest = [] else current s' = Reading rest.

(** The drive [i] answers a request of a file transfer. It cuts what it sends where it likes, and what
    reading the list of files or a missing file gives is left open. *)
Definition serves (type status : Z) (data : bytes) (f : Frame) (s s' : server) : Prop :=
  if type =? kFileWrite then
    if status =? kPacketFirst then if accepted f then s' = mk_server (files s) (Writing data []) else files s' = files s
    else if acked f then
      exists name content, current s = Writing name content /\
        s' = if status =? kPacketLast then mk_server (<[name := content ++ data]> (files s)) Idle else mk_server (files s) (Writing name (content ++ data))
    else files s' = files s
  else
    if negb (acked f) then files s' = files s
    else if status =? kPacketFirst then
      exists content, sends f content s s' /\ forall c, data <> kGetList -> files s !! data = Some c -> content = c
    else exists content, current s = Reading content /\ sends f content s s'.

(** What a call does to the files of the drive [i]; a write without an answer may have done anything. *)
Definition acts (i : nat) (e : event answer) (s s' : server) : Prop :=
  let 'existT o x := e in
  (match o return answer o -> Prop with
   | Request j type status data _ => fun x =>
       if bool_decide (j = i) && ((type =? kFileWrite) || (type =? kFileRead))
       then match x with Value f => serves type status data f s s' | Unexpected _ => if type =? kFileWrite then True else files s' = files s end
       else s' = s
   | _ => fun _ => s' = s
   end) x.

Section Files.
Context (config : Config) (i : nat).

Lemma packet_wp type status data timeout h s Q : type = kFileWrite \/ type = kFileRead ->
  (forall f h s', serves type status data f s s' -> Q (Value f) h s') -> (forall e h s', Q (Unexpected e) h s') ->
  wp (acts i) (filePacket i type status data timeout) h s Q.
Proof.
  intros Ht HQ HE. unfold filePacket, locked. cbn [bind call wp]. intros [] s1 -> x s2 Ha.
  cbn [acts ev] in Ha. rewrite bool_decide_true in Ha by done. assert (E : (type =? kFileWrite) || (type =? kFileRead) = true) by (by destruct Ht as [-> | ->]).
  rewrite E in Ha. destruct x as [f|e]; cbn [wp bind call]; [intros [] ? ->; by apply HQ|].
  destruct e; cbn [wp bind call]; intros; apply HE.
Qed.

Lemma write_packets_wp data filename turns : forall offset h s, current s = Writing filename (take offset data) ->
  (offset < length data)%nat \/ offset = length data /\ data = [] -> (length data - offset < turns)%nat ->
  wp (acts i) (write_packets config turns i filename data offset) h s
    (fun r _ s' => r = Value tt -> files s' = <[filename := data]> (files s)).
Proof.
  induction turns as [|turns IH]; intros offset h s Hc Ho Ht; [lia|]. cbn [write_packets]. set (chunk := Nat.min kFileChunk _).
  assert (Hch : (0 < chunk)%nat \/ data = []) by (destruct Ho as [|[_ ?]]; [left; unfold chunk, kFileChunk; lia|by right]).
  assert (Hle : (offset + chunk <= length data)%nat) by (unfold chunk; lia).
  apply wp_bind, packet_wp; [by left| |done]. intros f h1 s1 Hs. cbv beta iota zeta.
  destruct (low (Spoe.status f) =? kReplyAck) eqn:Ea; cbn [negb wp]; [|done].
  unfold serves, acked in Hs. rewrite Z.eqb_refl, Ea in Hs.
  destruct (length data <=? offset + chunk)%nat eqn:El; [change (kPacketLast =? kPacketFirst) with false in Hs|change (kPacketMiddle =? kPacketFirst) with false in Hs]; cbv iota in Hs.
  - change (kPacketLast =? kPacketLast) with true in Hs. destruct Hs as (n & c & Hw & ->). rewrite Hc in Hw. simplify_eq. apply Nat.leb_le in El. rewrite (proj2 (Nat.ltb_ge _ _)) by lia. cbn [wp files]. intros _.
    f_equal. unfold slice. rewrite <- (take_drop offset data) at 3. f_equal. apply take_ge. rewrite length_drop. lia.
  - change (kPacketMiddle =? kPacketLast) with false in Hs. destruct Hs as (n & c & Hw & ->). rewrite Hc in Hw. simplify_eq. apply Nat.leb_gt in El. rewrite (proj2 (Nat.ltb_lt _ _)) by lia.
    refine (IH (offset + chunk)%nat h1 (mk_server (files s) (Writing n (take offset data ++ slice offset chunk data))) _ _ _);
      [cbn [current]; by rewrite <- take_take_drop|lia|destruct Hch as [|Hd]; [lia|subst data; simpl in *; lia]].
Qed.

Lemma writeFile_wp position filename data h s : driveAt config position = Some i ->
  wp (acts i) (writeFile config position filename data) h s (fun r _ s' => r = Value tt -> files s' = <[filename := data]> (files s)).
Proof.
  intros Hd. unfold writeFile. rewrite Hd. unfold sequenced. cbn [bind call wp]. intros [] s1 ->. apply wp_bind, wp_bind, packet_wp; [by left| |].
  2: { intros e h1 s1. cbn [wp bind call]. by intros. }
  intros f h1 s1 Hs. cbv beta iota zeta. destruct (_ || _) eqn:Er; [cbn [wp bind call]; by intros|].
  assert (Ha : accepted f = true).
  { unfold accepted, is_last, acked. apply orb_false_iff in Er as [-> Er]. destruct (low _ =? kReplyAck); [done|]. by destruct (low _ =? 0). }
  unfold serves in Hs. cbn in Hs. rewrite Ha in Hs. subst s1.
  eapply wp_mono; [|apply write_packets_wp; [done| |lia]]; [|destruct data; simpl; [by right|left; lia]].
  intros r ? s2 Hr. cbn [wp bind call]. intros [] ? ->. exact Hr.
Qed.

(** What is read so far and what the drive still holds make up the file. *)
Definition reading (c content : bytes) (r : expected FoeError Frame) (s : server) : Prop :=
  forall f, r = Value f -> acked f = true -> exists rest, c = content ++ Spoe.data f ++ rest /\ if is_last f then rest = [] else current s = Reading rest.

Lemma read_packets_wp filename timeout c packets : forall content r h s, reading c content r s ->
  wp (acts i) (read_packets packets i filename timeout content r) h s (fun x _ s' => forall l, x = Value l -> l = c /\ files s' = files s).
Proof.
  induction packets as [|n IH]; intros content r h s Hr; cbn [read_packets wp]; [done|]. destruct r as [f|e]; [|done].
  destruct (low (Spoe.status f) =? kReplyAck) eqn:Ea; cbn [negb]; [|done]. destruct (Hr f eq_refl Ea) as (rest & -> & Hl). unfold is_last in Hl.
  destruct (high (Spoe.status f) =? kPacketLast); [subst rest; cbn [wp]; rewrite app_nil_r; intros l [=]; done|].
  apply wp_bind, packet_wp; [by right| |].
  - intros g h1 s1 Hs. assert (Hf : acked g = true -> files s1 = files s /\ reading (content ++ Spoe.data f ++ rest) (content ++ Spoe.data f) (Value g) s1).
    { intros Hg. unfold serves in Hs. cbn in Hs. rewrite Hg in Hs. cbn in Hs. destruct Hs as (c' & Hc' & rest' & -> & Hfs & Hl').
      rewrite Hl in Hc'. simplify_eq. split; [done|]. intros g' [= <-] _. exists rest'. by rewrite <- !app_assoc. }
    destruct (acked g) eqn:Hg; [|destruct n; cbn [read_packets wp]; [done|]; unfold acked in Hg; by rewrite Hg].
    destruct (Hf eq_refl) as [Hfs Hrd]. eapply wp_mono; [|exact (IH _ _ h1 s1 Hrd)]. intros x ? s2 H l Hx. destruct (H l Hx). by rewrite <- Hfs.
  - intros e h1 s1. destruct n; done.
Qed.

Lemma readFileFrom_wp filename timeout h s : wp (acts i) (readFileFrom config i filename timeout) h s
  (fun x _ s' => forall l, x = Value l -> files s' = files s /\ forall c, filename <> kGetList -> files s !! filename = Some c -> l = c).
Proof.
  unfold readFileFrom. apply wp_bind, packet_wp; [by right| |].
  - intros f h1 s1 Hs. unfold serves in Hs. cbn in Hs. destruct (acked f) eqn:Ha; cbn in Hs.
    + destruct Hs as (c & (rest & -> & Hf & Hl) & Hc). eapply wp_mono; [|apply (read_packets_wp _ _ (Spoe.data f ++ rest))].
      * intros x ? s2 H l Hx. destruct (H l Hx) as [-> ->]. split; [done|]. intros c Hn Hl'. symmetry. symmetry. by apply Hc.
      * intros g [= <-] _. eauto.
    + destruct kMaxFilePackets as [|n]; cbn [read_packets wp]; [done|]. unfold acked in Ha. by rewrite Ha.
  - intros e h1 s1. destruct kMaxFilePackets; done.
Qed.

Lemma readFile_wp position filename timeout h s : driveAt config position = Some i -> wp (acts i) (readFile config position filename timeout) h s
  (fun x _ _ => forall l c, x = Value l -> filename <> kGetList -> files s !! filename = Some c -> l = c).
Proof.
  intros Hd. unfold readFile. rewrite Hd. unfold sequenced. cbn [bind call wp]. intros [] s1 ->. apply wp_bind, wp_bind.
  eapply wp_mono; [|apply readFileFrom_wp]. intros [l|e] h1 s1 H; cbv beta iota; [|cbn [wp bind call]; by intros].
  destruct (H l eq_refl) as [Hf Hc]. destruct (_ || _); [cbn [wp bind call]; intros [] ? -> l' c [= <-] Hn Hl; auto|].
  apply wp_bind. eapply wp_mono; [|apply readFileFrom_wp]. intros r h2 s2 H2. cbn [wp bind call]. intros [] ? -> l' c E Hn Hl.
  assert (l' = l) as -> by (destruct r as [r|]; [destruct (listed filename r)|]; by simplify_eq). auto.
Qed.

(** Reading changes no file. *)
Definition writes_no_file (o : op) : Prop := match o with Request _ type _ _ _ => type <> kFileWrite | _ => True end.

Lemma read_packets_ops j filename timeout packets : forall content r, all_ops writes_no_file (read_packets packets j filename timeout content r).
Proof. induction packets as [|n IH]; intros content r; cbn [read_packets]; repeat (exact (IH _ _) || all_ops_step). Qed.

Lemma readFile_keeps position filename timeout h s : wp (acts i) (readFile config position filename timeout) h s (fun _ _ s' => files s' = files s).
Proof.
  apply (wp_all_ops _ writes_no_file (fun _ s' => files s' = files s)); [| |done].
  - intros o x h1 d d' Ho <- Ha. destruct o; cbn [acts ev] in Ha; subst; try done. destruct (_ && _); [|by subst]. cbn [writes_no_file] in Ho.
    rewrite (proj2 (Z.eqb_neq _ _) Ho) in Ha. destruct x as [f|e]; [|done]. unfold serves in Ha. rewrite (proj2 (Z.eqb_neq _ _) Ho) in Ha.
    destruct (acked f); cbn [negb] in Ha; [|done]. destruct (status =? kPacketFirst); [destruct Ha as (? & (? & ? & ? & ?) & ?)|destruct Ha as (? & ? & ? & ? & ? & ?)]; done.
  - unfold readFile. destruct (driveAt config position); repeat (exact (read_packets_ops _ _ _ _ _ _) || all_ops_step).
Qed.

(** A drive that takes every packet. *)
Definition responsive (e : event answer) : Prop :=
  let 'existT o x := e in
  (match o return answer o -> Prop with
   | Request _ type status _ _ => fun x => type = kFileWrite -> exists f, x = Value f /\ acked f = true /\ (status = kPacketFirst -> is_last f = false)
   | _ => fun _ => True
   end) x.
Definition taking (e : event answer) (_ _ : unit) : Prop := responsive e.

Lemma packet_taken status data timeout h Q :
  (forall f h, acked f = true -> (status = kPacketFirst -> is_last f = false) -> Q (Value f) h tt) ->
  wp taking (filePacket i kFileWrite status data timeout) h tt Q.
Proof.
  intros HQ. unfold filePacket, locked. cbn [bind call wp]. intros [] [] _ x [] Ha. destruct (Ha eq_refl) as (f & -> & Hk & Hl).
  cbn [wp bind call]. intros [] [] _. by apply HQ.
Qed.

Lemma write_packets_succeeds filename data turns : forall offset h, (length data - offset < turns)%nat ->
  wp taking (write_packets config turns i filename data offset) h tt (fun r _ _ => r = Value tt).
Proof.
  induction turns as [|turns IH]; intros offset h Ht; [lia|]. cbn [write_packets]. apply wp_bind, packet_taken. intros f h1 Ha _. cbv beta iota zeta.
  unfold acked in Ha. rewrite Ha. cbn [negb]. destruct (_ <? _)%nat eqn:E; [|done]. apply Nat.ltb_lt in E. apply IH. unfold kFileChunk in *. lia.
Qed.

Lemma writeFile_succeeds position filename data h : driveAt config position = Some i ->
  wp taking (writeFile config position filename data) h tt (fun r _ _ => r = Value tt).
Proof.
  intros Hd. unfold writeFile. rewrite Hd. unfold sequenced. cbn [bind call wp]. intros [] [] _. apply wp_bind, wp_bind, packet_taken.
  intros f h1 Ha Hl. cbv beta iota zeta. unfold acked, is_last in Ha, Hl. rewrite Ha, (Hl eq_refl). cbn [negb andb orb].
  eapply wp_mono; [|apply write_packets_succeeds; lia]. intros r ? [] ->. cbn [wp bind call]. by intros.
Qed.
End Files.

(** C26: A file written to an SPoE drive that keeps the transfer protocol reads back: when the write succeeds the drive holds exactly the data under that name, besides its other files, and a read that then succeeds returns the data and changes nothing; and a write on a drive that takes every packet succeeds. *)
Theorem file_roundtrip config position i filename data timeout tr1 r1 tr2 c s s1 s2
  (Hd : driveAt config position = Some i) (Hn : filename <> kGetList)
  (Hw : runs (writeFile config position filename data) tr1 r1) (H1 : follows (acts i) s tr1 s1)
  (Hr : runs (readFile config position filename timeout) tr2 (Value c)) (H2 : follows (acts i) s1 tr2 s2) :
  (Forall responsive tr1 -> r1 = Value tt) /\
  (r1 = Value tt -> files s1 = <[filename := data]> (files s) /\ c = data) /\ files s2 = files s1.
Proof.
  split_and!.
  - intros Ht. refine (wp_runs taking _ _ tr1 r1 [] tt tt Hw (writeFile_succeeds config i position filename data [] Hd) _).
    clear -Ht. induction Ht as [|e tr He Ht IH]; econstructor; [exact He|exact IH].
  - intros ->. pose proof (wp_runs (acts i) _ _ tr1 _ [] s s1 Hw (writeFile_wp config i position filename data [] s Hd) H1 eq_refl) as E. split; [done|].
    refine (wp_runs (acts i) _ _ tr2 _ [] s1 s2 Hr (readFile_wp config i position filename timeout [] s1 Hd) H2 c data eq_refl Hn _).
    rewrite E. apply lookup_insert_eq.
  - exact (wp_runs (acts i) _ _ tr2 _ [] s1 s2 Hr (readFile_keeps config i position filename timeout [] s1) H2).
Qed.

(** *** A simulated drive *)
Definition kPart : nat := 700.
Definition part (type : Z) (content : bytes) (s : server) : server * Frame :=
  let rest := drop kPart content in
  (mk_server (files s) (Reading rest),
   Spoe.mk_frame type 0 (Z.lor (Z.shiftl (if bool_decide (rest = []) then kPacketLast else kPacketMiddle) 8) kReplyAck) (take kPart content)).
Definition serve (s : server) (type status : Z) (data : bytes) : server * Frame :=
  let ack := Spoe.mk_frame type 0 (Z.lor (Z.shiftl kPacketFirst 8) kReplyAck) [] in
  let refusal := Spoe.mk_frame type 0 (Z.lor (Z.shiftl kPacketLast 8) 5) [] in
  if type =? kFileWrite then
    if status =? kPacketFirst then (mk_server (files s) (Writing data []), ack)
    else match current s with
    | Writing name content =>
        (if status =? kPacketLast then mk_server (<[name := content ++ data]> (files s)) Idle else mk_server (files s) (Writing name (content ++ data)), ack)
    | _ => (s, refusal)
    end
  else if status =? kPacketFirst then part type (default [] (files s !! data)) s
  else match current s with Reading content => part type content s | _ => (s, refusal) end.

Definition drive_reply (s : server) (o : op) : answer o :=
  match o with
  | Request _ type status data _ => Value (serve s type status data).2
  | Connect _ | IsOpen _ => true
  | ShouldAbort => false
  | LoadState _ | LoadVersion _ | Now => 2
  | GetInfo _ => no_info
  | GetLayout => mk_layout 0 0 [] 0
  | _ => tt
  end.
Definition drive_react (s : server) (e : event answer) : server :=
  match projT1 e with
  | Request j type status data _ => if bool_decide (j = 1%nat) && ((type =? kFileWrite) || (type =? kFileRead)) then (serve s type status data).1 else s
  | _ => s
  end.

Lemma part_sends type content s : acked (part type content s).2 = true /\ sends (part type content s).2 content s (part type content s).1.
Proof.
  split; [unfold part; case_bool_decide; reflexivity|]. exists (drop kPart content). cbn [part fst snd Spoe.data files]. split; [by rewrite take_drop|]. split; [done|].
  unfold is_last. cbn [Spoe.status]. case_bool_decide; [done|]. cbn [current]. done.
Qed.

Lemma drive_acts s o : acts 1 (ev o (drive_reply s o)) s (drive_react s (ev o (drive_reply s o))).
Proof.
  destruct o; try done. cbn [acts ev drive_reply drive_react projT1]. destruct (_ && _); [|done]. unfold serves, serve.
  destruct (type =? kFileWrite).
  - destruct (status =? kPacketFirst); [done|]. destruct (current s) eqn:E; [done| |done]. cbn. by destruct (status =? kPacketLast); eexists _, _.
  - destruct (status =? kPacketFirst); [|destruct (current s) as [|?|rest]; [done|done|]].
    + destruct (part_sends type (default [] (files s !! data)) s) as [Ha Hs]. rewrite Ha. eexists. split; [exact Hs|]. by intros c _ ->.
    + destruct (part_sends type rest s) as [Ha Hs]. rewrite Ha. by eexists.
Qed.

Definition sample_data : bytes := (fun n => Z.of_nat (n mod 251)) <$> seq 0 1201.
Definition sample_name : text := [97; 46; 98].
Definition sample_server : server := mk_server {[ [120] := [1] ]} Idle.
Definition sample_write : list (event answer) * expected FoeError unit :=
  exec (fun h => drive_reply (foldl drive_react sample_server h)) [] (writeFile two_drives 2 sample_name sample_data).
Definition written_server : server := foldl drive_react sample_server sample_write.1.
Definition sample_read : list (event answer) * expected FoeError bytes :=
  exec (fun h => drive_reply (foldl drive_react written_server h)) [] (readFile two_drives 2 sample_name 0).

Lemma file_roundtrip_witness : sample_write.2 = Value tt /\ sample_read.2 = Value sample_data /\ files written_server !! [120] = Some [1].
Proof.
  assert (Er : sample_read.2 = Value sample_data) by (vm_compute; reflexivity). split; [vm_compute; reflexivity|]. split; [done|].
  destruct (file_roundtrip two_drives 2 1 sample_name sample_data 0 sample_write.1 sample_write.2 sample_read.1 sample_data sample_server written_server
              (foldl drive_react written_server sample_read.1)) as (_ & H & _).
  - reflexivity.
  - discriminate.
  - apply runs_exec.
  - apply (exec_follows (acts 1) drive_react drive_reply), drive_acts.
  - rewrite <- Er. apply runs_exec.
  - apply (exec_follows (acts 1) drive_react drive_reply), drive_acts.
  - destruct H as [-> _]; vm_compute; reflexivity.
Defined.
End Transfers.
