(* ===== verification/SpoeDictionary.v ===== *)
(** * Reading the object dictionary over SPoE ([libs/comm/spoe_fieldbus_driver.cc])

    The bulk list of the firmware loses packets. [readObjectDictionary] fills each gap it leaves with
    single descriptions: on a drive that describes its dictionary truthfully the result is the whole
    dictionary, in order, or says how many entries it misses. *)

From Stdlib Require Import Sorted.
From S2P Require Import Prelude Util Driver SpoeConnection Script SpoeDriver.

Module Dictionary.
Import Script SpoeDriver.

(** ** The format of an entry *)
Definition encode_entry (objectDataType : Z) (p : ParameterEntry) : bytes :=
  le_bytes 2 (index (entry p)) ++ [subindex (entry p); objectDataType] ++ le_bytes 2 (dataType (entry p)) ++ [objectCode (entry p); 0] ++
  le_bytes 2 (bitLength (entry p)) ++ le_bytes 2 (access (entry p)) ++ le_bytes 4 (subindexCount p) ++
  (name (entry p) ++ replicate (50 - length (name (entry p))) 0) ++ [0; 0].
Definition cleared : bytes := replicate kParameterEntrySize 0.

Record entry_ok (p : ParameterEntry) : Prop := mk_entry_ok {
  ok_index : 0 < index (entry p) < 2 ^ 16;
  ok_subindex : in_u 8 (subindex (entry p));
  ok_code : in_u 8 (objectCode (entry p));
  ok_type : in_u 16 (dataType (entry p));
  ok_bits : in_u 16 (bitLength (entry p));
  ok_access : in_u 16 (access (entry p));
  ok_count : in_u 32 (subindexCount p);
  ok_name : (length (name (entry p)) <= 50)%nat /\ Forall (fun b => b <> 0) (name (entry p)) }.

Lemma readU16_slice x l off : in_u 16 x -> slice off 2 l = le_bytes 2 x -> readU16 l off = x.
Proof.
  intros Hx Hs. apply Spoe.readU16_bytes; [done| |]; unfold byte_at.
  - rewrite <- (Nat.add_0_r off), <- (lookup_slice off 2) by lia. rewrite Hs. reflexivity.
  - rewrite <- (lookup_slice off 2) by lia. rewrite Hs. cbn. unfold u8, uwrap. by rewrite Z.shiftr_div_pow2.
Qed.

Lemma readU32_slice x l off : in_u 32 x -> slice off 4 l = le_bytes 4 x -> readU32 l off = x.
Proof.
  intros Hx Hs. assert (Hlo : readU16 l off = x mod 2 ^ 16).
  { apply readU16_slice; [unfold in_u; apply Z.mod_pos_bound; lia|].
    transitivity (take 2 (slice off 4 l)); [unfold slice; by rewrite take_take|]. rewrite Hs. symmetry. apply (le_bytes_uwrap 2). }
  assert (Hhi : readU16 l (off + 2) = x / 2 ^ 16).
  { apply readU16_slice; [unfold in_u in *; change (2 ^ 32) with (2 ^ 16 * 2 ^ 16) in Hx; split; [apply Z.div_pos; lia|apply Z.div_lt_upper_bound; lia]|].
    transitivity (drop 2 (slice off 4 l)); [unfold slice; rewrite skipn_firstn_comm, drop_drop; done|]. rewrite Hs. cbn. rewrite Z.div_div by lia. done. }
  unfold readU32. rewrite Hlo, Hhi, lor_shiftl_add; [|lia|unfold in_u; apply Z.mod_pos_bound; lia]. pose proof (Z.div_mod x (2 ^ 16) ltac:(lia)). lia.
Qed.

Lemma take_name_padded l n : Forall (fun b => b <> 0) l -> take_name (l ++ replicate n 0) = l.
Proof. induction 1 as [|b l Hb Hl IH]; [by destruct n|]. cbn. rewrite (proj2 (Z.eqb_neq _ _) Hb). by rewrite IH. Qed.

Lemma length_encode_entry t p : (length (name (entry p)) <= 50)%nat -> length (encode_entry t p) = kParameterEntrySize.
Proof. intros H. unfold encode_entry. rewrite !length_app, !length_le_bytes, length_replicate. cbn. unfold kParameterEntrySize. lia. Qed.

Lemma decode_encode t p : entry_ok p -> decode_entry (encode_entry t p) = p.
Proof.
  intros []. destruct ok_name0 as [Hl Hz]. unfold decode_entry.
  assert (Hn : slice 16 50 (encode_entry t p) = name (entry p) ++ replicate (50 - length (name (entry p))) 0).
  { unfold slice. cbn [encode_entry le_bytes app drop]. rewrite drop_0. apply take_app_length'. rewrite length_app, length_replicate. lia. }
  rewrite Hn, take_name_padded by done.
  rewrite (readU16_slice (index (entry p))), (readU16_slice (dataType (entry p))), (readU16_slice (bitLength (entry p))), (readU16_slice (access (entry p))),
    (readU32_slice (subindexCount p)) by (done || (unfold in_u; lia)).
  destruct p as [[] ?]. reflexivity.
Qed.

Lemma decode_fuel n : forall l, (length l <= n)%nat -> decode_entries n l = decodeParameterEntries l.
Proof.
  unfold decodeParameterEntries. induction n as [n IH] using lt_wf_ind. intros l Hn. destruct n as [|n]; [destruct l; [done|simpl in Hn; lia]|]. destruct l as [|b l]; [done|].
  cbn [decode_entries length]. destruct (_ <? _)%nat eqn:E; [done|]. apply Nat.ltb_ge in E. unfold kParameterEntrySize in *. cbn [length] in *.
  rewrite (IH n), (IH (length l)) by (rewrite ?length_drop; cbn [length]; lia). done.
Qed.

Lemma decode_app raw rest : length raw = kParameterEntrySize ->
  decodeParameterEntries (raw ++ rest) =
    (if index (entry (decode_entry raw)) =? 0 then [] else [decode_entry raw]) ++ decodeParameterEntries rest.
Proof.
  intros Hl. rewrite <- (decode_fuel (S (length (raw ++ rest)))) by lia. cbn [decode_entries].
  rewrite (proj2 (Nat.ltb_ge _ _)) by (rewrite length_app; lia).
  rewrite (take_app_length' _ _ _ (eq_sym Hl)), (drop_app_length' _ _ _ (eq_sym Hl)), decode_fuel by (rewrite length_app; lia). by destruct (_ =? 0).
Qed.

(** The data of a packet: entries, and descriptions that were cleared and not filled. *)
Definition packet (l : list (option (Z * ParameterEntry))) : bytes :=
  concat ((fun x => match x with Some (t, p) => encode_entry t p | None => cleared end) <$> l).

Lemma packet_cons x l : packet (x :: l) = match x with Some (t, p) => encode_entry t p | None => cleared end ++ packet l.
Proof. done. Qed.

Lemma decode_short tail : (length tail < kParameterEntrySize)%nat -> decodeParameterEntries tail = [].
Proof. intros H. unfold decodeParameterEntries. destruct tail; [done|]. cbn [length decode_entries]. by rewrite (proj2 (Nat.ltb_lt _ _)). Qed.

Lemma decode_packet l tail : (forall t p, Some (t, p) ∈ l -> entry_ok p) -> (length tail < kParameterEntrySize)%nat ->
  decodeParameterEntries (packet l ++ tail) = omap (fmap snd) l.
Proof.
  intros Hl Ht. induction l as [|x l IH]; [by apply decode_short|]. rewrite packet_cons, <- app_assoc.
  assert (IH' : decodeParameterEntries (packet l ++ tail) = omap (fmap snd) l) by (apply IH; intros; eapply Hl; by right). destruct x as [[t p]|].
  - assert (Hp : entry_ok p) by (apply (Hl t); left). rewrite decode_app by (apply length_encode_entry, (ok_name p Hp)).
    rewrite decode_encode by done. rewrite (proj2 (Z.eqb_neq _ _)) by (pose proof (ok_index p Hp); lia).
    rewrite IH'. done.
  - rewrite decode_app by done. rewrite IH'. done.
Qed.

Lemma indexes_read l : Forall (in_u 16) l -> read_indexes (length (concat (le_bytes 2 <$> l))) (concat (le_bytes 2 <$> l)) = l.
Proof.
  enough (forall n, (length (concat (le_bytes 2 <$> l)) <= n)%nat -> Forall (in_u 16) l -> read_indexes n (concat (le_bytes 2 <$> l)) = l) by auto.
  induction l as [|x l IH]; intros n Hn Hl; [by destruct n|]. inversion Hl; subst. destruct n; [simpl in Hn; lia|]. cbn [read_indexes].
  rewrite fmap_cons. cbn [concat]. rewrite length_app, length_le_bytes. cbn [Nat.add Nat.ltb Nat.leb].
  rewrite (readU16_slice x) by done. f_equal. apply IH; [|done]. rewrite fmap_cons in Hn. cbn [concat] in Hn. rewrite length_app, length_le_bytes in Hn. lia.
Qed.

(** ** The map of the entries *)
Definition before (a b : (Z * Z) * ParameterEntry) : Prop := key_before a.1 b.1 = true.
Definition has (m : entry_map) (k : Z * Z) : Prop := exists p, (k, p) ∈ m.

Lemma key_before_trans a b c : key_before a b = true -> key_before b c = true -> key_before a c = true.
Proof. unfold key_before. lia. Qed.
Lemma key_same a b : key_before a b = false -> key_before b a = false -> a = b.
Proof. destruct a, b. unfold key_before. cbn. intros. f_equal; lia. Qed.

Lemma insert_elem k p m x : x ∈ insert_or_assign k p m -> x = (k, p) \/ x ∈ m.
Proof.
  induction m as [|[k' p'] m IH]; cbn [insert_or_assign]; [rewrite list_elem_of_singleton; auto|].
  destruct (key_before k k'); [rewrite elem_of_cons; auto|]. destruct (key_before k' k); rewrite !elem_of_cons; naive_solver.
Qed.

Lemma insert_has k p m k' : k' = k \/ has m k' -> has (insert_or_assign k p m) k'.
Proof.
  unfold has. induction m as [|[k1 p1] m IH]; cbn [insert_or_assign].
  - intros [->|[? H]]; [exists p; left|by apply not_elem_of_nil in H].
  - destruct (key_before k k1) eqn:E1; [intros [->|[q H]]; [exists p; left|exists q; by right]|]. destruct (key_before k1 k) eqn:E2.
    + intros [->|[q H]]; [destruct IH as [q H]; [by left|]; exists q; by right|]. apply elem_of_cons in H as [[= -> ->]|H]; [exists p1; left|].
      destruct IH as [r Hr]; [right; eauto|]. exists r. by right.
    + pose proof (key_same _ _ E1 E2) as <-. intros [->|[q H]]; [exists p; left|]. apply elem_of_cons in H as [[= -> ->]|H]; [exists p; left|exists q; by right].
Qed.

Lemma insert_sorted k p m : StronglySorted before m -> StronglySorted before (insert_or_assign k p m).
Proof.
  induction 1 as [|[k' p'] m Hm IH Hf]; cbn [insert_or_assign]; [repeat constructor|]. destruct (key_before k k') eqn:E1.
  - constructor; [by constructor|]. constructor; [done|]. eapply Forall_impl; [exact Hf|]. intros x. by apply key_before_trans.
  - destruct (key_before k' k) eqn:E2.
    + constructor; [done|]. apply Forall_forall. intros x [->|Hx]%insert_elem; [done|]. rewrite Forall_forall in Hf. by apply Hf.
    + pose proof (key_same _ _ E1 E2) as <-. by constructor.
Qed.

Lemma find_Some k m p : find k m = Some p -> (k, p) ∈ m.
Proof.
  unfold find. destruct (List.find _ m) as [[k' p']|] eqn:E; [|done]. intros [= <-]. apply List.find_some in E as [Hi Hk]. apply bool_decide_eq_true_1 in Hk.
  cbn in Hk. subst. by apply list_elem_of_In.
Qed.
Lemma find_None k m p : find k m = None -> (k, p) ∉ m.
Proof.
  unfold find. destruct (List.find _ m) eqn:E; [done|]. intros _ Hi. apply list_elem_of_In in Hi. apply (List.find_none _ _ E) in Hi. by apply bool_decide_eq_false_1 in Hi.
Qed.

(** ** A drive with a dictionary *)
Record dictionary := mk_dictionary { objects : list Z; described : gmap (Z * Z) ParameterEntry }.

(** Entries after subindex 0 belong to an array or record that counts them. *)
Record dictionary_ok (D : dictionary) : Prop := mk_dictionary_ok {
  ok_objects : Forall (in_u 16) (objects D);
  ok_entry : forall k p, described D !! k = Some p -> key p = k /\ entry_ok p;
  ok_listed : forall x s p, described D !! (x, s) = Some p -> x ∈ objects D;
  ok_counted : forall x s p, described D !! (x, s) = Some p -> s <> 0 ->
    exists o, described D !! (x, 0) = Some o /\ isOpenObject (objectCode (entry o)) = true /\ 1 <= s <= Z.min (subindexCount o) 0xFF }.

Definition describes (type : Z) : bool := (type =? kParamDesc) || (type =? kParamSubDesc).

(** The drive [i] answers truthfully, when it answers: a bulk packet holds any of the entries. *)
Definition conforms (D : dictionary) (i : nat) (e : event answer) : Prop :=
  let 'existT o x := e in
  (match o return answer o -> Prop with
   | Request j type _ data _ => fun x => j = i -> forall f, x = Value f ->
       (type = kParamList -> Spoe.data f = concat (le_bytes 2 <$> objects D)) /\
       (type = kParamFullDesc -> exists l tail, Spoe.data f = packet l ++ tail /\ (length tail < kParameterEntrySize)%nat /\
          forall t p, Some (t, p) ∈ l -> described D !! key p = Some p) /\
       (describes type = true -> forall x s, in_u 16 x -> in_u 8 s -> data = address x s ->
          exists t, Spoe.data f = match described D !! (x, s) with Some p => encode_entry t p | None => cleared end)
   | _ => fun _ => True
   end) x.
Definition answered (e : event answer) : Prop :=
  let 'existT o x := e in
  (match o return answer o -> Prop with
   | Request _ type _ _ _ => fun x => describes type = true -> exists f, x = Value f
   | _ => fun _ => True
   end) x.

Section Reading.
Context (config : Config) (D : dictionary) (i : nat) (Hok : dictionary_ok D).

Record good (m : entry_map) : Prop := mk_good {
  good_sorted : StronglySorted before m;
  good_sound : forall k p, (k, p) ∈ m -> described D !! k = Some p }.
Definition grows (m m' : entry_map) : Prop := forall k, has m k -> has m' k.

Lemma insert_good k p m : described D !! k = Some p -> good m -> good (insert_or_assign k p m).
Proof. intros Hk []. split; [by apply insert_sorted|]. intros k' p' [[= -> ->]|H]%insert_elem; eauto. Qed.

Lemma inserts_good l m : (forall p, p ∈ l -> described D !! key p = Some p) -> good m -> good (foldl (fun m e => insert_or_assign (key e) e m) m l).
Proof using Type*.
  revert m. induction l as [|p l IH]; intros m Hl Hm; cbn [foldl]; [done|]. apply IH; [intros; apply Hl; by right|].
  apply insert_good; [|done]. apply Hl. left.
Qed.

Definition acting (e : event answer) (_ _ : unit) : Prop := conforms D i e.

Lemma request_wp type data status h Q :
  (forall f h, conforms D i (ev (Request i type status data (requestTimeout config)) (Value f)) -> Q (Value f) h tt) -> (forall e h, Q (Unexpected e) h tt) ->
  wp acting (requestShared config i type data status) h tt Q.
Proof using Type*.
  intros HQ HE. unfold requestShared, locked, request. cbn [bind call wp]. intros [] [] _ x [] Ha.
  destruct x as [f|[]]; cbn [wp bind call]; intros; repeat match goal with u : unit |- _ => destruct u end; auto.
Qed.

Lemma bulk_wp n : forall m h, good m -> wp acting (bulk_list config n i m) h tt (fun m' _ _ => good m').
Proof using Type*.
  induction n as [|n IH]; intros m h Hm; cbn [bulk_list]; [done|]. apply wp_bind, request_wp; [|done]. intros f h1 Hc. cbv beta iota zeta.
  destruct (Hc eq_refl f eq_refl) as (_ & Hp & _). destruct (Hp eq_refl) as (l & tail & -> & Ht & Hl).
  assert (Hg : good (foldl (fun m e => insert_or_assign (key e) e m) m (decodeParameterEntries (packet l ++ tail)))).
  { rewrite decode_packet; [|intros t p Hi; by apply (ok_entry D Hok _ _ (Hl t p Hi))|done]. apply inserts_good; [|done].
    intros p Hp'. apply list_elem_of_omap in Hp' as (x & Hx & E). destruct x as [[t q]|]; simplify_eq/=. by apply (Hl t). }
  destruct (_ || _); [done|]. by apply IH.
Qed.

Lemma describe_wp type x s missing h : in_u 16 x -> in_u 8 s -> describes type = true ->
  wp acting (describe config i type x s missing) h tt (fun r _ _ => r = (None, missing + 1) \/ r = (described D !! (x, s), missing)).
Proof using Type*.
  intros Hx Hs Ht. unfold describe. apply wp_bind, request_wp; [|by left]. intros f h1 Hc. cbn [wp]. right.
  destruct (Hc eq_refl f eq_refl) as (_ & _ & Hd). destruct (Hd Ht x s Hx Hs eq_refl) as [t ->].
  destruct (described D !! (x, s)) as [p|] eqn:E.
  - destruct (ok_entry D Hok _ _ E) as [Hk Hp]. rewrite <- (app_nil_r (encode_entry t p)), decode_app by (apply length_encode_entry, (ok_name p Hp)).
    rewrite decode_encode by done. rewrite (proj2 (Z.eqb_neq _ _)) by (pose proof (ok_index p Hp); lia). cbn [app List.find].
    by rewrite bool_decide_true.
  - reflexivity.
Qed.

(** What filling the gaps at the addresses [ks] brings. *)
Definition filled (ks : Z * Z -> Prop) (m : entry_map) (missing : Z) (r : entry_map * Z) : Prop :=
  good r.1 /\ grows m r.1 /\ missing <= r.2 /\ (r.2 = missing -> forall k, ks k -> is_Some (described D !! k) -> has r.1 k).

Lemma emplace_filled k p m : described D !! k = Some p -> good m -> good (emplace k p m) /\ grows m (emplace k p m) /\ has (emplace k p m) k.
Proof using Type*.
  intros Hk Hm. unfold emplace. destruct (find k m) eqn:E.
  - split_and!; [done|by intros ?|]. apply find_Some in E. by eexists.
  - split_and!; [by apply insert_good|intros k' H; apply insert_has; by right|apply insert_has; by left].
Qed.

Lemma subindexes_wp x l : in_u 16 x -> Forall (in_u 8) l -> forall m missing h, good m ->
  wp acting (fill_subindexes config i x l (m, missing)) h tt (fun r _ _ => filled (fun k => k.1 = x /\ k.2 ∈ l) m missing r).
Proof using Type*.
  intros Hx. induction l as [|s l IH]; intros Hl m missing h Hm; cbn [fill_subindexes].
  - split_and!; [done|by intros ?|cbn; lia|]. intros _ k [_ H]. by apply not_elem_of_nil in H.
  - inversion Hl as [|? ? Hs Hl']; subst. destruct (find (x, s) m) as [p|] eqn:E.
    + eapply wp_mono; [|by apply IH]. intros r ? [] (Hg & Hgr & Hmi & Hc). split_and!; [done..|]. intros Hr k [Hk1 Hk2] Hd.
      apply elem_of_cons in Hk2 as [Hk2|Hk2]; [|by apply Hc]. apply Hgr. apply find_Some in E. destruct k; simplify_eq/=. by eexists.
    + apply wp_bind. eapply wp_mono; [|by apply describe_wp]. intros r h1 [] [-> | ->]; cbv beta iota.
      * eapply wp_mono; [|by apply IH]. intros r ? [] (Hg & Hgr & Hmi & _). split_and!; [done..|lia|]. intros. lia.
      * destruct (described D !! (x, s)) as [p|] eqn:Ed.
        -- destruct (emplace_filled (x, s) p m Ed Hm) as (Hg1 & Hgr1 & Hh). eapply wp_mono; [|by apply IH]. intros r ? [] (Hg & Hgr & Hmi & Hc).
           split_and!; [done|intros k Hk; by apply Hgr, Hgr1|done|]. intros Hr k [Hk1 Hk2] Hd. apply elem_of_cons in Hk2 as [Hk2|Hk2]; [|by apply Hc].
           destruct k; simplify_eq/=. by apply Hgr.
        -- eapply wp_mono; [|by apply IH]. intros r ? [] (Hg & Hgr & Hmi & Hc). split_and!; [done..|]. intros Hr k [Hk1 Hk2] Hd.
           apply elem_of_cons in Hk2 as [Hk2|Hk2]; [|by apply Hc]. destruct k; simplify_eq/=. rewrite Ed in Hd. by destruct Hd.
Qed.

Lemma counted_range o s : entry_ok o -> s ∈ seqZ 1 (Z.min (subindexCount o) 0xFF) -> in_u 8 s.
Proof. intros Ho [? ?]%elem_of_seqZ. unfold in_u. lia. Qed.

Lemma object_wp x m missing h : in_u 16 x -> good m ->
  wp acting (fill_object config i x (m, missing)) h tt (fun r _ _ => filled (fun k => k.1 = x) m missing r).
Proof using Type*.
  intros Hx Hm. unfold fill_object.
  (* From the map with the object in it. *)
  assert (Hrest : forall o m1 h1, described D !! (x, 0) = Some o -> good m1 -> grows m m1 -> has m1 (x, 0) ->
    wp acting (if negb (isOpenObject (objectCode (entry o))) then Ret (m1, missing)
               else fill_subindexes config i x (seqZ 1 (Z.min (subindexCount o) 0xFF)) (m1, missing)) h1 tt
      (fun r _ _ => filled (fun k => k.1 = x) m missing r)).
  { intros o m1 h1 Ho Hg1 Hgr1 Hh. destruct (ok_entry D Hok _ _ Ho) as [_ Hoo].
    assert (Hs : forall y s, y = x -> s <> 0 -> is_Some (described D !! (y, s)) -> isOpenObject (objectCode (entry o)) = true /\ s ∈ seqZ 1 (Z.min (subindexCount o) 0xFF)).
    { intros y s -> Hs [p Hp]. destruct (ok_counted D Hok _ _ _ Hp Hs) as (o' & Ho' & Hop & Hc). simplify_eq. split; [done|]. apply elem_of_seqZ. lia. }
    destruct (isOpenObject _) eqn:Eo; cbn [negb].
    - eapply wp_mono; [|apply subindexes_wp; [done|apply Forall_forall; intros; by eapply counted_range|done]]. intros r ? [] (Hg & Hgr & Hmi & Hc).
      split_and!; [done|intros k Hk; by apply Hgr, Hgr1|done|]. intros Hr [y s] Hy Hd. cbn in Hy. destruct (decide (s = 0)) as [->|Hn]; [subst; by apply Hgr|].
      apply Hc; [done| |done]. split; [done|]. by apply (Hs y s).
    - split_and!; [done|done|cbn; lia|]. intros _ [y s] Hy Hd. cbn in Hy. destruct (decide (s = 0)) as [->|Hn]; [by subst|]. by destruct (Hs y s Hy Hn Hd). }
  destruct (find (x, 0) m) as [o|] eqn:E.
  - cbn [bind]. apply Hrest; [|done|by intros ?|apply find_Some in E; by eexists]. apply find_Some in E. by apply (good_sound m Hm).
  - apply wp_bind, wp_bind. eapply wp_mono; [|by apply describe_wp]. intros r h1 [] [-> | ->]; cbn [wp].
    + split_and!; [done|by intros ?|cbn; lia|]. cbn. intros. lia.
    + destruct (described D !! (x, 0)) as [o|] eqn:Ed; cbn [wp].
      * destruct (emplace_filled (x, 0) o m Ed Hm) as (Hg1 & Hgr1 & Hh). by apply Hrest.
      * split_and!; [done|by intros ?|cbn; lia|]. intros _ [y s] Hy [p Hp]. cbn in Hy. subst. exfalso.
        destruct (decide (s = 0)) as [->|Hn]; [by rewrite Ed in Hp|]. destruct (ok_counted D Hok _ _ _ Hp Hn) as (o & Ho & _). by rewrite Ed in Ho.
Qed.

Lemma objects_wp l : Forall (in_u 16) l -> forall m missing h, good m ->
  wp acting (fill_objects config i l (m, missing)) h tt (fun r _ _ => filled (fun k => k.1 ∈ l) m missing r).
Proof using Type*.
  induction l as [|x l IH]; intros Hl m missing h Hm; cbn [fill_objects].
  - split_and!; [done|by intros ?|cbn; lia|]. intros _ k H. by apply not_elem_of_nil in H.
  - inversion Hl; subst. apply wp_bind. eapply wp_mono; [|by apply object_wp]. intros [m1 missing1] h1 [] (Hg1 & Hgr1 & Hm1 & Hc1). cbn in *.
    eapply wp_mono; [|by apply IH]. intros [m2 missing2] ? [] (Hg2 & Hgr2 & Hm2 & Hc2). cbn in *. split_and!; cbn; [done|intros k Hk; by apply Hgr2, Hgr1|lia|].
    intros Hr k Hk Hd. apply elem_of_cons in Hk as [Hk|Hk]; [apply Hgr2, Hc1; [lia|done..]|apply Hc2; [lia|done..]].
Qed.

(** What a result promises. *)
Definition result_ok (r : expected error OdRead) : Prop :=
  forall od, r = Value od -> exists m, entries od = (fun x => entry x.2) <$> m /\ filled (fun k => k.1 ∈ objects D) [] 0 (m, missingEntries od).

Lemma fill_wp m h : good m -> wp acting (bind (fill_objects config i (objects D) (m, 0))
  (fun '(m, missing) => Ret (Value (mk_od ((fun x => entry x.2) <$> m) missing)))) h tt (fun r _ _ => result_ok r).
Proof using Type*.
  intros Hm. apply wp_bind. eapply wp_mono; [|apply objects_wp; [apply (ok_objects D Hok)|done]]. intros [m1 n] ? [] (Hg & _ & Hn & Hcm). cbn [wp].
  intros od [= <-]. exists m1. split; [done|]. split_and!; [done| |done|done]. intros k [p H]. by apply not_elem_of_nil in H.
Qed.

Lemma read_wp position h : driveAt config position = Some i -> wp acting (readObjectDictionary config position) h tt (fun r _ _ => result_ok r).
Proof using Type*.
  intros Hd. unfold readObjectDictionary, with_drive. rewrite Hd. unfold sequenced. cbn [bind call wp]. intros [] [] _. apply wp_bind.
  eapply (wp_mono _ _ (fun r _ _ => result_ok r)); [intros r h1 [] Hr; cbn [bind call wp]; by intros|].
  apply wp_bind, request_wp; [|done]. intros f h1 Hc. cbv beta iota zeta.
  destruct (Hc eq_refl f eq_refl) as (Hl & _). rewrite (Hl eq_refl), indexes_read by apply (ok_objects D Hok).
  assert (Hempty : good []) by (split; [constructor|]; intros k p H; by apply not_elem_of_nil in H).
  apply wp_bind, request_wp; [intros g h2 _|intros e h2]; apply wp_bind; [|by apply fill_wp].
  destruct (_ =? kReplyAck); [|by apply fill_wp]. eapply wp_mono; [|by apply bulk_wp]. intros m h3 [] Hm. by apply fill_wp.
Qed.
End Reading.

(** A drive that answers every description leaves nothing missing. *)
Section Answering.
Context (config : Config) (i : nat).
Definition answering (e : event answer) (_ _ : unit) : Prop := answered e.

Lemma request_answered type data status h Q : describes type = true -> (forall f h, Q (Value f) h tt) -> wp answering (requestShared config i type data status) h tt Q.
Proof.
  intros Ht HQ. unfold requestShared, locked, request. cbn [bind call wp]. intros [] [] _ x [] Ha. destruct (Ha Ht) as [f ->].
  cbn [wp bind call]. intros [] [] _. apply HQ.
Qed.
Lemma describe_answered type x s n h : describes type = true -> wp answering (describe config i type x s n) h tt (fun r _ _ => r.2 = n).
Proof. intros Ht. unfold describe. apply wp_bind, request_answered; [done|]. by intros. Qed.
Lemma subindexes_answered x l : forall m n h, wp answering (fill_subindexes config i x l (m, n)) h tt (fun r _ _ => r.2 = n).
Proof.
  induction l as [|s l IH]; intros m n h; cbn [fill_subindexes]; [done|]. destruct (find _ m); [apply IH|]. apply wp_bind.
  eapply wp_mono; [|by apply describe_answered]. intros [p n1] h1 [] E. cbn in E. subst n1. apply IH.
Qed.
Lemma object_answered x m n h : wp answering (fill_object config i x (m, n)) h tt (fun r _ _ => r.2 = n).
Proof.
  unfold fill_object. apply wp_bind. eapply (wp_mono _ _ (fun r _ _ => r.2 = n)).
  - intros [[[o|] m1] n1] h1 [] E; cbn in E; subst n1; [|done]. destruct (negb _); [done|]. apply subindexes_answered.
  - destruct (find _ m); [done|]. apply wp_bind. eapply wp_mono; [|by apply describe_answered]. intros [p n1] h1 [] E. done.
Qed.
Lemma objects_answered l : forall m n h, wp answering (fill_objects config i l (m, n)) h tt (fun r _ _ => r.2 = n).
Proof.
  induction l as [|x l IH]; intros m n h; cbn [fill_objects]; [done|]. apply wp_bind. eapply wp_mono; [|apply object_answered]. intros [m1 n1] h1 [] E.
  cbn in E. subst n1. apply IH.
Qed.

Lemma read_answered position h : driveAt config position = Some i ->
  wp answering (readObjectDictionary config position) h tt (fun r _ _ => forall od, r = Value od -> missingEntries od = 0).
Proof.
  intros Hd. unfold readObjectDictionary, with_drive. rewrite Hd. unfold sequenced. cbn [bind call wp]. intros [] [] _. apply wp_bind.
  eapply (wp_mono _ _ (fun (r : expected error OdRead) _ _ => forall od, r = Value od -> missingEntries od = 0)); [intros r h1 [] Hr; cbn [bind call wp]; intros [] [] _; exact Hr|].
  assert (Hany : forall {A} (s : script answer A) h, wp answering s h tt (fun _ _ _ => True)).
  { intros A s. induction s as [a|o k IH]; intros h1; cbn [wp]; [done|]. intros x [] _. apply IH. }
  apply wp_bind. eapply wp_mono; [|apply Hany]. intros [f|e] h1 [] _; [|done]. cbv beta iota zeta. do 2 (apply wp_bind; eapply wp_mono; [|apply Hany]; intros ? ? [] _).
  apply wp_bind. eapply wp_mono; [|apply objects_answered]. intros [m n] ? [] E. cbn [wp]. intros od [= <-]. exact E.
Qed.
End Answering.

Definition entry_before (a b : OdEntry) : Prop := key_before (index a, subindex a) (index b, subindex b) = true.

(** C27: On an SPoE drive that describes its dictionary truthfully, when it answers at all, and whichever entries its bulk list leaves out, the object dictionary that is read is in the order of the addresses with none twice, every entry of it is the drive's, and with no missing entry reported it holds every entry of the drive; a drive that answers every description has none missing. *)
Theorem dictionary_complete config D position i tr od (Hok : dictionary_ok D) (Hd : driveAt config position = Some i)
  (Hr : runs (readObjectDictionary config position) tr (Value od)) (Hc : Forall (conforms D i) tr) :
  StronglySorted entry_before (entries od) /\
  (forall e, e ∈ entries od -> exists n, described D !! (index e, subindex e) = Some (mk_parameter e n)) /\
  (missingEntries od = 0 -> forall k p, described D !! k = Some p -> entry p ∈ entries od) /\
  (Forall answered tr -> missingEntries od = 0).
Proof.
  assert (Hf : forall (P : event answer -> Prop), Forall P tr -> follows (fun e (_ _ : unit) => P e) tt tr tt).
  { intros P HP. clear -HP. induction HP; econstructor; done. }
  destruct (wp_runs (acting D i) _ _ tr _ [] tt tt Hr (read_wp config D i Hok position [] Hd) (Hf _ Hc) od eq_refl) as (m & He & [Hg Hs] & _ & _ & Hall).
  cbn [fst snd] in *. rewrite He. split_and!.
  - clear -Hg Hs Hok. induction Hg as [|[k p] m Hm IH Hb]; [constructor|]. rewrite fmap_cons. constructor; [apply IH; intros; apply Hs; by right|].
    apply Forall_fmap, Forall_forall. intros [k' p'] Hi. rewrite Forall_forall in Hb. specialize (Hb _ Hi). unfold before in Hb. cbn in *.
    destruct (ok_entry D Hok _ _ (Hs k p ltac:(left))) as [<- _]. destruct (ok_entry D Hok _ _ (Hs k' p' ltac:(by right))) as [<- _]. exact Hb.
  - intros e ([k p] & -> & Hi)%list_elem_of_fmap. pose proof (Hs k p Hi) as Hk. destruct (ok_entry D Hok _ _ Hk) as [Hkey _]. exists (subindexCount p).
    cbn. change (index (entry p), subindex (entry p)) with (key p). rewrite Hkey, Hk. by destruct p.
  - intros Hz [x s] p Hp. destruct (Hall Hz (x, s)) as [q Hq]; [by eapply (ok_listed D Hok)|by eexists|]. apply list_elem_of_fmap. exists ((x, s), q). split; [|done].
    cbn. apply Hs in Hq. congruence.
  - intros Ha. exact (wp_runs answering _ _ tr _ [] tt tt Hr (read_answered config i position [] Hd) (Hf _ Ha) od eq_refl).
Qed.

(** *** A simulated drive, whose bulk list leaves out most of its dictionary *)
Definition plain_entry (x s code n : Z) (label : bytes) : ParameterEntry := mk_parameter (mk_entry x s code 7 32 7 label) n.
Definition device_type : ParameterEntry := plain_entry 0x1000 0 7 0 [84; 121].
Definition identity_object : ParameterEntry := plain_entry 0x1018 0 9 2 [73; 100].
Definition sample_dictionary : dictionary :=
  mk_dictionary [0x1018; 0x1000] (list_to_map ((fun p => (key p, p)) <$>
    [device_type; identity_object; plain_entry 0x1018 1 7 0 [86]; plain_entry 0x1018 2 7 0 []])).

Definition sample_reply (h : list (event answer)) (o : op) : answer o :=
  match o with
  | Request _ type status data _ => Value (Spoe.mk_frame type 0 (Z.lor (Z.shiftl kPacketLast 8) kReplyAck)
      (if type =? kParamList then concat (le_bytes 2 <$> objects sample_dictionary)
       else if type =? kParamFullDesc then packet [None; Some (5, device_type); None]
       else match described sample_dictionary !! (readU16 data 0, byte_at data 2) with Some p => encode_entry 5 p | None => cleared end))
  | Connect _ | IsOpen _ => true
  | ShouldAbort => false
  | LoadState _ | LoadVersion _ | Now => 2
  | GetInfo _ => no_info
  | GetLayout => mk_layout 0 0 [] 0
  | _ => tt
  end.
Definition sample_read : list (event answer) * expected error OdRead := exec sample_reply [] (readObjectDictionary two_drives 1).
Definition sample_od : OdRead := match sample_read.2 with Value od => od | Unexpected _ => mk_od [] 1 end.

Lemma plain_ok x s code n label : 0 < x < 2 ^ 16 -> in_u 8 s -> in_u 8 code -> in_u 32 n -> (length label <= 50)%nat -> Forall (fun b => b <> 0) label ->
  entry_ok (plain_entry x s code n label).
Proof. intros. split; cbn; unfold in_u in *; try lia; done. Qed.

Lemma sample_lookup x s p : described sample_dictionary !! (x, s) = Some p ->
  entry_ok p /\ key p = (x, s) /\ x ∈ objects sample_dictionary /\ (s <> 0 -> x = 0x1018 /\ 1 <= s <= 2).
Proof.
  intros H%elem_of_list_to_map_2%list_elem_of_In. cbn [fmap list_fmap In key] in H.
  destruct H as [[= <- <- <-]|[[= <- <- <-]|[[= <- <- <-]|[[= <- <- <-]|[]]]]];
    (split; [apply plain_ok; unfold in_u; try lia; try (cbn; lia); repeat constructor; discriminate|]; split; [reflexivity|]; split; [apply list_elem_of_In; cbn; auto|]; cbn; lia).
Qed.

Lemma sample_ok : dictionary_ok sample_dictionary.
Proof.
  split.
  - repeat constructor; unfold in_u; lia.
  - intros [x s] p H. by destruct (sample_lookup x s p H) as (? & ? & _).
  - intros x s p H. by destruct (sample_lookup x s p H) as (_ & _ & ? & _).
  - intros x s p H Hs. destruct (sample_lookup x s p H) as (_ & _ & _ & [-> ?]); [done|]. exists identity_object. split; [reflexivity|]. split; [reflexivity|]. cbn. lia.
Qed.

Lemma sample_conforms h o : conforms sample_dictionary 0 (ev o (sample_reply h o)).
Proof.
  destruct o; try done. cbn [conforms ev sample_reply]. intros -> f [= <-]. cbn [Spoe.data]. split_and!.
  - by intros ->.
  - intros ->. exists [None; Some (5, device_type); None], []. split; [reflexivity|]. split; [vm_compute; lia|].
    intros t p Hp. apply list_elem_of_In in Hp as [?|[[= <- <-]|[?|[]]]]; done.
  - intros Ht x s Hx Hs ->. exists 5. assert (Hn : (type =? kParamList) = false /\ (type =? kParamFullDesc) = false)
      by (unfold describes, kParamDesc, kParamSubDesc, kParamList, kParamFullDesc in *; lia). destruct Hn as [-> ->].
    rewrite (readU16_slice x); [|done|cbn; unfold u8, uwrap; by rewrite Z.shiftr_div_pow2].
    change (byte_at (address x s) 2) with (uwrap 8 s). by rewrite uwrap_id.
Qed.

Lemma dictionary_complete_witness : length (entries sample_od) = 4%nat /\ missingEntries sample_od = 0 /\ entry identity_object ∈ entries sample_od.
Proof.
  destruct (dictionary_complete two_drives sample_dictionary 1 0 sample_read.1 sample_od sample_ok eq_refl) as (_ & _ & Hall & Hm).
  - assert (E : sample_read.2 = Value sample_od) by (vm_compute; reflexivity). rewrite <- E. apply runs_exec.
  - apply exec_all, sample_conforms.
  - assert (Hz : missingEntries sample_od = 0). { apply Hm, exec_all. intros h o. destruct o; try done. by intros _; eexists. }
    split; [vm_compute; reflexivity|]. split; [done|]. apply (Hall Hz (0x1018, 0)). reflexivity.
Defined.
End Dictionary.
