(* ===== verification/SpoeExchange.v ===== *)
(** * Process data over SPoE ([libs/comm/spoe_fieldbus_driver.cc])

    The exchange thread of a drive and the cycle of the RT thread, over the buffers between them, and
    the layout that [configureProcessData] gives the windows. *)

From Stdlib Require Import Sorted.
From S2P Require Import Prelude Util Driver SpoeConnection SpoeSlot SpoeQueue SpoeAssembler BusStates Script SpoeDriver.

Module Exchange.
Import Script SpoeDriver.

(** ** State and operations *)

(** The process-data part of [SpoeFieldbusDriver::Drive]. *)
Record drive := mk_drive {
  io : SlaveIo; outputs : Slot.slot; inputs : Queue.queue; assembler : Assembler.assembler;
  state : Z; exchanging : bool; droppedFrames : Z }.

(** What [configureProcessData] makes of a drive with the window [w]. *)
Definition configured (w : SlaveIo) (s : Z) : drive :=
  let out := Z.to_nat (io_outputBytes w) in let inp := Z.to_nat (io_inputBytes w) in
  mk_drive w (Slot.reset out Slot.initial) (Queue.reset inp (2 * kInputQueueLimit) (Queue.mk_queue [] 0 0 0 0))
    (Assembler.reset inp (Assembler.mk_assembler 0 [] 0)) s false 0.

(** The loop that hands the frames of a reply over, and counts those that do not fit. *)
Fixpoint push_frames (turns : nat) (frameBytes : nat) (frames : bytes) (q : Queue.queue) (dropped : Z) : Queue.queue * Z :=
  match turns with
  | O => (q, dropped)
  | S turns =>
      if (0 <? frameBytes)%nat && (frameBytes <=? length frames)%nat then
        let '(q1, ok) := Queue.push q (take frameBytes frames) in
        push_frames turns frameBytes (drop frameBytes frames) q1 (if ok then dropped else u64 (dropped + 1))
      else (q, dropped)
  end.

(** One turn of [runExchange], from the reply on; the frame it sends is read from the slot. *)
Definition send_outputs (m : SpoeMode) (d : drive) : drive * bytes :=
  match m with
  | kMonitor => (d, [])
  | kControl => let '(s, frame) := Slot.read (outputs d) in (mk_drive (io d) s (inputs d) (assembler d) (state d) (exchanging d) (droppedFrames d), frame)
  end.
Definition on_reply (d : drive) (reply : expected ConnectionError Frame) : drive :=
  match reply with
  | Unexpected e => mk_drive (io d) (outputs d) (inputs d) (assembler d) (match e with Spoe.EClosed _ => 0 | _ => state d end) false (droppedFrames d)
  | Value f =>
      if Spoe.status f =? 0 then
        let '(a, frames) := Assembler.add (assembler d) (Spoe.data f) in
        let '(q, dropped) := push_frames (length frames) (Z.to_nat (io_inputBytes (io d))) frames (inputs d) (droppedFrames d) in
        mk_drive (io d) (outputs d) q a (state d) true dropped
      else mk_drive (io d) (outputs d) (inputs d) (assembler d) (state d) false (droppedFrames d)
  end.

(** When the next exchange starts, and how long the thread sleeps. *)
Definition pace (next now : Z) : Z * Z := if now <? next then (next, next - now) else (now, 0).

Definition in_image (off n : Z) (size : nat) : bool := (0 <? n) && (u32 (off + n) <=? Z.of_nat size).

(** The inputs of one drive: trims the queue and pops a frame into the window. *)
Definition take_inputs (d : drive) (image : bytes) : Queue.queue * bytes * Z :=
  let w := io d in
  if in_image (inputOffset w) (io_inputBytes w) (length image) then
    let '(q1, n) := Queue.dropOldest (inputs d) (Z.of_nat kInputQueueLimit) in
    let '(q2, frame, _) := Queue.pop q1 (slice (Z.to_nat (inputOffset w)) (Z.to_nat (io_inputBytes w)) image) in
    (q2, list_inserts (Z.to_nat (inputOffset w)) frame image, if 0 <? n then u64 (droppedFrames d + n) else droppedFrames d)
  else (inputs d, image, droppedFrames d).

(** One drive of [exchangeProcessData]: the drive, the input image and the working counter after it. *)
Definition cycle_drive (m : SpoeMode) (outs : bytes) (d : drive) (image : bytes) : drive * bytes * Z :=
  let w := io d in
  let slot := match m with
              | kControl => if in_image (outputOffset w) (io_outputBytes w) (length outs)
                  then Slot.write (outputs d) (slice (Z.to_nat (outputOffset w)) (Z.to_nat (io_outputBytes w)) outs) else outputs d
              | kMonitor => outputs d
              end in
  let '(q, image', dropped) := take_inputs d image in
  (mk_drive w slot q (assembler d) (state d) (exchanging d) dropped, image',
   if exchanging d then States.workingCounterContribution (state d) (0 <? io_outputBytes w) (0 <? io_inputBytes w) else 0).

Fixpoint exchangeProcessData (m : SpoeMode) (outs : bytes) (drives : list drive) (image : bytes) : list drive * bytes * Z :=
  match drives with
  | [] => ([], image, 0)
  | d :: drives =>
      let '(d1, image1, c1) := cycle_drive m outs d image in
      let '(drives2, image2, c2) := exchangeProcessData m outs drives image1 in
      (d1 :: drives2, image2, c1 + c2)
  end.

Definition droppedInputFrames (drives : list drive) : Z := foldl (fun sum d => u64 (sum + droppedFrames d)) 0 drives.

(** ** Windows *)
Fixpoint laid_out (o i : Z) (l : list SlaveIo) : Prop :=
  match l with
  | [] => True
  | w :: l => outputOffset w = o /\ inputOffset w = i /\ 0 <= io_outputBytes w /\ 0 <= io_inputBytes w /\
              laid_out (u32 (o + io_outputBytes w)) (u32 (i + io_inputBytes w)) l
  end.

(** ** Frames through the queue *)
Fixpoint chunks (turns n : nat) (l : bytes) : list bytes :=
  match turns with
  | O => []
  | S turns => if (n <=? length l)%nat then take n l :: chunks turns n (drop n l) else []
  end.

Lemma push_shape q frame : Queue.wf q -> Queue.head q + 1 < 2 ^ 64 -> let '(q1, ok) := Queue.push q frame in
  Queue.frameBytes q1 = Queue.frameBytes q /\ Queue.capacity q1 = Queue.capacity q /\ Queue.head q1 = Queue.head q + (if ok then 1 else 0).
Proof.
  intros [? ? ? ?] Hh. unfold Queue.push. destruct (Queue.is_full _ _); cbn; [split_and!; done || lia|]. split_and!; try done. apply uwrap_id. unfold in_u. lia.
Qed.

Lemma push_frames_spec n turns : (0 < n)%nat -> forall frames q dropped, Queue.wf q -> Queue.frameBytes q = n ->
  Queue.head q + Z.of_nat (length (chunks turns n frames)) < 2 ^ 64 -> in_u 64 dropped ->
  dropped + Z.of_nat (length (chunks turns n frames)) < 2 ^ 64 ->
  let '(q', dropped') := push_frames turns n frames q dropped in
  let kept := take (Queue.capacity q - length (Queue.contents q)) (chunks turns n frames) in
  Queue.wf q' /\ Queue.frameBytes q' = n /\ Queue.capacity q' = Queue.capacity q /\
  Queue.head q' = Queue.head q + Z.of_nat (length kept) /\ Queue.contents q' = Queue.contents q ++ kept /\
  dropped' = dropped + Z.of_nat (length (chunks turns n frames) - length kept).
Proof.
  intros Hn. induction turns as [|turns IH]; intros frames q dropped Hwf Hfb Hh Hd Hd2; cbn [push_frames chunks] in *.
  - rewrite take_nil, app_nil_r. cbn. split_and!; done || lia.
  - rewrite (proj2 (Nat.ltb_lt 0 n) Hn). cbn [andb]. destruct (n <=? length frames)%nat eqn:E; cbn [length] in *; [|rewrite take_nil, app_nil_r; cbn; split_and!; done || lia].
    apply Nat.leb_le in E. pose proof (Queue.push_refines q (take n frames) Hwf) as Hp. pose proof (Queue.length_contents q Hwf) as Hlen.
    destruct (Queue.push q (take n frames)) as [q1 ok] eqn:Ep. destruct Hp as (Hw1 & Hok & Hc); [rewrite length_take; lia|lia|].
    pose proof (push_shape q (take n frames) Hwf ltac:(lia)) as Hq. rewrite Ep, Hfb in Hq.
    destruct Hq as (Hf1 & Hc1 & Hh1).
    assert (Hdr : (if ok then dropped else u64 (dropped + 1)) = dropped + (if ok then 0 else 1)).
    { destruct ok; [lia|]. unfold u64. apply uwrap_id. unfold in_u in *. lia. }
    rewrite Hdr. specialize (IH (drop n frames) q1 (dropped + (if ok then 0 else 1)) Hw1 Hf1).
    destruct (push_frames _ _ _ _ _) as [q2 d2]. pose proof Hwf as [? ? ? ?]. destruct IH as (Hw2 & Hf2 & Hc2 & Hh2 & Hcn & Hd3);
      [destruct ok; lia|unfold in_u in *; destruct ok; lia|destruct ok; lia|]. rewrite Hc1, Hc, length_app in *.
    destruct ok; symmetry in Hok.
    + apply Z.ltb_lt in Hok. cbn [length] in *. replace (Queue.capacity q - length (Queue.contents q))%nat with (S (Queue.capacity q - (length (Queue.contents q) + 1))) by lia.
      cbn [firstn length]. split_and!; try done; try lia. rewrite Hcn, <- app_assoc. done.
    + apply Z.ltb_ge in Hok. cbn [length] in *. rewrite Nat.add_0_r in *. assert (Hz : (Queue.capacity q - length (Queue.contents q) = 0)%nat) by lia.
      rewrite Hz in *. cbn [firstn length] in *. rewrite ?take_0, ?app_nil_r in *. cbn [length] in *. split_and!; try done; lia.
Qed.

Lemma trim_pop_spec q image : Queue.wf q -> length image = Queue.frameBytes q ->
  let '(q1, n) := Queue.dropOldest q (Z.of_nat kInputQueueLimit) in
  let '(q2, frame, _) := Queue.pop q1 image in
  let kept := drop (length (Queue.contents q) - kInputQueueLimit) (Queue.contents q) in
  Queue.wf q2 /\ Queue.frameBytes q2 = Queue.frameBytes q /\ Queue.capacity q2 = Queue.capacity q /\ Queue.head q2 = Queue.head q /\
  n = Z.of_nat (length (Queue.contents q) - kInputQueueLimit) /\ Queue.contents q2 = tail kept /\ frame = default image (head kept).
Proof.
  intros Hwf Hl. pose proof (Queue.dropOldest_refines q (Z.of_nat kInputQueueLimit) Hwf ltac:(unfold in_u, kInputQueueLimit; lia)) as Hd.
  pose proof (Queue.length_contents q Hwf) as Hlen. destruct (Queue.dropOldest q _) as [q1 n] eqn:E1. destruct Hd as (Hw1 & -> & Hs1 & Hc1).
  assert (Hq1 : Queue.frameBytes q1 = Queue.frameBytes q /\ Queue.capacity q1 = Queue.capacity q /\ Queue.head q1 = Queue.head q).
  { unfold Queue.dropOldest in E1. destruct (_ <=? _); by simplify_eq. }
  destruct Hq1 as (Hf1 & Hcap1 & Hh1). pose proof (Queue.pop_refines q1 image Hw1 ltac:(congruence)) as Hp.
  destruct (Queue.pop q1 image) as [[q2 frame] ok] eqn:E2. destruct Hp as (Hw2 & Hok & Hc2 & Hno).
  assert (Hq2 : Queue.frameBytes q2 = Queue.frameBytes q1 /\ Queue.capacity q2 = Queue.capacity q1 /\ Queue.head q2 = Queue.head q1).
  { unfold Queue.pop in E2. destruct (_ =? _); by simplify_eq. }
  destruct Hq2 as (-> & -> & ->).
  replace (Z.to_nat (Z.max 0 (Queue.size q - Z.of_nat kInputQueueLimit))) with (length (Queue.contents q) - kInputQueueLimit)%nat in Hc1 by lia.
  rewrite <- Hc1, Hc2. split_and!; [done|done|done|done|lia| |]; destruct ok; cbn; try done.
  - symmetry in Hok. apply negb_false_iff, Z.eqb_eq in Hok. pose proof (Queue.length_contents q1 Hw1) as Hl1. rewrite Hc2, Hok in Hl1. cbn in Hl1. by destruct (Queue.contents q2).
  - symmetry in Hok. apply negb_false_iff, Z.eqb_eq in Hok. pose proof (Queue.length_contents q1 Hw1) as Hl1. rewrite Hc2, Hok in Hl1. cbn in Hl1.
    destruct (Queue.contents q2); [cbn; auto|done].
Qed.

(** ** One drive's frames *)
Definition fits (w : SlaveIo) (image : bytes) : bool := in_image (inputOffset w) (io_inputBytes w) (length image).
Definition trimmed (d : drive) : list bytes :=
  drop (length (Queue.contents (inputs d)) - kInputQueueLimit) (Queue.contents (inputs d)).

(** The frames that a reply completes. *)
Definition frames_of (d : drive) (reply : expected ConnectionError Frame) : list bytes :=
  match reply with
  | Value f => if Spoe.status f =? 0
      then let frames := (Assembler.add (assembler d) (Spoe.data f)).2 in chunks (length frames) (Z.to_nat (io_inputBytes (io d))) frames else []
  | Unexpected _ => []
  end.

(** The two threads take turns: a drive with the frames it sent and those a cycle put into the image. *)
Inductive turn := Send | Reply (r : expected ConnectionError Frame) | Cycle (outs image : bytes).
Record line := mk_line { dr : drive; sent : list bytes; got : list bytes }.
Definition take_turn (m : SpoeMode) (l : line) (t : turn) : line :=
  match t with
  | Send => mk_line (send_outputs m (dr l)).1 (sent l) (got l)
  | Reply r => mk_line (on_reply (dr l) r) (sent l ++ frames_of (dr l) r) (got l)
  | Cycle outs image => mk_line (cycle_drive m outs (dr l) image).1.1 (sent l) (got l ++ if fits (io (dr l)) image then option_list (head (trimmed (dr l))) else [])
  end.

Record flowing (w : SlaveIo) (l : line) : Prop := mk_flowing {
  fl_io : io (dr l) = w;
  fl_wf : Queue.wf (inputs (dr l));
  fl_frame : Queue.frameBytes (inputs (dr l)) = Z.to_nat (io_inputBytes w);
  fl_capacity : Queue.capacity (inputs (dr l)) = (2 * kInputQueueLimit)%nat;
  fl_head : Queue.head (inputs (dr l)) <= Z.of_nat (length (sent l));
  fl_dropped : 0 <= droppedFrames (dr l);
  fl_count : Z.of_nat (length (sent l)) = Z.of_nat (length (got l) + length (Queue.contents (inputs (dr l)))) + droppedFrames (dr l);
  fl_order : sublist (got l ++ Queue.contents (inputs (dr l))) (sent l) }.

Lemma flowing_start w s : flowing w (mk_line (configured w s) [] []).
Proof.
  split; try done. constructor; cbn; [lia|lia|lia|]. rewrite length_replicate. done.
Qed.

Lemma fits_window w image : in_u 32 (inputOffset w) -> in_u 32 (inputOffset w + io_inputBytes w) -> fits w image = true ->
  length (slice (Z.to_nat (inputOffset w)) (Z.to_nat (io_inputBytes w)) image) = Z.to_nat (io_inputBytes w).
Proof.
  intros Ho Hs [Hn Hl]%andb_true_iff. unfold u32 in Hl. rewrite uwrap_id in Hl by done. unfold in_u in *. apply length_slice. lia.
Qed.

Lemma reply_flows w l r : 0 < io_inputBytes w -> flowing w l -> Z.of_nat (length (sent l ++ frames_of (dr l) r)) < 2 ^ 64 ->
  flowing w (mk_line (on_reply (dr l) r) (sent l ++ frames_of (dr l) r) (got l)).
Proof.
  intros Hw [Hio Hwf Hf Hc Hh Hd Hn Ho] Hb. destruct r as [f|e]; cbn [on_reply frames_of] in *; [|rewrite app_nil_r; by split].
  destruct (Spoe.status f =? 0); [|rewrite app_nil_r; by split]. destruct (Assembler.add _ _) as [a frames]. cbn [snd] in *. rewrite Hio in *.
  rewrite length_app in Hb.
  pose proof (push_frames_spec (Z.to_nat (io_inputBytes w)) (length frames) ltac:(lia) frames (inputs (dr l)) (droppedFrames (dr l)) Hwf Hf ltac:(lia)
    ltac:(unfold in_u; lia) ltac:(lia)) as Hp.
  destruct (push_frames _ _ _ _ _) as [q n]. destruct Hp as (Hwf' & Hf' & Hc' & Hh' & Hcn & Hn'). set (fs := chunks _ _ _) in *.
  split; cbn [dr inputs io sent got droppedFrames]; try done; rewrite ?length_app; try lia; try congruence.
  - rewrite Hh'. rewrite length_take. lia.
  - rewrite Hcn, length_app, Hn', length_take. lia.
  - rewrite Hcn, app_assoc. apply sublist_app; [done|]. apply sublist_take.
Qed.

Definition window_ok (w : SlaveIo) : Prop :=
  in_u 32 (outputOffset w) /\ in_u 32 (inputOffset w) /\ in_u 32 (outputOffset w + io_outputBytes w) /\ in_u 32 (inputOffset w + io_inputBytes w).

Lemma sublist_same_length {A} (l k : list A) : sublist l k -> (length k <= length l)%nat -> l = k.
Proof.
  induction 1 as [|x l k H IH|x l k H IH]; cbn [length]; intros Hl; [done|rewrite IH by lia; done|]. apply sublist_length in H. lia.
Qed.

Lemma option_tail {A} (l : list A) : option_list (head l) ++ tail l = l.
Proof. by destruct l. Qed.

(** What a cycle does to a drive's queue, its counter and its window. *)
Lemma cycle_drive_spec m outs d image : window_ok (io d) -> Queue.wf (inputs d) -> Queue.frameBytes (inputs d) = Z.to_nat (io_inputBytes (io d)) ->
  let '(d', image', _) := cycle_drive m outs d image in
  io d' = io d /\ length image' = length image /\
  if fits (io d) image then
    Queue.wf (inputs d') /\ Queue.frameBytes (inputs d') = Queue.frameBytes (inputs d) /\ Queue.capacity (inputs d') = Queue.capacity (inputs d) /\
    Queue.head (inputs d') = Queue.head (inputs d) /\ Queue.contents (inputs d') = tail (trimmed d) /\
    droppedFrames d' = (if (kInputQueueLimit <? length (Queue.contents (inputs d)))%nat
                        then u64 (droppedFrames d + Z.of_nat (length (Queue.contents (inputs d)) - kInputQueueLimit)) else droppedFrames d) /\
    image' = list_inserts (Z.to_nat (inputOffset (io d))) (default (slice (Z.to_nat (inputOffset (io d))) (Z.to_nat (io_inputBytes (io d))) image) (head (trimmed d))) image
  else inputs d' = inputs d /\ droppedFrames d' = droppedFrames d /\ image' = image.
Proof.
  intros (Hoo & Ho & Hos & Hs) Hwf Hf. unfold cycle_drive, take_inputs. change (in_image _ _ (length image)) with (fits (io d) image).
  destruct (fits (io d) image) eqn:E; cbn [io inputs droppedFrames]; [|by split_and!].
  pose proof (trim_pop_spec (inputs d) _ Hwf (eq_trans (fits_window _ _ Ho Hs E) (eq_sym Hf))) as Hp.
  destruct (Queue.dropOldest _ _) as [q1 n]. destruct (Queue.pop _ _) as [[q2 frame] ok]. destruct Hp as (? & ? & ? & ? & -> & ? & ->).
  cbn [io inputs droppedFrames]. split; [done|]. split; [apply length_inserts|]. split_and!; try done.
  destruct (Nat.ltb_spec kInputQueueLimit (length (Queue.contents (inputs d)))); [rewrite (proj2 (Z.ltb_lt _ _)) by lia; done|].
  by rewrite (proj2 (Z.ltb_ge _ _)) by lia.
Qed.

Lemma cycle_flows m w l outs image : window_ok w -> flowing w l -> Z.of_nat (length (sent l)) < 2 ^ 64 -> flowing w (take_turn m l (Cycle outs image)).
Proof.
  intros Hw [Hio Hwf Hf Hc Hh Hd Hn Ho] Hb. rewrite <- Hio in Hw, Hf. pose proof (cycle_drive_spec m outs (dr l) image Hw Hwf Hf) as Hs. cbn [take_turn].
  destruct (cycle_drive _ _ _ _) as [[d' image'] c]. cbn [fst]. destruct Hs as (Hio' & _ & Hs). destruct (fits _ image).
  - destruct Hs as (Hwf' & Hf' & Hc' & Hh' & Hcn & Hdn & _).
    assert (Hlen : (length (trimmed (dr l)) = length (Queue.contents (inputs (dr l))) - (length (Queue.contents (inputs (dr l))) - kInputQueueLimit))%nat)
      by (unfold trimmed; apply length_drop).
    assert (Ht : length (trimmed (dr l)) = (length (option_list (head (trimmed (dr l)))) + length (tail (trimmed (dr l))))%nat) by (rewrite <- length_app; by rewrite option_tail).
    split; cbn [dr sent got]; try congruence; try lia.
    + rewrite Hdn. destruct (_ <? _)%nat; [apply uwrap_range; lia|done].
    + rewrite Hdn, Hcn, length_app. destruct (Nat.ltb_spec kInputQueueLimit (length (Queue.contents (inputs (dr l))))); [|lia].
      unfold u64. rewrite uwrap_id by (unfold in_u; lia). lia.
    + rewrite Hcn, <- app_assoc, option_tail. etrans; [|exact Ho]. apply sublist_app; [done|]. apply sublist_drop.
  - destruct Hs as (Hin & Hdn & _). rewrite app_nil_r. split; cbn [dr sent got]; rewrite ?Hin, ?Hdn, ?Hio'; done || congruence.
Qed.

Lemma turns_grow m l t : sent l `prefix_of` sent (take_turn m l t).
Proof. destruct t; cbn; [done|by eexists|done]. Qed.

Lemma turns_flow m w s : 0 < io_inputBytes w -> window_ok w -> forall turns,
  let l := foldl (take_turn m) (mk_line (configured w s) [] []) turns in Z.of_nat (length (sent l)) < 2 ^ 64 -> flowing w l.
Proof.
  intros Hw Hok turns. cbv zeta. induction turns as [|t turns IH] using rev_ind; [intros _; apply flowing_start|]. rewrite foldl_app. cbn [foldl]. intros Hb.
  pose proof (prefix_length _ _ (turns_grow m (foldl (take_turn m) (mk_line (configured w s) [] []) turns) t)) as Hp.
  specialize (IH ltac:(lia)). set (l := foldl _ _ _) in *. destruct t; [|by apply reply_flows|apply cycle_flows; [done..|lia]].
  destruct IH. cbn [take_turn]. unfold send_outputs. destruct m; [by split|]. destruct (Slot.read _). by split.
Qed.


Definition sample_window : SlaveIo := mk_slave_io 1 0 0 1 2.
Definition frames_reply (l : bytes) : turn := Reply (Value (Spoe.mk_frame kPdoFrame 0 0 l)).
Definition sample_turns : list turn :=
  [frames_reply [1; 2; 3; 4]; Send; Cycle [] [0; 0; 0]; frames_reply (concat (replicate 40 [5; 6])); Cycle [] [0; 0; 0]].


(** ** The image of a cycle *)
Record connected (d : drive) : Prop := mk_connected {
  co_wf : Queue.wf (inputs d);
  co_frame : Queue.frameBytes (inputs d) = Z.to_nat (io_inputBytes (io d));
  co_capacity : (0 < Queue.capacity (inputs d))%nat }.

Definition window_of (w : SlaveIo) (image : bytes) : bytes := slice (Z.to_nat (inputOffset w)) (Z.to_nat (io_inputBytes w)) image.

(** What the window of a drive holds after a cycle. *)
Definition delivered (d : drive) (image : bytes) : bytes := if fits (io d) image then default (window_of (io d) image) (head (trimmed d)) else window_of (io d) image.

Lemma trimmed_length d frame : connected d -> head (trimmed d) = Some frame -> length frame = Z.to_nat (io_inputBytes (io d)).
Proof.
  intros [Hwf Hf Hc] Hh. rewrite <- Hf. assert (Hi : frame ∈ Queue.contents (inputs d)).
  { unfold trimmed in Hh.  destruct (drop _ _) as [|x k] eqn:E; [done|]. cbn in Hh. simplify_eq.
    rewrite <- (take_drop (length (Queue.contents (inputs d)) - kInputQueueLimit)), E. apply elem_of_app. right. left. }
  unfold Queue.contents in Hi. apply list_elem_of_fmap in Hi as (i & -> & _). by apply Queue.length_frame_at.
Qed.

Lemma cycle_window m outs d image : window_ok (io d) -> connected d -> in_u 32 (io_inputBytes (io d)) ->
  let '(d', image', _) := cycle_drive m outs d image in
  io d' = io d /\ connected d' /\ length image' = length image /\ window_of (io d) image' = delivered d image /\
  forall off n, (off + n <= Z.to_nat (inputOffset (io d)) \/ Z.to_nat (inputOffset (io d)) + Z.to_nat (io_inputBytes (io d)) <= off)%nat -> slice off n image' = slice off n image.
Proof.
  intros Hw Hc Hn. pose proof (cycle_drive_spec m outs d image Hw (co_wf d Hc) (co_frame d Hc)) as Hs. pose proof Hw as (_ & Ho & _ & Ho2).
  destruct (cycle_drive _ _ _ _) as [[d' image'] c]. destruct Hs as (Hio & Hlen & Hs). unfold delivered. destruct (fits (io d) image) eqn:Ef.
  - destruct Hs as (Hwf & Hf & Hcap & _ & _ & _ & ->). pose proof (fits_window _ _ Ho Ho2 Ef) as Hwl.
    assert (Hfl : length (default (window_of (io d) image) (head (trimmed d))) = Z.to_nat (io_inputBytes (io d))).
    { destruct (head (trimmed d)) as [frame|] eqn:E; [|done]. by apply trimmed_length. }
    fold (window_of (io d) image). set (frame := default _ _) in *. destruct Hc as [_ Hcf Hcc]. split_and!.
    + done.
    + split; [done|rewrite Hf, Hio; done|by rewrite Hcap].
    + apply length_inserts.
    + unfold window_of at 1. rewrite <- Hfl. apply slice_inserts_same. rewrite Hfl. apply andb_true_iff in Ef as [_ Ef]. unfold u32 in Ef. rewrite uwrap_id in Ef by done.
      unfold in_u in *. lia.
    + intros off n Hd. apply slice_inserts_disjoint. rewrite Hfl. lia.
  - destruct Hs as (Hin & _ & ->). destruct Hc. split_and!; try done. by split; rewrite ?Hin, ?Hio.
Qed.

Lemma laid_after w o i l : laid_out o i l -> Forall window_ok l -> in_u 32 i -> w ∈ l -> i <= inputOffset w.
Proof.
  revert o i. induction l as [|v l IH]; intros o i Hl Hw Hi Hin; [by apply not_elem_of_nil in Hin|]. destruct Hl as (Ho & Hiv & Hob & Hib & Hl).
  inversion Hw as [|? ? (_ & _ & _ & Hv) Hw']; subst. apply elem_of_cons in Hin as [->|Hin]; [done|]. unfold u32 in Hl. rewrite (uwrap_id 32 (inputOffset v + _)) in Hl by done.
  specialize (IH _ _ Hl Hw' Hv Hin). lia.
Qed.

Definition wkc_share (w : SlaveIo) : Z := (if 0 <? io_outputBytes w then 2 else 0) + (if 0 <? io_inputBytes w then 1 else 0).
Definition wkc_of (l : list SlaveIo) : Z := foldr (fun w c => wkc_share w + c) 0 l.

Lemma cycle_counter m outs d image : 0 <= (cycle_drive m outs d image).2 <= wkc_share (io d).
Proof.
  unfold cycle_drive. destruct (take_inputs d image) as [[q i'] n]. cbn [snd]. unfold wkc_share, States.workingCounterContribution.
  destruct (exchanging d), (0 <? io_outputBytes (io d)), (0 <? io_inputBytes (io d)), (alHasError (state d)), ((alState (state d) =? kSafeOp) || (alState (state d) =? kOp)); lia.
Qed.

Lemma exchange_windows m outs drives : forall o i image, laid_out o i (io <$> drives) -> Forall window_ok (io <$> drives) -> Forall connected drives -> in_u 32 i ->
  let '(drives', image', c) := exchangeProcessData m outs drives image in
  length image' = length image /\ 0 <= c <= wkc_of (io <$> drives) /\
  (forall off n, (off + n <= Z.to_nat i)%nat -> slice off n image' = slice off n image) /\
  (forall j d, drives !! j = Some d -> exists d', drives' !! j = Some d' /\ io d' = io d /\ connected d' /\ window_of (io d) image' = delivered d image).
Proof.
  induction drives as [|d drives IH]; intros o i image Hl Hw Hc Hi; cbn [exchangeProcessData]; [split_and!; done|].
  rewrite fmap_cons in *. destruct Hl as (Ho & Hiv & Hob & Hib & Hl). inversion Hw as [|? ? Hw1 Hw']; subst. inversion Hc as [|? ? Hc1 Hc']; subst.
  pose proof Hw1 as (_ & Hoff & _ & Hsum). assert (Hn : in_u 32 (io_inputBytes (io d))) by (unfold in_u in *; lia).
  pose proof (cycle_window m outs d image Hw1 Hc1 Hn) as H1. pose proof (cycle_counter m outs d image) as Hk. destruct (cycle_drive m outs d image) as [[d1 image1] c1].
  destruct H1 as (Hio1 & Hcd1 & Hlen1 & Hwin1 & Hkeep1). cbn [snd] in Hk.
  unfold u32 in Hl. rewrite (uwrap_id 32 (inputOffset (io d) + _)) in Hl by done.
  specialize (IH _ _ image1 Hl Hw' Hc' Hsum). destruct (exchangeProcessData m outs drives image1) as [[drives2 image2] c2].
  destruct IH as (Hlen2 & Hk2 & Hkeep2 & Hwin2). split_and!; [lia|cbn; lia|cbn [wkc_of foldr]; fold (wkc_of (io <$> drives)); lia| |].
  - intros off n Hle. rewrite Hkeep2 by (unfold in_u in *; lia). apply Hkeep1. lia.
  - intros [|j] e Hj; cbn in Hj.
    + simplify_eq. exists d1. split_and!; [done..|]. rewrite <- Hwin1. unfold window_of. apply Hkeep2. unfold in_u in *. lia.
    + destruct (Hwin2 j e Hj) as (d' & Hd' & Hio' & Hcd' & Hwin). exists d'. split_and!; try done. rewrite Hwin. unfold delivered, fits, window_of. rewrite Hlen1.
      assert (Hin : io e ∈ io <$> drives) by (apply list_elem_of_fmap; exists e; split; [done|]; by eapply list_elem_of_lookup_2).
      pose proof (laid_after _ _ _ _ Hl Hw' Hsum Hin) as Ha. rewrite !Hkeep1 by (unfold in_u in *; lia). done.
Qed.

(** ** The layout *)
Section Layout.
Context (config : Config) (turns : nat).

Definition any (e : event answer) (_ _ : unit) : Prop := True.
Lemma any_bind {A B} (m : script answer A) (k : A -> script answer B) Q : (forall a h, wp any (k a) h tt Q) -> forall h, wp any (bind m k) h tt Q.
Proof. intros Hk. induction m as [a|o f IH]; intros h; cbn [bind wp]; [apply Hk|]. intros x [] _. apply IH. Qed.
Lemma any_try {A B} (m : fallible A) (k : A -> fallible B) Q : (forall a h, wp any (k a) h tt Q) -> (forall e h, Q (Unexpected e) h tt) ->
  forall h, wp any (try_ m k) h tt Q.
Proof. intros Hk He. apply any_bind. intros [a|e] h; [apply Hk|apply He]. Qed.

(** A layout that grew by the windows [ws] from [l]. *)
Definition grown (l l' : PdoLayout) (ws : list SlaveIo) : Prop :=
  slaves l' = slaves l ++ ws /\ laid_out (l_outputBytes l) (l_inputBytes l) ws /\
  l_outputBytes l' = foldl (fun o w => u32 (o + io_outputBytes w)) (l_outputBytes l) ws /\
  l_inputBytes l' = foldl (fun i w => u32 (i + io_inputBytes w)) (l_inputBytes l) ws /\
  l_expectedWkc l' = l_expectedWkc l + wkc_of ws.
Definition sized (l : PdoLayout) : Prop := in_u 32 (l_outputBytes l) /\ in_u 32 (l_inputBytes l).

Lemma grown_one l w : sized l -> outputOffset w = l_outputBytes l -> inputOffset w = l_inputBytes l -> 0 <= io_outputBytes w -> 0 <= io_inputBytes w ->
  forall l', slaves l' = slaves l ++ [w] -> l_outputBytes l' = u32 (l_outputBytes l + io_outputBytes w) -> l_inputBytes l' = u32 (l_inputBytes l + io_inputBytes w) ->
  l_expectedWkc l' = l_expectedWkc l + wkc_share w -> grown l l' [w] /\ sized l'.
Proof.
  intros Hs Ho Hi Hob Hib l' E1 E2 E3 E4. split.
  - unfold grown. cbn. rewrite E1, E2, E3, E4. split_and!; done || lia.
  - unfold sized. rewrite E2, E3. split; apply uwrap_range; lia.
Qed.

Lemma configure_drive_grows l i h : sized l -> wp any (configure_drive config turns l i) h tt
  (fun r _ _ => forall l', r = Value l' -> exists w, grown l l' [w] /\ sized l' /\ io_slavePosition w = Z.of_nat i + 1).
Proof.
  intros Hs. pose proof Hs as [Ho Hi]. unfold configure_drive.
  assert (Hwithout : let w := mk_slave_io (Z.of_nat i + 1) (l_outputBytes l) 0 (l_inputBytes l) 0 in
    forall l', (Value (mk_layout (l_outputBytes l) (l_inputBytes l) (slaves l ++ [w]) (l_expectedWkc l)) : expected error PdoLayout) = Value l' ->
    exists w, grown l l' [w] /\ sized l' /\ io_slavePosition w = Z.of_nat i + 1).
  { intros w l' [= <-]. exists w. assert (Hz : forall x, in_u 32 x -> x = u32 (x + 0)) by (intros x Hx; unfold u32; by rewrite Z.add_0_r, uwrap_id).
    apply and_assoc. split; [|done]. apply (grown_one l w Hs); try reflexivity; [by apply Hz|by apply Hz|unfold wkc_share; cbn; lia]. }
  apply any_bind. intros _ h1. apply any_bind. intros s h2. destruct (s =? 0); [exact Hwithout|]. apply any_bind. intros [] h3; cbn [negb]; [|exact Hwithout].
  apply any_try; [|done]. intros ob h4. apply any_try; [|done]. intros ib h5. cbv zeta. apply any_bind. intros _ h6. apply any_try; [|done]. intros f h7.
  destruct (negb _); [done|]. apply any_try; [|done]. intros _ h8. apply any_bind. intros _ h9. cbn [wp]. intros l' [= <-].
  exists (mk_slave_io (Z.of_nat i + 1) (l_outputBytes l) (u32 (ob + 7) / 8) (l_inputBytes l) (u32 (ib + 7) / 8)). apply and_assoc. split; [|done].
  assert (Hpos : forall x, 0 <= u32 x / 8) by (intros x; apply Z.div_pos; [apply uwrap_range; lia|lia]).
  eapply (grown_one l); [done|reflexivity|reflexivity|apply Hpos|apply Hpos|reflexivity..|]. unfold wkc_share. cbn [l_expectedWkc io_outputBytes io_inputBytes]. lia.
Qed.

Lemma configure_drives_grow drives : forall l h, sized l -> wp any (configure_drives config turns l drives) h tt
  (fun r _ _ => forall l', r = Value l' -> exists ws, grown l l' ws /\ io_slavePosition <$> ws = (fun i => Z.of_nat i + 1) <$> drives).
Proof.
  induction drives as [|i drives IH]; intros l h Hs; cbn [configure_drives].
  - intros l' [= <-]. exists []. split; [|done]. unfold grown. cbn. rewrite app_nil_r. split_and!; done || lia.
  - apply wp_bind. eapply wp_mono; [|by apply configure_drive_grows]. intros [l1|e] h1 [] H1; cbv beta iota; [|done].
    destruct (H1 l1 eq_refl) as (w & (E1 & (Hw1 & Hw2 & Hw3 & Hw4 & _) & E2 & E3 & E4) & Hs1 & Hp). eapply wp_mono; [|by apply IH]. intros r h2 [] H2 l' ->.
    destruct (H2 l' eq_refl) as (ws & (F1 & Fl & F2 & F3 & F4) & Hps). exists (w :: ws). split; [|by rewrite !fmap_cons, Hps, Hp].
    cbn in E2, E3, E4. unfold grown. cbn [laid_out foldl wkc_of foldr]. fold (wkc_of ws). rewrite F1, E1, <- app_assoc, F2, F3, F4, E2, E3, E4, <- E2, <- E3. split_and!; done || lia.
Qed.
End Layout.

(** A successful [configureProcessData], whatever the drives answer, publishes a layout with one window per drive in the order of the positions, each window starting where the previous one ends, totals that are the sums of the windows, and the working counter they make together; and over drives with such windows a cycle of the RT thread changes the input image only inside them: each window gets the oldest frame of its drive that the limit keeps, or stays as it was, and the working counter never exceeds the expected one. *)
Theorem layout_exchanged config turns tr (Hr : runs (configureProcessData config turns) tr (Value tt)) :
  exists l, ev (SetLayout l) tt ∈ tr /\ io_slavePosition <$> slaves l = (fun i => Z.of_nat i + 1) <$> seq 0 (count config) /\
    laid_out 0 0 (slaves l) /\ l_expectedWkc l = wkc_of (slaves l) /\
    l_outputBytes l = foldl (fun o w => u32 (o + io_outputBytes w)) 0 (slaves l) /\ l_inputBytes l = foldl (fun i w => u32 (i + io_inputBytes w)) 0 (slaves l) /\
    forall m outs drives image, io <$> drives = slaves l -> Forall window_ok (slaves l) -> Forall connected drives ->
      let '(drives', image', c) := exchangeProcessData m outs drives image in
      length image' = length image /\ 0 <= c <= l_expectedWkc l /\
      forall j d, drives !! j = Some d -> exists d', drives' !! j = Some d' /\ window_of (io d) image' = delivered d image.
Proof.
  unfold configureProcessData, locked in Hr. cbn [bind call runs] in Hr. destruct Hr as ([] & tr1 & -> & Hr).
  apply runs_bind_inv in Hr as (t1 & t2 & r & -> & Hr & Hend). apply runs_bind_inv in Hr as (t3 & t4 & [] & -> & _ & Hr).
  apply runs_bind_inv in Hr as (t5 & t6 & res & -> & Hc & Hr).
  assert (Hf : forall tr : list (event answer), follows any tt tr tt) by (induction tr; econstructor; done).
  pose proof (wp_runs any _ _ t5 res [] tt tt Hc (configure_drives_grow config turns _ (mk_layout 0 0 [] 0) [] ltac:(by split)) (Hf t5)) as Hg. cbv beta in Hg.
  destruct res as [l|e]; [|destruct Hr as [-> ->]; cbn in Hend; destruct Hend as (? & ? & ? & ? & ?); done].
  destruct (Hg l eq_refl) as (ws & (E1 & Hl & E2 & E3 & E4) & Hp). cbn in E1, E2, E3, E4. exists l. rewrite E1.
  cbn [bind call runs] in Hr. destruct Hr as ([] & tr' & -> & _). split_and!; try done.
  - right. apply elem_of_app. left. apply elem_of_app. right. apply elem_of_app. right. left.
  - intros m outs drives image Hio Hw Hcon. rewrite E4. rewrite <- Hio in Hl, Hw |- *. pose proof (exchange_windows m outs drives 0 0 image Hl Hw Hcon ltac:(by split)) as H.
    destruct (exchangeProcessData _ _ _ _) as [[drives' image'] c]. destruct H as (? & ? & _ & Hwin). split_and!; try done; try lia.
    intros j d Hj. destruct (Hwin j d Hj) as (d' & ? & _ & _ & ?). eauto.
Qed.

Definition sdo_reply (h : list (event answer)) (o : op) : answer o :=
  match o with
  | Request _ type _ _ _ => Value (Spoe.mk_frame type 0 0 [2; 26])
  | Connect _ | IsOpen _ => true
  | ShouldAbort => false
  | LoadState _ | LoadVersion _ | Now => 2
  | GetInfo _ => no_info
  | GetLayout => mk_layout 0 0 [] 0
  | _ => tt
  end.
Definition sample_layout : list (event answer) * expected error unit := exec sdo_reply [] (configureProcessData two_drives 9).

Lemma layout_exchanged_witness : sample_layout.2 = Value tt /\ exists l, ev (SetLayout l) tt ∈ sample_layout.1 /\ laid_out 0 0 (slaves l) /\ l_expectedWkc l = wkc_of (slaves l).
Proof.
  assert (E : sample_layout.2 = Value tt) by (vm_compute; reflexivity). split; [done|].
  destruct (layout_exchanged two_drives 9 sample_layout.1) as (l & H1 & _ & H2 & H3 & _); [rewrite <- E; apply runs_exec|eauto].
Defined.

(** ** The end of reading a mapping *)
Definition is_count (data : bytes) : Prop := data !! 2%nat = Some 0.

(** A drive that answers a number of entries below 255. *)
Definition countable (e : event answer) : Prop :=
  let 'existT o x := e in
  (match o return answer o -> Prop with
   | Request _ type _ data _ => fun x => type = kSdoRead -> is_count data -> forall f b l, x = Value f -> Spoe.data f = b :: l -> 0 <= b < 255
   | _ => fun _ => True
   end) x.
Definition counting (e : event answer) (_ _ : unit) : Prop := countable e.
Definition is_out (e : event answer) : bool := match projT1 e with OutOfFuel => true | _ => false end.

Definition finishing {A} (s : script answer A) (P : A -> Prop) : Prop :=
  forall h, existsb is_out h = false -> wp counting s h tt (fun a h' _ => existsb is_out h' = false /\ P a).

Lemma finishing_bind {A B} (s : script answer A) (k : A -> script answer B) P Q : finishing s P -> (forall a, P a -> finishing (k a) Q) -> finishing (bind s k) Q.
Proof. intros Hs Hk h Hh. apply wp_bind. eapply wp_mono; [|by apply Hs]. intros a h1 [] [H1 Ha]. by apply (Hk a Ha). Qed.
Lemma finishing_ret {A} (a : A) (P : A -> Prop) : P a -> finishing (Ret a) P.
Proof. by intros Ha h Hh. Qed.
Lemma finishing_try {E A B} (s : script answer (expected E A)) (k : A -> script answer (expected E B)) P :
  finishing s (fun r => forall a, r = Value a -> P a) -> (forall a, P a -> finishing (k a) (fun _ => True)) -> finishing (try_ s k) (fun _ => True).
Proof. intros Hs Hk. eapply finishing_bind; [exact Hs|]. intros [a|e] Ha; [by apply Hk, Ha|by apply finishing_ret]. Qed.
Lemma finishing_ops {A} (s : script answer A) : all_ops (fun o => o <> OutOfFuel) s -> finishing s (fun _ => True).
Proof.
  induction s as [a|o k IH]; cbn [all_ops]; intros Hs h Hh; cbn [wp]; [done|]. destruct Hs as [Ho Hk]. intros x [] _. apply IH; [done|].
  rewrite existsb_app, Hh. cbn. by destruct o.
Qed.
Lemma finishing_weaken {A} (s : script answer A) (P Q : A -> Prop) : (forall a, P a -> Q a) -> finishing s P -> finishing s Q.
Proof. intros H Hs h Hh. eapply wp_mono; [|by apply Hs]. intros a h1 [] [? ?]. auto. Qed.
Lemma finishing_each {X} (f : X -> script answer unit) l : (forall x, finishing (f x) (fun _ => True)) -> finishing (each f l) (fun _ => True).
Proof. intros Hf. induction l as [|x l IH]; cbn [each]; [by apply finishing_ret|]. eapply finishing_bind; [apply Hf|]. by intros. Qed.

Section Ending.
Context (config : Config).
Ltac calls := apply finishing_ops; repeat all_ops_step.

Lemma read_u8_finishes i x s : finishing (read_u8 config i x s) (fun r => forall b, r = Value b -> s = 0 -> 0 <= b < 255).
Proof.
  intros h Hh. unfold read_u8, readSdoFrom, request, try_. cbn [bind call wp]. intros r [] Hc. destruct r as [f|[]]; cbn [bind wp call];
    try (rewrite existsb_app, Hh; done); try (intros [] [] _; cbn [bind wp]; rewrite !existsb_app, Hh; done).
  destruct (negb _); cbn [bind wp]; rewrite existsb_app, Hh; [done|]. destruct (Spoe.data f) as [|b l] eqn:E; cbn [wp]; split; try done.
  intros b' [= <-] ->. by apply (Hc eq_refl eq_refl f b l).
Qed.

Lemma add_entries_finishes i p c : 0 <= c < 255 -> forall n e b, 1 <= e <= c + 1 -> c + 1 - e <= Z.of_nat n -> finishing (add_entries config n i p c e b) (fun _ => True).
Proof.
  intros Hc. induction n as [|n IH]; intros e b He Hn; cbn [add_entries]; (destruct (c <? e) eqn:E; [by apply finishing_ret|apply Z.ltb_ge in E]); [lia|].
  apply (finishing_try _ _ (fun _ => True)); [eapply finishing_weaken; [|calls]; done|]. intros [|x l] _; [by apply finishing_ret|].
  apply IH; unfold u8; rewrite uwrap_id by (unfold in_u; lia); lia.
Qed.

Context (turns : nat) (Hturns : (255 <= turns)%nat).
Lemma add_pdos_finishes i a c : 0 <= c < 255 -> forall n e b, 1 <= e <= c + 1 -> c + 1 - e <= Z.of_nat n -> finishing (add_pdos config turns n i a c e b) (fun _ => True).
Proof using Type*.
  intros Hc. induction n as [|n IH]; intros e b He Hn; cbn [add_pdos]; (destruct (c <? e) eqn:E; [by apply finishing_ret|apply Z.ltb_ge in E]); [lia|].
  apply (finishing_try _ _ (fun _ => True)); [eapply finishing_weaken; [|calls]; done|]. intros l _. destruct (_ <? 2)%nat; [by apply finishing_ret|].
  apply (finishing_try _ _ (fun b => 0 <= b < 255)); [eapply finishing_weaken; [|apply read_u8_finishes]; eauto|]. intros m Hm.
  apply (finishing_try _ _ (fun _ => True)); [eapply finishing_weaken; [|apply add_entries_finishes; lia]; done|]. intros bits _.
  apply IH; unfold u8; rewrite uwrap_id by (unfold in_u; lia); lia.
Qed.

Lemma assignedBits_finishes i a : finishing (assignedBits config turns i a) (fun _ => True).
Proof using Type*.
  apply (finishing_try _ _ (fun b => 0 <= b < 255)); [eapply finishing_weaken; [|apply read_u8_finishes]; eauto|]. intros c Hc. apply add_pdos_finishes; lia.
Qed.

Lemma configure_finishes l drives : finishing (configure_drives config turns l drives) (fun _ => True).
Proof using Type*.
  revert l. induction drives as [|i drives IH]; intros l; cbn [configure_drives]; [by apply finishing_ret|].
  apply (finishing_try _ _ (fun _ => True)); [|by intros]. apply (finishing_weaken _ (fun _ => True)); [done|]. unfold configure_drive.
  eapply finishing_bind; [calls|]. intros _ _. eapply finishing_bind; [calls|]. intros s _. cbv beta zeta. destruct (s =? 0); [by apply finishing_ret|].
  eapply finishing_bind; [calls|]. intros [] _; cbn [negb]; [|by apply finishing_ret].
  do 2 (apply (finishing_try _ _ (fun _ => True)); [eapply finishing_weaken; [|apply assignedBits_finishes]; done|]; intros ? _). calls.
Qed.
End Ending.

(** A drive whose mapping object counts 255 entries. *)
Definition endless (h : list (event answer)) (o : op) : answer o :=
  match o with
  | Request _ type _ data _ => Value (Spoe.mk_frame type 0 0
      (if readU16 data 0 =? 0x1A00 then [255] else if byte_at data 2 =? 0 then [1] else [0; 26]))
  | Connect _ | IsOpen _ => true
  | ShouldAbort => false
  | LoadState _ | LoadVersion _ | Now => 2
  | GetInfo _ => no_info
  | GetLayout => mk_layout 0 0 [] 0
  | _ => tt
  end.

Lemma endless_entries config n : forall e b h, e <= 255 -> ev OutOfFuel tt ∈ (exec endless h (add_entries config n 0 0x1A00 255 e b)).1.
Proof.
  induction n as [|n IH]; intros e b h He; cbn [add_entries]; rewrite (proj2 (Z.ltb_ge _ _) He).
  - cbn [bind call exec]. apply elem_of_app. right. left.
  - unfold try_ at 1. rewrite exec_bind. apply IH. pose proof (uwrap_range 8 (e + 1) ltac:(lia)). unfold u8, in_u in *. lia.
Qed.

Lemma endless_bits config turns h : ev OutOfFuel tt ∈ (exec endless h (assignedBits config turns 0 0x1C12)).1.
Proof.
  unfold assignedBits. unfold try_ at 1. rewrite exec_bind. set (h1 := (exec _ _ (read_u8 _ _ _ _)).1). clearbody h1.
  change (exec endless h (read_u8 config 0 7186 0)).2 with (@Value error Z 1). cbv iota. destruct turns as [|n]; cbn [add_pdos].
  - cbn [Z.ltb Z.compare Pos.compare bind call exec]. apply elem_of_app. right. left.
  - change (1 <? 1) with false. cbv iota. unfold try_ at 1. rewrite exec_bind. set (h2 := (exec _ _ (readSdoFrom _ _ _ _)).1). clearbody h2.
    change (exec endless h1 (readSdoFrom config 0 7186 1)).2 with (@Value error bytes [0; 26]). cbn [length Nat.ltb Nat.leb]. change (readU16 [0; 26] 0) with 0x1A00.
    unfold try_ at 1. rewrite exec_bind. change (exec endless h2 (read_u8 config 0 6656 0)).2 with (@Value error Z 255). cbv iota.
    unfold try_ at 1. rewrite exec_bind. apply exec_grows, endless_entries. lia.
Qed.

Lemma endless_drive config turns l h : ev OutOfFuel tt ∈ (exec endless h (configure_drive config turns l 0)).1.
Proof.
  unfold configure_drive. cbv zeta. rewrite exec_bind. cbv beta. rewrite exec_bind. cbn [call exec endless snd fst Z.eqb]. rewrite exec_bind. cbn [call exec endless snd fst negb].
  unfold try_ at 1. rewrite exec_bind. apply exec_grows, endless_bits.
Qed.

(** [configureProcessData] ends on drives whose assignment and mapping objects count fewer than 255 entries; on a drive that counts 255 it never does: its 8-bit counter wraps, so however many turns it takes it holds the bus lock and goes on reading. *)
Theorem mapping_read_ends config turns :
  (forall tr r, (255 <= turns)%nat -> runs (configureProcessData config turns) tr r -> Forall countable tr -> existsb is_out tr = false) /\
  (hosts config <> [] -> ev OutOfFuel tt ∈ (exec endless [] (configureProcessData config turns)).1).
Proof.
  split.
  - intros tr r Ht Hr Hc. assert (Hf : follows counting tt tr tt) by (clear -Hc; induction Hc; econstructor; done).
    assert (Hfin : finishing (configureProcessData config turns) (fun _ => True)).
    { unfold configureProcessData, locked. eapply finishing_bind; [apply finishing_ops; repeat all_ops_step|]. intros _ _.
      eapply finishing_bind with (P := fun _ => True); [|intros a _; apply finishing_ops; repeat all_ops_step]. eapply finishing_bind with (P := fun _ => True).
      - apply finishing_each. intros. apply finishing_ops. repeat all_ops_step.
      - intros _ _. apply (finishing_try _ _ (fun _ => True)); [eapply finishing_weaken; [|by apply configure_finishes]; done|]. intros l _.
        eapply finishing_bind; [apply finishing_ops; repeat all_ops_step|]. intros _ _. eapply finishing_bind with (P := fun _ => True); [|intros; by apply finishing_ret].
        apply finishing_each. intros [i w]. apply finishing_ops. repeat all_ops_step. }
    exact (proj1 (wp_runs counting _ _ tr r [] tt tt Hr (Hfin [] eq_refl) Hf)).
  - intros Hh. unfold configureProcessData, locked. rewrite exec_bind. cbv beta. rewrite exec_bind. apply exec_grows. rewrite exec_bind. unfold try_ at 1. rewrite exec_bind.
    apply exec_grows. unfold all_drives, count. destruct (hosts config) as [|x hs]; [done|]. cbn [length seq configure_drives]. unfold try_ at 1. rewrite exec_bind. apply exec_grows.
    apply endless_drive.
Qed.
End Exchange.
